(* ===== verification/_CoqProject ===== *)
-Q . S2P
Prelude.v
Enums.v
Strings.v
Uri.v
StorageUris.v
StorageVacuum.v
StorageLocks.v
ConstBuffer.v
Buffer.v
PreallocatedBuffer.v
RLE.v
DoubleDelta.v
DoubleDeltaProofs.v
LRUCache.v
Num.v
NumFacts.v
Loops.v
Filter.v
Range.v
Metadata.v
MetadataProofs.v
Dimension.v
DimensionProofs.v
DimensionChecks.v
DimensionSerial.v
Domain.v
DomainCells.v
DomainProofs.v
DomainTraversal.v
DomainRanges.v
Attribute.v
ArraySchema.v
ArraySchemaProofs.v
Consolidator.v
ConsolidatorProofs.v
Comparators.v
RTree.v
RTreeBuild.v
RTreeProofs.v
Subarray.v
SubarrayTiles.v
SubarrayPartitioner.v
SubarrayRanges.v
SubarrayParts.v
CellSlabs.v
CellSlabIteration.v
CellSlabProofs.v
PartitionerProofs.v
PartitionerCover.v
SubarrayInts.v
SubarrayEstimates.v
Partitions.v
ChunkedBuffer.v
ChunkedProofs.v
ChunkedGrowth.v
ChunkedSpec.v
Tile.v
Shuffle.v
FilterBuffer.v
FilterIO.v
FilterWrite.v
FilterViews.v
FilterRun.v
FilterSpec.v
FilterShuffle.v
FilterWindows.v
FilterDelta.v
FilterWidth.v
Pipeline.v
PipelineProofs.v
PipelineFormat.v
PipelineRoundtrip.v
PipelineSkip.v
FilterFixed.v
PipelineTile.v
Codecs.v
Compression.v
CodecLaws.v
FilterInstances.v
