(* ===== verification/Prelude.v ===== *)
(** * Verification of the TileDB storage engine

    TileDB stores dense and sparse multi-dimensional arrays.  An array schema
    names the dimensions and attributes; cells are grouped into tiles, tiles
    are filtered (compressed, shuffled, reduced in width) and written to
    fragments; a sparse fragment is indexed by an R-tree over the bounding
    rectangles of its tiles, and filtered tiles are kept in an LRU cache.  A
    query reads the cells of a subarray, one partition at a time.  Fragments are
    consolidated into larger ones and the old ones vacuumed.  The files below
    translate the C++ of src/tiledb/sm into Rocq functions and prove what the
    code relies on.

    ** How the code is modelled

    - [Prelude]: statuses and outcomes.  [res A] is the result of a call:
      [Ok], [Err] with the status code and message, or [UB] for a failed
      assertion, an access out of bounds, signed overflow, division by zero or
      a loop that does not end.  [M S A] threads a state that survives
      errors.  Integers are [Z] at an explicit C type ([ctype], [conv],
      [cadd], ...), bytes are [Z] lists, and raw memory is read and written
      with [memread] and [memwrite].
    - [Loops]: counted loops over arrays, [parallel_for],
      mixed radix numbers.
    - [Num], [NumFacts]: the numeric template parameter of the code (integers
      and IEEE floats, by [SpecFloat]); exactness of small integers and of
      quotients, monotonicity of sums and products.

    ** Components and their theorems

    Data and files.
    - [Enums] (enums/*.h): enumerations, their codes and strings.
    - [Strings], [Uri] (misc/utils.cc, misc/uuid.cc, misc/uri.cc,
      filesystem/posix.cc): numbers in strings, paths, names of fragments.  The
      time in the name of a new fragment is the time read from it.
    - [ConstBuffer], [Buffer], [PreallocatedBuffer] (buffer/): the three byte
      buffers.  [realloc] is the class [Allocator], which may fail.
    - [LRUCache] (cache/): the list with its map of iterators refines a list
      ordered by use, without leaks; two defects.
    - [ChunkedBuffer], [ChunkedProofs], [ChunkedGrowth], [ChunkedSpec]
      (tile/chunked_buffer.cc), [Tile] (tile/tile.cc): chunks of memory that
      behave as one array of bytes.

    Schema.
    - [Range], [Dimension], [DimensionProofs], [DimensionChecks],
      [DimensionSerial] (misc/types.h, array_schema/dimension.cc): ranges of
      one dimension for all types, the checks on domains and extents, the
      stored form.
    - [Domain], [DomainCells], [DomainProofs], [DomainTraversal],
      [DomainRanges] (array_schema/domain.cc): the position of a cell and of a
      tile, the traversal of cells, boxes and their overlap.
    - [Comparators] (misc/comparators.h): the orders used for sorting.
    - [Attribute], [ArraySchema], [ArraySchemaProofs] (array_schema/): schemas
      built by any sequence of operations that pass [check] find every name,
      and are read back from their stored form.

    Filters.
    - [RLE], [DoubleDelta], [DoubleDeltaProofs] (compressors/): the two
      compressors implemented here, bit by bit, and their round trips.
      [Codecs], [CodecLaws]: all compressors behind one interface.  zlib, zstd,
      lz4 and bzip2 are parameters with their documented laws.
    - [Filter] (filter/): filters and pipelines as configuration, and their
      stored form.
    - [Shuffle], [FilterBuffer], [FilterIO], [FilterWrite], [FilterViews]
      (filter/filter_buffer.cc, filter/filter_storage.cc): the shared buffers
      that filters read and write, their invariant [good] and framing.
    - [FilterRun], [FilterSpec], [FilterShuffle], [FilterWindows],
      [FilterDelta], [FilterWidth], [FilterFixed], [Compression],
      [FilterInstances] (filter/*_filter.cc): the filters,
      and that what each puts out can be reversed.
    - [Pipeline], [PipelineProofs], [PipelineFormat],
      [PipelineRoundtrip], [PipelineSkip], [PipelineTile]
      (filter/filter_pipeline.cc): a tile that is filtered and unfiltered, in
      full or for the cell ranges of a query, has its bytes again.  Pipelines
      are proved against the interface [lossless], which [FilterInstances]
      discharges.

    Queries.
    - [RTree], [RTreeBuild], [RTreeProofs] (rtree/): a query on the tree
      reports each tile that overlaps the range once, with its ratio.
    - [Subarray], [SubarrayTiles] (subarray/subarray.cc): the ranges of a query
      and their numbering, the tiles they overlap, and the estimates of the
      sizes of the result.  Fragments are the class [FragmentMeta].
      [SubarrayPartitioner] (subarray/subarray_partitioner.cc): the partitions.
    - [SubarrayRanges], [SubarrayParts], [PartitionerProofs],
      [PartitionerCover]: intervals of numbers that are boxes, and the invariant
      of the partitioner, for dimensions with the laws [RangeLaws].
      [SubarrayInts] discharges them for the integer types, and
      [SubarrayEstimates] shows that the estimates return.
    - [Partitions]: the partitions of a read hold every cell exactly as often as
      its subarray; the numbering has no gaps; two defects.
    - [CellSlabs], [CellSlabIteration], [CellSlabProofs]
      (subarray/cell_slab_iter.cc, subarray/cell_slab.h): the iterator over the
      runs of cells of a dense read gives exactly the cells of the subarray, in
      order, each run within one tile; two defects on narrow coordinates.

    Storage manager.
    - [Metadata], [MetadataProofs] (metadata/): what was put last in the
      metadata files is what is read; consolidation keeps it.
    - [StorageUris], [StorageVacuum] (storage_manager/storage_manager.cc):
      which fragments an array is opened with and which ones vacuuming removes,
      on any file system with the laws of the class [VFS].
    - [StorageLocks]: threads that open, close and lock arrays, as a step
      relation; mutual exclusion by rule induction, and a deadlock.
    - [Consolidator], [ConsolidatorProofs] (storage_manager/consolidator.cc):
      the choice of the next fragments, and the end of the loop over the steps.

    ** Fuel

    Loops whose recursion is not structural take fuel, and the theorems show that
    it is enough: they conclude that the code returns [Ok].
    - [LRUCache.evict_for]: one more than the nodes, since a turn removes one.
    - [DomainCells.carry_col]: one more than the dimensions.
    - [RTree.traverse]: the number of nodes, each visited at most once.
    - [Buffer.grow], [ChunkedBuffer.grow_size]: 64 doublings of a 64-bit size.
    - [ChunkedBuffer.read_chunks], [write_chunks]: the number of chunks.
    - [DoubleDelta.count_bits], [write_bits], [read_bits], and
      [FilterRun.bits_required_unsigned]: the bits of a word.
    - [Metadata.load_items]: the bytes of the buffer, since an item has some.
    - [SubarrayPartitioner.split_loop], [partitions]: the number of cells of the
      subarray, since a split leaves at least a cell on both sides.
    - [CellSlabs.slabs]: the number of cells of the subarray, since every slab
      has a cell.
    - [Consolidator.consolidate_loop]: the number of fragments.

    ** Not modelled

    - Code that only calls other libraries or the system: file system backends,
      the REST client, Cap'n Proto serialization, cryptography, statistics,
      logging, the C and C++ interfaces, the command-line tools.
    - Bitshuffle (vectorised code of a library) and the encryption filters.
    - Queries (query/) and the metadata of fragments, which the files on
      subarrays use as an interface.
    - [dump] functions, whose only effect is text on a stream.
    - Floating-point dimensions in the theorems on partitions: splitting a range of
      doubles does not count cells. *)

From stdpp Require Export base tactics list numbers option strings.
From Stdlib Require Export ZArith Lia.

Local Open Scope Z_scope.

(** ** Status and outcomes *)

(** [StatusCode] of misc/status.h. *)
Inductive StatusCode : Set :=
| SC_Error | SC_StorageManager | SC_FragmentMetadata | SC_ArraySchema
| SC_Metadata | SC_IO | SC_Mem | SC_GZip | SC_Compression | SC_Tile
| SC_TileIO | SC_ChunkedBuffer | SC_Buffer | SC_Query | SC_VFS
| SC_ConstBuffer | SC_Dimension | SC_Domain | SC_Consolidator | SC_LRUCache
| SC_KV | SC_KVItem | SC_KVIter | SC_Config | SC_Utils | SC_FS_S3
| SC_FS_AZURE | SC_FS_GCS | SC_FS_HDFS | SC_Attribute
| SC_WriteCellSlabIter | SC_Reader | SC_Writer | SC_PreallocatedBuffer
| SC_Filter | SC_Encryption | SC_Array | SC_VFSFileHandleError
| SC_ContextError | SC_SubarrayError | SC_SubarrayPartitionerError
| SC_RTreeError | SC_CellSlabIterError | SC_RestError
| SC_SerializationError | SC_ChecksumError.

(** The outcome of running C++ code: [Ok a] is [Status::Ok()] (or a plain
    return) with its value, [Err] a non-Ok [Status], and [UB] a failed
    [assert], an out-of-bounds access, signed overflow, division by zero or a
    loop that does not end. *)
Inductive res (A : Type) : Type :=
| Ok (a : A)
| Err (code : StatusCode) (msg : string)
| UB.
Arguments Ok {A} a.
Arguments Err {A} code msg.
Arguments UB {A}.

#[global] Instance res_ret : MRet res := @Ok.
#[global] Instance res_bind : MBind res := fun A B f m =>
  match m with Ok a => f a | Err c e => Err c e | UB => UB end.

(** [assert(b)]. *)
Definition massert (b : bool) : res unit := if b then Ok () else UB.

(** An operation on an object of type [S]: it returns an outcome and the
    object as the operation leaves it, also when it fails. *)
Definition M (S A : Type) : Type := S → res A * S.

#[global] Instance M_ret {S} : MRet (M S) := fun A a s => (Ok a, s).
#[global] Instance M_bind {S} : MBind (M S) := fun A B f m s =>
  match m s with
  | (Ok a, s') => f a s'
  | (Err c e, s') => (Err c e, s')
  | (UB, s') => (UB, s')
  end.

Definition get {S} : M S S := fun s => (Ok s, s).
Definition put {S} (s : S) : M S unit := fun _ => (Ok (), s).
Definition lift {S A} (r : res A) : M S A := fun s => (r, s).
Definition fail {S A} (c : StatusCode) (e : string) : M S A := fun s => (Err c e, s).

(** Runs an operation on one of two objects. *)
Definition on_fst {S1 S2 A} (m : M S1 A) : M (S1 * S2) A := fun '(s1, s2) =>
  let '(r, s1') := m s1 in (r, (s1', s2)).
Definition on_snd {S1 S2 A} (m : M S2 A) : M (S1 * S2) A := fun '(s1, s2) =>
  let '(r, s2') := m s2 in (r, (s1, s2')).

(** One step of an operation that succeeds. *)
Lemma M_step {S A B} (m : M S A) (k : A → M S B) a s s' :
  m s = (Ok a, s') → (m ≫= k) s = k a s'.
Proof. intros E. unfold mbind, M_bind. by rewrite E. Qed.

Definition is_ok {A} (r : res A) : bool := match r with Ok _ => true | _ => false end.

Lemma bind_ok {A B} (m : res A) (f : A → res B) b :
  m ≫= f = Ok b ↔ ∃ a, m = Ok a ∧ f a = Ok b.
Proof. destruct m; unfold mbind; simpl; split; intros Hm; try done; eauto;
  destruct Hm as (? & [=] & ?); by subst. Qed.

Lemma massert_ok b u : massert b = Ok u → b = true.
Proof. destruct b; [done|discriminate]. Qed.

(** ** C integer types

    The fixed-width types the templates are instantiated with ([int] is
    [int32_t], [char] is [int8_t], as on the platforms TileDB builds on). *)

Inductive ctype : Set := I8 | U8 | I16 | U16 | I32 | U32 | I64 | U64.

#[global] Instance ctype_eq_dec : EqDecision ctype.
Proof. solve_decision. Defined.

Definition csize (t : ctype) : Z :=
  match t with
  | I8 | U8 => 1 | I16 | U16 => 2 | I32 | U32 => 4 | I64 | U64 => 8
  end.

Definition bits (t : ctype) : Z := 8 * csize t.

Definition is_signed (t : ctype) : bool :=
  match t with I8 | I16 | I32 | I64 => true | _ => false end.

(** [std::numeric_limits<T>::min()] and [max()]. *)
Definition tmin (t : ctype) : Z := if is_signed t then - 2 ^ (bits t - 1) else 0.
Definition tmax (t : ctype) : Z :=
  if is_signed t then 2 ^ (bits t - 1) - 1 else 2 ^ bits t - 1.

Definition in_ctype (t : ctype) (z : Z) : Prop := tmin t ≤ z ≤ tmax t.

Definition fits (t : ctype) (z : Z) : bool := (tmin t <=? z) && (z <=? tmax t).

(** Conversion of an integer to type [t] (modulo [2^bits], two's complement). *)
Definition conv (t : ctype) (z : Z) : Z :=
  let m := z mod 2 ^ bits t in
  if is_signed t && (2 ^ (bits t - 1) <=? m) then m - 2 ^ bits t else m.

(** Integer promotion, and the type two operands are converted to. *)
Definition promote (t : ctype) : ctype :=
  match t with I8 | U8 | I16 | U16 => I32 | _ => t end.

Definition common (t1 t2 : ctype) : ctype :=
  match promote t1, promote t2 with
  | U64, _ | _, U64 => U64
  | I64, _ | _, I64 => I64
  | U32, _ | _, U32 => U32
  | _, _ => I32
  end.

(** The value of an arithmetic operation carried out in type [t]: unsigned
    types wrap around, signed overflow is undefined. *)
Definition arith (t : ctype) (z : Z) : res Z :=
  if is_signed t then (if fits t z then Ok z else UB) else Ok (z mod 2 ^ bits t).

Definition cadd t a b := arith t (a + b).
Definition csub t a b := arith t (a - b).
Definition cmul t a b := arith t (a * b).
Definition cdiv t a b : res Z := if b =? 0 then UB else arith t (Z.quot a b).
Definition crem t a b : res Z := if b =? 0 then UB else arith t (Z.rem a b).

(** [uint64_t] arithmetic. *)
Definition u64 (z : Z) : Z := z mod 2 ^ 64.
Definition u64_max : Z := 2 ^ 64 - 1.

Create HintDb cint.

Ltac unfold_ctype :=
  unfold in_ctype, tmin, tmax, bits, csize, is_signed, u64_max in *.

Lemma conv_in t z : in_ctype t (conv t z).
Proof.
  unfold conv.
  assert (0 ≤ z mod 2 ^ bits t < 2 ^ bits t)
    by (apply Z.mod_pos_bound; destruct t; reflexivity).
  destruct t; unfold_ctype; simpl in *;
    try (case_match; apply Z.leb_le in H0 || apply Z.leb_gt in H0); lia.
Qed.

Lemma conv_id t z : in_ctype t z → conv t z = z.
Proof.
  intros Hz. unfold conv.
  destruct (decide (0 ≤ z)) as [Hp|Hn].
  - rewrite Z.mod_small by (destruct t; unfold_ctype; simpl in *; lia).
    destruct t; unfold_ctype; simpl in *; try done;
      (case_match eqn:E; [apply Z.leb_le in E|]; lia).
  - assert (z mod 2 ^ bits t = z + 2 ^ bits t) as ->.
    { symmetry. apply (Z.mod_unique_pos _ _ (-1)); destruct t; unfold_ctype; simpl in *; lia. }
    destruct t; unfold_ctype; simpl in *; try lia;
      (case_match eqn:E; [|apply Z.leb_gt in E]; lia).
Qed.

Lemma conv_mod t z : conv t (z mod 2 ^ bits t) = conv t z.
Proof. unfold conv. by rewrite Z.mod_mod by (destruct t; done). Qed.

(** Reducing modulo [2^64] first does not change a conversion. *)
Lemma conv_of_u64 t x : conv t (u64 x) = conv t x.
Proof.
  unfold conv, u64. rewrite Z.mod_mod_divide; [done|].
  exists (2 ^ (64 - bits t)). by destruct t.
Qed.

Lemma u64_add_conv x y : u64 (conv U64 x + y) = u64 (x + y).
Proof. unfold u64, conv. simpl. apply Zplus_mod_idemp_l. Qed.

Lemma fits_spec t z : fits t z = true ↔ in_ctype t z.
Proof. unfold fits, in_ctype. rewrite andb_true_iff, !Z.leb_le. done. Qed.

Lemma arith_ok t z : in_ctype t z → arith t z = Ok z.
Proof.
  intros Hz. unfold arith. destruct (is_signed t) eqn:E.
  - by rewrite (proj2 (fits_spec t z) Hz).
  - f_equal. apply Z.mod_small. destruct t; unfold_ctype; simpl in *; try done; lia.
Qed.

Lemma arith_unsigned t z : is_signed t = false → arith t z = Ok (z mod 2 ^ bits t).
Proof. unfold arith. by intros ->. Qed.

Lemma u64_id z : 0 ≤ z < 2 ^ 64 → u64 z = z.
Proof. intros. by apply Z.mod_small. Qed.

Lemma u64_range z : 0 ≤ u64 z < 2 ^ 64.
Proof. by apply Z.mod_pos_bound. Qed.

Lemma bits_pos t : 0 < bits t.
Proof. destruct t; done. Qed.

Lemma in_promote t z : in_ctype t z → in_ctype (promote t) z.
Proof. destruct t; unfold_ctype; simpl; lia. Qed.

#[export] Hint Resolve conv_in in_promote bits_pos u64_range : cint.

(** ** Bytes, little endian *)

Definition byte_ok (b : Z) : Prop := 0 ≤ b < 256.

Fixpoint le_enc (n : nat) (z : Z) : list Z :=
  match n with O => [] | S n => z mod 256 :: le_enc n (z / 256) end.

Fixpoint le_dec (bs : list Z) : Z :=
  match bs with [] => 0 | b :: bs => b + 256 * le_dec bs end.

Lemma length_le_enc n z : length (le_enc n z) = n.
Proof. revert z. induction n; intros; simpl; auto. Qed.

Lemma le_enc_bytes n z : Forall byte_ok (le_enc n z).
Proof.
  revert z. induction n; intros; simpl; constructor; auto.
  by apply Z.mod_pos_bound.
Qed.

Lemma le_dec_enc n z : le_dec (le_enc n z) = z mod 256 ^ Z.of_nat n.
Proof.
  revert z. induction n as [|n IH]; intros z; [by rewrite Z.mod_1_r|].
  simpl le_enc. simpl le_dec. rewrite IH, Nat2Z.inj_succ, Z.pow_succ_r by lia.
  rewrite Z.rem_mul_r by lia. lia.
Qed.

Lemma le_dec_bound bs : Forall byte_ok bs → 0 ≤ le_dec bs < 256 ^ Z.of_nat (length bs).
Proof.
  induction 1 as [|b bs Hb _ IH]; simpl length; simpl le_dec; [lia|].
  rewrite Nat2Z.inj_succ, Z.pow_succ_r by lia. unfold byte_ok in Hb. lia.
Qed.

Lemma le_enc_dec bs : Forall byte_ok bs → le_enc (length bs) (le_dec bs) = bs.
Proof.
  induction 1 as [|b bs Hb _ IH]; simpl; [done|]. unfold byte_ok in Hb.
  rewrite (Z.mul_comm 256), Z.mod_add, Z.mod_small by lia.
  by rewrite Z.div_add, (Z.div_small b), Z.add_0_l, IH by lia.
Qed.

Lemma le_enc_mod n x y : x mod 256 ^ Z.of_nat n = y mod 256 ^ Z.of_nat n → le_enc n x = le_enc n y.
Proof.
  revert x y. induction n as [|n IH]; intros x y; [done|].
  rewrite Nat2Z.inj_succ, Z.pow_succ_r, !Z.rem_mul_r by lia. intros E.
  pose proof (Z.mod_pos_bound x 256 ltac:(lia)). pose proof (Z.mod_pos_bound y 256 ltac:(lia)).
  assert (x mod 256 = y mod 256 ∧ (x / 256) mod 256 ^ Z.of_nat n = (y / 256) mod 256 ^ Z.of_nat n) as [H1 H2] by lia.
  simpl. f_equal; [done|by apply IH].
Qed.

Lemma conv_modulo t z : conv t z mod 2 ^ bits t = z mod 2 ^ bits t.
Proof.
  unfold conv. case_match; [|apply Z.mod_mod; by destruct t].
  replace (z mod 2 ^ bits t - 2 ^ bits t) with (z mod 2 ^ bits t + -1 * 2 ^ bits t) by lia.
  rewrite Z.mod_add by (by destruct t). apply Z.mod_mod. by destruct t.
Qed.

(** The object representation of a value of an integer type. *)
Definition to_bytes (t : ctype) (z : Z) : list Z := le_enc (Z.to_nat (csize t)) z.
Definition of_bytes (t : ctype) (bs : list Z) : Z := conv t (le_dec bs).

Lemma length_to_bytes t z : length (to_bytes t z) = Z.to_nat (csize t).
Proof. apply length_le_enc. Qed.

Lemma to_bytes_ok t z : Forall byte_ok (to_bytes t z).
Proof. apply le_enc_bytes. Qed.

Lemma of_to_bytes t z : in_ctype t z → of_bytes t (to_bytes t z) = z.
Proof.
  intros Hz. unfold of_bytes, to_bytes. rewrite le_dec_enc.
  replace (256 ^ Z.of_nat (Z.to_nat (csize t))) with (2 ^ bits t)
    by (destruct t; reflexivity).
  rewrite conv_mod. by apply conv_id.
Qed.

Lemma to_of_bytes t bs : Forall byte_ok bs → Z.of_nat (length bs) = csize t →
  to_bytes t (of_bytes t bs) = bs.
Proof.
  intros Hb Hl. unfold to_bytes, of_bytes. pose proof (le_dec_bound bs Hb) as Hd.
  rewrite <- Hl, Nat2Z.id. transitivity (le_enc (length bs) (le_dec bs)); [|by apply le_enc_dec].
  apply le_enc_mod. rewrite Hl.
  replace (256 ^ csize t) with (2 ^ bits t) by (destruct t; reflexivity). apply conv_modulo.
Qed.

Lemma of_bytes_in t bs : in_ctype t (of_bytes t bs).
Proof. apply conv_in. Qed.

#[global] Opaque to_bytes of_bytes.

#[export] Hint Resolve to_bytes_ok le_enc_bytes of_to_bytes : cint.

(** ** Memory blocks *)

Definition zlen {A} (l : list A) : Z := Z.of_nat (length l).

(** [n] elements of [l] from position [off]. *)
Definition slice {A} (off n : Z) (l : list A) : list A :=
  take (Z.to_nat n) (drop (Z.to_nat off) l).

(** [l] with [x] copied over it at position [off]. *)
Definition overlay {A} (off : Z) (x l : list A) : list A :=
  take (Z.to_nat off) l ++ x ++ drop (Z.to_nat off + length x) l.

(** [memcpy] from a block: undefined outside of it. *)
Definition memread {A} (l : list A) (off n : Z) : res (list A) :=
  if (0 <=? off) && (0 <=? n) && (off + n <=? zlen l) then Ok (slice off n l) else UB.

(** [memcpy] into a block: undefined outside of it. *)
Definition memwrite {A} (l : list A) (off : Z) (x : list A) : res (list A) :=
  if (0 <=? off) && (off + zlen x <=? zlen l) then Ok (overlay off x l) else UB.

Lemma zlen_nonneg {A} (l : list A) : 0 ≤ zlen l.
Proof. unfold zlen. lia. Qed.

Lemma zlen_nil {A} : zlen (@nil A) = 0.
Proof. done. Qed.

Lemma zlen_cons {A} (x : A) l : zlen (x :: l) = zlen l + 1.
Proof. unfold zlen. simpl length. lia. Qed.

Lemma zlen_pos {A} (l : list A) : l ≠ [] → 0 < zlen l.
Proof. destruct l; [done|]. intros _. rewrite zlen_cons. pose proof (zlen_nonneg l). lia. Qed.

Lemma zlen_app {A} (l k : list A) : zlen (l ++ k) = zlen l + zlen k.
Proof. unfold zlen. rewrite length_app. lia. Qed.

Lemma zlen_to_bytes t z : zlen (to_bytes t z) = csize t.
Proof. unfold zlen. rewrite length_to_bytes. destruct t; done. Qed.

Lemma zlen_slice {A} off n (l : list A) :
  0 ≤ off → 0 ≤ n → off + n ≤ zlen l → zlen (slice off n l) = n.
Proof. unfold zlen, slice. intros. rewrite length_take, length_drop. lia. Qed.

Lemma zlen_overlay {A} off (x l : list A) :
  0 ≤ off → off + zlen x ≤ zlen l → zlen (overlay off x l) = zlen l.
Proof.
  unfold zlen, overlay. intros.
  rewrite !length_app, length_take, length_drop. lia.
Qed.

Lemma memread_ok {A} (l : list A) off n :
  0 ≤ off → 0 ≤ n → off + n ≤ zlen l → memread l off n = Ok (slice off n l).
Proof.
  intros. unfold memread.
  by rewrite !(proj2 (Z.leb_le _ _)) by lia.
Qed.

Lemma memwrite_ok {A} (l x : list A) off :
  0 ≤ off → off + zlen x ≤ zlen l → memwrite l off x = Ok (overlay off x l).
Proof.
  intros. unfold memwrite. by rewrite !(proj2 (Z.leb_le _ _)) by lia.
Qed.

Lemma slice_overlay_same {A} off (x l : list A) :
  0 ≤ off → off + zlen x ≤ zlen l → slice off (zlen x) (overlay off x l) = x.
Proof.
  unfold zlen, slice, overlay. intros.
  rewrite drop_app_ge by (rewrite length_take; lia).
  rewrite length_take.
  replace (Z.to_nat off - Nat.min (Z.to_nat off) (length l))%nat with 0%nat by lia.
  rewrite drop_0, take_app_le by lia. apply take_ge. lia.
Qed.

Lemma slice_0_overlay {A} off (x l : list A) :
  0 ≤ off → off + zlen x ≤ zlen l →
  slice 0 (off + zlen x) (overlay off x l) = slice 0 off l ++ x.
Proof.
  unfold zlen, slice, overlay. intros. rewrite !drop_0.
  rewrite app_assoc, take_app_le by (rewrite length_app, length_take; lia).
  apply take_ge. rewrite length_app, length_take. lia.
Qed.

Lemma slice_all {A} (l : list A) : slice 0 (zlen l) l = l.
Proof. unfold slice, zlen. rewrite drop_0. apply take_ge. lia. Qed.

Lemma slice_app_l {A} off n (l k : list A) :
  0 ≤ off → 0 ≤ n → off + n ≤ zlen l → slice off n (l ++ k) = slice off n l.
Proof.
  unfold slice, zlen. intros. rewrite drop_app_le by lia.
  by rewrite take_app_le by (rewrite length_drop; lia).
Qed.

Lemma slice_app_r {A} n (l k : list A) : slice (zlen l) n (l ++ k) = slice 0 n k.
Proof.
  unfold slice, zlen. rewrite Nat2Z.id, drop_app_length. by rewrite drop_0.
Qed.

Lemma slice_app_exact {A} (l x k : list A) : slice (zlen l) (zlen x) (l ++ x ++ k) = x.
Proof.
  rewrite slice_app_r. rewrite slice_app_l by (unfold zlen; lia). apply slice_all.
Qed.

(** Reading back a block in the middle of another. *)
Lemma memread_at {A} (d : list A) off n pre x post :
  d = pre ++ x ++ post → off = zlen pre → n = zlen x → memread d off n = Ok x.
Proof.
  intros -> -> ->. pose proof (zlen_nonneg pre). pose proof (zlen_nonneg x).
  pose proof (zlen_nonneg post).
  rewrite memread_ok by (rewrite ?zlen_app; lia). by rewrite slice_app_exact.
Qed.

(** The representation of an array of values. *)
Definition vals_bytes (t : ctype) (xs : list Z) : list Z := concat (to_bytes t <$> xs).

Lemma zlen_vals_bytes t xs : zlen (vals_bytes t xs) = zlen xs * csize t.
Proof.
  induction xs as [|x xs IH]; [done|].
  change (vals_bytes t (x :: xs)) with (to_bytes t x ++ vals_bytes t xs).
  rewrite zlen_app, IH, zlen_to_bytes. unfold zlen. simpl length. lia.
Qed.

Lemma vals_bytes_app t xs ys : vals_bytes t (xs ++ ys) = vals_bytes t xs ++ vals_bytes t ys.
Proof. unfold vals_bytes. by rewrite fmap_app, concat_app. Qed.

Lemma vals_bytes_one t x : vals_bytes t [x] = to_bytes t x.
Proof. unfold vals_bytes. simpl. by rewrite app_nil_r. Qed.

Lemma vals_bytes_ok t xs : Forall byte_ok (vals_bytes t xs).
Proof.
  induction xs as [|x xs IH]; [constructor|].
  change (vals_bytes t (x :: xs)) with (to_bytes t x ++ vals_bytes t xs).
  apply Forall_app. split; [apply to_bytes_ok|done].
Qed.

(** Closes side conditions on block sizes. *)
Ltac zlen_solve :=
  rewrite ?zlen_app, ?zlen_to_bytes, ?zlen_vals_bytes in *;
  unfold zlen in *; cbn [csize length] in *; lia.
