(* ===== verification/Enums.v ===== *)
(** * Enumerations (enums/*.h, c_api/tiledb_enum.h)

    Every enumeration the modelled code switches on: its constructors, the
    numeric codes that are stored in files, and the conversions to and from
    strings (misc/constants.cc). *)

From S2P Require Import Prelude.
Local Open Scope Z_scope.
Local Open Scope string_scope.

Inductive Datatype : Set :=
| INT32
| INT64
| FLOAT32
| FLOAT64
| CHAR
| INT8
| UINT8
| INT16
| UINT16
| UINT32
| UINT64
| STRING_ASCII
| STRING_UTF8
| STRING_UTF16
| STRING_UTF32
| STRING_UCS2
| STRING_UCS4
| ANY
| DATETIME_YEAR
| DATETIME_MONTH
| DATETIME_WEEK
| DATETIME_DAY
| DATETIME_HR
| DATETIME_MIN
| DATETIME_SEC
| DATETIME_MS
| DATETIME_US
| DATETIME_NS
| DATETIME_PS
| DATETIME_FS
| DATETIME_AS.

#[global] Instance datatype_eq_dec : EqDecision Datatype.
Proof. solve_decision. Defined.

(** The numeric value of the enumerator. *)
Definition datatype_code (x : Datatype) : Z :=
  match x with
  | INT32 => 0
  | INT64 => 1
  | FLOAT32 => 2
  | FLOAT64 => 3
  | CHAR => 4
  | INT8 => 5
  | UINT8 => 6
  | INT16 => 7
  | UINT16 => 8
  | UINT32 => 9
  | UINT64 => 10
  | STRING_ASCII => 11
  | STRING_UTF8 => 12
  | STRING_UTF16 => 13
  | STRING_UTF32 => 14
  | STRING_UCS2 => 15
  | STRING_UCS4 => 16
  | ANY => 17
  | DATETIME_YEAR => 18
  | DATETIME_MONTH => 19
  | DATETIME_WEEK => 20
  | DATETIME_DAY => 21
  | DATETIME_HR => 22
  | DATETIME_MIN => 23
  | DATETIME_SEC => 24
  | DATETIME_MS => 25
  | DATETIME_US => 26
  | DATETIME_NS => 27
  | DATETIME_PS => 28
  | DATETIME_FS => 29
  | DATETIME_AS => 30
  end.

Definition datatype_str (x : Datatype) : string :=
  match x with
  | INT32 => "INT32"
  | INT64 => "INT64"
  | FLOAT32 => "FLOAT32"
  | FLOAT64 => "FLOAT64"
  | CHAR => "CHAR"
  | INT8 => "INT8"
  | UINT8 => "UINT8"
  | INT16 => "INT16"
  | UINT16 => "UINT16"
  | UINT32 => "UINT32"
  | UINT64 => "UINT64"
  | STRING_ASCII => "STRING_ASCII"
  | STRING_UTF8 => "STRING_UTF8"
  | STRING_UTF16 => "STRING_UTF16"
  | STRING_UTF32 => "STRING_UTF32"
  | STRING_UCS2 => "STRING_UCS2"
  | STRING_UCS4 => "STRING_UCS4"
  | ANY => "ANY"
  | DATETIME_YEAR => "DATETIME_YEAR"
  | DATETIME_MONTH => "DATETIME_MONTH"
  | DATETIME_WEEK => "DATETIME_WEEK"
  | DATETIME_DAY => "DATETIME_DAY"
  | DATETIME_HR => "DATETIME_HR"
  | DATETIME_MIN => "DATETIME_MIN"
  | DATETIME_SEC => "DATETIME_SEC"
  | DATETIME_MS => "DATETIME_MS"
  | DATETIME_US => "DATETIME_US"
  | DATETIME_NS => "DATETIME_NS"
  | DATETIME_PS => "DATETIME_PS"
  | DATETIME_FS => "DATETIME_FS"
  | DATETIME_AS => "DATETIME_AS"
  end.

Definition datatype_enum (s : string) : res Datatype :=
  if String.eqb s "INT32" then Ok INT32
  else if String.eqb s "INT64" then Ok INT64
  else if String.eqb s "FLOAT32" then Ok FLOAT32
  else if String.eqb s "FLOAT64" then Ok FLOAT64
  else if String.eqb s "CHAR" then Ok CHAR
  else if String.eqb s "INT8" then Ok INT8
  else if String.eqb s "UINT8" then Ok UINT8
  else if String.eqb s "INT16" then Ok INT16
  else if String.eqb s "UINT16" then Ok UINT16
  else if String.eqb s "UINT32" then Ok UINT32
  else if String.eqb s "UINT64" then Ok UINT64
  else if String.eqb s "STRING_ASCII" then Ok STRING_ASCII
  else if String.eqb s "STRING_UTF8" then Ok STRING_UTF8
  else if String.eqb s "STRING_UTF16" then Ok STRING_UTF16
  else if String.eqb s "STRING_UTF32" then Ok STRING_UTF32
  else if String.eqb s "STRING_UCS2" then Ok STRING_UCS2
  else if String.eqb s "STRING_UCS4" then Ok STRING_UCS4
  else if String.eqb s "ANY" then Ok ANY
  else if String.eqb s "DATETIME_YEAR" then Ok DATETIME_YEAR
  else if String.eqb s "DATETIME_MONTH" then Ok DATETIME_MONTH
  else if String.eqb s "DATETIME_WEEK" then Ok DATETIME_WEEK
  else if String.eqb s "DATETIME_DAY" then Ok DATETIME_DAY
  else if String.eqb s "DATETIME_HR" then Ok DATETIME_HR
  else if String.eqb s "DATETIME_MIN" then Ok DATETIME_MIN
  else if String.eqb s "DATETIME_SEC" then Ok DATETIME_SEC
  else if String.eqb s "DATETIME_MS" then Ok DATETIME_MS
  else if String.eqb s "DATETIME_US" then Ok DATETIME_US
  else if String.eqb s "DATETIME_NS" then Ok DATETIME_NS
  else if String.eqb s "DATETIME_PS" then Ok DATETIME_PS
  else if String.eqb s "DATETIME_FS" then Ok DATETIME_FS
  else if String.eqb s "DATETIME_AS" then Ok DATETIME_AS
  else Err SC_Error ("Invalid Datatype " +:+ s).

(** The cast from a stored code; [None] for a value that names no enumerator. *)
Definition datatype_of_code (z : Z) : option Datatype :=
  match z with
  | 0 => Some INT32
  | 1 => Some INT64
  | 2 => Some FLOAT32
  | 3 => Some FLOAT64
  | 4 => Some CHAR
  | 5 => Some INT8
  | 6 => Some UINT8
  | 7 => Some INT16
  | 8 => Some UINT16
  | 9 => Some UINT32
  | 10 => Some UINT64
  | 11 => Some STRING_ASCII
  | 12 => Some STRING_UTF8
  | 13 => Some STRING_UTF16
  | 14 => Some STRING_UTF32
  | 15 => Some STRING_UCS2
  | 16 => Some STRING_UCS4
  | 17 => Some ANY
  | 18 => Some DATETIME_YEAR
  | 19 => Some DATETIME_MONTH
  | 20 => Some DATETIME_WEEK
  | 21 => Some DATETIME_DAY
  | 22 => Some DATETIME_HR
  | 23 => Some DATETIME_MIN
  | 24 => Some DATETIME_SEC
  | 25 => Some DATETIME_MS
  | 26 => Some DATETIME_US
  | 27 => Some DATETIME_NS
  | 28 => Some DATETIME_PS
  | 29 => Some DATETIME_FS
  | 30 => Some DATETIME_AS
  | _ => None
  end.

Inductive ArrayType : Set :=
| DENSE
| SPARSE.

#[global] Instance array_type_eq_dec : EqDecision ArrayType.
Proof. solve_decision. Defined.

(** The numeric value of the enumerator. *)
Definition array_type_code (x : ArrayType) : Z :=
  match x with
  | DENSE => 0
  | SPARSE => 1
  end.

Definition array_type_str (x : ArrayType) : string :=
  match x with
  | DENSE => "dense"
  | SPARSE => "sparse"
  end.

Definition array_type_enum (s : string) : res ArrayType :=
  if String.eqb s "dense" then Ok DENSE
  else if String.eqb s "sparse" then Ok SPARSE
  else Err SC_Error ("Invalid ArrayType " +:+ s).

(** The cast from a stored code; [None] for a value that names no enumerator. *)
Definition array_type_of_code (z : Z) : option ArrayType :=
  match z with
  | 0 => Some DENSE
  | 1 => Some SPARSE
  | _ => None
  end.

Inductive Layout : Set :=
| ROW_MAJOR
| COL_MAJOR
| GLOBAL_ORDER
| UNORDERED.

#[global] Instance layout_eq_dec : EqDecision Layout.
Proof. solve_decision. Defined.

(** The numeric value of the enumerator. *)
Definition layout_code (x : Layout) : Z :=
  match x with
  | ROW_MAJOR => 0
  | COL_MAJOR => 1
  | GLOBAL_ORDER => 2
  | UNORDERED => 3
  end.

Definition layout_str (x : Layout) : string :=
  match x with
  | ROW_MAJOR => "row-major"
  | COL_MAJOR => "col-major"
  | GLOBAL_ORDER => "global-order"
  | UNORDERED => "unordered"
  end.

Definition layout_enum (s : string) : res Layout :=
  if String.eqb s "col-major" then Ok COL_MAJOR
  else if String.eqb s "row-major" then Ok ROW_MAJOR
  else if String.eqb s "global-order" then Ok GLOBAL_ORDER
  else if String.eqb s "unordered" then Ok UNORDERED
  else Err SC_Error ("Invalid Layout " +:+ s).

(** The cast from a stored code; [None] for a value that names no enumerator. *)
Definition layout_of_code (z : Z) : option Layout :=
  match z with
  | 0 => Some ROW_MAJOR
  | 1 => Some COL_MAJOR
  | 2 => Some GLOBAL_ORDER
  | 3 => Some UNORDERED
  | _ => None
  end.

Inductive FilterType : Set :=
| FILTER_NONE
| FILTER_GZIP
| FILTER_ZSTD
| FILTER_LZ4
| FILTER_RLE
| FILTER_BZIP2
| FILTER_DOUBLE_DELTA
| FILTER_BIT_WIDTH_REDUCTION
| FILTER_BITSHUFFLE
| FILTER_BYTESHUFFLE
| FILTER_POSITIVE_DELTA
| INTERNAL_FILTER_AES_256_GCM
| FILTER_CHECKSUM_MD5
| FILTER_CHECKSUM_SHA256.

#[global] Instance filter_type_eq_dec : EqDecision FilterType.
Proof. solve_decision. Defined.

(** The numeric value of the enumerator. *)
Definition filter_type_code (x : FilterType) : Z :=
  match x with
  | FILTER_NONE => 0
  | FILTER_GZIP => 1
  | FILTER_ZSTD => 2
  | FILTER_LZ4 => 3
  | FILTER_RLE => 4
  | FILTER_BZIP2 => 5
  | FILTER_DOUBLE_DELTA => 6
  | FILTER_BIT_WIDTH_REDUCTION => 7
  | FILTER_BITSHUFFLE => 8
  | FILTER_BYTESHUFFLE => 9
  | FILTER_POSITIVE_DELTA => 10
  | INTERNAL_FILTER_AES_256_GCM => 11
  | FILTER_CHECKSUM_MD5 => 12
  | FILTER_CHECKSUM_SHA256 => 13
  end.

Definition filter_type_str (x : FilterType) : string :=
  match x with
  | FILTER_NONE => "NONE"
  | FILTER_GZIP => "GZIP"
  | FILTER_ZSTD => "ZSTD"
  | FILTER_LZ4 => "LZ4"
  | FILTER_RLE => "RLE"
  | FILTER_BZIP2 => "BZIP2"
  | FILTER_DOUBLE_DELTA => "DOUBLE_DELTA"
  | FILTER_BIT_WIDTH_REDUCTION => "BIT_WIDTH_REDUCTION"
  | FILTER_BITSHUFFLE => "BITSHUFFLE"
  | FILTER_BYTESHUFFLE => "BYTESHUFFLE"
  | FILTER_POSITIVE_DELTA => "POSITIVE_DELTA"
  | INTERNAL_FILTER_AES_256_GCM => ""
  | FILTER_CHECKSUM_MD5 => "CHECKSUM_MD5"
  | FILTER_CHECKSUM_SHA256 => "CHECKSUM_SHA256"
  end.

Definition filter_type_enum (s : string) : res FilterType :=
  if String.eqb s "NONE" then Ok FILTER_NONE
  else if String.eqb s "GZIP" then Ok FILTER_GZIP
  else if String.eqb s "ZSTD" then Ok FILTER_ZSTD
  else if String.eqb s "LZ4" then Ok FILTER_LZ4
  else if String.eqb s "RLE" then Ok FILTER_RLE
  else if String.eqb s "BZIP2" then Ok FILTER_BZIP2
  else if String.eqb s "DOUBLE_DELTA" then Ok FILTER_DOUBLE_DELTA
  else if String.eqb s "BIT_WIDTH_REDUCTION" then Ok FILTER_BIT_WIDTH_REDUCTION
  else if String.eqb s "BITSHUFFLE" then Ok FILTER_BITSHUFFLE
  else if String.eqb s "BYTESHUFFLE" then Ok FILTER_BYTESHUFFLE
  else if String.eqb s "POSITIVE_DELTA" then Ok FILTER_POSITIVE_DELTA
  else if String.eqb s "CHECKSUM_MD5" then Ok FILTER_CHECKSUM_MD5
  else if String.eqb s "CHECKSUM_SHA256" then Ok FILTER_CHECKSUM_SHA256
  else Err SC_Error ("Invalid FilterType " +:+ s).

(** The cast from a stored code; [None] for a value that names no enumerator. *)
Definition filter_type_of_code (z : Z) : option FilterType :=
  match z with
  | 0 => Some FILTER_NONE
  | 1 => Some FILTER_GZIP
  | 2 => Some FILTER_ZSTD
  | 3 => Some FILTER_LZ4
  | 4 => Some FILTER_RLE
  | 5 => Some FILTER_BZIP2
  | 6 => Some FILTER_DOUBLE_DELTA
  | 7 => Some FILTER_BIT_WIDTH_REDUCTION
  | 8 => Some FILTER_BITSHUFFLE
  | 9 => Some FILTER_BYTESHUFFLE
  | 10 => Some FILTER_POSITIVE_DELTA
  | 11 => Some INTERNAL_FILTER_AES_256_GCM
  | 12 => Some FILTER_CHECKSUM_MD5
  | 13 => Some FILTER_CHECKSUM_SHA256
  | _ => None
  end.

Inductive Compressor : Set :=
| COMP_NO_COMPRESSION
| COMP_GZIP
| COMP_ZSTD
| COMP_LZ4
| COMP_RLE
| COMP_BZIP2
| COMP_DOUBLE_DELTA.

#[global] Instance compressor_eq_dec : EqDecision Compressor.
Proof. solve_decision. Defined.

(** The numeric value of the enumerator. *)
Definition compressor_code (x : Compressor) : Z :=
  match x with
  | COMP_NO_COMPRESSION => 0
  | COMP_GZIP => 1
  | COMP_ZSTD => 2
  | COMP_LZ4 => 3
  | COMP_RLE => 4
  | COMP_BZIP2 => 5
  | COMP_DOUBLE_DELTA => 6
  end.

Definition compressor_str (x : Compressor) : string :=
  match x with
  | COMP_NO_COMPRESSION => "NO_COMPRESSION"
  | COMP_GZIP => "GZIP"
  | COMP_ZSTD => "ZSTD"
  | COMP_LZ4 => "LZ4"
  | COMP_RLE => "RLE"
  | COMP_BZIP2 => "BZIP2"
  | COMP_DOUBLE_DELTA => "DOUBLE_DELTA"
  end.

Definition compressor_enum (s : string) : res Compressor :=
  if String.eqb s "NO_COMPRESSION" then Ok COMP_NO_COMPRESSION
  else if String.eqb s "GZIP" then Ok COMP_GZIP
  else if String.eqb s "ZSTD" then Ok COMP_ZSTD
  else if String.eqb s "LZ4" then Ok COMP_LZ4
  else if String.eqb s "RLE" then Ok COMP_RLE
  else if String.eqb s "BZIP2" then Ok COMP_BZIP2
  else if String.eqb s "DOUBLE_DELTA" then Ok COMP_DOUBLE_DELTA
  else Err SC_Error ("Invalid Compressor " +:+ s).

(** The cast from a stored code; [None] for a value that names no enumerator. *)
Definition compressor_of_code (z : Z) : option Compressor :=
  match z with
  | 0 => Some COMP_NO_COMPRESSION
  | 1 => Some COMP_GZIP
  | 2 => Some COMP_ZSTD
  | 3 => Some COMP_LZ4
  | 4 => Some COMP_RLE
  | 5 => Some COMP_BZIP2
  | 6 => Some COMP_DOUBLE_DELTA
  | _ => None
  end.

Inductive QueryStatus : Set :=
| FAILED
| COMPLETED
| INPROGRESS
| INCOMPLETE
| UNINITIALIZED.

#[global] Instance query_status_eq_dec : EqDecision QueryStatus.
Proof. solve_decision. Defined.

(** The numeric value of the enumerator. *)
Definition query_status_code (x : QueryStatus) : Z :=
  match x with
  | FAILED => 0
  | COMPLETED => 1
  | INPROGRESS => 2
  | INCOMPLETE => 3
  | UNINITIALIZED => 4
  end.

Definition query_status_str (x : QueryStatus) : string :=
  match x with
  | FAILED => "FAILED"
  | COMPLETED => "COMPLETED"
  | INPROGRESS => "INPROGRESS"
  | INCOMPLETE => "INCOMPLETE"
  | UNINITIALIZED => "UNINITIALIZED"
  end.

Definition query_status_enum (s : string) : res QueryStatus :=
  if String.eqb s "FAILED" then Ok FAILED
  else if String.eqb s "COMPLETED" then Ok COMPLETED
  else if String.eqb s "INPROGRESS" then Ok INPROGRESS
  else if String.eqb s "INCOMPLETE" then Ok INCOMPLETE
  else if String.eqb s "UNINITIALIZED" then Ok UNINITIALIZED
  else Err SC_Error ("Invalid QueryStatus " +:+ s).

(** The cast from a stored code; [None] for a value that names no enumerator. *)
Definition query_status_of_code (z : Z) : option QueryStatus :=
  match z with
  | 0 => Some FAILED
  | 1 => Some COMPLETED
  | 2 => Some INPROGRESS
  | 3 => Some INCOMPLETE
  | 4 => Some UNINITIALIZED
  | _ => None
  end.

Inductive QueryType : Set :=
| READ
| WRITE.

#[global] Instance query_type_eq_dec : EqDecision QueryType.
Proof. solve_decision. Defined.

(** The numeric value of the enumerator. *)
Definition query_type_code (x : QueryType) : Z :=
  match x with
  | READ => 0
  | WRITE => 1
  end.

Definition query_type_str (x : QueryType) : string :=
  match x with
  | READ => "READ"
  | WRITE => "WRITE"
  end.

Definition query_type_enum (s : string) : res QueryType :=
  if String.eqb s "READ" then Ok READ
  else if String.eqb s "WRITE" then Ok WRITE
  else Err SC_Error ("Invalid QueryType " +:+ s).

(** The cast from a stored code; [None] for a value that names no enumerator. *)
Definition query_type_of_code (z : Z) : option QueryType :=
  match z with
  | 0 => Some READ
  | 1 => Some WRITE
  | _ => None
  end.

(** ** Classification of datatypes (enums/datatype.h) *)

Definition datatype_size (x : Datatype) : Z :=
  match x with
  | INT32 => 4 | INT64 => 8 | FLOAT32 => 4 | FLOAT64 => 8 | CHAR => 1
  | INT8 => 1 | UINT8 => 1 | INT16 => 2 | UINT16 => 2 | UINT32 => 4 | UINT64 => 8
  | STRING_ASCII => 1 | STRING_UTF8 => 1 | STRING_UTF16 => 2 | STRING_UTF32 => 4
  | STRING_UCS2 => 2 | STRING_UCS4 => 4 | ANY => 1
  | DATETIME_YEAR | DATETIME_MONTH | DATETIME_WEEK | DATETIME_DAY | DATETIME_HR
  | DATETIME_MIN | DATETIME_SEC | DATETIME_MS | DATETIME_US | DATETIME_NS
  | DATETIME_PS | DATETIME_FS | DATETIME_AS => 8
  end.

Definition datatype_is_string (x : Datatype) : bool :=
  match x with
  | STRING_ASCII | STRING_UTF8 | STRING_UTF16 | STRING_UTF32 | STRING_UCS2
  | STRING_UCS4 => true
  | _ => false
  end.

Definition datatype_is_integer (x : Datatype) : bool :=
  match x with
  | INT8 | UINT8 | INT16 | UINT16 | INT32 | UINT32 | INT64 | UINT64 => true
  | _ => false
  end.

Definition datatype_is_real (x : Datatype) : bool :=
  match x with FLOAT32 | FLOAT64 => true | _ => false end.

Definition datatype_is_datetime (x : Datatype) : bool :=
  match x with
  | DATETIME_YEAR | DATETIME_MONTH | DATETIME_WEEK | DATETIME_DAY | DATETIME_HR
  | DATETIME_MIN | DATETIME_SEC | DATETIME_MS | DATETIME_US | DATETIME_NS
  | DATETIME_PS | DATETIME_FS | DATETIME_AS => true
  | _ => false
  end.

(** [constants::var_num]. *)
Definition var_num : Z := 2 ^ 32 - 1.

(** ** The string and code conversions are inverse

    An enumeration with its conversions; [named x] says that [x] has a
    string of its own. *)
Class StringEnum (A : Type) : Type := {
  enum_str : A → string;
  enum_of : string → res A;
  enum_code : A → Z;
  enum_of_code : Z → option A;
  enum_named : A → bool;
  enum_of_str : ∀ x, enum_named x = true → enum_of (enum_str x) = Ok x;
  enum_of_code_code : ∀ x, enum_of_code (enum_code x) = Some x;
  enum_code_byte : ∀ x, in_ctype U8 (enum_code x)
}.

Ltac solve_enum := intros []; first [done | intros; discriminate | by unfold_ctype; simpl].

#[global] Instance datatype_string_enum : StringEnum Datatype.
Proof.
  refine {| enum_str := datatype_str; enum_of := datatype_enum; enum_code := datatype_code;
            enum_of_code := datatype_of_code; enum_named := λ _, true |}; solve_enum.
Defined.

#[global] Instance array_type_string_enum : StringEnum ArrayType.
Proof.
  refine {| enum_str := array_type_str; enum_of := array_type_enum; enum_code := array_type_code;
            enum_of_code := array_type_of_code; enum_named := λ _, true |}; solve_enum.
Defined.

#[global] Instance layout_string_enum : StringEnum Layout.
Proof.
  refine {| enum_str := layout_str; enum_of := layout_enum; enum_code := layout_code;
            enum_of_code := layout_of_code; enum_named := λ _, true |}; solve_enum.
Defined.

#[global] Instance compressor_string_enum : StringEnum Compressor.
Proof.
  refine {| enum_str := compressor_str; enum_of := compressor_enum; enum_code := compressor_code;
            enum_of_code := compressor_of_code; enum_named := λ _, true |}; solve_enum.
Defined.

#[global] Instance query_status_string_enum : StringEnum QueryStatus.
Proof.
  refine {| enum_str := query_status_str; enum_of := query_status_enum; enum_code := query_status_code;
            enum_of_code := query_status_of_code; enum_named := λ _, true |}; solve_enum.
Defined.

#[global] Instance query_type_string_enum : StringEnum QueryType.
Proof.
  refine {| enum_str := query_type_str; enum_of := query_type_enum; enum_code := query_type_code;
            enum_of_code := query_type_of_code; enum_named := λ _, true |}; solve_enum.
Defined.

#[global] Instance filter_type_string_enum : StringEnum FilterType.
Proof.
  refine {| enum_str := filter_type_str; enum_of := filter_type_enum; enum_code := filter_type_code;
            enum_of_code := filter_type_of_code; enum_named := λ x, negb (bool_decide (x = INTERNAL_FILTER_AES_256_GCM)) |}; solve_enum.
Defined.


(** The laws for the codes stored in array schemas. *)
Lemma datatype_code_byte x : in_ctype U8 (datatype_code x).
Proof. exact (enum_code_byte x). Qed.
Lemma datatype_of_code_code x : datatype_of_code (datatype_code x) = Some x.
Proof. exact (enum_of_code_code x). Qed.
Lemma layout_code_byte x : in_ctype U8 (layout_code x).
Proof. exact (enum_code_byte x). Qed.
Lemma layout_of_code_code x : layout_of_code (layout_code x) = Some x.
Proof. exact (enum_of_code_code x). Qed.
Lemma array_type_code_byte x : in_ctype U8 (array_type_code x).
Proof. exact (enum_code_byte x). Qed.
Lemma array_type_of_code_code x : array_type_of_code (array_type_code x) = Some x.
Proof. exact (enum_of_code_code x). Qed.

Ltac solve_enum_inverse enum :=
  intros ? x; split;
  [unfold enum; repeat (case_match; [intros [= <-]; symmetry; by apply String.eqb_eq|]); done
  |by intros <-; destruct x].

(** The string conversions are exact inverses: a string parses to a
    value precisely when it is the string of that value, for every
    enumeration stored by name (datatypes, layouts, array types, compressors,
    query statuses and query types). *)
Theorem enum_str_inverse :
  (∀ s x, datatype_enum s = Ok x ↔ datatype_str x = s) ∧
  (∀ s x, layout_enum s = Ok x ↔ layout_str x = s) ∧
  (∀ s x, array_type_enum s = Ok x ↔ array_type_str x = s) ∧
  (∀ s x, compressor_enum s = Ok x ↔ compressor_str x = s) ∧
  (∀ s x, query_status_enum s = Ok x ↔ query_status_str x = s) ∧
  (∀ s x, query_type_enum s = Ok x ↔ query_type_str x = s).
Proof.
  split_and!; [solve_enum_inverse datatype_enum|solve_enum_inverse layout_enum
    |solve_enum_inverse array_type_enum|solve_enum_inverse compressor_enum
    |solve_enum_inverse query_status_enum|solve_enum_inverse query_type_enum].
Qed.
