(* ===== verification/Strings.v ===== *)
(** * Strings, numbers in strings and UUIDs (misc/utils.cc, misc/uuid.cc)

    A [std::string] is the list of its bytes. *)

From Stdlib Require Import Ascii String.
From S2P Require Import Prelude.
Local Open Scope Z_scope.

(** The bytes of a literal, and back for error messages. *)
Definition lit (s : string) : list Z := (λ c, Z.of_N (N_of_ascii c)) <$> list_ascii_of_string s.
Definition unlit (s : list Z) : string := string_of_list_ascii ((λ b, ascii_of_N (Z.to_N b)) <$> s).

Definition ch_slash : Z := 47.
Definition ch_under : Z := 95.
Definition ch_dot : Z := 46.
Definition ch_hyphen : Z := 45.

(** ** [std::string] *)

(** [find_last_of(c)]; none is [npos]. *)
Fixpoint find_last_of (c : Z) (s : list Z) : option nat :=
  match s with
  | [] => None
  | x :: s => match find_last_of c s with
              | Some i => Some (S i)
              | None => if x =? c then Some 0%nat else None
              end
  end.

(** [find(c, pos)]. *)
Fixpoint find_from (c : Z) (pos : nat) (s : list Z) : option nat :=
  match s with
  | [] => None
  | x :: s => match pos with
              | O => if x =? c then Some 0%nat else S <$> find_from c 0 s
              | S pos => S <$> find_from c pos s
              end
  end.

(** [find(p) != npos]. *)
Fixpoint contains (p s : list Z) : bool :=
  bool_decide (take (length p) s = p) || match s with [] => false | _ :: s => contains p s end.

(** [s.substr(s.find_last_of(c) + 1)]: [npos + 1] is 0. *)
Definition after_last (c : Z) (s : list Z) : list Z :=
  match find_last_of c s with Some i => drop (S i) s | None => s end.

(** ** Parsing (namespace utils::parse) *)

Definition starts_with (value prefix : list Z) : bool :=
  if (length value <? length prefix)%nat then false else bool_decide (take (length prefix) value = prefix).

Definition ends_with (value suffix : list Z) : bool :=
  if (length value <? length suffix)%nat then false
  else bool_decide (drop (length value - length suffix) value = suffix).

Definition isdigit (c : Z) : bool := (48 <=? c) && (c <=? 57).

Definition is_int (s : list Z) : bool :=
  match s with
  | [] => false
  | c :: s => if negb (c =? 43) && negb (c =? 45) && negb (isdigit c) then false else forallb isdigit s
  end.

Definition is_uint (s : list Z) : bool :=
  match s with
  | [] => false
  | c :: s => if negb (c =? 43) && negb (isdigit c) then false else forallb isdigit s
  end.

(** The digits at the start of a string, as a number. *)
Fixpoint scan_digits (s : list Z) (acc : Z) : Z * list Z :=
  match s with
  | c :: s' => if isdigit c then scan_digits s' (acc * 10 + (c - 48)) else (acc, s)
  | [] => (acc, [])
  end.

Definition isspace (c : Z) : bool := (c =? 32) || (9 <=? c) && (c <=? 13).

Fixpoint skip_space (s : list Z) : list Z :=
  match s with c :: s' => if isspace c then skip_space s' else s | [] => [] end.

(** What [strtol] and the conversion [%ld] accept: white space, a sign, one digit
    at least. *)
Definition scan_number (s : list Z) : option (Z * list Z) :=
  let s := skip_space s in
  let '(neg, s) := match s with
                   | c :: s' => if c =? 45 then (true, s') else if c =? 43 then (false, s') else (false, s)
                   | [] => (false, [])
                   end in
  match s with
  | c :: _ => if isdigit c then let '(n, r) := scan_digits s 0 in Some (if neg : bool then - n else n, r) else None
  | [] => None
  end.

Definition failed_to_convert (s : list Z) (ty why : string) : res Z :=
  Err SC_Utils ("Failed to convert string '" ++ unlit s ++ "' to " ++ ty ++ "; " ++ why).

(** [std::stoi] and its kin, with their two exceptions. *)
Definition sto (T : ctype) (ty : string) (s : list Z) : res Z :=
  match scan_number s with
  | None => failed_to_convert s ty "Invalid argument"
  | Some (v, _) => if (tmin T <=? v) && (v <=? tmax T) then Ok v else failed_to_convert s ty "Value out of range"
  end.

Definition convert_signed (T : ctype) (ty : string) (s : list Z) : res Z :=
  if is_int s then sto T ty s else failed_to_convert s ty "Invalid argument".
Definition convert_unsigned (T : ctype) (ty : string) (s : list Z) : res Z :=
  if is_uint s then sto T ty s else failed_to_convert s ty "Invalid argument".

Definition convert_int (s : list Z) : res Z := convert_signed I32 "int" s.
Definition convert_uint32 (s : list Z) : res Z := convert_unsigned U32 "uint32_t" s.
Definition convert_uint64 (s : list Z) : res Z := convert_unsigned U64 "uint64_t" s.
Definition convert_int64 (s : list Z) : res Z := convert_signed I64 "int64_t" s.

Definition tolower (c : Z) : Z := if (65 <=? c) && (c <=? 90) then c + 32 else c.

Definition convert_bool (s : list Z) : res bool :=
  let l := tolower <$> s in
  if bool_decide (l = lit "true") then Ok true
  else if bool_decide (l = lit "false") then Ok false
  else Err SC_Utils "Failed to convert string to bool; Value not 'true' or 'false'".

(** ** Printing *)

Fixpoint digits (fuel : nat) (n : Z) (acc : list Z) : list Z :=
  match fuel with
  | O => acc
  | S fuel =>
      let acc := (48 + n mod 10) :: acc in
      if n <? 10 then acc else digits fuel (n / 10) acc
  end.

(** [ss << n] of an unsigned number. *)
Definition print_uint (n : Z) : list Z := digits (S (Z.to_nat (Z.log2 n))) n [].

(** [%0wx]. *)
Definition hex_digit (d : Z) : Z := if d <? 10 then 48 + d else 87 + d.
Fixpoint print_hex (w : nat) (n : Z) : list Z :=
  match w with O => [] | S w => print_hex w (n / 16) ++ [hex_digit (n mod 16)] end.

(** ** UUIDs (misc/uuid.cc) *)

(** The fields of the union over the 16 random bytes of [RAND_bytes]. *)
Definition uuid_string (rnd : list Z) : list Z :=
  let byte i := default 0 (rnd !! i) in
  let time_low := of_bytes U32 (take 4 rnd) in
  let time_mid := of_bytes U16 (take 2 (drop 4 rnd)) in
  let time_hi_and_version := Z.lor (Z.land (of_bytes U16 (take 2 (drop 6 rnd))) 0x0FFF) 0x4000 in
  let clk_seq_hi_res := Z.lor (Z.land (byte 8%nat) 0x3F) 0x80 in
  print_hex 8 time_low ++ [ch_hyphen] ++ print_hex 4 time_mid ++ [ch_hyphen] ++
  print_hex 4 time_hi_and_version ++ [ch_hyphen] ++
  print_hex 2 clk_seq_hi_res ++ print_hex 2 (byte 9%nat) ++ [ch_hyphen] ++
  concat (print_hex 2 <$> take 6 (drop 10 rnd)).

(** [generate_uuid]; no random bytes is OpenSSL's error. *)
Definition generate_uuid (rnd : option (list Z)) (hyphenate : bool) : res (list Z) :=
  match rnd with
  | None => Err SC_Utils "Cannot generate random bytes with OpenSSL: "
  | Some r => Ok (filter (λ c, ¬ (c = ch_hyphen ∧ hyphenate = false)) (uuid_string r))
  end.

(** ** Numbers are read back *)

Lemma isdigit_spec c : isdigit c = true ↔ 48 ≤ c ≤ 57.
Proof. unfold isdigit. rewrite andb_true_iff, !Z.leb_le. done. Qed.

Definition dec_value (a : Z) (ds : list Z) : Z := fold_left (λ a c, a * 10 + (c - 48)) ds a.

Lemma scan_digits_app ds : ∀ a r, Forall (λ c, isdigit c = true) ds →
  (∀ c r', r = c :: r' → isdigit c = false) → scan_digits (ds ++ r) a = (dec_value a ds, r).
Proof.
  induction ds as [|c ds IH]; intros a r Hd Hr; simpl.
  - destruct r as [|c r]; [done|]. simpl. by rewrite (Hr c r eq_refl).
  - apply Forall_cons in Hd as [Hc Hd]. rewrite Hc. by apply IH.
Qed.

(** [digits] writes at least one digit in front of [acc], and no other bytes. *)
Lemma digits_spec fuel : ∀ n acc, 0 ≤ n < 2 ^ Z.of_nat fuel → (0 < fuel)%nat →
  ∃ ds, digits fuel n acc = ds ++ acc ∧ ds ≠ [] ∧ Forall (λ c, isdigit c = true) ds ∧ dec_value 0 ds = n.
Proof.
  induction fuel as [|fuel IH]; intros n acc Hn Hf; [lia|]. cbn [digits].
  pose proof (Z.mod_pos_bound n 10 ltac:(lia)). pose proof (Z.div_mod n 10 ltac:(lia)).
  assert (isdigit (48 + n mod 10) = true) as Hd by (apply isdigit_spec; lia).
  destruct (Z.ltb_spec n 10) as [Hlt|Hge].
  - exists [48 + n mod 10]. split_and!; try done; [by constructor|]. unfold dec_value. simpl. rewrite Z.mod_small; lia.
  - rewrite Nat2Z.inj_succ, Z.pow_succ_r in Hn by lia. destruct fuel as [|fuel]; [simpl in Hn; lia|].
    destruct (IH (n / 10) ((48 + n mod 10) :: acc)) as (ds & E & Hne & Hds & Hv); [|lia|].
    { split; [apply Z.div_pos; lia|]. apply Z.div_lt_upper_bound; lia. }
    exists (ds ++ [48 + n mod 10]). rewrite E, <- app_assoc. split_and!; try done.
    + intros [? _]%app_eq_nil. done.
    + apply Forall_app. split; [done|]. by constructor.
    + unfold dec_value in *. rewrite fold_left_app, Hv. simpl. lia.
Qed.

Lemma print_uint_spec n : 0 ≤ n →
  print_uint n ≠ [] ∧ Forall (λ c, isdigit c = true) (print_uint n) ∧ dec_value 0 (print_uint n) = n.
Proof.
  intros Hn. unfold print_uint. destruct (digits_spec (S (Z.to_nat (Z.log2 n))) n []) as (ds & -> & H); [|lia|].
  - split; [done|]. rewrite Nat2Z.inj_succ, Z2Nat.id by apply Z.log2_nonneg.
    destruct (decide (n = 0)) as [->|]; [done|]. apply Z.log2_spec. lia.
  - by rewrite app_nil_r.
Qed.

(** What was printed is read back, whatever byte that is no digit follows. *)
Lemma scan_print n r : 0 ≤ n → (∀ c r', r = c :: r' → isdigit c = false) → scan_number (print_uint n ++ r) = Some (n, r).
Proof.
  intros Hn Hr. destruct (print_uint_spec n Hn) as (Hne & Hd & Hv).
  pose proof (scan_digits_app (print_uint n) 0 r Hd Hr) as Hs. rewrite Hv in Hs.
  destruct (print_uint n) as [|c ds]; [done|]. pose proof (proj1 (isdigit_spec c) (Forall_inv Hd)) as Hc.
  unfold scan_number. simpl app. simpl skip_space. unfold isspace.
  rewrite (proj2 (Z.eqb_neq c 32)), (proj2 (Z.leb_gt c 13)), andb_false_r by lia. simpl orb. cbv iota.
  rewrite (proj2 (Z.eqb_neq c 45)), (proj2 (Z.eqb_neq c 43)) by lia.
  rewrite (Forall_inv Hd). simpl app in Hs. by rewrite Hs.
Qed.

(** ** The bytes of UUIDs *)

Definition is_hex (c : Z) : Prop := 48 ≤ c ≤ 57 ∨ 97 ≤ c ≤ 102.

Lemma print_hex_spec w : ∀ n, length (print_hex w n) = w ∧ Forall is_hex (print_hex w n).
Proof.
  induction w as [|w IH]; intros n; [done|]. cbn [print_hex]. destruct (IH (n / 16)) as [Hl Hf].
  rewrite length_app, Hl. split; [simpl; lia|]. apply Forall_app. split; [done|]. constructor; [|done].
  pose proof (Z.mod_pos_bound n 16 ltac:(lia)). unfold is_hex, hex_digit. destruct (Z.ltb_spec (n mod 16) 10); lia.
Qed.

Lemma filter_hex (P : Z → Prop) `{∀ c, Decision (P c)} l : Forall is_hex l → (∀ c, is_hex c → P c) → filter P l = l.
Proof. intros Hl HP. induction Hl as [|c l Hc _ IH]; [done|]. rewrite filter_cons_True, IH; auto. Qed.

Lemma uuid_hex rnd : length rnd = 16%nat →
  ∃ u, generate_uuid (Some rnd) false = Ok u ∧ length u = 32%nat ∧ Forall is_hex u.
Proof.
  intros Hl. eexists. split; [reflexivity|]. unfold uuid_string.
  assert (∀ l : list Z, length (concat (print_hex 2 <$> l)) = (2 * length l)%nat ∧ Forall is_hex (concat (print_hex 2 <$> l))) as Hc.
  { intros l. induction l as [|x l [IH1 IH2]]; [done|]. rewrite fmap_cons. change (concat (?a :: ?b)) with (a ++ concat b).
    destruct (print_hex_spec 2 x) as [H1 H2]. rewrite length_app, H1, IH1, Forall_app. split; [simpl; lia|done]. }
  set (P := λ c : Z, ¬ (c = ch_hyphen ∧ false = false)).
  assert (∀ c, is_hex c → P c) as HP by (intros c Hh [-> _]; unfold is_hex, ch_hyphen in Hh; lia).
  destruct (Hc (take 6 (drop 10 rnd))) as [Hc1 Hc2]. rewrite length_take, length_drop, Hl in Hc1.
  rewrite !filter_app. change (filter P [ch_hyphen]) with (@nil Z). rewrite !app_nil_l.
  rewrite !(filter_hex P) by (done || apply print_hex_spec).
  rewrite !length_app, !Forall_app, Hc1. rewrite !(proj1 (print_hex_spec _ _)). split; [done|].
  split_and!; try done; apply print_hex_spec.
Qed.
