(* ===== verification/Uri.v ===== *)
(** * URIs and the names of fragments (misc/uri.cc, filesystem/posix.cc, misc/utils.cc)

    A [URI] object is its string [uri_].  What the process environment provides is
    a parameter. *)

From S2P Require Import Prelude.
From S2P Require Import Strings.
Local Open Scope Z_scope.

(** [current_dir()] and [getenv("HOME")]. *)
Record Environ : Type := mkEnviron { current_dir : list Z; env_home : option (list Z) }.

(** ** Posix paths *)

Definition file_prefix : list Z := lit "file://".

(** [std::unique] with [both_slashes], after the prefix. *)
Fixpoint unique_slashes (s : list Z) : list Z :=
  match s with
  | a :: ((b :: _) as s') => if (a =? ch_slash) && (b =? ch_slash) then unique_slashes s' else a :: unique_slashes s'
  | _ => s
  end.

Definition adjacent_slashes_dedup (path : list Z) : res (list Z) :=
  if starts_with path file_prefix then
    Ok (take (length file_prefix) path ++ unique_slashes (drop (length file_prefix) path))
  else UB.

(** The non-empty tokens between slashes. *)
Fixpoint tokenize (s token : list Z) : list (list Z) :=
  let push l := if bool_decide (token = []) then l else token :: l in
  match s with
  | [] => push []
  | c :: s => if c =? ch_slash then push (tokenize s []) else tokenize s (token ++ [c])
  end.

(** The tokens kept; none for a path above the root. *)
Fixpoint purge_tokens (tokens final_tokens : list (list Z)) : option (list (list Z)) :=
  match tokens with
  | [] => Some final_tokens
  | t :: tokens =>
      if bool_decide (t = lit ".") then purge_tokens tokens final_tokens
      else if bool_decide (t = lit "..") then
        match final_tokens with
        | [] => None
        | _ => purge_tokens tokens (take (length final_tokens - 1) final_tokens)
        end
      else purge_tokens tokens (final_tokens ++ [t])
  end.

Definition purge_dots_from_path (path : list Z) : res (list Z) :=
  if bool_decide (path = []) || bool_decide (path = lit "file:///") then Ok path
  else if starts_with path (lit "file:///") then
    match purge_tokens (tokenize (drop 8 path) []) [] with
    | None => Ok []
    | Some ts => Ok (file_prefix ++ concat ((λ t, ch_slash :: t) <$> ts))
    end
  else UB.

Definition abs_path_internal (env : Environ) (path : list Z) : res (list Z) :=
  let current := current_dir env in
  let home := default current (env_home env) in
  if bool_decide (path = []) || bool_decide (path = lit ".") || bool_decide (path = lit "./") then Ok (file_prefix ++ current)
  else if bool_decide (path = lit "~") then Ok (file_prefix ++ home)
  else if bool_decide (path = lit "/") then Ok (file_prefix ++ lit "/")
  else if starts_with path file_prefix then Ok path
  else
    let ret_dir :=
      if starts_with path (lit "/") then file_prefix ++ path
      else if starts_with path (lit "~/") then file_prefix ++ home ++ drop 1 path
      else if starts_with path (lit "./") then file_prefix ++ current ++ drop 1 path
      else file_prefix ++ current ++ lit "/" ++ path in
    ret_dir ← adjacent_slashes_dedup ret_dir;
    purge_dots_from_path ret_dir.

Definition abs_path (env : Environ) (path : list Z) : res (list Z) :=
  resolved ← abs_path_internal env path;
  Ok (if ends_with path (lit "/") then
        if ends_with resolved (lit "/") then resolved else resolved ++ lit "/"
      else if ends_with resolved (lit "/") then take (length resolved - 1) resolved else resolved).

(** ** URI *)

Definition is_file (path : list Z) : bool := starts_with path (lit "file:///") || negb (contains (lit "://") path).
Definition is_hdfs (path : list Z) : bool := starts_with path (lit "hdfs://").
Definition is_s3 (path : list Z) : bool :=
  starts_with path (lit "s3://") || starts_with path (lit "http://") || starts_with path (lit "https://").
Definition is_azure (path : list Z) : bool := starts_with path (lit "azure://").
Definition is_gcs (path : list Z) : bool := starts_with path (lit "gcs://").
Definition is_tiledb (path : list Z) : bool := starts_with path (lit "tiledb://").

(** [VFS::abs_path], of a path that is a file. *)
Definition mkURI (env : Environ) (path : list Z) : res (list Z) :=
  if bool_decide (path = []) then Ok []
  else if is_file path then abs_path env path
  else if is_hdfs path || is_s3 path || is_azure path || is_gcs path || is_tiledb path then Ok path
  else Ok [].

Definition add_trailing_slash (env : Environ) (uri : list Z) : res (list Z) :=
  match last uri with
  | None => mkURI env (lit "/")
  | Some c => if c =? ch_slash then mkURI env uri else mkURI env (uri ++ lit "/")
  end.

(** [back()] of an empty string is undefined. *)
Definition remove_trailing_slash (env : Environ) (uri : list Z) : res (list Z) :=
  match last uri with
  | None => UB
  | Some c => if c =? ch_slash then mkURI env (take (length uri - 1) uri) else mkURI env uri
  end.

Definition join_path (env : Environ) (uri path : list Z) : res (list Z) :=
  match path, last uri with
  | [], _ => mkURI env uri
  | _, None => mkURI env path
  | p :: ps, Some c =>
      if c =? ch_slash then if p =? ch_slash then mkURI env (uri ++ ps) else mkURI env (uri ++ path)
      else if p =? ch_slash then mkURI env (uri ++ path)
      else mkURI env (uri ++ lit "/" ++ path)
  end.

Definition last_path_part (uri : list Z) : list Z := after_last ch_slash uri.

Definition parent (env : Environ) (uri : list Z) : res (list Z) :=
  match last uri with
  | None => Ok []
  | Some c =>
      let u := if c =? ch_slash then take (length uri - 1) uri else uri in
      match find_last_of ch_slash u with
      | None => Ok []
      | Some pos => mkURI env (take pos uri)
      end
  end.

(** [substr] past the end throws. *)
Definition to_path (uri : list Z) : res (list Z) :=
  if is_file uri then
    (if (length uri <? length file_prefix)%nat then UB else Ok (drop (length file_prefix) uri))
  else if is_hdfs uri || is_s3 uri || is_azure uri || is_gcs uri || is_tiledb uri then Ok uri
  else Ok [].

Definition rest_error : string :=
  "Invalid array URI for REST service; expected format is 'tiledb://<namespace>/<array-name>' or 'tiledb://<namespace>/<array-uri>'.".

Definition get_rest_components (uri : list Z) : res (list Z * list Z) :=
  let prefix := lit "tiledb://" in
  if negb (is_tiledb uri) || bool_decide (uri = []) || negb (contains prefix uri) || (length uri <=? length prefix)%nat then
    Err SC_RestError rest_error
  else
    match find_from ch_slash (length prefix) uri with
    | None => Err SC_RestError rest_error
    | Some slash =>
        let namespace_len := (slash - length prefix)%nat in
        let array_len := (length uri - (slash + 1))%nat in
        if (namespace_len =? 0)%nat || (array_len =? 0)%nat then Err SC_RestError rest_error
        else Ok (take namespace_len (drop (length prefix) uri), drop (slash + 1) uri)
    end.

(** ** The names of fragments *)

(** The number of ['_'], then the length after the last of them. *)
Definition get_fragment_name_version (name : list Z) : Z :=
  if (length (filter (λ c, c = ch_under) name) =? 5)%nat then 3
  else if (length (after_last ch_under name) =? 32)%nat then 2 else 1.

(** [ss >> version]: 0 when there is no number, the largest value when it does
    not fit. *)
Definition get_fragment_version (name : list Z) : Z :=
  if get_fragment_name_version name <=? 2 then tmax U32
  else match scan_number (after_last ch_under name) with
       | None => 0
       | Some (v, _) => if v <=? tmax U32 then conv U32 v else tmax U32
       end.

(** [sscanf(s, "%ld", &t)] leaves [t] when there is no number. *)
Definition scan_ld (s : list Z) (t : Z) : res Z :=
  match scan_number s with
  | None => Ok t
  | Some (v, _) => if (tmin I64 <=? v) && (v <=? tmax I64) then Ok (conv U64 v) else UB
  end.

Definition scan_range (name : list Z) : res (Z * Z) :=
  if starts_with name (lit "__") then
    match scan_number (drop 2 name) with
    | None => Ok (0, 0)
    | Some (v, r) =>
        t1 ← scan_ld (drop 2 name) 0;
        t2 ← match r with
             | c :: r => if c =? ch_under then scan_ld r 0 else Ok 0
             | [] => Ok 0
             end;
        Ok (t1, t2)
    end
  else Ok (0, 0).

Definition get_timestamp_range (env : Environ) (uri : list Z) : res (Z * Z) :=
  uri ← remove_trailing_slash env uri;
  let name := last_path_part uri in
  let name := match find_last_of ch_dot name with Some pos => take pos name | None => name end in
  match find_last_of ch_under name with
  | None => UB
  | Some pos =>
      if get_fragment_name_version name =? 1 then
        t ← scan_ld (drop (S pos) name) 0; Ok (t, t)
      else scan_range name
  end.

Definition format_version : Z := 5.

(** [Writer::new_fragment_name], of the time [now] and the random bytes [rnd]. *)
Definition new_fragment_name (now : Z) (rnd : option (list Z)) (timestamp : Z) : res (list Z) :=
  let timestamp := if timestamp =? 0 then now else timestamp in
  uuid ← generate_uuid rnd false;
  Ok (lit "/__" ++ print_uint timestamp ++ lit "_" ++ print_uint timestamp ++ lit "_" ++ uuid ++ lit "_" ++
      print_uint format_version).

(** [Consolidator::compute_new_fragment_uri]. *)
Definition compute_new_fragment_uri (env : Environ) (rnd : option (list Z)) (first last : list Z) : res (list Z) :=
  uuid ← generate_uuid rnd false;
  t_first ← get_timestamp_range env first;
  t_last ← get_timestamp_range env last;
  dir ← parent env first;
  mkURI env (dir ++ lit "/__" ++ print_uint t_first.1 ++ lit "_" ++ print_uint t_last.2 ++ lit "_" ++ uuid ++ lit "_" ++
             print_uint format_version).

(** ** Names are read back *)

(** A URI that the constructor keeps. *)
Definition canonical (env : Environ) (uri : list Z) : Prop := mkURI env uri = Ok uri.

Lemma starts_with_app p s : starts_with (p ++ s) p = true.
Proof.
  unfold starts_with. rewrite length_app. destruct (Nat.ltb_spec (length p + length s) (length p)); [lia|].
  rewrite take_app_length. by apply bool_decide_true.
Qed.

Lemma ends_with_snoc s c : ends_with (s ++ [c]) [c] = true.
Proof.
  unfold ends_with. rewrite length_app. simpl. destruct (Nat.ltb_spec (length s + 1) 1); [lia|].
  rewrite Nat.add_sub, drop_app_length. by apply bool_decide_true.
Qed.

Lemma ends_with_other s c d : c ≠ d → ends_with (s ++ [c]) [d] = false.
Proof.
  intros Hcd. unfold ends_with. rewrite length_app. simpl. destruct (Nat.ltb_spec (length s + 1) 1); [done|].
  rewrite Nat.add_sub, drop_app_length. apply bool_decide_false. congruence.
Qed.

(** File URIs are canonical whatever follows the prefix. *)
Lemma file_canonical env s : canonical env (lit "file:///" ++ s).
Proof.
  unfold canonical, mkURI. rewrite bool_decide_false by done. unfold is_file.
  rewrite starts_with_app. simpl orb. cbv iota. unfold abs_path, abs_path_internal.
  assert (starts_with (lit "file:///" ++ s) file_prefix = true) as Hp.
  { change (lit "file:///") with (file_prefix ++ lit "/"). rewrite <- app_assoc. apply starts_with_app. }
  rewrite Hp. rewrite !bool_decide_false by done. simpl orb. cbv iota. cbn [mbind res_bind].
  destruct (ends_with _ _); done.
Qed.

Lemma find_last_of_None c s : c ∉ s → find_last_of c s = None.
Proof.
  induction s as [|x s IH]; intros Hs; [done|]. apply not_elem_of_cons in Hs as [Hx Hs]. simpl.
  rewrite IH by done. by rewrite (proj2 (Z.eqb_neq _ _)) by congruence.
Qed.

Lemma find_last_of_app c s t : c ∉ t → find_last_of c (s ++ c :: t) = Some (length s).
Proof.
  intros Ht. induction s as [|x s IH]; simpl.
  - rewrite find_last_of_None by done. by rewrite Z.eqb_refl.
  - by rewrite IH.
Qed.

Lemma after_last_app c s t : c ∉ t → after_last c (s ++ c :: t) = t.
Proof.
  intros Ht. unfold after_last. rewrite find_last_of_app by done.
  change (c :: t) with ([c] ++ t). rewrite app_assoc.
  replace (S (length s)) with (length (s ++ [c])) by (rewrite length_app; simpl; lia). apply drop_app_length.
Qed.

(** Bytes that are neither a slash, an underscore nor a dot. *)
Definition plain (c : Z) : Prop := c ≠ ch_slash ∧ c ≠ ch_under ∧ c ≠ ch_dot.

Lemma plain_not_elem c l : Forall plain l → (¬ plain c) → c ∉ l.
Proof. intros Hl Hc Hin. rewrite Forall_forall in Hl. by apply Hc, Hl. Qed.

Lemma hex_plain l : Forall is_hex l → Forall plain l.
Proof.
  intros Hl. eapply Forall_impl; [exact Hl|]. intros c Hc. unfold plain, is_hex, ch_slash, ch_under, ch_dot in *. lia.
Qed.

Lemma print_plain n : 0 ≤ n → Forall plain (print_uint n).
Proof.
  intros Hn. destruct (print_uint_spec n Hn) as (_ & Hd & _). eapply Forall_impl; [exact Hd|].
  intros c Hc%isdigit_spec. unfold plain, ch_slash, ch_under, ch_dot. lia.
Qed.

Lemma unders_plain l : Forall plain l → filter (λ c, c = ch_under) l = [].
Proof.
  induction 1 as [|c l Hc _ IH]; [done|]. rewrite filter_cons_False; [done|]. apply Hc.
Qed.

(** The two forms of name: with and without a version at the end. *)
Definition timed_name (t1 t2 : Z) (uuid : list Z) (version : option Z) : list Z :=
  lit "__" ++ print_uint t1 ++ lit "_" ++ print_uint t2 ++ lit "_" ++ uuid ++
  match version with Some v => lit "_" ++ print_uint v | None => [] end.

Lemma scan_timed t1 t2 r : 0 ≤ t1 < 2 ^ 63 → 0 ≤ t2 < 2 ^ 63 →
  scan_range (lit "__" ++ print_uint t1 ++ lit "_" ++ print_uint t2 ++ lit "_" ++ r) = Ok (t1, t2).
Proof.
  intros H1 H2. unfold scan_range. rewrite starts_with_app.
  change (lit "_") with [ch_under]. change (lit "__") with [ch_under; ch_under]. cbn [app drop]. rewrite !drop_0.
  assert (∀ n r', 0 ≤ n → scan_number (print_uint n ++ ch_under :: r') = Some (n, ch_under :: r')) as Hs.
  { intros n r' Hn. apply scan_print; [done|]. by intros c r'' [= <- <-]. }
  unfold scan_ld. rewrite Hs by lia. change (tmin I64) with (- 2 ^ 63). change (tmax I64) with (2 ^ 63 - 1).
  rewrite (proj2 (Z.leb_le (- 2 ^ 63) t1)), (proj2 (Z.leb_le t1 _)) by lia. cbn [andb mbind res_bind].
  rewrite Z.eqb_refl, Hs by lia.
  rewrite (proj2 (Z.leb_le (- 2 ^ 63) t2)), (proj2 (Z.leb_le t2 _)) by lia. cbn [andb mbind res_bind].
  by rewrite !conv_id by (unfold_ctype; simpl; lia).
Qed.

Definition suffix_ok (s : list Z) : Prop := s = [] ∨ ∃ r, s = ch_dot :: r ∧ Forall plain r.

Definition version_ok (v : option Z) : Prop := match v with Some v => 0 ≤ v | None => True end.

Lemma timed_name_plain t1 t2 uuid v : 0 ≤ t1 → 0 ≤ t2 → Forall is_hex uuid → version_ok v →
  (ch_slash ∉ timed_name t1 t2 uuid v) ∧ (ch_dot ∉ timed_name t1 t2 uuid v).
Proof.
  intros H1 H2 Hu Hv. pose proof (print_plain t1 H1) as P1. pose proof (print_plain t2 H2) as P2. apply hex_plain in Hu.
  assert (Forall plain (match v with Some v => print_uint v | None => [] end)) as P3
    by (destruct v; [by apply print_plain|constructor]).
  assert (∀ c, (c = ch_slash ∨ c = ch_dot) → c ∉ timed_name t1 t2 uuid v) as H.
  { intros c Hc. assert (¬ plain c) by (unfold plain; destruct Hc as [->| ->]; tauto).
    pose proof (λ l Hl, plain_not_elem c l Hl H) as N. unfold timed_name.
    rewrite !not_elem_of_app. unfold ch_slash, ch_dot in Hc. split_and!; try (by apply N);
      try (change (lit "__") with [95; 95]; change (lit "_") with [95]; rewrite !not_elem_of_cons;
           pose proof (not_elem_of_nil c); split_and!; done || lia).
    destruct v; [|apply not_elem_of_nil]. rewrite not_elem_of_app. split; [|by apply N].
    change (lit "_") with [95]. apply not_elem_of_cons. split; [lia|apply not_elem_of_nil]. }
  split; apply H; tauto.
Qed.

Lemma timed_name_version t1 t2 uuid v : 0 ≤ t1 → 0 ≤ t2 → Forall is_hex uuid → length uuid = 32%nat → version_ok v →
  get_fragment_name_version (timed_name t1 t2 uuid v) = match v with Some _ => 3 | None => 2 end.
Proof.
  intros H1 H2 Hu Hl Hv. pose proof (unders_plain _ (print_plain t1 H1)) as P1.
  pose proof (unders_plain _ (print_plain t2 H2)) as P2. pose proof (unders_plain _ (hex_plain _ Hu)) as P3.
  unfold get_fragment_name_version. destruct v as [v|]; unfold timed_name.
  - rewrite !filter_app, P1, P2, P3, (unders_plain _ (print_plain v Hv)). done.
  - assert (timed_name t1 t2 uuid None = (lit "__" ++ print_uint t1 ++ lit "_" ++ print_uint t2) ++ ch_under :: uuid) as Hn.
    { unfold timed_name. rewrite app_nil_r, <- !app_assoc. done. }
    unfold timed_name. rewrite !filter_app, P1, P2, P3. fold (timed_name t1 t2 uuid None).
    rewrite Hn, after_last_app, Hl; [done|].
    apply plain_not_elem; [by apply hex_plain|]. by intros (_ & ? & _).
Qed.

Lemma last_not_elem (c : Z) s t : t ≠ [] → c ∉ t → ∃ d, last (s ++ t) = Some d ∧ d ≠ c.
Proof.
  intros Ht Hc. destruct (last t) as [d|] eqn:El; [|by apply last_None in El].
  exists d. rewrite last_app, El. split; [done|]. intros ->. apply last_Some in El as [t' ->]. apply Hc, elem_of_app. right. left.
Qed.

(** The timestamps in a name are read back from the URI. *)
Lemma timed_range env dir t1 t2 uuid v sfx :
  0 ≤ t1 < 2 ^ 63 → 0 ≤ t2 < 2 ^ 63 → Forall is_hex uuid → length uuid = 32%nat → version_ok v → suffix_ok sfx →
  let uri := dir ++ lit "/" ++ timed_name t1 t2 uuid v ++ sfx in
  canonical env uri → get_timestamp_range env uri = Ok (t1, t2).
Proof.
  intros H1 H2 Hu Hl Hv Hs uri Hcan. unfold get_timestamp_range, remove_trailing_slash.
  destruct (timed_name_plain t1 t2 uuid v) as [Hsl Hdot]; [lia|lia|done..|].
  pose proof (timed_name_version t1 t2 uuid v ltac:(lia) ltac:(lia) Hu Hl Hv) as Hver.
  assert (∃ r, timed_name t1 t2 uuid v = lit "__" ++ r) as [r Hr] by (unfold timed_name; eauto).
  set (name := timed_name t1 t2 uuid v) in *.
  assert (ch_slash ∉ name ++ sfx) as Hns.
  { rewrite not_elem_of_app. split; [done|]. destruct Hs as [->|(s & -> & Hp)]; [apply not_elem_of_nil|].
    apply not_elem_of_cons. split; [done|]. apply plain_not_elem; [done|]. by intros [? _]. }
  destruct (last_not_elem ch_slash (dir ++ lit "/") (name ++ sfx)) as (d & Hd & Hne); [by rewrite Hr|done|].
  rewrite <- app_assoc in Hd. fold uri in Hd. rewrite Hd, (proj2 (Z.eqb_neq _ _)) by done. rewrite Hcan. cbn [mbind res_bind].
  unfold last_path_part, uri. change (lit "/" ++ name ++ sfx) with (ch_slash :: name ++ sfx). rewrite after_last_app by done.
  assert ((match find_last_of ch_dot (name ++ sfx) with Some pos => take pos (name ++ sfx) | None => name ++ sfx end) = name) as ->.
  { destruct Hs as [->|(s & -> & Hp)]; [rewrite app_nil_r; by rewrite find_last_of_None|].
    rewrite find_last_of_app, take_app_length; [done|]. apply plain_not_elem; [done|]. by intros (_ & _ & ?). }
  destruct (find_last_of ch_under name) as [pos|] eqn:Ef.
  - rewrite Hver. destruct v; cbv iota; simpl (_ =? 1); cbv iota; unfold name, timed_name; by apply scan_timed.
  - exfalso. rewrite Hr in Ef. change (lit "__" ++ r) with ([ch_under] ++ ch_under :: r) in Ef. simpl in Ef.
    by destruct (find_last_of ch_under r).
Qed.

(** The name of a new fragment, and that of a consolidated one, carry the
    timestamps they were made from: what [get_timestamp_range] reads from the URI
    is what was printed, for every UUID that the random bytes give, with and
    without one of the suffixes of the files that belong to the fragment. *)
Theorem fragment_timestamps_roundtrip env array now rnd t sfx name :
  length rnd = 16%nat → 0 < t < 2 ^ 63 → suffix_ok sfx → new_fragment_name now (Some rnd) t = Ok name →
  canonical env (array ++ name ++ sfx) → get_timestamp_range env (array ++ name ++ sfx) = Ok (t, t).
Proof.
  intros Hr Ht Hs E Hc. destruct (uuid_hex rnd Hr) as (uuid & Eu & Hl & Hu). unfold new_fragment_name in E.
  rewrite Eu, (proj2 (Z.eqb_neq _ _)) in E by lia. cbn [mbind res_bind] in E.
  apply (f_equal (λ r, match r with Ok a => a | _ => [] end)) in E. cbv beta iota in E. subst name.
  assert (∀ r, (lit "/__" ++ r) ++ sfx = lit "/" ++ (lit "__" ++ r) ++ sfx) as Hsl by done. rewrite Hsl in Hc |- *.
  apply (timed_range env array t t uuid (Some format_version) sfx); try done; lia.
Qed.

Lemma parent_file env x name : name ≠ [] → ch_slash ∉ name → x ≠ [] → last x ≠ Some ch_slash →
  parent env (lit "file:///" ++ x ++ lit "/" ++ name) = Ok (lit "file:///" ++ x).
Proof.
  intros Hn Hs Hx Hl. unfold parent.
  destruct (last_not_elem ch_slash (lit "file:///" ++ x ++ lit "/") name Hn Hs) as (d & Hd & Hne).
  rewrite <- !app_assoc in Hd. rewrite Hd, (proj2 (Z.eqb_neq _ _)) by done.
  change (lit "/" ++ name) with (ch_slash :: name). rewrite (app_assoc (lit "file:///")), find_last_of_app by done.
  rewrite take_app_length. apply file_canonical.
Qed.

(** The name [compute_new_fragment_uri] gives a consolidated fragment covers the
    fragments it replaces: it is in their directory, and its timestamps are the
    start of the first fragment's and the end of the last one's. *)
Theorem consolidated_range env rnd x name last t1 t2 t3 t4 :
  length rnd = 16%nat → name ≠ [] → ch_slash ∉ name → x ≠ [] → list.last x ≠ Some ch_slash →
  get_timestamp_range env (lit "file:///" ++ x ++ lit "/" ++ name) = Ok (t1, t2) →
  get_timestamp_range env last = Ok (t3, t4) → 0 ≤ t1 < 2 ^ 63 → 0 ≤ t4 < 2 ^ 63 →
  ∃ uri, compute_new_fragment_uri env (Some rnd) (lit "file:///" ++ x ++ lit "/" ++ name) last = Ok uri ∧
    parent env uri = Ok (lit "file:///" ++ x) ∧ get_timestamp_range env uri = Ok (t1, t4) ∧
    get_fragment_version (last_path_part uri) = format_version.
Proof.
  intros Hr Hn Hs Hx Hl E1 E2 H1 H4. destruct (uuid_hex rnd Hr) as (uuid & Eu & Hlen & Hu).
  unfold compute_new_fragment_uri. rewrite Eu, E1, E2. cbn [mbind res_bind]. rewrite parent_file by done. cbn [mbind res_bind fst snd].
  set (new := timed_name t1 t4 uuid (Some format_version)).
  assert ((lit "file:///" ++ x) ++ lit "/__" ++ print_uint t1 ++ lit "_" ++ print_uint t4 ++ lit "_" ++ uuid ++ lit "_" ++
    print_uint format_version = lit "file:///" ++ x ++ lit "/" ++ new) as -> by (by rewrite <- app_assoc).
  destruct (timed_name_plain t1 t4 uuid (Some format_version)) as [Hsl Hd]; [lia|lia|done..|]. fold new in Hsl.
  eexists. split; [apply file_canonical|]. split_and!.
  - apply parent_file; [|done..]. unfold new, timed_name. done.
  - pose proof (timed_range env (lit "file:///" ++ x) t1 t4 uuid (Some format_version) []) as H. fold new in H.
    rewrite app_nil_r, <- app_assoc in H. apply H; try done; [by left|apply file_canonical].
  - unfold last_path_part. change (lit "/" ++ new) with (ch_slash :: new). rewrite app_assoc, after_last_app by done.
    unfold get_fragment_version, new. rewrite timed_name_version by (done || lia). change (3 <=? 2) with false. cbv iota.
    assert (timed_name t1 t4 uuid (Some format_version) =
      (lit "__" ++ print_uint t1 ++ lit "_" ++ print_uint t4 ++ lit "_" ++ uuid) ++ ch_under :: print_uint format_version) as ->
      by (unfold timed_name; by rewrite <- !app_assoc).
    rewrite after_last_app; [done|]. apply plain_not_elem; [by apply print_plain|]. by intros (_ & ? & _).
Qed.

(** ** Paths that resolve to a URI that is none *)

Definition an_environ : Environ := mkEnviron (lit "/home/u") None.

(** ["/."] becomes ["file:/"], which [to_path] cannot cut, and a path above the root
    that ends in a slash becomes ["/"]; neither is an absolute file URI. *)
Theorem abs_path_degenerate :
  abs_path an_environ (lit "/.") = Ok (lit "file:/") ∧ to_path (lit "file:/") = UB ∧
  abs_path an_environ (lit "/../x/") = Ok (lit "/").
Proof. by vm_compute. Qed.

Lemma fragment_timestamps_roundtrip_witness :
  ∃ name, new_fragment_name 9 (Some (replicate 16 7)) 12 = Ok name ∧
    get_timestamp_range an_environ (lit "file:///a" ++ name ++ lit ".vac") = Ok (12, 12).
Proof.
  eexists. split; [by vm_compute|].
  apply (fragment_timestamps_roundtrip an_environ (lit "file:///a") 9 (replicate 16 7)).
  - reflexivity.
  - lia.
  - right. exists (lit "vac"). split; [reflexivity|]. repeat constructor; discriminate.
  - by vm_compute.
  - by vm_compute.
Defined.

Lemma consolidated_range_witness : ∃ uri,
  compute_new_fragment_uri an_environ (Some (replicate 16 7)) (lit "file:///a/__1_2_00000000000000000000000000000000")
    (lit "file:///a/__3_4_00000000000000000000000000000000") = Ok uri ∧ get_timestamp_range an_environ uri = Ok (1, 4).
Proof.
  destruct (consolidated_range an_environ (replicate 16 7) (lit "a") (lit "__1_2_00000000000000000000000000000000")
    (lit "file:///a/__3_4_00000000000000000000000000000000") 1 2 3 4) as (uri & E & _ & R & _).
  - reflexivity.
  - discriminate.
  - apply (bool_decide_unpack _). by vm_compute.
  - discriminate.
  - discriminate.
  - by vm_compute.
  - by vm_compute.
  - lia.
  - lia.
  - by exists uri.
Defined.
