(* ===== verification/StorageUris.v ===== *)
(** * Which fragments and metadata are loaded and vacuumed (storage_manager/storage_manager.cc)

    The file system is the interface [VFS]: queries on a state of type [F], and the
    operations that change it.  Each theorem names the laws it needs.  [std::sort]
    is any function that sorts ([sorts]). *)

From stdpp Require Import gmap sorting.
From S2P Require Import Prelude.
From S2P Require Import Strings.
From S2P Require Import Uri.
Local Open Scope Z_scope.

(** The part of [VFS] the storage manager uses here. *)
Class VFS (F : Type) : Type := {
  vfs_ls : F → list Z → res (list (list Z));
  vfs_is_file : F → list Z → res bool;
  vfs_is_dir : F → list Z → res bool;
  vfs_file_size : F → list Z → res Z;
  vfs_read : F → list Z → Z → Z → res (list Z);
  vfs_remove_file : list Z → M F unit;
  vfs_remove_dir : list Z → M F unit;
  vfs_filelock_lock : list Z → bool → M F Z;
  vfs_filelock_unlock : list Z → M F unit
}.

Definition ok_file_suffix : list Z := lit ".ok".
Definition vacuum_file_suffix : list Z := lit ".vac".
Definition meta_file_suffix : list Z := lit ".meta".
Definition fragment_metadata_filename : list Z := lit "__fragment_metadata.tdb".
Definition array_metadata_folder_name : list Z := lit "__meta".
Definition filelock_name : list Z := lit "__lock.tdb".
Definition INVALID_FILELOCK : Z := -1.

(** [TimestampedURI]: ordered by the start of its range. *)
Record TimestampedURI : Type := mkTimestampedURI { uri_ : list Z; timestamp_range_ : Z * Z }.

Definition uri_lt (a b : TimestampedURI) : bool := (timestamp_range_ a).1 <? (timestamp_range_ b).1.
Definition has_unary_timestamp_range (a : TimestampedURI) : bool := (timestamp_range_ a).1 =? (timestamp_range_ a).2.

(** [parallel_for] runs the body on every index, whatever fails; the caller then
    returns the first status that is not Ok.  The bodies do not depend on each
    other, and run here in order. *)
Fixpoint parallel_for {S A} (f : A → M S unit) (l : list A) : M S unit :=
  match l with
  | [] => mret ()
  | a :: l => λ s,
      let '(r, s1) := f a s in
      let '(rs, s2) := parallel_for f l s1 in
      (match r, rs with
       | UB, _ | _, UB => UB
       | Err c e, _ => Err c e
       | Ok _, rs => rs
       end, s2)
  end.

(** The elements whose entry in the vector is 1. *)
Fixpoint marked {A} (l : list A) (vec : list Z) : list A :=
  match l, vec with
  | a :: l, b :: vec => if b =? 1 then a :: marked l vec else marked l vec
  | _, _ => []
  end.

(** [std::getline] until the stream ends: the characters after the last newline
    are a line only when there are some. *)
Fixpoint getlines (s line : list Z) : list (list Z) :=
  match s with
  | [] => match line with [] => [] | _ => [line] end
  | c :: s => if c =? 10 then line :: getlines s [] else getlines s (line ++ [c])
  end.

Section storage.
Context {F : Type} {vfs : VFS F}.
Variable env : Environ.

(** ** [get_uris_to_vacuum] *)

(** The first loop: the vacuum files, and the index of every other URI. *)
Fixpoint vacuum_candidates (timestamp : Z) (i : nat) (uris : list (list Z)) (vac_uris : list (list Z))
    (uris_map : gmap (list Z) nat) : res (list (list Z) * gmap (list Z) nat) :=
  match uris with
  | [] => Ok (vac_uris, uris_map)
  | uri :: uris =>
      timestamp_range ← get_timestamp_range env uri;
      if timestamp <? timestamp_range.2 then vacuum_candidates timestamp (S i) uris vac_uris uris_map
      else if ends_with uri vacuum_file_suffix then vacuum_candidates timestamp (S i) uris (vac_uris ++ [uri]) uris_map
      else vacuum_candidates timestamp (S i) uris vac_uris (<[uri := i]> uris_map)
  end.

(** The body of the second loop: the lines of one vacuum file. *)
Definition mark_listed (fs : F) (uris_map : gmap (list Z) nat) (vac_uri : list Z) : M (list Z) unit :=
  size ← lift (vfs_file_size fs vac_uri);
  names ← lift (vfs_read fs vac_uri 0 size);
  vec ← get;
  put (foldl (λ vec uri_str, match uris_map !! uri_str with Some i => <[i := 1]> vec | None => vec end) vec
         (getlines names [])).

Definition get_uris_to_vacuum (fs : F) (uris : list (list Z)) (timestamp : Z) : res (list (list Z) * list (list Z)) :=
  c ← vacuum_candidates timestamp 0 uris [] ∅;
  let '(vac_uris, uris_map) := c in
  let '(st, to_vacuum_vec) := parallel_for (mark_listed fs uris_map) vac_uris (replicate (length uris) 0) in
  _ ← st;
  Ok (marked uris to_vacuum_vec, vac_uris).

(** ** [get_sorted_uris] *)

Fixpoint within_timestamp (to_ignore : list (list Z)) (timestamp : Z) (uris : list (list Z)) : res (list TimestampedURI) :=
  match uris with
  | [] => Ok []
  | uri :: uris =>
      if bool_decide (uri ∈ to_ignore) then within_timestamp to_ignore timestamp uris
      else
        timestamp_range ← get_timestamp_range env uri;
        rest ← within_timestamp to_ignore timestamp uris;
        Ok (if timestamp_range.2 <=? timestamp then mkTimestampedURI uri timestamp_range :: rest else rest)
  end.

Definition get_sorted_uris (sort : list TimestampedURI → list TimestampedURI) (fs : F) (uris : list (list Z))
    (timestamp : Z) : res (list TimestampedURI) :=
  match uris with
  | [] => Ok []
  | _ =>
      v ← get_uris_to_vacuum fs uris timestamp;
      sorted_uris ← within_timestamp v.1 timestamp uris;
      Ok (sort sorted_uris)
  end.

(** ** Fragments *)

Fixpoint get_consolidated_fragment_meta_uri (uris : list (list Z)) (t_latest : Z) (meta_uri : list Z) : res (list Z) :=
  match uris with
  | [] => Ok meta_uri
  | uri :: uris =>
      if ends_with uri meta_file_suffix then
        timestamp_range ← get_timestamp_range env uri;
        if t_latest <? timestamp_range.2 then get_consolidated_fragment_meta_uri uris timestamp_range.2 uri
        else get_consolidated_fragment_meta_uri uris t_latest meta_uri
      else get_consolidated_fragment_meta_uri uris t_latest meta_uri
  end.

(** The fragments that have an "ok" file. *)
Fixpoint get_ok_uris (uris : list (list Z)) : res (list (list Z)) :=
  match uris with
  | [] => Ok []
  | uri :: uris =>
      if ends_with uri ok_file_suffix then
        name ← mkURI env (take (length uri - length ok_file_suffix) uri);
        rest ← get_ok_uris uris;
        Ok (name :: rest)
      else get_ok_uris uris
  end.

Definition is_fragment (fs : F) (uri : list Z) (ok_uris : list (list Z)) : res bool :=
  u ← remove_trailing_slash env uri;
  let name := last_path_part u in
  if bool_decide (ch_dot ∈ name) then Ok false
  else if bool_decide (uri ∈ ok_uris) then Ok true
  else
    let version := get_fragment_version name in
    if negb (version =? tmax U32) && (5 <=? version) then Ok false
    else
      metadata ← join_path env uri fragment_metadata_filename;
      vfs_is_file fs metadata.

(** The body of the loop over the URIs: [is_fragment[i]]. *)
Definition mark_fragment (fs : F) (ok_uris : list (list Z)) (iu : nat * list Z) : M (list Z) unit :=
  if starts_with (last_path_part iu.2) (lit ".") then mret ()
  else
    b ← lift (is_fragment fs iu.2 ok_uris);
    vec ← get;
    put (<[iu.1 := Z.b2z b]> vec).

Definition get_fragment_uris (fs : F) (array_uri : list Z) : res (list (list Z) * list Z) :=
  dir ← add_trailing_slash env array_uri;
  uris ← vfs_ls fs dir;
  ok_uris ← get_ok_uris uris;
  let '(st, vec) := parallel_for (mark_fragment fs ok_uris) (imap pair uris) (replicate (length uris) 0) in
  _ ← st;
  meta_uri ← get_consolidated_fragment_meta_uri uris 0 [];
  Ok (marked uris vec, meta_uri).

(** The fragments [array_open_for_reads] and [array_reopen] load. *)
Definition fragments_to_load (sort : list TimestampedURI → list TimestampedURI) (fs : F) (array_uri : list Z)
    (timestamp : Z) : res (list TimestampedURI * list Z) :=
  f ← get_fragment_uris fs array_uri;
  sorted ← get_sorted_uris sort fs f.1 timestamp;
  Ok (sorted, f.2).

(** ** Array metadata *)

Definition get_array_metadata_uris (fs : F) (array_uri : list Z) : res (list (list Z)) :=
  metadata_dir ← join_path env array_uri array_metadata_folder_name;
  is_dir ← vfs_is_dir fs metadata_dir;
  if negb is_dir then Ok []
  else
    dir ← add_trailing_slash env metadata_dir;
    uris ← vfs_ls fs dir;
    Ok (filter (λ uri,
          starts_with (last_path_part uri) (lit ".") = false ∧
          starts_with (last_path_part uri) (lit "__") = true ∧
          ends_with (last_path_part uri) vacuum_file_suffix = false) uris).

Definition array_metadata_to_load (sort : list TimestampedURI → list TimestampedURI) (fs : F) (array_uri : list Z)
    (timestamp : Z) : res (list TimestampedURI) :=
  uris ← get_array_metadata_uris fs array_uri;
  get_sorted_uris sort fs uris timestamp.

(** ** Vacuuming

    The state is the file system and [xfilelocks_]; the mutexes are in
    [StorageLocks]. *)

Definition SM : Type := F * gmap (list Z) Z.

Definition array_xlock (array_uri : list Z) : M SM unit :=
  lock_uri ← lift (join_path env array_uri filelock_name);
  filelock ← on_fst (vfs_filelock_lock lock_uri false);
  locks ← on_snd get;
  on_snd (put (<[array_uri := filelock]> locks)).

Definition array_xunlock (array_uri : list Z) : M SM unit :=
  locks ← on_snd get;
  match locks !! array_uri with
  | None => fail SC_StorageManager "Cannot unlock array exclusive lock; Filelock not found"
  | Some filelock =>
      lock_uri ← lift (join_path env array_uri filelock_name);
      (if negb (filelock =? INVALID_FILELOCK) then on_fst (vfs_filelock_unlock lock_uri) else mret ());;
      on_snd (put (delete array_uri locks))
  end.

(** [RETURN_NOT_OK_ELSE(st, array_xunlock(array_uri))] on the statuses of a loop. *)
Definition or_xunlock (array_uri : list Z) (m : M SM unit) : M SM unit := λ s,
  match m s with
  | (Err c e, s') => let '(r, s'') := array_xunlock array_uri s' in (match r with UB => UB | _ => Err c e end, s'')
  | r => r
  end.

Definition remove_ok_file (uri : list Z) : M SM unit :=
  ok ← lift (mkURI env (uri ++ ok_file_suffix));
  on_fst (vfs_remove_file ok).

Definition array_vacuum_fragments (array_name : option (list Z)) (now : Z) : M SM unit :=
  match array_name with
  | None => fail SC_StorageManager "Cannot vacuum fragments; Array name cannot be null"
  | Some array_name =>
      array_uri ← lift (mkURI env array_name);
      dir ← lift (add_trailing_slash env array_uri);
      fs ← on_fst get;
      uris ← lift (vfs_ls fs dir);
      v ← lift (get_uris_to_vacuum fs uris now);
      array_xlock array_uri;;
      or_xunlock array_uri (parallel_for remove_ok_file v.1);;
      array_xunlock array_uri;;
      parallel_for (λ uri, on_fst (vfs_remove_dir uri)) v.1;;
      parallel_for (λ uri, on_fst (vfs_remove_file uri)) v.2
  end.

Definition array_vacuum_fragment_meta (array_name : option (list Z)) : M SM unit :=
  match array_name with
  | None => fail SC_StorageManager "Cannot vacuum fragment metadata; Array name cannot be null"
  | Some array_name =>
      array_uri ← lift (mkURI env array_name);
      dir ← lift (add_trailing_slash env array_uri);
      fs ← on_fst get;
      uris ← lift (vfs_ls fs dir);
      last ← lift (get_consolidated_fragment_meta_uri uris 0 []);
      let to_vacuum := filter (λ uri, ends_with uri meta_file_suffix = true ∧ uri ≠ last) uris in
      array_xlock array_uri;;
      or_xunlock array_uri (parallel_for (λ uri, on_fst (vfs_remove_file uri)) to_vacuum);;
      array_xunlock array_uri
  end.

Definition array_vacuum_array_meta (array_name : option (list Z)) (now : Z) : M SM unit :=
  match array_name with
  | None => fail SC_StorageManager "Cannot vacuum array metadata; Array name cannot be null"
  | Some array_name =>
      array_uri ← lift (mkURI env array_name);
      meta_uri ← lift (join_path env array_uri array_metadata_folder_name);
      dir ← lift (add_trailing_slash env meta_uri);
      fs ← on_fst get;
      uris ← lift (vfs_ls fs dir);
      v ← lift (get_uris_to_vacuum fs uris now);
      array_xlock array_uri;;
      or_xunlock array_uri (parallel_for (λ uri, on_fst (vfs_remove_file uri)) v.1);;
      array_xunlock array_uri;;
      parallel_for (λ uri, on_fst (vfs_remove_file uri)) v.2
  end.

(** [array_vacuum], of the value of "sm.vacuum.mode". *)
Definition array_vacuum (array_name : option (list Z)) (mode : option (list Z)) (now : Z) : M SM unit :=
  match mode with
  | None => fail SC_StorageManager "Cannot vacuum array; Vacuum mode cannot be null"
  | Some mode =>
      if bool_decide (mode = lit "fragments") then array_vacuum_fragments array_name now
      else if bool_decide (mode = lit "fragment_meta") then array_vacuum_fragment_meta array_name
      else if bool_decide (mode = lit "array_meta") then array_vacuum_array_meta array_name now
      else fail SC_StorageManager "Cannot vacuum array; Invalid vacuum mode"
  end.

(** ** What is vacuumed *)

Definition in_time (timestamp : Z) (uri : list Z) : bool :=
  match get_timestamp_range env uri with Ok r => r.2 <=? timestamp | _ => false end.

(** The URIs have the form of the names the library makes. *)
Definition timed (uri : list Z) : Prop := ∃ r, get_timestamp_range env uri = Ok r.

Definition vac_file (timestamp : Z) (uri : list Z) : bool := in_time timestamp uri && ends_with uri vacuum_file_suffix.
Definition vac_target (timestamp : Z) (uri : list Z) : bool :=
  in_time timestamp uri && negb (ends_with uri vacuum_file_suffix).

(** [m'] is [m] with the positions of the targets, from [i] on. *)
Definition indexed (t : Z) (i : nat) (uris : list (list Z)) (m m' : gmap (list Z) nat) : Prop := ∀ u k,
  m' !! u = Some k ↔
    (∃ j, uris !! j = Some u ∧ vac_target t u = true ∧ k = (i + j)%nat) ∨
    (m !! u = Some k ∧ ¬ (u ∈ uris ∧ vac_target t u = true)).

Lemma indexed_skip t i x uris m m' : vac_target t x = false → indexed t (S i) uris m m' → indexed t i (x :: uris) m m'.
Proof.
  intros Hx H1 u k. rewrite (H1 u k), elem_of_cons. clear H1. split.
  - intros [(j & Hj & Hv & ->)|[Hm Hn]]; [|right; split; [done|]; intros [[->|Hu] Hv]; [congruence|tauto]].
    left. exists (S j). simpl. split_and!; [done..|lia].
  - intros [(j & Hj & Hv & ->)|[Hm Hn]]; [|right; split; [done|]; tauto].
    destruct j as [|j]; simpl in Hj; [congruence|]. left. exists j. split_and!; [done..|lia].
Qed.

Lemma indexed_insert t i x uris m m' : x ∉ uris → vac_target t x = true →
  indexed t (S i) uris (<[x := i]> m) m' → indexed t i (x :: uris) m m'.
Proof.
  intros Hni Hx H1 u k. rewrite (H1 u k), elem_of_cons. clear H1. split.
  - intros [(j & Hj & Hv & ->)|[Hm Hn]].
    + left. exists (S j). simpl. split_and!; [done..|lia].
    + apply lookup_insert_Some in Hm as [[<- <-]|[Hne Hm]]; [|right; split; [done|]; intros [[->|?] ?]; tauto].
      left. exists O. simpl. split_and!; [done..|lia].
  - intros [(j & Hj & Hv & ->)|[Hm Hn]].
    + destruct j as [|j]; simpl in Hj; [|left; exists j; split_and!; [done..|lia]].
      simplify_eq. right. rewrite lookup_insert_eq. split; [f_equal; lia|tauto].
    + right. rewrite lookup_insert_ne by (intros ->; tauto). tauto.
Qed.

Lemma vacuum_candidates_spec t uris : ∀ i vac m, Forall timed uris → NoDup uris →
  ∃ m', vacuum_candidates t i uris vac m = Ok (vac ++ filter (λ u, vac_file t u = true) uris, m') ∧
    indexed t i uris m m'.
Proof.
  induction uris as [|x uris IH]; intros i vac m Ht Hnd.
  { exists m. simpl. rewrite app_nil_r. split; [done|]. intros u k. rewrite elem_of_nil. split; [tauto|].
    intros [(j & ? & _)|[? _]]; done. }
  apply Forall_cons in Ht as [[r Hr] Ht]. apply NoDup_cons in Hnd as [Hx Hnd]. simpl. rewrite Hr. cbn [mbind res_bind].
  assert (in_time t x = (r.2 <=? t)) as Hin by (unfold in_time; by rewrite Hr).
  destruct (Z.ltb_spec t r.2) as [Hlt|Hle].
  - rewrite (proj2 (Z.leb_gt _ _)) in Hin by done. rewrite filter_cons_False by (unfold vac_file; by rewrite Hin).
    destruct (IH (S i) vac m Ht Hnd) as (m1 & -> & H1). exists m1. split; [done|]. apply indexed_skip; [|done].
    unfold vac_target. by rewrite Hin.
  - rewrite (proj2 (Z.leb_le _ _)) in Hin by done. destruct (ends_with x vacuum_file_suffix) eqn:Ev.
    + rewrite filter_cons_True by (unfold vac_file; by rewrite Hin).
      destruct (IH (S i) (vac ++ [x]) m Ht Hnd) as (m1 & -> & H1). exists m1. rewrite <- app_assoc. split; [done|].
      apply indexed_skip; [|done]. unfold vac_target. by rewrite Hin, Ev.
    + rewrite filter_cons_False by (unfold vac_file; by rewrite Hin, Ev).
      destruct (IH (S i) vac (<[x := i]> m) Ht Hnd) as (m1 & -> & H1). exists m1. split; [done|].
      apply indexed_insert; [done| |done]. unfold vac_target. by rewrite Hin, Ev.
Qed.

(** What the vacuum files hold. *)
Definition holds_file (fs : F) (content : list Z → list Z) (uri : list Z) : Prop :=
  ∃ n, vfs_file_size fs uri = Ok n ∧ vfs_read fs uri 0 n = Ok (content uri).

(** The positions [hit] are set in [vec]. *)
Definition sets (hit : nat → Prop) (vec vec' : list Z) : Prop :=
  length vec' = length vec ∧ ∀ k, vec' !! k = Some 1 ↔ (k < length vec)%nat ∧ hit k ∨ vec !! k = Some 1.

Lemma sets_fold (m : gmap (list Z) nat) lines : ∀ vec,
  sets (λ k, ∃ l, l ∈ lines ∧ m !! l = Some k) vec
    (foldl (λ vec uri_str, match m !! uri_str with Some i => <[i := 1]> vec | None => vec end) vec lines).
Proof.
  induction lines as [|l lines IH]; intros vec.
  { split; [done|]. intros k. split; [auto|]. intros [(_ & l & Hl & _)|?]; [by apply elem_of_nil in Hl|done]. }
  simpl. destruct (m !! l) as [i|] eqn:Em.
  - destruct (IH (<[i := 1]> vec)) as [Hlen Hk]. rewrite length_insert in Hlen, Hk. split; [done|].
    intros k. rewrite Hk, list_lookup_insert_Some. setoid_rewrite elem_of_cons. split.
    + intros [(Hlt & l' & Hl' & Hm)|[(<- & _ & Hlt)|[_ ?]]]; [left; eauto 6|left; eauto 6|by right].
    + intros [(Hlt & l' & [->|Hl'] & Hm)|Hv]; [simplify_eq; by right; left|left; eauto|].
      destruct (decide (i = k)) as [->|]; [|tauto]. right. left. split_and!; [done..|by eapply lookup_lt_Some].
  - destruct (IH vec) as [Hlen Hk]. split; [done|]. intros k. rewrite Hk. setoid_rewrite elem_of_cons. split.
    + intros [(Hlt & l' & Hl' & Hm)|?]; [left; eauto 6|by right].
    + intros [(Hlt & l' & [->|Hl'] & Hm)|?]; [congruence|left; eauto|by right].
Qed.

(** A loop whose bodies all set some positions. *)
Lemma sets_parallel {A} (f : A → M (list Z) unit) (hit : A → nat → Prop) l : ∀ vec,
  (∀ a v, a ∈ l → ∃ v', f a v = (Ok (), v') ∧ sets (hit a) v v') →
  ∃ vec', parallel_for f l vec = (Ok (), vec') ∧ sets (λ k, ∃ a, a ∈ l ∧ hit a k) vec vec'.
Proof.
  induction l as [|a l IH]; intros vec Hf.
  { exists vec. split; [done|]. split; [done|]. intros k. split; [auto|].
    intros [(_ & a & Ha & _)|?]; [by apply elem_of_nil in Ha|done]. }
  destruct (Hf a vec) as (v1 & E1 & L1 & S1); [left|].
  destruct (IH v1) as (v2 & E2 & L2 & S2); [intros; apply Hf; by right|].
  exists v2. simpl. rewrite E1, E2. split; [done|]. split; [congruence|]. intros k.
  rewrite S2, S1, L1. setoid_rewrite elem_of_cons. split.
  - intros [(Hlt & b & Hb & Hh)|[[Hlt Hh]|?]]; [left; eauto 6|left; eauto 6|by right].
  - intros [(Hlt & b & [->|Hb] & Hh)|?]; [by right; left|left; eauto|by right; right].
Qed.

Lemma marked_filter {A} (P : A → Prop) `{∀ a, Decision (P a)} (l : list A) : ∀ vec, length vec = length l →
  (∀ k a, l !! k = Some a → vec !! k = Some 1 ↔ P a) → marked l vec = filter P l.
Proof.
  induction l as [|a l IH]; intros [|b vec] Hlen Hk; try done. simpl in Hlen. injection Hlen as Hlen. simpl.
  rewrite (IH vec Hlen) by (intros k; apply (Hk (S k))). specialize (Hk O a eq_refl). simpl in Hk.
  destruct (Z.eqb_spec b 1) as [->|Hb]; [rewrite filter_cons_True; [done|by apply Hk]|].
  rewrite filter_cons_False; [done|]. rewrite <- Hk. congruence.
Qed.

(** Named in a vacuum file among [uris]. *)
Definition listed (content : list Z → list Z) (t : Z) (uris : list (list Z)) (u : list Z) : Prop :=
  ∃ v, v ∈ filter (λ v, vac_file t v = true) uris ∧ u ∈ getlines (content v) [].

#[global] Instance listed_dec content t uris u : Decision (listed content t uris u).
Proof.
  refine (cast_if (decide (Exists (λ v, u ∈ getlines (content v) []) (filter (λ v, vac_file t v = true) uris))));
    unfold listed; by rewrite <- Exists_exists.
Defined.

Lemma get_uris_to_vacuum_spec fs content uris t : Forall timed uris → NoDup uris →
  Forall (holds_file fs content) (filter (λ v, vac_file t v = true) uris) →
  get_uris_to_vacuum fs uris t =
    Ok (filter (λ u, vac_target t u = true ∧ listed content t uris u) uris, filter (λ v, vac_file t v = true) uris).
Proof.
  intros Ht Hnd Hc. unfold get_uris_to_vacuum.
  destruct (vacuum_candidates_spec t uris 0 [] ∅ Ht Hnd) as (m & -> & Hm). cbn [mbind res_bind app].
  set (vacs := filter _ uris) in *.
  destruct (sets_parallel (mark_listed fs m) (λ v k, ∃ l, l ∈ getlines (content v) [] ∧ m !! l = Some k) vacs
    (replicate (length uris) 0)) as (vec & -> & Hl & Hs).
  { intros v w Hv. rewrite Forall_forall in Hc. destruct (Hc v Hv) as (n & E1 & E2). unfold mark_listed, lift, get, put.
    unfold mbind, M_bind. rewrite E1, E2. eexists. split; [done|]. apply sets_fold. }
  cbn [mbind res_bind]. do 2 f_equal. rewrite length_replicate in Hl, Hs. apply marked_filter; [done|].
  intros k u Hk. rewrite Hs. assert (k < length uris)%nat by (by eapply lookup_lt_Some).
  rewrite lookup_replicate. setoid_rewrite (Hm _ k). setoid_rewrite lookup_empty. unfold listed. fold vacs. split.
  - intros [(_ & v & Hv & l & Hl' & [(j & Hj & Htg & ->)|[? _]])|[? _]]; [|done..]. simplify_eq/=. eauto.
  - intros (Htg & v & Hv & Hl'). left. split; [done|]. exists v. split; [done|]. exists u. split; [done|]. left. by exists k.
Qed.

(** ** What is loaded *)

(** What [std::sort] promises; the order of equal elements is not specified. *)
Definition sorts (sort : list TimestampedURI → list TimestampedURI) : Prop := ∀ l,
  sort l ≡ₚ l ∧ StronglySorted (λ a b, (timestamp_range_ a).1 ≤ (timestamp_range_ b).1) (sort l).

Definition stamp (u : list Z) : TimestampedURI :=
  mkTimestampedURI u (match get_timestamp_range env u with Ok r => r | _ => (0, 0) end).

Lemma within_timestamp_spec to_ignore t uris : Forall timed uris →
  within_timestamp to_ignore t uris = Ok (stamp <$> filter (λ u, (u ∉ to_ignore) ∧ in_time t u = true) uris).
Proof.
  induction 1 as [|u uris [r Hr] _ IH]; [done|]. simpl. case_bool_decide as Hi.
  { rewrite filter_cons_False by tauto. done. }
  rewrite Hr, IH. cbn [mbind res_bind]. assert (in_time t u = (r.2 <=? t)) as Hin by (unfold in_time; by rewrite Hr).
  destruct (r.2 <=? t) eqn:E.
  - rewrite filter_cons_True by done. rewrite fmap_cons.
    assert (stamp u = mkTimestampedURI u r) as -> by (unfold stamp; by rewrite Hr). done.
  - rewrite filter_cons_False by (intros [_ ?]; congruence). done.
Qed.

(** C15. [get_sorted_uris] returns, in the order of the start of their ranges, exactly
    the URIs whose range ends by [timestamp], without those that a vacuum file
    among [uris] names. *)
Theorem sorted_uris_exact sort fs content uris t : sorts sort → Forall timed uris → NoDup uris →
  Forall (holds_file fs content) (filter (λ v, vac_file t v = true) uris) →
  ∃ l, get_sorted_uris sort fs uris t = Ok l ∧
    StronglySorted (λ a b, (timestamp_range_ a).1 ≤ (timestamp_range_ b).1) l ∧
    ∀ x, x ∈ l ↔ x = stamp (uri_ x) ∧ uri_ x ∈ uris ∧ in_time t (uri_ x) = true ∧
      ¬ (vac_target t (uri_ x) = true ∧ listed content t uris (uri_ x)).
Proof.
  intros Hsort Ht Hnd Hc. unfold get_sorted_uris. destruct uris as [|u0 uris'] eqn:E.
  { exists []. split_and!; [done|constructor|]. intros x. rewrite !elem_of_nil. tauto. }
  rewrite <- E in *. clear E u0 uris'.
  rewrite (get_uris_to_vacuum_spec fs content) by done. cbn [mbind res_bind fst]. rewrite within_timestamp_spec by done.
  cbn [mbind res_bind]. eexists. split; [done|]. match goal with |- context [sort ?l] => destruct (Hsort l) as [Hp Hs] end.
  split; [done|]. intros x. rewrite Hp, list_elem_of_fmap. setoid_rewrite list_elem_of_filter.
  setoid_rewrite list_elem_of_filter. split.
  - intros (u & -> & [Hn Hin] & Hu). simpl. split_and!; [done..|]. intros Hl. apply Hn. done.
  - intros (Hx & Hu & Hin & Hn). exists (uri_ x). split; [done|]. split; [|done]. split; [|done]. intros [Hl _]. by apply Hn.
Qed.

(** ** Fragments *)

Definition hidden (uri : list Z) : bool := starts_with (last_path_part uri) (lit ".").

(** The loop over the URIs leaves the flags. *)
Lemma mark_fragments_spec fs oks (P : list Z → bool) uris : ∀ pre vec, length vec = length uris →
  (∀ u, u ∈ uris → hidden u = false → is_fragment fs u oks = Ok (P u)) →
  Forall (λ b, b = 0) vec →
  ∃ vec', parallel_for (mark_fragment fs oks) (imap (λ i u, ((length pre + i)%nat, u)) uris) (pre ++ vec) =
    (Ok (), pre ++ vec') ∧ marked uris vec' = filter (λ u, hidden u = false ∧ P u = true) uris.
Proof.
  induction uris as [|u uris IH]; intros pre vec Hlen Hf Hz.
  { exists vec. destruct vec; [|done]. done. }
  destruct vec as [|b vec]; [done|]. injection Hlen as Hlen.
  apply Forall_cons in Hz as [-> Hz].
  set (b := negb (hidden u) && P u).
  assert (mark_fragment fs oks ((length pre + 0)%nat, u) (pre ++ 0 :: vec) = (Ok (), (pre ++ [Z.b2z b]) ++ vec)) as E1.
  { unfold mark_fragment. cbn [snd fst]. fold (hidden u). unfold b. rewrite <- app_assoc. destruct (hidden u) eqn:Eh; [done|].
    unfold lift, mbind, M_bind, get, put. rewrite Hf by (done || left). rewrite Nat.add_0_r.
    rewrite insert_app_r_alt by done. by rewrite Nat.sub_diag. }
  destruct (IH (pre ++ [Z.b2z b]) vec) as (vec' & E2 & Hm).
  - done.
  - intros v Hv. apply Hf. by right.
  - done.
  - exists (Z.b2z b :: vec'). cbn [imap parallel_for]. rewrite E1.
    rewrite (imap_ext _ (λ i u, ((length (pre ++ [Z.b2z b]) + i)%nat, u)) uris)
      by (intros; unfold compose; rewrite length_app; simpl; f_equal; lia).
    rewrite E2, <- app_assoc. split; [done|]. simpl. rewrite Hm. unfold b. destruct (hidden u) eqn:Eh, (P u) eqn:Ep; simpl.
    all: first [rewrite filter_cons_True by done; done | rewrite filter_cons_False by (intros [? ?]; congruence); done].
Qed.

(** A URI in the directory that is the name of a committed fragment. *)
Definition committed (fs : F) (oks : list (list Z)) (u : list Z) : bool :=
  negb (hidden u) && match is_fragment fs u oks with Ok b => b | _ => false end.

Lemma get_fragment_uris_spec fs array dir uris oks meta :
  add_trailing_slash env array = Ok dir → vfs_ls fs dir = Ok uris → get_ok_uris uris = Ok oks →
  (∀ u, u ∈ uris → hidden u = false → is_ok (is_fragment fs u oks) = true) →
  get_consolidated_fragment_meta_uri uris 0 [] = Ok meta →
  get_fragment_uris fs array = Ok (filter (λ u, committed fs oks u = true) uris, meta).
Proof.
  intros E1 E2 E3 Hf E4. unfold get_fragment_uris. rewrite E1. cbn [mbind res_bind]. rewrite E2. cbn [mbind res_bind].
  rewrite E3. cbn [mbind res_bind].
  destruct (mark_fragments_spec fs oks (λ u, match is_fragment fs u oks with Ok b => b | _ => false end) uris []
    (replicate (length uris) 0)) as (vec & E & Hm).
  - by rewrite length_replicate.
  - intros u Hu Hh. specialize (Hf u Hu Hh). by destruct (is_fragment fs u oks).
  - by apply Forall_replicate.
  - change (imap (λ i u, ((length (@nil Z) + i)%nat, u)) uris) with (imap pair uris) in E. simpl app in E. rewrite E.
    cbn [mbind res_bind]. rewrite E4. cbn [mbind res_bind]. rewrite Hm. do 2 f_equal. apply list_filter_iff. intros u. unfold committed.
    rewrite andb_true_iff, negb_true_iff. done.
Qed.

(** The consolidated fragment metadata that is loaded is the first with the
    latest end. *)
Lemma meta_uri_spec uris : ∀ t0 m0 m, Forall (λ u, ends_with u meta_file_suffix = true → timed u) uris →
  get_consolidated_fragment_meta_uri uris t0 m0 = Ok m →
  (m = m0 ∧ ∀ u, u ∈ uris → ends_with u meta_file_suffix = true → (timestamp_range_ (stamp u)).2 ≤ t0) ∨
  (m ∈ uris ∧ ends_with m meta_file_suffix = true ∧ t0 < (timestamp_range_ (stamp m)).2 ∧
   ∀ u, u ∈ uris → ends_with u meta_file_suffix = true → (timestamp_range_ (stamp u)).2 ≤ (timestamp_range_ (stamp m)).2).
Proof.
  induction uris as [|u uris IH]; intros t0 m0 m Ht E; simpl in E.
  { simplify_eq. left. split; [done|]. intros u Hu. by apply elem_of_nil in Hu. }
  apply Forall_cons in Ht as [Hu Ht]. destruct (ends_with u meta_file_suffix) eqn:Es.
  - destruct (Hu eq_refl) as [r Hr]. rewrite Hr in E. cbn [mbind res_bind] in E.
    assert ((timestamp_range_ (stamp u)).2 = r.2) as Hst by (unfold stamp; by rewrite Hr).
    destruct (Z.ltb_spec t0 r.2) as [Hlt|Hle].
    + destruct (IH _ _ _ Ht E) as [[-> Hall]|(Hin & Hs & Hlt' & Hall)]; right.
      * rewrite Hst. split_and!; [left|done|done|]. intros v [->|Hv]%elem_of_cons ?; [lia|auto].
      * split_and!; [by right|done|lia|]. intros v [->|Hv]%elem_of_cons ?; [lia|auto].
    + destruct (IH _ _ _ Ht E) as [[-> Hall]|(Hin & Hs & Hlt' & Hall)].
      * left. split; [done|]. intros v [->|Hv]%elem_of_cons ?; [lia|auto].
      * right. split_and!; [by right|done|lia|]. intros v [->|Hv]%elem_of_cons ?; [lia|auto].
  - destruct (IH _ _ _ Ht E) as [[-> Hall]|(Hin & Hs & Hlt' & Hall)].
    + left. split; [done|]. intros v [->|Hv]%elem_of_cons ?; [congruence|auto].
    + right. split_and!; [by right|done|lia|]. intros v [->|Hv]%elem_of_cons ?; [congruence|auto].
Qed.

(** ** Vacuum files are not read when an array is opened *)

Lemma after_last_plain c s t : c ∉ t → after_last c (s ++ t) = after_last c s ++ t.
Proof.
  intros Ht. unfold after_last.
  assert (find_last_of c (s ++ t) = find_last_of c s) as ->.
  { induction s as [|x s IH]; [by apply find_last_of_None|]. simpl. by rewrite IH. }
  destruct (find_last_of c s) as [i|] eqn:E; [|done]. rewrite drop_app_le; [done|].
  clear Ht. revert i E. induction s as [|x s IH]; intros i E; [done|]. simpl in E.
  destruct (find_last_of c s) as [j|]; simplify_eq/=; [|destruct (x =? c); simplify_eq; lia]. specialize (IH j eq_refl). lia.
Qed.

Lemma ends_with_inv s sfx : ends_with s sfx = true → ∃ p, s = p ++ sfx.
Proof.
  unfold ends_with. destruct (Nat.ltb_spec (length s) (length sfx)); [done|]. intros E%bool_decide_eq_true.
  exists (take (length s - length sfx) s). rewrite <- E at 2. by rewrite take_drop.
Qed.

Lemma is_fragment_no_vac fs u oks : canonical env u → is_fragment fs u oks = Ok true → ends_with u vacuum_file_suffix = false.
Proof.
  intros Hc Hf. destruct (ends_with u vacuum_file_suffix) eqn:E; [|done]. exfalso.
  apply ends_with_inv in E as [p ->]. unfold is_fragment, remove_trailing_slash in Hf.
  rewrite last_app in Hf. change (last vacuum_file_suffix) with (Some 99) in Hf. cbv iota in Hf. simpl (99 =? ch_slash) in Hf.
  cbv iota in Hf. rewrite Hc in Hf. cbn [mbind res_bind] in Hf. rewrite bool_decide_true in Hf; [done|].
  unfold last_path_part. rewrite after_last_plain by (apply (bool_decide_unpack _); by vm_compute).
  apply elem_of_app. right. apply (bool_decide_unpack _). by vm_compute.
Qed.

Lemma no_vac_candidates t uris : ∀ i vac m c, Forall (λ u, ends_with u vacuum_file_suffix = false) uris →
  vacuum_candidates t i uris vac m = Ok c → c.1 = vac.
Proof.
  induction uris as [|u uris IH]; intros i vac m c Hv E; simpl in E; [by simplify_eq|].
  apply Forall_cons in Hv as [Hu Hv]. apply bind_ok in E as (r & _ & E). rewrite Hu in E.
  destruct (t <? r.2); by eapply IH.
Qed.

Lemma no_vac_empty fs uris t v : Forall (λ u, ends_with u vacuum_file_suffix = false) uris →
  get_uris_to_vacuum fs uris t = Ok v → v = ([], []).
Proof.
  intros Hv E. unfold get_uris_to_vacuum in E. apply bind_ok in E as ([vac m] & Ec & E).
  apply no_vac_candidates in Ec; [|done]. simpl in Ec. subst vac. simpl in E. cbn [mbind res_bind] in E. simplify_eq.
  f_equal. clear. by induction uris.
Qed.

Lemma parallel_for_ok {S A} (f : A → M S unit) l : ∀ s s', parallel_for f l s = (Ok (), s') →
  ∀ a, a ∈ l → ∃ s1 s2, f a s1 = (Ok (), s2).
Proof.
  induction l as [|b l IH]; intros s s' E a Ha; [by apply elem_of_nil in Ha|]. simpl in E.
  destruct (f b s) as [r s1] eqn:Eb, (parallel_for f l s1) as [rs s2] eqn:El.
  destruct r as [[]| |], rs as [[]| |]; simplify_eq.
  apply elem_of_cons in Ha as [->|Ha]; [eauto|by eapply IH].
Qed.

(** What [get_fragment_uris] returns, when it returns. *)
Lemma get_fragment_uris_inv fs array uris meta : get_fragment_uris fs array = Ok (uris, meta) →
  ∃ dir listing oks, add_trailing_slash env array = Ok dir ∧ vfs_ls fs dir = Ok listing ∧ get_ok_uris listing = Ok oks ∧
    uris = filter (λ u, committed fs oks u = true) listing ∧
    (∀ u, u ∈ listing → hidden u = false → is_ok (is_fragment fs u oks) = true) ∧
    get_consolidated_fragment_meta_uri listing 0 [] = Ok meta.
Proof.
  intros E. pose proof E as E0. unfold get_fragment_uris in E.
  apply bind_ok in E as (dir & E1 & E). apply bind_ok in E as (listing & E2 & E). apply bind_ok in E as (oks & E3 & E).
  destruct (parallel_for _ _ _) as [st vec] eqn:Ep. apply bind_ok in E as ([] & -> & E). apply bind_ok in E as (m & E4 & E).
  assert (∀ u, u ∈ listing → hidden u = false → is_ok (is_fragment fs u oks) = true) as Hf.
  { intros u Hu Hh. apply list_elem_of_lookup in Hu as [i Hi].
    destruct (parallel_for_ok _ _ _ _ Ep (i, u)) as (s1 & s2 & Ef).
    { apply list_elem_of_lookup. exists i. by rewrite list_lookup_imap, Hi. }
    unfold mark_fragment in Ef. cbn [snd fst] in Ef. fold (hidden u) in Ef. rewrite Hh in Ef.
    unfold lift, mbind, M_bind in Ef. by destruct (is_fragment fs u oks). }
  rewrite (get_fragment_uris_spec fs array dir listing oks m) in E0 by done.
  exists dir, listing, oks. split_and!; congruence || done.
Qed.

(** C34. Opening an array loads every committed fragment of the directory that is in
    time, whatever the vacuum files name: [get_fragment_uris] drops the vacuum
    files before [get_sorted_uris] looks for them, so that the fragments a
    consolidation has replaced are loaded along with the one that replaces
    them. *)
Theorem opened_despite_vacuum sort fs array dir listing uris meta l t : sorts sort →
  add_trailing_slash env array = Ok dir → vfs_ls fs dir = Ok listing → Forall (canonical env) listing →
  get_fragment_uris fs array = Ok (uris, meta) → fragments_to_load sort fs array t = Ok (l, meta) →
  ∀ u, u ∈ uris → in_time t u = true → stamp u ∈ l.
Proof.
  intros Hsort Ed El Hcan Eg Ef u Hu Hin. unfold fragments_to_load in Ef. rewrite Eg in Ef. cbn [mbind res_bind fst snd] in Ef.
  apply bind_ok in Ef as (l' & Es & [= ->]).
  assert (Forall (λ u, ends_with u vacuum_file_suffix = false) uris) as Hv.
  { apply get_fragment_uris_inv in Eg as (dir' & listing' & oks & Ed' & El' & _ & -> & _).
    rewrite Ed in Ed'. injection Ed' as <-. rewrite El in El'. injection El' as <-.
    apply Forall_forall. intros v [Hv1 Hv2]%list_elem_of_filter. rewrite Forall_forall in Hcan.
    unfold committed in Hv1. apply andb_prop in Hv1 as [_ Hv1]. apply (is_fragment_no_vac fs v oks); [by apply Hcan|].
    destruct (is_fragment fs v oks) as [[]| |]; done. }
  unfold get_sorted_uris in Es. destruct uris as [|u0 us] eqn:E; [by apply elem_of_nil in Hu|]. rewrite <- E in *. clear E.
  apply bind_ok in Es as (v & Ev & Es). apply no_vac_empty in Ev; [|done]. subst v. cbn [fst] in Es.
  apply bind_ok in Es as (sorted & Ew & [= <-]). rewrite (proj1 (Hsort sorted)). clear - Ew Hu Hin.
  revert sorted Ew. induction uris as [|x uris IH]; intros sorted Ew; [by apply elem_of_nil in Hu|].
  simpl in Ew.
  apply bind_ok in Ew as (r & Er & Ew). apply bind_ok in Ew as (rest & Ew & [= <-]).
  apply elem_of_cons in Hu as [<-|Hu]; [|destruct (r.2 <=? t); [apply elem_of_cons; right|]; by apply IH].
  unfold in_time in Hin. rewrite Er in Hin. rewrite Hin. unfold stamp. rewrite Er. left.
Qed.

End storage.
