(* ===== verification/StorageVacuum.v ===== *)
(** * What vacuuming leaves (storage_manager/storage_manager.cc)

    The laws of the file system, and what an array's fragments are after
    [array_vacuum_fragments]. *)

From stdpp Require Import gmap sorting.
From S2P Require Import Prelude.
From S2P Require Import Strings.
From S2P Require Import Uri.
From S2P Require Import StorageUris.
Local Open Scope Z_scope.

Section laws.
Context {F : Type} {vfs : VFS F}.

(** Nothing is gone from [fs'] but what [gone] says. *)
Definition removed (gone : list Z → bool) (fs fs' : F) : Prop :=
  (∀ d l, gone d = false → vfs_ls fs d = Ok l → vfs_ls fs' d = Ok (filter (λ v, gone v = false) l)) ∧
  ∀ v, gone v = false → vfs_is_file fs' v = vfs_is_file fs v ∧ vfs_is_dir fs' v = vfs_is_dir fs v.

Definition gone_file (u v : list Z) : bool := bool_decide (v = u).
Definition gone_dir (u v : list Z) : bool := bool_decide (v = u) || starts_with v (u ++ lit "/").

(** What the storage manager relies on: a directory lists its children, a file or
    directory that exists can be removed and takes nothing else with it, and locks
    on a lock file that exists change no file. *)
Record vfs_laws : Prop := {
  ls_children : ∀ fs d l, vfs_ls fs (d ++ lit "/") = Ok l →
    NoDup l ∧ ∀ u, u ∈ l → ∃ name, u = d ++ lit "/" ++ name ∧ name ≠ [] ∧ ch_slash ∉ name;
  remove_file_ok : ∀ fs u, vfs_is_file fs u = Ok true →
    ∃ fs', vfs_remove_file u fs = (Ok (), fs') ∧ removed (gone_file u) fs fs';
  remove_dir_ok : ∀ fs u, vfs_is_dir fs u = Ok true →
    ∃ fs', vfs_remove_dir u fs = (Ok (), fs') ∧ removed (gone_dir u) fs fs';
  lock_ok : ∀ fs u shared, vfs_is_file fs u = Ok true →
    ∃ k fs', vfs_filelock_lock u shared fs = (Ok k, fs') ∧ removed (λ _, false) fs fs';
  unlock_ok : ∀ fs u, vfs_is_file fs u = Ok true →
    ∃ fs', vfs_filelock_unlock u fs = (Ok (), fs') ∧ removed (λ _, false) fs fs'
}.

Lemma removed_trans g1 g2 fs1 fs2 fs3 : removed g1 fs1 fs2 → removed g2 fs2 fs3 →
  removed (λ v, g1 v || g2 v) fs1 fs3.
Proof.
  intros [L1 P1] [L2 P2]. split.
  - intros d l [H1 H2]%orb_false_elim Hl. rewrite (L2 d _ H2 (L1 d l H1 Hl)). f_equal. rewrite list_filter_filter.
    apply list_filter_iff. intros v. rewrite orb_false_iff. tauto.
  - intros v [H1 H2]%orb_false_elim. destruct (P1 v H1), (P2 v H2). split; congruence.
Qed.

Lemma removed_ext g1 g2 fs fs' : (∀ v, g1 v = g2 v) → removed g1 fs fs' → removed g2 fs fs'.
Proof.
  intros Hg [L P]. split.
  - intros d l Hd Hl. rewrite <- Hg in Hd. rewrite (L d l Hd Hl). f_equal. apply list_filter_iff. intros v. by rewrite Hg.
  - intros v Hv. apply P. by rewrite Hg.
Qed.

Lemma removed_none fs : removed (λ _, false) fs fs.
Proof.
  split; [|done]. intros d l _ ->. f_equal. induction l as [|x l IH]; [done|]. rewrite filter_cons_True by done. by f_equal.
Qed.

Lemma kept_file g fs fs' v : removed g fs fs' → g v = false → vfs_is_file fs' v = vfs_is_file fs v.
Proof. intros [_ H] Hg. by apply H. Qed.

Lemma kept_dir g fs fs' v : removed g fs fs' → g v = false → vfs_is_dir fs' v = vfs_is_dir fs v.
Proof. intros [_ H] Hg. by apply H. Qed.

(** A loop that removes things that are there, none of which takes another with it. *)
Lemma remove_all {L} (op : list Z → M (F * L) unit) (gone : list Z → list Z → bool) (present : F → list Z → Prop) us :
  (∀ fs lk u, present fs u → ∃ fs', op u (fs, lk) = (Ok (), (fs', lk)) ∧ removed (gone u) fs fs') →
  (∀ u v fs fs', u ∈ us → v ∈ us → u ≠ v → removed (gone u) fs fs' → present fs v → present fs' v) →
  NoDup us → ∀ fs lk, (∀ u, u ∈ us → present fs u) →
  ∃ fs', parallel_for op us (fs, lk) = (Ok (), (fs', lk)) ∧ removed (λ v, existsb (λ u, gone u v) us) fs fs'.
Proof.
  intros Hop. induction us as [|u us IH]; intros Hkeep Hnd fs lk Hp.
  { exists fs. split; [done|]. apply removed_none. }
  apply NoDup_cons in Hnd as [Hu Hnd]. destruct (Hop fs lk u (Hp u ltac:(left))) as (fs1 & E1 & R1).
  destruct (IH ltac:(intros; eapply Hkeep; eauto; by right) Hnd fs1 lk) as (fs2 & E2 & R2).
  { intros v Hv. apply (Hkeep u v fs); [left|by right|by intros ->|done|apply Hp; by right]. }
  exists fs2. simpl. rewrite E1, E2. split; [done|]. by apply (removed_trans _ _ fs fs1).
Qed.

End laws.

(** ** Names in a directory *)

Lemma starts_with_inv s p : starts_with s p = true → ∃ r, s = p ++ r.
Proof.
  unfold starts_with. destruct (Nat.ltb_spec (length s) (length p)); [done|]. intros E%bool_decide_eq_true.
  exists (drop (length p) s). rewrite <- E at 1. by rewrite take_drop.
Qed.

Lemma split_unique (c : Z) a b a' b' : c ∉ a → c ∉ a' → a ++ c :: b = a' ++ c :: b' → a = a'.
Proof.
  revert a'. induction a as [|x a IH]; intros [|x' a'] Ha Ha' E; simplify_eq/=; try done.
  - exfalso. apply Ha'. left.
  - exfalso. apply Ha. left.
  - f_equal. apply IH; [by intros ?; apply Ha; right|by intros ?; apply Ha'; right|done].
Qed.

Lemma filter_ext_in {A} (P Q : A → Prop) `{∀ a, Decision (P a), ∀ a, Decision (Q a)} (l : list A) :
  (∀ a, a ∈ l → P a ↔ Q a) → filter P l = filter Q l.
Proof.
  induction l as [|a l IH]; intros Hl; [done|]. rewrite !filter_cons, IH by (intros b Hb; apply Hl; by right).
  destruct (Hl a ltac:(left)) as [H1 H2]. destruct (decide (P a)), (decide (Q a)); tauto.
Qed.

Lemma join_plain env u c p ps : last u = Some c → c ≠ ch_slash → p ≠ ch_slash →
  join_path env u (p :: ps) = mkURI env (u ++ lit "/" ++ p :: ps).
Proof. intros Hl Hc Hp. unfold join_path. by rewrite Hl, !(proj2 (Z.eqb_neq _ _)). Qed.

Section vacuum.
Context {F : Type} {vfs : VFS F}.
Variable env : Environ.
Hypothesis laws : vfs_laws (F := F).

(** A file URI that is not the root. *)
Variable x : list Z.
Abbreviation array := (lit "file:///" ++ x).
Hypothesis Hx : ∃ y c, x = y ++ [c] ∧ c ≠ ch_slash.

Definition child (u : list Z) : Prop := ∃ name, u = array ++ lit "/" ++ name ∧ name ≠ [] ∧ ch_slash ∉ name.

Lemma child_canonical u s : child u → canonical env (u ++ s).
Proof. intros (name & -> & _). rewrite <- !app_assoc. apply file_canonical. Qed.

Lemma array_dir : add_trailing_slash env array = Ok (array ++ lit "/").
Proof.
  destruct Hx as (y & c & -> & Hc). unfold add_trailing_slash. rewrite app_assoc, last_snoc, (proj2 (Z.eqb_neq _ _)) by done.
  rewrite <- app_assoc, <- app_assoc. apply file_canonical.
Qed.

Lemma child_name u : child u → ∃ name, u = array ++ ch_slash :: name ∧ last_path_part u = name ∧ (ch_slash ∉ name) ∧
  remove_trailing_slash env u = Ok u.
Proof.
  intros Hu. pose proof (child_canonical u [] Hu) as Hc. rewrite app_nil_r in Hc. destruct Hu as (name & -> & Hn & Hs).
  exists name. split_and!; [done|by apply after_last_app|done|]. unfold remove_trailing_slash.
  destruct (last_not_elem ch_slash (array ++ lit "/") name Hn Hs) as (d & Hd & Hne). rewrite <- app_assoc in Hd.
  rewrite Hd, (proj2 (Z.eqb_neq _ _)) by done. apply Hc.
Qed.

(** A child's directory holds no other child. *)
Lemma gone_dir_child u v : child u → child v → gone_dir u v = bool_decide (v = u).
Proof.
  intros (n & -> & _ & _) (m & -> & _ & Hm). unfold gone_dir.
  destruct (starts_with _ _) eqn:E; [|by rewrite orb_false_r]. exfalso. apply starts_with_inv in E as [r E].
  rewrite <- !app_assoc in E. apply app_inv_head, app_inv_head, app_inv_head in E. subst m. apply Hm.
  rewrite !elem_of_app. right. left. left.
Qed.

Lemma gone_dir_below u v f : child u → child v → gone_dir u (v ++ ch_slash :: f) = bool_decide (v = u).
Proof.
  intros Hu Hv. unfold gone_dir. rewrite (bool_decide_false (_ ++ _ = _)).
  2:{ destruct Hu as (n & -> & Hn0 & Hn), Hv as (m & -> & _ & Hm). rewrite <- !app_assoc.
      intros E%app_inv_head%app_inv_head%app_inv_head. apply Hn. rewrite <- E. apply elem_of_app. right. left. }
  simpl orb. destruct (decide (v = u)) as [->|E].
  - rewrite (bool_decide_true (u = u)) by done. change (ch_slash :: f) with (lit "/" ++ f). rewrite app_assoc. apply starts_with_app.
  - rewrite (bool_decide_false (v = u)) by done. destruct (starts_with _ _) eqn:Es; [|done]. exfalso. apply E.
    apply starts_with_inv in Es as [r Es]. destruct Hu as (n & -> & Hn0 & Hn), Hv as (m & -> & _ & Hm).
    rewrite <- !app_assoc in Es. apply app_inv_head, app_inv_head, app_inv_head in Es.
    change (lit "/" ++ r) with (ch_slash :: r) in Es. by rewrite (split_unique _ _ _ _ _ Hm Hn Es).
Qed.

(** ** The "ok" files *)

(** Whether a suffix decides another. *)
Lemma ends_with_app s sfx sfx' : (length sfx' ≤ length sfx)%nat → ends_with (s ++ sfx) sfx' = ends_with sfx sfx'.
Proof.
  intros Hl. unfold ends_with. rewrite length_app.
  destruct (Nat.ltb_spec (length s + length sfx) (length sfx')), (Nat.ltb_spec (length sfx) (length sfx')); try lia.
  assert (drop (length s + length sfx - length sfx') (s ++ sfx) = drop (length sfx - length sfx') sfx) as ->; [|done].
  rewrite drop_app_ge by lia. f_equal. lia.
Qed.

Lemma ends_with_true s sfx : ends_with (s ++ sfx) sfx = true.
Proof.
  unfold ends_with. rewrite length_app. destruct (Nat.ltb_spec (length s + length sfx) (length sfx)); [lia|].
  rewrite Nat.add_sub, drop_app_length. by apply bool_decide_true.
Qed.

Lemma child_cut p : child (p ++ ok_file_suffix) → canonical env p.
Proof.
  intros (n & E & Hn & _). assert (8 ≤ length p)%nat as Hl.
  { apply (f_equal length) in E. rewrite !length_app in E. simpl in E.
    destruct Hx as (y & c & -> & _). rewrite length_app in E. simpl in E. destruct n; [done|]. simpl in E. lia. }
  assert (p = lit "file:///" ++ drop 8 p) as ->; [|apply file_canonical].
  rewrite <- (take_drop 8 p) at 1. f_equal.
  apply (f_equal (take 8)) in E. rewrite take_app_le in E by lia. rewrite E. done.
Qed.

Lemma ok_uris_spec l : Forall child l → ∃ oks, get_ok_uris env l = Ok oks ∧ ∀ u, u ∈ oks ↔ u ++ ok_file_suffix ∈ l.
Proof.
  induction 1 as [|v l Hv _ (oks & E & IH)]; simpl.
  { exists []. split; [done|]. intros u. by rewrite !elem_of_nil. }
  destruct (ends_with v ok_file_suffix) eqn:Ev.
  - apply ends_with_inv in Ev as [p ->]. rewrite length_app, Nat.add_sub, take_app_length, (child_cut p Hv), E.
    cbn [mbind res_bind]. eexists. split; [done|]. intros u. rewrite !elem_of_cons, IH.
    split; intros [H|?]; auto; left; [by subst|by apply app_inv_tail in H].
  - exists oks. split; [done|]. intros u. rewrite elem_of_cons, IH. split; [auto|].
    intros [<-|?]; [|done]. by rewrite ends_with_true in Ev.
Qed.

(** ** The state after vacuuming *)

Variables (tv vacs : list (list Z)).
Hypothesis Htv : Forall (λ u, child u ∧ ch_dot ∉ last_path_part u) tv.
Hypothesis Hvacs : Forall (λ v, child v ∧ ends_with v vacuum_file_suffix = true) vacs.

(** What is removed: the "ok" files, the directories, the vacuum files. *)
Definition vacuumed (v : list Z) : bool :=
  existsb (λ u, gone_file (u ++ ok_file_suffix) v) tv || existsb (λ u, gone_dir u v) tv || existsb (λ u, gone_file u v) vacs.

Lemma vacuumed_true v : vacuumed v = true ↔
  (∃ u, u ∈ tv ∧ (v = u ++ ok_file_suffix ∨ gone_dir u v = true)) ∨ v ∈ vacs.
Proof.
  unfold vacuumed, gone_file. rewrite !orb_true_iff, !existsb_exists.
  setoid_rewrite bool_decide_eq_true. setoid_rewrite <- list_elem_of_In. split.
  - intros [[(u & Hu & ->)|(u & Hu & Hg)]|(u & Hu & ->)]; eauto 6.
  - intros [(u & Hu & [->|Hg])|Hu]; eauto 6.
Qed.

Lemma dotted v p sfx : v = p ++ sfx → ch_slash ∉ sfx → ch_dot ∈ sfx → ch_dot ∈ last_path_part v.
Proof. intros -> Hs Hd. unfold last_path_part. rewrite after_last_plain by done. apply elem_of_app. by right. Qed.

(** Of the children, a fragment is removed only when it is one of [tv]. *)
Lemma vacuumed_plain v : child v → ch_dot ∉ last_path_part v → vacuumed v = bool_decide (v ∈ tv).
Proof.
  intros Hv Hd. rewrite Forall_forall in Htv, Hvacs. apply eq_true_iff_eq. rewrite vacuumed_true, bool_decide_eq_true. split.
  - intros [(u & Hu & [->|Hg])|Hin].
    + exfalso. apply Hd. eapply dotted; [done|apply (bool_decide_unpack _); by vm_compute..].
    + rewrite gone_dir_child, bool_decide_eq_true in Hg; [by subst|by apply Htv|done].
    + exfalso. apply Hd. destruct (Hvacs v Hin) as [_ [p ->]%ends_with_inv].
      eapply dotted; [done|apply (bool_decide_unpack _); by vm_compute..].
  - intros Hin. left. exists v. split; [done|]. right. rewrite gone_dir_child by done. by apply bool_decide_true.
Qed.

(** A child with another suffix stays, and an "ok" file with its fragment. *)
Lemma vacuumed_suffix p sfx : sfx = meta_file_suffix ∨ sfx = filelock_name → child (p ++ sfx) → vacuumed (p ++ sfx) = false.
Proof.
  intros Hs Hv. rewrite Forall_forall in Htv, Hvacs. apply not_true_is_false. rewrite vacuumed_true.
  assert (ch_dot ∈ last_path_part (p ++ sfx)) as Hd.
  { destruct Hs as [->| ->]; (eapply dotted; [done|apply (bool_decide_unpack _); by vm_compute..]). }
  assert (ends_with (p ++ sfx) ok_file_suffix = false ∧ ends_with (p ++ sfx) vacuum_file_suffix = false) as [Ho Hvc].
  { destruct Hs as [->| ->]; rewrite !ends_with_app by (simpl; lia); by vm_compute. }
  intros [(u & Hu & [E|Hg])|Hin].
  - rewrite E, ends_with_true in Ho. done.
  - rewrite gone_dir_child, bool_decide_eq_true in Hg; [|by apply Htv|done]. subst u. by apply (Htv _ Hu).
  - rewrite (proj2 (Hvacs _ Hin)) in Hvc. done.
Qed.

Lemma vacuumed_ok u : child u → ch_dot ∉ last_path_part u → vacuumed (u ++ ok_file_suffix) = bool_decide (u ∈ tv).
Proof.
  intros Hu Hd. rewrite Forall_forall in Htv, Hvacs. apply eq_true_iff_eq. rewrite vacuumed_true, bool_decide_eq_true.
  split; [|intros Hin; left; exists u; auto].
  assert (child (u ++ ok_file_suffix)) as Hc.
  { destruct Hu as (n & -> & Hn & Hs). exists (n ++ ok_file_suffix). rewrite <- !app_assoc. split; [done|]. split; [by destruct n|].
    rewrite not_elem_of_app. split; [done|]. apply (bool_decide_unpack _); by vm_compute. }
  intros [(w & Hw & [E|Hg])|Hin].
  - apply app_inv_tail in E. by subst.
  - rewrite gone_dir_child, bool_decide_eq_true in Hg; [|by apply Htv|done]. subst w. exfalso. apply (Htv _ Hw).
    eapply dotted; [done|apply (bool_decide_unpack _); by vm_compute..].
  - destruct (Hvacs _ Hin) as [_ [p E]%ends_with_inv]. apply (f_equal last) in E. by rewrite !last_app in E.
Qed.

Lemma vacuumed_metadata u : child u → u ∉ tv → vacuumed (u ++ lit "/" ++ fragment_metadata_filename) = false.
Proof.
  intros Hu Hn. rewrite Forall_forall in Htv, Hvacs. apply not_true_is_false. rewrite vacuumed_true.
  assert (∀ sfx, (length sfx ≤ 24)%nat → ends_with (u ++ lit "/" ++ fragment_metadata_filename) sfx =
    ends_with (lit "/" ++ fragment_metadata_filename) sfx) as He by (intros; by apply ends_with_app).
  intros [(w & Hw & [E|Hg])|Hin].
  - pose proof (He ok_file_suffix ltac:(simpl; lia)) as He'. rewrite E, ends_with_true in He'. done.
  - change (lit "/" ++ fragment_metadata_filename) with (ch_slash :: fragment_metadata_filename) in Hg.
    rewrite gone_dir_below, bool_decide_eq_true in Hg; [by subst|by apply Htv|done].
  - pose proof (proj2 (Hvacs _ Hin)) as Hvc. rewrite He in Hvc by (simpl; lia). done.
Qed.


(** The fragments are judged as before. *)
Lemma is_fragment_kept fs fs' listing oks oks' u : removed vacuumed fs fs' → Forall child listing →
  get_ok_uris env listing = Ok oks → get_ok_uris env (filter (λ v, vacuumed v = false) listing) = Ok oks' →
  child u → u ∉ tv → is_fragment env fs' u oks' = is_fragment env fs u oks.
Proof.
  intros [_ HP] Hl E E' Hu Hn. destruct (child_name u Hu) as (name & _ & Hln & _ & Hr). unfold is_fragment. rewrite Hr.
  cbn [mbind res_bind]. case_bool_decide as Hd; [done|].
  destruct (ok_uris_spec listing Hl) as (o & Eo & Ho). rewrite E in Eo. injection Eo as <-.
  destruct (ok_uris_spec (filter (λ v, vacuumed v = false) listing)) as (o & Eo & Ho').
  { apply Forall_forall. intros v [_ Hv]%list_elem_of_filter. rewrite Forall_forall in Hl. auto. }
  rewrite E' in Eo. injection Eo as <-.
  assert (bool_decide (u ∈ oks') = bool_decide (u ∈ oks)) as ->.
  { apply bool_decide_ext. rewrite Ho, Ho', list_elem_of_filter, vacuumed_ok by done.
    rewrite bool_decide_eq_false. tauto. }
  case_bool_decide; [done|]. destruct (_ && _); [done|].
  assert (join_path env u fragment_metadata_filename = Ok (u ++ lit "/" ++ fragment_metadata_filename)) as ->.
  { destruct Hu as (n & -> & Hn0 & Hs).
    destruct (last_not_elem ch_slash (array ++ lit "/") n Hn0 Hs) as (d & Hd' & Hne). rewrite <- app_assoc in Hd'.
    change fragment_metadata_filename with (95 :: drop 1 fragment_metadata_filename).
    rewrite (join_plain env _ d) by done. rewrite <- !app_assoc. apply file_canonical. }
  cbn [mbind res_bind]. apply HP. by apply vacuumed_metadata.
Qed.

Lemma meta_uri_filter (P : list Z → Prop) `{∀ v, Decision (P v)} l : ∀ t m,
  (∀ v, v ∈ l → ends_with v meta_file_suffix = true → P v) →
  get_consolidated_fragment_meta_uri env (filter P l) t m = get_consolidated_fragment_meta_uri env l t m.
Proof.
  induction l as [|v l IH]; intros t m Hl; [done|]. assert (∀ w, w ∈ l → ends_with w meta_file_suffix = true → P w) as Hl'.
  { intros w Hw. apply Hl. by right. }
  destruct (ends_with v meta_file_suffix) eqn:Ev.
  - rewrite filter_cons_True by (apply Hl; [left|done]). simpl. rewrite Ev. destruct (get_timestamp_range env v); [|done..].
    cbn [mbind res_bind]. destruct (t <? a.2); by apply IH.
  - simpl. rewrite Ev. destruct (decide (P v)); [|by rewrite filter_cons_False, IH].
    rewrite filter_cons_True by done. simpl. rewrite Ev. by apply IH.
Qed.

(** What the array holds after the files are removed. *)
Lemma fragments_after fs fs' listing uris meta : removed vacuumed fs fs' → vacuumed (array ++ lit "/") = false →
  vfs_ls fs (array ++ lit "/") = Ok listing → get_fragment_uris env fs array = Ok (uris, meta) →
  get_fragment_uris env fs' array = Ok (filter (λ u, u ∉ tv) uris, meta).
Proof.
  intros HR Hdir Els E. pose proof HR as [HL _]. specialize (HL _ _ Hdir Els).
  destruct (ls_children laws _ _ _ Els) as [_ Hch]. assert (Forall child listing) as Hc by (by apply Forall_forall).
  apply get_fragment_uris_inv in E as (dir & listing' & oks & Ed & El & Eo & -> & Hok & Em).
  assert (dir = array ++ lit "/") as -> by (rewrite array_dir in Ed; congruence).
  assert (listing' = listing) as -> by congruence. clear Ed El.
  destruct (ok_uris_spec (filter (λ v, vacuumed v = false) listing)) as (oks' & Eo' & _).
  { apply Forall_forall. intros v [_ Hv]%list_elem_of_filter. by apply Hch. }
  assert (∀ u, u ∈ listing → u ∉ tv → is_fragment env fs' u oks' = is_fragment env fs u oks) as Hkept.
  { intros u Hu Hn. apply (is_fragment_kept fs fs' listing); auto. by apply Hch. }
  assert (∀ u, child u → u ∈ tv → vacuumed u = true) as Hgone.
  { intros u Hu Hin. apply vacuumed_true. left. exists u. split; [done|]. right. rewrite gone_dir_child by done. by apply bool_decide_true. }
  rewrite (get_fragment_uris_spec env fs' array (array ++ lit "/") (filter (λ v, vacuumed v = false) listing) oks' meta).
  - do 2 f_equal. rewrite !list_filter_filter. apply filter_ext_in. intros u Hu.
    destruct (decide (u ∈ tv)) as [Hin|Hn].
    { rewrite Hgone by (done || by apply Hch). split; intros [? ?]; done || tauto. }
    assert (committed env fs' oks' u = committed env fs oks u) as -> by (unfold committed; by rewrite Hkept).
    split; [tauto|]. intros [_ Hcm]. split; [done|]. rewrite vacuumed_plain; [by apply bool_decide_false|by apply Hch|].
    intros Hd. unfold committed, is_fragment in Hcm. destruct (child_name u (Hch u Hu)) as (name & _ & _ & _ & Hr).
    rewrite Hr in Hcm. cbn [mbind res_bind] in Hcm. rewrite bool_decide_true in Hcm by done. by rewrite andb_false_r in Hcm.
  - apply array_dir.
  - done.
  - done.
  - intros u [Hv Hu]%list_elem_of_filter Hh. rewrite Hkept; [by apply Hok|done|].
    intros Hin. rewrite Hgone in Hv; [done|by apply Hch|done].
  - rewrite meta_uri_filter; [done|]. intros v Hv [p ->]%ends_with_inv. apply vacuumed_suffix; [by left|by apply Hch].
Qed.
End vacuum.

(** ** Vacuuming as a whole *)

Lemma marked_sublist {A} (l : list A) : ∀ vec, sublist (marked l vec) l.
Proof.
  induction l as [|a l IH]; intros [|b vec]; simpl; [constructor|constructor|apply sublist_nil_l|].
  destruct (b =? 1); by constructor.
Qed.

Lemma candidates_inv env t uris : ∀ i vac m c, vacuum_candidates env t i uris vac m = Ok c →
  ∃ l, c.1 = vac ++ l ∧ sublist l uris ∧ Forall (λ v, ends_with v vacuum_file_suffix = true) l.
Proof.
  induction uris as [|u uris IH]; intros i vac m c E; simpl in E.
  { simplify_eq. exists []. simpl. rewrite app_nil_r. split_and!; [done|constructor|constructor]. }
  apply bind_ok in E as (r & _ & E). destruct (t <? r.2); [|destruct (ends_with u vacuum_file_suffix) eqn:Eu].
  - apply IH in E as (l & -> & Hs & Hl). exists l. split_and!; [done|by constructor|done].
  - apply IH in E as (l & -> & Hs & Hl). exists (u :: l). rewrite <- app_assoc. split_and!; [done|by constructor|by constructor].
  - apply IH in E as (l & -> & Hs & Hl). exists l. split_and!; [done|by constructor|done].
Qed.

Lemma to_vacuum_inv {F} {vfs : VFS F} env (fs : F) uris t tv vacs : get_uris_to_vacuum env fs uris t = Ok (tv, vacs) →
  sublist tv uris ∧ sublist vacs uris ∧ Forall (λ v, ends_with v vacuum_file_suffix = true) vacs.
Proof.
  intros E. unfold get_uris_to_vacuum in E. apply bind_ok in E as ([vac m] & Ec & E).
  apply candidates_inv in Ec as (l & Hl & Hs & Hv). simpl in Hl. subst vac.
  destruct (parallel_for _ _ _) as [st vec]. apply bind_ok in E as ([] & _ & [= <- <-]). split; [apply marked_sublist|done].
Qed.

Section whole.
Context {F : Type} {vfs : VFS F}.
Variable env : Environ.
Hypothesis laws : vfs_laws (F := F).

(** The array. *)
Variable x : list Z.
Abbreviation array := (lit "file:///" ++ x).
Hypothesis Hx : ∃ y c, x = y ++ [c] ∧ c ≠ ch_slash.
Abbreviation lock_uri := (array ++ lit "/" ++ filelock_name).

Lemma lock_uri_eq : join_path env array filelock_name = Ok lock_uri.
Proof.
  destruct Hx as (y & c & E & Hc). change filelock_name with (95 :: drop 1 filelock_name).
  rewrite (join_plain env _ c) by (done || by rewrite E, app_assoc, last_snoc). rewrite <- !app_assoc. apply file_canonical.
Qed.

Lemma xlock_spec (fs : F) lk : vfs_is_file fs lock_uri = Ok true →
  ∃ k fs', array_xlock env array (fs, lk) = (Ok (), (fs', <[array := k]> lk)) ∧ removed (λ _, false) fs fs'.
Proof.
  intros Hf. destruct (lock_ok laws fs lock_uri false Hf) as (k & fs' & E & R). exists k, fs'. split; [|done].
  unfold array_xlock. rewrite lock_uri_eq. unfold lift, on_fst, on_snd, mbind, M_bind. rewrite E. done.
Qed.

Lemma xunlock_spec (fs : F) lk k : vfs_is_file fs lock_uri = Ok true → lk !! array = Some k →
  ∃ fs', array_xunlock env array (fs, lk) = (Ok (), (fs', delete array lk)) ∧ removed (λ _, false) fs fs'.
Proof.
  intros Hf Hk. unfold array_xunlock. rewrite (M_step (on_snd get) _ lk (fs, lk) (fs, lk)) by done. rewrite Hk, lock_uri_eq.
  destruct (k =? INVALID_FILELOCK); [exists fs; split; [done|apply removed_none]|].
  destruct (unlock_ok laws fs lock_uri Hf) as (fs' & E & R). exists fs'. split; [|done].
  unfold lift, on_fst, on_snd, mbind, M_bind, negb. rewrite E. done.
Qed.

Lemma remove_ok_files (fs : F) (lk : gmap (list Z) Z) tv : NoDup tv → (∀ u, u ∈ tv → child x u) →
  (∀ u, u ∈ tv → vfs_is_file fs (u ++ ok_file_suffix) = Ok true) →
  ∃ fs', parallel_for (remove_ok_file env) tv (fs, lk) = (Ok (), (fs', lk)) ∧
    removed (λ v, existsb (λ u, gone_file (u ++ ok_file_suffix) v) tv) fs fs'.
Proof.
  intros Nd Hc Hp. apply (remove_all (remove_ok_file env) (λ u, gone_file (u ++ ok_file_suffix))
    (λ fs u, child x u ∧ vfs_is_file fs (u ++ ok_file_suffix) = Ok true)); [| |done|auto].
  - intros fs0 lk0 u [Hu Hf]. destruct (remove_file_ok laws fs0 _ Hf) as (fs1 & E & R). exists fs1. split; [|done].
    unfold remove_ok_file. rewrite (child_canonical env x u _ Hu). unfold mbind, M_bind, lift, on_fst. by rewrite E.
  - intros u v fs0 fs1 _ _ Hne R [Hv Hf]. split; [done|]. rewrite (kept_file _ _ _ _ R); [done|].
    apply bool_decide_false. intros E%app_inv_tail. by apply Hne.
Qed.

Lemma remove_dirs (fs : F) (lk : gmap (list Z) Z) tv : NoDup tv → (∀ u, u ∈ tv → child x u) →
  (∀ u, u ∈ tv → vfs_is_dir fs u = Ok true) →
  ∃ fs', parallel_for (λ uri, on_fst (vfs_remove_dir uri)) tv (fs, lk) = (Ok (), (fs', lk)) ∧
    removed (λ v, existsb (λ u, gone_dir u v) tv) fs fs'.
Proof.
  intros Nd Hc Hp. apply (remove_all (λ uri, on_fst (vfs_remove_dir uri)) gone_dir (λ fs u, vfs_is_dir fs u = Ok true)); [| |done|auto].
  - intros fs0 lk0 u Hu. destruct (remove_dir_ok laws fs0 _ Hu) as (fs1 & E & R). exists fs1. split; [|done].
    unfold on_fst. by rewrite E.
  - intros u v fs0 fs1 Hu Hv Hne R Hd. rewrite (kept_dir _ _ _ _ R); [done|].
    rewrite (gone_dir_child x) by auto. by apply bool_decide_false.
Qed.

Lemma remove_files (fs : F) (lk : gmap (list Z) Z) vacs : NoDup vacs → (∀ u, u ∈ vacs → vfs_is_file fs u = Ok true) →
  ∃ fs', parallel_for (λ uri, on_fst (vfs_remove_file uri)) vacs (fs, lk) = (Ok (), (fs', lk)) ∧
    removed (λ v, existsb (λ u, gone_file u v) vacs) fs fs'.
Proof.
  intros Nd Hp. apply (remove_all (λ uri, on_fst (vfs_remove_file uri)) gone_file (λ fs u, vfs_is_file fs u = Ok true)); [| |done|auto].
  - intros fs0 lk0 u Hu. destruct (remove_file_ok laws fs0 _ Hu) as (fs1 & E & R). exists fs1. split; [|done].
    unfold on_fst. by rewrite E.
  - intros u v fs0 fs1 _ _ Hne R Hd. rewrite (kept_file _ _ _ _ R); [done|]. apply bool_decide_false. congruence.
Qed.

Lemma no_ok_file tv v : (∀ w, w ∈ tv → v ≠ w ++ ok_file_suffix) → existsb (λ u, gone_file (u ++ ok_file_suffix) v) tv = false.
Proof.
  intros Hn. apply not_true_is_false. rewrite existsb_exists. intros (w & Hw%list_elem_of_In & E%bool_decide_eq_true).
  by apply (Hn w).
Qed.

(** The steps after the URIs are known. *)
Lemma vacuum_steps (fs : F) lk tv vacs : NoDup tv → NoDup vacs →
  (∀ u, u ∈ tv → child x u) → (∀ v, v ∈ vacs → child x v) →
  (∀ u, u ∈ tv → (ch_dot ∉ last_path_part u) ∧ vfs_is_dir fs u = Ok true ∧ vfs_is_file fs (u ++ ok_file_suffix) = Ok true) →
  (∀ v, v ∈ vacs → vfs_is_file fs v = Ok true) → (∀ v, v ∈ vacs → ends_with v vacuum_file_suffix = true) →
  vfs_is_file fs lock_uri = Ok true →
  ∃ fs', (array_xlock env array;; or_xunlock env array (parallel_for (remove_ok_file env) tv);; array_xunlock env array;;
      parallel_for (λ uri, on_fst (vfs_remove_dir uri)) tv;; parallel_for (λ uri, on_fst (vfs_remove_file uri)) vacs)
    (fs, lk) = (Ok (), (fs', delete array lk)) ∧ removed (vacuumed tv vacs) fs fs'.
Proof.
  intros Ntv Nvac Ctv Cvac Htv Hvacs Evac Hlk.
  assert (child x lock_uri) as Clk by (exists filelock_name; split_and!; [done..|apply (bool_decide_unpack _); by vm_compute]).
  assert (vacuumed tv vacs lock_uri = false) as Glk.
  { rewrite app_assoc. apply (vacuumed_suffix x); [apply Forall_forall; intros u Hu; split; [auto|by apply Htv]|by apply Forall_forall; auto|by right|].
    by rewrite <- app_assoc. }
  unfold vacuumed in Glk. apply orb_false_elim in Glk as [[Glk1 Glk2]%orb_false_elim Glk3].
  destruct (xlock_spec fs lk Hlk) as (k & fs1 & E1 & R1). rewrite (M_step _ _ () _ _ E1). pose proof (λ v, proj2 R1 v eq_refl) as P1.
  destruct (remove_ok_files fs1 (<[array := k]> lk) tv Ntv Ctv) as (fs2 & E2 & R2).
  { intros u Hu. rewrite (proj1 (P1 _)). by apply Htv. }
  rewrite (M_step (or_xunlock _ _ _) _ () _ (fs2, <[array := k]> lk)) by (unfold or_xunlock; by rewrite E2).
  destruct (xunlock_spec fs2 (<[array := k]> lk) k) as (fs3 & E3 & R3).
  { by rewrite (kept_file _ _ _ _ R2 Glk1), (proj1 (P1 _)). } { by rewrite lookup_insert_eq. }
  rewrite (M_step _ _ () _ _ E3). pose proof (λ v, proj2 R3 v eq_refl) as P3. rewrite delete_insert_eq.
  assert (∀ v, existsb (λ u, gone_file (u ++ ok_file_suffix) v) tv = false →
    vfs_is_file fs3 v = vfs_is_file fs v ∧ vfs_is_dir fs3 v = vfs_is_dir fs v) as P13.
  { intros v Hv. destruct (P1 v), (proj2 R2 v Hv), (P3 v). split; congruence. }
  destruct (remove_dirs fs3 (delete array lk) tv Ntv Ctv) as (fs4 & E4 & R4).
  { intros u Hu. destruct (P13 u) as [_ ->]; [|by apply Htv]. apply no_ok_file. intros w Hw ->. apply (Htv _ Hu).
    eapply dotted; [done|apply (bool_decide_unpack _); by vm_compute..]. }
  rewrite (M_step _ _ () _ _ E4).
  destruct (remove_files fs4 (delete array lk) vacs Nvac) as (fs5 & E5 & R5).
  { intros v Hv. rewrite (kept_file _ _ _ _ R4).
    - destruct (P13 v) as [-> _]; [|by apply Hvacs]. apply no_ok_file. intros w Hw E. apply Evac in Hv.
      apply ends_with_inv in Hv as [p Hp]. rewrite Hp in E. apply (f_equal last) in E. by rewrite !last_app in E.
    - apply not_true_is_false. rewrite existsb_exists. intros (w & Hw%list_elem_of_In & Hg).
      rewrite (gone_dir_child x), bool_decide_eq_true in Hg by auto. subst w. apply (Htv _ Hw).
      apply Evac, ends_with_inv in Hv as [p ->]. eapply dotted; [done|apply (bool_decide_unpack _); by vm_compute..]. }
  exists fs5. split; [by rewrite E5|].
  eapply removed_ext; [|exact (removed_trans _ _ _ _ _ R1 (removed_trans _ _ _ _ _ R2 (removed_trans _ _ _ _ _ R3
    (removed_trans _ _ _ _ _ R4 R5))))]. intros v. unfold vacuumed. simpl. by rewrite orb_assoc.
Qed.


End whole.

(** ** Vacuum files (consolidator.cc, write_vacuum_file) *)

Definition vacuum_file_data (to_consolidate : list (list Z)) : list Z := concat ((λ uri, uri ++ [10]) <$> to_consolidate).

Lemma getlines_app line s : (10 ∉ line) → ∀ acc, getlines (line ++ 10 :: s) acc = (acc ++ line) :: getlines s [].
Proof.
  induction line as [|c line IH]; intros Hn acc; simpl.
  { by rewrite app_nil_r. }
  apply not_elem_of_cons in Hn as [Hc Hn]. rewrite (proj2 (Z.eqb_neq _ _)) by congruence.
  by rewrite IH, <- app_assoc.
Qed.

(** C30. The URIs that are written to a vacuum file are the lines [get_uris_to_vacuum]
    reads from it. *)
Theorem vacuum_file_roundtrip uris : Forall (λ uri, 10 ∉ uri) uris → getlines (vacuum_file_data uris) [] = uris.
Proof.
  induction 1 as [|uri uris Hu _ IH]; [done|].
  change (vacuum_file_data (uri :: uris)) with ((uri ++ [10]) ++ vacuum_file_data uris).
  rewrite <- app_assoc. change ([10] ++ vacuum_file_data uris) with (10 :: vacuum_file_data uris).
  rewrite getlines_app by done. by rewrite IH.
Qed.

(** ** A file system in memory *)

(** Paths in order, with the content of the files. *)
Abbreviation MemFS := (list (list Z * option (list Z))).

Fixpoint mem_find (u : list Z) (fs : MemFS) : option (option (list Z)) :=
  match fs with
  | [] => None
  | (v, c) :: fs => if bool_decide (v = u) then Some c else mem_find u fs
  end.

Definition mem_child (d u : list Z) : bool :=
  starts_with u d && bool_decide (drop (length d) u ≠ []) && bool_decide (ch_slash ∉ drop (length d) u).

Definition mem_remove (gone : list Z → bool) (fs : MemFS) : MemFS := filter (λ e, gone e.1 = false) fs.

#[global] Instance mem_vfs : VFS MemFS := {|
  vfs_ls fs d := Ok (filter (λ u, mem_child d u = true) (remove_dups (fst <$> fs)));
  vfs_is_file fs u := Ok (match mem_find u fs with Some (Some _) => true | _ => false end);
  vfs_is_dir fs u := Ok (match mem_find u fs with Some None => true | _ => false end);
  vfs_file_size fs u := match mem_find u fs with Some (Some c) => Ok (zlen c) | _ => Err SC_IO "Cannot get file size" end;
  vfs_read fs u offset n := match mem_find u fs with
                            | Some (Some c) => Ok (take (Z.to_nat n) (drop (Z.to_nat offset) c))
                            | _ => Err SC_IO "Cannot read from file"
                            end;
  vfs_remove_file u fs := match mem_find u fs with
                          | Some (Some _) => (Ok (), mem_remove (gone_file u) fs)
                          | _ => (Err SC_IO "Cannot delete file", fs)
                          end;
  vfs_remove_dir u fs := match mem_find u fs with
                         | Some None => (Ok (), mem_remove (gone_dir u) fs)
                         | _ => (Err SC_IO "Failed to delete path", fs)
                         end;
  vfs_filelock_lock u shared fs := (Ok 3, fs);
  vfs_filelock_unlock u fs := (Ok (), fs)
|}.

Lemma remove_dups_filter {A} `{EqDecision A} (P : A → Prop) `{∀ a, Decision (P a)} (l : list A) :
  remove_dups (filter P l) = filter P (remove_dups l).
Proof.
  induction l as [|a l IH]; [done|]. simpl. destruct (decide (P a)) as [HP|HP].
  - rewrite filter_cons_True by done. simpl.
    destruct (decide_rel (∈) a l) as [Hin|Hin], (decide_rel (∈) a (filter P l)) as [Hf|Hf];
      rewrite list_elem_of_filter in Hf; try tauto. rewrite filter_cons_True by done. by f_equal.
  - rewrite filter_cons_False, IH by done. destruct (decide_rel (∈) a l); [done|]. by rewrite filter_cons_False.
Qed.

Lemma fmap_filter_fst (P : list Z → Prop) `{∀ a, Decision (P a)} (fs : list (list Z * option (list Z))) :
  (filter (λ e, P e.1) fs).*1 = filter P fs.*1.
Proof.
  induction fs as [|e fs IH]; [done|]. rewrite filter_cons, fmap_cons, filter_cons.
  destruct (decide (P e.1)); [|done]. by rewrite fmap_cons, IH.
Qed.

Lemma mem_removed gone fs : removed gone fs (mem_remove gone fs).
Proof.
  assert (∀ v, gone v = false → mem_find v (mem_remove gone fs) = mem_find v fs) as Hf.
  { intros v Hv. induction fs as [|[w c] fs IH]; [done|]. unfold mem_remove in *. destruct (gone w) eqn:Ew.
    - rewrite filter_cons_False by (simpl; congruence). simpl. rewrite IH. case_bool_decide; congruence.
    - rewrite filter_cons_True by done. simpl. by rewrite IH. }
  split; [|intros v Hv; simpl; by rewrite Hf]. intros d l _ [= <-]. unfold vfs_ls, mem_vfs, mem_remove. f_equal.
  rewrite (@fmap_filter_fst (λ v, gone v = false) (λ v, decide_rel eq (gone v) false) fs), remove_dups_filter, !list_filter_filter. apply list_filter_iff. tauto.
Qed.

Lemma mem_laws : vfs_laws (F := MemFS).
Proof.
  split.
  - intros fs d l [= <-]. split; [apply NoDup_filter, NoDup_remove_dups|]. intros u [Hc _]%list_elem_of_filter.
    unfold mem_child in Hc. apply andb_prop in Hc as [[Hs Hn]%andb_prop Hsl]. apply bool_decide_eq_true in Hn, Hsl.
    apply starts_with_inv in Hs as [r ->]. rewrite drop_app_length in Hn, Hsl. exists r. by rewrite <- app_assoc.
  - intros fs u. simpl. destruct (mem_find u fs) as [[c|]|]; [|done..]. intros _. eexists. split; [done|]. apply mem_removed.
  - intros fs u. simpl. destruct (mem_find u fs) as [[c|]|]; [done| |done]. intros _. eexists. split; [done|]. apply mem_removed.
  - intros fs u shared _. exists 3, fs. split; [done|]. apply removed_none.
  - intros fs u _. exists fs. split; [done|]. apply removed_none.
Qed.

(** ** An array after a consolidation *)

Definition array_a : list Z := lit "file:///a".
Definition fragment_of (t1 t2 : string) : list Z :=
  lit "file:///a/__" ++ lit t1 ++ lit "_" ++ lit t2 ++ lit "_00000000000000000000000000000000_5".

(** Two fragments, the one they are consolidated into, and its vacuum file. *)
Definition consolidated_fs : MemFS :=
  [(lit "file:///a/__array_schema.tdb", Some []); (lit "file:///a/__lock.tdb", Some []);
   (fragment_of "1" "1", None); (fragment_of "1" "1" ++ ok_file_suffix, Some []);
   (fragment_of "2" "2", None); (fragment_of "2" "2" ++ ok_file_suffix, Some []);
   (fragment_of "1" "2", None); (fragment_of "1" "2" ++ ok_file_suffix, Some []);
   (fragment_of "1" "2" ++ vacuum_file_suffix, Some (vacuum_file_data [fragment_of "1" "1"; fragment_of "2" "2"]))].

(** The same with two fragments of an earlier format, which have no "ok" files. *)
Definition old_fragment (t : string) : list Z := lit "file:///a/__" ++ lit t ++ lit "_" ++ lit t ++ lit "_00000000000000000000000000000000".
Definition old_format_fs : MemFS :=
  [(lit "file:///a/__array_schema.tdb", Some []); (lit "file:///a/__lock.tdb", Some []);
   (old_fragment "1", None); (old_fragment "1" ++ lit "/" ++ fragment_metadata_filename, Some []);
   (old_fragment "2", None); (old_fragment "2" ++ lit "/" ++ fragment_metadata_filename, Some []);
   (fragment_of "1" "2", None); (fragment_of "1" "2" ++ ok_file_suffix, Some []);
   (fragment_of "1" "2" ++ vacuum_file_suffix, Some (vacuum_file_data [old_fragment "1"; old_fragment "2"]))].


(** [std::sort], by insertion. *)
Fixpoint insert_uri (a : TimestampedURI) (l : list TimestampedURI) : list TimestampedURI :=
  match l with
  | [] => [a]
  | b :: l' => if uri_lt b a then b :: insert_uri a l' else a :: l
  end.
Definition sort_uris (l : list TimestampedURI) : list TimestampedURI := foldr insert_uri [] l.

Lemma insert_uri_perm a l : insert_uri a l ≡ₚ a :: l.
Proof. induction l as [|b l IH]; [done|]. simpl. destruct (uri_lt b a); [|done]. rewrite IH. constructor. Qed.

Lemma sort_uris_sorts : sorts sort_uris.
Proof.
  intros l. induction l as [|a l [IHp IHs]]; [split; [done|constructor]|]. simpl. split; [by rewrite insert_uri_perm, IHp|].
  clear IHp. induction IHs as [|b m Hm IH Hb]; simpl; [repeat constructor|].
  unfold uri_lt. destruct (Z.ltb_spec (timestamp_range_ b).1 (timestamp_range_ a).1).
  - constructor; [done|]. rewrite insert_uri_perm. constructor; [lia|done].
  - constructor; [by constructor|]. constructor; [lia|]. eapply Forall_impl; [exact Hb|]. simpl. lia.
Qed.

Lemma sorted_uris_exact_witness : ∃ l, get_sorted_uris an_environ sort_uris consolidated_fs (fst <$> consolidated_fs) 9 = Ok l ∧
  StronglySorted (λ a b, (timestamp_range_ a).1 ≤ (timestamp_range_ b).1) l.
Proof.
  destruct (sorted_uris_exact an_environ sort_uris consolidated_fs
    (λ _, vacuum_file_data [fragment_of "1" "1"; fragment_of "2" "2"]) (fst <$> consolidated_fs) 9) as (l & E & Hs & _).
  - apply sort_uris_sorts.
  - repeat (apply Forall_cons_2; [eexists; by vm_compute|]). apply Forall_nil_2.
  - apply (bool_decide_unpack _). by vm_compute.
  - assert (filter (λ v, vac_file an_environ 9 v = true) (fst <$> consolidated_fs) = [fragment_of "1" "2" ++ vacuum_file_suffix])
      as -> by (by vm_compute). apply Forall_singleton. eexists. by vm_compute.
  - exists l. split; [exact E|exact Hs].
Defined.

Lemma opened_despite_vacuum_witness :
  fragments_to_load an_environ sort_uris consolidated_fs array_a 9 =
    Ok (stamp an_environ <$> [fragment_of "1" "1"; fragment_of "1" "2"; fragment_of "2" "2"], []) ∧
  stamp an_environ (fragment_of "2" "2") ∈
    (stamp an_environ <$> [fragment_of "1" "1"; fragment_of "1" "2"; fragment_of "2" "2"]).
Proof.
  assert (fragments_to_load an_environ sort_uris consolidated_fs array_a 9 =
    Ok (stamp an_environ <$> [fragment_of "1" "1"; fragment_of "1" "2"; fragment_of "2" "2"], [])) as E by (by vm_compute).
  split; [exact E|].
  apply (opened_despite_vacuum an_environ sort_uris consolidated_fs array_a (array_a ++ lit "/") (fst <$> consolidated_fs)
    [fragment_of "1" "1"; fragment_of "2" "2"; fragment_of "1" "2"] [] _ 9 sort_uris_sorts).
  - by vm_compute.
  - by vm_compute.
  - repeat (apply Forall_cons_2; [by vm_compute|]). apply Forall_nil_2.
  - by vm_compute.
  - exact E.
  - right. left.
  - by vm_compute.
Defined.

(** Fragments written before format version 5 have no "ok" file, and vacuuming them
    fails on the first attempt to remove one: nothing is vacuumed. *)
Theorem vacuum_old_format_fails : ∃ m,
  get_uris_to_vacuum an_environ old_format_fs (filter (λ u, mem_child (array_a ++ lit "/") u = true) (fst <$> old_format_fs)) 9 =
    Ok ([old_fragment "1"; old_fragment "2"], [fragment_of "1" "2" ++ vacuum_file_suffix]) ∧
  array_vacuum_fragments an_environ (Some array_a) 9 (old_format_fs, ∅) = (Err SC_IO m, (old_format_fs, ∅)).
Proof. eexists. by vm_compute. Qed.

Lemma vacuum_file_roundtrip_witness :
  getlines (vacuum_file_data [fragment_of "1" "1"; fragment_of "2" "2"]) [] = [fragment_of "1" "1"; fragment_of "2" "2"].
Proof. apply (vacuum_file_roundtrip [fragment_of "1" "1"; fragment_of "2" "2"]). apply (bool_decide_unpack _). by vm_compute. Defined.
