(* ===== verification/StorageLocks.v ===== *)
(** * The locks of the storage manager (storage_manager/storage_manager.cc, open_array.cc)

    Threads that open, close and exclusively lock arrays, one step per statement
    that takes or releases a mutex or changes [open_arrays_for_reads_].  What else
    an operation does (checking the key, loading the schema and the fragments,
    locking the file) is the choice between the step of success and that of
    failure. *)

From stdpp Require Import gmap relations.
From S2P Require Import Prelude.
Local Open Scope Z_scope.

Abbreviation uri := (list Z).

(** Where a thread is.  The comments name the mutexes it holds. *)
Inductive pc : Type :=
| Idle
(* array_open_without_fragments, then the loading under the array's mutex *)
| Open1 (a : uri)   (* none *)
| Open2 (a : uri)   (* open_array_for_reads_mtx_ *)
| Open3 (a : uri)   (* and xlock_mtx_ *)
| Open4 (a : uri)   (* the same, the entry exists *)
| Open5 (a : uri)   (* and the array's mutex, counted *)
| Open6 (a : uri)   (* xlock_mtx_ released *)
| Load (a : uri)    (* the array's mutex *)
(* array_close_for_reads *)
| Close1 (a : uri)  (* none *)
| Close2 (a : uri)  (* open_array_for_reads_mtx_ *)
| Close3 (a : uri)  (* and the array's mutex, no longer counted *)
| Close4 (a : uri)  (* open_array_for_reads_mtx_ *)
(* array_xlock and array_xunlock *)
| Xlock1 (a : uri)  (* none *)
| Xlock2 (a : uri)  (* xlock_mtx_ *)
| Xlock3 (a : uri)  (* and open_array_for_reads_mtx_ *)
| Xwait (a : uri)   (* xlock_mtx_, waiting on xlock_cv_ *)
| Xlocked (a : uri) (* xlock_mtx_ *).

(** [OpenArray]: its counter and its mutex. *)
Record OpenArray : Type := mkOpenArray { cnt_ : Z; mtx_ : option nat }.

(** [opens] counts, for each array, the handles that are open and not being
    closed; it is no part of the program's state. *)
Record St : Type := mkSt {
  pcs : nat → pc;
  open_array_for_reads_mtx_ : option nat;
  xlock_mtx_ : option nat;
  open_arrays_for_reads_ : gmap uri OpenArray;
  opens : uri → Z
}.

Definition upd (f : nat → pc) (t : nat) (p : pc) : nat → pc := λ u, if decide (u = t) then p else f u.
Definition bump (f : uri → Z) (a : uri) (d : Z) : uri → Z := λ b, if decide (b = a) then f b + d else f b.

Definition init : St := mkSt (λ _, Idle) None None ∅ (λ _, 0).

(** ** Opening and closing *)

Inductive reader_step (t : nat) : St → St → Prop :=
| open_start f r x m o a : f t = Idle → reader_step t (mkSt f r x m o) (mkSt (upd f t (Open1 a)) r x m o)
| open_lock_reads f x m o a : f t = Open1 a →
    reader_step t (mkSt f None x m o) (mkSt (upd f t (Open2 a)) (Some t) x m o)
| open_lock_xlock f r m o a : f t = Open2 a →
    reader_step t (mkSt f r None m o) (mkSt (upd f t (Open3 a)) r (Some t) m o)
(* the key does not match: both guards are released *)
| open_bad_key f r x m o a : f t = Open3 a → reader_step t (mkSt f r x m o) (mkSt (upd f t Idle) None None m o)
| open_find f r x m o a e : f t = Open3 a → m !! a = Some e →
    reader_step t (mkSt f r x m o) (mkSt (upd f t (Open4 a)) r x m o)
| open_create f r x m o a : f t = Open3 a → m !! a = None →
    reader_step t (mkSt f r x m o) (mkSt (upd f t (Open4 a)) r x (<[a := mkOpenArray 0 None]> m) o)
(* 2^64 handles are out of reach *)
| open_count f r x m o a n : f t = Open4 a → m !! a = Some (mkOpenArray n None) → n + 1 < 2 ^ 64 →
    reader_step t (mkSt f r x m o) (mkSt (upd f t (Open5 a)) r x (<[a := mkOpenArray (n + 1) (Some t)]> m) o)
| open_unlock_xlock f r x m o a : f t = Open5 a → reader_step t (mkSt f r x m o) (mkSt (upd f t (Open6 a)) r None m o)
| open_unlock_reads f r x m o a : f t = Open6 a → reader_step t (mkSt f r x m o) (mkSt (upd f t (Load a)) None x m o)
| load_ok f r x m o a e : f t = Load a → m !! a = Some e →
    reader_step t (mkSt f r x m o) (mkSt (upd f t Idle) r x (<[a := mkOpenArray (cnt_ e) None]> m) (bump o a 1))
(* the file lock, the schema or the fragment metadata fail: the array is closed again *)
| load_error f r x m o a e : f t = Load a → m !! a = Some e →
    reader_step t (mkSt f r x m o) (mkSt (upd f t (Close1 a)) r x (<[a := mkOpenArray (cnt_ e) None]> m) o)
| close_start f r x m o a : f t = Idle → 0 < o a →
    reader_step t (mkSt f r x m o) (mkSt (upd f t (Close1 a)) r x m (bump o a (-1)))
| close_lock_reads f x m o a : f t = Close1 a →
    reader_step t (mkSt f None x m o) (mkSt (upd f t (Close2 a)) (Some t) x m o)
| close_absent f r x m o a : f t = Close2 a → m !! a = None →
    reader_step t (mkSt f r x m o) (mkSt (upd f t Idle) None x m o)
| close_count f r x m o a n : f t = Close2 a → m !! a = Some (mkOpenArray n None) →
    reader_step t (mkSt f r x m o) (mkSt (upd f t (Close3 a)) r x (<[a := mkOpenArray (u64 (n - 1)) (Some t)]> m) o)
| close_erase f r x m o a e : f t = Close3 a → m !! a = Some e → cnt_ e = 0 →
    reader_step t (mkSt f r x m o) (mkSt (upd f t (Close4 a)) r x (delete a m) o)
(* the file cannot be unlocked: the entry stays *)
| close_unlock_error f r x m o a e : f t = Close3 a → m !! a = Some e → cnt_ e = 0 →
    reader_step t (mkSt f r x m o) (mkSt (upd f t Idle) None x (<[a := mkOpenArray (cnt_ e) None]> m) o)
| close_keep f r x m o a e : f t = Close3 a → m !! a = Some e → cnt_ e ≠ 0 →
    reader_step t (mkSt f r x m o) (mkSt (upd f t (Close4 a)) r x (<[a := mkOpenArray (cnt_ e) None]> m) o)
| close_return f r x m o a : f t = Close4 a → reader_step t (mkSt f r x m o) (mkSt (upd f t Idle) None x m o).

(** ** The exclusive lock *)

(** A wait may end at any time; the predicate is then tested again under the
    mutex. *)
Inductive xlock_step (t : nat) : St → St → Prop :=
| xlock_start f r x m o a : f t = Idle → xlock_step t (mkSt f r x m o) (mkSt (upd f t (Xlock1 a)) r x m o)
| xlock_lock f r m o a : f t = Xlock1 a → xlock_step t (mkSt f r None m o) (mkSt (upd f t (Xlock2 a)) r (Some t) m o)
| xlock_lock_reads f x m o a : f t = Xlock2 a →
    xlock_step t (mkSt f None x m o) (mkSt (upd f t (Xlock3 a)) (Some t) x m o)
| xlock_wait f r x m o a e : f t = Xlock3 a → m !! a = Some e →
    xlock_step t (mkSt f r x m o) (mkSt (upd f t (Xwait a)) None x m o)
| xlock_wake f r x m o a : f t = Xwait a → xlock_step t (mkSt f r x m o) (mkSt (upd f t (Xlock2 a)) r x m o)
| xlock_ok f r x m o a : f t = Xlock3 a → m !! a = None →
    xlock_step t (mkSt f r x m o) (mkSt (upd f t (Xlocked a)) None x m o)
| xlock_file_error f r x m o a : f t = Xlock3 a → m !! a = None →
    xlock_step t (mkSt f r x m o) (mkSt (upd f t Idle) None None m o)
| xunlock f r x m o a : f t = Xlocked a → xlock_step t (mkSt f r x m o) (mkSt (upd f t Idle) r None m o).

(** ** Errors that return with a mutex held *)

Inductive leak_step (t : nat) : St → St → Prop :=
(* array_open_for_reads: get_fragment_uris, get_sorted_uris or
   load_consolidated_fragment_meta fail *)
| load_leak f r x m o a : f t = Load a → leak_step t (mkSt f r x m o) (mkSt (upd f t Idle) r x m o)
(* array_xunlock: the file cannot be unlocked *)
| xunlock_error f r x m o a : f t = Xlocked a → leak_step t (mkSt f r x m o) (mkSt (upd f t Idle) r x m o).

(** The system has the threads below [n]. *)
Definition step (n : nat) (s s' : St) : Prop :=
  ∃ t, (t < n)%nat ∧ (reader_step t s s' ∨ xlock_step t s s' ∨ leak_step t s s').

Definition reader_only (n : nat) (s s' : St) : Prop := ∃ t, (t < n)%nat ∧ reader_step t s s'.

(** ** Who holds what *)

Definition holds_reads (p : pc) : bool :=
  match p with Open2 _ | Open3 _ | Open4 _ | Open5 _ | Open6 _ | Close2 _ | Close3 _ | Close4 _ | Xlock3 _ => true | _ => false end.
Definition holds_xlock (p : pc) : bool :=
  match p with Open3 _ | Open4 _ | Open5 _ | Xlock2 _ | Xlock3 _ | Xwait _ | Xlocked _ => true | _ => false end.
(** The array whose mutex the thread holds. *)
Definition holds_array (a : uri) (p : pc) : bool :=
  match p with Open5 b | Open6 b | Load b | Close3 b => bool_decide (a = b) | _ => false end.
(** The array in whose counter the thread is counted. *)
Definition counted (a : uri) (p : pc) : bool :=
  match p with Open5 b | Open6 b | Load b | Close1 b | Close2 b => bool_decide (a = b) | _ => false end.

Fixpoint count (n : nat) (P : pc → bool) (f : nat → pc) : Z :=
  match n with O => 0 | S n => count n P f + Z.b2z (P (f n)) end.

Lemma count_upd n P f t p : (t < n)%nat → count n P (upd f t p) = count n P f - Z.b2z (P (f t)) + Z.b2z (P p).
Proof.
  assert (∀ m, (m ≤ t)%nat → count m P (upd f t p) = count m P f) as Hle.
  { induction m as [|m IH]; intros Hm; [done|]. simpl. rewrite IH by lia. unfold upd. by rewrite decide_False by lia. }
  induction n as [|n IH]; intros Hlt; [lia|]. simpl. destruct (decide (t = n)) as [->|Hne].
  - rewrite Hle by done. unfold upd. rewrite decide_True by done. lia.
  - rewrite IH by lia. unfold upd. rewrite decide_False by lia. lia.
Qed.

Lemma count_nonneg n P f : 0 ≤ count n P f.
Proof. induction n as [|n IH]; simpl; [done|]. destruct (P (f n)); simpl; lia. Qed.

Lemma count_pos n P f t : (t < n)%nat → P (f t) = true → 1 ≤ count n P f.
Proof.
  induction n as [|n IH]; intros Hlt HP; [lia|]. simpl. pose proof (count_nonneg n P f).
  destruct (decide (t = n)) as [->|]; [rewrite HP; simpl; lia|]. specialize (IH ltac:(lia) HP). destruct (P (f n)); simpl; lia.
Qed.

Definition counts (n : nat) (s : St) : Prop := ∀ a,
  0 ≤ opens s a ∧
  match open_arrays_for_reads_ s !! a with
  | Some e => opens s a + count n (counted a) (pcs s) ≤ cnt_ e < 2 ^ 64
  | None => opens s a = 0 ∧ count n (counted a) (pcs s) = 0
  end.

(** The invariant of the whole system. *)
Record inv (n : nat) (s : St) : Prop := {
  inv_reads : ∀ t, holds_reads (pcs s t) = true → open_array_for_reads_mtx_ s = Some t;
  inv_xlock : ∀ t, holds_xlock (pcs s t) = true → xlock_mtx_ s = Some t;
  inv_excl : ∀ t a, pcs s t = Xlocked a → open_arrays_for_reads_ s !! a = None;
  inv_counts : counts n s
}.

Lemma upd_eq f t p : upd f t p t = p.
Proof. unfold upd. by rewrite decide_True. Qed.
Lemma upd_ne f t p u : u ≠ t → upd f t p u = f u.
Proof. intros. unfold upd. by rewrite decide_False. Qed.

(** The thread that moves is told from the others. *)
Ltac by_thread t' t :=
  unfold upd; destruct (decide (t' = t)) as [->|]; simpl.

Lemma inv_init n : inv n init.
Proof.
  split; try done. intros a. simpl. rewrite lookup_empty. split; [done|]. split; [done|]. induction n as [|n IH]; [done|].
  simpl. rewrite IH. done.
Qed.

Lemma mutex_step n s s' : step n s s' →
  (∀ t, holds_reads (pcs s t) = true → open_array_for_reads_mtx_ s = Some t) →
  (∀ t, holds_xlock (pcs s t) = true → xlock_mtx_ s = Some t) →
  (∀ t, holds_reads (pcs s' t) = true → open_array_for_reads_mtx_ s' = Some t) ∧
  (∀ t, holds_xlock (pcs s' t) = true → xlock_mtx_ s' = Some t).
Proof.
  intros (t & _ & Hstep) Hr Hx. pose proof (Hr t) as Hrt. pose proof (Hx t) as Hxt.
  destruct Hstep as [Hs|[Hs|Hs]]; destruct Hs; simpl in *;
    match goal with H : ?f t = _ |- _ => rewrite H in Hrt, Hxt end; simpl in *;
    try specialize (Hrt eq_refl); try specialize (Hxt eq_refl);
    (split; intros t'; specialize (Hr t'); specialize (Hx t'); by_thread t' t; intros Hh; try done;
     first [by auto | specialize (Hr Hh); congruence | specialize (Hx Hh); congruence]).
Qed.

Lemma u64_pred z : 1 ≤ z < 2 ^ 64 → u64 (z - 1) = z - 1.
Proof. intros. unfold u64. apply Z.mod_small. lia. Qed.

Lemma counts_step n s s' : step n s s' → counts n s → counts n s'.
Proof.
  intros (t & Ht & Hstep) Hc b. specialize (Hc b). destruct Hc as [Ho Hc].
  destruct Hstep as [Hs|[Hs|Hs]]; destruct Hs; simpl in *;
    match goal with H : ?f t = _ |- _ => rewrite ?count_upd, ?H by done; pose proof (count_nonneg n (counted b) f);
      try (pose proof (count_pos n (counted b) f t Ht) as Hpos; rewrite H in Hpos) end;
    cbn [counted] in *; unfold bump;
    try (destruct (decide (b = a)) as [->|Hne];
         [rewrite ?lookup_insert_eq, ?lookup_delete_eq, ?bool_decide_true in * by done
         |rewrite ?lookup_insert_ne, ?lookup_delete_ne, ?(bool_decide_false (b = a)) in * by done]);
    simpl in *; try specialize (Hpos eq_refl);
    repeat match goal with H : ?m !! ?a = _ |- context [?m !! ?a] => rewrite H end;
    repeat match goal with H : ?m !! ?a = _, H' : context [?m !! ?a] |- _ => rewrite H in H' end;
    simpl in *; try (split; [lia|]);
    try match goal with |- context [?m !! ?a] => destruct (m !! a) as [?|] end;
    try rewrite u64_pred by lia; try lia.
Qed.

Lemma excl_step n s s' : step n s s' → (∀ t, holds_xlock (pcs s t) = true → xlock_mtx_ s = Some t) →
  (∀ t a, pcs s t = Xlocked a → open_arrays_for_reads_ s !! a = None) →
  ∀ t a, pcs s' t = Xlocked a → open_arrays_for_reads_ s' !! a = None.
Proof.
  intros (t & _ & Hstep) Hx He t' b. specialize (He t' b). pose proof (Hx t') as Hx'. specialize (Hx t).
  destruct Hstep as [Hs|[Hs|Hs]]; destruct Hs; simpl in *; by_thread t' t; intros E; try done; simplify_eq;
    try (by auto); specialize (He E); rewrite E in Hx'; specialize (Hx' eq_refl);
    try (destruct (decide (b = a)) as [->|]; [|by rewrite ?lookup_insert_ne, ?lookup_delete_ne]); try congruence;
    try (by rewrite lookup_delete_eq).
  match goal with H : f t = _ |- _ => rewrite H in Hx end. specialize (Hx eq_refl). congruence.
Qed.

Lemma inv_step n s s' : inv n s → step n s s' → inv n s'.
Proof.
  intros [I1 I2 I3 I4] Hs. destruct (mutex_step n s s' Hs I1 I2) as [J1 J2].
  split; [done|done|by eapply excl_step|by eapply counts_step].
Qed.

Lemma inv_reachable n s : rtc (step n) init s → inv n s.
Proof.
  assert (∀ s0, inv n s0 → rtc (step n) s0 s → inv n s) as H; [|apply H, inv_init].
  intros s0 H0 Hr. induction Hr as [|s1 s2 s3 H12 _ IH]; [done|]. apply IH. by eapply inv_step.
Qed.

Lemma rtc_inv n (P : St → Prop) s s' : (∀ s1 s2, inv n s1 → step n s1 s2 → P s1 → P s2) →
  rtc (step n) init s → P s → rtc (step n) s s' → P s' ∧ inv n s'.
Proof.
  intros HP Hr H0 Hs. apply inv_reachable in Hr. induction Hs as [|s1 s2 s3 H12 _ IH]; [done|].
  apply IH; [by eapply inv_step|by eapply HP].
Qed.

(** C19. A thread that has the exclusive lock of an array is the only one that uses it:
    no handle on the array is open for reads, and no thread is loading it or closing
    it. *)
Theorem xlock_excludes_readers n s t a : rtc (step n) init s → pcs s t = Xlocked a →
  open_arrays_for_reads_ s !! a = None ∧ opens s a = 0 ∧
  ∀ u, (u < n)%nat → counted a (pcs s u) = false ∧ (∀ b, pcs s u = Xlocked b → u = t).
Proof.
  intros Hr Hp. destruct (inv_reachable n s Hr) as [_ I2 I3 I4]. pose proof (I3 t a Hp) as Hn.
  destruct (I4 a) as [_ Hc]. rewrite Hn in Hc. destruct Hc as [Ho Hc]. split_and!; [done|done|]. intros u Hu. split.
  - destruct (counted a (pcs s u)) eqn:E; [|done]. pose proof (count_pos n (counted a) (pcs s) u Hu E). lia.
  - intros b Hb. pose proof (I2 t) as H1. pose proof (I2 u) as H2. rewrite Hp in H1. rewrite Hb in H2.
    specialize (H1 eq_refl). specialize (H2 eq_refl). congruence.
Qed.

(** ** Threads that wait for each other *)

(** The opener holds the mutex of the open arrays and waits for [xlock_mtx_]; the
    other thread holds [xlock_mtx_] and waits for that mutex. *)
Definition crossed (t u : nat) (a b : uri) (s : St) : Prop :=
  pcs s t = Open2 a ∧ (pcs s u = Xlock2 b ∨ pcs s u = Xwait b).

Lemma crossed_step n t u a b s s' : inv n s → step n s s' → crossed t u a b s → crossed t u a b s'.
Proof.
  intros [I1 I2 _ _] (v & _ & Hs) [Ht Hu]. pose proof (I1 t) as Hr. rewrite Ht in Hr. specialize (Hr eq_refl).
  assert (xlock_mtx_ s = Some u) as Hx by (apply I2; destruct Hu as [->| ->]; done).
  assert (pcs s' t = pcs s t ∧ (pcs s' u = pcs s u ∨ pcs s' u = Xlock2 b ∧ pcs s u = Xwait b)) as [Et Eu].
  { destruct Hs as [Hs|[Hs|Hs]]; destruct Hs; simpl in *; simplify_eq; unfold upd;
      (destruct (decide (t = v)) as [->|], (decide (u = v)) as [->|]; try (by destruct Hu; congruence); try (by auto);
       destruct Hu as [Hu|Hu]; simplify_eq; try congruence; auto).
    rewrite H in Hu. injection Hu as ->. auto. }
  split; [congruence|]. destruct Eu as [Eu|[Eu _]]; [rewrite Eu; done|by left].
Qed.

(** C39. Opening an array takes [open_array_for_reads_mtx_] and then [xlock_mtx_], and
    [array_xlock] takes them in the other order: when one thread has taken the first
    and another the second, neither moves again, whatever the others do. *)
Theorem lock_order_deadlock n s t u a b : rtc (step n) init s → pcs s t = Open2 a →
  pcs s u = Xlock2 b ∨ pcs s u = Xwait b →
  ∀ s', rtc (step n) s s' → pcs s' t = Open2 a ∧ (pcs s' u = Xlock2 b ∨ pcs s' u = Xwait b).
Proof.
  intros Hr Ht Hu s' Hs. destruct (rtc_inv n (crossed t u a b) s s') as [H _]; try done.
  intros. by eapply crossed_step.
Qed.

(** ** A mutex that is not released *)

(** Thread [t] waits for the mutex of array [a], which no thread is going to
    release. *)
Definition abandoned (t : nat) (a : uri) (s : St) : Prop :=
  pcs s t = Open4 a ∧ (∃ n v, open_arrays_for_reads_ s !! a = Some (mkOpenArray n (Some v))) ∧
  ∀ u, holds_array a (pcs s u) = false.

Lemma abandoned_step n t a s s' : inv n s → step n s s' → abandoned t a s → abandoned t a s'.
Proof.
  intros [I1 I2 _ _] (v & _ & Hs) (Ht & (k & w & Hm) & Ha). pose proof (I1 t) as Hr. rewrite Ht in Hr. specialize (Hr eq_refl).
  pose proof (I2 t) as Hx. rewrite Ht in Hx. specialize (Hx eq_refl).
  assert (v ≠ t) as Hvt by (intros ->; destruct Hs as [Hs|[Hs|Hs]]; destruct Hs; simpl in *; congruence).
  assert (holds_reads (pcs s v) = false) as Hrv by (destruct (holds_reads _) eqn:E; [apply I1 in E; congruence|done]).
  assert (holds_xlock (pcs s v) = false) as Hxv by (destruct (holds_xlock _) eqn:E; [apply I2 in E; congruence|done]).
  assert (pcs s' t = pcs s t ∧ open_arrays_for_reads_ s' !! a = open_arrays_for_reads_ s !! a ∧
    ∀ u, holds_array a (pcs s' u) = true → holds_array a (pcs s u) = true) as (Et & Em & Eh).
  { specialize (Ha v). destruct Hs as [Hs|[Hs|Hs]]; destruct Hs; simpl in *; try done;
      match goal with H : ?f v = _ |- _ => rewrite H in Hrv, Hxv, Ha end; simpl in *; try done;
      rewrite upd_ne by congruence; try (apply bool_decide_eq_false in Ha; rewrite lookup_insert_ne by congruence);
      (split_and!; [done|done|]; intros u; unfold upd; destruct (decide (u = v)); done). }
  split; [congruence|]. split; [exists k, w; congruence|]. intros u. specialize (Ha u). specialize (Eh u).
  destruct (holds_array a (pcs s' u)); [by rewrite Eh in Ha|done].
Qed.

(** When [array_open_for_reads] fails to list the fragments it returns with the
    array's mutex locked: a thread that then opens the array waits for ever, with
    both mutexes of the storage manager, so that no thread opens or closes any
    array again. *)
Theorem open_error_blocks n s t a k v s' : rtc (step n) init s → pcs s t = Open4 a →
  open_arrays_for_reads_ s !! a = Some (mkOpenArray k (Some v)) → (∀ u, holds_array a (pcs s u) = false) →
  rtc (step n) s s' →
  pcs s' t = Open4 a ∧ open_array_for_reads_mtx_ s' = Some t ∧ xlock_mtx_ s' = Some t.
Proof.
  intros Hr Ht Hm Ha Hs. destruct (rtc_inv n (abandoned t a) s s') as [(Ht' & _) HI]; try done.
  - intros. by eapply abandoned_step.
  - split_and!; [done|by exists k, v|done].
  - split; [done|]. split; [apply (inv_reads n s' HI)|apply (inv_xlock n s' HI)]; by rewrite Ht'.
Qed.

(** ** Readers alone always finish *)

(** A step of an operation that has started. *)
Definition continue (n : nat) (s s' : St) : Prop := ∃ t, (t < n)%nat ∧ pcs s t ≠ Idle ∧ reader_step t s s'.

(** What holds when no thread takes the exclusive lock and no error leaks a mutex:
    a mutex is held by the thread that is at a point where it holds it. *)
Record rinv (n : nat) (s : St) : Prop := {
  rinv_idle : ∀ t, (n ≤ t)%nat → pcs s t = Idle;
  rinv_reads : ∀ t, open_array_for_reads_mtx_ s = Some t → holds_reads (pcs s t) = true;
  rinv_xlock : ∀ t, xlock_mtx_ s = Some t → holds_xlock (pcs s t) = true;
  rinv_open : ∀ t a, pcs s t = Open4 a → is_Some (open_arrays_for_reads_ s !! a);
  rinv_array : ∀ t a, holds_array a (pcs s t) = true → ∃ k, open_arrays_for_reads_ s !! a = Some (mkOpenArray k (Some t));
  rinv_mtx : ∀ t a k, open_arrays_for_reads_ s !! a = Some (mkOpenArray k (Some t)) → holds_array a (pcs s t) = true;
  rinv_kind : ∀ t a, pcs s t ≠ Xlock1 a ∧ pcs s t ≠ Xlock2 a ∧ pcs s t ≠ Xlock3 a ∧ pcs s t ≠ Xwait a ∧ pcs s t ≠ Xlocked a
}.

Definition rank (p : pc) : Z :=
  match p with
  | Idle => 0 | Close4 _ => 1 | Close3 _ => 2 | Close2 _ => 3 | Close1 _ => 4 | Load _ => 5 | Open6 _ => 6 | Open5 _ => 7
  | Open4 _ => 8 | Open3 _ => 9 | Open2 _ => 10 | Open1 _ => 11 | _ => 0
  end.

Fixpoint ranks (n : nat) (f : nat → pc) : Z :=
  match n with O => 0 | S n => ranks n f + rank (f n) end.

Lemma ranks_upd n f t p : (t < n)%nat → ranks n (upd f t p) = ranks n f - rank (f t) + rank p.
Proof.
  assert (∀ m, (m ≤ t)%nat → ranks m (upd f t p) = ranks m f) as Hle.
  { induction m as [|m IH]; intros Hm; [done|]. simpl. rewrite IH by lia. unfold upd. by rewrite decide_False by lia. }
  induction n as [|n IH]; intros Hlt; [lia|]. simpl. destruct (decide (t = n)) as [->|Hne].
  - rewrite Hle by done. unfold upd. rewrite decide_True by done. lia.
  - rewrite IH by lia. unfold upd. rewrite decide_False by lia. lia.
Qed.

Lemma ranks_bound n f : 0 ≤ ranks n f ≤ 11 * Z.of_nat n.
Proof. induction n as [|n IH]; [done|]. cbn [ranks]. assert (0 ≤ rank (f n) ≤ 11) by (destruct (f n); simpl; lia). lia. Qed.

Lemma continue_rank n s s' : continue n s s' → ranks n (pcs s') < ranks n (pcs s).
Proof.
  intros (t & Ht & Hn & Hs). destruct Hs; simpl in *; rewrite ranks_upd by done;
    match goal with H : _ t = _ |- _ => rewrite H in * end; simpl; try done; lia.
Qed.

Lemma continue_length n k s s' : nsteps (continue n) k s s' → Z.of_nat k ≤ ranks n (pcs s) - ranks n (pcs s').
Proof.
  induction 1 as [s|k s1 s2 s3 H12 _ IH]; [lia|]. apply continue_rank in H12. lia.
Qed.

Lemma rinv_init n : rinv n init.
Proof. by split. Qed.

Lemma rinv_step n s s' : inv n s → rinv n s → reader_only n s s' → rinv n s'.
Proof.
  intros [I1 I2 _ _] [R0 R1 R2 R3 R4 R5 R6] (t & Hlt & Hs).
  assert (∀ u, u ≠ t → pcs s' u = pcs s u) as Hpc by (intros u Hu; destruct Hs; simpl; by apply upd_ne).
  split.
  - intros u Hu. rewrite Hpc by lia. auto.
  - intros u. specialize (R1 u). destruct Hs; simpl in *; intros E;
      (destruct (decide (u = t)) as [->|Hu]; [rewrite upd_eq|rewrite upd_ne by done]); try done; try (by apply R1); try congruence;
      match goal with H : _ t = _ |- _ => specialize (R1 E); by rewrite H in R1 end.
  - intros u. specialize (R2 u). destruct Hs; simpl in *; intros E;
      (destruct (decide (u = t)) as [->|Hu]; [rewrite upd_eq|rewrite upd_ne by done]); try done; try (by apply R2); try congruence;
      match goal with H : _ t = _ |- _ => specialize (R2 E); by rewrite H in R2 end.
  - intros u b. specialize (R3 u b). specialize (I1 u) as I1u. specialize (I1 t).
    destruct Hs; simpl in *; (destruct (decide (u = t)) as [->|]; [rewrite upd_eq|rewrite upd_ne by done]); intros E; simplify_eq;
      rewrite ?lookup_insert_is_Some'; eauto.
    rewrite E in I1u. match goal with H : f t = _ |- _ => rewrite H in I1 end. specialize (I1 eq_refl). specialize (I1u eq_refl). congruence.
  - intros u b. pose proof (R4 u b) as R4u. pose proof (R4 t b) as R4t.
    destruct Hs; simpl in *; (destruct (decide (u = t)) as [->|Hu]; [rewrite upd_eq|rewrite upd_ne by done]);
      match goal with H : _ t = _ |- _ => rewrite ?H in R4u, R4t end; simpl in *; intros E; try done; try (by auto);
      try (apply bool_decide_eq_true in E as <-); try rewrite lookup_insert_eq; eauto;
      (destruct (decide (a = b)) as [->|]; [|rewrite ?lookup_insert_ne, ?lookup_delete_ne by done; by auto]);
      destruct (R4u E) as [k2 Hk]; try congruence; match goal with H : _ t = _ |- _ => rewrite H in R4t end;
      simpl in R4t; rewrite bool_decide_true in R4t by done; destruct (R4t eq_refl); congruence.
  - intros u b k. pose proof (R5 u b k) as R5u. pose proof (R5 t b) as R5t. 
    destruct Hs; simpl in *; rewrite ?lookup_insert_Some, ?lookup_delete_Some; intros E;
      (destruct (decide (u = t)) as [->|Hu]; [rewrite upd_eq|rewrite upd_ne by done]);
      match goal with H : _ t = _ |- _ => rewrite ?H in R5u, R5t end; simpl in *; try (by auto); 
      try (destruct E as [[-> E]|[? E]]; try congruence; try (by auto)).
    all: try (by apply bool_decide_true).
    all: match goal with E : _ ∧ _ |- _ => destruct E as [? E] | _ => idtac end.
    all: specialize (R5u E); try done.
    all: apply bool_decide_eq_true in R5u; congruence.
  - intros u b. destruct (decide (u = t)) as [->|Hu]; [|rewrite Hpc by done; apply R6].
    destruct Hs; simpl; by rewrite upd_eq.
Qed.

Lemma reader_invs n s : rtc (reader_only n) init s → inv n s ∧ rinv n s.
Proof.
  assert (∀ s0, inv n s0 ∧ rinv n s0 → rtc (reader_only n) s0 s → inv n s ∧ rinv n s) as H;
    [|apply H; split; [apply inv_init|apply rinv_init]].
  intros s0 H0 Hr. induction Hr as [|s1 s2 s3 H12 _ IH]; [done|]. apply IH. destruct H0 as [HI HR]. split.
  - apply (inv_step n s1); [done|]. destruct H12 as (t & ? & ?). exists t. auto.
  - by apply (rinv_step n s1).
Qed.

(** A thread at one of these points can always move. *)
Lemma free_step t s a k : open_arrays_for_reads_ s !! a = Some (mkOpenArray k (Some t)) →
  pcs s t = Open5 a ∨ pcs s t = Open6 a ∨ pcs s t = Load a ∨ pcs s t = Close3 a → ∃ s', reader_step t s s'.
Proof.
  destruct s as [f r x m o]. simpl. intros Hm [Hp|[Hp|[Hp|Hp]]]; eauto using reader_step.
  destruct (decide (k = 0)); eauto using reader_step.
Qed.

(** The holder of the first mutex moves, or the holder of an array's mutex. *)
Lemma holder_moves n s v : inv n s → rinv n s → (∀ a e, open_arrays_for_reads_ s !! a = Some e → cnt_ e + 1 < 2 ^ 64) →
  (∀ u, (∃ s', reader_step u s s') → pcs s u ≠ Idle → ∃ s', continue n s s') →
  (∀ u a, holds_array a (pcs s u) = true → ∃ s', continue n s s') →
  (∀ a e, open_arrays_for_reads_ s !! a = Some e → (∃ s', continue n s s') ∨ mtx_ e = None) →
  open_array_for_reads_mtx_ s = Some v → holds_reads (pcs s v) = true → ∃ s', continue n s s'.
Proof.
  intros [I1 _ _ _] [_ _ R2 R3 _ _ R6] Hb Hgo Harr Hmtx Er Hh.
  assert (pcs s v ≠ Idle) as Hn by (by intros E; rewrite E in Hh).
  destruct (pcs s v) as [| | a | a | a | a | a | | | a | a | a | | | a | |] eqn:E; try done.
  - destruct (xlock_mtx_ s) as [w|] eqn:Ex.
    + exfalso. specialize (R2 w eq_refl). assert (holds_reads (pcs s w) = true → w = v) as Hw.
      { intros Hw%I1. congruence. }
      specialize (R6 w). destruct (pcs s w) as [| | | | | | | | | | | | b | b | b | b | b] eqn:Ew; try done;
        try (rewrite (Hw eq_refl) in Ew; congruence); destruct (R6 b) as (? & ? & ? & ? & ?); done.
    + apply (Hgo v); [|congruence]. destruct s as [f r x m o]. simpl in *. subst x. eauto using reader_step.
  - apply (Hgo v); [|congruence]. destruct s as [f r x m o]. eauto using reader_step.
  - destruct (R3 v a E) as [e He]. destruct (Hmtx a e He) as [|Hm]; [done|]. pose proof (Hb a e He).
    apply (Hgo v); [|congruence]. destruct s as [f r x m o], e as [k mt]. simpl in *. subst mt. eauto using reader_step.
  - apply (Harr v a). rewrite E. by apply bool_decide_true.
  - apply (Harr v a). rewrite E. by apply bool_decide_true.
  - destruct (open_arrays_for_reads_ s !! a) as [e|] eqn:He.
    + destruct (Hmtx a e He) as [|Hm]; [done|].
      apply (Hgo v); [|congruence]. destruct s as [f r x m o], e as [k mt]. simpl in *. subst mt. eauto using reader_step.
    + apply (Hgo v); [|congruence]. destruct s as [f r x m o]. eauto using reader_step.
  - apply (Harr v a). rewrite E. by apply bool_decide_true.
  - apply (Hgo v); [|congruence]. destruct s as [f r x m o]. eauto using reader_step.
  - exfalso. destruct (R6 v a) as (? & ? & ? & ? & ?). done.
Qed.

Lemma all_idle_or n s : rinv n s → (∀ t, pcs s t = Idle) ∨ ∃ t, pcs s t ≠ Idle.
Proof.
  intros [R0 _ _ _ _ _ _]. assert ((∀ t, (t < n)%nat → pcs s t = Idle) ∨ ∃ t, pcs s t ≠ Idle) as [H|H]; [|left|by right].
  - clear R0. induction n as [|n [IH|IH]]; [by left; lia| |by right]. destruct (pcs s n) eqn:E.
    { left. intros t Ht. destruct (decide (t = n)) as [->|]; [done|]. apply IH. lia. }
    all: right; exists n; by rewrite E.
  - intros t. destruct (Nat.lt_ge_cases t n); auto.
Qed.

Lemma readers_progress n s t : inv n s → rinv n s → (∀ a e, open_arrays_for_reads_ s !! a = Some e → cnt_ e + 1 < 2 ^ 64) →
  pcs s t ≠ Idle → ∃ s', continue n s s'.
Proof.
  intros HI HR Hb Ht. pose proof HI as [I1 _ _ _]. pose proof HR as [R0 R1 _ _ R4 R5 R6].
  assert (∀ u, pcs s u ≠ Idle → (u < n)%nat) as Hlt.
  { intros u Hu. destruct (Nat.lt_ge_cases u n); [done|]. by rewrite R0 in Hu. }
  assert (∀ u, (∃ s', reader_step u s s') → pcs s u ≠ Idle → ∃ s', continue n s s') as Hgo.
  { intros u [s' Hs] Hu. exists s', u. auto. }
  (* a thread that holds an array's mutex moves *)
  assert (∀ u a, holds_array a (pcs s u) = true → ∃ s', continue n s s') as Harr.
  { intros u a Hh. destruct (R4 u a Hh) as [k Hk]. apply (Hgo u); [|by intros E; rewrite E in Hh].
    apply (free_step u s a k Hk). destruct (pcs s u); simpl in Hh; try done; apply bool_decide_eq_true in Hh as ->; auto. }
  (* and so does one that waits for it, or its holder *)
  assert (∀ a e, open_arrays_for_reads_ s !! a = Some e → (∃ s', continue n s s') ∨ mtx_ e = None) as Hmtx.
  { intros a [k [v|]] He; [|by right]. left. by apply (Harr v a), (R5 v a k). }
  destruct (open_array_for_reads_mtx_ s) as [v|] eqn:Er.
  - specialize (R1 v eq_refl). by apply (holder_moves n s v).
  - clear HI HR. specialize (R6 t). specialize (I1 t). destruct s as [f r x m o]. simpl in *. subst r.
    destruct (f t) as [| a | | | | | | a | a | | | | a | a | a | a | a] eqn:E; try (specialize (I1 eq_refl); done); try done;
      try (exfalso; destruct (R6 a) as (? & ? & ? & ? & ?); done).
    + apply (Hgo t); [eauto using reader_step|by rewrite E].
    + apply (Harr t a). rewrite E. by apply bool_decide_true.
    + apply (Hgo t); [eauto using reader_step|by rewrite E].
Qed.


(** ** Runs *)

Ltac reader t rule := eapply rtc_l; [exists t; split; [lia|left; eapply rule; reflexivity]|].
Ltac locker t rule := eapply rtc_l; [exists t; split; [lia|right; left; eapply rule; reflexivity]|].
Ltac leaker t rule := eapply rtc_l; [exists t; split; [lia|right; right; eapply rule; reflexivity]|].

Lemma xlock_excludes_readers_witness : ∃ s, pcs s 0%nat = Xlocked [1] ∧ opens s [1] = 0.
Proof.
  assert (∃ s, rtc (step 1) init s ∧ pcs s 0%nat = Xlocked [1]) as (s & Hr & Hp).
  { eexists. split; [|shelve].
    locker 0%nat (xlock_start 0%nat). locker 0%nat (xlock_lock 0%nat). locker 0%nat (xlock_lock_reads 0%nat).
    locker 0%nat (xlock_ok 0%nat). apply rtc_refl. Unshelve. reflexivity. }
  exists s. split; [exact Hp|]. by destruct (xlock_excludes_readers 1 s 0%nat [1] Hr Hp) as (_ & Ho & _).
Defined.

Lemma lock_order_deadlock_witness : ∃ s, rtc (step 2) init s ∧
  ∀ s', rtc (step 2) s s' → pcs s' 0%nat = Open2 [1] ∧ (pcs s' 1%nat = Xlock2 [1] ∨ pcs s' 1%nat = Xwait [1]).
Proof.
  assert (∃ s, rtc (step 2) init s ∧ pcs s 0%nat = Open2 [1] ∧ pcs s 1%nat = Xlock2 [1]) as (s & Hr & H0 & H1).
  { eexists. split; [|shelve].
    reader 0%nat (open_start 0%nat). reader 0%nat (open_lock_reads 0%nat).
    locker 1%nat (xlock_start 1%nat). locker 1%nat (xlock_lock 1%nat). apply rtc_refl. Unshelve. split; reflexivity. }
  exists s. split; [exact Hr|]. apply (lock_order_deadlock 2 s 0%nat 1%nat [1] [1] Hr H0). by left.
Defined.

Lemma open_error_blocks_witness : ∃ s, rtc (step 2) init s ∧ pcs s 0%nat = Idle ∧
  ∀ s', rtc (step 2) s s' → pcs s' 1%nat = Open4 [1] ∧ open_array_for_reads_mtx_ s' = Some 1%nat ∧ xlock_mtx_ s' = Some 1%nat.
Proof.
  assert (∃ s, rtc (step 2) init s ∧ pcs s 0%nat = Idle ∧ pcs s 1%nat = Open4 [1] ∧
    open_arrays_for_reads_ s !! [1] = Some (mkOpenArray 1 (Some 0%nat)) ∧ ∀ u, holds_array [1] (pcs s u) = false)
    as (s & Hr & H0 & H1 & Hm & Ha).
  { eexists. split.
    - eapply rtc_l; [exists 0%nat; split; [lia|left; apply (open_start 0%nat _ _ _ _ _ [1]); reflexivity]|].
      reader 0%nat (open_lock_reads 0%nat). reader 0%nat (open_lock_xlock 0%nat). reader 0%nat (open_create 0%nat).
      reader 0%nat (open_count 0%nat). reader 0%nat (open_unlock_xlock 0%nat). reader 0%nat (open_unlock_reads 0%nat).
      leaker 0%nat (load_leak 0%nat).
      eapply rtc_l; [exists 1%nat; split; [lia|left; apply (open_start 1%nat _ _ _ _ _ [1]); reflexivity]|].
      reader 1%nat (open_lock_reads 1%nat). reader 1%nat (open_lock_xlock 1%nat). reader 1%nat (open_find 1%nat). apply rtc_refl.
    - split_and!; try reflexivity. intros u. simpl. unfold upd. by repeat (destruct (decide _); [done|]). }
  exists s. split_and!; [exact Hr|exact H0|]. intros s' Hs. exact (open_error_blocks 2 s 1%nat [1] 1 0%nat s' Hr H1 Hm Ha Hs).
Defined.

