(* ===== verification/ConstBuffer.v ===== *)
(** * ConstBuffer (buffer/const_buffer.cc): a read-only view of a byte block

    The object is the record [t]; [data_ = None] is a null pointer.  [view]
    is the abstract content of a well-formed buffer: the bytes left to read. *)

From S2P Require Import Prelude.
Local Open Scope Z_scope.

Record t : Type := mk {
  data_ : option (list Z);
  size_ : Z;
  offset_ : Z
}.

(** The block a pointer designates. *)
Definition block (d : option (list Z)) : list Z := default [] d.

(** [ConstBuffer(const void* data, uint64_t size)]. *)
Definition make (data : option (list Z)) (size : Z) : t := mk data size 0.

Definition set_offset (offset : Z) : M t unit := fun b =>
  (Ok (), mk (data_ b) (size_ b) offset).

Definition advance_offset (nbytes : Z) : M t unit := fun b =>
  (Ok (), mk (data_ b) (size_ b) (u64 (offset_ b + nbytes))).

(** [cur_data()], followed by an access to [nbytes] bytes. *)
Definition cur_data (b : t) (nbytes : Z) : res (list Z) :=
  memread (block (data_ b)) (offset_ b) nbytes.

Definition end_ (b : t) : bool := offset_ b =? size_ b.

Definition nbytes_left_to_read (b : t) : Z := u64 (size_ b - offset_ b).

Definition read (nbytes : Z) : M t (list Z) := fun b =>
  if size_ b <? u64 (offset_ b + nbytes) then
    (Err SC_ConstBuffer "Read buffer overflow", b)
  else
    match memread (block (data_ b)) (offset_ b) nbytes with
    | Ok x => (Ok x, mk (data_ b) (size_ b) (u64 (offset_ b + nbytes)))
    | _ => (UB, b)
    end.

(** [read_with_shift]: the copied bytes, every [uint64_t] cell increased by
    [offset]. *)
Fixpoint shift_cells (n : nat) (offset : Z) (bs : list Z) : list Z :=
  match n with
  | O => []
  | S n => to_bytes U64 (u64 (offset + of_bytes U64 (take 8 bs)))
             ++ shift_cells n offset (drop 8 bs)
  end.

Definition read_with_shift (nbytes offset : Z) : M t (list Z) := fun b =>
  let buffer_cell_num := nbytes / 8 in
  match memread (block (data_ b)) (offset_ b) (8 * buffer_cell_num) with
  | Ok x => (Ok (shift_cells (Z.to_nat buffer_cell_num) offset x),
             mk (data_ b) (size_ b) (u64 (offset_ b + nbytes)))
  | _ => (UB, b)
  end.

(** [read(&v, sizeof(T))]. *)
Definition read_val (ty : ctype) : M t Z :=
  bs ← read (csize ty); mret (of_bytes ty bs).

(** ** Specification *)

Definition wf (b : t) : Prop :=
  0 ≤ offset_ b ≤ size_ b ∧ size_ b ≤ zlen (block (data_ b)) ∧ size_ b < 2 ^ 64.

Definition view (b : t) : list Z :=
  slice (offset_ b) (size_ b - offset_ b) (block (data_ b)).

Lemma zlen_view b : wf b → zlen (view b) = size_ b - offset_ b.
Proof. intros (?&?&?). apply zlen_slice; lia. Qed.

Lemma view_make data : zlen data < 2 ^ 64 →
  wf (make (Some data) (zlen data)) ∧ view (make (Some data) (zlen data)) = data.
Proof.
  intros. pose proof (zlen_nonneg data). split.
  - repeat split; simpl; lia.
  - unfold view. simpl. rewrite Z.sub_0_r. apply slice_all.
Qed.

(** Reading advances the view. *)
Lemma read_view b x rest :
  wf b → view b = x ++ rest →
  ∃ b', read (zlen x) b = (Ok x, b') ∧ wf b' ∧ view b' = rest ∧
        data_ b' = data_ b ∧ size_ b' = size_ b ∧ offset_ b' = offset_ b + zlen x.
Proof.
  intros Hwf Hv. pose proof (zlen_view b Hwf) as Hl. rewrite Hv, zlen_app in Hl.
  pose proof (zlen_nonneg x). pose proof (zlen_nonneg rest).
  destruct Hwf as (Ho & Hs & Hb). unfold read.
  rewrite u64_id by lia. rewrite (proj2 (Z.ltb_ge _ _)) by lia.
  rewrite memread_ok by lia.
  assert (slice (offset_ b) (zlen x) (block (data_ b)) = x) as ->.
  { unfold view in Hv.
    apply (f_equal (take (length x))) in Hv.
    rewrite take_app_length in Hv. rewrite <- Hv at 2. unfold slice, zlen in *.
    rewrite take_take. f_equal. lia. }
  eexists. split; [reflexivity|]. simpl. repeat split; simpl; try lia.
  unfold view in *. simpl. apply (f_equal (drop (length x))) in Hv.
  rewrite drop_app_length in Hv. rewrite <- Hv. unfold slice, zlen in *.
  rewrite skipn_firstn_comm, drop_drop. f_equal; [lia|]. f_equal. lia.
Qed.

Lemma read_short b n :
  wf b → zlen (view b) < n < 2 ^ 63 → size_ b < 2 ^ 63 →
  read n b = (Err SC_ConstBuffer "Read buffer overflow", b).
Proof.
  intros Hwf Hn Hs. rewrite zlen_view in Hn by done. destruct Hwf as (Ho & _ & _).
  unfold read. rewrite u64_id by lia. by rewrite (proj2 (Z.ltb_lt _ _)) by lia.
Qed.

Lemma read_val_view b ty v rest :
  wf b → in_ctype ty v → view b = to_bytes ty v ++ rest →
  ∃ b', read_val ty b = (Ok v, b') ∧ wf b' ∧ view b' = rest ∧
        data_ b' = data_ b ∧ size_ b' = size_ b ∧ offset_ b' = offset_ b + csize ty.
Proof.
  intros Hwf Hv Hview. destruct (read_view _ _ _ Hwf Hview) as (b' & Hr & H1).
  rewrite zlen_to_bytes in Hr, H1.
  exists b'. split; [|done]. unfold read_val, mbind, M_bind. rewrite Hr.
  unfold mret, M_ret. by rewrite of_to_bytes.
Qed.

(** ** Parsers

    [parses m x a]: on a buffer whose view starts with the bytes [x], the
    operation [m] consumes exactly [x] and returns [a]. *)
Definition parses {A} (m : M t A) (x : list Z) (a : A) : Prop :=
  ∀ b rest, wf b → view b = x ++ rest →
  ∃ b', m b = (Ok a, b') ∧ wf b' ∧ view b' = rest ∧
        data_ b' = data_ b ∧ size_ b' = size_ b ∧ offset_ b' = offset_ b + zlen x.

Lemma parses_ret {A} (a : A) : parses (mret a) [] a.
Proof. intros b rest ? ?. exists b. unfold zlen. simpl. repeat split; try apply H; try done. lia. Qed.

Lemma parses_bind {A B} (m : M t A) (k : A → M t B) x y a c :
  parses m x a → parses (k a) y c → parses (m ≫= k) (x ++ y) c.
Proof.
  intros Hm Hk b rest Hwf Hv. rewrite <- app_assoc in Hv.
  destruct (Hm _ _ Hwf Hv) as (b1 & E1 & Hwf1 & Hv1 & Hd1 & Hs1 & Ho1).
  destruct (Hk _ _ Hwf1 Hv1) as (b2 & E2 & Hwf2 & Hv2 & Hd2 & Hs2 & Ho2).
  exists b2. unfold mbind, M_bind. rewrite E1. rewrite zlen_app.
  repeat split; try done; try congruence; try apply Hwf2. lia.
Qed.

Lemma parses_read x n : n = zlen x → parses (read n) x x.
Proof. intros -> b rest Hwf Hv. by apply read_view. Qed.

Lemma parses_val ty v : in_ctype ty v → parses (read_val ty) (to_bytes ty v) v.
Proof.
  intros Hv b rest Hwf Hview. rewrite zlen_to_bytes. by eapply read_val_view.
Qed.

(** Runs a parser over [n] records in a row. *)
Fixpoint read_many {A} (n : nat) (m : M t A) : M t (list A) :=
  match n with
  | O => mret []
  | S n => a ← m; l ← read_many n m; mret (a :: l)
  end.

Lemma parses_many {A} (m : M t A) (enc : A → list Z) (l : list A) n :
  n = length l → (∀ a, a ∈ l → parses m (enc a) a) →
  parses (read_many n m) (concat (enc <$> l)) l.
Proof.
  intros -> Hm. induction l as [|a l IH]; simpl; [apply parses_ret|].
  eapply parses_bind; [apply Hm; left|].
  rewrite <- (app_nil_r (concat _)).
  eapply parses_bind; [apply IH; intros; apply Hm; by right|]. apply parses_ret.
Qed.

Create HintDb serial.
#[export] Hint Resolve parses_ret parses_read parses_val : serial.
