(* ===== verification/Buffer.v ===== *)
(** * Buffer (buffer/buffer.cc): a growable byte buffer

    [malloc] and [realloc] are the parameter [Allocator]: they may fail, and
    the contents of fresh memory are arbitrary.  A buffer that does not own
    its data has [alloced_size_ = 0] and designates memory of its creator. *)

From S2P Require Import Prelude.
From S2P Require Import ConstBuffer.
Local Open Scope Z_scope.

(** The C allocator: [malloc n] is a block of [n] bytes, or null. *)
Class Allocator : Type := {
  malloc : Z → option (list Z);
  malloc_size : ∀ n m, 0 ≤ n → malloc n = Some m → zlen m = n;
  malloc_bytes : ∀ n m, malloc n = Some m → Forall byte_ok m
}.

(** An allocator that never fails and clears the memory. *)
Definition zero_allocator : Allocator.
Proof.
  refine {| malloc := λ n, Some (replicate (Z.to_nat n) 0) |}.
  - intros n m Hn [= <-]. unfold zlen. rewrite length_replicate. lia.
  - intros n m [= <-]. apply Forall_replicate. done.
Defined.

(** Some request cannot be served. *)
Definition out_of_memory `{Allocator} : Prop := ∃ n, malloc n = None.

Lemma zero_allocator_total : ¬ @out_of_memory zero_allocator.
Proof. intros [n Hn]. by simpl in Hn. Qed.

(** [std::realloc(p, n)] keeps the first bytes of the old block. *)
Definition std_realloc `{Allocator} (p : list Z) (n : Z) : option (list Z) :=
  (fun m => let keep := slice 0 (zlen m) p in overlay 0 keep m) <$> malloc n.

Record t : Type := mk {
  alloced_size_ : Z;
  data_ : option (list Z);
  offset_ : Z;
  owns_data_ : bool;
  size_ : Z
}.

(** [Buffer()] and [Buffer(void* data, uint64_t size)]. *)
Definition empty : t := mk 0 None 0 true 0.
Definition make (data : option (list Z)) (size : Z) : t := mk 0 data 0 false size.

Definition with_offset (b : t) (o : Z) : t :=
  mk (alloced_size_ b) (data_ b) o (owns_data_ b) (size_ b).
Definition with_size (b : t) (s : Z) : t :=
  mk (alloced_size_ b) (data_ b) (offset_ b) (owns_data_ b) s.

Definition advance_offset (nbytes : Z) : M t unit := fun b =>
  (Ok (), with_offset b (u64 (offset_ b + nbytes))).

Definition advance_size (nbytes : Z) : M t unit := fun b =>
  if owns_data_ b then (Ok (), with_size b (u64 (size_ b + nbytes))) else (UB, b).

Definition clear : M t unit := fun b => (Ok (), mk 0 None 0 (owns_data_ b) 0).

Definition disown_data : M t unit := fun b =>
  (Ok (), mk (alloced_size_ b) (data_ b) (offset_ b) false (size_ b)).

Definition free_space (b : t) : res Z :=
  if size_ b <=? alloced_size_ b then Ok (alloced_size_ b - size_ b) else UB.

Definition reset_offset : M t unit := fun b => (Ok (), with_offset b 0).
Definition reset_size : M t unit := fun b => (Ok (), with_size (with_offset b 0) 0).
Definition set_offset (o : Z) : M t unit := fun b => (Ok (), with_offset b o).
Definition set_size (s : Z) : M t unit := fun b => (Ok (), with_size b s).

(** [swap]: the two objects exchange every field. *)
Definition swap : M (t * t) unit := fun '(a, b) => (Ok (), (b, a)).

Definition read (nbytes : Z) : M t (list Z) := fun b =>
  if size_ b <? u64 (nbytes + offset_ b) then
    (Err SC_Buffer "Read failed; Trying to read beyond buffer size", b)
  else
    match memread (block (data_ b)) (offset_ b) nbytes with
    | Ok x => (Ok x, with_offset b (u64 (offset_ b + nbytes)))
    | _ => (UB, b)
    end.

Definition realloc `{Allocator} (nbytes : Z) : M t unit := fun b =>
  if negb (owns_data_ b) then
    (Err SC_Buffer "Cannot reallocate buffer; Buffer does not own data", b)
  else
    match data_ b with
    | None =>
        match malloc nbytes with
        | None => (Err SC_Buffer "Cannot allocate buffer; Memory allocation failed", b)
        | Some m => (Ok (), mk nbytes (Some m) (offset_ b) (owns_data_ b) (size_ b))
        end
    | Some d =>
        if alloced_size_ b <? nbytes then
          match std_realloc d nbytes with
          | None => (Err SC_Buffer "Cannot reallocate buffer; Memory allocation failed", b)
          | Some m => (Ok (), mk nbytes (Some m) (offset_ b) (owns_data_ b) (size_ b))
          end
        else (Ok (), b)
    end.

(** The doubling loop of [ensure_alloced_size]; [None] when [fuel] runs out. *)
Fixpoint grow (fuel : nat) (new_alloc_size nbytes : Z) : option Z :=
  if new_alloc_size <? nbytes then
    match fuel with
    | O => None
    | S fuel => grow fuel (u64 (new_alloc_size * 2)) nbytes
    end
  else Some new_alloc_size.

Definition ensure_alloced_size `{Allocator} (nbytes : Z) : M t unit := fun b =>
  if nbytes <=? alloced_size_ b then (Ok (), b)
  else
    let start := if alloced_size_ b =? 0 then nbytes else alloced_size_ b in
    match grow 64 start nbytes with
    | Some n => realloc n b
    | None => (UB, b)
    end.

Definition not_owned : string :=
  "Cannot write to buffer; Buffer does not own the already stored data".

(** The common tail of the writes: [memcpy] at [offset_], then advance. *)
Definition store (x : list Z) (nbytes : Z) : M t unit := fun b =>
  match memwrite (block (data_ b)) (offset_ b) x with
  | Ok d => let o := u64 (offset_ b + nbytes) in
            (Ok (), mk (alloced_size_ b) (Some d) o (owns_data_ b) o)
  | _ => (UB, b)
  end.

(** [write(const void* buffer, uint64_t nbytes)]. *)
Definition write `{Allocator} (x : list Z) : M t unit := fun b =>
  if negb (owns_data_ b) then (Err SC_Buffer not_owned, b)
  else (_ ← ensure_alloced_size (u64 (offset_ b + zlen x)); store x (zlen x)) b.

(** [write(ConstBuffer* buff)]: as many bytes as fit; the status of the inner
    [read] is discarded by the code. *)
Definition write_cbuff : M (ConstBuffer.t * t) unit := fun '(c, b) =>
  if negb (owns_data_ b) then (Err SC_Buffer not_owned, (c, b))
  else
    let bytes_left_to_write := u64 (alloced_size_ b - offset_ b) in
    let bytes_left_to_read := ConstBuffer.nbytes_left_to_read c in
    let bytes_to_copy := Z.min bytes_left_to_write bytes_left_to_read in
    match ConstBuffer.read bytes_to_copy c with
    | (Ok x, c') => let '(r, b') := store x bytes_to_copy b in (r, (c', b'))
    | (Err _ _, c') =>
        let o := u64 (offset_ b + bytes_to_copy) in
        (Ok (), (c', mk (alloced_size_ b) (data_ b) o (owns_data_ b) o))
    | (UB, c') => (UB, (c', b))
    end.

(** [write(ConstBuffer* buff, uint64_t nbytes)]. *)
Definition write_cbuff_n `{Allocator} (nbytes : Z) : M (ConstBuffer.t * t) unit :=
  fun '(c, b) =>
  if negb (owns_data_ b) then (Err SC_Buffer not_owned, (c, b))
  else
    match ensure_alloced_size (u64 (offset_ b + nbytes)) b with
    | (Ok _, b1) =>
        match ConstBuffer.read nbytes c with
        | (Ok x, c') => let '(r, b') := store x nbytes b1 in (r, (c', b'))
        | (Err _ _, c') =>
            let o := u64 (offset_ b1 + nbytes) in
            (Ok (), (c', mk (alloced_size_ b1) (data_ b1) o (owns_data_ b1) o))
        | (UB, c') => (UB, (c', b1))
        end
    | (r, b1) => (r, (c, b1))
    end.

(** [write_with_shift(ConstBuffer* buff, uint64_t offset)]. *)
Definition write_with_shift (offset : Z) : M (ConstBuffer.t * t) unit := fun '(c, b) =>
  if negb (owns_data_ b) then (Err SC_Buffer not_owned, (c, b))
  else
    let bytes_left_to_write := u64 (alloced_size_ b - offset_ b) in
    let bytes_left_to_read := ConstBuffer.nbytes_left_to_read c in
    let bytes_to_copy := Z.min bytes_left_to_write bytes_left_to_read in
    match ConstBuffer.read_with_shift bytes_to_copy offset c with
    | (Ok x, c') => let '(r, b') := store x bytes_to_copy b in (r, (c', b'))
    | (_, c') => (UB, (c', b))
    end.

(** The copy constructor. *)
Definition copy `{Allocator} (b : t) : res t :=
  if owns_data_ b then
    match data_ b with
    | None => Ok (mk (alloced_size_ b) None (offset_ b) true (size_ b))
    | Some d =>
        match malloc (alloced_size_ b) with
        | None => UB
        | Some m =>
            x ← memread d 0 (alloced_size_ b);
            m' ← memwrite m 0 x;
            Ok (mk (alloced_size_ b) (Some m') (offset_ b) true (size_ b))
        end
    end
  else Ok b.

(** [ConstBuffer(Buffer* buff)]. *)
Definition to_const (b : t) : ConstBuffer.t := ConstBuffer.make (data_ b) (size_ b).

(** [write(&v, sizeof(T))]. *)
Definition write_val `{Allocator} (ty : ctype) (v : Z) : M t unit := write (to_bytes ty v).

(** ** Invariant and contents *)

(** An owned buffer: the allocation is as recorded, and the bytes in use fit. *)
Definition wf (b : t) : Prop :=
  owns_data_ b = true ∧ zlen (block (data_ b)) = alloced_size_ b ∧
  0 ≤ offset_ b ≤ alloced_size_ b ∧ 0 ≤ size_ b ≤ alloced_size_ b ∧
  alloced_size_ b < 2 ^ 64 ∧ Forall byte_ok (block (data_ b)).

Definition contents (b : t) : list Z := slice 0 (size_ b) (block (data_ b)).

(** [holds b bs]: [b] was written sequentially and stores [bs]. *)
Definition holds (b : t) (bs : list Z) : Prop :=
  wf b ∧ offset_ b = size_ b ∧ contents b = bs.

Lemma holds_empty : holds empty [].
Proof. repeat split; simpl; try done; lia. Qed.

Lemma holds_size b bs : holds b bs → size_ b = zlen bs.
Proof.
  intros ((_&?&?&?&_)&_&<-). unfold contents. rewrite zlen_slice; lia.
Qed.

Lemma holds_offset b bs : holds b bs → offset_ b = zlen bs.
Proof. intros Hh. rewrite <- (holds_size _ _ Hh). by destruct Hh as (_ & ? & _). Qed.

(** The doubling loop ends, with a size that is large enough and less than
    twice what was asked for. *)
Lemma grow_spec fuel a n :
  0 < a → n ≤ 2 ^ 63 → n ≤ a * 2 ^ Z.of_nat fuel →
  ∃ m, grow fuel a n = Some m ∧ n ≤ m ∧ a ≤ m ∧ (m = a ∨ m < 2 * n).
Proof.
  revert a. induction fuel as [|fuel IH]; intros a Ha Hn Hf; simpl grow.
  - rewrite (proj2 (Z.ltb_ge _ _)) by lia. exists a. split; [done|lia].
  - destruct (Z.ltb_spec a n) as [Hlt|Hge]; [|exists a; split; [done|lia]].
    rewrite u64_id by lia.
    destruct (IH (a * 2)) as (m & -> & ? & ? & ?); try lia.
    { rewrite Nat2Z.inj_succ, Z.pow_succ_r in Hf by lia. lia. }
    exists m. repeat split; lia.
Qed.

Section Alloc.
Context `{!Allocator}.

Lemma std_realloc_spec d n m :
  0 ≤ n → zlen d ≤ n → Forall byte_ok d → std_realloc d n = Some m →
  zlen m = n ∧ slice 0 (zlen d) m = d ∧ Forall byte_ok m.
Proof.
  intros Hn Hd Hb. unfold std_realloc. rewrite fmap_Some. intros (m0 & Hm & ->).
  pose proof (malloc_size _ _ Hn Hm) as Hl. pose proof (malloc_bytes _ _ Hm) as Hmb.
  assert (slice 0 (zlen m0) d = d) as Hk.
  { unfold slice. rewrite drop_0. apply take_ge. unfold zlen in *. lia. }
  rewrite Hk. split; [rewrite zlen_overlay; lia|]. split.
  - apply slice_overlay_same; lia.
  - unfold overlay. rewrite !Forall_app. split; [by apply Forall_take|].
    split; [done|by apply Forall_drop].
Qed.

(** [ensure_alloced_size] keeps the stored bytes, the offset and the size,
    and either provides the space or reports an allocation failure. *)
Lemma ensure_alloced_size_spec b n :
  wf b → 0 ≤ n ≤ 2 ^ 62 →
  (∃ b', ensure_alloced_size n b = (Ok (), b') ∧ wf b' ∧ n ≤ alloced_size_ b' ∧
     alloced_size_ b ≤ alloced_size_ b' ∧
     alloced_size_ b' ≤ Z.max (2 * n) (alloced_size_ b) ∧
     offset_ b' = offset_ b ∧ size_ b' = size_ b ∧
     slice 0 (alloced_size_ b) (block (data_ b')) = block (data_ b))
  ∨ out_of_memory ∧ ∃ e, ensure_alloced_size n b = (Err SC_Buffer e, b).
Proof.
  intros (Ho & Hl & Hof & Hs & Ha & Hby) Hn. unfold ensure_alloced_size.
  destruct (Z.leb_spec n (alloced_size_ b)) as [Hle|Hgt].
  { left. exists b. repeat split; try done; try lia. rewrite <- Hl. apply slice_all. }
  set (start := if alloced_size_ b =? 0 then n else alloced_size_ b).
  assert (0 < start ∧ n ≤ start * 2 ^ 64 ∧ start ≤ Z.max n (alloced_size_ b) ∧
          alloced_size_ b ≤ start) as (H1 & H2 & H3 & H4).
  { unfold start. destruct (Z.eqb_spec (alloced_size_ b) 0); lia. }
  destruct (grow_spec 64 start n) as (m & -> & Hm1 & Hm2 & Hm3); [lia..|].
  unfold realloc. rewrite Ho. simpl negb.
  destruct (data_ b) as [d|] eqn:Ed; simpl in Hl; simpl block in Hby.
  - rewrite (proj2 (Z.ltb_lt _ _)) by lia.
    destruct (std_realloc d m) as [d'|] eqn:Er; [left|right; split; [|eauto]].
    2:{ unfold std_realloc in Er. apply fmap_None in Er. by exists m. }
    destruct (std_realloc_spec d m d') as (E1 & E2 & E3); try lia; try done.
    eexists. split; [reflexivity|]. simpl. rewrite Hl in E2.
    repeat split; simpl; try done; lia.
  - destruct (malloc m) as [d'|] eqn:Er; [left|right; split; [by exists m|eauto]].
    pose proof (malloc_bytes _ _ Er). apply malloc_size in Er; [|lia].
    eexists. split; [reflexivity|]. simpl. unfold zlen in Hl. simpl in Hl.
    repeat split; simpl; try done; try lia. by rewrite <- Hl.
Qed.

Lemma slice_slice_0 {A} n m (l : list A) : n ≤ m → slice 0 n (slice 0 m l) = slice 0 n l.
Proof. intros. unfold slice. rewrite !drop_0, take_take. f_equal. lia. Qed.

Lemma store_spec b x :
  wf b → Forall byte_ok x → offset_ b + zlen x ≤ alloced_size_ b →
  ∃ b', store x (zlen x) b = (Ok (), b') ∧ wf b' ∧
    contents b' = slice 0 (offset_ b) (block (data_ b)) ++ x ∧
    offset_ b' = size_ b' ∧ size_ b' = offset_ b + zlen x ∧
    alloced_size_ b' = alloced_size_ b.
Proof.
  intros (Ho & Hl & Hof & Hs & Ha & Hby) Hx Hfit. pose proof (zlen_nonneg x).
  unfold store. rewrite memwrite_ok by lia. rewrite u64_id by lia.
  eexists. split; [reflexivity|]. simpl.
  assert (Forall byte_ok (overlay (offset_ b) x (block (data_ b)))).
  { unfold overlay. rewrite !Forall_app. split; [by apply Forall_take|].
    split; [done|by apply Forall_drop]. }
  repeat split; simpl; try done; try lia; [rewrite zlen_overlay; lia|].
  unfold contents. simpl. apply slice_0_overlay; lia.
Qed.

(** A write at offset [o] truncates the buffer at [o] and appends, or reports
    an allocation failure and leaves the buffer as it was. *)
Lemma write_spec b x :
  wf b → Forall byte_ok x → offset_ b + zlen x ≤ 2 ^ 62 →
  (∃ b', write x b = (Ok (), b') ∧ wf b' ∧
     contents b' = slice 0 (offset_ b) (block (data_ b)) ++ x ∧
     offset_ b' = size_ b' ∧ size_ b' = offset_ b + zlen x)
  ∨ out_of_memory ∧ ∃ e, write x b = (Err SC_Buffer e, b).
Proof.
  intros Hwf Hx Hfit. pose proof (zlen_nonneg x).
  pose proof Hwf as (Ho & Hl & Hof & Hs & Ha & Hby).
  unfold write. rewrite Ho. simpl negb. unfold mbind, M_bind. cbv iota beta.
  rewrite u64_id by lia.
  destruct (ensure_alloced_size_spec b (offset_ b + zlen x) Hwf)
    as [(b1 & -> & Hwf1 & Hn & Hge & _ & Eo & Es & Eb)|(Hm & e & ->)];
    [lia| |right; split; [done|by eexists]].
  left. destruct (store_spec b1 x Hwf1 Hx) as (b' & Hw & Hwf' & Hc & Ho' & Hs' & _); [lia|].
  exists b'. split; [done|]. split; [done|]. rewrite Eo in *. split; [|lia].
  rewrite Hc. f_equal. rewrite <- Eb. by rewrite slice_slice_0 by lia.
Qed.

Lemma write_holds b bs x :
  holds b bs → Forall byte_ok x → zlen bs + zlen x ≤ 2 ^ 62 →
  (∃ b', write x b = (Ok (), b') ∧ holds b' (bs ++ x))
  ∨ out_of_memory ∧ ∃ e, write x b = (Err SC_Buffer e, b).
Proof.
  intros Hh Hx Hfit. pose proof (holds_size _ _ Hh) as Hsz.
  destruct Hh as (Hwf & Eo & <-).
  destruct (write_spec b x Hwf Hx) as [(b' & Hw & Hwf' & Hc & Ho & Hs)|(Hm & e & He)]; [lia| |eauto].
  left. exists b'. split; [done|]. split; [done|]. split; [lia|]. by rewrite Hc, Eo.
Qed.

Lemma write_val_holds b bs ty v :
  holds b bs → zlen bs + csize ty ≤ 2 ^ 62 →
  (∃ b', write_val ty v b = (Ok (), b') ∧ holds b' (bs ++ to_bytes ty v))
  ∨ out_of_memory ∧ ∃ e, write_val ty v b = (Err SC_Buffer e, b).
Proof.
  intros Hh Hfit. apply write_holds; [done|apply to_bytes_ok|by rewrite zlen_to_bytes].
Qed.

End Alloc.

(** What is read back from a [ConstBuffer] over a buffer is what it stores. *)
Lemma to_const_view b bs : holds b bs →
  ConstBuffer.wf (to_const b) ∧ ConstBuffer.view (to_const b) = bs.
Proof.
  intros ((_&?&?&?&?&_)&_&<-). split; [repeat split; simpl; lia|].
  unfold ConstBuffer.view, contents. simpl. by rewrite Z.sub_0_r.
Qed.

Lemma to_const_data b bs : holds b bs → bs ≠ [] → ∃ tl, to_const b = ConstBuffer.make (Some (bs ++ tl)) (zlen bs).
Proof.
  intros Hh Hne. pose proof (holds_size _ _ Hh) as Hs. destruct Hh as (_ & _ & Hc). unfold to_const. rewrite Hs.
  unfold contents, slice in Hc. rewrite drop_0 in Hc. destruct (data_ b) as [d|] eqn:Ed; simpl in Hc.
  - exists (drop (Z.to_nat (size_ b)) d). by rewrite <- Hc, take_drop.
  - rewrite take_nil in Hc. by subst.
Qed.

(** ** Serializers

    [appends m x]: on a buffer written sequentially, [m] appends exactly the
    bytes [x], or stops with an allocation error. *)
Section Serializers.
Context `{!Allocator}.

Definition appends (m : M t unit) (x : list Z) : Prop :=
  ∀ b bs, holds b bs → zlen bs + zlen x ≤ 2 ^ 62 →
  (∃ b', m b = (Ok (), b') ∧ holds b' (bs ++ x))
  ∨ out_of_memory ∧ ∃ e b', m b = (Err SC_Buffer e, b').

Lemma appends_ret : appends (mret ()) [].
Proof. intros b bs Hb _. left. exists b. rewrite app_nil_r. done. Qed.

Lemma appends_seq m k x y :
  appends m x → appends (k ()) y → appends (m ≫= k) (x ++ y).
Proof.
  intros Hm Hk b bs Hb Hl. rewrite zlen_app in Hl.
  pose proof (zlen_nonneg x). pose proof (zlen_nonneg y). unfold mbind, M_bind.
  destruct (Hm b bs Hb) as [(b1 & -> & Hb1)|(Ho & e & b1 & ->)]; [lia| |eauto 6].
  destruct (Hk b1 _ Hb1) as [(b2 & -> & Hb2)|(Ho & e & b2 & ->)];
    [rewrite zlen_app; lia| |eauto 6].
  left. exists b2. by rewrite app_assoc.
Qed.

Lemma appends_write x : Forall byte_ok x → appends (write x) x.
Proof.
  intros Hx b bs Hb Hl.
  destruct (write_holds b bs x Hb Hx Hl) as [?|(Ho & e & ?)]; eauto 6.
Qed.

Lemma appends_val ty v : appends (write_val ty v) (to_bytes ty v).
Proof. apply appends_write, to_bytes_ok. Qed.

(** [writes m b P]: [m] succeeds on [b] with contents that satisfy [P], or
    runs out of memory. *)
Definition writes (m : M t unit) (b : t) (P : list Z → Prop) : Prop :=
  (∃ b' es, m b = (Ok (), b') ∧ holds b' es ∧ P es)
  ∨ out_of_memory ∧ ∃ e b', m b = (Err SC_Buffer e, b').

Lemma writes_appends m x b bs (P : list Z → Prop) :
  appends m x → holds b bs → zlen bs + zlen x ≤ 2 ^ 62 → P (bs ++ x) → writes m b P.
Proof.
  intros Hm Hb Hl HP. destruct (Hm b bs Hb Hl) as [(b' & E & Hh)|?]; [left|by right].
  by exists b', (bs ++ x).
Qed.

Lemma writes_seq m k x b bs P :
  appends m x → holds b bs → zlen bs + zlen x ≤ 2 ^ 62 →
  (∀ b', holds b' (bs ++ x) → writes (k ()) b' P) → writes (m ≫= k) b P.
Proof.
  intros Hm Hb Hl Hk. unfold writes, mbind, M_bind.
  destruct (Hm b bs Hb Hl) as [(b' & -> & Hh)|(Ho & e & b' & ->)]; [|eauto 6].
  by apply Hk.
Qed.

(** Serializes the elements of a list in a row. *)
Fixpoint write_many {A} (w : A → M t unit) (l : list A) : M t unit :=
  match l with
  | [] => mret ()
  | a :: l => _ ← w a; write_many w l
  end.

Lemma appends_many {A} (w : A → M t unit) (enc : A → list Z) l :
  (∀ a, a ∈ l → appends (w a) (enc a)) → appends (write_many w l) (concat (enc <$> l)).
Proof.
  intros Hw. induction l as [|a l IH]; simpl; [apply appends_ret|].
  apply appends_seq; [apply Hw; left|]. apply IH. intros. apply Hw. by right.
Qed.

End Serializers.

#[export] Hint Resolve appends_ret appends_seq appends_write appends_val : serial.
