(* ===== verification/PreallocatedBuffer.v ===== *)
(** * PreallocatedBuffer (buffer/preallocated_buffer.cc)

    A fixed-size output block supplied by the caller, written from left to
    right and never reallocated. *)

From S2P Require Import Prelude.
From S2P Require Import ConstBuffer.
Local Open Scope Z_scope.

Record t : Type := mk {
  data_ : option (list Z);
  offset_ : Z;
  size_ : Z
}.

Definition make (data : option (list Z)) (size : Z) : t := mk data 0 size.

Definition advance_offset (nbytes : Z) : M t unit := fun b =>
  if u64 (offset_ b + nbytes) <=? size_ b then
    (Ok (), mk (data_ b) (u64 (offset_ b + nbytes)) (size_ b))
  else (UB, b).

Definition free_space (b : t) : Z := u64 (size_ b - offset_ b).

Definition read (nbytes : Z) : M t (list Z) := fun b =>
  if size_ b <? u64 (offset_ b + nbytes) then
    (Err SC_PreallocatedBuffer "Read buffer overflow", b)
  else
    match memread (block (data_ b)) (offset_ b) nbytes with
    | Ok x => (Ok x, mk (data_ b) (u64 (offset_ b + nbytes)) (size_ b))
    | _ => (UB, b)
    end.

Definition write (x : list Z) : M t unit := fun b =>
  if size_ b <? u64 (offset_ b + zlen x) then
    (Err SC_PreallocatedBuffer "Write would overflow buffer.", b)
  else
    match memwrite (block (data_ b)) (offset_ b) x with
    | Ok d => (Ok (), mk (Some d) (u64 (offset_ b + zlen x)) (size_ b))
    | _ => (UB, b)
    end.

(** ** Specification *)

Definition wf (b : t) : Prop :=
  0 ≤ offset_ b ≤ size_ b ∧ size_ b ≤ zlen (block (data_ b)) ∧ size_ b < 2 ^ 63.

(** The bytes written so far. *)
Definition written (b : t) : list Z := slice 0 (offset_ b) (block (data_ b)).

Lemma zlen_written b : wf b → zlen (written b) = offset_ b.
Proof. intros (?&?&?). apply zlen_slice; lia. Qed.

Lemma written_make d : zlen d < 2 ^ 63 →
  wf (make (Some d) (zlen d)) ∧ written (make (Some d) (zlen d)) = [].
Proof. intros. pose proof (zlen_nonneg d). repeat split; simpl; try lia. Qed.

Lemma block_written b : ∃ tail, block (data_ b) = written b ++ tail.
Proof.
  exists (drop (Z.to_nat (offset_ b)) (block (data_ b))).
  unfold written, slice. rewrite drop_0. by rewrite take_drop.
Qed.

(** A write that fits appends; one that does not leaves the buffer alone. *)
Lemma pwrite_fits b x : wf b → offset_ b + zlen x ≤ size_ b →
  ∃ b', write x b = (Ok (), b') ∧ wf b' ∧ written b' = written b ++ x ∧
        offset_ b' = offset_ b + zlen x ∧ size_ b' = size_ b ∧
        zlen (block (data_ b')) = zlen (block (data_ b)).
Proof.
  intros (Ho & Hs & Hb) Hfit. pose proof (zlen_nonneg x). unfold write.
  rewrite u64_id by lia. rewrite (proj2 (Z.ltb_ge _ _)) by lia.
  rewrite memwrite_ok by lia. eexists. split; [reflexivity|]. simpl.
  assert (zlen (overlay (offset_ b) x (block (data_ b))) = zlen (block (data_ b)))
    by (apply zlen_overlay; lia).
  repeat split; simpl; try lia.
  unfold written. simpl. rewrite slice_0_overlay by lia. done.
Qed.

Lemma pwrite_overflows b x : wf b → size_ b < offset_ b + zlen x < 2 ^ 64 →
  write x b = (Err SC_PreallocatedBuffer "Write would overflow buffer.", b).
Proof.
  intros (Ho & Hs & Hb) Hx. unfold write. rewrite u64_id by lia.
  by rewrite (proj2 (Z.ltb_lt _ _)) by lia.
Qed.

(** ** Operations that only write

    What is done to a buffer [π s] by writes alone: the block keeps its length,
    and what lies after the new offset is as before. *)
Definition fills {S A} (π : S → t) (m : M S A) : Prop := ∀ s r s', m s = (r, s') →
  zlen (block (data_ (π s'))) = zlen (block (data_ (π s))) ∧
  (wf (π s) → zlen (block (data_ (π s))) < 2 ^ 64 →
   wf (π s') ∧ offset_ (π s) ≤ offset_ (π s') ∧
   drop (Z.to_nat (offset_ (π s'))) (block (data_ (π s'))) =
   drop (Z.to_nat (offset_ (π s'))) (block (data_ (π s)))).

Lemma fills_same {S A} (π : S → t) (m : M S A) : (∀ s, π (m s).2 = π s) → fills π m.
Proof. intros Hm s r s' E. specialize (Hm s). rewrite E in Hm. simpl in Hm. rewrite Hm. done. Qed.

Lemma fills_bind {S A B} (π : S → t) (m : M S A) (k : A → M S B) :
  fills π m → (∀ a, fills π (k a)) → fills π (m ≫= k).
Proof.
  intros Hm Hk s r s' E. unfold mbind, M_bind in E. destruct (m s) as [r1 s1] eqn:Em.
  destruct (Hm s r1 s1 Em) as [Hl1 Hw1]. destruct r1 as [a| |]; [|by injection E as <- <-..].
  destruct (Hk a s1 r s' E) as [Hl2 Hw2]. split; [congruence|]. intros Hwf Hb.
  destruct (Hw1 Hwf Hb) as (Hwf1 & Ho1 & Hd1). destruct Hw2 as (Hwf2 & Ho2 & Hd2); [done|by rewrite Hl1|].
  split_and!; [done|lia|]. rewrite Hd2. destruct Hwf1 as ((? & ?) & _).
  replace (Z.to_nat (offset_ (π s'))) with
    (Z.to_nat (offset_ (π s1)) + (Z.to_nat (offset_ (π s')) - Z.to_nat (offset_ (π s1))))%nat by lia.
  by rewrite <- !drop_drop, Hd1.
Qed.

Lemma fills_write x : fills id (write x).
Proof.
  intros b r b' E. unfold write in E. destruct (size_ b <? _) eqn:Es; [by injection E as <- <-|].
  unfold memwrite in E. destruct ((0 <=? offset_ b) && _) eqn:Em; [|by injection E as <- <-].
  injection E as <- <-. apply andb_prop in Em as [Ho Hx]. apply Z.leb_le in Ho, Hx. apply Z.ltb_ge in Es.
  pose proof (zlen_nonneg x). simpl. rewrite zlen_overlay by lia. split; [done|]. intros (Hwo & Hws & Hs) Hb.
  rewrite u64_id in * by lia. split_and!; [|lia|].
  { split_and!; simpl; rewrite ?zlen_overlay; lia. }
  unfold overlay, zlen in *. rewrite app_assoc, drop_app_ge; rewrite length_app, length_take; [|lia].
  rewrite drop_drop. f_equal. lia.
Qed.

Lemma fills_snd {S A} (m : M t A) : fills id m → fills snd (@on_snd S t A m).
Proof.
  intros Hm [s b] r [s' b'] E. unfold on_snd in E. destruct (m b) as [r1 b1] eqn:Em.
  injection E as <- <- <-. by apply (Hm b r1 b1).
Qed.

(** A block that was filled with [x] from its start. *)
Lemma fills_block {S A} (π : S → t) (m : M S A) s r s' d n x : fills π m → m s = (r, s') →
  π s = make (Some d) n → 0 ≤ n ≤ zlen d → n < 2 ^ 63 → zlen d < 2 ^ 64 → written (π s') = x →
  block (data_ (π s')) = x ++ drop (length x) d.
Proof.
  intros Hm E Hs Hn Hn' Hd Hx. destruct (Hm s r s' E) as [Hl Hw]. rewrite Hs in *. simpl in *.
  destruct Hw as (Hwf & Ho & Hdr); [by split_and!; simpl; lia|done|].
  rewrite <- (take_drop (Z.to_nat (offset_ (π s'))) (block (data_ (π s')))). f_equal.
  - rewrite <- Hx. unfold written, slice. by rewrite drop_0.
  - rewrite Hdr. f_equal. pose proof (zlen_written _ Hwf) as Hz. rewrite Hx in Hz. unfold zlen in Hz. lia.
Qed.
