(* ===== verification/RLE.v ===== *)
(** * RLE (compressors/rle_compressor.cc): run-length encoding

    The compressed form is a sequence of runs, each the value ([value_size]
    bytes) followed by its length in two bytes, most significant first. *)

From S2P Require Import Prelude.
From S2P Require Import ConstBuffer.
From S2P Require Import Buffer.
From S2P Require Import PreallocatedBuffer.
Local Open Scope Z_scope.

Definition max_run_len : Z := 65535.

Section Model.
Context `{!Allocator}.

(** Saves one run to the output buffer. *)
Definition save_run (v : list Z) (cur_run_len : Z) : M Buffer.t unit :=
  _ ← Buffer.write v;
  _ ← Buffer.write [Z.shiftr cur_run_len 8 mod 256];
  Buffer.write [cur_run_len mod 256].

(** The loop over the values: [n] values remain after [input_prev]; the block
    [d] is the input, [input_prev] and [input_cur] are offsets in it. *)
Fixpoint make_runs (value_size : Z) (d : list Z) (n : nat)
    (input_prev input_cur cur_run_len : Z) : M Buffer.t unit :=
  match n with
  | O => v ← lift (memread d input_prev value_size); save_run v cur_run_len
  | S n =>
      prev ← lift (memread d input_prev value_size);
      cur ← lift (memread d input_cur value_size);
      if bool_decide (cur = prev) && (cur_run_len <? max_run_len) then
        make_runs value_size d n input_cur (input_cur + value_size) (cur_run_len + 1)
      else
        _ ← save_run prev cur_run_len;
        make_runs value_size d n input_cur (input_cur + value_size) 1
  end.

Definition compress (value_size : Z) (input : ConstBuffer.t) : M Buffer.t unit :=
  match ConstBuffer.data_ input with
  | None => fail SC_Compression "Failed compressing with RLE; null input buffer"
  | Some d =>
      if value_size =? 0 then lift UB
      else
        let value_num := ConstBuffer.size_ input / value_size in
        if value_num =? 0 then mret ()
        else if negb (ConstBuffer.size_ input mod value_size =? 0) then
          fail SC_Compression "Failed compressing with RLE; invalid input buffer format"
        else make_runs value_size d (Z.to_nat (value_num - 1)) 0 value_size 1
  end.

End Model.

(** [for (j = 0; j < run_len; ++j) output_buffer->write(input_cur, value_size)]. *)
Fixpoint write_run (n : nat) (v : list Z) : M PreallocatedBuffer.t unit :=
  match n with
  | O => mret ()
  | S n => _ ← PreallocatedBuffer.write v; write_run n v
  end.

(** The loop over [n] runs, the next one at offset [input_cur] of block [d]. *)
Fixpoint expand_runs (value_size : Z) (d : list Z) (n : nat) (input_cur : Z) :
    M PreallocatedBuffer.t unit :=
  match n with
  | O => mret ()
  | S n =>
      b1 ← lift (memread d (input_cur + value_size) 1);
      b2 ← lift (memread d (input_cur + value_size + 1) 1);
      let run_len := Z.shiftl (le_dec b1) 8 + le_dec b2 in
      v ← lift (memread d input_cur value_size);
      _ ← write_run (Z.to_nat run_len) v;
      expand_runs value_size d n (input_cur + (value_size + 2))
  end.

Definition decompress (value_size : Z) (input : ConstBuffer.t) :
    M PreallocatedBuffer.t unit :=
  match ConstBuffer.data_ input with
  | None => fail SC_Compression "Failed decompressing with RLE; null input buffer"
  | Some d =>
      let run_size := value_size + 2 in
      let run_num := ConstBuffer.size_ input / run_size in
      if run_num =? 0 then mret ()
      else if negb (ConstBuffer.size_ input mod run_size =? 0) then
        fail SC_Compression "Failed decompressing with RLE; invalid input buffer format"
      else expand_runs value_size d (Z.to_nat run_num) 0
  end.

Definition overhead (nbytes value_size : Z) : res Z :=
  if value_size =? 0 then UB else Ok (u64 (nbytes / value_size * 2)).

(** ** Specification: runs of a list of values *)

Definition run_bytes (v : list Z) (len : Z) : list Z := v ++ [len / 256; len mod 256].

(** The runs of [len] copies of [v] followed by [vs], runs capped at
    [max_run_len]. *)
Fixpoint runs (v : list Z) (len : Z) (vs : list (list Z)) : list (list Z * Z) :=
  match vs with
  | [] => [(v, len)]
  | w :: vs =>
      if bool_decide (w = v) && (len <? max_run_len) then runs w (len + 1) vs
      else (v, len) :: runs w 1 vs
  end.

Definition encode_runs (rs : list (list Z * Z)) : list Z :=
  concat ((fun r => run_bytes r.1 r.2) <$> rs).

Definition decode_runs (rs : list (list Z * Z)) : list Z :=
  concat ((fun r => concat (replicate (Z.to_nat r.2) r.1)) <$> rs).

Definition run_ok (k : Z) (r : list Z * Z) : Prop :=
  zlen r.1 = k ∧ Forall byte_ok r.1 ∧ 1 ≤ r.2 ≤ max_run_len.

Definition value_ok (k : Z) (v : list Z) : Prop := zlen v = k ∧ Forall byte_ok v.

Lemma runs_ok k v len vs :
  value_ok k v → Forall (value_ok k) vs → 1 ≤ len ≤ max_run_len →
  Forall (run_ok k) (runs v len vs).
Proof.
  revert v len. induction vs as [|w vs IH]; intros v len Hv Hvs Hlen; simpl.
  - constructor; [|constructor]. split; [apply Hv|split; [apply Hv|done]].
  - inversion Hvs as [|? ? Hw Hvs']; subst.
    destruct (bool_decide (w = v) && (len <? max_run_len)) eqn:E.
    + apply andb_true_iff in E as [_ E]. apply Z.ltb_lt in E. apply IH; [done..|lia].
    + constructor; [split; [apply Hv|split; [apply Hv|done]]|].
      apply IH; [done..|unfold max_run_len; lia].
Qed.

Lemma decode_runs_spec v len vs :
  1 ≤ len → decode_runs (runs v len vs) =
  concat (replicate (Z.to_nat len) v) ++ concat vs.
Proof.
  revert v len. induction vs as [|w vs IH]; intros v len Hlen; simpl.
  - unfold decode_runs. simpl. by rewrite !app_nil_r.
  - destruct (bool_decide (w = v) && (len <? max_run_len)) eqn:E.
    + apply andb_true_iff in E as [E _]. apply bool_decide_eq_true in E as ->.
      rewrite IH by lia. rewrite Z2Nat.inj_add by lia. rewrite replicate_add.
      rewrite concat_app. simpl. by rewrite app_nil_r, <- app_assoc.
    + change (decode_runs ((v, len) :: runs w 1 vs)) with
        (concat (replicate (Z.to_nat len) v) ++ decode_runs (runs w 1 vs)).
      rewrite IH by lia. simpl. by rewrite app_nil_r.
Qed.

(** The number of runs is at most the number of values. *)
Lemma length_runs v len vs : (length (runs v len vs) ≤ S (length vs))%nat.
Proof.
  revert v len. induction vs as [|w vs IH]; intros v len; simpl; [done|].
  case_match; simpl; [specialize (IH w (len + 1))|specialize (IH w 1)]; lia.
Qed.

Lemma zlen_encode_runs k rs :
  Forall (run_ok k) rs → zlen (encode_runs rs) = Z.of_nat (length rs) * (k + 2).
Proof.
  induction 1 as [|r rs (Hr & _) _ IH]; [done|].
  change (encode_runs (r :: rs)) with (run_bytes r.1 r.2 ++ encode_runs rs).
  rewrite zlen_app, IH. unfold run_bytes. rewrite zlen_app, Hr.
  simpl length. unfold zlen at 1. simpl length. lia.
Qed.

(** ** The code computes the runs *)

Lemma zlen_concat k (vs : list (list Z)) :
  Forall (value_ok k) vs → zlen (concat vs) = Z.of_nat (length vs) * k.
Proof.
  induction 1 as [|v vs (Hv & _) _ IH]; [done|]. simpl concat.
  rewrite zlen_app, IH, Hv. simpl length. lia.
Qed.

Section Correct.
Context `{!Allocator}.

Lemma save_run_appends k v len :
  value_ok k v → 1 ≤ len ≤ max_run_len → appends (save_run v len) (run_bytes v len).
Proof.
  unfold max_run_len. intros [_ Hv] Hlen. unfold save_run, run_bytes.
  apply appends_seq; [by apply appends_write|].
  rewrite Z.shiftr_div_pow2 by lia. change (2 ^ 8) with 256.
  assert (0 ≤ len / 256 < 256) as Hhi
    by (split; [apply Z.div_pos|apply Z.div_lt_upper_bound]; lia).
  rewrite (Z.mod_small (len / 256)) by done.
  change [len / 256; len mod 256] with ([len / 256] ++ [len mod 256]).
  assert (byte_ok (len mod 256)) by (by apply Z.mod_pos_bound).
  apply appends_seq; by apply appends_write, Forall_singleton.
Qed.

(** One turn of the loop. *)
Lemma make_runs_step k d n off v w len b :
  memread d off k = Ok v → memread d (off + k) k = Ok w →
  make_runs k d (S n) off (off + k) len b =
  (if bool_decide (w = v) && (len <? max_run_len)
   then make_runs k d n (off + k) (off + k + k) (len + 1)
   else save_run v len ≫= λ _, make_runs k d n (off + k) (off + k + k) 1) b.
Proof.
  intros Hv Hw. simpl make_runs. unfold lift, mbind at 1 2, M_bind at 1 2.
  by rewrite Hv, Hw.
Qed.

(** The loop writes the encoding of the runs of what is left. *)
Lemma make_runs_appends k d pre v len vs tail :
  d = pre ++ v ++ concat vs ++ tail →
  value_ok k v → Forall (value_ok k) vs → 1 ≤ len ≤ max_run_len →
  appends (make_runs k d (length vs) (zlen pre) (zlen pre + k) len)
    (encode_runs (runs v len vs)).
Proof.
  revert pre v len. induction vs as [|w vs IH]; intros pre v len Hd Hv Hvs Hlen b bs Hb Hl.
  - simpl make_runs. unfold lift, mbind at 1, M_bind at 1.
    rewrite (memread_at _ _ _ pre v tail) by (done || symmetry; apply Hv).
    unfold encode_runs in *. simpl in *. rewrite app_nil_r in *.
    by apply (save_run_appends k v len).
  - inversion Hvs as [|? ? Hw Hvs']; subst. simpl length.
    assert (zlen (pre ++ v) = zlen pre + k) as Hp by (rewrite zlen_app, (proj1 Hv); done).
    assert (pre ++ v ++ concat (w :: vs) ++ tail = (pre ++ v) ++ w ++ concat vs ++ tail) as Eq
      by (simpl; by rewrite <- !app_assoc).
    rewrite (make_runs_step k _ _ _ v w).
    2:{ eapply memread_at; [reflexivity|done|symmetry; apply Hv]. }
    2:{ eapply memread_at; [exact Eq|lia|symmetry; apply Hw]. }
    simpl runs in *.
    destruct (bool_decide (w = v) && (len <? max_run_len)) eqn:E.
    + apply andb_true_iff in E as [_ E]. apply Z.ltb_lt in E.
      rewrite <- Hp. apply IH; [done..|lia|done|done].
    + rewrite <- Hp.
      apply (appends_seq _ (λ _, make_runs _ _ _ _ _ _) (run_bytes v len)); [| |done|done].
      * by apply (save_run_appends k).
      * apply IH; [done..|unfold max_run_len; lia].
Qed.

End Correct.

Lemma write_run_spec n v b :
  PreallocatedBuffer.wf b →
  PreallocatedBuffer.offset_ b + Z.of_nat n * zlen v ≤ PreallocatedBuffer.size_ b →
  ∃ b', write_run n v b = (Ok (), b') ∧ PreallocatedBuffer.wf b' ∧
    written b' = written b ++ concat (replicate n v) ∧
    PreallocatedBuffer.size_ b' = PreallocatedBuffer.size_ b ∧
    PreallocatedBuffer.offset_ b' = PreallocatedBuffer.offset_ b + Z.of_nat n * zlen v.
Proof.
  revert b. induction n as [|n IH]; intros b Hb Hn; simpl.
  - exists b. rewrite app_nil_r. repeat split; try apply Hb. lia.
  - pose proof (zlen_nonneg v). unfold mbind, M_bind.
    destruct (pwrite_fits b v Hb) as (b1 & -> & Hb1 & Hw1 & Ho1 & Hs1 & _); [lia|].
    destruct (IH b1 Hb1) as (b2 & -> & Hb2 & Hw2 & Hs2 & Ho2); [lia|].
    exists b2. rewrite Hw2, Hw1, <- app_assoc. repeat split; try done; try apply Hb2; lia.
Qed.

Lemma zlen_replicate_concat n (v : list Z) :
  zlen (concat (replicate n v)) = Z.of_nat n * zlen v.
Proof. induction n as [|n IH]; [done|]. simpl concat. rewrite zlen_app, IH. lia. Qed.

(** One turn of the decompression loop reads a run and expands it. *)
Lemma expand_runs_step k d n pre v len post b :
  d = pre ++ run_bytes v len ++ post → zlen v = k → 1 ≤ len ≤ max_run_len →
  expand_runs k d (S n) (zlen pre) b =
  (write_run (Z.to_nat len) v ≫= λ _, expand_runs k d n (zlen pre + (k + 2))) b.
Proof.
  intros Hd Hv Hlen. simpl expand_runs. unfold lift, mbind at 1 2 3, M_bind at 1 2 3.
  unfold run_bytes in Hd. rewrite <- app_assoc in Hd.
  rewrite (memread_at d _ _ (pre ++ v) [len / 256] ([len mod 256] ++ post));
    [|by rewrite Hd, <- app_assoc|rewrite zlen_app; lia|done].
  rewrite (memread_at d _ _ (pre ++ v ++ [len / 256]) [len mod 256] post);
    [|by rewrite Hd, <- !app_assoc|rewrite !zlen_app; unfold zlen at 4; simpl; lia|done].
  rewrite (memread_at d _ _ pre v ([len / 256] ++ [len mod 256] ++ post)) by done.
  assert (Z.shiftl (le_dec [len / 256]) 8 + le_dec [len mod 256] = len) as ->; [|done].
  rewrite Z.shiftl_mul_pow2 by lia. simpl le_dec. change (2 ^ 8) with 256.
  pose proof (Z.div_mod len 256). lia.
Qed.

(** The decompression loop expands the runs it finds. *)
Lemma expand_runs_spec k d rs pre tail b :
  d = pre ++ encode_runs rs ++ tail → Forall (run_ok k) rs → PreallocatedBuffer.wf b →
  PreallocatedBuffer.offset_ b + zlen (decode_runs rs) ≤ PreallocatedBuffer.size_ b →
  ∃ b', expand_runs k d (length rs) (zlen pre) b = (Ok (), b') ∧
    PreallocatedBuffer.wf b' ∧ written b' = written b ++ decode_runs rs.
Proof.
  intros Hd Hrs. revert pre b Hd.
  induction Hrs as [|[v len] rs (Hv & _ & Hlen) _ IH]; intros pre b Hd Hb Hfit.
  - exists b. unfold decode_runs. simpl. rewrite app_nil_r. done.
  - simpl in Hv, Hlen.
    change (encode_runs ((v, len) :: rs)) with (run_bytes v len ++ encode_runs rs) in Hd.
    change (decode_runs ((v, len) :: rs)) with
      (concat (replicate (Z.to_nat len) v) ++ decode_runs rs) in *.
    rewrite <- app_assoc in Hd. rewrite zlen_app, zlen_replicate_concat in Hfit.
    pose proof (zlen_nonneg (decode_runs rs)).
    simpl length. rewrite (expand_runs_step k d _ pre v len (encode_runs rs ++ tail)) by done.
    unfold mbind, M_bind.
    destruct (write_run_spec (Z.to_nat len) v b Hb) as (b1 & -> & Hb1 & Hw1 & Hs1 & Ho1);
      [lia|].
    destruct (IH (pre ++ run_bytes v len) b1) as (b2 & E2 & Hb2 & Hw2);
      [by rewrite Hd, <- !app_assoc|done|lia|].
    exists b2. split; [|split; [done|by rewrite Hw2, Hw1, <- app_assoc]].
    rewrite <- E2. f_equal. unfold run_bytes. rewrite !zlen_app. unfold zlen at 4. simpl. lia.
Qed.

(** ** Round trip *)

Lemma split_values k n bs :
  0 < k → Forall byte_ok bs → zlen bs = Z.of_nat n * k →
  ∃ vs, bs = concat vs ∧ Forall (value_ok k) vs ∧ length vs = n.
Proof.
  intros Hk. revert bs. induction n as [|n IH]; intros bs Hb Hl.
  - exists []. destruct bs; [done|]. unfold zlen in Hl. simpl in Hl. lia.
  - destruct (IH (drop (Z.to_nat k) bs)) as (vs & Hvs & Hok & Hn).
    { by apply Forall_drop. }
    { unfold zlen in *. rewrite length_drop. lia. }
    exists (take (Z.to_nat k) bs :: vs). simpl. rewrite <- Hvs, take_drop.
    split; [done|]. split; [|lia]. constructor; [|done]. split; [|by apply Forall_take].
    unfold zlen in *. rewrite length_take. lia.
Qed.

Lemma values_of k bs :
  0 < k → bs ≠ [] → Forall byte_ok bs → zlen bs mod k = 0 →
  ∃ v vs, bs = concat (v :: vs) ∧ value_ok k v ∧ Forall (value_ok k) vs ∧
          zlen bs = Z.of_nat (S (length vs)) * k.
Proof.
  intros Hk Hne Hb Hm.
  assert (zlen bs = Z.of_nat (Z.to_nat (zlen bs / k)) * k) as Hl.
  { pose proof (zlen_nonneg bs). rewrite Z2Nat.id by (apply Z.div_pos; lia).
    pose proof (Z.div_mod (zlen bs) k). lia. }
  destruct (split_values k _ bs Hk Hb Hl) as (vs & Hbs & Hok & Hn).
  destruct Hok as [|v vs Hv Hvs]; [by rewrite Hbs in Hne|].
  exists v, vs. repeat split; try done; try apply Hv. rewrite <- Hn in Hl. done.
Qed.

(** [decompress] expands the compressed form [z] to [bs], whatever follows it. *)
Definition expands (k : Z) (z bs : list Z) : Prop := ∀ tl p0, PreallocatedBuffer.wf p0 →
  PreallocatedBuffer.offset_ p0 + zlen bs ≤ PreallocatedBuffer.size_ p0 →
  ∃ p, decompress k (ConstBuffer.make (Some (z ++ tl)) (zlen z)) p0 = (Ok (), p) ∧
       written p = written p0 ++ bs.

Lemma decompress_encoded k rs : 0 < k → rs ≠ [] → Forall (run_ok k) rs →
  expands k (encode_runs rs) (decode_runs rs).
Proof.
  intros Hk Hne Hrs tl p0 Hp Hfit. pose proof (zlen_encode_runs k rs Hrs) as Hs.
  assert (0 < Z.of_nat (length rs)) by (destruct rs; [done|simpl; lia]).
  unfold decompress, ConstBuffer.make. cbn [ConstBuffer.data_ ConstBuffer.size_].
  cbv zeta. rewrite Hs, Z.div_mul by lia. rewrite (proj2 (Z.eqb_neq _ 0)) by lia.
  rewrite Z.mod_mul by lia. simpl negb. cbv iota beta. rewrite Nat2Z.id.
  destruct (expand_runs_spec k (encode_runs rs ++ tl) rs [] tl p0) as (p & E & _ & Hw); [done..|].
  exists p. by split.
Qed.

Lemma rle_decompress_fills k c : fills id (decompress k c).
Proof.
  unfold decompress. destruct (ConstBuffer.data_ c) as [d|]; [|by apply fills_same].
  destruct (_ =? 0); [by apply fills_same|]. destruct (negb _); [by apply fills_same|].
  generalize 0. generalize (Z.to_nat (ConstBuffer.size_ c / (k + 2))). intros n.
  induction n as [|n IH]; intros i; [by apply fills_same|]. cbn [expand_runs].
  do 3 (apply fills_bind; [by apply fills_same|intros ?]). apply fills_bind; [|done].
  generalize (Z.to_nat (Z.shiftl (le_dec a) 8 + le_dec a0)). intros m.
  induction m as [|m IHm]; [by apply fills_same|]. cbn [write_run]. apply fills_bind; [apply fills_write|done].
Qed.

Section RoundTrip.
Context `{!Allocator}.

(** The code of [compress] on a well-formed input. *)
Lemma compress_appends k v vs tl : 0 < k → value_ok k v → Forall (value_ok k) vs →
  let bs := concat (v :: vs) in
  appends (compress k (ConstBuffer.make (Some (bs ++ tl)) (zlen bs))) (encode_runs (runs v 1 vs)).
Proof.
  intros Hk Hv Hvs bs. unfold compress. simpl ConstBuffer.data_. simpl ConstBuffer.size_.
  assert (zlen bs = Z.of_nat (S (length vs)) * k) as Hbs by (apply zlen_concat; by constructor).
  rewrite (proj2 (Z.eqb_neq k 0)) by lia.
  rewrite Hbs, Z.div_mul by lia. rewrite (proj2 (Z.eqb_neq _ 0)) by lia.
  rewrite Z.mod_mul by lia. simpl negb. cbv iota beta.
  replace (Z.to_nat (Z.of_nat (S (length vs)) - 1)) with (length vs) by lia.
  apply (make_runs_appends k (bs ++ tl) [] v 1 vs tl); [|done..|unfold max_run_len; lia].
  unfold bs. simpl. by rewrite <- app_assoc.
Qed.

(** Whole values are compressed to something that [decompress] expands again. *)
Lemma compress_cells k bs tl : 0 < k → bs ≠ [] → Forall byte_ok bs → zlen bs mod k = 0 →
  ∃ z, appends (compress k (ConstBuffer.make (Some (bs ++ tl)) (zlen bs))) z ∧ z ≠ [] ∧
    zlen z ≤ zlen bs + zlen bs / k * 2 ∧ expands k z bs.
Proof.
  intros Hk Hne Hb Hm. destruct (values_of k bs) as (v & vs & Hbs & Hv & Hvs & Hn); [done..|].
  assert (Forall (run_ok k) (runs v 1 vs)) as Hok by (apply runs_ok; [done..|unfold max_run_len; lia]).
  assert (decode_runs (runs v 1 vs) = bs) as Hdec.
  { rewrite decode_runs_spec by lia. rewrite Hbs. simpl. by rewrite app_nil_r. }
  assert (runs v 1 vs ≠ []) as Hr by (intros Hr; rewrite Hr in Hdec; by rewrite <- Hdec in Hne).
  exists (encode_runs (runs v 1 vs)). pose proof (length_runs v 1 vs).
  pose proof (zlen_encode_runs k _ Hok) as Hz. split_and!.
  - rewrite Hbs. by apply compress_appends.
  - intros Hnil. rewrite Hnil, zlen_nil in Hz. destruct (runs v 1 vs); [done|]. simpl length in Hz. lia.
  - rewrite Hz, Hn, Z.div_mul by lia. nia.
  - rewrite <- Hdec. by apply decompress_encoded.
Qed.

(** C8. Round trip of the RLE compressor: compressing a non-empty buffer of
    whole values either runs out of memory or produces a buffer that
    [decompress] expands, without error, to exactly the input. *)
Theorem rle_roundtrip value_size bs out0 :
  0 < value_size → bs ≠ [] → Forall byte_ok bs → zlen bs mod value_size = 0 →
  3 * zlen bs < 2 ^ 62 → zlen out0 = zlen bs →
  (∃ out p,
     compress value_size (ConstBuffer.make (Some bs) (zlen bs)) Buffer.empty = (Ok (), out) ∧
     decompress value_size (Buffer.to_const out)
       (PreallocatedBuffer.make (Some out0) (zlen bs)) = (Ok (), p) ∧
     PreallocatedBuffer.written p = bs) ∨
  (out_of_memory ∧ ∃ e b,
     compress value_size (ConstBuffer.make (Some bs) (zlen bs)) Buffer.empty = (Err SC_Buffer e, b)).
Proof.
  intros Hk Hne Hb Hm Hl Ho. destruct (compress_cells value_size bs [] Hk Hne Hb Hm) as (z & Hap & Hz & Hlz & Hex).
  rewrite app_nil_r in Hap. pose proof (Z.div_le_upper_bound (zlen bs) value_size (zlen bs)).
  pose proof (zlen_nonneg bs).
  destruct (Hap Buffer.empty [] holds_empty) as [(out & E & Hh)|?]; [change (zlen []) with 0; nia|left|by right; eauto].
  destruct (to_const_data _ _ Hh Hz) as (tl & Htl).
  destruct (written_make out0) as [Hwf Hw0]; [lia|]. rewrite Ho in Hwf, Hw0.
  destruct (Hex tl _ Hwf) as (p & Ep & Hp); [simpl; lia|].
  exists out, p. rewrite Htl. split_and!; [done..|]. by rewrite Hp, Hw0.
Qed.

(** The expansion bound the compression filter reserves: when [compress]
    succeeds, its output holds at most [nbytes + overhead(nbytes, value_size)]
    bytes. *)
Theorem rle_overhead_bound value_size bs out :
  0 < value_size → bs ≠ [] → Forall byte_ok bs → zlen bs mod value_size = 0 →
  3 * zlen bs < 2 ^ 62 →
  compress value_size (ConstBuffer.make (Some bs) (zlen bs)) Buffer.empty = (Ok (), out) →
  ∃ o, overhead (zlen bs) value_size = Ok o ∧ Buffer.size_ out ≤ zlen bs + o.
Proof.
  intros Hk Hne Hb Hm Hl E. destruct (compress_cells value_size bs [] Hk Hne Hb Hm) as (z & Hap & Hz & Hlz & _).
  rewrite app_nil_r in Hap. pose proof (Z.div_le_upper_bound (zlen bs) value_size (zlen bs)).
  pose proof (zlen_nonneg bs). pose proof (Z.div_pos (zlen bs) value_size).
  destruct (Hap Buffer.empty [] holds_empty) as [(out' & E' & Hh)|(_ & e & b & E')];
    [change (zlen []) with 0; nia| |by rewrite E in E'].
  rewrite E in E'. injection E' as <-. apply Buffer.holds_size in Hh. rewrite Hh.
  unfold overhead. rewrite (proj2 (Z.eqb_neq _ 0)) by lia. eexists. split; [done|]. rewrite u64_id by nia. done.
Qed.

End RoundTrip.

#[local] Existing Instance zero_allocator.

(** Five 2-byte cells in two runs. *)
Definition sample : list Z := [1; 2; 1; 2; 1; 2; 7; 0; 7; 0].

Lemma sample_ok : Forall byte_ok sample.
Proof. unfold sample. rewrite !Forall_cons. unfold byte_ok. split_and!; done || lia. Qed.

Lemma rle_roundtrip_witness : ∃ out p,
  compress 2 (ConstBuffer.make (Some sample) (zlen sample)) Buffer.empty = (Ok (), out) ∧
  decompress 2 (Buffer.to_const out)
    (PreallocatedBuffer.make (Some (replicate 10 0)) (zlen sample)) = (Ok (), p) ∧
  PreallocatedBuffer.written p = sample.
Proof.
  destruct (rle_roundtrip 2 sample (replicate 10 0))
    as [?|[[] ?]%(λ H, conj (zero_allocator_total (proj1 H)) I)];
    done || apply sample_ok.
Defined.

Lemma rle_overhead_bound_witness : ∃ out o,
  compress 2 (ConstBuffer.make (Some sample) (zlen sample)) Buffer.empty = (Ok (), out) ∧
  overhead (zlen sample) 2 = Ok o ∧ Buffer.size_ out ≤ zlen sample + o.
Proof.
  eexists. destruct (rle_overhead_bound 2 sample
    (compress 2 (ConstBuffer.make (Some sample) (zlen sample)) Buffer.empty).2) as (o & Ho & Hs);
    [done|done|apply sample_ok|done|done|by vm_compute|].
  exists o. split; [|by split]. by vm_compute.
Defined.
