(* ===== verification/DoubleDelta.v ===== *)
(** * DoubleDelta (compressors/dd_compressor.cc)

    The compressed form is the bit size (1 byte), the number of values (8
    bytes), the first two values, then for every further value the sign and
    the [bitsize]-bit magnitude of its double delta, packed into 64-bit
    chunks from the most significant bit down.

    Signed 64-bit arithmetic that overflows is undefined ([UB]), as in C++. *)

From S2P Require Import Prelude.
From S2P Require Import Enums.
From S2P Require Import ConstBuffer.
From S2P Require Import Buffer.
From S2P Require Import PreallocatedBuffer.
Local Open Scope Z_scope.

(** ** Bit strings of machine words

    [bits_of n x] lists the [n] low bits of [x], most significant first; the packing
    loops are proved against this view. *)

Fixpoint bits_of (n : nat) (x : Z) : list bool :=
  match n with
  | O => []
  | S m => Z.testbit x (Z.of_nat m) :: bits_of m x
  end.

(** Shifts of [uint64_t]: undefined when the count is not in [0, 63]. *)
Definition shl64 (x s : Z) : res Z :=
  if (0 <=? s) && (s <? 64) then Ok (u64 (Z.shiftl x s)) else UB.
Definition shr64 (x s : Z) : res Z :=
  if (0 <=? s) && (s <? 64) then Ok (Z.shiftr x s) else UB.

Lemma shl64_ok x s : 0 ≤ s < 64 → shl64 x s = Ok (u64 (Z.shiftl x s)).
Proof. intros. unfold shl64. by rewrite (proj2 (Z.leb_le _ _)), (proj2 (Z.ltb_lt _ _)) by lia. Qed.
Lemma shr64_ok x s : 0 ≤ s < 64 → shr64 x s = Ok (Z.shiftr x s).
Proof. intros. unfold shr64. by rewrite (proj2 (Z.leb_le _ _)), (proj2 (Z.ltb_lt _ _)) by lia. Qed.

Lemma length_bits_of n x : length (bits_of n x) = n.
Proof. induction n; simpl; auto. Qed.

Lemma bits_of_S n x : bits_of (S n) x = Z.testbit x (Z.of_nat n) :: bits_of n x.
Proof. done. Qed.

Lemma land_pow2_eqb c b : 0 ≤ b < 64 →
  (Z.land c (u64 (Z.shiftl 1 b)) =? 0) = negb (Z.testbit c b).
Proof.
  intros Hb. rewrite Z.shiftl_1_l. unfold u64.
  rewrite Z.mod_small by (split; [lia|apply Z.pow_lt_mono_r; lia]).
  destruct (Z.testbit c b) eqn:E; simpl.
  - apply Z.eqb_neq. intros Hz. apply (f_equal (λ z, Z.testbit z b)) in Hz.
    rewrite Z.land_spec, E, Z.pow2_bits_true, Z.bits_0 in Hz by lia. done.
  - apply Z.eqb_eq, Z.bits_inj'. intros i Hi. rewrite Z.land_spec, Z.bits_0.
    rewrite Z.pow2_bits_eqb by lia. destruct (Z.eqb_spec b i); subst; [by rewrite E|].
    by rewrite andb_false_r.
Qed.

Lemma bits_of_ext n x y :
  (∀ i, 0 ≤ i < Z.of_nat n → Z.testbit x i = Z.testbit y i) → bits_of n x = bits_of n y.
Proof.
  induction n as [|n IH]; intros H; simpl; [done|].
  f_equal; [apply H; lia|]. apply IH. intros. apply H. lia.
Qed.

Lemma bits_of_testbit n x y i :
  bits_of n x = bits_of n y → 0 ≤ i < Z.of_nat n → Z.testbit x i = Z.testbit y i.
Proof.
  induction n as [|n IH]; simpl; intros H Hi; [lia|]. injection H as Hh Ht.
  destruct (decide (i = Z.of_nat n)) as [->|]; [done|]. apply IH; [done|lia].
Qed.

Lemma testbit_above x n i : 0 ≤ x < 2 ^ n → n ≤ i → Z.testbit x i = false.
Proof.
  intros Hx Hi. destruct (decide (x = 0)) as [->|]; [apply Z.bits_0|].
  apply Z.bits_above_log2; [lia|].
  apply Z.log2_lt_pow2; [lia|]. assert (2 ^ n ≤ 2 ^ i); [|lia].
  apply Z.pow_le_mono_r; lia.
Qed.

Lemma bits_of_inj n x y :
  0 ≤ x < 2 ^ Z.of_nat n → 0 ≤ y < 2 ^ Z.of_nat n → bits_of n x = bits_of n y → x = y.
Proof.
  intros Hx Hy H. apply Z.bits_inj'. intros i Hi.
  destruct (decide (i < Z.of_nat n)).
  - eapply bits_of_testbit; [exact H|lia].
  - rewrite !(testbit_above _ (Z.of_nat n)) by lia. done.
Qed.

Lemma bits_of_0 n : bits_of n 0 = replicate n false.
Proof. induction n; simpl; [done|]. by rewrite Z.bits_0, IHn. Qed.

Lemma bits_of_app n m x :
  bits_of (n + m) x = bits_of n (Z.shiftr x (Z.of_nat m)) ++ bits_of m x.
Proof.
  induction n as [|n IH]; simpl; [done|]. rewrite IH. f_equal.
  rewrite Z.shiftr_spec by lia. f_equal. lia.
Qed.

Lemma take_bits_of n m x : (n ≤ m)%nat →
  take n (bits_of m x) = bits_of n (Z.shiftr x (Z.of_nat (m - n))).
Proof.
  intros. replace m with (n + (m - n))%nat at 1 by lia. rewrite bits_of_app.
  rewrite <- (length_bits_of n (Z.shiftr x (Z.of_nat (m - n)))) at 1.
  by rewrite take_app_length.
Qed.

Lemma drop_bits_of n m x : (n ≤ m)%nat → drop n (bits_of m x) = bits_of (m - n) x.
Proof.
  intros. replace m with (n + (m - n))%nat at 1 by lia. rewrite bits_of_app.
  rewrite <- (length_bits_of n (Z.shiftr x (Z.of_nat (m - n)))) at 1.
  by rewrite drop_app_length.
Qed.

(** [move s d x]: the [s] low bits of [x], brought to the top of a [d]-bit
    field by a left and a right shift of a 64-bit word. *)
Definition move (s d x : Z) : Z := Z.shiftr (u64 (Z.shiftl x (64 - s))) (64 - d).

Lemma move_eq s d x : Z.shiftr (u64 (Z.shiftl x (64 - s))) (64 - d) = move s d x.
Proof. done. Qed.

Lemma move_testbit s d x i :
  0 ≤ s ≤ 64 → 0 ≤ d ≤ 64 → 0 ≤ i →
  Z.testbit (move s d x) i = (i <? d) && (0 <=? i + s - d) && Z.testbit x (i + s - d).
Proof.
  intros. unfold move, u64. rewrite Z.shiftr_spec by lia.
  destruct (Z.ltb_spec i d).
  - rewrite Z.mod_pow2_bits_low by lia. rewrite Z.shiftl_spec by lia.
    replace (i + (64 - d) - (64 - s)) with (i + s - d) by lia.
    destruct (Z.leb_spec 0 (i + s - d)); [done|]. by rewrite Z.testbit_neg_r by lia.
  - by rewrite Z.mod_pow2_bits_high by lia.
Qed.

Lemma move_range s d x : 0 ≤ s ≤ 64 → 0 ≤ d ≤ 64 → 0 ≤ move s d x < 2 ^ d.
Proof.
  intros. unfold move. rewrite Z.shiftr_div_pow2 by lia.
  pose proof (u64_range (Z.shiftl x (64 - s))).
  assert (0 < 2 ^ (64 - d)) by (apply Z.pow_pos_nonneg; lia).
  split; [apply Z.div_pos; lia|]. apply Z.div_lt_upper_bound; [lia|].
  rewrite <- Z.pow_add_r by lia. replace (64 - d + d) with 64 by lia. lia.
Qed.

Lemma bits_of_move s d x : (s ≤ 64)%nat → (d ≤ 64)%nat →
  bits_of d (move (Z.of_nat s) (Z.of_nat d) x) =
  take d (bits_of s x) ++ replicate (d - s) false.
Proof.
  intros Hs Hd. destruct (decide (d ≤ s)%nat) as [Hle|Hgt].
  - rewrite take_bits_of by done. replace (d - s)%nat with 0%nat by lia. simpl.
    rewrite app_nil_r. apply bits_of_ext. intros i Hi.
    rewrite move_testbit, Z.shiftr_spec by lia.
    rewrite (proj2 (Z.ltb_lt _ _)), (proj2 (Z.leb_le _ _)) by lia. simpl. f_equal. lia.
  - replace d with (s + (d - s))%nat at 1 by lia. rewrite bits_of_app. f_equal.
    + rewrite take_ge by (rewrite length_bits_of; lia). apply bits_of_ext. intros i Hi.
      rewrite Z.shiftr_spec, move_testbit by lia.
      rewrite (proj2 (Z.ltb_lt _ _)), (proj2 (Z.leb_le _ _)) by lia. simpl. f_equal. lia.
    + rewrite <- bits_of_0. apply bits_of_ext. intros i Hi.
      rewrite move_testbit, Z.bits_0 by lia.
      by rewrite (proj2 (Z.leb_gt _ _)), andb_false_r by lia.
Qed.

(** Filling the free low bits of a word. *)
Lemma lor_move n s d w x p :
  (s ≤ 64)%nat → (d ≤ n)%nat → (n ≤ 64)%nat → bits_of n w = p ++ replicate d false →
  bits_of n (Z.lor w (move (Z.of_nat s) (Z.of_nat d) x)) =
  p ++ take d (bits_of s x) ++ replicate (d - s) false.
Proof.
  intros Hs Hd Hn Hw. rewrite <- bits_of_move by lia.
  replace n with ((n - d) + d)%nat in Hw |- * by lia.
  rewrite bits_of_app in Hw |- *. apply app_inj_2 in Hw as [Hp Hz].
  2:{ by rewrite length_bits_of, length_replicate. }
  f_equal.
  - rewrite <- Hp. apply bits_of_ext. intros i Hi.
    rewrite !Z.shiftr_spec, Z.lor_spec, move_testbit by lia.
    rewrite (proj2 (Z.ltb_ge _ _)) by lia. simpl. by rewrite orb_false_r.
  - apply bits_of_ext. intros i Hi. rewrite Z.lor_spec.
    rewrite <- bits_of_0 in Hz. rewrite (bits_of_testbit _ _ _ _ Hz Hi), Z.bits_0. done.
Qed.

Lemma lor_range n x y : 0 ≤ n → 0 ≤ x < 2 ^ n → 0 ≤ y < 2 ^ n → 0 ≤ Z.lor x y < 2 ^ n.
Proof.
  intros Hn Hx Hy.
  assert (Z.lor x y = Z.lor x y mod 2 ^ n) as ->; [|apply Z.mod_pos_bound; lia].
  apply Z.bits_inj'. intros i Hi. destruct (decide (i < n)).
  - by rewrite Z.mod_pow2_bits_low by lia.
  - rewrite Z.mod_pow2_bits_high, Z.lor_spec by lia.
    by rewrite !(testbit_above _ n) by lia.
Qed.

#[global] Opaque bits_of move.

Definition OVERHEAD : Z := 17.
Definition overhead (nbytes : Z) : Z := OVERHEAD.

(** [(T* )data] read as [num] values of type [T]. *)
Fixpoint load_vals (T : ctype) (d : list Z) (num : nat) : res (list Z) :=
  match num with
  | O => Ok []
  | S num =>
      x ← memread d 0 (csize T);
      xs ← load_vals T (drop (Z.to_nat (csize T)) d) num;
      Ok (of_bytes T x :: xs)
  end.

(** [int64_t(a) - int64_t(b)] and the other signed 64-bit operations. *)
Definition delta (a b : Z) : res Z := csub I64 (conv I64 a) (conv I64 b).

Definition std_abs (x : Z) : res Z := arith I64 (Z.abs x).

(** The macro [ABS]. *)
Definition ABS (x : Z) : res Z :=
  if x <? 0 then (y ← arith I64 (- x); Ok (conv U64 y)) else Ok (conv U64 x).

(** ** compute_bitsize *)

(** The loop over [in[i]], [i >= 2]: the maximum and the out-of-bounds flag. *)
Fixpoint max_dd (prev prev_delta max : Z) (oob : bool) (l : list Z) : res (Z * bool) :=
  match l with
  | [] => Ok (max, oob)
  | x :: l =>
      cur_delta ← delta x prev;
      dd ← csub I64 cur_delta prev_delta;
      let oob := oob || ((cur_delta <? 0) && (0 <? prev_delta) && (0 <? dd)) in
      let oob := oob || ((0 <? cur_delta) && (prev_delta <? 0) && (dd <? 0)) in
      a ← std_abs dd;
      max_dd x cur_delta (Z.max a max) oob l
  end.

(** [do { ++bitsize; max >>= 1; } while (max)]. *)
Fixpoint count_bits (fuel : nat) (bitsize max : Z) : res Z :=
  match fuel with
  | O => UB
  | S fuel =>
      let bitsize := bitsize + 1 in
      let max := Z.shiftr max 1 in
      if max =? 0 then Ok bitsize else count_bits fuel bitsize max
  end.

Definition compute_bitsize (xs : list Z) : res Z :=
  match xs with
  | x0 :: x1 :: ((_ :: _) as rest) =>
      prev_delta ← delta x1 x0;
      '(max, oob) ← max_dd x1 prev_delta 0 false rest;
      if oob : bool then
        Err SC_Compression
          "Cannot compress with DoubleDelta; Some negative double delta is out of bounds"
      else count_bits 64 0 max
  | _ => Ok 0
  end.

(** ** Writing *)

(** The output buffer with the pending chunk and the next free bit in it. *)
Record wst : Type := mkW { w_buff : Buffer.t; w_chunk : Z; w_bit : Z }.

Section Writer.
Context `{!Allocator}.

(** [buff->write(chunk, 8); bit_in_chunk = 63; chunk = 0]. *)
Definition flush_chunk : M wst unit := fun s =>
  match Buffer.write_val U64 (w_chunk s) (w_buff s) with
  | (Ok _, b) => (Ok (), mkW b 0 63)
  | (r, b) => (r, mkW b (w_chunk s) (w_bit s))
  end.

Fixpoint write_bits (fuel : nat) (abs_dd bits_left_to_write bit_in_dd bits_to_fill : Z) :
    M wst unit :=
  if bits_left_to_write <=? 0 then mret ()
  else
    match fuel with
    | O => lift UB
    | S fuel =>
        s ← get;
        lb ← (if 0 <? bits_to_fill then
                t1 ← lift (shl64 abs_dd (63 - bit_in_dd));
                t2 ← lift (shr64 t1 (63 - w_bit s));
                _ ← put (mkW (w_buff s) (Z.lor (w_chunk s) t2) (w_bit s - bits_to_fill));
                mret (bits_left_to_write - bits_to_fill, bit_in_dd - bits_to_fill)
              else mret (bits_left_to_write, bit_in_dd));
        s ← get;
        if w_bit s <? 0 then
          _ ← flush_chunk;
          write_bits fuel abs_dd lb.1 lb.2 (Z.min (63 + 1) lb.1)
        else write_bits fuel abs_dd lb.1 lb.2 bits_to_fill
    end.

Definition write_double_delta (double_delta bitsize : Z) : M wst unit :=
  s ← get;
  to_or ← lift (shl64 (if double_delta <? 0 then 1 else 0) (w_bit s));
  _ ← put (mkW (w_buff s) (Z.lor (w_chunk s) to_or) (w_bit s - 1));
  s ← get;
  _ ← (if w_bit s <? 0 then flush_chunk else mret ());
  s ← get;
  abs_dd ← lift (ABS double_delta);
  write_bits (Z.to_nat bitsize + 1) abs_dd bitsize (bitsize - 1)
    (Z.min (w_bit s + 1) bitsize).

(** The loop over [in[i]], [i >= 2]. *)
Fixpoint write_deltas (prev prev_delta bitsize : Z) (l : list Z) : M wst unit :=
  match l with
  | [] => mret ()
  | x :: l =>
      cur_delta ← lift (delta x prev);
      dd ← lift (csub I64 cur_delta prev_delta);
      _ ← write_double_delta dd bitsize;
      write_deltas x cur_delta bitsize l
  end.

(** The double deltas, then whatever is left in the chunk. *)
Definition write_chunks (x0 x1 bitsize : Z) (l : list Z) : M Buffer.t unit := fun b =>
  match delta x1 x0 with
  | Ok prev_delta =>
      match write_deltas x1 prev_delta bitsize l (mkW b 0 63) with
      | (Ok _, s) =>
          if w_bit s <? 63 then Buffer.write_val U64 (w_chunk s) (w_buff s)
          else (Ok (), w_buff s)
      | (r, s) => (r, w_buff s)
      end
  | _ => (UB, b)
  end.

(** What follows the bit size and the number of values. *)
Definition compress_body (T : ctype) (input : ConstBuffer.t) (bitsize : Z) (xs : list Z) :
    M Buffer.t unit :=
  if csize T * 8 - 1 <=? bitsize then
    bs ← lift (memread (block (ConstBuffer.data_ input)) 0 (ConstBuffer.size_ input));
    Buffer.write bs
  else
    match xs with
    | [x0] => Buffer.write_val T x0
    | [x0; x1] => _ ← Buffer.write_val T x0; Buffer.write_val T x1
    | x0 :: x1 :: l =>
        _ ← Buffer.write_val T x0;
        _ ← Buffer.write_val T x1;
        write_chunks x0 x1 bitsize l
    | [] => lift UB
    end.

(** [DoubleDelta::compress<T>]. *)
Definition compress_t (T : ctype) (input : ConstBuffer.t) : M Buffer.t unit :=
  let value_size := csize T in
  let num := ConstBuffer.size_ input / value_size in
  if negb ((0 <? num) && (ConstBuffer.size_ input mod value_size =? 0)) then lift UB
  else
    xs ← lift (load_vals T (block (ConstBuffer.data_ input)) (Z.to_nat num));
    bitsize ← lift (compute_bitsize xs);
    _ ← lift (massert (bitsize <=? 255));
    _ ← Buffer.write_val U8 bitsize;
    _ ← Buffer.write_val U64 num;
    compress_body T input bitsize xs.

End Writer.

(** ** Reading *)

(** The input buffer with the chunk read last and the next bit in it, and the
    output buffer. *)
Record rst : Type := mkR { r_in : ConstBuffer.t; r_chunk : Z; r_bit : Z }.

(** [buff->read(chunk, 8); bit_in_chunk = 63]. *)
Definition load_chunk : M rst unit := fun s =>
  match ConstBuffer.read_val U64 (r_in s) with
  | (Ok w, c) => (Ok (), mkR c w 63)
  | (Err e m, c) => (Err e m, mkR c (r_chunk s) (r_bit s))
  | (UB, c) => (UB, mkR c (r_chunk s) (r_bit s))
  end.

Fixpoint read_bits (fuel : nat) (dd bits_left_to_read bit_in_dd bits_to_read : Z) :
    M rst Z :=
  if bits_left_to_read <=? 0 then mret dd
  else
    match fuel with
    | O => lift UB
    | S fuel =>
        s ← get;
        x ← (if 0 <? bits_to_read then
               t1 ← lift (shl64 (r_chunk s) (63 - r_bit s));
               t2 ← lift (shr64 t1 (63 - bit_in_dd));
               _ ← put (mkR (r_in s) (r_chunk s) (r_bit s - bits_to_read));
               mret (Z.lor dd t2, bits_left_to_read - bits_to_read, bit_in_dd - bits_to_read)
             else mret (dd, bits_left_to_read, bit_in_dd));
        s ← get;
        if (r_bit s <? 0) &&
           negb (ConstBuffer.offset_ (r_in s) =? ConstBuffer.size_ (r_in s)) then
          _ ← load_chunk;
          read_bits fuel x.1.1 x.1.2 x.2 (Z.min (63 + 1) x.1.2)
        else read_bits fuel x.1.1 x.1.2 x.2 bits_to_read
    end.

Definition read_double_delta (bitsize : Z) : M rst Z :=
  s ← get;
  to_and ← lift (shl64 1 (r_bit s));
  let sign := if Z.land (r_chunk s) to_and =? 0 then 1 else -1 in
  _ ← put (mkR (r_in s) (r_chunk s) (r_bit s - 1));
  s ← get;
  _ ← (if r_bit s <? 0 then load_chunk else mret ());
  s ← get;
  dd ← read_bits (Z.to_nat bitsize + 1) 0 bitsize (bitsize - 1)
         (Z.min (r_bit s + 1) bitsize);
  lift (cmul I64 dd sign).

(** [out[j]], where [out] points at offset [out_off] of the output block. *)
Definition out_val (T : ctype) (out_off j : Z) (p : PreallocatedBuffer.t) : res Z :=
  x ← memread (block (PreallocatedBuffer.data_ p)) (out_off + j * csize T) (csize T);
  Ok (of_bytes T x).

(** The loop over [i] from [2] to [num - 1]; [n] iterations are left. *)
Fixpoint read_deltas (T : ctype) (bitsize out_off : Z) (n : nat) (i : Z) :
    M (rst * PreallocatedBuffer.t) unit :=
  match n with
  | O => mret ()
  | S n =>
      dd ← on_fst (read_double_delta bitsize);
      s ← get;
      o1 ← lift (out_val T out_off (i - 1) s.2);
      o2 ← lift (out_val T out_off (i - 2) s.2);
      d1 ← lift (cmul I64 2 (conv I64 o1));
      d2 ← lift (cadd I64 dd d1);
      d3 ← lift (csub I64 d2 (conv I64 o2));
      _ ← on_snd (PreallocatedBuffer.write (to_bytes T (conv T d3)));
      read_deltas T bitsize out_off n (i + 1)
  end.

Definition read_chunks (T : ctype) (bitsize out_off num chunk : Z) :
    M (ConstBuffer.t * PreallocatedBuffer.t) unit := fun '(c, p) =>
  let '(r, (st, p')) :=
    read_deltas T bitsize out_off (Z.to_nat (num - 2)) 2 (mkR c chunk 63, p) in
  (r, (r_in st, p')).

(** What follows the bit size and the number of values. *)
Definition decompress_body (T : ctype) (bitsize num : Z) :
    M (ConstBuffer.t * PreallocatedBuffer.t) unit :=
  s ← get;
  let out_off := PreallocatedBuffer.offset_ s.2 in
  if csize T * 8 - 1 <=? bitsize then
    x ← lift (ConstBuffer.cur_data s.1 (ConstBuffer.nbytes_left_to_read s.1));
    on_snd (PreallocatedBuffer.write x)
  else
    v0 ← on_fst (ConstBuffer.read_val T);
    _ ← on_snd (PreallocatedBuffer.write (to_bytes T v0));
    if num =? 1 then mret ()
    else
      v1 ← on_fst (ConstBuffer.read_val T);
      _ ← on_snd (PreallocatedBuffer.write (to_bytes T v1));
      if num =? 2 then mret ()
      else
        chunk ← on_fst (ConstBuffer.read_val U64);
        read_chunks T bitsize out_off num chunk.

(** [DoubleDelta::decompress<T>]. *)
Definition decompress_t (T : ctype) : M (ConstBuffer.t * PreallocatedBuffer.t) unit :=
  bitsize ← on_fst (ConstBuffer.read_val U8);
  num ← on_fst (ConstBuffer.read_val U64);
  decompress_body T bitsize num.

(** ** The dispatch on the datatype *)

Definition dd_type (x : Datatype) : option ctype :=
  match x with
  | INT8 => Some I8 | UINT8 => Some U8 | INT16 => Some I16 | UINT16 => Some U16
  | INT32 => Some I32 | UINT32 => Some U32 | INT64 => Some I64 | UINT64 => Some U64
  | CHAR => Some I8
  | DATETIME_YEAR | DATETIME_MONTH | DATETIME_WEEK | DATETIME_DAY | DATETIME_HR
  | DATETIME_MIN | DATETIME_SEC | DATETIME_MS | DATETIME_US | DATETIME_NS
  | DATETIME_PS | DATETIME_FS | DATETIME_AS => Some I64
  | STRING_ASCII | STRING_UTF8 | STRING_UTF16 | STRING_UTF32 | STRING_UCS2
  | STRING_UCS4 | ANY => Some U8
  | FLOAT32 | FLOAT64 => None
  end.

Definition compress `{!Allocator} (type : Datatype) (input : ConstBuffer.t) :
    M Buffer.t unit :=
  match dd_type type with
  | Some T => compress_t T input
  | None => fail SC_TileIO
      "Cannot compress tile with DoubleDelta; Float datatypes are not supported"
  end.

Definition decompress (type : Datatype) : M (ConstBuffer.t * PreallocatedBuffer.t) unit :=
  match dd_type type with
  | Some T => decompress_t T
  | None => fail SC_TileIO
      "Cannot decompress tile with DoubleDelta; Float datatypes are not supported"
  end.
