(* ===== verification/DoubleDeltaProofs.v ===== *)
(** * DoubleDelta: correctness

    The chunks are read as a bit string; writing appends to it and reading
    consumes it, so that decompression returns what was compressed. *)

From S2P Require Import Prelude.
From S2P Require Import Enums.
From S2P Require Import ConstBuffer.
From S2P Require Import Buffer.
From S2P Require Import PreallocatedBuffer.
From S2P Require Import DoubleDelta.
Local Open Scope Z_scope.

Definition words_bytes (ws : list Z) : list Z := concat (to_bytes U64 <$> ws).
Definition words_bits (ws : list Z) : list bool := concat (bits_of 64 <$> ws).

(** The bits of one double delta: the sign, then the magnitude. *)
Definition dd_bits (n : nat) (dd : Z) : list bool := (dd <? 0) :: bits_of n (Z.abs dd).

Lemma words_bytes_snoc ws w : words_bytes (ws ++ [w]) = words_bytes ws ++ to_bytes U64 w.
Proof. unfold words_bytes. rewrite fmap_app, concat_app. simpl. by rewrite app_nil_r. Qed.

Lemma words_bits_snoc ws w : words_bits (ws ++ [w]) = words_bits ws ++ bits_of 64 w.
Proof. unfold words_bits. rewrite fmap_app, concat_app. simpl. by rewrite app_nil_r. Qed.

Lemma zlen_words_bytes ws : zlen (words_bytes ws) = 8 * zlen ws.
Proof.
  induction ws as [|w ws IH]; [done|].
  change (words_bytes (w :: ws)) with (to_bytes U64 w ++ words_bytes ws).
  rewrite zlen_app, IH, zlen_to_bytes. unfold zlen. simpl length. simpl csize. lia.
Qed.

Lemma length_words_bits ws : length (words_bits ws) = (64 * length ws)%nat.
Proof.
  induction ws as [|w ws IH]; [done|].
  change (words_bits (w :: ws)) with (bits_of 64 w ++ words_bits ws).
  rewrite length_app, IH, length_bits_of. simpl length. lia.
Qed.

(** ** Writing *)

Section Writing.
Context `{!Allocator}.

(** [wrep pre B s]: the buffer holds [pre] and then whole chunks, and the bits
    of these chunks and of the pending one are [B]. *)
Definition wrep (pre : list Z) (B : list bool) (s : wst) : Prop :=
  ∃ ws p, holds (w_buff s) (pre ++ words_bytes ws) ∧ words_bits ws ++ p = B ∧
    w_bit s = 63 - Z.of_nat (length p) ∧ (length p < 64)%nat ∧
    0 ≤ w_chunk s < 2 ^ 64 ∧
    bits_of 64 (w_chunk s) = p ++ replicate (64 - length p) false ∧
    Forall (in_ctype U64) ws.

(** [m] appends the bits [x] to the stream, or runs out of memory. *)
Definition wspec (pre : list Z) (m : M wst unit) (x : list bool) : Prop :=
  ∀ B s, wrep pre B s → zlen pre + zlen B + zlen x ≤ 2 ^ 61 →
  (∃ s', m s = (Ok (), s') ∧ wrep pre (B ++ x) s')
  ∨ out_of_memory ∧ ∃ e s', m s = (Err SC_Buffer e, s').

Lemma wspec_ret pre : wspec pre (mret ()) [].
Proof. intros B s Hs _. left. exists s. by rewrite app_nil_r. Qed.

Lemma wspec_seq pre m k x y :
  wspec pre m x → wspec pre (k ()) y → wspec pre (m ≫= k) (x ++ y).
Proof.
  intros Hm Hk B s Hs Hl. rewrite zlen_app in Hl.
  pose proof (zlen_nonneg x). pose proof (zlen_nonneg y). unfold mbind, M_bind.
  destruct (Hm B s Hs) as [(s1 & -> & Hr1)|(Ho & e & s1 & ->)]; [lia| |eauto 6].
  destruct (Hk _ s1 Hr1) as [(s2 & -> & Hr2)|(Ho & e & s2 & ->)];
    [rewrite zlen_app; lia| |eauto 6].
  left. exists s2. by rewrite app_assoc.
Qed.

(** The pending chunk after the top [k] of the [l] low bits of [x] are put in. *)
Definition fill_chunk (s : wst) (l k x : Z) : wst :=
  mkW (w_buff s) (Z.lor (w_chunk s) (move l (w_bit s + 1) x)) (w_bit s - k).

Lemma fill_bits pre B s (l : nat) x :
  wrep pre B s → (1 ≤ l ≤ 64)%nat → zlen pre + zlen B + Z.of_nat l ≤ 2 ^ 61 →
  let k := Z.min (w_bit s + 1) (Z.of_nat l) in
  let s1 := fill_chunk s (Z.of_nat l) k x in
  let B1 := B ++ take (Z.to_nat k) (bits_of l x) in
  (0 ≤ w_bit s1 ∧ wrep pre B1 s1) ∨
  (w_bit s1 = -1 ∧
    ((∃ s2, flush_chunk s1 = (Ok (), s2) ∧ wrep pre B1 s2 ∧ w_bit s2 = 63)
     ∨ out_of_memory ∧ ∃ e s2, flush_chunk s1 = (Err SC_Buffer e, s2))).
Proof.
  intros (ws & p & Hh & HB & Hbit & Hp & Hc & Hcb & Hws) Hl Hsz k s1 B1.
  set (d := (64 - length p)%nat) in *.
  assert (w_bit s + 1 = Z.of_nat d) as Hd by lia.
  set (kn := Z.to_nat k).
  assert (kn = Nat.min d l) as Hkn by lia.
  assert (bits_of 64 (w_chunk s1) =
          (p ++ take kn (bits_of l x)) ++ replicate (d - kn) false) as Hbits.
  { unfold s1, fill_chunk. simpl w_chunk. rewrite Hd.
    rewrite (lor_move 64 l d _ x p) by (try done; lia). rewrite <- app_assoc. f_equal.
    destruct (decide (d ≤ l)%nat).
    - replace kn with d by lia. do 2 f_equal. lia.
    - replace kn with l by lia. rewrite !take_ge by (rewrite length_bits_of; lia). done. }
  assert (0 ≤ w_chunk s1 < 2 ^ 64) as Hr.
  { unfold s1, fill_chunk. simpl w_chunk. apply lor_range; [lia|done|].
    pose proof (move_range (Z.of_nat l) (w_bit s + 1) x). rewrite Hd in *.
    assert (2 ^ Z.of_nat d ≤ 2 ^ 64) by (apply Z.pow_le_mono_r; lia). lia. }
  set (p1 := p ++ take kn (bits_of l x)) in *.
  assert (length p1 = length p + kn)%nat as Hp1.
  { unfold p1. rewrite length_app, length_take, length_bits_of. lia. }
  assert (words_bits ws ++ p1 = B1) as HB1.
  { unfold B1, p1. fold kn. by rewrite <- HB, <- app_assoc. }
  assert (w_bit s1 = 63 - Z.of_nat (length p1)) as Hb1.
  { unfold s1, fill_chunk. simpl w_bit. lia. }
  assert (holds (w_buff s1) (pre ++ words_bytes ws)) as Hh1 by done.
  clearbody s1 B1 p1.
  destruct (decide (length p1 < 64)%nat) as [Hlt|Hge].
  - left. split; [lia|]. exists ws, p1. split_and!; try done; try lia.
    rewrite Hbits. do 2 f_equal. lia.
  - right. split; [lia|]. unfold flush_chunk.
    assert (zlen ws * 64 ≤ zlen B) as Hwl.
    { rewrite <- HB, zlen_app. unfold zlen. rewrite length_words_bits. lia. }
    destruct (write_val_holds (w_buff s1) (pre ++ words_bytes ws) U64 (w_chunk s1))
      as [(b' & -> & Hb')|(Ho & e & ->)]; [done| | |right; split; [done|by do 2 eexists]].
    { rewrite zlen_app, zlen_words_bytes. simpl csize. pose proof (zlen_nonneg ws). lia. }
    left. eexists. split; [reflexivity|]. split; [|done].
    exists (ws ++ [w_chunk s1]), []. simpl.
    rewrite words_bytes_snoc, words_bits_snoc, app_nil_r, Hbits.
    replace (d - kn)%nat with 0%nat by lia. rewrite !app_assoc in *.
    split_and!; try done; try lia; [by rewrite app_nil_r|].
    apply Forall_app. split; [done|]. apply Forall_singleton. unfold_ctype. simpl. lia.
Qed.

(** One turn of the packing loop. *)
Lemma write_bits_turn fuel abs l s :
  0 < l ≤ 64 → 0 ≤ w_bit s ≤ 63 →
  let k := Z.min (w_bit s + 1) l in
  let s1 := fill_chunk s l k abs in
  write_bits (S fuel) abs l (l - 1) k s =
  if w_bit s1 <? 0 then
    (flush_chunk ≫= λ _, write_bits fuel abs (l - k) (l - 1 - k) (Z.min (63 + 1) (l - k))) s1
  else write_bits fuel abs (l - k) (l - 1 - k) k s1.
Proof.
  intros Hl Hb k s1. simpl write_bits.
  rewrite (proj2 (Z.leb_gt _ _)) by lia.
  unfold get, put, lift, mret, M_ret, mbind, M_bind.
  rewrite (proj2 (Z.ltb_lt 0 k)) by lia.
  rewrite shl64_ok by lia. cbv beta iota. rewrite shr64_ok by lia. cbv beta iota.
  cbn [fst snd]. replace (63 - (l - 1)) with (64 - l) by lia.
  replace (63 - w_bit s) with (64 - (w_bit s + 1)) by lia.
  rewrite move_eq. fold (fill_chunk s l k abs). fold s1.
  by destruct (w_bit s1 <? 0).
Qed.

Lemma write_bits_done fuel abs l b k s : l ≤ 0 → write_bits fuel abs l b k s = (Ok (), s).
Proof. intros. destruct fuel; simpl; by rewrite (proj2 (Z.leb_le _ _)) by lia. Qed.

Lemma wrep_bit pre B s : wrep pre B s → 0 ≤ w_bit s ≤ 63.
Proof. intros (ws & p & _ & _ & ? & ? & _). lia. Qed.

(** The packing loop appends the [n] low bits of [abs]; every turn writes at
    least one bit. *)
Lemma write_bits_spec pre B s fuel abs (n : nat) :
  wrep pre B s → (n ≤ fuel)%nat → (n ≤ 63)%nat → zlen pre + zlen B + Z.of_nat n ≤ 2 ^ 61 →
  let k := Z.min (w_bit s + 1) (Z.of_nat n) in
  (∃ s', write_bits fuel abs (Z.of_nat n) (Z.of_nat n - 1) k s = (Ok (), s') ∧
         wrep pre (B ++ bits_of n abs) s')
  ∨ out_of_memory ∧ ∃ e s', write_bits fuel abs (Z.of_nat n) (Z.of_nat n - 1) k s =
                            (Err SC_Buffer e, s').
Proof.
  revert B s n. induction fuel as [|fuel IH]; intros B s n Hs Hf Hn Hsz k;
    (destruct (decide (n = 0)%nat) as [->|Hn0];
      [rewrite write_bits_done by lia; left; exists s; by rewrite app_nil_r|]); [lia|].
  pose proof (wrep_bit _ _ _ Hs) as Hb. unfold k. rewrite write_bits_turn by lia. fold k.
  destruct (fill_bits pre B s n abs Hs) as [(Hb1 & H1)|(Hb1 & H1)]; [lia..| |];
    fold k in Hb1, H1; unfold fill_chunk in Hb1; simpl in Hb1.
  - rewrite (proj2 (Z.ltb_ge _ _)) by (simpl; lia). rewrite write_bits_done by lia.
    left. eexists. split; [reflexivity|].
    rewrite take_ge in H1 by (rewrite length_bits_of; lia). done.
  - rewrite (proj2 (Z.ltb_lt _ _)) by (simpl; lia). unfold mbind, M_bind.
    destruct H1 as [(s2 & -> & H2 & Hb2)|(Ho & e & s2 & ->)]; [|eauto 6].
    set (kn := Z.to_nat k) in *.
    replace (Z.of_nat n - k) with (Z.of_nat (n - kn)) by lia.
    replace (Z.of_nat n - 1 - k) with (Z.of_nat (n - kn) - 1) by lia.
    replace (63 + 1) with (w_bit s2 + 1) by lia.
    rewrite <- (take_drop kn (bits_of n abs)), drop_bits_of, app_assoc by lia.
    apply IH; [done|lia|lia|].
    rewrite zlen_app. unfold zlen in *. rewrite length_take, length_bits_of. lia.
Qed.

Lemma move_1 d x : 0 ≤ d < 64 → x = 0 ∨ x = 1 → u64 (Z.shiftl x d) = move 1 (d + 1) x.
Proof.
  intros Hd Hx. apply Z.bits_inj'. intros i Hi.
  rewrite move_testbit by lia. unfold u64.
  destruct (decide (i < 64)).
  - rewrite Z.mod_pow2_bits_low, Z.shiftl_spec by lia.
    replace (i + 1 - (d + 1)) with (i - d) by lia.
    destruct (Z.leb_spec 0 (i - d)), (Z.ltb_spec i (d + 1)); simpl; try done.
    + apply (testbit_above _ 1); lia.
    + apply Z.testbit_neg_r. lia.
    + apply Z.testbit_neg_r. lia.
  - rewrite Z.mod_pow2_bits_high by lia. by rewrite (proj2 (Z.ltb_ge _ _)) by lia.
Qed.

Lemma ABS_ok dd : Z.abs dd < 2 ^ 63 → ABS dd = Ok (Z.abs dd).
Proof.
  intros Hdd. unfold ABS. destruct (Z.ltb_spec dd 0).
  - rewrite arith_ok by (unfold_ctype; lia). simpl. f_equal.
    rewrite conv_id by (unfold_ctype; simpl; lia). lia.
  - f_equal. rewrite conv_id by (unfold_ctype; simpl; lia). lia.
Qed.

Lemma write_double_delta_turn dd n s :
  0 ≤ w_bit s ≤ 63 → Z.abs dd < 2 ^ 63 →
  let s1 := fill_chunk s 1 1 (if dd <? 0 then 1 else 0) in
  write_double_delta dd n s =
  match (if w_bit s1 <? 0 then flush_chunk s1 else (Ok (), s1)) with
  | (Ok _, s2) =>
      write_bits (Z.to_nat n + 1) (Z.abs dd) n (n - 1) (Z.min (w_bit s2 + 1) n) s2
  | r => r
  end.
Proof.
  intros Hb Hdd s1. unfold write_double_delta, get, put, lift, mret, M_ret, mbind, M_bind.
  rewrite shl64_ok by lia. rewrite move_1 by (try lia; destruct (dd <? 0); lia).
  fold (fill_chunk s 1 1 (if dd <? 0 then 1 else 0)). fold s1. rewrite ABS_ok by done.
  destruct (w_bit s1 <? 0); [|done].
  by destruct (flush_chunk s1) as [[[]| |] s2].
Qed.

(** [write_double_delta] appends the sign and the magnitude. *)
Lemma write_double_delta_spec pre dd (n : nat) :
  (1 ≤ n ≤ 63)%nat → Z.abs dd < 2 ^ 63 →
  wspec pre (write_double_delta dd (Z.of_nat n)) (dd_bits n dd).
Proof.
  intros Hn Hdd B s Hs Hsz.
  assert (zlen (dd_bits n dd) = 1 + Z.of_nat n) as Hx.
  { unfold dd_bits, zlen. simpl. rewrite length_bits_of. lia. }
  pose proof (wrep_bit _ _ _ Hs) as Hb.
  rewrite write_double_delta_turn by done.
  set (sg := if dd <? 0 then 1 else 0).
  assert (bits_of 1 sg = [dd <? 0]) as Hsg by (unfold sg; by destruct (dd <? 0)).
  assert (Hrest : ∀ s2, wrep pre (B ++ [dd <? 0]) s2 →
    (∃ s', write_bits (Z.to_nat (Z.of_nat n) + 1) (Z.abs dd) (Z.of_nat n) (Z.of_nat n - 1)
             (Z.min (w_bit s2 + 1) (Z.of_nat n)) s2 = (Ok (), s') ∧ wrep pre (B ++ dd_bits n dd) s')
    ∨ out_of_memory ∧ ∃ e s', write_bits (Z.to_nat (Z.of_nat n) + 1) (Z.abs dd) (Z.of_nat n)
        (Z.of_nat n - 1) (Z.min (w_bit s2 + 1) (Z.of_nat n)) s2 = (Err SC_Buffer e, s')).
  { intros s2 H2. unfold dd_bits.
    rewrite (cons_middle (dd <? 0) B), app_assoc.
    apply write_bits_spec; [done|lia|lia|]. rewrite zlen_app. unfold zlen at 3. simpl length. lia. }
  destruct (fill_bits pre B s 1 sg Hs) as [(Hb1 & H1)|(Hb1 & H1)]; [lia..| |];
    change (Z.of_nat 1) with 1 in *; replace (Z.min (w_bit s + 1) 1) with 1 in * by lia;
    change (Z.to_nat 1) with 1%nat in H1; rewrite Hsg in H1; simpl take in H1.
  - rewrite (proj2 (Z.ltb_ge _ _)) by lia. by apply Hrest.
  - rewrite (proj2 (Z.ltb_lt _ _)) by lia.
    destruct H1 as [(s2 & -> & H2 & _)|(Ho & e & s2 & ->)]; [by apply Hrest|eauto 6].
Qed.

End Writing.

(** ** Double deltas *)

(** The values whose arithmetic stays within 64 bits; every value of a type
    of at most 32 bits is one. *)
Definition small (x : Z) : Prop := Z.abs x ≤ 2 ^ 60.

Lemma small_narrow T x : csize T ≤ 4 → in_ctype T x → small x.
Proof. unfold small. destruct T; unfold_ctype; simpl; lia. Qed.

Lemma delta_ok a b : small a → small b → delta a b = Ok (a - b).
Proof.
  unfold small, delta, csub. intros. rewrite !conv_id by (unfold_ctype; simpl; lia).
  apply arith_ok. unfold_ctype. simpl. lia.
Qed.

Fixpoint dds (prev prev_delta : Z) (l : list Z) : list Z :=
  match l with
  | [] => []
  | x :: l => (x - prev) - prev_delta :: dds x (x - prev) l
  end.

Lemma dds_bound prev pd l :
  small prev → Z.abs pd ≤ 2 ^ 61 → Forall small l →
  Forall (λ d, Z.abs d ≤ 2 ^ 62) (dds prev pd l).
Proof.
  unfold small. intros Hp Hd Hl. revert prev pd Hp Hd.
  induction Hl as [|x l Hx Hl IH]; intros; simpl; constructor; [lia|].
  apply IH; lia.
Qed.

Lemma length_dd_stream n prev pd l :
  length (concat (dd_bits n <$> dds prev pd l)) = (length l * S n)%nat.
Proof.
  revert prev pd. induction l as [|x l IH]; intros; [done|].
  simpl. by rewrite length_app, length_bits_of, IH.
Qed.

Section WriteAll.
Context `{!Allocator}.

Lemma write_deltas_spec pre prev pd (n : nat) l :
  (1 ≤ n ≤ 63)%nat → small prev → Z.abs pd ≤ 2 ^ 61 → Forall small l →
  wspec pre (write_deltas prev pd (Z.of_nat n) l) (concat (dd_bits n <$> dds prev pd l)).
Proof.
  intros Hn Hp Hd Hl. revert prev pd Hp Hd.
  induction Hl as [|x l Hx Hl IH]; intros prev pd Hp Hd; [apply wspec_ret|].
  change (concat (dd_bits n <$> dds prev pd (x :: l))) with
    (dd_bits n (x - prev - pd) ++ concat (dd_bits n <$> dds x (x - prev) l)).
  intros B s Hs Hsz.
  assert (write_deltas prev pd (Z.of_nat n) (x :: l) s =
    (write_double_delta (x - prev - pd) (Z.of_nat n) ≫=
      λ _, write_deltas x (x - prev) (Z.of_nat n) l) s) as ->.
  { simpl write_deltas. unfold lift, mbind at 1 2, M_bind at 1 2.
    rewrite delta_ok by done. unfold csub. unfold small in *.
    by rewrite arith_ok by (unfold_ctype; simpl; lia). }
  unfold small in *.
  refine (wspec_seq pre _ (λ _, _) _ _ _ _ B s Hs Hsz).
  - apply write_double_delta_spec; lia.
  - apply IH; lia.
Qed.

(** The chunks hold the bits of the double deltas, padded with zeros. *)
Lemma write_chunks_spec x0 x1 (n : nat) l b bs :
  (1 ≤ n ≤ 63)%nat → small x0 → small x1 → Forall small l → holds b bs →
  zlen bs + 64 * zlen l ≤ 2 ^ 61 →
  (∃ b' ws pad, write_chunks x0 x1 (Z.of_nat n) l b = (Ok (), b') ∧
     holds b' (bs ++ words_bytes ws) ∧ Forall (in_ctype U64) ws ∧
     words_bits ws = concat (dd_bits n <$> dds x1 (x1 - x0) l) ++ replicate pad false)
  ∨ out_of_memory ∧ ∃ e b', write_chunks x0 x1 (Z.of_nat n) l b = (Err SC_Buffer e, b').
Proof.
  intros Hn H0 H1 Hl Hb Hsz.
  assert (zlen (concat (dd_bits n <$> dds x1 (x1 - x0) l)) = zlen l * (1 + Z.of_nat n)) as Hbits.
  { unfold zlen. rewrite length_dd_stream. lia. }
  assert (wrep bs [] (mkW b 0 63)) as Hw.
  { exists [], []. simpl. rewrite app_nil_r, bits_of_0. split_and!; try done; lia. }
  pose proof (zlen_nonneg l). unfold write_chunks. rewrite delta_ok by done. unfold small in *.
  destruct (write_deltas_spec bs x1 (x1 - x0) n l) with (B := @nil bool) (s := mkW b 0 63)
    as [(s & -> & ws & p & Hh & HB & Hbit & Hp & Hc & Hcb & Hws)|(Ho & e & s & ->)];
    [lia|done|lia|done|done|rewrite Hbits; unfold zlen in *; simpl length; nia| |eauto 6].
  simpl in HB. rewrite <- HB in Hbits. rewrite zlen_app in Hbits.
  unfold zlen at 1 in Hbits. rewrite length_words_bits in Hbits.
  destruct (Z.ltb_spec (w_bit s) 63).
  - destruct (write_val_holds (w_buff s) (bs ++ words_bytes ws) U64 (w_chunk s))
      as [(b' & -> & Hb')|(Ho & e & ->)]; [done| | |eauto 6].
    { rewrite zlen_app, zlen_words_bytes. simpl csize. unfold zlen in *. nia. }
    left. exists b', (ws ++ [w_chunk s]), (64 - length p)%nat.
    rewrite words_bytes_snoc, words_bits_snoc, Hcb, <- HB, !app_assoc in *.
    split_and!; try done. apply Forall_app. split; [done|].
    apply Forall_singleton. unfold_ctype. simpl. lia.
  - left. exists (w_buff s), ws, 0%nat. split_and!; try done.
    simpl. rewrite app_nil_r, <- HB. destruct p; [by rewrite app_nil_r|]. simpl in Hbit. lia.
Qed.
End WriteAll.

(** ** Reading *)

(** [rrep R s]: the bits left in the current chunk and in the buffer are [R];
    a chunk is used up only when the buffer is. *)
Definition rrep (R : list bool) (s : rst) : Prop :=
  ∃ ws, ConstBuffer.wf (r_in s) ∧ view (r_in s) = words_bytes ws ∧
    Forall (in_ctype U64) ws ∧ -1 ≤ r_bit s ≤ 63 ∧
    bits_of (Z.to_nat (r_bit s + 1)) (r_chunk s) ++ words_bits ws = R ∧
    (r_bit s = -1 → ws = []).

Lemma load_chunk_spec s w ws :
  ConstBuffer.wf (r_in s) → view (r_in s) = words_bytes (w :: ws) →
  Forall (in_ctype U64) (w :: ws) →
  ∃ s', load_chunk s = (Ok (), s') ∧ r_bit s' = 63 ∧ rrep (bits_of 64 w ++ words_bits ws) s'.
Proof.
  intros Hwf Hv Hws. inversion Hws as [|? ? Hw Hws']; subst.
  destruct (read_val_view (r_in s) U64 w (words_bytes ws) Hwf Hw Hv)
    as (c & E & Hwf' & Hv' & _). unfold load_chunk. rewrite E.
  eexists. split; [reflexivity|]. split; [done|]. exists ws. simpl r_in. simpl r_bit.
  simpl r_chunk. split_and!; try done; lia.
Qed.

Lemma words_end c ws : ConstBuffer.wf c → view c = words_bytes ws →
  (ConstBuffer.offset_ c =? ConstBuffer.size_ c) = bool_decide (ws = []).
Proof.
  intros Hwf Hv. pose proof (zlen_view c Hwf) as Hl. rewrite Hv, zlen_words_bytes in Hl.
  pose proof (zlen_nonneg ws). case_bool_decide as E.
  - subst. apply Z.eqb_eq. unfold zlen in Hl. simpl in Hl. lia.
  - apply Z.eqb_neq. destruct ws; [done|]. unfold zlen in Hl. simpl in Hl. lia.
Qed.

(** Consuming [k] bits of the current chunk, and moving on to the next chunk
    when it is used up. *)
Lemma advance_bits R s k :
  rrep R s → 0 ≤ k ≤ r_bit s + 1 →
  let s1 := mkR (r_in s) (r_chunk s) (r_bit s - k) in
  (if (r_bit s1 <? 0) && negb (ConstBuffer.offset_ (r_in s1) =? ConstBuffer.size_ (r_in s1))
   then ∃ s2, load_chunk s1 = (Ok (), s2) ∧ rrep (drop (Z.to_nat k) R) s2 ∧ r_bit s2 = 63
   else rrep (drop (Z.to_nat k) R) s1).
Proof.
  intros (ws & Hwf & Hv & Hws & Hb & HR & He) Hk s1.
  assert (drop (Z.to_nat k) R =
          bits_of (Z.to_nat (r_bit s - k + 1)) (r_chunk s) ++ words_bits ws) as ER.
  { rewrite <- HR, drop_app_le by (rewrite length_bits_of; lia).
    rewrite drop_bits_of by lia. do 2 f_equal. lia. }
  simpl r_bit. simpl r_in. rewrite (words_end _ ws) by done.
  destruct (Z.ltb_spec (r_bit s - k) 0) as [Hlt|Hge]; simpl.
  - replace (r_bit s - k + 1) with 0 in ER by lia. simpl in ER.
    destruct ws as [|w ws]; case_bool_decide; try done; simpl.
    + exists []. simpl. replace (r_bit s - k) with (-1) by lia.
      split_and!; try done; lia.
    + destruct (load_chunk_spec s1 w ws) as (s2 & E & Hb2 & Hr2); try done.
      exists s2. split_and!; try done. by rewrite ER.
  - exists ws. simpl. split_and!; try done; lia.
Qed.

(** One turn of the unpacking loop. *)
Lemma read_bits_turn fuel dd l s :
  0 < l ≤ 64 → 0 ≤ r_bit s ≤ 63 →
  let k := Z.min (r_bit s + 1) l in
  let s1 := mkR (r_in s) (r_chunk s) (r_bit s - k) in
  let dd1 := Z.lor dd (move (r_bit s + 1) l (r_chunk s)) in
  read_bits (S fuel) dd l (l - 1) k s =
  if (r_bit s1 <? 0) && negb (ConstBuffer.offset_ (r_in s1) =? ConstBuffer.size_ (r_in s1))
  then (load_chunk ≫= λ _, read_bits fuel dd1 (l - k) (l - 1 - k) (Z.min (63 + 1) (l - k))) s1
  else read_bits fuel dd1 (l - k) (l - 1 - k) k s1.
Proof.
  intros Hl Hb k s1 dd1. simpl read_bits.
  rewrite (proj2 (Z.leb_gt _ _)) by lia.
  unfold get, put, lift, mret, M_ret, mbind, M_bind.
  rewrite (proj2 (Z.ltb_lt 0 k)) by lia.
  rewrite shl64_ok by lia. cbv beta iota. rewrite shr64_ok by lia. cbv beta iota.
  cbn [fst snd]. replace (63 - (l - 1)) with (64 - l) by lia.
  replace (63 - r_bit s) with (64 - (r_bit s + 1)) by lia.
  rewrite move_eq. fold dd1. fold s1.
  by destruct ((r_bit s1 <? 0) && _).
Qed.

Lemma read_bits_done fuel dd l b k s : l ≤ 0 → read_bits fuel dd l b k s = (Ok dd, s).
Proof. intros. destruct fuel; simpl; by rewrite (proj2 (Z.leb_le _ _)) by lia. Qed.

Lemma rrep_bit R s : rrep R s → R ≠ [] → 0 ≤ r_bit s ≤ 63.
Proof.
  intros (ws & _ & _ & _ & Hb & HR & He) Hne. split; [|lia].
  destruct (decide (r_bit s = -1)) as [E|]; [|lia].
  rewrite E in HR. rewrite He in HR by done. simpl in HR. by subst.
Qed.

(** The bits taken from the chunk extend the double delta read so far. *)
Lemma take_chunk (n l : nat) R s q y R' dd :
  rrep R s → R = y ++ R' → length y = l → (1 ≤ l ≤ n)%nat → (n ≤ 64)%nat → 0 ≤ r_bit s →
  bits_of n dd = q ++ replicate l false → 0 ≤ dd < 2 ^ Z.of_nat n →
  let k := Nat.min (Z.to_nat (r_bit s + 1)) l in
  let dd1 := Z.lor dd (move (r_bit s + 1) (Z.of_nat l) (r_chunk s)) in
  bits_of n dd1 = (q ++ take k y) ++ replicate (l - k) false ∧ 0 ≤ dd1 < 2 ^ Z.of_nat n.
Proof.
  intros (ws & _ & _ & _ & Hb & HR & _) Hy Hl Hln Hn Hb0 Hq Hdd k dd1.
  set (a := Z.to_nat (r_bit s + 1)) in *.
  assert (r_bit s + 1 = Z.of_nat a) as Ha by lia. unfold dd1. rewrite Ha. split.
  - rewrite (lor_move n a l dd (r_chunk s) q) by (try done; lia). rewrite <- app_assoc. f_equal.
    assert (take k y = take k (bits_of a (r_chunk s))) as ->.
    { rewrite <- (take_app_le y R') by lia. rewrite <- Hy, <- HR.
      by rewrite take_app_le by (rewrite length_bits_of; lia). }
    destruct (decide (l ≤ a)%nat).
    + replace k with l by lia. do 2 f_equal. lia.
    + replace k with a by lia. rewrite !take_ge by (rewrite length_bits_of; lia). done.
  - apply lor_range; [lia|done|].
    pose proof (move_range (Z.of_nat a) (Z.of_nat l) (r_chunk s)).
    assert (2 ^ Z.of_nat l ≤ 2 ^ Z.of_nat n) by (apply Z.pow_le_mono_r; lia). lia.
Qed.

(** The unpacking loop completes the magnitude from its [l] last bits. *)
Lemma read_bits_spec fuel (n l : nat) x R s q dd :
  rrep (bits_of l x ++ R) s → (l ≤ fuel)%nat → (l ≤ n ≤ 63)%nat → 0 ≤ x < 2 ^ Z.of_nat n →
  bits_of n dd = q ++ replicate l false → 0 ≤ dd < 2 ^ Z.of_nat n →
  bits_of n x = q ++ bits_of l x →
  ∃ s', read_bits fuel dd (Z.of_nat l) (Z.of_nat l - 1)
          (Z.min (r_bit s + 1) (Z.of_nat l)) s = (Ok x, s') ∧ rrep R s'.
Proof.
  revert l s q dd. induction fuel as [|fuel IH]; intros l s q dd Hs Hf Hn Hx Hq Hdd Hxq;
    (destruct (decide (l = 0)%nat) as [->|Hl0];
      [rewrite read_bits_done by lia; exists s; split; [|done];
       by rewrite (bits_of_inj n dd x) by (try done; by rewrite Hq, Hxq)|]); [lia|].
  assert (0 ≤ r_bit s ≤ 63) as Hb.
  { eapply rrep_bit; [done|]. intros En. apply (f_equal length) in En.
    rewrite length_app, length_bits_of in En. simpl in En. lia. }
  rewrite read_bits_turn by lia. set (k := Z.min (r_bit s + 1) (Z.of_nat l)).
  destruct (take_chunk n l _ s q (bits_of l x) R dd Hs) as (Hd1 & Hr1);
    try done; try lia; [apply length_bits_of|].
  replace (Nat.min (Z.to_nat (r_bit s + 1)) l) with (Z.to_nat k) in Hd1 by lia.
  set (kn := Z.to_nat k) in *. set (dd1 := Z.lor dd _) in *.
  pose proof (advance_bits _ s k Hs ltac:(lia)) as Hadv. cbv zeta in Hadv |- *. fold kn in Hadv.
  rewrite drop_app_le, drop_bits_of in Hadv by (rewrite ?length_bits_of; lia).
  assert (bits_of n x = (q ++ take kn (bits_of l x)) ++ bits_of (l - kn) x) as Hx1.
  { rewrite Hxq, <- app_assoc. f_equal. rewrite <- (drop_bits_of kn l) by lia.
    by rewrite take_drop. }
  destruct (_ && _) eqn:E.
  - destruct Hadv as (s2 & E2 & Hs2 & Hb2). unfold mbind, M_bind. rewrite E2.
    replace (Z.of_nat l - k) with (Z.of_nat (l - kn)) by lia.
    replace (Z.of_nat l - 1 - k) with (Z.of_nat (l - kn) - 1) by lia.
    replace (63 + 1) with (r_bit s2 + 1) by lia.
    apply (IH _ _ (q ++ take kn (bits_of l x))); try done; lia.
  - assert (kn = l) as Ek.
    { destruct (decide (l - kn = 0)%nat); [lia|].
      apply rrep_bit in Hadv; [simpl in Hadv; lia|].
      intros En. apply (f_equal length) in En. rewrite length_app, length_bits_of in En.
      simpl in En. lia. }
    rewrite Ek, Nat.sub_diag in *. rewrite read_bits_done by lia.
    eexists. split; [|exact Hadv].
    by rewrite (bits_of_inj n dd1 x) by (try done; by rewrite Hd1, Hx1).
Qed.

Lemma read_double_delta_spec (n : nat) dd R s :
  rrep (dd_bits n dd ++ R) s → (1 ≤ n ≤ 62)%nat → Z.abs dd < 2 ^ Z.of_nat n →
  ∃ s', read_double_delta (Z.of_nat n) s = (Ok dd, s') ∧ rrep R s'.
Proof.
  intros Hs Hn Hdd.
  assert (0 ≤ r_bit s ≤ 63) as Hb by (eapply rrep_bit; done).
  assert (2 ^ Z.of_nat n ≤ 2 ^ 62) by (apply Z.pow_le_mono_r; lia).
  assert (Z.testbit (r_chunk s) (r_bit s) = (dd <? 0)) as Hsign.
  { destruct Hs as (ws & _ & _ & _ & _ & HR & _).
    replace (Z.to_nat (r_bit s + 1)) with (S (Z.to_nat (r_bit s))) in HR by lia.
    rewrite bits_of_S, Z2Nat.id in HR by lia. by injection HR. }
  unfold read_double_delta, get, put, lift, mret, M_ret, mbind, M_bind.
  rewrite shl64_ok by lia. rewrite land_pow2_eqb, Hsign by lia.
  pose proof (advance_bits _ s 1 Hs ltac:(lia)) as Hadv. cbv zeta in Hadv.
  change (drop (Z.to_nat 1) (dd_bits n dd ++ R)) with (bits_of n (Z.abs dd) ++ R) in Hadv.
  set (s1 := mkR _ _ _) in *. cbv beta iota.
  assert (∃ s2, (if r_bit s1 <? 0 then load_chunk else λ s0, (Ok (), s0)) s1 = (Ok (), s2) ∧
                rrep (bits_of n (Z.abs dd) ++ R) s2) as (s2 & -> & H2).
  { destruct (_ && _) eqn:E in Hadv.
    - apply andb_true_iff in E as [-> _]. destruct Hadv as (s2 & ? & ? & _). by exists s2.
    - exists s1. split; [|done]. rewrite (proj2 (Z.ltb_ge _ _)); [done|].
      eapply rrep_bit; [exact Hadv|]. intros En. apply (f_equal length) in En.
      rewrite length_app, length_bits_of in En. simpl in En. lia. }
  destruct (read_bits_spec (Z.to_nat (Z.of_nat n) + 1) n n (Z.abs dd) R s2 [] 0)
    as (s3 & -> & H3); try done; try lia; [by rewrite bits_of_0|].
  exists s3. split; [|done]. f_equal. unfold cmul.
  destruct (Z.ltb_spec dd 0); simpl; rewrite arith_ok by (unfold_ctype; simpl; lia); f_equal; lia.
Qed.

(** ** Whole buffers *)

Lemma out_val_at T p W0 xs x ys :
  written p = W0 ++ vals_bytes T (xs ++ x :: ys) → in_ctype T x →
  out_val T (zlen W0) (zlen xs) p = Ok x.
Proof.
  intros Hw Hx. destruct (block_written p) as (tl & Hb). unfold out_val, mbind, res_bind.
  rewrite (memread_at _ _ _ (W0 ++ vals_bytes T xs) (to_bytes T x) (vals_bytes T ys ++ tl)).
  - by rewrite of_to_bytes.
  - rewrite Hb, Hw, vals_bytes_app. change (vals_bytes T (x :: ys)) with
      (to_bytes T x ++ vals_bytes T ys). by rewrite <- !app_assoc.
  - by rewrite zlen_app, zlen_vals_bytes.
  - by rewrite zlen_to_bytes.
Qed.

Lemma read_deltas_spec T (n : nat) W0 xs a b l R st p :
  (1 ≤ n ≤ 62)%nat → Forall (in_ctype T) (a :: b :: l) → Forall small (a :: b :: l) →
  Forall (λ d, Z.abs d < 2 ^ Z.of_nat n) (dds b (b - a) l) →
  rrep (concat (dd_bits n <$> dds b (b - a) l) ++ R) st → PreallocatedBuffer.wf p →
  written p = W0 ++ vals_bytes T (xs ++ [a; b]) →
  PreallocatedBuffer.offset_ p + zlen l * csize T ≤ PreallocatedBuffer.size_ p →
  ∃ st' p', read_deltas T (Z.of_nat n) (zlen W0) (length l) (zlen xs + 2) (st, p) =
              (Ok (), (st', p')) ∧
    written p' = W0 ++ vals_bytes T (xs ++ [a; b] ++ l).
Proof.
  intros Hn. revert xs a b st p. induction l as [|x l IH];
    intros xs a b st p Ht Hsm Hdds Hst Hp Hw Hcap.
  { exists st, p. done. }
  change (concat (dd_bits n <$> dds b (b - a) (x :: l))) with
    (dd_bits n (x - b - (b - a)) ++ concat (dd_bits n <$> dds x (x - b) l)) in Hst.
  simpl dds in Hdds. apply Forall_cons in Hdds as [Hd Hdds].
  rewrite <- app_assoc in Hst.
  destruct (read_double_delta_spec n (x - b - (b - a)) _ st Hst Hn Hd) as (st1 & E1 & Hst1).
  simpl length. simpl read_deltas.
  apply Forall_cons in Ht as [Ha Ht]. apply Forall_cons in Ht as [Hb Ht].
  apply Forall_cons in Ht as [Hx Ht]. apply Forall_cons in Hsm as [Sa Hsm].
  apply Forall_cons in Hsm as [Sb Hsm]. apply Forall_cons in Hsm as [Sx Hsm].
  unfold get, lift, mret, M_ret, mbind, M_bind. unfold on_fst at 1. rewrite E1. simpl snd.
  replace (zlen xs + 2 - 1) with (zlen (xs ++ [a])) by (rewrite zlen_app; unfold zlen; simpl; lia).
  replace (zlen xs + 2 - 2) with (zlen xs) by lia.
  rewrite (out_val_at T p W0 (xs ++ [a]) b []) by (try done; by rewrite Hw, <- app_assoc).
  rewrite (out_val_at T p W0 xs a [b]) by done.
  unfold small in Sa, Sb, Sx. unfold cmul, cadd, csub.
  rewrite !(conv_id I64) by (unfold_ctype; simpl; lia).
  rewrite (arith_ok I64 (2 * b)) by (unfold_ctype; simpl; lia).
  rewrite (arith_ok I64 (_ + _)) by (unfold_ctype; simpl; lia).
  rewrite (arith_ok I64 (_ - a)) by (unfold_ctype; simpl; lia).
  replace (x - b - (b - a) + 2 * b - a) with x by lia. rewrite (conv_id T) by done.
  pose proof (zlen_nonneg l). assert (zlen (x :: l) = 1 + zlen l) as Hxl by (unfold zlen; simpl; lia).
  assert (0 < csize T) by (by destruct T). rewrite Hxl in Hcap.
  destruct (pwrite_fits p (to_bytes T x) Hp) as (p1 & E2 & Hp1 & Hw1 & Ho1 & Hs1 & _).
  { rewrite zlen_to_bytes. nia. }
  unfold on_snd. rewrite E2. rewrite zlen_to_bytes in Ho1.
  destruct (IH (xs ++ [a]) b x st1 p1) as (st2 & p2 & E3 & Hw3).
  { by rewrite !Forall_cons. } { by rewrite !Forall_cons. }
  { done. } { done. } { done. }
  { rewrite Hw1, Hw, <- vals_bytes_one, <- app_assoc, <- vals_bytes_app. by rewrite <- !app_assoc. }
  { nia. }
  exists st2, p2. split; [|rewrite Hw3; by rewrite <- app_assoc].
  replace (zlen xs + 2 + 1) with (zlen (xs ++ [a]) + 2); [done|].
  rewrite zlen_app. unfold zlen at 2. simpl length. lia.
Qed.

Lemma load_vals_spec T xs tl :
  Forall (in_ctype T) xs → load_vals T (vals_bytes T xs ++ tl) (length xs) = Ok xs.
Proof.
  induction 1 as [|x xs Hx _ IH]; [done|].
  change (vals_bytes T (x :: xs)) with (to_bytes T x ++ vals_bytes T xs).
  rewrite <- app_assoc. simpl. unfold mbind, res_bind.
  rewrite (memread_at _ _ _ [] (to_bytes T x) (vals_bytes T xs ++ tl)) by
    (try done; by rewrite zlen_to_bytes).
  rewrite <- (length_to_bytes T x), drop_app_length, IH. by rewrite of_to_bytes.
Qed.

Lemma max_dd_spec prev pd max l :
  small prev → Z.abs pd ≤ 2 ^ 61 → Forall small l → 0 ≤ max ≤ 2 ^ 62 →
  ∃ m, max_dd prev pd max false l = Ok (m, false) ∧ max ≤ m ≤ 2 ^ 62 ∧
       Forall (λ d, Z.abs d ≤ m) (dds prev pd l).
Proof.
  intros Hp Hd Hl Hm. revert prev pd max Hp Hd Hm.
  induction Hl as [|x l Hx Hl IH]; intros prev pd max Hp Hd Hm; simpl.
  { exists max. split; [done|]. split; [lia|constructor]. }
  unfold mbind, res_bind. rewrite delta_ok by done. unfold small in Hp, Hx. unfold csub, std_abs.
  rewrite (arith_ok I64 (_ - pd)) by (unfold_ctype; simpl; lia).
  rewrite arith_ok by (unfold_ctype; simpl; lia).
  replace (_ || _) with false.
  2:{ destruct (Z.ltb_spec (x - prev) 0), (Z.ltb_spec 0 (x - prev)), (Z.ltb_spec pd 0),
        (Z.ltb_spec 0 pd), (Z.ltb_spec 0 (x - prev - pd)), (Z.ltb_spec (x - prev - pd) 0);
      simpl; done || lia. }
  destruct (IH x (x - prev) (Z.max (Z.abs (x - prev - pd)) max)) as (m & E & Hm1 & Hall);
    [done|lia|lia|].
  exists m. split; [done|]. split; [lia|]. constructor; [lia|done].
Qed.

Lemma count_bits_spec fuel b m : 0 ≤ m < 2 ^ Z.of_nat fuel → (0 < fuel)%nat →
  ∃ n : nat, count_bits fuel b m = Ok (b + 1 + Z.of_nat n) ∧ m < 2 ^ (1 + Z.of_nat n) ∧
             (n = 0%nat ∨ 2 ^ Z.of_nat n ≤ m).
Proof.
  revert b m. induction fuel as [|fuel IH]; intros b m Hm Hf; [lia|]. simpl count_bits.
  rewrite Z.shiftr_div_pow2 by lia. change (2 ^ 1) with 2.
  rewrite Nat2Z.inj_succ, Z.pow_succ_r in Hm by lia.
  pose proof (Z.div_mod m 2 ltac:(lia)). pose proof (Z.mod_pos_bound m 2 ltac:(lia)).
  destruct (Z.eqb_spec (m / 2) 0) as [Hz|Hz].
  { exists 0%nat. split; [f_equal; lia|]. split; [simpl; lia|by left]. }
  destruct fuel as [|fuel]; [simpl in Hm; lia|].
  destruct (IH (b + 1) (m / 2)) as (n & E & Hlt & Hge); [lia|lia|].
  exists (S n). split; [rewrite E; f_equal; lia|].
  rewrite Nat2Z.inj_succ, Z.add_succ_r, !Z.pow_succ_r by lia. split; [lia|right].
  destruct Hge as [->|]; simpl; lia.
Qed.

Lemma compute_bitsize_spec xs : Forall small xs →
  ∃ n : nat, compute_bitsize xs = Ok (Z.of_nat n) ∧ (n ≤ 63)%nat ∧
    (match xs with
     | x0 :: x1 :: ((_ :: _) as l) =>
         (1 ≤ n)%nat ∧ Forall (λ d, Z.abs d < 2 ^ Z.of_nat n) (dds x1 (x1 - x0) l)
     | _ => n = 0%nat
     end).
Proof.
  intros Hs. destruct xs as [|x0 [|x1 [|x2 l]]]; try by (exists 0%nat; split_and!; try done; lia).
  apply Forall_cons in Hs as [H0 Hs]. apply Forall_cons in Hs as [H1 Hs].
  unfold compute_bitsize, mbind, res_bind. rewrite delta_ok by done.
  destruct (max_dd_spec x1 (x1 - x0) 0 (x2 :: l)) as (m & -> & Hm & Hall); try done.
  { unfold small in *. lia. }
  destruct (count_bits_spec 64 0 m) as (n & -> & Hlt & Hge); [lia|lia|].
  assert (n ≤ 62)%nat as Hn.
  { destruct Hge as [->|Hge]; [lia|]. destruct (decide (n ≤ 62)%nat); [done|].
    assert (2 ^ 63 ≤ 2 ^ Z.of_nat n) by (apply Z.pow_le_mono_r; lia). lia. }
  exists (S n). split; [f_equal; lia|]. split; [lia|]. split; [lia|].
  eapply Forall_impl; [exact Hall|]. simpl. intros d Hd.
  rewrite Nat2Z.inj_succ, <- Z.add_1_l. lia.
Qed.

(** ** The compressed format *)

(** [encoded T xs bs]: [bs] is a compressed form of the values [xs], either
    verbatim or as packed double deltas. *)
Inductive encoded (T : ctype) (xs : list Z) : list Z → Prop :=
| encoded_raw n : csize T * 8 - 1 ≤ n ≤ 63 →
    encoded T xs (to_bytes U8 n ++ to_bytes U64 (zlen xs) ++ vals_bytes T xs)
| encoded_one n x0 : xs = [x0] → 0 ≤ n < csize T * 8 - 1 →
    encoded T xs (to_bytes U8 n ++ to_bytes U64 (zlen xs) ++ to_bytes T x0)
| encoded_two n x0 x1 : xs = [x0; x1] → 0 ≤ n < csize T * 8 - 1 →
    encoded T xs (to_bytes U8 n ++ to_bytes U64 (zlen xs) ++ to_bytes T x0 ++ to_bytes T x1)
| encoded_packed (n : nat) x0 x1 l ws pad :
    xs = x0 :: x1 :: l → l ≠ [] → (1 ≤ n ≤ 62)%nat → Z.of_nat n < csize T * 8 - 1 →
    Forall (λ d, Z.abs d < 2 ^ Z.of_nat n) (dds x1 (x1 - x0) l) →
    Forall (in_ctype U64) ws →
    words_bits ws = concat (dd_bits n <$> dds x1 (x1 - x0) l) ++ replicate pad false →
    encoded T xs (to_bytes U8 (Z.of_nat n) ++ to_bytes U64 (zlen xs) ++
                  to_bytes T x0 ++ to_bytes T x1 ++ words_bytes ws).

Section Compress.
Context `{!Allocator}.

(** The code up to the first write. *)
Lemma compress_t_eq T xs tl n b :
  xs ≠ [] → Forall (in_ctype T) xs → compute_bitsize xs = Ok n → n ≤ 255 →
  let input := ConstBuffer.make (Some (vals_bytes T xs ++ tl)) (zlen (vals_bytes T xs)) in
  compress_t T input b =
  (Buffer.write_val U8 n ≫= λ _, Buffer.write_val U64 (zlen xs) ≫= λ _,
     compress_body T input n xs) b.
Proof.
  intros Hne Ht En Hn input.
  assert (0 < csize T) as Hc by (by destruct T).
  assert (0 < zlen xs) as Hpos by (destruct xs; [done|unfold zlen; simpl; lia]).
  assert (ConstBuffer.size_ input = zlen xs * csize T) as Hsz by apply zlen_vals_bytes.
  unfold compress_t. rewrite Hsz, Z.div_mul, Z.mod_mul by lia.
  rewrite (proj2 (Z.ltb_lt 0 _)) by lia. rewrite Z.eqb_refl. cbv [negb andb].
  unfold lift, mbind at 1 2 3, M_bind at 1 2 3.
  pose proof (load_vals_spec T xs tl Ht) as Hld.
  unfold zlen at 1. rewrite Nat2Z.id. simpl ConstBuffer.data_. simpl block.
  rewrite Hld, En. unfold massert. by rewrite (proj2 (Z.leb_le _ 255)) by lia.
Qed.

Lemma compress_t_spec T xs tl b0 pre :
  xs ≠ [] → Forall (in_ctype T) xs → Forall small xs → zlen xs ≤ 2 ^ 50 → holds b0 pre → zlen pre ≤ 2 ^ 50 →
  writes (compress_t T (ConstBuffer.make (Some (vals_bytes T xs ++ tl)) (zlen (vals_bytes T xs))))
    b0 (λ es, ∃ z, es = pre ++ z ∧ encoded T xs z).
Proof.
  intros Hne Ht Hs Hl Hb0 Hpre.
  assert (0 < csize T ≤ 8) as Hc by (destruct T; simpl; lia).
  assert (0 ≤ zlen xs * csize T ≤ 2 ^ 53) as Hbs by (pose proof (zlen_nonneg xs); nia).
  destruct (compute_bitsize_spec xs Hs) as (n & En & Hn & Hcase).
  unfold writes. rewrite (compress_t_eq T xs tl (Z.of_nat n)) by (try done; lia).
  eapply writes_seq; [apply appends_val|done|zlen_solve|]. intros b1 Hb1.
  eapply writes_seq; [apply appends_val|done|zlen_solve|]. intros b2 Hb2.
  simpl app in Hb2. unfold compress_body.
  destruct (Z.leb_spec (csize T * 8 - 1) (Z.of_nat n)) as [Hraw|Hpk].
  - unfold lift, writes, mbind, M_bind. cbn [ConstBuffer.data_ ConstBuffer.size_ ConstBuffer.make block default].
    change (id (vals_bytes T xs ++ tl)) with (vals_bytes T xs ++ tl).
    rewrite (memread_at _ _ _ [] (vals_bytes T xs) tl) by done.
    eapply writes_appends; [apply appends_write, vals_bytes_ok|done|zlen_solve|].
    eexists. rewrite <- !app_assoc. split; [done|]. apply encoded_raw. lia.
  - destruct xs as [|x0 [|x1 [|x2 l]]]; [done| | |].
    + eapply writes_appends; [apply appends_val|done|zlen_solve|].
      eexists. rewrite <- !app_assoc. split; [done|]. apply encoded_one; [done|lia].
    + eapply writes_seq; [apply appends_val|done|zlen_solve|]. intros b3 Hb3.
      eapply writes_appends; [apply appends_val|done|zlen_solve|].
      eexists. rewrite <- !app_assoc. split; [done|]. apply encoded_two; [done|lia].
    + destruct Hcase as [Hn1 Hdds]. apply Forall_cons in Hs as [S0 Hs].
      apply Forall_cons in Hs as [S1 Hs].
      eapply writes_seq; [apply appends_val|done|zlen_solve|]. intros b3 Hb3.
      eapply writes_seq; [apply appends_val|done|zlen_solve|]. intros b4 Hb4.
      destruct (write_chunks_spec x0 x1 n (x2 :: l) b4 _ ltac:(lia) S0 S1 Hs Hb4)
        as [(b' & ws & pad & E & Hh & Hws & Hbits)|?]; [zlen_solve| |by right].
      left. eexists b', _. split; [done|]. split; [done|]. eexists. rewrite <- !app_assoc. split; [done|].
      eapply (encoded_packed T _ n x0 x1 (x2 :: l)); try done. lia.
Qed.
End Compress.

(** ** Decompression *)

Section Decompress.

(** Reading a value from the input of the pair leaves the output alone. *)
Lemma read_fst T v rest c :
  ConstBuffer.wf c → in_ctype T v → view c = to_bytes T v ++ rest →
  ∃ c', ConstBuffer.wf c' ∧ view c' = rest ∧
    ∀ A (k : Z → M (ConstBuffer.t * PreallocatedBuffer.t) A) p,
      (on_fst (ConstBuffer.read_val T) ≫= k) (c, p) = k v (c', p).
Proof.
  intros Hwf Hv Hview. destruct (read_val_view c T v rest Hwf Hv Hview) as (c' & E & H1 & H2 & _).
  exists c'. split_and!; [done..|]. intros A k p. unfold on_fst, mbind, M_bind. by rewrite E.
Qed.

Lemma write_snd x p :
  PreallocatedBuffer.wf p → PreallocatedBuffer.offset_ p + zlen x ≤ PreallocatedBuffer.size_ p →
  ∃ p', PreallocatedBuffer.wf p' ∧ written p' = written p ++ x ∧
        PreallocatedBuffer.offset_ p' = PreallocatedBuffer.offset_ p + zlen x ∧
        PreallocatedBuffer.size_ p' = PreallocatedBuffer.size_ p ∧
    ∀ A (k : unit → M (ConstBuffer.t * PreallocatedBuffer.t) A) c,
      (on_snd (PreallocatedBuffer.write x) ≫= k) (c, p) = k () (c, p').
Proof.
  intros Hp Hfit. destruct (pwrite_fits p x Hp Hfit) as (p' & E & H1 & H2 & H3 & H4 & _).
  exists p'. split_and!; [done..|]. intros A k c. unfold on_snd, mbind, M_bind. by rewrite E.
Qed.

Lemma decompress_raw T n xs c p :
  csize T * 8 - 1 ≤ n → ConstBuffer.wf c → view c = vals_bytes T xs →
  PreallocatedBuffer.wf p →
  PreallocatedBuffer.offset_ p + zlen xs * csize T ≤ PreallocatedBuffer.size_ p →
  ∃ s', decompress_body T n (zlen xs) (c, p) = (Ok (), s') ∧
        written s'.2 = written p ++ vals_bytes T xs.
Proof.
  intros Hn Hwf Hv Hp Hcap. unfold decompress_body, get, lift, mbind, M_bind.
  rewrite (proj2 (Z.leb_le _ _)) by done. simpl fst.
  pose proof (zlen_view c Hwf) as Hl. destruct Hwf as (Ho & Hs & Hb).
  unfold ConstBuffer.cur_data, ConstBuffer.nbytes_left_to_read.
  rewrite u64_id, memread_ok by lia. fold (view c). rewrite Hv.
  destruct (pwrite_fits p (vals_bytes T xs) Hp) as (p' & E & _ & Hw & _);
    [by rewrite zlen_vals_bytes|].
  unfold on_snd. rewrite E. by exists (c, p').
Qed.

(** The first one or two values. *)
Lemma decompress_first T n num v rest c p :
  n < csize T * 8 - 1 → in_ctype T v → ConstBuffer.wf c → view c = to_bytes T v ++ rest →
  PreallocatedBuffer.wf p →
  PreallocatedBuffer.offset_ p + csize T ≤ PreallocatedBuffer.size_ p →
  ∃ c' p', ConstBuffer.wf c' ∧ view c' = rest ∧ PreallocatedBuffer.wf p' ∧
    written p' = written p ++ to_bytes T v ∧
    PreallocatedBuffer.offset_ p' = PreallocatedBuffer.offset_ p + csize T ∧
    PreallocatedBuffer.size_ p' = PreallocatedBuffer.size_ p ∧
    decompress_body T n num (c, p) =
      (if num =? 1 then mret ()
       else
         v1 ← on_fst (ConstBuffer.read_val T);
         _ ← on_snd (PreallocatedBuffer.write (to_bytes T v1));
         if num =? 2 then mret ()
         else
           chunk ← on_fst (ConstBuffer.read_val U64);
           read_chunks T n (PreallocatedBuffer.offset_ p) num chunk) (c', p').
Proof.
  intros Hn Hv Hwf Hview Hp Hcap. unfold decompress_body.
  unfold get, mbind at 1, M_bind at 1. rewrite (proj2 (Z.leb_gt _ _)) by lia. simpl snd.
  destruct (read_fst T v rest c) as (c1 & Hwf1 & Hv1 & Erd); [done..|].
  rewrite Erd. destruct (write_snd (to_bytes T v) p) as (p1 & Hp1 & Hw1 & Ho1 & Hs1 & Ewr);
    [done|by rewrite zlen_to_bytes|].
  rewrite Ewr. rewrite zlen_to_bytes in Ho1. by exists c1, p1.
Qed.

Lemma decompress_packed T (n : nat) x0 x1 l ws pad c p :
  l ≠ [] → (1 ≤ n ≤ 62)%nat → Z.of_nat n < csize T * 8 - 1 →
  Forall (λ d, Z.abs d < 2 ^ Z.of_nat n) (dds x1 (x1 - x0) l) → Forall (in_ctype U64) ws →
  words_bits ws = concat (dd_bits n <$> dds x1 (x1 - x0) l) ++ replicate pad false →
  Forall (in_ctype T) (x0 :: x1 :: l) → Forall small (x0 :: x1 :: l) →
  ConstBuffer.wf c → view c = to_bytes T x0 ++ to_bytes T x1 ++ words_bytes ws →
  PreallocatedBuffer.wf p →
  PreallocatedBuffer.offset_ p + zlen (x0 :: x1 :: l) * csize T ≤ PreallocatedBuffer.size_ p →
  ∃ s', decompress_body T (Z.of_nat n) (zlen (x0 :: x1 :: l)) (c, p) = (Ok (), s') ∧
        written s'.2 = written p ++ vals_bytes T (x0 :: x1 :: l).
Proof.
  intros Hl Hn HnT Hdds Hws Hbits Ht Hs Hwf Hv Hp Hcap.
  pose proof (Forall_inv Ht) as T0. pose proof (Forall_inv (Forall_inv_tail Ht)) as T1.
  assert (0 < csize T) by (by destruct T).
  assert (zlen (x0 :: x1 :: l) = 2 + zlen l) as Hz by (unfold zlen; simpl; lia).
  assert (0 < zlen l) as Hzl by (destruct l; [done|unfold zlen; simpl; lia]). rewrite Hz in *.
  destruct (decompress_first T (Z.of_nat n) (2 + zlen l) x0 (to_bytes T x1 ++ words_bytes ws) c p)
    as (c1 & p1 & Hwf1 & Hv1 & Hp1 & Hw1 & Ho1 & Hs1 & ->); try done; [nia|].
  rewrite (proj2 (Z.eqb_neq _ 1)) by lia.
  destruct (read_fst T x1 (words_bytes ws) c1) as (c2 & Hwf2 & Hv2 & Erd); [done..|].
  rewrite Erd. destruct (write_snd (to_bytes T x1) p1) as (p2 & Hp2 & Hw2 & Ho2 & Hs2 & Ewr);
    [done|rewrite zlen_to_bytes; nia|]. rewrite Ewr. rewrite zlen_to_bytes in Ho2. clear Erd.
  rewrite (proj2 (Z.eqb_neq _ 2)) by lia.
  destruct ws as [|w ws].
  { apply (f_equal length) in Hbits. rewrite length_app, length_dd_stream in Hbits.
    simpl in Hbits. unfold zlen in Hzl. nia. }
  apply Forall_cons in Hws as [Hw Hws].
  destruct (read_fst U64 w (words_bytes ws) c2) as (c3 & Hwf3 & Hv3 & Erd); [done..|].
  rewrite Erd. unfold read_chunks. rewrite <- (zlen_written p Hp).
  replace (Z.to_nat (2 + zlen l - 2)) with (length l) by (unfold zlen; lia).
  destruct (read_deltas_spec T n (written p) [] x0 x1 l (replicate pad false)
    (mkR c3 w 63) p2) as (st & p3 & E & Hw3); try done.
  { exists ws. simpl. rewrite <- Hbits. split_and!; try done; lia. }
  { rewrite Hw2, Hw1, <- app_assoc. simpl app. f_equal.
    rewrite <- !(vals_bytes_one T). by rewrite <- vals_bytes_app. }
  { nia. }
  change (zlen [] + 2) with 2 in E. rewrite E. by exists (r_in st, p3).
Qed.

(** Decompression turns a compressed form of [xs] back into [xs]. *)
Lemma decompress_t_spec T xs es c p :
  encoded T xs es → Forall (in_ctype T) xs → Forall small xs → zlen xs ≤ 2 ^ 50 →
  ConstBuffer.wf c → view c = es → PreallocatedBuffer.wf p →
  PreallocatedBuffer.offset_ p + zlen xs * csize T ≤ PreallocatedBuffer.size_ p →
  ∃ s', decompress_t T (c, p) = (Ok (), s') ∧ written s'.2 = written p ++ vals_bytes T xs.
Proof.
  intros Henc Ht Hs Hl Hwf Hview Hp Hcap.
  assert (0 < csize T ≤ 8) as Hc by (destruct T; simpl; lia).
  assert (in_ctype U64 (zlen xs)) as Hnum by (pose proof (zlen_nonneg xs); unfold_ctype; simpl; lia).
  assert (Hhead : ∀ n rest, es = to_bytes U8 n ++ to_bytes U64 (zlen xs) ++ rest → 0 ≤ n ≤ 63 →
    ∃ c', decompress_t T (c, p) = decompress_body T n (zlen xs) (c', p) ∧
          ConstBuffer.wf c' ∧ view c' = rest).
  { intros n rest Ees Hn. unfold decompress_t.
    destruct (read_fst U8 n (to_bytes U64 (zlen xs) ++ rest) c) as (c1 & Hwf1 & Hv1 & Erd);
      [done|unfold_ctype; simpl; lia|by rewrite Hview|]. rewrite Erd. clear Erd.
    destruct (read_fst U64 (zlen xs) rest c1) as (c2 & Hwf2 & Hv2 & Erd); [done..|].
    rewrite Erd. by exists c2. }
  destruct Henc as [n Hn|n x0 -> Hn|n x0 x1 -> Hn|n x0 x1 l ws pad -> Hl0 Hn HnT Hdds Hws Hbits].
  - destruct (Hhead _ _ eq_refl) as (c' & -> & Hwf' & Hv'); [lia|].
    apply decompress_raw; done || lia.
  - destruct (Hhead _ _ eq_refl) as (c' & -> & Hwf' & Hv'); [lia|].
    assert (zlen [x0] = 1) as Hz by done. rewrite Hz in *.
    destruct (decompress_first T n 1 x0 [] c' p)
      as (c1 & p1 & _ & _ & _ & Hw1 & _ & _ & ->); try done; try lia.
    { by apply Forall_inv in Ht. } { by rewrite app_nil_r. }
    exists (c1, p1). split; [done|]. by rewrite vals_bytes_one.
  - destruct (Hhead _ _ eq_refl) as (c' & -> & Hwf' & Hv'); [lia|].
    assert (zlen [x0; x1] = 2) as Hz by done. rewrite Hz in *.
    destruct (decompress_first T n 2 x0 (to_bytes T x1) c' p)
      as (c1 & p1 & Hwf1 & Hv1 & Hp1 & Hw1 & Ho1 & Hs1 & ->); try done; try lia.
    { by apply Forall_inv in Ht. }
    change (2 =? 1) with false. change (2 =? 2) with true. cbv iota.
    destruct (read_fst T x1 [] c1) as (c2 & Hwf2 & Hv2 & Erd);
      [done|by apply (Forall_inv (Forall_inv_tail Ht))|by rewrite app_nil_r|].
    rewrite Erd. destruct (write_snd (to_bytes T x1) p1) as (p2 & _ & Hw2 & _ & _ & Ewr);
      [done|rewrite zlen_to_bytes; lia|].
    rewrite Ewr. exists (c2, p2). split; [done|]. simpl snd. rewrite Hw2, Hw1, <- app_assoc. f_equal.
    rewrite <- !(vals_bytes_one T). by rewrite <- vals_bytes_app.
  - destruct (Hhead _ _ eq_refl) as (c' & -> & Hwf' & Hv'); [lia|].
    by eapply decompress_packed.
Qed.

Lemma read_deltas_fills T n off k : ∀ i, fills snd (read_deltas T n off k i).
Proof.
  induction k as [|k IH]; intros i; [by apply fills_same|]. cbn [read_deltas].
  apply fills_bind; [apply fills_same; intros [s p]; unfold on_fst; by destruct (read_double_delta n s)|intros dd].
  apply fills_bind; [by apply fills_same|intros s].
  do 5 (apply fills_bind; [by apply fills_same|intros ?]).
  apply fills_bind; [apply fills_snd, fills_write|done].
Qed.

Lemma read_val_fills T : fills snd (on_fst (S2 := PreallocatedBuffer.t) (ConstBuffer.read_val T)).
Proof. apply fills_same. intros [c p]. unfold on_fst. by destruct (ConstBuffer.read_val T c). Qed.

Lemma dd_decompress_fills type : fills snd (decompress type).
Proof.
  unfold decompress. destruct (dd_type type) as [T|]; [|by apply fills_same].
  do 2 (apply fills_bind; [apply read_val_fills|intros ?]). unfold decompress_body.
  apply fills_bind; [by apply fills_same|intros s]. destruct (_ <=? _).
  { apply fills_bind; [by apply fills_same|intros x]. apply fills_snd, fills_write. }
  apply fills_bind; [apply read_val_fills|intros v0]. apply fills_bind; [apply fills_snd, fills_write|intros _].
  destruct (_ =? 1); [by apply fills_same|].
  apply fills_bind; [apply read_val_fills|intros v1]. apply fills_bind; [apply fills_snd, fills_write|intros _].
  destruct (_ =? 2); [by apply fills_same|]. apply fills_bind; [apply read_val_fills|intros chunk].
  intros [c p] r s' E. unfold read_chunks in E. destruct (read_deltas _ _ _ _ _ _) as [r1 [st p1]] eqn:Er.
  injection E as <- <-. by apply (read_deltas_fills _ _ _ _ _ _ _ _ Er).
Qed.

End Decompress.

Section RoundTrip.
Context `{!Allocator}.

(** C9. Round trip of the double-delta compressor: for every supported
    datatype, compressing a non-empty buffer of values of magnitude at most
    [2^60] (every value of a type of at most 32 bits qualifies) either runs
    out of memory or produces a buffer that [decompress] turns, without
    error, back into exactly the input bytes. *)
Theorem double_delta_roundtrip ty T xs out0 :
  dd_type ty = Some T → xs ≠ [] → Forall (in_ctype T) xs → Forall small xs →
  zlen xs ≤ 2 ^ 50 → zlen out0 = zlen (vals_bytes T xs) →
  let bs := vals_bytes T xs in
  (∃ out s,
     compress ty (ConstBuffer.make (Some bs) (zlen bs)) Buffer.empty = (Ok (), out) ∧
     decompress ty (Buffer.to_const out, PreallocatedBuffer.make (Some out0) (zlen bs)) =
       (Ok (), s) ∧
     written s.2 = bs)
  ∨ out_of_memory ∧ ∃ e b,
     compress ty (ConstBuffer.make (Some bs) (zlen bs)) Buffer.empty = (Err SC_Buffer e, b).
Proof.
  intros HT Hne Ht Hs Hl Hout bs. unfold compress, decompress. rewrite HT.
  assert (0 < csize T ≤ 8) as Hc by (destruct T; simpl; lia).
  assert (0 ≤ zlen xs * csize T ≤ 2 ^ 53) as Hb by (pose proof (zlen_nonneg xs); nia).
  destruct (compress_t_spec T xs [] Buffer.empty [] Hne Ht Hs Hl holds_empty) as [(out & ? & E & Hh & es & -> & Henc)|?];
    [done|left|right; by rewrite app_nil_r in *]. rewrite app_nil_r in E.
  destruct (to_const_view _ _ Hh) as [Hwf Hv].
  destruct (written_make out0) as [Hp Hw]; [rewrite Hout, zlen_vals_bytes; lia|].
  rewrite Hout in Hp, Hw. fold bs in Hp, Hw.
  destruct (decompress_t_spec T xs es (to_const out) _ Henc Ht Hs Hl Hwf Hv Hp) as (s & Es & Hws).
  { simpl. unfold bs. by rewrite zlen_vals_bytes. }
  exists out, s. split_and!; [done|done|]. by rewrite Hws, Hw.
Qed.

End RoundTrip.

#[local] Existing Instance zero_allocator.

Lemma double_delta_roundtrip_witness :
  let bs := vals_bytes I32 [5; -3; 100; 7; -90] in
  ∃ out s,
    compress INT32 (ConstBuffer.make (Some bs) (zlen bs)) Buffer.empty = (Ok (), out) ∧
    decompress INT32
      (Buffer.to_const out, PreallocatedBuffer.make (Some (replicate 20 0)) (zlen bs)) =
      (Ok (), s) ∧
    written s.2 = bs.
Proof.
  destruct (double_delta_roundtrip INT32 I32 [5; -3; 100; 7; -90] (replicate 20 0))
    as [?|[[] ?]%(λ H, conj (zero_allocator_total (proj1 H)) I)].
  - reflexivity.
  - done.
  - rewrite !Forall_cons. unfold_ctype. simpl. split_and!; done || lia.
  - rewrite !Forall_cons. unfold small. split_and!; done || lia.
  - unfold zlen. simpl. lia.
  - rewrite zlen_vals_bytes. reflexivity.
  - done.
Defined.
