(* ===== verification/LRUCache.v ===== *)
(** * LRUCache (cache/lru_cache.cc): the tile cache

    The linked list holds nodes with an address of their own, and the map
    holds addresses (the [std::list] iterators), so that an iterator whose
    node is gone is a dangling one.  Objects handed to [free] or to the
    eviction callback are recorded, in order, in [released]. *)

From stdpp Require Import gmap.
From S2P Require Import Prelude.
From S2P Require Import ConstBuffer.
From S2P Require Import Buffer.
Local Open Scope Z_scope.

Record LRUCacheItem : Type := mkItem {
  key_ : string;
  object_ : list Z;
  item_size_ : Z
}.

Record t : Type := mk {
  item_ll_ : list (nat * LRUCacheItem);
  item_map_ : gmap string nat;
  max_size_ : Z;
  size_ : Z;
  next_node : nat;
  released : list (list Z)
}.

(** [LRUCache(max_size)]. *)
Definition make (max_size : Z) : t := mk [] ∅ max_size 0 0 [].

(** [*node], when the node is still in the list. *)
Fixpoint deref (node : nat) (ll : list (nat * LRUCacheItem)) : option LRUCacheItem :=
  match ll with
  | [] => None
  | (n, it) :: ll => if Nat.eqb n node then Some it else deref node ll
  end.

Fixpoint unlink (node : nat) (ll : list (nat * LRUCacheItem)) : list (nat * LRUCacheItem) :=
  match ll with
  | [] => []
  | (n, it) :: ll => if Nat.eqb n node then ll else (n, it) :: unlink node ll
  end.

(** [std::next(node) == end()]. *)
Definition is_last (node : nat) (ll : list (nat * LRUCacheItem)) : bool :=
  match last ll with Some (n, _) => Nat.eqb n node | None => false end.

(** [if (next(node) != end) splice(end, ll, node, next(node))], the node
    holding [it]. *)
Definition move_to_end (node : nat) (it : LRUCacheItem) (ll : list (nat * LRUCacheItem)) :
    list (nat * LRUCacheItem) :=
  if is_last node ll then ll else unlink node ll ++ [(node, it)].

Definition with_ll (c : t) (ll : list (nat * LRUCacheItem)) : t :=
  mk ll (item_map_ c) (max_size_ c) (size_ c) (next_node c) (released c).

(** [std::free(object)] or the eviction callback. *)
Definition release (o : list Z) (c : t) : t :=
  mk (item_ll_ c) (item_map_ c) (max_size_ c) (size_ c) (next_node c) (released c ++ [o]).

Definition clear : M t unit := fun c =>
  (Ok (), mk [] (item_map_ c) (max_size_ c) (size_ c) (next_node c)
             (released c ++ (object_ ∘ snd <$> item_ll_ c))).

Definition evict : M t unit := fun c =>
  match item_ll_ c with
  | [] => (UB, c)
  | (_, item) :: ll =>
      (Ok (), mk ll (delete (key_ item) (item_map_ c)) (max_size_ c)
                 (u64 (size_ c - item_size_ item)) (next_node c)
                 (released c ++ [object_ item]))
  end.

(** [while (size_ + size > max_size_) evict()]: every turn removes a node, and
    the turn that finds none fails the assertion of [evict]. *)
Fixpoint evict_for (fuel : nat) (size : Z) : M t unit := fun c =>
  if max_size_ c <? u64 (size_ c + size) then
    match fuel with
    | O => (UB, c)
    | S fuel => (evict;; evict_for fuel size) c
    end
  else (Ok (), c).

(** Replaces the item of a node, keeping its place. *)
Fixpoint set_item (node : nat) (it : LRUCacheItem) (ll : list (nat * LRUCacheItem)) :
    list (nat * LRUCacheItem) :=
  match ll with
  | [] => []
  | (n, x) :: ll => if Nat.eqb n node then (n, it) :: ll else (n, x) :: set_item node it ll
  end.

(** The branch of [insert] on a key found before the evictions: the map
    iterator, and then the list iterator it holds, must still be valid. *)
Definition replace (key : string) (object : list Z) (size : Z) : M t unit := fun c =>
  match item_map_ c !! key with
  | None => (UB, c)
  | Some node =>
      match deref node (item_ll_ c) with
      | None => (UB, c)
      | Some item =>
          let item' := mkItem (key_ item) object size in
          let ll := set_item node item' (item_ll_ c) in
          (Ok (), release (object_ item) (with_ll c (move_to_end node item' ll)))
      end
  end.

Definition append (key : string) (object : list Z) (size : Z) : M t unit := fun c =>
  (Ok (), mk (item_ll_ c ++ [(next_node c, mkItem key object size)])
             (<[key := next_node c]> (item_map_ c)) (max_size_ c) (size_ c)
             (S (next_node c)) (released c)).

Definition add_size (size : Z) : M t unit := fun c =>
  (Ok (), mk (item_ll_ c) (item_map_ c) (max_size_ c) (u64 (size_ c + size))
             (next_node c) (released c)).

Definition insert (key : string) (object : option (list Z)) (size : Z) (overwrite : bool) :
    M t unit := fun c =>
  if max_size_ c <? size then (Ok (), c)
  else match object with
  | None => (Err SC_LRUCache "Cannot insert into cache; Object cannot be null", c)
  | Some object =>
      let exists_ := bool_decide (is_Some (item_map_ c !! key)) in
      if exists_ && negb overwrite then (Ok (), release object c)
      else (evict_for (S (length (item_ll_ c))) size;;
            (if exists_ then replace key object size else append key object size);;
            add_size size) c
  end.

Definition invalidate (key : string) : M t bool := fun c =>
  match item_map_ c !! key with
  | None => (Ok false, c)
  | Some node =>
      match deref node (item_ll_ c) with
      | None => (UB, c)
      | Some item =>
          (evict;; mret true) (with_ll c ((node, item) :: unlink node (item_ll_ c)))
      end
  end.

(** [read(key, buffer, success)]: the status of the write to the buffer is
    dropped. *)
Definition read `{Allocator} (key : string) : M (t * Buffer.t) bool := fun '(c, b) =>
  match item_map_ c !! key with
  | None => (Ok false, (c, b))
  | Some node =>
      match deref node (item_ll_ c) with
      | None => (UB, (c, b))
      | Some item =>
          match memread (object_ item) 0 (item_size_ item) with
          | Ok x =>
              match Buffer.write x b with
              | (UB, b') => (UB, (c, b'))
              | (_, b') => (Ok true, (with_ll c (move_to_end node item (item_ll_ c)), b'))
              end
          | _ => (UB, (c, b))
          end
      end
  end.

(** [read(key, buffer, offset, nbytes, success)]. *)
Definition read_range `{Allocator} (key : string) (offset nbytes : Z) :
    M (t * Buffer.t) bool := fun '(c, b) =>
  match item_map_ c !! key with
  | None => (Ok false, (c, b))
  | Some node =>
      match deref node (item_ll_ c) with
      | None => (UB, (c, b))
      | Some item =>
          if item_size_ item <? u64 (offset + nbytes) then
            (Err SC_LRUCache "Failed to read item; Byte range out of bounds", (c, b))
          else match memread (object_ item) offset nbytes with
          | Ok x =>
              match Buffer.write x b with
              | (Ok _, b') => (Ok true, (with_ll c (move_to_end node item (item_ll_ c)), b'))
              | (Err e s, b') => (Err e s, (c, b'))
              | (UB, b') => (UB, (c, b'))
              end
          | _ => (UB, (c, b))
          end
      end
  end.

(** ** The contract: a list of entries, least recently used first *)

Abbreviation entries := (list (string * list Z)).

Definition total (l : entries) : Z := foldr (λ e n, zlen e.2 + n) 0 l.

(** Drops the least recently used entries until [room] bytes are free. *)
Fixpoint evict_to (cap room : Z) (l : entries) : entries :=
  match l with
  | [] => []
  | e :: l' => if total l + room <=? cap then l else evict_to cap room l'
  end.

Fixpoint find_entry (k : string) (l : entries) : option (list Z) :=
  match l with
  | [] => None
  | e :: l => if decide (e.1 = k) then Some e.2 else find_entry k l
  end.

Definition drop_entry (k : string) (l : entries) : entries := filter (λ e, e.1 ≠ k) l.

(** Marks [k] as the most recently used entry. *)
Definition touch (k : string) (o : list Z) (l : entries) : entries := drop_entry k l ++ [(k, o)].

(** What [insert] with [overwrite = false] promises. *)
Definition spec_insert (cap : Z) (k : string) (o : list Z) (l : entries) : entries :=
  if cap <? zlen o then l
  else match find_entry k l with
  | Some _ => l
  | None => evict_to cap (zlen o) l ++ [(k, o)]
  end.

(** ** Well-formed caches *)

Definition entry (p : nat * LRUCacheItem) : string * list Z := (key_ p.2, object_ p.2).
Definition abs (c : t) : entries := entry <$> item_ll_ c.
Definition keymap (ll : list (nat * LRUCacheItem)) : list (string * nat) :=
  (λ p, (key_ p.2, p.1)) <$> ll.

Definition item_ok (p : nat * LRUCacheItem) : Prop :=
  item_size_ p.2 = zlen (object_ p.2) ∧ Forall byte_ok (object_ p.2).

Record wf (c : t) : Prop := {
  wf_cap : 0 ≤ max_size_ c < 2 ^ 62;
  wf_items : Forall item_ok (item_ll_ c);
  wf_keys : NoDup (abs c).*1;
  wf_nodes : NoDup (item_ll_ c).*1;
  wf_fresh : Forall (λ p, (p.1 < next_node c)%nat) (item_ll_ c);
  wf_map : item_map_ c = list_to_map (keymap (item_ll_ c));
  wf_size : size_ c = total (abs c);
  wf_bound : size_ c ≤ max_size_ c
}.

Lemma keymap_fst ll : (keymap ll).*1 = (entry <$> ll).*1.
Proof. unfold keymap, entry. by rewrite <- !list_fmap_compose. Qed.

Lemma total_cons e l : total (e :: l) = zlen e.2 + total l.
Proof. done. Qed.

Lemma total_app l k : total (l ++ k) = total l + total k.
Proof. induction l as [|e l IH]; simpl; [done|]. unfold total in *. lia. Qed.

Lemma total_nonneg l : 0 ≤ total l.
Proof. induction l as [|e l IH]; simpl; [done|]. pose proof (zlen_nonneg e.2). unfold total in *. lia. Qed.

Lemma total_perm l k : l ≡ₚ k → total l = total k.
Proof. induction 1; simpl in *; unfold total in *; lia. Qed.

Lemma make_wf n : 0 ≤ n < 2 ^ 62 → wf (make n).
Proof. intros. split; simpl; try done; try constructor. lia. Qed.

(** Reordering the nodes keeps a cache well formed. *)
Lemma reorder_wf c ll : wf c → ll ≡ₚ item_ll_ c → wf (with_ll c ll).
Proof.
  intros [H1 H2 H3 H4 H5 H6 H7 H8] Hp.
  assert (abs (with_ll c ll) ≡ₚ abs c) as Ha by (unfold abs; simpl; by rewrite Hp).
  split; simpl; try done.
  - by rewrite Hp.
  - by rewrite Ha.
  - by rewrite Hp.
  - by rewrite Hp.
  - rewrite H6. apply list_to_map_proper; [rewrite keymap_fst; apply H3|].
    unfold keymap. by rewrite Hp.
  - rewrite H7. symmetry. by apply total_perm.
Qed.

(** *** Following the iterator of a key *)

Lemma deref_at l1 n it l2 : n ∉ l1.*1 → deref n (l1 ++ (n, it) :: l2) = Some it.
Proof.
  induction l1 as [|[m x] l1 IH]; simpl; [by rewrite Nat.eqb_refl|].
  intros [Hne Hn]%not_elem_of_cons. rewrite (proj2 (Nat.eqb_neq m n)) by congruence. auto.
Qed.

Lemma unlink_at l1 n it l2 : n ∉ l1.*1 → unlink n (l1 ++ (n, it) :: l2) = l1 ++ l2.
Proof.
  induction l1 as [|[m x] l1 IH]; simpl; [by rewrite Nat.eqb_refl|].
  intros [Hne Hn]%not_elem_of_cons. rewrite (proj2 (Nat.eqb_neq m n)) by congruence.
  f_equal. auto.
Qed.

Lemma find_entry_at l1 k o l2 :
  k ∉ l1.*1 → find_entry k (l1 ++ (k, o) :: l2) = Some o.
Proof.
  induction l1 as [|e l1 IH]; simpl; [by rewrite decide_True|].
  intros [Hne Hn]%not_elem_of_cons. rewrite decide_False by congruence. auto.
Qed.

Lemma find_entry_none k l : k ∉ l.*1 → find_entry k l = None.
Proof.
  induction l as [|e l IH]; simpl; [done|].
  intros [Hne Hn]%not_elem_of_cons. rewrite decide_False by congruence. auto.
Qed.

Lemma drop_entry_none k l : k ∉ l.*1 → drop_entry k l = l.
Proof.
  unfold drop_entry. induction l as [|e l IH]; [done|].
  intros [Hne Hn]%not_elem_of_cons. rewrite filter_cons_True by congruence. f_equal. auto.
Qed.

Lemma drop_entry_at l1 k o l2 :
  k ∉ l1.*1 → k ∉ l2.*1 → drop_entry k (l1 ++ (k, o) :: l2) = l1 ++ l2.
Proof.
  intros H1 H2. unfold drop_entry. rewrite filter_app, filter_cons_False by (simpl; auto).
  pose proof (drop_entry_none k l1 H1) as E1. pose proof (drop_entry_none k l2 H2) as E2.
  unfold drop_entry in E1, E2. by rewrite E1, E2.
Qed.

(** What a lookup in the map of a well-formed cache gives: the key is absent
    from the list, or its iterator designates the only node with the key. *)
Lemma lookup_cases c k : wf c →
  ((item_map_ c !! k) = None ∧ (k ∉ (abs c).*1) ∧ find_entry k (abs c) = None) ∨
  ∃ l1 n it l2, (item_map_ c !! k) = Some n ∧ item_ll_ c = l1 ++ (n, it) :: l2 ∧
    key_ it = k ∧ item_ok (n, it) ∧ (n ∉ l1.*1) ∧
    (k ∉ (entry <$> l1).*1) ∧ k ∉ (entry <$> l2).*1.
Proof.
  intros Hc. destruct (item_map_ c !! k) as [n|] eqn:E; rewrite (wf_map c Hc) in E.
  - right. apply elem_of_list_to_map_2 in E. unfold keymap in E.
    apply list_elem_of_fmap in E as ([m it] & [= -> ->] & Hin).
    destruct (list_elem_of_split _ _ Hin) as (l1 & l2 & Hll).
    pose proof (wf_keys c Hc) as Hk. pose proof (wf_nodes c Hc) as Hn.
    pose proof (wf_items c Hc) as Hi.
    unfold abs in Hk. rewrite Hll in Hk, Hn, Hi. 
    rewrite !fmap_app in Hk. rewrite fmap_app in Hn. simpl in Hk, Hn.
    apply NoDup_app in Hk as (Hk1 & Hk2 & Hk3). apply NoDup_app in Hn as (_ & Hn2 & _).
    apply Forall_app in Hi as [_ [Hi _]%Forall_cons].
    exists l1, m, it, l2. split_and!; try done.
    + intros Hm. apply (Hn2 _ Hm). left.
    + intros Hm. apply (Hk2 _ Hm). left.
    + by apply NoDup_cons in Hk3 as [? _].
  - left. apply not_elem_of_list_to_map in E. rewrite keymap_fst in E.
    split_and!; try done. by apply find_entry_none.
Qed.

(** ** Evictions *)

Definition objects (c : t) : list (list Z) := (abs c).*2.

Lemma evict_spec c n it ll : wf c → item_ll_ c = (n, it) :: ll →
  ∃ c', evict c = (Ok (), c') ∧ wf c' ∧ item_ll_ c' = ll ∧ max_size_ c' = max_size_ c ∧
        next_node c' = next_node c ∧ released c' = released c ++ [object_ it].
Proof.
  intros [H1 H2 H3 H4 H5 H6 H7 H8] E. unfold evict. rewrite E. eexists. split; [done|].
  unfold abs in *. rewrite E in *. rewrite fmap_cons, total_cons in H7. simpl in *.
  apply Forall_cons in H2 as [[Hi _] H2]. simpl in Hi.
  pose proof (total_nonneg (entry <$> ll)). pose proof (zlen_nonneg (object_ it)).
  assert (u64 (size_ c - item_size_ it) = total (entry <$> ll)) as Hs.
  { rewrite u64_id; lia. }
  split; [|done]. split; unfold abs; simpl; try done.
  - by apply NoDup_cons in H3 as [_ ?].
  - by apply NoDup_cons in H4 as [_ ?].
  - by apply Forall_cons in H5 as [_ ?].
  - rewrite H6. apply delete_insert_id, not_elem_of_list_to_map.
    rewrite keymap_fst. by apply NoDup_cons in H3 as [? _].
  - rewrite Hs. lia.
Qed.

Lemma evict_to_cons cap room e l :
  evict_to cap room (e :: l) =
    if total (e :: l) + room <=? cap then e :: l else evict_to cap room l.
Proof. done. Qed.

Lemma evict_for_spec fuel room c : wf c → 0 ≤ room ≤ max_size_ c →
  (length (item_ll_ c) ≤ fuel)%nat →
  ∃ c', evict_for fuel room c = (Ok (), c') ∧ wf c' ∧ max_size_ c' = max_size_ c ∧
        abs c' = evict_to (max_size_ c) room (abs c) ∧ size_ c' + room ≤ max_size_ c ∧
        released c' ++ objects c' = released c ++ objects c.
Proof.
  revert c. induction fuel as [|fuel IH]; intros c Hc Hr Hf;
    pose proof (wf_cap c Hc); pose proof (wf_bound c Hc); pose proof (wf_size c Hc) as Hsz;
    pose proof (total_nonneg (abs c)); simpl evict_for; rewrite u64_id by lia.
  - destruct (item_ll_ c) eqn:E; [|simpl in Hf; lia].
    assert (abs c = []) as Ha by (unfold abs; by rewrite E). rewrite Ha in Hsz. simpl in Hsz.
    rewrite (proj2 (Z.ltb_ge _ _)) by lia. exists c. split_and!; try done; [by rewrite Ha|lia].
  - destruct (Z.ltb_spec (max_size_ c) (size_ c + room)) as [Hlt|Hge].
    + destruct (item_ll_ c) as [|[n it] ll] eqn:E.
      { assert (abs c = []) as Ha by (unfold abs; by rewrite E). rewrite Ha in Hsz. simpl in Hsz. lia. }
      destruct (evict_spec c n it ll Hc E) as (c1 & E1 & Hc1 & Hll & Hm & Hn & Hrel).
      unfold mbind, M_bind. rewrite E1.
      destruct (IH c1) as (c2 & E2 & Hc2 & Hm2 & Ha2 & Hs2 & Hr2);
        [done|lia|rewrite Hll; simpl in Hf; lia|].
      exists c2. assert (abs c = entry (n, it) :: abs c1) as Ha by (unfold abs; by rewrite E, Hll).
      split_and!; try done; try congruence; try lia.
      * rewrite Ha2, Hm, Ha, evict_to_cons, <- Ha, <- Hsz.
        by rewrite (proj2 (Z.leb_gt _ _)) by lia.
      * rewrite Hr2, Hrel. unfold objects. rewrite Ha. by rewrite <- app_assoc.
    + exists c. split_and!; try done.
      destruct (abs c) eqn:Ha; [done|]. rewrite evict_to_cons, <- Hsz.
      by rewrite (proj2 (Z.leb_le _ _)) by lia.
Qed.

Lemma evict_to_suffix cap room l : evict_to cap room l `suffix_of` l.
Proof.
  induction l as [|e l IH]; [done|]. simpl evict_to. case_match; [done|].
  by apply suffix_cons_r.
Qed.

Lemma evict_to_minimal cap room l : room ≤ cap →
  ∃ vs, l = vs ++ evict_to cap room l ∧ total (evict_to cap room l) + room ≤ cap ∧
    (∀ us v, vs = us ++ [v] → cap < total (v :: evict_to cap room l) + room).
Proof.
  intros Hr. induction l as [|e l (vs & El & Hfit & Hmin)].
  - exists []. split_and!; [done|simpl; lia|by intros [] ?].
  - rewrite evict_to_cons. destruct (Z.leb_spec (total (e :: l) + room) cap).
    + exists []. split_and!; [done|done|by intros [] ?].
    + exists (e :: vs). split_and!; [simpl; by f_equal|done|].
      intros us v Eu. destruct vs as [|v' vs].
      * destruct us as [|? [|]]; try done. injection Eu as <-. simpl in El. by rewrite <- El.
      * destruct us as [|u us]; [done|]. injection Eu as <- Eu. by eapply Hmin.
Qed.

(** ** The operations implement the contract *)

Lemma append_spec c k o : wf c → k ∉ (abs c).*1 → Forall byte_ok o →
  size_ c + zlen o ≤ max_size_ c →
  ∃ c', (append k o (zlen o);; add_size (zlen o)) c = (Ok (), c') ∧ wf c' ∧
        max_size_ c' = max_size_ c ∧ abs c' = abs c ++ [(k, o)] ∧ released c' = released c.
Proof.
  intros [H1 H2 H3 H4 H5 H6 H7 H8] Hk Ho Hs. eexists. split; [done|].
  pose proof (total_nonneg (abs c)). pose proof (zlen_nonneg o).
  assert (abs (add_size (zlen o) (append k o (zlen o) c).2).2 = abs c ++ [(k, o)]) as Ha.
  { unfold abs. simpl. by rewrite fmap_app. }
  split; [|by split_and!]. split; simpl; try done.
  - apply Forall_app. split; [done|]. by apply Forall_singleton.
  - unfold abs in *. simpl. rewrite !fmap_app. apply NoDup_app. split_and!; [done| |apply NoDup_singleton].
    intros x Hx Hx'%list_elem_of_singleton. by subst.
  - rewrite fmap_app. apply NoDup_app. split_and!; [done| |apply NoDup_singleton].
    intros x Hx Hx'%list_elem_of_singleton. subst.
    apply list_elem_of_fmap in Hx as (p & Ep & Hp). rewrite Forall_forall in H5.
    specialize (H5 p Hp). simpl in Ep, H5. lia.
  - apply Forall_app. split; [|apply Forall_singleton; simpl; lia].
    eapply Forall_impl; [done|]. simpl. lia.
  - unfold keymap. rewrite fmap_app. simpl. rewrite list_to_map_snoc; [by rewrite H6|].
    fold (keymap (item_ll_ c)). by rewrite keymap_fst.
  - unfold abs in *. simpl. rewrite fmap_app, total_app, u64_id, H7 by lia. simpl. lia.
  - rewrite u64_id by lia. lia.
Qed.

Lemma find_entry_some l1 n it l2 k :
  key_ it = k → k ∉ (entry <$> l1).*1 →
  find_entry k (entry <$> l1 ++ (n, it) :: l2) = Some (object_ it).
Proof. intros <- Hk. rewrite fmap_app. by apply find_entry_at. Qed.

Lemma insert_spec c k o : wf c → Forall byte_ok o →
  ∃ c', insert k (Some o) (zlen o) false c = (Ok (), c') ∧ wf c' ∧
        max_size_ c' = max_size_ c ∧ abs c' = spec_insert (max_size_ c) k o (abs c) ∧
        released c' ++ objects c' ≡ₚ
          released c ++ objects c ++ (if max_size_ c <? zlen o then [] else [o]).
Proof.
  intros Hc Ho. unfold insert, spec_insert. pose proof (zlen_nonneg o).
  destruct (Z.ltb_spec (max_size_ c) (zlen o)); [exists c; by rewrite app_nil_r|].
  destruct (lookup_cases c k Hc) as [(-> & Hk & ->)|(l1 & n & it & l2 & -> & E & Hk & _ & _ & Hk1 & _)].
  - rewrite bool_decide_eq_false_2 by (by intros []). simpl andb. cbv iota.
    destruct (evict_for_spec (S (length (item_ll_ c))) (zlen o) c)
      as (c1 & E1 & Hc1 & Hm1 & Ha1 & Hs1 & Hr1); [done|lia|lia|].
    unfold mbind, M_bind at 1. rewrite E1.
    destruct (append_spec c1 k o Hc1) as (c2 & E2 & Hc2 & Hm2 & Ha2 & Hr2); [|done|lia|].
    { intros Hin. apply Hk. rewrite Ha1 in Hin.
      destruct (evict_to_suffix (max_size_ c) (zlen o) (abs c)) as [l ->].
      rewrite fmap_app. apply elem_of_app. by right. }
    exists c2. split_and!; [done|done|congruence|by rewrite Ha2, Ha1|].
    unfold objects in *. rewrite Hr2, Ha2, fmap_app, app_assoc, Hr1. by rewrite <- app_assoc.
  - rewrite bool_decide_eq_true_2 by done. simpl andb. cbv iota.
    assert (find_entry k (abs c) = Some (object_ it)) as -> by (unfold abs; rewrite E; by apply find_entry_some).
    exists (release o c). split_and!; try done.
    + destruct Hc as [? ? ? ? ? ? ? ?]. by split.
    + unfold objects. simpl. rewrite <- app_assoc. apply Permutation_app_head, Permutation_app_comm.
Qed.

Lemma invalidate_spec c k : wf c →
  ∃ c', invalidate k c = (Ok (bool_decide (is_Some (find_entry k (abs c)))), c') ∧ wf c' ∧
        max_size_ c' = max_size_ c ∧ abs c' = drop_entry k (abs c) ∧
        released c' ++ objects c' ≡ₚ released c ++ objects c.
Proof.
  intros Hc. unfold invalidate.
  destruct (lookup_cases c k Hc) as [(-> & Hk & ->)|(l1 & n & it & l2 & -> & E & Hk & _ & Hn & Hk1 & Hk2)].
  - exists c. rewrite bool_decide_eq_false_2 by (by intros []). by rewrite drop_entry_none.
  - rewrite E, deref_at, unlink_at by done.
    destruct (evict_spec (with_ll c ((n, it) :: l1 ++ l2)) n it (l1 ++ l2))
      as (c1 & E1 & Hc1 & Hll & Hm & _ & Hr); [|done|].
    { apply reorder_wf; [done|]. by rewrite E, Permutation_middle. }
    exists c1. unfold mbind, M_bind. rewrite E1.
    assert (abs c = (entry <$> l1) ++ (k, object_ it) :: (entry <$> l2)) as Ha.
    { unfold abs. rewrite E, fmap_app, fmap_cons. unfold entry at 2. simpl. by rewrite Hk. }
    rewrite Ha, find_entry_at, drop_entry_at by done.
    rewrite bool_decide_eq_true_2 by done. split_and!; [done|done|done| |].
    + unfold abs. by rewrite Hll, fmap_app.
    + rewrite Hr. unfold objects. rewrite Ha. unfold abs. rewrite Hll, !fmap_app. simpl.
      rewrite <- app_assoc. apply Permutation_app_head.
      apply (Permutation_middle (entry <$> l1).*2 (entry <$> l2).*2 (object_ it)).
Qed.

Lemma move_to_end_at l1 n it l2 : NoDup (l1 ++ (n, it) :: l2).*1 →
  move_to_end n it (l1 ++ (n, it) :: l2) = l1 ++ l2 ++ [(n, it)].
Proof.
  intros Hd. rewrite fmap_app in Hd. apply NoDup_app in Hd as (_ & Hl1 & Hd). simpl in Hd.
  apply NoDup_cons in Hd as [Hn _].
  unfold move_to_end, is_last. destruct l2 as [|p l2 _] using rev_ind.
  - rewrite last_snoc. by rewrite Nat.eqb_refl.
  - rewrite app_comm_cons, app_assoc, last_snoc. destruct p as [m x].
    rewrite fmap_app in Hn. simpl in Hn. rewrite (proj2 (Nat.eqb_neq m n)).
    + rewrite <- app_assoc. simpl. rewrite unlink_at; [by rewrite <- !app_assoc|].
      intros Hin. apply (Hl1 _ Hin). left.
    + intros ->. apply Hn, elem_of_app. right. left.
Qed.

Lemma touch_spec c l1 n it l2 : wf c → item_ll_ c = l1 ++ (n, it) :: l2 →
  let c' := with_ll c (move_to_end n it (item_ll_ c)) in
  wf c' ∧ abs c' = touch (key_ it) (object_ it) (abs c) ∧ objects c' ≡ₚ objects c.
Proof.
  intros Hc E. pose proof (wf_nodes c Hc) as Hn. pose proof (wf_keys c Hc) as Hk.
  unfold abs in Hk. rewrite E in Hn, Hk. rewrite !fmap_app in Hk. simpl in Hk.
  apply NoDup_app in Hk as (_ & Hk1 & [Hk2 _]%NoDup_cons).
  assert (l1 ++ l2 ++ [(n, it)] ≡ₚ item_ll_ c) as Hp.
  { rewrite E. apply Permutation_app_head. by rewrite Permutation_app_comm. }
  cbv zeta. assert (move_to_end n it (item_ll_ c) = l1 ++ l2 ++ [(n, it)]) as ->
    by (rewrite E; by apply move_to_end_at).
  split_and!; [by apply reorder_wf| |unfold objects, abs; simpl; by rewrite Hp].
  unfold abs, touch. simpl. rewrite E, !fmap_app, fmap_cons. simpl.
  unfold entry at 5. rewrite drop_entry_at; [by rewrite <- app_assoc| |done].
  intros Hin. apply (Hk1 _ Hin). left.
Qed.

Section Reads.
Context `{!Allocator}.

Lemma read_hit c b bs k o : wf c → find_entry k (abs c) = Some o →
  holds b bs → zlen bs + max_size_ c ≤ 2 ^ 62 →
  ∃ c', wf c' ∧ max_size_ c' = max_size_ c ∧ abs c' = touch k o (abs c) ∧
        released c' = released c ∧ objects c' ≡ₚ objects c ∧
        ((∃ b', read k (c, b) = (Ok true, (c', b')) ∧ holds b' (bs ++ o))
         ∨ out_of_memory ∧ read k (c, b) = (Ok true, (c', b))).
Proof.
  intros Hc Hf Hb Hs. unfold read.
  destruct (lookup_cases c k Hc) as [(_ & _ & ?)|(l1 & n & it & l2 & -> & E & Hk & [Hi Hi'] & Hn & Hk1 & Hk2)];
    [congruence|].
  assert (o = object_ it) as ->.
  { unfold abs in Hf. rewrite E, (find_entry_some l1 n it l2 k) in Hf by done. by injection Hf. }
  destruct (touch_spec c l1 n it l2 Hc E) as (Hwf & Ha & Ho). rewrite Hk in Ha.
  assert (zlen (object_ it) ≤ max_size_ c) as Hmax.
  { pose proof (wf_bound c Hc). pose proof (wf_size c Hc) as Hz.
    unfold abs in Hz. rewrite E, fmap_app, total_app, fmap_cons, total_cons in Hz.
    unfold entry at 2 in Hz. simpl in Hz.
    pose proof (total_nonneg (entry <$> l1)). pose proof (total_nonneg (entry <$> l2)). lia. }
  exists (with_ll c (move_to_end n it (item_ll_ c))). split_and!; try done.
  assert (deref n (item_ll_ c) = Some it) as -> by (rewrite E; by apply deref_at).
  simpl in Hi, Hi'. rewrite Hi.
  pose proof (zlen_nonneg (object_ it)).
  rewrite memread_ok by lia. rewrite slice_all.
  destruct (write_holds b bs (object_ it) Hb Hi') as [(b' & -> & Hb')|(Hoom & e & ->)]; [lia| |].
  - left. by exists b'.
  - by right.
Qed.

Lemma read_miss c b k : wf c → find_entry k (abs c) = None → read k (c, b) = (Ok false, (c, b)).
Proof.
  intros Hc Hf. unfold read.
  destruct (lookup_cases c k Hc) as [(-> & _ & _)|(l1 & n & it & l2 & -> & E & Hk & _ & _ & Hk1 & _)];
    [done|].
  unfold abs in Hf. by rewrite E, (find_entry_some l1 n it l2 k) in Hf.
Qed.

(** ** Sequences of requests *)

Inductive op : Type :=
| Insert (k : string) (o : list Z)
| Invalidate (k : string)
| Read (k : string).

(** A request as the storage manager makes it: insertions do not overwrite,
    reads fill a new buffer; the answer is what the buffer holds on a hit. *)
Definition exec (o : op) : M t (option (list Z)) := fun c =>
  match o with
  | Insert k x => (insert k (Some x) (zlen x) false;; mret None) c
  | Invalidate k => (invalidate k;; mret None) c
  | Read k =>
      let '(r, (c', b)) := read k (c, Buffer.empty) in
      (hit ← r; mret (if hit : bool then Some (Buffer.contents b) else None), c')
  end.

Fixpoint run (ops : list op) : M t (list (option (list Z))) :=
  match ops with
  | [] => mret []
  | o :: ops => x ← exec o; xs ← run ops; mret (x :: xs)
  end.

Definition spec_exec (cap : Z) (o : op) (l : entries) : option (list Z) * entries :=
  match o with
  | Insert k x => (None, spec_insert cap k x l)
  | Invalidate k => (None, drop_entry k l)
  | Read k =>
      match find_entry k l with
      | Some x => (Some x, touch k x l)
      | None => (None, l)
      end
  end.

Fixpoint spec_run (cap : Z) (ops : list op) (l : entries) :
    list (option (list Z)) * entries :=
  match ops with
  | [] => ([], l)
  | o :: ops =>
      let '(x, l1) := spec_exec cap o l in
      let '(xs, l2) := spec_run cap ops l1 in (x :: xs, l2)
  end.

Definition op_ok (o : op) : Prop :=
  match o with Insert _ x => Forall byte_ok x | _ => True end.

(** The objects the cache takes ownership of. *)
Definition accepted (cap : Z) (o : op) : list (list Z) :=
  match o with Insert _ x => if cap <? zlen x then [] else [x] | _ => [] end.

Lemma exec_spec c o : ¬ out_of_memory → wf c → op_ok o →
  ∃ c', exec o c = (Ok (spec_exec (max_size_ c) o (abs c)).1, c') ∧ wf c' ∧
        max_size_ c' = max_size_ c ∧ abs c' = (spec_exec (max_size_ c) o (abs c)).2 ∧
        released c' ++ objects c' ≡ₚ released c ++ objects c ++ accepted (max_size_ c) o.
Proof.
  intros Hoom Hc Ho. destruct o as [k x|k|k]; cbn [exec spec_exec accepted op_ok] in *.
  - destruct (insert_spec c k x Hc Ho) as (c' & E & ?). exists c'.
    unfold mbind, M_bind. by rewrite E.
  - destruct (invalidate_spec c k Hc) as (c' & E & ? & ? & ? & ?). exists c'.
    unfold mbind, M_bind. rewrite E. by rewrite app_nil_r.
  - rewrite app_nil_r. destruct (find_entry k (abs c)) as [x|] eqn:Hf.
    + destruct (read_hit c Buffer.empty [] k x Hc Hf) as (c' & Hc' & Hm & Ha & Hr & Hp & Hb);
        [apply holds_empty|pose proof (wf_cap c Hc); unfold zlen; simpl; lia|].
      destruct Hb as [(b' & -> & (_ & _ & Hb'))|[? _]]; [|done].
      exists c'. simpl. rewrite Hb'. split_and!; try done. by rewrite Hr, Hp.
    + rewrite (read_miss c Buffer.empty k Hc Hf). by exists c.
Qed.

Lemma run_spec ops c : ¬ out_of_memory → wf c → Forall op_ok ops →
  ∃ c', run ops c = (Ok (spec_run (max_size_ c) ops (abs c)).1, c') ∧ wf c' ∧
        max_size_ c' = max_size_ c ∧ abs c' = (spec_run (max_size_ c) ops (abs c)).2 ∧
        released c' ++ objects c' ≡ₚ
          released c ++ objects c ++ concat (accepted (max_size_ c) <$> ops).
Proof.
  intros Hoom Hc Hops. revert c Hc. induction Hops as [|o ops Ho _ IH]; intros c Hc.
  - exists c. simpl. by rewrite app_nil_r.
  - destruct (exec_spec c o Hoom Hc Ho) as (c1 & E1 & Hc1 & Hm1 & Ha1 & Hp1).
    destruct (IH c1 Hc1) as (c2 & E2 & Hc2 & Hm2 & Ha2 & Hp2). exists c2.
    rewrite Hm1, Ha1 in *. simpl run. simpl spec_run. unfold mbind, M_bind at 1. rewrite E1.
    unfold M_bind. rewrite E2.
    destruct (spec_exec (max_size_ c) o (abs c)) as [x l1]. simpl in *.
    destruct (spec_run (max_size_ c) ops l1) as [xs l2]. simpl in *.
    split_and!; try done. rewrite Hp2, app_assoc, Hp1. by rewrite <- !app_assoc.
Qed.

(** C12. The cache refines its contract: from a new cache, any sequence of
    non-overwriting insertions, invalidations and reads runs without error and
    without touching a dangling iterator, answers what the list of entries in
    least-recently-used order answers, and ends in a state that represents
    that list, with [size_] the exact number of cached bytes and at most
    [max_size_]. *)
Theorem lru_refines_spec cap ops :
  ¬ out_of_memory → 0 ≤ cap < 2 ^ 62 → Forall op_ok ops →
  let '(outs, l) := spec_run cap ops [] in
  ∃ c, run ops (make cap) = (Ok outs, c) ∧ abs c = l ∧
       size_ c = total l ∧ size_ c ≤ cap ∧ NoDup l.*1.
Proof.
  intros Hoom Hcap Hops. destruct (run_spec ops (make cap) Hoom (make_wf _ Hcap) Hops)
    as (c & E & Hc & Hm & Ha & _).
  simpl in E, Ha. change (abs (make cap)) with (@nil (string * list Z)) in E, Ha.
  destruct (spec_run cap ops []) as [outs l]. simpl in *. subst l. exists c.
  split_and!; [done|done|by apply wf_size|rewrite <- Hm; by apply wf_bound|by apply wf_keys].
Qed.

(** Ownership: after any such sequence, the objects given to the cache
    (those not larger than its capacity) are, each once, either still cached
    or released. *)
Theorem lru_no_leak cap ops :
  ¬ out_of_memory → 0 ≤ cap < 2 ^ 62 → Forall op_ok ops →
  ∃ outs c, run ops (make cap) = (Ok outs, c) ∧
    released c ++ objects c ≡ₚ concat (accepted cap <$> ops).
Proof.
  intros Hoom Hcap Hops. destruct (run_spec ops (make cap) Hoom (make_wf _ Hcap) Hops)
    as (c & E & _ & _ & _ & Hp). by exists (spec_run cap ops []).1, c.
Qed.

End Reads.

(** Inserting an absent key evicts only what it must, in order: the
    evicted entries are a prefix of the least-recently-used order, the rest
    is kept before the new entry, everything fits, and without the last
    eviction it would not have fitted. *)
Theorem lru_insert_evicts_minimal c k o :
  wf c → Forall byte_ok o → zlen o ≤ max_size_ c → find_entry k (abs c) = None →
  ∃ c' victims kept, insert k (Some o) (zlen o) false c = (Ok (), c') ∧
    abs c = victims ++ kept ∧ abs c' = kept ++ [(k, o)] ∧
    total kept + zlen o ≤ max_size_ c ∧
    (∀ vs v, victims = vs ++ [v] → max_size_ c < total (v :: kept) + zlen o).
Proof.
  intros Hc Ho Hle Hf. destruct (insert_spec c k o Hc Ho) as (c' & E & _ & _ & Ha & _).
  unfold spec_insert in Ha. rewrite Hf, (proj2 (Z.ltb_ge _ _)) in Ha by done.
  destruct (evict_to_minimal (max_size_ c) (zlen o) (abs c) Hle) as (vs & Hs & Hfit & Hmin).
  by exists c', vs, (evict_to (max_size_ c) (zlen o) (abs c)).
Qed.

(** The overwriting branch is not safe: in a cache of 8 bytes, inserting
    the same key three times with a 4-byte object evicts the node that the
    saved iterator designates (the second insertion has counted the object
    twice), and the third insertion dereferences it. *)
Theorem lru_overwrite_dangles :
  let ins := insert "a" (Some [1; 2; 3; 4]) 4 true in
  (ins;; ins) (make 8) =
    (Ok (), mk [(0%nat, mkItem "a" [1; 2; 3; 4] 4)] {["a" := 0%nat]} 8 8 1 [[1; 2; 3; 4]]) ∧
  ((ins;; ins);; ins) (make 8) =
    (UB, mk [] ∅ 8 4 1 [[1; 2; 3; 4]; [1; 2; 3; 4]]).
Proof. by vm_compute. Qed.

(** [clear] leaves the map and the size of the cache untouched: a key
    that was cached before is then looked up through a dangling iterator. *)
Theorem lru_clear_dangles :
  let filled := (insert "a" (Some [1; 2; 3; 4]) 4 true;; clear) (make 8) in
  filled.1 = Ok () ∧ size_ filled.2 = 4 ∧ item_ll_ filled.2 = [] ∧
  (invalidate "a" filled.2).1 = UB.
Proof. by vm_compute. Qed.

#[local] Existing Instance zero_allocator.

Definition sample_ops : list op :=
  [Insert "a" [1; 2; 3]; Insert "b" [4; 5; 6]; Read "a"; Insert "c" [7; 8; 9]; Read "b"].

Lemma sample_ops_ok : Forall op_ok sample_ops.
Proof. unfold sample_ops. rewrite !Forall_cons. simpl. rewrite !Forall_cons. unfold byte_ok. split_and!; done || lia. Qed.

Lemma lru_refines_spec_witness :
  ∃ c, run sample_ops (make 8) = (Ok [None; None; Some [1; 2; 3]; None; None], c) ∧
       abs c = [("a", [1; 2; 3]); ("c", [7; 8; 9])].
Proof.
  destruct (lru_refines_spec 8 sample_ops zero_allocator_total ltac:(lia) sample_ops_ok)
    as (c & E & Ha & _).
  by exists c.
Defined.

Lemma lru_no_leak_witness : ∃ outs c, run sample_ops (make 8) = (Ok outs, c) ∧
  released c ++ objects c ≡ₚ [[1; 2; 3]; [4; 5; 6]; [7; 8; 9]].
Proof. apply (lru_no_leak 8 sample_ops zero_allocator_total ltac:(lia) sample_ops_ok). Defined.

Lemma lru_insert_evicts_minimal_witness :
  ∃ c' victims kept, insert "a" (Some [1; 2]) 2 false (make 8) = (Ok (), c') ∧
    abs (make 8) = victims ++ kept ∧ abs c' = kept ++ [("a", [1; 2])] ∧
    total kept + 2 ≤ 8 ∧
    (∀ vs v, victims = vs ++ [v] → 8 < total (v :: kept) + 2).
Proof.
  apply (lru_insert_evicts_minimal (make 8) "a" [1; 2]); [by apply make_wf| |done|done].
  rewrite !Forall_cons. unfold byte_ok. split_and!; done || lia.
Defined.
