(* ===== verification/Num.v ===== *)
(** * The arithmetic types of the templates

    TileDB's templates are instantiated with the fixed-width integers and with
    [float] and [double].  A value of any of them is an integer here: the
    number itself for an integer type, the IEEE bit pattern for a floating
    one, interpreted with [SpecFloat] (round to nearest even). *)

From Stdlib Require Import SpecFloat.
From S2P Require Import Prelude.
From S2P Require Import Enums.
Local Open Scope Z_scope.

(** ** IEEE formats *)

Inductive ftype : Set := F32 | F64.

#[global] Instance ftype_eq_dec : EqDecision ftype.
Proof. solve_decision. Defined.

Definition prec (f : ftype) : Z := match f with F32 => 24 | F64 => 53 end.
Definition emax (f : ftype) : Z := match f with F32 => 128 | F64 => 1024 end.
Definition fsize (f : ftype) : Z := match f with F32 => 4 | F64 => 8 end.

(** The widths of the significand and exponent fields, and the exponent of
    the smallest subnormal. *)
Definition mant_bits (f : ftype) : Z := prec f - 1.
Definition exp_bits (f : ftype) : Z := 8 * fsize f - prec f.
Definition exp_min (f : ftype) : Z := 3 - emax f - prec f.

Definition fdec (f : ftype) (u : Z) : spec_float :=
  let m := u mod 2 ^ mant_bits f in
  let e := u / 2 ^ mant_bits f mod 2 ^ exp_bits f in
  let s := Z.odd (u / 2 ^ (8 * fsize f - 1)) in
  if e =? 2 ^ exp_bits f - 1 then (if m =? 0 then S754_infinity s else S754_nan)
  else if e =? 0 then
    match m with Z.pos p => S754_finite s p (exp_min f) | _ => S754_zero s end
  else
    match m + 2 ^ mant_bits f with
    | Z.pos p => S754_finite s p (e + exp_min f - 1)
    | _ => S754_nan
    end.

Definition fenc (f : ftype) (x : spec_float) : Z :=
  let sign (s : bool) := if s then 2 ^ (8 * fsize f - 1) else 0 in
  match x with
  | S754_zero s => sign s
  | S754_infinity s => sign s + (2 ^ exp_bits f - 1) * 2 ^ mant_bits f
  | S754_nan => (2 ^ exp_bits f - 1) * 2 ^ mant_bits f + 2 ^ (mant_bits f - 1)
  | S754_finite s p e =>
      if Z.pos p <? 2 ^ mant_bits f then sign s + Z.pos p
      else sign s + (e - exp_min f + 1) * 2 ^ mant_bits f + (Z.pos p - 2 ^ mant_bits f)
  end.

(** Conversion of an integer, exact when it has at most [prec] significant
    bits, and rounded otherwise. *)
Definition f_of_Z (f : ftype) (z : Z) : spec_float := binary_normalize (prec f) (emax f) z 0 false.

Definition fadd f x y := fenc f (SFadd (prec f) (emax f) (fdec f x) (fdec f y)).
Definition fsub f x y := fenc f (SFsub (prec f) (emax f) (fdec f x) (fdec f y)).
Definition fmul f x y := fenc f (SFmul (prec f) (emax f) (fdec f x) (fdec f y)).
Definition fdiv f x y := fenc f (SFdiv (prec f) (emax f) (fdec f x) (fdec f y)).

Definition flt f x y : bool := SFltb (fdec f x) (fdec f y).
Definition fle f x y : bool := SFleb (fdec f x) (fdec f y).
Definition feq f x y : bool := SFeqb (fdec f x) (fdec f y).

Definition is_nan (f : ftype) (x : Z) : bool :=
  match fdec f x with S754_nan => true | _ => false end.
Definition is_inf (f : ftype) (x : Z) : bool :=
  match fdec f x with S754_infinity _ => true | _ => false end.

(** Conversion between the formats. *)
Definition fcvt (f g : ftype) (x : Z) : Z :=
  fenc g match fdec f x with
         | S754_finite s p e =>
             binary_normalize (prec g) (emax g) (if s then Z.neg p else Z.pos p) e s
         | y => y
         end.

(** [std::nextafter(x, y)]: one step from [x] towards [y]. *)
Definition nextafter f x y : Z :=
  if feq f x y then y
  else if flt f x y then fenc f (SFsucc (prec f) (emax f) (fdec f x))
  else if flt f y x then fenc f (SFpred (prec f) (emax f) (fdec f x))
  else fenc f S754_nan.

(** [numeric_limits::max()] and [lowest()]. *)
Definition fmax f : Z := fenc f (SFmax_float (prec f) (emax f)).
Definition flowest f : Z := fenc f (SFopp (SFmax_float (prec f) (emax f))).

(** The largest integer not above a finite number. *)
Definition f_floor (f : ftype) (x : Z) : res Z :=
  match fdec f x with
  | S754_zero _ => Ok 0
  | S754_finite s p e =>
      let m := if s then Z.neg p else Z.pos p in
      Ok (if 0 <=? e then m * 2 ^ e else m / 2 ^ (- e))
  | _ => UB
  end.

(** Conversion to an integer type: truncation, undefined out of range. *)
Definition f_trunc (f : ftype) (x : Z) : res Z :=
  match fdec f x with
  | S754_zero _ => Ok 0
  | S754_finite s p e =>
      let m := if s then Z.neg p else Z.pos p in
      Ok (if 0 <=? e then m * 2 ^ e else Z.quot m (2 ^ (- e)))
  | _ => UB
  end.

Definition in_range (t : ctype) (r : res Z) : res Z :=
  z ← r; if fits t z then Ok z else UB.

(** An integer converted to [double] and back, as the conditional operator
    does when its other branch is a [double]. *)
Definition via_double (t : ctype) (z : Z) : res Z :=
  in_range t (f_trunc F64 (fenc F64 (f_of_Z F64 z))).

(** ** Arithmetic types *)

Inductive num : Set := NInt (t : ctype) | NFlt (f : ftype).

#[global] Instance num_eq_dec : EqDecision num.
Proof. solve_decision. Defined.

Definition nsize (T : num) : Z :=
  match T with NInt t => csize t | NFlt f => fsize f end.

Definition is_int (T : num) : bool := match T with NInt _ => true | NFlt _ => false end.

(** The values of a type, and their object representation. *)
Definition nval (T : num) (v : Z) : Prop :=
  match T with NInt t => in_ctype t v | NFlt f => 0 ≤ v < 2 ^ (8 * fsize f) end.

Definition ndec (T : num) (bs : list Z) : Z :=
  match T with NInt t => of_bytes t bs | NFlt f => le_dec bs end.

Definition nenc (T : num) (v : Z) : list Z :=
  match T with NInt t => to_bytes t v | NFlt f => le_enc (Z.to_nat (fsize f)) v end.

Definition nlt (T : num) (a b : Z) : bool :=
  match T with NInt _ => a <? b | NFlt f => flt f a b end.
Definition nle (T : num) (a b : Z) : bool :=
  match T with NInt _ => a <=? b | NFlt f => fle f a b end.
Definition neqb (T : num) (a b : Z) : bool :=
  match T with NInt _ => a =? b | NFlt f => feq f a b end.

(** [std::min] and [std::max]. *)
Definition nmin (T : num) (a b : Z) : Z := if nlt T b a then b else a.
Definition nmax (T : num) (a b : Z) : Z := if nlt T a b then b else a.

(** [a - b], [a + b], [a * b] and [a / b] on two values of the type, in the
    type the operands are promoted to. *)
Definition nsub (T : num) (a b : Z) : res Z :=
  match T with NInt t => csub (promote t) a b | NFlt f => Ok (fsub f a b) end.
Definition nadd (T : num) (a b : Z) : res Z :=
  match T with NInt t => cadd (promote t) a b | NFlt f => Ok (fadd f a b) end.
Definition nmul (T : num) (a b : Z) : res Z :=
  match T with NInt t => cmul (promote t) a b | NFlt f => Ok (fmul f a b) end.
Definition ndiv (T : num) (a b : Z) : res Z :=
  match T with NInt t => cdiv (promote t) a b | NFlt f => Ok (fdiv f a b) end.

(** An [int] literal as an operand of the type. *)
Definition nlit (T : num) (n : Z) : Z :=
  match T with NInt _ => n | NFlt f => fenc f (f_of_Z f n) end.

(** Conversion of the promoted type back to the type. *)
Definition nconv (T : num) (v : Z) : Z :=
  match T with NInt t => conv t v | NFlt _ => v end.

(** Conversion of a value of the promoted type to [uint64_t]. *)
Definition n_to_u64 (T : num) (v : Z) : res Z :=
  match T with NInt _ => Ok (conv U64 v) | NFlt f => in_range U64 (f_trunc f v) end.

(** [std::floor] of a value of the promoted type, converted to [uint64_t]:
    integers go through [double]. *)
Definition n_floor_u64 (T : num) (v : Z) : res Z :=
  match T with
  | NInt _ => in_range U64 (f_floor F64 (fenc F64 (f_of_Z F64 v)))
  | NFlt f => in_range U64 (f_floor f v)
  end.

(** The type a datatype is processed with: the table of the functions that
    select the instance of each template of [Dimension]. *)
Definition num_of (d : Datatype) : option num :=
  match d with
  | INT32 => Some (NInt I32)
  | INT64 => Some (NInt I64)
  | INT8 => Some (NInt I8)
  | UINT8 => Some (NInt U8)
  | INT16 => Some (NInt I16)
  | UINT16 => Some (NInt U16)
  | UINT32 => Some (NInt U32)
  | UINT64 => Some (NInt U64)
  | FLOAT32 => Some (NFlt F32)
  | FLOAT64 => Some (NFlt F64)
  | DATETIME_YEAR | DATETIME_MONTH | DATETIME_WEEK | DATETIME_DAY | DATETIME_HR
  | DATETIME_MIN | DATETIME_SEC | DATETIME_MS | DATETIME_US | DATETIME_NS
  | DATETIME_PS | DATETIME_FS | DATETIME_AS => Some (NInt I64)
  | _ => None
  end.

(** ** Representation *)

Lemma nsize_pos T : 0 < nsize T ≤ 8.
Proof. destruct T as [[]|[]]; simpl; lia. Qed.

Lemma zlen_nenc T v : zlen (nenc T v) = nsize T.
Proof.
  destruct T as [t|f]; simpl; [apply zlen_to_bytes|].
  unfold zlen. rewrite length_le_enc. by destruct f.
Qed.

Lemma nenc_ok T v : Forall byte_ok (nenc T v).
Proof. destruct T; simpl; auto with cint. Qed.

Lemma fsize_pow f : 256 ^ Z.of_nat (Z.to_nat (fsize f)) = 2 ^ (8 * fsize f).
Proof. by destruct f. Qed.

Lemma ndec_nenc T v : nval T v → ndec T (nenc T v) = v.
Proof.
  destruct T as [t|f]; simpl; [apply of_to_bytes|]. intros Hv. rewrite le_dec_enc.
  rewrite fsize_pow. by apply Z.mod_small.
Qed.

Lemma ndec_val T bs : Forall byte_ok bs → zlen bs = nsize T → nval T (ndec T bs).
Proof.
  intros Hb Hl. destruct T as [t|f]; simpl in *; [apply of_bytes_in|].
  pose proof (le_dec_bound bs Hb) as H. unfold zlen in Hl. rewrite <- fsize_pow.
  by replace (length bs) with (Z.to_nat (fsize f)) in H by lia.
Qed.

#[export] Hint Resolve nenc_ok : cint.

(** ** Order

    The position of a number that is not a NaN in the order of its type:
    comparisons are comparisons of positions. *)

Definition frank (f : ftype) (u : Z) : Z :=
  match fdec f u with
  | S754_zero _ | S754_nan => 0
  | S754_infinity s => (if s then -1 else 1) * 2 ^ (8 * fsize f + 1)
  | S754_finite s m e => (if s then -1 else 1) * ((e - exp_min f) * 2 ^ prec f + Z.pos m)
  end.

Lemma fdec_bound f u s m e : fdec f u = S754_finite s m e →
  Z.pos m < 2 ^ prec f ∧ 0 ≤ e - exp_min f < 2 ^ exp_bits f.
Proof.
  unfold fdec.
  pose proof (Z.mod_pos_bound u (2 ^ mant_bits f) ltac:(by destruct f)) as Hm.
  pose proof (Z.mod_pos_bound (u / 2 ^ mant_bits f) (2 ^ exp_bits f) ltac:(by destruct f)) as He.
  assert (2 ^ prec f = 2 * 2 ^ mant_bits f) as Hp by (by destruct f).
  assert (0 < 2 ^ exp_bits f) by (by destruct f).
  set (mm := u mod _) in *. set (ee := _ mod 2 ^ exp_bits f) in *.
  destruct (ee =? 2 ^ exp_bits f - 1) eqn:E1; [by case_match|].
  apply Z.eqb_neq in E1. destruct (ee =? 0) eqn:E2.
  - apply Z.eqb_eq in E2. destruct mm eqn:Emm; intros [= <- <- <-]. lia.
  - apply Z.eqb_neq in E2. destruct (mm + 2 ^ mant_bits f) eqn:Es; intros [= <- <- <-]. lia.
Qed.

Lemma compare_rank f (c : Z) e1 m1 e2 m2 :
  0 < Z.pos m1 < c → 0 < Z.pos m2 < c →
  match e1 ?= e2 with Eq => Pos.compare_cont Eq m1 m2 | Lt => Lt | Gt => Gt end =
  ((e1 - f) * c + Z.pos m1 ?= (e2 - f) * c + Z.pos m2).
Proof.
  intros H1 H2. symmetry. change (Pos.compare_cont Eq m1 m2) with (m1 ?= m2)%positive.
  destruct (Z.compare_spec e1 e2) as [->|H|H].
  - destruct (Pos.compare_spec m1 m2) as [->|H|H];
      [apply Z.compare_refl|apply Z.compare_lt_iff|apply Z.compare_gt_iff]; lia.
  - apply Z.compare_lt_iff. nia.
  - apply Z.compare_gt_iff. nia.
Qed.

Lemma compare_neg x y : (-1 * x ?= -1 * y) = CompOpp (x ?= y).
Proof.
  destruct (Z.compare_spec x y) as [->|H|H];
    [apply Z.compare_refl|apply Z.compare_gt_iff|apply Z.compare_lt_iff]; lia.
Qed.

Lemma fcompare_rank f a b : is_nan f a = false → is_nan f b = false →
  SFcompare (fdec f a) (fdec f b) = Some (frank f a ?= frank f b).
Proof.
  unfold is_nan, frank. intros Ha Hb.
  assert (2 ^ (8 * fsize f + 1) = 2 * (2 ^ exp_bits f * 2 ^ prec f)) as Hbig by (by destruct f).
  assert (0 < 2 ^ prec f ∧ 0 < 2 ^ exp_bits f) as [Hp He] by (by destruct f).
  assert (0 < 2 ^ exp_bits f * 2 ^ prec f) by lia.
  pose proof (fdec_bound f a) as Ba. pose proof (fdec_bound f b) as Bb.
  destruct (fdec f a) as [sa|sa| |sa ma ea]; try discriminate Ha;
  (destruct (fdec f b) as [sb|sb| |sb mb eb]; try discriminate Hb);
  try specialize (Ba _ _ _ eq_refl); try specialize (Bb _ _ _ eq_refl);
  rewrite ?Hbig; simpl SFcompare; f_equal;
  repeat match goal with s : bool |- _ => destruct s end; symmetry;
  try (apply Z.compare_eq_iff; lia); try (apply Z.compare_lt_iff; nia);
  try (apply Z.compare_gt_iff; nia); symmetry.
  - rewrite compare_neg, <- compare_rank by lia.
    by destruct (ea ?= eb).
  - rewrite !Z.mul_1_l. by apply compare_rank; lia.
Qed.

(** [ordered T v]: [v] takes part in the order of the type. *)
Definition ordered (T : num) (v : Z) : Prop :=
  match T with NInt _ => True | NFlt f => is_nan f v = false end.

Definition rank (T : num) (v : Z) : Z :=
  match T with NInt _ => v | NFlt f => frank f v end.

Lemma nlt_rank T a b : ordered T a → ordered T b → nlt T a b = (rank T a <? rank T b).
Proof.
  destruct T as [t|f]; [done|]. simpl. intros Ha Hb. unfold flt, SFltb.
  rewrite fcompare_rank by done. unfold Z.ltb. by destruct (frank f a ?= frank f b).
Qed.

Lemma nle_rank T a b : ordered T a → ordered T b → nle T a b = (rank T a <=? rank T b).
Proof.
  destruct T as [t|f]; [done|]. simpl. intros Ha Hb. unfold fle, SFleb.
  rewrite fcompare_rank by done. unfold Z.leb. by destruct (frank f a ?= frank f b).
Qed.

Lemma rank_nmin T a b : ordered T a → ordered T b →
  ordered T (nmin T a b) ∧ rank T (nmin T a b) = Z.min (rank T a) (rank T b).
Proof.
  intros Ha Hb. unfold nmin. rewrite nlt_rank by done.
  destruct (Z.ltb_spec (rank T b) (rank T a)); split; try done; lia.
Qed.

Lemma rank_nmax T a b : ordered T a → ordered T b →
  ordered T (nmax T a b) ∧ rank T (nmax T a b) = Z.max (rank T a) (rank T b).
Proof.
  intros Ha Hb. unfold nmax. rewrite nlt_rank by done.
  destruct (Z.ltb_spec (rank T a) (rank T b)); split; try done; lia.
Qed.

Lemma nmin_val T a b : nval T a → nval T b → nval T (nmin T a b).
Proof. unfold nmin. by case_match. Qed.

Lemma nmax_val T a b : nval T a → nval T b → nval T (nmax T a b).
Proof. unfold nmax. by case_match. Qed.

#[export] Hint Resolve nmin_val nmax_val ndec_nenc : cint.
