(* ===== verification/NumFacts.v ===== *)
(** * Facts about [double]

    Integers of at most 53 bits convert exactly, and the quotient of two of
    them is [1.0] only when they are equal. *)

From Stdlib Require Import SpecFloat.
From S2P Require Import Prelude.
From S2P Require Import Enums.
From S2P Require Import Num.
Local Open Scope Z_scope.

(** ** Digits and shifts *)

Lemma digits2_log p : Z.pos (digits2_pos p) = Z.log2 (Z.pos p) + 1.
Proof.
  induction p as [p IH|p IH|]; simpl digits2_pos; [| |done];
    rewrite Pos2Z.inj_succ, IH.
  - rewrite Pos2Z.inj_xI, Z.log2_succ_double by lia. lia.
  - rewrite Pos2Z.inj_xO, Z.log2_double by lia. lia.
Qed.

Lemma digits_eq m k : 0 < k → 2 ^ (k - 1) ≤ m < 2 ^ k → Zdigits2 m = k.
Proof.
  intros Hk Hm. assert (0 < 2 ^ (k - 1)) by (apply Z.pow_pos_nonneg; lia).
  destruct m as [|p|p]; [lia| |lia]. simpl Zdigits2. rewrite digits2_log.
  rewrite (Z.log2_unique (Z.pos p) (k - 1)); [lia|lia|].
  replace (Z.succ (k - 1)) with k by lia. done.
Qed.

Lemma iter_xO m d : Z.pos (Pos.iter xO m d) = Z.pos m * 2 ^ Z.pos d.
Proof.
  induction d as [|d IH] using Pos.peano_ind; [simpl; lia|].
  rewrite Pos.iter_succ, Pos2Z.inj_xO, IH, Pos2Z.inj_succ, Z.pow_succ_r by lia. lia.
Qed.

(** ** Rounding a significand of 53 or 54 bits *)

Definition normal (m : Z) : Prop := 2 ^ 52 ≤ m < 2 ^ 53.

Lemma fexp64 e : -1021 ≤ e → fexp 53 1024 e = e - 53.
Proof. unfold fexp, emin. lia. Qed.

(** No shift for 53 bits, a shift by one for 54. *)
Lemma shr_fexp_53 m e l : normal m → -1074 ≤ e →
  shr_fexp 53 1024 m e l = (shr_record_of_loc m l, e).
Proof.
  intros Hm He. unfold shr_fexp. rewrite (digits_eq m 53) by (unfold normal in Hm; lia).
  rewrite fexp64 by lia. by replace (53 + e - 53 - e) with 0 by lia.
Qed.

Lemma shr_fexp_54 m e l : 2 ^ 53 ≤ m < 2 ^ 54 → -1074 ≤ e →
  shr_fexp 53 1024 m e l = (shr_1 (shr_record_of_loc m l), e + 1).
Proof.
  intros Hm He. unfold shr_fexp. rewrite (digits_eq m 54) by lia.
  rewrite fexp64 by lia. replace (54 + e - 53 - e) with 1 by lia. done.
Qed.

Lemma shr_1_half m l : 0 < m →
  shr_m (shr_1 (shr_record_of_loc m l)) = m / 2 ∧
  (Z.even m = true → l = loc_Exact → loc_of_shr_record (shr_1 (shr_record_of_loc m l)) = loc_Exact).
Proof.
  intros Hm. destruct m as [|[p|p|]|]; try lia.
  - assert (Z.pos p~1 / 2 = Z.pos p) as -> by (rewrite <- Z.div2_div; done).
    by destruct l as [|[]].
  - assert (Z.pos p~0 / 2 = Z.pos p) as -> by (rewrite <- Z.div2_div; done).
    destruct l as [|[]]; done.
  - by destruct l as [|[]].
Qed.

Lemma round_bound m l : m ≤ round_nearest_even m l ≤ m + 1.
Proof. destruct l as [|[]]; simpl; try case_match; lia. Qed.

(** The last step of the rounding: [m] is the rounded significand. *)
Definition finish (s : bool) (m e : Z) : spec_float :=
  let '(mrs, e') := shr_fexp 53 1024 m e loc_Exact in
  match shr_m mrs with
  | 0 => S754_zero s
  | Z.pos p => if e' <=? 971 then S754_finite s p e' else S754_infinity s
  | Z.neg _ => S754_nan
  end.

Lemma finish_53 s p e : normal (Z.pos p) → -1074 ≤ e ≤ 971 →
  finish s (Z.pos p) e = S754_finite s p e.
Proof.
  intros Hp He. unfold finish. rewrite shr_fexp_53 by (done || lia). simpl.
  by rewrite (proj2 (Z.leb_le _ _)) by lia.
Qed.

Lemma finish_54 s e : -1074 ≤ e ≤ 970 →
  finish s (2 ^ 53) e = S754_finite s 4503599627370496 (e + 1).
Proof.
  intros He. unfold finish. rewrite shr_fexp_54 by lia. simpl.
  by rewrite (proj2 (Z.leb_le _ _)) by lia.
Qed.

Lemma round_aux_finish s m e l mrs e' :
  shr_fexp 53 1024 m e l = (mrs, e') →
  binary_round_aux 53 1024 s m e l =
    finish s (round_nearest_even (shr_m mrs) (loc_of_shr_record mrs)) e'.
Proof. intros E. unfold binary_round_aux, finish. by rewrite E. Qed.

Lemma loc_of_shr m l : loc_of_shr_record (shr_record_of_loc m l) = l.
Proof. by destruct l as [|[]]. Qed.

Lemma shr_m_of m l : shr_m (shr_record_of_loc m l) = m.
Proof. by destruct l as [|[]]. Qed.

(** What the final step gives for a significand in [[2^52, 2^53]]. *)
Lemma finish_cases s m e : 2 ^ 52 ≤ m ≤ 2 ^ 53 → -1074 ≤ e ≤ 970 →
  ∃ p e', finish s m e = S754_finite s p e' ∧ normal (Z.pos p) ∧
          (m < 2 ^ 53 → e' = e ∧ Z.pos p = m) ∧ (m = 2 ^ 53 → e' = e + 1).
Proof.
  intros Hm He. destruct (decide (m = 2 ^ 53)) as [->|Hne].
  - exists 4503599627370496%positive, (e + 1). rewrite finish_54 by lia.
    split_and!; [done|unfold normal; lia|lia|done].
  - destruct m as [|p|p]; try lia. exists p, e. rewrite finish_53 by (unfold normal; lia).
    split_and!; [done|unfold normal; lia|done|lia].
Qed.

Lemma round_aux_exact s p e : normal (Z.pos p) → -1074 ≤ e ≤ 971 →
  binary_round_aux 53 1024 s (Z.pos p) e loc_Exact = S754_finite s p e.
Proof.
  intros Hp He. erewrite round_aux_finish by (apply shr_fexp_53; done || lia).
  rewrite loc_of_shr, shr_m_of. simpl round_nearest_even. by apply finish_53.
Qed.

(** The exponent of the result when 53 or 54 bits are rounded to 53. *)
Lemma round_aux_exponent s q e l : 2 ^ 52 ≤ q < 2 ^ 54 → -1074 ≤ e ≤ 960 →
  ∃ p e', binary_round_aux 53 1024 s q e l = S754_finite s p e' ∧ normal (Z.pos p) ∧
          e ≤ e' ≤ e + 2 ∧ (q < 2 ^ 53 - 1 → e' = e) ∧ (q < 2 ^ 53 → e' ≤ e + 1) ∧
          (q < 2 ^ 54 - 2 ∨ q = 2 ^ 54 - 2 ∧ l = loc_Exact → e' ≤ e + 1).
Proof.
  intros Hq He. destruct (decide (q < 2 ^ 53)) as [Hlt|Hge].
  - erewrite round_aux_finish by (apply shr_fexp_53; [unfold normal; lia|lia]).
    rewrite loc_of_shr, shr_m_of. pose proof (round_bound q l) as Hr.
    destruct (finish_cases s (round_nearest_even q l) e) as (p & e' & -> & Hp & H1 & H2); [lia..|].
    exists p, e'. split_and!; try done; destruct (decide (round_nearest_even q l = 2 ^ 53)); lia.
  - erewrite round_aux_finish by (apply shr_fexp_54; lia).
    destruct (shr_1_half q l) as [-> Hex]; [lia|].
    set (l' := loc_of_shr_record _) in *. pose proof (round_bound (q / 2) l') as Hr.
    pose proof (Z.div_mod q 2 ltac:(lia)). pose proof (Z.mod_pos_bound q 2 ltac:(lia)).
    destruct (finish_cases s (round_nearest_even (q / 2) l') (e + 1)) as (p & e' & -> & Hp & H1 & H2); [lia..|].
    exists p, e'. split_and!; try done; try lia.
    intros [Hs|[Hq2 Hl]].
    + assert (q / 2 ≤ 2 ^ 53 - 2) by lia. lia.
    + assert (l' = loc_Exact) as Hl' by (apply Hex; [by rewrite Hq2|done]).
      clearbody l'. subst l'. simpl round_nearest_even in *. lia.
Qed.

(** ** Integers as [double] *)

Lemma f_of_Z_pos p : Z.pos p < 2 ^ 53 →
  ∃ m e, f_of_Z F64 (Z.pos p) = S754_finite false m e ∧
         f_of_Z F64 (Z.neg p) = S754_finite true m e ∧
         normal (Z.pos m) ∧ -52 ≤ e ≤ 0 ∧ Z.pos m = Z.pos p * 2 ^ (- e).
Proof.
  intros Hp. set (d := Z.log2 (Z.pos p) + 1).
  assert (2 ^ (d - 1) ≤ Z.pos p < 2 ^ d) as Hd.
  { pose proof (Z.log2_spec (Z.pos p) ltac:(lia)). unfold d.
    replace (Z.log2 (Z.pos p) + 1 - 1) with (Z.log2 (Z.pos p)) by lia. done. }
  assert (1 ≤ d ≤ 53) as Hd53.
  { pose proof (Z.log2_nonneg (Z.pos p)). split; [unfold d; lia|].
    destruct (Z.le_gt_cases d 53); [done|].
    assert (2 ^ 53 ≤ 2 ^ (d - 1)) by (apply Z.pow_le_mono_r; lia). lia. }
  assert (2 ^ (d - 1) * 2 ^ (53 - d) = 2 ^ 52 ∧ 2 ^ d * 2 ^ (53 - d) = 2 ^ 53) as [Hl Hu].
  { rewrite <- !Z.pow_add_r by lia. split; f_equal; lia. }
  assert (0 < 2 ^ (53 - d)) by (apply Z.pow_pos_nonneg; lia).
  unfold f_of_Z, binary_normalize, binary_round. simpl prec. simpl emax.
  rewrite digits2_log. fold d. rewrite Z.add_0_r, fexp64 by lia.
  unfold shl_align. rewrite Z.sub_0_r.
  destruct (d - 53) as [|k|k] eqn:Ek; [|lia|].
  - exists p, 0. rewrite !round_aux_exact by (unfold normal; replace (53 - d) with 0 in * by lia; lia).
    replace (53 - d) with 0 in * by lia. split_and!; try done; unfold normal; lia.
  - assert (normal (Z.pos (Pos.iter xO p k))) as Hn.
    { rewrite iter_xO. replace (Z.pos k) with (53 - d) by lia. unfold normal. nia. }
    exists (Pos.iter xO p k), (Z.neg k). rewrite !round_aux_exact by (done || lia).
    split_and!; try done; try lia. by rewrite iter_xO.
Qed.

(** Normal numbers are encoded without loss. *)
Lemma fdec_fenc_normal s p e : normal (Z.pos p) → -1074 ≤ e ≤ 971 →
  fdec F64 (fenc F64 (S754_finite s p e)) = S754_finite s p e.
Proof.
  intros Hp He. unfold normal in Hp. unfold fenc. simpl mant_bits.
  change (2 ^ mant_bits F64) with (2 ^ 52).
  rewrite (proj2 (Z.ltb_ge _ _)) by lia. change (8 * fsize F64 - 1) with 63.
  change (exp_min F64) with (-1074).
  set (sg := if s then 2 ^ 63 else 0). set (m := Z.pos p - 2 ^ 52). set (k := e - -1074 + 1).
  assert (0 ≤ m < 2 ^ 52) as Hm by (unfold m; lia).
  assert (1 ≤ k ≤ 2046) as Hk by (unfold k; lia).
  set (u := sg + k * 2 ^ 52 + m).
  assert (u mod 2 ^ 52 = m) as H1.
  { symmetry. apply (Z.mod_unique_pos _ _ ((if s then 2 ^ 11 else 0) + k)); [lia|].
    unfold u, sg. destruct s; lia. }
  assert (u / 2 ^ 52 = (if s then 2 ^ 11 else 0) + k) as H2.
  { symmetry. apply (Z.div_unique_pos _ _ _ m); [lia|]. unfold u, sg. destruct s; lia. }
  assert (((if s then 2 ^ 11 else 0) + k) mod 2 ^ 11 = k) as H3.
  { symmetry. apply (Z.mod_unique_pos _ _ (if s then 1 else 0)); destruct s; lia. }
  assert (u / 2 ^ 63 = if s then 1 else 0) as H4.
  { symmetry. apply (Z.div_unique_pos _ _ _ (k * 2 ^ 52 + m)); unfold u, sg; destruct s; lia. }
  unfold fdec. change (mant_bits F64) with 52. change (exp_bits F64) with 11.
  change (8 * fsize F64 - 1) with 63. rewrite H1, H2, H3, H4.
  rewrite (proj2 (Z.eqb_neq k _)), (proj2 (Z.eqb_neq k 0)) by lia.
  replace (m + 2 ^ 52) with (Z.pos p) by (unfold m; lia).
  f_equal; [by destruct s|]. unfold k. change (exp_min F64) with (-1074). lia.
Qed.

(** An integer of at most 53 bits survives the conversion to [double]. *)
Lemma via_double_exact t z : in_ctype t z → Z.abs z ≤ 2 ^ 53 → via_double t z = Ok z.
Proof.
  intros Ht Hz.
  assert (f_trunc F64 (fenc F64 (f_of_Z F64 z)) = Ok z) as E.
  { destruct (decide (Z.abs z = 2 ^ 53)) as [Hb|Hb].
    { assert (z = 2 ^ 53 ∨ z = - 2 ^ 53) as [-> | ->] by lia; by vm_compute. }
    assert (∀ p, Z.pos p < 2 ^ 53 →
      f_trunc F64 (fenc F64 (f_of_Z F64 (Z.pos p))) = Ok (Z.pos p) ∧
      f_trunc F64 (fenc F64 (f_of_Z F64 (Z.neg p))) = Ok (Z.neg p)) as Hp.
    { intros p Hp. destruct (f_of_Z_pos p Hp) as (m & e & -> & -> & Hn & He & Hm).
      unfold f_trunc. rewrite !fdec_fenc_normal by (done || lia).
      assert (0 < 2 ^ (- e)) by (apply Z.pow_pos_nonneg; lia).
      destruct (Z.leb_spec 0 e).
      - assert (e = 0) as -> by lia. simpl in Hm. split; f_equal; lia.
      - rewrite <- !(Pos2Z.opp_pos m), Hm. rewrite Z.quot_opp_l, !Z.quot_mul by lia. done. }
    destruct z as [|p|p]; [done|apply Hp; lia|apply Hp; lia]. }
  unfold via_double, in_range. rewrite E. unfold mbind; simpl.
  by rewrite (proj2 (fits_spec t z) Ht).
Qed.

(** ** Quotients *)

(** A positive integer as significand and exponent. *)
Lemma f_of_Z_repr z : 0 < z ≤ 2 ^ 53 →
  ∃ m e, f_of_Z F64 z = S754_finite false m e ∧ normal (Z.pos m) ∧ -52 ≤ e ≤ 1 ∧
         z * 2 ^ 52 = Z.pos m * 2 ^ (e + 52).
Proof.
  intros Hz. destruct (decide (z = 2 ^ 53)) as [->|Hne].
  { exists 4503599627370496%positive, 1. split_and!; try done; unfold normal; lia. }
  destruct z as [|p|p]; try lia.
  destruct (f_of_Z_pos p) as (m & e & Em & _ & Hn & He & Hm); [lia|].
  exists m, e. split_and!; try done; try lia.
  rewrite Hm, <- Z.mul_assoc, <- Z.pow_add_r by lia. do 2 f_equal. lia.
Qed.

Lemma exponent_lt m1 e1 m2 e2 a b :
  normal m1 → normal m2 → -52 ≤ e1 → -52 ≤ e2 → a < b →
  a * 2 ^ 52 = m1 * 2 ^ (e1 + 52) → b * 2 ^ 52 = m2 * 2 ^ (e2 + 52) →
  e1 < e2 ∨ e1 = e2 ∧ m1 < m2.
Proof.
  intros H1 H2 He1 He2 Hab Ea Eb. unfold normal in *.
  assert (0 < 2 ^ (e1 + 52) ∧ 0 < 2 ^ (e2 + 52)) as [P1 P2]
    by (split; apply Z.pow_pos_nonneg; lia).
  destruct (Z.lt_trichotomy e1 e2) as [|[->|Hgt]]; [by left|right; split; [done|nia]|exfalso].
  assert (2 ^ (e1 + 52) = 2 ^ (e1 - e2) * 2 ^ (e2 + 52)) as Hp
    by (rewrite <- Z.pow_add_r by lia; f_equal; lia).
  assert (2 ≤ 2 ^ (e1 - e2)) by (apply (Z.pow_le_mono_r 2 1); lia).
  assert (2 * 2 ^ (e2 + 52) ≤ 2 ^ (e1 + 52)) by nia. nia.
Qed.

Lemma div_core m1 e1 m2 e2 : normal (Z.pos m1) → normal (Z.pos m2) → -60 ≤ e1 - e2 ≤ 60 →
  SFdiv_core_binary 53 1024 (Z.pos m1) e1 (Z.pos m2) e2 =
    (Z.pos m1 * 2 ^ 53 / Z.pos m2, e1 - e2 - 53,
     new_location (Z.pos m2) (Z.pos m1 * 2 ^ 53 mod Z.pos m2)).
Proof.
  intros H1 H2 He. unfold SFdiv_core_binary.
  rewrite (digits_eq (Z.pos m1) 53), (digits_eq (Z.pos m2) 53) by (unfold normal in *; lia).
  cbv zeta. rewrite fexp64 by lia.
  replace (Z.min (53 + e1 - (53 + e2) - 53) (e1 - e2)) with (e1 - e2 - 53) by lia.
  replace (e1 - e2 - (e1 - e2 - 53)) with 53 by lia.
  rewrite Z.shiftl_mul_pow2 by lia. unfold Z.div, Z.modulo.
  by destruct (Z.div_eucl (Z.pos m1 * 2 ^ 53) (Z.pos m2)).
Qed.

Lemma sfdiv_ratio a b m1 e1 m2 e2 :
  0 < a → a ≤ b → normal (Z.pos m1) → normal (Z.pos m2) → -52 ≤ e1 ≤ 1 → -52 ≤ e2 ≤ 1 →
  a * 2 ^ 52 = Z.pos m1 * 2 ^ (e1 + 52) → b * 2 ^ 52 = Z.pos m2 * 2 ^ (e2 + 52) →
  ∃ p e, SFdiv 53 1024 (S754_finite false m1 e1) (S754_finite false m2 e2) = S754_finite false p e ∧
         normal (Z.pos p) ∧ -120 ≤ e ≤ 100 ∧ (a < b → e ≤ -53).
Proof.
  intros Ha Hab H1 H2 He1 He2 Ea Eb. unfold SFdiv. rewrite div_core by (done || lia). simpl xorb.
  set (q := Z.pos m1 * 2 ^ 53 / Z.pos m2). set (l := new_location _ _).
  pose proof (Z.div_mod (Z.pos m1 * 2 ^ 53) (Z.pos m2) ltac:(lia)) as Hdm. fold q in Hdm.
  pose proof (Z.mod_pos_bound (Z.pos m1 * 2 ^ 53) (Z.pos m2) ltac:(lia)) as Hrem.
  set (r := _ mod _) in *. unfold normal in H1, H2.
  assert (2 ^ 52 ≤ q < 2 ^ 54) as Hq by nia.
  destruct (round_aux_exponent false q (e1 - e2 - 53) l Hq) as (p & e & -> & Hp & B0 & B1 & B2 & B3); [lia|].
  exists p, e. split_and!; try done; try lia. intros Hlt.
  destruct (exponent_lt (Z.pos m1) e1 (Z.pos m2) e2 a b) as [Hlt'|[-> Hm]]; 
    [exact H1|exact H2|lia|lia|exact Hlt|exact Ea|exact Eb| |].
  - destruct (decide (e1 = e2 - 1)) as [->|Hne]; [|lia].
    assert (q < 2 ^ 54 - 2 ∨ q = 2 ^ 54 - 2 ∧ r = 0) as [Hs|[Hs Hr]] by nia.
    + specialize (B3 (or_introl Hs)). lia.
    + assert (l = loc_Exact) as Hl by (unfold l, new_location, new_location_even, new_location_odd;
        rewrite Hr; by case_match).
      specialize (B3 (or_intror (conj Hs Hl))). lia.
  - assert (q < 2 ^ 53 - 1) as Hs by nia. specialize (B1 Hs). lia.
Qed.

Lemma sfdiv_same m e : normal (Z.pos m) → -1000 ≤ e ≤ 900 →
  SFdiv 53 1024 (S754_finite false m e) (S754_finite false m e) = SFone 53 1024.
Proof.
  intros Hm He. unfold SFdiv. rewrite div_core by (done || lia). simpl xorb.
  rewrite (Z.mul_comm (Z.pos m)), Z.div_mul, Z.mod_mul by lia.
  assert (new_location (Z.pos m) 0 = loc_Exact) as ->
    by (unfold new_location, new_location_even, new_location_odd; by case_match).
  rewrite Z.sub_diag. by vm_compute.
Qed.

Definition f_one : Z := nlit (NFlt F64) 1.

(** The ratio of two integers of at most 53 bits: a normal number, below
    [1.0] unless they are equal. *)
Lemma ratio_dec a b : 0 < a → a ≤ b → b ≤ 2 ^ 53 →
  ∃ p e, fdec F64 (fdiv F64 (nlit (NFlt F64) a) (nlit (NFlt F64) b)) = S754_finite false p e ∧
    normal (Z.pos p) ∧ -120 ≤ e ∧ if a =? b then Z.pos p = 2 ^ 52 ∧ e = -52 else e ≤ -53.
Proof.
  intros Ha Hab Hb.
  destruct (f_of_Z_repr a) as (m1 & e1 & E1 & N1 & L1 & V1); [lia|].
  destruct (f_of_Z_repr b) as (m2 & e2 & E2 & N2 & L2 & V2); [lia|].
  destruct (sfdiv_ratio a b m1 e1 m2 e2) as (p & e & Ed & Hp & He & Hlt); try done.
  exists p, e. split_and!; [|done|lia|].
  - unfold fdiv, nlit. rewrite E1, E2, !fdec_fenc_normal by (done || lia).
    simpl prec. simpl emax. rewrite Ed. apply fdec_fenc_normal; [done|lia].
  - destruct (Z.eqb_spec a b) as [->|Hne]; [|lia].
    rewrite E1 in E2. injection E2 as <- <-. rewrite sfdiv_same in Ed by (done || lia).
    by injection Ed as <- <-.
Qed.

Lemma ratio_spec a b : 0 < a → a ≤ b → b ≤ 2 ^ 53 →
  let r := fdiv F64 (nlit (NFlt F64) a) (nlit (NFlt F64) b) in
  feq F64 r f_one = (a =? b) ∧ flt F64 0 r = true ∧ is_nan F64 r = false.
Proof.
  intros Ha Hab Hb r. destruct (ratio_dec a b Ha Hab Hb) as (p & e & Er & Hp & _ & He). fold r in Er.
  unfold feq, flt, is_nan. rewrite Er. split_and!; try done.
  assert (fdec F64 f_one = S754_finite false 4503599627370496 (-52)) as -> by (by vm_compute).
  destruct (Z.eqb_spec a b) as [->|Hne].
  - destruct He as [He ->]. by assert (p = 4503599627370496%positive) as -> by lia.
  - unfold SFeqb, SFcompare. rewrite (proj2 (Z.compare_lt_iff e (-52))) by lia. done.
Qed.

(** [floor] of an integer of at most 53 bits is the integer. *)
Lemma n_floor_exact t v : 0 ≤ v ≤ 2 ^ 53 → n_floor_u64 (NInt t) v = Ok v.
Proof.
  intros Hv. assert (f_floor F64 (fenc F64 (f_of_Z F64 v)) = Ok v) as E.
  { destruct (decide (v = 2 ^ 53)) as [->|Hne]; [by vm_compute|].
    destruct v as [|p|p]; [done| |lia].
    destruct (f_of_Z_pos p) as (m & e & -> & _ & Hn & He & Hm); [lia|].
    unfold f_floor. rewrite fdec_fenc_normal by (done || lia).
    destruct (Z.leb_spec 0 e).
    - assert (e = 0) as -> by lia. simpl in Hm. f_equal. lia.
    - rewrite Hm, Z.div_mul; [done|]. pose proof (Z.pow_pos_nonneg 2 (- e)). lia. }
  unfold n_floor_u64, in_range. rewrite E. unfold mbind; simpl.
  rewrite (proj2 (fits_spec U64 v)); [done|]. unfold_ctype. simpl. lia.
Qed.

(** ** Products of ratios

    The product of two [double] values in the interval [(0, 1]] is in
    [[0, 1]], and it is [1.0] only when both are. *)

(** ** Shifting *)

Lemma shr_1_m mrs : 0 ≤ shr_m mrs → shr_m (shr_1 mrs) = shr_m mrs / 2.
Proof.
  intros Hm. destruct mrs as [m r s]. simpl in *. rewrite <- Z.div2_div.
  destruct m as [|[p|p|]|p]; try done; lia.
Qed.

Lemma iter_shr_m p : ∀ mrs, 0 ≤ shr_m mrs → shr_m (SpecFloat.iter_pos shr_1 p mrs) = shr_m mrs / 2 ^ Z.pos p.
Proof.
  assert (∀ x k, 0 ≤ x → 0 ≤ x / 2 ^ Z.pos k) as Hp.
  { intros x k Hx. apply Z.div_pos; [done|]. by apply Z.pow_pos_nonneg. }
  induction p as [p IH|p IH|]; intros mrs Hm; cbn [SpecFloat.iter_pos].
  - assert (0 ≤ shr_m (shr_1 mrs)) as H1 by (rewrite shr_1_m by done; apply Z.div_pos; lia).
    rewrite IH by (rewrite IH by done; by apply Hp). rewrite IH, shr_1_m by done.
    rewrite !Z.div_div by (try apply Z.pow_nonzero; try apply Z.pow_pos_nonneg; lia).
    f_equal. rewrite <- Z.pow_add_r by lia. change 2 with (2 ^ 1) at 1. rewrite <- Z.pow_add_r by lia. f_equal. lia.
  - rewrite IH by (rewrite IH by done; by apply Hp). rewrite IH by done.
    rewrite !Z.div_div by (try apply Z.pow_nonzero; try apply Z.pow_pos_nonneg; lia).
    f_equal. rewrite <- Z.pow_add_r by lia. f_equal. lia.
  - by apply shr_1_m.
Qed.

(** Shifting out zeros is exact. *)
Lemma shr_1_even q : 0 ≤ q → shr_1 (Build_shr_record (2 * q) false false) = Build_shr_record q false false.
Proof. by destruct q. Qed.

Lemma iter_shr_exact p : ∀ q, 0 ≤ q →
  SpecFloat.iter_pos shr_1 p (Build_shr_record (q * 2 ^ Z.pos p) false false) = Build_shr_record q false false.
Proof.
  induction p as [p IH|p IH|]; intros q Hq; cbn [SpecFloat.iter_pos].
  - replace (q * 2 ^ Z.pos p~1) with (2 * ((q * 2 ^ Z.pos p) * 2 ^ Z.pos p)).
    + pose proof (Z.pow_pos_nonneg 2 (Z.pos p)). rewrite shr_1_even by nia. rewrite !IH by nia. done.
    + rewrite <- Z.mul_assoc, <- Z.pow_add_r by lia. replace (Z.pos p~1) with (1 + (Z.pos p + Z.pos p)) by lia.
      rewrite (Z.pow_add_r 2 1) by lia. lia.
  - replace (q * 2 ^ Z.pos p~0) with ((q * 2 ^ Z.pos p) * 2 ^ Z.pos p).
    + pose proof (Z.pow_pos_nonneg 2 (Z.pos p)). rewrite !IH by nia. done.
    + rewrite <- Z.mul_assoc, <- Z.pow_add_r by lia. do 2 f_equal. lia.
  - rewrite Z.mul_comm. by apply shr_1_even.
Qed.

Definition target (P e : Z) : Z := Z.max (Zdigits2 P + e - 53) (-1074).

(** Rounding a significand that is longer than 53 bits. *)
Lemma round_aux_long P e : 0 < P → 0 < target P e - e →
  ∃ l, binary_round_aux 53 1024 false P e loc_Exact =
    finish false (round_nearest_even (P / 2 ^ (target P e - e)) l) (target P e) ∧
    (∀ q, P = q * 2 ^ (target P e - e) → l = loc_Exact).
Proof.
  intros HP Hn. set (n := target P e - e) in *.
  assert (shr_fexp 53 1024 P e loc_Exact = shr (Build_shr_record P false false) e n) as E by done.
  destruct n as [|p|p] eqn:En; try lia. cbn [shr] in E.
  exists (loc_of_shr_record (SpecFloat.iter_pos shr_1 p (Build_shr_record P false false))).
  rewrite (round_aux_finish _ _ _ _ _ _ E), iter_shr_m by (simpl; lia). cbn [shr_m].
  replace (e + Z.pos p) with (target P e) by lia. split; [done|].
  intros q ->. rewrite iter_shr_exact; [done|]. pose proof (Z.pow_pos_nonneg 2 (Z.pos p)). nia.
Qed.

(** The last step when the exponent is the smallest one, or the significand
    is normal. *)
Lemma finish_general m E : 0 ≤ m ≤ 2 ^ 53 → -1074 ≤ E ≤ 900 → E = -1074 ∨ 2 ^ 52 ≤ m →
  finish false m E =
    if m =? 0 then S754_zero false
    else if m =? 2 ^ 53 then S754_finite false 4503599627370496 (E + 1)
    else S754_finite false (Z.to_pos m) E.
Proof.
  intros Hm HE Hc. destruct (Z.eqb_spec m (2 ^ 53)) as [->|Hne]; [by rewrite finish_54 by lia|].
  destruct (Z.eqb_spec m 0) as [->|Hz].
  - destruct Hc as [->|?]; [by vm_compute|lia].
  - destruct m as [|p|p]; try lia. cbn [Z.to_pos].
    destruct (Z.le_gt_cases (2 ^ 52) (Z.pos p)) as [Hn|Hs]; [by apply finish_53; unfold normal; lia|].
    assert (E = -1074) as -> by lia. unfold finish, shr_fexp.
    assert (Zdigits2 (Z.pos p) ≤ 52) as Hd.
    { simpl. rewrite digits2_log. pose proof (Z.log2_lt_pow2 (Z.pos p) 52). lia. }
    unfold fexp, emin. replace (Z.max _ _ - -1074) with 0 by lia. done.
Qed.

(** ** Values in the interval from 0 to 1 *)

(** The significand and exponent of a [double] in [(0, 1]]. *)
Definition unit_me (m e : Z) : Prop :=
  (normal m ∧ -1074 ≤ e ∨ 0 < m < 2 ^ 52 ∧ e = -1074) ∧ (e ≤ -53 ∨ e = -52 ∧ m = 2 ^ 52).

Definition one_me (m e : Z) : Prop := e = -52 ∧ m = 2 ^ 52.

Lemma digits_bounds m : 0 < m → 2 ^ (Zdigits2 m - 1) ≤ m < 2 ^ Zdigits2 m ∧ 0 < Zdigits2 m.
Proof.
  intros Hm. destruct m as [|p|p]; try lia. cbn [Zdigits2]. rewrite digits2_log.
  pose proof (Z.log2_spec (Z.pos p) ltac:(lia)). pose proof (Z.log2_nonneg (Z.pos p)).
  replace (Z.log2 (Z.pos p) + 1 - 1) with (Z.log2 (Z.pos p)) by lia. done || (split; [done|lia]).
Qed.

Lemma digits_le m k : 0 < m → 0 ≤ k → m < 2 ^ k → Zdigits2 m ≤ k.
Proof.
  intros Hm Hk Hlt. destruct (digits_bounds m Hm) as [[H1 _] H2].
  destruct (Z.le_gt_cases (Zdigits2 m) k); [done|].
  pose proof (Z.pow_le_mono_r 2 k (Zdigits2 m - 1)). lia.
Qed.

Lemma digits_ge m k : 0 < k → 2 ^ (k - 1) ≤ m → k ≤ Zdigits2 m.
Proof.
  intros Hk Hle. pose proof (Z.pow_pos_nonneg 2 (k - 1)).
  destruct (digits_bounds m ltac:(lia)) as [[_ H1] H2].
  destruct (Z.le_gt_cases k (Zdigits2 m)); [done|].
  pose proof (Z.pow_le_mono_r 2 (Zdigits2 m) (k - 1)). lia.
Qed.

(** The shifted significand: at most 53 bits, and exactly 53 unless the
    exponent is the smallest one. *)
Lemma target_quotient P e : 0 < P → 0 < target P e - e →
  let q := P / 2 ^ (target P e - e) in
  0 ≤ q < 2 ^ 53 ∧ (target P e = -1074 ∨ 2 ^ 52 ≤ q).
Proof.
  intros HP Hn q. destruct (digits_bounds P HP) as [[H1 H2] H3].
  set (n := target P e - e) in *. assert (0 < 2 ^ n) as Hp by (apply Z.pow_pos_nonneg; lia).
  unfold target in n. split.
  - split; [apply Z.div_pos; lia|]. apply Z.div_lt_upper_bound; [done|].
    rewrite <- Z.pow_add_r by lia. pose proof (Z.pow_le_mono_r 2 (Zdigits2 P) (n + 53)). lia.
  - destruct (Z.le_gt_cases (Zdigits2 P + e - 53) (-1074)) as [?|Hgt]; [left; unfold target; lia|right].
    apply Z.div_le_lower_bound; [done|]. rewrite <- Z.pow_add_r by lia.
    replace (n + 52) with (Zdigits2 P - 1) by lia. done.
Qed.

Lemma digits_shift m k : 0 < m → 0 ≤ k → Zdigits2 (m * 2 ^ k) = Zdigits2 m + k.
Proof.
  intros Hm Hk. destruct (digits_bounds m Hm) as [[H1 H2] H3].
  assert (0 < 2 ^ k) by (apply Z.pow_pos_nonneg; lia). apply digits_eq; [lia|].
  replace (Zdigits2 m + k - 1) with (Zdigits2 m - 1 + k) by lia. rewrite !Z.pow_add_r by lia. nia.
Qed.

Lemma unit_digits m e : unit_me m e → 0 < m < 2 ^ 53 ∧ -1074 ≤ e ≤ -52 ∧ Z.max (Zdigits2 m + e - 53) (-1074) = e.
Proof.
  unfold unit_me, normal. intros [[[Hm He]|[Hm He]] Hu].
  - rewrite (digits_eq m 53) by lia. lia.
  - pose proof (digits_le m 52 ltac:(lia) ltac:(lia) ltac:(lia)). lia.
Qed.

(** Multiplication by [1.0] is exact. *)
Lemma mul_one p e : unit_me (Z.pos p) e →
  binary_round_aux 53 1024 false (Z.pos p * 2 ^ 52) (e - 52) loc_Exact = S754_finite false p e.
Proof.
  intros Hu. destruct (unit_digits _ _ Hu) as (Hm & He & Ht).
  assert (target (Z.pos p * 2 ^ 52) (e - 52) = e) as HT.
  { unfold target. rewrite digits_shift by lia. lia. }
  destruct (round_aux_long (Z.pos p * 2 ^ 52) (e - 52)) as (l & -> & Hl); [lia..|].
  rewrite HT in *. replace (e - (e - 52)) with 52 in * by lia.
  rewrite (Hl (Z.pos p) eq_refl), Z.div_mul by lia. cbn [round_nearest_even].
  rewrite finish_general; [|lia|lia|].
  - rewrite !(proj2 (Z.eqb_neq _ _)) by lia. done.
  - destruct Hu as [[[Hn _]|[_ ->]] _]; [right; unfold normal in Hn; lia|by left].
Qed.

(** The product of two numbers below [1.0] is below [1.0]. *)
Lemma mul_below m1 e1 m2 e2 : unit_me m1 e1 → unit_me m2 e2 → e1 ≤ -53 → e2 ≤ -53 →
  binary_round_aux 53 1024 false (m1 * m2) (e1 + e2) loc_Exact = S754_zero false ∨
  ∃ m e, binary_round_aux 53 1024 false (m1 * m2) (e1 + e2) loc_Exact = S754_finite false m e ∧
    unit_me (Z.pos m) e ∧ e ≤ -53.
Proof.
  intros U1 U2 L1 L2. destruct (unit_digits _ _ U1) as (B1 & E1 & _). destruct (unit_digits _ _ U2) as (B2 & E2 & _).
  assert (0 < m1 * m2) as HP by nia. assert (m1 * m2 ≤ (2 ^ 53 - 1) * (2 ^ 53 - 1)) as HP2 by nia.
  pose proof (digits_le (m1 * m2) 106 HP ltac:(lia) ltac:(lia)) as Hd.
  assert (0 < target (m1 * m2) (e1 + e2) - (e1 + e2)) as Hn.
  { unfold target. destruct U1 as [[[N1 _]|[_ ->]] _]; [|lia]. destruct U2 as [[[N2 _]|[_ ->]] _]; [|lia].
    unfold normal in *. pose proof (digits_ge (m1 * m2) 105 ltac:(lia) ltac:(nia)). lia. }
  destruct (round_aux_long _ _ HP Hn) as (l & -> & _). destruct (target_quotient _ _ HP Hn) as [Hq Hq'].
  assert (-1074 ≤ target (m1 * m2) (e1 + e2) ≤ -53) as HT by (unfold target; lia).
  assert (target (m1 * m2) (e1 + e2) = -53 → m1 * m2 / 2 ^ (target (m1 * m2) (e1 + e2) - (e1 + e2)) ≤ 2 ^ 53 - 2) as H53.
  { intros HT'. rewrite HT'. assert (e1 + e2 = -106) as -> by (unfold target in HT'; lia).
    apply Z.lt_succ_r, Z.div_lt_upper_bound; lia. }
  set (T := target _ _) in *. set (q := _ / _) in *. pose proof (round_bound q l) as Hr.
  rewrite finish_general by lia. set (q' := round_nearest_even q l) in *.
  destruct (Z.eqb_spec q' 0); [by left|right]. destruct (Z.eqb_spec q' (2 ^ 53)) as [Eq|Ne].
  - exists 4503599627370496%positive, (T + 1). split_and!; [done| |lia].
    unfold unit_me, normal. lia.
  - exists (Z.to_pos q'), T. split_and!; [done| |lia]. rewrite Z2Pos.id by lia. unfold unit_me, normal. lia.
Qed.

Definition unit_float (x : spec_float) : Prop :=
  ∃ p e, x = S754_finite false p e ∧ unit_me (Z.pos p) e.

Definition sf_one : spec_float := S754_finite false 4503599627370496 (-52).

Lemma mul_unit x y : unit_float x → unit_float y →
  (SFmul 53 1024 x y = S754_zero false ∧ x ≠ sf_one ∧ y ≠ sf_one) ∨
  (unit_float (SFmul 53 1024 x y) ∧ (SFmul 53 1024 x y = sf_one ↔ x = sf_one ∧ y = sf_one)).
Proof.
  intros (p1 & e1 & -> & U1) (p2 & e2 & -> & U2). unfold SFmul. cbn [xorb]. rewrite Pos2Z.inj_mul.
  destruct U1 as [C1 [L1|[-> M1]]].
  - destruct U2 as [C2 [L2|[-> M2]]].
    + destruct (mul_below _ _ _ _ (conj C1 (or_introl L1)) (conj C2 (or_introl L2)) L1 L2)
        as [->|(m & e & -> & Um & Le)]; [left|right]; split_and!; try done.
      * intros [= _ ->]. lia.
      * intros [= _ ->]. lia.
      * by exists m, e.
      * split; [intros [= _ ->]; lia|]. intros [[= _ ->] _]. lia.
    + right. rewrite M2. pose proof (mul_one p1 e1 (conj C1 (or_introl L1))) as Em.
      replace (e1 + -52) with (e1 - 52) by lia. rewrite Em.
      split; [by exists p1, e1; split; [|split; [|left]]|].
      assert (p2 = 4503599627370496%positive) as -> by lia. split; [by split|by intros [? _]].
  - right. rewrite M1, Z.mul_comm. pose proof (mul_one p2 e2 U2) as Em.
    replace (-52 + e2) with (e2 - 52) by lia. rewrite Em. split; [by exists p2, e2|].
    assert (p1 = 4503599627370496%positive) as -> by lia. split; [by split|by intros [_ ?]].
Qed.

(** ** The representation *)

Lemma fdec_fenc_small p : Z.pos p < 2 ^ 52 →
  fdec F64 (fenc F64 (S754_finite false p (-1074))) = S754_finite false p (-1074).
Proof.
  intros Hp. unfold fenc. change (mant_bits F64) with 52. rewrite (proj2 (Z.ltb_lt _ _)), Z.add_0_l by lia.
  unfold fdec. change (mant_bits F64) with 52. change (exp_bits F64) with 11. change (8 * fsize F64 - 1) with 63.
  rewrite (Z.mod_small (Z.pos p)), !(Z.div_small (Z.pos p)) by lia. done.
Qed.

Lemma fdec_fenc_unit x : unit_float x → fdec F64 (fenc F64 x) = x.
Proof.
  intros (p & e & -> & [[[Hn He]|[Hs ->]] Hu]); [apply fdec_fenc_normal; [done|lia]|].
  apply fdec_fenc_small. lia.
Qed.

(** A [double] in [(0, 1]]. *)
Definition unit64 (r : Z) : Prop := unit_float (fdec F64 r).

Lemma fdec_one : fdec F64 f_one = sf_one.
Proof. by vm_compute. Qed.

Lemma unit64_one : unit64 f_one.
Proof.
  unfold unit64. rewrite fdec_one. exists 4503599627370496%positive, (-52).
  split; [done|]. unfold unit_me, normal. lia.
Qed.

Lemma compare_cont_eq p q : Pos.compare_cont Eq p q = (p ?= q)%positive.
Proof. done. Qed.

Lemma unit64_feq_one r : unit64 r → feq F64 r f_one = true ↔ fdec F64 r = sf_one.
Proof.
  intros (p & e & E & _). unfold feq, SFeqb. rewrite fdec_one, E. cbn [SFcompare sf_one].
  destruct (Z.compare_spec e (-52)) as [->|H|H].
  - rewrite compare_cont_eq. destruct (Pos.compare_spec p 4503599627370496) as [->|H|H]; [done|..];
      (split; [done|]; intros [= ->]; lia).
  - split; [done|]. intros [= _ ->]. lia.
  - split; [done|]. intros [= _ ->]. lia.
Qed.

Lemma unit64_not_zero r : unit64 r → feq F64 r 0 = false ∧ flt F64 0 r = true.
Proof. intros (p & e & E & _). unfold feq, flt. by rewrite E. Qed.

(** The product of two of them, as the bit pattern. *)
Lemma fmul_unit r x : unit64 r → unit64 x →
  (feq F64 (fmul F64 r x) 0 = true ∧ feq F64 r f_one = false ∧ feq F64 x f_one = false) ∨
  (unit64 (fmul F64 r x) ∧
   (feq F64 (fmul F64 r x) f_one = true ↔ feq F64 r f_one = true ∧ feq F64 x f_one = true)).
Proof.
  intros Hr Hx. assert (∀ y, unit64 y → fdec F64 y ≠ sf_one → feq F64 y f_one = false) as Hne.
  { intros y Hy Hn. apply not_true_is_false. by rewrite unit64_feq_one. }
  unfold fmul. change (prec F64) with 53. change (emax F64) with 1024.
  destruct (mul_unit _ _ Hr Hx) as [(E & H1 & H2)|[Hu E]].
  - left. rewrite E. split_and!; [done|by apply Hne..].
  - right. assert (unit64 (fenc F64 (SFmul 53 1024 (fdec F64 r) (fdec F64 x)))) as Hu'.
    { unfold unit64. by rewrite fdec_fenc_unit. }
    split; [done|]. rewrite !unit64_feq_one, fdec_fenc_unit by done. done.
Qed.

(** The ratio of two integers of at most 53 bits. *)
Lemma ratio_unit a b : 0 < a → a ≤ b → b ≤ 2 ^ 53 →
  unit64 (fdiv F64 (nlit (NFlt F64) a) (nlit (NFlt F64) b)).
Proof.
  intros Ha Hab Hb. destruct (ratio_dec a b Ha Hab Hb) as (p & e & E & Hp & He & Hu).
  exists p, e. split; [done|]. split; [left; split; [done|lia]|].
  destruct (a =? b); [right|left]; lia.
Qed.

(** ** Sums of [double] that are not negative

    Rounding to nearest never passes an integer of at most 53 bits, so what
    is bounded by integers before a sum is rounded is bounded after it. *)

(** The significand and exponent of a [double] that is not 0. *)
Definition canon (m e : Z) : Prop := normal m ∧ -1074 ≤ e ≤ 971 ∨ 0 < m < 2 ^ 52 ∧ e = -1074.

(** [x] is not negative and at most [k]. *)
Definition sf_le (x : spec_float) (k : Z) : Prop :=
  x = S754_zero false ∨ ∃ p e, x = S754_finite false p e ∧ canon (Z.pos p) e ∧ e ≤ 0 ∧ Z.pos p ≤ k * 2 ^ (- e).

Lemma finish_le m E k : 0 ≤ m ≤ 2 ^ 53 → -1074 ≤ E ≤ 0 → E = -1074 ∨ 2 ^ 52 ≤ m → m ≤ k * 2 ^ (- E) → k < 2 ^ 53 →
  sf_le (finish false m E) k.
Proof.
  intros Hm HE Hc Hk Hb. rewrite finish_general by (done || lia).
  destruct (Z.eqb_spec m 0) as [->|H0]; [by left|right]. destruct (Z.eqb_spec m (2 ^ 53)) as [->|Hne].
  - assert (E ≠ 0) as HE0 by (intros ->; simpl in Hk; lia). exists 4503599627370496%positive, (E + 1). split_and!; try done; try lia.
    + left. unfold normal. lia.
    + replace (- E) with (Z.succ (- (E + 1))) in Hk by lia. rewrite Z.pow_succ_r in Hk by lia. lia.
  - exists (Z.to_pos m), E. rewrite Z2Pos.id by lia. split_and!; try done; try lia. unfold canon, normal. lia.
Qed.

Lemma target_le P e k : 0 < P → e ≤ 0 → P ≤ k * 2 ^ (- e) → k < 2 ^ 53 → e ≤ target P e → -1074 ≤ target P e ≤ 0.
Proof.
  intros HP He Hk Hb Ht. assert (0 < 2 ^ (- e)) by (apply Z.pow_pos_nonneg; lia).
  assert (Zdigits2 P ≤ 53 - e); [|unfold target in *; lia].
  apply digits_le; [done|lia|]. replace (53 - e) with (53 + - e) by lia. rewrite Z.pow_add_r by lia. nia.
Qed.

Lemma round_le P e k : 0 < P → e ≤ 0 → P ≤ k * 2 ^ (- e) → k < 2 ^ 53 → e ≤ target P e →
  sf_le (binary_round_aux 53 1024 false P e loc_Exact) k.
Proof.
  intros HP He Hk Hb Ht. pose proof (target_le P e k HP He Hk Hb Ht) as HT. destruct (decide (target P e = e)) as [E|Hne].
  - assert (shr_fexp 53 1024 P e loc_Exact = (shr_record_of_loc P loc_Exact, e)) as Es.
    { unfold shr_fexp. change (fexp 53 1024 (Zdigits2 P + e)) with (target P e). by rewrite E, Z.sub_diag. }
    rewrite (round_aux_finish _ _ _ _ _ _ Es), loc_of_shr, shr_m_of. cbn [round_nearest_even].
    destruct (digits_bounds P HP) as [[H1 H2] H3].
    assert (Zdigits2 P ≤ 53) as Hd by (unfold target in E; lia). pose proof (Z.pow_le_mono_r 2 (Zdigits2 P) 53 ltac:(lia) Hd).
    apply finish_le; try done; try lia. destruct (decide (e = -1074)) as [->|Hx]; [by left|right].
    replace 52 with (Zdigits2 P - 1) by (unfold target in E; lia). done.
  - destruct (round_aux_long P e HP ltac:(lia)) as (l & -> & Hl). destruct (target_quotient P e HP ltac:(lia)) as [Hq Hq'].
    set (n := target P e - e) in *. assert (0 < 2 ^ n) as Hn by (apply Z.pow_pos_nonneg; lia).
    pose proof (Z.div_mod P (2 ^ n) ltac:(lia)) as Hdm. pose proof (Z.mod_pos_bound P (2 ^ n) Hn) as Hmb.
    set (q := P / 2 ^ n) in *. pose proof (round_bound q l) as Hr.
    assert (2 ^ (- e) = 2 ^ n * 2 ^ (- target P e)) as Ep by (rewrite <- Z.pow_add_r by lia; f_equal; lia).
    rewrite Ep in Hk. set (c := 2 ^ (- target P e)) in *.
    apply finish_le; try lia. fold c. destruct (decide (P mod 2 ^ n = 0)) as [Ez|Hz].
    + rewrite (Hl q) by lia. cbn [round_nearest_even]. nia.
    + assert (q < k * c) by nia. lia.
Qed.

Lemma normalize_le S e k : 0 ≤ S → -1074 ≤ e ≤ 0 → S ≤ k * 2 ^ (- e) → k < 2 ^ 53 →
  sf_le (binary_normalize 53 1024 S e false) k.
Proof.
  intros HS He Hk Hb. destruct S as [|S|S]; [by left| |lia]. cbn [binary_normalize]. unfold binary_round, shl_align.
  change (fexp 53 1024 (Z.pos (digits2_pos S) + e)) with (target (Z.pos S) e).
  destruct (target (Z.pos S) e - e) as [|d|d] eqn:Ed; try (apply round_le; try done; lia).
  assert (Z.pos (Pos.iter xO S d) = Z.pos S * 2 ^ Z.pos d) as Ei by apply iter_xO.
  rewrite Ei. assert (0 < 2 ^ Z.pos d) by (apply Z.pow_pos_nonneg; lia). apply round_le; try done; try lia.
  - replace (- target (Z.pos S) e) with (- e + Z.pos d) by lia. rewrite Z.pow_add_r by lia. nia.
  - unfold target at 2. rewrite digits_shift by lia. unfold target in *. lia.
Qed.

Lemma shl_align_value m e e' : e' ≤ e → Z.pos (fst (shl_align m e e')) = Z.pos m * 2 ^ (e - e').
Proof.
  intros He. unfold shl_align. destruct (e' - e) as [|d|d] eqn:Ed; [|lia|].
  - replace (e - e') with 0 by lia. simpl. lia.
  - simpl fst. rewrite iter_xO. by replace (e - e') with (Z.pos d) by lia.
Qed.

Lemma add_le x y a b : sf_le x a → sf_le y b → 0 ≤ a → 0 ≤ b → a + b < 2 ^ 53 → sf_le (SFadd 53 1024 x y) (a + b).
Proof.
  intros [->|(p & e & -> & C1 & L1 & V1)] [->|(q & f & -> & C2 & L2 & V2)] Ha Hb Hab; cbn [SFadd cond_Zopp].
  - by left.
  - right. exists q, f. split_and!; try done. assert (0 < 2 ^ (- f)) by (apply Z.pow_pos_nonneg; lia). nia.
  - right. exists p, e. split_and!; try done. assert (0 < 2 ^ (- e)) by (apply Z.pow_pos_nonneg; lia). nia.
  - apply normalize_le; [lia|unfold canon in *; lia| |done]. rewrite !shl_align_value by lia. set (g := Z.min e f).
    assert (2 ^ (- g) = 2 ^ (- e) * 2 ^ (e - g) ∧ 2 ^ (- g) = 2 ^ (- f) * 2 ^ (f - g)) as [E1 E2]
      by (rewrite <- !Z.pow_add_r by lia; split; f_equal; lia).
    rewrite Z.mul_add_distr_r. rewrite E1 at 1. rewrite E2.
    assert (0 < 2 ^ (e - g) ∧ 0 < 2 ^ (f - g)) as [? ?] by (split; apply Z.pow_pos_nonneg; lia). nia.
Qed.

Lemma mul_unit_le x y a : sf_le x a → y = S754_zero false ∨ unit_float y → 0 ≤ a < 2 ^ 53 → sf_le (SFmul 53 1024 x y) a.
Proof.
  intros [->|(p & e & -> & C1 & L1 & V1)] [->|(q & f & -> & U)] Ha; try (by left).
  destruct (unit_digits _ _ U) as (Bq & Ef & _). unfold SFmul. cbn [xorb]. rewrite Pos2Z.inj_mul.
  assert (Z.pos q ≤ 2 ^ (- f)) as Hq.
  { destruct U as [_ [Hf|[-> ->]]]; [|done]. pose proof (Z.pow_le_mono_r 2 53 (- f)). lia. }
  apply round_le; try lia.
  - replace (- (e + f)) with (- e + - f) by lia. rewrite Z.pow_add_r by lia. assert (0 < 2 ^ (- e)) by (apply Z.pow_pos_nonneg; lia). nia.
  - unfold target. destruct C1 as [[N1 H1]|[N1 ->]]; [|lia]. destruct U as [[[N2 H2]|[N2 ->]] _]; [|lia].
    unfold normal in *. pose proof (digits_ge (Z.pos p * Z.pos q) 105 ltac:(lia) ltac:(nia)). lia.
Qed.

(** The smaller of a bounded number and of a number that is not negative. *)
Lemma lt_le x y k : sf_le x k → 0 ≤ k → y = S754_zero false ∨ (∃ p e, y = S754_finite false p e ∧ canon (Z.pos p) e) →
  SFltb y x = true → sf_le y k.
Proof.
  intros Hx Hk0 [->|(p & e & -> & C)] Hlt; [by left|]. destruct Hx as [->|(q & f & -> & C' & L & V)]; [done|].
  right. exists p, e. unfold SFltb in Hlt. cbn [SFcompare] in Hlt.
  destruct (Z.compare_spec e f) as [->|Hef|Hef]; [| |done]; (split_and!; [done|done|lia|]).
  - rewrite compare_cont_eq in Hlt. destruct (Pos.compare_spec p q); [done| |done]. lia.
  - assert (Z.pos p < 2 ^ 53 ∧ 2 ^ 52 ≤ Z.pos q) as [? ?] by (unfold canon, normal in *; lia).
    replace (- e) with (- f + 1 + (f - e - 1)) by lia. rewrite !Z.pow_add_r by lia. assert (0 < 2 ^ (f - e - 1)) by (apply Z.pow_pos_nonneg; lia).
    assert (0 < 2 ^ (- f)) by (apply Z.pow_pos_nonneg; lia). change (2 ^ 1) with 2. nia.
Qed.

(** The same for bit patterns. *)
Definition d_le (x k : Z) : Prop := sf_le (fdec F64 x) k.

Lemma sf_le_mono x a b : sf_le x a → a ≤ b → sf_le x b.
Proof.
  intros [->|(p & e & -> & C & L & V)] Hab; [by left|right]. exists p, e. split_and!; try done.
  assert (0 < 2 ^ (- e)) by (apply Z.pow_pos_nonneg; lia). nia.
Qed.

Lemma fdec_fenc_canon p e : canon (Z.pos p) e → fdec F64 (fenc F64 (S754_finite false p e)) = S754_finite false p e.
Proof. intros [[Hn He]|[Hs ->]]; [by apply fdec_fenc_normal|apply fdec_fenc_small; lia]. Qed.

Lemma fdec_fenc_le x k : sf_le x k → fdec F64 (fenc F64 x) = x.
Proof. intros [->|(p & e & -> & C & _)]; [by vm_compute|by apply fdec_fenc_canon]. Qed.

Lemma d_le_zero k : d_le 0 k.
Proof. left. by vm_compute. Qed.

Lemma d_le_add x y a b : d_le x a → d_le y b → 0 ≤ a → 0 ≤ b → a + b < 2 ^ 53 → d_le (fadd F64 x y) (a + b).
Proof. intros Hx Hy Ha Hb Hab. pose proof (add_le _ _ a b Hx Hy Ha Hb Hab) as H. unfold d_le, fadd. change (prec F64) with 53. change (emax F64) with 1024. by rewrite (fdec_fenc_le _ _ H). Qed.

(** A [double] in [[0, 1]]. *)
Definition share64 (q : Z) : Prop := fdec F64 q = S754_zero false ∨ unit64 q.

Lemma d_le_mul x q a : d_le x a → share64 q → 0 ≤ a < 2 ^ 53 → d_le (fmul F64 x q) a.
Proof. intros Hx Hq Ha. pose proof (mul_unit_le _ _ a Hx Hq Ha) as H. unfold d_le, fmul. change (prec F64) with 53. change (emax F64) with 1024. by rewrite (fdec_fenc_le _ _ H). Qed.

Lemma f_of_Z_le z : 0 ≤ z < 2 ^ 53 → sf_le (f_of_Z F64 z) z.
Proof. intros Hz. unfold f_of_Z. change (prec F64) with 53. change (emax F64) with 1024. apply normalize_le; simpl; lia. Qed.

Lemma d_le_int z : 0 ≤ z < 2 ^ 53 → d_le (fenc F64 (f_of_Z F64 z)) z.
Proof. intros Hz. unfold d_le. rewrite (fdec_fenc_le _ z); by apply f_of_Z_le. Qed.

(** An integer of 64 bits. *)
Lemma f_of_Z_long z : 2 ^ 53 ≤ z < 2 ^ 64 → ∃ p e, f_of_Z F64 z = S754_finite false p e ∧ canon (Z.pos p) e.
Proof.
  intros Hz. unfold f_of_Z. change (prec F64) with 53. change (emax F64) with 1024. destruct z as [|z|z]; try lia.
  cbn [binary_normalize]. unfold binary_round, shl_align. change (fexp 53 1024 (Z.pos (digits2_pos z) + 0)) with (target (Z.pos z) 0).
  pose proof (digits_ge (Z.pos z) 54 ltac:(lia) ltac:(lia)). pose proof (digits_le (Z.pos z) 64 ltac:(lia) ltac:(lia) ltac:(lia)).
  assert (1 ≤ target (Z.pos z) 0 ≤ 11) as HT by (unfold target; lia).
  replace (match target (Z.pos z) 0 - 0 with Z.neg d => _ | _ => _ end) with (z, 0) by (by destruct (target (Z.pos z) 0 - 0) eqn:E; [| |lia]).
  destruct (round_aux_long (Z.pos z) 0 ltac:(lia) ltac:(lia)) as (l & -> & _). destruct (target_quotient (Z.pos z) 0 ltac:(lia) ltac:(lia)) as [Hq Hq'].
  set (q := _ / _) in *. pose proof (round_bound q l).
  destruct (finish_cases false (round_nearest_even q l) (target (Z.pos z) 0)) as (p & e & -> & Hp & F1 & F2); [lia|lia|].
  exists p, e. split; [done|]. left. split; [done|]. destruct (decide (round_nearest_even q l = 2 ^ 53)); lia.
Qed.

Lemma d_le_min x z k : d_le x k → 0 ≤ k → 0 ≤ z < 2 ^ 64 → flt F64 (fenc F64 (f_of_Z F64 z)) x = true → d_le (fenc F64 (f_of_Z F64 z)) k.
Proof.
  intros Hx Hk Hz. unfold flt, d_le.
  assert (f_of_Z F64 z = S754_zero false ∨ ∃ p e, f_of_Z F64 z = S754_finite false p e ∧ canon (Z.pos p) e) as H.
  { destruct (decide (z < 2 ^ 53)) as [Hs|Hs]; [|right; apply f_of_Z_long; lia].
    destruct (f_of_Z_le z ltac:(lia)) as [E|(p & e & E & C & _)]; [by left|right; by exists p, e]. }
  assert (fdec F64 (fenc F64 (f_of_Z F64 z)) = f_of_Z F64 z) as ->.
  { destruct H as [->|(p & e & -> & C)]; [by vm_compute|by apply fdec_fenc_canon]. }
  intros Hlt. by apply (lt_le (fdec F64 x)).
Qed.

(** Subtracting 1 from an integer is exact. *)
Lemma fsub_one z : 1 ≤ z ≤ 2 ^ 53 →
  f_trunc F64 (fsub F64 (fenc F64 (f_of_Z F64 z)) f_one) = Ok (z - 1).
Proof.
  intros Hz. destruct (f_of_Z_repr z) as (m & e & E & Hn & He & V); [lia|]. unfold fsub. rewrite fdec_one, E.
  rewrite fdec_fenc_normal by (done || lia). unfold sf_one, SFsub. change (prec F64) with 53. change (emax F64) with 1024.
  rewrite (Z.min_r e (-52)) by lia. cbn [cond_Zopp]. rewrite !shl_align_value by lia.
  replace (Z.pos m * 2 ^ (e - -52)) with (z * 2 ^ 52) by (replace (e - -52) with (e + 52) by lia; lia).
  replace (z * 2 ^ 52 - _) with ((z - 1) * 2 ^ 52) by (simpl; lia).
  assert (0 ≤ z - 1 < 2 ^ 53) as Hy by lia. revert Hy. generalize (z - 1). clear. intros z Hz.
  destruct (decide (z = 0)) as [->|H0]; [by vm_compute|]. assert (0 < z) as Hp by lia.
  destruct (digits_bounds z Hp) as [[H1 H2] H3]. pose proof (digits_le z 53 Hp ltac:(lia) ltac:(lia)) as Hd.
  pose proof (digits_shift z 52 Hp ltac:(lia)) as Hds. set (d := Zdigits2 z) in *.
  assert (target (z * 2 ^ 52) (-52) = d - 53) as HT by (unfold target; lia).
  destruct (z * 2 ^ 52) as [|P|P] eqn:EP; try lia. cbn [binary_normalize]. unfold binary_round, shl_align.
  change (fexp 53 1024 (Z.pos (digits2_pos P) + -52)) with (target (Z.pos P) (-52)). rewrite HT.
  replace (match d - 53 - -52 with Z.neg k => _ | _ => _ end) with (P, -52) by (by destruct (d - 53 - -52) eqn:Ed; [| |lia]).
  assert (0 < 2 ^ (53 - d)) by (apply Z.pow_pos_nonneg; lia).
  assert (z * 2 ^ (53 - d) < 2 ^ 53 ∧ 2 ^ 52 ≤ z * 2 ^ (53 - d)) as [Hu Hl].
  { split; [replace 53 with (d + (53 - d)) at 2 by lia|replace 52 with (d - 1 + (53 - d)) by lia]; rewrite Z.pow_add_r by lia; nia. }
  assert (binary_round_aux 53 1024 false (Z.pos P) (-52) loc_Exact = S754_finite false (Z.to_pos (z * 2 ^ (53 - d))) (d - 53)) as ->.
  { destruct (decide (d = 1)) as [E1|E1].
    - rewrite E1 in *. rewrite <- (Z2Pos.id (z * 2 ^ (53 - 1))) in * by lia. change (2 ^ (53 - 1)) with (2 ^ 52) in *.
      rewrite EP in *. rewrite round_aux_exact by (unfold normal; simpl in *; lia). done.
    - destruct (round_aux_long (Z.pos P) (-52) ltac:(lia) ltac:(lia)) as (l & -> & Hx). rewrite HT in *.
      assert (Z.pos P = z * 2 ^ (53 - d) * 2 ^ (d - 53 - -52)) as Eq by (rewrite <- EP, <- Z.mul_assoc, <- Z.pow_add_r by lia; do 2 f_equal; lia).
      rewrite (Hx _ Eq), Eq, Z.div_mul by (apply Z.pow_nonzero; lia). cbn [round_nearest_even].
      rewrite <- (Z2Pos.id (z * 2 ^ (53 - d))) at 1 by lia. rewrite finish_53; [done|rewrite Z2Pos.id by lia; unfold normal; lia|lia]. }
  unfold f_trunc. rewrite fdec_fenc_normal by (rewrite ?Z2Pos.id by lia; unfold normal; lia). rewrite Z2Pos.id by lia.
  destruct (Z.leb_spec 0 (d - 53)).
  - replace (d - 53) with 0 by lia. replace (53 - d) with 0 by lia. f_equal. simpl. lia.
  - replace (- (d - 53)) with (53 - d) by lia. by rewrite Z.quot_mul by lia.
Qed.
