(* ===== verification/Loops.v ===== *)
(** * Arrays and counted loops

    Array accesses that are undefined out of bounds, loops over index
    sequences that stop at the first failure, and the lemma that replaces
    such a loop by a fold over the elements it visits. *)

From S2P Require Import Prelude.
Local Open Scope Z_scope.

(** [a[i]], and [a[i] = v]. *)
Definition idx {A} (a : list A) (i : nat) : res A :=
  match a !! i with Some x => Ok x | None => UB end.

Definition upd {A} (a : list A) (i : nat) (v : A) : res (list A) :=
  if decide (i < length a)%nat then Ok (<[i:=v]> a) else UB.

(** [for (i : ixs) s = body(i, s)]. *)
Fixpoint for_each {I S} (ixs : list I) (body : I → S → res S) (s : S) : res S :=
  match ixs with [] => Ok s | i :: ixs => s' ← body i s; for_each ixs body s' end.

(** [for (i : ixs) if (test(i)) return true; return false]. *)
Fixpoint any_of {I} (ixs : list I) (test : I → res bool) : res bool :=
  match ixs with
  | [] => Ok false
  | i :: ixs => b ← test i; if b : bool then Ok true else any_of ixs test
  end.

(** [for (i : ixs) if (!test(i)) return false; return true]. *)
Fixpoint all_of {I} (ixs : list I) (test : I → res bool) : res bool :=
  match ixs with
  | [] => Ok true
  | i :: ixs => b ← test i; if b : bool then all_of ixs test else Ok false
  end.

(** The indices [0, ..., n - 1] of a loop that counts up, and the indices
    [n - 1, ..., 0] of one that counts down. *)
Definition up (n : Z) : list nat := seq 0 (Z.to_nat n).
Definition down (n : Z) : list nat := rev (seq 0 (Z.to_nat n)).

(** [parallel_for] and the loop over its statuses: all bodies run, and the
    first error is returned. *)
Fixpoint parallel_for {S : Type} (l : list (M S unit)) : M S unit := fun s =>
  match l with
  | [] => (Ok (), s)
  | m :: l =>
      match m s with
      | (Ok _, s) => parallel_for l s
      | (Err c e, s) =>
          match parallel_for l s with (UB, s) => (UB, s) | (_, s) => (Err c e, s) end
      | (UB, s) => (UB, s)
      end
  end.

Lemma idx_ok {A} (a : list A) i x : a !! i = Some x → idx a i = Ok x.
Proof. unfold idx. by intros ->. Qed.

Lemma idx_inv {A} (a : list A) i x : idx a i = Ok x → a !! i = Some x.
Proof. unfold idx. case_match; by intros [= ->]. Qed.

Lemma upd_ok {A} (a : list A) i v : (i < length a)%nat → upd a i v = Ok (<[i:=v]> a).
Proof. intros. unfold upd. by rewrite decide_True. Qed.

Lemma up_zlen {A} (l : list A) : up (zlen l) = seq 0 (length l).
Proof. unfold up, zlen. by rewrite Nat2Z.id. Qed.

Lemma for_each_app {I S} (l k : list I) (f : I → S → res S) s :
  for_each (l ++ k) f s = (s' ← for_each l f s; for_each k f s').
Proof.
  revert s. induction l as [|i l IH]; intros s; [done|]. simpl.
  destruct (f i s); [apply IH|done|done].
Qed.

(** A loop over the indices of a list is the loop over its elements. *)
Lemma for_each_seq {A S} (es : list A) (f : nat → S → res S) (g : A → S → res S) i0 s :
  (∀ k e s, es !! k = Some e → f (i0 + k)%nat s = g e s) →
  for_each (seq i0 (length es)) f s = for_each es g s.
Proof.
  revert i0 s. induction es as [|e es IH]; intros i0 s Hf; [done|]. simpl.
  rewrite <- (Hf 0%nat e s eq_refl), Nat.add_0_r. destruct (f i0 s); [|done..].
  apply IH. intros k e' s' Hk. rewrite Nat.add_succ_l, <- Nat.add_succ_r. by apply Hf.
Qed.

Lemma for_each_up {A S} (es : list A) (f : nat → S → res S) (g : A → S → res S) n s :
  n = zlen es → (∀ k e s, es !! k = Some e → f k s = g e s) →
  for_each (up n) f s = for_each es g s.
Proof. intros -> Hf. rewrite up_zlen. by apply for_each_seq. Qed.

Lemma for_each_rev_seq {A S} (es : list A) (f : nat → S → res S) (g : A → S → res S) i0 s :
  (∀ k e s, es !! k = Some e → f (i0 + k)%nat s = g e s) →
  for_each (rev (seq i0 (length es))) f s = for_each (rev es) g s.
Proof.
  revert i0 s. induction es as [|e es IH]; intros i0 s Hf; [done|]. simpl.
  rewrite !for_each_app. rewrite (IH (Datatypes.S i0)).
  - destruct (for_each (rev es) g s) as [s'| |]; [|done..]. unfold mbind. simpl.
    by rewrite <- (Hf 0%nat e s' eq_refl), Nat.add_0_r.
  - intros k e' s' Hk. rewrite Nat.add_succ_l, <- Nat.add_succ_r. by apply Hf.
Qed.

Lemma for_each_down {A S} (es : list A) (f : nat → S → res S) (g : A → S → res S) n s :
  n = zlen es → (∀ k e s, es !! k = Some e → f k s = g e s) →
  for_each (down n) f s = for_each (rev es) g s.
Proof. intros -> Hf. unfold down, zlen. rewrite Nat2Z.id. by apply for_each_rev_seq. Qed.

(** A loop whose body succeeds on every element. *)
Lemma for_each_ok {A S} (es : list A) (g : A → S → res S) (h : A → S → S) s :
  (∀ e s, e ∈ es → g e s = Ok (h e s)) → for_each es g s = Ok (foldl (λ s e, h e s) s es).
Proof.
  revert s. induction es as [|e es IH]; intros s Hg; [done|]. simpl.
  rewrite Hg by left. unfold mbind. simpl. apply IH. intros. apply Hg. by right.
Qed.

(** Loops whose body succeeds and keeps an invariant. *)
Lemma for_each_keeps {I S} (P : S → Prop) (l : list I) (f : I → S → res S) s :
  P s → (∀ i s, i ∈ l → P s → ∃ s', f i s = Ok s' ∧ P s') → ∃ s', for_each l f s = Ok s' ∧ P s'.
Proof.
  revert s. induction l as [|i l IH]; intros s Hs Hf; [by exists s|]. simpl.
  destruct (Hf i s) as (s' & -> & Hs'); [left|done|]. cbn [mbind res_bind]. apply IH; [done|]. intros. apply Hf; [by right|done].
Qed.

Lemma for_each_steps {S} (P : nat → S → Prop) n (f : nat → S → res S) s :
  P 0%nat s → (∀ k s, (k < n)%nat → P k s → ∃ s', f k s = Ok s' ∧ P (Datatypes.S k) s') → ∃ s', for_each (seq 0 n) f s = Ok s' ∧ P n s'.
Proof.
  intros H0 Hf. assert (∀ m, (m ≤ n)%nat → ∃ s', for_each (seq 0 m) f s = Ok s' ∧ P m s') as H; [|by apply H].
  induction m as [|m IH]; intros Hm; [by exists s|]. destruct IH as (s' & E & Hs'); [lia|].
  rewrite seq_S, for_each_app, E. cbn [mbind res_bind for_each Nat.add]. destruct (Hf m s') as (s2 & -> & H2); [lia|done|]. by exists s2.
Qed.

Lemma parallel_for_keeps {S : Type} (P : S → Prop) (l : list (M S unit)) s :
  P s → (∀ m s, m ∈ l → P s → ∃ s', m s = (Ok (), s') ∧ P s') → ∃ s', parallel_for l s = (Ok (), s') ∧ P s'.
Proof.
  revert s. induction l as [|m l IH]; intros s Hs Hm; [by exists s|]. simpl.
  destruct (Hm m s) as (s' & -> & Hs'); [left|done|]. apply IH; [done|]. intros. apply Hm; [by right|done].
Qed.

(** [mapM] on outcomes. *)
Lemma mapM_ok {A B} (f : A → res B) (l : list A) (k : list B) :
  Forall2 (λ a b, f a = Ok b) l k → mapM f l = Ok k.
Proof. induction 1 as [|a b l k E _ IH]; [done|]. simpl. rewrite E. simpl. by rewrite IH. Qed.

Lemma mapM_same {X Y : Type} (f g : X → res Y) l : (∀ x, x ∈ l → f x = g x) → mapM f l = mapM g l.
Proof.
  induction l as [|x l IH]; intros H; [done|]. simpl. rewrite H by left. destruct (g x); [|done..]. simpl.
  rewrite IH; [done|]. intros. apply H. by right.
Qed.

Lemma mapM_total {A B} (f : A → res B) (l : list A) : (∀ x, x ∈ l → ∃ y, f x = Ok y) → ∃ k, mapM f l = Ok k.
Proof.
  induction l as [|x l IH]; intros H; [by exists []|]. destruct (H x) as [y Hy]; [by left|].
  destruct IH as [k Hk]; [intros; apply H; by right|]. exists (y :: k). simpl. rewrite Hy. simpl. by rewrite Hk.
Qed.

Lemma mapM_up {A B} (es : list A) (f : nat → res B) (g : A → B) n :
  n = zlen es → (∀ k e, es !! k = Some e → f k = Ok (g e)) → mapM f (up n) = Ok (g <$> es).
Proof.
  intros -> Hf. rewrite up_zlen. apply mapM_ok, Forall2_same_length_lookup.
  split; [by rewrite length_seq, length_fmap|]. intros k i b Hi Hb.
  apply lookup_seq in Hi as [-> Hk]. apply list_lookup_fmap_Some in Hb as (e & -> & He). by apply Hf.
Qed.

Lemma all_of_spec {I} (ixs : list I) (test : I → res bool) (p : I → bool) :
  (∀ i, i ∈ ixs → test i = Ok (p i)) → all_of ixs test = Ok (forallb p ixs).
Proof.
  induction ixs as [|i ixs IH]; intros H; [done|]. simpl. rewrite H by left. unfold mbind. simpl.
  destruct (p i); [apply IH; intros; apply H; by right|done].
Qed.

Lemma all_of_seq {A} (es : list A) (f : nat → res bool) (g : A → res bool) i0 :
  (∀ k e, es !! k = Some e → f (i0 + k)%nat = g e) → all_of (seq i0 (length es)) f = all_of es g.
Proof.
  revert i0. induction es as [|e es IH]; intros i0 Hf; [done|]. simpl.
  rewrite <- (Hf 0%nat e eq_refl), Nat.add_0_r. destruct (f i0) as [[]| |]; [|done..]. unfold mbind. simpl.
  apply IH. intros k e' Hk. rewrite Nat.add_succ_l, <- Nat.add_succ_r. by apply Hf.
Qed.

Lemma all_of_up {A} (es : list A) (f : nat → res bool) (g : A → res bool) n :
  n = zlen es → (∀ k e, es !! k = Some e → f k = g e) → all_of (up n) f = all_of es g.
Proof. intros -> Hf. rewrite up_zlen. by apply all_of_seq. Qed.

(** The middle of an array. *)
Lemma idx_mid {A} (l : list A) x k : idx (l ++ x :: k) (length l) = Ok x.
Proof. by apply idx_ok, list_lookup_middle. Qed.

Lemma upd_mid {A} (l : list A) x y k i : length l = i → upd (l ++ x :: k) i y = Ok (l ++ y :: k).
Proof.
  intros <-. rewrite upd_ok by (rewrite length_app; simpl; lia).
  by rewrite <- (Nat.add_0_r (length l)), insert_app_r.
Qed.

(** ** What a loop that succeeds says *)

Lemma mapM_inv {A B} (f : A → res B) l k : mapM f l = Ok k → Forall2 (λ a b, f a = Ok b) l k.
Proof.
  revert k. induction l as [|a l IH]; intros k E; simpl in E; [injection E as <-; constructor|].
  apply bind_ok in E as (b & Eb & E). apply bind_ok in E as (k' & Ek & [= <-]). constructor; [done|by apply IH].
Qed.

Lemma slice_of_seq {A} (l : list A) j n k : mapM (idx l) (seq j n) = Ok k → k = take n (drop j l).
Proof.
  intros E%mapM_inv. apply list_eq. intros i. destruct (decide (i < n)%nat) as [Hlt|Hge].
  - rewrite lookup_take_lt, lookup_drop by done. destruct (Forall2_lookup_l _ _ _ i (j + i)%nat E) as (f & -> & Hf%idx_inv); [|done].
    by apply lookup_seq_lt.
  - rewrite lookup_take_ge by lia. apply lookup_ge_None. apply Forall2_length in E. rewrite length_seq in E. lia.
Qed.

Lemma any_of_false {I} (l : list I) t : any_of l t = Ok false → ∀ i, i ∈ l → t i = Ok false.
Proof.
  induction l as [|x l IH]; intros E i Hi; [by apply elem_of_nil in Hi|]. simpl in E.
  apply bind_ok in E as (b & Eb & E). destruct b; [done|]. apply elem_of_cons in Hi as [->|Hi]; auto.
Qed.

Lemma all_of_true {I} (l : list I) t : all_of l t = Ok true → ∀ i, i ∈ l → t i = Ok true.
Proof.
  induction l as [|x l IH]; intros E i Hi; [by apply elem_of_nil in Hi|]. simpl in E.
  apply bind_ok in E as (b & Eb & E). destruct b; [|done]. apply elem_of_cons in Hi as [->|Hi]; auto.
Qed.

(** ** Numerals in a mixed base *)

(** A digit with its radix. *)
Abbreviation digit := (Z * Z)%type.

Fixpoint vol (ds : list digit) : Z :=
  match ds with [] => 1 | (_, r) :: ds => r * vol ds end.

Fixpoint position (ds : list digit) : Z :=
  match ds with [] => 0 | (x, r) :: ds => x + r * position ds end.

Definition in_grid (ds : list digit) : Prop := Forall (λ d, 0 ≤ d.1 < d.2) ds.

Lemma vol_app l k : vol (l ++ k) = vol l * vol k.
Proof. induction l as [|[x r] l IH]; simpl; rewrite ?IH; lia. Qed.

Lemma vol_rev l : vol (rev l) = vol l.
Proof. induction l as [|[x r] l IH]; [done|]. simpl. rewrite vol_app, IH. simpl. lia. Qed.

Lemma position_app l k : position (l ++ k) = position l + vol l * position k.
Proof. induction l as [|[x r] l IH]; simpl; rewrite ?IH; lia. Qed.

Lemma vol_pos ds : in_grid ds → 0 < vol ds.
Proof. induction 1 as [|[x r] ds Hd _ IH]; simpl in *; nia. Qed.

Lemma position_bound ds : in_grid ds → 0 ≤ position ds < vol ds.
Proof.
  induction 1 as [|[x r] ds Hd Hds IH]; simpl in *; [lia|]. pose proof (vol_pos ds Hds). nia.
Qed.

Lemma in_grid_rev ds : in_grid ds → in_grid (rev ds).
Proof. apply Forall_rev. Qed.

(** Cells of the same grid at the same position are the same cell. *)
Lemma position_inj ds es : in_grid ds → in_grid es → ds.*2 = es.*2 →
  position ds = position es → ds = es.
Proof.
  intros Hd. revert es. induction Hd as [|[x r] ds Hx Hds IH]; intros [|[y q] es] He E Ep;
    [done|discriminate E|discriminate E|].
  injection E as -> E. inversion He as [|? ? Hy Hes]; subst. simpl in *.
  destruct (Z.div_mod_unique q (position ds) (position es) x y) as [Ep' ->]; [lia..|].
  f_equal. by apply IH.
Qed.

(** Every position is the position of a cell. *)
Lemma position_surj rs n : Forall (λ r, 0 < r) rs → 0 ≤ n < vol (pair 0 <$> rs) →
  ∃ ds, ds.*2 = rs ∧ in_grid ds ∧ position ds = n.
Proof.
  intros Hr. revert n. induction Hr as [|r rs H0 _ IH]; intros n Hn.
  - exists []. simpl in *. split_and!; [done|constructor|lia].
  - change (vol (pair 0 <$> r :: rs)) with (r * vol (pair 0 <$> rs)) in Hn. pose proof (Z.mod_pos_bound n r H0). pose proof (Z.div_mod n r ltac:(lia)).
    destruct (IH (n / r)) as (ds & E & Hds & Ep).
    { split; [apply Z.div_pos; lia|apply Z.div_lt_upper_bound; lia]. }
    exists ((n mod r, r) :: ds). split_and!; [by rewrite fmap_cons, E|by constructor|].
    simpl. rewrite Ep. lia.
Qed.

(** The same with the most significant digit first. *)
Lemma fmap_rev {A B} (f : A → B) l : f <$> rev l = rev (f <$> l).
Proof. induction l as [|x l IH]; [done|]. simpl rev. rewrite fmap_app, IH. done. Qed.

Lemma position_rev_inj ds es : in_grid ds → in_grid es → ds.*2 = es.*2 →
  position (rev ds) = position (rev es) → ds = es.
Proof.
  intros Hd He E Ep. rewrite <- (rev_involutive ds), <- (rev_involutive es). f_equal.
  apply position_inj; [by apply in_grid_rev..|by rewrite !fmap_rev, E|done].
Qed.

Lemma position_rev_surj rs n : Forall (λ r, 0 < r) rs → 0 ≤ n < vol (pair 0 <$> rs) →
  ∃ ds, ds.*2 = rs ∧ in_grid ds ∧ position (rev ds) = n.
Proof.
  intros Hr Hn. destruct (position_surj (rev rs) n) as (ds & E & Hg & Ep).
  - by apply Forall_rev.
  - by rewrite fmap_rev, vol_rev.
  - exists (rev ds). split_and!; [by rewrite fmap_rev, E, rev_involutive|by apply in_grid_rev|].
    by rewrite rev_involutive.
Qed.

(** A lower bound on the volume. *)
Lemma vol_suffix l k : in_grid (l ++ k) → vol k ≤ vol (l ++ k).
Proof.
  intros [Hl Hk]%Forall_app. rewrite vol_app. pose proof (vol_pos l Hl). pose proof (vol_pos k Hk). nia.
Qed.

Lemma vol_prefix l k : in_grid (l ++ k) → vol l ≤ vol (l ++ k).
Proof.
  intros [Hl Hk]%Forall_app. rewrite vol_app. pose proof (vol_pos l Hl). pose proof (vol_pos k Hk). nia.
Qed.
