(* ===== verification/Filter.v ===== *)
(** * Filters and pipelines as configuration (filter/filter.cc, filter/*_filter.cc,
      filter/filter_pipeline.cc)

    A filter with the parameters that are stored in the array schema, its
    options, and the serialization of filters and of whole pipelines. *)

From S2P Require Import Prelude.
From S2P Require Import Enums.
From S2P Require Import ConstBuffer.
From S2P Require Import Buffer.
Local Open Scope Z_scope.

(** The subclasses of [Filter].  [compressor_] is the stored [uint8_t]; the
    key of the encryption filter is not part of its serialized form. *)
Inductive filter : Set :=
| NoopFilter
| CompressionFilter (type_ : FilterType) (compressor_ level_ : Z)
| BitWidthReductionFilter (max_window_size_ : Z)
| BitshuffleFilter
| ByteshuffleFilter
| PositiveDeltaFilter (max_window_size_ : Z)
| EncryptionAES256GCMFilter
| ChecksumMD5Filter
| ChecksumSHA256Filter.

#[global] Instance filter_eq_dec : EqDecision filter.
Proof. solve_decision. Defined.

Definition type (f : filter) : FilterType :=
  match f with
  | NoopFilter => FILTER_NONE
  | CompressionFilter ty _ _ => ty
  | BitWidthReductionFilter _ => FILTER_BIT_WIDTH_REDUCTION
  | BitshuffleFilter => FILTER_BITSHUFFLE
  | ByteshuffleFilter => FILTER_BYTESHUFFLE
  | PositiveDeltaFilter _ => FILTER_POSITIVE_DELTA
  | EncryptionAES256GCMFilter => INTERNAL_FILTER_AES_256_GCM
  | ChecksumMD5Filter => FILTER_CHECKSUM_MD5
  | ChecksumSHA256Filter => FILTER_CHECKSUM_SHA256
  end.

(** [CompressionFilter::compressor_to_filter]. *)
Definition compressor_to_filter (compressor : Z) : res FilterType :=
  match compressor_of_code compressor with
  | Some COMP_NO_COMPRESSION => Ok FILTER_NONE
  | Some COMP_GZIP => Ok FILTER_GZIP
  | Some COMP_ZSTD => Ok FILTER_ZSTD
  | Some COMP_LZ4 => Ok FILTER_LZ4
  | Some COMP_RLE => Ok FILTER_RLE
  | Some COMP_BZIP2 => Ok FILTER_BZIP2
  | Some COMP_DOUBLE_DELTA => Ok FILTER_DOUBLE_DELTA
  | None => UB
  end.

(** [CompressionFilter::filter_to_compressor]. *)
Definition filter_to_compressor (type : FilterType) : res Compressor :=
  match type with
  | FILTER_NONE => Ok COMP_NO_COMPRESSION
  | FILTER_GZIP => Ok COMP_GZIP
  | FILTER_ZSTD => Ok COMP_ZSTD
  | FILTER_LZ4 => Ok COMP_LZ4
  | FILTER_RLE => Ok COMP_RLE
  | FILTER_BZIP2 => Ok COMP_BZIP2
  | FILTER_DOUBLE_DELTA => Ok COMP_DOUBLE_DELTA
  | _ => UB
  end.

(** [Filter::create]; [None] is a code that names no filter type. *)
Definition create (type : option FilterType) : res filter :=
  match type with
  | Some FILTER_NONE => Ok NoopFilter
  | Some (FILTER_GZIP | FILTER_ZSTD | FILTER_LZ4 | FILTER_RLE | FILTER_BZIP2
         | FILTER_DOUBLE_DELTA) as ty =>
      let ty := default FILTER_NONE ty in
      c ← filter_to_compressor ty; Ok (CompressionFilter ty (compressor_code c) (-1))
  | Some FILTER_BIT_WIDTH_REDUCTION => Ok (BitWidthReductionFilter 256)
  | Some FILTER_BITSHUFFLE => Ok BitshuffleFilter
  | Some FILTER_BYTESHUFFLE => Ok ByteshuffleFilter
  | Some FILTER_POSITIVE_DELTA => Ok (PositiveDeltaFilter 1024)
  | Some INTERNAL_FILTER_AES_256_GCM => Ok EncryptionAES256GCMFilter
  | Some FILTER_CHECKSUM_MD5 => Ok ChecksumMD5Filter
  | Some FILTER_CHECKSUM_SHA256 => Ok ChecksumSHA256Filter
  | None => UB
  end.

(** [Filter::clone]: a compression filter is rebuilt from its compressor. *)
Definition clone (f : filter) : res filter :=
  match f with
  | CompressionFilter _ compressor level =>
      ty ← compressor_to_filter compressor; Ok (CompressionFilter ty compressor level)
  | f => Ok f
  end.

(** ** Options *)

Inductive FilterOption : Set :=
| COMPRESSION_LEVEL
| BIT_WIDTH_MAX_WINDOW
| POSITIVE_DELTA_MAX_WINDOW.

(** [set_option(option, value)], [None] a null pointer. *)
Definition set_option (opt : FilterOption) (value : option Z) (f : filter) : res filter :=
  match f with
  | CompressionFilter ty c level =>
      match value with
      | None => Err SC_Filter "Compression filter error; invalid option value"
      | Some v =>
          match opt with
          | COMPRESSION_LEVEL => Ok (CompressionFilter ty c v)
          | _ => Err SC_Filter "Compression filter error; unknown option"
          end
      end
  | BitWidthReductionFilter _ =>
      match value with
      | None => Err SC_Filter "Bit width reduction filter error; invalid option value"
      | Some v =>
          match opt with
          | BIT_WIDTH_MAX_WINDOW => Ok (BitWidthReductionFilter v)
          | _ => Err SC_Filter "Bit width reduction filter error; unknown option"
          end
      end
  | PositiveDeltaFilter _ =>
      match value with
      | None => Err SC_Filter "Positive delta filter error; invalid option value"
      | Some v =>
          match opt with
          | POSITIVE_DELTA_MAX_WINDOW => Ok (PositiveDeltaFilter v)
          | _ => Err SC_Filter "Positive delta filter error; unknown option"
          end
      end
  | _ => Err SC_Filter "Filter does not support options."
  end.

(** [get_option(option, value)] with a non-null [value]. *)
Definition get_option (opt : FilterOption) (f : filter) : res Z :=
  match f, opt with
  | CompressionFilter _ _ level, COMPRESSION_LEVEL => Ok level
  | CompressionFilter _ _ _, _ => Err SC_Filter "Compression filter error; unknown option"
  | BitWidthReductionFilter w, BIT_WIDTH_MAX_WINDOW => Ok w
  | BitWidthReductionFilter _, _ =>
      Err SC_Filter "Bit width reduction filter error; unknown option"
  | PositiveDeltaFilter w, POSITIVE_DELTA_MAX_WINDOW => Ok w
  | PositiveDeltaFilter _, _ => Err SC_Filter "Positive delta filter error; unknown option"
  | _, _ => Err SC_Filter "Filter does not support options."
  end.

(** ** Serialization of a filter *)

Definition serialize_impl `{Allocator} (f : filter) : M Buffer.t unit :=
  match f with
  | CompressionFilter _ compressor level => write_val U8 compressor;; write_val I32 level
  | BitWidthReductionFilter w => write_val U32 w
  | PositiveDeltaFilter w => write_val U32 w
  | _ => mret ()
  end.

(** [memcpy(buff->data(offset), x, sizeof(x))]. *)
Definition patch (offset : Z) (x : list Z) : M Buffer.t unit := fun b =>
  match Buffer.data_ b with
  | None => (UB, b)
  | Some d =>
      match memwrite d offset x with
      | Ok d' => (Ok (), Buffer.mk (Buffer.alloced_size_ b) (Some d') (Buffer.offset_ b)
                                   (Buffer.owns_data_ b) (Buffer.size_ b))
      | _ => (UB, b)
      end
  end.

Definition serialize `{Allocator} (f : filter) : M Buffer.t unit :=
  write_val U8 (filter_type_code (type f));;
  b ← get;
  let metadata_length_offset := Buffer.offset_ b in
  write_val U32 0;;
  b ← get;
  let buff_size := Buffer.size_ b in
  serialize_impl f;;
  b ← get;
  if (Buffer.size_ b <? buff_size) || (tmax U32 <? u64 (Buffer.size_ b - buff_size))
  then fail SC_Filter "Filter metadata exceeds max length"
  else patch metadata_length_offset (to_bytes U32 (Buffer.size_ b - buff_size)).

Definition deserialize_impl (f : filter) : M ConstBuffer.t filter :=
  match f with
  | CompressionFilter ty _ _ =>
      c ← read_val U8; level ← read_val I32; mret (CompressionFilter ty c level)
  | BitWidthReductionFilter _ => w ← read_val U32; mret (BitWidthReductionFilter w)
  | PositiveDeltaFilter _ => w ← read_val U32; mret (PositiveDeltaFilter w)
  | f => mret f
  end.

Definition deserialize : M ConstBuffer.t filter :=
  type ← read_val U8;
  filter_metadata_len ← read_val U32;
  f ← lift (create (filter_type_of_code type));
  b ← get;
  f ← deserialize_impl f;
  b' ← get;
  if u64 (ConstBuffer.offset_ b' - ConstBuffer.offset_ b) =? filter_metadata_len then mret f
  else fail SC_Filter "Deserialization error; unexpected metadata length".

(** ** Pipelines *)

Record FilterPipeline : Set := mkPipeline {
  filters_ : list filter;
  max_chunk_size_ : Z
}.

(** [FilterPipeline()] with [constants::max_tile_chunk_size]. *)
Definition empty_pipeline : FilterPipeline := mkPipeline [] 65536.

Definition add_filter (f : filter) : M FilterPipeline unit := fun p =>
  match clone f with
  | Ok g => (Ok (), mkPipeline (filters_ p ++ [g]) (max_chunk_size_ p))
  | Err c e => (Err c e, p)
  | UB => (UB, p)
  end.

Definition clear_pipeline : M FilterPipeline unit := fun p =>
  (Ok (), mkPipeline [] (max_chunk_size_ p)).

Definition set_max_chunk_size (n : Z) : M FilterPipeline unit := fun p =>
  (Ok (), mkPipeline (filters_ p) n).

(** The copy constructor. *)
Definition copy_pipeline (other : FilterPipeline) : res FilterPipeline :=
  fs ← mapM clone (filters_ other); Ok (mkPipeline fs (max_chunk_size_ other)).

Definition swap_pipelines : M (FilterPipeline * FilterPipeline) unit := fun '(p, q) =>
  (Ok (), (q, p)).

(** The loop body of [FilterPipeline::serialize]: a compression filter
    without compression is stored as a no-op filter. *)
Definition serialize_stage `{Allocator} (f : filter) : M Buffer.t unit :=
  match f with
  | CompressionFilter FILTER_NONE _ _ => serialize NoopFilter
  | f => serialize f
  end.

Definition serialize_pipeline `{Allocator} (p : FilterPipeline) : M Buffer.t unit :=
  write_val U32 (max_chunk_size_ p);;
  write_val U32 (conv U32 (zlen (filters_ p)));;
  write_many serialize_stage (filters_ p).

(** One filter is read, then cloned into the pipeline. *)
Fixpoint read_filters (n : nat) : M (ConstBuffer.t * FilterPipeline) unit :=
  match n with
  | O => mret ()
  | S n =>
      f ← on_fst deserialize;
      on_snd (add_filter f);;
      read_filters n
  end.

Definition deserialize_pipeline : M (ConstBuffer.t * FilterPipeline) unit :=
  on_snd clear_pipeline;;
  n ← on_fst (read_val U32);
  on_snd (set_max_chunk_size n);;
  num_filters ← on_fst (read_val U32);
  read_filters (Z.to_nat num_filters).

(** ** The stored form *)

Definition enc_params (f : filter) : list Z :=
  match f with
  | CompressionFilter _ c level => to_bytes U8 c ++ to_bytes I32 level
  | BitWidthReductionFilter w | PositiveDeltaFilter w => to_bytes U32 w
  | _ => []
  end.

Definition enc_filter (f : filter) : list Z :=
  to_bytes U8 (filter_type_code (type f)) ++ to_bytes U32 (zlen (enc_params f)) ++ enc_params f.

(** A filter as [create] and the options can make it: parameters within their
    types, and a compression filter whose type and compressor agree. *)
Definition filter_ok (f : filter) : Prop :=
  match f with
  | CompressionFilter ty c level => compressor_to_filter c = Ok ty ∧ in_ctype I32 level
  | BitWidthReductionFilter w | PositiveDeltaFilter w => in_ctype U32 w
  | _ => True
  end.

(** What is stored for a stage of a pipeline. *)
Definition stage (f : filter) : filter :=
  match f with CompressionFilter FILTER_NONE _ _ => NoopFilter | f => f end.

Lemma compressor_code_ok c ty : compressor_to_filter c = Ok ty → in_ctype U8 c ∧
  match ty with
  | FILTER_NONE | FILTER_GZIP | FILTER_ZSTD | FILTER_LZ4 | FILTER_RLE | FILTER_BZIP2
  | FILTER_DOUBLE_DELTA => True
  | _ => False
  end.
Proof.
  unfold compressor_to_filter, compressor_of_code. intros Hc.
  repeat case_match; simplify_eq; split; try done; unfold_ctype; simpl; lia.
Qed.

Lemma zlen_enc_params f : 0 ≤ zlen (enc_params f) ≤ 5.
Proof. destruct f; simpl; zlen_solve. Qed.

Lemma enc_params_ok f : Forall byte_ok (enc_params f).
Proof.
  destruct f; simpl; try apply Forall_nil_2; try apply to_bytes_ok.
  apply Forall_app. split; apply to_bytes_ok.
Qed.

Lemma patch_holds b pre old post x :
  holds b (pre ++ old ++ post) → zlen old = zlen x → x ≠ [] → Forall byte_ok x →
  ∃ b', patch (zlen pre) x b = (Ok (), b') ∧ holds b' (pre ++ x ++ post).
Proof.
  intros Hh Hl Hx Hb. pose proof (holds_size _ _ Hh) as Hs.
  destruct Hh as ((Hown & Hblk & Hoff & Hsz & Hal & Hbytes) & Ho & Hc).
  rewrite !zlen_app in Hs. pose proof (zlen_nonneg pre). pose proof (zlen_nonneg post).
  assert (0 < zlen x) by (destruct x; [done|unfold zlen; simpl; lia]).
  destruct (Buffer.data_ b) as [d|] eqn:Ed; [|unfold zlen at 1 in Hblk; simpl in Hblk; lia].
  simpl in Hblk, Hbytes. unfold patch. rewrite Ed, memwrite_ok by lia. eexists. split; [done|].
  assert (d = pre ++ old ++ post ++ drop (Z.to_nat (Buffer.size_ b)) d) as Hd.
  { rewrite <- (take_drop (Z.to_nat (Buffer.size_ b)) d) at 1. unfold contents, slice in Hc.
    rewrite Ed, drop_0 in Hc. simpl in Hc. by rewrite Hc, <- !app_assoc. }
  set (tl := drop (Z.to_nat (Buffer.size_ b)) d) in *.
  assert (overlay (zlen pre) x d = pre ++ x ++ post ++ tl) as Hov.
  { unfold overlay. rewrite Hd. unfold zlen in *. rewrite Nat2Z.id, take_app_length. f_equal.
    f_equal. rewrite <- drop_drop, drop_app_length.
    replace (length x) with (length old) by lia. by rewrite drop_app_length. }
  rewrite Hd in Hbytes. rewrite !Forall_app in Hbytes.
  split; [|split; [done|]].
  - split_and!; simpl; rewrite ?zlen_overlay by lia; try done; try lia.
    rewrite Hov, !Forall_app. tauto.
  - unfold contents. simpl. rewrite Hov, Hs.
    replace (zlen pre + (zlen old + zlen post)) with (zlen (pre ++ x ++ post)) by (rewrite !zlen_app; lia).
    rewrite !app_assoc, slice_app_l by (pose proof (zlen_nonneg ((pre ++ x) ++ post)); lia).
    apply slice_all.
Qed.

Section Serialize.
Context `{!Allocator}.

Lemma serialize_impl_appends f : appends (serialize_impl f) (enc_params f).
Proof.
  destruct f; simpl; try apply appends_ret; try apply appends_val.
  apply appends_seq; apply appends_val.
Qed.

Lemma serialize_appends f : appends (serialize f) (enc_filter f).
Proof.
  intros b bs Hb Hl. unfold enc_filter in *. rewrite !zlen_app, !zlen_to_bytes in Hl.
  pose proof (zlen_enc_params f) as Hp. cbn [csize] in Hl. unfold serialize, get, mbind, M_bind.
  destruct (appends_val U8 (filter_type_code (type f)) b bs Hb) as [(b1 & -> & H1)|(Ho & e & b1 & ->)];
    [rewrite zlen_to_bytes; cbn [csize]; lia| |right; eauto].
  destruct (appends_val U32 0 b1 _ H1) as [(b2 & -> & H2)|(Ho & e & b2 & ->)];
    [rewrite zlen_app, !zlen_to_bytes; cbn [csize]; lia| |right; eauto].
  destruct (serialize_impl_appends f b2 _ H2) as [(b3 & -> & H3)|(Ho & e & b3 & ->)];
    [rewrite !zlen_app, !zlen_to_bytes; cbn [csize]; lia| |right; eauto].
  pose proof (holds_size _ _ H2) as S2. pose proof (holds_size _ _ H3) as S3.
  rewrite zlen_app in S3. rewrite <- S2 in S3.
  rewrite (holds_offset _ _ H1).
  rewrite (proj2 (Z.ltb_ge (Buffer.size_ b3) _)) by lia.
  rewrite u64_id by lia. change (tmax U32) with 4294967295.
  rewrite (proj2 (Z.ltb_ge 4294967295 _)) by lia. cbv [orb].
  rewrite <- !app_assoc in H3. rewrite app_assoc in H3.
  destruct (patch_holds b3 _ _ _ (to_bytes U32 (zlen (enc_params f))) H3) as (b4 & E4 & H4);
    [by rewrite !zlen_to_bytes|by intros ?%(f_equal zlen)|apply to_bytes_ok|].
  left. exists b4. rewrite app_assoc. split; [|done]. rewrite <- E4. do 2 f_equal. lia.
Qed.

Lemma serialize_stage_appends f : appends (serialize_stage f) (enc_filter (stage f)).
Proof. destruct f as [|[]| | | | | | |]; apply serialize_appends. Qed.

Definition enc_pipeline (p : FilterPipeline) : list Z :=
  to_bytes U32 (max_chunk_size_ p) ++ to_bytes U32 (zlen (filters_ p)) ++
  concat (enc_filter ∘ stage <$> filters_ p).

Lemma zlen_enc_filter f : zlen (enc_filter f) ≤ 10.
Proof.
  pose proof (zlen_enc_params f). unfold enc_filter.
  rewrite !zlen_app, !zlen_to_bytes. cbn [csize]. lia.
Qed.

Lemma zlen_enc_pipeline p : zlen (enc_pipeline p) ≤ 8 + 10 * zlen (filters_ p).
Proof.
  unfold enc_pipeline. rewrite !zlen_app, !zlen_to_bytes. cbn [csize].
  assert (∀ l, zlen (concat (enc_filter ∘ stage <$> l)) ≤ 10 * zlen l) as Hl.
  { induction l as [|f l IH]; [done|]. rewrite fmap_cons. cbn [concat]. rewrite zlen_app, zlen_cons.
    pose proof (zlen_enc_filter (stage f)). change ((enc_filter ∘ stage) f) with (enc_filter (stage f)).
    lia. }
  specialize (Hl (filters_ p)). lia.
Qed.

Lemma serialize_pipeline_appends p : zlen (filters_ p) < 2 ^ 32 →
  appends (serialize_pipeline p) (enc_pipeline p).
Proof.
  intros Hn. unfold serialize_pipeline, enc_pipeline.
  rewrite conv_id by (pose proof (zlen_nonneg (filters_ p)); unfold_ctype; simpl; lia).
  apply appends_seq; [apply appends_val|]. apply appends_seq; [apply appends_val|].
  apply appends_many. intros f _. apply serialize_stage_appends.
Qed.

End Serialize.

(** ** Reading the stored form back *)

Lemma deserialize_impl_parses f : filter_ok f → stage f = f →
  ∃ g, create (Some (type f)) = Ok g ∧ parses (deserialize_impl g) (enc_params f) f.
Proof.
  intros Hf Hs. destruct f as [|ty c level|w| | |w| | |]; simpl in Hf;
    try (eexists; split; [done|apply parses_ret]).
  - destruct Hf as [Hc Hlev]. destruct (compressor_code_ok c ty Hc) as [Hc8 Hty].
    destruct ty; try done; eexists; (split; [done|]); simpl;
      (eapply parses_bind; [by apply parses_val|]); rewrite <- (app_nil_r (to_bytes I32 level));
      (eapply parses_bind; [by apply parses_val|apply parses_ret]).
  - eexists. split; [done|]. simpl. rewrite <- (app_nil_r (to_bytes U32 w)).
    eapply parses_bind; [by apply parses_val|apply parses_ret].
  - eexists. split; [done|]. simpl. rewrite <- (app_nil_r (to_bytes U32 w)).
    eapply parses_bind; [by apply parses_val|apply parses_ret].
Qed.

Lemma deserialize_parses f : filter_ok f → stage f = f → parses deserialize (enc_filter f) f.
Proof.
  intros Hf Hs. destruct (deserialize_impl_parses f Hf Hs) as (g & Hg & Hp).
  pose proof (zlen_enc_params f).
  unfold deserialize, enc_filter.
  eapply parses_bind; [apply parses_val; exact (enum_code_byte (type f))|].
  eapply parses_bind; [apply parses_val; unfold_ctype; simpl; lia|].
  change (filter_type_of_code (filter_type_code (type f)))
    with (enum_of_code (enum_code (type f))).
  rewrite enum_of_code_code, Hg. intros b rest Hwf Hv.
  destruct (Hp b rest Hwf Hv) as (b' & E & Hwf' & Hv' & Hd' & Hs' & Ho').
  exists b'. unfold lift, get, mbind, M_bind. rewrite E, Ho'.
  replace (ConstBuffer.offset_ b + zlen (enc_params f) - ConstBuffer.offset_ b)
    with (zlen (enc_params f)) by lia.
  rewrite u64_id, Z.eqb_refl by lia. by split_and!.
Qed.

(** A parser run on the first of two objects. *)
Lemma on_fst_parses {A} (m : M ConstBuffer.t A) x a b rest :
  parses m x a → ConstBuffer.wf b → ConstBuffer.view b = x ++ rest →
  ∃ b', ConstBuffer.wf b' ∧ ConstBuffer.view b' = rest ∧
        ∀ S B (k : A → M (ConstBuffer.t * S) B) s, (on_fst m ≫= k) (b, s) = k a (b', s).
Proof.
  intros Hm Hwf Hv. destruct (Hm b rest Hwf Hv) as (b' & E & Hwf' & Hv' & _).
  exists b'. split_and!; try done. intros. unfold mbind, M_bind, on_fst. by rewrite E.
Qed.

(** An operation that succeeds on the second of two objects. *)
Lemma on_snd_ok {S1 S2 A B} (m : M S2 A) (k : A → M (S1 * S2) B) a s1 s2 s2' :
  m s2 = (Ok a, s2') → (on_snd m ≫= k) (s1, s2) = k a (s1, s2').
Proof. intros E. unfold mbind, M_bind, on_snd. by rewrite E. Qed.

Lemma clone_ok f : filter_ok f → clone f = Ok f.
Proof. destruct f; simpl; try done. intros [-> _]. done. Qed.

Lemma read_filters_spec fs b rest p :
  Forall filter_ok fs → Forall (λ f, stage f = f) fs →
  ConstBuffer.wf b → ConstBuffer.view b = concat (enc_filter <$> fs) ++ rest →
  ∃ b', read_filters (length fs) (b, p) =
          (Ok (), (b', mkPipeline (filters_ p ++ fs) (max_chunk_size_ p))) ∧
        ConstBuffer.wf b' ∧ ConstBuffer.view b' = rest.
Proof.
  intros Hfs Hst. revert b p. induction Hfs as [|f fs Hf _ IH]; intros b p Hwf Hv.
  - exists b. rewrite app_nil_r. by destruct p.
  - apply Forall_cons in Hst as [Hs Hst]. rewrite fmap_cons in Hv. cbn [concat] in Hv. rewrite <- app_assoc in Hv.
    simpl length. simpl read_filters.
    destruct (on_fst_parses deserialize _ f b _ (deserialize_parses f Hf Hs) Hwf Hv)
      as (b1 & Hwf1 & Hv1 & ->).
    erewrite on_snd_ok by (unfold add_filter; by rewrite clone_ok).
    destruct (IH Hst b1 (mkPipeline (filters_ p ++ [f]) (max_chunk_size_ p)) Hwf1 Hv1)
      as (b2 & E & Hwf2 & Hv2).
    exists b2. simpl in E. rewrite E. by rewrite <- app_assoc.
Qed.

Lemma deserialize_pipeline_spec p b rest p0 :
  Forall filter_ok (filters_ p) → in_ctype U32 (max_chunk_size_ p) →
  zlen (filters_ p) < 2 ^ 32 →
  ConstBuffer.wf b → ConstBuffer.view b = enc_pipeline p ++ rest →
  ∃ b', deserialize_pipeline (b, p0) =
          (Ok (), (b', mkPipeline (stage <$> filters_ p) (max_chunk_size_ p))) ∧
        ConstBuffer.wf b' ∧ ConstBuffer.view b' = rest.
Proof.
  intros Hf Hc Hn Hwf Hv. unfold enc_pipeline in Hv. rewrite <- !app_assoc in Hv.
  assert (in_ctype U32 (zlen (filters_ p))) as Hz
    by (pose proof (zlen_nonneg (filters_ p)); unfold_ctype; simpl; lia).
  unfold deserialize_pipeline. erewrite on_snd_ok by done.
  destruct (on_fst_parses (read_val U32) _ _ b _ (parses_val U32 _ Hc) Hwf Hv)
    as (b1 & Hwf1 & Hv1 & ->).
  erewrite on_snd_ok by done.
  destruct (on_fst_parses (read_val U32) _ (zlen (filters_ p)) b1 _ (parses_val U32 _ Hz) Hwf1 Hv1)
    as (b2 & Hwf2 & Hv2 & ->).
  unfold zlen. rewrite Nat2Z.id, <- (length_fmap stage).
  rewrite list_fmap_compose in Hv2.
  destruct (read_filters_spec (stage <$> filters_ p) b2 rest (mkPipeline [] (max_chunk_size_ p)))
    as (b3 & E3 & Hwf3 & Hv3); [| |done|done|].
  - apply Forall_fmap. eapply Forall_impl; [done|]. intros [|[]| | | | | | |]; done.
  - apply Forall_fmap, Forall_true. intros [|[]| | | | | | |]; done.
  - exists b3. split; [apply E3|done].
Qed.

(** Round trip of filter pipelines: a pipeline whose filters are as the
    library builds them is written, unless memory runs out, in a form that
    [deserialize] reads back, into any pipeline object, as the same list of
    filters with the same parameters and chunk size (compression filters
    without compression come back as no-op filters). *)
Theorem pipeline_roundtrip `{!Allocator} p p0 :
  Forall filter_ok (filters_ p) → in_ctype U32 (max_chunk_size_ p) →
  zlen (filters_ p) < 2 ^ 32 →
  (∃ b c, serialize_pipeline p Buffer.empty = (Ok (), b) ∧
     deserialize_pipeline (Buffer.to_const b, p0) =
       (Ok (), (c, mkPipeline (stage <$> filters_ p) (max_chunk_size_ p))) ∧
     ConstBuffer.view c = []) ∨
  (out_of_memory ∧ ∃ e b, serialize_pipeline p Buffer.empty = (Err SC_Buffer e, b)).
Proof.
  intros Hf Hc Hn.
  destruct (serialize_pipeline_appends p Hn Buffer.empty [] holds_empty) as [(b & E & Hb)|?];
    [|left|by right].
  - rewrite zlen_nil, Z.add_0_l. pose proof (zlen_enc_pipeline p). lia.
  - destruct (to_const_view _ _ Hb) as [Hwf Hv]. rewrite <- (app_nil_r (enc_pipeline p)) in Hv.
    destruct (deserialize_pipeline_spec p (to_const b) [] p0 Hf Hc Hn Hwf Hv) as (c & Ec & _ & Hvc).
    by exists b, c.
Qed.

#[local] Existing Instance zero_allocator.

Definition sample_pipeline : FilterPipeline :=
  mkPipeline [BitWidthReductionFilter 256; CompressionFilter FILTER_ZSTD 2 5;
              CompressionFilter FILTER_NONE 0 (-1); ChecksumMD5Filter] 65536.

Lemma sample_pipeline_ok : Forall filter_ok (filters_ sample_pipeline).
Proof. simpl. rewrite !Forall_cons. unfold filter_ok. unfold_ctype. simpl. split_and!; done || lia. Qed.

Lemma pipeline_roundtrip_witness :
  ∃ b c, serialize_pipeline sample_pipeline Buffer.empty = (Ok (), b) ∧
    deserialize_pipeline (Buffer.to_const b, empty_pipeline) =
      (Ok (), (c, mkPipeline [BitWidthReductionFilter 256; CompressionFilter FILTER_ZSTD 2 5;
                              NoopFilter; ChecksumMD5Filter] 65536)) ∧
    ConstBuffer.view c = [].
Proof.
  destruct (pipeline_roundtrip sample_pipeline empty_pipeline)
    as [?|[[] ?]%(λ H, conj (zero_allocator_total (proj1 H)) I)];
    [apply sample_pipeline_ok|unfold_ctype; simpl; lia|unfold zlen; simpl; lia|done].
Defined.
