(* ===== verification/Range.v ===== *)
(** * Range (misc/types.h) and byte strings

    A one-dimensional range flattened in a vector of bytes, with the size of
    its first half when the halves are strings. *)

From S2P Require Import Prelude.
From S2P Require Import Num.
Local Open Scope Z_scope.

(** ** Byte strings *)

(** [std::string::operator<]: bytes compared as unsigned, then the length. *)
Fixpoint str_lt (a b : list Z) : bool :=
  match a, b with
  | _, [] => false
  | [], _ :: _ => true
  | x :: a, y :: b => if x <? y then true else if y <? x then false else str_lt a b
  end.

Definition str_le (a b : list Z) : bool := negb (str_lt b a).
Definition str_eq (a b : list Z) : bool := bool_decide (a = b).

(** [utils::parse::common_prefix_size]. *)
Fixpoint common_prefix_size (a b : list Z) : Z :=
  match a, b with
  | x :: a, y :: b => if x =? y then 1 + common_prefix_size a b else 0
  | _, _ => 0
  end.

(** [s[i]] as a [char]; reading at [size()] gives the terminator. *)
Definition char_at (s : list Z) (i : Z) : res Z :=
  if (0 <=? i) && (i <? zlen s) then Ok (conv I8 (nth (Z.to_nat i) s 0))
  else if i =? zlen s then Ok 0 else UB.

(** ** Range *)

Record Range : Type := mkRange {
  range_ : list Z;
  range_start_size_ : Z
}.

#[global] Instance range_eq_dec : EqDecision Range.
Proof. solve_decision. Defined.

Definition empty_range : Range := mkRange [] 0.

(** [set_range(r, size)] keeps [range_start_size_]. *)
Definition set_range (bs : list Z) (r : Range) : Range := mkRange bs (range_start_size_ r).
Definition set_range_sized (bs : list Z) (start_size : Z) (r : Range) : Range :=
  mkRange bs start_size.
Definition set_range_var (r1 r2 : list Z) (r : Range) : Range := mkRange (r1 ++ r2) (zlen r1).
Definition set_str_range (s1 s2 : list Z) (r : Range) : Range :=
  if zlen s1 + zlen s2 =? 0 then mkRange [] 0 else set_range_var s1 s2 r.

(** The constructors [Range(range, size)] and [Range(range, size, start_size)]. *)
Definition make_range (bs : list Z) : Range := set_range bs empty_range.
Definition make_range_sized (bs : list Z) (start_size : Z) : Range :=
  set_range_sized bs start_size empty_range.

Definition range_empty (r : Range) : bool := bool_decide (range_ r = []).
Definition range_clear (r : Range) : Range := mkRange [] (range_start_size_ r).
Definition range_size (r : Range) : Z := zlen (range_ r).
Definition start_size (r : Range) : Z := range_start_size_ r.
Definition end_size (r : Range) : Z := u64 (zlen (range_ r) - range_start_size_ r).

Definition start_str (r : Range) : res (list Z) :=
  if start_size r =? 0 then Ok [] else memread (range_ r) 0 (start_size r).

(** The position of [end()]. *)
Definition end_pos (r : Range) : Z :=
  if range_start_size_ r =? 0 then zlen (range_ r) / 2 else range_start_size_ r.

Definition end_str (r : Range) : res (list Z) :=
  if end_size r =? 0 then Ok [] else memread (range_ r) (end_pos r) (end_size r).

Definition range_eqb (r1 r2 : Range) : bool := bool_decide (r1 = r2).

Definition unary (r : Range) : res bool :=
  massert (negb (range_empty r));;
  let n := zlen (range_ r) in
  let same_size := (range_start_size_ r =? 0) || (u64 (2 * range_start_size_ r) =? n) in
  Ok (same_size && bool_decide (slice 0 (n / 2) (range_ r) = slice (n / 2) (n / 2) (range_ r))).

(** ** Typed access

    [((const T* )r.data())[i]]: undefined outside of the bytes. *)
Definition rd (T : num) (bs : list Z) (i : Z) : res Z :=
  x ← memread bs (i * nsize T) (nsize T); Ok (ndec T x).

Definition rd2 (T : num) (r : Range) : res (Z * Z) :=
  a ← rd T (range_ r) 0; b ← rd T (range_ r) 1; Ok (a, b).

(** [T res[2] = {a, b}; r->set_range(res, sizeof(res))]. *)
Definition set_pair (T : num) (a b : Z) (r : Range) : Range := set_range (nenc T a ++ nenc T b) r.

(** [is_pair T r a b]: [r] is a fixed-sized range [[a, b]] of the type. *)
Definition is_pair (T : num) (r : Range) (a b : Z) : Prop :=
  range_ r = nenc T a ++ nenc T b ∧ nval T a ∧ nval T b.

(** [is_str r s e]: [r] is a range of non-empty strings. *)
Definition is_str (r : Range) (s e : list Z) : Prop :=
  range_ r = s ++ e ∧ range_start_size_ r = zlen s ∧ s ≠ [] ∧ e ≠ [] ∧
  zlen s + zlen e < 2 ^ 63.

Lemma rd_at T bs pre v post i :
  bs = pre ++ nenc T v ++ post → i * nsize T = zlen pre → nval T v → rd T bs i = Ok v.
Proof.
  intros E Hi Hv. unfold rd. rewrite (memread_at bs _ _ pre (nenc T v) post);
    [|done|done|by rewrite zlen_nenc].
  unfold mbind; simpl. by rewrite ndec_nenc.
Qed.

Lemma rd2_pair T r a b : is_pair T r a b → rd2 T r = Ok (a, b).
Proof.
  intros (E & Ha & Hb). unfold rd2.
  rewrite (rd_at T (range_ r) [] a (nenc T b) 0) by done.
  rewrite (rd_at T (range_ r) (nenc T a) b [] 1);
    [done|by rewrite app_nil_r|rewrite zlen_nenc; lia|done].
Qed.

Lemma set_pair_is T a b r : nval T a → nval T b → is_pair T (set_pair T a b r) a b.
Proof. intros. by split_and!. Qed.

(** The range [[a, b]]. *)
Definition pair_of (T : num) (a b : Z) : Range := make_range (nenc T a ++ nenc T b).

Lemma pair_of_is T a b : nval T a → nval T b → is_pair T (pair_of T a b) a b.
Proof. intros. by split_and!. Qed.

Lemma pair_nonempty T r a b : is_pair T r a b → range_empty r = false.
Proof.
  intros (E & _ & _). apply bool_decide_eq_false. intros H. rewrite H in E.
  apply (f_equal zlen) in E. rewrite zlen_app, !zlen_nenc in E. pose proof (nsize_pos T).
  change (zlen []) with 0 in E. lia.
Qed.

Lemma start_str_is r s e : is_str r s e → start_str r = Ok s.
Proof.
  intros (E & Es & Hs & _). unfold start_str, start_size. rewrite Es.
  pose proof (zlen_pos s Hs). rewrite (proj2 (Z.eqb_neq _ 0)) by lia.
  by apply (memread_at _ _ _ [] s e).
Qed.

Lemma end_str_is r s e : is_str r s e → end_str r = Ok e.
Proof.
  intros (E & Es & Hs & He & Hl). unfold end_str, end_size, end_pos. rewrite E, Es, zlen_app.
  pose proof (zlen_pos s Hs). pose proof (zlen_pos e He).
  replace (zlen s + zlen e - zlen s) with (zlen e) by lia.
  rewrite u64_id, !(proj2 (Z.eqb_neq _ 0)) by lia.
  apply (memread_at _ _ _ s e []); [by rewrite app_nil_r|done..].
Qed.

Lemma set_str_is s e r : s ≠ [] → e ≠ [] → zlen s + zlen e < 2 ^ 63 → is_str (set_str_range s e r) s e.
Proof.
  intros Hs He Hl. unfold set_str_range. rewrite (proj2 (Z.eqb_neq _ 0)).
  - by split_and!.
  - pose proof (zlen_pos s Hs). pose proof (zlen_nonneg e). lia.
Qed.

Lemma str_nonempty r s e : is_str r s e → range_empty r = false.
Proof.
  intros (E & _ & Hs & _). apply bool_decide_eq_false. rewrite E. by destruct s.
Qed.

(** [unary] on the two kinds of ranges. *)
Lemma unary_pair T r a b : is_pair T r a b → range_start_size_ r = 0 →
  unary r = Ok (bool_decide (a = b)).
Proof.
  intros Hp Hs. unfold unary. rewrite (pair_nonempty T r a b Hp). simpl.
  destruct Hp as (E & Ha & Hb). rewrite Hs, E, zlen_app, !zlen_nenc. simpl.
  pose proof (nsize_pos T). replace ((nsize T + nsize T) / 2) with (nsize T)
    by (apply Z.div_unique_exact; lia).
  f_equal. apply bool_decide_ext.
  assert (slice 0 (nsize T) (nenc T a ++ nenc T b) = nenc T a) as ->.
  { rewrite slice_app_l by (rewrite ?zlen_nenc; lia). rewrite <- (zlen_nenc T a). apply slice_all. }
  assert (slice (nsize T) (nsize T) (nenc T a ++ nenc T b) = nenc T b) as ->.
  { rewrite <- (zlen_nenc T a) at 1. rewrite slice_app_r, <- (zlen_nenc T b). apply slice_all. }
  split; [|by intros ->].
  intros Eq. rewrite <- (ndec_nenc T a), <- (ndec_nenc T b) by done. by rewrite Eq.
Qed.

Lemma unary_str r s e : is_str r s e → unary r = Ok (bool_decide (s = e)).
Proof.
  intros Hi. unfold unary. rewrite (str_nonempty r s e Hi). simpl.
  destruct Hi as (E & Es & Hs & He & Hl). rewrite Es, E, zlen_app.
  pose proof (zlen_pos s Hs). pose proof (zlen_pos e He).
  rewrite (proj2 (Z.eqb_neq (zlen s) 0)), u64_id by lia. simpl orb. f_equal.
  destruct (Z.eqb_spec (2 * zlen s) (zlen s + zlen e)) as [Eq|Ne]; simpl.
  - assert (zlen e = zlen s) as Hse by lia. rewrite Hse.
    replace ((zlen s + zlen s) / 2) with (zlen s)
      by (apply Z.div_unique_exact; lia).
    apply bool_decide_ext. rewrite slice_app_l, slice_all, slice_app_r by lia.
    by rewrite <- Hse, slice_all.
  - symmetry. apply bool_decide_eq_false. intros ->. lia.
Qed.

(** ** The order of byte strings *)

Lemma str_lt_irrefl a : str_lt a a = false.
Proof. induction a as [|x a IH]; [done|]. simpl. by rewrite Z.ltb_irrefl. Qed.

Lemma str_lt_trans a b c : str_lt a b = true → str_lt b c = true → str_lt a c = true.
Proof.
  revert b c. induction a as [|x a IH]; intros [|y b] [|z c]; simpl; try done.
  destruct (Z.ltb_spec x y), (Z.ltb_spec y x), (Z.ltb_spec y z), (Z.ltb_spec z y),
    (Z.ltb_spec x z), (Z.ltb_spec z x); try done; try lia. apply IH.
Qed.

Lemma str_lt_total a b : str_lt a b = false → str_lt b a = false → a = b.
Proof.
  revert b. induction a as [|x a IH]; intros [|y b]; simpl; try done.
  destruct (Z.ltb_spec x y), (Z.ltb_spec y x); try done; try lia.
  intros H1 H2. f_equal; [lia|]. by apply IH.
Qed.

Lemma str_lt_asym a b : str_lt a b = true → str_lt b a = false.
Proof.
  intros H. destruct (str_lt b a) eqn:E; [|done].
  pose proof (str_lt_trans _ _ _ H E) as C. by rewrite str_lt_irrefl in C.
Qed.

Lemma str_le_refl a : str_le a a = true.
Proof. unfold str_le. by rewrite str_lt_irrefl. Qed.

Lemma str_le_trans a b c : str_le a b = true → str_le b c = true → str_le a c = true.
Proof.
  unfold str_le. rewrite !negb_true_iff. intros H1 H2.
  destruct (str_lt c a) eqn:E; [|done]. destruct (str_lt a b) eqn:Eab.
  - by rewrite (str_lt_trans _ _ _ E Eab) in H2.
  - rewrite (str_lt_total a b Eab H1) in E. congruence.
Qed.

Lemma str_lt_le a b : str_lt a b = true → str_le a b = true.
Proof. intros H. unfold str_le. by rewrite (str_lt_asym a b H). Qed.

Lemma str_le_lt_trans a b c : str_le a b = true → str_lt b c = true → str_lt a c = true.
Proof.
  intros Hab Hbc. destruct (str_lt a c) eqn:E; [done|].
  assert (str_le c a = true) as Hca by (unfold str_le; by rewrite E).
  pose proof (str_le_trans _ _ _ Hca Hab) as Hcb. unfold str_le in Hcb. by rewrite Hbc in Hcb.
Qed.

(** Closes goals about [str_lt] and [str_le] by case analysis. *)
Ltac str_cases :=
  unfold str_le in *; rewrite ?negb_true_iff, ?negb_false_iff in *;
  repeat match goal with |- context [if str_lt ?a ?b then _ else _] =>
    let E := fresh "E" in destruct (str_lt a b) eqn:E end.
