(* ===== verification/Metadata.v ===== *)
(** * Array metadata (metadata/metadata.cc)

    A [Metadata] object.  [metadata_map_] is the [std::map], in the order of its
    keys; every node has a number, which is what the pointers of [metadata_index_]
    designate.  A key is the characters of the C string. *)

From stdpp Require Import sorting.
From S2P Require Import Prelude.
From S2P Require Import Enums.
From S2P Require Import Range.
From S2P Require Import Strings.
From S2P Require Import Uri.
From S2P Require Import StorageUris.
From S2P Require Import ConstBuffer.
From S2P Require Import Buffer.
Local Open Scope Z_scope.

Record MetadataValue : Type := mkValue {
  del_ : Z;
  type_ : Z;
  num_ : Z;
  value_ : list Z
}.

(** ** [std::map<std::string, MetadataValue>] *)

Abbreviation node := (list Z * (nat * MetadataValue))%type.

Fixpoint map_find (k : list Z) (m : list node) : option (nat * MetadataValue) :=
  match m with
  | [] => None
  | (k', v) :: m => if bool_decide (k = k') then Some v else map_find k m
  end.

Definition map_erase (k : list Z) (m : list node) : list node := filter (λ n, n.1 ≠ k) m.

(** [emplace]: a key that is there keeps its value. *)
Fixpoint map_emplace (k : list Z) (v : nat * MetadataValue) (m : list node) : list node :=
  match m with
  | [] => [(k, v)]
  | (k', v') :: m' =>
      if bool_decide (k = k') then m
      else if str_lt k k' then (k, v) :: m
      else (k', v') :: map_emplace k v m'
  end.

(** ** The object *)

Record Metadata : Type := mkMetadata {
  metadata_map_ : list node;
  metadata_index_ : list nat;
  timestamp_range_ : Z * Z;
  loaded_metadata_uris_ : list (list Z);
  uri_ : list Z;
  next_node : nat
}.

Definition with_map (md : Metadata) (m : list node) : Metadata :=
  mkMetadata m (metadata_index_ md) (timestamp_range_ md) (loaded_metadata_uris_ md) (uri_ md) (next_node md).

(** A new node. *)
Definition emplace (k : list Z) (v : MetadataValue) (md : Metadata) : Metadata :=
  mkMetadata (map_emplace k (next_node md, v) (metadata_map_ md)) (metadata_index_ md) (timestamp_range_ md)
    (loaded_metadata_uris_ md) (uri_ md) (S (next_node md)).

Definition erase (k : list Z) (md : Metadata) : Metadata := with_map md (map_erase k (metadata_map_ md)).

(** The constructor, at time [now]. *)
Definition make (now : Z) : Metadata := mkMetadata [] [] (now, now) [] [] 0.

Definition clear (md : Metadata) : Metadata := mkMetadata [] [] (0, 0) [] [] (next_node md).

Definition build_metadata_index (md : Metadata) : Metadata :=
  mkMetadata (metadata_map_ md) ((λ n, n.2.1) <$> metadata_map_ md) (timestamp_range_ md)
    (loaded_metadata_uris_ md) (uri_ md) (next_node md).

Definition generate_uri (env : Environ) (rnd : option (list Z)) (array_uri : list Z) (md : Metadata) : res Metadata :=
  uuid ← generate_uuid rnd false;
  dir ← join_path env array_uri array_metadata_folder_name;
  uri ← join_path env dir (lit "__" ++ print_uint (timestamp_range_ md).1 ++ lit "_" ++
    print_uint (timestamp_range_ md).2 ++ lit "_" ++ uuid);
  Ok (mkMetadata (metadata_map_ md) (metadata_index_ md) (timestamp_range_ md) (loaded_metadata_uris_ md) uri (next_node md)).

Definition get_uri (env : Environ) (rnd : option (list Z)) (array_uri : list Z) (md : Metadata) : res (list Z * Metadata) :=
  md ← (if bool_decide (uri_ md = []) then generate_uri env rnd array_uri md else Ok md);
  Ok (uri_ md, md).

(** ** Serialization *)

Section serialize.
Context `{!Allocator}.

Definition write_item (n : node) : M Buffer.t unit :=
  let v := n.2.2 in
  Buffer.write_val U32 (conv U32 (zlen n.1));;
  Buffer.write n.1;;
  Buffer.write_val U8 (del_ v);;
  if del_ v =? 0 then
    Buffer.write_val U8 (type_ v);;
    Buffer.write_val U32 (num_ v);;
    if num_ v =? 0 then mret () else Buffer.write (value_ v)
  else mret ().

Definition serialize (md : Metadata) : M Buffer.t unit := write_many write_item (metadata_map_ md).

End serialize.

(** [datatype_size], of a code that may be none. *)
Definition type_size (code : Z) : res Z :=
  match datatype_of_code code with Some ty => Ok (datatype_size ty) | None => UB end.

(** [std::string((const char* )buff->cur_data(), key_len)] and [advance_offset]. *)
Definition read_key (key_len : Z) : M ConstBuffer.t (list Z) :=
  b ← get;
  key ← lift (ConstBuffer.cur_data b key_len);
  ConstBuffer.advance_offset key_len;;
  mret key.

(** One item: [erase], then the value unless it is a deletion. *)
Definition load_item : M (ConstBuffer.t * Metadata) unit :=
  key_len ← on_fst (read_val U32);
  key ← on_fst (read_key key_len);
  del ← on_fst (read_val U8);
  md ← on_snd get;
  on_snd (put (erase key md));;
  if del =? 0 then
    type ← on_fst (read_val U8);
    num ← on_fst (read_val U32);
    value ← (if num =? 0 then mret []
             else size ← lift (type_size type); on_fst (ConstBuffer.read (u64 (num * size))));
    md ← on_snd get;
    on_snd (put (emplace key (mkValue del type num value) md))
  else mret ().

(** The loop over the items of a buffer; each consumes five bytes at least. *)
Fixpoint load_items (fuel : nat) : M (ConstBuffer.t * Metadata) unit :=
  match fuel with
  | O => lift UB
  | S fuel =>
      b ← on_fst get;
      if ConstBuffer.offset_ b =? ConstBuffer.size_ b then mret ()
      else load_item;; load_items fuel
  end.

Fixpoint load_buffers (metadata_buffs : list ConstBuffer.t) : M Metadata unit :=
  match metadata_buffs with
  | [] => mret ()
  | buff :: buffs => λ md,
      let b := ConstBuffer.mk (ConstBuffer.data_ buff) (ConstBuffer.size_ buff) 0 in
      match load_items (S (Z.to_nat (ConstBuffer.size_ buff))) (b, md) with
      | (Ok _, (_, md')) => load_buffers buffs md'
      | (Err c e, (_, md')) => (Err c e, md')
      | (UB, (_, md')) => (UB, md')
      end
  end.

Definition deserialize (metadata_buffs : list ConstBuffer.t) : M Metadata unit :=
  md ← get;
  put (clear md);;
  match metadata_buffs with
  | [] => mret ()
  | _ => load_buffers metadata_buffs;; (md ← get; put (build_metadata_index md))
  end.

(** ** Access *)

Definition del (key : list Z) (md : Metadata) : Metadata := emplace key (mkValue 1 0 0 []) md.

(** A null [value] is none. *)
Definition put_value (key : list Z) (value_type : Datatype) (value_num : Z) (value : option (list Z)) (md : Metadata) :
    res Metadata :=
  _ ← massert (negb (bool_decide (value_type = ANY)));
  let value_num := match value with None => 0 | Some _ => value_num end in
  let value_size := u64 (value_num * datatype_size value_type) in
  bytes ← (if value_size =? 0 then Ok [] else memread (default [] value) 0 value_size);
  Ok (emplace key (mkValue 0 (datatype_code value_type) value_num bytes) (erase key md)).

(** What the caller gets of a value: its type, the number of values and the
    pointer to them. *)
Definition value_of (v : MetadataValue) : Z * Z * option (list Z) :=
  if num_ v =? 0 then (type_ v, 1, None) else (type_ v, num_ v, Some (value_ v)).

Definition get_value (key : list Z) (md : Metadata) : option (Z * Z * option (list Z)) :=
  (λ n, value_of n.2) <$> map_find key (metadata_map_ md).

(** The pointer [metadata_index_[index]], followed; a node that has been erased is
    none. *)
Definition get_index (index : Z) (md : Metadata) : res (list Z * (Z * Z * option (list Z)) * Metadata) :=
  let md := match metadata_index_ md with [] => build_metadata_index md | _ => md end in
  match metadata_index_ md !! Z.to_nat index with
  | None => Err SC_Metadata "Cannot get metadata; index out of bounds"
  | Some i =>
      match filter (λ n : node, n.2.1 = i) (metadata_map_ md) with
      | [] => UB
      | n :: _ => Ok (n.1, value_of n.2.2, md)
      end
  end.

Definition has_key (key : list Z) (md : Metadata) : option Z := (λ n, type_ n.2) <$> map_find key (metadata_map_ md).

Definition num (md : Metadata) : Z := zlen (metadata_map_ md).

Definition set_loaded_metadata_uris (loaded : list TimestampedURI) (md : Metadata) : Metadata :=
  match loaded, last loaded with
  | front :: _, Some back =>
      mkMetadata (metadata_map_ md) (metadata_index_ md)
        ((StorageUris.timestamp_range_ front).1, (StorageUris.timestamp_range_ back).2)
        (StorageUris.uri_ <$> loaded) (uri_ md) (next_node md)
  | _, _ => md
  end.

(** The nodes keep their addresses: each object's counter stays with its map. *)
Definition swap (a b : Metadata) : Metadata * Metadata :=
  (mkMetadata (metadata_map_ b) (metadata_index_ b) (timestamp_range_ b) (loaded_metadata_uris_ b) (uri_ a) (next_node b),
   mkMetadata (metadata_map_ a) (metadata_index_ a) (timestamp_range_ a) (loaded_metadata_uris_ a) (uri_ b) (next_node a)).

Definition reset (timestamp now : Z) (md : Metadata) : Metadata :=
  let t := if timestamp =? 0 then now else timestamp in
  let md := clear md in
  mkMetadata (metadata_map_ md) (metadata_index_ md) (t, t) (loaded_metadata_uris_ md) (uri_ md) (next_node md).
