(* ===== verification/MetadataProofs.v ===== *)
(** * Array metadata is read back (metadata/metadata.cc) *)

From stdpp Require Import sorting.
From S2P Require Import Prelude.
From S2P Require Import Enums.
From S2P Require Import Range.
From S2P Require Import Strings.
From S2P Require Import Uri.
From S2P Require Import StorageUris.
From S2P Require Import StorageVacuum.
From S2P Require Import ConstBuffer.
From S2P Require Import Buffer.
From S2P Require Import Metadata.
Local Open Scope Z_scope.

(** ** The ordered map *)

(** The nodes are in order, with different keys. *)
Definition ordered (m : list node) : Prop := StronglySorted (λ a b, str_lt a.1 b.1 = true) m.

Lemma find_above k m : Forall (λ n, str_lt k n.1 = true) m → map_find k m = None.
Proof.
  induction 1 as [|[k' v] m Hk _ IH]; [done|]. simpl in *. rewrite bool_decide_false; [done|].
  intros ->. by rewrite str_lt_irrefl in Hk.
Qed.

Lemma find_erase k k' m : map_find k (map_erase k' m) = if bool_decide (k = k') then None else map_find k m.
Proof.
  induction m as [|[k1 v] m IH]; simpl; [by destruct (bool_decide _)|]. unfold map_erase in *.
  destruct (decide (k1 = k')) as [->|Hne].
  - rewrite filter_cons_False by (simpl; tauto). rewrite IH. by case_bool_decide.
  - rewrite filter_cons_True by done. simpl. rewrite IH. repeat case_bool_decide; congruence.
Qed.

Lemma find_emplace k k' v m : ordered m →
  map_find k (map_emplace k' v m) =
  match map_find k m with Some w => Some w | None => if bool_decide (k = k') then Some v else None end.
Proof.
  induction 1 as [|[k1 v1] m Hm IH Hall]; simpl; [by destruct (bool_decide _)|].
  destruct (decide (k' = k1)) as [<-|E1].
  { rewrite (bool_decide_true (k' = k')) by done. simpl. destruct (bool_decide (k = k')); [done|]. by destruct (map_find k m). }
  rewrite (bool_decide_false (k' = k1)) by done. destruct (str_lt k' k1) eqn:El; simpl.
  - destruct (decide (k = k')) as [->|Hne].
    + rewrite !(bool_decide_true (k' = k')), (bool_decide_false (k' = k1)) by done. rewrite find_above; [done|].
      eapply Forall_impl; [exact Hall|]. intros n Hn. simpl in Hn. by eapply str_lt_trans.
    + rewrite !(bool_decide_false (k = k')) by done. destruct (bool_decide (k = k1)); [done|]. by destruct (map_find k m).
  - destruct (bool_decide (k = k1)); [done|]. apply IH.
Qed.

Lemma ordered_erase k m : ordered m → ordered (map_erase k m).
Proof.
  induction 1 as [|n m Hm IH Hall]; [constructor|]. unfold map_erase in *. destruct (decide (n.1 ≠ k)).
  - rewrite filter_cons_True by done. constructor; [done|]. rewrite Forall_forall in Hall |- *.
    intros x [_ Hx]%list_elem_of_filter. auto.
  - by rewrite filter_cons_False.
Qed.

Lemma emplace_elem n k v m : n ∈ map_emplace k v m → n = (k, v) ∨ n ∈ m.
Proof.
  induction m as [|[k1 v1] m IH]; simpl; [rewrite list_elem_of_singleton; auto|].
  case_bool_decide; [auto|]. destruct (str_lt k k1); rewrite !elem_of_cons; [tauto|]. tauto.
Qed.

Lemma ordered_emplace k v m : ordered m → ordered (map_emplace k v m).
Proof.
  induction 1 as [|[k1 v1] m Hm IH Hall]; simpl; [repeat constructor|].
  case_bool_decide as E; [by constructor|]. destruct (str_lt k k1) eqn:El.
  - constructor; [by constructor|]. constructor; [done|]. eapply Forall_impl; [exact Hall|]. intros n Hn. by eapply str_lt_trans.
  - constructor; [done|]. rewrite Forall_forall in Hall |- *. intros n [->|Hn]%emplace_elem; [|auto]. simpl.
    destruct (str_lt k1 k) eqn:E'; [done|]. by destruct (E (str_lt_total k k1 El E')).
Qed.

Lemma find_elem m n : ordered m → n ∈ m → map_find n.1 m = Some n.2.
Proof.
  induction 1 as [|[k v] m Hm IH Hall]; intros Hn; [by apply elem_of_nil in Hn|].
  apply elem_of_cons in Hn as [->|Hn]; simpl; [by rewrite bool_decide_true|].
  rewrite bool_decide_false; [by apply IH|]. rewrite Forall_forall in Hall. intros E. specialize (Hall n Hn). simpl in Hall.
  rewrite E, str_lt_irrefl in Hall. done.
Qed.

(** ** The object *)

(** The value under a key. *)
Definition value_in (md : Metadata) (k : list Z) : option MetadataValue := snd <$> map_find k (metadata_map_ md).

(** The invariant: the map is in order, and its nodes are all different. *)
Definition wf_md (md : Metadata) : Prop :=
  ordered (metadata_map_ md) ∧ NoDup ((λ n, n.2.1) <$> metadata_map_ md) ∧
  Forall (λ n, (n.2.1 < next_node md)%nat) (metadata_map_ md).

Lemma wf_erase k md : wf_md md → wf_md (erase k md).
Proof.
  intros (Ho & Hn & Hl). split_and!; simpl.
  - by apply ordered_erase.
  - eapply sublist_NoDup; [exact Hn|]. apply fmap_sublist, sublist_filter.
  - rewrite Forall_forall in Hl |- *. intros n [_ Hin]%list_elem_of_filter. auto.
Qed.

Lemma emplace_ids k v m : map_emplace k v m = m ∨
  ((λ n : node, n.2.1) <$> map_emplace k v m) ≡ₚ v.1 :: ((λ n, n.2.1) <$> m).
Proof.
  induction m as [|[k1 v1] m IH]; simpl; [by right|]. case_bool_decide; [by left|]. destruct (str_lt k k1); [by right|].
  destruct IH as [->|IH]; [by left|right]. simpl. rewrite IH. constructor.
Qed.

Lemma wf_emplace k v md : wf_md md → wf_md (emplace k v md).
Proof.
  intros (Ho & Hn & Hl). split_and!; simpl; [by apply ordered_emplace| |].
  - destruct (emplace_ids k (next_node md, v) (metadata_map_ md)) as [->| ->]; [done|]. simpl. constructor; [|done].
    rewrite list_elem_of_fmap. intros (n & E & Hin). rewrite Forall_forall in Hl. specialize (Hl n Hin). simpl in *. lia.
  - rewrite Forall_forall in Hl |- *. intros n [->|Hin]%emplace_elem; simpl; [lia|]. specialize (Hl n Hin). simpl in *. lia.
Qed.

Lemma value_erase k k' md : value_in (erase k' md) k = if bool_decide (k = k') then None else value_in md k.
Proof. unfold value_in. simpl. rewrite find_erase. by case_bool_decide. Qed.

Lemma value_emplace k k' v md : wf_md md → value_in (emplace k' v md) k =
  match value_in md k with Some w => Some w | None => if bool_decide (k = k') then Some v else None end.
Proof.
  intros (Ho & _). unfold value_in. simpl. rewrite find_emplace by done. destruct (map_find k _); [done|]. by case_bool_decide.
Qed.

(** ** Serialization *)

(** A value that can be stored. *)
Definition value_ok (v : MetadataValue) : Prop :=
  in_ctype U8 (del_ v) ∧
  (del_ v = 0 → ∃ ty, type_ v = datatype_code ty ∧ in_ctype U32 (num_ v) ∧ Forall byte_ok (value_ v) ∧
    zlen (value_ v) = num_ v * datatype_size ty).

Definition node_ok (n : node) : Prop := zlen n.1 < 2 ^ 32 ∧ Forall byte_ok n.1 ∧ value_ok n.2.2.

Definition enc_item (n : node) : list Z :=
  to_bytes U32 (zlen n.1) ++ n.1 ++ to_bytes U8 (del_ n.2.2) ++
  if del_ n.2.2 =? 0 then to_bytes U8 (type_ n.2.2) ++ to_bytes U32 (num_ n.2.2) ++ value_ n.2.2 else [].

Definition enc_map (m : list node) : list Z := concat (enc_item <$> m).

Lemma datatype_size_pos ty : 1 ≤ datatype_size ty ≤ 8.
Proof. destruct ty; simpl; lia. Qed.

Lemma write_item_appends `{!Allocator} n : node_ok n → appends (write_item n) (enc_item n).
Proof.
  intros (Hl & Hb & Hd & Hv). pose proof (zlen_nonneg n.1). unfold write_item, enc_item.
  rewrite conv_id by (unfold_ctype; simpl; lia).
  apply appends_seq; [apply appends_val|]. apply appends_seq; [by apply appends_write|].
  apply appends_seq; [apply appends_val|]. destruct (Z.eqb_spec (del_ n.2.2) 0) as [E|E]; [|apply appends_ret].
  destruct (Hv E) as (ty & Ht & Hn & Hvb & Hvl). pose proof (datatype_size_pos ty).
  apply appends_seq; [apply appends_val|]. apply appends_seq; [apply appends_val|].
  destruct (Z.eqb_spec (num_ n.2.2) 0) as [E0|E0]; [|by apply appends_write].
  rewrite E0, Z.mul_0_l in Hvl. destruct (value_ n.2.2) as [|x l]; [apply appends_ret|].
  rewrite zlen_cons in Hvl. pose proof (zlen_nonneg l). lia.
Qed.

Lemma metadata_serialize_appends `{!Allocator} md : Forall node_ok (metadata_map_ md) →
  appends (serialize md) (enc_map (metadata_map_ md)).
Proof.
  intros Hm. apply appends_many. rewrite Forall_forall in Hm. intros n Hn. by apply write_item_appends, Hm.
Qed.

(** What one item does to the object. *)
Definition apply_item (md : Metadata) (n : node) : Metadata :=
  if del_ n.2.2 =? 0 then emplace n.1 n.2.2 (erase n.1 md) else erase n.1 md.

Lemma read_key_parses k : parses (read_key (zlen k)) k k.
Proof.
  intros b rest Hwf Hv. destruct (read_view b k rest Hwf Hv) as (b' & E & W & V & D & S & O).
  exists b'. split_and!; try done. unfold ConstBuffer.read in E. unfold read_key, ConstBuffer.cur_data, ConstBuffer.advance_offset.
  unfold mbind, M_bind, get, lift. destruct (_ <? _); [done|].
  destruct (memread (ConstBuffer.block (ConstBuffer.data_ b)) (ConstBuffer.offset_ b) (zlen k)) as [x| |]; [|done..]. by injection E as -> <-.
Qed.

(** An operation on the first of two objects that parses. *)
Lemma fst_parses {A S} (m : M ConstBuffer.t A) x a b rest (s : S) : parses m x a → ConstBuffer.wf b → view b = x ++ rest →
  ∃ b', on_fst m (b, s) = (Ok a, (b', s)) ∧ ConstBuffer.wf b' ∧ view b' = rest ∧ ConstBuffer.size_ b' = ConstBuffer.size_ b ∧
    ConstBuffer.offset_ b' = ConstBuffer.offset_ b + zlen x.
Proof.
  intros Hm Hwf Hv. destruct (Hm b rest Hwf Hv) as (b' & E & W & V & D & S' & O). exists b'. unfold on_fst. rewrite E. done.
Qed.

Lemma value_parses v ty : num_ v ≠ 0 → in_ctype U32 (num_ v) → zlen (value_ v) = num_ v * datatype_size ty →
  parses (ConstBuffer.read (u64 (num_ v * datatype_size ty))) (value_ v) (value_ v).
Proof.
  intros H0 Hn Hl. pose proof (datatype_size_pos ty). apply parses_read. rewrite Hl. apply u64_id.
  unfold_ctype. simpl in Hn. nia.
Qed.

Lemma load_item_spec n b rest md : node_ok n → ConstBuffer.wf b → view b = enc_item n ++ rest →
  ∃ b', load_item (b, md) = (Ok (), (b', apply_item md n)) ∧ ConstBuffer.wf b' ∧ view b' = rest ∧ ConstBuffer.size_ b' = ConstBuffer.size_ b ∧
    ConstBuffer.offset_ b < ConstBuffer.offset_ b'.
Proof.
  intros (Hl & Hb & Hd & Hv) W V. pose proof (zlen_nonneg n.1). unfold enc_item in V. rewrite <- !app_assoc in V. unfold load_item.
  destruct (fst_parses (read_val U32) _ (zlen n.1) b _ md (parses_val U32 (zlen n.1) ltac:(unfold_ctype; simpl; lia)) W V)
    as (b1 & E1 & W1 & V1 & S1 & O1). rewrite (M_step _ _ _ _ _ E1). rewrite zlen_to_bytes in O1. change (csize U32) with 4 in O1.
  destruct (fst_parses (read_key (zlen n.1)) _ n.1 b1 _ md (read_key_parses n.1) W1 V1) as (b2 & E2 & W2 & V2 & S2 & O2).
  rewrite (M_step _ _ _ _ _ E2).
  destruct (fst_parses (read_val U8) _ (del_ n.2.2) b2 _ md (parses_val U8 _ Hd) W2 V2) as (b3 & E3 & W3 & V3 & S3 & O3).
  rewrite (M_step _ _ _ _ _ E3). rewrite zlen_to_bytes in O3. change (csize U8) with 1 in O3.
  rewrite (M_step (on_snd get) _ md _ (b3, md)) by done. rewrite (M_step (on_snd (put _)) _ () _ (b3, erase n.1 md)) by done.
  unfold apply_item. destruct (Z.eqb_spec (del_ n.2.2) 0) as [E|E].
  2:{ exists b3. split_and!; [done|done|done|congruence|lia]. }
  destruct (Hv E) as (ty & Ht & Hn & Hvb & Hvl). rewrite <- !app_assoc in V3.
  destruct (fst_parses (read_val U8) _ (type_ n.2.2) b3 _ (erase n.1 md) (parses_val U8 (type_ n.2.2) ltac:(rewrite Ht; apply datatype_code_byte)) W3 V3)
    as (b4 & E4 & W4 & V4 & S4 & O4). rewrite (M_step _ _ _ _ _ E4). rewrite zlen_to_bytes in O4. change (csize U8) with 1 in O4.
  destruct (fst_parses (read_val U32) _ (num_ n.2.2) b4 _ (erase n.1 md) (parses_val U32 _ Hn) W4 V4) as (b5 & E5 & W5 & V5 & S5 & O5).
  rewrite (M_step _ _ _ _ _ E5). rewrite zlen_to_bytes in O5. change (csize U32) with 4 in O5.
  assert (∃ b6, (if num_ n.2.2 =? 0 then mret [] else size ← lift (type_size (type_ n.2.2)); on_fst (ConstBuffer.read (u64 (num_ n.2.2 * size))))
    (b5, erase n.1 md) = (Ok (value_ n.2.2), (b6, erase n.1 md)) ∧ ConstBuffer.wf b6 ∧ view b6 = rest ∧ ConstBuffer.size_ b6 = ConstBuffer.size_ b5 ∧
    ConstBuffer.offset_ b5 ≤ ConstBuffer.offset_ b6) as (b6 & E6 & W6 & V6 & S6 & O6).
  { destruct (Z.eqb_spec (num_ n.2.2) 0) as [E0|E0].
    - rewrite E0, Z.mul_0_l in Hvl. destruct (value_ n.2.2) as [|x l].
      + exists b5. split_and!; [done..|lia].
      + rewrite zlen_cons in Hvl. pose proof (zlen_nonneg l). lia.
    - unfold type_size. rewrite Ht, datatype_of_code_code. rewrite (M_step (lift _) _ (datatype_size ty) _ (b5, erase n.1 md)) by done.
      destruct (fst_parses _ _ _ b5 rest (erase n.1 md) (value_parses n.2.2 ty E0 Hn Hvl) W5 V5) as (b6 & E6 & W6 & V6 & S6 & O6).
      exists b6. pose proof (zlen_nonneg (value_ n.2.2)). split_and!; [done..|lia]. }
  rewrite (M_step _ _ _ _ _ E6). rewrite (M_step (on_snd get) _ (erase n.1 md) _ (b6, erase n.1 md)) by done.
  exists b6. split_and!; [|done|done|congruence|lia]. by destruct (n.2.2).
Qed.

Lemma load_items_spec m : Forall node_ok m → ∀ fuel b md, (length m < fuel)%nat → ConstBuffer.wf b → view b = enc_map m →
  ∃ b', load_items fuel (b, md) = (Ok (), (b', foldl apply_item md m)).
Proof.
  induction 1 as [|n m Hn _ IH]; intros [|fuel] b md Hf W V; [lia| |simpl in Hf; lia|].
  - pose proof (zlen_view b W) as Hz. rewrite V in Hz. change (zlen (enc_map [])) with 0 in Hz. exists b. simpl.
    rewrite (M_step (on_fst get) _ b _ (b, md)) by done. by rewrite (proj2 (Z.eqb_eq _ _)) by lia.
  - change (enc_map (n :: m)) with (enc_item n ++ enc_map m) in V. simpl. rewrite (M_step (on_fst get) _ b _ (b, md)) by done.
    destruct (load_item_spec n b _ md Hn W V) as (b1 & E1 & W1 & V1 & S1 & O1).
    rewrite (proj2 (Z.eqb_neq _ _)) by (destruct W1; lia). rewrite (M_step _ _ _ _ _ E1).
    apply IH; [simpl in Hf; lia|done|done].
Qed.

Lemma enc_map_length m : Forall node_ok m → Z.of_nat (length m) ≤ zlen (enc_map m).
Proof.
  induction 1 as [|n m Hn _ IH]; [done|]. change (enc_map (n :: m)) with (enc_item n ++ enc_map m). rewrite zlen_app.
  unfold enc_item at 1. rewrite !zlen_app, zlen_to_bytes. change (csize U32) with 4. simpl length.
  pose proof (zlen_nonneg n.1). pose proof (zlen_nonneg (to_bytes U8 (del_ n.2.2))).
  pose proof (zlen_nonneg (if del_ n.2.2 =? 0 then to_bytes U8 (type_ n.2.2) ++ to_bytes U32 (num_ n.2.2) ++ value_ n.2.2 else [])). lia.
Qed.

(** ** Merging *)

Lemma wf_apply md n : wf_md md → wf_md (apply_item md n).
Proof. intros Hw. unfold apply_item. destruct (_ =? _); [apply wf_emplace|]; by apply wf_erase. Qed.

Lemma value_apply md n k : wf_md md → value_in (apply_item md n) k =
  if bool_decide (k = n.1) then (if del_ n.2.2 =? 0 then Some n.2.2 else None) else value_in md k.
Proof.
  intros Hw. unfold apply_item. destruct (del_ n.2.2 =? 0).
  - rewrite value_emplace by (by apply wf_erase). rewrite value_erase. destruct (bool_decide (k = n.1)); [done|]. by destruct (value_in md k).
  - apply value_erase.
Qed.

(** The value a key has after an item of its own, if there is one. *)
Definition override (m : list node) (k : list Z) (before : option MetadataValue) : option MetadataValue :=
  match map_find k m with
  | Some (_, v) => if del_ v =? 0 then Some v else None
  | None => before
  end.

Lemma apply_map m : ordered m → ∀ md, wf_md md →
  wf_md (foldl apply_item md m) ∧ ∀ k, value_in (foldl apply_item md m) k = override m k (value_in md k).
Proof.
  induction 1 as [|[k1 [i v]] m Hm IH Hall]; intros md Hw; [done|]. simpl.
  destruct (IH (apply_item md (k1, (i, v)))) as [Hw' Hv]; [by apply wf_apply|]. split; [done|]. intros k. rewrite Hv, value_apply by done.
  unfold override. simpl. case_bool_decide as E; [subst k1|done]. by rewrite find_above.
Qed.

(** The last writer wins. *)
Definition latest (ms : list (list node)) (k : list Z) : option MetadataValue :=
  foldl (λ v m, override m k v) None ms.

Lemma load_buffers_spec `{!Allocator} mds : Forall (λ md, ordered (metadata_map_ md) ∧ Forall node_ok (metadata_map_ md)) mds →
  ∀ bufs md, Forall2 (λ md b, holds b (enc_map (metadata_map_ md))) mds bufs → wf_md md →
  ∃ md', load_buffers (to_const <$> bufs) md = (Ok (), md') ∧ wf_md md' ∧
    ∀ k, value_in md' k = foldl (λ v m, override m k v) (value_in md k) (metadata_map_ <$> mds).
Proof.
  induction 1 as [|d mds [Ho Hn] _ IH]; intros bufs md Hb Hw; inversion Hb as [|? b ? bufs' Hh Hb']; subst; [by exists md|].
  destruct (to_const_view b _ Hh) as [W V]. 
  destruct (load_items_spec (metadata_map_ d) Hn (S (Z.to_nat (ConstBuffer.size_ (to_const b)))) (to_const b) md) as (b' & E); [|done..|].
  { pose proof (enc_map_length _ Hn). pose proof (holds_size _ _ Hh). simpl. lia. }
  destruct (apply_map (metadata_map_ d) Ho md Hw) as [Hw' Hv].
  destruct (IH bufs' (foldl apply_item md (metadata_map_ d)) Hb' Hw') as (md' & E' & Hw'' & Hv').
  exists md'. simpl in E |- *. change (to_const b) with (ConstBuffer.mk (data_ b) (size_ b) 0) in E. rewrite E. split_and!; [done|done|].
  intros k. rewrite Hv'. simpl. by rewrite Hv.
Qed.

(** ** Access *)

Lemma put_value_eq key ty n bytes md : ty ≠ ANY → in_ctype U32 n → zlen bytes = n * datatype_size ty →
  put_value key ty n (Some bytes) md = Ok (emplace key (mkValue 0 (datatype_code ty) n bytes) (erase key md)).
Proof.
  intros Ht Hn Hl. unfold put_value. rewrite bool_decide_false by done. simpl.
  pose proof (datatype_size_pos ty). rewrite u64_id by (unfold_ctype; simpl in Hn; nia). rewrite <- Hl.
  destruct (Z.eqb_spec (zlen bytes) 0) as [E|E]; cbn [mbind res_bind].
  - destruct bytes as [|x l]; [done|]. rewrite zlen_cons in E. pose proof (zlen_nonneg l). lia.
  - rewrite memread_ok by (pose proof (zlen_nonneg bytes); lia). cbn [mbind res_bind]. by rewrite slice_all.
Qed.

(** [put] replaces what a key had and nothing else; [get] and [has_key] see it, and
    the object stays in order. *)
Theorem put_get key ty n bytes md : wf_md md → ty ≠ ANY → in_ctype U32 n → zlen bytes = n * datatype_size ty →
  ∃ md', put_value key ty n (Some bytes) md = Ok md' ∧ wf_md md' ∧
    get_value key md' = Some (if n =? 0 then (datatype_code ty, 1, None) else (datatype_code ty, n, Some bytes)) ∧
    has_key key md' = Some (datatype_code ty) ∧
    ∀ k, k ≠ key → get_value k md' = get_value k md ∧ has_key k md' = has_key k md.
Proof.
  intros Hw Ht Hn Hl. rewrite put_value_eq by done. set (v := mkValue 0 (datatype_code ty) n bytes).
  pose proof (wf_erase key md Hw) as Hwe. exists (emplace key v (erase key md)).
  assert (∀ k, get_value k (emplace key v (erase key md)) = value_of <$> value_in (emplace key v (erase key md)) k) as Hg.
  { intros k. unfold get_value, value_in. by destruct (map_find _ _). }
  assert (∀ k, has_key k (emplace key v (erase key md)) = type_ <$> value_in (emplace key v (erase key md)) k) as Hh.
  { intros k. unfold has_key, value_in. by destruct (map_find _ _). }
  assert (∀ k, value_in (emplace key v (erase key md)) k = if bool_decide (k = key) then Some v else value_in md k) as Hv.
  { intros k. rewrite value_emplace, value_erase by done. destruct (bool_decide (k = key)); [done|]. by destruct (value_in md k). }
  split_and!; [done|by apply wf_emplace| | |].
  - rewrite Hg, Hv, bool_decide_true by done. simpl. unfold value_of. simpl. by destruct (n =? 0).
  - rewrite Hh, Hv, bool_decide_true by done. done.
  - intros k Hk. rewrite Hg, Hh, Hv, bool_decide_false by done. unfold get_value, has_key, value_in. by destruct (map_find _ _).
Qed.

(** [get] by index enumerates the map: the entry at an index is the entry under its
    key. *)
Theorem index_agrees md i n : wf_md md → metadata_index_ md = (λ n : node, n.2.1) <$> metadata_map_ md →
  metadata_map_ md !! Z.to_nat i = Some n →
  ∃ md', get_index i md = Ok (n.1, value_of n.2.2, md') ∧ get_value n.1 md' = Some (value_of n.2.2).
Proof.
  intros (Ho & Hnd & _) Hi Hn. exists md. pose proof (list_elem_of_lookup_2 _ _ _ Hn) as Hin. split.
  - unfold get_index. assert (metadata_index_ md ≠ []) as Hne.
    { rewrite Hi. destruct (metadata_map_ md); [done|]. done. }
    destruct (metadata_index_ md) as [|j js] eqn:Ei; [done|]. rewrite <- Ei in *. rewrite Hi, list_lookup_fmap, Hn. simpl.
    assert (filter (λ x : node, x.2.1 = n.2.1) (metadata_map_ md) = [n]) as ->; [|done].
    clear - Hnd Hin. induction (metadata_map_ md) as [|m l IH]; [by apply elem_of_nil in Hin|]. simpl in Hnd.
    apply NoDup_cons in Hnd as [Hm Hnd]. apply elem_of_cons in Hin as [<-|Hin].
    + rewrite filter_cons_True by done. f_equal. clear IH. induction l as [|x l IHl]; [done|]. simpl in Hm, Hnd.
      apply NoDup_cons in Hnd as [_ Hnd]. apply not_elem_of_cons in Hm as [Hm1 Hm2]. rewrite filter_cons_False by congruence. auto.
    + rewrite filter_cons_False; [auto|]. intros E. apply Hm. apply list_elem_of_fmap. by exists n.
  - unfold get_value. by rewrite (find_elem _ _ Ho Hin).
Qed.

(** [del] of a key that has been put in the same session does nothing: the
    deletion is lost, and what is stored is the value. *)
Theorem del_after_put_lost key md : wf_md md → is_Some (value_in md key) →
  metadata_map_ (del key md) = metadata_map_ md.
Proof.
  intros (Ho & _) Hs. unfold del, emplace, value_in in *. simpl.
  assert (∀ v, is_Some (map_find key (metadata_map_ md)) → map_emplace key v (metadata_map_ md) = metadata_map_ md) as H.
  { clear Hs. intros v. induction Ho as [|[k w] m Hm IH Hall]; [by intros [? ?]|]. simpl.
    destruct (decide (key = k)) as [->|Hne]; [by rewrite bool_decide_true|]. rewrite (bool_decide_false (key = k)) by done.
    intros Hs. destruct (str_lt key k) eqn:El; [|by rewrite IH].
    exfalso. rewrite find_above in Hs; [by destruct Hs|]. eapply Forall_impl; [exact Hall|]. intros x Hx. by eapply str_lt_trans. }
  apply H. destruct Hs as [v Hv]. destruct (map_find _ _); [eauto|done].
Qed.

(** ** Names *)

(** The name [generate_uri] gives carries the time range of the metadata. *)
Theorem metadata_uri_range env x md rnd : length rnd = 16%nat → (∃ y c, x = y ++ [c] ∧ c ≠ ch_slash) →
  0 ≤ (timestamp_range_ md).1 < 2 ^ 63 → 0 ≤ (timestamp_range_ md).2 < 2 ^ 63 →
  ∃ md', generate_uri env (Some rnd) (lit "file:///" ++ x) md = Ok md' ∧
    get_timestamp_range env (uri_ md') = Ok (timestamp_range_ md).
Proof.
  intros Hr (y & c & -> & Hc) H1 H2. destruct (uuid_hex rnd Hr) as (uuid & Eu & Hl & Hu). unfold generate_uri. rewrite Eu.
  cbn [mbind res_bind]. set (dir := lit "file:///" ++ (y ++ [c]) ++ lit "/" ++ array_metadata_folder_name).
  assert (join_path env (lit "file:///" ++ y ++ [c]) array_metadata_folder_name = Ok dir) as ->.
  { change array_metadata_folder_name with (95 :: lit "_meta"). rewrite (join_plain env _ c); [|by rewrite app_assoc, last_snoc|done|done].
    rewrite <- app_assoc. apply file_canonical. }
  cbn [mbind res_bind]. set (name := timed_name (timestamp_range_ md).1 (timestamp_range_ md).2 uuid None).
  assert (join_path env dir (lit "__" ++ print_uint (timestamp_range_ md).1 ++ lit "_" ++ print_uint (timestamp_range_ md).2 ++
    lit "_" ++ uuid) = Ok (dir ++ lit "/" ++ name)) as ->.
  { assert (lit "__" ++ print_uint (timestamp_range_ md).1 ++ lit "_" ++ print_uint (timestamp_range_ md).2 ++ lit "_" ++ uuid = name)
      as -> by (unfold name, timed_name; by rewrite app_nil_r).
    assert (∃ r, name = 95 :: r) as [r ->] by (unfold name, timed_name; by eexists).
    rewrite (join_plain env _ 97); [|unfold dir; by rewrite !last_app|done|done]. unfold dir. rewrite <- app_assoc. apply file_canonical. }
  eexists. split; [done|]. cbn [uri_].
  pose proof (timed_range env dir (timestamp_range_ md).1 (timestamp_range_ md).2 uuid None []) as H. fold name in H.
  rewrite app_nil_r in H. rewrite H; try done; [by destruct (timestamp_range_ md)|by left|]. unfold dir. rewrite <- app_assoc. apply file_canonical.
Qed.


(** ** Loading *)

(** Loaded metadata holds values only. *)
Definition live (md : Metadata) : Prop := Forall (λ n, node_ok n ∧ del_ n.2.2 = 0) (metadata_map_ md).

Lemma live_apply md n : node_ok n → live md → live (apply_item md n).
Proof.
  intros Hn Hl. unfold live, apply_item in *. rewrite Forall_forall in *.
  destruct (Z.eqb_spec (del_ n.2.2) 0) as [E|E]; simpl.
  - intros x [->|Hx]%emplace_elem; [|apply list_elem_of_filter in Hx as [_ Hx]; auto].
    split; [|done]. destruct Hn as (? & ? & ?). by split_and!.
  - intros x [_ Hx]%list_elem_of_filter. auto.
Qed.

Lemma live_apply_map m md : Forall node_ok m → live md → live (foldl apply_item md m).
Proof. intros Hm. revert md. induction Hm as [|n m Hn _ IH]; intros md Hl; [done|]. apply IH. by apply live_apply. Qed.

Lemma load_buffers_live `{!Allocator} mds : Forall (λ md, Forall node_ok (metadata_map_ md)) mds →
  ∀ bufs md md', Forall2 (λ md b, holds b (enc_map (metadata_map_ md))) mds bufs → live md →
  load_buffers (to_const <$> bufs) md = (Ok (), md') → live md'.
Proof.
  induction 1 as [|d mds Hn _ IH]; intros bufs md md' Hb Hl E; inversion Hb as [|? b ? bufs' Hh Hb']; subst; [by injection E as <-|].
  destruct (to_const_view b _ Hh) as [W V].
  destruct (load_items_spec (metadata_map_ d) Hn (S (Z.to_nat (ConstBuffer.size_ (to_const b)))) (to_const b) md) as (b' & E1); [|done..|].
  { pose proof (enc_map_length _ Hn). pose proof (holds_size _ _ Hh). simpl. lia. }
  simpl in E, E1. change (to_const b) with (ConstBuffer.mk (data_ b) (size_ b) 0) in E1. rewrite E1 in E.
  apply (IH bufs' (foldl apply_item md (metadata_map_ d)) md' Hb'); [by apply live_apply_map|done].
Qed.

(** The stored form of metadata. *)
Definition storable (md : Metadata) : Prop :=
  ordered (metadata_map_ md) ∧ Forall node_ok (metadata_map_ md) ∧ zlen (enc_map (metadata_map_ md)) ≤ 2 ^ 62.

Lemma serialized_holds `{!Allocator} mds bufs : Forall storable mds →
  Forall2 (λ md b, serialize md Buffer.empty = (Ok (), b)) mds bufs →
  Forall2 (λ md b, holds b (enc_map (metadata_map_ md))) mds bufs.
Proof.
  intros Hm Hb. revert Hm. induction Hb as [|md b mds bufs E _ IH]; intros Hm; [constructor|]. apply Forall_cons in Hm as [(_ & Hn & Hz) Hm].
  constructor; [|auto]. destruct (metadata_serialize_appends md Hn Buffer.empty [] holds_empty) as [(b' & E' & Hh)|(_ & e & b' & E')];
    [change (zlen []) with 0; lia|rewrite E in E'; by simplify_eq|rewrite E in E'; by simplify_eq].
Qed.

Lemma deserialize_loads `{!Allocator} mds bufs md0 : mds ≠ [] → Forall storable mds →
  Forall2 (λ md b, serialize md Buffer.empty = (Ok (), b)) mds bufs →
  ∃ md', deserialize (to_const <$> bufs) md0 = (Ok (), md') ∧ wf_md md' ∧ live md' ∧
    (∀ k, value_in md' k = latest (metadata_map_ <$> mds) k) ∧
    metadata_index_ md' = (λ n : node, n.2.1) <$> metadata_map_ md'.
Proof.
  intros Hne Hm Hb. pose proof (serialized_holds mds bufs Hm Hb) as Hh.
  destruct (load_buffers_spec mds) with (bufs := bufs) (md := clear md0) as (md' & E & Hw & Hv); [|done|split_and!; constructor|].
  { eapply Forall_impl; [exact Hm|]. unfold storable. tauto. }
  assert (live md') as Hl.
  { apply (load_buffers_live mds) with (bufs := bufs) (md := clear md0); [|done|constructor|done].
    eapply Forall_impl; [exact Hm|]. unfold storable. tauto. }
  exists (build_metadata_index md'). unfold deserialize. rewrite (M_step get _ md0 _ md0) by done.
  rewrite (M_step (put _) _ () _ (clear md0)) by done.
  destruct bufs as [|b bufs]; [by inversion Hb; subst|]. change (to_const <$> b :: bufs) with (to_const b :: (to_const <$> bufs)) in *.
  cbv iota. rewrite (M_step _ _ _ _ _ E). split_and!; [done|done|done|exact Hv|done].
Qed.

(** C11. Metadata that is written by several sessions and loaded in their order is what
    the last session that wrote each key wrote, without the keys it deleted; the
    index enumerates it in the order of the keys. *)
Theorem metadata_merge `{!Allocator} mds bufs md0 : mds ≠ [] → Forall storable mds →
  Forall2 (λ md b, serialize md Buffer.empty = (Ok (), b)) mds bufs →
  ∃ md', deserialize (to_const <$> bufs) md0 = (Ok (), md') ∧ wf_md md' ∧
    (∀ k, value_in md' k = latest (metadata_map_ <$> mds) k) ∧
    metadata_index_ md' = (λ n : node, n.2.1) <$> metadata_map_ md'.
Proof.
  intros Hne Hm Hb. destruct (deserialize_loads mds bufs md0 Hne Hm Hb) as (md' & E & Hw & _ & Hv & Hi). by exists md'.
Qed.

(** ** Consolidation *)

Lemma latest_app ms1 ms2 k : latest (ms1 ++ ms2) k = foldl (λ v m, override m k v) (latest ms1 k) ms2.
Proof. unfold latest. by rewrite foldl_app. Qed.

(** Sessions after which a key has its value whatever it had before, or that do not
    write it. *)
Lemma overrides_cases ms k : (∀ v w, foldl (λ v m, override m k v) v ms = foldl (λ v m, override m k v) w ms) ∨
  (∀ v, foldl (λ v m, override m k v) v ms = v).
Proof.
  induction ms as [|m ms [IH|IH]]; simpl; [by right|left; intros; apply IH|]. unfold override at 2 4 6.
  destruct (map_find k m) as [[i u]|]; [left|right]; intros; rewrite !IH; done.
Qed.

Lemma override_live md k v : wf_md md → live md → override (metadata_map_ md) k v = match value_in md k with Some w => Some w | None => v end.
Proof.
  intros _ Hl. unfold override, value_in. destruct (map_find k (metadata_map_ md)) as [[i w]|] eqn:E; [|done]. simpl.
  assert (del_ w = 0) as ->; [|done]. unfold live in Hl. rewrite Forall_forall in Hl.
  assert (∃ k', (k', (i, w)) ∈ metadata_map_ md) as [k' Hin]; [|by apply (Hl _ Hin)].
  clear Hl. induction (metadata_map_ md) as [|[k1 w1] m IH]; [done|]. simpl in E.
  case_bool_decide; [simplify_eq; exists k1; left|]. destruct (IH E) as [k' ?]. exists k'. by right.
Qed.

(** The consolidated metadata may be loaded before or after the first of the
    sessions it replaces: the values are the same. *)
Lemma latest_consolidated m ms mdc k : wf_md mdc → live mdc → (∀ k, value_in mdc k = latest (m :: ms) k) →
  latest (m :: metadata_map_ mdc :: ms) k = latest (m :: ms) k ∧ latest (metadata_map_ mdc :: m :: ms) k = latest (m :: ms) k.
Proof.
  intros Hw Hl Hv. specialize (Hv k). unfold latest in *. simpl in *. rewrite !override_live, Hv by done.
  destruct (overrides_cases ms k) as [Hc|Hc].
  - split; [apply Hc|]. destruct (overrides_cases [m] k) as [Hm|Hm]; simpl in Hm; apply Hc.
  - rewrite !Hc. split; [by destruct (override m k None)|].
    unfold override. destruct (map_find k m) as [[i u]|]; [|done]. by destruct (del_ u =? 0).
Qed.

(** C29. Metadata that has been loaded, written as one file and loaded again, alone or
    together with the files it replaces, is the same. *)
Theorem metadata_consolidation `{!Allocator} m0 mds b0 bufs md0 md b : Forall storable (m0 :: mds) →
  Forall2 (λ md b, serialize md Buffer.empty = (Ok (), b)) (m0 :: mds) (b0 :: bufs) →
  deserialize (to_const <$> b0 :: bufs) md0 = (Ok (), md) → zlen (enc_map (metadata_map_ md)) ≤ 2 ^ 62 →
  serialize md Buffer.empty = (Ok (), b) →
  ∀ bs, bs ∈ [[b]; b0 :: b :: bufs; b :: b0 :: bufs] →
  ∃ md', deserialize (to_const <$> bs) md0 = (Ok (), md') ∧ ∀ k, value_in md' k = value_in md k.
Proof.
  intros Hm Hb E Hz Eb bs Hbs.
  destruct (deserialize_loads (m0 :: mds) (b0 :: bufs) md0 ltac:(done) Hm Hb) as (md' & E' & Hw & Hl & Hv & _).
  rewrite E in E'. injection E' as <-. apply Forall_cons in Hm as [H0 Hm]. apply Forall2_cons in Hb as [Hb0 Hb].
  assert (storable md) as Hs.
  { split_and!; [apply Hw| |done]. eapply Forall_impl; [exact Hl|]. by intros n [? _]. }
  assert (∃ ms, Forall storable ms ∧ ms ≠ [] ∧ Forall2 (λ md b, serialize md Buffer.empty = (Ok (), b)) ms bs ∧
    ∀ k, latest (metadata_map_ <$> ms) k = value_in md k) as (ms & Hs' & Hne & Hb' & Hk).
  { pose proof (λ k, latest_consolidated (metadata_map_ m0) (fmap (M := list) metadata_map_ mds) md k Hw Hl Hv) as Hlat.
    rewrite !elem_of_cons, elem_of_nil in Hbs. destruct Hbs as [->|[->|[->|[]]]].
    - exists [md]. split_and!; [by apply Forall_singleton|done|by repeat constructor|]. intros k. unfold latest. simpl.
      rewrite override_live by done. by destruct (value_in md k).
    - exists (m0 :: md :: mds). split_and!; [by repeat apply Forall_cons_2|done|by repeat apply Forall2_cons_2|]. intros k. simpl. rewrite Hv. apply Hlat.
    - exists (md :: m0 :: mds). split_and!; [by repeat apply Forall_cons_2|done|by repeat apply Forall2_cons_2|]. intros k. simpl. rewrite Hv. apply Hlat. }
  destruct (deserialize_loads ms bs md0 Hne Hs' Hb') as (md' & E' & _ & _ & Hv' & _). exists md'. split; [done|].
  intros k. rewrite Hv'. apply Hk.
Qed.

(** ** A sample *)

#[local] Existing Instance zero_allocator.

Definition put_ok (key : list Z) (ty : Datatype) (n : Z) (bytes : list Z) (md : Metadata) : Metadata :=
  match put_value key ty n (Some bytes) md with Ok md' => md' | _ => md end.

(** The first session puts two keys, the second deletes one and puts another. *)
Definition session1 : Metadata := put_ok (lit "b") INT32 1 [7; 0; 0; 0] (put_ok (lit "a") UINT8 2 [1; 2] (make 5)).
Definition session2 : Metadata := put_ok (lit "c") CHAR 1 [65] (del (lit "a") (make 6)).

Definition serialized (md : Metadata) : Buffer.t := (serialize md Buffer.empty).2.

Lemma session_wf md : md ∈ [session1; session2] → storable md ∧ serialize md Buffer.empty = (Ok (), serialized md).
Proof.
  assert (∀ l, l ∈ [metadata_map_ session1; metadata_map_ session2] → Forall node_ok l) as Hn.
  { intros l [->|[->|[]%elem_of_nil]%elem_of_cons]%elem_of_cons.
    - repeat (apply Forall_cons_2 || apply Forall_nil_2); (split_and!; [by vm_compute|apply (bool_decide_unpack _); by vm_compute|]); split; try done.
      + intros _. exists UINT8. split_and!; try done. apply (bool_decide_unpack _); by vm_compute.
      + intros _. exists INT32. split_and!; try done. apply (bool_decide_unpack _); by vm_compute.
    - repeat (apply Forall_cons_2 || apply Forall_nil_2); (split_and!; [by vm_compute|apply (bool_decide_unpack _); by vm_compute|]); split; try done.
      intros _. exists CHAR. split_and!; try done. apply (bool_decide_unpack _); by vm_compute. }
  intros [->|[->|[]%elem_of_nil]%elem_of_cons]%elem_of_cons; (split; [split_and!|by vm_compute]).
  - repeat constructor.
  - apply Hn. left.
  - by vm_compute.
  - repeat constructor.
  - apply Hn. right. left.
  - by vm_compute.
Qed.

Lemma metadata_merge_witness : ∃ md',
  deserialize (to_const <$> [serialized session1; serialized session2]) (make 9) = (Ok (), md') ∧
  value_in md' (lit "a") = None ∧ value_in md' (lit "b") = Some (mkValue 0 (datatype_code INT32) 1 [7; 0; 0; 0]).
Proof.
  destruct (metadata_merge [session1; session2] [serialized session1; serialized session2] (make 9)) as (md' & E & _ & Hv & _).
  - discriminate.
  - repeat (apply Forall_cons_2; [apply session_wf; repeat constructor|]). apply Forall_nil_2.
  - repeat (apply Forall2_cons_2; [apply session_wf; repeat constructor|]). apply Forall2_nil_2.
  - exists md'. split; [exact E|]. rewrite !Hv. clear. split; vm_compute; reflexivity.
Defined.

Lemma metadata_consolidation_witness : ∃ md b md',
  deserialize (to_const <$> [serialized session1; serialized session2]) (make 9) = (Ok (), md) ∧
  serialize md Buffer.empty = (Ok (), b) ∧
  deserialize (to_const <$> [serialized session1; b; serialized session2]) (make 9) = (Ok (), md') ∧
  value_in md' (lit "a") = value_in md (lit "a").
Proof.
  eexists _, _.
  destruct (metadata_consolidation session1 [session2] (serialized session1) [serialized session2] (make 9)
    (deserialize (to_const <$> [serialized session1; serialized session2]) (make 9)).2
    (serialized (deserialize (to_const <$> [serialized session1; serialized session2]) (make 9)).2)) with
    (bs := [serialized session1; serialized (deserialize (to_const <$> [serialized session1; serialized session2]) (make 9)).2; serialized session2])
    as (md' & E & Hv).
  - repeat (apply Forall_cons_2; [apply session_wf; repeat constructor|]). apply Forall_nil_2.
  - repeat (apply Forall2_cons_2; [apply session_wf; repeat constructor|]). apply Forall2_nil_2.
  - vm_compute. reflexivity.
  - vm_compute. discriminate.
  - vm_compute. reflexivity.
  - right. left.
  - exists md'. split; [vm_compute; reflexivity|split; [vm_compute; reflexivity|split; [exact E|apply Hv]]].
Defined.

Lemma put_get_witness : ∃ md', put_value (lit "a") UINT16 1 (Some [9; 0]) session1 = Ok md' ∧
  get_value (lit "a") md' = Some (datatype_code UINT16, 1, Some [9; 0]).
Proof.
  destruct (put_get (lit "a") UINT16 1 [9; 0] session1) as (md' & E & _ & G & _).
  - split_and!; [repeat constructor| |repeat constructor]. apply (bool_decide_unpack _). vm_compute. exact I.
  - discriminate.
  - unfold_ctype. simpl. lia.
  - reflexivity.
  - exists md'. split; [exact E|exact G].
Defined.

Lemma index_agrees_witness : ∃ md', get_index 1 (build_metadata_index session1) =
  Ok (lit "b", (datatype_code INT32, 1, Some [7; 0; 0; 0]), md').
Proof.
  destruct (index_agrees (build_metadata_index session1) 1 (lit "b", (1%nat, mkValue 0 (datatype_code INT32) 1 [7; 0; 0; 0])))
    as (md' & E & _).
  - split_and!; [repeat constructor| |repeat constructor]. apply (bool_decide_unpack _). vm_compute. exact I.
  - reflexivity.
  - vm_compute; reflexivity.
  - exists md'. exact E.
Defined.

Lemma del_after_put_lost_witness : metadata_map_ (del (lit "a") session1) = metadata_map_ session1.
Proof.
  apply (del_after_put_lost (lit "a") session1).
  - split_and!; [repeat constructor| |repeat constructor]. apply (bool_decide_unpack _). vm_compute. exact I.
  - eexists. vm_compute. reflexivity.
Defined.

Lemma metadata_uri_range_witness : ∃ md', generate_uri an_environ (Some (replicate 16 7)) (lit "file:///a") session1 = Ok md' ∧
  get_timestamp_range an_environ (uri_ md') = Ok (5, 5).
Proof.
  destruct (metadata_uri_range an_environ (lit "a") session1 (replicate 16 7)) as (md' & E & R).
  - reflexivity.
  - exists [], 97. split; [reflexivity|discriminate].
  - simpl. lia.
  - simpl. lia.
  - exists md'. split; [exact E|exact R].
Defined.
