(* ===== verification/Dimension.v ===== *)
(** * Dimension (array_schema/dimension.cc, dimension.h)

    A dimension with its domain and tile extent as bytes, and the operations
    its templates implement for the integer, floating and string types.
    Numbers that the code interpolates into error messages are left out of
    them. *)

From S2P Require Import Prelude.
From S2P Require Import Enums.
From S2P Require Import Num.
From S2P Require Import Range.
From S2P Require Import ConstBuffer.
From S2P Require Import Buffer.
From S2P Require Import Filter.
Local Open Scope Z_scope.

Record t : Type := mk {
  cell_val_num_ : Z;
  domain_ : Range;
  filters_ : FilterPipeline;
  name_ : list Z;
  tile_extent_ : list Z;
  type_ : Datatype
}.

Definition with_domain (d : t) (r : Range) : t :=
  mk (cell_val_num_ d) r (filters_ d) (name_ d) (tile_extent_ d) (type_ d).
Definition with_extent (d : t) (x : list Z) : t :=
  mk (cell_val_num_ d) (domain_ d) (filters_ d) (name_ d) x (type_ d).

(** [Dimension(name, type)]. *)
Definition make (name : list Z) (type : Datatype) : t :=
  mk (if datatype_is_string type then var_num else 1) empty_range empty_pipeline name [] type.

(** [Dimension(const Dimension* dim)]; the instances follow from the type. *)
Definition copy (d : t) : res t :=
  p ← copy_pipeline (filters_ d);
  Ok (mk (cell_val_num_ d) (domain_ d) p (name_ d) (tile_extent_ d) (type_ d)).

Definition coord_size (d : t) : Z := datatype_size (type_ d).
Definition var_size (d : t) : bool := cell_val_num_ d =? var_num.
Definition extent_empty (d : t) : bool := bool_decide (tile_extent_ d = []).

Definition set_cell_val_num (n : Z) : M t unit := fun d =>
  if datatype_is_string (type_ d) && negb (n =? var_num) then
    (Err SC_Dimension "Cannot set non-variable number of values per coordinate for a string dimension", d)
  else if negb (datatype_is_string (type_ d)) && negb (n =? 1) then
    (Err SC_Dimension "Cannot set number of values per coordinate; Currently only one value per coordinate is supported", d)
  else (Ok (), mk n (domain_ d) (filters_ d) (name_ d) (tile_extent_ d) (type_ d)).

(** ** The templates on numeric types *)

Section Templates.
Context (T : num).

Definition crop_range_t (d : t) (r : Range) : res Range :=
  massert (negb (range_empty r));;
  '(dom0, dom1) ← rd2 T (domain_ d);
  '(r0, r1) ← rd2 T r;
  Ok (set_pair T (nmax T r0 dom0) (nmin T r1 dom1) r).

Definition domain_range_t (r : Range) : res Z :=
  massert (negb (range_empty r));;
  match T with
  | NFlt _ => Ok u64_max
  | NInt _ =>
      '(r0, r1) ← rd2 T r;
      x ← nsub T r1 r0;
      let ret := conv U64 x in
      if ret =? u64_max then Ok ret else Ok (ret + 1)
  end.

(** [v] points to a value of the type. *)
Definition expand_range_v_t (v : list Z) (r : Range) : res Range :=
  massert (negb (range_empty r));;
  '(r0, r1) ← rd2 T r;
  x ← rd T v 0;
  Ok (set_pair T (nmin T r0 x) (nmax T r1 x) r).

Definition expand_range_t (r1 r2 : Range) : res Range :=
  massert (negb (range_empty r1));;
  massert (negb (range_empty r2));;
  '(a0, a1) ← rd2 T r1;
  '(b0, b1) ← rd2 T r2;
  Ok (set_pair T (nmin T a0 b0) (nmax T a1 b1) r2).

Definition expand_to_tile_t (d : t) (r : Range) : res Range :=
  massert (negb (range_empty r));;
  if extent_empty d || negb (is_int T) then Ok r
  else
    ext ← rd T (tile_extent_ d) 0;
    '(dom0, _) ← rd2 T (domain_ d);
    '(r0, r1) ← rd2 T r;
    lo ← (x ← nsub T r0 dom0; q ← ndiv T x ext; y ← nmul T q ext; nadd T y dom0);
    hi ← (x ← nsub T r1 dom0; q ← ndiv T x ext; q1 ← nadd T q 1; y ← nmul T q1 ext;
          z ← nsub T y 1; nadd T z dom0);
    Ok (set_pair T (nconv T lo) (nconv T hi) r).

(** True when the coordinate is out of the domain. *)
Definition oob_t (d : t) (coord : list Z) : res bool :=
  '(dom0, dom1) ← rd2 T (domain_ d);
  c ← rd T coord 0;
  Ok (nlt T c dom0 || nlt T dom1 c).

Definition covered_t (r1 r2 : Range) : res bool :=
  massert (negb (range_empty r1));;
  massert (negb (range_empty r2));;
  '(a0, a1) ← rd2 T r1;
  '(b0, b1) ← rd2 T r2;
  massert (nle T a0 a1);;
  massert (nle T b0 b1);;
  Ok (nle T b0 a0 && nle T a1 b1).

Definition overlap_t (r1 r2 : Range) : res bool :=
  massert (negb (range_empty r1));;
  massert (negb (range_empty r2));;
  '(a0, a1) ← rd2 T r1;
  '(b0, b1) ← rd2 T r2;
  Ok (negb (nlt T b1 a0 || nlt T a1 b0)).

(** The ratio is a [double]; it is returned as its bit pattern. *)
Definition overlap_ratio_t (r1 r2 : Range) : res Z :=
  massert (negb (range_empty r1));;
  massert (negb (range_empty r2));;
  '(a0, a1) ← rd2 T r1;
  '(b0, b1) ← rd2 T r2;
  massert (nle T a0 a1);;
  massert (nle T b0 b1);;
  if nlt T b1 a0 || nlt T a1 b0 then Ok 0
  else
    let overlap_start := nmax T a0 b0 in
    let overlap_end := nmin T a1 b1 in
    overlap_range ← nsub T overlap_end overlap_start;
    mbr_range ← nsub T b1 b0;
    match T with
    | NInt _ =>
        o ← nadd T overlap_range 1;
        m ← nadd T mbr_range 1;
        Ok (fdiv F64 (nlit (NFlt F64) o) (nlit (NFlt F64) m))
    | NFlt f =>
        let max := fmax F64 in
        let step x := fcvt F64 f (nextafter F64 (fcvt f F64 x) max) in
        let o := if feq f overlap_range 0 then step overlap_range else overlap_range in
        let m := if feq f mbr_range 0 then step mbr_range else mbr_range in
        Ok (fdiv F64 (fcvt f F64 o) (fcvt f F64 m))
    end.

(** The two halves of [r] around the splitting value: on integer types the
    successor of [v] goes through [double]. *)
Definition split_range_t (r : Range) (v : list Z) (o1 o2 : Range) : res (Range * Range) :=
  massert (negb (range_empty r));;
  massert (negb (bool_decide (v = [])));;
  '(r0, r1) ← rd2 T r;
  x ← rd T v 0;
  next ← match T with
         | NInt t => y ← nadd T x 1; via_double t y
         | NFlt f => Ok (nextafter f x (fmax f))
         end;
  Ok (set_pair T r0 x o1, set_pair T next r1 o2).

(** The value to split at, and whether the range cannot be split. *)
Definition splitting_value_t (r : Range) : res (list Z * bool) :=
  massert (negb (range_empty r));;
  '(r0, r1) ← rd2 T r;
  d ← nsub T r1 r0;
  h ← ndiv T d (nlit T 2);
  s ← nadd T r0 h;
  let sp := nconv T s in
  Ok (nenc T sp, bool_decide (nenc T sp = nenc T r1)).

Definition tile_num_t (d : t) (r : Range) : res Z :=
  massert (negb (range_empty r));;
  if extent_empty d then Ok 1
  else
    ext ← rd T (tile_extent_ d) 0;
    '(dom0, _) ← rd2 T (domain_ d);
    '(r0, r1) ← rd2 T r;
    start ← (x ← nsub T r0 dom0; q ← ndiv T x ext; n_floor_u64 T q);
    end_ ← (x ← nsub T r1 dom0; q ← ndiv T x ext; n_floor_u64 T q);
    Ok (u64 (end_ - start + 1)).

Definition value_in_range_t (v : list Z) (r : Range) : res bool :=
  massert (negb (range_empty r));;
  x ← rd T v 0;
  '(r0, r1) ← rd2 T r;
  Ok (nle T r0 x && nle T x r1).

Definition ceil_to_tile_t (d : t) (r : Range) (tile_num : Z) : res (list Z) :=
  massert (negb (range_empty r));;
  massert (negb (extent_empty d));;
  ext ← rd T (tile_extent_ d) 0;
  '(dom0, _) ← rd2 T (domain_ d);
  '(r0, _) ← rd2 T r;
  let n := u64 (tile_num + 1) in
  let mid := match T with
             | NInt t => conv t (u64 (conv U64 r0 + u64 (n * conv U64 ext)))
             | NFlt f => fadd f r0 (fmul f (fenc f (f_of_Z f n)) ext)
             end in
  div ← (x ← nsub T mid dom0; q ← ndiv T x ext; n_to_u64 T q);
  let div_t := match T with NInt t => conv t div | NFlt f => fenc f (f_of_Z f div) end in
  floored_mid ← (y ← nmul T div_t ext; nadd T y dom0);
  sp ← match T with
       | NInt t => y ← nsub T floored_mid 1; via_double t y
       | NFlt f => Ok (nextafter f floored_mid (flowest f))
       end;
  Ok (nenc T sp).

Definition check_range_t (d : t) (r : Range) : res bool :=
  '(dom0, dom1) ← rd2 T (domain_ d);
  '(r0, r1) ← rd2 T r;
  let nan := match T with NInt _ => false | NFlt f => is_nan f r0 || is_nan f r1 end in
  Ok (negb nan && negb (nlt T r1 r0) && negb (nlt T r0 dom0 || nlt T dom1 r1)).

Definition coincides_with_tiles_t (d : t) (r : Range) : res bool :=
  massert (negb (range_empty r));;
  massert (negb (extent_empty d));;
  '(dom0, _) ← rd2 T (domain_ d);
  ext ← rd T (tile_extent_ d) 0;
  '(d0, d1) ← rd2 T r;
  x ← nsub T d0 dom0;
  norm_1 ← n_to_u64 T x;
  y ← n_to_u64 T d1;
  match T with
  | NInt _ =>
      let e := conv U64 ext in
      let norm_2 := u64 (u64 (y - conv U64 dom0) + 1) in
      if e =? 0 then UB
      else Ok ((u64 (norm_1 / e * e) =? norm_1) && (u64 (norm_2 / e * e) =? norm_2))
  | NFlt f =>
      let n1 := fenc f (f_of_Z f norm_1) in
      let n2 := fadd f (fsub f (fenc f (f_of_Z f y)) dom0) (nlit T 1) in
      Ok (feq f (fmul f (fdiv f n1 ext) ext) n1 && feq f (fmul f (fdiv f n2 ext) ext) n2)
  end.

Definition check_domain_t (d : t) : res unit :=
  massert (negb (range_empty (domain_ d)));;
  '(dom0, dom1) ← rd2 T (domain_ d);
  if nlt T dom1 dom0 then
    Err SC_Dimension "Domain check failed; Upper domain bound should not be smaller than the lower one"
  else match T with
  | NFlt _ => Ok ()
  | NInt _ =>
      x ← nsub T dom1 dom0;
      if conv U64 x =? u64_max then
        Err SC_Dimension "Domain check failed; Domain range (upper + lower + 1) is larger than the maximum uint64 number"
      else Ok ()
  end.

End Templates.

(** [check_tile_extent_upper_floor_internal<T, T_FLOOR>], with
    [T_FLOOR = int64_t] for the signed and [uint64_t] for the unsigned types. *)
Definition check_tile_extent_upper_floor (ty : ctype) (dom0 dom1 ext : Z) : res unit :=
  let floor := if is_signed ty then I64 else U64 in
  x ← nsub (NInt ty) dom1 dom0;
  y ← nadd (NInt ty) x 1;
  let range := conv U64 y in
  let e := conv U64 ext in
  if e =? 0 then UB
  else
    let upper_floor := conv floor (u64 (u64 (u64 (range - 1) / e * e) + conv U64 dom0)) in
    m ← nsub (NInt ty) ext 1;
    upper_floor_max ← csub floor (tmax floor) (conv floor m);
    if (upper_floor_max <? upper_floor) || (tmax ty <? upper_floor) then
      Err SC_Dimension "Tile extent check failed; domain max expanded to multiple of tile extent exceeds max value representable by domain type. Reduce domain max by 1 tile extent to allow for expansion."
    else Ok ().

Definition exceeds_domain : string :=
  "Tile extent check failed; Tile extent exceeds dimension domain range".

Definition check_tile_extent_t (T : num) (d : t) : res unit :=
  if range_empty (domain_ d) then Err SC_Dimension "Tile extent check failed; Domain not set"
  else if extent_empty d then Ok ()
  else
    ext ← rd T (tile_extent_ d) 0;
    if nle T ext (nlit T 0) then
      Err SC_Dimension "Tile extent check failed; Tile extent must be greater than 0"
    else
      '(dom0, dom1) ← rd2 T (domain_ d);
      x ← nsub T dom1 dom0;
      range ← nadd T x (nlit T 1);
      match T with
      | NFlt _ => if nlt T range ext then Err SC_Dimension exceeds_domain else Ok ()
      | NInt ty =>
          let range := conv U64 range in
          let e := conv U64 ext in
          if range <? e then Err SC_Dimension exceeds_domain
          else if e =? 0 then UB
          else if negb (range mod e =? 0) then check_tile_extent_upper_floor ty dom0 dom1 ext
          else Ok ()
      end.

Definition set_null_tile_extent_to_range_t (T : num) : M t unit := fun d =>
  if negb (extent_empty d) then (Ok (), d)
  else
    match ('(dom0, dom1) ← rd2 T (domain_ d); x ← nsub T dom1 dom0; Ok (nconv T x)) with
    | Ok ext =>
        match T with
        | NInt ty =>
            if ext =? tmax ty then
              (Err SC_Dimension "Cannot set null tile extent to domain range; Domain range exceeds domain type max numeric limit", d)
            else (Ok (), with_extent d (nenc T (conv ty (ext + 1))))
        | NFlt _ => (UB, d)
        end
    | Err c e => (Err c e, d)
    | UB => (UB, d)
    end.

(** ** The specializations for strings *)

Definition overlap_char (r1 r2 : Range) : res bool :=
  massert (negb (range_empty r1));;
  massert (negb (range_empty r2));;
  s1_start ← start_str r1;
  s1_end ← end_str r1;
  s2_start ← start_str r2;
  s2_end ← end_str r2;
  Ok (negb (str_lt s2_end s1_start) && negb (str_lt s1_end s2_start)).

Definition overlap_ratio_char (r1 r2 : Range) : res Z :=
  massert (negb (range_empty r1));;
  massert (negb (range_empty r2));;
  o ← overlap_char r1 r2;
  if negb o then Ok 0
  else
    r1_start ← start_str r1;
    r1_end ← end_str r1;
    r2_start ← start_str r2;
    r2_end ← end_str r2;
    u ← unary r2;
    '(r2_range, pref_size) ←
      (if u : bool then Ok (1, 0)
       else
         let pref_size := common_prefix_size r2_start r2_end in
         c0 ← (if zlen r2_start =? pref_size then Ok 0 else char_at r2_start pref_size);
         massert (pref_size <? zlen r2_end);;
         c1 ← char_at r2_end pref_size;
         Ok (conv U64 (c1 - c0 + 1), pref_size));
    let o_start := if str_lt r2_start r1_start then r1_start else r2_start in
    let o_end := if str_lt r1_end r2_end then r1_end else r2_end in
    o_range ←
      (if str_eq o_start o_end then Ok 1
       else
         massert (pref_size <? zlen o_end);;
         c0 ← (if zlen o_start =? pref_size then Ok 0 else char_at o_start pref_size);
         c1 ← char_at o_end pref_size;
         Ok (conv U64 (c1 - c0 + 1)));
    let ratio := fdiv F64 (nlit (NFlt F64) o_range) (nlit (NFlt F64) r2_range) in
    Ok (if feq F64 ratio (nlit (NFlt F64) 1) &&
           (negb (str_eq o_start r2_start) || negb (str_eq o_end r2_end))
        then nextafter F64 ratio 4503599627370496 else ratio).

Definition split_range_char (r : Range) (v : list Z) (o1 o2 : Range) : res (Range * Range) :=
  massert (negb (range_empty r));;
  massert (negb (bool_decide (v = [])));;
  u ← unary r;
  massert (negb u);;
  r_start ← start_str r;
  r_end ← end_str r;
  let split_pos := common_prefix_size v r_end in
  c ← char_at v split_pos;
  let new_r2_start := slice 0 split_pos v ++ [conv U8 (c + 1)] in
  massert (str_lt v new_r2_start);;
  Ok (set_str_range r_start v o1, set_str_range new_r2_start r_end o2).

(** The value ([None] when it is not set) and whether the range cannot be
    split. *)
Definition splitting_value_char (r : Range) : res (option (list Z) * bool) :=
  massert (negb (range_empty r));;
  u ← unary r;
  if u : bool then Ok (None, true)
  else
    start ← start_str r;
    end_ ← end_str r;
    let pref_size := common_prefix_size start end_ in
    c1 ← char_at end_ pref_size;
    if c1 =? 0 then Ok (None, true)
    else
      start_c ← (if zlen start =? pref_size then Ok 0 else char_at start pref_size);
      let split_v := Z.quot (c1 - start_c) 2 in
      let split_str := slice 0 pref_size start ++ [conv U8 (start_c + split_v)] in
      Ok (Some (if str_lt split_str start then start else split_str), false).

Definition expand_range_var_v (v : list Z) (r : Range) : res Range :=
  massert (negb (range_empty r));;
  massert (negb (bool_decide (v = [])));;
  start ← start_str r;
  end_ ← end_str r;
  Ok (set_str_range (if str_lt v start then v else start) (if str_lt end_ v then v else end_) r).

(** ** Selection of the instances ([set_*_func])

    The table [num_of] is the [switch] of every selector; the string datatype
    has specializations of its own for five of the templates. *)

Definition with_char {A} (f : num → A) (char : A) (type : Datatype) : option A :=
  match type with STRING_ASCII => Some char | _ => f <$> num_of type end.

Definition crop_range_func_ (type : Datatype) := crop_range_t <$> num_of type.
Definition domain_range_func_ (type : Datatype) := domain_range_t <$> num_of type.
Definition ceil_to_tile_func_ (type : Datatype) := ceil_to_tile_t <$> num_of type.
Definition check_range_func_ (type : Datatype) := check_range_t <$> num_of type.
Definition coincides_with_tiles_func_ (type : Datatype) := coincides_with_tiles_t <$> num_of type.
Definition expand_range_func_ (type : Datatype) := expand_range_t <$> num_of type.
Definition expand_range_v_func_ (type : Datatype) := expand_range_v_t <$> num_of type.
Definition expand_to_tile_func_ (type : Datatype) := expand_to_tile_t <$> num_of type.
Definition oob_func_ (type : Datatype) := oob_t <$> num_of type.
Definition covered_func_ (type : Datatype) := covered_t <$> num_of type.
Definition overlap_func_ (type : Datatype) := with_char overlap_t overlap_char type.
Definition overlap_ratio_func_ (type : Datatype) :=
  with_char overlap_ratio_t overlap_ratio_char type.
Definition split_range_func_ (type : Datatype) := with_char split_range_t split_range_char type.
Definition splitting_value_func_ (type : Datatype) :=
  with_char (λ T r, '(v, b) ← splitting_value_t T r; Ok (Some v, b)) splitting_value_char type.
Definition tile_num_func_ (type : Datatype) := with_char tile_num_t (λ _ _, Ok 1) type.
Definition value_in_range_func_ (type : Datatype) := value_in_range_t <$> num_of type.

(** [assert(func_ != nullptr)], then the call. *)
Definition call {A B} (f : option A) (k : A → res B) : res B :=
  match f with Some f => k f | None => UB end.

(** ** Methods *)

Definition ceil_to_tile (d : t) (r : Range) (tile_num : Z) : res (list Z) :=
  call (ceil_to_tile_func_ (type_ d)) (λ f, f d r tile_num).

(** The message is never filled in by the instances. *)
Definition check_range (d : t) (r : Range) : res unit :=
  if decide (type_ d = STRING_ASCII) then Ok ()
  else
    ok ← call (check_range_func_ (type_ d)) (λ f, f d r);
    if ok : bool then Ok () else Err SC_Dimension "".

Definition coincides_with_tiles (d : t) (r : Range) : res bool :=
  call (coincides_with_tiles_func_ (type_ d)) (λ f, f d r).
Definition crop_range (d : t) (r : Range) : res Range :=
  call (crop_range_func_ (type_ d)) (λ f, f d r).
Definition domain_range (d : t) (r : Range) : res Z :=
  call (domain_range_func_ (type_ d)) (λ f, f r).
Definition expand_range_v (d : t) (v : list Z) (r : Range) : res Range :=
  call (expand_range_v_func_ (type_ d)) (λ f, f v r).
Definition expand_range (d : t) (r1 r2 : Range) : res Range :=
  call (expand_range_func_ (type_ d)) (λ f, f r1 r2).
Definition expand_to_tile (d : t) (r : Range) : res Range :=
  call (expand_to_tile_func_ (type_ d)) (λ f, f d r).
Definition covered (d : t) (r1 r2 : Range) : res bool :=
  call (covered_func_ (type_ d)) (λ f, f r1 r2).
Definition overlap (d : t) (r1 r2 : Range) : res bool :=
  call (overlap_func_ (type_ d)) (λ f, f r1 r2).
Definition overlap_ratio (d : t) (r1 r2 : Range) : res Z :=
  call (overlap_ratio_func_ (type_ d)) (λ f, f r1 r2).
Definition split_range (d : t) (r : Range) (v : list Z) (o1 o2 : Range) : res (Range * Range) :=
  call (split_range_func_ (type_ d)) (λ f, f r v o1 o2).
Definition splitting_value (d : t) (r : Range) : res (option (list Z) * bool) :=
  call (splitting_value_func_ (type_ d)) (λ f, f r).
Definition tile_num (d : t) (r : Range) : res Z :=
  call (tile_num_func_ (type_ d)) (λ f, f d r).
Definition value_in_range (d : t) (v : list Z) (r : Range) : res bool :=
  call (value_in_range_func_ (type_ d)) (λ f, f v r).

Definition oob (d : t) (coord : list Z) : res unit :=
  if datatype_is_string (type_ d) then Ok ()
  else
    out ← call (oob_func_ (type_ d)) (λ f, f d coord);
    if out : bool then Err SC_Dimension "Coordinate is out of domain bounds" else Ok ().

(** [value_in_range(const std::string&, range)]. *)
Definition value_in_range_str (d : t) (v : list Z) (r : Range) : res bool :=
  massert (bool_decide (type_ d = STRING_ASCII));;
  massert (negb (bool_decide (v = [])));;
  massert (negb (range_empty r));;
  s ← start_str r;
  e ← end_str r;
  Ok (str_le s v && str_le v e).

Definition expand_range_var (d : t) (r1 r2 : Range) : res Range :=
  massert (bool_decide (type_ d = STRING_ASCII));;
  massert (negb (range_empty r1));;
  massert (negb (range_empty r2));;
  r1_start ← start_str r1;
  r1_end ← end_str r1;
  r2_start ← start_str r2;
  r2_end ← end_str r2;
  Ok (set_str_range (if str_lt r1_start r2_start then r1_start else r2_start)
                    (if str_lt r1_end r2_end then r2_end else r1_end) r2).

(** ** Domain and tile extent *)

Definition check_domain (d : t) : res unit :=
  match num_of (type_ d) with
  | Some T => check_domain_t T d
  | None => Err SC_Dimension "Domain check failed; Invalid dimension domain type"
  end.

Definition check_tile_extent (d : t) : res unit :=
  match num_of (type_ d) with
  | Some T => check_tile_extent_t T d
  | None => Err SC_Dimension "Tile extent check failed; Invalid dimension domain type"
  end.

(** [set_domain(const Range& domain)]: a domain that fails the check is cleared. *)
Definition set_domain_range (domain : Range) : M t unit := fun d =>
  if range_empty domain then (Ok (), d)
  else
    let d' := with_domain d domain in
    match check_domain d' with
    | Ok _ => (Ok (), d')
    | Err c e => (Err c e, with_domain d' (range_clear domain))
    | UB => (UB, d')
    end.

(** [set_domain(const void* domain)]: [domain] points to two coordinates. *)
Definition set_domain (domain : option (list Z)) : M t unit := fun d =>
  match type_ d, domain with
  | _, None => (Ok (), d)
  | STRING_ASCII, Some _ =>
      (Err SC_Dimension "Setting the domain to a dimension with type 'STRING_ASCII' is not supported", d)
  | _, Some p =>
      match memread p 0 (2 * coord_size d) with
      | Ok bs => set_domain_range (make_range bs) d
      | _ => (UB, d)
      end
  end.

Definition set_tile_extent_vec (ext : list Z) : M t unit := fun d =>
  if range_empty (domain_ d) then
    (Err SC_Dimension "Cannot set tile extent; Domain must be set first", d)
  else if bool_decide (ext = []) then
    (Err SC_Dimension "Cannot set tile extent; tile extent cannot be null", d)
  else let d' := with_extent d ext in (check_tile_extent d', d').

Definition set_tile_extent (ext : option (list Z)) : M t unit := fun d =>
  match type_ d, ext with
  | STRING_ASCII, None => (Ok (), d)
  | STRING_ASCII, Some _ =>
      (Err SC_Dimension "Setting the tile extent to a dimension with type 'STRING_ASCII' is not supported", d)
  | _, None => set_tile_extent_vec [] d
  | _, Some p =>
      match memread p 0 (coord_size d) with
      | Ok bs => set_tile_extent_vec bs d
      | _ => (UB, d)
      end
  end.

Definition set_null_tile_extent_to_range : M t unit := fun d =>
  if negb (extent_empty d) then (Ok (), d)
  else if range_empty (domain_ d) then
    (Err SC_Dimension "Cannot set tile extent to domain range; Domain not set", d)
  else match num_of (type_ d) with
  | Some (NInt ty) => set_null_tile_extent_to_range_t (NInt ty) d
  | _ => (Err SC_Dimension "Cannot set null tile extent to domain range; Invalid dimension domain type", d)
  end.

(** [set_filter_pipeline(pipeline)], [None] a null pointer. *)
Definition set_filter_pipeline (p : option FilterPipeline) : M t unit := fun d =>
  match p with
  | None => (Err SC_Dimension "Cannot set filter pipeline to dimension; Pipeline cannot be null", d)
  | Some p =>
      if datatype_is_real (type_ d) &&
         existsb (λ f, bool_decide (type f = FILTER_DOUBLE_DELTA)) (Filter.filters_ p)
      then (Err SC_Dimension "Cannot set DOUBLE DELTA filter to a dimension with a real datatype", d)
      else match copy_pipeline p with
      | Ok q => (Ok (), mk (cell_val_num_ d) (domain_ d) q (name_ d) (tile_extent_ d) (type_ d))
      | _ => (UB, d)
      end
  end.

(** ** Serialization *)

Definition serialize `{Allocator} (version : Z) (d : t) : M Buffer.t unit :=
  let is_str := datatype_is_string (type_ d) in
  lift (massert (is_str || negb (range_empty (domain_ d))));;
  let n := conv U32 (zlen (name_ d)) in
  write_val U32 n;;
  Buffer.write (slice 0 n (name_ d));;
  (if 5 <=? version then
     write_val U8 (datatype_code (type_ d));;
     write_val U32 (cell_val_num_ d);;
     serialize_pipeline (filters_ d)
   else mret ());;
  let domain_size := if is_str then 0 else 2 * coord_size d in
  write_val U64 domain_size;;
  bs ← lift (memread (range_ (domain_ d)) 0 domain_size);
  Buffer.write bs;;
  write_val U8 (if extent_empty d then 1 else 0);;
  if extent_empty d then mret () else Buffer.write (tile_extent_ d).

(** [std::vector::resize] on bytes. *)
Definition resize (n : Z) (l : list Z) : list Z :=
  take (Z.to_nat n) l ++ replicate (Z.to_nat n - length l) 0.

(** Setters used while loading. *)
Definition put_name (n : list Z) : M t unit := fun d =>
  (Ok (), mk (cell_val_num_ d) (domain_ d) (filters_ d) n (tile_extent_ d) (type_ d)).
Definition put_type (ty : Datatype) : M t unit := fun d =>
  (Ok (), mk (cell_val_num_ d) (domain_ d) (filters_ d) (name_ d) (tile_extent_ d) ty).
Definition put_cell_val_num (n : Z) : M t unit := fun d =>
  (Ok (), mk n (domain_ d) (filters_ d) (name_ d) (tile_extent_ d) (type_ d)).
Definition put_domain (r : Range) : M t unit := fun d => (Ok (), with_domain d r).
Definition put_extent (x : list Z) : M t unit := fun d => (Ok (), with_extent d x).

(** [filters_.deserialize(buff)]. *)
Definition load_filters : M (ConstBuffer.t * t) unit := fun '(b, d) =>
  let '(r, (b', p)) := deserialize_pipeline (b, filters_ d) in
  (r, (b', mk (cell_val_num_ d) (domain_ d) p (name_ d) (tile_extent_ d) (type_ d))).

(** The stored type; a code that names no datatype selects no instance of the
    templates and is outside of the model. *)
Definition load_type : M (ConstBuffer.t * t) unit :=
  c ← on_fst (read_val U8);
  match datatype_of_code c with
  | Some ty => on_snd (put_type ty)
  | None => lift UB
  end.

Definition deserialize (version : Z) (type : Datatype) : M (ConstBuffer.t * t) unit :=
  n ← on_fst (read_val U32);
  on_snd (fun d => put_name (resize n (name_ d)) d);;
  name ← on_fst (ConstBuffer.read n);
  on_snd (put_name name);;
  (if 5 <=? version then
     load_type;;
     c ← on_fst (read_val U32);
     on_snd (put_cell_val_num c);;
     load_filters
   else on_snd (put_type type));;
  '(_, d) ← get;
  domain_size ← (if 5 <=? version then on_fst (read_val U64) else mret (2 * coord_size d));
  (if domain_size =? 0 then mret ()
   else tmp ← on_fst (ConstBuffer.read domain_size); on_snd (put_domain (make_range tmp)));;
  on_snd (put_extent []);;
  null_tile_extent ← on_fst (read_val U8);
  if null_tile_extent =? 0 then
    on_snd (put_extent (resize (coord_size d) []));;
    x ← on_fst (ConstBuffer.read (coord_size d));
    on_snd (put_extent x)
  else mret ().
