(* ===== verification/DimensionProofs.v ===== *)
(** * Correctness of the operations of a dimension

    First the operations that only compare, for every arithmetic type; then
    the ones that compute, for the integer types; then the strings. *)

From S2P Require Import Prelude.
From S2P Require Import Enums.
From S2P Require Import Num.
From S2P Require Import NumFacts.
From S2P Require Import Range.
From S2P Require Import ConstBuffer.
From S2P Require Import Buffer.
From S2P Require Import Filter.
From S2P Require Import Dimension.
Local Open Scope Z_scope.

(** Evaluates the guards on a range known to be a pair of values. *)
Ltac pair_guards :=
  repeat match goal with
  | H : is_pair ?T ?r ?a ?b |- context [range_empty ?r] => rewrite (pair_nonempty T r a b H)
  end;
  repeat match goal with
  | H : is_pair ?T ?r ?a ?b |- context [rd2 ?T ?r] => rewrite (rd2_pair T r a b H)
  end;
  unfold mbind; simpl massert; cbn [res_bind].

(** ** Comparisons *)

Section Order.
Context (T : num).

(** [v] lies in [[a, b]]. *)
Definition within (a b v : Z) : Prop := rank T a ≤ rank T v ≤ rank T b.

Lemma rd_value v : nval T v → rd T (nenc T v) 0 = Ok v.
Proof. intros Hv. apply (rd_at T _ [] v []); [by rewrite app_nil_r|done|done]. Qed.

Lemma value_in_range_spec r a b v :
  is_pair T r a b → ordered T a → ordered T b → nval T v → ordered T v →
  value_in_range_t T (nenc T v) r = Ok (bool_decide (within a b v)).
Proof.
  intros Hr Ha Hb Hv Ho. unfold value_in_range_t. rewrite rd_value by done. pair_guards.
  rewrite !nle_rank by done. f_equal. unfold within.
  destruct (Z.leb_spec (rank T a) (rank T v)), (Z.leb_spec (rank T v) (rank T b)); simpl;
    symmetry; apply bool_decide_eq_true || apply bool_decide_eq_false; lia.
Qed.

Lemma overlap_spec r1 r2 a0 a1 b0 b1 :
  is_pair T r1 a0 a1 → is_pair T r2 b0 b1 →
  ordered T a0 → ordered T a1 → ordered T b0 → ordered T b1 →
  overlap_t T r1 r2 =
    Ok ((rank T a0 <=? rank T b1) && (rank T b0 <=? rank T a1)).
Proof.
  intros H1 H2 ? ? ? ?. unfold overlap_t. pair_guards. rewrite !nlt_rank by done.
  f_equal. rewrite negb_orb, <- !Z.leb_antisym. done.
Qed.

Lemma covered_spec r1 r2 a0 a1 b0 b1 :
  is_pair T r1 a0 a1 → is_pair T r2 b0 b1 →
  ordered T a0 → ordered T a1 → ordered T b0 → ordered T b1 →
  rank T a0 ≤ rank T a1 → rank T b0 ≤ rank T b1 →
  covered_t T r1 r2 = Ok ((rank T b0 <=? rank T a0) && (rank T a1 <=? rank T b1)).
Proof.
  intros H1 H2 ? ? ? ? Ha Hb. unfold covered_t. pair_guards. rewrite !nle_rank by done.
  by rewrite (proj2 (Z.leb_le _ _) Ha), (proj2 (Z.leb_le _ _) Hb).
Qed.

Lemma expand_range_spec r1 r2 a0 a1 b0 b1 :
  is_pair T r1 a0 a1 → is_pair T r2 b0 b1 →
  ∃ r, expand_range_t T r1 r2 = Ok r ∧ is_pair T r (nmin T a0 b0) (nmax T a1 b1) ∧
       range_start_size_ r = range_start_size_ r2.
Proof.
  intros H1 H2. unfold expand_range_t. pair_guards. eexists. split; [done|].
  destruct H1 as (_ & ? & ?), H2 as (_ & ? & ?). split; [|done].
  apply set_pair_is; auto with cint.
Qed.

Lemma crop_range_spec d r lo hi a b :
  is_pair T (domain_ d) lo hi → is_pair T r a b →
  ∃ r', crop_range_t T d r = Ok r' ∧ is_pair T r' (nmax T a lo) (nmin T b hi).
Proof.
  intros H1 H2. unfold crop_range_t. pair_guards. eexists. split; [done|].
  destruct H1 as (_ & ? & ?), H2 as (_ & ? & ?). apply set_pair_is; auto with cint.
Qed.

(** For every numeric datatype (floating ones included), [overlap] and
    [covered] agree with membership: two ranges overlap exactly when some
    value lies in both, and the first is covered exactly when each of its
    values lies in the second. *)
Theorem overlap_covered_membership r1 r2 a0 a1 b0 b1 :
  is_pair T r1 a0 a1 → is_pair T r2 b0 b1 →
  Forall (ordered T) [a0; a1; b0; b1] →
  rank T a0 ≤ rank T a1 → rank T b0 ≤ rank T b1 →
  (∃ o, overlap_t T r1 r2 = Ok o ∧
     (o = true ↔ ∃ v, nval T v ∧ ordered T v ∧
        value_in_range_t T (nenc T v) r1 = Ok true ∧
        value_in_range_t T (nenc T v) r2 = Ok true)) ∧
  (∃ c, covered_t T r1 r2 = Ok c ∧
     (c = true ↔ ∀ v, nval T v → ordered T v →
        value_in_range_t T (nenc T v) r1 = Ok true →
        value_in_range_t T (nenc T v) r2 = Ok true)).
Proof.
  rewrite !Forall_cons. intros H1 H2 (? & ? & ? & ? & _) Ha Hb.
  assert (∀ v, nval T v → ordered T v →
    (value_in_range_t T (nenc T v) r1 = Ok true ↔ within a0 a1 v) ∧
    (value_in_range_t T (nenc T v) r2 = Ok true ↔ within b0 b1 v)) as Hin.
  { intros v Hv Ho. rewrite (value_in_range_spec r1 a0 a1), (value_in_range_spec r2 b0 b1) by done.
    split; split; [intros [= ?%bool_decide_eq_true]|intros; f_equal; by apply bool_decide_eq_true
      |intros [= ?%bool_decide_eq_true]|intros; f_equal; by apply bool_decide_eq_true]; done. }
  pose proof H1 as (_ & Va0 & Va1). pose proof H2 as (_ & Vb0 & Vb1). split.
  - rewrite (overlap_spec r1 r2 a0 a1 b0 b1) by done. eexists. split; [done|].
    rewrite andb_true_iff, !Z.leb_le. unfold within in Hin. split.
    + intros [? ?]. destruct (rank_nmax T a0 b0) as [Ho Hr]; [done..|].
      exists (nmax T a0 b0). assert (nval T (nmax T a0 b0)) as Hv by auto with cint.
      destruct (Hin _ Hv Ho) as [-> ->]. split_and!; try done; lia.
    + intros (v & Hv & Ho & [Hr1 Hr2]). destruct (Hin v Hv Ho) as [I1 I2].
      apply I1 in Hr1. apply I2 in Hr2. lia.
  - rewrite (covered_spec r1 r2 a0 a1 b0 b1) by done. eexists. split; [done|].
    rewrite andb_true_iff, !Z.leb_le. unfold within in Hin. split.
    + intros [? ?] v Hv Ho. destruct (Hin v Hv Ho) as [-> ->]. lia.
    + intros Hall. destruct (Hin a0) as [I1 I2]; [done..|]. destruct (Hin a1) as [J1 J2]; [done..|].
      pose proof (proj1 I2 (Hall a0 Va0 ltac:(done) (proj2 I1 ltac:(lia)))).
      pose proof (proj1 J2 (Hall a1 Va1 ltac:(done) (proj2 J1 ltac:(lia)))). lia.
Qed.

(** [expand_range] computes the smallest range that contains both: for
    every numeric datatype, a range contains the result exactly when it
    contains the two ranges. *)
Theorem expand_range_least r1 r2 a0 a1 b0 b1 r3 c0 c1 :
  is_pair T r1 a0 a1 → is_pair T r2 b0 b1 → is_pair T r3 c0 c1 →
  Forall (ordered T) [a0; a1; b0; b1; c0; c1] →
  rank T a0 ≤ rank T a1 → rank T b0 ≤ rank T b1 → rank T c0 ≤ rank T c1 →
  ∃ r x y z, expand_range_t T r1 r2 = Ok r ∧
    covered_t T r1 r3 = Ok x ∧ covered_t T r2 r3 = Ok y ∧ covered_t T r r3 = Ok z ∧
    z = x && y.
Proof.
  rewrite !Forall_cons. intros H1 H2 H3 (? & ? & ? & ? & ? & ? & _) Ha Hb Hc.
  destruct (expand_range_spec r1 r2 a0 a1 b0 b1 H1 H2) as (r & E & Hr & _).
  destruct (rank_nmin T a0 b0) as [Om Em]; [done..|].
  destruct (rank_nmax T a1 b1) as [OM EM]; [done..|].
  eexists r, _, _, _. split; [done|].
  rewrite (covered_spec r1 r3 a0 a1 c0 c1), (covered_spec r2 r3 b0 b1 c0 c1),
    (covered_spec r r3 (nmin T a0 b0) (nmax T a1 b1) c0 c1); try done; [|lia].
  split_and!; try done. rewrite Em, EM.
  destruct (Z.leb_spec (rank T c0) (rank T a0)), (Z.leb_spec (rank T a1) (rank T c1)),
    (Z.leb_spec (rank T c0) (rank T b0)), (Z.leb_spec (rank T b1) (rank T c1)),
    (Z.leb_spec (rank T c0) (Z.min (rank T a0) (rank T b0))),
    (Z.leb_spec (Z.max (rank T a1) (rank T b1)) (rank T c1)); simpl; done || lia.
Qed.

(** [crop_range] computes the intersection with the domain: a value lies
    in the cropped range exactly when it lies in the range and in the
    domain. *)
Theorem crop_range_intersection d r lo hi a b v :
  is_pair T (domain_ d) lo hi → is_pair T r a b →
  Forall (ordered T) [lo; hi; a; b; v] → nval T v →
  ∃ r' x y z, crop_range_t T d r = Ok r' ∧
    value_in_range_t T (nenc T v) r = Ok x ∧
    value_in_range_t T (nenc T v) (domain_ d) = Ok y ∧
    value_in_range_t T (nenc T v) r' = Ok z ∧ z = x && y.
Proof.
  rewrite !Forall_cons. intros H1 H2 (? & ? & ? & ? & ? & _) Hv.
  destruct (crop_range_spec d r lo hi a b H1 H2) as (r' & E & Hr).
  destruct (rank_nmax T a lo) as [OM EM]; [done..|].
  destruct (rank_nmin T b hi) as [Om Em]; [done..|].
  eexists r', _, _, _. split; [done|].
  rewrite (value_in_range_spec r a b), (value_in_range_spec (domain_ d) lo hi),
    (value_in_range_spec r' (nmax T a lo) (nmin T b hi)) by done.
  split_and!; try done. rewrite <- bool_decide_and. apply bool_decide_ext.
  unfold within. rewrite EM, Em. lia.
Qed.

End Order.

(** ** Integer types *)

Section Integers.
Context (ty : ctype).
Local Abbreviation T := (NInt ty).

Lemma nsub_int a b : in_ctype (promote ty) (a - b) → nsub T a b = Ok (a - b).
Proof. intros. by apply arith_ok. Qed.
Lemma nadd_int a b : in_ctype (promote ty) (a + b) → nadd T a b = Ok (a + b).
Proof. intros. by apply arith_ok. Qed.
Lemma nmul_int a b : in_ctype (promote ty) (a * b) → nmul T a b = Ok (a * b).
Proof. intros. by apply arith_ok. Qed.
Lemma ndiv_int a b : 0 ≤ a → 0 < b → in_ctype (promote ty) a → ndiv T a b = Ok (a / b).
Proof.
  intros Ha Hb Hi. unfold ndiv, cdiv. rewrite (proj2 (Z.eqb_neq b 0)) by lia.
  rewrite Z.quot_div_nonneg by lia. apply arith_ok.
  pose proof (Z.div_le_upper_bound a b a Hb ltac:(nia)). pose proof (Z.div_pos a b ltac:(lia) Hb).
  assert (tmin (promote ty) ≤ 0) by (destruct ty; unfold_ctype; simpl; lia).
  unfold in_ctype in *. lia.
Qed.

(** A value between two of the type is of the type. *)
Lemma in_between t x y z : in_ctype t x → in_ctype t z → x ≤ y ≤ z → in_ctype t y.
Proof. unfold in_ctype. lia. Qed.

Lemma promote_nonneg x y : in_ctype (promote ty) y → 0 ≤ x ≤ y → in_ctype (promote ty) x.
Proof. unfold in_ctype. destruct ty; unfold_ctype; simpl; lia. Qed.

Lemma conv_u64_nonneg x : 0 ≤ x → in_ctype (promote ty) x → conv U64 x = x.
Proof.
  intros Hx Hi. apply conv_id. destruct ty; unfold_ctype; simpl in *; lia.
Qed.

(** The number of cells of a range: [hi - lo + 1], except for the full
    range of [uint64_t], where it saturates. *)
Lemma domain_range_spec r a b :
  is_pair T r a b → a ≤ b → in_ctype (promote ty) (b - a) →
  domain_range_t T r = Ok (if b - a =? u64_max then u64_max else b - a + 1).
Proof.
  intros Hr Hab Hi. unfold domain_range_t. pair_guards. rewrite nsub_int by done. cbn [res_bind].
  rewrite conv_u64_nonneg by (done || lia). by destruct (Z.eqb_spec (b - a) u64_max) as [->|].
Qed.

(** *** Splitting *)

Lemma splitting_value_spec r a b :
  is_pair T r a b → a ≤ b → in_ctype (promote ty) (b - a) →
  let sp := a + (b - a) / 2 in
  splitting_value_t T r = Ok (nenc T sp, bool_decide (a = b)) ∧ nval T sp.
Proof.
  intros Hr Hab Hi sp. unfold splitting_value_t. pair_guards. rewrite nsub_int by done.
  cbn [res_bind nlit]. rewrite ndiv_int by (done || lia). cbn [res_bind].
  destruct Hr as (_ & Ha & Hb). simpl in Ha, Hb.
  assert (0 ≤ (b - a) / 2 ≤ b - a) as Hd.
  { split; [apply Z.div_pos; lia|]. apply Z.div_le_upper_bound; lia. }
  assert (in_ctype ty sp) as Hsp by (apply (in_between ty a sp b); unfold sp; try done; lia).
  rewrite nadd_int by (by apply in_promote). cbn [res_bind]. fold sp. simpl nconv.
  rewrite conv_id by done. split; [|done]. do 2 f_equal. apply bool_decide_ext. split.
  - intros E. apply (f_equal (ndec T)) in E. rewrite !ndec_nenc in E by done.
    unfold sp in E. pose proof (Z.div_lt_upper_bound (b - a) 2 (b - a)). lia.
  - intros ->. f_equal. unfold sp. rewrite Z.sub_diag, Z.div_0_l by lia. lia.
Qed.

Lemma split_range_value r a b v o1 o2 :
  is_pair T r a b → nval T v → v < b → Z.abs (v + 1) ≤ 2 ^ 53 →
  split_range_t T r (nenc T v) o1 o2 = Ok (set_pair T a v o1, set_pair T (v + 1) b o2) ∧ nval T (v + 1).
Proof.
  intros Hr Hv Hlt Hs. unfold split_range_t.
  assert (bool_decide (nenc T v = []) = false) as ->.
  { apply bool_decide_eq_false. intros E. apply (f_equal zlen) in E. rewrite zlen_nenc in E.
    pose proof (nsize_pos T). change (zlen []) with 0 in E. lia. }
  rewrite rd_value by done. pair_guards. destruct Hr as (_ & Ha & Hb). simpl in Ha, Hb, Hv.
  assert (in_ctype ty (v + 1)) as Hv1 by (apply (in_between ty v (v + 1) b); done || lia).
  rewrite nadd_int by (by apply in_promote). cbn [res_bind].
  by rewrite via_double_exact by done.
Qed.

Lemma split_range_spec r a b v o1 o2 :
  is_pair T r a b → nval T v → v < b → Z.abs (v + 1) ≤ 2 ^ 53 →
  ∃ r1 r2, split_range_t T r (nenc T v) o1 o2 = Ok (r1, r2) ∧
           is_pair T r1 a v ∧ is_pair T r2 (v + 1) b.
Proof.
  intros Hr Hv Hlt Hs. destruct (split_range_value r a b v o1 o2) as [-> Hv1]; try done. pose proof Hr as (_ & ? & ?).
  eexists _, _. split; [done|]. split; by apply set_pair_is.
Qed.

(** C31. Splitting an integer range of more than one cell, with bounds of at
    most [2^53] in magnitude, partitions it: both parts are non-empty ranges
    and every value of the type lies in the range exactly when it lies in
    one of the parts, and never in both. *)
Theorem split_partitions r a b o1 o2 :
  is_pair T r a b → a < b → in_ctype (promote ty) (b - a) →
  Z.abs a ≤ 2 ^ 53 → Z.abs b ≤ 2 ^ 53 →
  ∃ v r1 r2, splitting_value_t T r = Ok (v, false) ∧
    split_range_t T r v o1 o2 = Ok (r1, r2) ∧
    (∃ c, is_pair T r1 a c ∧ is_pair T r2 (c + 1) b ∧ a ≤ c < b) ∧
    ∀ x, in_ctype ty x → ∃ i i1 i2,
      value_in_range_t T (nenc T x) r = Ok i ∧
      value_in_range_t T (nenc T x) r1 = Ok i1 ∧
      value_in_range_t T (nenc T x) r2 = Ok i2 ∧ i = i1 || i2 ∧ i1 && i2 = false.
Proof.
  intros Hr Hab Hi Ha Hb.
  destruct (splitting_value_spec r a b Hr ltac:(lia) Hi) as [Es Hsp].
  rewrite bool_decide_eq_false_2 in Es by lia. set (sp := a + (b - a) / 2) in *.
  assert (a ≤ sp < b) as Hsb.
  { unfold sp. pose proof (Z.div_pos (b - a) 2 ltac:(lia) ltac:(lia)).
    pose proof (Z.div_lt_upper_bound (b - a) 2 (b - a)). lia. }
  destruct (split_range_spec r a b sp o1 o2 Hr Hsp) as (r1 & r2 & E & H1 & H2); [lia|lia|].
  exists (nenc T sp), r1, r2. split_and!; [done|done|by exists sp|].
  intros x Hx. eexists _, _, _.
  rewrite (value_in_range_spec T r a b), (value_in_range_spec T r1 a sp),
    (value_in_range_spec T r2 (sp + 1) b) by done.
  split_and!; try done.
  - rewrite <- bool_decide_or. apply bool_decide_ext. unfold within. simpl rank. lia.
  - rewrite <- bool_decide_and. apply bool_decide_eq_false. unfold within. simpl rank. lia.
Qed.

(** *** Tiles *)

(** A dimension with domain [[lo, hi]] and tile extent [ext]. *)
Record tiled (d : t) (lo hi ext : Z) : Prop := {
  tiled_domain : is_pair T (domain_ d) lo hi;
  tiled_extent : tile_extent_ d = nenc T ext ∧ nval T ext;
  tiled_order : lo ≤ hi;
  tiled_pos : 0 < ext;
  tiled_range : in_ctype (promote ty) (hi - lo)
}.

(** Tile [k] spans [[lo + k * ext, lo + (k + 1) * ext - 1]]. *)
Definition tile_lo (lo ext k : Z) : Z := lo + k * ext.
Definition tile_hi (lo ext k : Z) : Z := lo + (k + 1) * ext - 1.

Lemma rd_extent d lo hi ext : tiled d lo hi ext → rd T (tile_extent_ d) 0 = Ok ext.
Proof. intros [_ [-> Hv] _ _ _]. by apply rd_value. Qed.

Lemma extent_nonempty d lo hi ext : tiled d lo hi ext → extent_empty d = false.
Proof.
  intros [_ [He _] _ _ _]. apply bool_decide_eq_false. intros E. rewrite E in He.
  apply (f_equal zlen) in He. rewrite zlen_nenc in He. pose proof (nsize_pos T).
  change (zlen []) with 0 in He. lia.
Qed.

(** Index of the tile of a coordinate: no overflow inside of the domain. *)
Lemma tile_index d lo hi ext x : tiled d lo hi ext → lo ≤ x ≤ hi →
  nsub T x lo = Ok (x - lo) ∧ ndiv T (x - lo) ext = Ok ((x - lo) / ext) ∧
  0 ≤ (x - lo) / ext ∧ tile_lo lo ext ((x - lo) / ext) ≤ x ≤ tile_hi lo ext ((x - lo) / ext).
Proof.
  intros [_ _ _ Hpos Hr] Hx. assert (in_ctype (promote ty) (x - lo)) as Hi
    by (apply (promote_nonneg _ (hi - lo)); done || lia).
  rewrite nsub_int, ndiv_int by (done || lia). split_and!; try done.
  - apply Z.div_pos; lia.
  - unfold tile_lo. pose proof (Z.mul_div_le (x - lo) ext Hpos). lia.
  - unfold tile_hi. pose proof (Z.mul_succ_div_gt (x - lo) ext Hpos). lia.
Qed.

Lemma u64_diff x y : 0 ≤ x - y < 2 ^ 64 → u64 (conv U64 x - conv U64 y) = x - y.
Proof.
  intros H. unfold u64, conv. simpl bits. simpl is_signed. cbn [andb].
  change (8 * csize U64) with 64. rewrite <- Zminus_mod. by apply Z.mod_small.
Qed.

(** A range made of whole tiles passes the alignment test. *)
Lemma coincides_spec d lo hi ext r a b j k :
  tiled d lo hi ext → is_pair T r a b → a = lo + j * ext → b = lo + k * ext - 1 →
  0 ≤ j → j < k → in_ctype (promote ty) (b - lo + 1) →
  coincides_with_tiles_t T d r = Ok true.
Proof.
  intros Hd Hr -> -> Hj Hk Hi. unfold coincides_with_tiles_t.
  rewrite (extent_nonempty d lo hi ext Hd), (rd_extent d lo hi ext Hd).
  pose proof Hd as [Hdom [He Hve] _ Hpos Hrg]. pair_guards. simpl in Hve.
  assert (0 ≤ j * ext ≤ k * ext) as Hjk by nia.
  replace (lo + k * ext - 1 - lo + 1) with (k * ext) in Hi by lia.
  assert (1 ≤ k * ext < 2 ^ 64) as Hb64 by (split; [nia|destruct ty; unfold_ctype; simpl in *; lia]).
  rewrite nsub_int
    by (replace (lo + j * ext - lo) with (j * ext) by lia; by apply (promote_nonneg _ (k * ext))).
  cbn [res_bind n_to_u64]. replace (lo + j * ext - lo) with (j * ext) by lia.
  rewrite (conv_u64_nonneg ext), (conv_u64_nonneg (j * ext));
    [|lia|by apply (promote_nonneg _ (k * ext))|lia|by apply in_promote].
  rewrite (proj2 (Z.eqb_neq ext 0)) by lia.
  rewrite (u64_diff (lo + k * ext - 1) lo) by lia.
  replace (lo + k * ext - 1 - lo + 1) with (k * ext) by lia.
  rewrite (u64_id (k * ext)) by lia. rewrite !Z.div_mul by lia.
  rewrite !u64_id by lia. by rewrite !Z.eqb_refl.
Qed.

Lemma tile_num_value d lo hi ext r a b :
  tiled d lo hi ext → is_pair T r a b → lo ≤ a → a ≤ b → b ≤ hi →
  (b - lo) / ext ≤ 2 ^ 53 → tile_num_t T d r = Ok ((b - lo) / ext - (a - lo) / ext + 1).
Proof.
  intros Hd Hr Ha Hab Hb Hk. unfold tile_num_t.
  destruct (tile_index d lo hi ext a Hd) as (Sa & Da & Pa & Ia); [lia|].
  destruct (tile_index d lo hi ext b Hd) as (Sb & Db & Pb & Ib); [lia|].
  rewrite (extent_nonempty d lo hi ext Hd), (rd_extent d lo hi ext Hd).
  pose proof Hd as [Hdom _ _ Hpos _]. pair_guards. rewrite Sa. cbn [res_bind]. rewrite Da.
  cbn [res_bind]. rewrite Sb. cbn [res_bind]. rewrite Db. cbn [res_bind].
  assert ((a - lo) / ext ≤ (b - lo) / ext) by (apply Z.div_le_mono; lia).
  rewrite !n_floor_exact by lia. cbn [res_bind]. by rewrite u64_id by lia.
Qed.

(** [tile_num] counts the tiles a range meets: for a range inside of the
    domain with tile indices up to [2^53], tile [k] shares a cell with the
    range exactly for the [tile_num] consecutive indices from that of the
    first cell. *)
Theorem tile_num_counts d lo hi ext r a b :
  tiled d lo hi ext → is_pair T r a b → lo ≤ a → a ≤ b → b ≤ hi →
  (b - lo) / ext ≤ 2 ^ 53 →
  ∃ n, tile_num_t T d r = Ok n ∧
    ∀ k, (∃ x, a ≤ x ≤ b ∧ tile_lo lo ext k ≤ x ≤ tile_hi lo ext k) ↔
         (a - lo) / ext ≤ k < (a - lo) / ext + n.
Proof.
  intros Hd Hr Ha Hab Hb Hk. rewrite (tile_num_value d lo hi ext r a b) by done.
  destruct (tile_index d lo hi ext a Hd) as (_ & _ & Pa & Ia); [lia|].
  destruct (tile_index d lo hi ext b Hd) as (_ & _ & Pb & Ib); [lia|]. pose proof (tiled_pos _ _ _ _ Hd).
  eexists. split; [done|]. intros k. unfold tile_lo, tile_hi in *. split.
  - intros (x & Hx & Hk'). nia.
  - intros Hk'. exists (Z.max a (lo + k * ext)). nia.
Qed.

(** [expand_to_tile] gives the smallest union of whole tiles around a
    range of the domain: it starts where the tile of its first cell starts
    and ends where the tile of its last cell ends, and
    [coincides_with_tiles] holds of it. *)
Theorem expand_to_tile_aligned d lo hi ext r a b :
  tiled d lo hi ext → is_pair T r a b → lo ≤ a → a ≤ b → b ≤ hi →
  in_ctype ty (tile_hi lo ext ((b - lo) / ext)) →
  in_ctype (promote ty) (tile_hi lo ext ((b - lo) / ext) - lo + 1) →
  ∃ r', expand_to_tile_t T d r = Ok r' ∧
    is_pair T r' (tile_lo lo ext ((a - lo) / ext)) (tile_hi lo ext ((b - lo) / ext)) ∧
    coincides_with_tiles_t T d r' = Ok true.
Proof.
  intros Hd Hr Ha Hab Hb Hi Hp. unfold expand_to_tile_t.
  destruct (tile_index d lo hi ext a Hd) as (Sa & Da & Pa & Ia); [lia|].
  destruct (tile_index d lo hi ext b Hd) as (Sb & Db & Pb & Ib); [lia|].
  rewrite (extent_nonempty d lo hi ext Hd), (rd_extent d lo hi ext Hd).
  pose proof Hd as [Hdom [He Hve] _ Hpos Hrg]. pair_guards. simpl orb. cbv iota.
  pose proof Hdom as (_ & Hlo & Hhi). pose proof Hr as (_ & Hva & Hvb). simpl in Hlo, Hhi, Hva, Hvb, Hve.
  set (ka := (a - lo) / ext) in *. set (kb := (b - lo) / ext) in *. unfold tile_lo, tile_hi in *.
  rewrite Sa. cbn [res_bind]. rewrite Da. cbn [res_bind].
  assert (ka ≤ kb) by (apply Z.div_le_mono; lia).
  rewrite nmul_int by (apply (promote_nonneg _ (hi - lo)); [done|nia]). cbn [res_bind].
  rewrite nadd_int by (apply in_promote, (in_between ty lo _ a); [done|done|lia]). cbn [res_bind].
  rewrite Sb. cbn [res_bind]. rewrite Db. cbn [res_bind].
  rewrite nadd_int by (apply (promote_nonneg _ _ Hp); nia). cbn [res_bind].
  rewrite nmul_int by (apply (promote_nonneg _ _ Hp); nia). cbn [res_bind].
  rewrite nsub_int by (apply (promote_nonneg _ _ Hp); nia). cbn [res_bind].
  rewrite nadd_int by (apply in_promote; by replace ((kb + 1) * ext - 1 + lo) with (lo + (kb + 1) * ext - 1) by lia).
  cbn [res_bind]. simpl nconv.
  replace (ka * ext + lo) with (lo + ka * ext) by lia.
  replace ((kb + 1) * ext - 1 + lo) with (lo + (kb + 1) * ext - 1) by lia.
  assert (in_ctype ty (lo + ka * ext)) as Hlk by (apply (in_between ty lo _ a); [done|done|lia]).
  rewrite !conv_id by done. eexists. split; [done|].
  match goal with |- is_pair _ ?r' _ _ ∧ _ => assert (is_pair T r' (lo + ka * ext) (lo + (kb + 1) * ext - 1)) as Hr'
    by (by apply set_pair_is) end.
  split; [done|].
  apply (coincides_spec d lo hi ext _ _ _ ka (kb + 1) Hd Hr'); [done|done|lia|lia|exact Hp].
Qed.

(** [ceil_to_tile] gives the last cell of a tile: [tile_num] tiles after
    that of the first cell of the range, as long as the next tile starts
    within the type and coordinates are at most [2^53] in magnitude. *)
Theorem ceil_to_tile_end d lo hi ext r a b n :
  tiled d lo hi ext → is_pair T r a b → lo ≤ a → a ≤ hi → 0 ≤ n →
  in_ctype ty (a + (n + 1) * ext) → in_ctype ty (a + (n + 1) * ext - lo) →
  Z.abs lo ≤ 2 ^ 53 → Z.abs (a + (n + 1) * ext) ≤ 2 ^ 53 →
  ceil_to_tile_t T d r n = Ok (nenc T (tile_hi lo ext ((a - lo) / ext + n))).
Proof.
  intros Hd Hr Ha Hah Hn Hm Ht Hl Hs. pose proof (in_promote _ _ Ht) as Hp. unfold ceil_to_tile_t.
  rewrite (extent_nonempty d lo hi ext Hd), (rd_extent d lo hi ext Hd).
  pose proof Hd as [Hdom [He Hve] _ Hpos Hrg]. pair_guards.
  pose proof Hdom as (_ & Hlo & Hhi). pose proof Hr as (_ & Hva & Hvb). simpl in Hlo, Hhi, Hva, Hvb, Hve.
  set (mid := a + (n + 1) * ext) in *. set (j := (a - lo) / ext).
  assert (conv ty (u64 (conv U64 a + u64 (u64 (n + 1) * conv U64 ext))) = mid) as ->.
  { assert (0 ≤ (n + 1) * ext < 2 ^ 64).
    { assert (mid - lo < 2 ^ 64) by (destruct ty; unfold_ctype; simpl in *; lia). unfold mid in *. nia. }
    rewrite (conv_u64_nonneg ext) by (lia || by apply in_promote).
    rewrite (u64_id (n + 1)) by nia. rewrite (u64_id ((n + 1) * ext)) by nia.
    rewrite u64_add_conv, conv_of_u64. by apply conv_id. }
  rewrite nsub_int by done. cbn [res_bind]. rewrite ndiv_int by (done || unfold mid; nia). cbn [res_bind].
  assert ((mid - lo) / ext = j + n + 1) as ->.
  { unfold mid, j. replace (a + (n + 1) * ext - lo) with (a - lo + (n + 1) * ext) by lia.
    rewrite Z.div_add by lia. lia. }
  destruct (tile_index d lo hi ext a Hd) as (_ & _ & Pj & Ij); [lia|]. fold j in Pj, Ij.
  unfold tile_lo, tile_hi in *.
  assert (lo < (j + n + 1) * ext + lo ≤ mid) as Hf by (unfold mid; nia).
  assert (in_ctype ty ((j + n + 1) * ext + lo)) as Hfl by (apply (in_between ty lo _ mid); done || lia).
  assert (conv U64 (j + n + 1) = j + n + 1) as Hdiv.
  { apply (conv_u64_nonneg (j + n + 1)); [lia|]. apply (promote_nonneg _ _ Hp). unfold mid. nia. }
  cbn [n_to_u64 res_bind]. rewrite Hdiv. rewrite (conv_id ty (j + n + 1))
    by (apply (in_between ty 0 _ (mid - lo)); [destruct ty; unfold_ctype; simpl; lia|done|unfold mid in *; nia]).
  rewrite nmul_int by (apply (promote_nonneg _ _ Hp); nia). cbn [res_bind].
  rewrite nadd_int by (by apply in_promote). cbn [res_bind].
  assert (in_ctype ty ((j + n + 1) * ext + lo - 1)) as Hfl1
    by (apply (in_between ty lo _ mid); done || lia).
  rewrite nsub_int by (by apply in_promote). cbn [res_bind].
  rewrite via_double_exact by (done || lia). cbn [res_bind]. do 2 f_equal. lia.
Qed.


(** *** Overlap with a minimum bounding range *)

Lemma overlap_ratio_spec r1 r2 a0 a1 b0 b1 :
  is_pair T r1 a0 a1 → is_pair T r2 b0 b1 → a0 ≤ a1 → b0 ≤ b1 →
  in_ctype (promote ty) (b1 - b0 + 1) → b1 - b0 + 1 ≤ 2 ^ 53 →
  ∃ x, overlap_ratio_t T r1 r2 = Ok x ∧
    if (a0 <=? b1) && (b0 <=? a1)
    then unit64 x ∧ feq F64 x f_one = (a0 <=? b0) && (b1 <=? a1) else x = 0.
Proof.
  intros H1 H2 Ha Hb Hi Hs. unfold overlap_ratio_t. pair_guards. cbn [nle nlt nmax nmin].
  rewrite (proj2 (Z.leb_le _ _) Ha), (proj2 (Z.leb_le _ _) Hb). cbn [massert res_bind].
  destruct (Z.ltb_spec b1 a0); [|destruct (Z.ltb_spec a1 b0)]; cbn [orb].
  - exists 0. by rewrite (proj2 (Z.leb_gt a0 b1)) by lia.
  - exists 0. by rewrite (proj2 (Z.leb_gt b0 a1)), andb_false_r by lia.
  - unfold nmax, nmin, nlt. set (os := if a0 <? b0 then b0 else a0). set (oe := if b1 <? a1 then b1 else a1).
    assert (os = Z.max a0 b0) as Hos by (unfold os; destruct (Z.ltb_spec a0 b0); lia).
    assert (oe = Z.min a1 b1) as Hoe by (unfold oe; destruct (Z.ltb_spec b1 a1); lia).
    rewrite !nsub_int by (apply (promote_nonneg _ (b1 - b0 + 1)); done || lia). cbn [res_bind].
    rewrite !nadd_int by (apply (promote_nonneg _ (b1 - b0 + 1)); done || lia). cbn [res_bind].
    eexists. split; [done|]. rewrite !(proj2 (Z.leb_le _ _)) by lia. cbn [andb].
    split; [apply ratio_unit; lia|].
    destruct (ratio_spec (oe - os + 1) (b1 - b0 + 1)) as (-> & _ & _); [lia..|].
    destruct (Z.eqb_spec (oe - os + 1) (b1 - b0 + 1)), (Z.leb_spec a0 b0), (Z.leb_spec b1 a1); simpl; done || lia.
Qed.

(** The overlap ratio classifies correctly: for integer ranges with at
    most [2^53] cells, the ratio of a range [r1] with a bounding range [r2]
    is zero exactly when they are disjoint, [1.0] exactly when [r1] covers
    [r2], and positive in every other case. *)
Theorem overlap_ratio_classifies r1 r2 a0 a1 b0 b1 :
  is_pair T r1 a0 a1 → is_pair T r2 b0 b1 → a0 ≤ a1 → b0 ≤ b1 →
  in_ctype (promote ty) (b1 - b0 + 1) → b1 - b0 + 1 ≤ 2 ^ 53 →
  ∃ x, overlap_ratio_t T r1 r2 = Ok x ∧
    overlap_t T r1 r2 = Ok (flt F64 0 x) ∧
    covered_t T r2 r1 = Ok (feq F64 x f_one) ∧
    (flt F64 0 x = false → x = 0).
Proof.
  intros H1 H2 Ha Hb Hi Hs. rewrite (overlap_spec T r1 r2 a0 a1 b0 b1), (covered_spec T r2 r1 b0 b1 a0 a1) by done.
  destruct (overlap_ratio_spec r1 r2 a0 a1 b0 b1 H1 H2 Ha Hb Hi Hs) as (x & E & Hx). exists x.
  split; [done|]. simpl rank. destruct ((a0 <=? b1) && (b0 <=? a1)) eqn:Eo.
  - destruct Hx as [Hu Hone]. rewrite Hone. destruct (unit64_not_zero x Hu) as [_ ->]. by split_and!.
  - subst x. split_and!; try done. f_equal. change (feq F64 0 f_one) with false.
    destruct (Z.leb_spec a0 b0), (Z.leb_spec b1 a1), (Z.leb_spec a0 b1), (Z.leb_spec b0 a1); simpl in *; done || lia.
Qed.

End Integers.

(** ** Concrete instances *)

Definition int_dim (ty : ctype) (dt : Datatype) (lo hi ext : Z) : t :=
  mk 1 (pair_of (NInt ty) lo hi) empty_pipeline [100] (nenc (NInt ty) ext) dt.

Lemma int_dim_tiled ty dt lo hi ext : in_ctype ty lo → in_ctype ty hi → in_ctype ty ext →
  lo ≤ hi → 0 < ext → in_ctype (promote ty) (hi - lo) → tiled ty (int_dim ty dt lo hi ext) lo hi ext.
Proof. intros. by split; [apply pair_of_is|..]. Qed.

Lemma overlap_covered_membership_witness :
  ∃ o, overlap_t (NInt I32) (pair_of (NInt I32) 1 5) (pair_of (NInt I32) 3 9) = Ok o.
Proof.
  destruct (overlap_covered_membership (NInt I32) (pair_of (NInt I32) 1 5)
    (pair_of (NInt I32) 3 9) 1 5 3 9) as [(o & H & _) _];
    [by apply pair_of_is..|by repeat constructor|done|done|by exists o].
Defined.

(** The values are the representations of 1.0 to 6.0. *)
Lemma expand_range_least_witness :
  let r a b := pair_of (NFlt F32) a b in
  ∃ z, expand_range_t (NFlt F32) (r 1065353216 1073741824) (r 1077936128 1082130432) = Ok z.
Proof.
  destruct (expand_range_least (NFlt F32) (pair_of (NFlt F32) 1065353216 1073741824)
    (pair_of (NFlt F32) 1077936128 1082130432) 1065353216 1073741824 1077936128 1082130432
    (pair_of (NFlt F32) 1065353216 1084227584) 1065353216 1084227584) as (z & _ & _ & _ & H & _);
    [by apply pair_of_is..|by repeat constructor|done|done|done|by exists z].
Defined.

Lemma crop_range_intersection_witness :
  ∃ r, crop_range_t (NInt I32) (int_dim I32 INT32 0 9 2) (pair_of (NInt I32) 5 20) = Ok r.
Proof.
  destruct (crop_range_intersection (NInt I32) (int_dim I32 INT32 0 9 2)
    (pair_of (NInt I32) 5 20) 0 9 5 20 7) as (r & _ & _ & _ & H & _);
    [by apply pair_of_is..|by repeat constructor|done|by exists r].
Defined.

Lemma split_partitions_witness :
  ∃ v, splitting_value_t (NInt I64) (pair_of (NInt I64) (-3) 8) = Ok (v, false).
Proof.
  destruct (split_partitions I64 (pair_of (NInt I64) (-3) 8) (-3) 8 empty_range empty_range)
    as (v & _ & _ & H & _); [by apply pair_of_is|done..|by exists v].
Defined.

Lemma tile_num_counts_witness :
  ∃ n, tile_num_t (NInt I32) (int_dim I32 INT32 0 99 10) (pair_of (NInt I32) 5 25) = Ok n.
Proof.
  destruct (tile_num_counts I32 (int_dim I32 INT32 0 99 10) 0 99 10 (pair_of (NInt I32) 5 25) 5 25)
    as (n & H & _); [by apply int_dim_tiled|by apply pair_of_is|done..|by exists n].
Defined.

Lemma expand_to_tile_aligned_witness :
  ∃ r, expand_to_tile_t (NInt I32) (int_dim I32 INT32 0 99 10) (pair_of (NInt I32) 5 25) = Ok r.
Proof.
  destruct (expand_to_tile_aligned I32 (int_dim I32 INT32 0 99 10) 0 99 10 (pair_of (NInt I32) 5 25) 5 25)
    as (r & H & _); [by apply int_dim_tiled|by apply pair_of_is|done..|by exists r].
Defined.

Lemma ceil_to_tile_end_witness :
  ceil_to_tile_t (NInt I32) (int_dim I32 INT32 0 99 10) (pair_of (NInt I32) 5 95) 1 =
  Ok (nenc (NInt I32) 19).
Proof.
  apply (ceil_to_tile_end I32 (int_dim I32 INT32 0 99 10) 0 99 10 _ 5 95 1);
    [by apply int_dim_tiled|by apply pair_of_is|done..].
Defined.

Lemma overlap_ratio_classifies_witness :
  ∃ x, overlap_ratio_t (NInt I32) (pair_of (NInt I32) 1 5) (pair_of (NInt I32) 3 9) = Ok x.
Proof.
  destruct (overlap_ratio_classifies I32 (pair_of (NInt I32) 1 5) (pair_of (NInt I32) 3 9) 1 5 3 9)
    as (x & H & _); [by apply pair_of_is..|done|done|done|done|by exists x].
Defined.
