(* ===== verification/DimensionChecks.v ===== *)
(** * Domain and extent checks of a dimension, and the limits of its arithmetic

    What the setters guarantee, and concrete inputs on which the arithmetic
    of the templates leaves its exact range. *)

From S2P Require Import Prelude.
From S2P Require Import Enums.
From S2P Require Import Num.
From S2P Require Import NumFacts.
From S2P Require Import Range.
From S2P Require Import ConstBuffer.
From S2P Require Import Buffer.
From S2P Require Import Filter.
From S2P Require Import Dimension.
From S2P Require Import DimensionProofs.
Local Open Scope Z_scope.

(** ** The domain invariant *)

(** The domain is not set, or is a pair of values whose bounds are in order
    (a NaN bound passes, being neither smaller nor larger). *)
Definition domain_ok (d : t) : Prop :=
  range_ (domain_ d) = [] ∨
  ∃ T lo hi, num_of (type_ d) = Some T ∧ is_pair T (domain_ d) lo hi ∧ nlt T hi lo = false.

Lemma coord_size_num d T : num_of (type_ d) = Some T → coord_size d = nsize T.
Proof. unfold coord_size. destruct (type_ d); simpl; intros [= <-]; done. Qed.

Lemma check_domain_sound T d a b : num_of (type_ d) = Some T → is_pair T (domain_ d) a b →
  check_domain d = Ok () → nlt T b a = false.
Proof.
  intros HT Hp. unfold check_domain, check_domain_t. rewrite HT. pair_guards. by destruct (nlt T b a).
Qed.

Lemma nenc_ndec T bs : Forall byte_ok bs → zlen bs = nsize T → nenc T (ndec T bs) = bs.
Proof.
  intros Hb Hl. destruct T as [t|f]; simpl in *.
  - by apply to_of_bytes.
  - unfold zlen in Hl. replace (Z.to_nat (fsize f)) with (length bs) by lia. by apply le_enc_dec.
Qed.

(** Bytes of twice the size of a type are a pair of its values. *)
Lemma bytes_pair T bs : Forall byte_ok bs → zlen bs = 2 * nsize T →
  ∃ a b, is_pair T (make_range bs) a b.
Proof.
  intros Hb Hl. pose proof (nsize_pos T). set (n := Z.to_nat (nsize T)).
  assert (zlen (take n bs) = nsize T ∧ zlen (drop n bs) = nsize T) as [H1 H2].
  { unfold zlen in *. rewrite length_take, length_drop. lia. }
  assert (Forall byte_ok (take n bs)) as B1 by (by apply Forall_take).
  assert (Forall byte_ok (drop n bs)) as B2 by (by apply Forall_drop).
  exists (ndec T (take n bs)), (ndec T (drop n bs)). split_and!; [|by apply ndec_val..].
  simpl. rewrite !nenc_ndec by done. by rewrite take_drop.
Qed.

(** C33. [set_domain] keeps the domain invariant whatever bytes it is given
    and whatever it answers: after it, the domain is unset or an ordered pair
    of values of the type of the dimension (when it reports an error the
    domain is unset). *)
Theorem set_domain_invariant d bs r d' :
  domain_ok d → Forall byte_ok bs →
  set_domain (Some bs) d = (r, d') → r ≠ UB →
  domain_ok d' ∧ (∀ c e, r = Err c e → type_ d ≠ STRING_ASCII → range_ (domain_ d') = []).
Proof.
  intros Hd Hb. unfold set_domain.
  destruct (decide (type_ d = STRING_ASCII)) as [->|Hs].
  { intros [= <- <-] _. split; [done|]. intros c e [= <- <-] Hne. done. }
  assert (∀ x : res unit * t, match type_ d with STRING_ASCII => x | _ =>
    match memread bs 0 (2 * coord_size d) with Ok bs => set_domain_range (make_range bs) d | _ => (UB, d) end end =
    match memread bs 0 (2 * coord_size d) with Ok bs => set_domain_range (make_range bs) d | _ => (UB, d) end) as ->.
  { intros x. by destruct (type_ d). }
  destruct (memread bs 0 (2 * coord_size d)) as [y| |] eqn:Ey; [|by intros [= <- <-]..].
  unfold memread in Ey. case_match eqn:Hin; [|done]. injection Ey as <-.
  rewrite !andb_true_iff, !Z.leb_le in Hin. destruct Hin as [[_ Hp] Hl].
  set (y := slice 0 (2 * coord_size d) bs).
  assert (zlen y = 2 * coord_size d) as Hy by (apply zlen_slice; lia).
  assert (Forall byte_ok y) as Hby by (by apply Forall_take, Forall_drop).
  unfold set_domain_range. case_match eqn:He; [intros [= <- <-] _; split; [done|by intros ? ? [=]]|].
  unfold check_domain. simpl type_. destruct (num_of (type_ d)) as [T|] eqn:HT.
  - rewrite (coord_size_num d T HT) in Hy. destruct (bytes_pair T y Hby Hy) as (a & b & Hab).
    destruct (check_domain_t T (with_domain d (make_range y))) as [[]|c e|] eqn:Ec; intros [= <- <-] Hr.
    + split; [|by intros ? ? [=]]. right. exists T, a, b. split_and!; [done|done|].
      apply (check_domain_sound T (with_domain d (make_range y))); [done|done|].
      unfold check_domain. simpl type_. by rewrite HT.
    + split; [by left|done].
    + done.
  - intros [= <- <-] _. split; [by left|done].
Qed.

(** ** The tile extent *)

Section Extent.
Context (ty : ctype).
Local Abbreviation T := (NInt ty).

Lemma upper_floor_sound lo hi ext : in_ctype ty lo → in_ctype ty hi → lo ≤ hi →
  in_ctype ty ext → 0 < ext → in_ctype (promote ty) (hi - lo + 1) → csize ty = 8 →
  check_tile_extent_upper_floor ty lo hi ext = Ok () →
  tile_hi lo ext ((hi - lo) / ext) ≤ tmax ty.
Proof.
  intros Hlo Hhi Hle Hext Hpos Hr Hs. unfold check_tile_extent_upper_floor.
  rewrite (nsub_int ty hi lo) by (apply (promote_nonneg ty _ _ Hr); lia). unfold mbind. cbn [res_bind].
  rewrite (nadd_int ty (hi - lo) 1) by done. cbn [res_bind].
  rewrite (conv_u64_nonneg ty (hi - lo + 1)), (conv_u64_nonneg ty ext) by (lia || done || by apply in_promote).
  rewrite (proj2 (Z.eqb_neq ext 0)) by lia.
  assert (hi - lo < 2 ^ 64) by (destruct ty; unfold_ctype; simpl in *; lia).
  rewrite (u64_id (hi - lo + 1 - 1)) by lia. replace (hi - lo + 1 - 1) with (hi - lo) by lia.
  set (k := (hi - lo) / ext). pose proof (Z.mul_div_le (hi - lo) ext Hpos) as Hk. fold k in Hk.
  pose proof (Z.div_pos (hi - lo) ext ltac:(lia) Hpos) as Hk0. fold k in Hk0.
  rewrite (u64_id (k * ext)) by nia.
  rewrite (Z.add_comm (k * ext)), u64_add_conv.
  assert (in_ctype ty (lo + k * ext)) as Hf by (apply (in_between ty lo _ hi); [done|done|nia]).
  assert (in_ctype ty (ext - 1)) as He1.
  { apply (in_between ty 0 _ ext); [destruct ty; unfold_ctype; simpl; lia|done|lia]. }
  rewrite (nsub_int ty ext 1) by (by apply in_promote). cbn [res_bind].
  rewrite conv_of_u64. unfold tile_hi.
  destruct ty; try done; simpl is_signed; cbv iota; rewrite !conv_id by done;
    unfold csub; rewrite arith_ok by (unfold_ctype; simpl in *; lia); cbn [res_bind];
    (case_match eqn:Hc; [done|]); rewrite orb_false_iff, !Z.ltb_ge in Hc; intros _;
    unfold_ctype; simpl in *; lia.
Qed.

(** What [check_tile_extent] establishes on an integer dimension: the
    extent is positive and at most the number of cells of the domain, and for
    the 64-bit types every tile of the domain, the last one included, ends
    within the type. *)
Theorem check_tile_extent_sound d lo hi ext :
  is_pair T (domain_ d) lo hi → lo ≤ hi → in_ctype (promote ty) (hi - lo + 1) →
  tile_extent_ d = nenc T ext → in_ctype ty ext →
  check_tile_extent_t T d = Ok () →
  tiled ty d lo hi ext ∧ ext ≤ hi - lo + 1 ∧
  (csize ty = 8 → in_ctype ty (tile_hi lo ext ((hi - lo) / ext))).
Proof.
  intros Hd Hle Hr He Hv. unfold check_tile_extent_t.
  assert (extent_empty d = false) as ->.
  { apply bool_decide_eq_false. intros E. rewrite E in He. apply (f_equal zlen) in He.
    rewrite zlen_nenc in He. pose proof (nsize_pos T). change (zlen []) with 0 in He. lia. }
  rewrite He, rd_value by done. pair_guards. cbn [nle nlit].
  destruct (Z.leb_spec ext 0) as [|Hpos]; [done|].
  assert (in_ctype (promote ty) (hi - lo)) as Hr0 by (apply (promote_nonneg ty _ _ Hr); lia).
  rewrite (nsub_int ty hi lo) by done. cbn [res_bind]. rewrite (nadd_int ty (hi - lo) 1) by done. cbn [res_bind].
  rewrite (conv_u64_nonneg ty (hi - lo + 1)), (conv_u64_nonneg ty ext) by (lia || done || by apply in_promote).
  destruct (Z.ltb_spec (hi - lo + 1) ext) as [|Hx]; [done|].
  rewrite (proj2 (Z.eqb_neq ext 0)) by lia. intros Hc.
  pose proof Hd as (_ & Hlo & Hhi). simpl in Hlo, Hhi.
  split_and!; [by split|done|]. intros H8. set (k := (hi - lo) / ext).
  pose proof (Z.mul_succ_div_gt (hi - lo) ext Hpos) as Hgt. fold k in Hgt.
  enough (tile_hi lo ext k ≤ tmax ty) by (unfold in_ctype, tile_hi in *; lia).
  destruct (Z.eqb_spec ((hi - lo + 1) mod ext) 0) as [Hm|Hm]; simpl negb in Hc; cbv iota in Hc.
  - pose proof (Z.div_mod (hi - lo + 1) ext ltac:(lia)) as Hdm. rewrite Hm in Hdm.
    assert (k = (hi - lo + 1) / ext - 1) as Hk.
    { symmetry. apply (Z.div_unique_pos _ _ _ (ext - 1)); lia. }
    unfold tile_hi. unfold in_ctype in Hhi. nia.
  - by apply (upper_floor_sound lo hi ext).
Qed.

End Extent.

(** For the narrow types the check on the last tile compares with the
    limits of 64 bits: the [int8_t] domain [[0, 120]] with extent 100 is
    accepted, although the second tile ends at 199; expanding the range
    [[110, 120]] to its tile then wraps around to [[100, -57]]. *)
Theorem narrow_extent_accepted :
  let d := int_dim I8 INT8 0 120 100 in
  check_tile_extent d = Ok () ∧
  expand_to_tile d (pair_of (NInt I8) 110 120) = Ok (pair_of (NInt I8) 100 (-57)).
Proof. by vm_compute. Qed.

(** Above [2^53] the successor of the splitting value goes through
    [double]: splitting [[0, 2^60]] at [2^53 + 2] drops the cell [2^53 + 3],
    and splitting it at [2^53] puts the cell [2^53] in both parts. *)
Theorem split_range_rounds :
  let r := pair_of (NInt I64) 0 (2 ^ 60) in
  let split v := split_range_t (NInt I64) r (nenc (NInt I64) v) empty_range empty_range in
  split (2 ^ 53 + 2) = Ok (pair_of (NInt I64) 0 (2 ^ 53 + 2), pair_of (NInt I64) (2 ^ 53 + 4) (2 ^ 60)) ∧
  split (2 ^ 53) = Ok (pair_of (NInt I64) 0 (2 ^ 53), pair_of (NInt I64) (2 ^ 53) (2 ^ 60)).
Proof. by vm_compute. Qed.

(** Tile indices above [2^53] are rounded by [floor]: the two cells
    [2^53] and [2^53 + 1] of a dimension with tiles of one cell are reported
    as one tile. *)
Theorem tile_num_rounds :
  tile_num (int_dim U64 UINT64 0 (2 ^ 60) 1) (pair_of (NInt U64) (2 ^ 53) (2 ^ 53 + 1)) = Ok 1.
Proof. by vm_compute. Qed.

(** On [float] dimensions the overlap ratio with a bounding range of a
    single value is not a number: the smallest positive [double] rounds to
    zero in [float], and zero is divided by zero, although the ranges do
    overlap ([[1.0, 2.0]] with [[1.5, 1.5]]). *)
Theorem float_ratio_nan :
  let r1 := pair_of (NFlt F32) 1065353216 1073741824 in
  let r2 := pair_of (NFlt F32) 1069547520 1069547520 in
  overlap_t (NFlt F32) r1 r2 = Ok true ∧
  ∃ x, overlap_ratio_t (NFlt F32) r1 r2 = Ok x ∧ is_nan F64 x = true ∧ flt F64 0 x = false.
Proof. split; [by vm_compute|]. exists 9221120237041090560. by vm_compute. Qed.

(** A bounding range of more than [2^53] cells that is not covered can
    have ratio [1.0]: [[1, 2^60]] against [[0, 2^60]]. *)
Theorem large_ratio_one :
  let r1 := pair_of (NInt I64) 1 (2 ^ 60) in
  let r2 := pair_of (NInt I64) 0 (2 ^ 60) in
  overlap_ratio_t (NInt I64) r1 r2 = Ok f_one ∧ covered_t (NInt I64) r2 r1 = Ok false.
Proof. by vm_compute. Qed.

(** A null extent replaced by the range of a signed domain can turn
    negative: the [int8_t] domain [[-100, 100]] gets extent -55. *)
Theorem null_extent_negative :
  let d := with_extent (int_dim I8 INT8 (-100) 100 1) [] in
  set_null_tile_extent_to_range d = (Ok (), with_extent d (nenc (NInt I8) (-55))).
Proof. by vm_compute. Qed.

(** ** String ranges *)

(** The bounds of the hull of a string and a range of strings. *)
Lemma expand_range_var_v_spec r s e v : is_str r s e → v ≠ [] → zlen v < 2 ^ 61 →
  zlen s < 2 ^ 61 → zlen e < 2 ^ 61 →
  ∃ r', expand_range_var_v v r = Ok r' ∧
    is_str r' (if str_lt v s then v else s) (if str_lt e v then v else e).
Proof.
  intros Hr Hv Lv Ls Le. unfold expand_range_var_v. rewrite (str_nonempty r s e Hr).
  rewrite bool_decide_eq_false_2 by done. unfold mbind. cbn [negb massert res_bind].
  rewrite (start_str_is r s e Hr). cbn [res_bind]. rewrite (end_str_is r s e Hr). cbn [res_bind].
  eexists. split; [done|]. destruct Hr as (_ & _ & Hs & He & _).
  apply set_str_is; [by case_match|by case_match|]. repeat case_match; lia.
Qed.

(** Strings: [overlap] agrees with membership of strings, and
    [expand_range_var_v] computes the smallest range that contains the range
    and the string. *)
Theorem string_ranges_membership d r1 r2 s1 e1 s2 e2 :
  type_ d = STRING_ASCII → is_str r1 s1 e1 → is_str r2 s2 e2 →
  str_le s1 e1 = true → str_le s2 e2 = true →
  zlen s1 < 2 ^ 61 → zlen e1 < 2 ^ 61 → zlen s2 < 2 ^ 61 → zlen e2 < 2 ^ 61 →
  (∃ o, overlap d r1 r2 = Ok o ∧
     (o = true ↔ ∃ x, x ≠ [] ∧ value_in_range_str d x r1 = Ok true ∧
                      value_in_range_str d x r2 = Ok true)) ∧
  (∃ r s e, expand_range_var_v s1 r2 = Ok r ∧ is_str r s e ∧
     str_le s s1 = true ∧ str_le s1 e = true ∧ str_le s s2 = true ∧ str_le e2 e = true ∧
     (s = s1 ∨ s = s2) ∧ (e = s1 ∨ e = e2)).
Proof.
  intros Ht H1 H2 O1 O2 L1 L2 L3 L4. split.
  - unfold overlap, overlap_func_, with_char. rewrite Ht. cbn [call]. unfold overlap_char.
    rewrite (str_nonempty r1 s1 e1 H1), (str_nonempty r2 s2 e2 H2). unfold mbind. cbn [negb massert res_bind].
    rewrite (start_str_is r1 s1 e1 H1), (end_str_is r1 s1 e1 H1), (start_str_is r2 s2 e2 H2),
      (end_str_is r2 s2 e2 H2). cbn [res_bind]. eexists. split; [done|].
    assert (∀ x, x ≠ [] →
      value_in_range_str d x r1 = Ok (str_le s1 x && str_le x e1) ∧
      value_in_range_str d x r2 = Ok (str_le s2 x && str_le x e2)) as Hin.
    { intros x Hx. unfold value_in_range_str.
      rewrite !(bool_decide_eq_true_2 (type_ d = STRING_ASCII)), !(bool_decide_eq_false_2 (x = [])) by done.
      rewrite (str_nonempty r1 s1 e1 H1), (str_nonempty r2 s2 e2 H2). unfold mbind. cbn [negb massert res_bind].
      by rewrite (start_str_is r1 s1 e1 H1), (end_str_is r1 s1 e1 H1), (start_str_is r2 s2 e2 H2),
        (end_str_is r2 s2 e2 H2). }
    fold (str_le s1 e2) (str_le s2 e1). rewrite andb_true_iff. split.
    + intros [A B]. destruct H1 as (_ & _ & N1 & _), H2 as (_ & _ & N2 & _).
      destruct (str_lt s1 s2) eqn:E.
      * exists s2. destruct (Hin s2 N2) as [-> ->]. rewrite (str_lt_le _ _ E), B, O2, str_le_refl. done.
      * exists s1. destruct (Hin s1 N1) as [-> ->].
        assert (str_le s2 s1 = true) as -> by (unfold str_le; by rewrite E).
        by rewrite A, O1, str_le_refl.
    + intros (x & Hx & V1 & V2). destruct (Hin x Hx) as [I1 I2]. rewrite I1 in V1. rewrite I2 in V2.
      injection V1 as [? ?]%andb_true_iff. injection V2 as [? ?]%andb_true_iff.
      split; by apply (str_le_trans _ x).
  - pose proof H1 as (_ & _ & N1 & _).
    destruct (expand_range_var_v_spec r2 s2 e2 s1 H2 N1 L1 L3 L4) as (r & E & Hr).
    eexists r, _, _. split; [done|]. split; [done|].
    destruct (str_lt s1 s2) eqn:Es, (str_lt e2 s1) eqn:Ee; split_and!;
      rewrite ?str_le_refl; try done; try (by apply str_lt_le); try (by left); try (by right);
      unfold str_le; rewrite ?Es, ?Ee; done.
Qed.

(** Splitting a range of strings is not a partition: splitting
    [["a", "z"]] gives [["a", "m"]] and [["n", "z"]], and the string ["ma"],
    which lies in the range, lies in neither part. *)
Theorem string_split_gap :
  let d := make [100] STRING_ASCII in
  let r := set_str_range [97] [122] empty_range in
  let r1 := set_str_range [97] [109] empty_range in
  let r2 := set_str_range [110] [122] empty_range in
  splitting_value d r = Ok (Some [109], false) ∧
  split_range d r [109] empty_range empty_range = Ok (r1, r2) ∧
  value_in_range_str d [109; 97] r = Ok true ∧
  value_in_range_str d [109; 97] r1 = Ok false ∧
  value_in_range_str d [109; 97] r2 = Ok false.
Proof. by vm_compute. Qed.

(** A range whose first string is empty is read out of bounds: with no
    start size, [end()] designates the middle of the bytes, and
    [end_size()] is their whole number. *)
Theorem empty_start_out_of_bounds e : e ≠ [] → zlen e < 2 ^ 63 → 1 < zlen e →
  end_str (set_str_range [] e empty_range) = UB.
Proof.
  intros He Hl H1. unfold set_str_range. rewrite (proj2 (Z.eqb_neq _ 0)) by (rewrite zlen_nil; lia).
  unfold end_str, end_size, end_pos, set_range_var. cbn [range_ range_start_size_ app]. rewrite zlen_nil.
  rewrite Z.sub_0_r, u64_id, (proj2 (Z.eqb_neq (zlen e) 0)) by lia. rewrite Z.eqb_refl.
  unfold memread. assert (0 < zlen e / 2) by (apply Z.div_str_pos; lia).
  rewrite (proj2 (Z.leb_gt (zlen e / 2 + zlen e) (zlen e))) by lia. by rewrite andb_false_r.
Qed.

(** ** Concrete instances *)

Lemma set_domain_invariant_witness :
  domain_ok (snd (set_domain (Some (nenc (NInt I32) 1 ++ nenc (NInt I32) 9)) (make [100] INT32))).
Proof.
  apply (set_domain_invariant (make [100] INT32) (nenc (NInt I32) 1 ++ nenc (NInt I32) 9) (Ok ())).
  - by left.
  - by apply Forall_app_2; apply nenc_ok.
  - by vm_compute.
  - done.
Defined.

Lemma check_tile_extent_sound_witness : tiled I32 (int_dim I32 INT32 1 10 4) 1 10 4.
Proof. apply (check_tile_extent_sound I32); by vm_compute. Defined.

Lemma string_ranges_membership_witness :
  ∃ o, overlap (make [100] STRING_ASCII) (set_str_range [97] [99] empty_range)
         (set_str_range [98] [122] empty_range) = Ok o.
Proof.
  destruct (string_ranges_membership (make [100] STRING_ASCII)
    (set_str_range [97] [99] empty_range) (set_str_range [98] [122] empty_range)
    [97] [99] [98] [122]) as [(o & H & _) _]; [by vm_compute..|by exists o].
Defined.

Lemma empty_start_out_of_bounds_witness : end_str (set_str_range [] [97; 98] empty_range) = UB.
Proof. by apply empty_start_out_of_bounds. Defined.
