(* ===== verification/DimensionSerial.v ===== *)
(** * Serialization of a dimension: round trip *)

From S2P Require Import Prelude.
From S2P Require Import Enums.
From S2P Require Import Num.
From S2P Require Import Range.
From S2P Require Import ConstBuffer.
From S2P Require Import Buffer.
From S2P Require Import Filter.
From S2P Require Import Dimension.
Local Open Scope Z_scope.

(** A dimension as an array schema stores it. *)
Record storable (d : t) : Prop := {
  st_name : zlen (name_ d) < 2 ^ 32;
  st_name_bytes : Forall byte_ok (name_ d);
  st_cell_val_num : in_ctype U32 (cell_val_num_ d);
  st_filters : Forall filter_ok (Filter.filters_ (filters_ d)) ∧
               in_ctype U32 (max_chunk_size_ (filters_ d)) ∧
               zlen (Filter.filters_ (filters_ d)) < 2 ^ 32;
  st_domain : range_start_size_ (domain_ d) = 0 ∧ Forall byte_ok (range_ (domain_ d)) ∧
              zlen (range_ (domain_ d)) =
                (if datatype_is_string (type_ d) then 0 else 2 * coord_size d);
  st_extent : Forall byte_ok (tile_extent_ d) ∧
              (tile_extent_ d = [] ∨ zlen (tile_extent_ d) = coord_size d)
}.

Definition enc_extent (d : t) : list Z :=
  to_bytes U8 (if extent_empty d then 1 else 0) ++ tile_extent_ d.

Definition enc_dim (d : t) : list Z :=
  to_bytes U32 (zlen (name_ d)) ++ name_ d ++
  to_bytes U8 (datatype_code (type_ d)) ++ to_bytes U32 (cell_val_num_ d) ++
  enc_pipeline (filters_ d) ++
  to_bytes U64 (zlen (range_ (domain_ d))) ++ range_ (domain_ d) ++ enc_extent d.

(** What is read back: the pipeline in its stored form. *)
Definition stored_pipeline (p : FilterPipeline) : FilterPipeline :=
  mkPipeline (stage <$> Filter.filters_ p) (max_chunk_size_ p).

Definition stored (d : t) : t :=
  mk (cell_val_num_ d) (domain_ d) (stored_pipeline (filters_ d)) (name_ d)
     (tile_extent_ d) (type_ d).

Lemma coord_size_bound d : 0 < coord_size d ≤ 8.
Proof. unfold coord_size. destruct (type_ d); simpl; lia. Qed.

Section Serialize.
Context `{!Allocator}.

Lemma appends_lift {A} (r : res A) a k x : r = Ok a → appends (k a) x → appends (lift r ≫= k) x.
Proof. intros -> Hk b bs Hb Hl. unfold lift, mbind, M_bind. by apply Hk. Qed.

Lemma dim_serialize_appends version d : 5 ≤ version → storable d →
  appends (serialize version d) (enc_dim d).
Proof.
  intros Hv [Hn Hnb Hc (Hf1 & Hf2 & Hf3) (Hd0 & Hdb & Hdl) (Heb & He)].
  pose proof (zlen_nonneg (name_ d)). pose proof (coord_size_bound d).
  assert (datatype_is_string (type_ d) || negb (range_empty (domain_ d)) = true) as Hg.
  { destruct (datatype_is_string (type_ d)); [done|]. simpl. apply negb_true_iff, bool_decide_eq_false.
    intros E. rewrite E in Hdl. change (zlen []) with 0 in Hdl. lia. }
  unfold serialize, enc_dim. rewrite Hg. apply (appends_lift _ ()); [done|].
  rewrite conv_id by (unfold_ctype; simpl; lia). rewrite slice_all.
  apply appends_seq; [apply appends_val|]. apply appends_seq; [by apply appends_write|].
  rewrite (proj2 (Z.leb_le 5 version)) by done.
  rewrite (app_assoc (to_bytes U32 (cell_val_num_ d))), (app_assoc (to_bytes U8 _)).
  apply appends_seq.
  { apply appends_seq; [apply appends_val|]. apply appends_seq; [apply appends_val|].
    by apply serialize_pipeline_appends. }
  rewrite <- Hdl. apply appends_seq; [apply appends_val|].
  apply (appends_lift _ (range_ (domain_ d))).
  { pose proof (zlen_nonneg (range_ (domain_ d))). rewrite memread_ok by lia. by rewrite slice_all. }
  apply appends_seq; [by apply appends_write|]. unfold enc_extent.
  apply appends_seq; [apply appends_val|]. unfold extent_empty. case_bool_decide as Hx.
  - rewrite Hx. apply appends_ret.
  - by apply appends_write.
Qed.

End Serialize.

(** Reading on the first of two objects, then updating the second. *)
Lemma load_filters_spec p b rest d : Forall filter_ok (Filter.filters_ p) →
  in_ctype U32 (max_chunk_size_ p) → zlen (Filter.filters_ p) < 2 ^ 32 →
  ConstBuffer.wf b → ConstBuffer.view b = enc_pipeline p ++ rest →
  ∃ b', ConstBuffer.wf b' ∧ ConstBuffer.view b' = rest ∧
    load_filters (b, d) =
      (Ok (), (b', mk (cell_val_num_ d) (domain_ d) (stored_pipeline p) (name_ d)
                      (tile_extent_ d) (type_ d))).
Proof.
  intros Hf Hc Hn Hwf Hv.
  destruct (deserialize_pipeline_spec p b rest (filters_ d) Hf Hc Hn Hwf Hv) as (b' & E & Hwf' & Hv').
  exists b'. split_and!; try done. unfold load_filters. by rewrite E.
Qed.

(** The type, the number of values per cell and the filters. *)
Lemma load_header_spec d b d0 rest : in_ctype U32 (cell_val_num_ d) →
  Forall filter_ok (Filter.filters_ (filters_ d)) → in_ctype U32 (max_chunk_size_ (filters_ d)) →
  zlen (Filter.filters_ (filters_ d)) < 2 ^ 32 → ConstBuffer.wf b →
  ConstBuffer.view b = to_bytes U8 (datatype_code (type_ d)) ++ to_bytes U32 (cell_val_num_ d) ++
    enc_pipeline (filters_ d) ++ rest →
  ∃ b', ConstBuffer.wf b' ∧ ConstBuffer.view b' = rest ∧
    (load_type;; c ← on_fst (read_val U32); on_snd (put_cell_val_num c);; load_filters) (b, d0) =
    (Ok (), (b', mk (cell_val_num_ d) (domain_ d0) (stored_pipeline (filters_ d)) (name_ d0)
                    (tile_extent_ d0) (type_ d))).
Proof.
  intros Hc Hf1 Hf2 Hf3 Hwf Hv. unfold load_type.
  destruct (on_fst_parses _ _ _ b _ (parses_val U8 _ (datatype_code_byte (type_ d))) Hwf Hv) as (b1 & W1 & V1 & E1).
  erewrite M_step by (rewrite E1, datatype_of_code_code; done).
  destruct (on_fst_parses _ _ _ b1 _ (parses_val U32 _ Hc) W1 V1) as (b2 & W2 & V2 & ->).
  erewrite on_snd_ok by done.
  destruct (load_filters_spec (filters_ d) b2 rest (mk (cell_val_num_ d) (domain_ d0) (filters_ d0)
    (name_ d0) (tile_extent_ d0) (type_ d)) Hf1 Hf2 Hf3 W2 V2) as (b3 & W3 & V3 & E3).
  by exists b3.
Qed.

Lemma load_domain_spec r b d0 rest : range_start_size_ r = 0 → ConstBuffer.wf b →
  ConstBuffer.view b = range_ r ++ rest →
  ∃ b', ConstBuffer.wf b' ∧ ConstBuffer.view b' = rest ∧
    (if zlen (range_ r) =? 0 then mret ()
     else tmp ← on_fst (ConstBuffer.read (zlen (range_ r))); on_snd (put_domain (make_range tmp))) (b, d0) =
    (Ok (), (b', if zlen (range_ r) =? 0 then d0 else with_domain d0 r)).
Proof.
  intros Hr Hwf Hv. destruct (Z.eqb_spec (zlen (range_ r)) 0) as [E|E].
  - exists b. destruct (range_ r) as [|x l]; [done|]. rewrite zlen_cons in E. pose proof (zlen_nonneg l). lia.
  - destruct (on_fst_parses _ _ _ b _ (parses_read (range_ r) _ eq_refl) Hwf Hv) as (b1 & W1 & V1 & ->).
    exists b1. split_and!; try done. unfold make_range, on_snd, put_domain, set_range. simpl.
    rewrite <- Hr. by destruct r.
Qed.

Lemma load_extent_spec d b d0 rest : tile_extent_ d = [] ∨ zlen (tile_extent_ d) = coord_size d →
  ConstBuffer.wf b →
  ConstBuffer.view b = to_bytes U8 (if extent_empty d then 1 else 0) ++ tile_extent_ d ++ rest →
  tile_extent_ d0 = [] →
  ∃ b', ConstBuffer.wf b' ∧ ConstBuffer.view b' = rest ∧
    (null_tile_extent ← on_fst (read_val U8);
     if null_tile_extent =? 0 then
       on_snd (put_extent (resize (coord_size d) []));;
       x ← on_fst (ConstBuffer.read (coord_size d)); on_snd (put_extent x)
     else mret ()) (b, d0) = (Ok (), (b', with_extent d0 (tile_extent_ d))).
Proof.
  intros He Hwf Hv H0.
  assert (in_ctype U8 (if extent_empty d then 1 else 0)) as Hi by (case_match; unfold_ctype; simpl; lia).
  destruct (on_fst_parses _ _ _ b _ (parses_val U8 _ Hi) Hwf Hv) as (b1 & W1 & V1 & ->).
  unfold extent_empty in *. case_bool_decide as Hx;
    [change (1 =? 0) with false|change (0 =? 0) with true]; cbv iota.
  - exists b1. rewrite Hx in *. split_and!; try done. rewrite <- H0. by destruct d0.
  - destruct He as [?|He]; [done|]. erewrite on_snd_ok by done. rewrite <- He.
    destruct (on_fst_parses _ _ _ b1 _ (parses_read (tile_extent_ d) _ eq_refl) W1 V1) as (b2 & W2 & V2 & ->).
    by exists b2.
Qed.

(** The body of [deserialize] after the name. *)
Lemma deserialize_spec version ty d b rest : 5 ≤ version → storable d →
  ConstBuffer.wf b → ConstBuffer.view b = enc_dim d ++ rest →
  ∃ b' d', deserialize version ty (b, make [] INT32) = (Ok (), (b', d')) ∧
    ConstBuffer.wf b' ∧ ConstBuffer.view b' = rest ∧ d' = stored d.
Proof.
  intros Hver [Hn Hnb Hc (Hf1 & Hf2 & Hf3) (Hd0 & Hdb & Hdl) (Heb & He)] Hwf Hv.
  pose proof (zlen_nonneg (name_ d)). pose proof (coord_size_bound d).
  unfold enc_dim, enc_extent in Hv. rewrite <- !app_assoc in Hv.
  assert (in_ctype U32 (zlen (name_ d))) as Hin by (unfold_ctype; simpl; lia).
  unfold deserialize.
  destruct (on_fst_parses _ _ _ b _ (parses_val U32 _ Hin) Hwf Hv) as (b1 & W1 & V1 & ->).
  erewrite on_snd_ok by done.
  destruct (on_fst_parses _ _ _ b1 _ (parses_read (name_ d) _ eq_refl) W1 V1) as (b2 & W2 & V2 & ->).
  erewrite on_snd_ok by done. rewrite (proj2 (Z.leb_le 5 version)) by done.
  destruct (load_header_spec d b2 (make (name_ d) INT32) _ Hc Hf1 Hf2 Hf3 W2 V2) as (b3 & W3 & V3 & E3).
  erewrite M_step by exact E3. erewrite M_step by done. cbv beta iota.
  assert (in_ctype U64 (zlen (range_ (domain_ d)))) as Hdn.
  { assert (0 ≤ zlen (range_ (domain_ d)) ≤ 16) by (rewrite Hdl; destruct (datatype_is_string _); lia).
    unfold_ctype. simpl. lia. }
  destruct (on_fst_parses _ _ _ b3 _ (parses_val U64 _ Hdn) W3 V3) as (b4 & W4 & V4 & ->).
  destruct (load_domain_spec (domain_ d) b4 (mk (cell_val_num_ d) empty_range (stored_pipeline (filters_ d)) (name_ d) [] (type_ d)) _ Hd0 W4 V4)
    as (b5 & W5 & V5 & E5). simpl in E5.
  erewrite M_step by exact E5. erewrite on_snd_ok by done.
  assert ((if zlen (range_ (domain_ d)) =? 0
           then mk (cell_val_num_ d) empty_range (stored_pipeline (filters_ d)) (name_ d) [] (type_ d)
           else with_domain (mk (cell_val_num_ d) empty_range (stored_pipeline (filters_ d)) (name_ d) [] (type_ d))
                  (domain_ d)) = with_extent (stored d) []) as ->.
  { destruct (Z.eqb_spec (zlen (range_ (domain_ d))) 0) as [Hz|]; [|done].
    unfold with_extent, stored. simpl. f_equal. destruct (domain_ d) as [l n]. simpl in *. subst n.
    destruct l as [|x l]; [done|]. rewrite zlen_cons in Hz. pose proof (zlen_nonneg l). lia. }
  destruct (load_extent_spec d b5 (with_extent (stored d) []) _ He W5 V5 eq_refl) as (b6 & W6 & V6 & E6).
  exists b6, (stored d). by split_and!.
Qed.

(** The size of the stored form. *)
Lemma zlen_enc_dim d : storable d →
  zlen (enc_dim d) ≤ 2 ^ 32 + 10 * 2 ^ 32 + 100.
Proof.
  intros [Hn _ _ (_ & _ & Hf) (_ & _ & Hd) (_ & He)]. unfold enc_dim, enc_extent.
  pose proof (zlen_enc_pipeline (filters_ d)). pose proof (coord_size_bound d).
  assert (zlen (range_ (domain_ d)) ≤ 16) by (rewrite Hd; destruct (datatype_is_string _); lia).
  assert (zlen (tile_extent_ d) ≤ 8) by (destruct He as [->| ->]; rewrite ?zlen_nil; lia).
  rewrite !zlen_app, !zlen_to_bytes. cbn [csize]. lia.
Qed.

(** C26. Round trip of dimensions: from format version 5 on, a dimension as an
    array schema holds it is written, unless memory runs out, in a form that
    a new dimension object reads back as the same name, datatype, number of
    values per cell, domain and tile extent, with the stored form of the same
    filter pipeline. *)
Theorem dimension_roundtrip `{!Allocator} version ty d : 5 ≤ version → storable d →
  (∃ b c, serialize version d Buffer.empty = (Ok (), b) ∧
     deserialize version ty (Buffer.to_const b, make [] INT32) = (Ok (), (c, stored d)) ∧
     ConstBuffer.view c = []) ∨
  (out_of_memory ∧ ∃ e b, serialize version d Buffer.empty = (Err SC_Buffer e, b)).
Proof.
  intros Hv Hd. pose proof (zlen_enc_dim d Hd).
  destruct (dim_serialize_appends version d Hv Hd Buffer.empty [] holds_empty) as [(b & E & Hb)|?];
    [rewrite zlen_nil; lia|left|by right].
  destruct (to_const_view _ _ Hb) as [Hwf Hview]. rewrite <- (app_nil_r (enc_dim d)) in Hview.
  destruct (deserialize_spec version ty d (to_const b) [] Hv Hd Hwf Hview) as (c & d' & Ec & _ & Hc & ->).
  by exists b, c.
Qed.

#[local] Existing Instance zero_allocator.

Definition sample_dim : t :=
  mk 1 (make_range (nenc (NInt I32) 1 ++ nenc (NInt I32) 100)) sample_pipeline [114; 111; 119]
     (nenc (NInt I32) 10) INT32.

Lemma sample_dim_storable : storable sample_dim.
Proof.
  split.
  - by vm_compute.
  - simpl. rewrite !Forall_cons. unfold byte_ok. split_and!; done || lia.
  - unfold_ctype. simpl. lia.
  - split_and!; [apply sample_pipeline_ok|unfold_ctype; simpl; lia|by vm_compute].
  - split_and!; [done| |by vm_compute].
    simpl. apply Forall_app. split; apply to_bytes_ok.
  - split; [apply to_bytes_ok|right; apply zlen_nenc].
Qed.

Lemma dimension_roundtrip_witness : ∃ b c,
  serialize 5 sample_dim Buffer.empty = (Ok (), b) ∧
  deserialize 5 INT32 (Buffer.to_const b, make [] INT32) = (Ok (), (c, stored sample_dim)) ∧
  ConstBuffer.view c = [].
Proof.
  destruct (dimension_roundtrip 5 INT32 sample_dim)
    as [?|[[] ?]%(λ H, conj (zero_allocator_total (proj1 H)) I)];
    [lia|apply sample_dim_storable|done].
Defined.

(** Before version 5 the two directions disagree: [serialize] stores the
    size of the domain, which [deserialize] does not expect, and the domain
    read back is not the one that was written. *)
Theorem old_version_domain_shifted :
  let b := (serialize 4 sample_dim Buffer.empty).2 in
  let d := (deserialize 4 INT32 (Buffer.to_const b, make [] INT32)).2.2 in
  (serialize 4 sample_dim Buffer.empty).1 = Ok () ∧
  rd2 (NInt I32) (domain_ sample_dim) = Ok (1, 100) ∧ rd2 (NInt I32) (domain_ d) = Ok (8, 0).
Proof. by vm_compute. Qed.
