(* ===== verification/Domain.v ===== *)
(** * Domain (array_schema/domain.cc, domain.h)

    The dimensions of an array with the order of its tiles and of the cells
    in a tile: n-dimensional ranges, the order of coordinates, the positions
    of cells and tiles, and the traversal of cells and tiles. *)

From S2P Require Import Prelude.
From S2P Require Import Enums.
From S2P Require Import Num.
From S2P Require Import Range.
From S2P Require Import ConstBuffer.
From S2P Require Import Buffer.
From S2P Require Import Filter.
From S2P Require Import Loops.
From S2P Require Import Dimension.
Local Open Scope Z_scope.

(** The instance a comparison function pointer designates. *)
Inductive cmp_inst : Set := CmpNum (T : num) | CmpChar.

Record t : Type := mk {
  cell_num_per_tile_ : Z;
  cell_order_ : Layout;
  dimensions_ : list Dimension.t;
  dim_num_ : Z;
  tile_order_ : Layout;
  tile_offsets_col_ : list Z;
  tile_offsets_row_ : list Z;
  cell_order_cmp_func_ : list (option cmp_inst);
  cell_order_cmp_func_2_ : list (option num);
  tile_order_cmp_func_ : list (option num)
}.

Abbreviation NDRange := (list Range).

(** [Domain()]. *)
Definition empty : t := mk 0 ROW_MAJOR [] 0 ROW_MAJOR [] [] [] [] [].

(** [Domain(const Domain* domain)]: [cell_order_cmp_func_2_] is not copied. *)
Definition copy_domain (D : t) : res t :=
  ds ← mapM Dimension.copy (dimensions_ D);
  Ok (mk (cell_num_per_tile_ D) (cell_order_ D) ds (dim_num_ D) (tile_order_ D)
         (tile_offsets_col_ D) (tile_offsets_row_ D)
         (cell_order_cmp_func_ D) [] (tile_order_cmp_func_ D)).

Definition with_dimensions (D : t) (ds : list Dimension.t) (n : Z) : t :=
  mk (cell_num_per_tile_ D) (cell_order_ D) ds n (tile_order_ D) (tile_offsets_col_ D)
     (tile_offsets_row_ D) (cell_order_cmp_func_ D) (cell_order_cmp_func_2_ D) (tile_order_cmp_func_ D).
Definition with_order (D : t) (cell tile : Layout) : t :=
  mk (cell_num_per_tile_ D) cell (dimensions_ D) (dim_num_ D) tile (tile_offsets_col_ D)
     (tile_offsets_row_ D) (cell_order_cmp_func_ D) (cell_order_cmp_func_2_ D) (tile_order_cmp_func_ D).
Definition with_cell_num (D : t) (n : Z) : t :=
  mk n (cell_order_ D) (dimensions_ D) (dim_num_ D) (tile_order_ D) (tile_offsets_col_ D)
     (tile_offsets_row_ D) (cell_order_cmp_func_ D) (cell_order_cmp_func_2_ D) (tile_order_cmp_func_ D).
Definition with_offsets (D : t) (col row : list Z) : t :=
  mk (cell_num_per_tile_ D) (cell_order_ D) (dimensions_ D) (dim_num_ D) (tile_order_ D) col
     row (cell_order_cmp_func_ D) (cell_order_cmp_func_2_ D) (tile_order_cmp_func_ D).

Definition add_dimension (dim : Dimension.t) : M t unit := fun D =>
  match Dimension.copy dim with
  | Ok d => (Ok (), with_dimensions D (dimensions_ D ++ [d]) (dim_num_ D + 1))
  | Err c e => (Err c e, D)
  | UB => (UB, D)
  end.

(** ** Queries on the dimensions *)

Definition all_dims_fixed (D : t) : bool := forallb (λ d, negb (var_size d)) (dimensions_ D).
Definition all_dims_int (D : t) : bool := forallb (λ d, datatype_is_integer (type_ d)) (dimensions_ D).
Definition all_dims_string (D : t) : bool := forallb (λ d, datatype_is_string (type_ d)) (dimensions_ D).
Definition all_dims_real (D : t) : bool := forallb (λ d, datatype_is_real (type_ d)) (dimensions_ D).

Definition all_dims_same_type (D : t) : res bool :=
  if dim_num_ D =? 0 then Ok true
  else
    d0 ← idx (dimensions_ D) 0;
    all_of (seq 1 (Z.to_nat (dim_num_ D) - 1))
      (λ d, dim ← idx (dimensions_ D) d; Ok (bool_decide (type_ dim = type_ d0))).

Definition in_dims (D : t) (i : nat) : bool := Z.of_nat i <? dim_num_ D.

(** [domain(i)] and [domain()]. *)
Definition domain (D : t) (i : nat) : res Range :=
  massert (in_dims D i);; dim ← idx (dimensions_ D) i; Ok (domain_ dim).
Definition ndomain (D : t) : res NDRange :=
  mapM (λ d, dim ← idx (dimensions_ D) d; Ok (domain_ dim)) (up (dim_num_ D)).

Definition tile_extent (D : t) (i : nat) : res (list Z) :=
  massert (in_dims D i);; dim ← idx (dimensions_ D) i; Ok (tile_extent_ dim).
Definition tile_extents (D : t) : res (list (list Z)) := mapM (tile_extent D) (up (dim_num_ D)).

(** [dimension(i)]: null only when [i > dim_num_]. *)
Definition dimension (D : t) (i : nat) : res (option Dimension.t) :=
  if dim_num_ D <? Z.of_nat i then Ok None
  else dim ← idx (dimensions_ D) i; Ok (Some dim).

Fixpoint find_dim (ds : list nat) (D : t) (name : list Z) : res (option Dimension.t) :=
  match ds with
  | [] => Ok None
  | i :: ds => dim ← idx (dimensions_ D) i;
      if bool_decide (name_ dim = name) then Ok (Some dim) else find_dim ds D name
  end.
Definition dimension_by_name (D : t) (name : list Z) : res (option Dimension.t) :=
  find_dim (up (dim_num_ D)) D name.

Definition has_dimension (D : t) (name : list Z) : bool :=
  existsb (λ d, bool_decide (name = name_ d)) (dimensions_ D).

Definition null_tile_extents (D : t) : res bool :=
  any_of (up (dim_num_ D)) (λ d, x ← tile_extent D d; Ok (bool_decide (x = []))).

(** ** n-dimensional ranges *)

Definition crop_ndrange (D : t) (r : NDRange) : res NDRange :=
  for_each (up (dim_num_ D)) (λ d r,
    dim ← idx (dimensions_ D) d; x ← idx r d; y ← crop_range dim x; upd r d y) r.

Definition expand_ndrange (D : t) (r1 r2 : NDRange) : res NDRange :=
  if bool_decide (r2 = []) then Ok r1
  else for_each (up (dim_num_ D)) (λ d r2,
    dim ← idx (dimensions_ D) d; x ← idx r1 d; y ← idx r2 d;
    z ← (if negb (var_size dim) then expand_range dim x y else expand_range_var dim x y);
    upd r2 d z) r2.

Definition expand_to_tiles (D : t) (r : NDRange) : res NDRange :=
  for_each (up (dim_num_ D)) (λ d r,
    dim ← idx (dimensions_ D) d;
    if negb (var_size dim) then x ← idx r d; y ← expand_to_tile dim x; upd r d y else Ok r) r.

Definition tile_num (D : t) (r : NDRange) : res Z :=
  for_each (up (dim_num_ D)) (λ d ret,
    dim ← idx (dimensions_ D) d; x ← idx r d; n ← Dimension.tile_num dim x; Ok (u64 (ret * n))) 1.

(** [utils::math::safe_mul<uint64_t>]. *)
Definition safe_mul (a b : Z) : res Z :=
  let prod := u64 (a * b) in
  if a =? 0 then UB else if negb (prod / a =? b) then Ok u64_max else Ok prod.

Fixpoint cell_num_loop (ds : list nat) (D : t) (r : NDRange) (cell_num : Z) : res Z :=
  match ds with
  | [] => Ok cell_num
  | d :: ds =>
      dim ← idx (dimensions_ D) d;
      x ← idx r d;
      range ← domain_range dim x;
      if range =? u64_max then Ok range
      else
        cell_num ← safe_mul range cell_num;
        if cell_num =? u64_max then Ok cell_num else cell_num_loop ds D r cell_num
  end.

Definition cell_num (D : t) (r : NDRange) : res Z :=
  massert (negb (bool_decide (r = [])));; cell_num_loop (up (dim_num_ D)) D r 1.

Definition covered (D : t) (r1 r2 : NDRange) : res bool :=
  massert (zlen r1 =? dim_num_ D);;
  massert (zlen r2 =? dim_num_ D);;
  all_of (up (dim_num_ D)) (λ d,
    dim ← idx (dimensions_ D) d; x ← idx r1 d; y ← idx r2 d; Dimension.covered dim x y).

Definition overlap (D : t) (r1 r2 : NDRange) : res bool :=
  massert (zlen r1 =? dim_num_ D);;
  massert (zlen r2 =? dim_num_ D);;
  all_of (up (dim_num_ D)) (λ d,
    dim ← idx (dimensions_ D) d; x ← idx r1 d; y ← idx r2 d; Dimension.overlap dim x y).

(** [std::nextafter(0, std::numeric_limits<double>::max())]. *)
Definition epsilon : Z := nextafter F64 0 (fmax F64).

Fixpoint overlap_ratio_loop (ds : list nat) (D : t) (r1 r2 : NDRange) (ratio : Z) : res Z :=
  match ds with
  | [] => Ok ratio
  | d :: ds =>
      dim ← idx (dimensions_ D) d;
      x ← idx r1 d;
      y ← idx r2 d;
      o ← Dimension.overlap dim x y;
      if negb o then Ok 0
      else
        q ← Dimension.overlap_ratio dim x y;
        let ratio := fmul F64 ratio q in
        overlap_ratio_loop ds D r1 r2 (if feq F64 ratio 0 then epsilon else ratio)
  end.

Definition overlap_ratio (D : t) (r1 r2 : NDRange) : res Z :=
  massert (dim_num_ D =? zlen r1);;
  massert (dim_num_ D =? zlen r2);;
  overlap_ratio_loop (up (dim_num_ D)) D r1 r2 (nlit (NFlt F64) 1).

(** The status of the first dimension that fails; the dimensions before it
    are already changed. *)
Fixpoint set_null_extents (ds : list Dimension.t) : res unit * list Dimension.t :=
  match ds with
  | [] => (Ok (), [])
  | d :: ds =>
      match set_null_tile_extent_to_range d with
      | (Ok _, d') => let '(r, ds') := set_null_extents ds in (r, d' :: ds')
      | (r, d') => (r, d' :: ds)
      end
  end.

Definition set_null_tile_extents_to_range : M t unit := fun D =>
  let '(r, ds) := set_null_extents (dimensions_ D) in (r, with_dimensions D ds (dim_num_ D)).

(** ** Initialization *)

(** The type [compute_cell_num_per_tile] is instantiated with. *)
Definition int_of (ty : Datatype) : option ctype :=
  match num_of ty with Some (NInt t) => Some t | _ => None end.

Definition compute_cell_num_per_tile_t (ty : ctype) (D : t) : res t :=
  null ← null_tile_extents D;
  if null : bool then Ok D
  else
    n ← for_each (up (dim_num_ D)) (λ d n,
          x ← tile_extent D d; e ← rd (NInt ty) x 0; Ok (u64 (n * conv U64 e))) 1;
    Ok (with_cell_num D n).

Definition compute_cell_num_per_tile (D : t) : res t :=
  same ← all_dims_same_type D;
  if negb same then Ok D
  else
    d0 ← idx (dimensions_ D) 0;
    match int_of (type_ d0) with
    | Some ty => compute_cell_num_per_tile_t ty D
    | None => Ok D
    end.

(** [dimensions_[d]->tile_num(dimensions_[d]->domain())]. *)
Definition dim_tile_num (D : t) (d : nat) : res Z :=
  dim ← idx (dimensions_ D) d; Dimension.tile_num dim (domain_ dim).

(** [v.push_back(v.back() * n)]. *)
Definition push_product (v : list Z) (n : Z) : list Z := v ++ [u64 (List.last v 0 * n)].

Definition compute_tile_offsets (D : t) : res t :=
  null ← null_tile_extents D;
  if null : bool then Ok D
  else
    let m := (Z.to_nat (dim_num_ D) - 1)%nat in
    col ← for_each (seq 1 m) (λ d v, n ← dim_tile_num D d; Ok (push_product v n))
            (tile_offsets_col_ D ++ [1]);
    row ← for_each (rev (seq 0 m)) (λ d v, n ← dim_tile_num D d; Ok (push_product v n))
            (tile_offsets_row_ D ++ [1]);
    Ok (with_offsets D col (rev row)).

(** The [switch] of [set_tile_cell_order_cmp_funcs]. *)
Definition cell_cmp_of (ty : Datatype) : option cmp_inst :=
  match ty with STRING_ASCII => Some CmpChar | _ => CmpNum <$> num_of ty end.

Definition set_tile_cell_order_cmp_funcs (D : t) : res t :=
  tys ← mapM (λ d, dim ← idx (dimensions_ D) d; Ok (type_ dim)) (up (dim_num_ D));
  Ok (mk (cell_num_per_tile_ D) (cell_order_ D) (dimensions_ D) (dim_num_ D) (tile_order_ D)
         (tile_offsets_col_ D) (tile_offsets_row_ D)
         (cell_cmp_of <$> tys) (num_of <$> tys) (num_of <$> tys)).

Definition init (cell_order tile_order : Layout) : M t unit := fun D =>
  let D0 := with_order D cell_order tile_order in
  match (D1 ← compute_cell_num_per_tile D0; D2 ← compute_tile_offsets D1;
         set_tile_cell_order_cmp_funcs D2) with
  | Ok D' => (Ok (), D')
  | _ => (UB, D0)
  end.

(** ** The order of coordinates

    Comparisons return -1, 0 or 1. *)

(** The buffers of a query for a dimension (misc/types.h), with the sizes the
    pointers designate. *)
Record QueryBuffer : Type := mkQueryBuffer {
  buffer_ : list Z;
  buffer_var_ : list Z;
  buffer_size_ : Z;
  buffer_var_size_ : Z
}.

(** [p[i]] of [const char* p]. *)
Definition chr (bs : list Z) (i : Z) : res Z :=
  x ← memread bs i 1; Ok (conv I8 (le_dec x)).

Fixpoint cmp_chars (bs : list Z) (a b : Z) (size : nat) : res Z :=
  match size with
  | O => Ok 0
  | S size =>
      x ← chr bs a;
      y ← chr bs b;
      if x <? y then Ok (-1) else if y <? x then Ok 1 else cmp_chars bs (a + 1) (b + 1) size
  end.

(** [cell_order_cmp<char>]. *)
Definition cell_order_cmp_char (dim : Dimension.t) (buff : QueryBuffer) (a b : Z) : res Z :=
  massert (var_size dim);;
  let offs := rd (NInt U64) (buffer_ buff) in
  off_a ← offs a;
  off_b ← offs b;
  let next x := if u64 (u64 (x + 1) * 8) =? buffer_size_ buff then Ok (buffer_var_size_ buff)
                else offs (u64 (x + 1)) in
  next_off_a ← next a;
  next_off_b ← next b;
  let size_a := u64 (next_off_a - off_a) in
  let size_b := u64 (next_off_b - off_b) in
  c ← cmp_chars (buffer_var_ buff) off_a off_b (Z.to_nat (Z.min size_a size_b));
  if negb (c =? 0) then Ok c
  else Ok (if size_a =? size_b then 0 else if size_a <? size_b then -1 else 1).

Definition cmp3 (T : num) (x y : Z) : Z := if nlt T x y then -1 else if nlt T y x then 1 else 0.

(** [cell_order_cmp<T>]. *)
Definition cell_order_cmp_t (T : num) (dim : Dimension.t) (buff : QueryBuffer) (a b : Z) : res Z :=
  massert (negb (var_size dim));;
  ca ← rd T (buffer_ buff) a;
  cb ← rd T (buffer_ buff) b;
  Ok (cmp3 T ca cb).

(** [cell_order_cmp_2<T>], on pointers to two coordinates. *)
Definition cell_order_cmp_2 (T : num) (coord_a coord_b : list Z) : res Z :=
  ca ← rd T coord_a 0; cb ← rd T coord_b 0; Ok (cmp3 T ca cb).

Definition call_cell_cmp (f : option cmp_inst) (dim : Dimension.t) (buff : QueryBuffer) (a b : Z) : res Z :=
  match f with
  | Some (CmpNum T) => cell_order_cmp_t T dim buff a b
  | Some CmpChar => cell_order_cmp_char dim buff a b
  | None => UB
  end.

(** [cell_order_cmp(dim_idx, a, b)] on the coordinates of two results: their
    strings on a variable-sized dimension, their values on another one. *)
Definition cell_order_cmp_results (D : t) (dim_idx : nat) (a b : list Z) : res Z :=
  dim ← idx (dimensions_ D) dim_idx;
  if var_size dim then Ok (if str_eq a b then 0 else if str_lt a b then -1 else 1)
  else
    f ← idx (cell_order_cmp_func_2_ D) dim_idx;
    match f with Some T => cell_order_cmp_2 T a b | None => UB end.

(** [*dimension(d)]: undefined on a null pointer. *)
Definition dim_at (D : t) (d : nat) : res Dimension.t :=
  dim ← dimension D d; match dim with Some x => Ok x | None => UB end.

(** The first comparison that decides, in the order of the indices. *)
Fixpoint first_cmp (ds : list nat) (cmp : nat → res Z) : res Z :=
  match ds with
  | [] => Ok 0
  | d :: ds => c ← cmp d; if (c =? 1) || (c =? -1) then Ok c else first_cmp ds cmp
  end.

(** The indices of the loops of the comparisons: the downward loop starts at
    [dim_num_ - 1] also when there are no dimensions. *)
Definition order_indices (D : t) (order : Layout) : res (list nat) :=
  match order with
  | ROW_MAJOR => Ok (up (dim_num_ D))
  | _ => if dim_num_ D =? 0 then UB else Ok (down (dim_num_ D))
  end.

(** [cell_order_cmp(coord_buffs, a, b)]. *)
Definition cell_order_cmp (D : t) (coord_buffs : list QueryBuffer) (a b : Z) : res Z :=
  ds ← order_indices D (cell_order_ D);
  first_cmp ds (λ d,
    dim ← dim_at D d;
    f ← idx (cell_order_cmp_func_ D) d;
    buff ← idx coord_buffs d;
    call_cell_cmp f dim buff a b).

(** [tile_order_cmp<T>(dim, coord_a, coord_b)]. *)
Definition tile_order_cmp_t (T : num) (dim : Dimension.t) (coord_a coord_b : list Z) : res Z :=
  if extent_empty dim then Ok 0
  else
    ext ← rd T (tile_extent_ dim) 0;
    ca ← rd T coord_a 0;
    cb ← rd T coord_b 0;
    lo ← rd T (range_ (domain_ dim)) 0;
    ta ← (x ← nsub T ca lo; q ← ndiv T x ext; n_to_u64 T q);
    tb ← (x ← nsub T cb lo; q ← ndiv T x ext; n_to_u64 T q);
    Ok (if ta <? tb then -1 else if tb <? ta then 1 else 0).

Definition call_tile_cmp (f : option num) (dim : Dimension.t) (coord_a coord_b : list Z) : res Z :=
  match f with Some T => tile_order_cmp_t T dim coord_a coord_b | None => UB end.

(** [tile_order_cmp(dim_idx, coord_a, coord_b)]. *)
Definition tile_order_cmp_dim (D : t) (dim_idx : nat) (coord_a coord_b : list Z) : res Z :=
  dim ← dim_at D dim_idx; f ← idx (tile_order_cmp_func_ D) dim_idx; call_tile_cmp f dim coord_a coord_b.

(** [tile_order_cmp(coord_buffs, a, b)]. *)
Definition tile_order_cmp (D : t) (coord_buffs : list QueryBuffer) (a b : Z) : res Z :=
  ds ← order_indices D (tile_order_ D);
  first_cmp ds (λ d,
    dim ← dim_at D d;
    if var_size dim || extent_empty dim then Ok 0
    else
      let size := coord_size dim in
      buff ← idx coord_buffs d;
      ca ← memread (buffer_ buff) (a * size) size;
      cb ← memread (buffer_ buff) (b * size) size;
      f ← idx (tile_order_cmp_func_ D) d;
      call_tile_cmp f dim ca cb).
