(* ===== verification/DomainCells.v ===== *)
(** * Cells and tiles of a dense domain (array_schema/domain.cc)

    The templates of [Domain] on integer coordinates: the position of a cell
    in its tile or in a subarray, the position of a tile, and the traversal
    of cells and tiles.  Arrays of coordinates are lists; a subarray lists the
    bounds of each dimension in turn. *)

From S2P Require Import Prelude.
From S2P Require Import Enums.
From S2P Require Import Num.
From S2P Require Import Range.
From S2P Require Import Loops.
From S2P Require Import Dimension.
From S2P Require Import Domain.
Local Open Scope Z_scope.

Section Templates.
Context (ty : ctype).

(** [*(const T* )tile_extent(d).data()] and [((const T* )domain(d).data())[0]]. *)
Definition extent_at (D : t) (d : nat) : res Z := x ← tile_extent D d; rd (NInt ty) x 0.
Definition dom0_at (D : t) (d : nat) : res Z := r ← domain D d; rd (NInt ty) (range_ r) 0.

(** Arithmetic on operands of the type. *)
Definition addT := cadd (promote ty).
Definition subT := csub (promote ty).
Definition mulT := cmul (promote ty).
Definition divT := cdiv (promote ty).
Definition remT := crem (promote ty).

(** ** Tiles *)

Definition get_tile_coords (D : t) (coords : list Z) : res (list Z) :=
  mapM (λ d,
    e ← extent_at D d;
    lo ← dom0_at D d;
    c ← idx coords d;
    x ← subT c lo; q ← divT x e; Ok (conv ty q)) (up (dim_num_ D)).

Definition get_tile_domain (D : t) (subarray : list Z) : res (list Z) :=
  rs ← mapM (λ d,
    lo ← dom0_at D d;
    e ← extent_at D d;
    s0 ← idx subarray (2 * d);
    s1 ← idx subarray (2 * d + 1);
    a ← (x ← subT s0 lo; divT x e);
    b ← (x ← subT s1 lo; divT x e);
    Ok [conv ty a; conv ty b]) (up (dim_num_ D));
  Ok (concat rs).

(** [tile_coords[d] * tile_extent + lo] and
    [(tile_coords[d] + 1) * tile_extent - 1 + lo]. *)
Definition tile_bounds (c e lo : Z) : res (list Z) :=
  a ← (x ← mulT c e; addT x lo);
  b ← (x ← addT c 1; y ← mulT x e; z ← subT y 1; addT z lo);
  Ok [conv ty a; conv ty b].

Definition get_tile_subarray (D : t) (tile_coords : list Z) : res (list Z) :=
  rs ← mapM (λ d,
    lo ← dom0_at D d;
    e ← extent_at D d;
    c ← idx tile_coords d;
    tile_bounds c e lo) (up (dim_num_ D));
  Ok (concat rs).

(** The overload with a domain of its own. *)
Definition get_tile_subarray_in (D : t) (domain tile_coords : list Z) : res (list Z) :=
  rs ← mapM (λ d,
    e ← extent_at D d;
    c ← idx tile_coords d;
    lo ← idx domain (2 * d);
    tile_bounds c e lo) (up (dim_num_ D));
  Ok (concat rs).

(** [stride<T>]. *)
Definition stride (D : t) (subarray_layout : Layout) : res Z :=
  if (dim_num_ D =? 1) || bool_decide (subarray_layout = GLOBAL_ORDER)
     || bool_decide (subarray_layout = cell_order_ D) then Ok u64_max
  else
    let n := Z.to_nat (dim_num_ D) in
    let mul d ret := e ← extent_at D d; Ok (u64 (ret * conv U64 e)) in
    match cell_order_ D with
    | ROW_MAJOR => for_each (seq 1 (n - 1)) mul 1
    | _ => if dim_num_ D =? 0 then UB else for_each (seq 0 (n - 1)) mul 1
    end.

(** ** The position of a cell in its tile *)

(** [coords[d] - dim_dom[0]], reduced to the tile. *)
Definition coords_norm (D : t) (coords : list Z) (d : nat) (e : Z) : res Z :=
  lo ← dom0_at D d;
  c ← idx coords d;
  x ← subT c lo;
  let n := conv ty x in
  q ← divT n e;
  y ← mulT q e;
  z ← subT n y;
  Ok (conv ty z).

(** [pos += x]. *)
Definition add_pos (pos x : Z) : Z := u64 (pos + conv U64 x).

(** The general case of [get_cell_pos_col]. *)
Definition cell_pos_col_loop (D : t) (coords : list Z) : res Z :=
  '(pos, _) ← for_each (up (dim_num_ D)) (λ d '(pos, cell_offset),
    e ← extent_at D d;
    n ← coords_norm D coords d e;
    Ok (add_pos pos (conv U64 n * cell_offset), u64 (cell_offset * conv U64 e))) (0, 1);
  Ok pos.

Definition get_cell_pos_col (D : t) (coords : list Z) : res Z :=
  let norm := coords_norm D coords in
  match dim_num_ D with
  | 1 =>
      e0 ← extent_at D 0; n ← norm 0%nat e0; x ← mulT n 1;
      Ok (add_pos 0 x)
  | 2 =>
      e0 ← extent_at D 0; n ← norm 0%nat e0; x ← mulT n 1;
      let pos := add_pos 0 x in
      e1 ← extent_at D 1; n ← norm 1%nat e1; x ← mulT n 1; x ← mulT x e0;
      Ok (add_pos pos x)
  | 3 =>
      e0 ← extent_at D 0; n ← norm 0%nat e0; x ← mulT n 1;
      let pos := add_pos 0 x in
      e1 ← extent_at D 1; n ← norm 1%nat e1; x ← mulT n 1; x ← mulT x e0;
      let pos := add_pos pos x in
      e2 ← extent_at D 2; n ← norm 2%nat e2; x ← mulT n 1; x ← mulT x e0; x ← mulT x e1;
      Ok (add_pos pos x)
  | _ => cell_pos_col_loop D coords
  end.

(** [cell_offset /= x] on [uint64_t]. *)
Definition udiv (a b : Z) : res Z := if b =? 0 then UB else Ok (a / b).

(** The general case of [get_cell_pos_row]. *)
Definition cell_pos_row_loop (D : t) (coords : list Z) : res Z :=
  let m := (Z.to_nat (dim_num_ D) - 1)%nat in
  cell_offset ← for_each (seq 1 m) (λ d off, e ← extent_at D d; Ok (u64 (off * conv U64 e))) 1;
  '(pos, _) ← for_each (up (dim_num_ D)) (λ d '(pos, cell_offset),
    e ← extent_at D d;
    n ← coords_norm D coords d e;
    let pos := add_pos pos (conv U64 n * cell_offset) in
    if (d <? m)%nat then
      e' ← extent_at D (d + 1); off ← udiv cell_offset (conv U64 e'); Ok (pos, off)
    else Ok (pos, cell_offset)) (0, cell_offset);
  Ok pos.

Definition get_cell_pos_row (D : t) (coords : list Z) : res Z :=
  let norm := coords_norm D coords in
  match dim_num_ D with
  | 1 =>
      e0 ← extent_at D 0; n ← norm 0%nat e0;
      Ok (add_pos 0 n)
  | 2 =>
      e0 ← extent_at D 0; e1 ← extent_at D 1;
      n ← norm 0%nat e0; x ← mulT n e1;
      let pos := add_pos 0 x in
      n ← norm 1%nat e1; x ← mulT n 1;
      Ok (add_pos pos x)
  | 3 =>
      e0 ← extent_at D 0; e1 ← extent_at D 1; e2 ← extent_at D 2;
      n ← norm 0%nat e0; x ← mulT n e1; x ← mulT x e2;
      let pos := add_pos 0 x in
      n ← norm 1%nat e1; x ← mulT n e2;
      let pos := add_pos pos x in
      n ← norm 2%nat e2; x ← mulT n 1;
      Ok (add_pos pos x)
  | _ => cell_pos_row_loop D coords
  end.

Definition get_cell_pos (D : t) (coords : list Z) : res Z :=
  match cell_order_ D with
  | ROW_MAJOR => get_cell_pos_row D coords
  | COL_MAJOR => get_cell_pos_col D coords
  | _ => Err SC_Domain "Cannot get cell position; Invalid cell order"
  end.

(** ** The position of a cell in a subarray *)

(** [coords[d] - subarray[2 * d]], and
    [uint64_t cell_num_d = subarray[2 * d + 1] - subarray[2 * d] + 1]. *)
Definition sub_norm (subarray coords : list Z) (d : nat) : res Z :=
  c ← idx coords d; s0 ← idx subarray (2 * d); subT c s0.
Definition sub_num (subarray : list Z) (d : nat) : res Z :=
  s1 ← idx subarray (2 * d + 1); s0 ← idx subarray (2 * d);
  x ← subT s1 s0; y ← addT x 1; Ok (conv U64 y).

(** The general cases. *)
Definition cell_pos_col_in_loop (D : t) (subarray coords : list Z) : res Z :=
  '(pos, _) ← for_each (up (dim_num_ D)) (λ d '(pos, cell_offset),
    n ← sub_norm subarray coords d;
    c ← sub_num subarray d;
    Ok (add_pos pos (conv U64 n * cell_offset), u64 (cell_offset * c))) (0, 1);
  Ok pos.

Definition cell_pos_row_in_loop (D : t) (subarray coords : list Z) : res Z :=
  let m := (Z.to_nat (dim_num_ D) - 1)%nat in
  if dim_num_ D =? 0 then UB
  else
    cell_offset ← for_each (seq 0 m) (λ d off, c ← sub_num subarray (d + 1); Ok (u64 (off * c))) 1;
    '(pos, _) ← for_each (up (dim_num_ D)) (λ d '(pos, cell_offset),
      n ← sub_norm subarray coords d;
      let pos := add_pos pos (conv U64 n * cell_offset) in
      if (d <? m)%nat then
        c ← sub_num subarray (d + 1); off ← udiv cell_offset c; Ok (pos, off)
      else Ok (pos, cell_offset)) (0, cell_offset);
    Ok pos.

Definition get_cell_pos_col_in (D : t) (subarray coords : list Z) : res Z :=
  let norm := sub_norm subarray coords in
  match dim_num_ D with
  | 1 => n ← norm 0%nat; x ← mulT n 1; Ok (add_pos 0 x)
  | 2 =>
      c0 ← sub_num subarray 0;
      n ← norm 0%nat; x ← mulT n 1;
      let pos := add_pos 0 x in
      n ← norm 1%nat; x ← mulT n 1;
      Ok (add_pos pos (conv U64 x * c0))
  | 3 =>
      c0 ← sub_num subarray 0; c1 ← sub_num subarray 1;
      n ← norm 0%nat; x ← mulT n 1;
      let pos := add_pos 0 x in
      n ← norm 1%nat; x ← mulT n 1;
      let pos := add_pos pos (conv U64 x * c0) in
      n ← norm 2%nat; x ← mulT n 1;
      Ok (add_pos pos (conv U64 x * c0 * c1))
  | _ => cell_pos_col_in_loop D subarray coords
  end.

Definition get_cell_pos_row_in (D : t) (subarray coords : list Z) : res Z :=
  let norm := sub_norm subarray coords in
  match dim_num_ D with
  | 1 => n ← norm 0%nat; x ← mulT n 1; Ok (add_pos 0 x)
  | 2 =>
      c1 ← sub_num subarray 1;
      n ← norm 0%nat;
      let pos := add_pos 0 (conv U64 n * c1) in
      n ← norm 1%nat; x ← mulT n 1;
      Ok (add_pos pos x)
  | 3 =>
      c1 ← sub_num subarray 1; c2 ← sub_num subarray 2;
      n ← norm 0%nat;
      let pos := add_pos 0 (conv U64 n * c1 * c2) in
      n ← norm 1%nat;
      let pos := add_pos pos (conv U64 n * c2) in
      n ← norm 2%nat; x ← mulT n 1;
      Ok (add_pos pos x)
  | _ => cell_pos_row_in_loop D subarray coords
  end.

(** ** The position of a tile *)

(** [pos += tile_coords[d] * offsets[d]] over the dimensions. *)
Definition dot (D : t) (tile_coords offsets : list Z) : res Z :=
  for_each (up (dim_num_ D)) (λ d pos,
    c ← idx tile_coords d; o ← idx offsets d; Ok (add_pos pos (conv U64 c * o))) 0.

Definition get_tile_pos_col (D : t) (tile_coords : list Z) : res Z :=
  dot D tile_coords (tile_offsets_col_ D).
Definition get_tile_pos_row (D : t) (tile_coords : list Z) : res Z :=
  dot D tile_coords (tile_offsets_row_ D).

(** The number of tiles of [domain] along dimension [d]. *)
Definition tile_num_in (D : t) (domain : list Z) (d : nat) : res Z :=
  e ← extent_at D d;
  d1 ← idx domain (2 * d + 1);
  d0 ← idx domain (2 * d);
  x ← subT d1 d0; y ← addT x 1; q ← divT y e; Ok (conv U64 q).

Definition get_tile_pos_col_in (D : t) (domain tile_coords : list Z) : res Z :=
  offsets ← for_each (seq 1 (Z.to_nat (dim_num_ D) - 1)) (λ d v,
    n ← tile_num_in D domain (d - 1); Ok (push_product v n)) [1];
  dot D tile_coords offsets.

Definition get_tile_pos_row_in (D : t) (domain tile_coords : list Z) : res Z :=
  offsets ← for_each (rev (seq 0 (Z.to_nat (dim_num_ D) - 1))) (λ d v,
    n ← tile_num_in D domain (d + 1); Ok (push_product v n)) [1];
  dot D tile_coords (rev offsets).

Definition get_tile_pos (D : t) (tile_coords : list Z) : res Z :=
  match tile_order_ D with
  | ROW_MAJOR => get_tile_pos_row D tile_coords
  | _ => get_tile_pos_col D tile_coords
  end.
Definition get_tile_pos_in (D : t) (domain tile_coords : list Z) : res Z :=
  match tile_order_ D with
  | ROW_MAJOR => get_tile_pos_row_in D domain tile_coords
  | _ => get_tile_pos_col_in D domain tile_coords
  end.

(** ** Traversal *)

(** [++coords[i]]. *)
Definition incr (coords : list Z) (i : nat) : res (list Z) :=
  c ← idx coords i; x ← addT c 1; upd coords i (conv ty x).

(** [coords[i] > domain[2 * i + 1]]. *)
Definition past (domain coords : list Z) (i : nat) : res bool :=
  c ← idx coords i; hi ← idx domain (2 * i + 1); Ok (hi <? c).

(** [while (i < dim_num_ - 1 && coords[i] > domain[2 * i + 1])]: at most
    [dim_num_] rounds. *)
Fixpoint carry_col (fuel : nat) (n : nat) (domain coords : list Z) (i : nat) : res (list Z * nat) :=
  match fuel with
  | O => UB
  | S fuel =>
      if (i <? n - 1)%nat then
        p ← past domain coords i;
        if p : bool then
          lo ← idx domain (2 * i);
          coords ← upd coords i lo;
          coords ← incr coords (i + 1);
          carry_col fuel n domain coords (i + 1)
        else Ok (coords, i)
      else Ok (coords, i)
  end.

(** [while (i > 0 && coords[i] > domain[2 * i + 1])]. *)
Fixpoint carry_row (domain coords : list Z) (i : nat) : res (list Z * nat) :=
  match i with
  | O => Ok (coords, O)
  | S j =>
      p ← past domain coords i;
      if p : bool then
        lo ← idx domain (2 * i);
        coords ← upd coords i lo;
        coords ← incr coords j;
        carry_row domain coords j
      else Ok (coords, i)
  end.

(** The coordinates and whether they are in the domain. *)
Definition get_next_cell_coords_col (D : t) (domain coords : list Z) : res (list Z * bool) :=
  let n := Z.to_nat (dim_num_ D) in
  coords ← incr coords 0;
  '(coords, i) ← carry_col (S n) n domain coords 0;
  if (i =? n - 1)%nat then p ← past domain coords i; Ok (coords, negb p) else Ok (coords, true).

Definition get_next_cell_coords_row (D : t) (domain coords : list Z) : res (list Z * bool) :=
  if dim_num_ D =? 0 then UB
  else
    let last := (Z.to_nat (dim_num_ D) - 1)%nat in
    coords ← incr coords last;
    '(coords, i) ← carry_row domain coords last;
    if (i =? 0)%nat then p ← past domain coords i; Ok (coords, negb p) else Ok (coords, true).

(** The traversal of tiles, without and with the flag. *)
Definition get_next_tile_coords_col (D : t) (domain coords : list Z) : res (list Z) :=
  let n := Z.to_nat (dim_num_ D) in
  coords ← incr coords 0; '(coords, _) ← carry_col (S n) n domain coords 0; Ok coords.

Definition get_next_tile_coords_row (D : t) (domain coords : list Z) : res (list Z) :=
  if dim_num_ D =? 0 then UB
  else
    let last := (Z.to_nat (dim_num_ D) - 1)%nat in
    coords ← incr coords last; '(coords, _) ← carry_row domain coords last; Ok coords.

Definition get_next_tile_coords (D : t) (domain coords : list Z) : res (list Z) :=
  match tile_order_ D with
  | ROW_MAJOR => get_next_tile_coords_row D domain coords
  | COL_MAJOR => get_next_tile_coords_col D domain coords
  | _ => UB
  end.

Definition get_next_tile_coords_col_in (D : t) (domain coords : list Z) : res (list Z * bool) :=
  let n := Z.to_nat (dim_num_ D) in
  coords ← incr coords 0;
  '(coords, i) ← carry_col (S n) n domain coords 0;
  if (i =? n - 1)%nat then p ← past domain coords i; Ok (coords, negb p) else Ok (coords, true).

Definition get_next_tile_coords_row_in (D : t) (domain coords : list Z) : res (list Z * bool) :=
  if dim_num_ D =? 0 then UB
  else
    let last := (Z.to_nat (dim_num_ D) - 1)%nat in
    coords ← incr coords last;
    '(coords, i) ← carry_row domain coords last;
    if (i =? 0)%nat then p ← past domain coords i; Ok (coords, negb p) else Ok (coords, true).

Definition get_next_tile_coords_in (D : t) (domain coords : list Z) : res (list Z * bool) :=
  match tile_order_ D with
  | ROW_MAJOR => get_next_tile_coords_row_in D domain coords
  | COL_MAJOR => get_next_tile_coords_col_in D domain coords
  | _ => UB
  end.

(** [end[i] += tile_extent - ((start[i] - dim_dom[0]) % tile_extent) - 1],
    then the minimum with the end of the subarray. *)
Definition slab_end_at (D : t) (subarray start : list Z) (i : nat) : res (list Z) :=
  lo ← dom0_at D i;
  e ← extent_at D i;
  c ← idx start i;
  x ← subT c lo;
  r ← remT x e;
  y ← subT e r;
  z ← subT y 1;
  w ← addT c z;
  hi ← idx subarray (2 * i + 1);
  upd start i (Z.min (conv ty w) hi).

Definition get_end_of_cell_slab (D : t) (subarray start : list Z) (layout : Layout) : res (list Z) :=
  if bool_decide (layout = GLOBAL_ORDER) || bool_decide (layout = cell_order_ D) then
    match cell_order_ D with
    | ROW_MAJOR => if dim_num_ D =? 0 then UB else slab_end_at D subarray start (Z.to_nat (dim_num_ D) - 1)
    | _ => slab_end_at D subarray start 0
    end
  else Ok (take (Z.to_nat (dim_num_ D)) start).

End Templates.
