(* ===== verification/DomainProofs.v ===== *)
(** * Positions of cells and tiles: correctness

    The position the code computes for a cell is its position in the grid of
    its tile, or of its subarray, on every path: the unrolled cases for up to
    three dimensions and the general loops. *)

From S2P Require Import Prelude.
From S2P Require Import Enums.
From S2P Require Import Num.
From S2P Require Import Range.
From S2P Require Import Loops.
From S2P Require Import Dimension.
From S2P Require Import DimensionProofs.
From S2P Require Import Domain.
From S2P Require Import DomainCells.
Local Open Scope Z_scope.

(** ** The loops *)

Lemma match_dim_num {A} (n : Z) (a b c d : A) : 4 ≤ n →
  match n with 1 => a | 2 => b | 3 => c | _ => d end = d.
Proof. intros H. destruct n as [|[[p|p|]|[p|p|]|]|p]; done || lia. Qed.

Lemma add_pos_u64 a x : add_pos (u64 a) x = u64 (a + x).
Proof. unfold add_pos. change (conv U64 x) with (u64 x). unfold u64. by rewrite <- Z.add_mod. Qed.

Lemma u64_mul_l a b : u64 (u64 a * b) = u64 (a * b).
Proof. unfold u64. apply Z.mul_mod_idemp_l. lia. Qed.

(** The least significant dimension first. *)
Lemma col_loop (ds : list digit) (body : nat → Z * Z → res (Z * Z)) n a b :
  n = zlen ds →
  (∀ k x r pos off, ds !! k = Some (x, r) →
     body k (pos, off) = Ok (add_pos pos (x * off), u64 (off * r))) →
  for_each (up n) body (u64 a, u64 b) = Ok (u64 (a + b * position ds), u64 (b * vol ds)).
Proof.
  intros Hn Hb.
  rewrite (for_each_up ds body (λ '(x, r) '(pos, off), Ok (add_pos pos (x * off), u64 (off * r)))).
  2: done.
  2: { intros k [x r] [pos off] Hk. by apply Hb. }
  clear Hn Hb. revert a b. induction ds as [|[x r] ds IH]; intros a b; simpl.
  - by rewrite Z.mul_0_r, Z.add_0_r, Z.mul_1_r.
  - unfold mbind. simpl. rewrite u64_mul_l.
    replace (add_pos (u64 a) (x * u64 b)) with (u64 (a + x * b)).
    + rewrite IH. f_equal. f_equal; f_equal; lia.
    + rewrite add_pos_u64. unfold u64. rewrite <- (Z.add_mod_idemp_r a (x * b)), <- (Z.add_mod_idemp_r a (x * (b mod 2 ^ 64))) by lia.
      by rewrite Z.mul_mod_idemp_r by lia.
Qed.

Lemma prod_loop (ds : list digit) (body : nat → Z → res Z) i0 b :
  (∀ k x r off, ds !! k = Some (x, r) → body (i0 + k)%nat off = Ok (u64 (off * r))) →
  for_each (seq i0 (length ds)) body (u64 b) = Ok (u64 (b * vol ds)).
Proof.
  intros Hb. rewrite (for_each_seq ds body (λ '(x, r) off, Ok (u64 (off * r)))).
  2: { intros k [x r] off Hk. by apply Hb with x. }
  clear Hb. revert b. induction ds as [|[x r] ds IH]; intros b; simpl; [by rewrite Z.mul_1_r|].
  unfold mbind. simpl. rewrite u64_mul_l, IH. do 2 f_equal. lia.
Qed.

(** The most significant dimension first: each step divides the offset by
    the radix of the next dimension. *)
Fixpoint with_next (ds : list digit) : list (digit * option Z) :=
  match ds with [] => [] | d :: ds' => (d, snd <$> head ds') :: with_next ds' end.

Lemma length_with_next ds : length (with_next ds) = length ds.
Proof. induction ds; simpl; auto. Qed.

Lemma with_next_lookup ds k d nxt : with_next ds !! k = Some (d, nxt) →
  ds !! k = Some d ∧ nxt = snd <$> ds !! S k.
Proof.
  revert k. induction ds as [|d' ds IH]; intros [|k]; simpl; [done|done| |apply IH].
  intros [= -> <-]. by destruct ds.
Qed.

Lemma row_loop (ds : list digit) (body : nat → Z * Z → res (Z * Z)) n a :
  n = zlen ds → in_grid ds → vol ds < 2 ^ 64 →
  (∀ k x r pos off, ds !! k = Some (x, r) →
     body k (pos, off) =
       match ds !! S k with
       | Some (_, r') => o ← udiv off r'; Ok (add_pos pos (x * off), o)
       | None => Ok (add_pos pos (x * off), off)
       end) →
  ∃ o, for_each (up n) body (u64 a, vol (tail ds)) = Ok (u64 (a + position (rev ds)), o).
Proof.
  intros Hn Hg Hv Hb.
  rewrite (for_each_up (with_next ds) body (λ '((x, r), nxt) '(pos, off),
    match nxt with
    | Some r' => o ← udiv off r'; Ok (add_pos pos (x * off), o)
    | None => Ok (add_pos pos (x * off), off)
    end)).
  2: { unfold zlen in *. by rewrite length_with_next. }
  2: { intros k [[x r] nxt] [pos off] Hk. apply with_next_lookup in Hk as [Hk ->].
       rewrite (Hb _ _ _ _ _ Hk). by destruct (ds !! S k) as [[? ?]|]. }
  clear Hn Hb. revert a. induction Hg as [|[x r] ds Hx Hg IH]; intros a; [eexists; simpl; by rewrite Z.add_0_r|].
  simpl in Hv, Hx. pose proof (vol_pos ds Hg).
  change (rev ((x, r) :: ds)) with (rev ds ++ [(x, r)]). rewrite position_app, vol_rev.
  destruct ds as [|[y q] ds].
  - exists 1. simpl. rewrite add_pos_u64. do 3 f_equal. lia.
  - assert (0 < q) as Hq by (inversion Hg; subst; simpl in *; lia).
    assert (q * vol ds / q = vol ds) as Hd by (rewrite Z.mul_comm; apply Z.div_mul; lia).
    simpl in Hv. destruct (IH ltac:(simpl; nia) (a + x * (q * vol ds))) as [o Ho]. exists o.
    cbn [with_next for_each head fmap option_fmap option_map snd tail vol] in Ho |- *.
    assert (udiv (q * vol ds) q = Ok (vol ds)) as ->.
    { unfold udiv. by rewrite (proj2 (Z.eqb_neq q 0)), Hd by lia. }
    rewrite add_pos_u64. cbn [mbind res_bind] in Ho |- *.
    rewrite Ho. do 3 f_equal. cbn [position]. lia.
Qed.

(** ** Dense grids *)

(** A dimension of a dense array: its domain and its tile extent. *)
Record axis : Type := Axis { a_lo : Z; a_hi : Z; a_ext : Z }.

Definition inside (g : axis) (c : Z) : Prop := a_lo g ≤ c ≤ a_hi g.

Lemma in_nonneg t x y : in_ctype t y → 0 ≤ x ≤ y → in_ctype t x.
Proof. intros H1 H2. apply (in_between t 0 x y); [destruct t; by unfold_ctype|done|done]. Qed.

Section Grid.
Context (ty : ctype).

(** The extent divides the domain in tiles, and the difference of two
    coordinates is a value of the type. *)
Definition axis_ok (dim : Dimension.t) (g : axis) : Prop :=
  tiled ty dim (a_lo g) (a_hi g) (a_ext g) ∧ in_ctype ty (a_hi g - a_lo g).

Record dense (D : t) (gs : list axis) : Prop := {
  dense_num : dim_num_ D = zlen gs;
  dense_dims : Forall2 axis_ok (dimensions_ D) gs;
  dense_some : gs ≠ []
}.

Lemma mulT_ok a b : in_ctype (promote ty) (a * b) → mulT ty a b = Ok (a * b).
Proof. apply arith_ok. Qed.
Lemma addT_ok a b : in_ctype (promote ty) (a + b) → addT ty a b = Ok (a + b).
Proof. apply arith_ok. Qed.
Lemma subT_ok a b : in_ctype (promote ty) (a - b) → subT ty a b = Ok (a - b).
Proof. apply arith_ok. Qed.
Lemma divT_ok a b : 0 ≤ a → 0 < b → in_ctype (promote ty) a → divT ty a b = Ok (a / b).
Proof. apply ndiv_int. Qed.

Lemma dense_at D gs d g : dense D gs → gs !! d = Some g →
  ∃ dim, dimensions_ D !! d = Some dim ∧ axis_ok dim g ∧ in_dims D d = true.
Proof.
  intros [Hn Hd _] Hg. destruct (Forall2_lookup_r _ _ _ _ _ Hd Hg) as (dim & Hdim & Hok).
  exists dim. split_and!; [done|done|]. apply lookup_lt_Some in Hg. unfold in_dims, zlen in *.
  apply Z.ltb_lt. lia.
Qed.

Lemma extent_at_ok D gs d g : dense D gs → gs !! d = Some g → extent_at ty D d = Ok (a_ext g).
Proof.
  intros HD Hg. destruct (dense_at D gs d g HD Hg) as (dim & Hdim & [Ht _] & Hi).
  unfold extent_at, tile_extent. rewrite Hi. unfold mbind. simpl. rewrite (idx_ok _ _ _ Hdim). simpl.
  by apply (rd_extent ty dim (a_lo g) (a_hi g)).
Qed.

Lemma dom0_at_ok D gs d g : dense D gs → gs !! d = Some g → dom0_at ty D d = Ok (a_lo g).
Proof.
  intros HD Hg. destruct (dense_at D gs d g HD Hg) as (dim & Hdim & [Ht _] & Hi).
  unfold dom0_at, domain. rewrite Hi. unfold mbind. simpl. rewrite (idx_ok _ _ _ Hdim). simpl.
  destruct (tiled_domain _ _ _ _ _ Ht) as (E & H1 & _).
  by apply (rd_at (NInt ty) _ [] _ (nenc (NInt ty) (a_hi g))).
Qed.

(** The offset of a coordinate in its tile. *)
Definition tile_off (g : axis) (c : Z) : Z := (c - a_lo g) mod a_ext g.

Lemma tile_off_bound dim g c : axis_ok dim g → 0 ≤ tile_off g c < a_ext g.
Proof. intros [Ht _]. apply Z.mod_pos_bound. by destruct Ht. Qed.

Lemma coords_norm_ok D gs cs d g c : dense D gs → gs !! d = Some g → cs !! d = Some c →
  inside g c → coords_norm ty D cs d (a_ext g) = Ok (tile_off g c).
Proof.
  intros HD Hg Hc Hin. destruct (dense_at D gs d g HD Hg) as (dim & _ & [Ht Hty] & _).
  unfold coords_norm. rewrite (dom0_at_ok D gs d g HD Hg), (idx_ok _ _ _ Hc). unfold mbind. simpl.
  unfold inside in Hin. pose proof (tiled_pos _ _ _ _ _ Ht) as He. set (n := c - a_lo g).
  assert (in_ctype ty n) as Hn by (apply (in_nonneg ty n _ Hty); lia).
  pose proof (in_promote ty n Hn) as Hp.
  pose proof (Z.mod_pos_bound n (a_ext g) He). pose proof (Z.div_mod n (a_ext g) ltac:(lia)).
  assert (0 ≤ n / a_ext g) by (apply Z.div_pos; lia).
  assert (n - n / a_ext g * a_ext g = tile_off g c) as Eo by (unfold tile_off; fold n; lia).
  rewrite subT_ok by done. simpl. fold n. rewrite conv_id by done.
  rewrite divT_ok by (done || lia). simpl.
  rewrite mulT_ok by (apply (in_nonneg _ _ n Hp); nia). simpl.
  rewrite subT_ok; rewrite Eo; unfold tile_off; fold n.
  - simpl. rewrite conv_id; [done|]. apply (in_nonneg _ _ n Hn); nia.
  - apply (in_nonneg _ _ n Hp); nia.
Qed.

(** The grid of the cells of a tile. *)
Definition cell_digits (gs : list axis) (cs : list Z) : list digit :=
  zip_with (λ g c, (tile_off g c, a_ext g)) gs cs.

Definition coords_in (gs : list axis) (cs : list Z) : Prop := Forall2 inside gs cs.

Lemma cell_digits_grid D gs cs : dense D gs → in_grid (cell_digits gs cs).
Proof.
  intros [_ Hd _]. revert cs. induction Hd as [|dim g dims gs Hok _ IH]; intros [|c cs];
    [constructor..|]. constructor; [|apply IH]. by apply (tile_off_bound dim).
Qed.

Lemma cell_digits_lookup gs cs k x r : cell_digits gs cs !! k = Some (x, r) →
  ∃ g c, gs !! k = Some g ∧ cs !! k = Some c ∧ x = tile_off g c ∧ r = a_ext g.
Proof.
  intros H. apply lookup_zip_with_Some in H as (g & c & [= -> ->] & Hg & Hc). by exists g, c.
Qed.

Lemma length_cell_digits gs cs : coords_in gs cs → zlen (cell_digits gs cs) = zlen gs.
Proof.
  intros H%Forall2_length. unfold zlen, cell_digits. rewrite length_zip_with. lia.
Qed.

(** Runs one step of an unrolled case. *)
Ltac run_step HD :=
  first
  [ erewrite (extent_at_ok _ _ _ _ HD) by reflexivity
  | erewrite (coords_norm_ok _ _ _ _ _ _ HD) by (reflexivity || eassumption)
  | rewrite mulT_ok ]; cbn [mbind res_bind].

Lemma u64_sum0 x : add_pos 0 x = u64 x.
Proof. apply (add_pos_u64 0). Qed.

(** The volume of a grid of at most three dimensions bounds its partial
    products. *)
Lemma grid_products x y z a b c v : 0 ≤ x < a → 0 ≤ y < b → 0 ≤ z < c → v = a * (b * c) →
  (0 ≤ x ≤ v ∧ 0 ≤ y ≤ v ∧ 0 ≤ z ≤ v) ∧
  (0 ≤ y * a ≤ v ∧ 0 ≤ z * a ≤ v ∧ 0 ≤ z * a * b ≤ v) ∧
  (0 ≤ x * b ≤ v ∧ 0 ≤ x * b * c ≤ v ∧ 0 ≤ y * c ≤ v).
Proof.
  intros Hx Hy Hz ->. assert (∀ p q r, 0 ≤ p < q → 0 < r → 0 ≤ p * r < q * r) as M by nia.
  assert (0 < a * b ∧ 0 < b * c ∧ 0 < a * c) as (Hab & Hbc & Hac) by nia.
  pose proof (M x a (b * c) Hx Hbc). pose proof (M y b (a * c) Hy Hac). pose proof (M z c (a * b) Hz Hab).
  pose proof (M x a b Hx ltac:(lia)). pose proof (M y b a Hy ltac:(lia)).
  pose proof (M y b c Hy ltac:(lia)). pose proof (M z c a Hz ltac:(lia)).
  assert (a ≤ a * b ∧ b ≤ b * c ∧ c ≤ a * c ∧ b * c ≤ a * (b * c) ∧ a * b ≤ c * (a * b) ∧ a * c ≤ b * (a * c)) by nia. lia.
Qed.

Lemma vol_tail ds : in_grid ds → 0 ≤ vol (tail ds) ≤ vol ds.
Proof.
  intros [|[x r] l Hx Hl]; simpl; [lia|]. pose proof (vol_pos l Hl). simpl in Hx. nia.
Qed.

Lemma extent_u64 D gs k g : dense D gs → gs !! k = Some g → conv U64 (a_ext g) = a_ext g.
Proof.
  intros HD Hg. destruct (dense_at D gs k g HD Hg) as (dim & _ & [Ht _] & _).
  destruct (tiled_extent _ _ _ _ _ Ht) as [_ He]. pose proof (tiled_pos _ _ _ _ _ Ht).
  apply (conv_u64_nonneg ty); [lia|by apply in_promote].
Qed.

Lemma tile_off_u64 D gs k g c : dense D gs → gs !! k = Some g → conv U64 (tile_off g c) = tile_off g c.
Proof.
  intros HD Hg. destruct (dense_at D gs k g HD Hg) as (dim & _ & Hok & _).
  pose proof (tile_off_bound dim g c Hok). destruct Hok as [Ht _].
  destruct (tiled_extent _ _ _ _ _ Ht) as [_ He].
  apply (conv_u64_nonneg ty); [lia|]. apply in_promote, (in_nonneg ty _ _ He). lia.
Qed.

Ltac grid_case :=
  cbn [cell_digits zip_with vol position] in *; unfold in_grid in *;
  repeat match goal with H : Forall _ (_ :: _) |- _ => rewrite !Forall_cons in H; cbn [fst snd] in H end.

Lemma vol_in_type ds : in_grid ds → vol ds ≤ tmax (promote ty) →
  in_ctype (promote ty) (vol ds) ∧ vol ds < 2 ^ 64.
Proof.
  intros Hg Hv. pose proof (vol_pos _ Hg). split; [split; [|done]|];
    destruct ty; unfold_ctype; simpl in *; lia.
Qed.

Lemma cell_pos_col_loop_spec D gs cs : dense D gs → coords_in gs cs →
  vol (cell_digits gs cs) < 2 ^ 64 → cell_pos_col_loop ty D cs = Ok (position (cell_digits gs cs)).
Proof.
  intros HD Hc Hv. pose proof (cell_digits_grid D gs cs HD) as Hg.
  pose proof (position_bound _ Hg) as Hp. pose proof (length_cell_digits gs cs Hc) as Hl.
  unfold cell_pos_col_loop. rewrite (dense_num D gs HD).
  erewrite (col_loop (cell_digits gs cs) _ _ 0 1).
  - cbn [mbind res_bind]. rewrite u64_id by lia. f_equal. lia.
  - by rewrite Hl.
  - intros k x r pos off (g & c & Hgk & Hck & -> & ->)%cell_digits_lookup.
    rewrite (extent_at_ok _ _ _ _ HD Hgk). cbn [mbind res_bind].
    rewrite (coords_norm_ok _ _ _ _ _ _ HD Hgk Hck) by (by apply (Forall2_lookup_lr inside _ _ k g c Hc)).
    cbn [mbind res_bind]. by rewrite (tile_off_u64 D _ k g c HD Hgk), (extent_u64 D _ k g HD Hgk).
Qed.

Lemma cell_pos_row_loop_spec D gs cs : dense D gs → coords_in gs cs →
  vol (cell_digits gs cs) < 2 ^ 64 →
  cell_pos_row_loop ty D cs = Ok (position (rev (cell_digits gs cs))).
Proof.
  intros HD Hc Hv. pose proof (cell_digits_grid D gs cs HD) as Hg.
  pose proof (position_bound _ (in_grid_rev _ Hg)) as Hp. rewrite vol_rev in Hp.
  pose proof (length_cell_digits gs cs Hc) as Hl.
  unfold cell_pos_row_loop. rewrite (dense_num D gs HD). cbv zeta.
  set (ds := cell_digits gs cs) in *. assert (length (tail ds) = Z.to_nat (zlen gs) - 1)%nat as Ht.
  { rewrite <- Hl. unfold zlen. rewrite Nat2Z.id. clearbody ds. by destruct ds as [|? ?]; simpl; lia. }
  rewrite <- Ht at 1. rewrite (prod_loop (tail ds) _ 1 1).
  2: { intros k x r off Hk. rewrite lookup_tail in Hk.
       apply cell_digits_lookup in Hk as (g & c & Hgk & Hck & -> & ->).
       cbn [Nat.add]. rewrite (extent_at_ok _ _ _ _ HD Hgk). cbn [mbind res_bind].
       by rewrite (extent_u64 D _ _ g HD Hgk). }
  cbn [mbind res_bind]. rewrite Z.mul_1_l, u64_id by (pose proof (vol_tail ds Hg); lia).
  match goal with |- context [for_each (up _) ?f _] =>
    destruct (row_loop ds f _ 0 (eq_sym Hl) Hg Hv) as [o Ho] end.
  2: { change (u64 0) with 0 in Ho. rewrite Ho. cbn [mbind res_bind]. by rewrite u64_id, Z.add_0_l by lia. }
  intros k x r pos off Hk. pose proof Hk as (g & c & Hgk & Hck & -> & ->)%cell_digits_lookup.
  rewrite (extent_at_ok _ _ _ _ HD Hgk). cbn [mbind res_bind].
  rewrite (coords_norm_ok _ _ _ _ _ _ HD Hgk Hck) by (by apply (Forall2_lookup_lr inside _ _ k g c Hc)).
  cbn [mbind res_bind]. rewrite (tile_off_u64 D _ k g c HD Hgk), <- Ht.
  destruct (ds !! S k) as [[y q]|] eqn:Hk1; rewrite <- lookup_tail in Hk1.
  - pose proof (lookup_lt_Some _ _ _ Hk1). rewrite (proj2 (Nat.ltb_lt _ _)) by done.
    rewrite lookup_tail in Hk1. apply cell_digits_lookup in Hk1 as (g' & c' & Hgk' & _ & _ & ->).
    rewrite Nat.add_1_r, (extent_at_ok _ _ _ _ HD Hgk'). cbn [mbind res_bind].
    by rewrite (extent_u64 D _ _ _ HD Hgk').
  - apply lookup_ge_None in Hk1. by rewrite (proj2 (Nat.ltb_ge _ _)) by done.
Qed.

Lemma cell_pos_col_spec D gs cs : dense D gs → coords_in gs cs →
  vol (cell_digits gs cs) ≤ tmax (promote ty) →
  get_cell_pos_col ty D cs = Ok (position (cell_digits gs cs)).
Proof.
  intros HD Hc Hv. pose proof Hc as Hcs. pose proof (cell_digits_grid D gs cs HD) as Hg.
  pose proof (position_bound _ Hg) as Hp. pose proof (length_cell_digits gs cs Hc) as Hl.
  destruct (vol_in_type _ Hg Hv) as [Hvt Hv64].
  unfold get_cell_pos_col. rewrite (dense_num D gs HD).
  destruct Hc as [|g0 c0 gs cs H0 Hc]; [by destruct HD|].
  destruct Hc as [|g1 c1 gs cs H1 Hc]; [|destruct Hc as [|g2 c2 gs cs H2 Hc]; [|destruct Hc as [|g3 c3 gs cs H3 Hc]]].
  - grid_case. change (zlen [g0]) with 1; cbv iota. destruct Hg as (G0 & _). repeat run_step HD;
      [|apply (in_nonneg _ _ _ Hvt); lia].
    rewrite u64_sum0, u64_id by lia. f_equal. lia.
  - grid_case. change (zlen [g0; g1]) with 2; cbv iota. destruct Hg as (G0 & G1 & _).
    pose proof (grid_products _ _ _ _ _ _ (a_ext g0 * (a_ext g1 * 1)) G0 G1 (conj (Z.le_refl 0) Z.lt_0_1) eq_refl).
    repeat run_step HD; try (apply (in_nonneg _ _ _ Hvt); lia).
    rewrite u64_sum0, add_pos_u64.  rewrite u64_id by lia. f_equal. lia.
  - grid_case. change (zlen [g0; g1; g2]) with 3; cbv iota. destruct Hg as (G0 & G1 & G2 & _).
    pose proof (grid_products _ _ _ _ _ _ _ G0 G1 G2 eq_refl).
    repeat run_step HD; try (apply (in_nonneg _ _ _ Hvt); lia).
    rewrite u64_sum0, !add_pos_u64, u64_id by lia. f_equal. lia.
  - unfold zlen at 1. rewrite match_dim_num by (simpl; lia). by apply cell_pos_col_loop_spec.
Qed.

Lemma cell_pos_row_spec D gs cs : dense D gs → coords_in gs cs →
  vol (cell_digits gs cs) ≤ tmax (promote ty) →
  get_cell_pos_row ty D cs = Ok (position (rev (cell_digits gs cs))).
Proof.
  intros HD Hc Hv. pose proof Hc as Hcs. pose proof (cell_digits_grid D gs cs HD) as Hg.
  pose proof (position_bound _ (in_grid_rev _ Hg)) as Hp. rewrite vol_rev in Hp.
  pose proof (length_cell_digits gs cs Hc) as Hl.
  destruct (vol_in_type _ Hg Hv) as [Hvt Hv64].
  unfold get_cell_pos_row. rewrite (dense_num D gs HD).
  destruct Hc as [|g0 c0 gs cs H0 Hc]; [by destruct HD|].
  destruct Hc as [|g1 c1 gs cs H1 Hc]; [|destruct Hc as [|g2 c2 gs cs H2 Hc]; [|destruct Hc as [|g3 c3 gs cs H3 Hc]]].
  - grid_case. change (zlen [g0]) with 1; cbv iota. repeat run_step HD. cbn [rev app position] in Hp |- *.
    rewrite u64_sum0, u64_id by lia. f_equal. lia.
  - grid_case. change (zlen [g0; g1]) with 2; cbv iota. destruct Hg as (G0 & G1 & _).
    pose proof (grid_products _ _ _ _ _ _ (a_ext g0 * (a_ext g1 * 1)) G0 G1 (conj (Z.le_refl 0) Z.lt_0_1) eq_refl).
    cbn [rev app position] in Hp |- *.
    repeat run_step HD; try (apply (in_nonneg _ _ _ Hvt); lia).
    rewrite u64_sum0, add_pos_u64, u64_id by lia. f_equal. lia.
  - grid_case. change (zlen [g0; g1; g2]) with 3; cbv iota. destruct Hg as (G0 & G1 & G2 & _).
    pose proof (grid_products _ _ _ _ _ _ _ G0 G1 G2 eq_refl). cbn [rev app position] in Hp |- *.
    repeat run_step HD; try (apply (in_nonneg _ _ _ Hvt); lia).
    rewrite u64_sum0, !add_pos_u64, u64_id by lia. f_equal. lia.
  - unfold zlen at 1. rewrite match_dim_num by (simpl; lia). by apply cell_pos_row_loop_spec.
Qed.

(** ** The cells of a tile *)

Definition ext_vol (gs : list axis) : Z := vol ((λ g, (0, a_ext g)) <$> gs).

(** Tile [ks] lies in the domain, and [cs] lies in tile [ks]. *)
Definition full_tile (gs : list axis) (ks : list Z) : Prop :=
  Forall2 (λ g k, 0 ≤ k ∧ tile_hi (a_lo g) (a_ext g) k ≤ a_hi g) gs ks.
Definition in_tile (gs : list axis) (ks cs : list Z) : Prop :=
  Forall3 (λ g k c, tile_lo (a_lo g) (a_ext g) k ≤ c ≤ tile_hi (a_lo g) (a_ext g) k) gs ks cs.

Definition exts_pos (gs : list axis) : Prop := Forall (λ g, 0 < a_ext g) gs.

Lemma dense_exts D gs : dense D gs → exts_pos gs.
Proof.
  intros [_ Hd _]. induction Hd as [|dim g dims gs [Ht _] _ IH]; constructor; [|done].
  by destruct Ht.
Qed.

Lemma cell_digits_radices gs cs : length gs = length cs → (cell_digits gs cs).*2 = a_ext <$> gs.
Proof.
  revert cs. induction gs as [|g gs IH]; intros [|c cs] E; try done. injection E as E.
  change (cell_digits (g :: gs) (c :: cs)) with ((tile_off g c, a_ext g) :: cell_digits gs cs).
  by rewrite !fmap_cons, IH.
Qed.

Lemma vol_radices ds es : ds.*2 = es.*2 → vol ds = vol es.
Proof.
  revert es. induction ds as [|[x r] ds IH]; intros [|[y q] es] E; try done.
  injection E as -> E. simpl. by rewrite (IH es E).
Qed.

Lemma cell_digits_vol gs cs : length gs = length cs → vol (cell_digits gs cs) = ext_vol gs.
Proof.
  intros E. apply vol_radices. rewrite cell_digits_radices by done.
  rewrite <- list_fmap_compose. done.
Qed.

Lemma tile_off_in g k c : 0 < a_ext g → tile_lo (a_lo g) (a_ext g) k ≤ c ≤ tile_hi (a_lo g) (a_ext g) k →
  c = tile_lo (a_lo g) (a_ext g) k + tile_off g c.
Proof.
  unfold tile_lo, tile_hi, tile_off. intros He Hc.
  assert ((c - a_lo g) / a_ext g = k) as <-.
  { symmetry. apply (Z.div_unique_pos _ _ _ (c - a_lo g - a_ext g * k)); lia. }
  pose proof (Z.div_mod (c - a_lo g) (a_ext g) ltac:(lia)). lia.
Qed.

(** Cells of a tile with the same digits are the same. *)
Lemma in_tile_inj gs ks cs cs' : exts_pos gs → in_tile gs ks cs → in_tile gs ks cs' →
  cell_digits gs cs = cell_digits gs cs' → cs = cs'.
Proof.
  intros Hp H. revert cs'. induction H as [|g k c gs ks cs Hc _ IH]; intros cs' H' E;
    inversion H' as [|? ? c' ? ? cs'' Hc' H'']; subst; [done|].
  inversion_clear Hp as [|? ? He Hp']. injection E as Eo E. f_equal; [|by apply IH].
  rewrite (tile_off_in g k c He Hc), (tile_off_in g k c' He Hc'). lia.
Qed.

(** Every combination of digits is a cell of the tile. *)
Lemma in_tile_surj gs ks ds : exts_pos gs → length gs = length ks → in_grid ds → ds.*2 = a_ext <$> gs →
  ∃ cs, in_tile gs ks cs ∧ cell_digits gs cs = ds.
Proof.
  intros Hp. revert ks ds. induction Hp as [|g gs He _ IH]; intros [|k ks] [|[x r] ds] Hl Hg E; try done.
  - exists []. by repeat constructor.
  - injection E as -> E. injection Hl as Hl. inversion_clear Hg as [|? ? Hx Hg']. simpl in Hx.
    destruct (IH ks ds Hl Hg' E) as (cs & Hin & Ed).
    exists (tile_lo (a_lo g) (a_ext g) k + x :: cs). split.
    + constructor; [unfold tile_lo, tile_hi; lia|done].
    + change (cell_digits (g :: gs) (tile_lo (a_lo g) (a_ext g) k + x :: cs)) with
        ((tile_off g (tile_lo (a_lo g) (a_ext g) k + x), a_ext g) :: cell_digits gs cs).
      rewrite Ed. do 2 f_equal. unfold tile_off, tile_lo.
      replace (a_lo g + k * a_ext g + x - a_lo g) with (x + k * a_ext g) by lia.
      rewrite Z.mod_add by lia. apply Z.mod_small. lia.
Qed.

Lemma in_tile_coords gs ks cs : exts_pos gs → full_tile gs ks → in_tile gs ks cs → coords_in gs cs.
Proof.
  intros Hp Hf H. induction H as [|g k c gs ks cs Hc _ IH]; [constructor|].
  inversion_clear Hf as [|? ? ? ? [Hk Hh] Hf']. inversion_clear Hp as [|? ? He Hp'].
  constructor; [|by apply IH]. unfold inside, tile_lo in *. nia.
Qed.

(** The position in the order of the cells of the domain. *)
Definition cell_position (order : Layout) (gs : list axis) (cs : list Z) : Z :=
  match order with
  | ROW_MAJOR => position (rev (cell_digits gs cs))
  | _ => position (cell_digits gs cs)
  end.

Definition cell_order_ok (D : t) : Prop := cell_order_ D = ROW_MAJOR ∨ cell_order_ D = COL_MAJOR.

Lemma cell_pos_spec D gs cs : dense D gs → cell_order_ok D → coords_in gs cs →
  ext_vol gs ≤ tmax (promote ty) →
  get_cell_pos ty D cs = Ok (cell_position (cell_order_ D) gs cs) ∧
  0 ≤ cell_position (cell_order_ D) gs cs < ext_vol gs.
Proof.
  intros HD Ho Hc Hv. pose proof (Forall2_length _ _ _ Hc) as El.
  rewrite <- (cell_digits_vol gs cs El) in Hv |- *. pose proof (cell_digits_grid D gs cs HD) as Hg.
  unfold get_cell_pos, cell_position. destruct Ho as [-> | ->].
  - split; [by apply cell_pos_row_spec|]. rewrite <- vol_rev. by apply position_bound, in_grid_rev.
  - split; [by apply cell_pos_col_spec|]. by apply position_bound.
Qed.

Lemma cell_position_inj order D gs cs cs' : dense D gs → length gs = length cs → length gs = length cs' →
  cell_position order gs cs = cell_position order gs cs' → cell_digits gs cs = cell_digits gs cs'.
Proof.
  intros HD E E' Ep. assert ((cell_digits gs cs).*2 = (cell_digits gs cs').*2) as Er
    by (by rewrite !cell_digits_radices).
  pose proof (cell_digits_grid D gs cs HD). pose proof (cell_digits_grid D gs cs' HD).
  destruct order; simpl in Ep; first [by apply position_inj|by apply position_rev_inj].
Qed.

Lemma cell_position_surj order D gs ks p : dense D gs → length gs = length ks → 0 ≤ p < ext_vol gs →
  ∃ cs, in_tile gs ks cs ∧ cell_position order gs cs = p.
Proof.
  intros HD El Hp. pose proof (dense_exts D gs HD) as He.
  assert (Forall (λ r, 0 < r) (a_ext <$> gs)) as Hr by (by apply Forall_fmap).
  assert (ext_vol gs = vol (pair 0 <$> (a_ext <$> gs))) as Ev by (by rewrite <- list_fmap_compose).
  rewrite Ev in Hp.
  assert (∃ ds, ds.*2 = a_ext <$> gs ∧ in_grid ds ∧
    match order with ROW_MAJOR => position (rev ds) | _ => position ds end = p) as (ds & E & Hg & Ep)
    by (destruct order; first [by apply position_surj|by apply position_rev_surj]).
  destruct (in_tile_surj gs ks ds He El Hg E) as (cs & Hin & Ed).
  exists cs. split; [done|]. unfold cell_position. by rewrite Ed.
Qed.

Lemma null_extents_dense D gs : dense D gs → null_tile_extents D = Ok false.
Proof.
  intros HD. unfold null_tile_extents. rewrite (dense_num D gs HD), up_zlen.
  assert (∀ i n, (i + n ≤ length gs)%nat →
    any_of (seq i n) (λ d, x ← tile_extent D d; Ok (bool_decide (x = []))) = Ok false) as H.
  2: { by apply H. }
  intros i n. revert i. induction n as [|n IH]; intros i Hi; [done|]. simpl.
  destruct (lookup_lt_is_Some_2 gs i ltac:(lia)) as [g Hg].
  destruct (dense_at D gs i g HD Hg) as (dim & Hdim & [Ht _] & Hd).
  unfold tile_extent. rewrite Hd, (idx_ok _ _ _ Hdim). unfold mbind. simpl.
  pose proof (extent_nonempty _ _ _ _ _ Ht) as Hx. unfold extent_empty in Hx. rewrite Hx. apply IH. lia.
Qed.

Lemma cell_num_dense D gs : dense D gs → ext_vol gs < 2 ^ 64 →
  compute_cell_num_per_tile_t ty D = Ok (with_cell_num D (ext_vol gs)).
Proof.
  intros HD Hv. unfold compute_cell_num_per_tile_t. rewrite (null_extents_dense D gs HD). unfold mbind at 1.
  cbn [res_bind]. rewrite (dense_num D gs HD), up_zlen.
  rewrite <- (length_fmap (λ g, (0, a_ext g)) gs). rewrite (prod_loop _ _ 0 1).
  - cbn [mbind res_bind]. rewrite Z.mul_1_l. fold (ext_vol gs). rewrite u64_id; [done|].
    assert (in_grid ((λ g, (0, a_ext g)) <$> gs)) as Hg.
    { apply Forall_fmap, (Forall_impl _ _ _ (dense_exts D gs HD)). intros g H. simpl. lia. }
    pose proof (vol_pos _ Hg). fold (ext_vol gs) in *. lia.
  - intros k x r off Hk. apply list_lookup_fmap_Some in Hk as (g & [= -> ->] & Hg).
    pose proof (extent_at_ok D gs k g HD Hg) as He. unfold extent_at in He.
    rewrite Nat.add_0_l. destruct (tile_extent D k) as [x| |]; try discriminate He.
    unfold mbind in *. simpl in *. rewrite He. simpl. by rewrite (extent_u64 D gs k g HD Hg).
Qed.

(** C24. The positions of the cells of a tile.  For a dense domain, in either
    cell order and for any number of dimensions, [get_cell_pos] maps the cells
    of a tile one-to-one onto the positions [0, ..., n - 1], where [n] is the
    number of cells per tile that the initialization computes. *)
Theorem cell_pos_bijective D gs ks : dense D gs → cell_order_ok D →
  ext_vol gs ≤ tmax (promote ty) → full_tile gs ks →
  compute_cell_num_per_tile_t ty D = Ok (with_cell_num D (ext_vol gs)) ∧
  (∀ cs, in_tile gs ks cs → ∃ p, get_cell_pos ty D cs = Ok p ∧ 0 ≤ p < ext_vol gs) ∧
  (∀ p, 0 ≤ p < ext_vol gs → exists! cs, in_tile gs ks cs ∧ get_cell_pos ty D cs = Ok p).
Proof.
  intros HD Ho Hv Hf. pose proof (dense_exts D gs HD) as He.
  assert (∀ cs, in_tile gs ks cs → coords_in gs cs) as Hin by (intros; by eapply in_tile_coords).
  split_and!.
  - apply cell_num_dense; [done|]. destruct ty; unfold_ctype; simpl in *; lia.
  - intros cs Hc. eexists. apply cell_pos_spec; by try apply Hin.
  - intros p Hp. destruct (cell_position_surj (cell_order_ D) D gs ks p HD (Forall2_length _ _ _ Hf) Hp)
      as (cs & Hc & Ep).
    exists cs. split; [split; [done|]; rewrite <- Ep; apply cell_pos_spec; by try apply Hin|].
    intros cs' [Hc' E']. rewrite (proj1 (cell_pos_spec D gs cs' HD Ho (Hin _ Hc') Hv)) in E'.
    injection E' as E'. apply (in_tile_inj gs ks); try done.
    apply (cell_position_inj (cell_order_ D) D); [done| |..|by rewrite E'];
      by eapply Forall2_length, Hin.
Qed.

End Grid.

(** ** Concrete domains *)

(** A domain of [int32_t] dimensions with the given domains and extents. *)
Definition int_domain (ty : ctype) (dt : Datatype) (cell tile : Layout) (gs : list axis) : t :=
  snd (init cell tile
    (with_dimensions empty ((λ g, int_dim ty dt (a_lo g) (a_hi g) (a_ext g)) <$> gs) (zlen gs))).

Definition grid_23 : list axis := [Axis 0 5 2; Axis (-3) 8 3].

Lemma grid_23_dense cell tile : dense I32 (int_domain I32 INT32 cell tile grid_23) grid_23.
Proof.
  split; [done| |done]. repeat constructor; apply int_dim_tiled || idtac; by vm_compute.
Qed.

Lemma cell_pos_bijective_witness :
  ∃ p, get_cell_pos I32 (int_domain I32 INT32 ROW_MAJOR ROW_MAJOR grid_23) [3; 1] = Ok p ∧ 0 ≤ p < 6.
Proof.
  destruct (cell_pos_bijective I32 (int_domain I32 INT32 ROW_MAJOR ROW_MAJOR grid_23) grid_23 [1; 1])
    as (_ & H & _).
  - apply grid_23_dense.
  - by left.
  - by vm_compute.
  - repeat constructor; by vm_compute.
  - apply H. repeat constructor; by vm_compute.
Defined.

(** The unrolled cases of [get_cell_pos] multiply in the type of the
    coordinates, the general case in [uint64_t]: with [uint32_t] coordinates
    and tiles of [2^17] by [2^17] cells, the cells [[0, 0]] and [[2^15, 0]] of
    the first tile are both given position 0. *)
Theorem cell_pos_unrolled_wraps :
  let D := int_domain U32 UINT32 ROW_MAJOR ROW_MAJOR [Axis 0 1048575 131072; Axis 0 1048575 131072] in
  get_cell_pos U32 D [0; 0] = Ok 0 ∧ get_cell_pos U32 D [32768; 0] = Ok 0 ∧
  cell_pos_row_loop U32 D [32768; 0] = Ok 4294967296.
Proof. by vm_compute. Qed.

(** On a narrow signed type the normalized coordinate is truncated to the
    type: in the [int8_t] domain [[-100, 100]] with extent 50, the first cell
    of the last-but-one tile gets a position far outside of the tile. *)
Theorem cell_pos_narrow_wraps :
  let D := int_domain I8 INT8 ROW_MAJOR ROW_MAJOR [Axis (-100) 100 50] in
  get_cell_pos I8 D [50] = Ok (2 ^ 64 - 6).
Proof. by vm_compute. Qed.
