(* ===== verification/DomainTraversal.v ===== *)
(** * Subarrays: positions and traversal

    The position of a cell in a subarray, and the functions that advance to
    the next cell or tile: they visit the cells in the order of their
    positions. *)

From S2P Require Import Prelude.
From S2P Require Import Enums.
From S2P Require Import Num.
From S2P Require Import Loops.
From S2P Require Import Range.
From S2P Require Import Dimension.
From S2P Require Import DimensionProofs.
From S2P Require Import Domain.
From S2P Require Import DomainCells.
From S2P Require Import DomainProofs.
Local Open Scope Z_scope.

(** The bounds of each dimension, and the array that lists them in turn. *)
Abbreviation bounds := (list (Z * Z)).
Definition flat (bs : bounds) : list Z := concat ((λ b, [b.1; b.2]) <$> bs).

Definition in_sub (bs : bounds) (cs : list Z) : Prop := Forall2 (λ b c, b.1 ≤ c ≤ b.2) bs cs.

Definition sub_digits (bs : bounds) (cs : list Z) : list digit :=
  zip_with (λ b c, (c - b.1, b.2 - b.1 + 1)) bs cs.

(** The number of cells. *)
Definition sub_vol (bs : bounds) : Z := vol ((λ b, (0, b.2 - b.1 + 1)) <$> bs).

Lemma flat_cons b bs : flat (b :: bs) = b.1 :: b.2 :: flat bs.
Proof. done. Qed.

Lemma flat_lookup bs k b : bs !! k = Some b →
  idx (flat bs) (2 * k) = Ok b.1 ∧ idx (flat bs) (2 * k + 1) = Ok b.2.
Proof.
  unfold idx. revert k. induction bs as [|b' bs IH]; intros [|k]; [done|done| |]; rewrite flat_cons.
  - intros [= ->]. done.
  - intros Hk. replace (2 * S k)%nat with (S (S (2 * k))) by lia.
    rewrite Nat.add_succ_l, Nat.add_succ_l. apply (IH k Hk).
Qed.

Lemma sub_digits_grid bs cs : in_sub bs cs → in_grid (sub_digits bs cs).
Proof. induction 1 as [|b c bs cs H _ IH]; [constructor|]. constructor; [simpl; lia|apply IH]. Qed.

Lemma sub_digits_vol bs cs : length bs = length cs → vol (sub_digits bs cs) = sub_vol bs.
Proof.
  revert cs. induction bs as [|b bs IH]; intros [|c cs] E; try done. injection E as E.
  change (sub_digits (b :: bs) (c :: cs)) with ((c - b.1, b.2 - b.1 + 1) :: sub_digits bs cs).
  unfold sub_vol. rewrite fmap_cons. cbn [vol]. by rewrite (IH cs E).
Qed.

Lemma length_sub_digits bs cs : length bs = length cs → zlen (sub_digits bs cs) = zlen bs.
Proof. intros E. unfold zlen, sub_digits. rewrite length_zip_with. lia. Qed.

Lemma sub_digits_lookup bs cs k x r : sub_digits bs cs !! k = Some (x, r) →
  ∃ b c, bs !! k = Some b ∧ cs !! k = Some c ∧ x = c - b.1 ∧ r = b.2 - b.1 + 1.
Proof.
  intros H. apply lookup_zip_with_Some in H as (b & c & [= -> ->] & Hb & Hc). by exists b, c.
Qed.

Section Subarray.
Context (ty : ctype).

(** The bounds are values of the type, and so is the number of cells along
    the dimension, in the type it is computed in. *)
Definition bound_ok (b : Z * Z) : Prop :=
  in_ctype ty b.1 ∧ in_ctype ty b.2 ∧ b.1 ≤ b.2 ∧ in_ctype (promote ty) (b.2 - b.1 + 1).

Lemma sub_norm_ok bs cs k b c : Forall bound_ok bs → in_sub bs cs →
  bs !! k = Some b → cs !! k = Some c → sub_norm ty (flat bs) cs k = Ok (c - b.1) ∧
  in_ctype (promote ty) (c - b.1) ∧ conv U64 (c - b.1) = c - b.1.
Proof.
  intros Hb Hs Hbk Hck. pose proof (Forall2_lookup_lr _ _ _ _ _ _ Hs Hbk Hck) as Hc. simpl in Hc.
  pose proof (Forall_lookup_1 _ _ _ _ Hb Hbk) as (H1 & H2 & H3 & H4).
  assert (in_ctype (promote ty) (c - b.1)) as Hi by (apply (in_nonneg _ _ _ H4); lia).
  unfold sub_norm. rewrite (idx_ok _ _ _ Hck), (proj1 (flat_lookup bs k b Hbk)).
  cbn [mbind res_bind]. split_and!; [by apply subT_ok|done|]. apply (conv_u64_nonneg ty); [lia|done].
Qed.

Lemma sub_num_ok bs k b : Forall bound_ok bs → bs !! k = Some b →
  sub_num ty (flat bs) k = Ok (b.2 - b.1 + 1).
Proof.
  intros Hb Hbk. pose proof (Forall_lookup_1 _ _ _ _ Hb Hbk) as (H1 & H2 & H3 & H4).
  destruct (flat_lookup bs k b Hbk) as [E1 E2]. unfold sub_num. rewrite E2, E1. cbn [mbind res_bind].
  rewrite subT_ok by (apply (in_nonneg _ _ _ H4); lia). cbn [mbind res_bind].
  rewrite addT_ok by done. cbn [mbind res_bind]. by rewrite (conv_u64_nonneg ty) by (done || lia).
Qed.

Lemma sub_col_loop_spec D bs cs : dim_num_ D = zlen bs → Forall bound_ok bs → in_sub bs cs →
  sub_vol bs < 2 ^ 64 → cell_pos_col_in_loop ty D (flat bs) cs = Ok (position (sub_digits bs cs)).
Proof.
  intros HD Hb Hs Hv. pose proof (Forall2_length _ _ _ Hs) as El.
  rewrite <- (sub_digits_vol bs cs El) in Hv.
  pose proof (position_bound _ (sub_digits_grid bs cs Hs)).
  unfold cell_pos_col_in_loop. rewrite HD. erewrite (col_loop (sub_digits bs cs) _ _ 0 1).
  - cbn [mbind res_bind]. rewrite u64_id by lia. f_equal. lia.
  - by rewrite length_sub_digits.
  - intros k x r pos off (b & c & Hbk & Hck & -> & ->)%sub_digits_lookup.
    destruct (sub_norm_ok bs cs k b c Hb Hs Hbk Hck) as (-> & _ & Hc).
    rewrite (sub_num_ok bs k b Hb Hbk). cbn [mbind res_bind]. by rewrite Hc.
Qed.

Lemma sub_row_loop_spec D bs cs : dim_num_ D = zlen bs → bs ≠ [] → Forall bound_ok bs → in_sub bs cs →
  sub_vol bs < 2 ^ 64 → cell_pos_row_in_loop ty D (flat bs) cs = Ok (position (rev (sub_digits bs cs))).
Proof.
  intros HD Hne Hb Hs Hv. pose proof (Forall2_length _ _ _ Hs) as El.
  rewrite <- (sub_digits_vol bs cs El) in Hv. pose proof (sub_digits_grid bs cs Hs) as Hg.
  pose proof (length_sub_digits bs cs El) as Hl.
  pose proof (position_bound _ (in_grid_rev _ Hg)) as Hp. rewrite vol_rev in Hp.
  unfold cell_pos_row_in_loop. rewrite HD, (proj2 (Z.eqb_neq _ 0)) by (pose proof (zlen_pos bs Hne); lia).
  cbv zeta. set (ds := sub_digits bs cs) in *. assert (length (tail ds) = Z.to_nat (zlen bs) - 1)%nat as Ht.
  { rewrite <- Hl. unfold zlen. rewrite Nat2Z.id. clearbody ds. by destruct ds as [|? ?]; simpl; lia. }
  rewrite <- Ht at 1. rewrite (prod_loop (tail ds) _ 0 1).
  2: { intros k x r off Hk. rewrite lookup_tail in Hk.
       apply sub_digits_lookup in Hk as (b & c & Hbk & Hck & -> & ->).
       rewrite Nat.add_0_l, Nat.add_1_r, (sub_num_ok bs _ b Hb Hbk). done. }
  cbn [mbind res_bind]. rewrite Z.mul_1_l, u64_id by (pose proof (vol_tail ds Hg); lia).
  match goal with |- context [for_each (up _) ?f _] =>
    destruct (row_loop ds f _ 0 (eq_sym Hl) Hg Hv) as [o Ho] end.
  2: { change (u64 0) with 0 in Ho. rewrite Ho. cbn [mbind res_bind]. by rewrite u64_id, Z.add_0_l by lia. }
  intros k x r pos off Hk. pose proof Hk as (b & c & Hbk & Hck & -> & ->)%sub_digits_lookup.
  destruct (sub_norm_ok bs cs k b c Hb Hs Hbk Hck) as (-> & _ & Hc). cbn [mbind res_bind]. rewrite Hc, <- Ht.
  destruct (ds !! S k) as [[y q]|] eqn:Hk1; rewrite <- lookup_tail in Hk1.
  - pose proof (lookup_lt_Some _ _ _ Hk1). rewrite (proj2 (Nat.ltb_lt _ _)) by done.
    rewrite lookup_tail in Hk1. apply sub_digits_lookup in Hk1 as (b' & c' & Hbk' & _ & _ & ->).
    by rewrite Nat.add_1_r, (sub_num_ok bs _ b' Hb Hbk').
  - apply lookup_ge_None in Hk1. by rewrite (proj2 (Nat.ltb_ge _ _)) by done.
Qed.

(** Runs one step of an unrolled case. *)
Ltac sub_step Hb Hs :=
  first
  [ erewrite (sub_num_ok _ _ _ Hb) by reflexivity
  | match goal with |- context [sub_norm _ (flat ?bs) ?cs ?k] =>
      let E := fresh "E" in let I := fresh "I" in let C := fresh "C" in
      edestruct (sub_norm_ok bs cs k _ _ Hb Hs eq_refl eq_refl) as (E & I & C); rewrite E; clear E
    end
  | rewrite mulT_ok by (by rewrite Z.mul_1_r); rewrite ?Z.mul_1_r
  | match goal with H : conv U64 ?x = ?x |- context [conv U64 ?x] => rewrite H end ];
  cbn [mbind res_bind].

Ltac sub_case Hb Hs :=
  cbv iota; repeat sub_step Hb Hs;
  rewrite u64_sum0, ?add_pos_u64, u64_id;
  cbn [sub_digits zip_with rev app position] in *; [f_equal; lia|lia].

Lemma sub_pos_col_spec D bs cs : dim_num_ D = zlen bs → bs ≠ [] → Forall bound_ok bs → in_sub bs cs →
  sub_vol bs < 2 ^ 64 → get_cell_pos_col_in ty D (flat bs) cs = Ok (position (sub_digits bs cs)).
Proof.
  intros HD Hne Hb Hs Hv. pose proof (sub_digits_vol bs cs (Forall2_length _ _ _ Hs)) as Ev.
  pose proof (position_bound _ (sub_digits_grid bs cs Hs)) as Hp. rewrite Ev in Hp.
  unfold get_cell_pos_col_in. rewrite HD. pose proof Hs as Hcs.
  destruct Hcs as [|b0 c0 bs cs H0 Hc]; [done|].
  destruct Hc as [|b1 c1 bs cs H1 Hc]; [|destruct Hc as [|b2 c2 bs cs H2 Hc]; [|destruct Hc as [|b3 c3 bs cs H3 Hc]]].
  - change (zlen [b0]) with 1. sub_case Hb Hs.
  - change (zlen [b0; b1]) with 2. sub_case Hb Hs.
  - change (zlen [b0; b1; b2]) with 3. sub_case Hb Hs.
  - unfold zlen at 1. rewrite match_dim_num by (simpl; lia). by apply sub_col_loop_spec.
Qed.

Lemma sub_pos_row_spec D bs cs : dim_num_ D = zlen bs → bs ≠ [] → Forall bound_ok bs → in_sub bs cs →
  sub_vol bs < 2 ^ 64 → get_cell_pos_row_in ty D (flat bs) cs = Ok (position (rev (sub_digits bs cs))).
Proof.
  intros HD Hne Hb Hs Hv. pose proof (sub_digits_vol bs cs (Forall2_length _ _ _ Hs)) as Ev.
  pose proof (position_bound _ (in_grid_rev _ (sub_digits_grid bs cs Hs))) as Hp. rewrite vol_rev, Ev in Hp.
  unfold get_cell_pos_row_in. rewrite HD. pose proof Hs as Hcs.
  destruct Hcs as [|b0 c0 bs cs H0 Hc]; [done|].
  destruct Hc as [|b1 c1 bs cs H1 Hc]; [|destruct Hc as [|b2 c2 bs cs H2 Hc]; [|destruct Hc as [|b3 c3 bs cs H3 Hc]]].
  - change (zlen [b0]) with 1. sub_case Hb Hs.
  - change (zlen [b0; b1]) with 2. sub_case Hb Hs.
  - change (zlen [b0; b1; b2]) with 3. sub_case Hb Hs.
  - unfold zlen at 1. rewrite match_dim_num by (simpl; lia). by apply sub_row_loop_spec.
Qed.

(** ** Advancing *)

(** The upper bounds leave room for the increment. *)
Definition can_advance (bs : bounds) : Prop := Forall (λ b, b.2 < tmax ty) bs.

Lemma advance_in b c : bound_ok b → b.2 < tmax ty → b.1 ≤ c ≤ b.2 → in_ctype ty (c + 1).
Proof. intros (H1 & _) H2 H3. unfold in_ctype in *. lia. Qed.

Lemma incr_mid l c k i : length l = i → in_ctype ty (c + 1) → incr ty (l ++ c :: k) i = Ok (l ++ c + 1 :: k).
Proof.
  intros <- Hc. unfold incr. rewrite idx_mid. cbn [mbind res_bind].
  rewrite addT_ok by (by apply in_promote). cbn [mbind res_bind]. rewrite conv_id by done. by apply upd_mid.
Qed.

Lemma past_mid b1 b b2 l c k : length l = length b1 →
  past (flat (b1 ++ b :: b2)) (l ++ c :: k) (length b1) = Ok (b.2 <? c).
Proof.
  intros El. unfold past. rewrite <- El at 1. rewrite idx_mid. cbn [mbind res_bind].
  by rewrite (proj2 (flat_lookup _ _ b (list_lookup_middle _ _ _ _ eq_refl))).
Qed.

Lemma lo_mid b1 b b2 : idx (flat (b1 ++ b :: b2)) (2 * length b1) = Ok b.1.
Proof. apply (flat_lookup _ _ b). by apply list_lookup_middle. Qed.

Lemma sub_digits_app b1 b2 c1 c2 : length b1 = length c1 →
  sub_digits (b1 ++ b2) (c1 ++ c2) = sub_digits b1 c1 ++ sub_digits b2 c2.
Proof. intros E. by apply zip_with_app. Qed.

Lemma sub_digits_cons b bs c cs :
  sub_digits (b :: bs) (c :: cs) = (c - b.1, b.2 - b.1 + 1) :: sub_digits bs cs.
Proof. done. Qed.

Lemma in_sub_lows bs : Forall bound_ok bs → in_sub bs bs.*1.
Proof.
  induction 1 as [|b bs (_ & _ & H & _) _ IH]; [constructor|]. rewrite fmap_cons.
  constructor; [lia|done].
Qed.

Lemma position_lows bs : position (sub_digits bs bs.*1) = 0.
Proof.
  induction bs as [|b bs IH]; [done|]. rewrite fmap_cons, sub_digits_cons. cbn [position]. rewrite IH. lia.
Qed.

(** The outcome of carrying: the position is unchanged, and the coordinates
    are in the subarray unless the dimension that varies slowest is past its
    end, when the position is the number of cells. *)
Definition carried (rv : list digit → list digit) (bs : bounds) (cs cs' : list Z) (out : bool) : Prop :=
  position (rv (sub_digits bs cs')) = position (rv (sub_digits bs cs)) ∧
  if out then position (rv (sub_digits bs cs')) = sub_vol bs else in_sub bs cs'.

Lemma in_sub_mid b1 b b2 c1 c c2 : in_sub b1 c1 → b.1 ≤ c ≤ b.2 → in_sub b2 c2 →
  in_sub (b1 ++ b :: b2) (c1 ++ c :: c2).
Proof. intros. apply Forall2_app; [done|]. by constructor. Qed.

Lemma carry_col_spec b2 : ∀ b1 b c cs fuel,
  Forall bound_ok (b1 ++ b :: b2) → can_advance b2 → b.1 ≤ c ≤ b.2 + 1 → in_sub b2 cs →
  (length b2 < fuel)%nat →
  let bs := b1 ++ b :: b2 in let l := b1.*1 ++ c :: cs in
  ∃ l' i' out, carry_col ty fuel (length bs) (flat bs) l (length b1) = Ok (l', i') ∧
    carried id bs l l' out ∧ past (flat bs) l' i' = Ok out ∧
    (out = true → i' = (length bs - 1)%nat).
Proof.
  induction b2 as [|b' b2 IH]; intros b1 b c cs fuel Hb Hadv Hc Hs Hf;
    (destruct fuel as [|fuel]; [simpl in Hf; lia|]); cbv zeta; rewrite length_app; cbn [length carry_col];
    assert (length b1.*1 = length b1) as El by apply length_fmap;
    assert (in_sub b1 b1.*1) as H1 by (apply in_sub_lows; by apply Forall_app in Hb as [? _]).
  - inversion Hs; subst. rewrite (proj2 (Nat.ltb_ge _ _)) by lia.
    exists (b1.*1 ++ [c]), (length b1), (b.2 <? c).
    rewrite past_mid by done. split_and!; [done| |done|lia].
    split; [done|]. destruct (Z.ltb_spec b.2 c); [|apply in_sub_mid; [done|lia|constructor]].
    unfold id. rewrite <- (sub_digits_vol (b1 ++ [b]) (b1.*1 ++ [c])) by (by rewrite !length_app, El).
    rewrite sub_digits_app, position_app, vol_app, position_lows by done.
    rewrite !sub_digits_cons. cbn [position vol sub_digits zip_with]. assert (c = b.2 + 1) as -> by lia. lia.
  - rewrite (proj2 (Nat.ltb_lt _ _)), past_mid by (done || lia). cbn [mbind res_bind].
    destruct (Z.ltb_spec b.2 c) as [Hp|Hp].
    + inversion Hs as [|? c' ? cs' Hc' Hs']; subst. inversion Hadv as [|? ? Ha Hadv']; subst.
      rewrite lo_mid. cbn [mbind res_bind]. rewrite (upd_mid _ _ _ _ _ El). cbn [mbind res_bind].
      assert (length (b1.*1 ++ [b.1]) = (length b1 + 1)%nat) as El' by (by rewrite length_app, El).
      rewrite (cons_middle b.1), (app_assoc b1.*1), (incr_mid _ _ _ _ El').
      2: { rewrite Forall_app, !Forall_cons in Hb. destruct Hb as (_ & _ & Hb' & _). by apply (advance_in b'). }
      cbn [mbind res_bind].
      destruct (IH (b1 ++ [b]) b' (c' + 1) cs' fuel) as (l' & i' & out & E & [Hcar1 Hcar2] & Hpst & Hi);
        [by rewrite <- app_assoc|done|lia|done|simpl in Hf; lia|].
      rewrite fmap_app in E, Hcar1. change ([b].*1) with [b.1] in E, Hcar1.
      rewrite <- !(app_assoc b1), !length_app in *. cbn [length app] in *.
      replace (length b1 + 1 + S (length b2))%nat with (length b1 + S (S (length b2)))%nat in E, Hi by lia.
      exists l', i', out. split_and!; [done| |done|intros Ho; specialize (Hi Ho); lia].
      split; [|done]. rewrite Hcar1. unfold id. rewrite <- app_assoc, !(sub_digits_app b1), !position_app by done.
      do 2 f_equal. cbn [app]. rewrite !sub_digits_cons. cbn [position]. assert (c = b.2 + 1) as -> by lia. lia.
    + exists (b1.*1 ++ c :: cs), (length b1), false. rewrite past_mid by done.
      split_and!; [done| |f_equal; by apply Z.ltb_ge|done]. split; [done|]. apply in_sub_mid; [done|lia|done].
Qed.

Lemma rev_digits_mid b1 b b2 c1 c c2 : length b1 = length c1 →
  rev (sub_digits (b1 ++ b :: b2) (c1 ++ c :: c2)) =
  rev (sub_digits b2 c2) ++ (c - b.1, b.2 - b.1 + 1) :: rev (sub_digits b1 c1).
Proof.
  intros E. rewrite sub_digits_app, sub_digits_cons by done. rewrite rev_app_distr. simpl.
  by rewrite <- app_assoc.
Qed.

Lemma position_rev_lows bs : position (rev (sub_digits bs bs.*1)) = 0.
Proof.
  induction bs as [|b bs IH]; [done|]. rewrite fmap_cons, sub_digits_cons. simpl rev.
  rewrite position_app, IH. cbn [position]. lia.
Qed.

Lemma carry_row_spec b1 : ∀ b b2 c cs,
  Forall bound_ok (b1 ++ b :: b2) → can_advance b1 → b.1 ≤ c ≤ b.2 + 1 → in_sub b1 cs →
  let bs := b1 ++ b :: b2 in let l := cs ++ c :: b2.*1 in
  ∃ l' i' out, carry_row ty (flat bs) l (length b1) = Ok (l', i') ∧
    carried (@rev digit) bs l l' out ∧ past (flat bs) l' i' = Ok out ∧ (out = true → i' = 0%nat).
Proof.
  induction b1 as [|b' b1 IH] using rev_ind; intros b b2 c cs Hb Hadv Hc Hs; cbv zeta;
    pose proof (Forall2_length _ _ _ Hs) as El; symmetry in El;
    assert (in_sub b2 b2.*1) as H2 by (apply in_sub_lows; by apply Forall_app in Hb as [_ [_ ?]%Forall_cons_1]).
  - inversion Hs; subst. cbn [carry_row length app].
    exists (c :: b2.*1), 0%nat, (b.2 <? c). pose proof (past_mid [] b b2 [] c b2.*1 eq_refl) as Hp.
    split_and!; [done| |done|done]. split; [done|].
    destruct (Z.ltb_spec b.2 c); [|constructor; [lia|done]].
    rewrite <- (sub_digits_vol (b :: b2) (c :: b2.*1)) by (simpl; by rewrite length_fmap).
    rewrite sub_digits_cons. simpl rev. rewrite position_app, position_rev_lows, vol_rev.
    cbn [position vol]. assert (c = b.2 + 1) as -> by lia. lia.
  - pose proof (past_mid (b1 ++ [b']) b b2 cs c b2.*1 El) as Hpast.
    rewrite length_app, Nat.add_1_r in *. cbn [carry_row]. rewrite Hpast. cbn [mbind res_bind].
    destruct (Z.ltb_spec b.2 c) as [Hp|Hp].
    + pose proof (lo_mid (b1 ++ [b']) b b2) as Hlo. rewrite length_app, Nat.add_1_r in Hlo. rewrite Hlo.
      cbn [mbind res_bind]. rewrite (upd_mid _ _ _ _ _ El). cbn [mbind res_bind].
      apply Forall2_app_inv_l in Hs as (cs' & ? & Hs & (c' & ? & Hc' & Hn & ->)%Forall2_cons_inv_l & ->).
      apply Forall2_nil_inv_l in Hn as ->. apply Forall_app in Hadv as [Hadv [Ha _]%Forall_cons_1].
      rewrite <- !app_assoc in *. cbn [app] in *.
      assert (length cs' = length b1) as El' by (symmetry; by eapply Forall2_length).
      rewrite (incr_mid _ _ _ _ El').
      2: { rewrite Forall_app, !Forall_cons in Hb. destruct Hb as (_ & Hb' & _). by apply (advance_in b'). }
      cbn [mbind res_bind].
      destruct (IH b' (b :: b2) (c' + 1) cs' Hb Hadv ltac:(lia) Hs) as (l' & i' & out & E & [Hcar1 Hcar2] & Hpst & Hi).
      exists l', i', out. split_and!; [done| |done|done].
      split; [|done]. rewrite Hcar1, fmap_cons, !(rev_digits_mid b1) by done.
      rewrite !sub_digits_cons. cbn [rev]. rewrite <- !app_assoc, !position_app. do 2 f_equal.
      cbn [position vol app]. assert (c = b.2 + 1) as -> by lia. lia.
    + exists (cs ++ c :: b2.*1), (S (length b1)), false. rewrite Hpast.
      split_and!; [done| |f_equal; by apply Z.ltb_ge|done]. split; [done|]. apply in_sub_mid; [done|lia|done].
Qed.

(** ** Enumeration of the cells of a subarray *)

(** The functions of either order. *)
Definition cell_pos_in (order : Layout) (D : t) (subarray cs : list Z) : res Z :=
  match order with
  | ROW_MAJOR => get_cell_pos_row_in ty D subarray cs
  | _ => get_cell_pos_col_in ty D subarray cs
  end.
Definition next_cell (order : Layout) (D : t) (subarray cs : list Z) : res (list Z * bool) :=
  match order with
  | ROW_MAJOR => get_next_cell_coords_row ty D subarray cs
  | _ => get_next_cell_coords_col ty D subarray cs
  end.

Definition sub_position (order : Layout) (bs : bounds) (cs : list Z) : Z :=
  match order with
  | ROW_MAJOR => position (rev (sub_digits bs cs))
  | _ => position (sub_digits bs cs)
  end.

(** The coordinates visited from [cs] on, until there are no more. *)
Fixpoint visit (next : list Z → res (list Z * bool)) (fuel : nat) (cs : list Z) : list (list Z) :=
  match fuel with
  | O => []
  | S fuel => cs :: match next cs with Ok (cs', true) => visit next fuel cs' | _ => [] end
  end.

(** A subarray the traversal applies to. *)
Record traversable (D : t) (bs : bounds) : Prop := {
  tr_num : dim_num_ D = zlen bs;
  tr_some : bs ≠ [];
  tr_ok : Forall bound_ok bs;
  tr_adv : can_advance bs;
  tr_vol : sub_vol bs < 2 ^ 64
}.

Lemma cell_pos_in_spec order D bs cs : traversable D bs → in_sub bs cs →
  cell_pos_in order D (flat bs) cs = Ok (sub_position order bs cs) ∧
  0 ≤ sub_position order bs cs < sub_vol bs.
Proof.
  intros [Hn Hs Hok _ Hv] Hc. pose proof (sub_digits_grid bs cs Hc) as Hg.
  rewrite <- (sub_digits_vol bs cs (Forall2_length _ _ _ Hc)) at 1.
  assert (0 ≤ sub_position order bs cs < vol (sub_digits bs cs)).
  { destruct order; simpl; try (by apply position_bound). rewrite <- vol_rev. by apply position_bound, in_grid_rev. }
  split; [|done]. destruct order; simpl; first [by apply sub_pos_col_spec|by apply sub_pos_row_spec].
Qed.

Lemma next_col_spec D bs cs : traversable D bs → in_sub bs cs →
  ∃ cs' out, get_next_cell_coords_col ty D (flat bs) cs = Ok (cs', negb out) ∧
    position (sub_digits bs cs') = position (sub_digits bs cs) + 1 ∧
    if out then position (sub_digits bs cs') = sub_vol bs else in_sub bs cs'.
Proof.
  intros [Hn Hne Hok Hadv _] Hc. destruct Hc as [|b c bs cs Hc Hcs]; [done|].
  unfold get_next_cell_coords_col. rewrite Hn. unfold zlen. rewrite Nat2Z.id.
  inversion Hadv as [|? ? Ha Hadv']; subst.
  change (c :: cs) with ([] ++ c :: cs) at 1. rewrite (incr_mid [] c cs 0 eq_refl) by (apply (advance_in b); [by inversion Hok|done..]).
  cbn [mbind res_bind].
  destruct (carry_col_spec bs [] b (c + 1) cs (S (length (b :: bs))) Hok Hadv' ltac:(lia) Hcs ltac:(simpl; lia))
    as (l' & i' & out & E & [E1 E2] & Hp & Ho).
  exists l', out. split_and!; [| |done].
  - cbn [app fmap list_fmap length] in *. rewrite E. cbn [mbind res_bind]. destruct (Nat.eqb_spec i' (S (length bs) - 1)).
    + rewrite Hp. done.
    + destruct out; [by specialize (Ho eq_refl)|done].
  - unfold id in E1. cbn [app fmap list_fmap] in *. rewrite E1, !sub_digits_cons. cbn [position]. lia.
Qed.

Lemma next_row_spec D bs cs : traversable D bs → in_sub bs cs →
  ∃ cs' out, get_next_cell_coords_row ty D (flat bs) cs = Ok (cs', negb out) ∧
    position (rev (sub_digits bs cs')) = position (rev (sub_digits bs cs)) + 1 ∧
    if out then position (rev (sub_digits bs cs')) = sub_vol bs else in_sub bs cs'.
Proof.
  intros [Hn Hne Hok Hadv _] Hc. unfold get_next_cell_coords_row.
  rewrite Hn, (proj2 (Z.eqb_neq _ 0)) by (pose proof (zlen_pos bs Hne); lia).
  destruct bs as [|b bs _] using rev_ind; [done|].
  apply Forall2_app_inv_l in Hc as (cs1 & ? & Hcs & (c & ? & Hc & Hnil & ->)%Forall2_cons_inv_l & ->).
  apply Forall2_nil_inv_l in Hnil as ->. apply Forall_app in Hadv as [Hadv [Ha _]%Forall_cons_1].
  pose proof (Forall2_length _ _ _ Hcs) as El. unfold zlen. rewrite Nat2Z.id, length_app. cbn [length].
  replace (length bs + 1 - 1)%nat with (length bs) by lia.
  rewrite (incr_mid _ _ _ _ (eq_sym El)).
  2: { apply Forall_app in Hok as [_ [Hb _]%Forall_cons_1]. by apply (advance_in b). }
  cbn [mbind res_bind].
  destruct (carry_row_spec bs b [] (c + 1) cs1 Hok Hadv ltac:(lia) Hcs) as (l' & i' & out & E & [E1 E2] & Hp & Ho).
  exists l', out. change ([].*1) with (@nil Z) in *. split_and!; [| |done].
  - rewrite E. cbn [mbind res_bind]. destruct (Nat.eqb_spec i' 0).
    + rewrite Hp. done.
    + destruct out; [by specialize (Ho eq_refl)|done].
  - rewrite E1, !rev_digits_mid by done. cbn. lia.
Qed.

Lemma next_cell_spec order D bs cs : traversable D bs → in_sub bs cs →
  ∃ cs' more, next_cell order D (flat bs) cs = Ok (cs', more) ∧
    more = (sub_position order bs cs + 1 <? sub_vol bs) ∧
    (more = true → in_sub bs cs' ∧ sub_position order bs cs' = sub_position order bs cs + 1).
Proof.
  intros Ht Hc.
  assert (∃ cs' out, next_cell order D (flat bs) cs = Ok (cs', negb out) ∧
    sub_position order bs cs' = sub_position order bs cs + 1 ∧
    if out then sub_position order bs cs' = sub_vol bs else in_sub bs cs') as (cs' & out & E & Ep & Ho)
    by (destruct order; simpl; first [by apply next_row_spec|by apply next_col_spec]).
  exists cs', (negb out). split_and!; [done| |by destruct out].
  destruct out; simpl; symmetry; [apply Z.ltb_ge; lia|apply Z.ltb_lt].
  pose proof (cell_pos_in_spec order D bs cs' Ht Ho). lia.
Qed.

Lemma visit_spec order D bs fuel : ∀ cs, traversable D bs → in_sub bs cs →
  sub_vol bs - sub_position order bs cs ≤ Z.of_nat fuel →
  let l := visit (next_cell order D (flat bs)) fuel cs in
  zlen l = sub_vol bs - sub_position order bs cs ∧
  ∀ k c, l !! k = Some c → in_sub bs c ∧ sub_position order bs c = sub_position order bs cs + Z.of_nat k.
Proof.
  induction fuel as [|fuel IH]; intros cs Ht Hc Hf;
    pose proof (proj2 (cell_pos_in_spec order D bs cs Ht Hc)) as Hp; [lia|]. cbn [visit].
  destruct (next_cell_spec order D bs cs Ht Hc) as (cs' & more & -> & -> & Hn).
  destruct (Z.ltb_spec (sub_position order bs cs + 1) (sub_vol bs)) as [Hm|Hm].
  - destruct (Hn eq_refl) as [Hc' Ep]. destruct (IH cs' Ht Hc' ltac:(lia)) as [IHl IHk]. split.
    + rewrite zlen_cons, IHl. lia.
    + intros [|k] c Hk; [injection Hk as <-; split; [done|lia]|]. destruct (IHk k c Hk). split; [done|lia].
  - split; [rewrite zlen_cons, zlen_nil; lia|].
    intros [|k] c Hk; [injection Hk as <-; split; [done|lia]|done].
Qed.

Lemma sub_digits_inj bs cs cs' : length bs = length cs → length bs = length cs' →
  sub_digits bs cs = sub_digits bs cs' → cs = cs'.
Proof.
  revert cs cs'. induction bs as [|b bs IH]; intros [|c cs] [|c' cs'] E E' H; try done.
  rewrite !sub_digits_cons in H. injection H as H1 H2. f_equal; [lia|]. apply IH; [simpl in *; lia..|done].
Qed.

Lemma sub_position_inj order bs cs cs' : in_sub bs cs → in_sub bs cs' →
  sub_position order bs cs = sub_position order bs cs' → cs = cs'.
Proof.
  intros H H' E. pose proof (Forall2_length _ _ _ H) as El. pose proof (Forall2_length _ _ _ H') as El'.
  apply (sub_digits_inj bs); [done..|].
  assert ((sub_digits bs cs).*2 = (sub_digits bs cs').*2) as Er.
  { clear -El El'. revert cs cs' El El'. induction bs as [|b bs IH]; intros [|c cs] [|c' cs'] E E'; try done.
    rewrite !sub_digits_cons, !fmap_cons. f_equal. apply IH; simpl in *; lia. }
  pose proof (sub_digits_grid _ _ H). pose proof (sub_digits_grid _ _ H').
  destruct order; simpl in E; first [by apply position_inj|by apply position_rev_inj].
Qed.

Lemma sub_position_lows order bs : sub_position order bs bs.*1 = 0.
Proof. destruct order; simpl; first [apply position_rev_lows|apply position_lows]. Qed.

(** C25. Traversal of a subarray.  Starting at its first cell, in row-major or
    column-major order, [get_next_cell_coords] visits every cell of the
    subarray exactly once and then reports that there are no more: the [k]-th
    cell it visits is the one that [get_cell_pos] puts at position [k]. *)
Theorem traversal_complete order D bs fuel : traversable D bs → sub_vol bs ≤ Z.of_nat fuel →
  let cells := visit (next_cell order D (flat bs)) fuel bs.*1 in
  zlen cells = sub_vol bs ∧
  ∀ k cs, cells !! k = Some cs ↔ in_sub bs cs ∧ cell_pos_in order D (flat bs) cs = Ok (Z.of_nat k).
Proof.
  intros Ht Hf. pose proof (in_sub_lows bs (tr_ok _ _ Ht)) as H0. cbv zeta.
  destruct (visit_spec order D bs fuel _ Ht H0) as [Hl Hk]; rewrite sub_position_lows in *; [lia|].
  split; [lia|]. intros k cs. split.
  - intros Hc. destruct (Hk k cs Hc) as [Hin Ep]. split; [done|].
    rewrite (proj1 (cell_pos_in_spec order D bs cs Ht Hin)). f_equal. lia.
  - intros [Hin Ec]. destruct (cell_pos_in_spec order D bs cs Ht Hin) as [E Hp]. rewrite E in Ec.
    injection Ec as Ec. set (l := visit _ _ _) in *.
    destruct (lookup_lt_is_Some_2 l k ltac:(unfold zlen in Hl; lia)) as [c Hc]. rewrite Hc. f_equal.
    destruct (Hk k c Hc) as [Hin' Ep]. apply (sub_position_inj order bs); [done..|lia].
Qed.

End Subarray.

(** The functions that advance tiles are the same as the ones that advance
    cells, on the domain of the tile coordinates. *)
Lemma next_tile_cell ty D domain coords : tile_order_ D = ROW_MAJOR ∨ tile_order_ D = COL_MAJOR →
  get_next_tile_coords_in ty D domain coords = next_cell ty (tile_order_ D) D domain coords.
Proof. unfold get_next_tile_coords_in, next_cell. by intros [-> | ->]. Qed.

Lemma traversal_complete_witness :
  let D := int_domain I32 INT32 ROW_MAJOR ROW_MAJOR grid_23 in
  zlen (visit (next_cell I32 COL_MAJOR D (flat [(1, 2); (4, 6)])) 6 [1; 4]) = 6.
Proof.
  apply (traversal_complete I32 COL_MAJOR _ [(1, 2); (4, 6)] 6); [|by vm_compute].
  split; [done|done| |by repeat constructor|by vm_compute].
  repeat constructor; by vm_compute.
Defined.

(** When the subarray ends at the largest value of the type, the increment
    wraps around: on [uint8_t], after the last cell of [[0, 255]] comes cell 0,
    reported to be in the subarray, so the traversal never ends. *)
Theorem traversal_wraps :
  let D := int_domain U8 UINT8 ROW_MAJOR ROW_MAJOR [Axis 0 255 16] in
  Dimension.check_tile_extent (int_dim U8 UINT8 0 255 16) = Ok () ∧
  get_next_cell_coords_row U8 D [0; 255] [255] = Ok ([0], true).
Proof. by vm_compute. Qed.

(** ** Tiles *)

(** ** Offsets and sums of products *)

Fixpoint scan (b : Z) (rs : list Z) : list Z :=
  match rs with [] => [b] | r :: rs => b :: scan (u64 (b * r)) rs end.

Fixpoint sumprod (cs os : list Z) : Z :=
  match cs, os with c :: cs, o :: os => c * o + sumprod cs os | _, _ => 0 end.

Lemma push_scan rs : ∀ v b,
  for_each rs (λ r v, Ok (push_product v r)) (v ++ [b]) = Ok (v ++ scan b rs).
Proof.
  induction rs as [|r rs IH]; intros v b; [done|]. simpl. unfold mbind. simpl.
  assert (push_product (v ++ [b]) r = (v ++ [b]) ++ [u64 (b * r)]) as ->.
  { unfold push_product. by rewrite last_last. }
  rewrite IH, <- app_assoc. done.
Qed.

Lemma length_scan rs : ∀ b, length (scan b rs) = S (length rs).
Proof. induction rs as [|r rs IH]; intros b; [done|]. simpl. by rewrite IH. Qed.

Lemma dot_spec ty cs os D : dim_num_ D = zlen cs → length os = length cs →
  Forall (λ c, in_ctype ty c ∧ 0 ≤ c) cs → dot D cs os = Ok (u64 (sumprod cs os)).
Proof.
  intros HD El Hc. unfold dot. rewrite HD.
  rewrite (for_each_up (zip cs os) _ (λ '(c, o) pos, Ok (add_pos pos (c * o)))).
  - assert (∀ a, for_each (zip cs os) (λ '(c, o) pos, Ok (add_pos pos (c * o))) (u64 a) =
      Ok (u64 (a + sumprod cs os))) as H; [|apply (H 0)].
    clear HD Hc. revert os El. induction cs as [|c cs IH]; intros [|o os] El a; try done.
    + simpl. by rewrite Z.add_0_r.
    + simpl. unfold mbind. simpl. rewrite add_pos_u64, IH by (simpl in El; lia). do 2 f_equal. lia.
  - unfold zlen. rewrite length_zip_with. lia.
  - intros k [c o] pos Hk. apply lookup_zip_with_Some in Hk as (? & ? & [= <- <-] & Hck & Hok).
    rewrite (idx_ok _ _ _ Hck), (idx_ok _ _ _ Hok). cbn [mbind res_bind].
    destruct (Forall_lookup_1 _ _ _ _ Hc Hck) as [H1 H2].
    by rewrite (conv_u64_nonneg ty) by (done || by apply in_promote).
Qed.

Lemma sumprod_app cs cs' os os' : length cs = length os →
  sumprod (cs ++ cs') (os ++ os') = sumprod cs os + sumprod cs' os'.
Proof.
  revert os. induction cs as [|c cs IH]; intros [|o os] E; try done. simpl. rewrite IH by (simpl in E; lia). lia.
Qed.

Lemma sumprod_rev cs os : length cs = length os → sumprod (rev cs) (rev os) = sumprod cs os.
Proof.
  revert os. induction cs as [|c cs IH]; intros [|o os] E; try done. simpl.
  rewrite sumprod_app by (rewrite !length_rev; simpl in E; lia). rewrite IH by (simpl in E; lia). simpl. lia.
Qed.

(** The sum of the products with the offsets is the position. *)
Lemma scan_position ds : ∀ b, ds ≠ [] →
  u64 (sumprod ds.*1 (scan (u64 b) (removelast ds.*2))) = u64 (b * position ds).
Proof.
  induction ds as [|[x r] ds IH]; intros b Hne; [done|]. destruct ds as [|d ds].
  - simpl. rewrite Z.mul_0_r, !Z.add_0_r. unfold u64. rewrite Z.mul_mod_idemp_r by lia. f_equal. lia.
  - rewrite !fmap_cons in *. cbn [fst snd removelast sumprod scan position] in *.
    rewrite u64_mul_l. specialize (IH (b * r) ltac:(done)).
    unfold u64 in *. rewrite Z.add_mod, IH, <- Z.add_mod by lia.
    rewrite <- Z.add_mod_idemp_l, Z.mul_mod_idemp_r, Z.add_mod_idemp_l by lia. f_equal. lia.
Qed.

(** ** The overloads with a domain *)

(** The grid of the tiles of a domain whose bounds are [bs]. *)
Definition tile_digits (gs : list axis) (bs : bounds) (ts : list Z) : list digit :=
  zip ts (zip_with (λ g b, (b.2 - b.1 + 1) / a_ext g) gs bs).

Section Tiles.
Context (ty : ctype).

Lemma tile_num_in_ok D gs bs k g b : dense ty D gs → Forall (bound_ok ty) bs →
  gs !! k = Some g → bs !! k = Some b →
  tile_num_in ty D (flat bs) k = Ok ((b.2 - b.1 + 1) / a_ext g).
Proof.
  intros HD Hb Hg Hbk. pose proof (Forall_lookup_1 _ _ _ _ Hb Hbk) as (H1 & H2 & H3 & H4).
  destruct (flat_lookup bs k b Hbk) as [E1 E2].
  destruct (dense_at ty D gs k g HD Hg) as (dim & _ & [Ht _] & _). pose proof (tiled_pos _ _ _ _ _ Ht).
  unfold tile_num_in. rewrite (extent_at_ok ty _ _ _ _ HD Hg), E2, E1. cbn [mbind res_bind].
  rewrite subT_ok by (apply (in_nonneg _ _ _ H4); lia). cbn [mbind res_bind].
  rewrite addT_ok by done. cbn [mbind res_bind]. rewrite divT_ok by (done || lia). cbn [mbind res_bind].
  rewrite (conv_u64_nonneg ty); [done|apply Z.div_pos; lia|].
  apply (in_nonneg _ _ _ H4). split; [apply Z.div_pos; lia|apply Z.div_le_upper_bound; nia].
Qed.

Lemma radices_lookup gs bs k r : zip_with (λ g b, (b.2 - b.1 + 1) / a_ext g) gs bs !! k = Some r →
  ∃ g b, gs !! k = Some g ∧ bs !! k = Some b ∧ r = (b.2 - b.1 + 1) / a_ext g.
Proof. intros H. apply lookup_zip_with_Some in H as (g & b & -> & Hg & Hb). by exists g, b. Qed.

Definition radices (gs : list axis) (bs : bounds) : list Z :=
  zip_with (λ g b, (b.2 - b.1 + 1) / a_ext g) gs bs.

Lemma col_offsets D gs bs : dense ty D gs → Forall (bound_ok ty) bs → length gs = length bs →
  for_each (seq 1 (Z.to_nat (dim_num_ D) - 1)) (λ d v,
    n ← tile_num_in ty D (flat bs) (d - 1); Ok (push_product v n)) [1] =
  Ok (scan 1 (removelast (radices gs bs))).
Proof.
  intros HD Hb El. rewrite (dense_num ty D gs HD). unfold zlen. rewrite Nat2Z.id, removelast_firstn_len.
  assert (length (radices gs bs) = length gs) as Er by (unfold radices; rewrite length_zip_with; lia).
  set (rs := radices gs bs) in *.
  replace (length gs - 1)%nat with (length (take (pred (length rs)) rs)) by (rewrite length_take; lia).
  rewrite (for_each_seq _ _ (λ r v, Ok (push_product v r))); [apply (push_scan _ [])|].
  intros k r v Hk. apply lookup_take_Some in Hk as [Hk _].
  apply radices_lookup in Hk as (g & b & Hg & Hbk & ->).
  replace (1 + k - 1)%nat with k by lia. by rewrite (tile_num_in_ok D gs bs k g b).
Qed.

Lemma row_offsets D gs bs : dense ty D gs → Forall (bound_ok ty) bs → length gs = length bs →
  for_each (rev (seq 0 (Z.to_nat (dim_num_ D) - 1))) (λ d v,
    n ← tile_num_in ty D (flat bs) (d + 1); Ok (push_product v n)) [1] =
  Ok (scan 1 (rev (tail (radices gs bs)))).
Proof.
  intros HD Hb El. rewrite (dense_num ty D gs HD). unfold zlen. rewrite Nat2Z.id.
  assert (length (radices gs bs) = length gs) as Er by (unfold radices; rewrite length_zip_with; lia).
  set (rs := radices gs bs) in *.
  replace (length gs - 1)%nat with (length (tail rs)) by (clearbody rs; rewrite <- Er; destruct rs; simpl; lia).
  rewrite (for_each_rev_seq (tail rs) _ (λ r v, Ok (push_product v r))); [apply (push_scan _ [])|].
  intros k r v Hk. rewrite lookup_tail in Hk. apply radices_lookup in Hk as (g & b & Hg & Hbk & ->).
  rewrite Nat.add_0_l, Nat.add_1_r. by rewrite (tile_num_in_ok D gs bs (S k) g b).
Qed.

Lemma tile_digits_split gs bs ts : length gs = length bs → length gs = length ts →
  (tile_digits gs bs ts).*1 = ts ∧ (tile_digits gs bs ts).*2 = radices gs bs.
Proof.
  intros E E'. unfold tile_digits. fold (radices gs bs).
  assert (length (radices gs bs) = length gs) as Er by (unfold radices; rewrite length_zip_with; lia).
  split; [apply fst_zip|apply snd_zip]; lia.
Qed.

Lemma removelast_rev {A} (l : list A) : removelast (rev l) = rev (tail l).
Proof. destruct l as [|x l]; [done|]. simpl. apply removelast_last. Qed.

Lemma length_offsets (ds : list digit) : ds ≠ [] → length (scan 1 (removelast ds.*2)) = length ds.*1.
Proof.
  intros Hne. rewrite length_scan, removelast_firstn_len, length_take, !length_fmap.
  destruct ds; [done|]. simpl. lia.
Qed.

Lemma sumprod_offsets ds : ds ≠ [] → in_grid ds → vol ds < 2 ^ 64 →
  u64 (sumprod ds.*1 (scan 1 (removelast ds.*2))) = position ds.
Proof.
  intros Hne Hg Hv. pose proof (position_bound _ Hg). pose proof (scan_position ds 1 Hne) as E.
  change (u64 1) with 1 in E. rewrite E, Z.mul_1_l. apply u64_id. lia.
Qed.

(** The position of a tile.  In a domain made of whole tiles, the overload
    of [get_tile_pos] that is given the domain numbers its tiles in the tile
    order: the result is the position of the tile in the grid of the tiles,
    so different tiles of the domain have different positions. *)
Theorem tile_pos_in_domain D gs bs ts : dense ty D gs → Forall (bound_ok ty) bs → length gs = length bs →
  length gs = length ts → Forall (in_ctype ty) ts →
  in_grid (tile_digits gs bs ts) → vol (tile_digits gs bs ts) < 2 ^ 64 →
  get_tile_pos_in ty D (flat bs) ts = Ok
    match tile_order_ D with
    | ROW_MAJOR => position (rev (tile_digits gs bs ts))
    | _ => position (tile_digits gs bs ts)
    end.
Proof.
  intros HD Hb Eb Et Hts Hg Hv. destruct (tile_digits_split gs bs ts Eb Et) as [E1 E2].
  pose proof (position_bound _ Hg). pose proof (position_bound _ (in_grid_rev _ Hg)) as Hr. rewrite vol_rev in Hr.
  assert (tile_digits gs bs ts ≠ []) as Hne.
  { intros E. rewrite E in E1. destruct HD as [_ _ Hs]. destruct gs; [done|]. by rewrite <- E1 in Et. }
  assert (Forall (λ c, in_ctype ty c ∧ 0 ≤ c) ts) as Hc.
  { rewrite <- E1 in Hts |- *. rewrite Forall_fmap in *. apply Forall_and; split; [done|].
    eapply Forall_impl; [exact Hg|]. simpl. lia. }
  assert (dim_num_ D = zlen ts) as Hn by (rewrite (dense_num ty D gs HD); unfold zlen; lia).
  set (ds := tile_digits gs bs ts) in *.
  unfold get_tile_pos_in, get_tile_pos_row_in, get_tile_pos_col_in.
  rewrite (row_offsets D gs bs), (col_offsets D gs bs), <- E2 by done. cbn [mbind res_bind].
  assert (rev ds ≠ []) as Hne' by (intros E; apply (f_equal (@rev _)) in E; by rewrite rev_involutive in E).
  assert (dot D ts (scan 1 (removelast ds.*2)) = Ok (position ds)) as Hcol.
  { rewrite (dot_spec ty) by (rewrite ?length_offsets, ?E1; done).
    rewrite <- E1. by rewrite sumprod_offsets. }
  assert (dot D ts (rev (scan 1 (rev (tail ds.*2)))) = Ok (position (rev ds))) as Hrow.
  { rewrite <- removelast_rev, <- fmap_rev.
    rewrite (dot_spec ty) by (rewrite ?length_rev, ?length_offsets, ?fmap_rev, ?length_rev, ?E1; done).
    rewrite <- sumprod_rev, rev_involutive by (rewrite length_rev, length_offsets, fmap_rev, length_rev, E1; done).
    rewrite <- E1, <- fmap_rev, sumprod_offsets; [done..|by apply in_grid_rev|by rewrite vol_rev]. }
  by destruct (tile_order_ D).
Qed.

End Tiles.

Lemma tile_pos_in_domain_witness :
  get_tile_pos_in I32 (int_domain I32 INT32 ROW_MAJOR ROW_MAJOR grid_23) (flat [(0, 5); (-3, 8)]) [2; 1] = Ok 9.
Proof.
  pose proof (tile_pos_in_domain I32 (int_domain I32 INT32 ROW_MAJOR ROW_MAJOR grid_23) grid_23
    [(0, 5); (-3, 8)] [2; 1] (grid_23_dense _ _)) as H.
  apply H; [|done|done| | |by vm_compute]; repeat constructor; by vm_compute.
Defined.

(** The overload without a domain uses offsets that [init] computes from
    the wrong dimension: in a domain of 3 by 4 tiles, the tiles [[0, 3]] and
    [[1, 0]] are given the same position, and tile [[2, 3]] gets the position
    9 instead of 11. *)
Theorem tile_offsets_collide :
  let D := int_domain I32 INT32 ROW_MAJOR ROW_MAJOR grid_23 in
  get_tile_pos D [0; 3] = Ok 3 ∧ get_tile_pos D [1; 0] = Ok 3 ∧
  get_tile_pos D [2; 3] = Ok 9 ∧ get_tile_pos_in I32 D (flat [(0, 5); (-3, 8)]) [2; 3] = Ok 11.
Proof. by vm_compute. Qed.
