(* ===== verification/DomainRanges.v ===== *)
(** * n-dimensional ranges of integer domains *)

From S2P Require Import Prelude.
From S2P Require Import Enums.
From S2P Require Import Num.
From S2P Require Import NumFacts.
From S2P Require Import Range.
From S2P Require Import Loops.
From S2P Require Import Dimension.
From S2P Require Import DimensionProofs.
From S2P Require Import Domain.
From S2P Require Import DomainProofs.
Local Open Scope Z_scope.

(** ** Boxes *)

(** [r] is the range [[b.1, b.2]] of an integer dimension. *)
Definition side (dim : Dimension.t) (r : Range) (b : Z * Z) : Prop :=
  ∃ ty, num_of (type_ dim) = Some (NInt ty) ∧ var_size dim = false ∧
        is_pair (NInt ty) r b.1 b.2 ∧ b.1 ≤ b.2.

(** [r] is the box [bs] of an integer domain. *)
Definition box (D : t) (r : NDRange) (bs : list (Z * Z)) : Prop :=
  dim_num_ D = zlen (dimensions_ D) ∧ Forall3 side (dimensions_ D) r bs.

(** The number of cells along each dimension is computed without overflow,
    and is an exact [double]. *)
Definition small (D : t) (bs : list (Z * Z)) : Prop :=
  Forall2 (λ dim b, ∀ ty, num_of (type_ dim) = Some (NInt ty) →
    in_ctype (promote ty) (b.2 - b.1 + 1) ∧ b.2 - b.1 + 1 ≤ 2 ^ 53) (dimensions_ D) bs.

Definition meet1 (x y : Z * Z) : bool := (x.1 <=? y.2) && (y.1 <=? x.2).
Definition cover1 (x y : Z * Z) : bool := (x.1 <=? y.1) && (y.2 <=? x.2).
Definition hull1 (x y : Z * Z) : Z * Z := (Z.min x.1 y.1, Z.max x.2 y.2).

Fixpoint meets (xs ys : list (Z * Z)) : bool :=
  match xs, ys with x :: xs, y :: ys => meet1 x y && meets xs ys | _, _ => true end.
(** [covers xs ys]: every cell of [ys] is in [xs]. *)
Fixpoint covers (xs ys : list (Z * Z)) : bool :=
  match xs, ys with x :: xs, y :: ys => cover1 x y && covers xs ys | _, _ => true end.
Definition hull (xs ys : list (Z * Z)) : list (Z * Z) := zip_with hull1 xs ys.

(** ** The dimensions of a pair of boxes *)

Record item : Type := Item {
  i_dim : Dimension.t; i_r1 : Range; i_r2 : Range; i_x : Z * Z; i_y : Z * Z
}.

Definition item_ok (e : item) : Prop := side (i_dim e) (i_r1 e) (i_x e) ∧ side (i_dim e) (i_r2 e) (i_y e).

Record items (D : t) (r1 r2 : NDRange) (es : list item) : Prop := {
  it_num : dim_num_ D = zlen es;
  it_dims : dimensions_ D = i_dim <$> es;
  it_r1 : r1 = i_r1 <$> es;
  it_r2 : r2 = i_r2 <$> es;
  it_ok : Forall item_ok es
}.

Lemma items_of_boxes D r1 r2 xs ys : box D r1 xs → box D r2 ys →
  ∃ es, items D r1 r2 es ∧ xs = i_x <$> es ∧ ys = i_y <$> es.
Proof.
  intros [Hn H1] [_ H2].
  assert (∃ es, dimensions_ D = i_dim <$> es ∧ r1 = i_r1 <$> es ∧ r2 = i_r2 <$> es ∧ Forall item_ok es ∧
    xs = i_x <$> es ∧ ys = i_y <$> es) as (es & E1 & E2 & E3 & E4 & E5 & E6).
  { clear Hn. revert r2 ys H2. induction H1 as [|dim a x dims r1 xs Hx _ IH]; intros r2 ys H2.
    - inversion H2; subst. by exists [].
    - inversion H2 as [|? b y ? r2' ys' Hy H2']; subst.
      destruct (IH _ _ H2') as (es & -> & -> & -> & Hok & -> & ->).
      exists (Item dim a b x y :: es). rewrite !fmap_cons. split_and!; try done. by constructor. }
  exists es. split_and!; try done. split; try done. rewrite Hn, E1. unfold zlen. by rewrite length_fmap.
Qed.

Lemma items_at D r1 r2 es k e : items D r1 r2 es → es !! k = Some e →
  idx (dimensions_ D) k = Ok (i_dim e) ∧ idx r1 k = Ok (i_r1 e) ∧ idx r2 k = Ok (i_r2 e) ∧ item_ok e.
Proof.
  intros [_ E1 E2 E3 Hok] Hk. rewrite E1, E2, E3.
  split_and!; try (apply idx_ok; by rewrite list_lookup_fmap, Hk). by apply (Forall_lookup_1 _ _ _ _ Hok Hk).
Qed.

Lemma items_sizes D r1 r2 es : items D r1 r2 es → zlen r1 = dim_num_ D ∧ zlen r2 = dim_num_ D.
Proof. intros [-> _ -> -> _]. unfold zlen. by rewrite !length_fmap. Qed.

Lemma meets_items es : meets (i_x <$> es) (i_y <$> es) = forallb (λ e, meet1 (i_x e) (i_y e)) es.
Proof. induction es as [|e es IH]; [done|]. rewrite !fmap_cons. simpl. by rewrite IH. Qed.

Lemma covers_items es : covers (i_x <$> es) (i_y <$> es) = forallb (λ e, cover1 (i_x e) (i_y e)) es.
Proof. induction es as [|e es IH]; [done|]. rewrite !fmap_cons. simpl. by rewrite IH. Qed.

(** ** One dimension *)

Lemma item_overlap e : item_ok e →
  Dimension.overlap (i_dim e) (i_r1 e) (i_r2 e) = Ok (meet1 (i_x e) (i_y e)).
Proof.
  intros [(ty & ET & _ & Hx & Lx) (ty' & ET' & _ & Hy & Ly)]. rewrite ET in ET'. injection ET' as <-.
  unfold Dimension.overlap, overlap_func_, with_char.
  assert (match type_ (i_dim e) with STRING_ASCII => Some overlap_char | _ => overlap_t <$> num_of (type_ (i_dim e)) end
    = Some (overlap_t (NInt ty))) as -> by (rewrite ET; by destruct (type_ (i_dim e))).
  cbn [call]. by rewrite (overlap_spec (NInt ty) _ _ _ _ _ _ Hx Hy).
Qed.

Lemma item_covered e : item_ok e →
  Dimension.covered (i_dim e) (i_r1 e) (i_r2 e) = Ok (cover1 (i_y e) (i_x e)).
Proof.
  intros [(ty & ET & _ & Hx & Lx) (ty' & ET' & _ & Hy & Ly)]. rewrite ET in ET'. injection ET' as <-.
  unfold Dimension.covered, covered_func_. rewrite ET. cbn [fmap option_fmap option_map call].
  by rewrite (covered_spec (NInt ty) _ _ _ _ _ _ Hx Hy).
Qed.

Lemma item_ratio e : item_ok e →
  (∀ ty, num_of (type_ (i_dim e)) = Some (NInt ty) →
     in_ctype (promote ty) ((i_y e).2 - (i_y e).1 + 1) ∧ (i_y e).2 - (i_y e).1 + 1 ≤ 2 ^ 53) →
  ∃ x, Dimension.overlap_ratio (i_dim e) (i_r1 e) (i_r2 e) = Ok x ∧
    if meet1 (i_x e) (i_y e) then unit64 x ∧ feq F64 x f_one = cover1 (i_x e) (i_y e) else x = 0.
Proof.
  intros [(ty & ET & _ & Hx & Lx) (ty' & ET' & _ & Hy & Ly)] Hs. rewrite ET in ET'. injection ET' as <-.
  destruct (Hs ty ET) as [Hs1 Hs2]. unfold Dimension.overlap_ratio, overlap_ratio_func_, with_char.
  assert (match type_ (i_dim e) with STRING_ASCII => Some overlap_ratio_char
    | _ => overlap_ratio_t <$> num_of (type_ (i_dim e)) end
    = Some (overlap_ratio_t (NInt ty))) as -> by (rewrite ET; by destruct (type_ (i_dim e))).
  cbn [call]. by apply (overlap_ratio_spec ty).
Qed.

(** ** All dimensions *)

Lemma nd_overlap_spec D r1 r2 xs ys : box D r1 xs → box D r2 ys → Domain.overlap D r1 r2 = Ok (meets xs ys).
Proof.
  intros H1 H2. destruct (items_of_boxes D r1 r2 xs ys H1 H2) as (es & He & -> & ->).
  destruct (items_sizes D r1 r2 es He) as [L1 L2]. unfold Domain.overlap. rewrite L1, L2, Z.eqb_refl.
  cbn [massert mbind res_bind].
  rewrite (all_of_up es _ (λ e, Dimension.overlap (i_dim e) (i_r1 e) (i_r2 e)) _ (it_num _ _ _ _ He)).
  - rewrite (all_of_spec es _ (λ e, meet1 (i_x e) (i_y e))); [by rewrite meets_items|].
    intros e Hin. apply item_overlap. by eapply Forall_forall; [apply (it_ok _ _ _ _ He)|].
  - intros k e Hk. by destruct (items_at D r1 r2 es k e He Hk) as (-> & -> & -> & _).
Qed.

Lemma nd_covered_spec D r1 r2 xs ys : box D r1 xs → box D r2 ys → Domain.covered D r1 r2 = Ok (covers ys xs).
Proof.
  intros H1 H2. destruct (items_of_boxes D r1 r2 xs ys H1 H2) as (es & He & -> & ->).
  destruct (items_sizes D r1 r2 es He) as [L1 L2]. unfold Domain.covered. rewrite L1, L2, Z.eqb_refl.
  cbn [massert mbind res_bind].
  rewrite (all_of_up es _ (λ e, Dimension.covered (i_dim e) (i_r1 e) (i_r2 e)) _ (it_num _ _ _ _ He)).
  - rewrite (all_of_spec es _ (λ e, cover1 (i_y e) (i_x e))).
    + f_equal. clear. induction es as [|e es IH]; [done|]. rewrite !fmap_cons. simpl. by rewrite IH.
    + intros e Hin. apply item_covered. by eapply Forall_forall; [apply (it_ok _ _ _ _ He)|].
  - intros k e Hk. by destruct (items_at D r1 r2 es k e He Hk) as (-> & -> & -> & _).
Qed.

Lemma epsilon_unit : unit64 epsilon ∧ feq F64 epsilon f_one = false.
Proof.
  split; [|by vm_compute]. exists 1%positive, (-1074). split; [by vm_compute|]. unfold unit_me. lia.
Qed.

(** One step of the product. *)
Lemma ratio_step r x : unit64 r → unit64 x →
  let p := fmul F64 r x in let r' := if feq F64 p 0 then epsilon else p in
  unit64 r' ∧ feq F64 r' f_one = feq F64 r f_one && feq F64 x f_one.
Proof.
  intros Hr Hx. cbv zeta. destruct (fmul_unit r x Hr Hx) as [(E & E1 & E2)|[Hu E]].
  - rewrite E, E1, E2. apply epsilon_unit.
  - destruct (unit64_not_zero _ Hu) as [-> _]. split; [done|]. apply eq_true_iff_eq. by rewrite andb_true_iff.
Qed.

Lemma ratio_loop_spec D r1 r2 es : ∀ i0 r, unit64 r →
  (∀ k e, es !! k = Some e → idx (dimensions_ D) (i0 + k) = Ok (i_dim e) ∧
     idx r1 (i0 + k) = Ok (i_r1 e) ∧ idx r2 (i0 + k) = Ok (i_r2 e) ∧ item_ok e ∧
     (∀ ty, num_of (type_ (i_dim e)) = Some (NInt ty) →
       in_ctype (promote ty) ((i_y e).2 - (i_y e).1 + 1) ∧ (i_y e).2 - (i_y e).1 + 1 ≤ 2 ^ 53)) →
  ∃ x, overlap_ratio_loop (seq i0 (length es)) D r1 r2 r = Ok x ∧
    if meets (i_x <$> es) (i_y <$> es)
    then unit64 x ∧ feq F64 x f_one = feq F64 r f_one && covers (i_x <$> es) (i_y <$> es)
    else x = 0.
Proof.
  induction es as [|e es IH]; intros i0 r Hr Hes.
  - exists r. simpl. by rewrite andb_true_r.
  - destruct (Hes 0%nat e eq_refl) as (E1 & E2 & E3 & Hok & Hs). rewrite Nat.add_0_r in *.
    cbn [length seq overlap_ratio_loop]. rewrite E1, E2, E3. cbn [mbind res_bind].
    rewrite (item_overlap e Hok). cbn [mbind res_bind]. rewrite !fmap_cons. cbn [meets covers].
    destruct (item_ratio e Hok Hs) as (x & Ex & Hx).
    destruct (meet1 (i_x e) (i_y e)); cbn [negb andb]; [|by exists 0]. destruct Hx as [Ux Ox].
    rewrite Ex. cbn [mbind res_bind]. cbv zeta. destruct (ratio_step r x Hr Ux) as [Ur Or].
    edestruct (IH (S i0) _ Ur) as (z & Ez & Hz).
    { intros k e' Hk. rewrite Nat.add_succ_l, <- Nat.add_succ_r. by apply Hes. }
    exists z. split; [done|]. case_match; [|done]. destruct Hz as [Uz Oz]. split; [done|].
    by rewrite Oz, Or, Ox, andb_assoc.
Qed.

Lemma nd_ratio_spec D r1 r2 xs ys : box D r1 xs → box D r2 ys → small D ys →
  ∃ x, Domain.overlap_ratio D r1 r2 = Ok x ∧
    if meets xs ys then unit64 x ∧ feq F64 x f_one = covers xs ys else x = 0.
Proof.
  intros H1 H2 Hs. destruct (items_of_boxes D r1 r2 xs ys H1 H2) as (es & He & -> & ->).
  destruct (items_sizes D r1 r2 es He) as [L1 L2]. unfold Domain.overlap_ratio. rewrite L1, L2, Z.eqb_refl.
  cbn [massert mbind res_bind]. rewrite (it_num _ _ _ _ He), up_zlen.
  destruct (ratio_loop_spec D r1 r2 es 0 f_one unit64_one) as (x & Ex & Hx).
  - intros k e Hk. rewrite Nat.add_0_l. destruct (items_at D r1 r2 es k e He Hk) as (-> & -> & -> & Hok).
    split_and!; try done. intros ty. unfold small in Hs. rewrite (it_dims _ _ _ _ He) in Hs.
    apply (Forall2_lookup_lr _ _ _ k (i_dim e) (i_y e)) in Hs; try (by rewrite list_lookup_fmap, Hk). apply Hs.
  - by exists x.
Qed.

(** The smallest box around two boxes. *)
Lemma item_expand e : item_ok e →
  ∃ r, Dimension.expand_range (i_dim e) (i_r1 e) (i_r2 e) = Ok r ∧
    side (i_dim e) r (hull1 (i_x e) (i_y e)) ∧ var_size (i_dim e) = false.
Proof.
  intros [(ty & ET & Ev & Hx & Lx) (ty' & ET' & _ & Hy & Ly)]. rewrite ET in ET'. injection ET' as <-.
  unfold Dimension.expand_range, expand_range_func_. rewrite ET. cbn [fmap option_fmap option_map call].
  destruct (expand_range_spec (NInt ty) _ _ _ _ _ _ Hx Hy) as (r & Er & Hr & _). exists r.
  split_and!; try done. exists ty. split_and!; try done; simpl; [|lia].
  replace (Z.min (i_x e).1 (i_y e).1) with (nmin (NInt ty) (i_x e).1 (i_y e).1).
  - replace (Z.max (i_x e).2 (i_y e).2) with (nmax (NInt ty) (i_x e).2 (i_y e).2); [done|].
    unfold nmax, nlt. case_match eqn:E; [apply Z.ltb_lt in E|apply Z.ltb_ge in E]; lia.
  - unfold nmin, nlt. case_match eqn:E; [apply Z.ltb_lt in E|apply Z.ltb_ge in E]; lia.
Qed.

Lemma expand_loop_spec D r1 es : ∀ pre,
  (∀ k e, es !! k = Some e → idx (dimensions_ D) (length pre + k) = Ok (i_dim e) ∧
     idx r1 (length pre + k) = Ok (i_r1 e) ∧ item_ok e) →
  ∃ rs, for_each (seq (length pre) (length es)) (λ d r2,
      dim ← idx (dimensions_ D) d; x ← idx r1 d; y ← idx r2 d;
      z ← (if negb (var_size dim) then Dimension.expand_range dim x y else expand_range_var dim x y);
      upd r2 d z) (pre ++ (i_r2 <$> es)) = Ok (pre ++ rs) ∧
    Forall3 side (i_dim <$> es) rs (hull (i_x <$> es) (i_y <$> es)).
Proof.
  induction es as [|e es IH]; intros pre Hes; [exists []; split; [done|constructor]|].
  destruct (Hes 0%nat e eq_refl) as (E1 & E2 & Hok). rewrite Nat.add_0_r in *.
  cbn [length seq for_each]. rewrite E1, E2. rewrite fmap_cons. cbn [mbind res_bind].
  rewrite idx_mid. cbn [mbind res_bind].
  destruct (item_expand e Hok) as (z & Ez & Hz & Hv). rewrite Hv. cbn [negb]. rewrite Ez. cbn [mbind res_bind].
  rewrite upd_mid by done. cbn [mbind res_bind].
  rewrite (cons_middle z), app_assoc. replace (S (length pre)) with (length (pre ++ [z])) by (rewrite length_app; simpl; lia).
  destruct (IH (pre ++ [z])) as (rs & Ers & Hrs).
  { intros k e' Hk. rewrite length_app. cbn [length]. rewrite <- Nat.add_assoc. by apply (Hes (S k)). }
  exists (z :: rs). split; [by rewrite Ers, <- app_assoc|]. rewrite !fmap_cons. by constructor.
Qed.

Lemma nd_expand_spec D r1 r2 xs ys : box D r1 xs → box D r2 ys → dimensions_ D ≠ [] →
  ∃ r, expand_ndrange D r1 r2 = Ok r ∧ box D r (hull xs ys).
Proof.
  intros H1 H2 Hne. destruct (items_of_boxes D r1 r2 xs ys H1 H2) as (es & He & -> & ->).
  unfold expand_ndrange. rewrite bool_decide_eq_false_2.
  2: { intros ->. pose proof (it_r2 _ _ _ _ He) as E. symmetry in E. apply fmap_nil_inv in E as ->.
       by rewrite (it_dims _ _ _ _ He) in Hne. }
  rewrite (it_num _ _ _ _ He), up_zlen. destruct (expand_loop_spec D r1 es []) as (rs & Ers & Hrs).
  - intros k e Hk. destruct (items_at D r1 r2 es k e He Hk) as (E1 & E2 & _ & Hok). done.
  - rewrite (it_r2 _ _ _ _ He). exists rs. split; [done|]. destruct H1 as [Hn _]. split; [done|].
    by rewrite (it_dims _ _ _ _ He).
Qed.

(** ** Membership *)

(** A cell of a box. *)
Definition cell_in (c : list Z) (bs : list (Z * Z)) : Prop := Forall2 (λ x b, b.1 ≤ x ≤ b.2) c bs.

Definition proper (bs : list (Z * Z)) : Prop := Forall (λ b, b.1 ≤ b.2) bs.

Lemma box_proper D r bs : box D r bs → proper bs ∧ length bs = length (dimensions_ D).
Proof.
  intros [_ H]. induction H as [|dim x b dims r bs (ty & _ & _ & _ & Hb) _ [IH1 IH2]]; [by split; [constructor|]|].
  split; [by constructor|]. simpl. by rewrite IH2.
Qed.

Lemma meets_member xs ys : length xs = length ys → proper xs → proper ys →
  meets xs ys = true ↔ ∃ c, cell_in c xs ∧ cell_in c ys.
Proof.
  revert ys. induction xs as [|x xs IH]; intros [|y ys] El Hx Hy; try done.
  - split; [|done]. intros _. exists []. split; constructor.
  - inversion_clear Hx as [|? ? Px Hx']. inversion_clear Hy as [|? ? Py Hy']. cbn [meets].
    unfold meet1. rewrite !andb_true_iff, !Z.leb_le, (IH ys) by (done || simpl in El; lia). split.
    + intros [[H1 H2] (c & Hcx & Hcy)]. exists (Z.max x.1 y.1 :: c). split; constructor; done || lia.
    + intros (c & Hcx & Hcy). inversion Hcx as [|a ? c' ? Ha Hc']; subst.
      inversion Hcy as [|? ? ? ? Hb Hd']; subst. split; [lia|by exists c'].
Qed.

Lemma covers_member xs ys : length xs = length ys → proper ys →
  covers xs ys = true ↔ ∀ c, cell_in c ys → cell_in c xs.
Proof.
  revert ys. induction xs as [|x xs IH]; intros [|y ys] El Hy; try done.
  inversion_clear Hy as [|? ? Py Hy']. cbn [covers]. unfold cover1.
  rewrite !andb_true_iff, !Z.leb_le, (IH ys) by (done || simpl in El; lia). split.
  - intros [[H1 H2] H] c Hc. inversion Hc as [|a ? c' ? Ha Hc']; subst. constructor; [lia|by apply H].
  - intros H.
    assert (cell_in ys.*1 ys) as Hlow.
    { clear -Hy'. induction Hy'; [constructor|]. rewrite fmap_cons. constructor; [lia|done]. }
    assert (∀ a c, y.1 ≤ a ≤ y.2 → cell_in c ys → x.1 ≤ a ≤ x.2 ∧ cell_in c xs) as H'.
    { intros a c Ha Hc. specialize (H (a :: c) ltac:(by constructor)). by inversion H. }
    split; [|intros c Hc; by apply (H' y.1 c); [lia|]].
    destruct (H' y.1 _ ltac:(lia) Hlow), (H' y.2 _ ltac:(lia) Hlow). lia.
Qed.

(** C28. The overlap of boxes.  On a domain of integer dimensions, with a
    bounding box whose sides have at most [2^53] cells, [overlap_ratio] of a
    range and the box is positive exactly when they have a cell in common, and
    it is [1.0] exactly when every cell of the box is in the range, whatever
    the number of dimensions multiplied. *)
Theorem nd_ratio_classifies D r1 r2 xs ys : box D r1 xs → box D r2 ys → small D ys →
  ∃ x, Domain.overlap_ratio D r1 r2 = Ok x ∧
    (flt F64 0 x = true ↔ ∃ c, cell_in c xs ∧ cell_in c ys) ∧
    (feq F64 x f_one = true ↔ ∀ c, cell_in c ys → cell_in c xs).
Proof.
  intros H1 H2 Hs. destruct (nd_ratio_spec D r1 r2 xs ys H1 H2 Hs) as (x & Ex & Hx). exists x.
  destruct (box_proper D r1 xs H1) as [P1 L1]. destruct (box_proper D r2 ys H2) as [P2 L2].
  rewrite <- meets_member, <- covers_member by (done || congruence). split; [done|].
  destruct (meets xs ys) eqn:Em.
  - destruct Hx as [Hu ->]. destruct (unit64_not_zero x Hu) as [_ ->]. done.
  - subst x. split; [done|]. split; [done|]. intros Hc. exfalso.
    assert (cell_in ys.*1 ys) as Hlow.
    { clear -P2. induction P2; [constructor|]. rewrite fmap_cons. constructor; [lia|done]. }
    assert (meets xs ys = true) as E; [|congruence]. apply meets_member; [congruence|done..|].
    exists ys.*1. split; [|done]. by apply (covers_member xs ys); [congruence|..].
Qed.

(** ** The number of cells *)

Definition box_cells (bs : list (Z * Z)) : Z := foldr (λ b n, (b.2 - b.1 + 1) * n) 1 bs.

Lemma box_cells_pos bs : proper bs → 0 < box_cells bs.
Proof. induction 1; simpl in *; nia. Qed.

Lemma safe_mul_spec a b : 0 < a < 2 ^ 64 → 0 < b < 2 ^ 64 →
  safe_mul a b = Ok (if a * b <? 2 ^ 64 then a * b else u64_max).
Proof.
  intros Ha Hb. unfold safe_mul. rewrite (proj2 (Z.eqb_neq a 0)) by lia.
  destruct (Z.ltb_spec (a * b) (2 ^ 64)) as [H|H].
  - rewrite u64_id by nia. by rewrite Z.mul_comm, Z.div_mul, Z.eqb_refl by lia.
  - rewrite (proj2 (Z.eqb_neq _ b)); [done|]. unfold u64.
    pose proof (Z.div_mod (a * b) (2 ^ 64) ltac:(lia)).
    assert (1 ≤ a * b / 2 ^ 64) by (apply Z.div_le_lower_bound; lia).
    assert ((a * b) mod 2 ^ 64 / a < b); [|lia]. apply Z.div_lt_upper_bound; lia.
Qed.

(** The computation of the differences does not overflow. *)
Definition spans (D : t) (bs : list (Z * Z)) : Prop :=
  Forall2 (λ dim b, ∀ ty, num_of (type_ dim) = Some (NInt ty) →
    in_ctype (promote ty) (b.2 - b.1)) (dimensions_ D) bs.

Lemma side_range dim r b : side dim r b →
  (∀ ty, num_of (type_ dim) = Some (NInt ty) → in_ctype (promote ty) (b.2 - b.1)) →
  domain_range dim r = Ok (Z.min (b.2 - b.1 + 1) u64_max) ∧ 0 ≤ b.2 - b.1 ≤ u64_max.
Proof.
  intros (ty & ET & _ & Hp & Hb) Hs. specialize (Hs ty ET). unfold domain_range, domain_range_func_.
  rewrite ET. cbn [fmap option_fmap option_map call].
  rewrite (domain_range_spec ty r b.1 b.2 Hp Hb Hs).
  assert (0 ≤ b.2 - b.1 ≤ u64_max) by (destruct ty; unfold_ctype; simpl in *; lia).
  split; [|done]. f_equal. destruct (Z.eqb_spec (b.2 - b.1) u64_max); lia.
Qed.

Lemma cell_num_loop_spec D r rs bs : ∀ i0 n dims, 0 < n < u64_max →
  Forall3 side dims rs bs →
  Forall2 (λ dim b, ∀ ty, num_of (type_ dim) = Some (NInt ty) → in_ctype (promote ty) (b.2 - b.1)) dims bs →
  (∀ k dim, dims !! k = Some dim → idx (dimensions_ D) (i0 + k) = Ok dim) →
  (∀ k x, rs !! k = Some x → idx r (i0 + k) = Ok x) →
  cell_num_loop (seq i0 (length dims)) D r n = Ok (Z.min (n * box_cells bs) u64_max).
Proof.
  revert rs. induction bs as [|b bs IH]; intros rs i0 n dims Hn Hb Hs Hd Hr;
    inversion Hb as [|dim x ? dims' rs' ? Hside Hb']; subst; inversion Hs as [|? ? ? ? Hs1 Hs']; subst.
  - simpl. rewrite Z.mul_1_r. f_equal. lia.
  - cbn [length seq cell_num_loop].
    pose proof (Hd 0%nat dim eq_refl) as E1. pose proof (Hr 0%nat x eq_refl) as E2. rewrite Nat.add_0_r in *.
    rewrite E1, E2. cbn [mbind res_bind]. destruct (side_range dim x b Hside Hs1) as [-> Hw]. cbn [mbind res_bind].
    assert (0 < box_cells bs) as Hpos.
    { apply box_cells_pos. clear -Hb'. induction Hb' as [|? ? ? ? ? ? (? & _ & _ & _ & H) _ IH]; by constructor. }
    cbn [box_cells foldr]. fold (box_cells bs). unfold u64_max in *.
    destruct (Z.eqb_spec (Z.min (b.2 - b.1 + 1) (2 ^ 64 - 1)) (2 ^ 64 - 1)) as [E|E].
    + f_equal. rewrite E. symmetry. apply Z.min_r. nia.
    + assert (b.2 - b.1 + 1 < 2 ^ 64 - 1) by lia. rewrite Z.min_l in * by lia. rewrite safe_mul_spec by lia. cbn [mbind res_bind]. unfold u64_max.
      set (w := b.2 - b.1 + 1) in *. destruct (Z.ltb_spec (w * n) (2 ^ 64)) as [Hlt|Hge].
      * destruct (Z.eqb_spec (w * n) (2 ^ 64 - 1)) as [E'|E'].
        -- f_equal. rewrite E'. symmetry. apply Z.min_r. nia.
        -- rewrite (IH rs' (S i0) (w * n) dims'); [do 2 f_equal; lia|nia|done|done|..];
             intros k y Hk; rewrite Nat.add_succ_l, <- Nat.add_succ_r; [by apply Hd|by apply Hr].
      * rewrite Z.eqb_refl. f_equal. symmetry. apply Z.min_r. nia.
Qed.

(** C32. The number of cells of a box.  [cell_num] is the product of the
    numbers of cells along the dimensions, and the largest [uint64_t] when the
    product does not fit: the multiplication never wraps around silently. *)
Theorem cell_num_saturates D r bs : box D r bs → spans D bs → dimensions_ D ≠ [] →
  cell_num D r = Ok (Z.min (box_cells bs) u64_max).
Proof.
  intros [Hn Hb] Hs Hne. unfold cell_num. rewrite bool_decide_eq_false_2.
  2: { intros ->. inversion Hb; congruence. }
  cbn [negb massert mbind res_bind]. rewrite Hn, up_zlen.
  rewrite (cell_num_loop_spec D r r bs 0 1 (dimensions_ D)); [do 2 f_equal; lia|done|done|done|..];
    intros k y Hk; by apply idx_ok.
Qed.

(** ** Concrete boxes *)

Definition grid_domain : t := int_domain I32 INT32 ROW_MAJOR ROW_MAJOR grid_23.

Lemma grid_dims : dimensions_ grid_domain = [int_dim I32 INT32 0 5 2; int_dim I32 INT32 (-3) 8 3].
Proof. by vm_compute. Qed.
Lemma grid_dim_num : dim_num_ grid_domain = 2.
Proof. by vm_compute. Qed.

Definition int_box (bs : list (Z * Z)) : NDRange := (λ b, pair_of (NInt I32) b.1 b.2) <$> bs.

Lemma side_int lo hi ext a b : in_ctype I32 a → in_ctype I32 b → a ≤ b →
  side (int_dim I32 INT32 lo hi ext) (pair_of (NInt I32) a b) (a, b).
Proof. intros. exists I32. by split_and!; [..|apply pair_of_is|]. Qed.

Lemma int_box_box a b c d : in_ctype I32 a → in_ctype I32 b → in_ctype I32 c → in_ctype I32 d →
  a ≤ b → c ≤ d → box grid_domain (int_box [(a, b); (c, d)]) [(a, b); (c, d)].
Proof.
  intros. unfold box. rewrite grid_dims, grid_dim_num. split; [done|].
  constructor; [by apply side_int|]. constructor; [by apply side_int|constructor].
Qed.

Lemma nd_ratio_classifies_witness :
  ∃ x, Domain.overlap_ratio grid_domain (int_box [(0, 3); (-1, 4)]) (int_box [(2, 4); (0, 2)]) = Ok x.
Proof.
  destruct (nd_ratio_classifies grid_domain (int_box [(0, 3); (-1, 4)]) (int_box [(2, 4); (0, 2)])
    [(0, 3); (-1, 4)] [(2, 4); (0, 2)]) as (x & E & _);
    [by apply int_box_box..| |by exists x].
  unfold small. rewrite grid_dims.
  constructor; [|constructor; [|constructor]]; intros ty [= <-]; by vm_compute.
Defined.

Lemma cell_num_saturates_witness : cell_num grid_domain (int_box [(0, 3); (-1, 4)]) = Ok 24.
Proof.
  transitivity (Ok (Z.min (box_cells [(0, 3); (-1, 4)]) u64_max)); [|by vm_compute].
  apply cell_num_saturates; [by apply int_box_box| |by rewrite grid_dims].
  unfold spans. rewrite grid_dims.
  constructor; [|constructor; [|constructor]]; intros ty [= <-]; by vm_compute.
Defined.
