(* ===== verification/Attribute.v ===== *)
(** * Attribute (array_schema/attribute.cc) and the stored form of a domain

    An attribute of an array, and [serialize] and [deserialize] of [Attribute]
    and of [Domain] (array_schema/domain.cc), with their round trips. *)

From S2P Require Import Prelude.
From S2P Require Import Enums.
From S2P Require Import Num.
From S2P Require Import Range.
From S2P Require Import ConstBuffer.
From S2P Require Import Buffer.
From S2P Require Import Filter.
From S2P Require Import Loops.
From S2P Require Import Dimension.
From S2P Require Import DimensionSerial.
From S2P Require Import Domain.
Local Open Scope Z_scope.

(** ** The attribute *)

Module Attribute.

Record t : Type := mk {
  name_ : list Z;
  type_ : Datatype;
  cell_val_num_ : Z;
  filters_ : FilterPipeline
}.

(** [Attribute(name, type)]. *)
Definition make (name : list Z) (type : Datatype) : t :=
  mk name type (if decide (type = ANY) then var_num else 1) empty_pipeline.

(** [Attribute(const Attribute* attr)]. *)
Definition copy (a : t) : res t :=
  p ← copy_pipeline (filters_ a);
  Ok (mk (name_ a) (type_ a) (cell_val_num_ a) p).

Definition var_size (a : t) : bool := cell_val_num_ a =? var_num.

(** [constants::var_size]. *)
Definition var_cell_size : Z := u64_max.

Definition cell_size (a : t) : Z :=
  if var_size a then var_cell_size else u64 (cell_val_num_ a * datatype_size (type_ a)).

Definition set_cell_val_num (n : Z) : M t unit := fun a =>
  if decide (type_ a = ANY) then
    (Err SC_Attribute "Cannot set number of values per cell; Attribute datatype `ANY` is always variable-sized", a)
  else (Ok (), mk (name_ a) (type_ a) n (filters_ a)).

(** [set_filter_pipeline(pipeline)], [None] a null pointer. *)
Definition set_filter_pipeline (p : option FilterPipeline) : M t unit := fun a =>
  match p with
  | None => (Err SC_Attribute "Cannot set filter pipeline to attribute; Pipeline cannot be null", a)
  | Some p =>
      if datatype_is_real (type_ a) &&
         existsb (λ f, bool_decide (type f = FILTER_DOUBLE_DELTA)) (Filter.filters_ p)
      then (Err SC_Attribute "Cannot set DOUBLE DELTA filter to a dimension with a real datatype", a)
      else match copy_pipeline p with
      | Ok q => (Ok (), mk (name_ a) (type_ a) (cell_val_num_ a) q)
      | Err c e => (Err c e, a)
      | UB => (UB, a)
      end
  end.

Definition set_name (name : list Z) (a : t) : t := mk name (type_ a) (cell_val_num_ a) (filters_ a).

Definition serialize `{Allocator} (a : t) : M Buffer.t unit :=
  let n := conv U32 (zlen (name_ a)) in
  write_val U32 n;;
  Buffer.write (slice 0 n (name_ a));;
  write_val U8 (datatype_code (type_ a));;
  write_val U32 (cell_val_num_ a);;
  serialize_pipeline (filters_ a).

(** [filters_.deserialize(buff)]. *)
Definition load_filters : M (ConstBuffer.t * t) unit := fun '(b, a) =>
  let '(r, (b', p)) := deserialize_pipeline (b, filters_ a) in
  (r, (b', mk (name_ a) (type_ a) (cell_val_num_ a) p)).

(** A code that names no datatype is outside of the model. *)
Definition load_type : M (ConstBuffer.t * t) unit :=
  c ← on_fst (read_val U8);
  match datatype_of_code c with
  | Some ty => on_snd (fun a => (Ok (), mk (name_ a) ty (cell_val_num_ a) (filters_ a)))
  | None => lift UB
  end.

Definition deserialize : M (ConstBuffer.t * t) unit :=
  n ← on_fst (read_val U32);
  on_snd (fun a => (Ok (), set_name (resize n (name_ a)) a));;
  name ← on_fst (ConstBuffer.read n);
  on_snd (fun a => (Ok (), set_name name a));;
  load_type;;
  c ← on_fst (read_val U32);
  on_snd (fun a => (Ok (), mk (name_ a) (type_ a) c (filters_ a)));;
  load_filters.

(** ** Round trip of attributes *)

Record storable (a : t) : Prop := {
  st_name : zlen (name_ a) < 2 ^ 32;
  st_name_bytes : Forall byte_ok (name_ a);
  st_cell_val_num : in_ctype U32 (cell_val_num_ a);
  st_filters : Forall filter_ok (Filter.filters_ (filters_ a)) ∧
               in_ctype U32 (max_chunk_size_ (filters_ a)) ∧
               zlen (Filter.filters_ (filters_ a)) < 2 ^ 32
}.

Definition enc (a : t) : list Z :=
  to_bytes U32 (zlen (name_ a)) ++ name_ a ++ to_bytes U8 (datatype_code (type_ a)) ++
  to_bytes U32 (cell_val_num_ a) ++ enc_pipeline (filters_ a).

Definition stored (a : t) : t := mk (name_ a) (type_ a) (cell_val_num_ a) (stored_pipeline (filters_ a)).

Lemma attr_serialize_appends `{!Allocator} a : storable a → appends (serialize a) (enc a).
Proof.
  intros [Hn Hnb Hc (Hf1 & Hf2 & Hf3)]. pose proof (zlen_nonneg (name_ a)). unfold serialize, enc.
  rewrite conv_id by (unfold_ctype; simpl; lia). rewrite slice_all.
  apply appends_seq; [apply appends_val|]. apply appends_seq; [by apply appends_write|].
  apply appends_seq; [apply appends_val|]. apply appends_seq; [apply appends_val|].
  by apply serialize_pipeline_appends.
Qed.

Lemma attr_deserialize_spec a b rest : storable a → ConstBuffer.wf b → ConstBuffer.view b = enc a ++ rest →
  ∃ b', deserialize (b, make [] CHAR) = (Ok (), (b', stored a)) ∧ ConstBuffer.wf b' ∧ ConstBuffer.view b' = rest.
Proof.
  intros [Hn Hnb Hc (Hf1 & Hf2 & Hf3)] Hwf Hv. pose proof (zlen_nonneg (name_ a)).
  unfold enc in Hv. rewrite <- !app_assoc in Hv. unfold deserialize.
  assert (in_ctype U32 (zlen (name_ a))) as Hin by (unfold_ctype; simpl; lia).
  destruct (on_fst_parses _ _ _ b _ (parses_val U32 _ Hin) Hwf Hv) as (b1 & W1 & V1 & ->).
  erewrite on_snd_ok by done.
  destruct (on_fst_parses _ _ _ b1 _ (parses_read (name_ a) _ eq_refl) W1 V1) as (b2 & W2 & V2 & ->).
  erewrite on_snd_ok by done. unfold load_type.
  destruct (on_fst_parses _ _ _ b2 _ (parses_val U8 _ (datatype_code_byte (type_ a))) W2 V2) as (b3 & W3 & V3 & E3).
  erewrite M_step by (rewrite E3, datatype_of_code_code; done).
  destruct (on_fst_parses _ _ _ b3 _ (parses_val U32 _ Hc) W3 V3) as (b4 & W4 & V4 & ->).
  erewrite on_snd_ok by done.
  destruct (deserialize_pipeline_spec (filters_ a) b4 rest empty_pipeline Hf1 Hf2 Hf3 W4 V4) as (b5 & E5 & W5 & V5).
  exists b5. split; [|done]. unfold load_filters. cbn [filters_ make set_name]. rewrite E5. done.
Qed.

Lemma zlen_enc a : storable a → zlen (enc a) ≤ 12 * 2 ^ 32.
Proof.
  intros [Hn _ _ (_ & _ & Hf)]. unfold enc. pose proof (zlen_enc_pipeline (filters_ a)).
  rewrite !zlen_app, !zlen_to_bytes. cbn [csize]. lia.
Qed.

End Attribute.

(** ** The stored form of a domain *)

Module DomainSerial.

Definition serialize `{Allocator} (version : Z) (D : Domain.t) : M Buffer.t unit :=
  write_val U32 (dim_num_ D);;
  write_many (Dimension.serialize version) (dimensions_ D).

(** The loop over the dimensions: the status of [dim->deserialize] is ignored. *)
Fixpoint load_dims (version : Z) (type : Datatype) (n : nat) : M (ConstBuffer.t * Domain.t) unit :=
  match n with
  | O => mret ()
  | S n => λ '(b, D),
      match Dimension.deserialize version type (b, Dimension.make [] INT32) with
      | (UB, (b', _)) => (UB, (b', D))
      | (_, (b', dim)) => load_dims version type n (b', with_dimensions D (dimensions_ D ++ [dim]) (dim_num_ D))
      end
  end.

(** A code that names no datatype is outside of the model. *)
Definition old_type : M ConstBuffer.t Datatype :=
  c ← read_val U8;
  match datatype_of_code c with Some ty => mret ty | None => lift UB end.

Definition deserialize (version : Z) : M (ConstBuffer.t * Domain.t) unit :=
  type ← (if version <? 5 then on_fst old_type else mret INT32);
  n ← on_fst (read_val U32);
  on_snd (fun D => (Ok (), with_dimensions D (dimensions_ D) n));;
  load_dims version type (Z.to_nat n);;
  on_snd (fun D => match set_tile_cell_order_cmp_funcs D with
                   | Ok D' => (Ok (), D')
                   | Err c e => (Err c e, D)
                   | UB => (UB, D)
                   end).

Definition enc (D : Domain.t) : list Z := to_bytes U32 (dim_num_ D) ++ concat (enc_dim <$> dimensions_ D).

(** A domain whose number of dimensions is right. *)
Record storable (D : Domain.t) : Prop := {
  st_dims : Forall DimensionSerial.storable (dimensions_ D);
  st_num : dim_num_ D = zlen (dimensions_ D);
  st_num_bound : zlen (dimensions_ D) < 2 ^ 24
}.

Lemma dom_serialize_appends `{!Allocator} version D : 5 ≤ version → storable D → appends (serialize version D) (enc D).
Proof.
  intros Hv [Hd _ _]. unfold serialize, enc. apply appends_seq; [apply appends_val|]. apply appends_many.
  intros d Hin. apply dim_serialize_appends; [done|]. by eapply Forall_forall.
Qed.

Lemma load_dims_spec version ty ds : 5 ≤ version → Forall DimensionSerial.storable ds → ∀ b rest D,
  ConstBuffer.wf b → ConstBuffer.view b = concat (enc_dim <$> ds) ++ rest →
  ∃ b', load_dims version ty (length ds) (b, D) =
    (Ok (), (b', with_dimensions D (dimensions_ D ++ (DimensionSerial.stored <$> ds)) (dim_num_ D))) ∧
    ConstBuffer.wf b' ∧ ConstBuffer.view b' = rest.
Proof.
  intros Hv. induction 1 as [|d ds Hd _ IH]; intros b rest D Hwf Hb.
  - exists b. rewrite app_nil_r. by destruct D.
  - rewrite fmap_cons in Hb. cbn [concat] in Hb. rewrite <- app_assoc in Hb. simpl length. simpl load_dims.
    destruct (deserialize_spec version ty d b _ Hv Hd Hwf Hb) as (b1 & d' & -> & W1 & V1 & ->).
    destruct (IH b1 rest (with_dimensions D (dimensions_ D ++ [DimensionSerial.stored d]) (dim_num_ D)) W1 V1) as (b2 & -> & W2 & V2).
    exists b2. split; [|done]. simpl. by rewrite <- app_assoc.
Qed.

(** What is read back: the dimensions, with the comparison functions set. *)
Definition stored (D : Domain.t) : res Domain.t :=
  set_tile_cell_order_cmp_funcs (with_dimensions Domain.empty (DimensionSerial.stored <$> dimensions_ D) (dim_num_ D)).

Lemma stored_ok D : storable D → ∃ D', stored D = Ok D' ∧ dimensions_ D' = DimensionSerial.stored <$> dimensions_ D ∧
  dim_num_ D' = dim_num_ D.
Proof.
  intros [_ Hn _]. unfold stored, set_tile_cell_order_cmp_funcs. cbn [dim_num_ dimensions_ with_dimensions].
  rewrite (mapM_up (DimensionSerial.stored <$> dimensions_ D) _ type_); [by eexists| |].
  - rewrite Hn. unfold zlen. by rewrite length_fmap.
  - intros i d Hd. by rewrite (idx_ok _ _ _ Hd).
Qed.

Lemma dom_deserialize_spec version D b rest : 5 ≤ version → storable D → ConstBuffer.wf b → ConstBuffer.view b = enc D ++ rest →
  ∃ b' D', deserialize version (b, Domain.empty) = (Ok (), (b', D')) ∧ stored D = Ok D' ∧
    ConstBuffer.wf b' ∧ ConstBuffer.view b' = rest.
Proof.
  intros Hver HD Hwf Hv. destruct (stored_ok D HD) as (D' & ED & _). destruct HD as [Hd Hn Hb].
  unfold enc in Hv. rewrite <- app_assoc in Hv. unfold deserialize. rewrite (proj2 (Z.ltb_ge version 5)) by done.
  erewrite M_step by done. pose proof (zlen_nonneg (dimensions_ D)).
  assert (in_ctype U32 (dim_num_ D)) as Hin by (unfold_ctype; simpl; lia).
  destruct (on_fst_parses _ _ _ b _ (parses_val U32 _ Hin) Hwf Hv) as (b1 & W1 & V1 & ->).
  erewrite on_snd_ok by done.
  destruct (load_dims_spec version INT32 (dimensions_ D) Hver Hd b1 rest (with_dimensions Domain.empty [] (dim_num_ D)) W1 V1)
    as (b2 & E2 & W2 & V2).
  replace (Z.to_nat (dim_num_ D)) with (length (dimensions_ D)) by (unfold zlen in *; lia).
  erewrite M_step by exact E2. exists b2, D'. split; [|done]. unfold on_snd.
  change (set_tile_cell_order_cmp_funcs _) with (stored D). by rewrite ED.
Qed.

Lemma zlen_dom_enc D : storable D → zlen (enc D) ≤ 2 ^ 61.
Proof.
  intros [Hd _ Hb]. unfold enc. rewrite zlen_app, zlen_to_bytes. cbn [csize].
  assert (zlen (concat (enc_dim <$> dimensions_ D)) ≤ zlen (dimensions_ D) * (2 ^ 32 + 10 * 2 ^ 32 + 100)); [|lia].
  clear Hb. induction Hd as [|d ds Hd _ IH]; [done|]. rewrite fmap_cons. cbn [concat]. rewrite zlen_app, zlen_cons.
  pose proof (zlen_enc_dim d Hd). lia.
Qed.

End DomainSerial.
