(* ===== verification/ArraySchema.v ===== *)
(** * Array schemas (array_schema/array_schema.cc)

    The dimensions and attributes of an array, with the orders of its cells and
    tiles.  The pointers of [attribute_map_] and [dim_map_] are the positions of
    the objects in [attributes_] and in the dimensions of [domain_]. *)

From stdpp Require Import gmap.
From S2P Require Import Prelude.
From S2P Require Import Enums.
From S2P Require Import Strings.
From S2P Require Import Num.
From S2P Require Import Range.
From S2P Require Import ConstBuffer.
From S2P Require Import Buffer.
From S2P Require Import Filter.
From S2P Require Import Loops.
From S2P Require Import Dimension.
From S2P Require Import DimensionSerial.
From S2P Require Import Domain.
From S2P Require Import Attribute.
Local Open Scope Z_scope.

(** [constants::coords], [constants::special_name_prefix], [constants::capacity]. *)
Definition coords : list Z := lit "__coords".
Definition special_name_prefix : list Z := lit "__".
Definition default_capacity : Z := 10000.
Definition format_version : Z := 5.

Record t : Type := mk {
  allows_dups_ : bool;
  array_uri_ : list Z;
  array_type_ : ArrayType;
  attribute_map_ : gmap (list Z) nat;
  attributes_ : list Attribute.t;
  capacity_ : Z;
  cell_order_ : Layout;
  cell_var_offsets_filters_ : FilterPipeline;
  coords_filters_ : FilterPipeline;
  dim_map_ : gmap (list Z) nat;
  domain_ : option Domain.t;
  tile_order_ : Layout;
  version_ : Z
}.

(** The pipeline of one ZSTD filter at the default level. *)
Definition zstd_pipeline : FilterPipeline :=
  mkPipeline [CompressionFilter FILTER_ZSTD (compressor_code COMP_ZSTD) (-1)] (max_chunk_size_ empty_pipeline).

(** [ArraySchema(array_type)]. *)
Definition make (array_type : ArrayType) : t :=
  mk false [] array_type ∅ [] default_capacity ROW_MAJOR zstd_pipeline zstd_pipeline ∅ None ROW_MAJOR format_version.

(** ** Setters *)

Definition with_attributes (s : t) (m : gmap (list Z) nat) (l : list Attribute.t) : t :=
  mk (allows_dups_ s) (array_uri_ s) (array_type_ s) m l (capacity_ s) (cell_order_ s) (cell_var_offsets_filters_ s)
     (coords_filters_ s) (dim_map_ s) (domain_ s) (tile_order_ s) (version_ s).
Definition with_domain (s : t) (m : gmap (list Z) nat) (D : option Domain.t) : t :=
  mk (allows_dups_ s) (array_uri_ s) (array_type_ s) (attribute_map_ s) (attributes_ s) (capacity_ s) (cell_order_ s)
     (cell_var_offsets_filters_ s) (coords_filters_ s) m D (tile_order_ s) (version_ s).
Definition with_filters (s : t) (offsets coords : FilterPipeline) : t :=
  mk (allows_dups_ s) (array_uri_ s) (array_type_ s) (attribute_map_ s) (attributes_ s) (capacity_ s) (cell_order_ s)
     offsets coords (dim_map_ s) (domain_ s) (tile_order_ s) (version_ s).
Definition with_header (s : t) (version : Z) (dups : bool) (ty : ArrayType) (tile cell : Layout) (capacity : Z) : t :=
  mk dups (array_uri_ s) ty (attribute_map_ s) (attributes_ s) capacity cell (cell_var_offsets_filters_ s)
     (coords_filters_ s) (dim_map_ s) (domain_ s) tile version.

Definition set_allows_dups (allows_dups : bool) : M t unit := fun s =>
  if allows_dups && bool_decide (array_type_ s = DENSE) then
    (Err SC_ArraySchema "Dense arrays cannot allow coordinate duplicates", s)
  else (Ok (), with_header s (version_ s) allows_dups (array_type_ s) (tile_order_ s) (cell_order_ s) (capacity_ s)).

Definition set_array_uri (uri : list Z) (s : t) : t :=
  mk (allows_dups_ s) uri (array_type_ s) (attribute_map_ s) (attributes_ s) (capacity_ s) (cell_order_ s)
     (cell_var_offsets_filters_ s) (coords_filters_ s) (dim_map_ s) (domain_ s) (tile_order_ s) (version_ s).
Definition set_capacity (n : Z) (s : t) : t :=
  with_header s (version_ s) (allows_dups_ s) (array_type_ s) (tile_order_ s) (cell_order_ s) n.
Definition set_cell_order (l : Layout) (s : t) : t :=
  with_header s (version_ s) (allows_dups_ s) (array_type_ s) (tile_order_ s) l (capacity_ s).
Definition set_tile_order (l : Layout) (s : t) : t :=
  with_header s (version_ s) (allows_dups_ s) (array_type_ s) l (cell_order_ s) (capacity_ s).
Definition set_version (v : Z) (s : t) : t :=
  with_header s v (allows_dups_ s) (array_type_ s) (tile_order_ s) (cell_order_ s) (capacity_ s).

Definition set_coords_filter_pipeline (p : FilterPipeline) : M t unit := fun s =>
  match copy_pipeline p with
  | Ok q => (Ok (), with_filters s (cell_var_offsets_filters_ s) q)
  | Err c e => (Err c e, s)
  | UB => (UB, s)
  end.
Definition set_cell_var_offsets_filter_pipeline (p : FilterPipeline) : M t unit := fun s =>
  match copy_pipeline p with
  | Ok q => (Ok (), with_filters s q (coords_filters_ s))
  | Err c e => (Err c e, s)
  | UB => (UB, s)
  end.

(** ** Lookup *)

Definition attribute_num (s : t) : Z := conv U32 (zlen (attributes_ s)).
Definition attribute_at (s : t) (id : nat) : option Attribute.t := attributes_ s !! id.
(** [attribute(name)]: the object that the map points to. *)
Definition attribute (s : t) (name : list Z) : option Attribute.t :=
  i ← attribute_map_ s !! name; attributes_ s !! i.

Definition dense (s : t) : bool := bool_decide (array_type_ s = DENSE).

(** [domain_] is dereferenced. *)
Definition domain (s : t) : res Domain.t := match domain_ s with Some D => Ok D | None => UB end.
Definition dim_num (s : t) : res Z := D ← domain s; Ok (dim_num_ D).
Definition dimension_at (s : t) (i : nat) : res Dimension.t :=
  D ← domain s; o ← Domain.dimension D i;
  match o with Some d => Ok d | None => UB end.

Definition dimension (s : t) (name : list Z) : option Dimension.t :=
  i ← dim_map_ s !! name; D ← domain_ s; dimensions_ D !! i.

Definition is_attr (s : t) (name : list Z) : bool := match attribute s name with Some _ => true | None => false end.
Definition is_dim (s : t) (name : list Z) : bool := match dimension s name with Some _ => true | None => false end.

Definition has_attribute (s : t) (name : list Z) : bool :=
  existsb (λ a, bool_decide (name = Attribute.name_ a)) (attributes_ s).

(** [it->second] of [attribute_map_.find(name)], then of [dim_map_.find(name)]. *)
Definition member {A} (s : t) (name : list Z) (f : Attribute.t → A) (g : Dimension.t → A) : res A :=
  match attribute s name with
  | Some a => Ok (f a)
  | None => match dimension s name with Some d => Ok (g d) | None => UB end
  end.

Definition cell_size (s : t) (name : list Z) : res Z :=
  if bool_decide (name = coords) then
    n ← dim_num s;
    massert (0 <? n);;
    d ← dimension_at s 0;
    Ok (u64 (n * coord_size d))
  else member s name Attribute.cell_size
    (λ d, if cell_val_num_ d =? var_num then Attribute.var_cell_size else u64 (cell_val_num_ d * datatype_size (type_ d))).

Definition cell_val_num (s : t) (name : list Z) : res Z :=
  if bool_decide (name = coords) then Ok 1 else member s name Attribute.cell_val_num_ cell_val_num_.

Definition type (s : t) (name : list Z) : res Datatype :=
  if bool_decide (name = coords) then d ← dimension_at s 0; Ok (type_ d) else member s name Attribute.type_ type_.

Definition var_size (s : t) (name : list Z) : res bool :=
  if bool_decide (name = coords) then Ok false else member s name Attribute.var_size Dimension.var_size.

Definition filters (s : t) (name : list Z) : res FilterPipeline :=
  if bool_decide (name = coords) then Ok (coords_filters_ s)
  else member s name Attribute.filters_
    (λ d, if bool_decide (Filter.filters_ (filters_ d) = []) then coords_filters_ s else filters_ d).

(** ** Checks *)

Definition check_attributes (s : t) (names : list (list Z)) : res unit :=
  if forallb (λ n, bool_decide (n = coords) || bool_decide (is_Some (attribute_map_ s !! n))) names then Ok ()
  else Err SC_ArraySchema "Attribute check failed; cannot find attribute".

Definition dim_names (D : Domain.t) : res (list (list Z)) :=
  mapM (λ i, d ← idx (dimensions_ D) i; Ok (name_ d)) (up (dim_num_ D)).

(** The size of a [std::set] of the names. *)
Definition check_attribute_dimension_names (s : t) : res bool :=
  D ← domain s;
  names ← dim_names D;
  let all : gset (list Z) := list_to_set ((Attribute.name_ <$> attributes_ s) ++ names) in
  Ok (Z.of_nat (size all) =? u64 (zlen (attributes_ s) + dim_num_ D)).

Definition check_double_delta_compressor (s : t) : res unit :=
  if negb (existsb (λ f, bool_decide (Filter.type f = FILTER_DOUBLE_DELTA)) (Filter.filters_ (coords_filters_ s))) then Ok ()
  else
    D ← domain s;
    bad ← any_of (up (dim_num_ D)) (λ i, d ← idx (dimensions_ D) i;
            Ok (datatype_is_real (type_ d) && bool_decide (Filter.filters_ (filters_ d) = [])));
    if bad : bool then
      Err SC_ArraySchema "Real dimension cannot inherit coordinate filters with DOUBLE DELTA compression"
    else Ok ().

Definition check (s : t) : res unit :=
  match domain_ s with
  | None => Err SC_ArraySchema "Array schema check failed; Domain not set"
  | Some D =>
      if dim_num_ D =? 0 then Err SC_ArraySchema "Array schema check failed; No dimensions provided"
      else
        _ ← (if dense s then
               d ← dimension_at s 0;
               if datatype_is_real (type_ d) then
                 Err SC_ArraySchema "Array schema check failed; Dense arrays cannot have floating point domains"
               else if bool_decide (attributes_ s = []) then
                 Err SC_ArraySchema "Array schema check failed; No attributes provided"
               else Ok ()
             else Ok ());
        _ ← check_double_delta_compressor s;
        ok ← check_attribute_dimension_names s;
        if ok : bool then Ok ()
        else Err SC_ArraySchema "Array schema check failed; Attributes and dimensions must have unique names"
  end.

(** [init]: [check], then [domain_->init]. *)
Definition init : M t unit := fun s =>
  match check s with
  | Err c e => (Err c e, s)
  | UB => (UB, s)
  | Ok _ =>
      match domain_ s with
      | None => (UB, s)
      | Some D => let '(r, D') := Domain.init (cell_order_ s) (tile_order_ s) D in (r, with_domain s (dim_map_ s) (Some D'))
      end
  end.

(** ** Building a schema *)

(** [add_attribute(attr, check_special)], [None] a null pointer. *)
Definition add_attribute (attr : option Attribute.t) (check_special : bool) : M t unit := fun s =>
  match attr with
  | None => (Err SC_ArraySchema "Cannot add attribute; Input attribute is null", s)
  | Some a =>
      if check_special && starts_with (Attribute.name_ a) special_name_prefix then
        (Err SC_ArraySchema "Cannot add attribute; Attribute names starting with '__' are reserved", s)
      else match Attribute.copy a with
      | Ok a' => (Ok (), with_attributes s (<[Attribute.name_ a' := length (attributes_ s)]> (attribute_map_ s)) (attributes_ s ++ [a']))
      | Err c e => (Err c e, s)
      | UB => (UB, s)
      end
  end.

(** [dim_map_[dim->name()] = dim] for the dimensions in order. *)
Definition add_dims (D : Domain.t) (m : gmap (list Z) nat) : res (gmap (list Z) nat) :=
  for_each (up (dim_num_ D)) (λ i m, d ← idx (dimensions_ D) i; Ok (<[name_ d := i]> m)) m.

(** [set_domain(domain)]; the domain that the pointer designates may be changed. *)
Definition set_domain : M (t * option Domain.t) unit := fun '(s, p) =>
  match p with
  | None => (Err SC_ArraySchema "Cannot set domain; Input domain is nullptr", (s, p))
  | Some D =>
      if dim_num_ D =? 0 then
        (Err SC_ArraySchema "Cannot set domain; Domain must contain at least one dimension", (s, p))
      else
        let '(st, D') :=
          if dense s then
            match all_dims_same_type D with
            | Ok true =>
                match dimensions_ D with
                | [] => (UB, D)
                | d0 :: _ =>
                    if negb (datatype_is_integer (type_ d0)) && negb (datatype_is_datetime (type_ d0)) then
                      (Err SC_ArraySchema ("Cannot set domain; Dense arrays do not support dimension datatype '" +:+
                         datatype_str (type_ d0) +:+ "'"), D)
                    else set_null_tile_extents_to_range D
                end
            | Ok false => (Err SC_ArraySchema "Cannot set domain; In dense arrays, all dimensions must have the same datatype", D)
            | _ => (UB, D)
            end
          else (Ok (), D) in
        match st with
        | Ok _ =>
            match (C ← copy_domain D'; m ← add_dims C ∅; Ok (C, m)) with
            | Ok (C, m) => (Ok (), (with_domain s m (Some C), Some D'))
            | Err c e => (Err c e, (s, Some D'))
            | UB => (UB, (s, Some D'))
            end
        | Err c e => (Err c e, (s, Some D'))
        | UB => (UB, (s, Some D'))
        end
  end.

(** [ArraySchema(const ArraySchema* array_schema)]. *)
Definition copy (s : t) : res t :=
  offsets ← copy_pipeline (cell_var_offsets_filters_ s);
  cs ← copy_pipeline (coords_filters_ s);
  let s0 := mk (allows_dups_ s) (array_uri_ s) (array_type_ s) ∅ [] (capacity_ s) (cell_order_ s) offsets cs ∅ None
              (tile_order_ s) (version_ s) in
  let '(r, (s1, _)) := set_domain (s0, domain_ s) in
  match r with
  | UB => UB
  | _ => foldl (λ r a, s ← r; match add_attribute (Some a) false s with (UB, _) => UB | (_, s') => Ok s' end)
           (Ok s1) (attributes_ s)
  end.

(** ** The stored form *)

Definition serialize `{Allocator} (s : t) : M Buffer.t unit :=
  write_val U32 (version_ s);;
  write_val U8 (if allows_dups_ s then 1 else 0);;
  write_val U8 (array_type_code (array_type_ s));;
  write_val U8 (layout_code (tile_order_ s));;
  write_val U8 (layout_code (cell_order_ s));;
  write_val U64 (capacity_ s);;
  serialize_pipeline (coords_filters_ s);;
  serialize_pipeline (cell_var_offsets_filters_ s);;
  (D ← lift (domain s); DomainSerial.serialize (version_ s) D);;
  write_val U32 (conv U32 (zlen (attributes_ s)));;
  write_many Attribute.serialize (attributes_ s).

(** The cast of a byte to an enumeration; one that is no enumerator is outside of
    the model. *)
Definition cast {A} (o : option A) : res A := match o with Some a => Ok a | None => UB end.

(** [RETURN_NOT_OK(buff->read(&member, ...))]. *)
Definition load {A} (m : M ConstBuffer.t A) (set : A → t → t) : M (ConstBuffer.t * t) unit :=
  a ← on_fst m; on_snd (fun s => (Ok (), set a s)).

Definition read_enum {A} (of_code : Z → option A) : M ConstBuffer.t A := c ← read_val U8; lift (cast (of_code c)).

Definition load_coords_filters : M (ConstBuffer.t * t) unit := fun '(b, s) =>
  let '(r, (b', p)) := deserialize_pipeline (b, coords_filters_ s) in
  (r, (b', with_filters s (cell_var_offsets_filters_ s) p)).
Definition load_offsets_filters : M (ConstBuffer.t * t) unit := fun '(b, s) =>
  let '(r, (b', p)) := deserialize_pipeline (b, cell_var_offsets_filters_ s) in
  (r, (b', with_filters s p (coords_filters_ s))).

(** [domain_ = new Domain()] and [domain_->deserialize(buff, version_)]. *)
Definition load_domain : M (ConstBuffer.t * t) unit := fun '(b, s) =>
  let '(r, (b', D)) := DomainSerial.deserialize (version_ s) (b, Domain.empty) in
  (r, (b', with_domain s (dim_map_ s) (Some D))).

Definition push_attribute (a : Attribute.t) (s : t) : t :=
  with_attributes s (<[Attribute.name_ a := length (attributes_ s)]> (attribute_map_ s)) (attributes_ s ++ [a]).

Fixpoint load_attributes (n : nat) : M (ConstBuffer.t * t) unit :=
  match n with
  | O => mret ()
  | S n => λ '(b, s),
      match Attribute.deserialize (b, Attribute.make [] CHAR) with
      | (Ok _, (b', a)) => load_attributes n (b', push_attribute a s)
      | (Err c e, (b', _)) => (Err c e, (b', s))
      | (UB, (b', _)) => (UB, (b', s))
      end
  end.

Definition load_dim_map : M t unit := fun s =>
  match (D ← domain s; add_dims D (dim_map_ s)) with
  | Ok m => (Ok (), with_domain s m (domain_ s))
  | Err c e => (Err c e, s)
  | UB => (UB, s)
  end.

Definition deserialize : M (ConstBuffer.t * t) unit :=
  load (read_val U32) set_version;;
  '(_, s) ← get;
  (if 5 <=? version_ s then
     load (read_val U8) (λ c s, with_header s (version_ s) (negb (c =? 0)) (array_type_ s) (tile_order_ s) (cell_order_ s) (capacity_ s))
   else mret ());;
  load (read_enum array_type_of_code)
    (λ ty s, with_header s (version_ s) (allows_dups_ s) ty (tile_order_ s) (cell_order_ s) (capacity_ s));;
  load (read_enum layout_of_code) set_tile_order;;
  load (read_enum layout_of_code) set_cell_order;;
  load (read_val U64) set_capacity;;
  load_coords_filters;;
  load_offsets_filters;;
  load_domain;;
  attribute_num ← on_fst (read_val U32);
  load_attributes (Z.to_nat attribute_num);;
  on_snd load_dim_map;;
  on_snd init.
