(* ===== verification/ArraySchemaProofs.v ===== *)
(** * Array schemas: lookup and round trip (array_schema/array_schema.cc) *)

From stdpp Require Import gmap.
From S2P Require Import Prelude.
From S2P Require Import Enums.
From S2P Require Import Strings.
From S2P Require Import Num.
From S2P Require Import Range.
From S2P Require Import ConstBuffer.
From S2P Require Import Buffer.
From S2P Require Import Filter.
From S2P Require Import Loops.
From S2P Require Import Dimension.
From S2P Require Import DimensionSerial.
From S2P Require Import Domain.
From S2P Require Import Attribute.
From S2P Require Import ArraySchema.
Local Open Scope Z_scope.

(** ** The maps *)

(** [m] points to the last object of each name. *)
Definition indexed (m : gmap (list Z) nat) (names : list (list Z)) : Prop := ∀ n i,
  m !! n = Some i ↔ names !! i = Some n ∧ ∀ j, names !! j = Some n → (j ≤ i)%nat.

Lemma indexed_empty : indexed ∅ [].
Proof. intros n i. rewrite lookup_empty. split; [done|]. intros [? _]. done. Qed.

Lemma indexed_push m names n : indexed m names → indexed (<[n := length names]> m) (names ++ [n]).
Proof.
  intros H k i. destruct (decide (k = n)) as [->|Hne].
  - rewrite lookup_insert_eq. split.
    + intros [= <-]. split; [by rewrite lookup_app_r, Nat.sub_diag by done|].
      intros j Hj%lookup_lt_Some. rewrite length_app in Hj. simpl in Hj. lia.
    + intros [Hi Hm]. f_equal. apply lookup_lt_Some in Hi. rewrite length_app in Hi. simpl in Hi.
      specialize (Hm (length names)). rewrite lookup_app_r, Nat.sub_diag in Hm by done. specialize (Hm eq_refl). lia.
  - rewrite lookup_insert_ne by done. rewrite (H k i).
    assert (∀ j, (names ++ [n]) !! j = Some k ↔ names !! j = Some k) as Hl.
    { intros j. rewrite lookup_snoc_Some. split; [intros [[_ ?]|[_ ?]]; congruence|].
      intros Hj. left. split; [by eapply lookup_lt_Some|done]. }
    rewrite Hl. setoid_rewrite Hl. done.
Qed.

Lemma indexed_None m names n : indexed m names → m !! n = None ↔ n ∉ names.
Proof.
  intros H. split.
  - intros Hn Hin. assert (∃ i, names !! i = Some n ∧ ∀ j, names !! j = Some n → (j ≤ i)%nat) as (i & Hi).
    { clear -Hin. induction names as [|x l IH] using rev_ind; [by apply elem_of_nil in Hin|].
      destruct (decide (x = n)) as [->|Hx].
      - exists (length l). split; [by rewrite lookup_app_r, Nat.sub_diag by done|].
        intros j Hj%lookup_lt_Some. rewrite length_app in Hj. simpl in Hj. lia.
      - apply elem_of_app in Hin as [Hin|Hin]; [|apply list_elem_of_singleton in Hin; congruence].
        destruct (IH Hin) as (i & Hi & Hm). exists i. split; [by apply lookup_app_l_Some|].
        intros j [[_ Hj]|[_ ?]]%lookup_snoc_Some; [auto|congruence]. }
    apply H in Hi. congruence.
  - intros Hn. destruct (m !! n) as [i|] eqn:E; [|done]. apply H in E as [E _].
    destruct Hn. by eapply list_elem_of_lookup_2.
Qed.

(** With different names, the map inverts the list. *)
Lemma indexed_unique m names n i : indexed m names → NoDup names → m !! n = Some i ↔ names !! i = Some n.
Proof.
  intros H Hd. rewrite (H n i). split; [by intros [? _]|]. intros Hi. split; [done|]. intros j Hj.
  pose proof (NoDup_lookup _ _ _ _ Hd Hi Hj). lia.
Qed.

Lemma add_dims_indexed D m m' : dim_num_ D = zlen (dimensions_ D) → indexed m [] → add_dims D m = Ok m' →
  indexed m' (name_ <$> dimensions_ D).
Proof.
  intros Hn Hm E. unfold add_dims in E. rewrite Hn, up_zlen in E.
  assert (∀ k m', (k ≤ length (dimensions_ D))%nat →
    for_each (seq 0 k) (λ i m, d ← idx (dimensions_ D) i; Ok (<[name_ d := i]> m)) m = Ok m' →
    indexed m' (name_ <$> take k (dimensions_ D))) as HI.
  { clear E m'. induction k as [|k IH]; intros m' Hk E.
    - injection E as <-. done.
    - rewrite seq_S in E. rewrite for_each_app in E. apply bind_ok in E as (m1 & E1 & E). simpl in E.
      specialize (IH m1 ltac:(lia) E1). apply bind_ok in E as (m2 & E2 & [= <-]).
      apply bind_ok in E2 as (d & Ed%idx_inv & [= <-]). rewrite (take_S_r _ _ _ Ed), fmap_app.
      assert (k = length (name_ <$> take k (dimensions_ D))) as Hl by (rewrite length_fmap, length_take; lia).
      rewrite Hl at 1. by apply indexed_push. }
  specialize (HI _ m' (le_n _) E). by rewrite firstn_all in HI.
Qed.

Lemma add_dims_ok D m : dim_num_ D = zlen (dimensions_ D) → ∃ m', add_dims D m = Ok m'.
Proof.
  intros Hn. unfold add_dims. rewrite Hn, up_zlen.
  assert (∀ l (m : gmap (list Z) nat), (∀ i, i ∈ l → (i < length (dimensions_ D))%nat) →
    ∃ m', for_each l (λ i m, d ← idx (dimensions_ D) i; Ok (<[name_ d := i]> m)) m = Ok m') as HI.
  { induction l as [|i l IH]; intros m0 Hl; [by eexists|]. simpl.
    destruct (lookup_lt_is_Some_2 (dimensions_ D) i) as [d Hd]; [apply Hl; left|].
    rewrite (idx_ok _ _ _ Hd). cbn [mbind res_bind]. apply IH. intros j Hj. apply Hl. by right. }
  apply HI. intros i Hi%elem_of_seq. lia.
Qed.

Lemma dim_names_eq D : dim_num_ D = zlen (dimensions_ D) → dim_names D = Ok (name_ <$> dimensions_ D).
Proof. intros Hn. unfold dim_names. apply mapM_up; [done|]. intros k d Hd. by rewrite (idx_ok _ _ _ Hd). Qed.

(** ** Domains of a schema *)

Definition copied (d d' : Dimension.t) : Prop := name_ d' = name_ d ∧ type_ d' = type_ d ∧ tile_extent_ d' = tile_extent_ d.

Lemma copy_domain_inv D C : copy_domain D = Ok C → dim_num_ C = dim_num_ D ∧ Forall2 copied (dimensions_ D) (dimensions_ C).
Proof.
  intros E. unfold copy_domain in E. apply bind_ok in E as (ds & Ed & [= <-]). split; [done|]. simpl.
  clear -Ed. revert ds Ed. induction (dimensions_ D) as [|d l IH]; intros ds E; [injection E as <-; constructor|].
  simpl in E. apply bind_ok in E as (d' & Ed & E). apply bind_ok in E as (l' & El & [= <-]). constructor; [|by apply IH].
  unfold Dimension.copy in Ed. apply bind_ok in Ed as (p & _ & [= <-]). done.
Qed.

(** [set_null_tile_extents_to_range] keeps names and types and leaves no extent empty. *)
Lemma set_null_inv D D' r : set_null_tile_extents_to_range D = (r, D') →
  dim_num_ D' = dim_num_ D ∧ Forall2 (λ d d', name_ d' = name_ d ∧ type_ d' = type_ d) (dimensions_ D) (dimensions_ D') ∧
  (r = Ok () → Forall (λ d, tile_extent_ d ≠ []) (dimensions_ D')).
Proof.
  unfold set_null_tile_extents_to_range. destruct (set_null_extents (dimensions_ D)) as [r' ds] eqn:E. intros [= <- <-].
  split; [done|]. simpl. clear -E. revert r' ds E. induction (dimensions_ D) as [|d l IH]; intros r ds E; simpl in E.
  { injection E as <- <-. by repeat constructor. }
  assert (∀ r1 d1, set_null_tile_extent_to_range d = (r1, d1) →
    (name_ d1 = name_ d ∧ type_ d1 = type_ d) ∧ (r1 = Ok () → tile_extent_ d1 ≠ [])) as Hd.
  { intros r1 d1. unfold set_null_tile_extent_to_range, extent_empty. case_bool_decide as Hx; simpl.
    2:{ by intros [= <- <-]. }
    destruct (range_empty _); [by intros [= <- <-]|]. destruct (num_of _) as [[ty|f]|]; [|by intros [= <- <-]..].
    unfold set_null_tile_extent_to_range_t, extent_empty. rewrite bool_decide_true by done. simpl.
    destruct (_ ≫= _) as [x| |]; [|by intros [= <- <-]..]. destruct (_ =? _); intros [= <- <-]; (split; [done|]); [done|].
    intros _ Hb. simpl in Hb. apply (f_equal zlen) in Hb. unfold nenc in Hb. rewrite zlen_to_bytes in Hb. by destruct ty. }
  destruct (set_null_tile_extent_to_range d) as [r1 d1] eqn:E1. destruct (Hd r1 d1 eq_refl) as [Hk Hr].
  destruct r1 as [[]| |].
  - destruct (set_null_extents l) as [r2 l2]. injection E as <- <-. destruct (IH r2 l2 eq_refl) as [H2 H3].
    split; [by constructor|]. intros ->. constructor; auto.
  - injection E as <- <-. split; [|done]. constructor; [done|]. clear. induction l; by constructor.
  - injection E as <- <-. split; [|done]. constructor; [done|]. clear. induction l; by constructor.
Qed.

Lemma init_dims co tO D r D' : Domain.init co tO D = (r, D') → dim_num_ D' = dim_num_ D ∧ dimensions_ D' = dimensions_ D.
Proof.
  unfold Domain.init. destruct (_ ≫= _) as [D1| |] eqn:E; [|by intros [= <- <-]..]. intros [= <- <-].
  apply bind_ok in E as (D2 & E2 & E). apply bind_ok in E as (D3 & E3 & E).
  assert (dim_num_ D2 = dim_num_ D ∧ dimensions_ D2 = dimensions_ D) as [H1 H2].
  { unfold compute_cell_num_per_tile in E2. apply bind_ok in E2 as (b & _ & E2). destruct b; simpl in E2; [|by injection E2 as <-].
    apply bind_ok in E2 as (d0 & _ & E2). destruct (int_of _); [|by injection E2 as <-].
    unfold compute_cell_num_per_tile_t in E2. apply bind_ok in E2 as (nl & _ & E2). destruct nl; [by injection E2 as <-|].
    apply bind_ok in E2 as (n & _ & [= <-]). done. }
  assert (dim_num_ D3 = dim_num_ D ∧ dimensions_ D3 = dimensions_ D) as [H3 H4].
  { unfold compute_tile_offsets in E3. apply bind_ok in E3 as (nl & _ & E3). destruct nl; [by injection E3 as <-|].
    apply bind_ok in E3 as (c & _ & E3). apply bind_ok in E3 as (w & _ & [= <-]). done. }
  unfold set_tile_cell_order_cmp_funcs in E. apply bind_ok in E as (tys & _ & [= <-]). done.
Qed.

(** ** Schemas that the interface builds *)

(** A domain made by [add_dimension]. *)
Definition counted (D : Domain.t) : Prop := dim_num_ D = zlen (dimensions_ D).

(** What [set_domain] promises of a dense array. *)
Definition dense_dim (ty : Datatype) (d : Dimension.t) : Prop :=
  type_ d = ty ∧ datatype_is_integer ty || datatype_is_datetime ty = true ∧ tile_extent_ d ≠ [].

Record wf (s : t) : Prop := {
  wf_attributes : indexed (attribute_map_ s) (Attribute.name_ <$> attributes_ s);
  wf_dims : match domain_ s with
            | None => dim_map_ s = ∅
            | Some D => counted D ∧ 0 < dim_num_ D ∧ indexed (dim_map_ s) (name_ <$> dimensions_ D)
            end;
  wf_dense : dense s = true → allows_dups_ s = false ∧ ∀ D, domain_ s = Some D → ∃ ty, Forall (dense_dim ty) (dimensions_ D)
}.

(** The schemas that can be built from a new one, also by calls that fail. *)
Inductive built : t → Prop :=
| built_make ty : built (make ty)
| built_add s a c r s' : built s → add_attribute a c s = (r, s') → built s'
| built_domain s p r s' p' : built s → match p with Some D => counted D | None => True end →
    set_domain (s, p) = (r, (s', p')) → built s'
| built_dups s b r s' : built s → set_allows_dups b s = (r, s') → built s'
| built_coords s p r s' : built s → set_coords_filter_pipeline p s = (r, s') → built s'
| built_offsets s p r s' : built s → set_cell_var_offsets_filter_pipeline p s = (r, s') → built s'
| built_capacity s n : built s → built (set_capacity n s)
| built_cell_order s l : built s → built (set_cell_order l s)
| built_tile_order s l : built s → built (set_tile_order l s)
| built_uri s u : built s → built (set_array_uri u s)
| built_init s r s' : built s → init s = (r, s') → built s'.

Lemma add_attribute_wf s a c r s' : wf s → add_attribute a c s = (r, s') → wf s'.
Proof.
  intros W. unfold add_attribute. destruct a as [a|]; [|by intros [= <- <-]]. destruct (_ && _); [by intros [= <- <-]|].
  destruct (Attribute.copy a) as [a'| |]; intros [= <- <-]; [|done..]. destruct W as [Wa Wd Wn]. constructor; simpl; [|done..].
  rewrite fmap_app. assert (length (attributes_ s) = length (Attribute.name_ <$> attributes_ s)) as -> by (by rewrite length_fmap).
  by apply indexed_push.
Qed.

(** The part of [set_domain] that looks at dense arrays. *)
Lemma same_type_inv D d0 l : counted D → dimensions_ D = d0 :: l → all_dims_same_type D = Ok true →
  Forall (λ d, type_ d = type_ d0) (dimensions_ D).
Proof.
  intros Hc Hd E. unfold all_dims_same_type in E. unfold counted in Hc. rewrite Hd in *. rewrite zlen_cons in Hc.
  pose proof (zlen_nonneg l). rewrite (proj2 (Z.eqb_neq _ _)) in E by lia.
  apply bind_ok in E as (d & [= <-]%idx_inv & E). apply Forall_cons. split; [done|]. apply Forall_forall.
  intros d [i Hi]%list_elem_of_lookup. pose proof (lookup_lt_Some _ _ _ Hi).
  pose proof (all_of_true _ _ E (S i)) as H'. cbv beta in H'. rewrite (idx_ok _ _ d) in H' by done. cbn [mbind res_bind] in H'.
  rewrite elem_of_seq in H'. assert (Ok (bool_decide (type_ d = type_ d0)) = Ok true) as [= Hb] by (apply H'; unfold zlen in *; lia).
  by apply bool_decide_eq_true in Hb.
Qed.

(** The first part of [set_domain] on a dense array. *)
Lemma dense_domain_inv D D' : counted D → 0 < dim_num_ D →
  match all_dims_same_type D with
  | Ok true =>
      match dimensions_ D with
      | [] => (UB, D)
      | d0 :: _ =>
          if negb (datatype_is_integer (type_ d0)) && negb (datatype_is_datetime (type_ d0)) then
            (Err SC_ArraySchema ("Cannot set domain; Dense arrays do not support dimension datatype '" +:+
               datatype_str (type_ d0) +:+ "'"), D)
          else set_null_tile_extents_to_range D
      end
  | Ok false => (Err SC_ArraySchema "Cannot set domain; In dense arrays, all dimensions must have the same datatype", D)
  | _ => (UB, D)
  end = (Ok (), D') → counted D' ∧ 0 < dim_num_ D' ∧ ∃ ty, Forall (dense_dim ty) (dimensions_ D').
Proof.
  intros Hc H0 E. destruct (all_dims_same_type D) as [[]| |] eqn:Es; [|done..].
  destruct (dimensions_ D) as [|d0 l] eqn:Hd; [done|].
  destruct (negb _ && _) eqn:Ht; [done|]. pose proof (same_type_inv D d0 l Hc Hd Es) as Hty.
  destruct (set_null_inv D D' _ E) as (Hn & Hf & Hx). specialize (Hx eq_refl). split.
  - unfold counted in *. rewrite Hn, Hc. unfold zlen. f_equal. by apply Forall2_length in Hf.
  - split; [lia|]. exists (type_ d0). apply Forall_forall. intros d' Hin. split_and!.
    + apply list_elem_of_lookup in Hin as [i Hi]. destruct (Forall2_lookup_r _ _ _ _ _ Hf Hi) as (d & Hdi & _ & ->).
      by eapply (Forall_lookup_1 _ _ _ _ Hty).
    + apply andb_false_iff in Ht as [->%negb_false_iff| ->%negb_false_iff]; [done|apply orb_true_r].
    + by eapply (proj1 (Forall_forall _ _) Hx).
Qed.

Lemma with_domain_wf s D C m : wf s → counted D → 0 < dim_num_ D → copy_domain D = Ok C → add_dims C ∅ = Ok m →
  (dense s = true → ∃ ty, Forall (dense_dim ty) (dimensions_ D)) → wf (with_domain s m (Some C)).
Proof.
  intros [Wa Wd Wn] Hc H0 Ec Em Hd. destruct (copy_domain_inv D C Ec) as [Hn Hf].
  assert (counted C) as HC by (unfold counted in *; rewrite Hn, Hc; unfold zlen; f_equal; by apply Forall2_length in Hf).
  constructor; simpl; [done| |].
  - split_and!; [done|lia|]. by apply (add_dims_indexed C ∅ m HC indexed_empty).
  - intros Hs. split; [by apply Wn|]. intros D' [= <-]. destruct (Hd Hs) as [ty Hty]. exists ty.
    apply Forall_forall. intros d' [i Hi]%list_elem_of_lookup. destruct (Forall2_lookup_r _ _ _ _ _ Hf Hi) as (d & Hdi & _ & Ht & Hx).
    unfold dense_dim. rewrite Ht, Hx. by eapply (Forall_lookup_1 _ _ _ _ Hty).
Qed.

Lemma set_domain_wf s p r s' p' : wf s → match p with Some D => counted D | None => True end →
  set_domain (s, p) = (r, (s', p')) → wf s'.
Proof.
  intros W Hp E. unfold set_domain in E. destruct p as [D|]; [|by injection E as <- <- <-].
  destruct (Z.eqb_spec (dim_num_ D) 0) as [|H0]; [by injection E as <- <- <-|].
  assert (0 < dim_num_ D) as Hpos by (unfold counted in Hp; pose proof (zlen_nonneg (dimensions_ D)); lia).
  destruct (dense s) eqn:Hs.
  - pose proof (dense_domain_inv D) as HD. destruct (match all_dims_same_type D with Ok _ => _ | _ => _ end) as [st D'].
    destruct st as [[]| |]; [|by injection E as <- <- <-..]. destruct (HD D' Hp Hpos eq_refl) as (Hc & H1 & Hty).
    destruct (_ ≫= _) as [[C m]| |] eqn:E2; injection E as <- <- <-; [|done..].
    apply bind_ok in E2 as (C' & Ec & E2). apply bind_ok in E2 as (m' & Em & [= <- <-]). by eapply with_domain_wf.
  - destruct (_ ≫= _) as [[C m]| |] eqn:E2; injection E as <- <- <-; [|done..].
    apply bind_ok in E2 as (C' & Ec & E2). apply bind_ok in E2 as (m' & Em & [= <- <-]).
    eapply with_domain_wf; [done..|]. congruence.
Qed.

Lemma built_wf s : built s → wf s.
Proof.
  induction 1 as [ty|s a c r s' _ W E|s p r s' p' _ W Hp E|s b r s' _ W E|s p r s' _ W E|s p r s' _ W E|s n _ W|s l _ W|s l _ W|s u _ W|s r s' _ W E].
  - constructor; simpl; [apply indexed_empty|done|done].
  - by eapply add_attribute_wf.
  - by eapply set_domain_wf.
  - unfold set_allows_dups in E. destruct (b && _) eqn:Hb; injection E as <- <-; [done|]. destruct W as [Wa Wd Wn].
    constructor; simpl; [done..|]. intros Hs. split; [|by apply Wn]. unfold dense in Hs. cbn [array_type_ with_header] in Hs. rewrite Hs, andb_true_r in Hb. done.
  - unfold set_coords_filter_pipeline in E. destruct (copy_pipeline p); injection E as <- <-; [|done..]. by destruct W.
  - unfold set_cell_var_offsets_filter_pipeline in E. destruct (copy_pipeline p); injection E as <- <-; [|done..]. by destruct W.
  - by destruct W.
  - by destruct W.
  - by destruct W.
  - by destruct W.
  - unfold init in E. destruct (check s); [|by injection E as <- <-..]. destruct W as [Wa Wd Wn].
    destruct (domain_ s) as [D|] eqn:HD; [|by injection E as <- <-; constructor; rewrite ?HD].
    destruct (Domain.init _ _ D) as [r' D'] eqn:EI. injection E as <- <-. destruct (init_dims _ _ _ _ _ EI) as [H1 H2].
    constructor; simpl; [done| |].
    + unfold counted. by rewrite H1, H2.
    + intros Hs. split; [by apply Wn|]. intros D2 [= <-]. rewrite H2. by apply Wn.
Qed.

(** ** Lookup by name *)

Lemma set_size_NoDup (l : list (list Z)) : (size (list_to_set l : gset (list Z)) ≤ length l)%nat ∧
  (size (list_to_set l : gset (list Z)) = length l → NoDup l).
Proof.
  induction l as [|x l [IH1 IH2]]; [split; [done|constructor]|]. rewrite list_to_set_cons. simpl length.
  destruct (decide (x ∈ l)) as [Hin|Hin].
  - rewrite subseteq_union_1_L by set_solver. split; [lia|]. lia.
  - rewrite size_union by set_solver. rewrite size_singleton. split; [lia|]. intros E. constructor; [done|]. apply IH2. lia.
Qed.

(** What [check] finds out. *)
Lemma check_inv s : wf s → zlen (attributes_ s) < 2 ^ 32 → (∀ D, domain_ s = Some D → dim_num_ D < 2 ^ 32) → check s = Ok () →
  ∃ D, domain_ s = Some D ∧ NoDup ((Attribute.name_ <$> attributes_ s) ++ (name_ <$> dimensions_ D)).
Proof.
  intros W Hz HzD E. unfold check in E. destruct (domain_ s) as [D|] eqn:HD; [|done]. exists D. split; [done|].
  destruct W as [_ Wd _]. rewrite HD in Wd. destruct Wd as (Hc & Hpos & _). specialize (HzD D eq_refl).
  rewrite (proj2 (Z.eqb_neq (dim_num_ D) 0)) in E by lia. apply bind_ok in E as (u1 & _ & E). apply bind_ok in E as (u2 & _ & E).
  apply bind_ok in E as (b & Eb & E). destruct b; [|done].
  unfold check_attribute_dimension_names, domain in Eb. rewrite HD in Eb. cbn [mbind res_bind] in Eb.
  rewrite (dim_names_eq D Hc) in Eb. cbn [mbind res_bind] in Eb. injection Eb as Eb. apply Z.eqb_eq in Eb.
  apply set_size_NoDup. unfold counted in Hc. pose proof (zlen_nonneg (attributes_ s)). rewrite u64_id in Eb by lia.
  rewrite length_app, !length_fmap. unfold zlen in *. lia.
Qed.

(** A name and the position it is found at. *)
Lemma lookup_exact {A : Type} (m : gmap (list Z) nat) (l : list A) (f : A → list Z) n a : indexed m (f <$> l) → NoDup (f <$> l) →
  (i ← m !! n; l !! i) = Some a ↔ a ∈ l ∧ f a = n.
Proof.
  intros Hi Hd. rewrite bind_Some. split.
  - intros (i & Hm & Hl). split; [by eapply list_elem_of_lookup_2|]. apply (indexed_unique _ _ _ _ Hi Hd) in Hm.
    rewrite list_lookup_fmap, Hl in Hm. by injection Hm.
  - intros [[i Hl]%list_elem_of_lookup <-]. exists i. split; [|done]. apply (indexed_unique _ _ _ _ Hi Hd).
    by rewrite list_lookup_fmap, Hl.
Qed.

(** C7. In a schema that the interface built and [check] accepts, every name designates at
    most one attribute or dimension, lookup finds exactly that one, and the
    properties of a member are defined.  A dense array has dimensions of one integer
    or date type with tile extents, and no duplicates. *)
Theorem schema_lookup_exact s : built s → zlen (attributes_ s) < 2 ^ 32 →
  (∀ D, domain_ s = Some D → dim_num_ D < 2 ^ 32) → check s = Ok () →
  ∃ D, domain_ s = Some D ∧
    (∀ n a, attribute s n = Some a ↔ a ∈ attributes_ s ∧ Attribute.name_ a = n) ∧
    (∀ n d, dimension s n = Some d ↔ d ∈ dimensions_ D ∧ name_ d = n) ∧
    (∀ n, ¬ (is_attr s n = true ∧ is_dim s n = true)) ∧
    (∀ n, n ∈ (Attribute.name_ <$> attributes_ s) ++ (name_ <$> dimensions_ D) →
      (∃ b, var_size s n = Ok b) ∧ (∃ ty, type s n = Ok ty) ∧ (∃ p, filters s n = Ok p)) ∧
    (dense s = true → allows_dups_ s = false ∧ ∃ ty, Forall (dense_dim ty) (dimensions_ D)).
Proof.
  intros W%built_wf Hz HzD E. destruct (check_inv s W Hz HzD E) as (D & HD & Hn). exists D. split; [done|].
  destruct W as [Wa Wd Wn]. rewrite HD in Wd. destruct Wd as (Hc & Hpos & Wd).
  apply NoDup_app in Hn as (Hn1 & Hdis & Hn2).
  assert (∀ n a, attribute s n = Some a ↔ a ∈ attributes_ s ∧ Attribute.name_ a = n) as HA by (intros; by apply lookup_exact).
  assert (∀ n d, dimension s n = Some d ↔ d ∈ dimensions_ D ∧ name_ d = n) as HB.
  { intros n d. unfold dimension. rewrite HD. by apply (lookup_exact (dim_map_ s) (dimensions_ D) name_). }
  assert (∃ d0, dimension_at s 0 = Ok d0) as [d0 Hd0].
  { unfold dimension_at, domain, Domain.dimension. rewrite HD. cbn [mbind res_bind].
    rewrite (proj2 (Z.ltb_ge (dim_num_ D) (Z.of_nat 0))) by lia. unfold counted, zlen in Hc.
    destruct (dimensions_ D) as [|d0 l]; [simpl in Hc; lia|]. by exists d0. }
  split_and!; [done|done| | |].
  - intros n [H1 H2]. unfold is_attr, is_dim in *. destruct (attribute s n) as [a|] eqn:Ea; [|done].
    destruct (dimension s n) as [d|] eqn:Ed; [|done]. apply HA in Ea as [Ha <-]. apply HB in Ed as [Hd Hnd].
    apply (Hdis (Attribute.name_ a)); [by apply list_elem_of_fmap_2|]. rewrite <- Hnd. by apply list_elem_of_fmap_2.
  - intros n Hin.
    assert (∀ B (f : Attribute.t → B) g, ∃ v, member s n f g = Ok v) as Hm.
    { intros B f g. unfold member. destruct (attribute s n) as [a|] eqn:Ea; [by eexists|].
      destruct (dimension s n) as [d|] eqn:Ed; [by eexists|]. exfalso.
      apply elem_of_app in Hin as [(a & -> & Ha)%list_elem_of_fmap|(d & -> & Hd)%list_elem_of_fmap].
      - rewrite (proj2 (HA _ a) (conj Ha eq_refl)) in Ea. done.
      - rewrite (proj2 (HB _ d) (conj Hd eq_refl)) in Ed. done. }
    unfold var_size, type, filters. destruct (bool_decide (n = coords)); [|split_and!; apply Hm].
    rewrite Hd0. split_and!; by eexists.
  - intros Hs. destruct (Wn Hs) as [H1 H2]. split; [done|]. by apply H2.
Qed.

(** ** Round trip *)

Definition pipeline_ok (p : FilterPipeline) : Prop :=
  Forall filter_ok (Filter.filters_ p) ∧ in_ctype U32 (max_chunk_size_ p) ∧ zlen (Filter.filters_ p) < 2 ^ 32.

Record schema_storable (s : t) (D : Domain.t) : Prop := {
  ss_version : 5 ≤ version_ s ∧ in_ctype U32 (version_ s);
  ss_capacity : in_ctype U64 (capacity_ s);
  ss_coords : pipeline_ok (coords_filters_ s);
  ss_offsets : pipeline_ok (cell_var_offsets_filters_ s);
  ss_domain : domain_ s = Some D ∧ DomainSerial.storable D;
  ss_attributes : Forall Attribute.storable (attributes_ s);
  ss_num : zlen (attributes_ s) < 2 ^ 24
}.

Definition enc_schema (s : t) (D : Domain.t) : list Z :=
  to_bytes U32 (version_ s) ++ to_bytes U8 (if allows_dups_ s then 1 else 0) ++ to_bytes U8 (array_type_code (array_type_ s)) ++
  to_bytes U8 (layout_code (tile_order_ s)) ++ to_bytes U8 (layout_code (cell_order_ s)) ++ to_bytes U64 (capacity_ s) ++
  enc_pipeline (coords_filters_ s) ++ enc_pipeline (cell_var_offsets_filters_ s) ++ DomainSerial.enc D ++
  to_bytes U32 (zlen (attributes_ s)) ++ concat (Attribute.enc <$> attributes_ s).

Lemma schema_serialize_appends `{!Allocator} s D : schema_storable s D → appends (serialize s) (enc_schema s D).
Proof.
  intros [[Hv _] _ (_ & _ & Hc) (_ & _ & Ho) [HD HsD] Ha Hn]. unfold serialize, enc_schema.
  do 6 (apply appends_seq; [apply appends_val|]).
  apply appends_seq; [by apply serialize_pipeline_appends|]. apply appends_seq; [by apply serialize_pipeline_appends|].
  apply appends_seq.
  { apply (appends_lift _ D); [unfold domain; by rewrite HD|]. by apply DomainSerial.dom_serialize_appends. }
  rewrite conv_id by (pose proof (zlen_nonneg (attributes_ s)); unfold_ctype; simpl; lia).
  apply appends_seq; [apply appends_val|]. apply appends_many. intros a Hin. apply Attribute.attr_serialize_appends.
  by eapply Forall_forall.
Qed.

Lemma zlen_enc_schema s D : schema_storable s D → zlen (enc_schema s D) ≤ 2 ^ 62.
Proof.
  intros [_ _ (_ & _ & Hc) (_ & _ & Ho) [_ HD] Ha Hn]. unfold enc_schema.
  pose proof (zlen_enc_pipeline (coords_filters_ s)). pose proof (zlen_enc_pipeline (cell_var_offsets_filters_ s)).
  pose proof (DomainSerial.zlen_dom_enc D HD). rewrite !zlen_app, !zlen_to_bytes. cbn [csize].
  assert (zlen (concat (Attribute.enc <$> attributes_ s)) ≤ zlen (attributes_ s) * (12 * 2 ^ 32)); [|lia].
  clear -Ha. induction Ha as [|a l Ha _ IH]; [done|]. rewrite fmap_cons. cbn [concat]. rewrite zlen_app, zlen_cons.
  pose proof (Attribute.zlen_enc a Ha). lia.
Qed.

(** [load] of a value. *)
Lemma load_spec {A} (m : M ConstBuffer.t A) set x a b rest : parses m x a → ConstBuffer.wf b → ConstBuffer.view b = x ++ rest →
  ∃ b', ConstBuffer.wf b' ∧ ConstBuffer.view b' = rest ∧
    ∀ B s (k : unit → M (ConstBuffer.t * t) B), (load m set ≫= k) (b, s) = k () (b', set a s).
Proof.
  intros Hm Hwf Hv. destruct (on_fst_parses _ _ _ b _ Hm Hwf Hv) as (b' & W & V & E). exists b'. split_and!; [done..|].
  intros B s k. apply M_step. unfold load. by rewrite E.
Qed.

Lemma read_enum_parses `{StringEnum A} (x : A) : parses (read_enum enum_of_code) (to_bytes U8 (enum_code x)) x.
Proof.
  unfold read_enum. rewrite <- (app_nil_r (to_bytes U8 _)). eapply parses_bind; [apply parses_val, enum_code_byte|].
  rewrite enum_of_code_code. apply parses_ret.
Qed.

(** The attributes. *)
Lemma load_attributes_spec l : Forall Attribute.storable l → ∀ b rest s,
  ConstBuffer.wf b → ConstBuffer.view b = concat (Attribute.enc <$> l) ++ rest →
  ∃ b', load_attributes (length l) (b, s) = (Ok (), (b', foldl (λ s a, push_attribute a s) s (Attribute.stored <$> l))) ∧
    ConstBuffer.wf b' ∧ ConstBuffer.view b' = rest.
Proof.
  induction 1 as [|a l Ha _ IH]; intros b rest s Hwf Hv; [by exists b|].
  rewrite fmap_cons in Hv. cbn [concat] in Hv. rewrite <- app_assoc in Hv. simpl length. simpl load_attributes.
  destruct (Attribute.attr_deserialize_spec a b _ Ha Hwf Hv) as (b1 & -> & W1 & V1).
  destruct (IH b1 rest (push_attribute (Attribute.stored a) s) W1 V1) as (b2 & -> & W2 & V2). by exists b2.
Qed.

Lemma push_attributes l : ∀ s, indexed (attribute_map_ s) (Attribute.name_ <$> attributes_ s) →
  ∃ m, foldl (λ s a, push_attribute a s) s l = with_attributes s m (attributes_ s ++ l) ∧
    indexed m (Attribute.name_ <$> attributes_ s ++ l).
Proof.
  induction l as [|a l IH]; intros s Hs.
  - exists (attribute_map_ s). rewrite !app_nil_r. by destruct s.
  - simpl. destruct (IH (push_attribute a s)) as (m & E & Hm).
    { simpl. rewrite fmap_app. assert (length (attributes_ s) = length (Attribute.name_ <$> attributes_ s)) as -> by (by rewrite length_fmap).
      by apply indexed_push. }
    exists m. rewrite E. simpl in *. by rewrite <- app_assoc in *.
Qed.

Lemma any_of_ext {I} (l : list I) f g : (∀ i, i ∈ l → f i = g i) → any_of l f = any_of l g.
Proof.
  induction l as [|i l IH]; intros H; [done|]. simpl. rewrite H by left. destruct (g i) as [[]| |]; [done| |done..].
  apply IH. intros j Hj. apply H. by right.
Qed.

Lemma stage_type f : Filter.type (stage f) = Filter.type f.
Proof. by destruct f as [|[]| | | | | | |]. Qed.

Lemma existsb_fmap_stage l : existsb (λ f, bool_decide (Filter.type f = FILTER_DOUBLE_DELTA)) (stage <$> l) =
  existsb (λ f, bool_decide (Filter.type f = FILTER_DOUBLE_DELTA)) l.
Proof. induction l as [|f l IH]; [done|]. rewrite fmap_cons. cbn [existsb]. by rewrite stage_type, IH. Qed.

(** [check] sees no difference in what is read back. *)
Lemma check_stored s s' D D' : domain_ s = Some D → domain_ s' = Some D' → counted D → dim_num_ D' = dim_num_ D →
  dimensions_ D' = DimensionSerial.stored <$> dimensions_ D → array_type_ s' = array_type_ s →
  attributes_ s' = Attribute.stored <$> attributes_ s → coords_filters_ s' = stored_pipeline (coords_filters_ s) →
  check s' = check s.
Proof.
  intros HD HD' Hc Hn Hd Ht Ha Hf. assert (counted D') as Hc' by (unfold counted in *; rewrite Hn, Hc, Hd; unfold zlen; by rewrite length_fmap).
  unfold check. rewrite HD, HD', Hn. destruct (dim_num_ D =? 0); [done|].
  assert (check_double_delta_compressor s' = check_double_delta_compressor s) as ->.
  { unfold check_double_delta_compressor, domain. rewrite HD, HD', Hf. cbn [mbind res_bind stored_pipeline Filter.filters_]. rewrite Hn.
    rewrite existsb_fmap_stage. destruct (negb _); [done|]. erewrite any_of_ext; [done|]. intros i _. rewrite Hd.
    unfold idx. rewrite list_lookup_fmap. destruct (dimensions_ D !! i) as [d|]; [|done]. cbn [fmap option_fmap option_map mbind res_bind].
    do 2 f_equal. unfold DimensionSerial.stored. cbn [filters_ stored_pipeline Filter.filters_]. apply bool_decide_ext.
    split; [apply fmap_nil_inv|by intros ->]. }
  assert (check_attribute_dimension_names s' = check_attribute_dimension_names s) as ->.
  { unfold check_attribute_dimension_names, domain. rewrite HD, HD'. cbn [mbind res_bind]. rewrite !dim_names_eq by done. cbn [mbind res_bind].
    rewrite Ha, Hd, Hn, <- !list_fmap_compose. unfold zlen. by rewrite length_fmap. }
  assert (dense s' = dense s) as -> by (unfold dense; by rewrite Ht).
  destruct (dense s); [|done]. unfold dimension_at, domain, Domain.dimension. rewrite HD, HD', Ha. cbn [mbind res_bind]. rewrite Hn, Hd.
  destruct (_ <? _); [done|]. unfold idx. rewrite list_lookup_fmap. destruct (dimensions_ D !! 0%nat) as [d|]; [|done]. simpl.
  destruct (datatype_is_real _); [done|]. by destruct (attributes_ s).
Qed.

(** What is read back. *)
Record reads_back (s s' : t) (D : Domain.t) : Prop := {
  rb_header : (allows_dups_ s', array_type_ s', capacity_ s', cell_order_ s', tile_order_ s', version_ s') =
              (allows_dups_ s, array_type_ s, capacity_ s, cell_order_ s, tile_order_ s, version_ s);
  rb_coords : coords_filters_ s' = stored_pipeline (coords_filters_ s);
  rb_offsets : cell_var_offsets_filters_ s' = stored_pipeline (cell_var_offsets_filters_ s);
  rb_attributes : attributes_ s' = Attribute.stored <$> attributes_ s;
  rb_attribute_map : indexed (attribute_map_ s') (Attribute.name_ <$> attributes_ s);
  rb_domain : ∃ D', domain_ s' = Some D' ∧ dim_num_ D' = dim_num_ D ∧ dimensions_ D' = DimensionSerial.stored <$> dimensions_ D;
  rb_dim_map : indexed (dim_map_ s') (name_ <$> dimensions_ D)
}.

(** After the fields of fixed size: the filters, the domain and the attributes. *)
Lemma load_rest_spec s D b s0 : schema_storable s D → ConstBuffer.wf b →
  ConstBuffer.view b = enc_pipeline (coords_filters_ s) ++ enc_pipeline (cell_var_offsets_filters_ s) ++ DomainSerial.enc D ++
    to_bytes U32 (zlen (attributes_ s)) ++ concat (Attribute.enc <$> attributes_ s) →
  s0 = with_header (make DENSE) (version_ s) (allows_dups_ s) (array_type_ s) (tile_order_ s) (cell_order_ s) (capacity_ s) →
  ∃ b' s', (load_coords_filters;; load_offsets_filters;; load_domain;; n ← on_fst (read_val U32);
      load_attributes (Z.to_nat n);; on_snd load_dim_map;; on_snd init) (b, s0) = on_snd init (b', s') ∧
    ConstBuffer.view b' = [] ∧ reads_back s s' D ∧ ∃ D', DomainSerial.stored D = Ok D' ∧ domain_ s' = Some D'.
Proof.
  intros [[Hv Hv'] _ (Hc1 & Hc2 & Hc3) (Ho1 & Ho2 & Ho3) [HD HsD] Ha Hn] Hwf V0 ->.
  destruct (deserialize_pipeline_spec _ b _ zstd_pipeline Hc1 Hc2 Hc3 Hwf V0) as (b1 & E1 & W1 & V1).
  erewrite M_step by (unfold load_coords_filters; cbn [coords_filters_ with_header make]; by rewrite E1).
  destruct (deserialize_pipeline_spec _ b1 _ zstd_pipeline Ho1 Ho2 Ho3 W1 V1) as (b2 & E2 & W2 & V2).
  erewrite M_step by (unfold load_offsets_filters; cbn [cell_var_offsets_filters_ with_header with_filters make]; by rewrite E2).
  destruct (DomainSerial.dom_deserialize_spec (version_ s) D b2 _ Hv HsD W2 V2) as (b3 & D' & E3 & ED & W3 & V3).
  erewrite M_step by (unfold load_domain; cbn [version_ with_header with_filters make]; by rewrite E3).
  pose proof (zlen_nonneg (attributes_ s)).
  destruct (on_fst_parses _ _ _ b3 _ (parses_val U32 (zlen (attributes_ s)) ltac:(unfold_ctype; simpl; lia)) W3 V3) as (b4 & W4 & V4 & ->).
  rewrite <- (app_nil_r (concat _)) in V4.
  match goal with |- context [(_ ≫= _) (b4, ?s1)] =>
    destruct (load_attributes_spec _ Ha b4 [] s1 W4 V4) as (b5 & E5 & W5 & V5);
    destruct (push_attributes (Attribute.stored <$> attributes_ s) s1 indexed_empty) as (m & Em & Hm) end.
  replace (Z.to_nat (zlen (attributes_ s))) with (length (attributes_ s)) by (unfold zlen; lia).
  erewrite M_step by exact E5. rewrite Em. clear E5 Em. rewrite fmap_app, <- list_fmap_compose in Hm.
  destruct (DomainSerial.stored_ok D HsD) as (D2 & ED2 & Hds & Hdn). rewrite ED in ED2. injection ED2 as <-.
  assert (counted D') as HcD.
  { unfold counted. rewrite Hdn, Hds, (DomainSerial.st_num _ HsD). unfold zlen. by rewrite length_fmap. }
  destruct (add_dims_ok D' ∅ HcD) as [dm Edm]. pose proof (add_dims_indexed D' ∅ dm HcD indexed_empty Edm) as Hdm.
  rewrite Hds, <- list_fmap_compose in Hdm.
  erewrite on_snd_ok by (unfold load_dim_map, domain; cbn [domain_ with_attributes with_domain dim_map_ with_filters with_header make mbind res_bind]; by rewrite Edm).
  eexists b5, _. split; [done|]. split; [done|]. split; [|by exists D'].
  constructor; try done. by exists D'.
Qed.

Lemma schema_deserialize_spec s D b D' Di : schema_storable s D → check s = Ok () → DomainSerial.stored D = Ok D' →
  Domain.init (cell_order_ s) (tile_order_ s) D' = (Ok (), Di) → ConstBuffer.wf b → ConstBuffer.view b = enc_schema s D →
  ∃ b' s', deserialize (b, make DENSE) = (Ok (), (b', s')) ∧ ConstBuffer.view b' = [] ∧ reads_back s s' D.
Proof.
  intros HS Hck ED EI Hwf Hv. pose proof HS as [[Hv5 Hv'] Hcap _ _ [HD HsD] _ _]. unfold enc_schema in Hv. unfold deserialize.
  destruct (load_spec _ set_version _ _ b _ (parses_val U32 _ Hv') Hwf Hv) as (b1 & W1 & V1 & ->).
  erewrite M_step by done. cbv beta iota. cbn [version_ set_version with_header]. rewrite (proj2 (Z.leb_le 5 _)) by done.
  destruct (load_spec _ (λ c s, with_header s (version_ s) (negb (c =? 0)) (array_type_ s) (tile_order_ s) (cell_order_ s) (capacity_ s)) _ _ b1 _
    (parses_val U8 (if allows_dups_ s then 1 else 0) ltac:(destruct (allows_dups_ s); unfold_ctype; simpl; lia)) W1 V1) as (b2 & W2 & V2 & ->).
  destruct (load_spec _ (λ ty s, with_header s (version_ s) (allows_dups_ s) ty (tile_order_ s) (cell_order_ s) (capacity_ s)) _ _ b2 _
    (@read_enum_parses _ array_type_string_enum (array_type_ s)) W2 V2) as (b3 & W3 & V3 & ->).
  destruct (load_spec _ set_tile_order _ _ b3 _
    (@read_enum_parses _ layout_string_enum (tile_order_ s)) W3 V3) as (b4 & W4 & V4 & ->).
  destruct (load_spec _ set_cell_order _ _ b4 _
    (@read_enum_parses _ layout_string_enum (cell_order_ s)) W4 V4) as (b5 & W5 & V5 & ->).
  destruct (load_spec _ set_capacity _ _ b5 _ (parses_val U64 _ Hcap) W5 V5) as (b6 & W6 & V6 & ->).
  destruct (load_rest_spec s D b6 _ HS W6 V6 eq_refl) as (b7 & s7 & E7 & V7 & R7 & D7 & ED7 & HD7).
  rewrite ED in ED7. injection ED7 as <-.
  match goal with |- context [_ (b6, ?x)] => replace x with
    (with_header (make DENSE) (version_ s) (allows_dups_ s) (array_type_ s) (tile_order_ s) (cell_order_ s) (capacity_ s))
    by (by destruct (allows_dups_ s)) end.
  rewrite E7. clear E7. destruct R7 as [Rh Rc Ro Ra Rm (D2 & HD2 & Hn2 & Hd2) Rd]. rewrite HD7 in HD2. injection HD2 as <-.
  injection Rh as R1 R2 R3 R4 R5 R6.
  assert (check s7 = Ok ()) as Hck7 by (rewrite <- Hck; by apply (check_stored s s7 D D' HD HD7 (DomainSerial.st_num _ HsD))).
  assert (init s7 = (Ok (), with_domain s7 (dim_map_ s7) (Some Di))) as EI7.
  { unfold init. by rewrite Hck7, HD7, R4, R5, EI. }
  destruct (init_dims _ _ _ _ _ EI) as [H1 H2].
  exists b7, (with_domain s7 (dim_map_ s7) (Some Di)). split; [unfold on_snd; by rewrite EI7|]. split; [done|].
  constructor; simpl; try done; [by rewrite R1, R2, R3, R4, R5, R6|]. exists Di. split; [done|]. by rewrite H1, H2.
Qed.

(** C3. Round trip of array schemas: a schema of the current format that [check] accepts
    is written, unless memory runs out, in a form that a new schema object reads back
    as the same dimensions, attributes, orders, capacity and filters, with maps that
    find each of them by its name. *)
Theorem schema_roundtrip `{!Allocator} s D D' Di : schema_storable s D → check s = Ok () →
  DomainSerial.stored D = Ok D' → Domain.init (cell_order_ s) (tile_order_ s) D' = (Ok (), Di) →
  (∃ b c s', serialize s Buffer.empty = (Ok (), b) ∧ deserialize (Buffer.to_const b, make DENSE) = (Ok (), (c, s')) ∧
     ConstBuffer.view c = [] ∧ reads_back s s' D) ∨
  (out_of_memory ∧ ∃ e b, serialize s Buffer.empty = (Err SC_Buffer e, b)).
Proof.
  intros HS Hck ED EI. pose proof (zlen_enc_schema s D HS).
  destruct (schema_serialize_appends s D HS Buffer.empty [] holds_empty) as [(b & E & Hb)|?]; [rewrite zlen_nil; lia|left|by right].
  destruct (to_const_view _ _ Hb) as [Hwf Hview].
  destruct (schema_deserialize_spec s D (to_const b) D' Di HS Hck ED EI Hwf Hview) as (c & s' & Ec & Hc & R). by exists b, c, s'.
Qed.

(** ** A sample *)

#[local] Existing Instance zero_allocator.

(** A dense array of one dimension and two attributes, the second of them of variable size. *)
Definition sample_domain : Domain.t := with_dimensions Domain.empty [sample_dim] 1.
Definition sample_a : Attribute.t := Attribute.make (lit "a") INT64.
Definition sample_b : Attribute.t := Attribute.mk (lit "b") CHAR var_num sample_pipeline.

Definition sample_schema : t :=
  let s := (set_domain (make DENSE, Some sample_domain)).2.1 in
  (add_attribute (Some sample_b) true (add_attribute (Some sample_a) true s).2).2.

Lemma sample_built : built sample_schema.
Proof.
  unfold sample_schema. destruct (set_domain (make DENSE, Some sample_domain)) as [r0 [s0 p0]] eqn:E0.
  destruct (add_attribute (Some sample_a) true s0) as [r1 s1] eqn:E1.
  destruct (add_attribute (Some sample_b) true s1) as [r2 s2] eqn:E2. cbn [fst snd]. rewrite E1. cbn [fst snd]. rewrite E2.
  eapply built_add; [|exact E2]. eapply built_add; [|exact E1]. eapply (built_domain (make DENSE)); [constructor| |exact E0].
  vm_compute. reflexivity.
Qed.

Lemma schema_lookup_exact_witness : ∃ D, domain_ sample_schema = Some D ∧ attribute sample_schema (lit "b") = Some sample_b.
Proof.
  destruct (schema_lookup_exact sample_schema) as (D & HD & HA & _).
  - apply sample_built.
  - vm_compute. reflexivity.
  - intros D HD. assert (dim_num_ D = 1) as ->; [|lia]. vm_compute in HD. injection HD as <-. reflexivity.
  - vm_compute. reflexivity.
  - exists D. split; [exact HD|]. apply HA. split; [|reflexivity]. apply (list_elem_of_lookup_2 _ 1). vm_compute. reflexivity.
Defined.

Lemma sample_storable : ∃ D, schema_storable sample_schema D.
Proof.
  assert (pipeline_ok zstd_pipeline) as Hz by (split_and!; [repeat constructor; unfold_ctype; simpl; lia|unfold_ctype; simpl; lia|by vm_compute]).
  exists sample_domain. constructor.
  - split; [by vm_compute|]. vm_compute. split; discriminate.
  - vm_compute. split; discriminate.
  - exact Hz.
  - exact Hz.
  - split; [vm_compute; reflexivity|]. constructor; [|vm_compute; reflexivity|vm_compute; reflexivity].
    apply Forall_cons_2; [apply sample_dim_storable|apply Forall_nil_2].
  - apply Forall_cons_2; [|apply Forall_cons_2; [|apply Forall_nil_2]]; constructor.
    1,5: vm_compute; reflexivity.
    1,4: apply Forall_cons_2; [unfold byte_ok; vm_compute; split; [discriminate|reflexivity]|apply Forall_nil_2].
    1,3: vm_compute; split; discriminate.
    + split_and!; [apply Forall_nil_2|vm_compute; split; discriminate|vm_compute; reflexivity].
    + split_and!; [apply sample_pipeline_ok|vm_compute; split; discriminate|vm_compute; reflexivity].
  - vm_compute. reflexivity.
Qed.

Lemma schema_roundtrip_witness : ∃ b c s', serialize sample_schema Buffer.empty = (Ok (), b) ∧
  deserialize (Buffer.to_const b, make DENSE) = (Ok (), (c, s')) ∧ ConstBuffer.view c = [].
Proof.
  destruct sample_storable as [D HS].
  assert (∃ D' Di, DomainSerial.stored D = Ok D' ∧ Domain.init (cell_order_ sample_schema) (tile_order_ sample_schema) D' = (Ok (), Di))
    as (D' & Di & E1 & E2).
  { destruct HS as [_ _ _ _ [HD _] _ _]. vm_compute in HD. injection HD as <-. do 2 eexists. split; [vm_compute; reflexivity|vm_compute; reflexivity]. }
  destruct (schema_roundtrip sample_schema D D' Di HS) as [(b & c & s' & H1 & H2 & H3 & _)|[[] ?]%(λ H, conj (zero_allocator_total (proj1 H)) I)];
    [vm_compute; reflexivity|exact E1|exact E2|]. exists b, c, s'. split; [exact H1|]. split; [exact H2|exact H3].
Defined.
