(* ===== verification/Consolidator.v ===== *)
(** * Consolidation (storage_manager/consolidator.cc, fragment/fragment_info.h)

    Which fragments are consolidated next, the list of fragments after a step, and
    the loop over the steps.  Copying the cells of the chosen fragments into a new
    one is a parameter of the loop. *)

From S2P Require Import Prelude.
From S2P Require Import Num.
From S2P Require Import Range.
From S2P Require Import Loops.
From S2P Require Import Dimension.
From S2P Require Import Domain.
Local Open Scope Z_scope.

Record FragmentInfo : Type := mkFragmentInfo {
  uri_ : list Z;
  sparse_ : bool;
  timestamp_range_ : Z * Z;
  fragment_size_ : Z;
  non_empty_domain_ : NDRange;
  expanded_non_empty_domain_ : NDRange
}.

(** [ConsolidationConfig]; the numbers of type [float] are their bit patterns. *)
Record ConsolidationConfig : Type := mkConfig {
  amplification_ : Z;
  buffer_size_ : Z;
  steps_ : Z;
  min_frags_ : Z;
  max_frags_ : Z;
  size_ratio_ : Z
}.

(** The conversions of integers to [float] and [double]. *)
Definition to_float (z : Z) : Z := fenc F32 (f_of_Z F32 z).
Definition to_double (z : Z) : Z := fenc F64 (f_of_Z F64 z).

(** The checks of [set_config]. *)
Definition check_config (c : ConsolidationConfig) : res unit :=
  if max_frags_ c <? min_frags_ c then
    Err SC_Consolidator "Invalid configuration; Minimum fragments config parameter is larger than the maximum"
  else if flt F32 (to_float 1) (size_ratio_ c) || flt F32 (size_ratio_ c) (to_float 0) then
    Err SC_Consolidator "Invalid configuration; Step size ratio config parameter must be in [0.0, 1.0]"
  else if flt F32 (amplification_ c) (to_float 0) then
    Err SC_Consolidator "Invalid configuration; Amplification config parameter must be non-negative"
  else Ok ().

(** An entry of the two matrices of [compute_next_to_consolidate]: the size, and the
    union of the domains. *)
Abbreviation entry := (Z * NDRange)%type.

Section consolidator.
Variable D : Domain.t.
Variable config_ : ConsolidationConfig.

Definition all_sparse (fragments : list FragmentInfo) (start end_ : nat) : res bool :=
  all_of (seq start (S end_ - start)) (λ i, f ← idx fragments i; Ok (sparse_ f)).

Definition are_consolidatable (fragments : list FragmentInfo) (start end_ : nat) (union : NDRange) : res bool :=
  s ← all_sparse fragments start end_;
  if s : bool then Ok true
  else
    o ← any_of (seq 0 start) (λ i, f ← idx fragments i; Domain.overlap D union (non_empty_domain_ f));
    if o : bool then Ok false
    else
      union_cell_num ← Domain.cell_num D union;
      sum_cell_num ← for_each (seq start (S end_ - start)) (λ i sum,
        f ← idx fragments i; n ← Domain.cell_num D (expanded_non_empty_domain_ f); Ok (u64 (sum + n))) 0;
      Ok (fle F64 (fdiv F64 (to_double union_cell_num) (to_double sum_cell_num)) (fcvt F32 F64 (amplification_ config_))).

(** ** [compute_next_to_consolidate] *)

Definition invalid : entry := (u64_max, []).

Definition adjacent_ratio (a b : FragmentInfo) : Z :=
  let ratio := fdiv F32 (to_float (fragment_size_ a)) (to_float (fragment_size_ b)) in
  if fle F32 ratio (to_float 1) then ratio else fdiv F32 (to_float 1) ratio.

(** The entry [(i, j)], for [i > 0], from the row above. *)
Definition next_entry (fragments : list FragmentInfo) (prev : list entry) (i j : nat) : res entry :=
  if (length fragments <=? i + j)%nat then Ok invalid
  else
    a ← idx fragments (i + j - 1);
    b ← idx fragments (i + j);
    p ← idx prev j;
    if fle F32 (size_ratio_ config_) (adjacent_ratio a b) && negb (p.1 =? u64_max) then
      u ← Domain.expand_ndrange D (non_empty_domain_ b) p.2;
      u ← Domain.expand_to_tiles D u;
      ok ← are_consolidatable fragments j (j + i) u;
      Ok (if ok : bool then (u64 (p.1 + fragment_size_ b), u) else invalid)
    else Ok invalid.

Definition first_row (fragments : list FragmentInfo) : list entry :=
  (λ f, (fragment_size_ f, non_empty_domain_ f)) <$> fragments.

(** [n] rows from row [i] on, below [prev]. *)
Fixpoint next_rows (fragments : list FragmentInfo) (n i : nat) (prev : list entry) : res (list (list entry)) :=
  match n with
  | O => Ok []
  | S n =>
      row ← mapM (next_entry fragments prev i) (seq 0 (length fragments));
      rows ← next_rows fragments n (S i) row;
      Ok (row :: rows)
  end.

(** The column of the smallest size, one that is not at least a quarter smaller than
    an earlier one giving way to it. *)
Definition pick_column (row : list entry) : Z * nat :=
  foldl (λ acc (je : nat * entry),
    if (acc.1 =? u64_max) || flt F64 (to_double je.2.1) (fdiv F64 (to_double acc.1) (fdiv F64 (to_double 5) (to_double 4)))
    then (je.2.1, je.1) else acc) (u64_max, 0%nat) (imap pair row).

(** The rows from the last one, [n - 1], up. *)
Fixpoint choose (matrix : list (list entry)) (min : Z) (n : nat) : res (option (nat * nat)) :=
  match n with
  | O => Ok None
  | S i =>
      if Z.of_nat i <? min - 1 then Ok None
      else
        row ← idx matrix i;
        let '(min_size, min_col) := pick_column row in
        if min_size =? u64_max then choose matrix min i else Ok (Some (i, min_col))
  end.

Definition compute_next_to_consolidate (fragments : list FragmentInfo) : res (list FragmentInfo * NDRange) :=
  let min := Z.min (min_frags_ config_) (zlen fragments) in
  let max := Z.min (max_frags_ config_) (zlen fragments) in
  if max =? 0 then Ok ([], [])
  else
    rows ← next_rows fragments (Z.to_nat max - 1) 1 (first_row fragments);
    let matrix := first_row fragments :: rows in
    c ← choose matrix (conv I32 min) (Z.to_nat (conv I32 (max - 1) + 1));
    match c with
    | None => Ok ([], [])
    | Some (i, min_col) =>
        to_consolidate ← mapM (idx fragments) (seq min_col (S i));
        row ← idx matrix i;
        e ← idx row min_col;
        Ok (to_consolidate, e.2)
    end.

(** ** The list of fragments after a step *)

Fixpoint update_loop (fragment_info to_consolidate : list FragmentInfo) (new : FragmentInfo) (added : bool) : list FragmentInfo :=
  match fragment_info with
  | [] => []
  | f :: fs =>
      match to_consolidate with
      | c :: cs =>
          if bool_decide (uri_ f = uri_ c) then
            if added then update_loop fs cs new added else new :: update_loop fs cs new true
          else f :: update_loop fs to_consolidate new added
      | [] => f :: update_loop fs to_consolidate new added
      end
  end.

Definition update_fragment_info (to_consolidate : list FragmentInfo) (new : FragmentInfo) (fragment_info : list FragmentInfo) :
    res (list FragmentInfo) :=
  let updated := update_loop fragment_info to_consolidate new false in
  _ ← massert (zlen updated =? u64 (zlen fragment_info - zlen to_consolidate + 1));
  Ok updated.

(** ** The loop *)

(** The fragment that consolidating [to_consolidate] makes, in step [step]. *)
Variable consolidate_fragments : Z → list FragmentInfo → NDRange → res FragmentInfo.

(** [step] counts the steps that are done; the fuel is the number of fragments. *)
Fixpoint consolidate_loop (fuel : nat) (step : Z) (fragment_info : list FragmentInfo) : res (list FragmentInfo) :=
  match fuel with
  | O => UB
  | S fuel =>
      if zlen fragment_info <=? 1 then Ok fragment_info
      else
        next ← compute_next_to_consolidate fragment_info;
        if zlen next.1 <=? 1 then Ok fragment_info
        else
          new ← consolidate_fragments step next.1 next.2;
          fragment_info ← update_fragment_info next.1 new fragment_info;
          let step := conv U32 (step + 1) in
          if step <? steps_ config_ then consolidate_loop fuel step fragment_info else Ok fragment_info
  end.

Definition consolidate (fragment_info : list FragmentInfo) : res (list FragmentInfo) :=
  consolidate_loop (S (length fragment_info)) 0 fragment_info.

End consolidator.
