(* ===== verification/ConsolidatorProofs.v ===== *)
(** * Which fragments a consolidation step takes (storage_manager/consolidator.cc) *)

From Stdlib Require Import SpecFloat.
From S2P Require Import Prelude.
From S2P Require Import Num.
From S2P Require Import NumFacts.
From S2P Require Import Range.
From S2P Require Import Loops.
From S2P Require Import Dimension.
From S2P Require Import Domain.
From S2P Require Import DimensionProofs.
From S2P Require Import DomainProofs.
From S2P Require Import DomainRanges.
From S2P Require Import Consolidator.
Local Open Scope Z_scope.

(** ** Sizes as [double] *)

Abbreviation five_quarters := (fdiv F64 (to_double 5) (to_double 4)).

(** A quarter less than an integer of 53 bits is less than [2^64], the value
    [UINT64_MAX] has as a [double]. *)
Lemma max_not_smaller a : 0 ≤ a ≤ 2 ^ 53 →
  flt F64 (to_double u64_max) (fdiv F64 (to_double a) five_quarters) = false.
Proof.
  intros Ha. destruct (decide (a = 0)) as [->|Hne]; [by vm_compute|].
  assert (fdec F64 (to_double u64_max) = S754_finite false 4503599627370496 12) as Hmax by (by vm_compute).
  assert (fdec F64 five_quarters = S754_finite false 5629499534213120 (-52)) as Hc by (by vm_compute).
  set (c := five_quarters) in *. clearbody c. destruct (f_of_Z_repr a) as (m & e & E & N & L & _); [lia|].
  unfold fdiv. unfold to_double at 2. rewrite Hc, E, fdec_fenc_normal by (done || lia). simpl prec. simpl emax.
  assert (normal (Z.pos 5629499534213120)) as N2 by (unfold normal; lia).
  unfold SFdiv. rewrite div_core by (done || lia). simpl xorb.
  set (q := Z.pos m * 2 ^ 53 / Z.pos 5629499534213120). set (l := new_location _ _). unfold normal in N.
  pose proof (Z.div_mod (Z.pos m * 2 ^ 53) (Z.pos 5629499534213120) ltac:(lia)) as Hdm. fold q in Hdm.
  pose proof (Z.mod_pos_bound (Z.pos m * 2 ^ 53) (Z.pos 5629499534213120) ltac:(lia)) as Hrem.
  assert (2 ^ 52 ≤ q < 2 ^ 54) as Hq by lia.
  destruct (round_aux_exponent false q (e - -52 - 53) l Hq) as (p & e' & -> & Hp & B0 & _); [lia|].
  unfold flt. rewrite Hmax, fdec_fenc_normal by (done || lia). unfold SFltb, SFcompare.
  by rewrite (proj2 (Z.compare_gt_iff 12 e')) by lia.
Qed.

(** ** What a group hides *)

Lemma consolidatable_safe D config_ fragments s e u : are_consolidatable D config_ fragments s e u = Ok true →
  (∀ k f, (s ≤ k ≤ e)%nat → fragments !! k = Some f → sparse_ f = true) ∨
  (∀ k f, (k < s)%nat → fragments !! k = Some f → Domain.overlap D u (non_empty_domain_ f) = Ok false).
Proof.
  intros E. unfold are_consolidatable in E. apply bind_ok in E as (b & Eb & E). destruct b.
  - left. intros k f Hk Hf. pose proof (all_of_true _ _ Eb k) as H. cbv beta in H. rewrite (idx_ok _ _ _ Hf) in H. cbn [mbind res_bind] in H.
    rewrite elem_of_seq in H. specialize (H ltac:(lia)). congruence.
  - right. apply bind_ok in E as (o & Eo & E). destruct o; [done|]. intros k f Hk Hf.
    pose proof (any_of_false _ _ Eo k) as H. cbv beta in H. rewrite (idx_ok _ _ _ Hf) in H. cbn [mbind res_bind] in H.
    rewrite elem_of_seq in H. apply H. lia.
Qed.

(** ** Groups of fragments *)

Section groups.
Variable D : Domain.t.
Variable config_ : ConsolidationConfig.
Variable fragments : list FragmentInfo.

(** The size of [n] fragments from [j] on. *)
Definition group_size (j n : nat) : Z := foldr Z.add 0 (fragment_size_ <$> take n (drop j fragments)).

(** The fragments [j, ..., j + i] can be consolidated into one that covers [u]: the
    sizes of neighbours have a ratio that is large enough, and every longer prefix of
    the group passes the test. *)
Inductive group (j : nat) : nat → NDRange → Prop :=
| group_one f : fragments !! j = Some f → group j 0 (non_empty_domain_ f)
| group_more i u a b u1 u2 : group j i u →
    fragments !! (i + j)%nat = Some a → fragments !! (S i + j)%nat = Some b →
    fle F32 (size_ratio_ config_) (adjacent_ratio a b) = true →
    Domain.expand_ndrange D (non_empty_domain_ b) u = Ok u1 → Domain.expand_to_tiles D u1 = Ok u2 →
    are_consolidatable D config_ fragments j (j + S i) u2 = Ok true →
    group j (S i) u2.

Hypothesis sizes_ok : Forall (λ f, 0 ≤ fragment_size_ f) fragments.
Hypothesis total_ok : group_size 0 (length fragments) ≤ 2 ^ 53.

Lemma sizes_nonneg l : Forall (λ f, 0 ≤ fragment_size_ f) l → 0 ≤ foldr Z.add 0 (fragment_size_ <$> l).
Proof. induction 1 as [|f l Hf _ IH]; [done|]. rewrite fmap_cons. cbn [foldr]. lia. Qed.

Lemma sizes_app l1 l2 : foldr Z.add 0 (fragment_size_ <$> (l1 ++ l2)) =
  foldr Z.add 0 (fragment_size_ <$> l1) + foldr Z.add 0 (fragment_size_ <$> l2).
Proof. induction l1 as [|f l IH]; [done|]. rewrite <- app_comm_cons, !fmap_cons. cbn [foldr]. lia. Qed.

Lemma group_size_bound j n : 0 ≤ group_size j n ≤ 2 ^ 53.
Proof.
  unfold group_size in *. rewrite drop_0, firstn_all in total_ok.
  pose proof sizes_ok as H1. rewrite <- (take_drop j fragments), <- (take_drop n (drop j fragments)) in H1, total_ok.
  apply Forall_app in H1 as [H1 [H2 H3]%Forall_app]. rewrite !sizes_app in total_ok.
  pose proof (sizes_nonneg _ H1). pose proof (sizes_nonneg _ H2). pose proof (sizes_nonneg _ H3). lia.
Qed.

Lemma group_size_S j i b : fragments !! (i + j)%nat = Some b → group_size j (S i) = group_size j i + fragment_size_ b.
Proof.
  intros Hb. unfold group_size. assert (drop j fragments !! i = Some b) as Hd by (rewrite lookup_drop, Nat.add_comm; done).
  rewrite (take_S_r _ _ _ Hd), sizes_app. simpl. lia.
Qed.

Lemma group_in j i u : group j i u → (i + j < length fragments)%nat.
Proof. destruct 1; by eapply lookup_lt_Some. Qed.

Lemma group_fun j i u : group j i u → ∀ u', group j i u' → u' = u.
Proof.
  induction 1 as [f Hf|i u a b u1 u2 Hg IH Ha Hb Hr E1 E2 Hc]; intros u' Hg'; inversion Hg'; subst; [congruence|].
  match goal with H : group j i ?w |- _ => apply IH in H as -> end. congruence.
Qed.

(** What a row of the matrices holds. *)
Definition entry_ok (i j : nat) (e : entry) : Prop :=
  (e.1 ≠ u64_max ∧ group j i e.2 ∧ e.1 = group_size j (S i)) ∨ (e.1 = u64_max ∧ ∀ u, ¬ group j i u).

Definition row_ok (i : nat) (row : list entry) : Prop :=
  length row = length fragments ∧ ∀ j e, row !! j = Some e → entry_ok i j e.

Lemma first_row_ok : row_ok 0 (first_row fragments).
Proof.
  unfold first_row. split; [by rewrite length_fmap|]. intros j e. rewrite list_lookup_fmap. intros (f & Hf & ->)%fmap_Some. left. simpl.
  pose proof (group_size_S j 0 f Hf) as Hs. change (group_size j 0) with 0 in Hs. pose proof (group_size_bound j 1).
  split_and!; [unfold u64_max; lia|by constructor|lia].
Qed.

Lemma next_entry_ok i j prev e : row_ok i prev → (j < length fragments)%nat →
  next_entry D config_ fragments prev (S i) j = Ok e → entry_ok (S i) j e.
Proof.
  intros [Hl Hp] Hj E. unfold next_entry in E. destruct (Nat.leb_spec (length fragments) (S i + j)).
  { injection E as <-. right. split; [done|]. intros u Hg%group_in. lia. }
  apply bind_ok in E as (a & Ea%idx_inv & E). apply bind_ok in E as (b & Eb%idx_inv & E). apply bind_ok in E as (p & Ep%idx_inv & E).
  replace (S i + j - 1)%nat with (i + j)%nat in Ea by lia. specialize (Hp j p Ep).
  destruct (fle F32 _ _) eqn:Er; [|injection E as <-; right; split; [done|]; intros u Hg; inversion Hg; subst; congruence].
  destruct Hp as [(Hm & Hg & Hs)|[Hm Hn]].
  2:{ rewrite Hm in E. injection E as <-. right. split; [done|]. intros u Hg. inversion Hg; subst. by eapply Hn. }
  rewrite (proj2 (Z.eqb_neq _ _) Hm) in E. simpl andb in E. cbv iota in E.
  apply bind_ok in E as (u1 & E1 & E). apply bind_ok in E as (u2 & E2 & E). apply bind_ok in E as (ok & E3 & [= <-]).
  destruct ok.
  - left. simpl. pose proof (group_size_S j (S i) b Eb) as Hs'. pose proof (group_size_bound j (S (S i))).
    rewrite Hs, <- Hs', u64_id by lia. split_and!; [unfold u64_max; lia|by eapply group_more|done].
  - right. split; [done|]. intros u Hg'. inversion Hg'; subst. match goal with H : group j i ?w |- _ => apply (group_fun _ _ _ Hg) in H; subst w end.
    congruence.
Qed.

Lemma next_rows_ok n : ∀ i prev rows, row_ok i prev → next_rows D config_ fragments n (S i) prev = Ok rows →
  length rows = n ∧ ∀ k row, rows !! k = Some row → row_ok (S i + k) row.
Proof.
  induction n as [|n IH]; intros i prev rows Hp E; simpl in E; [by injection E as <-|].
  apply bind_ok in E as (row & Er & E). apply bind_ok in E as (rows' & Es & [= <-]).
  assert (row_ok (S i) row) as Hr.
  { apply mapM_inv in Er. pose proof (Forall2_length _ _ _ Er) as Hl. rewrite length_seq in Hl. split; [done|]. intros j e He.
    assert (j < length fragments)%nat as Hj by (apply lookup_lt_Some in He; lia).
    apply (next_entry_ok i j prev); [done..|].
    destruct (Forall2_lookup_r _ _ _ _ _ Er He) as (j' & Hj' & E). rewrite lookup_seq_lt in Hj' by done. injection Hj' as <-. done. }
  destruct (IH (S i) row rows' Hr Es) as [Hl Hk]. split; [simpl; lia|]. intros [|k] r Hr'; simpl in Hr'.
  - injection Hr' as <-. by rewrite Nat.add_0_r.
  - specialize (Hk k r Hr'). by replace (S i + S k)%nat with (S (S i) + k)%nat by lia.
Qed.

(** The choice in a row. *)
Lemma pick_column_ok row : (∀ e : entry, e ∈ row → e.1 = u64_max ∨ 0 ≤ e.1 ≤ 2 ^ 53) →
  ((pick_column row).1 = u64_max ∧ ∀ e : entry, e ∈ row → e.1 = u64_max) ∨
  (0 ≤ (pick_column row).1 ≤ 2 ^ 53 ∧ ∃ e : entry, row !! (pick_column row).2 = Some e ∧ e.1 = (pick_column row).1).
Proof.
  induction row as [|e row IH] using rev_ind; intros Hr.
  { left. split; [done|]. intros e He. by apply elem_of_nil in He. }
  unfold pick_column in *. rewrite imap_app, foldl_app. cbn [imap foldl].
  set (acc := foldl _ _ (imap pair row)) in *. unfold compose. rewrite Nat.add_0_r. cbn [fst snd].
  assert (∀ x : entry, x ∈ row → x.1 = u64_max ∨ 0 ≤ x.1 ≤ 2 ^ 53) as Hr' by (intros x Hx; apply Hr, elem_of_app; by left).
  assert (e.1 = u64_max ∨ 0 ≤ e.1 ≤ 2 ^ 53) as He by (apply Hr, elem_of_app; right; left).
  assert ((row ++ [e]) !! length row = Some e) as Hlast by (by rewrite lookup_app_r, Nat.sub_diag by done).
  destruct (IH Hr') as [[Ha Hall]|(Ha & x & Hx & Hs)].
  - rewrite Ha. change (u64_max =? u64_max) with true. cbn [orb fst snd]. destruct He as [He|He].
    + left. split; [done|]. intros y [Hy|Hy]%elem_of_app; [auto|]. by apply list_elem_of_singleton in Hy as ->.
    + right. split; [done|]. by exists e.
  - rewrite (proj2 (Z.eqb_neq _ _)) by (unfold u64_max; lia). simpl orb. destruct (flt F64 _ _) eqn:Ef; cbn [fst snd].
    + destruct He as [He|He]; [rewrite He, max_not_smaller in Ef by done; done|]. right. split; [done|]. by exists e.
    + right. split; [done|]. exists x. split; [|done]. rewrite lookup_app_l; [done|]. by eapply lookup_lt_Some.
Qed.

Lemma row_pick i row : row_ok i row →
  ((pick_column row).1 = u64_max ∧ ∀ j u, ¬ group j i u) ∨
  ((pick_column row).1 ≠ u64_max ∧ ∃ e, row !! (pick_column row).2 = Some e ∧ group (pick_column row).2 i e.2).
Proof.
  intros [Hl Hr]. destruct (pick_column_ok row) as [[Hp Hall]|(Hp & e & He & Hs)].
  - intros e [j Hj]%list_elem_of_lookup. destruct (Hr j e Hj) as [(_ & _ & ->)|[? _]]; [right; apply group_size_bound|by left].
  - left. split; [done|]. intros j u Hg. pose proof (group_in j i u Hg) as Hj.
    destruct (lookup_lt_is_Some_2 row j) as [e He]; [lia|]. destruct (Hr j e He) as [(Hm & _ & _)|[_ Hn]]; [|by eapply Hn].
    apply Hm, Hall. by eapply list_elem_of_lookup_2.
  - right. split; [unfold u64_max; lia|]. exists e. split; [done|]. destruct (Hr _ e He) as [(_ & Hg & _)|[Hm _]]; [done|]. unfold u64_max in Hm. lia.
Qed.

Lemma choose_ok matrix min n : length matrix = n → (∀ k row, matrix !! k = Some row → row_ok k row) →
  ∀ m, (m ≤ n)%nat → ∃ c, choose matrix min m = Ok c ∧
  match c with
  | None => ∀ i j u, (i < m)%nat → min - 1 ≤ Z.of_nat i → ¬ group j i u
  | Some (i, j) => (i < m)%nat ∧ min - 1 ≤ Z.of_nat i ∧
      (∃ row e, matrix !! i = Some row ∧ row !! j = Some e ∧ group j i e.2) ∧
      ∀ i' j' u, (i < i' < m)%nat → ¬ group j' i' u
  end.
Proof.
  intros Hl Hr m. induction m as [|i IH]; intros Hm; [exists None; split; [done|]; intros; lia|]. simpl.
  destruct (Z.ltb_spec (Z.of_nat i) (min - 1)); [exists None; split; [done|]; intros; lia|].
  destruct (lookup_lt_is_Some_2 matrix i) as [row Hrow]; [lia|]. rewrite (idx_ok _ _ _ Hrow). cbn [mbind res_bind].
  destruct (row_pick i row (Hr i row Hrow)) as [[Hp Hn]|(Hp & e & He & Hg)]; destruct (pick_column row) as [s c]; cbn [fst snd] in *.
  - rewrite Hp. change (u64_max =? u64_max) with true. cbv iota. destruct (IH ltac:(lia)) as (c' & -> & Hc). exists c'. split; [done|].
    destruct c' as [[i' j']|].
    + destruct Hc as (H1 & H2 & H3 & H4). split_and!; [lia|done|done|]. intros i2 j2 u Hi. destruct (decide (i2 = i)) as [->|]; [apply Hn|]. apply H4. lia.
    + intros i2 j2 u Hi Hmin. destruct (decide (i2 = i)) as [->|]; [apply Hn|]. apply Hc; [lia|done].
  - rewrite (proj2 (Z.eqb_neq _ _)) by done. exists (Some (i, c)). split; [done|]. split_and!; [lia|lia|by exists row, e|]. intros. lia.
Qed.

(** C17. [compute_next_to_consolidate] takes a group of neighbouring fragments that can be
    consolidated, of as many as [max_frags_] allows, and none when there is no group of
    [min_frags_] or more; the domain it returns is the one the group covers.  Unless
    all of the group is sparse, no earlier fragment has cells there, which the cells
    that the new fragment fills in would hide. *)
Theorem next_to_consolidate_maximal r : zlen fragments < 2 ^ 31 → 0 ≤ min_frags_ config_ → 0 ≤ max_frags_ config_ →
  compute_next_to_consolidate D config_ fragments = Ok r →
  let min := Z.min (min_frags_ config_) (zlen fragments) in
  let max := Z.min (max_frags_ config_) (zlen fragments) in
  (r = ([], []) ∧ ∀ i j u, min ≤ Z.of_nat i + 1 ≤ max → ¬ group j i u) ∨
  ∃ i j, r.1 = take (S i) (drop j fragments) ∧ group j i r.2 ∧ min ≤ Z.of_nat i + 1 ≤ max ∧
    (∀ i' j' u, (i < i')%nat → Z.of_nat i' + 1 ≤ max → ¬ group j' i' u) ∧
    (i = 0%nat ∨ Forall (λ f, sparse_ f = true) r.1 ∨
     Forall (λ f, Domain.overlap D r.2 (non_empty_domain_ f) = Ok false) (take j fragments)).
Proof.
  intros Hz Hmin Hmax E min max. pose proof (zlen_nonneg fragments). unfold compute_next_to_consolidate in E. fold min max in E.
  destruct (Z.eqb_spec max 0) as [E0|E0]; [injection E as <-; left; split; [done|]; intros; lia|].
  apply bind_ok in E as (rows & Er & E). apply bind_ok in E as (c & Ec & E).
  destruct (next_rows_ok _ 0 _ rows first_row_ok Er) as [Hl Hk].
  assert (∀ k row, (first_row fragments :: rows) !! k = Some row → row_ok k row) as Hrows.
  { intros [|k] row Hrow; simpl in Hrow; [injection Hrow as <-; apply first_row_ok|]. apply (Hk k row Hrow). }
  destruct (choose_ok (first_row fragments :: rows) (conv I32 min) (Z.to_nat max) ltac:(simpl; lia) Hrows (Z.to_nat max)) as (c' & Ec' & Hc); [lia|].
  rewrite (conv_id I32 (max - 1)) in Ec by (unfold_ctype; simpl; lia). replace (max - 1 + 1) with max in Ec by lia.
  rewrite Ec in Ec'. injection Ec' as <-. rewrite conv_id in Hc by (unfold_ctype; simpl; lia).
  destruct c as [[i j]|]; [|injection E as <-; left; split; [done|]; intros i j u Hi; apply Hc; lia].
  right. exists i, j. destruct Hc as (H1 & H2 & (row & e & Hrow & He & Hg) & H3).
  apply bind_ok in E as (tc & Et & E). apply bind_ok in E as (row' & Erow & E). apply bind_ok in E as (e' & Ee & [= <-]).
  apply idx_inv in Erow, Ee. assert (row' = row) as -> by congruence. assert (e' = e) as -> by congruence.
  split_and!; [by apply slice_of_seq|done|lia|lia|intros i' j' u Hi Hi'; apply H3; lia|].
  rewrite (slice_of_seq _ _ _ _ Et). cbn [fst snd]. destruct i as [|i]; [by left|right].
  inversion Hg; subst. destruct (consolidatable_safe D config_ fragments j (j + S i) e.2) as [Hs|Hs]; [done|left|right].
  - apply Forall_forall. intros f [k Hf]%list_elem_of_lookup. apply lookup_take_Some in Hf as [Hf Hlt]. rewrite lookup_drop in Hf.
    apply (Hs (j + k)%nat); [lia|done].
  - apply Forall_forall. intros f [k Hf]%list_elem_of_lookup. apply lookup_take_Some in Hf as [Hf Hlt]. by apply (Hs k).
Qed.

End groups.

(** ** The list of fragments *)

Lemma update_skip pre tc post new added : (∀ c cs, tc = c :: cs → uri_ c ∉ uri_ <$> pre) →
  update_loop (pre ++ post) tc new added = pre ++ update_loop post tc new added.
Proof.
  induction pre as [|f pre IH]; intros Hp; [done|]. destruct tc as [|c cs]; simpl.
  - f_equal. by apply IH.
  - specialize (Hp c cs eq_refl) as Hc. apply not_elem_of_cons in Hc as [Hc1 Hc2]. rewrite bool_decide_false by congruence.
    f_equal. apply IH. by intros c' cs' [= <- <-].
Qed.

Lemma update_match tc post new : update_loop (tc ++ post) tc new true = update_loop post [] new true.
Proof. induction tc as [|c tc IH]; [done|]. simpl. by rewrite bool_decide_true. Qed.

Lemma update_rest post new added : update_loop post [] new added = post.
Proof. induction post as [|f post IH]; [done|]. simpl. by rewrite IH. Qed.

(** [update_fragment_info] puts the new fragment in the place of the ones it
    replaces; its assertion holds. *)
Lemma update_replaces pre c cs post new : NoDup (uri_ <$> pre ++ (c :: cs) ++ post) → zlen (pre ++ (c :: cs) ++ post) < 2 ^ 64 →
  update_fragment_info (c :: cs) new (pre ++ (c :: cs) ++ post) = Ok (pre ++ new :: post).
Proof.
  intros Hn Hz. rewrite fmap_app in Hn. apply NoDup_app in Hn as (_ & Hd & _). unfold update_fragment_info.
  assert (update_loop (pre ++ (c :: cs) ++ post) (c :: cs) new false = pre ++ new :: post) as ->.
  { rewrite update_skip.
    - f_equal. simpl. rewrite bool_decide_true by done. by rewrite update_match, update_rest.
    - intros c' cs' [= <- <-] Hin. apply (Hd _ Hin). rewrite fmap_app. apply elem_of_app. left. left. }
  rewrite !zlen_app, !zlen_cons in *. pose proof (zlen_nonneg pre). pose proof (zlen_nonneg cs). pose proof (zlen_nonneg post).
  rewrite u64_id by lia. rewrite (proj2 (Z.eqb_eq _ _)) by lia. done.
Qed.

(** ** The loop *)

Section loop.
Variable D : Domain.t.
Variable config_ : ConsolidationConfig.
Variable consolidate_fragments : Z → list FragmentInfo → NDRange → res FragmentInfo.

(** What is chosen is a run of the list. *)
Lemma chosen_slice fragments tc u : compute_next_to_consolidate D config_ fragments = Ok (tc, u) →
  ∃ pre post, fragments = pre ++ tc ++ post.
Proof.
  intros E. unfold compute_next_to_consolidate in E. destruct (_ =? 0); [injection E as <- <-; by exists fragments, []; rewrite app_nil_r|].
  apply bind_ok in E as (rows & _ & E). apply bind_ok in E as (c & _ & E).
  destruct c as [[i j]|]; [|injection E as <- <-; by exists fragments, []; rewrite app_nil_r].
  apply bind_ok in E as (tc' & Et & E). apply bind_ok in E as (row & _ & E). apply bind_ok in E as (e & _ & [= <- <-]).
  exists (take j fragments), (drop (j + S i) fragments). rewrite (slice_of_seq _ _ _ _ Et).
  by rewrite <- drop_drop, !take_drop.
Qed.

(** The new fragments have names of their own. *)
Definition fresh (initial : list FragmentInfo) : Prop := ∀ step tc u f, consolidate_fragments step tc u = Ok f →
  (uri_ f ∉ uri_ <$> initial) ∧
  ∀ step' tc' u' f', consolidate_fragments step' tc' u' = Ok f' → uri_ f = uri_ f' → step = step'.

(** The outcome: a list that is no longer, or the failure of one of the two calls. *)
Definition explained (n : Z) (r : res (list FragmentInfo)) : Prop :=
  match r with
  | Ok fs => zlen fs ≤ n
  | Err c e => (∃ l, compute_next_to_consolidate D config_ l = Err c e) ∨ ∃ s tc u, consolidate_fragments s tc u = Err c e
  | UB => (∃ l, compute_next_to_consolidate D config_ l = UB) ∨ ∃ s tc u, consolidate_fragments s tc u = UB
  end.

(** The names in use: the initial ones and those of the steps that are done. *)
Definition named (initial : list FragmentInfo) (step : Z) (fs : list FragmentInfo) : Prop :=
  NoDup (uri_ <$> fs) ∧ Forall (λ f, uri_ f ∈ uri_ <$> initial ∨ ∃ s tc u, s < step ∧ consolidate_fragments s tc u = Ok f) fs.

Lemma named_step initial step pre tc post u new : fresh initial → named initial step (pre ++ tc ++ post) →
  consolidate_fragments step tc u = Ok new → named initial (step + 1) (pre ++ new :: post).
Proof.
  intros Hf [Hn Ha] E. destruct (Hf step tc u new E) as [Hi Hs].
  apply Forall_app in Ha as [Ha1 [_ Ha3]%Forall_app].
  assert (∀ l, Forall (λ f, uri_ f ∈ uri_ <$> initial ∨ ∃ s tc u, s < step ∧ consolidate_fragments s tc u = Ok f) l →
    (uri_ new ∉ uri_ <$> l) ∧
    Forall (λ f, uri_ f ∈ uri_ <$> initial ∨ ∃ s tc u, s < step + 1 ∧ consolidate_fragments s tc u = Ok f) l) as Hl.
  { intros l Hl. split.
    - intros (g & Eg & Hg)%list_elem_of_fmap. rewrite Forall_forall in Hl. destruct (Hl g Hg) as [Hin|(s & tc' & u' & Hlt & Es)].
      + apply Hi. by rewrite Eg.
      + specialize (Hs s tc' u' g Es Eg). lia.
    - eapply Forall_impl; [exact Hl|]. intros g [?|(s & tc' & u' & ? & ?)]; [by left|right]. exists s, tc', u'. split; [lia|done]. }
  destruct (Hl pre Ha1) as [N1 F1]. destruct (Hl post Ha3) as [N3 F3]. split.
  - rewrite !fmap_app in Hn. rewrite fmap_app, fmap_cons. apply NoDup_app in Hn as (Hn1 & Hd & Hn2).
    apply NoDup_app in Hn2 as (_ & _ & Hn3). apply NoDup_app. split_and!; [done| |by apply NoDup_cons].
    intros y Hy. apply not_elem_of_cons. split; [by intros ->|]. intros Hy'. apply (Hd y Hy), elem_of_app. by right.
  - apply Forall_app. split; [done|]. apply Forall_cons. split; [|done]. right. exists step, tc, u. split; [lia|done].
Qed.

Lemma loop_explained initial : in_ctype U32 (steps_ config_) → fresh initial → ∀ fuel step fs, (length fs < fuel)%nat →
  0 ≤ step → step = 0 ∨ step < steps_ config_ → zlen fs < 2 ^ 64 → named initial step fs →
  explained (zlen fs) (consolidate_loop D config_ consolidate_fragments fuel step fs).
Proof.
  intros Hst Hf. induction fuel as [|fuel IH]; intros step fs Hfuel H0 Hstep Hz Hn; [lia|]. simpl.
  destruct (Z.leb_spec (zlen fs) 1); [simpl; lia|].
  destruct (compute_next_to_consolidate D config_ fs) as [[tc u]|c e|] eqn:E; cbn [mbind res_bind]; [|left; by exists fs..].
  cbn [fst snd]. destruct (Z.leb_spec (zlen tc) 1) as [|Htc]; [simpl; lia|].
  destruct (consolidate_fragments step tc u) as [new|c e|] eqn:Ec; cbn [mbind res_bind]; [|right; by exists step, tc, u..].
  destruct (chosen_slice fs tc u E) as (pre & post & ->). destruct tc as [|c0 cs]; [done|].
  rewrite update_replaces by (apply Hn || done). cbn [mbind res_bind].
  pose proof (named_step initial step pre (c0 :: cs) post u new Hf Hn Ec) as Hn'.
  rewrite !zlen_app, !zlen_cons in *. pose proof (zlen_nonneg pre). pose proof (zlen_nonneg cs). pose proof (zlen_nonneg post).
  assert (zlen (pre ++ new :: post) ≤ zlen pre + (zlen cs + 1 + zlen post)) as Hle by (rewrite zlen_app, zlen_cons; lia).
  unfold in_ctype, tmin, tmax, bits, csize, is_signed in Hst. rewrite conv_id by (unfold_ctype; simpl in *; lia).
  destruct (Z.ltb_spec (step + 1) (steps_ config_)); [|simpl; lia].
  assert (explained (zlen (pre ++ new :: post)) (consolidate_loop D config_ consolidate_fragments fuel (step + 1) (pre ++ new :: post))) as HE.
  { apply IH; [|lia|by right|lia|done]. unfold zlen in *. rewrite !length_app in *. simpl in *. lia. }
  destruct (consolidate_loop D config_ consolidate_fragments fuel (step + 1) (pre ++ new :: post)); simpl in HE |- *; try done; lia.
Qed.


End loop.

(** ** A sample *)

(** Three dense fragments side by side. *)
Definition dense_fragment (name lo hi size : Z) : FragmentInfo :=
  let box := int_box [(lo, hi); (-3, 8)] in mkFragmentInfo [name] false (name, name) size box box.

Definition sample_fragments : list FragmentInfo :=
  [dense_fragment 1 0 1 100; dense_fragment 2 2 3 110; dense_fragment 3 4 5 1000].

(** At most three fragments, of sizes in the ratio of one half, and no amplification. *)
Definition sample_config : ConsolidationConfig := mkConfig (to_float 1) 0 2 2 3 (fdiv F32 (to_float 1) (to_float 2)).

Definition sample_step (step : Z) (tc : list FragmentInfo) (u : NDRange) : res FragmentInfo :=
  Ok (mkFragmentInfo [step; 0] false (1, 2) 210 u u).

Lemma next_to_consolidate_maximal_witness : ∃ i j r,
  compute_next_to_consolidate grid_domain sample_config sample_fragments = Ok r ∧
  r.1 = take (S i) (drop j sample_fragments) ∧ length r.1 = 2%nat.
Proof.
  assert (∃ r, compute_next_to_consolidate grid_domain sample_config sample_fragments = Ok r ∧ length r.1 = 2%nat) as (r & E & Hl)
    by (eexists; split; vm_compute; reflexivity).
  destruct (next_to_consolidate_maximal grid_domain sample_config sample_fragments) with (r := r) as [[-> _]|(i & j & E1 & _)].
  - apply (bool_decide_unpack _). vm_compute. exact I.
  - vm_compute. discriminate.
  - vm_compute. reflexivity.
  - vm_compute. discriminate.
  - vm_compute. discriminate.
  - exact E.
  - exfalso. clear E. discriminate Hl.
  - exists i, j, r. split; [exact E|]. split; [exact E1|exact Hl].
Defined.

