(* ===== verification/Comparators.v ===== *)
(** * Comparators (misc/comparators.h)

    The orders results and cells are sorted in: row-major, column-major and
    the global order of a domain, first by tile and then by cell.  A result is
    given by its coordinates: the bytes of each of them. *)

From S2P Require Import Prelude.
From S2P Require Import Enums.
From S2P Require Import Num.
From S2P Require Import Range.
From S2P Require Import ConstBuffer.
From S2P Require Import Buffer.
From S2P Require Import Filter.
From S2P Require Import Loops.
From S2P Require Import Dimension.
From S2P Require Import DimensionProofs.
From S2P Require Import Domain.
Local Open Scope Z_scope.

(** The coordinates of a [ResultCoords]: [coord(d)] or [coord_string(d)]. *)
Abbreviation Coords := (list (list Z)).

(** [domain_->cell_order_cmp(d, a, b)]. *)
Definition cell_cmp_at (D : t) (a b : Coords) (d : nat) : res Z :=
  x ← idx a d; y ← idx b d; cell_order_cmp_results D d x y.

(** A loop that returns at the first dimension on which the coordinates
    differ, [None] if there is none. *)
Fixpoint precedes (ds : list nat) (cmp : nat → res Z) : res (option bool) :=
  match ds with
  | [] => Ok None
  | d :: ds =>
      c ← cmp d;
      if c =? -1 then Ok (Some true) else if c =? 1 then Ok (Some false) else precedes ds cmp
  end.

(** The comparison of the cells in an order; the downward loop runs also
    without dimensions. *)
Definition cell_precedes (D : t) (order : Layout) (a b : Coords) : res bool :=
  ds ← order_indices D order; r ← precedes ds (cell_cmp_at D a b); Ok (default false r).

Definition RowCmp (D : t) (a b : Coords) : res bool := cell_precedes D ROW_MAJOR a b.
Definition ColCmp (D : t) (a b : Coords) : res bool := cell_precedes D COL_MAJOR a b.

(** [domain_->tile_order_cmp(d, a.coord(d), b.coord(d))]. *)
Definition tile_cmp_at (D : t) (a b : Coords) (d : nat) : res Z :=
  x ← idx a d; y ← idx b d; tile_order_cmp_dim D d x y.

(** The loop over the tiles in row-major order. *)
Fixpoint tile_precedes_row (ds : list nat) (D : t) (a b : Coords) : res (option bool) :=
  match ds with
  | [] => Ok None
  | d :: ds =>
      dim ← dim_at D d;
      if var_size dim then tile_precedes_row ds D a b
      else
        c ← tile_cmp_at D a b d;
        if c =? -1 then Ok (Some true) else if c =? 1 then Ok (Some false)
        else tile_precedes_row ds D a b
  end.

(** The loop over the tiles in column-major order, from dimension [d] down.
    The [continue] on a variable-sized dimension skips the test for the end:
    at dimension 0 the index wraps around and [dimension(d)] is null. *)
Fixpoint tile_precedes_col (d : nat) (D : t) (a b : Coords) : res (option bool) :=
  dim ← dim_at D d;
  if var_size dim then
    match d with O => UB | S d' => tile_precedes_col d' D a b end
  else
    c ← tile_cmp_at D a b d;
    if c =? -1 then Ok (Some true) else if c =? 1 then Ok (Some false)
    else match d with O => Ok None | S d' => tile_precedes_col d' D a b end.

(** [GlobalCmp::operator()(const ResultCoords& a, const ResultCoords& b)]. *)
Definition GlobalCmp (D : t) (a b : Coords) : res bool :=
  r ← match tile_order_ D with
      | ROW_MAJOR => tile_precedes_row (up (dim_num_ D)) D a b
      | COL_MAJOR => if dim_num_ D =? 0 then UB else tile_precedes_col (Z.to_nat (dim_num_ D) - 1) D a b
      | _ => UB
      end;
  match r with
  | Some r => Ok r
  | None =>
      massert (bool_decide (cell_order_ D = ROW_MAJOR) || bool_decide (cell_order_ D = COL_MAJOR));;
      cell_precedes D (cell_order_ D) a b
  end.

(** [GlobalCmp::operator()(uint64_t a, uint64_t b)]. *)
Definition GlobalCmp_pos (D : t) (buffs : list QueryBuffer) (a b : Z) : res bool :=
  tile_cmp ← tile_order_cmp D buffs a b;
  if tile_cmp =? -1 then Ok true
  else if tile_cmp =? 1 then Ok false
  else c ← cell_order_cmp D buffs a b; Ok (c =? -1).

(** ** Three-way comparisons *)

(** A comparison that returns -1, 0 or 1, whose "not after" relation is a
    total preorder. *)
Class ThreeWay {A} (P : A → Prop) (R : A → A → Z) : Prop := {
  tw_range : ∀ x y, P x → P y → R x y = -1 ∨ R x y = 0 ∨ R x y = 1;
  tw_flip : ∀ x y, P x → P y → R x y = - R y x;
  tw_trans : ∀ x y z, P x → P y → P z → R x y ≤ 0 → R y z ≤ 0 → R x z ≤ 0
}.

Definition key_cmp (x y : Z) : Z := if x <? y then -1 else if y <? x then 1 else 0.

(** The comparison of keys. *)
#[export] Instance key_three_way {A} (P : A → Prop) (key : A → Z) :
  ThreeWay P (λ x y, key_cmp (key x) (key y)).
Proof.
  unfold key_cmp. split; intros x y.
  - intros _ _. repeat case_match; auto.
  - intros _ _. destruct (Z.ltb_spec (key x) (key y)), (Z.ltb_spec (key y) (key x)); lia.
  - intros z _ _ _. destruct (Z.ltb_spec (key x) (key y)), (Z.ltb_spec (key y) (key x)),
      (Z.ltb_spec (key y) (key z)), (Z.ltb_spec (key z) (key y)), (Z.ltb_spec (key x) (key z)),
      (Z.ltb_spec (key z) (key x)); lia.
Qed.

(** The comparison of strings. *)
Definition str_cmp (a b : list Z) : Z := if str_eq a b then 0 else if str_lt a b then -1 else 1.

Lemma str_cmp_nonpos a b : str_cmp a b ≤ 0 ↔ str_le a b = true.
Proof.
  unfold str_cmp, str_eq, str_le. case_bool_decide as E.
  - subst. rewrite str_lt_irrefl. done.
  - destruct (str_lt a b) eqn:Eab.
    + by rewrite (str_lt_asym _ _ Eab).
    + destruct (str_lt b a) eqn:Eba; [done|]. by destruct (E (str_lt_total _ _ Eab Eba)).
Qed.

#[export] Instance str_three_way {A} (P : A → Prop) (key : A → list Z) :
  ThreeWay P (λ x y, str_cmp (key x) (key y)).
Proof.
  split; intros x y.
  - intros _ _. unfold str_cmp. repeat case_match; auto.
  - intros _ _. unfold str_cmp, str_eq. rewrite (bool_decide_ext (key y = key x) (key x = key y)) by done.
    case_bool_decide as E; [done|]. destruct (str_lt (key x) (key y)) eqn:E1.
    + by rewrite (str_lt_asym _ _ E1).
    + destruct (str_lt (key y) (key x)) eqn:E2; [done|]. by destruct (E (str_lt_total _ _ E1 E2)).
  - intros z _ _ _. rewrite !str_cmp_nonpos. apply str_le_trans.
Qed.

(** Lexicographic combination. *)
Fixpoint lex {A} (Rs : list (A → A → Z)) (x y : A) : Z :=
  match Rs with [] => 0 | R :: Rs => if R x y =? 0 then lex Rs x y else R x y end.

Lemma lex_three_way {A} (P : A → Prop) Rs : Forall (ThreeWay P) Rs → ThreeWay P (lex Rs).
Proof.
  induction 1 as [|R Rs HR _ IH]; [split; simpl; auto; lia|]. split; simpl; intros x y.
  - intros Hx Hy. case_match; [by apply IH|by apply HR].
  - intros Hx Hy. pose proof (tw_flip (R := R) x y Hx Hy) as E. rewrite (tw_flip (R := lex Rs) x y Hx Hy).
    destruct (Z.eqb_spec (R x y) 0), (Z.eqb_spec (R y x) 0); lia.
  - intros z Hx Hy Hz. pose proof (tw_trans (R := R) x y z Hx Hy Hz). pose proof (tw_trans (R := R) z x y Hz Hx Hy).
    pose proof (tw_trans (R := R) y z x Hy Hz Hx). pose proof (tw_flip (R := R) x y Hx Hy). pose proof (tw_flip (R := R) y z Hy Hz).
    pose proof (tw_flip (R := R) x z Hx Hz). pose proof (tw_trans (R := lex Rs) x y z Hx Hy Hz).
    destruct (Z.eqb_spec (R x y) 0), (Z.eqb_spec (R y z) 0), (Z.eqb_spec (R x z) 0); lia.
Qed.

Lemma lex_app {A} (Rs Qs : list (A → A → Z)) x y :
  lex (Rs ++ Qs) x y = if lex Rs x y =? 0 then lex Qs x y else lex Rs x y.
Proof. induction Rs as [|R Rs IH]; simpl; [done|]. destruct (R x y =? 0) eqn:E; [done|by rewrite E]. Qed.

Lemma lex_zero {A} (Rs : list (A → A → Z)) x y : lex Rs x y = 0 ↔ Forall (λ R, R x y = 0) Rs.
Proof.
  induction Rs as [|R Rs IH]; simpl; [done|]. rewrite Forall_cons.
  destruct (Z.eqb_spec (R x y) 0); [rewrite IH; split; [by split|by intros [_ ?]]|split; [done|by intros [? _]]].
Qed.

(** ** The comparison of coordinates, dimension by dimension *)

(** The position of the tile of a coordinate along a dimension. *)
Definition tile_key (T : num) (dim : Dimension.t) (v : Z) : res Z :=
  ext ← rd T (tile_extent_ dim) 0;
  lo ← rd T (range_ (domain_ dim)) 0;
  x ← nsub T v lo; q ← ndiv T x ext; n_to_u64 T q.

(** A coordinate of a dimension: any string on a variable-sized one; a value
    of the type, not a NaN, that falls in some tile on another one. *)
Definition coord_ok (dim : Dimension.t) (x : list Z) : Prop :=
  if var_size dim then True
  else ∃ T v, num_of (type_ dim) = Some T ∧ x = nenc T v ∧ nval T v ∧ ordered T v ∧
    (extent_empty dim = true ∨ ∃ k, tile_key T dim v = Ok k).

Definition coords_ok (D : t) (a : Coords) : Prop := Forall2 coord_ok (dimensions_ D) a.

(** The comparison functions are those of the types of the dimensions. *)
Record ready (D : t) : Prop := {
  ready_num : dim_num_ D = zlen (dimensions_ D);
  ready_some : dimensions_ D ≠ [];
  ready_cell : cell_order_cmp_func_2_ D = (λ d, num_of (type_ d)) <$> dimensions_ D;
  ready_tile : tile_order_cmp_func_ D = (λ d, num_of (type_ d)) <$> dimensions_ D
}.

(** [init] makes a domain ready. *)
Lemma set_funcs_ready D D' : dim_num_ D = zlen (dimensions_ D) → dimensions_ D ≠ [] →
  set_tile_cell_order_cmp_funcs D = Ok D' → ready D'.
Proof.
  intros Hn Hs. unfold set_tile_cell_order_cmp_funcs.
  rewrite (mapM_up (dimensions_ D) _ type_ _ Hn).
  - cbn [mbind res_bind]. intros [= <-]. by split; simpl; try rewrite <- list_fmap_compose.
  - intros k e Hk. by rewrite (idx_ok _ _ _ Hk).
Qed.

Definition key_of (dim : Dimension.t) (x : list Z) : Z :=
  match num_of (type_ dim) with Some T => rank T (ndec T x) | None => 0 end.
Definition tile_key_of (dim : Dimension.t) (x : list Z) : Z :=
  match num_of (type_ dim) with
  | Some T => match tile_key T dim (ndec T x) with Ok k => k | _ => 0 end
  | None => 0
  end.

Definition cell_rel (dim : Dimension.t) (d : nat) : Coords → Coords → Z :=
  if var_size dim then λ a b, str_cmp (nth d a []) (nth d b [])
  else λ a b, key_cmp (key_of dim (nth d a [])) (key_of dim (nth d b [])).
Definition tile_rel (dim : Dimension.t) (d : nat) : Coords → Coords → Z :=
  if var_size dim || extent_empty dim then λ _ _, key_cmp 0 0
  else λ a b, key_cmp (tile_key_of dim (nth d a [])) (tile_key_of dim (nth d b [])).

Lemma cell_rel_tw P dim d : ThreeWay P (cell_rel dim d).
Proof.
  unfold cell_rel. case_match; [apply (str_three_way P (λ a, nth d a []))|].
  apply (key_three_way P (λ a, key_of dim (nth d a []))).
Qed.

Lemma tile_rel_tw P dim d : ThreeWay P (tile_rel dim d).
Proof.
  unfold tile_rel. case_match; [apply (key_three_way P (λ _, 0))|].
  apply (key_three_way P (λ a, tile_key_of dim (nth d a []))).
Qed.

Lemma cmp3_key T x y : ordered T x → ordered T y → cmp3 T x y = key_cmp (rank T x) (rank T y).
Proof. intros Hx Hy. unfold cmp3, key_cmp. by rewrite !nlt_rank. Qed.

Lemma rd_coord T v : nval T v → rd T (nenc T v) 0 = Ok v.
Proof. intros Hv. apply (rd_at T _ [] v []); [by rewrite app_nil_r|done|done]. Qed.

Lemma nth_idx (a : Coords) d x : a !! d = Some x → nth d a [] = x.
Proof. intros H. rewrite nth_lookup, H. done. Qed.

Lemma cell_cmp_at_spec D a b d dim : ready D → coords_ok D a → coords_ok D b →
  dimensions_ D !! d = Some dim → cell_cmp_at D a b d = Ok (cell_rel dim d a b).
Proof.
  intros HD Ha Hb Hd. unfold cell_cmp_at, cell_rel.
  destruct (Forall2_lookup_l _ _ _ _ _ Ha Hd) as (x & Hx & Ox).
  destruct (Forall2_lookup_l _ _ _ _ _ Hb Hd) as (y & Hy & Oy).
  rewrite (idx_ok _ _ _ Hx), (idx_ok _ _ _ Hy). cbn [mbind res_bind].
  unfold cell_order_cmp_results. rewrite (idx_ok _ _ _ Hd). cbn [mbind res_bind]. unfold coord_ok in *.
  destruct (var_size dim); cbv beta; rewrite (nth_idx _ _ _ Hx), (nth_idx _ _ _ Hy); [done|]. destruct Ox as (T & v & ET & -> & Vv & Ov & _).
  destruct Oy as (T' & w & ET' & -> & Vw & Ow & _). rewrite ET in ET'. injection ET' as <-.
  rewrite (ready_cell D HD), (idx_ok _ _ (num_of (type_ dim))) by (by rewrite list_lookup_fmap, Hd).
  cbn [mbind res_bind]. rewrite ET. unfold cell_order_cmp_2, key_of. rewrite ET, !rd_coord by done.
  cbn [mbind res_bind]. by rewrite cmp3_key, !ndec_nenc.
Qed.

Lemma dim_at_spec D d dim : ready D → dimensions_ D !! d = Some dim → dim_at D d = Ok dim.
Proof.
  intros HD Hd. unfold dim_at, dimension. rewrite (ready_num D HD).
  rewrite (proj2 (Z.ltb_ge _ _)) by (apply lookup_lt_Some in Hd; unfold zlen; lia).
  by rewrite (idx_ok _ _ _ Hd).
Qed.

Lemma tile_cmp_at_spec D a b d dim : ready D → coords_ok D a → coords_ok D b →
  dimensions_ D !! d = Some dim → var_size dim = false →
  tile_cmp_at D a b d = Ok (tile_rel dim d a b).
Proof.
  intros HD Ha Hb Hd Hvs. unfold tile_cmp_at, tile_rel.
  destruct (Forall2_lookup_l _ _ _ _ _ Ha Hd) as (x & Hx & Ox).
  destruct (Forall2_lookup_l _ _ _ _ _ Hb Hd) as (y & Hy & Oy).
  rewrite (idx_ok _ _ _ Hx), (idx_ok _ _ _ Hy). cbn [mbind res_bind].
  unfold tile_order_cmp_dim. rewrite (dim_at_spec D d dim HD Hd). cbn [mbind res_bind]. unfold coord_ok in *.
  rewrite Hvs in *. destruct Ox as (T & v & ET & -> & Vv & _ & Kv).
  destruct Oy as (T' & w & ET' & -> & Vw & _ & Kw). rewrite ET in ET'. injection ET' as <-.
  rewrite (ready_tile D HD), (idx_ok _ _ (num_of (type_ dim))) by (by rewrite list_lookup_fmap, Hd).
  cbn [mbind res_bind orb]. rewrite ET. cbn [call_tile_cmp]. unfold tile_order_cmp_t.
  destruct (extent_empty dim) eqn:Ee; [done|]. cbv beta. rewrite (nth_idx _ _ _ Hx), (nth_idx _ _ _ Hy).
  destruct Kv as [?|[k Hk]]; [done|]. destruct Kw as [?|[k' Hk']]; [done|].
  unfold tile_key_of. rewrite ET, !ndec_nenc, Hk, Hk' by done.
  unfold tile_key in Hk, Hk'. rewrite !rd_coord by done.
  destruct (rd T (tile_extent_ dim) 0) as [e| |]; [|done..].
  destruct (rd T (range_ (domain_ dim)) 0) as [lo| |]; [|done..]. cbn [mbind res_bind] in *.
  rewrite Hk, Hk'. done.
Qed.

(** ** Strict order *)

Definition verdict (c : Z) : option bool :=
  if c =? -1 then Some true else if c =? 1 then Some false else None.

(** The relation of each dimension of a domain, by index. *)
Definition rel_at (rel : Dimension.t → nat → Coords → Coords → Z) (D : t) (d : nat) : Coords → Coords → Z :=
  match dimensions_ D !! d with Some dim => rel dim d | None => λ _ _, 0 end.

Lemma rel_at_some rel D d dim : dimensions_ D !! d = Some dim → rel_at rel D d = rel dim d.
Proof. intros H. unfold rel_at. by rewrite H. Qed.

Definition order_list (D : t) (order : Layout) : list nat :=
  match order with ROW_MAJOR => up (dim_num_ D) | _ => down (dim_num_ D) end.

Definition rels (rel : Dimension.t → nat → Coords → Coords → Z) (D : t) (order : Layout)
  : list (Coords → Coords → Z) := rel_at rel D <$> order_list D order.

(** The indices of the loops are indices of dimensions. *)
Definition valid_ixs (D : t) (ixs : list nat) : Prop := Forall (λ d, is_Some (dimensions_ D !! d)) ixs.

Lemma up_valid D : ready D → valid_ixs D (up (dim_num_ D)).
Proof.
  intros HD. rewrite (ready_num D HD), up_zlen. apply Forall_seq. intros d Hd. apply lookup_lt_is_Some_2. lia.
Qed.

Lemma down_up n : down n = rev (up n).
Proof. done. Qed.

Lemma order_valid D order : ready D → valid_ixs D (order_list D order).
Proof.
  intros HD. pose proof (up_valid D HD) as H. destruct order; [done|..]; simpl; rewrite down_up; by apply Forall_rev.
Qed.

Lemma order_indices_spec D order : ready D → order_indices D order = Ok (order_list D order).
Proof.
  intros HD. unfold order_indices. rewrite (proj2 (Z.eqb_neq _ 0)); [by destruct order|].
  rewrite (ready_num D HD). pose proof (zlen_pos _ (ready_some D HD)). lia.
Qed.

Lemma verdict_step (c r : Z) : (c = -1 ∨ c = 0 ∨ c = 1) →
  verdict (if c =? 0 then r else c) =
  if c =? -1 then Some true else if c =? 1 then Some false else verdict r.
Proof. by intros [-> | [-> | ->]]. Qed.

Lemma precedes_lex D a b ixs : ready D → coords_ok D a → coords_ok D b → valid_ixs D ixs →
  precedes ixs (cell_cmp_at D a b) = Ok (verdict (lex (rel_at cell_rel D <$> ixs) a b)).
Proof.
  intros HD Ha Hb. induction 1 as [|d ixs [dim Hd] _ IH]; [done|]. rewrite fmap_cons. cbn [precedes lex].
  rewrite (cell_cmp_at_spec D a b d dim) by done. cbn [mbind res_bind].
  rewrite (rel_at_some cell_rel D d dim Hd). rewrite verdict_step.
  - rewrite IH. by repeat case_match.
  - by apply (tw_range (ThreeWay := cell_rel_tw (coords_ok D) dim d)).
Qed.

Lemma tile_row_lex D a b ixs : ready D → coords_ok D a → coords_ok D b → valid_ixs D ixs →
  tile_precedes_row ixs D a b = Ok (verdict (lex (rel_at tile_rel D <$> ixs) a b)).
Proof.
  intros HD Ha Hb. induction 1 as [|d ixs [dim Hd] _ IH]; [done|]. rewrite fmap_cons.
  cbn [tile_precedes_row lex]. rewrite (dim_at_spec D d dim) by done. cbn [mbind res_bind].
  rewrite (rel_at_some tile_rel D d dim Hd). destruct (var_size dim) eqn:Hv.
  - unfold tile_rel. rewrite Hv. cbn [orb]. change (key_cmp 0 0) with 0. by rewrite Z.eqb_refl.
  - rewrite (tile_cmp_at_spec D a b d dim) by done. cbn [mbind res_bind]. rewrite verdict_step.
    + rewrite IH. by repeat case_match.
    + by apply (tw_range (ThreeWay := tile_rel_tw (coords_ok D) dim d)).
Qed.

(** The downward loop ends when the first dimension is fixed-sized. *)
Definition first_fixed (D : t) : Prop := ∀ dim, dimensions_ D !! 0%nat = Some dim → var_size dim = false.

Lemma tile_col_lex D a b d : ready D → coords_ok D a → coords_ok D b → first_fixed D →
  (d < length (dimensions_ D))%nat →
  tile_precedes_col d D a b = Ok (verdict (lex (rel_at tile_rel D <$> rev (seq 0 (S d))) a b)).
Proof.
  intros HD Ha Hb Hf. induction d as [|d IH]; intros Hd;
    destruct (lookup_lt_is_Some_2 _ _ Hd) as [dim Hdim];
    cbn [tile_precedes_col]; rewrite (dim_at_spec D _ dim) by done; cbn [mbind res_bind].
  - rewrite (Hf dim Hdim), (tile_cmp_at_spec D a b 0 dim) by (done || by apply Hf). cbn [mbind res_bind].
    cbn [rev seq app fmap list_fmap lex]. rewrite (rel_at_some tile_rel D _ dim Hdim), verdict_step; [by repeat case_match|].
    by apply (tw_range (ThreeWay := tile_rel_tw (coords_ok D) dim 0)).
  - rewrite seq_S, rev_app_distr, Nat.add_0_l. cbn [rev app]. rewrite fmap_cons. cbn [lex].
    rewrite (rel_at_some tile_rel D _ dim Hdim). destruct (var_size dim) eqn:Hv.
    + unfold tile_rel at 1 2. rewrite Hv. cbn [orb]. change (key_cmp 0 0) with 0. rewrite Z.eqb_refl.
      apply IH. lia.
    + rewrite (tile_cmp_at_spec D a b (S d) dim) by done. cbn [mbind res_bind]. rewrite verdict_step.
      * rewrite IH by lia. by repeat case_match.
      * by apply (tw_range (ThreeWay := tile_rel_tw (coords_ok D) dim (S d))).
Qed.

#[export] Instance rels_tw P rel D order : (∀ dim d, ThreeWay P (rel dim d)) →
  ThreeWay P (lex (rels rel D order)).
Proof.
  intros H. apply lex_three_way, Forall_fmap, Forall_true. intros d. simpl. unfold rel_at.
  case_match; [done|]. apply (key_three_way P (λ _, 0)).
Qed.

(** The global order, as one lexicographic comparison. *)
Definition global_rel (D : t) : Coords → Coords → Z :=
  lex (rels tile_rel D (tile_order_ D) ++ rels cell_rel D (cell_order_ D)).

Definition orders_ok (D : t) : Prop :=
  (cell_order_ D = ROW_MAJOR ∨ cell_order_ D = COL_MAJOR) ∧
  (tile_order_ D = ROW_MAJOR ∨ tile_order_ D = COL_MAJOR ∧ first_fixed D).

Lemma verdict_some c r : verdict c = Some r → r = (c =? -1) ∧ (c =? 0) = false.
Proof.
  unfold verdict. destruct (Z.eqb_spec c (-1)) as [->|]; [by intros [= <-]|].
  destruct (Z.eqb_spec c 1) as [->|]; [by intros [= <-]|done].
Qed.

Lemma cell_precedes_spec D order a b : ready D → coords_ok D a → coords_ok D b →
  cell_precedes D order a b = Ok (lex (rels cell_rel D order) a b =? -1).
Proof.
  intros HD Ha Hb. unfold cell_precedes. rewrite order_indices_spec by done. cbn [mbind res_bind].
  rewrite (precedes_lex D a b) by (done || by apply order_valid). cbn [mbind res_bind]. f_equal.
  unfold verdict, rels. by repeat case_match.
Qed.

Lemma global_cmp_spec D a b : ready D → orders_ok D → coords_ok D a → coords_ok D b →
  GlobalCmp D a b = Ok (global_rel D a b =? -1).
Proof.
  intros HD [Hc Ht] Ha Hb. unfold GlobalCmp, global_rel. rewrite lex_app.
  set (ct := lex (rels tile_rel D (tile_order_ D)) a b).
  assert (match tile_order_ D with
      | ROW_MAJOR => tile_precedes_row (up (dim_num_ D)) D a b
      | COL_MAJOR => if dim_num_ D =? 0 then UB else tile_precedes_col (Z.to_nat (dim_num_ D) - 1) D a b
      | _ => UB
      end = Ok (verdict ct)) as ->.
  { pose proof (ready_num D HD) as Hn. pose proof (zlen_pos _ (ready_some D HD)). unfold zlen in *.
    subst ct. destruct Ht as [E|[E Hf]]; rewrite E; unfold rels; simpl order_list.
    - apply tile_row_lex; try done. by apply up_valid.
    - rewrite (proj2 (Z.eqb_neq _ 0)) by lia. rewrite (tile_col_lex D a b) by (done || lia).
      unfold down. by replace (S (Z.to_nat (dim_num_ D) - 1)) with (Z.to_nat (dim_num_ D)) by lia. }
  cbn [mbind res_bind]. destruct (verdict ct) as [r|] eqn:Ev.
  - apply verdict_some in Ev as [-> ->]. done.
  - rewrite cell_precedes_spec by done. rewrite (proj2 (orb_true_iff _ _)).
    + simpl. unfold verdict in Ev. destruct (Z.eqb_spec ct 0); [done|].
      destruct (Z.eqb_spec ct (-1)); [done|]. destruct (Z.eqb_spec ct 1) as [E1|]; [done|].
      exfalso. assert (ct = -1 ∨ ct = 0 ∨ ct = 1) as [?|[?|?]]; [|lia..].
      by apply (tw_range (ThreeWay := rels_tw (coords_ok D) tile_rel D (tile_order_ D) (tile_rel_tw _))).
    + destruct Hc as [-> | ->]; [left|right]; by apply bool_decide_eq_true.
Qed.

#[export] Instance global_rel_tw P D : ThreeWay P (global_rel D).
Proof.
  apply lex_three_way. apply Forall_app. split; apply Forall_fmap, Forall_true; intros d; simpl;
    unfold rel_at; (case_match; [apply tile_rel_tw || apply cell_rel_tw|apply (key_three_way P (λ _, 0))]).
Qed.

(** Coordinates that are the same on every dimension. *)
Definition same_coord (dim : Dimension.t) (x y : list Z) : Prop :=
  if var_size dim then x = y else key_of dim x = key_of dim y.
Definition same_coords (D : t) (a b : Coords) : Prop :=
  ∀ d dim, dimensions_ D !! d = Some dim → same_coord dim (nth d a []) (nth d b []).

Lemma key_cmp_zero x y : key_cmp x y = 0 ↔ x = y.
Proof. unfold key_cmp. destruct (Z.ltb_spec x y), (Z.ltb_spec y x); lia. Qed.

Lemma str_cmp_zero x y : str_cmp x y = 0 ↔ x = y.
Proof. unfold str_cmp, str_eq. case_bool_decide; [done|]. by case_match. Qed.

Lemma elem_of_rev {A} (x : A) l : x ∈ rev l ↔ x ∈ l.
Proof. by rewrite !list_elem_of_In, <- in_rev. Qed.

Lemma cell_rels_zero D order a b : ready D → lex (rels cell_rel D order) a b = 0 ↔ same_coords D a b.
Proof.
  intros HD. rewrite lex_zero. unfold rels. rewrite Forall_fmap. unfold same_coords, same_coord.
  assert (∀ d dim, cell_rel dim d a b = 0 ↔ same_coord dim (nth d a []) (nth d b [])) as Hz.
  { intros d dim. unfold cell_rel, same_coord. case_match; [apply str_cmp_zero|apply key_cmp_zero]. }
  split.
  - intros H d dim Hd. apply Hz. assert (d ∈ order_list D order) as Hin.
    { apply lookup_lt_Some in Hd. destruct order; simpl; unfold down, up; rewrite ?elem_of_rev,
        (ready_num D HD); unfold zlen; rewrite Nat2Z.id; apply elem_of_seq; lia. }
    rewrite Forall_forall in H. specialize (H d Hin). simpl in H. by rewrite (rel_at_some cell_rel D d dim Hd) in H.
  - intros H. apply Forall_forall. intros d _. simpl. unfold rel_at.
    destruct (dimensions_ D !! d) as [dim|] eqn:Hd; [|done]. by apply Hz, H.
Qed.

(** C27. The global order of a domain.  Once [init] has set the comparison
    functions, and unless the tile order is column-major and the first
    dimension is variable-sized, [GlobalCmp] always answers and is a strict
    weak order, as sorting and merging require: it is asymmetric, it and its
    complement are transitive, and results neither of which precedes the other
    have the same coordinates on every dimension. *)
Theorem global_cmp_strict_order D a b c : ready D → orders_ok D →
  coords_ok D a → coords_ok D b → coords_ok D c →
  ∃ ab ba bc ac, GlobalCmp D a b = Ok ab ∧ GlobalCmp D b a = Ok ba ∧
    GlobalCmp D b c = Ok bc ∧ GlobalCmp D a c = Ok ac ∧
    (ab = true → ba = false) ∧ (ab = true → bc = true → ac = true) ∧
    (ab = false → bc = false → ac = false) ∧
    (ab = false → ba = false → same_coords D a b).
Proof.
  intros HD Ho Ha Hb Hc. do 4 eexists.
  split_and!; [by apply global_cmp_spec..| | | |];
    pose proof (global_rel_tw (coords_ok D) D) as Htw;
    pose proof (tw_range a b Ha Hb); pose proof (tw_flip a b Ha Hb); pose proof (tw_flip b c Hb Hc);
    pose proof (tw_flip a c Ha Hc); pose proof (tw_trans a b c Ha Hb Hc);
    pose proof (tw_trans c b a Hc Hb Ha); pose proof (tw_trans b c a Hb Hc Ha);
    pose proof (tw_trans c a b Hc Ha Hb); pose proof (tw_range b c Hb Hc); pose proof (tw_range a c Ha Hc).
  - rewrite Z.eqb_eq, Z.eqb_neq. lia.
  - rewrite !Z.eqb_eq. lia.
  - rewrite !Z.eqb_neq. lia.
  - rewrite !Z.eqb_neq. intros Hab Hba. assert (global_rel D a b = 0) as E by lia.
    unfold global_rel in E. rewrite lex_app in E. apply (cell_rels_zero D (cell_order_ D) a b HD).
    by destruct (Z.eqb_spec (lex (rels tile_rel D (tile_order_ D)) a b) 0).
Qed.

(** ** Concrete domains *)

(** A string dimension followed by an [int32_t] one. *)
Definition mixed_domain (tile_order : Layout) : t :=
  snd (init ROW_MAJOR tile_order
    (with_dimensions empty [make [115] STRING_ASCII; int_dim I32 INT32 0 99 10] 2)).

Definition mixed_coords (s : list Z) (v : Z) : Coords := [s; nenc (NInt I32) v].

Lemma mixed_ready tile_order : ready (mixed_domain tile_order).
Proof. by split. Qed.

Lemma mixed_coords_ok tile_order s v : in_ctype I32 v → 0 ≤ v →
  coords_ok (mixed_domain tile_order) (mixed_coords s v).
Proof.
  intros Hv H0. unfold coords_ok.
  replace (dimensions_ (mixed_domain tile_order)) with
    [make [115] STRING_ASCII; int_dim I32 INT32 0 99 10] by (by destruct tile_order).
  constructor; [done|]. constructor; [|constructor].
  exists (NInt I32), v. split_and!; try done. right. exists (v / 10).
  unfold tile_key, int_dim, pair_of, make_range, set_range. cbn [tile_extent_ domain_ range_].
  rewrite (rd_coord (NInt I32) 10) by done. cbn [mbind res_bind].
  rewrite (rd_at (NInt I32) _ [] 0 (nenc (NInt I32) 99) 0) by done. cbn [mbind res_bind].
  rewrite nsub_int by (by rewrite Z.sub_0_r). cbn [mbind res_bind]. rewrite Z.sub_0_r.
  rewrite ndiv_int by done. cbn [mbind res_bind n_to_u64]. f_equal. apply conv_id.
  pose proof (Z.div_pos v 10 H0). pose proof (Z.div_le_upper_bound v 10 v). unfold_ctype. simpl in *. lia.
Qed.

Lemma global_cmp_strict_order_witness :
  ∃ r, GlobalCmp (mixed_domain ROW_MAJOR) (mixed_coords [97; 98] 7) (mixed_coords [97] 12) = Ok r.
Proof.
  destruct (global_cmp_strict_order (mixed_domain ROW_MAJOR) (mixed_coords [97; 98] 7) (mixed_coords [97] 12)
    (mixed_coords [99] 3) (mixed_ready _)) as (r & _ & _ & _ & H & _);
    [split; by left|by apply mixed_coords_ok..|by exists r].
Defined.

(** With a column-major tile order and a variable-sized first dimension,
    comparing two results of the same tile runs past dimension 0 and
    dereferences a null dimension; the comparison by position, whose loop is
    written differently, answers. *)
Theorem global_cmp_wraps_past_zero :
  GlobalCmp (mixed_domain COL_MAJOR) (mixed_coords [97] 3) (mixed_coords [98] 4) = UB ∧
  GlobalCmp_pos (mixed_domain COL_MAJOR)
    [mkQueryBuffer (to_bytes U64 0 ++ to_bytes U64 1) [97; 98] 16 2;
     mkQueryBuffer (nenc (NInt I32) 3 ++ nenc (NInt I32) 4) [] 8 0] 0 1 = Ok true.
Proof. by vm_compute. Qed.

(** The two comparisons of strings disagree on bytes above 127: the one
    on buffers compares signed characters, the one on results unsigned bytes. *)
Theorem string_order_disagrees :
  let D := mixed_domain ROW_MAJOR in
  call_cell_cmp (Some CmpChar) (make [115] STRING_ASCII)
    (mkQueryBuffer (to_bytes U64 0 ++ to_bytes U64 1) [200; 100] 16 2) 0 1 = Ok (-1) ∧
  cell_order_cmp_results D 0 [200] [100] = Ok 1.
Proof. by vm_compute. Qed.
