(* ===== verification/RTree.v ===== *)
(** * RTree (rtree/rtree.cc, misc/tile_overlap.h)

    The index of the minimum bounding rectangles (MBRs) of the tiles of a
    sparse fragment.  The leaves are the MBRs of the tiles; the nodes of a
    level are the MBRs of groups of [fanout_] nodes of the level below; the
    root is the first level. *)

From Stdlib Require Import SpecFloat.
From S2P Require Import Prelude.
From S2P Require Import Enums.
From S2P Require Import Num.
From S2P Require Import NumFacts.
From S2P Require Import Range.
From S2P Require Import ConstBuffer.
From S2P Require Import Buffer.
From S2P Require Import Loops.
From S2P Require Import Dimension.
From S2P Require Import Domain.
Local Open Scope Z_scope.

Abbreviation Level := (list NDRange).

(** [domain_ = None] is a null pointer. *)
Record t : Type := mk {
  domain_ : option Domain.t;
  fanout_ : Z;
  levels_ : list Level
}.

(** [RTree()] and [RTree(domain, fanout)]. *)
Definition empty : t := mk None 0 [].
Definition make (domain : option Domain.t) (fanout : Z) : t := mk domain fanout [].

(** [clone], the copy constructor and [swap]. *)
Definition clone (T : t) : t := mk (domain_ T) (fanout_ T) (levels_ T).
Definition swap : M (t * t) unit := fun '(a, b) => (Ok (), (b, a)).

Definition with_levels (T : t) (ls : list Level) : t := mk (domain_ T) (fanout_ T) ls.

Definition dim_num (T : t) : Z := match domain_ T with Some D => dim_num_ D | None => 0 end.
Definition height (T : t) : Z := conv U32 (zlen (levels_ T)).

(** [levels_.back()]. *)
Definition back (T : t) : res Level :=
  match last (levels_ T) with Some l => Ok l | None => UB end.

Definition leaf (T : t) (leaf_idx : Z) : res NDRange :=
  l ← back T; massert (leaf_idx <? zlen l);; idx l (Z.to_nat leaf_idx).
Definition leaves (T : t) : res Level := massert (negb (bool_decide (levels_ T = [])));; back T.

Definition subtree_leaf_num (T : t) (level : Z) : Z :=
  if zlen (levels_ T) <=? level then 0
  else
    let subtree_height := u64 (height T - level) in
    foldr (λ _ n, u64 (n * fanout_ T)) 1 (up (subtree_height - 1)).

(** ** Construction *)

(** [ceil(x)] of a finite [double]. *)
Definition f_ceil (x : Z) : res Z :=
  match fdec F64 x with
  | S754_zero _ => Ok 0
  | S754_finite s p e =>
      let m := if s then Z.neg p else Z.pos p in
      Ok (if 0 <=? e then m * 2 ^ e else - (- m / 2 ^ (- e)))
  | _ => UB
  end.

(** [(uint64_t)ceil((double)n / fanout_)]. *)
Definition ceil_quot (n fanout : Z) : res Z :=
  in_range U64 (f_ceil (fdiv F64 (nlit (NFlt F64) n) (nlit (NFlt F64) fanout))).

(** [mbr_num] nodes of [level] from [visited] on, merged into one. *)
Definition merge_group (D : Domain.t) (level : Level) (visited mbr_num : Z) : res NDRange :=
  for_each (up mbr_num) (λ j mbr,
    x ← idx level (Z.to_nat visited + j); expand_ndrange D x mbr) [].

Fixpoint build_groups (n : nat) (D : Domain.t) (fanout : Z) (level : Level) (visited : Z) : res Level :=
  match n with
  | O => Ok []
  | S n =>
      let mbr_num := Z.min fanout (u64 (zlen level - visited)) in
      mbr ← merge_group D level visited mbr_num;
      rest ← build_groups n D fanout level (visited + mbr_num);
      Ok (mbr :: rest)
  end.

Definition build_level (T : t) (level : Level) : res Level :=
  new_mbr_num ← ceil_quot (zlen level) (fanout_ T);
  match domain_ T with
  | Some D => build_groups (Z.to_nat new_mbr_num) D (fanout_ T) level 0
  | None => if new_mbr_num =? 0 then Ok [] else UB
  end.

(** [height - 1] levels are added on top of the last one. *)
Fixpoint add_levels (n : nat) (T : t) (ls : list Level) : res (list Level) :=
  match n with
  | O => Ok ls
  | S n =>
      match last ls with
      | Some l => new_level ← build_level T l; add_levels n T (ls ++ [new_level])
      | None => UB
      end
  end.

Section Build.
(** [::log] of the C library, on [double]. *)
Context (libm_log : Z → Z).

(** [utils::math::log(b, x)]. *)
Definition math_log (b x : Z) : Z :=
  fdiv F64 (libm_log (nlit (NFlt F64) x)) (libm_log (nlit (NFlt F64) b)).

Definition build_tree : M t unit := fun T =>
  match levels_ T with
  | [] => (Ok (), T)
  | [l] =>
      let leaf_num := zlen l in
      if leaf_num =? 0 then (UB, T)
      else if leaf_num =? 1 then (Ok (), T)
      else
        match (c ← in_range U64 (f_ceil (math_log (fanout_ T) leaf_num));
               add_levels (Z.to_nat (u64 (u64 (c + 1) - 1))) T (levels_ T)) with
        | Ok ls => (Ok (), with_levels T (rev ls))
        | Err c e => (Err c e, T)
        | UB => (UB, T)
        end
  | _ => (UB, T)
  end.

End Build.

(** ** Leaves *)

Definition set_leaf (leaf_id : Z) (mbr : NDRange) : M t unit := fun T =>
  match levels_ T with
  | [l] =>
      if zlen l <=? leaf_id then (Err SC_RTreeError "Cannot set leaf; Invalid lead index", T)
      else (Ok (), with_levels T [<[Z.to_nat leaf_id := mbr]> l])
  | _ => (Err SC_RTreeError "Cannot set leaf; There are more than one levels in the tree", T)
  end.

Definition set_leaves (mbrs : Level) : M t unit := fun T => (Ok (), with_levels T [mbrs]).

(** [std::vector::resize], with a default element. *)
Definition vresize {A} (d : A) (n : Z) (l : list A) : list A :=
  take (Z.to_nat n) l ++ replicate (Z.to_nat n - length l) d.

Definition set_leaf_num (num : Z) : M t unit := fun T =>
  let ls := if zlen (levels_ T) =? 1 then levels_ T else vresize [] 1 (levels_ T) in
  match ls with
  | [l] =>
      if num <? zlen l then
        (Err SC_RTreeError "Cannot set number of leaves; provided number cannot be smaller than the current leaf number",
         with_levels T ls)
      else (Ok (), with_levels T [vresize [] num l])
  | _ => (UB, T)
  end.

(** ** Overlap with a range *)

Record TileOverlap : Type := mkOverlap {
  tiles_ : list (Z * Z);
  tile_ranges_ : list (Z * Z)
}.

Definition no_overlap : TileOverlap := mkOverlap [] [].

(** The level and the index of a node. *)
Abbreviation Entry := (nat * Z)%type.

(** [push_front] of the children, the last one first. *)
Definition push_children (fanout next_mbr_num : Z) (level : nat) (mbr_idx : Z) (traversal : list Entry) : list Entry :=
  let start := u64 (mbr_idx * fanout) in
  let end_ := Z.min (u64 (start + fanout - 1)) (u64 (next_mbr_num - 1)) in
  foldl (λ tr i, (S level, end_ - (i - start)) :: tr) traversal (seqZ start (end_ - start + 1)).

Definition visit_entry (T : t) (D : Domain.t) (range : NDRange) (leaf_num : Z) (entry : Entry)
  (traversal : list Entry) (overlap : TileOverlap) : res (list Entry * TileOverlap) :=
  let '(level, mbr_idx) := entry in
  l ← idx (levels_ T) level;
  mbr ← idx l (Z.to_nat mbr_idx);
  ratio ← overlap_ratio D range mbr;
  if feq F64 ratio 0 then Ok (traversal, overlap)
  else if feq F64 ratio f_one then
    let n := subtree_leaf_num T (Z.of_nat level) in
    massert (0 <? n);;
    let start := u64 (mbr_idx * n) in
    let end_ := u64 (start + Z.min n (u64 (leaf_num - start)) - 1) in
    Ok (traversal, mkOverlap (tiles_ overlap) (tile_ranges_ overlap ++ [(start, end_)]))
  else if Z.of_nat level =? height T - 1 then
    Ok (traversal, mkOverlap (tiles_ overlap ++ [(mbr_idx, ratio)]) (tile_ranges_ overlap))
  else
    next ← idx (levels_ T) (S level);
    Ok (push_children (fanout_ T) (zlen next) level mbr_idx traversal, overlap).

(** [while (!traversal.empty())]: every node is visited at most once. *)
Fixpoint traverse (fuel : nat) (T : t) (D : Domain.t) (range : NDRange) (leaf_num : Z)
  (traversal : list Entry) (overlap : TileOverlap) : res TileOverlap :=
  match traversal with
  | [] => Ok overlap
  | entry :: traversal =>
      match fuel with
      | O => UB
      | S fuel =>
          '(traversal, overlap) ← visit_entry T D range leaf_num entry traversal overlap;
          traverse fuel T D range leaf_num traversal overlap
      end
  end.

Definition node_num (T : t) : nat := sum_list (length <$> levels_ T).

Definition get_tile_overlap (T : t) (range : NDRange) : res TileOverlap :=
  match domain_ T, last (levels_ T) with
  | Some D, Some l => traverse (node_num T) T D range (zlen l) [(0%nat, 0)] no_overlap
  | _, _ => Ok no_overlap
  end.

(** ** Serialization *)

(** [*domain_->dimension(d)]. *)
Definition dim_of (D : Domain.t) (d : nat) : res Dimension.t := dim_at D d.

Definition serialize_range `{Allocator} (dim : Dimension.t) (r : Range) : M Buffer.t unit :=
  if negb (var_size dim) then Buffer.write (range_ r)
  else
    write_val U64 (range_size r);;
    write_val U64 (start_size r);;
    Buffer.write (range_ r).

Definition serialize_mbr `{Allocator} (D : Domain.t) (mbr : NDRange) : M Buffer.t unit :=
  write_many (λ d, r ← lift (idx mbr d); dim ← lift (dim_of D d); serialize_range dim r) (up (dim_num_ D)).

Definition serialize_level `{Allocator} (D : Domain.t) (level : Level) : M Buffer.t unit :=
  write_val U64 (zlen level);; write_many (serialize_mbr D) level.

Definition serialize `{Allocator} (T : t) : M Buffer.t unit :=
  write_val U32 (fanout_ T);;
  write_val U32 (conv U32 (zlen (levels_ T)));;
  D ← lift (match domain_ T with Some D => Ok D | None => UB end);
  write_many (serialize_level D) (take (Z.to_nat (conv U32 (zlen (levels_ T)))) (levels_ T)).

(** A reader that leaves a value behind also when it fails: the elements of a
    resized vector that it did not reach keep their default value. *)
Definition Reader (A : Type) : Type := ConstBuffer.t → (res unit * A) * ConstBuffer.t.

Fixpoint fill {I A} (ixs : list I) (rd : I → Reader A) (d : A) : Reader (list A) := fun b =>
  match ixs with
  | [] => ((Ok (), []), b)
  | i :: ixs =>
      match rd i b with
      | ((Ok _, a), b') => let '((r, l), b'') := fill ixs rd d b' in ((r, a :: l), b'')
      | ((r, a), b') => ((r, a :: ((λ _, d) <$> ixs)), b')
      end
  end.

(** [r.set_range(cbuff->cur_data(), size, ...); cbuff->advance_offset(size)]:
    the size is not checked. *)
Definition take_bytes (size : Z) (mkr : list Z → Range) : Reader Range := fun b =>
  match cur_data b size with
  | Ok bs => ((Ok (), mkr bs), snd (ConstBuffer.advance_offset size b))
  | _ => ((UB, empty_range), b)
  end.

(** A value that is read, and a reader that continues with it. *)
Definition then_read {A B} (m : M ConstBuffer.t A) (d : B) (k : A → Reader B) : Reader B := fun b =>
  match m b with
  | (Ok a, b') => k a b'
  | (Err c e, b') => ((Err c e, d), b')
  | (UB, b') => ((UB, d), b')
  end.

Definition read_range_fixed (D : Domain.t) (d : nat) : Reader Range := fun b =>
  match dim_of D d with
  | Ok dim => take_bytes (2 * coord_size dim) make_range b
  | _ => ((UB, empty_range), b)
  end.

(** The format from version 5 on; [own] is the domain of the tree itself. *)
Definition read_range_v5 (own : option Domain.t) (D : Domain.t) (d : nat) : Reader Range := fun b =>
  match own with
  | Some D0 =>
      match dim_of D0 d with
      | Ok dim =>
          if negb (var_size dim) then read_range_fixed D d b
          else
            then_read (read_val U64) empty_range (λ r_size,
              then_read (read_val U64) empty_range (λ start_size,
                take_bytes r_size (λ bs, make_range_sized bs start_size))) b
      | _ => ((UB, empty_range), b)
      end
  | None => ((UB, empty_range), b)
  end.

Definition read_level (D : Domain.t) (rd : nat → Reader Range) : Reader Level :=
  then_read (read_val U64) [] (λ mbr_num,
    fill (up mbr_num) (λ _, fill (up (dim_num_ D)) rd empty_range) []).

(** The loops of both formats, and the assignment of the domain at the end. *)
Definition load_levels (level_num : Z) (D : Domain.t) (rd : nat → Reader Range) : M (ConstBuffer.t * t) unit :=
  fun '(b, T) =>
    let '((r, ls), b') := fill (up level_num) (λ _, read_level D rd) [] b in
    match r with
    | Ok _ => (Ok (), (b', mk (Some D) (fanout_ T) ls))
    | Err c e => (Err c e, (b', with_levels T ls))
    | UB => (UB, (b', with_levels T ls))
    end.

Definition set_fanout (f : Z) : M t unit := fun T => (Ok (), mk (domain_ T) f (levels_ T)).

Definition deserialize_v1_v4 (D : Domain.t) : M (ConstBuffer.t * t) unit :=
  on_fst (read_val U32);;
  f ← on_fst (read_val U32);
  on_snd (set_fanout f);;
  on_fst (read_val U8);;
  level_num ← on_fst (read_val U32);
  load_levels level_num D (read_range_fixed D).

Definition deserialize_v5 (D : Domain.t) : M (ConstBuffer.t * t) unit :=
  f ← on_fst (read_val U32);
  on_snd (set_fanout f);;
  level_num ← on_fst (read_val U32);
  if level_num =? 0 then mret ()
  else '(_, T) ← get; load_levels level_num D (read_range_v5 (domain_ T) D).

Definition deserialize (D : Domain.t) (version : Z) : M (ConstBuffer.t * t) unit :=
  if version <? 5 then deserialize_v1_v4 D else deserialize_v5 D.
