(* ===== verification/RTreeBuild.v ===== *)
(** * The levels that [build_tree] adds

    [ceil((double)n / fanout)], the number of nodes of a level, is the rounded-up
    quotient, although the division itself is rounded. *)

From Stdlib Require Import SpecFloat.
From S2P Require Import Prelude.
From S2P Require Import Num.
From S2P Require Import NumFacts.
From S2P Require Import Loops.
From S2P Require Import Range.
From S2P Require Import Dimension.
From S2P Require Import DimensionProofs.
From S2P Require Import Domain.
From S2P Require Import DomainRanges.
From S2P Require Import RTree.
Local Open Scope Z_scope.

(** A rounded significand, in units of [2^E]. *)
Lemma finish_value m E : 2 ^ 52 ≤ m ≤ 2 ^ 53 → -1074 ≤ E ≤ 970 →
  ∃ p e, finish false m E = S754_finite false p e ∧ normal (Z.pos p) ∧ E ≤ e ≤ E + 1 ∧
    Z.pos p * 2 ^ (e - E) = m.
Proof.
  intros Hm HE. destruct (decide (m = 2 ^ 53)) as [->|Hne].
  - exists 4503599627370496%positive, (E + 1). rewrite finish_54 by lia.
    split_and!; [done|unfold normal; lia..|]. by replace (E + 1 - E) with 1 by lia.
  - destruct m as [|p|p]; try lia. exists p, E. rewrite finish_53 by (unfold normal; lia).
    split_and!; [done|unfold normal; lia|lia..|]. rewrite Z.sub_diag. lia.
Qed.

(** 53 or 54 bits rounded to 53, in units of [2^E]. *)
Lemma round_aux_value q E l : 2 ^ 52 ≤ q < 2 ^ 54 → -1074 ≤ E ≤ 900 →
  ∃ p e, binary_round_aux 53 1024 false q E l = S754_finite false p e ∧ normal (Z.pos p) ∧
    E ≤ e ≤ E + 2 ∧ q - 1 ≤ Z.pos p * 2 ^ (e - E) ≤ q + 2 ∧
    (Z.even q = true → l = loc_Exact → Z.pos p * 2 ^ (e - E) = q).
Proof.
  intros Hq HE. destruct (decide (q < 2 ^ 53)) as [Hlt|Hge].
  - erewrite round_aux_finish by (apply shr_fexp_53; [unfold normal; lia|lia]).
    rewrite loc_of_shr, shr_m_of. pose proof (round_bound q l) as Hr.
    destruct (finish_value (round_nearest_even q l) E) as (p & e & -> & Hp & He & Ev); [lia..|].
    exists p, e. rewrite Ev. split_and!; try done; try lia. by intros _ ->.
  - erewrite round_aux_finish by (apply shr_fexp_54; lia).
    destruct (shr_1_half q l) as [-> Hex]; [lia|].
    set (l' := loc_of_shr_record _) in *. pose proof (round_bound (q / 2) l') as Hr.
    pose proof (Z.div_mod q 2 ltac:(lia)). pose proof (Z.mod_pos_bound q 2 ltac:(lia)).
    destruct (finish_value (round_nearest_even (q / 2) l') (E + 1)) as (p & e & -> & Hp & He & Ev); [lia..|].
    assert (Z.pos p * 2 ^ (e - E) = 2 * round_nearest_even (q / 2) l') as Ev'.
    { rewrite <- Ev. replace (e - E) with (1 + (e - (E + 1))) by lia. rewrite Z.pow_add_r by lia. lia. }
    exists p, e. rewrite Ev'. split_and!; try done; try lia.
    intros Hev Hl. rewrite (Hex Hev Hl). cbn [round_nearest_even].
    apply Z.even_spec in Hev as [k ->]. rewrite (Z.mul_comm 2 k), Z.div_mul by lia. lia.
Qed.

(** A number close to [n / f], in units of [1 / S], rounds up as [n / f] does. *)
Lemma ceil_near n f q W S : 0 < n → 0 < f → 0 < S → 4 * f ≤ S →
  q * f ≤ n * S < (q + 1) * f → q - 1 ≤ W ≤ q + 2 →
  (n * S = q * f → Z.even q = true → W = q) → Z.even S = true →
  let k := (n + f - 1) / f in (k - 1) * S < W ≤ k * S.
Proof.
  intros Hn Hf HS H4 Hq HW Hex HeS k.
  assert ((k - 1) * f < n ≤ k * f) as [K1 K2].
  { unfold k. pose proof (Z.div_mod (n + f - 1) f ltac:(lia)).
    pose proof (Z.mod_pos_bound (n + f - 1) f ltac:(lia)). nia. }
  destruct (decide (n = k * f)) as [E|Hne].
  - assert (q = k * S) as Eq by nia.
    rewrite Hex; [nia|nia|]. rewrite Eq, Z.even_mul, HeS. apply orb_true_r.
  - assert (n + 1 ≤ k * f ∧ (k - 1) * f + 1 ≤ n) as [N1 N2] by lia.
    split.
    + assert ((k - 1) * S * f + 4 * f ≤ n * S) by nia. nia.
    + assert (n * S + 4 * f ≤ k * S * f) by nia. nia.
Qed.

Lemma f_ceil_between p e k : e < 0 → (k - 1) * 2 ^ (- e) < Z.pos p ≤ k * 2 ^ (- e) →
  - (- Z.pos p / 2 ^ (- e)) = k.
Proof.
  intros He Hk. assert (0 < 2 ^ (- e)) by (apply Z.pow_pos_nonneg; lia).
  assert (- Z.pos p / 2 ^ (- e) = - k); [|lia].
  symmetry. apply Z.div_unique with (k * 2 ^ (- e) - Z.pos p); lia.
Qed.

(** The significands of [n] and [f], and their quotient. *)
Lemma quotient_scaled n f m1 e1 m2 e2 : 0 < n ≤ 2 ^ 50 → 0 < f →
  normal m1 → normal m2 → -52 ≤ e1 ≤ 1 → -52 ≤ e2 ≤ 1 →
  n * 2 ^ 52 = m1 * 2 ^ (e1 + 52) → f * 2 ^ 52 = m2 * 2 ^ (e2 + 52) →
  let q := m1 * 2 ^ 53 / m2 in let S := 2 ^ (53 + e2 - e1) in
  2 ^ 52 ≤ q < 2 ^ 54 ∧ e1 - e2 - 53 ≤ -2 ∧ 4 * f ≤ S ∧ q * f ≤ n * S < (q + 1) * f ∧
  (n * S = q * f → m1 * 2 ^ 53 mod m2 = 0).
Proof.
  intros Hn Hf N1 N2 L1 L2 V1 V2 q S. unfold normal in *.
  pose proof (Z.div_mod (m1 * 2 ^ 53) m2 ltac:(lia)) as Hdm. fold q in Hdm.
  pose proof (Z.mod_pos_bound (m1 * 2 ^ 53) m2 ltac:(lia)) as Hrem. set (r := _ mod _) in *.
  assert (2 ^ 52 ≤ q < 2 ^ 54) as Hq by nia.
  assert (0 < 2 ^ (e2 + 52)) as HB by (apply Z.pow_pos_nonneg; lia).
  assert (S * 2 ^ (e1 + 52) = 2 ^ 53 * 2 ^ (e2 + 52)) as HS.
  { unfold S. rewrite <- !Z.pow_add_r by lia. f_equal. lia. }
  set (A := 2 ^ (e1 + 52)) in *. set (B := 2 ^ (e2 + 52)) in *.
  assert (n * S * 2 ^ 52 = m1 * 2 ^ 53 * B) as EnS by nia.
  assert (q * f * 2 ^ 52 = q * m2 * B) as Eqf by nia.
  assert ((q + 1) * f * 2 ^ 52 = (q + 1) * m2 * B) as Eqf' by nia.
  assert (q * f ≤ n * S < (q + 1) * f) as Hqf by nia.
  assert (4 * f ≤ S) as H4 by nia.
  split_and!; try done; try lia; [|nia].
  destruct (decide (e1 - e2 - 53 ≤ -2)); [done|]. assert (S ≤ 2 ^ 1); [|lia].
  unfold S. apply Z.pow_le_mono_r; lia.
Qed.

Lemma ceil_quot_exact n f : 0 < n ≤ 2 ^ 50 → 0 < f < 2 ^ 32 → ceil_quot n f = Ok ((n + f - 1) / f).
Proof.
  intros Hn Hf.
  destruct (f_of_Z_repr n) as (m1 & e1 & E1 & N1 & L1 & V1); [lia|].
  destruct (f_of_Z_repr f) as (m2 & e2 & E2 & N2 & L2 & V2); [lia|].
  destruct (quotient_scaled n f (Z.pos m1) e1 (Z.pos m2) e2) as (Hq & He & H4 & Hn' & Hex); try done; [lia|].
  set (q := Z.pos m1 * 2 ^ 53 / Z.pos m2) in *. set (S := 2 ^ (53 + e2 - e1)) in *.
  destruct (round_aux_value q (e1 - e2 - 53) (new_location (Z.pos m2) (Z.pos m1 * 2 ^ 53 mod Z.pos m2)))
    as (p & e & Er & Hp & Be & HW & Hexact); [done|lia|].
  assert (fdec F64 (fdiv F64 (nlit (NFlt F64) n) (nlit (NFlt F64) f)) = S754_finite false p e) as Ed.
  { unfold fdiv, nlit. rewrite E1, E2, !fdec_fenc_normal by (done || lia). simpl prec. simpl emax.
    unfold SFdiv. rewrite div_core by (done || lia). simpl xorb. fold q. rewrite Er.
    apply fdec_fenc_normal; [done|lia]. }
  assert (0 < S) as HS by (apply Z.pow_pos_nonneg; lia).
  set (W := Z.pos p * 2 ^ (e - (e1 - e2 - 53))) in *.
  destruct (ceil_near n f q W S) as [K1 K2]; try done; try lia.
  { intros Eq Hev. apply Hexact; [done|]. rewrite (Hex Eq).
    unfold new_location, new_location_even, new_location_odd; by case_match. }
  { unfold S. rewrite Z.even_pow by lia. done. }
  set (k := (n + f - 1) / f) in *. assert (0 ≤ k ≤ 2 ^ 50) as Hk.
  { unfold k. split; [apply Z.div_pos; lia|]. apply Z.div_le_upper_bound; [lia|]. clear -Hn Hf. nia. }
  assert (e < 0) as Hneg.
  { destruct (decide (e < 0)); [done|exfalso]. unfold normal in Hp.
    assert (S ≤ 2 ^ (e - (e1 - e2 - 53))) by (apply Z.pow_le_mono_r; lia).
    clear -H Hp K2 HS Hk. nia. }
  assert (2 ^ (- e) * 2 ^ (e - (e1 - e2 - 53)) = S) as ES
    by (unfold S; rewrite <- Z.pow_add_r by lia; f_equal; lia).
  assert (0 < 2 ^ (e - (e1 - e2 - 53))) by (apply Z.pow_pos_nonneg; lia).
  unfold ceil_quot, in_range, f_ceil. rewrite Ed. rewrite (proj2 (Z.leb_gt 0 e)) by done.
  rewrite (f_ceil_between p e k Hneg) by (clear -K1 K2 ES H; nia). cbn [mbind res_bind].
  by rewrite (proj2 (fits_spec U64 k)) by (unfold_ctype; lia).
Qed.

(** ** Levels *)

(** ** Covering boxes *)

Lemma covers_refl xs : covers xs xs = true.
Proof. induction xs as [|x xs IH]; [done|]. simpl. unfold cover1. rewrite IH, andb_true_r. lia. Qed.

Lemma covers_trans xs ys zs : length xs = length ys → length ys = length zs →
  covers xs ys = true → covers ys zs = true → covers xs zs = true.
Proof.
  revert ys zs. induction xs as [|x xs IH]; intros [|y ys] [|z zs] L1 L2; simpl in *; try done.
  unfold cover1. rewrite !andb_true_iff. intros [C1 C2] [C3 C4]. split; [lia|].
  apply (IH ys); by lia || done.
Qed.

Lemma covers_hull xs ys : length xs = length ys →
  covers (hull xs ys) xs = true ∧ covers (hull xs ys) ys = true ∧
  ∀ ds, covers ds xs = true → covers ds ys = true → covers ds (hull xs ys) = true.
Proof.
  revert ys. induction xs as [|x xs IH]; intros [|y ys] L; simpl in *; try done.
  destruct (IH ys) as (H1 & H2 & H3); [lia|]. unfold hull in *. simpl. rewrite H1, H2.
  unfold cover1, hull1. simpl. split_and!; [lia..|]. intros [|d ds]; [done|]. simpl.
  unfold cover1. rewrite !andb_true_iff. simpl. intros [C1 C2] [C3 C4]. split; [lia|by apply H3].
Qed.

(** A box that meets a part of a box meets the box. *)
Lemma meets_covers xs ys zs : length xs = length ys → length ys = length zs → proper zs →
  covers ys zs = true → meets xs zs = true → meets xs ys = true.
Proof.
  revert ys zs. induction xs as [|x xs IH]; intros [|y ys] [|z zs] L1 L2 Hz; simpl in *; try done.
  inversion_clear Hz. unfold cover1, meet1. rewrite !andb_true_iff. intros [C1 C2] [C3 C4].
  split; [lia|]. apply (IH ys zs); by lia || done.
Qed.

Lemma covers_meets xs ys : length xs = length ys → proper ys → covers xs ys = true → meets xs ys = true.
Proof.
  revert ys. induction xs as [|x xs IH]; intros [|y ys] L Hy; simpl in *; try done.
  inversion_clear Hy. unfold cover1, meet1. rewrite !andb_true_iff. intros [C1 C2].
  split; [lia|]. apply IH; by lia || done.
Qed.

Lemma small_covers D ds ys : small D ds → length ys = length ds → proper ys → covers ds ys = true → small D ys.
Proof.
  unfold small. generalize (dimensions_ D) as dims. intros dims H. revert ys.
  induction H as [|dim d dims ds Hd _ IH]; intros [|y ys] L Hp; try done.
  inversion_clear Hp. cbn [covers]. unfold cover1. rewrite !andb_true_iff. intros [C1 C2].
  constructor; [|apply IH; [simpl in L; lia|done..]].
  intros ty Ht. destruct (Hd ty Ht) as [Hc Hs]. split; [|lia].
  apply (in_between _ 1 _ (d.2 - d.1 + 1)); [by destruct ty|done|lia].
Qed.

(** ** Levels *)

Section Levels.
Context (D : Domain.t) (dom : list (Z * Z)).
Hypothesis dims_some : dimensions_ D ≠ [].

(** A node with its box, inside the box [dom]. *)
Definition node (r : NDRange) (b : list (Z * Z)) : Prop := box D r b ∧ covers dom b = true.

Lemma node_length r b : node r b → length b = length (dimensions_ D) ∧ proper b.
Proof. intros [Hb _]. by destruct (box_proper D r b Hb). Qed.

Lemma node_merge r1 r2 b1 b2 : node r1 b1 → node r2 b2 →
  ∃ r b, expand_ndrange D r1 r2 = Ok r ∧ node r b ∧ covers b b1 = true ∧ covers b b2 = true.
Proof.
  intros N1 N2. destruct (node_length _ _ N1) as [L1 _], (node_length _ _ N2) as [L2 _].
  destruct N1 as [B1 C1], N2 as [B2 C2].
  destruct (nd_expand_spec D r1 r2 b1 b2 B1 B2 dims_some) as (r & Er & Hr).
  destruct (covers_hull b1 b2) as (H1 & H2 & H3); [congruence|].
  exists r, (hull b1 b2). split_and!; try done. split; [done|by apply H3].
Qed.

(** The box of a group covers the boxes of its members. *)
Lemma merge_rest rs bs : Forall2 node rs bs → ∀ r0 b0, node r0 b0 →
  ∃ r b, for_each rs (expand_ndrange D) r0 = Ok r ∧ node r b ∧ covers b b0 = true ∧
    Forall (λ x, covers b x = true) bs.
Proof.
  induction 1 as [|r1 b1 rs bs N1 _ IH]; intros r0 b0 N0.
  - exists r0, b0. split_and!; [done|done|apply covers_refl|constructor].
  - destruct (node_merge r1 r0 b1 b0 N1 N0) as (r & b & Er & Nr & C1 & C0).
    destruct (IH r b Nr) as (r' & b' & Er' & Nr' & C & Cs). exists r', b'.
    simpl. rewrite Er. split_and!; [done|done| |constructor; [|done]];
      apply (covers_trans _ b); try done; repeat match goal with H : node _ _ |- _ => apply node_length in H as [? _] end;
      congruence.
Qed.

Lemma merge_group_spec level bs visited n :
  Forall2 node level bs → 0 ≤ visited → 0 < n → visited + n ≤ zlen level →
  ∃ r b, merge_group D level visited n = Ok r ∧ node r b ∧
    ∀ c x, bs !! c = Some x → visited ≤ Z.of_nat c < visited + n → covers b x = true.
Proof.
  intros HF Hv Hn Hz. unfold merge_group, zlen in *.
  set (rs := take (Z.to_nat n) (drop (Z.to_nat visited) level)).
  set (cs := take (Z.to_nat n) (drop (Z.to_nat visited) bs)).
  assert (Forall2 node rs cs) as HF' by by apply Forall2_take, Forall2_drop.
  assert (length rs = Z.to_nat n) as Lrs by (unfold rs; rewrite length_take, length_drop; lia).
  rewrite (for_each_up rs _ (expand_ndrange D)).
  2: { unfold zlen. rewrite Lrs. lia. }
  2: { intros k r s Hk. rewrite (idx_ok _ _ r); [done|]. apply lookup_take_Some in Hk as [Hk _].
       by rewrite lookup_drop in Hk. }
  assert (∀ c x, bs !! c = Some x → visited ≤ Z.of_nat c < visited + n → x ∈ cs) as Hin.
  { intros c x Hc Hr. apply (list_elem_of_lookup_2 _ (c - Z.to_nat visited)). unfold cs.
    rewrite lookup_take_lt, lookup_drop by lia. by replace (Z.to_nat visited + (c - Z.to_nat visited))%nat with c by lia. }
  clearbody rs cs. inversion HF' as [|r0 b0 rs' cs' N0 HF'']; subst; [simpl in Lrs; lia|].
  destruct (merge_rest rs' cs' HF'' r0 b0 N0) as (r & b & Er & Nr & C0 & Cs).
  exists r, b. split_and!; [|done|].
  - cbn [for_each]. by change (expand_ndrange D r0 []) with (Ok r0).
  - intros c x Hc Hr. specialize (Hin c x Hc Hr). apply elem_of_cons in Hin as [->|Hin]; [done|].
    by eapply Forall_forall in Cs.
Qed.

(** The children of the node [p] are the nodes [c] with [c / f = p]. *)
Definition linked (f : Z) (ps cs : list (list (Z * Z))) : Prop :=
  zlen ps = (zlen cs + f - 1) / f ∧
  ∀ c x, cs !! c = Some x → ∃ p, ps !! Z.to_nat (Z.of_nat c / f) = Some p ∧ covers p x = true.

Lemma build_groups_spec f level bs : 0 < f → zlen level < 2 ^ 64 → Forall2 node level bs →
  ∀ n v, 0 ≤ v → (Z.of_nat n - 1) * f < zlen level - v ≤ Z.of_nat n * f → v ≤ zlen level →
  ∃ rs ps, build_groups n D f level v = Ok rs ∧ Forall2 node rs ps ∧ length ps = n ∧
    ∀ c x, bs !! c = Some x → v ≤ Z.of_nat c →
      ∃ p, ps !! Z.to_nat ((Z.of_nat c - v) / f) = Some p ∧ covers p x = true.
Proof.
  intros Hf Hlt HF. induction n as [|n IH]; intros v Hv Hn Hle.
  - exists [], []. split_and!; [done|constructor|done|]. intros c x Hc Hcv.
    apply lookup_lt_Some in Hc. apply Forall2_length in HF. unfold zlen in *. lia.
  - cbn [build_groups]. rewrite u64_id by lia. set (m := Z.min f (zlen level - v)).
    assert (0 < m ∧ v + m ≤ zlen level) as [Hm Hvm] by nia.
    destruct (merge_group_spec level bs v m HF Hv Hm Hvm) as (r & b & Er & Nr & Hcov).
    destruct (IH (v + m)) as (rs & ps & Ers & HFr & Hlen & Hps); [lia|nia|lia|].
    exists (r :: rs), (b :: ps). rewrite Er. cbn [mbind res_bind]. rewrite Ers. cbn [mbind res_bind].
    split_and!; [done|by constructor|simpl; congruence|]. intros c x Hc Hcv.
    pose proof (lookup_lt_Some _ _ _ Hc) as Hcl. rewrite <- (Forall2_length _ _ _ HF) in Hcl.
    destruct (decide (Z.of_nat c < v + m)) as [Hin|Hout].
    + exists b. split; [|by apply (Hcov c); [|lia]]. by rewrite Z.div_small by lia.
    + assert (m = f) as Em by (unfold m, zlen in *; lia). destruct (Hps c x Hc) as (p & Hp & Hpx); [lia|].
      exists p. split; [|done]. rewrite Em in Hp.
      replace (Z.of_nat c - v) with (Z.of_nat c - (v + f) + 1 * f) by lia.
      rewrite Z.div_add by lia. rewrite Z2Nat.inj_add; [|apply Z.div_pos; lia|lia].
      by rewrite Nat.add_1_r.
Qed.

Lemma build_level_spec T level bs : domain_ T = Some D → 0 < fanout_ T < 2 ^ 32 →
  0 < zlen level ≤ 2 ^ 50 → Forall2 node level bs →
  ∃ rs ps, build_level T level = Ok rs ∧ Forall2 node rs ps ∧ linked (fanout_ T) ps bs.
Proof.
  intros ED Hf Hz HF. unfold build_level. rewrite ceil_quot_exact, ED by done. cbn [mbind res_bind].
  set (f := fanout_ T) in *. set (m := (zlen level + f - 1) / f).
  pose proof (Z.div_mod (zlen level + f - 1) f ltac:(lia)) as Hdm.
  pose proof (Z.mod_pos_bound (zlen level + f - 1) f ltac:(lia)) as Hmod. fold m in Hdm.
  assert (0 ≤ m) by (apply Z.div_pos; lia).
  destruct (build_groups_spec f level bs ltac:(lia) ltac:(lia) HF (Z.to_nat m) 0)
    as (rs & ps & E & HF' & Hl & Hps); [lia|rewrite Z2Nat.id by done; nia|lia|].
  exists rs, ps. split_and!; [done|done|]. assert (zlen bs = zlen level) as Eb
    by (unfold zlen; by rewrite (Forall2_length _ _ _ HF)).
  split; [unfold zlen at 1; rewrite Hl, Eb; fold m; lia|].
  intros c x Hc. destruct (Hps c x Hc) as (p & Hp & Hpx); [lia|]. rewrite Z.sub_0_r in Hp. by exists p.
Qed.

(** The boxes of the levels, the root first. *)
Inductive chain (f : Z) : list (list (list (Z * Z))) → Prop :=
  | chain_leaves l : chain f [l]
  | chain_up ps cs rest : linked f ps cs → chain f (cs :: rest) → chain f (ps :: cs :: rest).

Lemma linked_size f ps cs : 0 < f → 0 < zlen cs → linked f ps cs → 0 < zlen ps ≤ zlen cs.
Proof.
  intros Hf Hc [-> _]. split; [apply Z.div_str_pos; lia|]. apply Z.div_le_upper_bound; nia.
Qed.

Lemma add_levels_spec T : domain_ T = Some D → 0 < fanout_ T < 2 ^ 32 →
  ∀ n lv rest b bs, Forall2 (Forall2 node) (lv :: rest) (b :: bs) → chain (fanout_ T) (b :: bs) →
  0 < zlen lv ≤ 2 ^ 50 → zlen lv ≤ fanout_ T ^ Z.of_nat n →
  ∃ lv' rest' b' bs', add_levels n T (rev (lv :: rest)) = Ok (rev (lv' :: rest')) ∧
    Forall2 (Forall2 node) (lv' :: rest') (b' :: bs') ∧ chain (fanout_ T) (b' :: bs') ∧
    zlen b' = 1 ∧ last (b' :: bs') = last (b :: bs) ∧ last (lv' :: rest') = last (lv :: rest) ∧
    length rest' = (n + length rest)%nat.
Proof.
  intros ED Hf. induction n as [|n IH]; intros lv rest b bs HF HC Hz Hp.
  - exists lv, rest, b, bs. split_and!; try done. inversion HF as [|? ? ? ? HF0]; subst.
    apply Forall2_length in HF0. unfold zlen in *. rewrite <- HF0. change (Z.of_nat 0) with 0 in Hp. lia.
  - cbn [add_levels]. assert (last (rev (lv :: rest)) = Some lv) as -> by (simpl; apply last_snoc).
    inversion HF as [|? ? ? ? HF0 HFr]; subst.
    destruct (build_level_spec T lv b ED Hf Hz HF0) as (rs & ps & -> & HF' & HL). cbn [mbind res_bind].
    assert (zlen rs = zlen ps ∧ zlen lv = zlen b) as [Ers Elv] by (unfold zlen;
      by rewrite (Forall2_length _ _ _ HF'), (Forall2_length _ _ _ HF0)).
    destruct (linked_size (fanout_ T) ps b ltac:(lia) ltac:(lia) HL) as [S1 S2].
    destruct (IH rs (lv :: rest) ps (b :: bs)) as (lv' & rest' & b' & bs' & E & HF2 & HC2 & H1 & H2 & H3 & H4).
    + by constructor.
    + by constructor.
    + lia.
    + destruct HL as [HL _]. rewrite Ers, HL, <- Elv. rewrite Nat2Z.inj_succ, Z.pow_succ_r in Hp by lia.
      apply Z.lt_succ_r, Z.div_lt_upper_bound; nia.
    + exists lv', rest', b', bs'. split_and!; try done. rewrite H4. simpl. lia.
Qed.

End Levels.

(** ** The tree *)

(** [log] of the C library is good enough for a tree of [n] leaves: the height
    computed with it leaves a single root, and the largest subtree has fewer
    than [2^64] leaves. *)
Definition log_adequate (libm_log : Z → Z) (f n : Z) : Prop :=
  ∃ h, in_range U64 (f_ceil (math_log libm_log f n)) = Ok h ∧ h < 2 ^ 32 - 1 ∧ n ≤ f ^ h < 2 ^ 64.

(** A tree over the boxes [leaves] of the tiles, all inside [dom]. *)
Record tree (D : Domain.t) (dom : list (Z * Z)) (T : RTree.t) (bss : list (list (list (Z * Z)))) : Prop := {
  tr_domain : domain_ T = Some D;
  tr_fanout : 0 < fanout_ T < 2 ^ 32;
  tr_nodes : Forall2 (Forall2 (node D dom)) (levels_ T) bss;
  tr_chain : chain (fanout_ T) bss;
  tr_root : ∃ root rest, bss = root :: rest ∧ zlen root = 1;
  tr_height : zlen bss < 2 ^ 32;
  tr_leaves : fanout_ T ^ (zlen bss - 1) < 2 ^ 64
}.

Lemma build_tree_spec libm_log D dom T level leaves :
  domain_ T = Some D → dimensions_ D ≠ [] → 0 < fanout_ T < 2 ^ 32 → levels_ T = [level] →
  Forall2 (node D dom) level leaves → 0 < zlen level ≤ 2 ^ 50 →
  log_adequate libm_log (fanout_ T) (zlen level) →
  ∃ T' bss, build_tree libm_log T = (Ok (), T') ∧ tree D dom T' bss ∧ last bss = Some leaves ∧
    last (levels_ T') = Some level.
Proof.
  intros ED Hne Hf El HF Hz (h & Eh & Hh & Hpow). unfold build_tree. rewrite El.
  rewrite (proj2 (Z.eqb_neq (zlen level) 0)) by lia.
  destruct (Z.eqb_spec (zlen level) 1) as [E1|E1].
  - exists T, [leaves]. split_and!; try done; [|by rewrite El].
    split; try done; [by rewrite El; constructor|constructor|].
    exists leaves, []. split; [done|]. unfold zlen. by rewrite <- (Forall2_length _ _ _ HF).
  - rewrite Eh. cbn [mbind res_bind]. 
    assert (0 ≤ h) as Hh0. { destruct (decide (0 ≤ h)); [done|]. rewrite Z.pow_neg_r in Hpow by lia. lia. }
    rewrite (u64_id (h + 1)), u64_id by lia. replace (h + 1 - 1) with h by lia.
    destruct (add_levels_spec D dom Hne T ED Hf (Z.to_nat h) level [] leaves [])
      as (lv & rest & b & bs & E & HF' & HC & H1 & H2 & H3 & H4); [by repeat constructor|constructor|done| |].
    { rewrite Z2Nat.id by done. lia. }
    change (rev [level]) with [level] in E. rewrite E, rev_involutive.
    assert (length rest = length bs) as Erb by (apply Forall2_length in HF'; simpl in HF'; lia).
    simpl in H4. assert (zlen (b :: bs) = h + 1) as Ez by (unfold zlen; simpl length; lia).
    exists (with_levels T (lv :: rest)), (b :: bs). split_and!; try done.
    split; try done; [by exists b, bs|lia|]. rewrite Ez.
    replace (h + 1 - 1) with h by lia. apply Hpow.
Qed.
