(* ===== verification/RTreeProofs.v ===== *)
(** * The tiles that overlap a range

    The traversal of the tree with an explicit stack is a depth-first search,
    and it reports every tile that overlaps the range exactly once. *)

From S2P Require Import Prelude.
From S2P Require Import Enums.
From S2P Require Import Num.
From S2P Require Import NumFacts.
From S2P Require Import Range.
From S2P Require Import Loops.
From S2P Require Import Dimension.
From S2P Require Import DimensionProofs.
From S2P Require Import Domain.
From S2P Require Import DomainRanges.
From S2P Require Import RTree.
From S2P Require Import RTreeBuild.
Local Open Scope Z_scope.

(** ** Overlaps *)

Definition ov_app (a b : TileOverlap) : TileOverlap :=
  mkOverlap (tiles_ a ++ tiles_ b) (tile_ranges_ a ++ tile_ranges_ b).

Definition ov_concat (l : list TileOverlap) : TileOverlap := foldr ov_app no_overlap l.

Lemma ov_app_nil a : ov_app a no_overlap = a.
Proof. destruct a. unfold ov_app. simpl. by rewrite !app_nil_r. Qed.

Lemma ov_nil_app a : ov_app no_overlap a = a.
Proof. by destruct a. Qed.

Lemma ov_app_assoc a b c : ov_app a (ov_app b c) = ov_app (ov_app a b) c.
Proof. unfold ov_app. simpl. by rewrite !app_assoc. Qed.

Lemma ov_concat_app l k : ov_concat (l ++ k) = ov_app (ov_concat l) (ov_concat k).
Proof.
  induction l as [|a l IH]; [by rewrite ov_nil_app|]. simpl.
  fold (ov_concat (l ++ k)) (ov_concat l). by rewrite IH, ov_app_assoc.
Qed.

(** How often the tile [i] is reported. *)
Definition reported (i : Z) (ov : TileOverlap) : nat :=
  length (filter (λ r : Z * Z, r.1 ≤ i ≤ r.2) (tile_ranges_ ov)) +
  length (filter (λ t : Z * Z, t.1 = i) (tiles_ ov)).

Lemma reported_app i a b : reported i (ov_app a b) = (reported i a + reported i b)%nat.
Proof. unfold reported. simpl. rewrite !filter_app, !length_app. lia. Qed.

Lemma reported_concat i l : reported i (ov_concat l) = sum_list (reported i <$> l).
Proof.
  induction l as [|a l IH]; [done|]. rewrite fmap_cons. simpl. fold (ov_concat l). by rewrite reported_app, IH.
Qed.

Lemma ranges_concat l : tile_ranges_ (ov_concat l) = l ≫= tile_ranges_.
Proof. induction l as [|a l IH]; [done|]. rewrite bind_cons, <- IH. done. Qed.

Lemma tiles_concat l : tiles_ (ov_concat l) = l ≫= tiles_.
Proof. induction l as [|a l IH]; [done|]. rewrite bind_cons, <- IH. done. Qed.

(** ** Children *)

(** The children of node [i] in a level of [n] nodes. *)
Definition children (f n i : Z) : list Z := seqZ (i * f) (Z.min f (n - i * f)).

Lemma elem_children f n i c : 0 < f → 0 ≤ i → 0 ≤ c → c ∈ children f n i ↔ c / f = i ∧ c < n.
Proof.
  intros Hf Hi Hc. unfold children. rewrite elem_of_seqZ.
  pose proof (Z.div_mod c f ltac:(lia)). pose proof (Z.mod_pos_bound c f ltac:(lia)). nia.
Qed.

(** The children of all the nodes are the nodes of the next level. *)
Lemma children_partition f n : 0 < f → 0 ≤ n →
  concat (children f n <$> seqZ 0 ((n + f - 1) / f)) = seqZ 0 n.
Proof.
  intros Hf Hn.
  assert (∀ m : nat, (Z.of_nat m - 1) * f < n ∨ m = 0%nat →
    concat (children f n <$> seqZ 0 (Z.of_nat m)) = seqZ 0 (Z.min (Z.of_nat m * f) n)) as H.
  { induction m as [|m IH]; intros Hm; [simpl; by rewrite Z.min_l by lia|].
    rewrite Nat2Z.inj_succ, <- Z.add_1_r, seqZ_app, fmap_app, concat_app by lia.
    rewrite IH by nia. change (seqZ (0 + Z.of_nat m) 1) with [0 + Z.of_nat m]. rewrite fmap_cons, fmap_nil. simpl.
    rewrite app_nil_r. unfold children. replace (Z.min (Z.of_nat m * f) n) with (Z.of_nat m * f) by nia.
    replace (Z.min ((Z.of_nat m + 1) * f) n) with (Z.of_nat m * f + Z.min f (n - Z.of_nat m * f)) by lia.
    rewrite seqZ_app by nia. done. }
  set (m := (n + f - 1) / f).
  pose proof (Z.div_mod (n + f - 1) f ltac:(lia)) as Hdm.
  pose proof (Z.mod_pos_bound (n + f - 1) f ltac:(lia)) as Hmod. fold m in Hdm.
  assert (0 ≤ m) by (apply Z.div_pos; lia).
  rewrite <- (Z2Nat.id m) by done. rewrite H by nia. f_equal. nia.
Qed.

Lemma sum_indicator (j : Z) (v : nat) (l : list Z) : NoDup l →
  sum_list ((λ c, if decide (j = c) then v else 0%nat) <$> l) = if decide (j ∈ l) then v else 0%nat.
Proof.
  induction 1 as [|c l Hc _ IH]; [done|]. rewrite fmap_cons. simpl. rewrite IH.
  destruct (decide (j = c)) as [->|Hne].
  - rewrite decide_False, decide_True by (done || left). lia.
  - by rewrite (decide_ext (j ∈ c :: l) (j ∈ l)) by (rewrite elem_of_cons; by intuition).
Qed.

Lemma sum_concat {A} (g : A → nat) (ls : list (list A)) :
  sum_list ((λ l, sum_list (g <$> l)) <$> ls) = sum_list (g <$> concat ls).
Proof.
  induction ls as [|l ls IH]; [done|]. rewrite fmap_cons. simpl. by rewrite fmap_app, sum_list_with_app, IH.
Qed.

Lemma sum_succ {A} (g : A → nat) l : sum_list ((λ a, S (g a)) <$> l) = (length l + sum_list (g <$> l))%nat.
Proof. induction l as [|a l IH]; [done|]. rewrite !fmap_cons. simpl. rewrite IH. lia. Qed.

Lemma nodes_zlen {A B} (P : A → B → Prop) l k : Forall2 P l k → zlen l = zlen k.
Proof. intros H. unfold zlen. by rewrite (Forall2_length _ _ _ H). Qed.

(** ** The search *)

Section Search.
Context (D : Domain.t) (dom : list (Z * Z)) (f : Z) (range : NDRange) (xs : list (Z * Z)) (leaf_num : Z).
Hypothesis fanout_pos : 0 < f < 2 ^ 32.
Hypothesis range_box : box D range xs.
Hypothesis dom_small : small D dom.

(** The overlap of the range with a node. *)
Definition ratio_of (mbr : NDRange) : Z :=
  match overlap_ratio D range mbr with Ok x => x | _ => 0 end.

Lemma node_ratio r b : node D dom r b →
  overlap_ratio D range r = Ok (ratio_of r) ∧ feq F64 (ratio_of r) 0 = negb (meets xs b) ∧
  feq F64 (ratio_of r) f_one = covers xs b.
Proof.
  intros N. destruct (node_length D dom r b N) as [Hl Hp]. destruct N as [Hb Hc].
  destruct (box_proper D range xs range_box) as [_ Hx].
  assert (small D b) as Hs.
  { apply (small_covers D dom); try done. rewrite Hl. by apply Forall2_length in dom_small. }
  destruct (nd_ratio_spec D range r xs b range_box Hb Hs) as (x & Ex & Hr). unfold ratio_of. rewrite Ex.
  split; [done|]. destruct (meets xs b) eqn:Em.
  - destruct Hr as [Hu ->]. by destruct (unit64_not_zero x Hu) as [-> _].
  - subst x. split; [by vm_compute|]. destruct (covers xs b) eqn:Ec; [|by vm_compute].
    rewrite (covers_meets xs b) in Em by congruence. done.
Qed.

(** Depth-first search from node [i] of the first level of [ls]. *)
Fixpoint dfs (ls : list Level) (i : Z) : TileOverlap :=
  match ls with
  | [] => no_overlap
  | l :: rest =>
      match l !! Z.to_nat i with
      | None => no_overlap
      | Some mbr =>
          let ratio := ratio_of mbr in
          let n := f ^ zlen rest in
          if feq F64 ratio 0 then no_overlap
          else if feq F64 ratio f_one then mkOverlap [] [(i * n, i * n + Z.min n (leaf_num - i * n) - 1)]
          else
            match rest with
            | [] => mkOverlap [(i, ratio)] []
            | next :: _ => ov_concat (dfs rest <$> children f (zlen next) i)
            end
      end
  end.

(** The nodes below node [i], and [i] itself. *)
Fixpoint size (ls : list Level) (i : Z) : nat :=
  match ls with
  | [] => 0
  | l :: rest => S match rest with [] => 0 | next :: _ => sum_list (size rest <$> children f (zlen next) i) end
  end.

Lemma size_total ls bss : Forall2 (Forall2 (node D dom)) ls bss → chain f bss →
  ∀ l rest, ls = l :: rest → sum_list (size ls <$> seqZ 0 (zlen l)) = sum_list (length <$> ls).
Proof.
  intros HF HC. revert ls HF. induction HC as [b|ps cs rest HL _ IH]; intros ls HF l rest' ->.
  - apply Forall2_cons_inv_r in HF as (l' & ? & _ & HF & [= -> ->]). inversion HF; subst.
    rewrite (sum_list_fmap_same 1), length_seqZ by (by apply Forall_true).
    unfold zlen. simpl. lia.
  - apply Forall2_cons_inv_r in HF as (l' & ? & Hl & HF & [= -> ->]).
    pose proof HF as (next & rs & Hn & _ & ->)%Forall2_cons_inv_r. specialize (IH _ HF next rs eq_refl).
    transitivity (length l' + sum_list (length <$> next :: rs))%nat; [|done]. rewrite <- IH.
    etransitivity; [exact (sum_succ (λ i, sum_list (size (next :: rs) <$> children f (zlen next) i)) _)|].
    rewrite length_seqZ. f_equal; [unfold zlen; lia|]. rewrite <- (children_partition f (zlen next)) by (lia || apply Nat2Z.is_nonneg).
    rewrite <- sum_concat, <- list_fmap_compose. destruct HL as [HL _].
    rewrite (nodes_zlen _ _ _ Hl), HL, (nodes_zlen _ _ _ Hn). done.
Qed.

(** The ancestor of a leaf in the first level covers the leaf. *)
Lemma chain_ancestor bss leaves j y (d : nat) : chain f bss → Forall (Forall (λ b, length b = d)) bss →
  last bss = Some leaves → leaves !! j = Some y →
  ∃ b rest p, bss = b :: rest ∧ b !! Z.to_nat (Z.of_nat j / f ^ zlen rest) = Some p ∧ covers p y = true.
Proof.
  intros HC. induction HC as [b|ps cs rest [_ HL] _ IH]; intros Hd Hlast Hy.
  - injection Hlast as ->. exists leaves, [], y. rewrite Z.div_1_r, Nat2Z.id. split_and!; [done..|apply covers_refl].
  - inversion Hd as [|? ? Hps Hrest]; subst.
    destruct IH as (b & rest' & c & [= <- <-] & Hc & Hcov); [done|by rewrite <- Hlast|done|].
    destruct (HL _ _ Hc) as (p & Hp & Hpc). exists ps, (cs :: rest), p. split; [done|]. split.
    + rewrite Z2Nat.id, Z.div_div in Hp; [|apply Z.pow_nonzero; try lia; apply Nat2Z.is_nonneg|lia|
        apply Z.div_pos; [lia|apply Z.pow_pos_nonneg; [lia|apply Nat2Z.is_nonneg]]].
      replace (zlen (cs :: rest)) with (Z.succ (zlen rest)) by (unfold zlen; simpl; lia).
      rewrite Z.pow_succ_r by apply Nat2Z.is_nonneg. by rewrite Z.mul_comm.
    + inversion Hrest as [|? ? Hcs _]; subst.
      pose proof (Forall_lookup_1 _ _ _ _ Hps Hp) as L1. pose proof (Forall_lookup_1 _ _ _ _ Hcs Hc) as L2.
      assert (length y = d) as L3.
      { apply last_Some_elem_of in Hlast. eapply Forall_forall in Hd; [|done]. by eapply Forall_lookup_1 in Hd. }
      simpl in *. apply (covers_trans p c y); congruence.
Qed.

(** The first leaf below a node exists. *)
Lemma chain_first_leaf bss leaves : chain f bss → last bss = Some leaves →
  ∀ b rest i, bss = b :: rest → 0 ≤ i < zlen b → i * f ^ zlen rest < zlen leaves.
Proof.
  intros HC. induction HC as [b|ps cs rest [HL _] _ IH]; intros Hlast b0 rest0 i [= <- <-] Hi.
  - injection Hlast as ->. change (zlen []) with 0. lia.
  - rewrite HL in Hi. replace (zlen (cs :: rest)) with (Z.succ (zlen rest)) by (unfold zlen; simpl; lia).
    rewrite Z.pow_succ_r by apply Nat2Z.is_nonneg. rewrite Z.mul_assoc.
    apply (IH Hlast cs rest (i * f) eq_refl). split; [lia|].
    pose proof (Z.div_mod (zlen cs + f - 1) f ltac:(lia)).
    pose proof (Z.mod_pos_bound (zlen cs + f - 1) f ltac:(lia)). nia.
Qed.

Lemma nodes_lengths ls bss : Forall2 (Forall2 (node D dom)) ls bss →
  Forall (Forall (λ b, length b = length (dimensions_ D))) bss.
Proof.
  induction 1 as [|l b ls bss H _ IH]; constructor; [|done]. clear IH.
  induction H as [|r c l b N _ IH]; constructor; [by apply (node_length D dom r c N)|done].
Qed.

Lemma nodes_at l b i : Forall2 (node D dom) l b → 0 ≤ i < zlen l →
  ∃ r c, l !! Z.to_nat i = Some r ∧ b !! Z.to_nat i = Some c ∧ node D dom r c.
Proof.
  intros H Hi. destruct (lookup_lt_is_Some_2 l (Z.to_nat i)) as [r Hr]; [unfold zlen in Hi; lia|].
  destruct (Forall2_lookup_l _ _ _ _ _ H Hr) as (c & Hc & N). by exists r, c.
Qed.

Lemma nodes_last ls bss leaves : Forall2 (Forall2 (node D dom)) ls bss → last bss = Some leaves →
  ∃ level, last ls = Some level ∧ Forall2 (node D dom) level leaves.
Proof.
  induction 1 as [|l b ls bss H HF IH]; intros Hlast; [done|].
  destruct HF as [|l' b' ls bss H' HF]; [injection Hlast as ->; by exists l|]. by apply IH.
Qed.

Lemma nodes_leaf ls bss leaves j y : Forall2 (Forall2 (node D dom)) ls bss → last bss = Some leaves →
  leaves !! j = Some y → ∃ r, node D dom r y.
Proof.
  intros HF Hlast Hy. destruct (nodes_last ls bss leaves HF Hlast) as (level & _ & H).
  destruct (Forall2_lookup_r _ _ _ _ _ H Hy) as (r & _ & N). by exists r.
Qed.

Section Leaves.
Context (leaves : list (list (Z * Z))).
Hypothesis leaf_count : leaf_num = zlen leaves.

(** What a node reports without its children. *)
Lemma dfs_direct l rest b brest i r c j y :
  Forall2 (Forall2 (node D dom)) (l :: rest) (b :: brest) → chain f (b :: brest) →
  last (b :: brest) = Some leaves → 0 ≤ i < zlen l →
  l !! Z.to_nat i = Some r → b !! Z.to_nat i = Some c → node D dom r c →
  meets xs c = false ∨ covers xs c = true → leaves !! j = Some y →
  reported (Z.of_nat j) (dfs (l :: rest) i) =
    if decide (Z.of_nat j / f ^ zlen rest = i) then Nat.b2n (meets xs y) else 0%nat.
Proof.
  intros HF HC Hlast Hi Hr Hc N Hcase Hy.
  destruct (chain_ancestor _ _ _ _ _ HC (nodes_lengths _ _ HF) Hlast Hy) as (? & ? & p & [= <- <-] & Hp & Hcov).
  inversion HF as [|? ? ? ? HF0 HFr]; subst. rewrite <- (nodes_zlen _ _ _ HFr) in Hp.
  destruct (node_length D dom r c N) as [Lc Pc]. destruct (box_proper D range xs range_box) as [_ Lx].
  destruct (nodes_leaf _ _ _ _ _ HF Hlast Hy) as [ry Ny].
  destruct (node_length D dom ry y Ny) as [Ly Py].
  cbn [dfs]. rewrite Hr. destruct (node_ratio r c N) as (_ & -> & ->).
  set (n := f ^ zlen rest) in *. assert (0 < n) as Hn by (apply Z.pow_pos_nonneg; [lia|apply Nat2Z.is_nonneg]).
  pose proof (lookup_lt_Some _ _ _ Hy) as Hj.
  destruct (meets xs c) eqn:Em; cbn [negb].
  - destruct Hcase as [|Hcc]; [done|]. rewrite Hcc. unfold reported. cbn [tile_ranges_ tiles_].
    rewrite filter_nil, filter_cons. simpl length.
    pose proof (Z.div_mod (Z.of_nat j) n ltac:(lia)). pose proof (Z.mod_pos_bound (Z.of_nat j) n ltac:(lia)).
    unfold zlen in *. case_decide as Hin; case_decide as Hd; simpl in Hin; [|nia|nia|done].
    subst i. rewrite Hc in Hp. injection Hp as ->.
    rewrite (covers_meets xs y); [done|congruence|done|]. by apply (covers_trans xs p y); congruence.
  - change (reported _ no_overlap) with 0%nat. case_decide as Hd; [|done].
    subst i. rewrite Hc in Hp. injection Hp as ->. destruct (meets xs y) eqn:Ey; [|done].
    rewrite (meets_covers xs p y) in Em; try done; congruence.
Qed.

Lemma dfs_count ls bss : Forall2 (Forall2 (node D dom)) ls bss → chain f bss → last bss = Some leaves →
  ∀ l rest i j y, ls = l :: rest → 0 ≤ i < zlen l → leaves !! j = Some y →
  reported (Z.of_nat j) (dfs ls i) =
    if decide (Z.of_nat j / f ^ zlen rest = i) then Nat.b2n (meets xs y) else 0%nat.
Proof.
  intros HF HC. revert ls HF. induction HC as [b|ps cs brest HL HC IH]; intros ls HF Hlast l rest i j y -> Hi Hy.
  - pose proof HF as (? & ? & Hl & Hnil & [= <- <-])%Forall2_cons_inv_r. inversion Hnil; subst.
    destruct (nodes_at l b i Hl Hi) as (r & c & Hr & Hc & N).
    destruct (meets xs c) eqn:Em; [destruct (covers xs c) eqn:Ec|]; [eapply dfs_direct; eauto using chain_leaves..| |
      eapply dfs_direct; eauto using chain_leaves].
    cbn [dfs]. rewrite Hr. destruct (node_ratio r c N) as (_ & -> & ->). rewrite Em, Ec. cbn [negb].
    unfold reported. cbn [tile_ranges_ tiles_]. rewrite filter_nil, filter_cons. change (zlen []) with 0.
    rewrite Z.pow_0_r, Z.div_1_r. simpl. injection Hlast as ->.
    case_decide as E1; case_decide as E2; try congruence; [|done]. subst i.
    rewrite Nat2Z.id, Hy in Hc. injection Hc as ->. by rewrite Em.
  - pose proof HF as (? & ? & Hl & HFr & [= <- <-])%Forall2_cons_inv_r.
    destruct (nodes_at l ps i Hl Hi) as (r & c & Hr & Hc & N).
    destruct (meets xs c) eqn:Em; [destruct (covers xs c) eqn:Ec|]; [eapply dfs_direct; eauto using chain_up..| |
      eapply dfs_direct; eauto using chain_up].
    pose proof HFr as (next & rs & Hn & _ & ->)%Forall2_cons_inv_r.
    cbn [dfs]. rewrite Hr. destruct (node_ratio r c N) as (_ & -> & ->). rewrite Em, Ec. cbn [negb].
    fold dfs. rewrite reported_concat, <- list_fmap_compose.
    assert (0 < f ^ zlen rs) as Hpow by (apply Z.pow_pos_nonneg; [lia|apply Nat2Z.is_nonneg]).
    rewrite (list_fmap_ext _ (λ c, if decide (Z.of_nat j / f ^ zlen rs = c) then Nat.b2n (meets xs y) else 0%nat)).
    2: { intros k c' Hk. apply list_elem_of_lookup_2 in Hk. unfold children in Hk. apply elem_of_seqZ in Hk.
         simpl. apply (IH (next :: rs) HFr Hlast next rs); [done|nia|done]. }
    rewrite sum_indicator by apply NoDup_seqZ.
    destruct (chain_ancestor _ _ _ _ _ HC (nodes_lengths _ _ HFr) Hlast Hy) as (? & ? & p & [= <- <-] & Hp & _).
    inversion HFr as [|? ? ? ? _ HFrr]; subst. rewrite <- (nodes_zlen _ _ _ HFrr) in Hp.
    apply lookup_lt_Some in Hp. assert (0 ≤ Z.of_nat j / f ^ zlen rs) by (apply Z.div_pos; lia).
    replace (zlen (next :: rs)) with (Z.succ (zlen rs)) by (unfold zlen; simpl; lia).
    rewrite Z.pow_succ_r by apply Nat2Z.is_nonneg. rewrite (Z.mul_comm f), <- Z.div_div by lia.
    apply decide_ext. rewrite elem_children by lia. rewrite (nodes_zlen _ _ _ Hn). unfold zlen in *. lia.
Qed.

(** A reported range holds covered tiles only, a reported tile is not covered. *)
Definition sound (level : Level) (ov : TileOverlap) : Prop :=
  (∀ s e j y, (s, e) ∈ tile_ranges_ ov → leaves !! j = Some y → s ≤ Z.of_nat j ≤ e → covers xs y = true) ∧
  (∀ j x, (j, x) ∈ tiles_ ov → 0 ≤ j ∧ ∃ r y, level !! Z.to_nat j = Some r ∧ leaves !! Z.to_nat j = Some y ∧
     overlap_ratio D range r = Ok x ∧ covers xs y = false).

Lemma sound_none level : sound level no_overlap.
Proof. split; [intros ? ? ? ? Hin|intros ? ? Hin]; inversion Hin. Qed.

Lemma sound_concat level ovs : (∀ ov, ov ∈ ovs → sound level ov) → sound level (ov_concat ovs).
Proof.
  intros H. split.
  - intros s e j y Hin. rewrite ranges_concat in Hin. apply list_elem_of_bind in Hin as (ov & Hin & Ho).
    by apply (proj1 (H ov Ho)).
  - intros j x Hin. rewrite tiles_concat in Hin. apply list_elem_of_bind in Hin as (ov & Hin & Ho).
    by apply (proj2 (H ov Ho)).
Qed.

Lemma sound_range level l rest b brest i c :
  Forall2 (Forall2 (node D dom)) (l :: rest) (b :: brest) → chain f (b :: brest) →
  last (b :: brest) = Some leaves → 0 ≤ i →
  b !! Z.to_nat i = Some c → length c = length (dimensions_ D) → covers xs c = true →
  let n := f ^ zlen rest in
  sound level (mkOverlap [] [(i * n, i * n + Z.min n (leaf_num - i * n) - 1)]).
Proof.
  intros HF HC Hlast Hi Hc Lc Hcov n. split; [|intros j x Hin; inversion Hin].
  intros s e j y Hin Hy Hj. apply list_elem_of_singleton in Hin as [= -> ->].
  destruct (chain_ancestor _ _ _ _ _ HC (nodes_lengths _ _ HF) Hlast Hy) as (? & ? & p & [= <- <-] & Hp & Hpy).
  destruct (nodes_leaf _ _ _ _ _ HF Hlast Hy) as [ry Ny]. destruct (node_length D dom ry y Ny) as [Ly _].
  destruct (box_proper D range xs range_box) as [_ Lx].
  inversion HF as [|? ? ? ? _ HFr]; subst. rewrite <- (nodes_zlen _ _ _ HFr) in Hp. fold n in Hp.
  assert (Z.of_nat j / n = i) as Ej.
  { symmetry. apply (Z.div_unique _ _ _ (Z.of_nat j - i * n)); lia. }
  rewrite Ej, Hc in Hp. injection Hp as ->. by apply (covers_trans xs p y); congruence.
Qed.

Lemma dfs_sound ls bss level : Forall2 (Forall2 (node D dom)) ls bss → chain f bss → last bss = Some leaves →
  last ls = Some level → ∀ l rest i, ls = l :: rest → 0 ≤ i < zlen l → sound level (dfs ls i).
Proof.
  intros HF HC. revert ls HF. induction HC as [b|ps cs brest HL HC IH]; intros ls HF Hlast Hlv l rest i -> Hi.
  - pose proof HF as (? & ? & Hl & Hnil & [= <- <-])%Forall2_cons_inv_r. inversion Hnil; subst.
    destruct (nodes_at l b i Hl Hi) as (r & c & Hr & Hc & N).
    cbn [dfs]. rewrite Hr. destruct (node_ratio r c N) as (Er & -> & ->).
    destruct (meets xs c); cbn [negb]; [|apply sound_none].
    destruct (covers xs c) eqn:Ec.
    + apply (sound_range level l [] b [] i c); try done; [constructor|lia|by apply (node_length D dom r c N)].
    + injection Hlast as ->. injection Hlv as ->. split; [intros ? ? ? ? Hin; inversion Hin|].
      intros j x Hin. apply list_elem_of_singleton in Hin as [= -> ->]. split; [lia|]. by exists r, c.
  - pose proof HF as (? & ? & Hl & HFr & [= <- <-])%Forall2_cons_inv_r.
    destruct (nodes_at l ps i Hl Hi) as (r & c & Hr & Hc & N).
    cbn [dfs]. rewrite Hr. destruct (node_ratio r c N) as (Er & -> & ->).
    destruct (meets xs c); cbn [negb]; [|apply sound_none].
    destruct (covers xs c) eqn:Ec.
    + apply (sound_range level l rest ps (cs :: brest) i c); try done; [by constructor|lia|by apply (node_length D dom r c N)].
    + pose proof HFr as (next & rs & Hn & _ & ->)%Forall2_cons_inv_r.
      apply sound_concat. intros ov Hov. apply list_elem_of_fmap in Hov as (c' & -> & Hk).
      unfold children in Hk. apply elem_of_seqZ in Hk.
      apply (IH (next :: rs) HFr Hlast Hlv next rs); [done|nia].
Qed.

End Leaves.
End Search.

(** ** The stack *)

Lemma pow_loop f (l : list nat) : 0 < f → f ^ zlen l < 2 ^ 64 →
  foldr (λ _ n, u64 (n * f)) 1 l = f ^ zlen l.
Proof.
  intros Hf. induction l as [|x l IH]; [done|]. replace (zlen (x :: l)) with (Z.succ (zlen l)) by (unfold zlen; simpl; lia).
  rewrite Z.pow_succ_r by apply Nat2Z.is_nonneg. intros Hp.
  assert (0 < f ^ zlen l) by (apply Z.pow_pos_nonneg; [lia|apply Nat2Z.is_nonneg]).
  simpl. rewrite IH by nia. rewrite u64_id by nia. lia.
Qed.

Lemma push_loop (k : nat) e s (l : list Z) tr :
  foldl (λ tr i, (k, e - (i - s)) :: tr) tr l = ((λ i, (k, e - (i - s))) <$> reverse l) ++ tr.
Proof.
  revert tr. induction l as [|i l IH]; intros tr; [done|]. simpl.
  by rewrite IH, reverse_cons, fmap_app, <- app_assoc.
Qed.

Lemma push_children_spec f n k i tr : 0 < f < 2 ^ 32 → 0 ≤ i → i * f < n ≤ 2 ^ 50 →
  push_children f n k i tr = (pair (S k) <$> children f n i) ++ tr.
Proof.
  intros Hf Hi Hn. unfold push_children.
  rewrite (u64_id (i * f)), (u64_id (i * f + f - 1)), (u64_id (n - 1)) by nia. rewrite push_loop. f_equal.
  unfold children. set (s := i * f) in *. set (m := Z.min f (n - s)).
  replace (Z.min (s + f - 1) (n - 1)) with (s + m - 1) by (unfold m; lia). replace (s + m - 1 - s + 1) with m by lia.
  apply list_eq. intros j. rewrite !list_lookup_fmap.
  destruct (decide (Z.of_nat j < m)) as [Hj|Hj].
  - rewrite reverse_lookup by (rewrite length_seqZ; lia). rewrite length_seqZ.
    rewrite !lookup_seqZ_lt by lia. simpl. do 2 f_equal. lia.
  - rewrite (lookup_ge_None_2 (reverse _)), (lookup_ge_None_2 (seqZ _ _));
      rewrite ?length_reverse, ?length_seqZ; done || lia.
Qed.

Lemma chain_drop f bss k : chain f bss → (k < length bss)%nat → chain f (drop k bss).
Proof.
  intros HC. revert k. induction HC as [b|ps cs rest HL HC IH]; intros [|k] Hk; simpl in *; try (by constructor || lia).
  apply IH. lia.
Qed.

Lemma chain_sizes f bss leaves : 0 < f → chain f bss → last bss = Some leaves → 0 < zlen leaves →
  Forall (λ b, 0 < zlen b ≤ zlen leaves) bss.
Proof.
  intros Hf HC. induction HC as [b|ps cs rest HL HC IH]; intros Hlast Hz.
  - injection Hlast as ->. by constructor; [lia|].
  - specialize (IH Hlast Hz). constructor; [|done]. inversion IH; subst.
    pose proof (linked_size f ps cs Hf ltac:(lia) HL). lia.
Qed.

Section Traversal.
Context (D : Domain.t) (dom : list (Z * Z)) (T : RTree.t) (bss : list (list (list (Z * Z)))).
Context (level : Level) (leaves : list (list (Z * Z))) (range : NDRange) (xs : list (Z * Z)).
Hypothesis tree_T : tree D dom T bss.
Hypothesis last_bss : last bss = Some leaves.
Hypothesis leaf_bound : 0 < zlen leaves ≤ 2 ^ 50.
Hypothesis range_box : box D range xs.
Hypothesis dom_small : small D dom.

#[local] Abbreviation f := (fanout_ T).
#[local] Abbreviation n := (zlen leaves).

Definition valid (e : Entry) : Prop := ∃ l, levels_ T !! e.1 = Some l ∧ 0 ≤ e.2 < zlen l.
Definition search (e : Entry) : TileOverlap := dfs D f range n (drop e.1 (levels_ T)) e.2.
Definition cost (e : Entry) : nat := size f (drop e.1 (levels_ T)) e.2.

Lemma levels_bss : length (levels_ T) = length bss.
Proof. apply (Forall2_length _ _ _ (tr_nodes _ _ _ _ tree_T)). Qed.

Lemma height_spec : height T = zlen bss.
Proof.
  unfold height. unfold zlen. rewrite levels_bss. apply conv_id. pose proof (tr_height _ _ _ _ tree_T).
  unfold zlen in *. unfold_ctype. lia.
Qed.

Lemma subtree_spec k : (k < length bss)%nat → subtree_leaf_num T (Z.of_nat k) = f ^ (zlen bss - 1 - Z.of_nat k).
Proof.
  intros Hk. destruct (tr_fanout _ _ _ _ tree_T) as [F1 F2]. pose proof (tr_leaves _ _ _ _ tree_T) as HL.
  pose proof (tr_height _ _ _ _ tree_T) as HH.
  unfold subtree_leaf_num. rewrite height_spec. unfold zlen in *. rewrite levels_bss.
  rewrite (proj2 (Z.leb_gt _ _)) by lia. rewrite u64_id by lia.
  set (m := Z.of_nat (length bss) - Z.of_nat k - 1).
  assert (zlen (up m) = m) as Em by (unfold up, zlen; rewrite length_seq; lia).
  assert (f ^ m < 2 ^ 64) as Hm by (eapply Z.le_lt_trans; [|exact HL]; apply Z.pow_le_mono_r; lia).
  rewrite pow_loop by (done || by rewrite Em). rewrite Em. f_equal. lia.
Qed.

(** What a valid entry names. *)
Lemma valid_suffix k i : valid (k, i) →
  ∃ l b, levels_ T !! k = Some l ∧ bss !! k = Some b ∧ 0 ≤ i < zlen l ∧ (k < length bss)%nat ∧
    drop k (levels_ T) = l :: drop (S k) (levels_ T) ∧ drop k bss = b :: drop (S k) bss ∧
    Forall2 (Forall2 (node D dom)) (drop k (levels_ T)) (drop k bss) ∧ Forall2 (node D dom) l b ∧
    chain f (drop k bss) ∧ last (drop k bss) = Some leaves.
Proof.
  intros (l & Hl & Hi). simpl in *.
  destruct (Forall2_lookup_l _ _ _ _ _ (tr_nodes _ _ _ _ tree_T) Hl) as (b & Hb & Hlb).
  pose proof (lookup_lt_Some _ _ _ Hb) as Hk. exists l, b.
  split_and!; try done; try (by apply drop_S); try lia.
  - apply Forall2_drop, (tr_nodes _ _ _ _ tree_T).
  - apply chain_drop; [apply (tr_chain _ _ _ _ tree_T)|done].
  - rewrite last_lookup in *. rewrite length_drop, lookup_drop.
    by replace (k + pred (length bss - k))%nat with (pred (length bss)) by lia.
Qed.

(** The leaves below a covered node. *)
Lemma visit_range k i b : (k < length bss)%nat → 0 ≤ i < zlen b → drop k bss = b :: drop (S k) bss →
  chain f (drop k bss) → last (drop k bss) = Some leaves →
  let m := f ^ zlen (drop (S k) (levels_ T)) in
  subtree_leaf_num T (Z.of_nat k) = m ∧ 0 < m ∧ u64 (i * m) = i * m ∧
  u64 (i * m + Z.min m (u64 (n - i * m)) - 1) = i * m + Z.min m (n - i * m) - 1.
Proof.
  intros Hk Hi Eb HC Hlast m. destruct (tr_fanout _ _ _ _ tree_T) as [F1 F2].
  assert (zlen (drop (S k) (levels_ T)) = zlen (drop (S k) bss)) as Ez
    by (unfold zlen; by rewrite !length_drop, levels_bss).
  pose proof (chain_first_leaf f (tr_fanout _ _ _ _ tree_T) _ _ HC Hlast _ _ i Eb Hi) as Hf. rewrite <- Ez in Hf. fold m in Hf.
  assert (0 < m) as Hm by (apply Z.pow_pos_nonneg; [lia|apply Nat2Z.is_nonneg]).
  split_and!; [|done|apply u64_id; nia|].
  - rewrite subtree_spec by done. unfold m. f_equal. unfold zlen. rewrite length_drop, levels_bss. lia.
  - assert (0 ≤ i * m) by nia. rewrite (u64_id (n - i * m)) by lia. apply u64_id. lia.
Qed.

Lemma next_bounds k i b next : 0 ≤ i < zlen b → drop k bss = b :: drop (S k) bss →
  chain f (drop k bss) → last (drop k bss) = Some leaves → levels_ T !! S k = Some next →
  i * f < zlen next ∧ zlen next ≤ 2 ^ 50.
Proof.
  intros Hi Eb HC Hlast Hnext. destruct (tr_fanout _ _ _ _ tree_T) as [F1 F2].
  destruct (Forall2_lookup_l _ _ _ _ _ (tr_nodes _ _ _ _ tree_T) Hnext) as (c & Hc & Hnc).
  rewrite (nodes_zlen _ _ _ Hnc). pose proof (chain_sizes _ _ _ F1 HC Hlast (proj1 leaf_bound)) as HS.
  rewrite Eb, (drop_S bss c (S k) Hc) in HC, HS. inversion HC as [|? ? ? [HL _] _]; subst.
  inversion HS as [|? ? _ HS']; subst. inversion HS' as [|? ? Hc' _]; subst. split; [|lia].
  pose proof (Z.div_mod (zlen c + f - 1) f ltac:(lia)).
  pose proof (Z.mod_pos_bound (zlen c + f - 1) f ltac:(lia)). nia.
Qed.

(** One step of the loop. *)
Lemma visit_entry_spec e tr acc : valid e →
  ∃ st acc', visit_entry T D range n e tr acc = Ok (st ++ tr, acc') ∧ Forall valid st ∧
    ov_app acc' (ov_concat (search <$> st)) = ov_app acc (search e) ∧
    (S (sum_list (cost <$> st)) ≤ cost e)%nat.
Proof.
  destruct e as [k i]. intros Hv.
  destruct (valid_suffix k i Hv) as (l & b & Hl & Hb & Hi & Hk & El & Eb & HF & Hlb & HC & Hlast).
  destruct (tr_fanout _ _ _ _ tree_T) as [F1 F2].
  pose proof Hi as Hi'. rewrite (nodes_zlen _ _ _ Hlb) in Hi'.
  destruct (nodes_at D dom l b i Hlb Hi) as (r & c & Hr & Hc & N).
  destruct (node_ratio D dom range xs range_box dom_small r c N) as (Er & E0 & E1).
  unfold visit_entry, search, cost. simpl fst. simpl snd. rewrite El. cbn [dfs size]. rewrite Hr.
  rewrite (idx_ok _ _ _ Hl). cbn [mbind res_bind]. rewrite (idx_ok _ _ _ Hr). cbn [mbind res_bind].
  rewrite Er. cbn [mbind res_bind].
  destruct (feq F64 (ratio_of D range r) 0).
  { exists [], acc. split_and!; [done|constructor|done|simpl; lia]. }
  destruct (feq F64 (ratio_of D range r) f_one).
  { destruct (visit_range k i b Hk Hi' Eb HC Hlast) as (-> & Hm & -> & ->). set (m := f ^ _) in *.
    rewrite (proj2 (Z.ltb_lt 0 m) Hm). cbn [massert mbind res_bind].
    exists [], (ov_app acc (mkOverlap [] [(i * m, i * m + Z.min m (n - i * m) - 1)])).
    split_and!; [|constructor|by rewrite ov_app_nil|simpl; lia].
    unfold ov_app. simpl. by rewrite app_nil_r. }
  rewrite height_spec. destruct (drop (S k) (levels_ T)) as [|next rest] eqn:Ed.
  - apply (f_equal length) in Ed. rewrite length_drop, levels_bss in Ed. simpl in Ed.
    rewrite (proj2 (Z.eqb_eq _ _)) by (unfold zlen; lia).
    exists [], (ov_app acc (mkOverlap [(i, ratio_of D range r)] [])).
    split_and!; [|constructor|by rewrite ov_app_nil|simpl; lia]. unfold ov_app. simpl. by rewrite app_nil_r.
  - assert (levels_ T !! S k = Some next) as Hnext.
    { pose proof (lookup_drop (levels_ T) (S k) 0) as E. rewrite Ed, Nat.add_0_r in E. by rewrite <- E. }
    pose proof (lookup_lt_Some _ _ _ Hnext) as Hk'. rewrite levels_bss in Hk'.
    rewrite (proj2 (Z.eqb_neq _ _)) by (unfold zlen; lia). rewrite (idx_ok _ _ _ Hnext). cbn [mbind res_bind].
    destruct (next_bounds k i b next Hi' Eb HC Hlast Hnext) as [B1 B2].
    rewrite push_children_spec by lia.
    exists (pair (S k) <$> children f (zlen next) i), acc. split_and!; [done| | |].
    + apply Forall_fmap, Forall_forall. intros c' Hc'. unfold children in Hc'. apply elem_of_seqZ in Hc'.
      exists next. simpl. split; [done|]. nia.
    + rewrite <- list_fmap_compose. do 2 f_equal. apply list_fmap_ext. intros j x _. simpl. by rewrite Ed.
    + rewrite <- list_fmap_compose. apply le_n_S, Nat.eq_le_incl. f_equal. apply list_fmap_ext.
      intros j x _. simpl. by rewrite Ed.
Qed.

Lemma traverse_spec fuel : ∀ st acc, Forall valid st → (sum_list (cost <$> st) ≤ fuel)%nat →
  traverse fuel T D range n st acc = Ok (ov_app acc (ov_concat (search <$> st))).
Proof.
  induction fuel as [|fuel IH]; intros [|e st] acc Hv Hc; try (simpl; by rewrite ov_app_nil).
  - inversion Hv as [|? ? He _]; subst. destruct (visit_entry_spec e st acc He) as (? & ? & _ & _ & _ & Hs).
    rewrite fmap_cons in Hc. simpl in Hc. lia.
  - inversion Hv as [|? ? He Hv']; subst.
    destruct (visit_entry_spec e st acc He) as (st' & acc' & E & Hst & Hov & Hs).
    cbn [traverse]. rewrite E. cbn [mbind res_bind]. rewrite fmap_cons in Hc. simpl in Hc.
    rewrite IH; [|by apply Forall_app|rewrite fmap_app, sum_list_with_app; lia].
    rewrite fmap_app, ov_concat_app, ov_app_assoc, Hov, <- ov_app_assoc, fmap_cons. done.
Qed.

(** The traversal is a search from the root. *)
Lemma get_tile_overlap_spec : last (levels_ T) = Some level → zlen level = n →
  get_tile_overlap T range = Ok (dfs D f range n (levels_ T) 0).
Proof.
  intros Hlast Hlv. unfold get_tile_overlap. rewrite (tr_domain _ _ _ _ tree_T), Hlast, Hlv.
  destruct (tr_root _ _ _ _ tree_T) as (root & rest & Eb & Hroot).
  pose proof (tr_nodes _ _ _ _ tree_T) as HF.
  assert (∃ l ls, levels_ T = l :: ls ∧ zlen l = 1) as (l & ls & El & Hl).
  { rewrite Eb in HF. apply Forall2_cons_inv_r in HF as (l & ls & Hl & _ & ->). exists l, ls.
    split; [done|]. by rewrite (nodes_zlen _ _ _ Hl). }
  rewrite traverse_spec.
  - rewrite fmap_cons, fmap_nil. unfold search. simpl. by rewrite ov_nil_app, ov_app_nil.
  - constructor; [|done]. exists l. rewrite El. simpl. split; [done|lia].
  - pose proof (size_total D dom f (tr_fanout _ _ _ _ tree_T) _ _ HF (tr_chain _ _ _ _ tree_T) l ls El) as E.
    rewrite Hl in E. change (seqZ 0 1) with [0] in E. unfold node_num. rewrite <- E.
    exact (Nat.le_refl _).
Qed.

Lemma overlap_reported j y : leaves !! j = Some y →
  reported (Z.of_nat j) (dfs D f range n (levels_ T) 0) = Nat.b2n (meets xs y).
Proof.
  intros Hy. pose proof (tr_nodes _ _ _ _ tree_T) as HF. pose proof (tr_chain _ _ _ _ tree_T) as HC.
  pose proof (tr_fanout _ _ _ _ tree_T) as HFan.
  destruct (tr_root _ _ _ _ tree_T) as (root & rest & Eb & Hroot). rewrite Eb in HF, HC. rewrite Eb in last_bss.
  destruct (chain_ancestor f HFan _ _ _ _ _ HC (nodes_lengths _ _ _ _ HF) last_bss Hy) as (? & ? & p & [= <- <-] & Hp & _).
  pose proof HF as (l & ls & Hl & HFr & El)%Forall2_cons_inv_r. rewrite <- (nodes_zlen _ _ _ HFr) in Hp.
  rewrite (dfs_count D dom f range xs n HFan range_box dom_small leaves eq_refl _ _ HF HC last_bss l ls 0 j y El);
    [|rewrite (nodes_zlen _ _ _ Hl); lia|done].
  apply lookup_lt_Some in Hp. rewrite decide_True; [done|].
  assert (0 ≤ Z.of_nat j / f ^ zlen ls) by (apply Z.div_pos; [lia|apply Z.pow_pos_nonneg; [lia|apply Nat2Z.is_nonneg]]).
  unfold zlen in *. lia.
Qed.

Lemma overlap_sound : last (levels_ T) = Some level →
  sound D range xs leaves level (dfs D f range n (levels_ T) 0).
Proof.
  intros Hlast. pose proof (tr_nodes _ _ _ _ tree_T) as HF. pose proof (tr_chain _ _ _ _ tree_T) as HC.
  destruct (tr_root _ _ _ _ tree_T) as (root & rest & Eb & Hroot).
  pose proof HF as HF'. rewrite Eb in HF'. apply Forall2_cons_inv_r in HF' as (l & ls & Hl & _ & El).
  apply (dfs_sound D dom f range xs n (tr_fanout _ _ _ _ tree_T) range_box dom_small leaves eq_refl _ bss level HF HC last_bss Hlast l ls);
    [done|rewrite (nodes_zlen _ _ _ Hl); lia].
Qed.

End Traversal.

Lemma reported_once i ov : reported i ov = 1%nat →
  (∃ x, (i, x) ∈ tiles_ ov) ∨ ∃ s e, (s, e) ∈ tile_ranges_ ov ∧ s ≤ i ≤ e.
Proof.
  unfold reported. intros H. destruct (filter _ (tile_ranges_ ov)) as [|[s e] l] eqn:E1.
  - left. destruct (filter _ (tiles_ ov)) as [|[k x] l] eqn:E2; [done|]. exists x.
    assert ((k, x) ∈ filter (λ t : Z * Z, t.1 = i) (tiles_ ov)) as Hin by (rewrite E2; left).
    apply list_elem_of_filter in Hin as [<- Hin]. done.
  - right. exists s, e. assert ((s, e) ∈ filter (λ r : Z * Z, r.1 ≤ i ≤ r.2) (tile_ranges_ ov)) as Hin by (rewrite E1; left).
    by apply list_elem_of_filter in Hin as [Hr Hin].
Qed.

(** C6. The index finds the tiles.  A tree built over the bounding boxes of
    at least one and at most [2^50] tiles of an integer domain answers every
    query box: [build_tree] and [get_tile_overlap] terminate without error; a
    tile is reported exactly once when it has a cell in the query, and not at
    all otherwise; it is reported inside a fully covered range of tiles exactly
    when all its cells are in the query; and a tile reported on its own carries
    its own overlap ratio. *)
Theorem tile_overlap_exact libm_log D dom T level leaves range xs :
  domain_ T = Some D → dimensions_ D ≠ [] → 0 < fanout_ T < 2 ^ 32 → levels_ T = [level] →
  Forall2 (box D) level leaves → Forall (λ y, covers dom y = true) leaves → small D dom →
  0 < zlen level ≤ 2 ^ 50 → log_adequate libm_log (fanout_ T) (zlen level) → box D range xs →
  ∃ T' ov, build_tree libm_log T = (Ok (), T') ∧ get_tile_overlap T' range = Ok ov ∧
    ∀ i mbr y, level !! i = Some mbr → leaves !! i = Some y →
      (reported (Z.of_nat i) ov = 1%nat ↔ ∃ c, cell_in c xs ∧ cell_in c y) ∧
      (reported (Z.of_nat i) ov = 0%nat ↔ ¬ ∃ c, cell_in c xs ∧ cell_in c y) ∧
      ((∃ s e, (s, e) ∈ tile_ranges_ ov ∧ s ≤ Z.of_nat i ≤ e) ↔ ∀ c, cell_in c y → cell_in c xs) ∧
      (∀ x, (Z.of_nat i, x) ∈ tiles_ ov → overlap_ratio D range mbr = Ok x).
Proof.
  intros ED Hne Hf El HB HC Hs Hz Hlog Hx.
  assert (Forall2 (node D dom) level leaves) as HF.
  { apply Forall2_same_length_lookup. split; [by apply Forall2_length in HB|]. intros i r y Hr Hy.
    split; [by eapply Forall2_lookup_lr|by eapply Forall_lookup_1 in HC]. }
  destruct (build_tree_spec libm_log D dom T level leaves ED Hne Hf El HF Hz Hlog) as (T' & bss & EB & HT & Hb & Hl).
  pose proof (nodes_zlen _ _ _ HF) as Hzl. rewrite Hzl in Hz.
  exists T', (dfs D (fanout_ T') range (zlen leaves) (levels_ T') 0). split; [done|]. split.
  { by apply (get_tile_overlap_spec D dom T' bss level leaves range xs). }
  pose proof (overlap_sound D dom T' bss level leaves range xs HT Hb Hx Hs Hl) as [S1 S2].
  intros i mbr y Hm Hy. pose proof (overlap_reported D dom T' bss leaves range xs HT Hb Hx Hs i y Hy) as ER.
  set (ov := dfs _ _ _ _ _ _) in *. rewrite ER.
  destruct (box_proper D range xs Hx) as [Px Lx].
  destruct (node_length D dom mbr y) as [Ly Py]; [by eapply Forall2_lookup_lr in HF|].
  rewrite <- meets_member, <- covers_member by (done || congruence).
  split_and!; [by destruct (meets xs y)| |split|].
  - destruct (meets xs y); simpl; split; congruence || done.
  - intros (s & e & Hin & Hi). by apply (S1 s e i y).
  - intros Hc. rewrite (covers_meets xs y) in ER by (done || congruence).
    destruct (reported_once _ _ ER) as [[x Hin]|?]; [|done].
    destruct (S2 _ _ Hin) as (_ & r & y' & _ & Hy' & _ & Hn). rewrite Nat2Z.id, Hy in Hy'. congruence.
  - intros x Hin. destruct (S2 _ _ Hin) as (_ & r & y' & Hr & _ & Ex & _). rewrite Nat2Z.id, Hm in Hr. congruence.
Qed.

(** ** A concrete tree *)

(** The values of [log] at [2] and [5], as [double]. *)
Definition log_2_5 (x : Z) : Z :=
  if x =? nlit (NFlt F64) 2 then 4604418534313441775 else 4609927083155361075.

Definition five_boxes : list (list (Z * Z)) :=
  [[(0, 1); (-3, -1)]; [(0, 1); (0, 2)]; [(2, 3); (-3, -1)]; [(2, 3); (0, 2)]; [(4, 5); (6, 8)]].

Definition five_leaves : RTree.t := with_levels (make (Some grid_domain) 2) [int_box <$> five_boxes].

Lemma five_log : log_adequate log_2_5 2 5.
Proof. exists 3. split; [by vm_compute|lia]. Qed.

Lemma tile_overlap_exact_witness : ∃ T' ov,
  build_tree log_2_5 five_leaves = (Ok (), T') ∧ get_tile_overlap T' (int_box [(1, 3); (-3, 2)]) = Ok ov.
Proof.
  destruct (tile_overlap_exact log_2_5 grid_domain [(0, 5); (-3, 8)] five_leaves (int_box <$> five_boxes) five_boxes
    (int_box [(1, 3); (-3, 2)]) [(1, 3); (-3, 2)]) as (T' & ov & E1 & E2 & _); [..|exists T', ov; split; [exact E1|exact E2]].
  - reflexivity.
  - rewrite grid_dims. discriminate.
  - split; by vm_compute.
  - reflexivity.
  - repeat (constructor; [by apply int_box_box|]). constructor.
  - repeat (constructor; [by vm_compute|]). constructor.
  - unfold small. rewrite grid_dims. constructor; [|constructor; [|constructor]]; intros ty [= <-]; by vm_compute.
  - split; by vm_compute.
  - exact five_log.
  - by apply int_box_box.
Defined.
