(* ===== verification/Subarray.v ===== *)
(** * Subarrays (subarray/subarray.cc)

    The ranges of a query on each dimension, their numbering, the tiles of the
    fragments that they overlap and the estimate of the size of the result. *)

From stdpp Require Import gmap.
From S2P Require Import Prelude.
From S2P Require Import Enums.
From S2P Require Import Num.
From S2P Require Import Range.
From S2P Require Import Loops.
From S2P Require Import Dimension.
From S2P Require Import Domain.
From S2P Require Import DomainCells.
From S2P Require Import RTree.
From S2P Require Import Attribute.
From S2P Require Import ArraySchema.
Local Open Scope Z_scope.

(** ** Boxes of integer coordinates (misc/utils.cc, namespace geometry)

    Arrays of coordinates are lists; a box lists the bounds of each dimension in
    turn. *)
Module Geometry.

Definition coords_in_rect (coords rect : list Z) (dim_num : nat) : res bool :=
  all_of (seq 0 dim_num) (λ i,
    c ← idx coords i; lo ← idx rect (2 * i); hi ← idx rect (2 * i + 1);
    Ok (negb ((c <? lo) || (hi <? c)))).

Definition overlap (a b : list Z) (dim_num : nat) : res bool :=
  all_of (seq 0 dim_num) (λ i,
    a0 ← idx a (2 * i); a1 ← idx a (2 * i + 1); b0 ← idx b (2 * i); b1 ← idx b (2 * i + 1);
    Ok (negb ((b1 <? a0) || (a1 <? b0)))).

(** The overload that computes the common box; [None] when there is none. *)
Fixpoint overlap_loop (ixs : list nat) (a b : list Z) : res (option (list Z)) :=
  match ixs with
  | [] => Ok (Some [])
  | i :: ixs =>
      a0 ← idx a (2 * i); a1 ← idx a (2 * i + 1); b0 ← idx b (2 * i); b1 ← idx b (2 * i + 1);
      let o0 := Z.max a0 b0 in
      let o1 := Z.min a1 b1 in
      if (b1 <? o0) || (o1 <? b0) then Ok None
      else
        rest ← overlap_loop ixs a b;
        Ok (match rest with Some o => Some (o0 :: o1 :: o) | None => None end)
  end.
Definition overlap_box (a b : list Z) (dim_num : nat) : res (option (list Z)) := overlap_loop (seq 0 dim_num) a b.

(** [double(hi) - lo + 1]: the second bound is converted to [double]. *)
Definition side (lo hi : Z) : Z :=
  let d z := fenc F64 (f_of_Z F64 z) in fadd F64 (fsub F64 (d hi) (d lo)) (d 1).

(** [coverage<T>] for an integer type with largest value [tmax ty]. *)
Definition coverage (ty : ctype) (a b : list Z) (dim_num : nat) : res Z :=
  for_each (seq 0 dim_num) (λ i c,
    a0 ← idx a (2 * i); a1 ← idx a (2 * i + 1); b0 ← idx b (2 * i); b1 ← idx b (2 * i + 1);
    if b0 =? b1 then Ok c
    else
      let up x := if feq F64 x 0 then nextafter F64 x (fenc F64 (f_of_Z F64 (tmax ty))) else x in
      Ok (fmul F64 c (fdiv F64 (up (side a0 a1)) (up (side b0 b1))))) (fenc F64 (f_of_Z F64 1)).

End Geometry.

(** ** Subarrays *)

(** What a subarray asks of the metadata of a fragment (fragment_metadata.h).
    Loading changes only what is cached. *)
Class FragmentMeta (F : Type) : Type := {
  fm_dense : F → bool;
  fm_overlaps_non_empty_domain : F → NDRange → res bool;
  fm_load_rtree : F → res unit;
  fm_get_tile_overlap : F → NDRange → res TileOverlap;
  fm_overlapping_tile_ids_cov : F → ctype → list Z → res (list (Z * Z));
  fm_tile_size : F → list Z → Z → res Z;
  fm_load_tile_var_sizes : F → list Z → res unit;
  fm_tile_var_size : F → list Z → Z → res Z
}.

(** The array of a subarray: its schema, its fragments and the number of threads. *)
Record Array (F : Type) : Type := mkArray {
  array_schema : ArraySchema.t;
  fragment_metadata : list F;
  num_threads : Z
}.
Arguments mkArray {F}.
Arguments array_schema {F}.
Arguments fragment_metadata {F}.
Arguments num_threads {F}.

(** [size_fixed_] and [size_var_], as [double] in a [ResultSize] and as [uint64_t] in a
    [MemorySize]. *)
Record Sizes : Type := mkSizes { size_fixed_ : Z; size_var_ : Z }.

Record Subarray : Type := mkSubarray {
  layout_ : Layout;
  cell_order_ : Layout;
  ranges_ : list (list Range);
  is_default_ : list bool;
  range_offsets_ : list Z;
  tile_overlap_ : list (list TileOverlap);
  est_result_size_computed_ : bool;
  tile_overlap_computed_ : bool;
  est_result_size_ : gmap (list Z) Sizes;
  max_mem_size_ : gmap (list Z) Sizes;
  relevant_fragments_ : list nat;
  tile_coords_ : list (list Z);
  tile_coords_map_ : gmap (list Z) nat
}.

(** [Subarray()]. *)
Definition no_subarray : Subarray := mkSubarray UNORDERED ROW_MAJOR [] [] [] [] false false ∅ ∅ [] [] ∅.

Definition with_ranges (s : Subarray) (rs : list (list Range)) (ds : list bool) : Subarray :=
  mkSubarray (layout_ s) (cell_order_ s) rs ds (range_offsets_ s) (tile_overlap_ s) false false
    (est_result_size_ s) (max_mem_size_ s) (relevant_fragments_ s) (tile_coords_ s) (tile_coords_map_ s).
Definition with_range_offsets (s : Subarray) (o : list Z) : Subarray :=
  mkSubarray (layout_ s) (cell_order_ s) (ranges_ s) (is_default_ s) o (tile_overlap_ s)
    (est_result_size_computed_ s) (tile_overlap_computed_ s) (est_result_size_ s) (max_mem_size_ s) (relevant_fragments_ s) (tile_coords_ s) (tile_coords_map_ s).
Definition with_overlap (s : Subarray) (o : list (list TileOverlap)) (computed : bool) (relevant : list nat) : Subarray :=
  mkSubarray (layout_ s) (cell_order_ s) (ranges_ s) (is_default_ s) (range_offsets_ s) o
    (est_result_size_computed_ s) computed (est_result_size_ s) (max_mem_size_ s) relevant (tile_coords_ s) (tile_coords_map_ s).
Definition with_est (s : Subarray) (est mem : gmap (list Z) Sizes) : Subarray :=
  mkSubarray (layout_ s) (cell_order_ s) (ranges_ s) (is_default_ s) (range_offsets_ s) (tile_overlap_ s)
    true (tile_overlap_computed_ s) est mem (relevant_fragments_ s) (tile_coords_ s) (tile_coords_map_ s).

Definition with_tile_coords (s : Subarray) (coords : list (list Z)) (m : gmap (list Z) nat) : Subarray :=
  mkSubarray (layout_ s) (cell_order_ s) (ranges_ s) (is_default_ s) (range_offsets_ s) (tile_overlap_ s)
    (est_result_size_computed_ s) (tile_overlap_computed_ s) (est_result_size_ s) (max_mem_size_ s) (relevant_fragments_ s)
    coords m.

(** [swap] exchanges all but the tile coordinates, so an assignment keeps those of its
    target, and a subarray made from another one has none. *)
Definition assign (s from : Subarray) : Subarray := with_tile_coords from (tile_coords_ s) (tile_coords_map_ s).
Definition clone (s : Subarray) : Subarray := with_tile_coords s [] ∅.

(** The order of the ranges. *)
Definition effective_layout (s : Subarray) : Layout := if decide (layout_ s = UNORDERED) then cell_order_ s else layout_ s.

Definition range_num (s : Subarray) : Z :=
  match ranges_ s with [] => 0 | rs => fold_left (λ n r, u64 (n * zlen r)) rs 1 end.

Definition sempty (s : Subarray) : bool := range_num s =? 0.

(** [a / b] and [a % b] on [uint64_t]. *)
Definition udiv (a b : Z) : res Z := if b =? 0 then UB else Ok (a / b).
Definition urem (a b : Z) : res Z := if b =? 0 then UB else Ok (a mod b).

(** [ranges_[d][i]]. *)
Definition range_at (s : Subarray) (d : nat) (i : Z) : res Range :=
  rs ← idx (ranges_ s) d; if i <? 0 then UB else idx rs (Z.to_nat i).

Section subarray.
Context {F : Type} `{!FragmentMeta F}.
Variable A : Array F.

Abbreviation S := (array_schema A).

Definition dims : res nat := n ← dim_num S; Ok (Z.to_nat n).

(** ** Construction *)

(** [Subarray(array, layout)], with [add_default_ranges]. *)
Definition make_subarray (layout : Layout) : res Subarray :=
  D ← domain S;
  rs ← ndomain D;
  Ok (mkSubarray layout (ArraySchema.cell_order_ S) ((λ r, [r]) <$> rs) (replicate (length rs) true) [] [] false false ∅ ∅ [] [] ∅).

(** The part that [add_range] and [add_range_unsafe] have in common: the default
    range is removed. *)
Definition remove_default (dim_idx : nat) (s : Subarray) : res Subarray :=
  def ← idx (is_default_ s) dim_idx;
  if def : bool then
    rs ← upd (ranges_ s) dim_idx [];
    ds ← upd (is_default_ s) dim_idx false;
    Ok (with_ranges s rs ds)
  else Ok (with_ranges s (ranges_ s) (is_default_ s)).

Definition push_range (dim_idx : nat) (range : Range) (s : Subarray) : res Subarray :=
  rs ← idx (ranges_ s) dim_idx;
  rss ← upd (ranges_ s) dim_idx (rs ++ [range]);
  Ok (with_ranges s rss (is_default_ s)).

Definition add_range (dim_idx : nat) (range : Range) : M Subarray unit := fun s =>
  match dim_num S with
  | Ok n =>
      if n <=? Z.of_nat dim_idx then
        (Err SC_SubarrayError "Cannot add range to dimension; Invalid dimension index", s)
      else
        match remove_default dim_idx s with
        | Ok s1 =>
            match (dim ← dimension_at S dim_idx; check_range dim range) with
            | Ok _ => match push_range dim_idx range s1 with Ok s2 => (Ok (), s2) | _ => (UB, s1) end
            | Err c e => (Err c e, s1)
            | UB => (UB, s1)
            end
        | _ => (UB, s)
        end
  | _ => (UB, s)
  end.

Definition add_range_unsafe (dim_idx : nat) (range : Range) (s : Subarray) : res Subarray :=
  s1 ← remove_default dim_idx s; push_range dim_idx range s1.

(** ** Numbering of the ranges *)

(** [range_offsets_.push_back(range_offsets_.back() * ranges_[i].size())]. *)
Definition push_offset (s : Subarray) (i : nat) (v : list Z) : res (list Z) :=
  rs ← idx (ranges_ s) i; Ok (v ++ [u64 (List.last v 0 * zlen rs)]).

Definition compute_range_offsets (s : Subarray) : res Subarray :=
  n ← dims;
  match effective_layout s with
  | COL_MAJOR => v ← for_each (seq 1 (n - 1)) (λ i v, push_offset s (i - 1) v) [1]; Ok (with_range_offsets s v)
  | ROW_MAJOR => v ← for_each (rev (seq 0 (n - 1))) (λ i v, push_offset s (i + 1) v) [1]; Ok (with_range_offsets s (rev v))
  | GLOBAL_ORDER => massert (range_num s =? 1);; Ok (with_range_offsets s (1 :: replicate (n - 1) 1))
  | UNORDERED => UB
  end.

(** One digit: the quotient, and the remainder for the digits below. *)
Definition digit (s : Subarray) (i : nat) (acc : Z * list Z) : res (Z * list Z) :=
  o ← idx (range_offsets_ s) i;
  q ← udiv acc.1 o;
  r ← urem acc.1 o;
  Ok (r, acc.2 ++ [q]).

Definition get_range_coords (s : Subarray) (range_idx : Z) : res (list Z) :=
  n ← dims;
  match effective_layout s with
  | ROW_MAJOR => acc ← for_each (seq 0 n) (digit s) (range_idx, []); Ok acc.2
  | COL_MAJOR => acc ← for_each (rev (seq 0 n)) (digit s) (range_idx, []); Ok (rev acc.2)
  | GLOBAL_ORDER => massert (range_num s =? 1);; Ok (replicate n 0)
  | UNORDERED => UB
  end.

(** The carry of [get_next_range_coords] in row-major order, from dimension [d] up. *)
Fixpoint next_row (s : Subarray) (d : nat) (coords : list Z) : res (list Z) :=
  c ← idx coords d;
  coords ← upd coords d (u64 (c + 1));
  rs ← idx (ranges_ s) d;
  match d with
  | O => Ok coords
  | Datatypes.S d' => if zlen rs <=? u64 (c + 1) then coords ← upd coords d 0; next_row s d' coords else Ok coords
  end.

(** The same in column-major order; [n] dimensions follow [d]. *)
Fixpoint next_col (s : Subarray) (n d : nat) (coords : list Z) : res (list Z) :=
  c ← idx coords d;
  coords ← upd coords d (u64 (c + 1));
  rs ← idx (ranges_ s) d;
  match n with
  | O => Ok coords
  | Datatypes.S n' => if zlen rs <=? u64 (c + 1) then coords ← upd coords d 0; next_col s n' (Datatypes.S d) coords else Ok coords
  end.

Definition get_next_range_coords (s : Subarray) (coords : list Z) : res (list Z) :=
  n ← dims;
  match effective_layout s with
  | ROW_MAJOR => next_row s (n - 1) coords
  | COL_MAJOR => next_col s (n - 1) 0 coords
  | _ => Ok coords
  end.

Definition range_idx (s : Subarray) (range_coords : list Z) : res Z :=
  n ← dims;
  for_each (seq 0 n) (λ i ret,
    o ← idx (range_offsets_ s) i; c ← idx range_coords i; Ok (u64 (ret + u64 (o * c)))) 0.

(** [ndrange(range_idx)]. *)
Definition ndrange_loop (s : Subarray) (ixs : list nat) (range_idx : Z) : res NDRange :=
  acc ← for_each ixs (λ d acc,
    o ← idx (range_offsets_ s) d; q ← udiv acc.1 o; r ← range_at s d q; rem ← urem acc.1 o; Ok (rem, acc.2 ++ [r])) (range_idx, []);
  Ok acc.2.

Definition ndrange (s : Subarray) (range_idx : Z) : res NDRange :=
  n ← dims;
  if (range_idx =? 0) && (range_num s =? 1) then mapM (λ d, range_at s d 0) (seq 0 n)
  else match effective_layout s with
  | ROW_MAJOR => massert (negb (bool_decide (range_offsets_ s = [])));; ndrange_loop s (seq 0 n) range_idx
  | COL_MAJOR => massert (negb (bool_decide (range_offsets_ s = [])));; rs ← ndrange_loop s (rev (seq 0 n)) range_idx; Ok (rev rs)
  | _ => UB
  end.

(** [ndrange(range_coords)]. *)
Definition ndrange_at (s : Subarray) (range_coords : list Z) : res NDRange :=
  n ← dims; mapM (λ d, c ← idx range_coords d; range_at s d c) (seq 0 n).

(** ** Number of cells *)

Fixpoint cell_num_loop (s : Subarray) (ixs : list nat) (tmp_idx cell_num : Z) : res Z :=
  match ixs with
  | [] => Ok cell_num
  | d :: ixs =>
      o ← idx (range_offsets_ s) d; q ← udiv tmp_idx o; r ← range_at s d q; rem ← urem tmp_idx o;
      dim ← dimension_at S d; range ← domain_range dim r;
      if range =? u64_max then Ok range
      else
        cell_num ← safe_mul range cell_num;
        if cell_num =? u64_max then Ok cell_num else cell_num_loop s ixs rem cell_num
  end.

Fixpoint cell_num_first (s : Subarray) (ixs : list nat) (cell_num : Z) : res Z :=
  match ixs with
  | [] => Ok cell_num
  | d :: ixs =>
      r ← range_at s d 0;
      dim ← dimension_at S d; range ← domain_range dim r;
      if range =? u64_max then Ok range
      else
        cell_num ← safe_mul range cell_num;
        if cell_num =? u64_max then Ok cell_num else cell_num_first s ixs cell_num
  end.

Definition scell_num (s : Subarray) (range_idx : Z) : res Z :=
  n ← dims;
  if range_num s =? 1 then cell_num_first s (seq 0 n) 1
  else match effective_layout s with
  | ROW_MAJOR => massert (negb (bool_decide (range_offsets_ s = [])));; cell_num_loop s (seq 0 n) range_idx 1
  | COL_MAJOR => massert (negb (bool_decide (range_offsets_ s = [])));; cell_num_loop s (rev (seq 0 n)) range_idx 1
  | _ => UB
  end.

Fixpoint cell_num_at_loop (s : Subarray) (ixs : list nat) (coords : list Z) (ret : Z) : res Z :=
  match ixs with
  | [] => Ok ret
  | d :: ixs =>
      dim ← dimension_at S d;
      c ← idx coords d; r ← range_at s d c; range ← domain_range dim r;
      ret ← safe_mul ret range;
      if ret =? u64_max then Ok ret else cell_num_at_loop s ixs coords ret
  end.

(** [cell_num(range_coords)]. *)
Definition scell_num_at (s : Subarray) (range_coords : list Z) : res Z :=
  n ← dims;
  massert (Nat.eqb n (length range_coords));;
  cell_num_at_loop s (seq 0 n) range_coords 1.

(** ** Queries on the ranges *)

Definition scoincides_with_tiles (s : Subarray) : res bool :=
  if negb (range_num s =? 1) then Ok false
  else n ← dims; all_of (seq 0 n) (λ d, dim ← dimension_at S d; r ← range_at s d 0; coincides_with_tiles dim r).

(** [crop_to_tile<T>] for an integer type [T]. *)
Definition crop_to_tile (ty : ctype) (tile_coords : list Z) (layout : Layout) (s : Subarray) : res Subarray :=
  ret ← make_subarray layout;
  D ← domain S;
  tile_subarray ← get_tile_subarray ty D tile_coords;
  n ← dims;
  for_each (seq 0 n) (λ d ret,
    dim ← dimension_at S d;
    t0 ← idx tile_subarray (2 * d);
    t1 ← idx tile_subarray (2 * d + 1);
    rs ← idx (ranges_ s) d;
    for_each rs (λ range ret,
      '(r0, r1) ← rd2 (NInt ty) range;
      new_range ← Geometry.overlap_box [r0; r1] [t0; t1] 1;
      match new_range with
      | Some o => bs ← memread (concat (nenc (NInt ty) <$> o)) 0 (2 * coord_size dim); add_range_unsafe d (make_range bs) ret
      | None => Ok ret
      end) ret) ret.

(** The checks of [get_range], [get_range_num] and [get_range_var_size]. *)
Definition dim_in_bounds (dim_idx : nat) (msg : string) : res unit :=
  n ← dim_num S; if n <=? Z.of_nat dim_idx then Err SC_SubarrayError msg else Ok ().

Definition get_range (s : Subarray) (dim_idx : nat) (range_idx : Z) : res Range :=
  dim_in_bounds dim_idx "Cannot get range; Invalid dimension index";;
  rs ← idx (ranges_ s) dim_idx;
  if zlen rs <=? range_idx then Err SC_SubarrayError "Cannot get range; Invalid range index"
  else range_at s dim_idx range_idx.

Definition get_range_var_size (s : Subarray) (dim_idx : nat) (range_idx : Z) : res (Z * Z) :=
  dim_in_bounds dim_idx "Cannot get var range size; Invalid dimension index";;
  dim ← dimension_at S dim_idx;
  if negb (Dimension.var_size dim) then Err SC_SubarrayError "Cannot get var range size; Dimension is not var sized"
  else
    rs ← idx (ranges_ s) dim_idx;
    if zlen rs <=? range_idx then Err SC_SubarrayError "Cannot get var range size; Invalid range index"
    else r ← range_at s dim_idx range_idx; Ok (start_size r, end_size r).

Definition get_range_num (s : Subarray) (dim_idx : nat) : res Z :=
  dim_in_bounds dim_idx "Cannot get number of ranges for a dimension; Invalid dimension index";;
  rs ← idx (ranges_ s) dim_idx; Ok (zlen rs).

Definition is_set (s : Subarray) : bool := existsb negb (is_default_ s).

Definition is_unary (s : Subarray) : res bool :=
  if negb (range_num s =? 1) then Ok false
  else all_of (ranges_ s) (λ rs, r ← idx rs 0; unary r).

(** [is_unary(range_idx)]. *)
Definition is_unary_at (s : Subarray) (range_idx : Z) : res bool :=
  coords ← get_range_coords s range_idx;
  n ← dims;
  all_of (seq 0 n) (λ d, c ← idx coords d; r ← range_at s d c; unary r).

Definition to_byte_vec (s : Subarray) (byte_vec : list Z) : res (list Z) :=
  if negb (range_num s =? 1) then Err SC_SubarrayError "Cannot export to byte vector; The subarray must be unary"
  else for_each (ranges_ s) (λ rs v, r ← idx rs 0; Ok (v ++ range_ r)) byte_vec.

Definition set_ranges_for_dim (dim_idx : nat) (ranges : list Range) (s : Subarray) : Subarray :=
  mkSubarray (layout_ s) (cell_order_ s) (take dim_idx (ranges_ s ++ replicate (dim_idx - length (ranges_ s)) []) ++ [ranges])
    (is_default_ s) (range_offsets_ s) (tile_overlap_ s) (est_result_size_computed_ s)
    (tile_overlap_computed_ s) (est_result_size_ s) (max_mem_size_ s) (relevant_fragments_ s) (tile_coords_ s) (tile_coords_map_ s).

Definition clear (s : Subarray) : Subarray :=
  mkSubarray (layout_ s) (cell_order_ s) [] (is_default_ s) [] [] false false
    (est_result_size_ s) (max_mem_size_ s) (relevant_fragments_ s) (tile_coords_ s) (tile_coords_map_ s).

(** The integers of [[a, b]]. *)
Definition zseq (a b : Z) : list Z := (λ i, a + Z.of_nat i) <$> seq 0 (Z.to_nat (b - a + 1)).

Definition get_subarray (s : Subarray) (start end_ : Z) : res Subarray :=
  ret ← make_subarray (layout_ s);
  start_coords ← get_range_coords s start;
  end_coords ← get_range_coords s end_;
  n ← dims;
  ret ← for_each (seq 0 n) (λ d ret,
    a ← idx start_coords d;
    b ← idx end_coords d;
    for_each (zseq a b) (λ r ret, x ← range_at s d r; add_range_unsafe d x ret) ret) ret;
  ov ← mapM (λ f, mapM (λ r, if r <? 0 then UB else idx f (Z.to_nat r)) (zseq start end_)) (tile_overlap_ s);
  compute_range_offsets (with_overlap ret ov (tile_overlap_computed_ ret) (relevant_fragments_ ret)).

(** ** Splitting *)

(** [split(splitting_dim, splitting_value, r1, r2)]. *)
Definition split_single (s : Subarray) (splitting_dim : nat) (splitting_value : list Z) : res (Subarray * Subarray) :=
  e ← make_subarray (layout_ s);
  n ← dims;
  for_each (seq 0 n) (λ d acc,
    r ← range_at s d 0;
    '(sr1, sr2) ← (if Nat.eqb d splitting_dim then
                     dim ← dimension_at S d; split_range dim r splitting_value empty_range empty_range
                   else Ok (r, r));
    r1 ← add_range_unsafe d sr1 acc.1;
    r2 ← add_range_unsafe d sr2 acc.2;
    Ok (r1, r2)) (e, e).

(** [split(splitting_range, splitting_dim, splitting_value, r1, r2)]. *)
Definition split_multi (s : Subarray) (splitting_range : Z) (splitting_dim : nat) (splitting_value : list Z) :
    res (Subarray * Subarray) :=
  e ← make_subarray (layout_ s);
  n ← dims;
  for_each (seq 0 n) (λ d acc,
    range_num ← get_range_num s d;
    let add l := for_each l (λ j r, x ← range_at s d j; add_range_unsafe d x r) in
    if negb (Nat.eqb d splitting_dim) then
      r1 ← add (zseq 0 (range_num - 1)) acc.1;
      r2 ← add (zseq 0 (range_num - 1)) acc.2;
      Ok (r1, r2)
    else if negb (splitting_range =? u64_max) then
      r1 ← add (zseq 0 splitting_range) acc.1;
      r2 ← add (zseq (splitting_range + 1) (range_num - 1)) acc.2;
      Ok (r1, r2)
    else
      r ← range_at s d 0;
      dim ← dimension_at S d;
      '(sr1, sr2) ← split_range dim r splitting_value empty_range empty_range;
      r1 ← add_range_unsafe d sr1 acc.1;
      r2 ← add_range_unsafe d sr2 acc.2;
      Ok (r1, r2)) (e, e).

End subarray.
