(* ===== verification/SubarrayTiles.v ===== *)
(** * Tiles and result sizes of a subarray (subarray/subarray.cc)

    The tiles of the relevant fragments that the ranges of a subarray overlap,
    the coordinates of the space tiles it covers, and the estimates of the size
    of its result and of the memory that its tiles take. *)

From stdpp Require Import gmap.
From S2P Require Import Prelude.
From S2P Require Import Enums.
From S2P Require Import Num.
From S2P Require Import Range.
From S2P Require Import Loops.
From S2P Require Import Dimension.
From S2P Require Import Domain.
From S2P Require Import DomainCells.
From S2P Require Import RTree.
From S2P Require Import Attribute.
From S2P Require Import ArraySchema.
From S2P Require Import Subarray.
Local Open Scope Z_scope.

(** A [uint64_t] as a [double]; the double 1.0. *)
Definition dbl (z : Z) : Z := fenc F64 (f_of_Z F64 z).
Definition one : Z := dbl 1.

(** ** Grouping of the tiles (get_tile_overlap) *)

(** The state of the loop: what is collected, and the range of tiles that has
    started. *)
Record Grouping : Type := mkGrouping {
  collected : TileOverlap;
  start_tid : Z;
  end_tid : Z
}.

(** The range that has started is added, as a tile of its own when it has one. *)
Definition add_previous (g : Grouping) : TileOverlap :=
  let o := collected g in
  if negb (start_tid g =? end_tid g) then mkOverlap (tiles_ o) (tile_ranges_ o ++ [(start_tid g, end_tid g)])
  else mkOverlap (tiles_ o ++ [(start_tid g, one)]) (tile_ranges_ o).

Definition group_tile (g : Grouping) (o : Z * Z) : Grouping :=
  if negb (feq F64 o.2 one) then
    let c := if negb (start_tid g =? u64_max) then add_previous g else collected g in
    mkGrouping (mkOverlap (tiles_ c ++ [o]) (tile_ranges_ c)) u64_max u64_max
  else if start_tid g =? u64_max then mkGrouping (collected g) o.1 o.1
  else if o.1 =? u64 (end_tid g + 1) then mkGrouping (collected g) (start_tid g) (u64 (end_tid g + 1))
  else mkGrouping (add_previous g) o.1 o.1.

Definition group_tiles (frag_overlap : list (Z * Z)) : TileOverlap :=
  let g := foldl group_tile (mkGrouping no_overlap u64_max u64_max) frag_overlap in
  if negb (start_tid g =? u64_max) then add_previous g else collected g.

Section subarray.
Context {F : Type} `{!FragmentMeta F}.
Variable A : Array F.

Abbreviation S := (array_schema A).

(** ** Tile overlap *)

(** The integer type that [get_tile_overlap] instantiates the template with. *)
Definition overlap_type (d : Datatype) : res ctype :=
  match num_of d with Some (NInt ty) => Ok ty | _ => UB end.

(** [get_tile_overlap(range_idx, fid)] on integer domains. *)
Definition get_tile_overlap (s : Subarray) (range_idx : Z) (fid : nat) : res TileOverlap :=
  massert (dense S);;
  dim0 ← dimension_at S 0;
  ty ← overlap_type (type_ dim0);
  nd ← ndrange A s range_idx;
  n ← dims A;
  cpy ← mapM (λ d, r ← idx nd d; '(r0, r1) ← rd2 (NInt ty) r; Ok [r0; r1]) (seq 0 n);
  meta ← idx (fragment_metadata A) fid;
  frag_overlap ← fm_overlapping_tile_ids_cov meta ty (concat cpy);
  Ok (group_tiles frag_overlap).

Definition compute_relevant_fragments : M Subarray unit := fun s =>
  let fragment_num := length (fragment_metadata A) in
  match mapM (λ f, meta ← idx (fragment_metadata A) f;
    any_of (zseq 0 (range_num s - 1)) (λ r, nd ← ndrange A s r; fm_overlaps_non_empty_domain meta nd)) (seq 0 fragment_num) with
  | Ok frag_bitmap =>
      let found := filter (λ f, frag_bitmap !! f = Some true) (seq 0 fragment_num) in
      (Ok (), with_overlap s (tile_overlap_ s) (tile_overlap_computed_ s) (relevant_fragments_ s ++ found))
  | Err c e => (Err c e, s)
  | UB => (UB, s)
  end.

Definition load_relevant_fragment_rtrees : M Subarray unit := fun s =>
  parallel_for ((λ f, lift (meta ← idx (fragment_metadata A) f; fm_load_rtree meta)) <$> relevant_fragments_ s) s.

(** The ranges of thread [t], among [range_start] to [range_end]. With no range
    at all the loop has no bound and its first access is out of range. *)
Definition thread_ranges (ranges_per_thread range_start range_end t : Z) : list Z :=
  zseq (u64 (range_start + u64 (t * ranges_per_thread)))
    (Z.min (u64 (range_start + u64 ((t + 1) * ranges_per_thread) - 1)) range_end).

Definition set_tile_overlap (f : nat) (r : Z) (o : TileOverlap) (s : Subarray) : res Subarray :=
  v ← idx (tile_overlap_ s) f;
  v ← upd v (Z.to_nat r) o;
  ov ← upd (tile_overlap_ s) f v;
  Ok (with_overlap s ov (tile_overlap_computed_ s) (relevant_fragments_ s)).

(** [compute_relevant_fragment_tile_overlap(meta, frag_idx, dense, range_num)]. *)
Fixpoint overlap_ranges (meta : F) (frag_idx : nat) (rs : list Z) : M Subarray unit := fun s =>
  match rs with
  | [] => (Ok (), s)
  | r :: rs =>
      match (o ← (if fm_dense meta then get_tile_overlap s r frag_idx
                  else nd ← ndrange A s r; fm_get_tile_overlap meta nd);
             set_tile_overlap frag_idx r o s) with
      | Ok s => overlap_ranges meta frag_idx rs s
      | Err c e => (Err c e, s)
      | UB => (UB, s)
      end
  end.

Definition fragment_tile_overlap (meta : F) (frag_idx : nat) (range_num : Z) : M Subarray unit := fun s =>
  match (n ← ceil_quot range_num (num_threads A); massert (0 <? range_num);; Ok n) with
  | Ok ranges_per_thread =>
      parallel_for ((λ t, overlap_ranges meta frag_idx (thread_ranges ranges_per_thread 0 (range_num - 1) t)) <$>
        zseq 0 (num_threads A - 1)) s
  | _ => (UB, s)
  end.

Definition compute_relevant_fragment_tile_overlap : M Subarray unit := fun s =>
  parallel_for ((λ f, meta ← lift (idx (fragment_metadata A) f); fragment_tile_overlap meta f (range_num s)) <$>
    relevant_fragments_ s) s.

Definition overlap_computed : M Subarray unit := fun s =>
  (Ok (), with_overlap s (tile_overlap_ s) true (relevant_fragments_ s)).

Definition overlap_steps : M Subarray unit :=
  compute_relevant_fragments;;
  load_relevant_fragment_rtrees;;
  compute_relevant_fragment_tile_overlap;;
  overlap_computed.

Definition compute_tile_overlap : M Subarray unit := fun s =>
  if tile_overlap_computed_ s then (Ok (), s)
  else
    match compute_range_offsets A s with
    | Ok s =>
        overlap_steps (with_overlap s
          (replicate (length (fragment_metadata A)) (replicate (Z.to_nat (range_num s)) no_overlap))
          (tile_overlap_computed_ s) (relevant_fragments_ s))
    | _ => (UB, s)
    end.

(** ** Estimates *)

Definition load_relevant_fragment_tile_var_sizes (names : list (list Z)) (s : Subarray) : res unit :=
  vs ← mapM (var_size S) names;
  let var_names := (zip names vs) ≫= (λ p, if p.2 : bool then [p.1] else []) in
  match var_names with
  | [] => Ok ()
  | _ =>
      fst (parallel_for (relevant_fragments_ s ≫= (λ f,
        (λ name, lift (meta ← idx (fragment_metadata A) f; fm_load_tile_var_sizes meta name)) <$> var_names)) ())
  end.

Definition add_sizes (x : Sizes) (fixed var : Z) : Sizes :=
  mkSizes (fadd F64 (size_fixed_ x) fixed) (fadd F64 (size_var_ x) var).

(** One tile of a fragment: every name but the zipped coordinates of a
    heterogeneous domain adds the share [ratio] of its size; [None] is a tile of
    a range, added in full. *)
Definition tile_sizes (meta : F) (names : list (list Z)) (var_sizes : list bool) (same_type : bool)
    (tid : Z) (ratio : option Z) (sizes : list Sizes) : res (list Sizes) :=
  let share z := match ratio with Some q => fmul F64 (dbl z) q | None => dbl z end in
  for_each (seq 0 (length names)) (λ n sizes,
    name ← idx names n;
    if bool_decide (name = coords) && negb same_type then Ok sizes
    else
      tile_size ← fm_tile_size meta name tid;
      x ← idx sizes n;
      v ← idx var_sizes n;
      if negb v then upd sizes n (mkSizes (fadd F64 (size_fixed_ x) (share tile_size)) (size_var_ x))
      else
        tile_var_size ← fm_tile_var_size meta name tid;
        upd sizes n (add_sizes x (share tile_size) (share tile_var_size))) sizes.

(** The tiles of the relevant fragments that a range overlaps, in the order of
    the loops: the tiles of the ranges, then the tiles with their ratio. *)
Definition overlap_tiles (o : TileOverlap) : list (Z * option Z) :=
  (tile_ranges_ o ≫= (λ tr, (λ tid, (tid, None)) <$> zseq tr.1 tr.2)) ++ ((λ t, (t.1, Some t.2)) <$> tiles_ o).

(** [std::min<double>]. *)
Definition dmin (a b : Z) : Z := if flt F64 b a then b else a.

Definition range_cells (s : Subarray) (range_coords : list Z) : res Z :=
  n ← dims A;
  for_each (seq 0 n) (λ d c,
    dim ← dimension_at S d; x ← idx range_coords d; r ← range_at s d x; w ← domain_range dim r; safe_mul c w) 1.

Definition calibrate_sizes (s : Subarray) (names : list (list Z)) (var_sizes : list bool) (same_type : bool)
    (range_coords : list Z) (sizes : list Sizes) : res (list Sizes) :=
  cell_num ← range_cells s range_coords;
  for_each (seq 0 (length names)) (λ n sizes,
    name ← idx names n;
    if bool_decide (name = coords) && negb same_type then Ok sizes
    else
      v ← idx var_sizes n;
      sz ← (if v : bool then Ok 8 else cell_size S name);
      max_size_fixed ← safe_mul cell_num sz;
      x ← idx sizes n;
      upd sizes n (mkSizes (dmin (size_fixed_ x) (dbl max_size_fixed)) (dmin (size_var_ x) (dbl u64_max)))) sizes.

(** One tile of fragment [f]: the sizes with it, and the tiles that were met. *)
Definition count_tile (names : list (list Z)) (var_sizes : list bool) (same_type : bool) (f : nat) (meta : F)
    (t : Z * option Z) (acc : list Sizes * gset (nat * Z)) : res (list Sizes * gset (nat * Z)) :=
  sizes ← tile_sizes meta names var_sizes same_type t.1 t.2 acc.1;
  let used := existsb (λ name, negb (bool_decide (name = coords) && negb same_type)) names in
  Ok (sizes, if used then {[(f, t.1)]} ∪ acc.2 else acc.2).

(** The tiles of fragment [f] that a range overlaps. *)
Definition count_fragment (s : Subarray) (names : list (list Z)) (var_sizes : list bool) (same_type : bool) (range_idx : Z)
    (f : nat) (acc : list Sizes * gset (nat * Z)) : res (list Sizes * gset (nat * Z)) :=
  ovs ← idx (tile_overlap_ s) f;
  o ← idx ovs (Z.to_nat range_idx);
  meta ← idx (fragment_metadata A) f;
  for_each (overlap_tiles o) (count_tile names var_sizes same_type f meta) acc.

(** [compute_relevant_fragment_est_result_sizes] of one range: the sizes, and the
    tiles that were met. *)
Definition range_est_sizes (s : Subarray) (names : list (list Z)) (var_sizes : list bool)
    (same_type fixed : bool) (range_idx : Z) (range_coords : list Z) : res (list Sizes * gset (nat * Z)) :=
  acc ← for_each (relevant_fragments_ s) (count_fragment s names var_sizes same_type range_idx)
    (replicate (length names) (mkSizes 0 0), ∅);
  if negb (allows_dups_ S) && fixed then
    sizes ← calibrate_sizes s names var_sizes same_type range_coords acc.1; Ok (sizes, acc.2)
  else Ok acc.

(** The ranges of one thread; the coordinates follow the numbering. *)
Fixpoint thread_est_sizes (s : Subarray) (names : list (list Z)) (var_sizes : list bool) (same_type fixed : bool)
    (range_start : Z) (rs r_coords : list Z) : M (list (list Sizes * gset (nat * Z))) unit := fun out =>
  match rs with
  | [] => (Ok (), out)
  | r :: rs =>
      match (x ← range_est_sizes s names var_sizes same_type fixed r r_coords;
             out ← upd out (Z.to_nat (r - range_start)) x;
             c ← get_next_range_coords A s r_coords;
             Ok (out, c)) with
      | Ok (out, c) => thread_est_sizes s names var_sizes same_type fixed range_start rs c out
      | Err c e => (Err c e, out)
      | UB => (UB, out)
      end
  end.

(** The memory of the tiles that no earlier range has met. *)
Definition tile_mem (names : list (list Z)) (var_sizes : list bool) (ft : nat * Z) (mem : list Sizes) : res (list Sizes) :=
  meta ← idx (fragment_metadata A) ft.1;
  for_each (seq 0 (length names)) (λ i mem,
    name ← idx names i;
    tile_size ← fm_tile_size meta name ft.2;
    v ← idx var_sizes i;
    x ← idx mem i;
    if negb v then upd mem i (mkSizes (u64 (size_fixed_ x + tile_size)) (size_var_ x))
    else
      tile_var_size ← fm_tile_var_size meta name ft.2;
      upd mem i (mkSizes (u64 (size_fixed_ x + tile_size)) (u64 (size_var_ x + tile_var_size)))) mem.

Definition mem_sizes (names : list (list Z)) (var_sizes : list bool) (frag_tiles : list (gset (nat * Z))) : res (list (list Sizes)) :=
  acc ← for_each frag_tiles (λ fts acc,
    mem ← for_each (elements (fts ∖ acc.1)) (tile_mem names var_sizes) (replicate (length names) (mkSizes 0 0));
    Ok (acc.1 ∪ fts, acc.2 ++ [mem])) (∅, []);
  Ok acc.2.

(** [compute_relevant_fragment_est_result_sizes] of the ranges [range_start] to
    [range_end]. *)
Definition relevant_est_sizes (s : Subarray) (names : list (list Z)) (range_start range_end : Z) :
    res (list (list Sizes) * list (list Sizes)) :=
  load_relevant_fragment_tile_var_sizes names s;;
  let range_num := u64 (range_end - range_start + 1) in
  var_sizes ← mapM (var_size S) names;
  D ← domain S;
  same_type ← all_dims_same_type D;
  ranges_per_thread ← ceil_quot range_num (num_threads A);
  massert (0 <? range_num);;
  match parallel_for ((λ t,
      let rs := thread_ranges ranges_per_thread range_start range_end t in
      r_coords ← lift (get_range_coords A s (u64 (range_start + u64 (t * ranges_per_thread))));
      thread_est_sizes s names var_sizes same_type (all_dims_fixed D) range_start rs r_coords) <$> zseq 0 (num_threads A - 1))
      (replicate (Z.to_nat range_num) ([], ∅)) with
  | (Ok _, out) => mem ← mem_sizes names var_sizes out.*2; Ok (out.*1, mem)
  | (Err c e, _) => Err c e
  | (UB, _) => UB
  end.

(** The names of the attributes, of the dimensions and of the zipped coordinates. *)
Definition all_names : res (list (list Z)) :=
  D ← domain S;
  ns ← dim_names D;
  Ok ((Attribute.name_ <$> attributes_ S) ++ ns ++ [coords]).

Definition sum_doubles (acc x : Sizes) : Sizes := add_sizes acc (size_fixed_ x) (size_var_ x).
Definition sum_words (acc x : Sizes) : Sizes :=
  mkSizes (u64 (size_fixed_ acc + size_fixed_ x)) (u64 (size_var_ acc + size_var_ x)).

Definition sum_est_sizes : M Subarray unit := fun s =>
  match (names ← all_names;
         '(rs, ms) ← relevant_est_sizes s names 0 (u64 (range_num s - 1));
         let zero := replicate (length names) (mkSizes 0 0) in
         let est := foldl (zip_with sum_doubles) zero rs in
         let mem := foldl (zip_with sum_words) zero ms in
         Ok (list_to_map (rev (zip names est)), list_to_map (rev (zip names mem)))) with
  | Ok (est, mem) => (Ok (), with_est s est mem)
  | Err c e => (Err c e, s)
  | UB => (UB, s)
  end.

Definition compute_est_result_size : M Subarray unit := fun s =>
  if est_result_size_computed_ s then (Ok (), s) else (compute_tile_overlap;; sum_est_sizes) s.

Definition exists_name (name : list Z) : bool := bool_decide (name = coords) || is_dim S name || is_attr S name.

(** [m[name]] on a map that holds every name of the schema. *)
Definition sizes_of (m : gmap (list Z) Sizes) (name : list Z) : Sizes := default (mkSizes 0 0) (m !! name).

(** [(uint64_t)ceil(x)]. *)
Definition ceil_u64 (x : Z) : res Z := in_range U64 (f_ceil x).

Definition check_name (what null_msg : string) (name : option (list Z)) : res (list Z) :=
  match name with
  | None => Err SC_SubarrayError (what +:+ null_msg)
  | Some name =>
      if negb (exists_name name) then Err SC_SubarrayError (what +:+ "Attribute/Dimension does not exist") else Ok name
  end.

Definition est_msg : string := "Cannot get estimated result size; ".
Definition mem_msg : string := "Cannot get max memory size; ".

Definition ask {B : Type} (f : Subarray → res B) : M Subarray B := fun s => (f s, s).

(** [get_est_result_size] of a fixed-sized and of a var-sized name. *)
Definition get_est_result_size (name : option (list Z)) : M Subarray Z :=
  name ← lift (check_name est_msg "Attribute/Dimension name cannot be null" name);
  v ← lift (var_size S name);
  if v : bool then fail SC_SubarrayError (est_msg +:+ "Attribute/Dimension must be fixed-sized")
  else
    compute_est_result_size;;
    ask (λ s, ceil_u64 (size_fixed_ (sizes_of (est_result_size_ s) name))).

Definition get_est_result_size_var (name : option (list Z)) : M Subarray (Z * Z) :=
  name ← lift (check_name est_msg "Attribute/Dimension name cannot be null" name);
  v ← lift (var_size S name);
  if negb v then fail SC_SubarrayError (est_msg +:+ "Attribute/Dimension must be var-sized")
  else
    compute_est_result_size;;
    ask (λ s, let x := sizes_of (est_result_size_ s) name in
      off ← ceil_u64 (size_fixed_ x); val ← ceil_u64 (size_var_ x); Ok (off, val)).

(** The status of [compute_est_result_size] is not looked at. *)
Definition ignore_status (m : M Subarray unit) : M Subarray unit := fun s =>
  match m s with (UB, s) => (UB, s) | (_, s) => (Ok (), s) end.

Definition get_max_memory_size (name : option (list Z)) : M Subarray Z :=
  name ← lift (check_name mem_msg "Attribute/Dimension cannot be null" name);
  v ← lift (if bool_decide (name = coords) then Ok false else var_size S name);
  if v : bool then fail SC_SubarrayError (mem_msg +:+ "Attribute/Dimension must be fixed-sized")
  else ignore_status compute_est_result_size;; ask (λ s, Ok (size_fixed_ (sizes_of (max_mem_size_ s) name))).

Definition get_max_memory_size_var (name : option (list Z)) : M Subarray (Z * Z) :=
  name ← lift (check_name mem_msg "Attribute/Dimension cannot be null" name);
  v ← lift (var_size S name);
  if negb v then fail SC_SubarrayError (mem_msg +:+ "Attribute/Dimension must be var-sized")
  else
    ignore_status compute_est_result_size;;
    ask (λ s, let x := sizes_of (max_mem_size_ s) name in Ok (size_fixed_ x, size_var_ x)).

Definition get_est_result_size_map : M Subarray (gmap (list Z) Sizes) :=
  ignore_status compute_est_result_size;; ask (λ s, Ok (est_result_size_ s)).
Definition get_max_mem_size_map : M Subarray (gmap (list Z) Sizes) :=
  ignore_status compute_est_result_size;; ask (λ s, Ok (max_mem_size_ s)).

Definition set_est_result_size (est mem : gmap (list Z) Sizes) (s : Subarray) : Subarray := with_est s est mem.

(** ** Tile coordinates *)

(** [std::set<T>::insert], the set as its sorted elements. *)
Fixpoint set_insert (x : Z) (l : list Z) : list Z :=
  match l with
  | [] => [x]
  | y :: l' => if x <? y then x :: l else if x =? y then l else y :: set_insert x l'
  end.

(** [(v - dim_dom[0]) / tile_extent], as a [uint64_t]. *)
Definition tile_index (ty : ctype) (lo ext v : Z) : res Z :=
  x ← nsub (NInt ty) v lo; q ← ndiv (NInt ty) x ext; Ok (conv U64 q).

(** [coords_set[d]]: the tiles of the ranges of a dimension. *)
Definition coords_set (ty : ctype) (s : Subarray) (d : nat) : res (list Z) :=
  D ← domain S;
  e ← tile_extent D d;
  ext ← rd (NInt ty) e 0;
  rs ← idx (ranges_ s) d;
  dom ← ndomain D;
  dr ← idx dom d;
  for_each rs (λ range set,
    lo ← rd (NInt ty) (range_ dr) 0;
    '(r0, r1) ← rd2 (NInt ty) range;
    tile_start ← tile_index ty lo ext r0;
    tile_end ← tile_index ty lo ext r1;
    Ok (foldl (λ set t, set_insert (conv ty t) set) set (zseq tile_start tile_end))) [].

(** The iterators are positions in the sets. Advancing them: [ds] is the order of
    the dimensions, from the one that changes fastest to the one that is not
    wrapped around. *)
Fixpoint advance (sets : list (list Z)) (ds : list nat) (iters : list nat) : res (list nat) :=
  match ds with
  | [] => Ok iters
  | d :: ds =>
      i ← idx iters d;
      set ← idx sets d;
      iters ← upd iters d (Datatypes.S i);
      if negb (Nat.eqb (Datatypes.S i) (length set)) then Ok iters
      else
        iters ← (match ds with [] => Ok iters | _ => upd iters d O end);
        advance sets ds iters
  end.

(** The loop that fills [tile_coords_], until the iterator of the slowest dimension
    is at its end. *)
Fixpoint fill_coords (fuel : nat) (ty : ctype) (sets : list (list Z)) (ds : list nat) (last : nat)
    (iters : list nat) (out : list (list Z)) (room : nat) : res (list (list Z)) :=
  i ← idx iters last;
  set ← idx sets last;
  if Nat.eqb i (length set) then Ok (out ++ replicate room [])
  else
    match fuel, room with
    | Datatypes.S fuel, Datatypes.S room =>
        coords ← mapM (λ d, i ← idx iters d; set ← idx sets d; v ← idx set i; Ok (nenc (NInt ty) v)) (seq 0 (length sets));
        iters ← advance sets ds iters;
        fill_coords fuel ty sets ds last iters (out ++ [concat coords]) room
    | _, _ => UB
    end.

(** [compute_tile_coords<T>]: the rows order the coordinates from the last dimension
    up, the columns from the first one down. *)
Definition compute_tile_coords (ty : ctype) (s : Subarray) : res Subarray :=
  n ← dims A;
  sets ← mapM (coords_set ty s) (seq 0 n);
  let num := foldl (λ n set, n * length set)%nat 1%nat sets in
  let row := bool_decide (tile_order_ S = ROW_MAJOR) in
  let ds := if row then rev (seq 0 n) else seq 0 n in
  tc ← fill_coords num ty sets ds (if row then 0 else n - 1)%nat (replicate n O) [] num;
  Ok (with_tile_coords s tc (foldl (λ m p, <[p.2 := p.1]> m) (tile_coords_map_ s) (imap pair tc))).

(** [tile_coords_ptr<T>]: the stored coordinates; [None] is the null pointer. *)
Definition tile_coords_ptr (ty : ctype) (s : Subarray) (tile_coords : list Z) : res (option (list Z)) :=
  match tile_coords_map_ s !! concat (nenc (NInt ty) <$> tile_coords) with
  | Some i => c ← idx (tile_coords_ s) i; Ok (Some c)
  | None => Ok None
  end.

End subarray.
