(* ===== verification/SubarrayPartitioner.v ===== *)
(** * Partitioning of a subarray (subarray/subarray_partitioner.cc)

    A read returns the cells of its subarray one partition at a time, each of
    which is estimated to fit in the buffers of the query. *)

From stdpp Require Import gmap.
From S2P Require Import Prelude.
From S2P Require Import Enums.
From S2P Require Import Num.
From S2P Require Import Range.
From S2P Require Import Loops.
From S2P Require Import Dimension.
From S2P Require Import Domain.
From S2P Require Import ArraySchema.
From S2P Require Import Subarray.
From S2P Require Import SubarrayTiles.
Local Open Scope Z_scope.

(** The current partition, and the interval of the ranges that it comes from. *)
Record PartitionInfo : Type := mkInfo {
  partition_ : Subarray;
  cstart_ : Z;
  cend_ : Z;
  split_multi_range_ : bool
}.

(** What is left: the ranges from [start_] to [end_], and the subarrays that
    the first ones have been split into. *)
Record State : Type := mkState {
  start_ : Z;
  end_ : Z;
  single_range_ : list Subarray;
  multi_range_ : list Subarray
}.

Record SubarrayPartitioner : Type := mkPartitioner {
  subarray_ : Subarray;
  budget_ : gmap (list Z) Sizes;
  current_ : PartitionInfo;
  state_ : State;
  memory_budget_ : Z;
  memory_budget_var_ : Z
}.

Definition with_current (p : SubarrayPartitioner) (c : PartitionInfo) : SubarrayPartitioner :=
  mkPartitioner (subarray_ p) (budget_ p) c (state_ p) (memory_budget_ p) (memory_budget_var_ p).
Definition with_state (p : SubarrayPartitioner) (s : State) : SubarrayPartitioner :=
  mkPartitioner (subarray_ p) (budget_ p) (current_ p) s (memory_budget_ p) (memory_budget_var_ p).
Definition with_single (p : SubarrayPartitioner) (l : list Subarray) : SubarrayPartitioner :=
  with_state p (mkState (start_ (state_ p)) (end_ (state_ p)) l (multi_range_ (state_ p))).
Definition with_multi (p : SubarrayPartitioner) (l : list Subarray) : SubarrayPartitioner :=
  with_state p (mkState (start_ (state_ p)) (end_ (state_ p)) (single_range_ (state_ p)) l).
Definition with_start (p : SubarrayPartitioner) (n : Z) : SubarrayPartitioner :=
  with_state p (mkState n (end_ (state_ p)) (single_range_ (state_ p)) (multi_range_ (state_ p))).
Definition with_interval (p : SubarrayPartitioner) (a b : Z) : SubarrayPartitioner :=
  with_current p (mkInfo (partition_ (current_ p)) a b (split_multi_range_ (current_ p))).

(** [current_.partition_ = s]. *)
Definition set_partition (p : SubarrayPartitioner) (s : Subarray) (multi : bool) : SubarrayPartitioner :=
  with_current p (mkInfo (assign (partition_ (current_ p)) s) (cstart_ (current_ p)) (cend_ (current_ p)) multi).

Definition done (p : SubarrayPartitioner) : bool := sempty (subarray_ p) || (end_ (state_ p) <? start_ (state_ p)).

(** The values that an operation hands back when it succeeds. *)
Definition of_status {B : Type} (r : res B) : res B := match r with Ok x => Ok x | _ => UB end.

Section partitioner.
Context {F : Type} `{!FragmentMeta F}.
Variable A : Array F.

Abbreviation S := (array_schema A).

(** The status of [compute_tile_overlap] is not looked at. *)
Definition make_partitioner (subarray : Subarray) (memory_budget memory_budget_var : Z) : res SubarrayPartitioner :=
  match compute_tile_overlap A (clone subarray) with
  | (UB, _) => UB
  | (_, s) =>
      let n := range_num s in
      Ok (mkPartitioner s ∅ (mkInfo no_subarray 0 0 false) (mkState 0 (if 0 <? n then n - 1 else 0) [] []) memory_budget memory_budget_var)
  end.

(** ** Budgets *)

Definition perr {B : Type} (msg : string) : res B := Err SC_SubarrayPartitionerError msg.

Definition get_result_budget (p : SubarrayPartitioner) (name : option (list Z)) : res Z :=
  match name with
  | None => perr "Cannot get result budget; Attribute/Dimension name cannot be null"
  | Some name =>
      if negb (exists_name A name) then perr "Cannot get result budget; Invalid attribute/dimension"
      else
        v ← var_size S name;
        if v : bool then perr "Cannot get result budget; Input attribute/dimension is var-sized"
        else match budget_ p !! name with
        | None => perr "Cannot get result budget; Budget not set for attribute/dimension"
        | Some b => Ok (size_fixed_ b)
        end
  end.

Definition get_result_budget_var (p : SubarrayPartitioner) (name : option (list Z)) : res (Z * Z) :=
  match name with
  | None => perr "Cannot get result budget; Attribute/Dimension name cannot be null"
  | Some name =>
      if bool_decide (name = coords) then
        perr "Cannot get result budget for zipped coordinates; Attribute/Dimension must be var-sized"
      else if negb (is_dim S name || is_attr S name) then perr "Cannot get result budget; Invalid attribute/dimension"
      else
        v ← var_size S name;
        if negb v then perr "Cannot get result budget; Input attribute/dimension is fixed-sized"
        else match budget_ p !! name with
        | None => perr "Cannot get result budget; Budget not set for attribute/dimension"
        | Some b => Ok (size_fixed_ b, size_var_ b)
        end
  end.

Definition with_budget (p : SubarrayPartitioner) (name : list Z) (b : Sizes) : SubarrayPartitioner :=
  mkPartitioner (subarray_ p) (<[name:=b]> (budget_ p)) (current_ p) (state_ p) (memory_budget_ p) (memory_budget_var_ p).

Definition set_result_budget (name : option (list Z)) (budget : Z) (p : SubarrayPartitioner) : res SubarrayPartitioner :=
  match name with
  | None => perr "Cannot set result budget; Attribute/Dimension name cannot be null"
  | Some name =>
      if negb (exists_name A name) then perr "Cannot set result budget; Invalid attribute/dimension"
      else
        v ← (if bool_decide (name = coords) then Ok false else var_size S name);
        if v : bool then perr "Cannot set result budget; Input attribute/dimension is var-sized"
        else Ok (with_budget p name (mkSizes budget 0))
  end.

Definition set_result_budget_var (name : option (list Z)) (budget_off budget_val : Z) (p : SubarrayPartitioner) : res SubarrayPartitioner :=
  match name with
  | None => perr "Cannot set result budget; Attribute/Dimension name cannot be null"
  | Some name =>
      if bool_decide (name = coords) then
        perr "Cannot set result budget for zipped coordinates; Attribute/Dimension must be var-sized"
      else if negb (is_dim S name || is_attr S name) then perr "Cannot set result budget; Invalid attribute/dimension"
      else
        v ← var_size S name;
        if negb v then perr "Cannot set result budget; Input attribute/dimension is fixed-sized"
        else Ok (with_budget p name (mkSizes budget_off budget_val))
  end.

Definition set_memory_budget (budget budget_var : Z) (p : SubarrayPartitioner) : SubarrayPartitioner :=
  mkPartitioner (subarray_ p) (budget_ p) (current_ p) (state_ p) budget budget_var.

(** ** The interval of the next partition *)

(** [cur_size > budget], a [double] against a [uint64_t]. *)
Definition over_budget (p : SubarrayPartitioner) (cur mem budget : Sizes) : bool :=
  flt F64 (dbl (size_fixed_ budget)) (size_fixed_ cur) || flt F64 (dbl (size_var_ budget)) (size_var_ cur) ||
  (memory_budget_ p <? size_fixed_ mem) || (memory_budget_var_ p <? size_var_ mem).

(** The loop over the ranges: [n] of them fit so far. It gives the number of
    ranges that fit. *)
Fixpoint fit_ranges (p : SubarrayPartitioner) (budgets : list Sizes) (cur mem : list Sizes)
    (rs ms : list (list Sizes)) (n : Z) : Z :=
  match rs, ms with
  | r :: rs, m :: ms =>
      let cur := zip_with sum_doubles cur r in
      let mem := zip_with sum_words mem m in
      if existsb (λ x, over_budget p x.1.1 x.1.2 x.2) (zip (zip cur mem) budgets) then n
      else fit_ranges p budgets cur mem rs ms (n + 1)
  | _, _ => n
  end.

(** Whether an interval was found; [cend_] is its end. *)
Definition compute_current_start_end (p : SubarrayPartitioner) : res (bool * SubarrayPartitioner) :=
  let bs := map_to_list (budget_ p) in
  let '(a, b) := (start_ (state_ p), end_ (state_ p)) in
  '(rs, ms) ← relevant_est_sizes A (subarray_ p) bs.*1 a b;
  let zero := replicate (length bs) (mkSizes 0 0) in
  let n := fit_ranges p bs.*2 zero zero rs ms 0 in
  Ok (if n =? 0 then (false, with_interval p a a) else (true, with_interval p a (a + n - 1))).

(** The coordinates of [minor_dims] are moved to the end. *)
Definition to_end (minor_dims : list nat) (range_num end_coords : list Z) : res (list Z) :=
  for_each minor_dims (λ m e, k ← idx range_num m; upd e m (u64 (k - 1))) end_coords.

Fixpoint calibrate_loop (ds : list nat) (row : bool) (n : nat) (start_coords range_num end_coords : list Z) : res (list Z) :=
  match ds with
  | [] => Ok end_coords
  | d :: ds =>
      let major_dim := if row then d else (n - d - 1)%nat in
      let minor_dims := if row then seq (major_dim + 1) (n - major_dim - 1) else rev (seq 0 major_dim) in
      at_beginning ← all_of minor_dims (λ m, c ← idx start_coords m; Ok (c =? 0));
      at_end ← all_of minor_dims (λ m, c ← idx end_coords m; k ← idx range_num m; Ok (c =? u64 (k - 1)));
      sc ← idx start_coords major_dim;
      ec ← idx end_coords major_dim;
      if at_beginning : bool then
        if at_end : bool then Ok end_coords
        else if sc <? ec then e ← upd end_coords major_dim (ec - 1); to_end minor_dims range_num e
        else calibrate_loop ds row n start_coords range_num end_coords
      else if sc <? ec then
        e ← upd end_coords major_dim sc;
        e ← to_end minor_dims range_num e;
        calibrate_loop ds row n start_coords range_num e
      else calibrate_loop ds row n start_coords range_num end_coords
  end.

(** Whether the slab must be split, and the partitioner with its new interval. *)
Definition calibrate_current_start_end (p : SubarrayPartitioner) : res (bool * SubarrayPartitioner) :=
  let s := subarray_ p in
  let '(a, b) := (cstart_ (current_ p), cend_ (current_ p)) in
  if bool_decide (layout_ s = GLOBAL_ORDER) then massert (a =? b);; Ok (false, p)
  else
    start_coords ← get_range_coords A s a;
    end_coords ← get_range_coords A s b;
    n ← dims A;
    range_num ← mapM (λ i, of_status (get_range_num A s i)) (seq 0 n);
    let layout := if bool_decide (layout_ s = UNORDERED) then ArraySchema.cell_order_ S else layout_ s in
    massert (bool_decide (layout = ROW_MAJOR) || bool_decide (layout = COL_MAJOR));;
    e ← calibrate_loop (seq 0 (n - 1)) (bool_decide (layout = ROW_MAJOR)) n start_coords range_num end_coords;
    '(split, e) ← (
      if Nat.ltb 1 n && negb (bool_decide (layout_ s = UNORDERED)) then
        let d := if bool_decide (layout_ s = ROW_MAJOR) then (n - 1)%nat else 0%nat in
        c ← idx e d;
        k ← idx range_num d;
        if negb (c =? u64 (k - 1)) then e ← upd e d (u64 (k - 1)); Ok (true, e) else Ok (false, e)
      else Ok (false, e));
    b' ← range_idx A s e;
    Ok (split, with_interval p a b').

(** ** Splitting values *)

(** [MAX(1, floor(tiles_apart / 2)) - 1], computed in [double]. *)
Definition tiles_before (tiles_apart : Z) : res Z :=
  let h := dbl (tiles_apart / 2) in
  in_range U64 (f_trunc F64 (fsub F64 (if flt F64 h one then one else h) one)).

Definition first_range (range : Subarray) (d : nat) : res Range := of_status (get_range A range d 0).

Fixpoint split_on_tiles (range : Subarray) (ds : list nat) : res (option (nat * list Z)) :=
  match ds with
  | [] => Ok None
  | d :: ds =>
      dim ← dimension_at S d;
      r ← first_range range d;
      n ← Dimension.tile_num dim r;
      let tiles_apart := u64 (n - 1) in
      if negb (tiles_apart =? 0) then k ← tiles_before tiles_apart; v ← ceil_to_tile dim r k; Ok (Some (d, v))
      else split_on_tiles range ds
  end.

Definition ordered_dims (layout : Layout) (n : nat) : list nat :=
  if bool_decide (layout = ROW_MAJOR) then seq 0 n else rev (seq 0 n).

(** The splitting dimension and value; [None] when unsplittable. *)
Definition compute_splitting_value_on_tiles (range : Subarray) : res (option (nat * list Z)) :=
  massert (bool_decide (layout_ range = GLOBAL_ORDER));;
  n ← dims A;
  split_on_tiles range (ordered_dims (tile_order_ S) n).

(** [tried]: a splitting dimension has been set. *)
Fixpoint split_on_cells (range : Subarray) (ds : list nat) (tried : bool) : res (option (nat * list Z)) :=
  match ds with
  | [] => massert tried;; Ok None
  | d :: ds =>
      dim ← dimension_at S d;
      r ← first_range range d;
      u ← unary r;
      if negb u then
        '(v, unsplittable) ← splitting_value dim r;
        if negb unsplittable then Ok (Some (d, default [] v)) else split_on_cells range ds true
      else split_on_cells range ds tried
  end.

Definition compute_splitting_value_single_range (p : SubarrayPartitioner) (range : Subarray) : res (option (nat * list Z)) :=
  let layout := layout_ (subarray_ p) in
  on_tiles ← (if bool_decide (layout = GLOBAL_ORDER) then compute_splitting_value_on_tiles range else Ok None);
  match on_tiles with
  | Some x => Ok (Some x)
  | None =>
      n ← dims A;
      u ← is_unary range;
      massert (negb u);;
      let layout := if bool_decide (layout = UNORDERED) || bool_decide (layout = GLOBAL_ORDER)
                    then ArraySchema.cell_order_ S else layout in
      split_on_cells range (ordered_dims layout n) false
  end.

(** The splitting dimension, range ([u64_max] when there is none) and value. *)
Fixpoint split_on_ranges (partition : Subarray) (last : nat) (ds : list nat) : res (option (nat * Z * list Z)) :=
  match ds with
  | [] => UB
  | d :: ds =>
      range_num ← of_status (get_range_num A partition d);
      if 1 <? range_num then massert (Nat.eqb d last);; Ok (Some (d, (range_num - 1) / 2, []))
      else
        r ← first_range partition d;
        dim ← dimension_at S d;
        u ← unary r;
        if negb u then
          '(v, unsplittable) ← splitting_value dim r;
          Ok (if unsplittable : bool then None else Some (d, u64_max, default [] v))
        else split_on_ranges partition last ds
  end.

Definition compute_splitting_value_multi_range (p : SubarrayPartitioner) (partition : Subarray) : res (option (nat * Z * list Z)) :=
  if range_num partition =? 1 then
    x ← compute_splitting_value_single_range p partition;
    Ok (match x with Some (d, v) => Some (d, u64_max, v) | None => None end)
  else
    let layout := layout_ (subarray_ p) in
    n ← dims A;
    let layout := if bool_decide (layout = UNORDERED) then ArraySchema.cell_order_ S else layout in
    let ds := ordered_dims layout n in
    split_on_ranges partition (List.last ds 0%nat) ds.

(** ** Splitting *)

(** The estimates of one name; the statuses are not looked at, and the sizes
    are 0 where there is no estimate. *)
Definition quiet {B : Type} (zero : B) (m : M Subarray B) : M Subarray B := fun s =>
  match m s with (UB, s) => (UB, s) | (Err _ _, s) => (Ok zero, s) | (Ok x, s) => (Ok x, s) end.

Definition estimates (name : list Z) : M Subarray (Sizes * Sizes) :=
  v ← lift (var_size S name);
  if v : bool then
    e ← quiet (0, 0) (get_est_result_size_var A (Some name));
    m ← quiet (0, 0) (get_max_memory_size_var A (Some name));
    mret (mkSizes e.1 e.2, mkSizes m.1 m.2)
  else
    e ← quiet 0 (get_est_result_size A (Some name));
    m ← quiet 0 (get_max_memory_size A (Some name));
    mret (mkSizes e 0, mkSizes m 0).

Definition exceeds (p : SubarrayPartitioner) (b e m : Sizes) : bool :=
  (size_fixed_ b <? size_fixed_ e) || (size_var_ b <? size_var_ e) ||
  (memory_budget_ p <? size_fixed_ m) || (memory_budget_var_ p <? size_var_ m).

Fixpoint must_split_loop (p : SubarrayPartitioner) (bs : list (list Z * Sizes)) : M Subarray bool :=
  match bs with
  | [] => mret false
  | (name, b) :: bs =>
      x ← estimates name;
      if exceeds p b x.1 x.2 then mret true else must_split_loop p bs
  end.

Definition must_split (p : SubarrayPartitioner) : M Subarray bool := must_split_loop p (map_to_list (budget_ p)).

(** The list with its first subarray split in two; [None] when it is unsplittable. *)
Definition split_top_single_range (p : SubarrayPartitioner) (l : list Subarray) : res (option (list Subarray)) :=
  match l with
  | [] => UB
  | range :: l =>
      u ← is_unary range;
      if u : bool then Ok None
      else
        x ← compute_splitting_value_single_range p range;
        match x with
        | None => Ok None
        | Some (d, v) => '(r1, r2) ← split_single A range d v; Ok (Some (r1 :: r2 :: l))
        end
  end.

Definition split_top_multi_range (p : SubarrayPartitioner) (l : list Subarray) : res (option (list Subarray)) :=
  match l with
  | [] => UB
  | partition :: l =>
      u ← is_unary partition;
      if u : bool then Ok None
      else
        x ← compute_splitting_value_multi_range p partition;
        match x with
        | None => Ok None
        | Some (d, k, v) => '(r1, r2) ← split_multi A partition k d v; Ok (Some (r1 :: r2 :: l))
        end
  end.

(** The loop that splits the first subarray of a list until it fits, or is
    unsplittable. *)
Fixpoint split_loop (fuel : nat) (p : SubarrayPartitioner) (split_top : list Subarray → res (option (list Subarray)))
    (l : list Subarray) : res (bool * list Subarray) :=
  match l with
  | [] => UB
  | top :: l =>
      match must_split p top with
      | (Ok false, top) => Ok (false, top :: l)
      | (Ok true, top) =>
          x ← split_top (top :: l);
          match x with
          | None => Ok (true, top :: l)
          | Some l => match fuel with O => UB | Datatypes.S fuel => split_loop fuel p split_top l end
          end
      | (Err c e, _) => Err c e
      | (UB, _) => UB
      end
  end.

(** [split_top] on a list: whether its front is unsplittable; the status is not looked
    at. *)
Definition split_front (split_top : list Subarray → res (option (list Subarray))) (l : list Subarray) : res (bool * list Subarray) :=
  match split_top l with
  | Ok (Some l') => Ok (false, l')
  | Ok None => Ok (true, l)
  | Err _ _ => Ok (false, l)
  | UB => UB
  end.

(** The list of the subarrays to take the next partition from: the current
    interval when there is none, already split once. *)
Definition next_list (p : SubarrayPartitioner) (unsplittable : bool)
    (split_top : list Subarray → res (option (list Subarray))) (l : list Subarray) : res (bool * list Subarray) :=
  match l with
  | [] =>
      s ← get_subarray A (subarray_ p) (cstart_ (current_ p)) (cend_ (current_ p));
      '(u, l) ← split_front split_top [s];
      Ok (u || unsplittable, l)
  | _ => Ok (unsplittable, l)
  end.

(** ** The next partition *)

Section steps.
Variable fuel : nat.

(** The partition that fits, or that is unsplittable, and what is left of the list. *)
Definition take_next (p : SubarrayPartitioner) (unsplittable : bool)
    (split_top : list Subarray → res (option (list Subarray))) (l : list Subarray) : res (bool * Subarray * list Subarray) :=
  '(u, l) ← next_list p unsplittable split_top l;
  '(u, l) ← (if u : bool then Ok (true, l) else split_loop fuel p split_top l);
  match l with [] => UB | top :: l => Ok (u, top, l) end.

Definition next_from_single_range (p : SubarrayPartitioner) (unsplittable : bool) : res (bool * SubarrayPartitioner) :=
  '(u, top, l) ← take_next p unsplittable (split_top_single_range p) (single_range_ (state_ p));
  let p := with_single (set_partition p top false) l in
  Ok (u, match l with [] => with_start p (u64 (start_ (state_ p) + 1)) | _ => p end).

Definition next_from_multi_range (p : SubarrayPartitioner) (unsplittable : bool) : res (bool * SubarrayPartitioner) :=
  '(u, top, l) ← take_next p unsplittable (split_top_multi_range p) (multi_range_ (state_ p));
  let p := with_multi (set_partition p top true) l in
  Ok (u, match l with [] => with_start p (u64 (cend_ (current_ p) + 1)) | _ => p end).

(** [next(unsplittable)]. *)
Definition next (p : SubarrayPartitioner) : res (bool * SubarrayPartitioner) :=
  if done p then Ok (false, p)
  else if negb (bool_decide (single_range_ (state_ p) = [])) then next_from_single_range p false
  else if negb (bool_decide (multi_range_ (state_ p) = [])) then next_from_multi_range p false
  else
    '(interval_found, p) ← compute_current_start_end p;
    let layout := layout_ (subarray_ p) in
    if negb interval_found && (bool_decide (layout = UNORDERED) || bool_decide (layout = GLOBAL_ORDER)) then
      next_from_single_range p false
    else
      '(must_split_slab, p) ← calibrate_current_start_end p;
      if interval_found && negb must_split_slab then
        s ← get_subarray A (subarray_ p) (cstart_ (current_ p)) (cend_ (current_ p));
        Ok (false, with_start (set_partition p s false) (u64 (cend_ (current_ p) + 1)))
      else next_from_multi_range p false.

(** [1 - constants::multi_range_reduction_in_split]: 0.3 is the double
    5404319552844595 / 2^54. *)
Definition kept_share : Z := fsub F64 one (fenc F64 (SpecFloat.S754_finite false 5404319552844595 (-54))).

Definition split_current (p : SubarrayPartitioner) : res (bool * SubarrayPartitioner) :=
  let c := current_ p in
  if split_multi_range_ c then
    let p := match multi_range_ (state_ p) with [] => with_start p (cstart_ c) | _ => p end in
    '(u, l) ← split_front (split_top_multi_range p) (clone (partition_ c) :: multi_range_ (state_ p));
    next_from_multi_range (with_multi p l) u
  else if cstart_ c <? cend_ c then
    let range_num := cend_ c - cstart_ c + 1 in
    n ← in_range U64 (f_trunc F64 (fmul F64 (dbl range_num) kept_share));
    let p := with_interval p (cstart_ c) (u64 (u64 (cstart_ c + n) - 1)) in
    s ← get_subarray A (subarray_ p) (cstart_ (current_ p)) (cend_ (current_ p));
    Ok (false, with_start (set_partition p s (split_multi_range_ c)) (u64 (cend_ (current_ p) + 1)))
  else
    let p := match single_range_ (state_ p) with [] => with_start p (u64 (start_ (state_ p) - 1)) | _ => p end in
    '(u, l) ← split_front (split_top_single_range p) (clone (partition_ c) :: single_range_ (state_ p));
    next_from_single_range (with_single p l) u.

(** The loop of a read: the partitions, until the partitioner is done. *)
Fixpoint partitions (n : nat) (p : SubarrayPartitioner) : res (list Subarray) :=
  if done p then Ok []
  else match n with
  | O => UB
  | Datatypes.S n => '(u, p) ← next p; l ← partitions n p; Ok (partition_ (current_ p) :: l)
  end.

End steps.

End partitioner.
