(* ===== verification/SubarrayRanges.v ===== *)
(** * The numbering of the ranges of a subarray

    [get_range_coords] and [range_idx] number the ranges of a subarray in the order of
    its layout, and [get_subarray] gives the ranges of an interval of numbers when
    the interval is a slab. *)

From stdpp Require Import gmap.
From S2P Require Import Prelude.
From S2P Require Import Enums.
From S2P Require Import Loops.
From S2P Require Import Range.
From S2P Require Import Dimension.
From S2P Require Import Domain.
From S2P Require Import RTree.
From S2P Require Import ArraySchema.
From S2P Require Import Subarray.
Local Open Scope Z_scope.

(** ** Slabs of a numbered grid

    The cells of a grid are numbered with the first coordinate as the most
    significant one. A slab is a box whose cells are numbered consecutively: sums over
    its numbers are sums over the box. *)

(** ** Numbers and coordinates *)

(** The number of cells; the number of a cell; the coordinates of a number; the
    weights of the coordinates. *)
Fixpoint cap (ls : list Z) : Z := match ls with [] => 1 | l :: ls => l * cap ls end.

Fixpoint flat (ls cs : list Z) : Z :=
  match ls, cs with l :: ls, c :: cs => c * cap ls + flat ls cs | _, _ => 0 end.

Fixpoint dig (ls : list Z) (i : Z) : list Z :=
  match ls with [] => [] | l :: ls => i / cap ls :: dig ls (i mod cap ls) end.

Fixpoint sufs (ls : list Z) : list Z := match ls with [] => [] | l :: ls => cap ls :: sufs ls end.

Definition grid (ls : list Z) : Prop := Forall (λ l, 1 ≤ l) ls.
Definition inside (ls cs : list Z) : Prop := Forall2 (λ l c, 0 ≤ c < l) ls cs.

Lemma cap_pos ls : grid ls → 1 ≤ cap ls.
Proof. induction 1 as [|l ls Hl _ IH]; simpl; nia. Qed.

Lemma cap_app l k : cap (l ++ k) = cap l * cap k.
Proof. induction l as [|x l IH]; simpl; rewrite ?IH; lia. Qed.

Lemma cap_rev l : cap (rev l) = cap l.
Proof. induction l as [|x l IH]; [done|]. simpl. rewrite cap_app, IH. simpl. lia. Qed.

Lemma grid_rev ls : grid ls → grid (rev ls).
Proof. apply Forall_rev. Qed.

Lemma inside_grid ls cs : inside ls cs → grid ls.
Proof. induction 1; constructor; [lia|done]. Qed.

Lemma flat_bound ls cs : inside ls cs → 0 ≤ flat ls cs < cap ls.
Proof.
  induction 1 as [|l c ls cs Hc Hi IH]; simpl; [lia|].
  pose proof (cap_pos ls (inside_grid _ _ Hi)). nia.
Qed.

Lemma dig_inside ls i : grid ls → 0 ≤ i < cap ls → inside ls (dig ls i).
Proof.
  intros Hg. revert i. induction Hg as [|l ls Hl Hg IH]; intros i Hi; [constructor|]. simpl in *.
  pose proof (cap_pos ls Hg). constructor.
  - split; [apply Z.div_pos; lia|apply Z.div_lt_upper_bound; nia].
  - apply IH. apply Z.mod_pos_bound. lia.
Qed.

Lemma flat_dig ls i : grid ls → 0 ≤ i < cap ls → flat ls (dig ls i) = i.
Proof.
  intros Hg. revert i. induction Hg as [|l ls Hl Hg IH]; intros i Hi; simpl in *; [lia|].
  pose proof (cap_pos ls Hg). pose proof (Z.div_mod i (cap ls) ltac:(lia)).
  rewrite IH by (apply Z.mod_pos_bound; lia). lia.
Qed.

Lemma dig_flat ls cs : inside ls cs → dig ls (flat ls cs) = cs.
Proof.
  induction 1 as [|l c ls cs Hc Hi IH]; [done|]. simpl. pose proof (flat_bound ls cs Hi).
  rewrite (Z.add_comm (c * cap ls)), Z.div_add, Z.div_small, Z.mod_add, Z.mod_small, IH by lia. f_equal.
Qed.

Lemma length_dig ls i : length (dig ls i) = length ls.
Proof. revert i. induction ls as [|l ls IH]; intros i; simpl; [done|]. by rewrite IH. Qed.

Lemma length_sufs ls : length (sufs ls) = length ls.
Proof. induction ls as [|l ls IH]; simpl; congruence. Qed.

Lemma sufs_bound ls : grid ls → Forall (λ o, 1 ≤ o ≤ cap ls) (sufs ls).
Proof.
  induction 1 as [|l ls Hl Hg IH]; [constructor|]. simpl. pose proof (cap_pos ls Hg). constructor; [nia|].
  eapply Forall_impl; [exact IH|]. simpl. intros o Ho. nia.
Qed.

(** A grid of one cell. *)
Lemma cap_one ks : grid ks → cap ks = 1 → ks = replicate (length ks) 1 ∧ sufs ks = replicate (length ks) 1.
Proof.
  induction 1 as [|l ks Hl Hg IH]; [done|]. simpl. intros E. pose proof (cap_pos ks Hg).
  destruct IH as [IH1 IH2]; [nia|]. split; f_equal; first [done|nia].
Qed.

(** ** The first and the last cell *)

Definition zeros (ls : list Z) : list Z := (λ _, 0) <$> ls.
Definition tops (ls : list Z) : list Z := (λ l, l - 1) <$> ls.

Lemma inside_zeros ls : grid ls → inside ls (zeros ls).
Proof. induction 1; constructor; [lia|done]. Qed.

Lemma inside_tops ls : grid ls → inside ls (tops ls).
Proof. induction 1; constructor; [lia|done]. Qed.

Lemma flat_zeros ls : flat ls (zeros ls) = 0.
Proof. induction ls as [|l ls IH]; [done|]. simpl. by rewrite IH. Qed.

Lemma flat_tops ls : flat ls (tops ls) = cap ls - 1.
Proof. induction ls as [|l ls IH]; [done|]. simpl. rewrite IH. lia. Qed.

(** ** Slabs *)

(** From some coordinate on, the box is unbounded in the coordinates after it. *)
Fixpoint slab (ls ss es : list Z) : Prop :=
  match ls, ss, es with
  | [], [], [] => True
  | l :: ls, s :: ss, e :: es => (s = e ∧ 0 ≤ s < l ∧ slab ls ss es) ∨ (0 ≤ s ≤ e ∧ e < l ∧ ss = zeros ls ∧ es = tops ls)
  | _, _, _ => False
  end.

Lemma slab_inside ls ss es : grid ls → slab ls ss es → inside ls ss ∧ inside ls es.
Proof.
  intros Hg. revert ss es. induction Hg as [|l ls Hl Hg IH]; intros [|s ss] [|e es] H; try done;
    [by split; constructor|].
  destruct H as [(-> & Hs & H)|(Hs & He & -> & ->)].
  - destruct (IH _ _ H). split; constructor; done || lia.
  - split; constructor; try lia; [by apply inside_zeros|by apply inside_tops].
Qed.

Lemma slab_le ls ss es : grid ls → slab ls ss es → Forall2 Z.le ss es ∧ flat ls ss ≤ flat ls es.
Proof.
  intros Hg. revert ss es. induction Hg as [|l ls Hl Hg IH]; intros [|s ss] [|e es] H; try done.
  destruct H as [(-> & Hs & H)|(Hs & He & -> & ->)]; simpl.
  - destruct (IH _ _ H). split; [by constructor|lia].
  - rewrite flat_zeros, flat_tops. pose proof (cap_pos ls Hg). split; [|nia].
    constructor; [lia|]. clear -Hg. induction Hg; constructor; [lia|done].
Qed.

Lemma slab_point ls cs : inside ls cs → slab ls cs cs.
Proof. induction 1 as [|l c ls cs Hc _ IH]; simpl; [done|]. left. split; [done|]. by split; [lia|]. Qed.

(** ** Sums *)

(** The sum of [f] over [[a, a + n)]. *)
Fixpoint isum (f : Z → Z) (a : Z) (n : nat) : Z :=
  match n with O => 0 | S n => f a + isum f (a + 1) n end.

(** The sum over [[a, b]]. *)
Definition sum_in (f : Z → Z) (a b : Z) : Z := isum f a (Z.to_nat (b - a + 1)).

Lemma sum_ext f g a n : (∀ i, a ≤ i < a + Z.of_nat n → f i = g i) → isum f a n = isum g a n.
Proof.
  revert a. induction n as [|n IH]; intros a H; [done|]. simpl. rewrite H by lia.
  rewrite (IH (a + 1)); [done|]. intros. apply H. lia.
Qed.

Lemma isum_app f a n m : isum f a (n + m) = isum f a n + isum f (a + Z.of_nat n) m.
Proof.
  revert a. induction n as [|n IH]; intros a; [by rewrite Z.add_0_r|].
  simpl. rewrite IH. replace (a + 1 + Z.of_nat n) with (a + Z.of_nat (S n)) by lia. lia.
Qed.

Lemma sum_shift f a b n : isum f (a + b) n = isum (λ i, f (a + i)) b n.
Proof.
  revert b. induction n as [|n IH]; intros b; [done|]. simpl. rewrite <- IH.
  by replace (a + b + 1) with (a + (b + 1)) by lia.
Qed.

Lemma sum_scale f c a n : isum (λ i, c * f i) a n = c * isum f a n.
Proof. revert a. induction n as [|n IH]; intros a; simpl; [lia|]. rewrite IH. lia. Qed.

Lemma sum_in_split f a b c : a ≤ b + 1 → b ≤ c → sum_in f a c = sum_in f a b + sum_in f (b + 1) c.
Proof.
  intros. unfold sum_in. replace (Z.to_nat (c - a + 1)) with (Z.to_nat (b - a + 1) + Z.to_nat (c - (b + 1) + 1))%nat by lia.
  rewrite isum_app. by replace (a + Z.of_nat (Z.to_nat (b - a + 1))) with (b + 1) by lia.
Qed.

Lemma sum_in_one f a : sum_in f a a = f a.
Proof. unfold sum_in. replace (Z.to_nat (a - a + 1)) with 1%nat by lia. simpl. lia. Qed.

(** Rows of [k] numbers. *)
Lemma sum_rows f (k : nat) a n :
  isum f (a * Z.of_nat k) (n * k) = isum (λ c, isum (λ j, f (c * Z.of_nat k + j)) 0 k) a n.
Proof.
  revert a. induction n as [|n IH]; intros a; [done|]. simpl. rewrite isum_app. f_equal.
  - rewrite <- (Z.add_0_r (a * Z.of_nat k)) at 1. apply sum_shift.
  - rewrite <- IH. f_equal. lia.
Qed.

(** A value of a cell as the product of values of its coordinates. *)
Fixpoint weigh (gs : list (Z → Z)) (cs : list Z) : Z :=
  match gs, cs with g :: gs, c :: cs => g c * weigh gs cs | _, _ => 1 end.

(** The product of the sums over the sides of a box. *)
Fixpoint box (gs : list (Z → Z)) (ss es : list Z) : Z :=
  match gs, ss, es with g :: gs, s :: ss, e :: es => sum_in g s e * box gs ss es | _, _, _ => 1 end.

Lemma sum_all gs ls : grid ls → length gs = length ls →
  isum (λ i, weigh gs (dig ls i)) 0 (Z.to_nat (cap ls)) = box gs (zeros ls) (tops ls).
Proof.
  intros Hg. revert gs. induction Hg as [|l ls Hl Hg IH]; intros [|g gs] Hlen; try done.
  pose proof (cap_pos ls Hg). change (cap (l :: ls)) with (l * cap ls).
  simpl box. fold (zeros ls) (tops ls). rewrite <- IH by (simpl in Hlen; lia). set (k := Z.to_nat (cap ls)).
  replace (Z.to_nat (l * cap ls)) with (Z.to_nat l * k)%nat by (unfold k; nia).
  replace 0 with (0 * Z.of_nat k) at 1 by lia. rewrite sum_rows.
  unfold sum_in. replace (l - 1 - 0 + 1) with l by lia.
  rewrite (Z.mul_comm (isum g 0 _)), <- sum_scale. apply sum_ext. intros c Hc.
  rewrite (Z.mul_comm (isum _ 0 k)), <- sum_scale. apply sum_ext. intros j Hj. simpl.
  replace (Z.of_nat k) with (cap ls) in * by lia.
  by rewrite (Z.add_comm (c * cap ls)), Z.div_add, Z.div_small, Z.mod_add, Z.mod_small by lia.
Qed.

(** The numbers of a slab are those of its cells. *)
Lemma slab_sum gs ls ss es : grid ls → length gs = length ls → slab ls ss es →
  sum_in (λ i, weigh gs (dig ls i)) (flat ls ss) (flat ls es) = box gs ss es.
Proof.
  intros Hg. revert gs ss es. induction Hg as [|l ls Hl Hg IH]; intros [|g gs] [|s ss] [|e es] Hlen H; try done.
  simpl in Hlen. pose proof (cap_pos ls Hg). destruct H as [(<- & Hs & H)|(Hs & He & -> & ->)]; simpl.
  - rewrite sum_in_one, <- (IH gs ss es) by (done || lia). destruct (slab_inside ls ss es Hg H) as [I1 I2].
    pose proof (flat_bound _ _ I1). pose proof (flat_bound _ _ I2). unfold sum_in.
    replace (s * cap ls + flat ls es - (s * cap ls + flat ls ss) + 1) with (flat ls es - flat ls ss + 1) by lia.
    rewrite sum_shift, <- sum_scale. apply sum_ext. intros i Hi.
    by rewrite (Z.add_comm (s * cap ls)), Z.div_add, Z.div_small, Z.mod_add, Z.mod_small by lia.
  - rewrite flat_zeros, flat_tops, <- (sum_all gs ls) by (done || lia). unfold sum_in. set (k := Z.to_nat (cap ls)).
    replace (Z.to_nat (e * cap ls + (cap ls - 1) - (s * cap ls + 0) + 1)) with (Z.to_nat (e - s + 1) * k)%nat by (unfold k; nia).
    replace (s * cap ls + 0) with (s * Z.of_nat k) by lia. rewrite sum_rows.
    rewrite (Z.mul_comm (isum g s _)), <- sum_scale. apply sum_ext. intros c Hc.
    rewrite (Z.mul_comm (isum _ 0 k)), <- sum_scale. apply sum_ext. intros j Hj.
    replace (Z.of_nat k) with (cap ls) in * by lia.
    by rewrite (Z.add_comm (c * cap ls)), Z.div_add, Z.div_small, Z.mod_add, Z.mod_small by lia.
Qed.

(** ** The largest slab of an interval *)

(** The end of a slab that starts at [ss] and ends at [es] or before. *)
Fixpoint cal (ls ss es : list Z) : list Z :=
  match ls, ss, es with
  | [l], _, _ => es
  | l :: ls, s :: ss, e :: es =>
      if decide (ss = zeros ls) then
        if decide (es = tops ls) then e :: es
        else if s <? e then e - 1 :: tops ls
        else e :: cal ls ss es
      else if s <? e then s :: cal ls ss (tops ls)
      else e :: cal ls ss es
  | _, _, _ => es
  end.

Lemma flat_head l s ss e es ls : inside ls ss → inside ls es →
  flat (l :: ls) (s :: ss) ≤ flat (l :: ls) (e :: es) → s < e ∨ s = e ∧ flat ls ss ≤ flat ls es.
Proof.
  intros Hs He H. simpl in H. pose proof (flat_bound _ _ Hs). pose proof (flat_bound _ _ He).
  destruct (Z.lt_trichotomy s e) as [?|[->|?]]; [by left|right; lia|]. exfalso. nia.
Qed.

Lemma cal_slab ls ss es : inside ls ss → inside ls es → flat ls ss ≤ flat ls es →
  slab ls ss (cal ls ss es) ∧ flat ls ss ≤ flat ls (cal ls ss es) ≤ flat ls es.
Proof.
  intros Hs. revert es. induction Hs as [|l s ls ss H0 Hs IH]; intros es He Hle.
  { inversion He; subst. simpl. lia. }
  inversion He as [|? e ? es' H1 He']; subst. rename es' into es.
  pose proof (inside_grid _ _ Hs) as Hg. pose proof (cap_pos _ Hg). pose proof (flat_bound _ _ Hs).
  pose proof (flat_bound _ _ He').
  destruct ls as [|l' ls].
  { inversion Hs; inversion He'; subst. simpl in *. split; [|lia]. right. split_and!; done || lia. }
  set (ls' := l' :: ls) in *. change (cal (l :: ls') (s :: ss) (e :: es)) with
    (if decide (ss = zeros ls') then if decide (es = tops ls') then e :: es
     else if s <? e then e - 1 :: tops ls' else e :: cal ls' ss es
     else if s <? e then s :: cal ls' ss (tops ls') else e :: cal ls' ss es).
  pose proof (flat_head l s ss e es ls' Hs He' Hle) as Hh.
  assert (s = e → slab (l :: ls') (s :: ss) (e :: cal ls' ss es) ∧
    flat (l :: ls') (s :: ss) ≤ flat (l :: ls') (e :: cal ls' ss es) ≤ flat (l :: ls') (e :: es)) as Hrec.
  { intros ->. destruct (IH es He') as [I1 I2]; [lia|]. split; [left; done|]. simpl flat in *. lia. }
  destruct (decide (ss = zeros ls')) as [E|E].
  - destruct (decide (es = tops ls')) as [->|_].
    { subst ss. split; [|lia]. right. split_and!; done || lia. }
    destruct (Z.ltb_spec s e) as [Hlt|Hge]; [|apply Hrec; lia].
    split; [right; split_and!; done || lia|]. subst ss. cbn [flat]. rewrite flat_tops, flat_zeros. nia.
  - destruct (Z.ltb_spec s e) as [Hlt|Hge]; [|apply Hrec; lia].
    destruct (IH (tops ls') (inside_tops _ Hg)) as [I1 I2]; [rewrite flat_tops; lia|].
    split; [left; done|]. cbn [flat]. rewrite flat_tops in I2. nia.
Qed.

(** Raising the last coordinate to its top. *)
Lemma slab_raise ls ss es l s e : slab (ls ++ [l]) (ss ++ [s]) (es ++ [e]) → length ss = length ls → length es = length ls →
  e ≠ l - 1 → ss = es ∧ 0 ≤ s < l ∧ slab (ls ++ [l]) (ss ++ [s]) (es ++ [l - 1]).
Proof.
  revert ss es. induction ls as [|l' ls IH]; intros [|s' ss] [|e' es] H Hs He Hne; try done.
  - simpl in *. destruct H as [(-> & ? & _)|(? & ? & _)]; (split; [done|]); (split; [lia|right; split_and!; done || lia]).
  - simpl in H. injection Hs as Hs. injection He as He. destruct H as [(-> & Hb & H)|(_ & _ & _ & E)].
    + destruct (IH ss es H Hs He Hne) as (-> & Hb' & Hsl). split; [done|]. split; [done|]. simpl. by left.
    + exfalso. unfold tops in E. rewrite fmap_app in E. apply app_inj_tail in E as [_ E]. done.
Qed.

(** ** Orders of the dimensions *)

(** A list of one element per dimension is kept in the order of the dimensions; the
    proofs work on the same list with the most significant dimension first. *)
Definition ord {X : Type} (row : bool) (l : list X) : list X := if row then l else rev l.
Definition pos (row : bool) (n k : nat) : nat := if row then k else (n - 1 - k)%nat.

Lemma ord_ord {X : Type} row (l : list X) : ord row (ord row l) = l.
Proof. destruct row; [done|]. apply rev_involutive. Qed.

Lemma length_ord {X : Type} row (l : list X) : length (ord row l) = length l.
Proof. destruct row; [done|]. apply length_rev. Qed.

Lemma rev_lookup {X : Type} (l : list X) k : (k < length l)%nat → rev l !! (length l - 1 - k)%nat = l !! k.
Proof.
  intros Hk. rewrite rev_alt. change (rev_append l []) with (reverse l).
  rewrite reverse_lookup by lia. f_equal. lia.
Qed.

Lemma ord_lookup {X : Type} row (l : list X) k : (k < length l)%nat → ord row l !! pos row (length l) k = l !! k.
Proof. destruct row; [done|]. apply rev_lookup. Qed.

Lemma ord_insert {X : Type} row (l : list X) k x : (k < length l)%nat →
  <[pos row (length l) k := x]> (ord row l) = ord row (<[k := x]> l).
Proof.
  intros Hk. destruct row; [done|]. simpl. assert (∀ (k : list X) i, (i < length k)%nat → rev k !! i = k !! (length k - 1 - i)%nat) as R.
  { intros m i Hi. rewrite <- (rev_lookup m (length m - 1 - i)) by lia. f_equal. lia. }
  apply list_eq. intros i. destruct (decide (i < length l)%nat) as [Hi|Hi].
  - rewrite (R (<[k:=x]> l)) by (by rewrite length_insert). rewrite length_insert.
    destruct (decide (i = length l - 1 - k)%nat) as [->|Hne].
    + rewrite list_lookup_insert_eq by (rewrite length_rev; lia).
      replace (length l - 1 - (length l - 1 - k))%nat with k by lia. by rewrite list_lookup_insert_eq.
    + rewrite list_lookup_insert_ne by lia. rewrite R by done. by rewrite list_lookup_insert_ne by lia.
  - rewrite !lookup_ge_None_2; [done|rewrite length_rev, length_insert; lia|rewrite length_insert, length_rev; lia].
Qed.

Lemma ord_seq row n : ord row (seq 0 n) = pos row n <$> seq 0 n.
Proof.
  destruct row; simpl; [symmetry; apply list_fmap_id|].
  apply list_eq_same_length with n; [by rewrite length_fmap, length_seq|by rewrite length_rev, length_seq|].
  intros i x y Hi Hx Hy. apply list_lookup_fmap_Some in Hy as (j & -> & [-> Hj]%lookup_seq).
  pose proof (rev_lookup (seq 0 n) (n - 1 - i)) as R. rewrite length_seq in R.
  replace (n - 1 - (n - 1 - i))%nat with i in R by lia. rewrite R in Hx by lia.
  apply lookup_seq in Hx as [-> _]. simpl. lia.
Qed.

Lemma idx_ord {X : Type} row (l : list X) n k x : length l = n → l !! k = Some x → idx (ord row l) (pos row n k) = Ok x.
Proof. intros <- Hk. apply idx_ok. rewrite ord_lookup; [done|]. by apply lookup_lt_Some in Hk. Qed.

Lemma upd_ord {X : Type} row (l : list X) n k x : length l = n → (k < n)%nat →
  upd (ord row l) (pos row n k) x = Ok (ord row (<[k := x]> l)).
Proof.
  intros <- Hk. rewrite upd_ok; [by rewrite ord_insert|]. rewrite length_ord. destruct row; simpl; lia.
Qed.

Lemma forall2_rev {X Y : Type} (P : X → Y → Prop) l k : Forall2 P l k → Forall2 P (rev l) (rev k).
Proof. induction 1; [constructor|]. simpl. apply Forall2_app; [done|by repeat constructor]. Qed.

Lemma cap_ord row ls : cap (ord row ls) = cap ls.
Proof. destruct row; [done|]. apply cap_rev. Qed.

Lemma grid_ord row ls : grid ls → grid (ord row ls).
Proof. destruct row; [done|]. apply grid_rev. Qed.

(** ** Shape *)

Definition lens (rss : list (list Range)) : list Z := zlen <$> rss.

Lemma range_num_cap s : ranges_ s ≠ [] → grid (lens (ranges_ s)) → cap (lens (ranges_ s)) < 2 ^ 64 →
  range_num s = cap (lens (ranges_ s)).
Proof.
  intros Hne Hg Hc. unfold range_num. destruct (ranges_ s) as [|r rs]; [done|]. clear Hne. set (l := r :: rs) in *.
  assert (∀ k, 1 ≤ k → k * cap (lens l) < 2 ^ 64 → fold_left (λ n r, u64 (n * zlen r)) l k = k * cap (lens l)) as H.
  { clear Hc. induction l as [|x l IH]; intros k Hk Hc; simpl in *; [lia|]. inversion Hg as [|? ? Hx Hl]; subst.
    pose proof (cap_pos _ Hl) as Hp. assert (zlen x ≤ zlen x * cap (lens l)) by nia. rewrite u64_id by nia. rewrite IH; [lia|done|nia|].
    rewrite <- Z.mul_assoc. done. }
  rewrite H; lia.
Qed.

(** The offsets are the weights of the coordinates. *)
Lemma push_offsets (x : Z) (tl : list (list Range)) : grid (lens tl) → cap (lens tl) < 2 ^ 64 →
  for_each (rev tl) (λ (rs : list Range) v, Ok (v ++ [u64 (List.last v 0 * zlen rs)])) [1] = Ok (rev (sufs (x :: lens tl))).
Proof.
  revert x. induction tl as [|r tl IH]; intros x Hg Hc; [done|]. simpl in Hg, Hc.
  inversion Hg as [|? ? H1 Hg']; subst. pose proof (cap_pos _ Hg'). simpl rev at 1. rewrite for_each_app.
  change (lens (r :: tl)) with (zlen r :: lens tl). rewrite (IH (zlen r)) by (done || nia).
  change (sufs (x :: zlen r :: lens tl)) with (cap (zlen r :: lens tl) :: sufs (zlen r :: lens tl)).
  simpl. rewrite last_last. unfold lens in *. rewrite u64_id by nia. by rewrite Z.mul_comm.
Qed.

Lemma for_each_fmap {I J T : Type} (f : I → J) (l : list I) (body : J → T → res T) s :
  for_each (f <$> l) body s = for_each l (λ i, body (f i)) s.
Proof. revert s. induction l as [|i l IH]; intros s; [done|]. simpl. destruct (body (f i) s); [apply IH|done..]. Qed.

Definition digit_step (o : Z) (a : Z * list Z) : res (Z * list Z) :=
  q ← udiv a.1 o; r ← urem a.1 o; Ok (r, a.2 ++ [q]).

Lemma digits_loop ls i acc : grid ls → 0 ≤ i →
  ∃ r, for_each (sufs ls) digit_step (i, acc) = Ok (r, acc ++ dig ls i).
Proof.
  intros Hg. revert i acc. induction Hg as [|l ls Hl Hg IH]; intros i acc Hi.
  - exists i. simpl. by rewrite app_nil_r.
  - pose proof (cap_pos ls Hg).
    assert (digit_step (cap ls) (i, acc) = Ok (i mod cap ls, acc ++ [i / cap ls])) as E
      by (unfold digit_step, udiv, urem; simpl; by rewrite (proj2 (Z.eqb_neq _ _)) by lia).
    cbn [sufs for_each]. rewrite E. cbn [mbind res_bind].
    destruct (IH (i mod cap ls) (acc ++ [i / cap ls])) as [r Hr]; [apply Z.mod_pos_bound; lia|].
    exists r. rewrite Hr. by rewrite <- app_assoc.
Qed.

(** The sum that [range_idx] computes. *)
Fixpoint dot (ps : list (Z * Z)) : Z := match ps with [] => 0 | p :: ps => p.1 * p.2 + dot ps end.

Lemma dot_app l k : dot (l ++ k) = dot l + dot k.
Proof. induction l as [|p l IH]; simpl; [done|]. rewrite IH. lia. Qed.

Lemma dot_ord row l : dot (ord row l) = dot l.
Proof. destruct row; [done|]. simpl. induction l as [|p l IH]; [done|]. simpl. rewrite dot_app, IH. simpl. lia. Qed.

Lemma dot_flat ls cs : inside ls cs → dot (zip (sufs ls) cs) = flat ls cs.
Proof. induction 1 as [|l c ls cs _ _ IH]; [done|]. cbn [sufs zip_with dot flat fst snd]. rewrite IH. lia. Qed.

Lemma dot_loop ps acc : Forall (λ p, 0 ≤ p.1 * p.2) ps → 0 ≤ acc → acc + dot ps < 2 ^ 64 →
  for_each ps (λ p r, Ok (u64 (r + u64 (p.1 * p.2)))) acc = Ok (acc + dot ps).
Proof.
  intros Hp. revert acc. induction Hp as [|p ps H0 Hp IH]; intros acc Ha Hc; simpl in *; [f_equal; lia|].
  assert (0 ≤ dot ps) by (clear -Hp; induction Hp; simpl; lia).
  rewrite !u64_id by (rewrite ?u64_id; lia). rewrite IH by lia. f_equal. lia.
Qed.

Lemma rev_zip_with {X Y Z' : Type} (f : X → Y → Z') (l : list X) (k : list Y) : length l = length k →
  zip_with f (rev l) (rev k) = rev (zip_with f l k).
Proof.
  revert k. induction l as [|x l IH]; intros [|y k] E; try done. simpl in *.
  rewrite zip_with_app by (rewrite !length_rev; lia). simpl. f_equal. apply IH. lia.
Qed.

Lemma ord_zip {X Y : Type} row (l : list X) (k : list Y) : length l = length k → zip (ord row l) (ord row k) = ord row (zip l k).
Proof. destruct row; [done|]. apply rev_zip_with. Qed.

(** The range of each dimension at its coordinate. *)
Definition pick (rs : list Range) (c : Z) : Range := default empty_range (rs !! Z.to_nat c).
Definition picks (rss : list (list Range)) (cs : list Z) : NDRange := zip_with pick rss cs.

Lemma pick_lookup rs c : 0 ≤ c < zlen rs → rs !! Z.to_nat c = Some (pick rs c).
Proof.
  intros Hc. unfold pick. destruct (rs !! Z.to_nat c) eqn:E; [done|]. apply lookup_ge_None_1 in E. unfold zlen in Hc. lia.
Qed.

Lemma range_at_ok s d rs c : ranges_ s !! d = Some rs → 0 ≤ c < zlen rs → range_at s d c = Ok (pick rs c).
Proof.
  intros Hd Hc. unfold range_at. rewrite (idx_ok _ _ _ Hd). cbn [mbind res_bind].
  rewrite (proj2 (Z.ltb_ge _ _)) by lia. by apply idx_ok, pick_lookup.
Qed.

(** Incrementing a number, the least significant digit first. *)
Lemma flat_snoc ls cs l c : length cs = length ls → flat (ls ++ [l]) (cs ++ [c]) = flat ls cs * l + c.
Proof.
  revert cs. induction ls as [|k ls IH]; intros [|b cs] E; try done; simpl in *; [lia|].
  rewrite IH, cap_app by lia. simpl. lia.
Qed.

Lemma dig_snoc ls l i : grid ls → 1 ≤ l → 0 ≤ i < cap (ls ++ [l]) → dig (ls ++ [l]) i = dig ls (i / l) ++ [i mod l].
Proof.
  intros Hg Hl. revert i. induction Hg as [|k ls Hk Hg IH]; intros i Hi; simpl.
  - simpl in Hi. by rewrite Z.div_1_r, Z.mod_small by lia.
  - pose proof (cap_pos ls Hg). simpl in Hi. rewrite cap_app in *. simpl in *. rewrite Z.mul_1_r in *.
    rewrite IH by (apply Z.mod_pos_bound; nia). rewrite (Z.mul_comm (cap ls)), <- Z.div_div by lia.
    rewrite Z.rem_mul_r by lia. rewrite (Z.mul_comm l), Z.div_add, Z.mod_add by lia.
    rewrite Z.mod_mod, (Z.div_small (i mod l)) by (try apply Z.mod_pos_bound; lia). done.
Qed.

Definition nd_step (p : Z * list Range) (a : Z * NDRange) : res (Z * NDRange) :=
  q ← udiv a.1 p.1; r ← (if q <? 0 then UB else idx p.2 (Z.to_nat q)); rem ← urem a.1 p.1; Ok (rem, a.2 ++ [r]).

Lemma nd_loop rss i acc : grid (lens rss) → 0 ≤ i < cap (lens rss) →
  ∃ r, for_each (zip (sufs (lens rss)) rss) nd_step (i, acc) = Ok (r, acc ++ picks rss (dig (lens rss) i)).
Proof.
  revert i acc. induction rss as [|rs rss IH]; intros i acc Hg Hi; [exists i; by rewrite app_nil_r|].
  inversion Hg as [|? ? H1 Hg']; subst. fold (lens rss) in *. pose proof (cap_pos _ Hg') as Hp.
  change (lens (rs :: rss)) with (zlen rs :: lens rss) in *. cbn [cap] in Hi. set (k := cap (lens rss)) in *.
  assert (0 ≤ i / k < zlen rs) as Hq by (split; [apply Z.div_pos; lia|apply Z.div_lt_upper_bound; nia]).
  assert (nd_step (k, rs) (i, acc) = Ok (i mod k, acc ++ [pick rs (i / k)])) as E.
  { unfold nd_step, udiv, urem. simpl. rewrite (proj2 (Z.eqb_neq _ _)) by lia. simpl.
    rewrite (proj2 (Z.ltb_ge _ _)) by lia. unfold idx. by rewrite pick_lookup. }
  cbn [sufs zip_with for_each]. fold k. rewrite E. cbn [mbind res_bind].
  destruct (IH (i mod k) (acc ++ [pick rs (i / k)]) Hg') as [r Hr]; [apply Z.mod_pos_bound; lia|].
  exists r. rewrite Hr. rewrite <- app_assoc. done.
Qed.

Lemma lens_ord row rss : lens (ord row rss) = ord row (lens rss).
Proof. destruct row; [done|]. apply map_rev. Qed.

Lemma picks_ord row rss cs : length rss = length cs → picks (ord row rss) (ord row cs) = ord row (picks rss cs).
Proof.
  destruct row; [done|]. apply rev_zip_with.
Qed.

Section numbering.
Context {F : Type} `{!FragmentMeta F}.
Variables (A : Array F) (D : Domain.t).

(** The schema has a domain, with the dimensions that it counts. *)
Record has_dims : Prop := {
  hd_domain : ArraySchema.domain_ (array_schema A) = Some D;
  hd_num : dim_num_ D = zlen (dimensions_ D);
  hd_pos : dimensions_ D ≠ []
}.

Hypothesis HD : has_dims.
Let n := length (dimensions_ D).

Lemma n_pos : (0 < n)%nat.
Proof. destruct HD as [_ _ H]. unfold n. by destruct (dimensions_ D); [|simpl; lia]. Qed.

Lemma dim_num_n : dim_num (array_schema A) = Ok (Z.of_nat n).
Proof. destruct HD as [H1 H2 _]. unfold dim_num, ArraySchema.domain. rewrite H1. simpl. by rewrite H2. Qed.

Lemma dims_n : dims A = Ok n.
Proof. unfold dims. rewrite dim_num_n. simpl. by rewrite Nat2Z.id. Qed.

Lemma dimension_at_n d dim : dimensions_ D !! d = Some dim → dimension_at (array_schema A) d = Ok dim.
Proof.
  intros Hd. destruct HD as [H1 H2 _]. unfold dimension_at, ArraySchema.domain, Domain.dimension. rewrite H1. simpl.
  pose proof (lookup_lt_Some _ _ _ Hd). rewrite (proj2 (Z.ltb_ge _ _)) by (rewrite H2; unfold zlen; lia).
  unfold idx. by rewrite Hd.
Qed.

(** A subarray with ranges on every dimension, numbered by rows or by columns. *)
Record numbered (row : bool) (s : Subarray) : Prop := {
  nb_len : length (ranges_ s) = n;
  nb_grid : grid (lens (ranges_ s));
  nb_cap : cap (lens (ranges_ s)) < 2 ^ 64;
  nb_layout : effective_layout s = (if row then ROW_MAJOR else COL_MAJOR) ∨
    effective_layout s = GLOBAL_ORDER ∧ row = true ∧ cap (lens (ranges_ s)) = 1;
  nb_global : effective_layout s = GLOBAL_ORDER → layout_ s = GLOBAL_ORDER
}.

(** The number of ranges of each dimension, the most significant one first. *)
Definition major (row : bool) (s : Subarray) : list Z := ord row (lens (ranges_ s)).

Section one.
Variables (row : bool) (s : Subarray).
Hypothesis Hs : numbered row s.
Abbreviation ls := (major row s).

Lemma major_grid : grid ls.
Proof. apply grid_ord, Hs. Qed.

Lemma major_cap : cap ls = range_num s.
Proof.
  unfold major. rewrite cap_ord. symmetry. destruct Hs as [H1 H2 H3 _ _]. apply range_num_cap; [|done..].
  intros E. rewrite E in H1. pose proof n_pos. simpl in H1. lia.
Qed.

Lemma length_major : length ls = n.
Proof. unfold major, lens. rewrite length_ord, length_fmap. apply Hs. Qed.

Lemma offsets_ok : compute_range_offsets A s = Ok (with_range_offsets s (ord row (sufs ls))).
Proof.
  unfold compute_range_offsets. rewrite dims_n. cbn [mbind res_bind]. pose proof n_pos as Hp.
  pose proof major_cap as Mc. pose proof Hs as [H1 H2 H3 H4 _]. destruct H4 as [->|(-> & Er & E)].
  - unfold major. destruct row; simpl ord.
    + destruct (ranges_ s) as [|r tl] eqn:E; [simpl in H1; lia|]. simpl in H1.
      replace (n - 1)%nat with (length tl) by lia.
      rewrite (for_each_rev_seq tl _ (λ rs v, Ok (v ++ [u64 (List.last v 0 * zlen rs)])) 0).
      * inversion H2 as [|? ? Hr Hg]; subst. simpl in H3. pose proof (cap_pos _ Hg).
        rewrite (push_offsets (zlen r)) by (unfold lens in *; done || nia). cbn [mbind res_bind].
        by rewrite rev_involutive.
      * intros k e v Hk. unfold push_offset, idx. rewrite E. replace (0 + k + 1)%nat with (S k) by lia. simpl. by rewrite Hk.
    + destruct (rev (ranges_ s)) as [|r tl] eqn:E; [by apply (f_equal length) in E; rewrite length_rev in E; simpl in E; lia|].
      pose proof (f_equal length E) as El. rewrite length_rev in El. simpl in El.
      replace (n - 1)%nat with (length (rev tl)) by (rewrite length_rev; lia).
      rewrite (for_each_seq (rev tl) _ (λ rs v, Ok (v ++ [u64 (List.last v 0 * zlen rs)])) 1).
      * assert (lens (rev (ranges_ s)) = rev (lens (ranges_ s))) as Er by apply map_rev.
        apply grid_rev in H2 as Hg. rewrite <- cap_rev, <- Er, E in H3. rewrite <- Er, E in Hg. rename H3 into Hc.
        rewrite <- Er, E.
        inversion Hg as [|? ? Hr Hg']; subst. simpl in Hc. pose proof (cap_pos _ Hg').
        rewrite (push_offsets (zlen r)) by (unfold lens in *; done || nia). done.
      * intros k e v Hk. unfold push_offset, idx. replace (1 + k - 1)%nat with k by lia.
        rewrite <- (rev_involutive (ranges_ s)), E. simpl. by rewrite lookup_app_l, Hk by (by apply lookup_lt_Some in Hk).
  - rewrite <- Mc. unfold major. rewrite Er. simpl ord. rewrite E. simpl.
    destruct (cap_one _ H2 E) as [_ ->]. unfold lens. rewrite length_fmap, H1.
    destruct n as [|m]; [lia|]. simpl. by rewrite Nat.sub_0_r.
Qed.

(** Raw coordinates are those of the ranges. *)
Lemma inside_raw cs : inside ls cs → Forall2 (λ rs c, 0 ≤ c < zlen rs) (ranges_ s) (ord row cs).
Proof.
  intros Hc. assert (inside (lens (ranges_ s)) (ord row cs)) as H.
  { unfold major in Hc. destruct row; simpl in *; [done|]. apply forall2_rev in Hc. by rewrite rev_involutive in Hc. }
  unfold inside, lens in H. by rewrite Forall2_fmap_l in H.
Qed.

Hypothesis Ho : range_offsets_ s = ord row (sufs ls).

Lemma digits_row i : 0 ≤ i → ∃ r, for_each (ord row (seq 0 n)) (digit s) (i, []) = Ok (r, dig ls i).
Proof.
  intros Hi. destruct (digits_loop ls i [] major_grid) as [r Hr]; [lia|]. exists r.
  rewrite ord_seq, for_each_fmap, <- length_major, <- length_sufs.
  rewrite (for_each_seq (sufs ls) _ digit_step 0); [done|].
  intros k o a Hk. unfold digit. rewrite Ho. simpl Nat.add. by rewrite (idx_ord row (sufs ls) _ k o).
Qed.

Lemma range_coords_ok i : 0 ≤ i < range_num s → get_range_coords A s i = Ok (ord row (dig ls i)).
Proof.
  intros Hi. unfold get_range_coords. rewrite dims_n. cbn [mbind res_bind]. destruct (digits_row i) as [r E]; [lia|].
  pose proof major_cap as Mc. pose proof Hs as [H1 H2 H3 [->|(-> & Er & Ec)] _].
  - destruct row; simpl in *; by rewrite E.
  - rewrite <- Mc in *. unfold major in *. rewrite Er in *. simpl ord in *. rewrite Ec in *. simpl.
    assert (i = 0) as -> by lia. pose proof (cap_one _ H2 Ec) as [-> _].
    unfold lens. rewrite length_fmap, H1. f_equal. clear. induction n as [|m IH]; [done|]. simpl.
    assert (1 ≤ cap (replicate m 1)) by (apply cap_pos, Forall_replicate; lia).
    rewrite Z.div_0_l, Z.mod_0_l by lia. by rewrite <- IH.
Qed.

(** A number past the last one has coordinates, too. *)
Lemma range_coords_total i : 0 ≤ i → ∃ cs, get_range_coords A s i = Ok cs.
Proof.
  intros Hi. unfold get_range_coords. rewrite dims_n. cbn [mbind res_bind]. destruct (digits_row i Hi) as [r E].
  pose proof major_cap as Mc. destruct (nb_layout _ _ Hs) as [->|(-> & Er & Ec)].
  - destruct row; simpl in *; rewrite E; by eexists.
  - rewrite <- Mc. unfold major. rewrite cap_ord, Ec. by eexists.
Qed.

Lemma range_idx_ok cs : inside ls cs → range_idx A s (ord row cs) = Ok (flat ls cs).
Proof.
  intros Hc. unfold range_idx. rewrite dims_n. cbn [mbind res_bind]. rewrite Ho.
  pose proof (Forall2_length _ _ _ Hc) as El. rewrite length_major in El.
  assert (length (sufs ls) = length cs) as E2 by (rewrite length_sufs, length_major; lia).
  rewrite <- (dot_flat ls cs Hc), <- (Z.add_0_l (dot _)), <- (dot_ord row), <- ord_zip by done.
  replace n with (length (zip (ord row (sufs ls)) (ord row cs))) by (rewrite length_zip_with, !length_ord; lia).
  rewrite (for_each_seq (zip (ord row (sufs ls)) (ord row cs)) _ (λ p r, Ok (u64 (r + u64 (p.1 * p.2)))) 0).
  - apply dot_loop; [|lia|].
    + rewrite ord_zip by done. enough (Forall (λ p, 0 ≤ p.1 * p.2) (zip (sufs ls) cs)) as H
        by (unfold ord; destruct row; [done|by apply Forall_rev]).
      apply Forall_lookup. intros k p Hk. apply lookup_zip_with_Some in Hk as (o & c & -> & Ho' & Hc').
      pose proof (Forall_lookup_1 _ _ _ _ (sufs_bound _ major_grid) Ho') as Hp. simpl in Hp.
      destruct (Forall2_lookup_r _ _ _ _ _ Hc Hc') as (l & _ & Hb). simpl. nia.
    + rewrite ord_zip, dot_ord, (dot_flat ls cs Hc) by done. pose proof (flat_bound _ _ Hc).
      unfold major in *. rewrite cap_ord in *. pose proof (nb_cap _ _ Hs). lia.
  - intros k [o c] r Hk. apply lookup_zip_with_Some in Hk as (? & ? & [= <- <-] & H1 & H2). simpl Nat.add.
    by rewrite (idx_ok _ _ _ H1), (idx_ok _ _ _ H2).
Qed.

Lemma ndrange_at_ok cs : inside ls cs → ndrange_at A s (ord row cs) = Ok (picks (ranges_ s) (ord row cs)).
Proof.
  intros Hc. apply inside_raw in Hc. unfold ndrange_at. rewrite dims_n. cbn [mbind res_bind].
  apply mapM_ok, Forall2_same_length_lookup. rewrite length_seq. unfold picks.
  pose proof (Forall2_length _ _ _ Hc). rewrite <- (nb_len _ _ Hs). split; [rewrite length_zip_with; lia|].
  intros k d r Hd Hr. apply lookup_seq in Hd as [-> Hk]. apply lookup_zip_with_Some in Hr as (rs & c & -> & H1 & H2).
  simpl Nat.add. rewrite (idx_ok _ _ _ H2). cbn [mbind res_bind]. apply range_at_ok; [done|].
  by apply (Forall2_lookup_lr _ _ _ _ _ _ Hc H1 H2).
Qed.

Lemma ndrange_ok i : 0 ≤ i < range_num s → ndrange A s i = Ok (picks (ranges_ s) (ord row (dig ls i))).
Proof.
  intros Hi. pose proof major_cap as Mc. unfold ndrange. rewrite dims_n. cbn [mbind res_bind].
  assert (length (ranges_ s) = length (dig ls i)) as El by (rewrite length_dig, length_major; apply Hs).
  pose proof (dig_inside ls i major_grid) as Hin. rewrite Mc in Hin. specialize (Hin Hi).
  destruct ((i =? 0) && (range_num s =? 1)) eqn:E.
  - apply andb_true_iff in E as [->%Z.eqb_eq E%Z.eqb_eq]. rewrite <- (ndrange_at_ok _ Hin).
    unfold ndrange_at. rewrite dims_n. cbn [mbind res_bind].
    assert (dig ls 0 = replicate n 0) as ->.
    { rewrite <- Mc in E. destruct (cap_one _ major_grid E) as [_ E2]. rewrite <- length_major.
      clear -E2. revert E2. generalize ls. intros k0. induction k0 as [|l k IH]; [done|]. simpl. intros [= E1 E2]. rewrite E1. simpl. f_equal. by apply IH. }
    replace (ord row (replicate n 0)) with (replicate n 0)
      by (unfold ord; destruct row; [done|]; symmetry; rewrite rev_alt; apply reverse_replicate).
    apply mapM_same. intros d _. unfold idx. destruct (decide (d < n)%nat).
    + by rewrite lookup_replicate_2.
    + rewrite lookup_ge_None_2 by (rewrite length_replicate; lia). unfold range_at, idx.
      rewrite lookup_ge_None_2; [done|]. rewrite (nb_len _ _ Hs). lia.
  - assert (range_num s ≠ 1) as Hne by (intros H; rewrite H in *; assert (i = 0) as -> by lia; done).
    destruct (nd_loop (ord row (ranges_ s)) i []) as [r Hr];
      [rewrite lens_ord; apply major_grid|rewrite lens_ord; fold ls; by rewrite Mc|].
    assert (ndrange_loop s (ord row (seq 0 n)) i = Ok (picks (ord row (ranges_ s)) (dig ls i))) as E1.
    { unfold ndrange_loop. rewrite ord_seq, for_each_fmap. rewrite lens_ord in Hr. fold ls in Hr.
      replace n with (length (zip (sufs ls) (ord row (ranges_ s))))
        by (rewrite length_zip_with, length_sufs, length_major, length_ord, (nb_len _ _ Hs); lia).
      rewrite (for_each_seq (zip (sufs ls) (ord row (ranges_ s))) _ nd_step 0); [by rewrite Hr|].
      intros k [o rs] a Hk. apply lookup_zip_with_Some in Hk as (? & ? & [= <- <-] & H1 & H2). simpl Nat.add.
      assert (length (sufs ls) = n) as L1 by (rewrite length_sufs; apply length_major).
      rewrite Ho, length_zip_with, L1, length_ord, (nb_len _ _ Hs), Nat.min_id.
      rewrite (idx_ord row (sufs ls) n k o) by done. cbn [mbind res_bind].
      assert (idx (ranges_ s) (pos row n k) = Ok rs) as H3.
      { rewrite <- (ord_ord row (ranges_ s)). apply idx_ord; [rewrite length_ord; apply Hs|done]. }
      unfold nd_step, range_at. simpl. by rewrite H3. }
    assert (bool_decide (range_offsets_ s = []) = false) as Hb.
    { apply bool_decide_eq_false. intros E2. rewrite Ho in E2. apply (f_equal length) in E2.
      rewrite length_ord, length_sufs, length_major in E2. pose proof n_pos. simpl in E2. lia. }
    assert (picks (ranges_ s) (ord row (dig ls i)) = ord row (picks (ord row (ranges_ s)) (dig ls i))) as Ep.
    { rewrite <- picks_ord by (by rewrite length_ord). by rewrite ord_ord. }
    rewrite Ep. clear Ep. pose proof (nb_layout _ _ Hs) as [->|(_ & _ & Ec)].
    + rewrite Hb. destruct row; simpl in *; by rewrite E1.
    + exfalso. apply Hne. rewrite <- Mc. unfold major. by rewrite cap_ord.
Qed.

(** Access to the coordinate at position [k] from the most significant one. *)
Lemma coord_at l1 l l2 c1 (c : Z) c2 : ls = l1 ++ l :: l2 → length c1 = length l1 → length c2 = length l2 →
  let k := length l1 in
  idx (ord row (c1 ++ c :: c2)) (pos row n k) = Ok c ∧
  (∀ x, upd (ord row (c1 ++ c :: c2)) (pos row n k) x = Ok (ord row (c1 ++ x :: c2))) ∧
  (∃ rs, idx (ranges_ s) (pos row n k) = Ok rs ∧ zlen rs = l) ∧ l < 2 ^ 64.
Proof.
  intros El L1 L2 k. assert (length (c1 ++ c :: c2) = n) as Ln by (rewrite <- length_major, El, !length_app; simpl; lia).
  assert (k < n)%nat as Hk by (rewrite <- Ln, length_app; simpl; unfold k; lia). split_and!.
  - apply idx_ord; [done|]. by apply list_lookup_middle.
  - intros x. rewrite (upd_ord row _ n) by done. f_equal. f_equal. unfold k. rewrite <- L1.
    rewrite <- (Nat.add_0_r (length c1)), insert_app_r. done.
  - assert (ls !! k = Some l) as Hl by (rewrite El; by apply list_lookup_middle).
    unfold major in Hl. rewrite <- lens_ord in Hl. unfold lens in Hl. apply list_lookup_fmap_Some in Hl as (rs & -> & Hr).
    exists rs. split; [|done]. rewrite <- (ord_ord row (ranges_ s)). apply idx_ord; [|done]. rewrite length_ord. apply Hs.
  - pose proof (nb_cap _ _ Hs) as Hc. rewrite <- (cap_ord row) in Hc. fold ls in Hc. rewrite El, cap_app in Hc.
    pose proof major_grid as Hg. rewrite El in Hg. apply Forall_app in Hg as [G1 [_ G2]%Forall_cons].
    simpl in Hc. pose proof (cap_pos _ G1). pose proof (cap_pos _ G2). nia.
Qed.

(** One digit of the carry. *)
Definition carry (nx : nat → list Z → res (list Z)) (k : nat) (coords : list Z) : res (list Z) :=
  c ← idx coords (pos row n k);
  coords ← upd coords (pos row n k) (u64 (c + 1));
  rs ← idx (ranges_ s) (pos row n k);
  match k with
  | O => Ok coords
  | S k' => if zlen rs <=? u64 (c + 1) then coords ← upd coords (pos row n k) 0; nx k' coords else Ok coords
  end.

Lemma carry_ok nx : (∀ k coords, (k < n)%nat → nx k coords = carry nx k coords) →
  ∀ k l1 l l2 c1 c c2, ls = l1 ++ l :: l2 → length l1 = k → inside l1 c1 → 0 ≤ c < l → length c2 = length l2 →
  flat l1 c1 * l + c + 1 < cap l1 * l →
  nx k (ord row (c1 ++ c :: c2)) = Ok (ord row (dig (l1 ++ [l]) (flat l1 c1 * l + c + 1) ++ c2)).
Proof.
  intros Hnx. induction k as [|k IH]; intros l1 l l2 c1 c c2 El L1 Hin Hc L2 Hf;
    pose proof (Forall2_length _ _ _ Hin) as L3; pose proof (inside_grid _ _ Hin) as Hg; pose proof (flat_bound _ _ Hin) as Hb;
    destruct (coord_at l1 l l2 c1 c c2 El (eq_sym L3) L2) as (I1 & U1 & (rs & R1 & R2) & Hl);
    rewrite L1 in I1, U1, R1; rewrite Hnx by (rewrite <- length_major, El, length_app; simpl; lia);
    unfold carry; rewrite I1; cbn [mbind res_bind]; rewrite U1; cbn [mbind res_bind]; rewrite R1; cbn [mbind res_bind];
    rewrite u64_id by lia; rewrite dig_snoc by (done || lia || (rewrite cap_app; simpl; nia)).
  - destruct l1; [|done]. inversion Hin; subst. simpl in *. by rewrite Z.mod_small by lia.
  - rewrite R2. destruct (Z.leb_spec l (c + 1)) as [Hle|Hlt].
    + destruct (coord_at l1 l l2 c1 (c + 1) c2 El (eq_sym L3) L2) as (_ & U2 & _). rewrite L1 in U2.
      rewrite U2. cbn [mbind res_bind].
      destruct (exists_last (l := l1)) as (l0 & x & ->); [by intros ->|]. rewrite length_app in L1. simpl in L1.
      apply Forall2_app_inv_l in Hin as (c0 & cx & Hin0 & Hx & ->). inversion Hx as [|? y ? ? Hy Hn]; subst. inversion Hn; subst.
      pose proof (Forall2_length _ _ _ Hin0). rewrite flat_snoc, cap_app in * by lia. simpl in *.
      rewrite <- app_assoc. simpl. assert (c + 1 = zlen rs) as Ec by lia.
      rewrite (IH l0 x (zlen rs :: l2)); [|by rewrite El, <- app_assoc|lia|done|done|simpl; lia|nia].
      replace ((flat l0 c0 * x + y) * zlen rs + c + 1) with ((flat l0 c0 * x + y + 1) * zlen rs) by lia.
      rewrite Z.div_mul, Z.mod_mul by lia. by rewrite <- app_assoc.
    + rewrite <- Z.add_assoc, (Z.add_comm (flat l1 c1 * l)), Z.div_add, Z.div_small, Z.add_0_l, (dig_flat _ _ Hin) by lia.
      rewrite Z.mod_add, Z.mod_small by lia. by rewrite <- app_assoc.
Qed.

Lemma next_coords_ok i : 0 ≤ i → i + 1 < range_num s →
  get_next_range_coords A s (ord row (dig ls i)) = Ok (ord row (dig ls (i + 1))).
Proof.
  intros Hi Hi1. pose proof major_cap as Mc. pose proof n_pos as Hp.
  assert (∀ nx, (∀ k coords, (k < n)%nat → nx k coords = carry nx k coords) →
    nx (n - 1)%nat (ord row (dig ls i)) = Ok (ord row (dig ls (i + 1)))) as H.
  { intros nx Hnx. pose proof (dig_inside ls i major_grid ltac:(lia)) as Hin.
    pose proof (flat_dig ls i major_grid ltac:(lia)) as Ef. pose proof (length_major) as El.
    destruct (exists_last (l := ls)) as (l1 & l & E1); [intros E; rewrite E in El; simpl in El; lia|].
    rewrite E1 in *. rewrite length_app in El. simpl in El.
    apply Forall2_app_inv_l in Hin as (c1 & cx & Hin & Hx & Ed). inversion Hx as [|? c ? ? Hc Hn]; subst cx.
    inversion Hn; subst. rewrite Ed in *.
    pose proof (Forall2_length _ _ _ Hin) as L1. rewrite flat_snoc, cap_app in * by lia. simpl in *.
    rewrite (carry_ok nx Hnx (n - 1)%nat l1 l [] c1 c []); try done; try lia.
    by rewrite Ef, app_nil_r. }
  unfold get_next_range_coords. rewrite dims_n. cbn [mbind res_bind].
  pose proof (nb_layout _ _ Hs) as [->|(_ & _ & Ec)].
  - unfold carry in H. destruct row; simpl.
    + apply H. by intros [|k] coords Hk.
    + specialize (H (λ k, next_col s k (n - 1 - k))). simpl in H. rewrite Nat.sub_diag in H. apply H.
      intros [|k] coords Hk; [done|]. simpl. by replace (S (n - 1 - S k)) with (n - 1 - k)%nat by lia.
  - exfalso. unfold major in Mc. rewrite cap_ord in Mc. lia.
Qed.

Lemma carry_reads k (coords : list Z) : (k < n)%nat → length coords = n → ∃ c rs, idx coords (pos row n k) = Ok c ∧
  idx (ranges_ s) (pos row n k) = Ok rs ∧ ∀ l x, length l = n → upd l (pos row n k) x = Ok (<[pos row n k := x : Z]> l).
Proof.
  intros Hk Hl. assert (pos row n k < n)%nat as Hp by (destruct row; simpl; lia).
  destruct (lookup_lt_is_Some_2 coords (pos row n k)) as [c Hc]; [lia|].
  destruct (lookup_lt_is_Some_2 (ranges_ s) (pos row n k)) as [rs Hr]; [by rewrite (nb_len _ _ Hs)|].
  exists c, rs. split_and!; [by apply idx_ok..|]. intros l x E. apply upd_ok. lia.
Qed.

Lemma carry_total nx : (∀ k coords, (k < n)%nat → nx k coords = carry nx k coords) →
  ∀ k coords, (k < n)%nat → length coords = n → ∃ cs, nx k coords = Ok cs.
Proof.
  intros Hnx. induction k as [|k IH]; intros coords Hk Hl; rewrite Hnx by done; unfold carry;
    destruct (carry_reads _ coords Hk Hl) as (c & rs & E1 & E2 & E3); rewrite E1; cbn [mbind res_bind];
    rewrite E3 by done; cbn [mbind res_bind]; rewrite E2; cbn [mbind res_bind]; [by eexists|].
  destruct (_ <=? _); [|by eexists]. rewrite E3 by (by rewrite length_insert). cbn [mbind res_bind].
  apply IH; [lia|]. by rewrite !length_insert.
Qed.

Lemma next_coords_total coords : length coords = n → ∃ cs, get_next_range_coords A s coords = Ok cs.
Proof.
  intros Hl. pose proof n_pos. unfold get_next_range_coords. rewrite dims_n. cbn [mbind res_bind].
  destruct (nb_layout _ _ Hs) as [->|(-> & _ & _)]; [|by eexists]. pose proof carry_total as H'. unfold carry in H'. destruct row; simpl in *.
  - apply (H' (next_row s)); [|lia|done]. by intros [|k] cs Hk.
  - specialize (H' (λ k, next_col s k (n - 1 - k))). simpl in H'. specialize (H' ltac:(intros [|k] cs Hk; [done|]; simpl; by replace (S (n - 1 - S k)) with (n - 1 - k)%nat by lia)).
    destruct (H' (n - 1)%nat coords ltac:(lia) Hl) as [cs E]. rewrite Nat.sub_diag in E. by exists cs.
Qed.

End one.
End numbering.
