(* ===== verification/SubarrayParts.v ===== *)
(** * Subarrays made of the ranges of another one

    What [get_subarray] and [split] build, and how a product measure of the
    ranges, such as the number of cells, is divided between the parts. *)

From stdpp Require Import gmap.
From S2P Require Import Prelude.
From S2P Require Import Enums.
From S2P Require Import Range.
From S2P Require Import Loops.
From S2P Require Import Dimension.
From S2P Require Import Domain.
From S2P Require Import RTree.
From S2P Require Import ArraySchema.
From S2P Require Import Subarray.
From S2P Require Import SubarrayRanges.
Local Open Scope Z_scope.

(** ** Measures *)

(** The sum of [g] over ranges; the product of the sums of the dimensions. *)
Definition lsum (g : Range → Z) (rs : list Range) : Z := foldr (λ r x, g r + x) 0 rs.
Definition measure (g : nat → Range → Z) (rss : list (list Range)) : Z := cap (imap (λ d rs, lsum (g d) rs) rss).

Lemma lsum_app g l k : lsum g (l ++ k) = lsum g l + lsum g k.
Proof. induction l as [|r l IH]; simpl; [done|]. rewrite IH. lia. Qed.

Lemma cap_insert (l : list Z) k x : l !! k = Some x → ∃ c, cap l = x * c ∧ ∀ y, cap (<[k:=y]> l) = y * c.
Proof.
  intros Hk. apply list_elem_of_split_length in Hk as (l1 & l2 & -> & ->). exists (cap l1 * cap l2).
  rewrite cap_app. simpl. split; [lia|]. intros y.
  rewrite <- (Nat.add_0_r (length l1)), insert_app_r. simpl. rewrite cap_app. simpl. lia.
Qed.

Lemma imap_insert {X Y : Type} (f : nat → X → Y) l d x : imap f (<[d:=x]> l) = <[d:=f d x]> (imap f l).
Proof.
  apply list_eq. intros k. rewrite list_lookup_imap. destruct (decide (d < length l)%nat) as [Hd|Hd].
  - destruct (decide (k = d)) as [->|Hne].
    + by rewrite !list_lookup_insert_eq by (by rewrite ?length_imap).
    + by rewrite !list_lookup_insert_ne, list_lookup_imap by done.
  - by rewrite !list_insert_ge, list_lookup_imap by (rewrite ?length_imap; lia).
Qed.

(** Dividing the ranges of one dimension divides the measure. *)
Lemma measure_split g rss d rs rs1 rs2 : rss !! d = Some rs → lsum (g d) rs = lsum (g d) rs1 + lsum (g d) rs2 →
  measure g rss = measure g (<[d:=rs1]> rss) + measure g (<[d:=rs2]> rss).
Proof.
  intros Hd E. unfold measure. rewrite !imap_insert.
  assert (imap (λ d rs, lsum (g d) rs) rss !! d = Some (lsum (g d) rs)) as Hi by (by rewrite list_lookup_imap, Hd).
  destruct (cap_insert _ _ _ Hi) as (c & -> & H). rewrite !H. lia.
Qed.

(** The ranges [a] to [b]. *)
Definition seg (rs : list Range) (a b : Z) : list Range := take (Z.to_nat (b - a + 1)) (drop (Z.to_nat a) rs).

Lemma zseq_nil a b : b < a → zseq a b = [].
Proof. intros. unfold zseq. by replace (Z.to_nat (b - a + 1)) with 0%nat by lia. Qed.

Lemma zseq_cons a b : a ≤ b → zseq a b = a :: zseq (a + 1) b.
Proof.
  intros. unfold zseq. replace (Z.to_nat (b - a + 1)) with (S (Z.to_nat (b - (a + 1) + 1))) by lia. simpl.
  f_equal; [lia|]. rewrite <- seq_shift, <- list_fmap_compose. apply list_fmap_ext. intros ? i _. simpl. lia.
Qed.

Lemma seg_cons rs a b : 0 ≤ a ≤ b → b < zlen rs → seg rs a b = pick rs a :: seg rs (a + 1) b.
Proof.
  intros Ha Hb. unfold seg. replace (Z.to_nat (b - a + 1)) with (S (Z.to_nat (b - (a + 1) + 1))) by lia.
  rewrite (drop_S rs (pick rs a)) by (apply pick_lookup; lia). simpl. by replace (Z.to_nat (a + 1)) with (S (Z.to_nat a)) by lia.
Qed.

Lemma seg_nil rs a b : b < a → seg rs a b = [].
Proof. intros. unfold seg. by replace (Z.to_nat (b - a + 1)) with 0%nat by lia. Qed.

Lemma seg_all rs : seg rs 0 (zlen rs - 1) = rs.
Proof. unfold seg. simpl. rewrite drop_0. apply take_ge. unfold zlen. lia. Qed.

Lemma seg_app rs a b c : 0 ≤ a ≤ b + 1 → b ≤ c → seg rs a c = seg rs a b ++ seg rs (b + 1) c.
Proof.
  intros. unfold seg. replace (Z.to_nat (c - a + 1)) with (Z.to_nat (b - a + 1) + Z.to_nat (c - (b + 1) + 1))%nat by lia.
  rewrite <- take_take_drop, drop_drop. f_equal. f_equal. f_equal. lia.
Qed.

Lemma seg_elem r rs a b : r ∈ seg rs a b → r ∈ rs.
Proof.
  unfold seg. intros [i Hi]%list_elem_of_lookup. apply lookup_take_Some in Hi as [Hi _]. rewrite lookup_drop in Hi.
  by apply list_elem_of_lookup_2 in Hi.
Qed.

Lemma zlen_seg rs a b : 0 ≤ a ≤ b + 1 → b < zlen rs → zlen (seg rs a b) = b - a + 1.
Proof. intros. unfold seg, zlen in *. rewrite length_take, length_drop. lia. Qed.

(** The sum over the ranges of a segment, by their number. *)
Lemma lsum_seg g rs a b : 0 ≤ a ≤ b + 1 → b < zlen rs → lsum g (seg rs a b) = sum_in (λ c, g (pick rs c)) a b.
Proof.
  intros Ha Hb. unfold sum_in. remember (Z.to_nat (b - a + 1)) as k eqn:Ek. revert a Ha Ek.
  induction k as [|k IH]; intros a Ha Ek; simpl.
  - by rewrite seg_nil by lia.
  - rewrite seg_cons by lia. simpl. rewrite IH by lia. done.
Qed.

(** A loop over the numbers of a segment is a loop over its ranges. *)
Lemma for_each_seg {T : Type} s d rs a b (f : Range → T → res T) x : ranges_ s !! d = Some rs → 0 ≤ a → b < zlen rs →
  for_each (zseq a b) (λ r t, y ← range_at s d r; f y t) x = for_each (seg rs a b) f x.
Proof.
  intros Hd Ha Hb. remember (Z.to_nat (b - a + 1)) as k eqn:Ek. revert a x Ha Ek.
  induction k as [|k IH]; intros a x Ha Ek.
  - by rewrite zseq_nil, seg_nil by lia.
  - rewrite zseq_cons, seg_cons by lia. cbn [for_each]. rewrite (range_at_ok s d rs a Hd) by lia.
    cbn [mbind res_bind]. destruct (f _ x); [|done..]. apply IH; lia.
Qed.

Lemma grid_lens rss : grid (lens rss) ↔ Forall (λ rs, rs ≠ []) rss.
Proof.
  unfold grid, lens. rewrite Forall_fmap. apply Forall_iff. intros rs. unfold compose, zlen.
  destruct rs; simpl; split; intros H; try done; lia.
Qed.

(** The ranges between two coordinates of each dimension. *)
Definition segs (rss : list (list Range)) (ss es : list Z) : list (list Range) :=
  zip_with (λ rs p, seg rs p.1 p.2) rss (zip ss es).

Lemma grid_le (ks ls : list Z) : Forall2 (λ k l, 1 ≤ k ≤ l) ks ls → grid ks.
Proof. induction 1; constructor; [lia|done]. Qed.

Lemma cap_le (ks ls : list Z) : Forall2 (λ k l, 1 ≤ k ≤ l) ks ls → cap ks ≤ cap ls.
Proof.
  induction 1 as [|k l ks ls Hk H IH]; simpl; [done|]. pose proof (cap_pos _ (grid_le _ _ H)). nia.
Qed.

(** Coordinates between which there is a box. *)
Definition between (rss : list (list Range)) (ss es : list Z) : Prop :=
  length ss = length rss ∧ length es = length rss ∧
  ∀ d rs s e, rss !! d = Some rs → ss !! d = Some s → es !! d = Some e → 0 ≤ s ≤ e ∧ e < zlen rs.

Lemma segs_lens rss ss es : between rss ss es →
  length (segs rss ss es) = length rss ∧ Forall2 (λ k l, 1 ≤ k ≤ l) (lens (segs rss ss es)) (lens rss).
Proof.
  intros (L1 & L2 & H). unfold segs. assert (length (zip_with (λ rs (p : Z * Z), seg rs p.1 p.2) rss (zip ss es)) = length rss) as El.
  { rewrite !length_zip_with. lia. }
  split; [done|]. apply Forall2_same_length_lookup. unfold lens. split; [by rewrite !length_fmap|].
  intros d k l Hk Hl. apply list_lookup_fmap_Some in Hk as (x & -> & Hx). apply list_lookup_fmap_Some in Hl as (rs & -> & Hr).
  apply lookup_zip_with_Some in Hx as (rs' & [s e] & -> & Hr' & Hp). apply lookup_zip_with_Some in Hp as (? & ? & [= <- <-] & Hs & He).
  rewrite Hr in Hr'. injection Hr' as <-. destruct (H _ _ _ _ Hr Hs He). simpl. rewrite zlen_seg by lia. lia.
Qed.

Lemma zseq_in x a b : x ∈ zseq a b → a ≤ x ≤ b.
Proof. unfold zseq. intros (i & -> & Hi%elem_of_seq)%list_elem_of_fmap. lia. Qed.

Lemma overlap_rows a b k (fs : list (list TileOverlap)) : Forall (λ f, length f = k) fs → 0 ≤ a → b < Z.of_nat k →
  ∃ ov, mapM (λ f, mapM (λ r, if r <? 0 then UB else idx f (Z.to_nat r)) (zseq a b)) fs = Ok ov.
Proof.
  intros Hf Ha Hb. apply mapM_total. intros f Hin. apply mapM_total. intros r Hr%zseq_in.
  rewrite (proj2 (Z.ltb_ge _ _)) by lia. destruct (lookup_lt_is_Some_2 f (Z.to_nat r)) as [y Hy].
  - rewrite (Forall_forall _ _) in Hf. rewrite (Hf _ Hin). lia.
  - exists y. by apply idx_ok.
Qed.

(** The parts of a split differ from the whole in one dimension. *)
Lemma replaced_lens d rs rs' rss : rss !! d = Some rs → grid (lens rss) → 1 ≤ zlen rs' ≤ zlen rs →
  Forall2 (λ k l, 1 ≤ k ≤ l) (lens (<[d:=rs']> rss)) (lens rss).
Proof.
  intros Hd Hg Hz. unfold lens in *. rewrite list_fmap_insert. apply Forall2_same_length_lookup.
  split; [by rewrite length_insert|]. intros k x y Hx Hy. pose proof (Forall_lookup_1 _ _ _ _ Hg Hy) as H1. simpl in H1.
  apply list_lookup_insert_Some in Hx as [(-> & <- & _)|[Hne Hx]].
  - apply list_lookup_fmap_Some in Hy as (? & -> & Hy). rewrite Hd in Hy. by injection Hy as <-.
  - rewrite Hx in Hy. injection Hy as ->. lia.
Qed.

Lemma nonempty_insert d (rs : list Range) rss : Forall (λ rs, rs ≠ []) rss → rs ≠ [] → Forall (λ rs, rs ≠ []) (<[d:=rs]> rss).
Proof. intros. by apply Forall_insert. Qed.

(** ** The measure of an interval of numbers *)

(** The measure of a range of each dimension by its coordinate; of the ranges with a
    number. *)
Definition vals (g : nat → Range → Z) (rss : list (list Range)) : list (Z → Z) := imap (λ d rs c, g d (pick rs c)) rss.
Definition nd_measure (g : nat → Range → Z) (row : bool) (s : Subarray) (i : Z) : Z :=
  weigh (ord row (vals g (ranges_ s))) (dig (major row s) i).

Lemma box_cap gs ss es : length ss = length gs → length es = length gs →
  box gs ss es = cap (zip_with (λ g p, sum_in g p.1 p.2) gs (zip ss es)).
Proof.
  revert ss es. induction gs as [|g gs IH]; intros [|a ss] [|b es] E1 E2; try done. simpl in *. by rewrite IH by lia.
Qed.

Lemma segs_measure g rss ss es : between rss ss es →
  measure g (segs rss ss es) = cap (zip_with (λ f p, sum_in f p.1 p.2) (vals g rss) (zip ss es)).
Proof.
  intros (L1 & L2 & H). unfold measure. f_equal. apply list_eq. intros d. rewrite list_lookup_imap. unfold segs, vals.
  rewrite !lookup_zip_with, list_lookup_imap. destruct (rss !! d) as [rs|] eqn:Er; [|done].
  destruct (ss !! d) as [a|] eqn:Ea; [|done]. destruct (es !! d) as [b|] eqn:Eb; [|done].
  destruct (H _ _ _ _ Er Ea Eb). simpl. f_equal. apply lsum_seg; lia.
Qed.

(** ** Building *)

Section parts.
Context {F : Type} `{!FragmentMeta F}.
Variables (A : Array F) (D : Domain.t).
Hypothesis HD : has_dims A D.
Let n := length (dimensions_ D).

(** A subarray with the ranges [rss] and nothing computed. *)
Definition plain (layout : Layout) (rss : list (list Range)) (defaults : list bool) : Subarray :=
  mkSubarray layout (ArraySchema.cell_order_ (array_schema A)) rss defaults [] [] false false ∅ ∅ [] [] ∅.

(** Ranges have been added to the first [k] dimensions. *)
Definition staged (layout : Layout) (rss : list (list Range)) (k : nat) : Subarray :=
  plain layout (take k rss ++ drop k ((λ dim, [Dimension.domain_ dim]) <$> dimensions_ D)) (replicate k false ++ replicate (n - k) true).

Lemma make_staged layout rss : make_subarray A layout = Ok (staged layout rss 0).
Proof.
  destruct HD as [H1 H2 _]. unfold make_subarray, ArraySchema.domain. rewrite H1. cbn [mbind res_bind].
  unfold ndomain. rewrite (mapM_up (dimensions_ D) _ Dimension.domain_) by (try done; intros k e Hk; by rewrite (idx_ok _ _ _ Hk)).
  cbn [mbind res_bind]. unfold staged, plain. simpl. rewrite length_fmap, <- list_fmap_compose, Nat.sub_0_r. done.
Qed.

Definition add_list (d : nat) (rs : list Range) (s : Subarray) : res Subarray :=
  for_each rs (λ r s, add_range_unsafe d r s) s.

Lemma add_next layout rss defs d rs r : rss !! d = Some rs → defs !! d = Some false →
  add_range_unsafe d r (plain layout rss defs) = Ok (plain layout (<[d := rs ++ [r]]> rss) defs).
Proof.
  intros Hr Hd. unfold add_range_unsafe, remove_default, push_range, plain. cbn. rewrite (idx_ok _ _ _ Hd). cbn.
  rewrite (idx_ok _ _ _ Hr). cbn. by rewrite upd_ok by (by apply lookup_lt_Some in Hr).
Qed.

Lemma add_default layout rss defs d r : defs !! d = Some true → (d < length rss)%nat →
  add_range_unsafe d r (plain layout rss defs) = Ok (plain layout (<[d := [r]]> rss) (<[d := false]> defs)).
Proof.
  intros Hd Hl. pose proof (lookup_lt_Some _ _ _ Hd). unfold add_range_unsafe, remove_default, push_range, plain. cbn.
  rewrite (idx_ok _ _ _ Hd). cbn. rewrite !upd_ok by done. cbn. rewrite (idx_ok _ d []) by (by apply list_lookup_insert_eq).
  cbn. rewrite upd_ok by (by rewrite length_insert). cbn. by rewrite list_insert_insert_eq.
Qed.

Lemma add_more layout rss defs d rs k : rss !! d = Some rs → defs !! d = Some false →
  add_list d k (plain layout rss defs) = Ok (plain layout (<[d := rs ++ k]> rss) defs).
Proof.
  revert rss rs. induction k as [|r k IH]; intros rss rs Hr Hd.
  - simpl. rewrite app_nil_r. by rewrite list_insert_id.
  - unfold add_list in *. cbn [for_each]. rewrite (add_next _ _ _ _ rs) by done. cbn [mbind res_bind].
    rewrite (IH _ (rs ++ [r])); [|apply list_lookup_insert_eq; by apply lookup_lt_Some in Hr|done].
    by rewrite list_insert_insert_eq, <- app_assoc.
Qed.

Lemma add_first layout rss defs d k : defs !! d = Some true → (d < length rss)%nat → k ≠ [] →
  add_list d k (plain layout rss defs) = Ok (plain layout (<[d := k]> rss) (<[d := false]> defs)).
Proof.
  intros Hd Hl Hk. destruct k as [|r k]; [done|]. unfold add_list. cbn [for_each]. rewrite add_default by done.
  cbn [mbind res_bind]. pose proof (lookup_lt_Some _ _ _ Hd). fold (add_list d k (plain layout (<[d:=[r]]> rss) (<[d:=false]> defs))).
  rewrite (add_more _ _ _ _ [r]); [|by apply list_lookup_insert_eq..]. by rewrite list_insert_insert_eq.
Qed.

Lemma staged_step layout rss k rs : length rss = n → rss !! k = Some rs → rs ≠ [] →
  add_list k rs (staged layout rss k) = Ok (staged layout rss (S k)).
Proof.
  intros Hl Hk Hne. pose proof (lookup_lt_Some _ _ _ Hk) as Hlt. unfold staged.
  assert (length (take k rss) = k) as Lt by (rewrite length_take; lia).
  set (dd := (λ dim, [Dimension.domain_ dim]) <$> dimensions_ D).
  assert (length dd = n) as Ld by (unfold dd; apply length_fmap).
  destruct (lookup_lt_is_Some_2 dd k) as [x Hx]; [lia|].
  rewrite (drop_S dd x k Hx). rewrite add_first.
  - f_equal. f_equal.
    + rewrite <- Lt at 1. rewrite <- (Nat.add_0_r (length (take k rss))), insert_app_r. simpl.
      rewrite (take_S_r rss k rs Hk), <- app_assoc. done.
    + replace (n - k)%nat with (S (n - S k)) by lia. rewrite <- (length_replicate k false) at 1.
      rewrite <- (Nat.add_0_r (length (replicate k false))), insert_app_r. simpl.
      by rewrite app_comm_cons, replicate_cons_app, <- app_assoc.
  - rewrite lookup_app_r by (rewrite length_replicate; lia). rewrite length_replicate, Nat.sub_diag.
    by replace (n - k)%nat with (S (n - S k)) by lia.
  - rewrite length_app, Lt. simpl. lia.
  - done.
Qed.

(** The result of a loop that adds ranges to every dimension. *)
Definition filled (layout : Layout) (rss : list (list Range)) : Subarray := plain layout rss (replicate n false).

Lemma staged_all layout rss : length rss = n → staged layout rss n = filled layout rss.
Proof.
  intros Hl. unfold staged, filled. rewrite take_ge by lia.
  rewrite drop_ge by (rewrite length_fmap; unfold n; lia). by rewrite Nat.sub_diag, !app_nil_r.
Qed.

Lemma fill_ok layout rss (body : nat → Subarray → res Subarray) : length rss = n → Forall (λ rs, rs ≠ []) rss →
  (∀ d rs s, rss !! d = Some rs → body d s = add_list d rs s) →
  for_each (seq 0 n) body (staged layout rss 0) = Ok (filled layout rss).
Proof.
  intros Hl Hne Hb. rewrite <- staged_all by done. revert Hl.
  enough (∀ k, (k ≤ length rss)%nat → length rss = n → for_each (seq 0 k) body (staged layout rss 0) = Ok (staged layout rss k)) as H.
  { intros Hl. apply H; lia. }
  induction k as [|k IH]; intros Hk Hl; [done|].
  rewrite seq_S, for_each_app, IH by lia. cbn [mbind res_bind for_each Nat.add].
  destruct (lookup_lt_is_Some_2 rss k) as [rs Hrs]; [lia|].
  rewrite (Hb _ _ _ Hrs), (staged_step _ _ _ rs) by (try done; by apply (Forall_lookup_1 _ _ _ _ Hne Hrs)). done.
Qed.

(** The same for two subarrays at once. *)
Lemma fill2_ok layout rss1 rss2 (body : nat → Subarray * Subarray → res (Subarray * Subarray)) :
  length rss1 = n → length rss2 = n → Forall (λ rs, rs ≠ []) rss1 → Forall (λ rs, rs ≠ []) rss2 →
  (∀ d rs1 rs2 acc, rss1 !! d = Some rs1 → rss2 !! d = Some rs2 →
    body d acc = (r1 ← add_list d rs1 acc.1; r2 ← add_list d rs2 acc.2; Ok (r1, r2))) →
  for_each (seq 0 n) body (staged layout rss1 0, staged layout rss2 0) = Ok (filled layout rss1, filled layout rss2).
Proof.
  intros Hl1 Hl2 Hn1 Hn2 Hb. rewrite <- !staged_all by done.
  enough (∀ k, (k ≤ n)%nat → for_each (seq 0 k) body (staged layout rss1 0, staged layout rss2 0) =
    Ok (staged layout rss1 k, staged layout rss2 k)) as H by (apply H; lia).
  induction k as [|k IH]; intros Hk; [done|].
  rewrite seq_S, for_each_app, IH by lia. cbn [mbind res_bind for_each Nat.add].
  destruct (lookup_lt_is_Some_2 rss1 k) as [rs1 H1]; [lia|]. destruct (lookup_lt_is_Some_2 rss2 k) as [rs2 H2]; [lia|].
  rewrite (Hb _ _ _ _ H1 H2). simpl fst. simpl snd.
  rewrite (staged_step _ rss1 _ rs1) by (try done; by apply (Forall_lookup_1 _ _ _ _ Hn1 H1)). cbn [mbind res_bind].
  rewrite (staged_step _ rss2 _ rs2) by (try done; by apply (Forall_lookup_1 _ _ _ _ Hn2 H2)). done.
Qed.

(** A subarray of the array in a layout: ranges on every dimension, nothing computed
    yet. *)
Record piece (row : bool) (layout : Layout) (s : Subarray) : Prop := {
  pc_numbered : numbered D row s;
  pc_layout : layout_ s = layout;
  pc_cell_order : cell_order_ s = ArraySchema.cell_order_ (array_schema A);
  pc_est : est_result_size_computed_ s = false;
  pc_overlap : tile_overlap_computed_ s = false;
  pc_relevant : relevant_fragments_ s = []
}.

(** Fewer ranges of the same layout, not none. *)
Lemma piece_filled row s rss : numbered D row s → cell_order_ s = ArraySchema.cell_order_ (array_schema A) →
  Forall2 (λ k l, 1 ≤ k ≤ l) (lens rss) (lens (ranges_ s)) → piece row (layout_ s) (filled (layout_ s) rss).
Proof.
  intros [H1 H2 H3 H4 H5] Hc H. pose proof (Forall2_length _ _ _ H) as El. unfold lens in El. rewrite !length_fmap in El.
  pose proof (cap_le _ _ H). pose proof (cap_pos _ (grid_le _ _ H)). split; [|done..]. split; simpl.
  - lia.
  - by apply grid_le in H.
  - lia.
  - unfold effective_layout in *. simpl. rewrite <- Hc. destruct H4 as [H4|(H4 & Hr & Hcap)]; [by left|right].
    split_and!; try done. lia.
  - unfold effective_layout in *. simpl. by rewrite <- Hc.
Qed.

Lemma get_subarray_ok row s a b : numbered D row s → range_offsets_ s = ord row (sufs (major row s)) →
  cell_order_ s = ArraySchema.cell_order_ (array_schema A) →
  Forall (λ f, length f = Z.to_nat (range_num s)) (tile_overlap_ s) →
  0 ≤ a < range_num s → 0 ≤ b < range_num s →
  let ss := ord row (dig (major row s) a) in let es := ord row (dig (major row s) b) in
  between (ranges_ s) ss es →
  ∃ s', get_subarray A s a b = Ok s' ∧ piece row (layout_ s) s' ∧ ranges_ s' = segs (ranges_ s) ss es.
Proof.
  intros Hs Ho Hc Hov Ha Hb ss es Hbt. destruct (segs_lens _ _ _ Hbt) as [Ls Hls].
  unfold get_subarray. rewrite (make_staged (layout_ s) (segs (ranges_ s) ss es)). cbn [mbind res_bind].
  rewrite !(range_coords_ok A D HD row s) by done. cbn [mbind res_bind]. fold ss es.
  rewrite (dims_n A D HD). cbn [mbind res_bind]. fold n.
  rewrite (fill_ok (layout_ s) (segs (ranges_ s) ss es)).
  - cbn [mbind res_bind]. destruct (overlap_rows a b (Z.to_nat (range_num s)) (tile_overlap_ s)) as [ov ->]; [done|lia|lia|].
    cbn [mbind res_bind]. simpl. destruct (piece_filled row s (segs (ranges_ s) ss es)) as [[H1 H2 H3 H4 H5] E2 E3 E4 E5 E6]; [done..|].
    set (x := with_overlap _ _ _ _). assert (numbered D row x) as Hx by done.
    rewrite (offsets_ok A D HD row x Hx). eexists. split; [done|]. by repeat split.
  - rewrite Ls. apply Hs.
  - apply grid_lens. by apply grid_le in Hls.
  - intros d rs x Hd. unfold segs in Hd. apply lookup_zip_with_Some in Hd as (r & [p q] & -> & Hr & Hp).
    apply lookup_zip_with_Some in Hp as (? & ? & [= <- <-] & Hp & Hq). rewrite (idx_ok _ _ _ Hp), (idx_ok _ _ _ Hq). cbn [mbind res_bind].
    destruct Hbt as (_ & _ & H). destruct (H _ _ _ _ Hr Hp Hq). unfold add_list. simpl.
    apply (for_each_seg s d r p q (add_range_unsafe d)); done || lia.
Qed.

Section split.
Variables (row : bool) (s : Subarray).
Hypotheses (Hs : numbered D row s) (Hc : cell_order_ s = ArraySchema.cell_order_ (array_schema A)).
Variables (k : nat) (rs : list Range).
Hypothesis Hk : ranges_ s !! k = Some rs.

Let Hn : length (ranges_ s) = n := nb_len _ _ _ Hs.
Let Hne : Forall (λ rs, rs ≠ []) (ranges_ s) := proj1 (grid_lens _) (nb_grid _ _ _ Hs).

(** What a split gives. *)
Definition splits_as (x : res (Subarray * Subarray)) (rs1 rs2 : list Range) : Prop :=
  ∃ p1 p2, x = Ok (p1, p2) ∧ piece row (layout_ s) p1 ∧ piece row (layout_ s) p2 ∧
    ranges_ p1 = <[k:=rs1]> (ranges_ s) ∧ ranges_ p2 = <[k:=rs2]> (ranges_ s).

Lemma filled_splits x rs1 rs2 : 1 ≤ zlen rs1 ≤ zlen rs → 1 ≤ zlen rs2 ≤ zlen rs →
  x = Ok (filled (layout_ s) (<[k:=rs1]> (ranges_ s)), filled (layout_ s) (<[k:=rs2]> (ranges_ s))) → splits_as x rs1 rs2.
Proof.
  intros H1 H2 ->. eexists _, _. split; [done|]. pose proof (nb_grid _ _ _ Hs).
  split_and!; try done; apply piece_filled; try done; by eapply replaced_lens.
Qed.

Lemma split_fill rs1 rs2 (body : nat → Subarray * Subarray → res (Subarray * Subarray)) :
  rs1 ≠ [] → rs2 ≠ [] → zlen rs1 ≤ zlen rs → zlen rs2 ≤ zlen rs →
  (∀ acc, body k acc = (r1 ← add_list k rs1 acc.1; r2 ← add_list k rs2 acc.2; Ok (r1, r2))) →
  (∀ d x acc, ranges_ s !! d = Some x → d ≠ k → body d acc = (r1 ← add_list d x acc.1; r2 ← add_list d x acc.2; Ok (r1, r2))) →
  splits_as (e ← make_subarray A (layout_ s); m ← dims A; for_each (seq 0 m) body (e, e)) rs1 rs2.
Proof.
  intros N1 N2 Z1 Z2 Hb Ho. pose proof (zlen_pos _ N1). pose proof (zlen_pos _ N2). apply filled_splits; [lia..|].
  rewrite (make_staged _ (<[k:=rs1]> (ranges_ s))). cbn [mbind res_bind]. rewrite (dims_n A D HD). cbn [mbind res_bind].
  change (staged (layout_ s) (<[k:=rs1]> (ranges_ s)) 0, staged (layout_ s) (<[k:=rs1]> (ranges_ s)) 0) with
    (staged (layout_ s) (<[k:=rs1]> (ranges_ s)) 0, staged (layout_ s) (<[k:=rs2]> (ranges_ s)) 0).
  apply fill2_ok; try (by rewrite length_insert); try (by apply nonempty_insert).
  intros d x1 x2 acc E1 E2. pose proof (lookup_lt_Some _ _ _ Hk). destruct (decide (d = k)) as [->|Hd].
  - rewrite list_lookup_insert_eq in E1, E2 by done. injection E1 as <-. injection E2 as <-. apply Hb.
  - rewrite list_lookup_insert_ne in E1, E2 by done. rewrite E1 in E2. injection E2 as <-. by apply Ho.
Qed.

(** Both kinds of split at a value. *)
Lemma split_single_ok dim v r r1 r2 : Forall (λ rs, zlen rs = 1) (ranges_ s) → rs = [r] →
  dimensions_ D !! k = Some dim → split_range dim r v empty_range empty_range = Ok (r1, r2) →
  splits_as (split_single A s k v) [r1] [r2].
Proof.
  intros H1 Er Hd Hsp. assert (ranges_ s !! k = Some [r]) as Hk' by congruence.
  unfold split_single. apply split_fill; try done; try (by rewrite Er).
  - intros acc. rewrite (range_at_ok s k [r] 0 Hk') by done. cbn [mbind res_bind]. rewrite Nat.eqb_refl, (dimension_at_n A D HD _ _ Hd).
    cbn [mbind res_bind]. change (pick [r] 0) with r. rewrite Hsp. cbn [mbind res_bind]. unfold add_list. cbn [for_each].
    destruct (add_range_unsafe k r1 acc.1); [|done..]. cbn [mbind res_bind]. by destruct (add_range_unsafe k r2 acc.2).
  - intros d x acc Hx Hne'. pose proof (Forall_lookup_1 _ _ _ _ H1 Hx) as Hz. simpl in Hz.
    destruct x as [|y [|]]; try (unfold zlen in Hz; simpl in Hz; lia).
    rewrite (range_at_ok s d [y] 0 Hx) by done. cbn [mbind res_bind]. rewrite (proj2 (Nat.eqb_neq _ _)) by done.
    cbn [mbind res_bind]. unfold add_list. cbn [for_each]. change (pick [y] 0) with y.
    destruct (add_range_unsafe d y acc.1); [|done..]. cbn [mbind res_bind]. by destruct (add_range_unsafe d y acc.2).
Qed.

Lemma get_range_num_ok d x : ranges_ s !! d = Some x → get_range_num A s d = Ok (zlen x).
Proof.
  intros Hd. unfold get_range_num, dim_in_bounds. rewrite (dim_num_n A D HD). cbn [mbind res_bind].
  apply lookup_lt_Some in Hd as Hl. rewrite Hn in Hl. rewrite (proj2 (Z.leb_gt _ _)) by (fold n; lia).
  cbn [mbind res_bind]. by rewrite (idx_ok _ _ _ Hd).
Qed.

(** All the ranges of a dimension go to both parts. *)
Lemma split_other (a1 a2 : Subarray) d x : ranges_ s !! d = Some x →
  (r1 ← for_each (zseq 0 (zlen x - 1)) (λ j r, y ← range_at s d j; add_range_unsafe d y r) a1;
   r2 ← for_each (zseq 0 (zlen x - 1)) (λ j r, y ← range_at s d j; add_range_unsafe d y r) a2; Ok (r1, r2)) =
  (r1 ← add_list d x a1; r2 ← add_list d x a2; Ok (r1, r2)).
Proof. intros Hd. rewrite !(for_each_seg s d x 0 (zlen x - 1)) by (done || lia). by rewrite seg_all. Qed.

Lemma split_ranges_ok j v : 0 ≤ j → j + 1 < zlen rs → zlen rs ≤ u64_max →
  splits_as (split_multi A s j k v) (seg rs 0 j) (seg rs (j + 1) (zlen rs - 1)).
Proof.
  intros Hj Hj1 Hm. unfold split_multi. apply split_fill.
  - intros E. apply (f_equal zlen) in E. rewrite zlen_seg in E by lia. change (zlen []) with 0 in E. lia.
  - intros E. apply (f_equal zlen) in E. rewrite zlen_seg in E by lia. change (zlen []) with 0 in E. lia.
  - rewrite zlen_seg; lia.
  - rewrite zlen_seg; lia.
  - intros acc. rewrite (get_range_num_ok k rs Hk). cbn [mbind res_bind]. rewrite Nat.eqb_refl. simpl negb at 1.
    rewrite (proj2 (Z.eqb_neq j u64_max)) by lia. simpl negb. cbv iota zeta.
    by rewrite !(for_each_seg s k rs) by (done || lia).
  - intros d x acc Hx Hd. rewrite (get_range_num_ok d x Hx). cbn [mbind res_bind].
    rewrite (proj2 (Nat.eqb_neq d k)) by done. simpl negb. cbv iota zeta. by apply split_other.
Qed.

Lemma split_value_ok dim v r r1 r2 : rs = [r] → dimensions_ D !! k = Some dim →
  split_range dim r v empty_range empty_range = Ok (r1, r2) → splits_as (split_multi A s u64_max k v) [r1] [r2].
Proof.
  intros Er Hd Hsp. assert (ranges_ s !! k = Some [r]) as Hk' by congruence.
  unfold split_multi. apply split_fill; try done; try (by rewrite Er).
  - intros acc. rewrite (get_range_num_ok k [r] Hk'). cbn [mbind res_bind]. rewrite Nat.eqb_refl, Z.eqb_refl. simpl negb. cbv iota zeta.
    rewrite (range_at_ok s k [r] 0 Hk') by done. cbn [mbind res_bind]. rewrite (dimension_at_n A D HD _ _ Hd).
    cbn [mbind res_bind]. change (pick [r] 0) with r. rewrite Hsp. cbn [mbind res_bind]. unfold add_list. cbn [for_each].
    destruct (add_range_unsafe k r1 acc.1); [|done..]. cbn [mbind res_bind]. by destruct (add_range_unsafe k r2 acc.2).
  - intros d x acc Hx Hd'. rewrite (get_range_num_ok d x Hx). cbn [mbind res_bind].
    rewrite (proj2 (Nat.eqb_neq d k)) by done. simpl negb. cbv iota zeta. by apply split_other.
Qed.

End split.

Section measured.
Variables (row : bool) (s : Subarray).
Hypothesis Hs : numbered D row s.
Abbreviation ls := (major row s).

Lemma slab_between ss es : slab ls ss es → between (ranges_ s) (ord row ss) (ord row es).
Proof.
  intros Hsl. pose proof (major_grid D row s Hs) as Hg. destruct (slab_inside _ _ _ Hg Hsl) as [I1 I2].
  destruct (slab_le _ _ _ Hg Hsl) as [Hle _]. apply (inside_raw D row s Hs) in I1, I2.
  pose proof (Forall2_length _ _ _ I1). pose proof (Forall2_length _ _ _ I2). split_and!; [lia..|].
  intros d rs a b Hr Ha Hb. pose proof (Forall2_lookup_lr _ _ _ _ _ _ I1 Hr Ha). pose proof (Forall2_lookup_lr _ _ _ _ _ _ I2 Hr Hb).
  assert (Forall2 Z.le (ord row ss) (ord row es)) as Hl by (destruct row; [done|by apply forall2_rev]).
  pose proof (Forall2_lookup_lr _ _ _ _ _ _ Hl Ha Hb). simpl in *. lia.
Qed.

Lemma slab_measure g ss es : slab ls ss es →
  measure g (segs (ranges_ s) (ord row ss) (ord row es)) = sum_in (nd_measure g row s) (flat ls ss) (flat ls es).
Proof.
  intros Hsl. pose proof (major_grid D row s Hs) as Hg. pose proof (slab_between _ _ Hsl) as Hb.
  destruct (slab_inside _ _ _ Hg Hsl) as [I1 I2]. pose proof (Forall2_length _ _ _ I1) as L1. pose proof (Forall2_length _ _ _ I2) as L2.
  assert (length (vals g (ranges_ s)) = length ls) as Lv by (unfold vals, major, lens; by rewrite length_imap, length_ord, length_fmap).
  unfold nd_measure. rewrite slab_sum; [|done|by rewrite length_ord|done].
  rewrite box_cap by (rewrite length_ord; lia). rewrite segs_measure by done. rewrite <- (cap_ord row). f_equal.
  rewrite ord_zip by lia. destruct row; [done|]. symmetry. unfold ord. rewrite <- rev_zip_with; [by rewrite rev_involutive|].
  rewrite length_rev, length_zip_with. lia.
Qed.

(** The whole subarray is a slab. *)
Lemma whole_slab : slab ls (zeros ls) (tops ls).
Proof.
  destruct ls as [|l k] eqn:E; [done|]. pose proof (major_grid D row s Hs) as Hg. rewrite E in Hg.
  inversion Hg; subst. right. split_and!; done || lia.
Qed.

Lemma segs_all : segs (ranges_ s) (ord row (zeros ls)) (ord row (tops ls)) = ranges_ s.
Proof.
  assert (∀ f : Z → Z, ord row (f <$> ls) = f <$> lens (ranges_ s)) as E.
  { intros f. unfold major, ord. destruct row; [done|]. rewrite (map_rev f). apply rev_involutive. }
  unfold zeros, tops. rewrite !E. unfold segs, lens. apply list_eq. intros d.
  rewrite !lookup_zip_with, !list_lookup_fmap. destruct (ranges_ s !! d) as [rs|]; [|done]. simpl. by rewrite seg_all.
Qed.

Lemma whole_measure g : measure g (ranges_ s) = sum_in (nd_measure g row s) 0 (range_num s - 1).
Proof.
  rewrite <- segs_all at 1. rewrite (slab_measure g _ _ whole_slab), flat_zeros, flat_tops.
  by rewrite (major_cap A D HD row s Hs).
Qed.

End measured.

End parts.
