(* ===== verification/CellSlabs.v ===== *)
(** * Cell slabs (subarray/cell_slab_iter.cc, subarray/cell_slab.h)

    The iterator over the cell slabs of a dense read: runs of cells that are
    contiguous in the layout of the subarray and lie in one tile.  An iterator of
    type [T] takes the width [ty] of [T]; the floating-point instances, which no
    dense array has, are left out. *)

From stdpp Require Import gmap.
From S2P Require Import Prelude.
From S2P Require Import Enums.
From S2P Require Import Num.
From S2P Require Import NumFacts.
From S2P Require Import Range.
From S2P Require Import Loops.
From S2P Require Import Dimension.
From S2P Require Import DimensionProofs.
From S2P Require Import Domain.
From S2P Require Import DomainCells.
From S2P Require Import DomainProofs.
From S2P Require Import RTree.
From S2P Require Import ArraySchema.
From S2P Require Import Subarray.
From S2P Require Import SubarrayTiles.
From S2P Require Import SubarrayRanges.
From S2P Require Import SubarrayParts.
Local Open Scope Z_scope.

(** A part of a range that lies in one tile ([CellSlabIter::Range]). *)
Record SlabRange : Type := mkSlabRange { start_ : Z; end_ : Z; tile_coord_ : Z }.

(** [tile_coords_] is the array that the pointer designates, [None] the null pointer. *)
Record CellSlab : Type := mkSlab { slab_tile_coords_ : option (list Z); coords_ : list Z; length_ : Z }.

(** The two [aux_tile_coords_] are scratch memory and left out. *)
Record CellSlabIter : Type := mkIter {
  cell_slab_ : CellSlab;
  range_coords_ : list Z;
  cell_slab_coords_ : list Z;
  cell_slab_lengths_ : list Z;
  at_end_ : bool;
  slab_ranges_ : list (list SlabRange)
}.

(** [CellSlab()] and [reset]. *)
Definition no_slab : CellSlab := mkSlab None [] u64_max.

(** [CellSlabIter()] and [CellSlabIter(subarray)]; the subarray is an argument of the operations. *)
Definition make_iter : CellSlabIter := mkIter no_slab [] [] [] true [].

Section iterator.
Context {F : Type} `{!FragmentMeta F}.
Variable A : Array F.
Variable ty : ctype.

Abbreviation S := (array_schema A).

(** ** Initialization *)

Definition sanity_check (s : Subarray) : res unit :=
  if negb (bool_decide (Subarray.layout_ s = ROW_MAJOR)) && negb (bool_decide (Subarray.layout_ s = COL_MAJOR)) then
    Err SC_CellSlabIterError "Unsupported subarray layout; the iterator supports only row-major and column-major layouts"
  else
    dim0 ← dimension_at S 0;
    match num_of (type_ dim0) with
    | Some (NInt ty') =>
        if bool_decide (ty' = ty) then Ok ()
        else Err SC_CellSlabIterError "Datatype mismatch between cell slab iterator and subarray"
    | _ => UB
    end.

(** [T t = (v - dim_domain_start) / tile_extent]. *)
Definition tile_of (v dim_domain_start tile_extent : Z) : res Z :=
  x ← subT ty v dim_domain_start; q ← divT ty x tile_extent; Ok (conv ty q).

(** One tile of [create_ranges]: the ranges so far, and the start of the next one. *)
Definition cut_tile (tile_extent dim_domain_start i : Z) (acc : list SlabRange * Z) : res (list SlabRange * Z) :=
  a ← addT ty i 1;
  b ← mulT ty a tile_extent;
  c ← addT ty b dim_domain_start;
  e ← subT ty c 1;
  let end_ := conv ty e in
  x ← addT ty end_ 1;
  Ok (acc.1 ++ [mkSlabRange acc.2 end_ i], conv ty x).

Definition create_ranges (range : Z * Z) (tile_extent dim_domain_start : Z) (ranges : list SlabRange) : res (list SlabRange) :=
  tile_start ← tile_of range.1 dim_domain_start tile_extent;
  tile_end ← tile_of range.2 dim_domain_start tile_extent;
  if tile_start =? tile_end then Ok (ranges ++ [mkSlabRange range.1 range.2 tile_start])
  else
    '(ranges, start) ← for_each (zseq tile_start (tile_end - 1)) (cut_tile tile_extent dim_domain_start) (ranges, range.1);
    Ok (ranges ++ [mkSlabRange start range.2 tile_end]).

(** The ranges of dimension [d], added to the ones that are there. *)
Definition init_dim (s : Subarray) (d : nat) (ranges : list SlabRange) : res (list SlabRange) :=
  D ← domain S;
  dim_dom ← dom0_at ty D d;
  range_num ← get_range_num A s d;
  tile_extent ← extent_at ty D d;
  for_each (zseq 0 (range_num - 1)) (λ j ranges,
    r ← get_range A s d j;
    range ← rd2 (NInt ty) r;
    create_ranges range tile_extent dim_dom ranges) ranges.

Definition init_ranges (s : Subarray) (ranges : list (list SlabRange)) : res (list (list SlabRange)) :=
  n ← dims A;
  let ranges := vresize [] (Z.of_nat n) ranges in
  mapM (λ d, rs ← idx ranges d; init_dim s d rs) (seq 0 n).

Definition init_coords (ranges : list (list SlabRange)) : res (list Z * list Z) :=
  n ← dims A;
  coords ← mapM (λ i, rs ← idx ranges i; r ← idx rs 0; Ok (start_ r)) (seq 0 n);
  Ok (replicate n 0, coords).

(** The dimension along which the cells of a slab lie. *)
Definition slab_dim (s : Subarray) (n : nat) : nat :=
  if bool_decide (Subarray.layout_ s = ROW_MAJOR) then (n - 1)%nat else O.

Definition init_cell_slab_lengths (s : Subarray) (ranges : list (list SlabRange)) : res (list Z) :=
  n ← dims A;
  rs ← idx ranges (slab_dim s n);
  mapM (λ r, x ← subT ty (end_ r) (start_ r); y ← addT ty x 1; Ok (conv U64 y)) rs.

(** [v[i]] for an index of type [T]. *)
Definition at_T {X} (v : list X) (i : Z) : res X := if i <? 0 then UB else idx v (Z.to_nat i).

Definition update_cell_slab (s : Subarray) (it : CellSlabIter) : res CellSlabIter :=
  n ← dims A;
  tiles ← mapM (λ i, rs ← idx (slab_ranges_ it) i; c ← idx (range_coords_ it) i; r ← at_T rs c; Ok (tile_coord_ r)) (seq 0 n);
  cs ← mapM (idx (cell_slab_coords_ it)) (seq 0 n);
  p ← tile_coords_ptr ty s tiles;
  c ← idx (range_coords_ it) (slab_dim s n);
  len ← at_T (cell_slab_lengths_ it) c;
  Ok (mkIter (mkSlab p cs len) (range_coords_ it) (cell_slab_coords_ it) (cell_slab_lengths_ it) (at_end_ it) (slab_ranges_ it)).

Definition started (it : CellSlabIter) : CellSlabIter :=
  mkIter (cell_slab_ it) (range_coords_ it) (cell_slab_coords_ it) (cell_slab_lengths_ it) false (slab_ranges_ it).

(** [begin], [s] the subarray of the iterator, if it has one; the statuses after the first
    check are those of accesses in bounds. *)
Definition begin_ (s : option Subarray) : M CellSlabIter unit := fun it =>
  match s with
  | None => (Ok (), it)
  | Some s =>
      match (sanity_check s;;
             ranges ← init_ranges s (slab_ranges_ it);
             '(range_coords, coords) ← init_coords ranges;
             lengths ← init_cell_slab_lengths s ranges;
             it ← update_cell_slab s (mkIter (cell_slab_ it) range_coords coords lengths (at_end_ it) ranges);
             Ok (started it)) with
      | Ok it' => (Ok (), it')
      | Err c e => (Err c e, it)
      | UB => (UB, it)
      end
  end.

(** ** Iteration *)

Definition with_coords (it : CellSlabIter) (rcs cs : list Z) : CellSlabIter :=
  mkIter (cell_slab_ it) rcs cs (cell_slab_lengths_ it) (at_end_ it) (slab_ranges_ it).
Definition ended (it : CellSlabIter) : CellSlabIter :=
  mkIter (cell_slab_ it) (range_coords_ it) (cell_slab_coords_ it) (cell_slab_lengths_ it) true (slab_ranges_ it).

(** Moving on along dimension [i], by a whole slab or by one cell: the iterator, and
    whether the dimension has a range left. *)
Definition move (i : nat) (by_slab : bool) (it : CellSlabIter) : res (CellSlabIter * bool) :=
  c ← idx (cell_slab_coords_ it) i;
  rc ← idx (range_coords_ it) i;
  rs ← idx (slab_ranges_ it) i;
  step ← (if by_slab then at_T (cell_slab_lengths_ it) rc else Ok 1);
  let c := conv ty (c + step) in
  cs ← upd (cell_slab_coords_ it) i c;
  r ← at_T rs rc;
  let size := conv ty (zlen rs) in
  if end_ r <? c then
    x ← addT ty rc 1;
    let rc := conv ty x in
    rcs ← upd (range_coords_ it) i rc;
    if rc <? size then r ← at_T rs rc; cs ← upd cs i (start_ r); Ok (with_coords it rcs cs, true)
    else Ok (with_coords it rcs cs, false)
  else Ok (with_coords it (range_coords_ it) cs, rc <? size).

(** [advance_row] and [advance_col]: [ds] is the order of the dimensions, the one
    of the slabs first. *)
Fixpoint advance (ds : list nat) (by_slab : bool) (it : CellSlabIter) : res CellSlabIter :=
  match ds with
  | [] => Ok it
  | i :: ds =>
      '(it, more) ← move i by_slab it;
      if more : bool then Ok it
      else
        match ds with
        | [] => Ok (ended it)
        | _ =>
            rs ← idx (slab_ranges_ it) i;
            r ← idx rs 0;
            rcs ← upd (range_coords_ it) i 0;
            cs ← upd (cell_slab_coords_ it) i (start_ r);
            advance ds false (with_coords it rcs cs)
        end
  end.

(** [operator++]. *)
Definition next_slab (s : Subarray) (it : CellSlabIter) : res CellSlabIter :=
  if at_end_ it then Ok it
  else
    n ← dims A;
    it ← advance (if bool_decide (Subarray.layout_ s = ROW_MAJOR) then rev (seq 0 n) else seq 0 n) true it;
    if at_end_ it then
      Ok (mkIter no_slab (range_coords_ it) (cell_slab_coords_ it) (cell_slab_lengths_ it) true (slab_ranges_ it))
    else update_cell_slab s it.

(** [for (; !iter.end(); ++iter)]: the slabs, in at most [fuel] rounds. *)
Fixpoint slabs (fuel : nat) (s : Subarray) (it : CellSlabIter) : res (list CellSlab) :=
  if at_end_ it then Ok []
  else
    match fuel with
    | O => UB
    | Datatypes.S fuel => it' ← next_slab s it; l ← slabs fuel s it'; Ok (cell_slab_ it :: l)
    end.

(** [iter.begin()] and the loop. *)
Definition cell_slabs (fuel : nat) (s : Subarray) : res (list CellSlab) :=
  match begin_ (Some s) make_iter with
  | (Ok _, it) => slabs fuel s it
  | (Err c e, _) => Err c e
  | (UB, _) => UB
  end.

End iterator.
