(* ===== verification/CellSlabIteration.v ===== *)
(** * Iterating over cell slabs (subarray/cell_slab_iter.cc)

    Tuples in lexicographic order and the odometer that enumerates them; the parts a
    range is cut into; the stops of each dimension, and that the iterator visits their
    tuples, one per step, and ends after the last. *)

From stdpp Require Import gmap.
From S2P Require Import Prelude.
From S2P Require Import Enums.
From S2P Require Import Num.
From S2P Require Import NumFacts.
From S2P Require Import Range.
From S2P Require Import Loops.
From S2P Require Import Dimension.
From S2P Require Import DimensionProofs.
From S2P Require Import Domain.
From S2P Require Import DomainCells.
From S2P Require Import DomainProofs.
From S2P Require Import RTree.
From S2P Require Import ArraySchema.
From S2P Require Import Subarray.
From S2P Require Import SubarrayTiles.
From S2P Require Import SubarrayRanges.
From S2P Require Import SubarrayParts.
From S2P Require Import CellSlabs.
Local Open Scope Z_scope.

(** ** Tuples and odometers *)

(** All tuples with one element of each list, the last one varying fastest. *)
Fixpoint tuples {X : Type} (ls : list (list X)) : list (list X) :=
  match ls with [] => [[]] | l :: ls => l ≫= λ x, cons x <$> tuples ls end.

Lemma bind_assoc {X Y W : Type} (f : X → list Y) (g : Y → list W) l : (l ≫= f) ≫= g = l ≫= λ x, f x ≫= g.
Proof. induction l as [|x l IH]; [done|]. rewrite !bind_cons, bind_app, IH. done. Qed.

Lemma fmap_bind {X Y W : Type} (f : X → list Y) (g : Y → W) l : g <$> (l ≫= f) = l ≫= λ x, g <$> f x.
Proof. induction l as [|x l IH]; [done|]. rewrite !bind_cons, fmap_app, IH. done. Qed.

Lemma bind_ext_in {X Y : Type} (f g : X → list Y) l : (∀ x, x ∈ l → f x = g x) → l ≫= f = l ≫= g.
Proof.
  induction l as [|x l IH]; intros H; [done|]. rewrite !bind_cons, (H x), IH; [done| |left].
  intros y Hy. apply H. by right.
Qed.

Lemma tuples_snoc {X : Type} (ls : list (list X)) (l : list X) :
  tuples (ls ++ [l]) = tuples ls ≫= λ t, (λ x, t ++ [x]) <$> l.
Proof.
  induction ls as [|k ls IH].
  - cbn. rewrite app_nil_r. induction l as [|x l IH]; [done|]. cbn in *. by rewrite IH.
  - simpl tuples. rewrite IH, bind_assoc. apply list_bind_ext; [|done]. intros x. rewrite fmap_bind, list_fmap_bind.
    apply list_bind_ext; [|done]. intros t. by rewrite <- list_fmap_compose.
Qed.

Lemma tuples_fmap {X Y : Type} (f : X → Y) (ls : list (list X)) : tuples (fmap (M := list) f <$> ls) = fmap (M := list) f <$> tuples ls.
Proof.
  induction ls as [|l ls IH]; [done|]. rewrite fmap_cons. cbn [tuples]. rewrite IH, fmap_bind, list_fmap_bind.
  apply list_bind_ext; [|done]. intros x. unfold compose. by rewrite <- !list_fmap_compose.
Qed.

(** The element of every wheel at its digit. *)
Definition sel {X : Type} `{!Inhabited X} (ws : list (list X)) (cs : list Z) : list X :=
  zip_with (λ w c, w !!! Z.to_nat c) ws cs.

Lemma seqZ_rows l m : 0 ≤ l → 0 ≤ m → seqZ 0 (l * m) = seqZ 0 l ≫= λ c, (λ j, c * m + j) <$> seqZ 0 m.
Proof.
  intros Hl Hm. pattern l. apply natlike_ind; [|intros x Hx IH|done].
  - by rewrite Z.mul_0_l.
  - rewrite Z.mul_succ_l, seqZ_app, IH by nia. unfold Z.succ. rewrite seqZ_app, bind_app by lia. simpl.
    rewrite app_nil_r, !Z.add_0_l. f_equal. rewrite fmap_add_seqZ. by rewrite Z.add_0_r.
Qed.

Lemma tuples_digits {X : Type} `{!Inhabited X} (ws : list (list X)) :
  tuples ws = (λ i, sel ws (dig (zlen <$> ws) i)) <$> seqZ 0 (cap (zlen <$> ws)).
Proof.
  induction ws as [|w ws IH]; [done|]. cbn [tuples fmap list_fmap cap]. fold (zlen <$> ws).
  assert (0 ≤ cap (zlen <$> ws)) as Hc by (clear; induction ws as [|w ws IH]; [done|]; apply Z.mul_nonneg_nonneg; [unfold zlen; lia|exact IH]).
  rewrite seqZ_rows by (unfold zlen in *; lia). set (m := cap (zlen <$> ws)) in *.
  assert (w = (λ c, w !!! Z.to_nat c) <$> seqZ 0 (zlen w)) as E.
  { apply list_eq_same_length with (length w); [rewrite length_fmap, length_seqZ; unfold zlen; lia|done|].
    intros i x y Hi Hx Hy. apply list_lookup_fmap_Some in Hy as (c & -> & Hc'). apply lookup_seqZ in Hc' as [-> _].
    rewrite Z.add_0_l, Nat2Z.id. by rewrite (list_lookup_total_correct _ _ _ Hx). }
  rewrite E at 1. rewrite list_fmap_bind, fmap_bind. apply list_bind_ext; [|done]. intros c. unfold compose.
  rewrite IH, <- !list_fmap_compose. apply list_fmap_ext. intros k i Hi. unfold compose. apply lookup_seqZ in Hi as [-> Hi].
  cbn [dig sel zip_with]. fold m. rewrite (Z.add_comm (c * m)), Z.div_add, Z.div_small, Z.mod_add, Z.mod_small by lia.
  done.
Qed.

(** An odometer: [adv k] moves the digit [k] on, or resets it and moves on the digit
    before it. Starting at the last digit, it counts. *)
Section odometer.
Context {St : Type} (adv : nat → St → res St) (st : list Z → St) (ls : list Z).

Hypothesis Hls : grid ls.
Hypothesis Hstep : ∀ l1 l l2 c1 c c2, ls = l1 ++ l :: l2 → SubarrayRanges.inside l1 c1 → SubarrayRanges.inside l2 c2 → 0 ≤ c → c + 1 < l →
  adv (length l1) (st (c1 ++ c :: c2)) = Ok (st (c1 ++ c + 1 :: c2)).
Hypothesis Hcarry : ∀ l1 x l l2 c1 c2, ls = (l1 ++ [x]) ++ l :: l2 → SubarrayRanges.inside (l1 ++ [x]) c1 → SubarrayRanges.inside l2 c2 →
  adv (Datatypes.S (length l1)) (st (c1 ++ l - 1 :: c2)) = adv (length l1) (st (c1 ++ 0 :: c2)).

Lemma odometer_carry k : ∀ l1 l l2 c1 c c2, ls = l1 ++ l :: l2 → length l1 = k →
  SubarrayRanges.inside l1 c1 → 0 ≤ c < l → SubarrayRanges.inside l2 c2 →
  (flat l1 c1 * l + c + 1 < cap l1 * l →
     adv k (st (c1 ++ c :: c2)) = Ok (st (dig (l1 ++ [l]) (flat l1 c1 * l + c + 1) ++ c2))) ∧
  (∀ h t, c1 ++ [c] = tops (l1 ++ [l]) → ls = h :: t → c2 = zeros l2 → adv k (st (c1 ++ c :: c2)) = adv 0 (st (h - 1 :: zeros t))).
Proof.
  induction k as [|k IH]; intros l1 l l2 c1 c c2 El L1 Hin Hc H2;
    pose proof (Forall2_length _ _ _ Hin) as L3; pose proof (inside_grid _ _ Hin) as Hg; pose proof (flat_bound _ _ Hin) as Hb.
  - destruct l1; [|done]. inversion Hin; subst c1. simpl. split.
    + intros Hf. rewrite Z.div_1_r. apply (Hstep [] l l2 [] c c2); try done; lia.
    + intros h t [= ->] E ->. rewrite E in El. by injection El as -> ->.
  - destruct (decide (c + 1 = l)) as [Ec|Ec].
    + destruct (exists_last (l := l1)) as (l0 & x & ->); [by intros ->|]. rewrite length_app in L1. simpl in L1.
      replace c with (l - 1) by lia. replace (Datatypes.S k) with (Datatypes.S (length l0)) by lia. rewrite (Hcarry l0 x l l2) by done.
      apply Forall2_app_inv_l in Hin as (c0 & cx & Hin0 & Hx & ->). apply Forall2_cons_inv_l in Hx as (y & cy & Hy & ->%Forall2_nil_inv_l & ->).
      pose proof (Forall2_length _ _ _ Hin0) as L0. rewrite flat_snoc, cap_app in * by lia. simpl in Hb.
      replace (length l0) with k by lia. rewrite <- app_assoc. simpl.
      destruct (IH l0 x (l :: l2) c0 y (0 :: c2)) as [I1 I2]; [by rewrite <- app_assoc in El|lia|done|done|by constructor; [lia|]|].
      split.
      * intros Hf. rewrite I1 by (simpl in Hf; nia). rewrite (dig_snoc (l0 ++ [x]) l); [|done|lia|rewrite cap_app, cap_app; simpl in *; nia].
        replace ((flat l0 c0 * x + y) * l + (l - 1) + 1) with ((flat l0 c0 * x + y + 1) * l) by lia.
        rewrite Z.div_mul, Z.mod_mul by lia. by rewrite <- app_assoc.
      * intros h t Et Eh ->. apply (I2 h t); [|done|done]. unfold tops in Et. rewrite fmap_app in Et. by apply app_inj_tail in Et as [Et _].
    + split.
      * intros Hf. replace (Datatypes.S k) with (length l1) by lia. rewrite (Hstep l1 l l2) by (done || lia).
        rewrite dig_snoc; [|done|lia|rewrite cap_app; simpl; nia].
        rewrite <- Z.add_assoc, (Z.add_comm (flat l1 c1 * l)), Z.div_add, Z.div_small, Z.add_0_l, (dig_flat _ _ Hin) by lia.
        rewrite Z.mod_add, Z.mod_small by lia. by rewrite <- app_assoc.
      * intros h t Et. exfalso. unfold tops in Et. rewrite fmap_app in Et. apply app_inj_tail in Et as [_ Et]. lia.
Qed.

Lemma odometer_next i : 0 ≤ i → i + 1 < cap ls → adv (length ls - 1) (st (dig ls i)) = Ok (st (dig ls (i + 1))).
Proof.
  intros Hi Hi1. pose proof (dig_inside ls i Hls ltac:(lia)) as Hin. pose proof (flat_dig ls i Hls ltac:(lia)) as Ef.
  destruct (exists_last (l := ls)) as (l1 & l & E); [intros E0; rewrite E0 in Hi1; simpl in Hi1; lia|]. rewrite E in Hi1, Hin, Ef |- *.
  apply Forall2_app_inv_l in Hin as (c1 & cx & Hin & Hx & Ed). apply Forall2_cons_inv_l in Hx as (c & cy & Hc & ->%Forall2_nil_inv_l & ->).
  pose proof (Forall2_length _ _ _ Hin) as L1. rewrite Ed in Ef |- *. rewrite flat_snoc in Ef by lia. rewrite cap_app in Hi1. simpl in Hi1.
  destruct (odometer_carry (length l1) l1 l [] c1 c []) as [H _]; try done; [by constructor|].
  rewrite length_app. simpl. rewrite Nat.add_sub, H by lia. by rewrite Ef, app_nil_r.
Qed.

Lemma odometer_end h t : ls = h :: t → adv (length ls - 1) (st (dig ls (cap ls - 1))) = adv 0 (st (h - 1 :: zeros t)).
Proof.
  intros Eh. rewrite <- (flat_tops ls), (dig_flat _ _ (inside_tops _ Hls)).
  destruct (exists_last (l := ls)) as (l1 & l & E); [by rewrite Eh|].
  pose proof (inside_tops _ Hls) as Hin. rewrite E in Hin |- *. unfold tops in Hin |- *. rewrite fmap_app in Hin |- *. simpl in Hin |- *.
  apply Forall2_app_inv in Hin as [Hin Hx]; [|by rewrite length_fmap]. apply Forall2_cons_1 in Hx as [Hx _].
  destruct (odometer_carry (length l1) l1 l [] (tops l1) (l - 1) []) as [_ H]; try done; [by constructor|].
  rewrite length_app. simpl. rewrite Nat.add_sub. apply (H h t); [|done|done]. unfold tops. by rewrite fmap_app.
Qed.

End odometer.

Lemma elem_tuples {X : Type} (ls : list (list X)) t : t ∈ tuples ls ↔ Forall2 elem_of t ls.
Proof.
  revert t. induction ls as [|l ls IH]; intros t; simpl.
  - rewrite list_elem_of_singleton. split; [intros ->; constructor|by intros ->%Forall2_nil_inv_r].
  - rewrite list_elem_of_bind. split.
    + intros (x & Ht & Hx). apply list_elem_of_fmap in Ht as (t' & -> & Ht'). constructor; [done|by apply IH].
    + intros H. apply Forall2_cons_inv_r in H as (x & t' & Hx & Ht' & ->). exists x. split; [|done].
      apply list_elem_of_fmap. exists t'. split; [done|by apply IH].
Qed.

Lemma mapM_ord {Y : Type} row n (f : nat → res Y) (ys : list Y) : length ys = n →
  (∀ k y, ys !! k = Some y → f (pos row n k) = Ok y) → mapM f (seq 0 n) = Ok (ord row ys).
Proof.
  intros L H. apply mapM_ok, Forall2_same_length_lookup. rewrite length_seq, length_ord. split; [done|].
  intros d d' y Hd Hy. apply lookup_seq in Hd as [-> Hd]. simpl Nat.add.
  assert (d = pos row n (pos row n d)) as E by (destruct row; simpl; lia). rewrite E. apply H.
  rewrite E, <- L in Hy. rewrite ord_lookup in Hy by (rewrite L; destruct row; simpl; lia). by rewrite L in Hy.
Qed.

Lemma ord_at {X : Type} row (l : list X) n d : length l = n → (d < n)%nat → ord row l !! d = l !! pos row n d.
Proof.
  intros <- Hd. rewrite <- (ord_lookup row l (pos row (length l) d)) by (destruct row; simpl; lia). f_equal. destruct row; simpl; lia.
Qed.

(** ** The parts of a range *)

(** The part of [[a, b]] in tile [j]. *)
Definition part (g : axis) (p : Z * Z) (j : Z) : SlabRange :=
  mkSlabRange (Z.max p.1 (tile_lo (a_lo g) (a_ext g) j)) (Z.min p.2 (tile_hi (a_lo g) (a_ext g) j)) j.

Definition tile_at (g : axis) (c : Z) : Z := (c - a_lo g) / a_ext g.

Definition parts (g : axis) (p : Z * Z) : list SlabRange := part g p <$> zseq (tile_at g p.1) (tile_at g p.2).

(** A range of the axis. *)
Definition on_axis (g : axis) (p : Z * Z) : Prop := a_lo g ≤ p.1 ∧ p.1 ≤ p.2 ∧ p.2 ≤ a_hi g.

(** The values of a range, and of a part. *)
Definition values (p : Z * Z) : list Z := zseq p.1 p.2.
Definition part_values (r : SlabRange) : list Z := zseq (start_ r) (end_ r).

Lemma zseq_seqZ a b : zseq a b = seqZ a (b - a + 1).
Proof. unfold zseq, seqZ. apply list_fmap_ext. intros k i _. lia. Qed.

Lemma zseq_app a b c : a ≤ b + 1 → b ≤ c → zseq a c = zseq a b ++ zseq (b + 1) c.
Proof.
  intros H1 H2. rewrite !zseq_seqZ. replace (c - a + 1) with ((b - a + 1) + (c - (b + 1) + 1)) by lia.
  rewrite seqZ_app by lia. do 2 f_equal. lia.
Qed.

Section axis.
Variables (ty : ctype) (dim : Dimension.t) (g : axis).
Hypothesis Hax : axis_ok ty dim g.

Lemma ext_pos : 0 < a_ext g.
Proof. destruct Hax as [Ht _]. apply Ht. Qed.

Lemma tile_at_bounds c : tile_lo (a_lo g) (a_ext g) (tile_at g c) ≤ c ≤ tile_hi (a_lo g) (a_ext g) (tile_at g c).
Proof.
  pose proof ext_pos as He. unfold tile_lo, tile_hi, tile_at.
  pose proof (Z.mul_div_le (c - a_lo g) _ He). pose proof (Z.mul_succ_div_gt (c - a_lo g) _ He). lia.
Qed.

Lemma tile_at_in j c : tile_lo (a_lo g) (a_ext g) j ≤ c ≤ tile_hi (a_lo g) (a_ext g) j → tile_at g c = j.
Proof.
  pose proof ext_pos. unfold tile_lo, tile_hi, tile_at. intros Hc. symmetry. apply (Z.div_unique _ _ j (c - a_lo g - j * a_ext g)); lia.
Qed.

Lemma tile_at_mono c d : c ≤ d → tile_at g c ≤ tile_at g d.
Proof. intros. apply Z.div_le_mono; [apply ext_pos|lia]. Qed.

Lemma tile_hi_lt j k : j < k → tile_hi (a_lo g) (a_ext g) j < tile_lo (a_lo g) (a_ext g) k.
Proof. pose proof ext_pos. unfold tile_lo, tile_hi. intros. nia. Qed.

(** The parts hold the values of the range, in order. *)
Lemma parts_values p : on_axis g p → parts g p ≫= part_values = values p.
Proof.
  intros (_ & Hab & _). unfold parts, values. pose proof (tile_at_mono _ _ Hab) as Hle.
  pose proof (tile_at_bounds p.1) as Ha. pose proof (tile_at_bounds p.2) as Hb. set (ja := tile_at g p.1) in *. set (jb := tile_at g p.2) in *.
  assert (∀ n j, j + Z.of_nat n = jb → ja ≤ j → (part g p <$> zseq j jb) ≫= part_values = zseq (Z.max p.1 (tile_lo (a_lo g) (a_ext g) j)) p.2) as H.
  { induction n as [|n IH]; intros j Hj Hja; rewrite (zseq_cons j jb) by lia; rewrite fmap_cons, bind_cons; unfold part_values at 1; simpl start_; simpl end_.
    - rewrite (zseq_nil (j + 1)) by lia. simpl. rewrite app_nil_r. replace jb with j in Hb by lia. f_equal. lia.
    - rewrite IH by lia. pose proof (tile_hi_lt j jb ltac:(lia)). pose proof (tile_hi_lt ja j) as H1.
      assert (tile_lo (a_lo g) (a_ext g) j ≤ tile_hi (a_lo g) (a_ext g) j) by (pose proof ext_pos; unfold tile_lo, tile_hi; nia).
      assert (p.1 ≤ tile_hi (a_lo g) (a_ext g) j) by (destruct (decide (ja = j)) as [->|]; lia).
      assert (tile_lo (a_lo g) (a_ext g) (j + 1) = tile_hi (a_lo g) (a_ext g) j + 1) as E by (unfold tile_lo, tile_hi; lia).
      rewrite E. rewrite (Z.min_r p.2) by lia. rewrite (Z.max_r p.1 (_ + 1)) by lia. symmetry. apply zseq_app; lia. }
  rewrite (H (Z.to_nat (jb - ja)) ja) by lia. f_equal. lia.
Qed.

(** A part is not empty and lies in its tile. *)
Lemma part_tile p r : on_axis g p → r ∈ parts g p →
  p.1 ≤ start_ r ∧ start_ r ≤ end_ r ∧ end_ r ≤ p.2 ∧ tile_lo (a_lo g) (a_ext g) (tile_coord_ r) ≤ start_ r ∧ end_ r ≤ tile_hi (a_lo g) (a_ext g) (tile_coord_ r) ∧
  tile_at g p.1 ≤ tile_coord_ r ≤ tile_at g p.2.
Proof.
  intros (Hlo & Hab & _) Hr. apply list_elem_of_fmap in Hr as (j & -> & Hj%zseq_in). simpl.
  pose proof (tile_at_bounds p.1) as Ha. pose proof (tile_at_bounds p.2) as Hb. pose proof ext_pos.
  assert (p.1 ≤ tile_hi (a_lo g) (a_ext g) j) by (destruct (decide (tile_at g p.1 = j)) as [<-|]; [lia|pose proof (tile_hi_lt (tile_at g p.1) j); unfold tile_hi, tile_lo in *; nia]).
  assert (tile_lo (a_lo g) (a_ext g) j ≤ p.2) by (destruct (decide (j = tile_at g p.2)) as [->|]; [lia|pose proof (tile_hi_lt j (tile_at g p.2)); unfold tile_hi, tile_lo in *; nia]).
  assert (0 ≤ tile_at g p.1) by (apply Z.div_pos; lia). unfold tile_lo, tile_hi in *. split_and!; try lia; nia.
Qed.

Lemma parts_nonempty p : on_axis g p → parts g p ≠ [].
Proof.
  intros (_ & Hab & _). unfold parts. pose proof (tile_at_mono _ _ Hab). rewrite zseq_cons by lia. done.
Qed.

(** ** [create_ranges] *)

Hypothesis Hmax : a_hi g < tmax ty.

Lemma axis_ctype c : a_lo g ≤ c ≤ a_hi g + 1 → in_ctype ty c.
Proof.
  destruct Hax as [Ht _]. destruct (tiled_domain _ _ _ _ _ Ht) as (_ & Hl & Hh). simpl in Hl, Hh. unfold in_ctype in *. lia.
Qed.

Lemma tile_of_ok c : a_lo g ≤ c ≤ a_hi g → tile_of ty c (a_lo g) (a_ext g) = Ok (tile_at g c) ∧ in_ctype ty (tile_at g c) ∧ 0 ≤ tile_at g c.
Proof.
  intros Hc. destruct Hax as [Ht Hr]. pose proof ext_pos as He.
  assert (in_ctype ty (c - a_lo g)) as H1 by (apply (in_nonneg ty _ _ Hr); lia).
  assert (0 ≤ tile_at g c ≤ c - a_lo g) as H2.
  { unfold tile_at. split; [apply Z.div_pos; lia|]. apply Z.div_le_upper_bound; nia. }
  assert (in_ctype ty (tile_at g c)) as H3 by (apply (in_nonneg ty _ _ H1); lia).
  unfold tile_of. rewrite subT_ok by (by apply in_promote). cbn [mbind res_bind].
  rewrite divT_ok; [|lia|done|by apply in_promote]. cbn [mbind res_bind]. fold (tile_at g c). rewrite conv_id by done. split_and!; done || lia.
Qed.

Lemma cut_tile_ok p j acc s : on_axis g p → 0 ≤ j < tile_at g p.2 →
  cut_tile ty (a_ext g) (a_lo g) j (acc, s) = Ok (acc ++ [mkSlabRange s (tile_hi (a_lo g) (a_ext g) j) j], tile_lo (a_lo g) (a_ext g) (j + 1)).
Proof.
  intros (Hlo & Hab & Hhi) Hj. pose proof (tile_hi_lt j (tile_at g p.2) ltac:(lia)) as H1. pose proof (tile_at_bounds p.2) as Hb.
  pose proof ext_pos as He. destruct Hax as [Ht Hr]. unfold tile_lo, tile_hi in *.
  assert (in_ctype ty ((j + 1) * a_ext g)) as C1 by (apply (in_nonneg ty _ _ Hr); nia).
  assert (in_ctype ty (j + 1)) as C2 by (apply (in_nonneg ty _ _ C1); nia).
  assert (in_ctype ty ((j + 1) * a_ext g + a_lo g)) as C3 by (apply axis_ctype; nia).
  assert (in_ctype ty ((j + 1) * a_ext g + a_lo g - 1)) as C4 by (apply axis_ctype; nia).
  unfold cut_tile. rewrite addT_ok by (by apply in_promote). cbn [mbind res_bind]. rewrite mulT_ok by (by apply in_promote). cbn [mbind res_bind].
  rewrite addT_ok by (by apply in_promote). cbn [mbind res_bind]. rewrite subT_ok by (by apply in_promote). cbn [mbind res_bind].
  rewrite (conv_id ty ((j + 1) * a_ext g + a_lo g - 1)) by done.
  assert ((j + 1) * a_ext g + a_lo g - 1 + 1 = (j + 1) * a_ext g + a_lo g) as E by lia.
  rewrite addT_ok by (rewrite E; by apply in_promote). rewrite E. cbn [mbind res_bind fst snd]. rewrite conv_id by done.
  by rewrite (Z.add_comm (a_lo g)).
Qed.

Lemma create_ranges_ok p acc : on_axis g p → create_ranges ty p (a_ext g) (a_lo g) acc = Ok (acc ++ parts g p).
Proof.
  intros Hp. pose proof Hp as (Hlo & Hab & Hhi). unfold create_ranges.
  destruct (tile_of_ok p.1) as (-> & C1 & P1); [lia|]. destruct (tile_of_ok p.2) as (-> & C2 & P2); [lia|]. cbn [mbind res_bind].
  pose proof (tile_at_mono _ _ Hab) as Hle. pose proof (tile_at_bounds p.1) as Ha. pose proof (tile_at_bounds p.2) as Hb.
  unfold parts, part. set (ja := tile_at g p.1) in *. set (jb := tile_at g p.2) in *. destruct (Z.eqb_spec ja jb) as [E|E].
  - rewrite E. rewrite zseq_cons, zseq_nil by lia. simpl. rewrite E in Ha. by rewrite Z.max_l, Z.min_l by lia.
  - assert (∀ n j acc, j + Z.of_nat n = jb → ja ≤ j → for_each (zseq j (jb - 1)) (cut_tile ty (a_ext g) (a_lo g)) (acc, Z.max p.1 (tile_lo (a_lo g) (a_ext g) j)) =
      Ok (acc ++ (part g p <$> zseq j (jb - 1)), Z.max p.1 (tile_lo (a_lo g) (a_ext g) jb))) as H.
    { induction n as [|n IH]; intros j ac Hj Hja.
      - rewrite zseq_nil by lia. simpl. rewrite app_nil_r. by replace j with jb by lia.
      - rewrite zseq_cons by lia. cbn [for_each]. rewrite (cut_tile_ok p) by (done || lia). cbn [mbind res_bind].
        assert (tile_hi (a_lo g) (a_ext g) j ≤ p.2) by (pose proof (tile_hi_lt j jb); lia).
        assert (p.1 ≤ tile_lo (a_lo g) (a_ext g) (j + 1)) by (pose proof (tile_hi_lt ja (j + 1)); lia).
        pose proof (IH (j + 1) (ac ++ [mkSlabRange (Z.max p.1 (tile_lo (a_lo g) (a_ext g) j)) (tile_hi (a_lo g) (a_ext g) j) j]) ltac:(lia) ltac:(lia)) as IHn.
        rewrite (Z.max_r p.1 (tile_lo (a_lo g) (a_ext g) (j + 1))) in IHn by done. rewrite IHn, <- app_assoc, fmap_cons. unfold part at 2. by rewrite (Z.min_r p.2) by done. }
    pose proof (H (Z.to_nat (jb - ja)) ja acc ltac:(lia) ltac:(lia)) as E1. rewrite Z.max_l in E1 by lia. rewrite E1. cbn [mbind res_bind].
    rewrite (zseq_app ja (jb - 1) jb) by lia. replace (jb - 1 + 1) with jb by lia. rewrite (zseq_cons jb jb), (zseq_nil (jb + 1)) by lia.
    rewrite fmap_app, <- app_assoc. simpl. unfold part. by rewrite (Z.min_l p.2) by lia.
Qed.

End axis.

(** ** The stops of the iterator *)

(** A position along one dimension: the number of a part, a coordinate in it, and the
    part. *)
Record Stop : Type := mkStop { s_idx : Z; s_coord : Z; s_part : SlabRange }.

#[export] Instance Stop_inhabited : Inhabited Stop := populate (mkStop 0 0 (mkSlabRange 0 0 0)).

(** Along the dimension of the slabs the iterator stops at the start of every part, along
    the other ones at every coordinate. *)
Fixpoint stops (by_slab : bool) (k : Z) (ps : list SlabRange) : list Stop :=
  match ps with
  | [] => []
  | p :: ps => ((λ c, mkStop k c p) <$> (if by_slab then [start_ p] else part_values p)) ++ stops by_slab (k + 1) ps
  end.

Definition nonempty_part (p : SlabRange) : Prop := start_ p ≤ end_ p.

Lemma stops_head by_slab k p ps : nonempty_part p → stops by_slab k (p :: ps) !! 0%nat = Some (mkStop k (start_ p) p).
Proof. intros Hp. simpl. destruct by_slab; [done|]. unfold part_values. by rewrite zseq_cons. Qed.

Lemma zseq_lookup a b (q : nat) x : zseq a b !! q = Some x ↔ x = a + Z.of_nat q ∧ x ≤ b.
Proof. rewrite zseq_seqZ, lookup_seqZ. split; intros [-> ?]; split; lia. Qed.

(** Every stop, and the one after it. *)
Lemma stops_lookup by_slab ps : Forall nonempty_part ps → ∀ k q w, stops by_slab k ps !! q = Some w →
  ∃ j : nat, s_idx w = k + Z.of_nat j ∧ ps !! j = Some (s_part w) ∧ start_ (s_part w) ≤ s_coord w ≤ end_ (s_part w) ∧
    (by_slab = true → s_coord w = start_ (s_part w)) ∧
    stops by_slab k ps !! S q = (if negb by_slab && (s_coord w <? end_ (s_part w)) then Some (mkStop (s_idx w) (s_coord w + 1) (s_part w))
      else (λ p, mkStop (s_idx w + 1) (start_ p) p) <$> ps !! S j).
Proof.
  induction 1 as [|p ps Hp Hps IH]; intros k q w Hw; [done|]. cbn [stops] in Hw |- *.
  set (hd := (λ c, mkStop k c p) <$> (if by_slab then [start_ p] else part_values p)) in *.
  apply lookup_app_Some in Hw as [Hw|[Hq Hw]].
  - exists 0%nat. assert (∃ c, w = mkStop k c p ∧ start_ p ≤ c ≤ end_ p ∧ (by_slab = true → c = start_ p) ∧
      hd !! S q = (if negb by_slab && (c <? end_ p) then Some (mkStop k (c + 1) p) else None) ∧
      (negb by_slab && (c <? end_ p) = false → S q = length hd)) as (c & -> & Hc & Hs & H1 & H2).
    { unfold hd, nonempty_part, part_values in *. clear IH. destruct by_slab.
      - destruct q; [|done]. injection Hw as <-. exists (start_ p). split_and!; done || lia.
      - rewrite list_lookup_fmap in Hw |- *. destruct (zseq (start_ p) (end_ p) !! q) as [c|] eqn:E; [|done]. injection Hw as <-.
        apply zseq_lookup in E as [-> E]. exists (start_ p + Z.of_nat q). split; [done|]. split; [lia|]. split; [done|]. simpl negb. cbn [andb].
        destruct (Z.ltb_spec (start_ p + Z.of_nat q) (end_ p)) as [Hlt|Hge].
        + rewrite (proj2 (zseq_lookup _ _ _ (start_ p + Z.of_nat (S q)))) by (split; lia). split; [|done]. simpl. do 2 f_equal. lia.
        + rewrite (lookup_ge_None_2 (zseq _ _)) by (rewrite zseq_seqZ, length_seqZ; lia). split; [done|]. intros _.
          rewrite length_fmap, zseq_seqZ, length_seqZ. lia. }
    cbn [s_idx s_coord s_part]. split_and!; try done; try lia. destruct (negb by_slab && (c <? end_ p)) eqn:E.
    + by apply lookup_app_l_Some.
    + rewrite (lookup_app_r hd) by (rewrite <- H2 by done; done). rewrite <- H2, Nat.sub_diag by done.
      simpl. destruct ps as [|p' ps]; [done|]. inversion Hps; subst. by rewrite stops_head.
  - destruct (IH (k + 1) _ _ Hw) as (j & E1 & E2 & E3 & E4 & E5). exists (S j). split_and!; try done; try lia.
    rewrite lookup_app_r by lia. by rewrite Nat.sub_succ_l, E5 by done.
Qed.

(** The coordinates of the stops are the values of the parts. *)
Lemma stops_coords k ps : s_coord <$> stops false k ps = ps ≫= part_values.
Proof.
  revert k. induction ps as [|p ps IH]; intros k; [done|]. cbn [stops]. rewrite fmap_app, IH, bind_cons, <- list_fmap_compose.
  f_equal. apply list_fmap_id.
Qed.

Lemma stops_parts k ps : stops true k ps ≫= (λ w, part_values (s_part w)) = ps ≫= part_values.
Proof. revert k. induction ps as [|p ps IH]; intros k; [done|]. cbn [stops fmap list_fmap]. simpl. by rewrite IH. Qed.

(** ** The iteration *)

Lemma insert_mid {X : Type} (l r : list X) x y k : length l = k → <[k := x]> (l ++ y :: r) = l ++ x :: r.
Proof. intros <-. rewrite <- (Nat.add_0_r (length l)), insert_app_r. done. Qed.

Section iterate.
Context {F : Type} `{!FragmentMeta F}.
Variables (A : Array F) (ty : ctype) (s : Subarray) (row : bool).

(** The parts of the dimensions, the one of the slabs last. *)
Variables (init : list (list SlabRange)) (lst : list SlabRange).
Abbreviation ms := (init ++ [lst]).
Abbreviation n := (length ms).

Hypothesis Hn : dims A = Ok n.
Hypothesis Hrow : bool_decide (Subarray.layout_ s = ROW_MAJOR) = row.

(** The parts are not empty, and there is room in the type for their number and for the
    coordinate after them. *)
Definition good_part (p : SlabRange) : Prop := nonempty_part p ∧ in_ctype ty (start_ p) ∧ in_ctype ty (end_ p + 1).
Hypothesis Hparts : Forall (λ ps, ps ≠ [] ∧ zlen ps ≤ tmax ty ∧ Forall good_part ps) ms.

Definition wheels : list (list Stop) := (stops false 0 <$> init) ++ [stops true 0 lst].

Definition slab_length (p : SlabRange) : Z := end_ p - start_ p + 1.

(** The iterator with coordinates [a] and [b], most significant first. *)
Definition iter_at (x : CellSlab) (a b : list Z) : CellSlabIter :=
  mkIter x (ord row a) (ord row b) (slab_length <$> lst) false (ord row ms).

(** The iterator at a tuple of stops. *)
Definition iter_of (x : CellSlab) (t : list Stop) : CellSlabIter := iter_at x (s_idx <$> t) (s_coord <$> t).

Lemma tmax_ctype z : 0 ≤ z ≤ tmax ty → in_ctype ty z.
Proof. destruct ty; unfold_ctype; simpl; lia. Qed.

Lemma wheels_lookup k w : wheels !! k = Some w → ∃ ps, ms !! k = Some ps ∧ w = stops (bool_decide (S k = n)) 0 ps.
Proof.
  unfold wheels. intros H. rewrite length_app. simpl. apply lookup_app_Some in H as [H|[Hk H]].
  - apply list_lookup_fmap_Some in H as (ps & -> & H). exists ps. split; [by apply lookup_app_l_Some|].
    apply lookup_lt_Some in H. by rewrite bool_decide_false by lia.
  - rewrite length_fmap in *. assert (k = length init) as -> by (apply lookup_lt_Some in H; simpl in H; lia). rewrite Nat.sub_diag in H.
    injection H as <-. exists lst. split; [by apply list_lookup_middle|]. by rewrite bool_decide_true by lia.
Qed.

Lemma length_wheels : length wheels = n.
Proof. unfold wheels. by rewrite !length_app, length_fmap. Qed.

Lemma at_T_ok {X : Type} (l : list X) i x : 0 ≤ i → l !! Z.to_nat i = Some x → at_T l i = Ok x.
Proof. intros Hi Hx. unfold at_T. rewrite (proj2 (Z.ltb_ge _ _)) by lia. by apply idx_ok. Qed.

(** Moving on from a stop: to the next one, or past the last one. *)
Lemma move_ok x a b k ps q w : ms !! k = Some ps → length a = n → length b = n →
  stops (bool_decide (S k = n)) 0 ps !! q = Some w → a !! k = Some (s_idx w) → b !! k = Some (s_coord w) →
  move ty (pos row n k) (bool_decide (S k = n)) (iter_at x a b) =
    Ok (match stops (bool_decide (S k = n)) 0 ps !! S q with
        | Some w' => (iter_at x (<[k := s_idx w']> a) (<[k := s_coord w']> b), true)
        | None => (iter_at x (<[k := s_idx w + 1]> a) (<[k := end_ (s_part w) + 1]> b), false)
        end).
Proof.
  intros Hps La Lb Hw Ha Hb. destruct (Forall_lookup_1 _ _ _ _ Hparts Hps) as (_ & Hsz & Hgood).
  assert (Forall nonempty_part ps) as Hne by (eapply Forall_impl; [exact Hgood|]; by intros p [? _]).
  destruct (stops_lookup _ ps Hne 0 q w Hw) as (j & Ej & Hj & Hc & Hs & Hnext). rewrite Z.add_0_l in Ej.
  pose proof (lookup_lt_Some _ _ _ Hj) as Hlt. pose proof (Forall_lookup_1 _ _ _ _ Hgood Hj) as (Hp & Cs & Ce).
  assert (k < n)%nat as Hk by (by apply lookup_lt_Some in Hps).
  assert (in_ctype ty (Z.of_nat j + 1)) as Cj by (apply tmax_ctype; unfold zlen in Hsz; lia).
  unfold move, iter_at. cbn [cell_slab_coords_ range_coords_ slab_ranges_ cell_slab_lengths_].
  rewrite (idx_ord row b n k _ Lb Hb), (idx_ord row a n k _ La Ha), (idx_ord row ms n k _ eq_refl Hps). cbn [mbind res_bind].
  assert (∃ step, (if bool_decide (S k = n) then at_T (slab_length <$> lst) (s_idx w) else Ok 1) = Ok step ∧ 1 ≤ step ∧
    s_coord w + step ≤ end_ (s_part w) + 1 ∧ negb (bool_decide (S k = n)) && (s_coord w <? end_ (s_part w)) = (s_coord w + step <=? end_ (s_part w)) ∧
    (s_coord w + step ≤ end_ (s_part w) → step = 1)) as (step & -> & S1 & S2 & S3 & S4).
  { destruct (bool_decide_reflect (S k = n)) as [E|E].
    - assert (ps = lst) as ->.
      { rewrite length_app in E. simpl in E. replace k with (length init) in Hps by lia. rewrite list_lookup_middle in Hps by done. by injection Hps. }
      exists (slab_length (s_part w)). rewrite (at_T_ok _ _ (slab_length (s_part w))); [|lia|rewrite Ej, Nat2Z.id, list_lookup_fmap, Hj; done].
      unfold slab_length, nonempty_part in *. rewrite (Hs eq_refl). split_and!; done || lia.
    - exists 1. split_and!; done || lia. }
  cbn [mbind res_bind]. rewrite (conv_id ty (s_coord w + step)) by (apply (in_between ty (start_ (s_part w)) _ (end_ (s_part w) + 1)); done || lia).
  rewrite (upd_ord row b n k) by done. cbn [mbind res_bind]. rewrite (at_T_ok ps _ (s_part w)) by (rewrite ?Ej, ?Nat2Z.id; done || lia). cbn [mbind res_bind].
  rewrite (conv_id ty (zlen ps)) by (apply tmax_ctype; unfold zlen in *; lia). rewrite Hnext, S3.
  destruct (Z.ltb_spec (end_ (s_part w)) (s_coord w + step)) as [Hgt|Hle].
  - rewrite (proj2 (Z.leb_gt _ _)) by lia. rewrite Ej. rewrite addT_ok by (by apply in_promote). cbn [mbind res_bind].
    rewrite (conv_id ty (Z.of_nat j + 1)) by done. rewrite (upd_ord row a n k) by done. cbn [mbind res_bind].
    replace (s_coord w + step) with (end_ (s_part w) + 1) by lia.
    destruct (ps !! S j) as [p'|] eqn:E; cbn [fmap option_fmap option_map s_idx s_coord].
    + rewrite (proj2 (Z.ltb_lt _ _)) by (apply lookup_lt_Some in E; unfold zlen; lia).
      rewrite (at_T_ok ps _ p') by (try lia; by replace (Z.to_nat (Z.of_nat j + 1)) with (S j) by lia). cbn [mbind res_bind].
      rewrite (upd_ord row (<[k:=_]> b) n k) by (done || by rewrite length_insert). cbn [mbind res_bind]. by rewrite list_insert_insert_eq.
    + rewrite (proj2 (Z.ltb_ge _ _)) by (apply lookup_ge_None_1 in E; unfold zlen; lia). done.
  - rewrite (proj2 (Z.leb_le _ _)) by lia. cbn [s_idx s_coord]. rewrite S4 by lia. rewrite (proj2 (Z.ltb_lt _ _)) by (unfold zlen; lia).
    by rewrite (list_insert_id a k) by done.
Qed.

(** The digits of the odometer. *)
Definition sizes : list Z := zlen <$> wheels.

Lemma wheel_nonempty k w : wheels !! k = Some w → 1 ≤ zlen w.
Proof.
  intros H. destruct (wheels_lookup k w H) as (ps & Hps & ->). destruct (Forall_lookup_1 _ _ _ _ Hparts Hps) as (Hne & _ & Hg).
  destruct ps as [|p ps]; [done|]. inversion Hg as [|? ? [Hp _] _]; subst.
  pose proof (stops_head (bool_decide (S k = n)) 0 p ps Hp) as E. apply lookup_lt_Some in E. unfold zlen. lia.
Qed.

Lemma sizes_grid : grid sizes.
Proof. apply Forall_fmap, Forall_lookup. intros k w Hw. by apply (wheel_nonempty k). Qed.

Lemma length_sizes : length sizes = n.
Proof. unfold sizes. by rewrite length_fmap, length_wheels. Qed.

Lemma sel_mid l1 l l2 c1 c c2 : sizes = l1 ++ l :: l2 → length c1 = length l1 → 0 ≤ c < l →
  ∃ ws1 w ws2, wheels = ws1 ++ w :: ws2 ∧ length ws1 = length l1 ∧ length ws2 = length l2 ∧ zlen w = l ∧
    w !! Z.to_nat c = Some (w !!! Z.to_nat c) ∧ sel wheels (c1 ++ c :: c2) = sel ws1 c1 ++ (w !!! Z.to_nat c) :: sel ws2 c2.
Proof.
  unfold sizes. intros E L1 Hc. apply fmap_app_inv in E as (ws1 & wr & -> & E2 & Ew). symmetry in E2.
  apply fmap_cons_inv in E2 as (w & ws2 & -> & -> & ->). exists ws1, w, ws2. rewrite !length_fmap in *. split_and!; try done.
  - apply list_lookup_lookup_total_lt. unfold zlen in Hc. lia.
  - rewrite Ew. unfold sel. by rewrite zip_with_app by done.
Qed.

Lemma length_sel (ws : list (list Stop)) cs : length ws = length cs → length (sel ws cs) = length ws.
Proof. intros. unfold sel. rewrite length_zip_with. lia. Qed.

(** [advance] from digit [k] on. *)
Definition adv (k : nat) : CellSlabIter → res CellSlabIter :=
  advance ty (pos row n <$> rev (seq 0 (S k))) (bool_decide (S k = n)).

Lemma adv_unfold k it : adv k it =
  ('(it, more) ← move ty (pos row n k) (bool_decide (S k = n)) it;
   if more : bool then Ok it
   else match k with
        | O => Ok (ended it)
        | S k' =>
            rs ← idx (slab_ranges_ it) (pos row n k);
            r ← idx rs 0;
            rcs ← upd (range_coords_ it) (pos row n k) 0;
            cs ← upd (cell_slab_coords_ it) (pos row n k) (start_ r);
            advance ty (pos row n <$> rev (seq 0 k)) false (with_coords it rcs cs)
        end).
Proof.
  unfold adv. rewrite seq_S, rev_app_distr. cbn [rev app fmap list_fmap advance Nat.add]. destruct k as [|k]; [done|].
  rewrite seq_S, rev_app_distr. done.
Qed.

(** The stop at a digit, with the accesses of [move]. *)
Lemma iter_move x l1 l l2 c1 c c2 : sizes = l1 ++ l :: l2 → SubarrayRanges.inside l1 c1 → SubarrayRanges.inside l2 c2 → 0 ≤ c < l →
  ∃ ps w t1 t2, ms !! length l1 = Some ps ∧ sel wheels (c1 ++ c :: c2) = t1 ++ w :: t2 ∧ length t1 = length l1 ∧ length t2 = length l2 ∧
    (∀ c', 0 ≤ c' < l → ∃ w', stops (bool_decide (S (length l1) = n)) 0 ps !! Z.to_nat c' = Some w' ∧ sel wheels (c1 ++ c' :: c2) = t1 ++ w' :: t2) ∧
    move ty (pos row n (length l1)) (bool_decide (S (length l1) = n)) (iter_of x (t1 ++ w :: t2)) =
      Ok (match stops (bool_decide (S (length l1) = n)) 0 ps !! S (Z.to_nat c) with
          | Some w' => (iter_of x (t1 ++ w' :: t2), true)
          | None => (iter_at x ((s_idx <$> t1) ++ s_idx w + 1 :: (s_idx <$> t2)) ((s_coord <$> t1) ++ end_ (s_part w) + 1 :: (s_coord <$> t2)), false)
          end) ∧ zlen (stops (bool_decide (S (length l1) = n)) 0 ps) = l.
Proof.
  intros E H1 H2 Hc. pose proof (Forall2_length _ _ _ H1) as L1. pose proof (Forall2_length _ _ _ H2) as L2.
  destruct (sel_mid l1 l l2 c1 c c2 E (eq_sym L1) Hc) as (ws1 & w & ws2 & Ew & W1 & W2 & Wz & Wc & Es).
  assert (wheels !! length l1 = Some w) as Hw by (rewrite Ew, <- W1; by apply list_lookup_middle).
  destruct (wheels_lookup _ _ Hw) as (ps & Hps & Estops).
  assert (length (sel ws1 c1) = length l1) as T1 by (rewrite length_sel; lia).
  assert (length (sel ws2 c2) = length l2) as T2 by (rewrite length_sel; lia).
  exists ps, (w !!! Z.to_nat c), (sel ws1 c1), (sel ws2 c2). split_and!; try done.
  - intros c' Hc'. destruct (sel_mid l1 l l2 c1 c' c2 E (eq_sym L1) Hc') as (ws1' & w' & ws2' & Ew' & W1' & W2' & _ & Wc' & Es').
    rewrite Ew in Ew'. apply app_inj_1 in Ew' as [<- [= <- <-]]; [|lia]. exists (w !!! Z.to_nat c'). by rewrite <- Estops.
  - assert (n = length l1 + S (length l2))%nat as Ln by (rewrite <- length_sizes, E, length_app; simpl; lia).
    unfold iter_of. rewrite !fmap_app. cbn [fmap list_fmap].
    rewrite (move_ok x _ _ (length l1) ps (Z.to_nat c) (w !!! Z.to_nat c) Hps).
    + f_equal. destruct (_ !! S _) as [w'|]; [|by rewrite !insert_mid by (by rewrite length_fmap)].
      rewrite !insert_mid by (by rewrite length_fmap). by rewrite !fmap_app.
    + rewrite length_app. simpl. rewrite !length_fmap. lia.
    + rewrite length_app. simpl. rewrite !length_fmap. lia.
    + by rewrite <- Estops.
    + apply list_lookup_middle. by rewrite length_fmap.
    + apply list_lookup_middle. by rewrite length_fmap.
  - by rewrite <- Estops.
Qed.

Lemma adv_step x l1 l l2 c1 c c2 : sizes = l1 ++ l :: l2 → SubarrayRanges.inside l1 c1 → SubarrayRanges.inside l2 c2 → 0 ≤ c → c + 1 < l →
  adv (length l1) (iter_of x (sel wheels (c1 ++ c :: c2))) = Ok (iter_of x (sel wheels (c1 ++ c + 1 :: c2))).
Proof.
  intros E H1 H2 Hc Hl. destruct (iter_move x l1 l l2 c1 c c2 E H1 H2 ltac:(lia)) as (ps & w & t1 & t2 & Hps & Es & T1 & T2 & Hat & Hm & _).
  rewrite adv_unfold, Es, Hm. cbn [mbind res_bind]. destruct (Hat (c + 1) ltac:(lia)) as (w' & Hw' & ->).
  replace (S (Z.to_nat c)) with (Z.to_nat (c + 1)) by lia. by rewrite Hw'.
Qed.

Lemma adv_past x l1 l l2 c1 c2 : sizes = l1 ++ l :: l2 → SubarrayRanges.inside l1 c1 → SubarrayRanges.inside l2 c2 → 1 ≤ l →
  ∃ ps t1 w t2 a b, ms !! length l1 = Some ps ∧ sel wheels (c1 ++ 0 :: c2) = t1 ++ w :: t2 ∧ length t1 = length l1 ∧ length t2 = length l2 ∧
    stops (bool_decide (S (length l1) = n)) 0 ps !! 0%nat = Some w ∧
    move ty (pos row n (length l1)) (bool_decide (S (length l1) = n)) (iter_of x (sel wheels (c1 ++ l - 1 :: c2))) =
      Ok (iter_at x ((s_idx <$> t1) ++ a :: (s_idx <$> t2)) ((s_coord <$> t1) ++ b :: (s_coord <$> t2)), false).
Proof.
  intros E H1 H2 Hl. destruct (iter_move x l1 l l2 c1 (l - 1) c2 E H1 H2 ltac:(lia)) as (ps & w & t1 & t2 & Hps & Es & T1 & T2 & Hat & Hm & Hz).
  destruct (Hat 0 ltac:(lia)) as (w0 & Hw0 & E0). exists ps, t1, w0, t2. eexists _, _. split_and!; try done. rewrite Es, Hm.
  rewrite (lookup_ge_None_2 (stops _ _ _)) by (unfold zlen in Hz; lia). done.
Qed.

Lemma adv_carry x l1 y l l2 c1 c2 : sizes = (l1 ++ [y]) ++ l :: l2 → SubarrayRanges.inside (l1 ++ [y]) c1 → SubarrayRanges.inside l2 c2 →
  adv (S (length l1)) (iter_of x (sel wheels (c1 ++ l - 1 :: c2))) = adv (length l1) (iter_of x (sel wheels (c1 ++ 0 :: c2))).
Proof.
  intros E H1 H2. assert (1 ≤ l) as Hl by (pose proof sizes_grid as Hg; rewrite E in Hg; apply Forall_app in Hg as [_ Hg]; by inversion Hg).
  destruct (adv_past x (l1 ++ [y]) l l2 c1 c2 E H1 H2 Hl) as (ps & t1 & w & t2 & a & b & Hps & Es & T1 & T2 & Hw & Hm).
  assert (length (l1 ++ [y]) = S (length l1)) as El by (rewrite length_app; simpl; lia). rewrite El in Hps, T1, Hw, Hm.
  assert (n = S (length l1) + S (length l2))%nat as Ln by (rewrite <- length_sizes, E, !length_app; simpl; lia).
  rewrite adv_unfold, Hm, Es. cbn [mbind res_bind]. unfold iter_at. cbn [slab_ranges_ range_coords_ cell_slab_coords_].
  rewrite (idx_ord row ms n _ _ eq_refl Hps). cbn [mbind res_bind].
  destruct (Forall_lookup_1 _ _ _ _ Hparts Hps) as (Hne & _ & Hg). destruct ps as [|p ps]; [done|]. inversion Hg as [|? ? [Hp _] _]; subst.
  rewrite stops_head in Hw by done. injection Hw as <-. cbn [idx lookup list_lookup mbind res_bind].
  rewrite (upd_ord row _ n (S (length l1))) by (rewrite Ln, ?length_app; simpl; rewrite ?length_fmap; lia). cbn [mbind res_bind].
  rewrite (upd_ord row _ n (S (length l1))) by (rewrite Ln, ?length_app; simpl; rewrite ?length_fmap; lia). cbn [mbind res_bind].
  rewrite !insert_mid by (by rewrite length_fmap). unfold adv. rewrite (bool_decide_false (S (length l1) = n)) by lia.
  unfold iter_of, iter_at, with_coords. rewrite !fmap_app. done.
Qed.

(** *** The slab at a stop *)

Definition tiles_of (t : list Stop) : list Z := ord row ((λ w, tile_coord_ (s_part w)) <$> t).
Definition slab_of (t : list Stop) : CellSlab :=
  mkSlab (Some (concat (nenc (NInt ty) <$> tiles_of t))) (ord row (s_coord <$> t))
    (match last t with Some w => slab_length (s_part w) | None => 0 end).

(** The tile coordinates have been computed. *)
Hypothesis Hptr : ∀ t, t ∈ tuples wheels → tile_coords_ptr ty s (tiles_of t) = Ok (Some (concat (nenc (NInt ty) <$> tiles_of t))).

Lemma last_dim : slab_dim s n = pos row n (n - 1).
Proof. unfold slab_dim. rewrite Hrow. destruct row; simpl; [done|]. by rewrite Nat.sub_diag. Qed.

Lemma stop_at t k w : t ∈ tuples wheels → t !! k = Some w →
  ∃ ps, ms !! k = Some ps ∧ 0 ≤ s_idx w ∧ ps !! Z.to_nat (s_idx w) = Some (s_part w).
Proof.
  intros Ht Hw. apply elem_tuples in Ht. destruct (Forall2_lookup_l _ _ _ _ _ Ht Hw) as (ws & Hws & Hin).
  destruct (wheels_lookup _ _ Hws) as (ps & Hps & ->). apply list_elem_of_lookup in Hin as [q Hq].
  destruct (Forall_lookup_1 _ _ _ _ Hparts Hps) as (_ & _ & Hg).
  destruct (stops_lookup (bool_decide (S k = n)) ps) with (k := 0) (q := q) (w := w) as (j & Ej & Hj & _); [|done|].
  { eapply Forall_impl; [exact Hg|]. by intros p [? _]. }
  exists ps. rewrite Ej, Z.add_0_l, Nat2Z.id. split_and!; done || lia.
Qed.

Lemma length_tuple t : t ∈ tuples wheels → length t = n.
Proof. intros Ht%elem_tuples%Forall2_length. by rewrite Ht, length_wheels. Qed.

Lemma update_ok x t : t ∈ tuples wheels → update_cell_slab A ty s (iter_of x t) = Ok (iter_of (slab_of t) t).
Proof.
  intros Ht. pose proof (length_tuple t Ht) as L. unfold update_cell_slab. rewrite Hn. cbn [mbind res_bind].
  unfold iter_of, iter_at. cbn [slab_ranges_ range_coords_ cell_slab_coords_ cell_slab_lengths_].
  rewrite (mapM_ord row n (λ i, rs ← idx (ord row ms) i; c ← idx (ord row (s_idx <$> t)) i; r ← at_T rs c; Ok (tile_coord_ r))
    ((λ w, tile_coord_ (s_part w)) <$> t)); [|by rewrite length_fmap|].
  2:{ intros k y Hy. apply list_lookup_fmap_Some in Hy as (w & -> & Hw). destruct (stop_at t k w Ht Hw) as (ps & Hps & H0 & Hp).
            rewrite (idx_ord row ms n k ps eq_refl Hps). cbn [mbind res_bind].
      rewrite (idx_ord row (s_idx <$> t) n k (s_idx w)) by (rewrite ?length_fmap, ?list_lookup_fmap, ?Hw; done). cbn [mbind res_bind].
      by rewrite (at_T_ok _ _ _ H0 Hp). }
  cbn [mbind res_bind]. rewrite (mapM_ord row n (idx (ord row (s_coord <$> t))) (s_coord <$> t)); [|by rewrite length_fmap|].
  2:{ intros k y Hy. apply idx_ord; [by rewrite length_fmap|done]. }
  cbn [mbind res_bind]. fold (tiles_of t). rewrite (Hptr t Ht). cbn [mbind res_bind]. rewrite last_dim.
  assert (n - 1 < length t)%nat as Hl by (rewrite L, length_app; simpl; lia).
  destruct (lookup_lt_is_Some_2 t (n - 1) Hl) as [w Hw]. destruct (stop_at t _ w Ht Hw) as (ps & Hps & H0 & Hp).
  assert (ps = lst) as ->.
  { rewrite length_app in Hps. simpl in Hps. rewrite Nat.add_sub, list_lookup_middle in Hps by done. by injection Hps. }
  rewrite (idx_ord row (s_idx <$> t) n (n - 1) (s_idx w)) by (rewrite ?length_fmap, ?list_lookup_fmap, ?Hw; done). cbn [mbind res_bind].
  rewrite (at_T_ok _ _ (slab_length (s_part w)) H0) by (by rewrite list_lookup_fmap, Hp). cbn [mbind res_bind].
  unfold slab_of. rewrite last_lookup, L. replace (pred n) with (n - 1)%nat by lia. by rewrite Hw.
Qed.

(** *** The whole iteration *)

Definition at_ (i : Z) : list Stop := sel wheels (dig sizes i).

Lemma at_tuple i : 0 ≤ i < cap sizes → at_ i ∈ tuples wheels.
Proof.
  intros Hi. rewrite tuples_digits. apply list_elem_of_fmap. exists i. split; [done|]. apply elem_of_seqZ. unfold sizes in Hi. lia.
Qed.

Lemma order_dims : (if bool_decide (Subarray.layout_ s = ROW_MAJOR) then rev (seq 0 n) else seq 0 n) = pos row n <$> rev (seq 0 n).
Proof.
  rewrite Hrow. rewrite fmap_rev, <- ord_seq. destruct row; simpl; [done|]. by rewrite rev_involutive.
Qed.

Lemma next_slab_at x i : 0 ≤ i → i + 1 < cap sizes → next_slab A ty s (iter_of x (at_ i)) = Ok (iter_of (slab_of (at_ (i + 1))) (at_ (i + 1))).
Proof.
  intros Hi Hi1. unfold next_slab. cbn [iter_of iter_at at_end_]. rewrite Hn. cbn [mbind res_bind]. rewrite order_dims.
  assert (S (n - 1) = n) as En by (rewrite length_app; simpl; lia).
  pose proof (odometer_next adv (λ cs, iter_of x (sel wheels cs)) sizes sizes_grid (adv_step x) (adv_carry x) i Hi Hi1) as E.
  rewrite length_sizes in E. unfold adv in E. rewrite En, bool_decide_true in E by done. unfold at_. rewrite E. cbn [mbind res_bind iter_of iter_at at_end_].
  apply update_ok, at_tuple. lia.
Qed.

Lemma next_end x : ∃ it, next_slab A ty s (iter_of x (at_ (cap sizes - 1))) = Ok it ∧ at_end_ it = true.
Proof.
  unfold next_slab. cbn [iter_of iter_at at_end_]. rewrite Hn. cbn [mbind res_bind]. rewrite order_dims.
  assert (S (n - 1) = n) as En by (rewrite length_app; simpl; lia).
  destruct sizes as [|h t] eqn:Es; [pose proof length_sizes as L; rewrite Es, length_app in L; simpl in L; lia|]. rewrite <- Es.
  pose proof (odometer_end adv (λ cs, iter_of x (sel wheels cs)) sizes sizes_grid (adv_step x) (adv_carry x) h t Es) as E.
  rewrite length_sizes in E. unfold adv in E at 1. rewrite En, bool_decide_true in E by done. unfold at_. rewrite E.
  assert (1 ≤ h ∧ grid t) as [Hh Hg] by (pose proof sizes_grid as Hg; rewrite Es in Hg; by inversion Hg).
  destruct (adv_past x [] h t [] (zeros t)) as (ps & t1 & w & t2 & a & b & _ & _ & _ & _ & _ & Hm); try done; [constructor|by apply inside_zeros|].
  rewrite adv_unfold. simpl app in Hm. simpl length in Hm. rewrite Hm. cbn [mbind res_bind]. by eexists.
Qed.

Lemma slabs_from m : ∀ i fuel, 0 ≤ i → i + Z.of_nat (S m) = cap sizes → (S m ≤ fuel)%nat →
  slabs A ty fuel s (iter_of (slab_of (at_ i)) (at_ i)) = Ok ((λ j, slab_of (at_ j)) <$> seqZ i (Z.of_nat (S m))).
Proof.
  induction m as [|m IH]; intros i [|fuel] Hi E Hf; try lia; cbn [slabs iter_of iter_at at_end_].
  - replace i with (cap sizes - 1) by lia. destruct (next_end (slab_of (at_ (cap sizes - 1)))) as (it & En & Ee).
    fold (iter_at (slab_of (at_ (cap sizes - 1))) (s_idx <$> at_ (cap sizes - 1)) (s_coord <$> at_ (cap sizes - 1))).
    fold (iter_of (slab_of (at_ (cap sizes - 1))) (at_ (cap sizes - 1))). rewrite En. cbn [mbind res_bind].
    destruct fuel; simpl; by rewrite Ee.
  - fold (iter_at (slab_of (at_ i)) (s_idx <$> at_ i) (s_coord <$> at_ i)). fold (iter_of (slab_of (at_ i)) (at_ i)).
    rewrite next_slab_at by lia. cbn [mbind res_bind]. rewrite IH by lia. cbn [mbind res_bind iter_of iter_at cell_slab_].
    rewrite (seqZ_cons i) by lia. rewrite fmap_cons. replace (Z.succ i) with (i + 1) by lia.
    by replace (Z.pred (Z.of_nat (S (S m)))) with (Z.of_nat (S m)) by lia.
Qed.

Lemma slabs_ok fuel : cap sizes ≤ Z.of_nat fuel → slabs A ty fuel s (iter_of (slab_of (at_ 0)) (at_ 0)) = Ok (slab_of <$> tuples wheels).
Proof.
  intros Hf. pose proof (cap_pos _ sizes_grid) as Hc. rewrite (slabs_from (Z.to_nat (cap sizes - 1))) by lia.
  rewrite tuples_digits, <- list_fmap_compose. fold sizes. by replace (Z.of_nat (S (Z.to_nat (cap sizes - 1)))) with (cap sizes) by lia.
Qed.

End iterate.
