(* ===== verification/CellSlabProofs.v ===== *)
(** * The cell slabs of a subarray (subarray/cell_slab_iter.cc)

    The slabs hold exactly the cells of the subarray, in the order of its layout, and
    every slab has the coordinates of the tile its cells lie in.  At the end, the
    domains on which narrow coordinates wrap around. *)

From stdpp Require Import gmap.
From S2P Require Import Prelude.
From S2P Require Import Enums.
From S2P Require Import Strings.
From S2P Require Import Filter.
From S2P Require Import Num.
From S2P Require Import NumFacts.
From S2P Require Import Range.
From S2P Require Import Loops.
From S2P Require Import Dimension.
From S2P Require Import DimensionProofs.
From S2P Require Import Domain.
From S2P Require Import DomainCells.
From S2P Require Import DomainProofs.
From S2P Require Import RTree.
From S2P Require Import Attribute.
From S2P Require Import ArraySchema.
From S2P Require Import Subarray.
From S2P Require Import SubarrayTiles.
From S2P Require Import SubarrayRanges.
From S2P Require Import SubarrayParts.
From S2P Require Import CellSlabs.
From S2P Require Import CellSlabIteration.
Local Open Scope Z_scope.

(** ** The cells of the slabs *)

(** The coordinates of the cells of a slab, in a layout. *)
Definition slab_cells (row : bool) (sl : CellSlab) : list (list Z) :=
  let m := ord row (coords_ sl) in
  (λ x, ord row (removelast m ++ [x])) <$> zseq (List.last m 0) (List.last m 0 + length_ sl - 1).

Section cells.
Variables (ty : ctype) (row : bool) (init : list (list SlabRange)) (lst : list SlabRange).

Lemma slab_cells_of t w : s_coord w = start_ (s_part w) → slab_cells row (slab_of ty row (t ++ [w])) =
  (λ x, ord row ((s_coord <$> t) ++ [x])) <$> part_values (s_part w).
Proof.
  intros Hw. unfold slab_cells, slab_of, part_values. cbn [coords_ length_]. rewrite ord_ord, last_snoc, fmap_app. cbn [fmap list_fmap].
  rewrite removelast_last, List.last_last, Hw. unfold slab_length. by replace (start_ (s_part w) + (end_ (s_part w) - start_ (s_part w) + 1) - 1) with (end_ (s_part w)) by lia.
Qed.

Hypothesis Hlst : Forall nonempty_part lst.

Lemma stops_start w : w ∈ stops true 0 lst → s_coord w = start_ (s_part w) ∧ nonempty_part (s_part w).
Proof.
  intros [q Hq]%list_elem_of_lookup. destruct (stops_lookup true lst Hlst 0 q w Hq) as (j & _ & Hj & _ & Hs & _).
  split; [by apply Hs|]. by apply (Forall_lookup_1 _ _ _ _ Hlst Hj).
Qed.

Lemma wheels_cells : (slab_of ty row <$> tuples (wheels init lst)) ≫= slab_cells row =
  ord row <$> tuples ((λ ps, ps ≫= part_values) <$> init ++ [lst]).
Proof.
  unfold wheels. rewrite list_fmap_bind, (fmap_app _ init), (list_fmap_singleton _ lst), !tuples_snoc, bind_assoc, fmap_bind.
  assert ((λ ps, ps ≫= part_values) <$> init = fmap (M := list) s_coord <$> (stops false 0 <$> init)) as E.
  { rewrite <- list_fmap_compose. apply list_fmap_ext. intros k ps _. unfold compose. by rewrite stops_coords. }
  rewrite E, tuples_fmap, list_fmap_bind. apply list_bind_ext; [|done]. intros t. unfold compose. rewrite list_fmap_bind.
  rewrite (bind_ext_in _ (λ w, (λ x, ord row ((s_coord <$> t) ++ [x])) <$> part_values (s_part w))).
  - rewrite <- fmap_bind, stops_parts, <- list_fmap_compose. done.
  - intros w Hw. unfold compose. apply slab_cells_of. by apply stops_start.
Qed.

(** A slab has a cell, so there are at most as many slabs as cells. *)
Lemma slabs_le_cells : (length (tuples (wheels init lst)) ≤ length (tuples ((λ ps, ps ≫= part_values) <$> init ++ [lst])))%nat.
Proof.
  rewrite <- (length_fmap (ord row) (tuples ((λ ps, ps ≫= part_values) <$> init ++ [lst]))), <- wheels_cells, list_fmap_bind.
  assert (∀ t, t ∈ tuples (wheels init lst) → (1 ≤ length ((slab_cells row ∘ slab_of ty row) t))%nat) as H.
  { intros t Ht. unfold wheels in Ht. rewrite tuples_snoc in Ht. apply list_elem_of_bind in Ht as (t' & Hx & _).
    apply list_elem_of_fmap in Hx as (w & -> & Hw). destruct (stops_start w Hw) as [Hs Hp]. unfold compose. rewrite slab_cells_of by done.
    rewrite length_fmap. unfold part_values. rewrite zseq_seqZ, length_seqZ. unfold nonempty_part in Hp. lia. }
  revert H. generalize (slab_cells row ∘ slab_of ty row). intros f. induction (tuples (wheels init lst)) as [|t ts IH]; intros H; [done|].
  rewrite bind_cons, length_app. simpl. specialize (IH ltac:(intros; apply H; by right)). specialize (H t ltac:(left)). lia.
Qed.

End cells.

(** ** The tile coordinates of a subarray *)

Section tile_coords.
Variables (ty : ctype) (row : bool).

(** The tiles of each dimension, most significant first. *)
Variable sets : list (list Z).
Abbreviation n := (length sets).
Hypothesis Hne : Forall (λ set, set ≠ []) sets.

Definition set_sizes : list Z := zlen <$> sets.

Lemma set_grid : grid set_sizes.
Proof. apply Forall_fmap. eapply Forall_impl; [exact Hne|]. intros [|x l] H; [done|]. unfold compose, zlen. simpl. lia. Qed.

Definition iters_of (cs : list Z) : list nat := ord row (Z.to_nat <$> cs).
Definition tadv (k : nat) : list nat → res (list nat) := SubarrayTiles.advance (ord row sets) (pos row n <$> rev (seq 0 (S k))).

Lemma tadv_unfold k iters : tadv k iters =
  (i ← idx iters (pos row n k);
   set ← idx (ord row sets) (pos row n k);
   iters ← upd iters (pos row n k) (S i);
   if negb (Nat.eqb (S i) (length set)) then Ok iters
   else match k with O => Ok iters | S k' => iters ← upd iters (pos row n k) O; tadv k' iters end).
Proof.
  unfold tadv. rewrite seq_S, rev_app_distr. cbn [rev app fmap list_fmap SubarrayTiles.advance Nat.add].
  destruct (idx iters (pos row n k)) as [i| |]; [|done..]. cbn [mbind res_bind].
  destruct (idx (ord row sets) (pos row n k)) as [set| |]; [|done..]. cbn [mbind res_bind].
  destruct (upd iters (pos row n k) (S i)) as [it| |]; [|done..]. cbn [mbind res_bind].
  destruct (negb _); [done|]. destruct k as [|k]; [done|]. rewrite seq_S, rev_app_distr. cbn [rev app fmap list_fmap Nat.add].
  by destruct (upd it (pos row n (S k)) 0%nat).
Qed.

(** The accesses at a digit. *)
Lemma tadv_at l1 l l2 c1 c c2 : set_sizes = l1 ++ l :: l2 → length c1 = length l1 → length c2 = length l2 → 0 ≤ c →
  let k := length l1 in
  (k < n)%nat ∧ idx (iters_of (c1 ++ c :: c2)) (pos row n k) = Ok (Z.to_nat c) ∧
  (∃ set, idx (ord row sets) (pos row n k) = Ok set ∧ zlen set = l) ∧
  ∀ x, 0 ≤ x → upd (iters_of (c1 ++ c :: c2)) (pos row n k) (Z.to_nat x) = Ok (iters_of (c1 ++ x :: c2)).
Proof.
  intros E L1 L2 Hc k. assert (length (c1 ++ c :: c2) = n) as Ln.
  { transitivity (length set_sizes); [rewrite E, !length_app; simpl; lia|apply length_fmap]. }
  assert (k < n)%nat as Hk by (rewrite <- Ln, length_app; simpl; unfold k; lia). split_and!; [done| | |].
  - apply idx_ord; [by rewrite length_fmap|]. rewrite list_lookup_fmap, list_lookup_middle by done. done.
  - assert (set_sizes !! k = Some l) as Hl by (rewrite E; by apply list_lookup_middle).
    apply list_lookup_fmap_Some in Hl as (set & -> & Hs). exists set. split; [by apply idx_ord|done].
  - intros x Hx. unfold iters_of. rewrite (upd_ord row _ n) by (by rewrite ?length_fmap).
    rewrite !fmap_app. cbn [fmap list_fmap]. by rewrite insert_mid by (by rewrite length_fmap).
Qed.

Lemma tadv_step l1 l l2 c1 c c2 : set_sizes = l1 ++ l :: l2 → SubarrayRanges.inside l1 c1 → SubarrayRanges.inside l2 c2 → 0 ≤ c → c + 1 < l →
  tadv (length l1) (iters_of (c1 ++ c :: c2)) = Ok (iters_of (c1 ++ c + 1 :: c2)).
Proof.
  intros E H1 H2 Hc Hl. apply Forall2_length in H1, H2.
  destruct (tadv_at l1 l l2 c1 c c2) as (Hk & I1 & (set & I2 & Hz) & U); try done.
  rewrite tadv_unfold, I1. cbn [mbind res_bind]. rewrite I2. cbn [mbind res_bind].
  replace (S (Z.to_nat c)) with (Z.to_nat (c + 1)) by lia. rewrite U by lia. cbn [mbind res_bind].
  rewrite (proj2 (Nat.eqb_neq _ _)) by (unfold zlen in Hz; lia). done.
Qed.

Lemma tadv_top l1 l l2 c1 c2 : set_sizes = l1 ++ l :: l2 → SubarrayRanges.inside l1 c1 → SubarrayRanges.inside l2 c2 → 1 ≤ l →
  tadv (length l1) (iters_of (c1 ++ l - 1 :: c2)) =
    match length l1 with O => Ok (iters_of (c1 ++ l :: c2)) | S k' => tadv k' (iters_of (c1 ++ 0 :: c2)) end.
Proof.
  intros E H1 H2 Hl. apply Forall2_length in H1, H2.
  destruct (tadv_at l1 l l2 c1 (l - 1) c2) as (Hk & I1 & (set & I2 & Hz) & U); try done; try lia.
  destruct (tadv_at l1 l l2 c1 l c2) as (_ & _ & _ & U'); try done; try lia.
  rewrite tadv_unfold, I1. cbn [mbind res_bind]. rewrite I2. cbn [mbind res_bind].
  replace (S (Z.to_nat (l - 1))) with (Z.to_nat l) by lia. rewrite U by lia. cbn [mbind res_bind].
  rewrite (proj2 (Nat.eqb_eq _ _)) by (unfold zlen in Hz; lia). cbn [negb]. destruct (length l1) eqn:El; [done|].
  rewrite <- El. change 0%nat with (Z.to_nat 0). rewrite El in *. by rewrite U' by lia.
Qed.

Lemma tadv_carry l1 y l l2 c1 c2 : set_sizes = (l1 ++ [y]) ++ l :: l2 → SubarrayRanges.inside (l1 ++ [y]) c1 → SubarrayRanges.inside l2 c2 →
  tadv (S (length l1)) (iters_of (c1 ++ l - 1 :: c2)) = tadv (length l1) (iters_of (c1 ++ 0 :: c2)).
Proof.
  intros E H1 H2. assert (1 ≤ l) as Hl by (pose proof set_grid as Hg; rewrite E in Hg; apply Forall_app in Hg as [_ Hg]; by inversion Hg).
  pose proof (tadv_top (l1 ++ [y]) l l2 c1 c2 E H1 H2 Hl) as H. rewrite length_app, Nat.add_1_r in H. done.
Qed.

(** The bytes of a tuple of tiles. *)
Definition tile_bytes (t : list Z) : list Z := concat (nenc (NInt ty) <$> ord row t).

Lemma fmap_ord {X Y : Type} (f : X → Y) r l : f <$> ord r l = ord r (f <$> l).
Proof. destruct r; [done|]. apply fmap_rev. Qed.

Abbreviation fill := (λ f iters out room, fill_coords f ty (ord row sets) (pos row n <$> rev (seq 0 n)) (pos row n 0) iters out room).

Lemma length_set_sizes : length set_sizes = n.
Proof. apply length_fmap. Qed.

(** One round of the loop. *)
Lemma fill_step f i out room : sets ≠ [] → 0 ≤ i < cap set_sizes → fill (S f) (iters_of (dig set_sizes i)) out (S room) =
  (iters ← tadv (n - 1) (iters_of (dig set_sizes i)); fill f iters (out ++ [tile_bytes (sel sets (dig set_sizes i))]) room).
Proof.
  intros Hs Hi. pose proof (dig_inside set_sizes i set_grid Hi) as Hin. pose proof (length_dig set_sizes i) as Ld. rewrite length_set_sizes in Ld.
  set (cs := dig set_sizes i) in *. assert (∀ k c, cs !! k = Some c → ∃ set, sets !! k = Some set ∧ 0 ≤ c < zlen set) as Hat.
  { intros k c Hc. destruct (Forall2_lookup_r _ _ _ _ _ Hin Hc) as (l & Hl & Hb). apply list_lookup_fmap_Some in Hl as (set & -> & Hset). by exists set. }
  assert (∀ k c, cs !! k = Some c → idx (iters_of cs) (pos row n k) = Ok (Z.to_nat c)) as Hidx.
  { intros k c Hc. apply idx_ord; [by rewrite length_fmap|]. by rewrite list_lookup_fmap, Hc. }
  destruct (lookup_lt_is_Some_2 cs 0) as [c0 Hc0]; [rewrite Ld; by destruct sets; [|simpl; lia]|].
  destruct (Hat 0%nat c0 Hc0) as (set0 & Hset0 & Hb0). cbn [fill_coords]. rewrite (Hidx _ _ Hc0). cbn [mbind res_bind].
  rewrite (idx_ord row sets n 0 set0) by done. cbn [mbind res_bind]. rewrite (proj2 (Nat.eqb_neq _ _)) by (unfold zlen in Hb0; lia).
  rewrite length_ord. rewrite (mapM_ord row n _ (nenc (NInt ty) <$> sel sets cs)).
  - cbn [mbind res_bind]. rewrite <- fmap_ord. fold (tile_bytes (sel sets cs)). unfold tadv.
    replace (S (n - 1)) with n by (destruct sets; [done|simpl; lia]). done.
  - rewrite length_fmap. unfold sel. rewrite length_zip_with. lia.
  - intros k y Hy. apply list_lookup_fmap_Some in Hy as (x & -> & Hx). apply lookup_zip_with_Some in Hx as (set & c & -> & Hset & Hc).
    destruct (Hat k c Hc) as (set' & E & Hb). rewrite Hset in E. injection E as <-.
    rewrite (Hidx _ _ Hc). cbn [mbind res_bind]. rewrite (idx_ord row sets n k set) by done. cbn [mbind res_bind].
    rewrite (idx_ok set (Z.to_nat c) (set !!! Z.to_nat c)); [done|]. apply list_lookup_lookup_total_lt. unfold zlen in Hb. lia.
Qed.

Lemma fill_end f h t out : set_sizes = h :: t → fill f (iters_of (h :: zeros t)) out 0%nat = Ok out.
Proof.
  intros Es. pose proof set_grid as Hg. rewrite Es in Hg. inversion Hg; subst.
  destruct (tadv_at [] h t [] h (zeros t) Es) as (_ & I1 & (set & I2 & Hz) & _); [done|by unfold zeros; rewrite length_fmap|lia|].
  simpl in I1, I2. destruct f; cbn [fill_coords]; rewrite I1; cbn [mbind res_bind]; rewrite I2; cbn [mbind res_bind];
    rewrite (proj2 (Nat.eqb_eq _ _)) by (unfold zlen in Hz; lia); by rewrite app_nil_r.
Qed.

Lemma fill_rounds m : ∀ i out, 0 ≤ i → i + Z.of_nat (S m) = cap set_sizes → sets ≠ [] →
  fill (S m) (iters_of (dig set_sizes i)) out (S m) = Ok (out ++ ((λ j, tile_bytes (sel sets (dig set_sizes j))) <$> seqZ i (Z.of_nat (S m)))).
Proof.
  induction m as [|m IH]; intros i out Hi E Hs; rewrite fill_step by (done || lia); rewrite <- length_set_sizes at 1.
  - destruct set_sizes as [|h t] eqn:Es; [destruct Hs; apply nil_length_inv; by rewrite <- length_set_sizes, Es|]. rewrite <- Es in *.
    replace i with (cap set_sizes - 1) by lia. pose proof set_grid as Hg.
    rewrite (odometer_end tadv iters_of set_sizes Hg tadv_step tadv_carry h t Es). rewrite Es in Hg. inversion Hg as [|? ? H1 H2]; subst.
    pose proof (tadv_top [] h t [] (zeros t) Es ltac:(constructor) (inside_zeros _ H2) H1) as Et. simpl in Et. rewrite Et. cbn [mbind res_bind].
    apply (fill_end 0 h t). done.
  - rewrite (odometer_next tadv iters_of set_sizes set_grid tadv_step tadv_carry i) by lia. cbn [mbind res_bind].
    rewrite IH by (done || lia). rewrite <- app_assoc, (seqZ_cons i) by lia. rewrite fmap_cons. replace (Z.succ i) with (i + 1) by lia.
    by replace (Z.pred (Z.of_nat (S (S m)))) with (Z.of_nat (S m)) by lia.
Qed.

Lemma fill_tuples : sets ≠ [] → fill (Z.to_nat (cap set_sizes)) (replicate n O) [] (Z.to_nat (cap set_sizes)) = Ok (tile_bytes <$> tuples sets).
Proof.
  intros Hs. pose proof (cap_pos _ set_grid) as Hc. replace (Z.to_nat (cap set_sizes)) with (S (Z.to_nat (cap set_sizes - 1))) by lia.
  assert (replicate n O = iters_of (dig set_sizes 0)) as ->.
  { rewrite <- (flat_zeros set_sizes), (dig_flat _ _ (inside_zeros _ set_grid)). unfold iters_of, zeros. rewrite <- list_fmap_compose.
    assert (Z.to_nat ∘ (λ _ : Z, 0) <$> set_sizes = replicate n O) as ->.
    { rewrite <- length_set_sizes. clear. induction set_sizes as [|h t IHt]; [done|]. cbn. f_equal. exact IHt. }
    destruct row; [done|]. simpl. rewrite rev_alt. symmetry. apply reverse_replicate. }
  rewrite fill_rounds by (done || lia). rewrite tuples_digits, <- list_fmap_compose. simpl app. fold set_sizes.
  by replace (Z.of_nat (S (Z.to_nat (cap set_sizes - 1)))) with (cap set_sizes) by lia.
Qed.

End tile_coords.

(** The map finds the coordinates that are stored. *)
Lemma coords_map (tc : list (list Z)) (m : gmap (list Z) nat) x : x ∈ tc →
  ∃ i, foldl (λ m p, <[p.2 := p.1]> m) m (imap pair tc) !! x = Some i ∧ tc !! i = Some x.
Proof.
  intros Hx. assert (∀ (l : list (nat * list Z)) (m : gmap (list Z) nat), Forall (λ p, tc !! p.1 = Some p.2) l →
    x ∈ l.*2 ∨ (∃ i, m !! x = Some i ∧ tc !! i = Some x) →
    ∃ i, foldl (λ m p, <[p.2 := p.1]> m) m l !! x = Some i ∧ tc !! i = Some x) as H.
  { induction l as [|[i y] l IH]; intros m' Hl Hm; [by destruct Hm as [Hm%not_elem_of_nil|]|]. inversion Hl as [|? ? Hi Hl']; subst. simpl in *.
    apply IH; [done|]. destruct (decide (x = y)) as [->|Hne].
    - right. exists i. by rewrite lookup_insert_eq.
    - destruct Hm as [Hm|Hm]; [left; by apply elem_of_cons in Hm as [->|?]|right]. by rewrite lookup_insert_ne by done. }
  apply H.
  - apply Forall_lookup. intros k p Hp. rewrite list_lookup_imap in Hp. destruct (tc !! k) as [y|] eqn:E; [|done]. by injection Hp as <-.
  - left. replace ((imap pair tc).*2) with tc; [done|]. clear. change ((imap pair tc).*2) with (snd <$> imap pair tc).
    rewrite fmap_imap. symmetry. apply list_eq. intros k. rewrite list_lookup_imap. by destruct (tc !! k).
Qed.

(** ** Subarrays of dense arrays *)

Lemma order_seq row n : (if row : bool then rev (seq 0 n) else seq 0 n) = pos row n <$> rev (seq 0 n).
Proof. rewrite fmap_rev, <- ord_seq. destruct row; simpl; [done|]. by rewrite rev_involutive. Qed.

Lemma elem_set_insert x y l : x ∈ set_insert y l ↔ x = y ∨ x ∈ l.
Proof.
  induction l as [|z l IH]; simpl; [by rewrite list_elem_of_singleton, elem_of_nil; intuition|].
  destruct (y <? z); [by rewrite elem_of_cons|]. destruct (Z.eqb_spec y z) as [->|]; rewrite !elem_of_cons; [|rewrite IH]; intuition.
Qed.

Lemma elem_set_inserts ty x l : ∀ set, x ∈ foldl (λ set t, set_insert (conv ty t) set) set l ↔ x ∈ set ∨ x ∈ conv ty <$> l.
Proof.
  induction l as [|y l IH]; intros set; simpl; [rewrite elem_of_nil; intuition|].
  rewrite IH, elem_set_insert, elem_of_cons. intuition.
Qed.

Section whole.
Context {F : Type} `{!FragmentMeta F}.
Variables (A : Array F) (D : Domain.t) (ty : ctype) (gs : list axis).

(** A dense array of coordinates of type [ty], whose domain ends before the largest
    value of the type. *)
Record sliceable : Prop := {
  sl_dims : has_dims A D;
  sl_dense : DomainProofs.dense ty D gs;
  sl_type : Forall (λ dim, num_of (type_ dim) = Some (NInt ty)) (dimensions_ D);
  sl_room : Forall (λ g, a_hi g < tmax ty) gs
}.

(** The ranges of a dimension lie in the domain, and the number of their parts is a value
    of the type. *)
Definition ranges_on (g : axis) (ps : list (Z * Z)) : Prop :=
  ps ≠ [] ∧ Forall (on_axis g) ps ∧ zlen (ps ≫= parts g) ≤ tmax ty.

(** The subarray has the ranges [rss]. *)
Definition has_ranges (s : Subarray) (rss : list (list (Z * Z))) : Prop :=
  Forall2 (Forall2 (λ r p, is_pair (NInt ty) r p.1 p.2)) (ranges_ s) rss ∧ Forall2 ranges_on gs rss.

Hypothesis HA : sliceable.
Variables (s : Subarray) (rss : list (list (Z * Z))).
Hypothesis Hs : has_ranges s rss.
Abbreviation n := (length gs).

Lemma dims_gs : dims A = Ok n.
Proof.
  rewrite (dims_n A D (sl_dims HA)). f_equal. destruct (sl_dense HA) as [_ H _]. by apply Forall2_length in H.
Qed.

(** The data of a dimension. *)
Lemma dim_data d g ps : gs !! d = Some g → rss !! d = Some ps →
  ∃ dim rs, dimensions_ D !! d = Some dim ∧ axis_ok ty dim g ∧ a_hi g < tmax ty ∧ ranges_ s !! d = Some rs ∧
    Forall2 (λ r p, is_pair (NInt ty) r p.1 p.2) rs ps ∧ ranges_on g ps.
Proof.
  intros Hg Hp. destruct (dense_at ty D gs d g (sl_dense HA) Hg) as (dim & Hd & Hax & _). destruct Hs as [H1 H2].
  destruct (Forall2_lookup_r _ _ _ _ _ H1 Hp) as (rs & Hr & Hrs). exists dim, rs. split_and!; try done.
  - by apply (Forall_lookup_1 _ _ _ _ (sl_room HA) Hg).
  - by apply (Forall2_lookup_lr _ _ _ _ _ _ H2 Hg Hp).
Qed.

Lemma length_rss : length rss = n.
Proof. destruct Hs as [_ H]. by apply Forall2_length in H. Qed.

(** *** The tile coordinates *)

Lemma tile_index_at dim g c : axis_ok ty dim g → a_hi g < tmax ty → a_lo g ≤ c ≤ a_hi g →
  SubarrayTiles.tile_index ty (a_lo g) (a_ext g) c = Ok (tile_at g c).
Proof.
  intros Hax Hm Hc. destruct (tile_of_ok ty dim g Hax c Hc) as (_ & C & P). destruct Hax as [Ht _].
  destruct (DimensionProofs.tile_index ty dim _ _ _ c Ht Hc) as (E1 & E2 & _).
  unfold SubarrayTiles.tile_index. rewrite E1. cbn [mbind res_bind]. rewrite E2. cbn [mbind res_bind]. fold (tile_at g c).
  rewrite conv_id; [done|]. revert C P. generalize (tile_at g c). intros z C P. destruct ty; unfold_ctype; simpl in *; lia.
Qed.

Lemma coords_set_ok d g ps : gs !! d = Some g → rss !! d = Some ps →
  ∃ set, coords_set A ty s d = Ok set ∧ ∀ x, x ∈ set ↔ ∃ p, p ∈ ps ∧ tile_at g p.1 ≤ x ≤ tile_at g p.2.
Proof.
  intros Hg Hp. destruct (dim_data d g ps Hg Hp) as (dim & rs & Hd & Hax & Hm & Hr & Hrs & _ & Hon & _).
  pose proof Hax as [Ht _]. pose proof (lookup_lt_Some _ _ _ Hd) as Hlt. pose proof (hd_num _ _ (sl_dims HA)) as En.
  unfold coords_set, ArraySchema.domain. rewrite (hd_domain _ _ (sl_dims HA)). cbn [mbind res_bind].
  unfold tile_extent, in_dims. rewrite (proj2 (Z.ltb_lt _ _)) by (rewrite En; unfold zlen; lia). cbn [massert mbind res_bind].
  rewrite (idx_ok _ _ _ Hd). cbn [mbind res_bind]. rewrite (rd_extent ty dim _ _ _ Ht). cbn [mbind res_bind].
  rewrite (idx_ok _ _ _ Hr). cbn [mbind res_bind].
  assert (ndomain D = Ok (Dimension.domain_ <$> dimensions_ D)) as ->.
  { unfold ndomain. rewrite (mapM_up (dimensions_ D) _ Dimension.domain_); [done|done|]. intros k e Hk. by rewrite (idx_ok _ _ _ Hk). }
  cbn [mbind res_bind]. rewrite (idx_ok _ d (Dimension.domain_ dim)) by (by rewrite list_lookup_fmap, Hd). cbn [mbind res_bind].
  destruct (tiled_domain _ _ _ _ _ Ht) as (Ed & Vl & _).
  assert (rd (NInt ty) (range_ (Dimension.domain_ dim)) 0 = Ok (a_lo g)) as -> by (by apply (rd_at (NInt ty) _ [] _ (nenc (NInt ty) (a_hi g)))).
  cbn [mbind res_bind]. clear Hp Hr. enough (∀ set0, ∃ set, for_each rs (λ range set,
    '(r0, r1) ← rd2 (NInt ty) range; tile_start ← SubarrayTiles.tile_index ty (a_lo g) (a_ext g) r0; tile_end ← SubarrayTiles.tile_index ty (a_lo g) (a_ext g) r1;
    Ok (foldl (λ set t, set_insert (conv ty t) set) set (zseq tile_start tile_end))) set0 = Ok set ∧
    ∀ x, x ∈ set ↔ x ∈ set0 ∨ ∃ p, p ∈ ps ∧ tile_at g p.1 ≤ x ≤ tile_at g p.2) as H.
  { destruct (H []) as (set & E & Hin). exists set. split; [exact E|]. intros x. rewrite Hin, elem_of_nil. intuition. }
  induction Hrs as [|r p rs ps Hr Hrs IH]; intros set0.
  - exists set0. split; [done|]. intros x. split; [by left|]. intros [?|(p & Hp%not_elem_of_nil & _)]; done.
  - inversion Hon as [|? ? Hp Hon']; subst. pose proof Hp as (P1 & P2 & P3). cbn [for_each]. rewrite (rd2_pair _ _ _ _ Hr). cbn [mbind res_bind].
    rewrite !(tile_index_at dim g) by (done || lia). cbn [mbind res_bind].
    destruct (IH Hon' (foldl (λ set t, set_insert (conv ty t) set) set0 (zseq (tile_at g p.1) (tile_at g p.2)))) as (set & E & Hin).
    exists set. split; [exact E|]. intros x. rewrite Hin, elem_set_inserts.
    assert (conv ty <$> zseq (tile_at g p.1) (tile_at g p.2) = zseq (tile_at g p.1) (tile_at g p.2)) as ->.
    { rewrite <- (list_fmap_id (zseq _ _)) at 2. apply list_fmap_ext. intros k j Hj. apply list_elem_of_lookup_2, zseq_in in Hj. apply conv_id.
      destruct (tile_of_ok ty dim g Hax p.1) as (_ & C1 & _); [lia|]. destruct (tile_of_ok ty dim g Hax p.2) as (_ & C2 & _); [lia|].
      by apply (in_between ty (tile_at g p.1) _ (tile_at g p.2)). }
    assert (x ∈ zseq (tile_at g p.1) (tile_at g p.2) ↔ tile_at g p.1 ≤ x ≤ tile_at g p.2) as ->.
    { rewrite zseq_seqZ, elem_of_seqZ. lia. }
    setoid_rewrite elem_of_cons. split.
    + intros [[?|?]|(q & ? & ?)]; [by left|right; exists p|right; exists q]; split; auto.
    + intros [?|(q & [->|?] & ?)]; [by left; left|by left; right|right; by exists q].
Qed.

Lemma coords_sets_ok : ∃ sets, mapM (coords_set A ty s) (seq 0 n) = Ok sets ∧ length sets = n ∧
  ∀ d g ps, gs !! d = Some g → rss !! d = Some ps → ∃ set, sets !! d = Some set ∧ ∀ x, x ∈ set ↔ ∃ p, p ∈ ps ∧ tile_at g p.1 ≤ x ≤ tile_at g p.2.
Proof.
  destruct (mapM_total (coords_set A ty s) (seq 0 n)) as [sets E].
  { intros d Hd%elem_of_seq. destruct (lookup_lt_is_Some_2 gs d) as [g Hg]; [lia|]. destruct (lookup_lt_is_Some_2 rss d) as [ps Hp]; [rewrite length_rss; lia|].
    destruct (coords_set_ok d g ps Hg Hp) as (set & E & _). by exists set. }
  pose proof (mapM_inv _ _ _ E) as H. pose proof (Forall2_length _ _ _ H) as L. rewrite length_seq in L. exists sets. split_and!; [done|done|].
  intros d g ps Hg Hp. destruct (coords_set_ok d g ps Hg Hp) as (set & Eset & Hin). pose proof (lookup_lt_Some _ _ _ Hg) as Hlt.
  destruct (Forall2_lookup_l _ _ _ d d H) as (set' & Hset' & E'); [by apply lookup_seq|]. rewrite Eset in E'. injection E' as <-. by exists set.
Qed.

Lemma gs_pos : (0 < n)%nat.
Proof. destruct (sl_dense HA) as [_ _ H]. by destruct gs; [|simpl; lia]. Qed.

Lemma set_num (sets : list (list Z)) : ∀ k, foldl (λ n set, n * length set)%nat k sets = (k * Z.to_nat (cap (zlen <$> sets)))%nat.
Proof.
  induction sets as [|l sets IH]; intros k; simpl; [lia|]. rewrite IH.
  assert (0 ≤ cap (zlen <$> sets)) by (clear; induction sets as [|w ws IH]; [done|]; apply Z.mul_nonneg_nonneg; [unfold zlen; lia|exact IH]).
  rewrite Z2Nat.inj_mul; [|unfold zlen; lia|done]. assert (Z.to_nat (zlen l) = length l) as -> by (unfold zlen; lia). by rewrite Nat.mul_assoc.
Qed.

(** A list of tiles, one of each dimension, that the ranges meet. *)
Definition meets (ts : list Z) : Prop :=
  length ts = n ∧ ∀ d g ps t, gs !! d = Some g → rss !! d = Some ps → ts !! d = Some t → ∃ p, p ∈ ps ∧ tile_at g p.1 ≤ t ≤ tile_at g p.2.

Lemma tile_coords_ok : ∃ s', compute_tile_coords A ty s = Ok s' ∧ ranges_ s' = ranges_ s ∧ Subarray.layout_ s' = Subarray.layout_ s ∧
  ∀ ts, meets ts → tile_coords_ptr ty s' ts = Ok (Some (concat (nenc (NInt ty) <$> ts))).
Proof.
  destruct coords_sets_ok as (sets & E & Ls & Hsets). unfold compute_tile_coords. rewrite dims_gs. cbn [mbind res_bind]. rewrite E. cbn [mbind res_bind].
  set (row := bool_decide (ArraySchema.tile_order_ (array_schema A) = ROW_MAJOR)). pose proof gs_pos as Hp.
  assert (Forall (λ set, set ≠ []) sets) as Hne.
  { apply Forall_lookup. intros d set Hd. pose proof (lookup_lt_Some _ _ _ Hd) as Hlt. rewrite Ls in Hlt.
    destruct (lookup_lt_is_Some_2 gs d Hlt) as [g Hg]. destruct (lookup_lt_is_Some_2 rss d) as [ps Hps]; [by rewrite length_rss|].
    destruct (Hsets d g ps Hg Hps) as (set' & Hd' & Hin). rewrite Hd in Hd'. injection Hd' as <-.
    destruct (dim_data d g ps Hg Hps) as (dim & _ & _ & Hax & _ & _ & _ & Hps0 & Hon & _). destruct ps as [|p ps]; [done|]. inversion Hon as [|? ? (_ & P & _) _]; subst.
    intros ->. apply (not_elem_of_nil (tile_at g p.1)), Hin. exists p. split; [left|]. pose proof (tile_at_mono ty dim g Hax _ _ P). lia. }
  assert (length (ord row sets) = n) as Lo by (by rewrite length_ord).
  assert (Forall (λ set, set ≠ []) (ord row sets)) as Hne' by (destruct row; [done|by apply Forall_rev]).
  pose proof (fill_tuples ty row (ord row sets) Hne') as Ef. unfold set_sizes in Ef. rewrite ord_ord, Lo in Ef.
  rewrite order_seq, set_num, Nat.mul_1_l.
  assert ((if row then 0 else n - 1)%nat = pos row n 0) as -> by (destruct row; simpl; lia).
  assert (cap (zlen <$> ord row sets) = cap (zlen <$> sets)) as Ec by (rewrite fmap_ord; apply cap_ord). rewrite Ec in Ef.
  rewrite Ef by (intros H; rewrite H in Lo; simpl in Lo; lia). cbn [mbind res_bind]. eexists. split; [done|]. split; [done|]. split; [done|].
  intros ts [Lt Ht]. unfold tile_coords_ptr. cbn [tile_coords_map_ with_tile_coords tile_coords_].
  assert (concat (nenc (NInt ty) <$> ts) = tile_bytes ty row (ord row ts)) as -> by (unfold tile_bytes; by rewrite ord_ord).
  destruct (coords_map (tile_bytes ty row <$> tuples (ord row sets)) (tile_coords_map_ s) (tile_bytes ty row (ord row ts))) as (i & -> & Hi).
  - apply list_elem_of_fmap. exists (ord row ts). split; [done|]. apply elem_tuples.
    assert (Forall2 elem_of ts sets) as H; [|destruct row; [done|by apply forall2_rev]].
    apply Forall2_same_length_lookup. split; [lia|]. intros d t set Htd Hd. pose proof (lookup_lt_Some _ _ _ Htd) as Hlt. rewrite Lt in Hlt.
    destruct (lookup_lt_is_Some_2 gs d Hlt) as [g Hg]. destruct (lookup_lt_is_Some_2 rss d) as [ps Hps]; [by rewrite length_rss|].
    destruct (Hsets d g ps Hg Hps) as (set' & Hd' & Hin). rewrite Hd in Hd'. injection Hd' as <-. apply Hin. by apply (Ht d g ps t).
  - rewrite (idx_ok _ _ _ Hi). done.
Qed.

(** *** The start of the iteration *)

(** The parts of the ranges of each dimension. *)
Definition pss : list (list SlabRange) := zip_with (λ g ps, ps ≫= parts g) gs rss.

Lemma pss_lookup d rs : pss !! d = Some rs → ∃ g ps dim, gs !! d = Some g ∧ rss !! d = Some ps ∧ rs = ps ≫= parts g ∧ axis_ok ty dim g ∧
  a_hi g < tmax ty ∧ ranges_on g ps.
Proof.
  intros H. apply lookup_zip_with_Some in H as (g & ps & -> & Hg & Hp). destruct (dim_data d g ps Hg Hp) as (dim & _ & _ & Hax & Hm & _ & _ & Hon).
  exists g, ps, dim. by split_and!.
Qed.

Lemma length_pss : length pss = n.
Proof. unfold pss. rewrite length_zip_with, length_rss. lia. Qed.

(** A part of a range. *)
Lemma part_data g ps r : Forall (on_axis g) ps → r ∈ ps ≫= parts g → ∃ p, p ∈ ps ∧ on_axis g p ∧ r ∈ parts g p.
Proof.
  intros Hon Hr. apply list_elem_of_bind in Hr as (p & Hr & Hp). exists p. split_and!; [done| |done]. by apply (Forall_forall (on_axis g) ps).
Qed.

Lemma pss_good : Forall (λ ps, ps ≠ [] ∧ zlen ps ≤ tmax ty ∧ Forall (good_part ty) ps) pss.
Proof.
  apply Forall_lookup. intros d rs Hd. destruct (pss_lookup d rs Hd) as (g & ps & dim & _ & _ & -> & Hax & Hm & Hps & Hon & Hz). split_and!; [|done|].
  - destruct ps as [|p ps]; [done|]. inversion Hon as [|? ? Hp _]; subst. rewrite bind_cons. intros [H _]%app_eq_nil. by apply (parts_nonempty ty dim g Hax p).
  - apply Forall_forall. intros r Hr. destruct (part_data g ps r Hon Hr) as (p & _ & Hp & Hr').
    destruct (part_tile ty dim g Hax p r Hp Hr') as (H1 & H2 & H3 & _). destruct Hp as (P1 & P2 & P3).
    split_and!; [done|apply (axis_ctype ty dim g Hax); lia|]. apply (axis_ctype ty dim g Hax); lia.
Qed.

Lemma init_dim_ok d rs : pss !! d = Some rs → init_dim A ty s d [] = Ok rs.
Proof.
  intros Hd. destruct (pss_lookup d rs Hd) as (g & ps & dim & Hg & Hps & -> & Hax & Hm & Hne & Hon & _).
  destruct (dim_data d g ps Hg Hps) as (_ & rs & _ & _ & _ & Hr & Hrs & _). pose proof (lookup_lt_Some _ _ _ Hg) as Hlt.
  assert (dim_num (array_schema A) = Ok (Z.of_nat n)) as En.
  { rewrite (dim_num_n A D (sl_dims HA)). do 2 f_equal. destruct (sl_dense HA) as [_ H _]. by apply Forall2_length in H. }
  unfold init_dim, ArraySchema.domain. rewrite (hd_domain _ _ (sl_dims HA)). cbn [mbind res_bind].
  rewrite (dom0_at_ok ty D gs d g (sl_dense HA) Hg). cbn [mbind res_bind]. unfold get_range_num, dim_in_bounds. rewrite En. cbn [mbind res_bind].
  rewrite (proj2 (Z.leb_gt _ _)) by lia. cbn [mbind res_bind]. rewrite (idx_ok _ _ _ Hr). cbn [mbind res_bind].
  rewrite (extent_at_ok ty D gs d g (sl_dense HA) Hg). cbn [mbind res_bind].
  assert (∀ (k : nat) r, rs !! k = Some r → get_range A s d (Z.of_nat k) = Ok r) as Hget.
  { intros k r Hk. pose proof (lookup_lt_Some _ _ _ Hk). unfold get_range, dim_in_bounds. rewrite En. cbn [mbind res_bind].
    rewrite (proj2 (Z.leb_gt (Z.of_nat n) _)) by lia. cbn [mbind res_bind]. rewrite (idx_ok _ _ _ Hr). cbn [mbind res_bind].
    rewrite (proj2 (Z.leb_gt (zlen rs) _)) by (unfold zlen; lia). unfold range_at. rewrite (idx_ok _ _ _ Hr). cbn [mbind res_bind].
    rewrite (proj2 (Z.ltb_ge _ _)) by lia. rewrite Nat2Z.id. by apply idx_ok. }
  assert (∀ l1 l2 q1 q2 acc, rs = l1 ++ l2 → Forall2 (λ r p, is_pair (NInt ty) r p.1 p.2) l2 q2 → Forall (on_axis g) q2 → length l1 = q1 →
    for_each (zseq (Z.of_nat q1) (zlen rs - 1)) (λ j ranges, r ← get_range A s d j; range ← rd2 (NInt ty) r; create_ranges ty range (a_ext g) (a_lo g) ranges) acc =
    Ok (acc ++ (q2 ≫= parts g))) as H.
  { intros l1 l2. revert l1. induction l2 as [|r l2 IH]; intros l1 q1 q2 acc El H2 Ho Lq.
    - inversion H2; subst q2. rewrite zseq_nil by (rewrite El, app_nil_r; unfold zlen; lia). simpl. by rewrite app_nil_r.
    - apply Forall2_cons_inv_l in H2 as (p & q2' & Hp & H2' & ->). apply Forall_cons in Ho as [Hop Ho']. subst q1.
      assert (rs !! length l1 = Some r) as Hl by (rewrite El; by apply list_lookup_middle). pose proof (lookup_lt_Some _ _ _ Hl) as Hll.
      rewrite zseq_cons by (unfold zlen; lia). cbn [for_each]. rewrite (Hget _ _ Hl). cbn [mbind res_bind]. rewrite (rd2_pair _ _ _ _ Hp). cbn [mbind res_bind].
      rewrite <- surjective_pairing. rewrite (create_ranges_ok ty dim g Hax Hm p acc Hop). cbn [mbind res_bind].
      replace (Z.of_nat (length l1) + 1) with (Z.of_nat (S (length l1))) by lia.
      rewrite (IH (l1 ++ [r]) (S (length l1)) q2' (acc ++ parts g p)); [by rewrite bind_cons, app_assoc|by rewrite <- app_assoc|done|done|].
      rewrite length_app. simpl. lia. }
  apply (H [] rs 0%nat ps []); done.
Qed.

Lemma init_ranges_ok : init_ranges A ty s [] = Ok pss.
Proof.
  unfold init_ranges. rewrite dims_gs. cbn [mbind res_bind]. unfold vresize. rewrite take_nil, app_nil_l, Nat2Z.id, Nat.sub_0_r.
  apply mapM_ok, Forall2_same_length_lookup. rewrite length_seq, length_pss. split; [done|]. intros d d' rs Hd Hrs. apply lookup_seq in Hd as [-> Hd].
  simpl Nat.add. rewrite (idx_ok _ d []) by (by apply lookup_replicate). by apply init_dim_ok.
Qed.

(** *** All slabs *)

Variable row : bool.
Hypothesis Hlayout : Subarray.layout_ s = if row then ROW_MAJOR else COL_MAJOR.
Hypothesis Hptr : ∀ ts, meets ts → tile_coords_ptr ty s ts = Ok (Some (concat (nenc (NInt ty) <$> ts))).

Variables (init : list (list SlabRange)) (lst : list SlabRange).
Hypothesis Hms : ord row pss = init ++ [lst].
Abbreviation ws := (wheels init lst).

Lemma length_ms : length (init ++ [lst]) = n.
Proof. by rewrite <- Hms, length_ord, length_pss. Qed.

Lemma layout_row : bool_decide (Subarray.layout_ s = ROW_MAJOR) = row.
Proof. rewrite Hlayout. by destruct row. Qed.

Lemma ms_good : Forall (λ ps, ps ≠ [] ∧ zlen ps ≤ tmax ty ∧ Forall (good_part ty) ps) (init ++ [lst]).
Proof. rewrite <- Hms. pose proof pss_good. destruct row; [done|by apply Forall_rev]. Qed.

Lemma dims_ms : dims A = Ok (length (init ++ [lst])).
Proof. by rewrite length_ms, dims_gs. Qed.

(** The part of a stop, and the coordinate in it. *)
Lemma stop_part t k w : t ∈ tuples ws → t !! k = Some w → ∃ g ps p dim, ord row gs !! k = Some g ∧ ord row rss !! k = Some ps ∧
  p ∈ ps ∧ on_axis g p ∧ axis_ok ty dim g ∧ s_part w ∈ parts g p ∧ start_ (s_part w) ≤ s_coord w ≤ end_ (s_part w).
Proof.
  intros Ht Hw. pose proof ms_good as Hgood. pose proof Ht as Ht'. apply elem_tuples in Ht'.
  destruct (Forall2_lookup_l _ _ _ _ _ Ht' Hw) as (wh & Hwh & Hin). destruct (wheels_lookup init lst k wh Hwh) as (rs & Hrs & ->).
  apply list_elem_of_lookup in Hin as [q Hq]. destruct (Forall_lookup_1 _ _ _ _ Hgood Hrs) as (_ & _ & Hg).
  destruct (stops_lookup (bool_decide (S k = length (init ++ [lst]))) rs) with (k := 0) (q := q) (w := w) as (j & _ & Hj & Hc & _); [|done|].
  { eapply Forall_impl; [exact Hg|]. by intros x [? _]. }
  rewrite <- Hms in Hrs. unfold pss in Hrs. assert (length gs = length rss) as El by (by rewrite length_rss).
  assert (ord row (zip_with (λ g ps, ps ≫= parts g) gs rss) = zip_with (λ g ps, ps ≫= parts g) (ord row gs) (ord row rss)) as Ez
    by (destruct row; [done|symmetry; by apply rev_zip_with]).
  rewrite Ez in Hrs. apply lookup_zip_with_Some in Hrs as (g & ps & -> & Hg1 & Hp1).
  assert (∃ d, gs !! d = Some g ∧ rss !! d = Some ps) as (d & Hd1 & Hd2).
  { exists (pos row n k). pose proof (lookup_lt_Some _ _ _ Hg1) as Hk. rewrite length_ord in Hk.
    rewrite (ord_at row gs n) in Hg1 by done. by rewrite (ord_at row rss n) in Hp1 by (done || apply length_rss). }
  destruct (dim_data d g ps Hd1 Hd2) as (dim & _ & _ & Hax & _ & _ & _ & _ & Hon & _).
  destruct (part_data g ps (s_part w) Hon) as (p & Hp & Hop & Hpart); [by apply list_elem_of_lookup_2 in Hj|].
  exists g, ps, p, dim. repeat (split; [done|]). lia.
Qed.

Lemma tiles_meet t : t ∈ tuples ws → meets (tiles_of row t).
Proof.
  intros Ht. pose proof (length_tuple init lst t Ht) as Lt. rewrite length_ms in Lt. split; [unfold tiles_of; by rewrite length_ord, length_fmap|].
  intros d g ps x Hg Hps Hx. pose proof (lookup_lt_Some _ _ _ Hg) as Hlt. unfold tiles_of in Hx.
  rewrite (ord_at row _ n) in Hx by (done || by rewrite length_fmap). apply list_lookup_fmap_Some in Hx as (w & -> & Hw).
  destruct (stop_part t _ w Ht Hw) as (g' & ps' & p & dim & Hg' & Hps' & Hp & Hop & Hax & Hpart & _).
  assert (pos row n d < n)%nat as Hpd by (destruct row; simpl; lia). assert (pos row n (pos row n d) = d) as Ed by (destruct row; simpl; lia).
  rewrite (ord_at row gs n), Ed, Hg in Hg' by done. injection Hg' as <-.
  rewrite (ord_at row rss n), Ed, Hps in Hps' by (done || apply length_rss). injection Hps' as <-.
  exists p. split; [done|]. by apply (part_tile ty dim g Hax p).
Qed.

(** The first stops. *)
Definition first_stop (rs : list SlabRange) : Stop := match rs with p :: _ => mkStop 0 (start_ p) p | [] => inhabitant end.

Lemma at_zero : at_ init lst 0 = first_stop <$> (init ++ [lst]).
Proof.
  unfold at_. pose proof (sizes_grid ty init lst ms_good) as Hg. rewrite <- (flat_zeros (sizes init lst)), (dig_flat _ _ (inside_zeros _ Hg)).
  apply list_eq_same_length with n.
  - by rewrite length_fmap, length_ms.
  - unfold sel, zeros. rewrite length_zip_with, length_fmap, length_sizes, length_wheels, length_ms. lia.
  - intros k x y Hk Hx Hy. apply lookup_zip_with_Some in Hx as (w & c & -> & Hw & Hc). apply list_lookup_fmap_Some in Hc as (z & -> & _).
    destruct (wheels_lookup init lst k w Hw) as (rs & Hrs & ->). apply list_lookup_fmap_Some in Hy as (rs' & -> & Hrs'). rewrite Hrs in Hrs'. injection Hrs' as <-.
    destruct (Forall_lookup_1 _ _ _ _ ms_good Hrs) as (Hne & _ & Hg'). destruct rs as [|p rs]; [done|]. inversion Hg' as [|? ? [Hp _] _]; subst.
    apply list_lookup_total_correct. by apply stops_head.
Qed.

Lemma init_coords_ok : init_coords A pss = Ok (ord row (s_idx <$> at_ init lst 0), ord row (s_coord <$> at_ init lst 0)).
Proof.
  rewrite at_zero, <- Hms, <- !list_fmap_compose, !fmap_ord, !ord_ord. unfold init_coords. rewrite dims_gs. cbn [mbind res_bind].
  rewrite (mapM_ok _ _ (s_coord ∘ first_stop <$> pss)).
  - cbn [mbind res_bind]. enough (s_idx ∘ first_stop <$> pss = replicate n 0) as -> by done. rewrite <- length_pss. clear.
    induction pss as [|rs l IH]; [done|]. rewrite fmap_cons, IH. by destruct rs.
  - apply Forall2_same_length_lookup. rewrite length_seq, length_fmap, length_pss. split; [done|]. intros d d' y Hd Hy.
    apply lookup_seq in Hd as [-> Hd]. apply list_lookup_fmap_Some in Hy as (rs & -> & Hrs). simpl Nat.add. rewrite (idx_ok _ _ _ Hrs). cbn [mbind res_bind].
    destruct (Forall_lookup_1 _ _ _ _ pss_good Hrs) as (Hne & _). by destruct rs.
Qed.

Lemma lengths_ok : init_cell_slab_lengths A ty s pss = Ok (slab_length <$> lst).
Proof.
  unfold init_cell_slab_lengths. rewrite dims_ms. cbn [mbind res_bind]. rewrite (last_dim s row init lst layout_row).
  rewrite <- (ord_ord row pss), Hms. rewrite (idx_ord row (init ++ [lst]) _ _ lst eq_refl) by (rewrite length_app; simpl; rewrite Nat.add_sub; by apply list_lookup_middle).
  cbn [mbind res_bind]. apply mapM_ok, Forall2_fmap_r, Forall_Forall2_diag, Forall_forall. intros r Hr.
  assert (∃ d, pss !! d = Some lst) as [d Hd].
  { apply list_elem_of_lookup. assert (lst ∈ ord row pss) as H by (rewrite Hms; apply elem_of_app; right; by left).
    destruct row; [done|]. simpl in H. by apply list_elem_of_In, in_rev, list_elem_of_In. }
  destruct (pss_lookup d lst Hd) as (g & ps & dim & _ & _ & El & Hax & _ & _ & Hon & _). rewrite El in Hr.
  destruct (part_data g ps r Hon Hr) as (p & _ & Hp & Hr'). destruct (part_tile ty dim g Hax p r Hp Hr') as (_ & H1 & _ & H2 & H3 & _).
  pose proof Hax as [Ht _]. destruct (tiled_extent _ _ _ _ _ Ht) as [_ Hv]. simpl in Hv. unfold tile_lo, tile_hi in *.
  assert (in_ctype ty (end_ r - start_ r + 1)) as C1 by (apply (in_nonneg ty _ _ Hv); lia).
  assert (in_ctype ty (end_ r - start_ r)) as C2 by (apply (in_nonneg ty _ _ C1); lia).
  rewrite subT_ok by (by apply in_promote). cbn [mbind res_bind]. rewrite addT_ok by (by apply in_promote). cbn [mbind res_bind].
  rewrite conv_id; [done|]. revert C1 H1. clear. intros C1 H1. destruct ty; unfold_ctype; simpl in *; lia.
Qed.

Lemma update_started it : (it' ← update_cell_slab A ty s it; Ok (started it')) = update_cell_slab A ty s (started it).
Proof.
  unfold update_cell_slab. cbn [started slab_ranges_ range_coords_ cell_slab_coords_ cell_slab_lengths_ at_end_].
  repeat lazymatch goal with |- (?x ≫= _) ≫= _ = _ => destruct x; [cbn [mbind res_bind]|reflexivity..] end. done.
Qed.

Lemma begin_ok : begin_ A ty (Some s) make_iter = (Ok (), iter_of row init lst (slab_of ty row (at_ init lst 0)) (at_ init lst 0)).
Proof.
  unfold begin_. assert (sanity_check A ty s = Ok ()) as ->.
  { unfold sanity_check. rewrite Hlayout. assert (negb (bool_decide ((if row then ROW_MAJOR else COL_MAJOR) = ROW_MAJOR)) &&
      negb (bool_decide ((if row then ROW_MAJOR else COL_MAJOR) = COL_MAJOR)) = false) as -> by (by destruct row).
    destruct (lookup_lt_is_Some_2 (dimensions_ D) 0) as [dim Hd]; [apply (n_pos A D (sl_dims HA))|].
    rewrite (dimension_at_n A D (sl_dims HA) 0 dim Hd). cbn [mbind res_bind]. rewrite (Forall_lookup_1 _ _ _ _ (sl_type HA) Hd). by rewrite bool_decide_true. }
  cbn [mbind res_bind make_iter slab_ranges_]. rewrite init_ranges_ok. cbn [mbind res_bind]. rewrite init_coords_ok. cbn [mbind res_bind].
  rewrite lengths_ok. cbn [mbind res_bind]. rewrite update_started. 
  assert (started (mkIter (cell_slab_ make_iter) (ord row (s_idx <$> at_ init lst 0)) (ord row (s_coord <$> at_ init lst 0))
    (slab_length <$> lst) (at_end_ make_iter) pss) = iter_of row init lst no_slab (at_ init lst 0)) as ->.
  { unfold iter_of, iter_at. by rewrite <- Hms, ord_ord. }
  rewrite (update_ok A ty s row init lst dims_ms layout_row ms_good); [done| |].
  - intros t Ht. by apply Hptr, tiles_meet.
  - apply at_tuple. pose proof (cap_pos _ (sizes_grid ty init lst ms_good)). lia.
Qed.

Lemma slab_num : zlen (tuples ws) = cap (sizes init lst).
Proof.
  rewrite tuples_digits. unfold zlen at 1. rewrite length_fmap, length_seqZ. fold (sizes init lst). pose proof (cap_pos _ (sizes_grid ty init lst ms_good)). lia.
Qed.

Lemma cell_slabs_ok fuel : zlen (tuples ws) ≤ Z.of_nat fuel → cell_slabs A ty fuel s = Ok (slab_of ty row <$> tuples ws).
Proof.
  rewrite slab_num. intros Hf. unfold cell_slabs. rewrite begin_ok.
  apply (slabs_ok A ty s row init lst dims_ms layout_row ms_good); [|done]. intros t Ht. by apply Hptr, tiles_meet.
Qed.

(** The cells of a slab lie in its tile. *)
Lemma cells_tile t c : t ∈ tuples ws → c ∈ slab_cells row (slab_of ty row t) → zip_with tile_at gs c = tiles_of row t.
Proof.
  intros Ht Hc. pose proof Ht as Ht'. unfold wheels in Ht'. rewrite tuples_snoc in Ht'. apply list_elem_of_bind in Ht' as (t1 & Hx & _).
  apply list_elem_of_fmap in Hx as (w & -> & Hw). pose proof ms_good as Hgood. apply Forall_app in Hgood as [_ [(_ & _ & Hlst) _]%Forall_cons].
  assert (Forall nonempty_part lst) as Hne by (eapply Forall_impl; [exact Hlst|]; by intros p [? _]).
  destruct (stops_start lst Hne w Hw) as [Hst _]. rewrite slab_cells_of in Hc by done. apply list_elem_of_fmap in Hc as (x & -> & Hx%zseq_in).
  pose proof (length_tuple init lst _ Ht) as Lt. rewrite length_ms, length_app in Lt. simpl in Lt. unfold tiles_of.
  assert (zip_with tile_at gs (ord row ((s_coord <$> t1) ++ [x])) = ord row (zip_with tile_at (ord row gs) ((s_coord <$> t1) ++ [x]))) as ->.
  { destruct row; [done|]. simpl. rewrite <- (rev_involutive gs) at 1. apply rev_zip_with. rewrite length_rev, length_app, length_fmap. simpl. lia. }
  f_equal. apply list_eq_same_length with n; [rewrite length_fmap, length_app; simpl; lia|rewrite length_zip_with, length_ord, length_app, length_fmap; simpl; lia|].
  intros k a b Hk Ha Hb. apply lookup_zip_with_Some in Ha as (g & cx & -> & Hg & Hcx). apply list_lookup_fmap_Some in Hb as (v & -> & Hv).
  destruct (stop_part _ k v Ht Hv) as (g' & ps & p & dim & Hg' & _ & _ & Hop & Hax & Hpart & Hco). rewrite Hg in Hg'. injection Hg' as <-.
  destruct (part_tile ty dim g Hax p _ Hop Hpart) as (_ & _ & _ & T1 & T2 & _). apply (tile_at_in ty dim g Hax).
  enough (start_ (s_part v) ≤ cx ≤ end_ (s_part v)) by lia. apply lookup_app_Some in Hv as [Hv|[Hl Hv]].
  - rewrite lookup_app_l in Hcx by (rewrite length_fmap; by apply lookup_lt_Some in Hv). rewrite list_lookup_fmap, Hv in Hcx. by injection Hcx as <-.
  - destruct (k - length t1)%nat as [|?] eqn:Ek in Hv; [|done]. injection Hv as <-.
    rewrite lookup_app_r, length_fmap, Ek in Hcx by (by rewrite length_fmap). injection Hcx as <-. done.
Qed.

Lemma values_ms : (λ ps, ps ≫= part_values) <$> init ++ [lst] = ord row ((λ ps, ps ≫= values) <$> rss).
Proof.
  rewrite <- Hms, fmap_ord. f_equal. apply list_eq_same_length with n; rewrite ?length_fmap, ?length_pss, ?length_rss; [done..|].
  intros d x y Hd Hx Hy. apply list_lookup_fmap_Some in Hx as (rs & -> & Hrs). apply list_lookup_fmap_Some in Hy as (ps & -> & Hps).
  destruct (pss_lookup d rs Hrs) as (g & ps' & dim & _ & Hps' & -> & Hax & _ & _ & Hon & _). rewrite Hps in Hps'. injection Hps' as <-.
  rewrite bind_assoc. apply bind_ext_in. intros p Hp. apply (parts_values ty dim g Hax). by apply (Forall_forall (on_axis g) ps).
Qed.

Lemma slabs_exact fuel : let cells := ord row <$> tuples (ord row ((λ ps, ps ≫= values) <$> rss)) in
  zlen cells ≤ Z.of_nat fuel → ∃ l, cell_slabs A ty fuel s = Ok l ∧ l ≫= slab_cells row = cells ∧
    Forall (λ sl, ∀ c, c ∈ slab_cells row sl → slab_tile_coords_ sl = Some (concat (nenc (NInt ty) <$> zip_with tile_at gs c))) l.
Proof.
  intros cells Hf. pose proof ms_good as Hgood. apply Forall_app in Hgood as [_ [(_ & _ & Hlst) _]%Forall_cons].
  assert (Forall nonempty_part lst) as Hne by (eapply Forall_impl; [exact Hlst|]; by intros p [? _]).
  exists (slab_of ty row <$> tuples ws). split; [|split].
  - apply cell_slabs_ok. pose proof (slabs_le_cells ty row init lst Hne) as H. rewrite values_ms in H.
    unfold cells, zlen in *. rewrite length_fmap in Hf. lia.
  - by rewrite (wheels_cells ty row init lst Hne), values_ms.
  - apply Forall_fmap, Forall_forall. intros t Ht c Hc. by rewrite (cells_tile t c Ht Hc).
Qed.

End whole.

(** C5. The slabs of a subarray of a dense array, with the ranges [rss] in row-major or column-major
    layout: computed after the tile coordinates, they hold the cells of the ranges, in the order
    of the layout and each as often as the ranges of its dimensions repeat it, and no slab leaves the tile it names. *)
Theorem cell_slabs_exact {F : Type} `{!FragmentMeta F} (A : Array F) D ty gs s rss (row : bool) fuel :
  sliceable A D ty gs → has_ranges ty gs s rss → Subarray.layout_ s = (if row then ROW_MAJOR else COL_MAJOR) →
  let cells := ord row <$> tuples (ord row ((λ ps, ps ≫= values) <$> rss)) in
  zlen cells ≤ Z.of_nat fuel →
  ∃ s' l, compute_tile_coords A ty s = Ok s' ∧ cell_slabs A ty fuel s' = Ok l ∧ l ≫= slab_cells row = cells ∧
    Forall (λ sl, ∀ c, c ∈ slab_cells row sl → slab_tile_coords_ sl = Some (concat (nenc (NInt ty) <$> zip_with tile_at gs c))) l.
Proof.
  intros HA Hs Hl cells Hf. destruct (tile_coords_ok A D ty gs HA s rss Hs) as (s' & E & Er & El & Hptr).
  destruct (exists_last (l := ord row (pss gs rss))) as (init & lst & Hms).
  { intros E0%(f_equal length). rewrite length_ord, (length_pss ty gs s rss Hs) in E0. pose proof (gs_pos A D ty gs HA). simpl in E0. lia. }
  destruct (slabs_exact A D ty gs HA s' rss) with (row := row) (init := init) (lst := lst) (fuel := fuel) as (l & H1 & H2 & H3); [|congruence|done..|].
  - unfold has_ranges. by rewrite Er.
  - by exists s', l.
Qed.

(** ** Sample arrays *)

(** An array without fragments, with one attribute. *)
#[local] Instance no_fragments : FragmentMeta unit := {
  fm_dense _ := true;
  fm_overlaps_non_empty_domain _ _ := Ok false;
  fm_load_rtree _ := Ok ();
  fm_get_tile_overlap _ _ := Ok no_overlap;
  fm_overlapping_tile_ids_cov _ _ _ := Ok [];
  fm_tile_size _ _ _ := Ok 0;
  fm_load_tile_var_sizes _ _ := Ok ();
  fm_tile_var_size _ _ _ := Ok 0
}.

Definition slab_sample_dim (ty : ctype) (dt : Datatype) (lo hi ext : Z) (name : list Z) : Dimension.t :=
  Dimension.mk 1 (pair_of (NInt ty) lo hi) Filter.empty_pipeline name (nenc (NInt ty) ext) dt.
Definition slab_sample_schema (ds : list Dimension.t) : ArraySchema.t :=
  (add_attribute (Some (Attribute.make (lit "a") INT32)) true
    (set_domain (ArraySchema.make DENSE, Some (with_dimensions Domain.empty ds (zlen ds)))).2.1).2.
Definition slab_sample (ds : list Dimension.t) : Array unit := mkArray (slab_sample_schema ds) [] 2.
Definition slab_sample_subarray (layout : Layout) (rs : list (list Range)) : Subarray :=
  mkSubarray layout ROW_MAJOR rs ((λ _, false) <$> rs) [] [] false false ∅ ∅ [] [] ∅.

(** The subarray with its tile coordinates, where they can be computed. *)
Definition with_tile_coords (ty : ctype) (ds : list Dimension.t) (s : Subarray) : Subarray :=
  match compute_tile_coords (slab_sample ds) ty s with Ok s' => s' | _ => s end.

(** The domain [[1, 10]] in both dimensions, in tiles of 5 by 5; the rows [[4, 6]] and the
    columns [[4, 8]] and [[1, 1]]. *)
Definition slab_sample_dims : list Dimension.t := [slab_sample_dim I32 INT32 1 10 5 (lit "x"); slab_sample_dim I32 INT32 1 10 5 (lit "y")].
Definition slab_sample_axes : list axis := [Axis 1 10 5; Axis 1 10 5].
Definition slab_sample_ranges : list (list (Z * Z)) := [[(4, 6)]; [(4, 8); (1, 1)]].
Definition slab_sample2 : Subarray := slab_sample_subarray COL_MAJOR (fmap (M := list) (λ p, pair_of (NInt I32) p.1 p.2) <$> slab_sample_ranges).

Lemma slab_sample_sliceable : sliceable (slab_sample slab_sample_dims)
  (default Domain.empty (ArraySchema.domain_ (slab_sample_schema slab_sample_dims))) I32 slab_sample_axes.
Proof.
  assert (∀ z, -1000 ≤ z ≤ 1000 → in_ctype I32 z) as Hi by (intros; unfold_ctype; simpl; lia).
  assert (∀ name, axis_ok I32 (slab_sample_dim I32 INT32 1 10 5 name) (Axis 1 10 5)) as Hax.
  { intros name. split; [|apply Hi; simpl; lia]. split; simpl; [apply pair_of_is; apply Hi; lia|split; [reflexivity|apply Hi; lia]|lia|lia|apply Hi; lia]. }
  split.
  - split; [reflexivity|reflexivity|discriminate].
  - split; [reflexivity| |discriminate]. apply Forall2_cons_2; [apply Hax|]. apply Forall2_cons_2; [apply Hax|]. apply Forall2_nil_2.
  - repeat (apply Forall_cons_2; [reflexivity|]). apply Forall_nil_2.
  - repeat (apply Forall_cons_2; [reflexivity|]). apply Forall_nil_2.
Qed.

Lemma slab_sample_has_ranges : has_ranges I32 slab_sample_axes slab_sample2 slab_sample_ranges.
Proof.
  assert (∀ z, -1000 ≤ z ≤ 1000 → in_ctype I32 z) as Hi by (intros; unfold_ctype; simpl; lia).
  assert (∀ a b, -1000 ≤ a ≤ 1000 → -1000 ≤ b ≤ 1000 → is_pair (NInt I32) (pair_of (NInt I32) a b) a b) as Hp
    by (intros; apply pair_of_is; by apply Hi).
  split.
  - repeat first [apply Forall2_nil_2|apply Forall2_cons_2|apply Hp; simpl; lia].
  - repeat (apply Forall2_cons_2; [split; [discriminate|split; [|vm_compute; discriminate]];
      repeat (apply Forall_cons_2; [split; [|split]; simpl; lia|]); apply Forall_nil_2|]). apply Forall2_nil_2.
Qed.

Lemma cell_slabs_exact_witness : ∃ s' l, compute_tile_coords (slab_sample slab_sample_dims) I32 slab_sample2 = Ok s' ∧
  cell_slabs (slab_sample slab_sample_dims) I32 18 s' = Ok l ∧ take 4 (l ≫= slab_cells false) = [[4; 4]; [5; 4]; [6; 4]; [4; 5]].
Proof.
  destruct (cell_slabs_exact (slab_sample slab_sample_dims) _ I32 slab_sample_axes slab_sample2 slab_sample_ranges false 18
    slab_sample_sliceable slab_sample_has_ranges) as (s' & l & H1 & H2 & H3 & _).
  - reflexivity.
  - vm_compute. discriminate.
  - exists s', l. split; [exact H1|]. split; [exact H2|]. rewrite H3. vm_compute. reflexivity.
Defined.

(** ** Narrow coordinates *)

Definition int8_dim : Dimension.t := slab_sample_dim I8 INT8 (-100) 99 1 (lit "x").

Definition int8_subarray : Subarray := slab_sample_subarray ROW_MAJOR [[pair_of (NInt I8) (-100) 99]].


Definition uint8_dim : Dimension.t := slab_sample_dim U8 UINT8 0 255 16 (lit "x").
Definition uint8_array : Array unit := slab_sample [uint8_dim].
Definition uint8_subarray : Subarray := slab_sample_subarray ROW_MAJOR [[pair_of (NInt U8) 240 255]].

(** The iterator in the range [[240, 255]], at the coordinate [c]. *)
Definition uint8_iter (c : Z) : CellSlabIter :=
  mkIter (mkSlab (Some [15]) [c] 16) [0] [c] [16] false [[mkSlabRange 240 255 15]].

Lemma uint8_next j : 0 ≤ j ≤ 15 →
  next_slab uint8_array U8 (with_tile_coords U8 [uint8_dim] uint8_subarray) (uint8_iter (16 * j)) = Ok (uint8_iter (16 * ((j + 1) mod 16))).
Proof.
  intros Hj. assert (Forall (λ j, next_slab uint8_array U8 (with_tile_coords U8 [uint8_dim] uint8_subarray) (uint8_iter (16 * j)) =
    Ok (uint8_iter (16 * ((j + 1) mod 16)))) (zseq 0 15)) as H.
  { repeat (apply Forall_cons_2; [vm_compute; reflexivity|]). apply Forall_nil_2. }
  rewrite Forall_forall in H. apply H, list_elem_of_lookup. exists (Z.to_nat j). apply zseq_lookup. lia.
Qed.

(** C37. The coordinate past the last cell of the range has to be a value of the type.  On the valid
    domain [[0, 255]] of [uint8] with extent 16, the coordinate after the slab of the range
    [[240, 255]] is 0 again, which is not past the range: the iterator never ends. *)
Theorem uint8_slabs_never_end : check_domain uint8_dim = Ok () ∧ check_tile_extent uint8_dim = Ok () ∧
  ∃ s it, compute_tile_coords uint8_array U8 uint8_subarray = Ok s ∧ begin_ uint8_array U8 (Some s) make_iter = (Ok (), it) ∧
    ∀ k, ∃ it', Nat.iter k (λ r, r ≫= next_slab uint8_array U8 s) (Ok it) = Ok it' ∧ at_end_ it' = false.
Proof.
  split; [vm_compute; reflexivity|]. split; [vm_compute; reflexivity|].
  exists (with_tile_coords U8 [uint8_dim] uint8_subarray), (uint8_iter 240). split; [vm_compute; reflexivity|]. split; [vm_compute; reflexivity|].
  intros k. set (s := with_tile_coords U8 [uint8_dim] uint8_subarray).
  enough (∃ j, 0 ≤ j ≤ 15 ∧ Nat.iter k (λ r, r ≫= next_slab uint8_array U8 s) (Ok (uint8_iter 240)) = Ok (uint8_iter (16 * j))) as (j & _ & Hk)
    by (by exists (uint8_iter (16 * j))).
  induction k as [|k (j & Hj & IH)]; [by exists 15|]. rewrite Nat.iter_succ, IH. exists ((j + 1) mod 16).
  split; [pose proof (Z.mod_pos_bound (j + 1) 16); lia|]. by apply uint8_next.
Qed.
