(* ===== verification/PartitionerProofs.v ===== *)
(** * The partitions cover the subarray exactly

    [next] takes the partitions from the subarray one after the other: every cell
    of the ranges of the subarray is in exactly one of them, as often as the ranges
    hold it, and the loops that split partitions end. *)

From stdpp Require Import gmap.
From S2P Require Import Prelude.
From S2P Require Import Enums.
From S2P Require Import Range.
From S2P Require Import Loops.
From S2P Require Import Dimension.
From S2P Require Import Domain.
From S2P Require Import RTree.
From S2P Require Import ArraySchema.
From S2P Require Import Subarray.
From S2P Require Import SubarrayTiles.
From S2P Require Import SubarrayPartitioner.
From S2P Require Import SubarrayRanges.
From S2P Require Import SubarrayParts.
Local Open Scope Z_scope.

(** ** Calibration *)

Lemma minor_dims_pos (row : bool) n d : (d < n)%nat →
  (if row then seq ((if row then d else n - d - 1) + 1) (n - (if row then d else n - d - 1) - 1)
   else rev (seq 0 (if row then d else n - d - 1))) = pos row n <$> seq (S d) (n - d - 1).
Proof.
  intros Hd. destruct row; simpl.
  - rewrite Nat.add_1_r. symmetry. apply list_fmap_id.
  - apply list_eq_same_length with (n - d - 1)%nat; [by rewrite length_fmap, length_seq|by rewrite length_rev, length_seq|].
    intros i x y Hi Hx Hy. apply list_lookup_fmap_Some in Hy as (j & -> & [-> Hj]%lookup_seq).
    pose proof (rev_lookup (seq 0 (n - d - 1)) (n - d - 1 - 1 - i)) as R. rewrite length_seq in R.
    replace (n - d - 1 - 1 - (n - d - 1 - 1 - i))%nat with i in R by lia. rewrite R in Hx by lia.
    apply lookup_seq in Hx as [-> _]. simpl. lia.
Qed.

Lemma all_of_fmap {I J : Type} (f : I → J) l test : all_of (f <$> l) test = all_of l (λ i, test (f i)).
Proof. induction l as [|i l IH]; [done|]. simpl. destruct (test (f i)) as [[]| |]; [apply IH|done..]. Qed.

Lemma all_zero (l : list Z) ks : length l = length ks → all_of l (λ c, Ok (c =? 0)) = Ok (bool_decide (l = zeros ks)).
Proof.
  revert ks. induction l as [|c l IH]; intros [|k ks] E; try done. simpl in *. destruct (Z.eqb_spec c 0) as [->|Hne]; simpl.
  - rewrite (IH ks) by lia. f_equal. apply bool_decide_ext. split; [by intros ->|by intros [= ->]].
  - rewrite bool_decide_eq_false_2; [done|]. by intros [= ? ?].
Qed.

Lemma all_top (l : list Z) ks : length l = length ks → Forall (λ k, 1 ≤ k < 2 ^ 64) ks →
  all_of (zip l ks) (λ p, Ok (p.1 =? u64 (p.2 - 1))) = Ok (bool_decide (l = tops ks)).
Proof.
  intros E H. revert l E. induction H as [|k ks Hk H IH]; intros [|c l] E; try done. simpl in *. rewrite u64_id by lia.
  destruct (Z.eqb_spec c (k - 1)) as [->|Hne]; simpl.
  - change (zip_with pair l ks) with (zip l ks). rewrite (IH l) by lia. f_equal. apply bool_decide_ext. split; [by intros ->|by intros [= ->]].
  - rewrite bool_decide_eq_false_2; [done|]. by intros [= ? ?].
Qed.

Section calibrate.
Variables (row : bool) (n : nat).

(** The coordinates after position [length l1]. *)
Lemma to_end_ok l1 e1 ls es : length e1 = length l1 → length es = length ls → length (l1 ++ ls) = n →
  Forall (λ l, 1 ≤ l < 2 ^ 64) ls →
  to_end (pos row n <$> seq (length l1) (length ls)) (ord row (l1 ++ ls)) (ord row (e1 ++ es)) = Ok (ord row (e1 ++ tops ls)).
Proof.
  revert l1 e1 es. induction ls as [|l ls IH]; intros l1 e1 [|e es] L1 L2 Ln Hb; try done.
  apply Forall_cons in Hb as [Hl Hb']. unfold to_end in *. simpl length at 2. cbn [seq fmap list_fmap for_each].
  rewrite (idx_ord row _ n _ l) by (done || by apply list_lookup_middle). cbn [mbind res_bind].
  assert (length (e1 ++ e :: es) = n) as Le by (rewrite <- Ln, !length_app; simpl in *; lia).
  rewrite (upd_ord row _ n) by (done || (rewrite <- Ln, length_app; simpl; lia)). cbn [mbind res_bind].
  rewrite u64_id by lia. rewrite <- L1 at 2. rewrite <- (Nat.add_0_r (length e1)), insert_app_r. simpl.
  replace (l1 ++ l :: ls) with ((l1 ++ [l]) ++ ls) by (by rewrite <- app_assoc).
  replace (e1 ++ l - 1 :: es) with ((e1 ++ [l - 1]) ++ es) by (by rewrite <- app_assoc).
  replace (S (length l1)) with (length (l1 ++ [l])) by (rewrite length_app; simpl; lia).
  rewrite IH; [by rewrite <- app_assoc|rewrite !length_app; simpl; lia|simpl in *; lia| |done].
  rewrite <- Ln, !length_app. simpl. lia.
Qed.

(** The coordinates after position [k] of a list with [k + 1] others before. *)
Lemma later_lookup (x0 : list Z) x xs j v : length (x0 ++ x :: xs) = n → xs !! j = Some v →
  idx (ord row (x0 ++ x :: xs)) (pos row n (S (length x0) + j)) = Ok v.
Proof.
  intros Ln Hj. apply idx_ord; [done|]. rewrite lookup_app_r by lia.
  by replace (S (length x0) + j - length x0)%nat with (S j) by lia.
Qed.

Lemma beginning_ok (s0 : list Z) s ss ls : length (s0 ++ s :: ss) = n → length ss = length ls →
  all_of (seq (S (length s0)) (length ls)) (λ i, c ← idx (ord row (s0 ++ s :: ss)) (pos row n i); Ok (c =? 0)) =
  Ok (bool_decide (ss = zeros ls)).
Proof.
  intros Ln L. rewrite <- L. rewrite (all_of_seq ss _ (λ c, Ok (c =? 0))); [by apply all_zero|].
  intros j v Hj. by rewrite (later_lookup s0 s ss j v).
Qed.

Lemma end_ok (e0 l0 : list Z) e es l ls : length (e0 ++ e :: es) = n → length e0 = length l0 → length es = length ls →
  Forall (λ l, 1 ≤ l < 2 ^ 64) ls →
  all_of (seq (S (length e0)) (length ls)) (λ i, c ← idx (ord row (e0 ++ e :: es)) (pos row n i);
    k ← idx (ord row (l0 ++ l :: ls)) (pos row n i); Ok (c =? u64 (k - 1))) = Ok (bool_decide (es = tops ls)).
Proof.
  intros Ln L0 L Hb. replace (length ls) with (length (zip es ls)) by (rewrite length_zip_with; lia).
  rewrite (all_of_seq (zip es ls) _ (λ p, Ok (p.1 =? u64 (p.2 - 1)))); [by apply all_top|].
  intros j [v k] Hj. apply lookup_zip_with_Some in Hj as (? & ? & [= <- <-] & H1 & H2).
  rewrite (later_lookup e0 e es j v) by done. cbn [mbind res_bind]. rewrite L0.
  rewrite (later_lookup l0 l ls j k) by (try done; rewrite <- Ln, !length_app; simpl; lia). done.
Qed.

Lemma calibrate_loop_ok ls : ∀ l0 s0 e0 ss es, Forall (λ l, 1 ≤ l < 2 ^ 64) ls → ls ≠ [] →
  length s0 = length l0 → length e0 = length l0 → length ss = length ls → length es = length ls → length (l0 ++ ls) = n →
  calibrate_loop (seq (length l0) (n - 1 - length l0)) row n (ord row (s0 ++ ss)) (ord row (l0 ++ ls)) (ord row (e0 ++ es)) =
  Ok (ord row (e0 ++ cal ls ss es)).
Proof.
  induction ls as [|l ls IH]; intros l0 s0 e0 [|s ss] [|e es] Hb Hne L1 L2 L3 L4 Ln; try done.
  apply Forall_cons in Hb as [Hl Hb']. simpl in L3, L4. injection L3 as L3. injection L4 as L4.
  pose proof Ln as Ln'. rewrite length_app in Ln'. simpl in Ln'.
  destruct ls as [|l' ls].
  { destruct es; [|done]. by replace (n - 1 - length l0)%nat with 0%nat by (simpl in Ln'; lia). }
  set (ls' := l' :: ls) in *. assert (n - 1 - length l0 = S (n - 1 - S (length l0)))%nat as E1 by (simpl in Ln'; lia).
  assert (length (s0 ++ s :: ss) = n ∧ length (e0 ++ e :: es) = n) as [Ls Le] by (rewrite !length_app; simpl; lia).
  rewrite E1. cbn [seq calibrate_loop]. rewrite !minor_dims_pos by lia.
  replace (if row then length l0 else (n - length l0 - 1)%nat) with (pos row n (length l0)) by (destruct row; simpl; lia).
  replace (n - length l0 - 1)%nat with (length ls') by lia. rewrite !all_of_fmap.
  rewrite <- L1 at 1. rewrite beginning_ok by done. cbn [mbind res_bind]. rewrite <- L2 at 1. rewrite end_ok by done. cbn [mbind res_bind].
  rewrite (idx_ord row (s0 ++ s :: ss) n _ s) by (done || by apply list_lookup_middle). cbn [mbind res_bind].
  rewrite (idx_ord row (e0 ++ e :: es) n _ e) by (done || by apply list_lookup_middle). cbn [mbind res_bind].
  assert (∀ x, upd (ord row (e0 ++ e :: es)) (pos row n (length l0)) x = Ok (ord row (e0 ++ x :: es))) as Hu.
  { intros x. rewrite (upd_ord row _ n) by (done || lia). rewrite <- L2, <- (Nat.add_0_r (length e0)), insert_app_r. done. }
  assert (∀ x, to_end (pos row n <$> seq (S (length l0)) (length ls')) (ord row (l0 ++ l :: ls')) (ord row (e0 ++ x :: es)) =
    Ok (ord row (e0 ++ x :: tops ls'))) as Ht.
  { intros x. pose proof (to_end_ok (l0 ++ [l]) (e0 ++ [x]) ls' es) as H. rewrite !length_app, <- !app_assoc in H. simpl length in H.
    rewrite !Nat.add_1_r in H. apply H; [lia|done|simpl in *; lia|done]. }
  assert (∀ x es', length es' = length ls' →
    calibrate_loop (seq (S (length l0)) (n - 1 - S (length l0))) row n (ord row (s0 ++ s :: ss)) (ord row (l0 ++ l :: ls')) (ord row (e0 ++ x :: es')) =
    Ok (ord row (e0 ++ x :: cal ls' ss es'))) as Hr.
  { intros x es' Les. pose proof (IH (l0 ++ [l]) (s0 ++ [s]) (e0 ++ [x]) ss es' Hb') as H. rewrite !length_app, <- !app_assoc in H.
    simpl length in H. rewrite !Nat.add_1_r in H. apply H; try done; simpl in *; lia. }
  rewrite !bool_decide_decide. change (cal (l :: ls') (s :: ss) (e :: es)) with
    (if decide (ss = zeros ls') then if decide (es = tops ls') then e :: es
     else if s <? e then e - 1 :: tops ls' else e :: cal ls' ss es
     else if s <? e then s :: cal ls' ss (tops ls') else e :: cal ls' ss es).
  destruct (decide (ss = zeros ls')); [destruct (decide (es = tops ls')); [done|]|]; destruct (s <? e);
    rewrite ?Hu; cbn [mbind res_bind]; rewrite ?Ht; cbn [mbind res_bind]; try done; apply Hr; try done.
  unfold tops. apply length_fmap.
Qed.
End calibrate.

(** ** What the dimensions promise *)

Section partitioner.
Context {F : Type} `{!FragmentMeta F}.
Variables (A : Array F) (D : Domain.t).
Hypothesis HD : has_dims A D.
Let n := length (dimensions_ D).

(** [ok d r]: the operations of dimension [d] apply to [r]; [cuts d r r1 r2]: the parts
    [r1] and [r2] divide [r]. A range that is not unary is split at its splitting
    value, and a range of several tiles at the end of a tile. *)
Class RangeLaws (ok : nat → Range → Prop) (cuts : nat → Range → Range → Range → Prop) (size : nat → Range → Z) : Prop := {
  rl_unary d r : ok d r → ∃ u, unary r = Ok u;
  rl_cells d dim r : dimensions_ D !! d = Some dim → ok d r → unary r = Ok false →
    ∃ o u, splitting_value dim r = Ok (o, u) ∧ (u = false → ∃ r1 r2,
      split_range dim r (default [] o) empty_range empty_range = Ok (r1, r2) ∧ ok d r1 ∧ ok d r2 ∧ cuts d r r1 r2);
  rl_tiles d dim r : dimensions_ D !! d = Some dim → ok d r →
    ∃ t, Dimension.tile_num dim r = Ok t ∧ 1 ≤ t < 2 ^ 64 ∧ (t ≠ 1 → ∃ k v r1 r2,
      tiles_before (t - 1) = Ok k ∧ ceil_to_tile dim r k = Ok v ∧
      split_range dim r v empty_range empty_range = Ok (r1, r2) ∧ ok d r1 ∧ ok d r2 ∧ cuts d r r1 r2);
  rl_size_pos d r : ok d r → 1 ≤ size d r;
  rl_size_cuts d r r1 r2 : cuts d r r1 r2 → size d r = size d r1 + size d r2
}.

Context {ok : nat → Range → Prop} {cuts : nat → Range → Range → Range → Prop} {size : nat → Range → Z} `{!RangeLaws ok cuts size}.

(** A measure that splitting divides. *)
Definition additive (g : nat → Range → Z) : Prop := ∀ d r r1 r2, cuts d r r1 r2 → g d r = g d r1 + g d r2.

Lemma additive_size : additive size.
Proof. intros d r r1 r2. apply rl_size_cuts. Qed.

Definition ok_ranges (s : Subarray) : Prop := ∀ d rs r, ranges_ s !! d = Some rs → r ∈ rs → ok d r.

Lemma measure_pos s : ok_ranges s → Forall (λ rs, rs ≠ []) (ranges_ s) → 1 ≤ measure size (ranges_ s).
Proof.
  intros Ho Hne. unfold measure. apply cap_pos, Forall_lookup. intros d x Hx. rewrite list_lookup_imap in Hx.
  destruct (ranges_ s !! d) as [rs|] eqn:E; [|done]. injection Hx as <-. pose proof (Forall_lookup_1 _ _ _ _ Hne E) as Hn.
  assert (∀ r, r ∈ rs → 1 ≤ size d r) as Hs by (intros r Hr; by apply rl_size_pos, (Ho _ _ _ E)).
  destruct rs as [|r rs]; [done|]. simpl. assert (0 ≤ lsum (size d) rs); [|pose proof (Hs r ltac:(left)); lia].
  assert (∀ r, r ∈ rs → 1 ≤ size d r) as Hs' by (intros; apply Hs; by right). clear -Hs'.
  induction rs as [|y rs IH]; simpl; [done|]. pose proof (Hs' y ltac:(left)). assert (0 ≤ lsum (size d) rs); [|lia].
  apply IH. intros. apply Hs'. by right.
Qed.

(** ** Splitting *)

(** No part has more than [R] ranges. *)
Variables (row : bool) (layout : Layout) (R : Z).

(** A subarray that can be split; it may have been estimated. *)
Record fine (s : Subarray) : Prop := {
  fn_numbered : numbered D row s;
  fn_layout : layout_ s = layout;
  fn_cell : cell_order_ s = ArraySchema.cell_order_ (array_schema A);
  fn_ok : ok_ranges s;
  fn_bound : range_num s ≤ R
}.

(** One that has not been estimated. *)
Definition new (s : Subarray) : Prop := piece A D row layout s ∧ ok_ranges s ∧ range_num s ≤ R.

Lemma new_fine s : new s → fine s.
Proof. intros [[] []]. by split. Qed.

Lemma fine_nonempty s : fine s → Forall (λ rs, rs ≠ []) (ranges_ s).
Proof. intros Hs. apply grid_lens, (nb_grid _ _ _ (fn_numbered _ Hs)). Qed.

(** The parts of a split. *)
Definition divides (s s1 s2 : Subarray) : Prop :=
  new s1 ∧ new s2 ∧ ∀ g, additive g → measure g (ranges_ s) = measure g (ranges_ s1) + measure g (ranges_ s2).

Lemma replaced_bound s s' k rs rs' : numbered D row s → numbered D row s' → ranges_ s !! k = Some rs →
  ranges_ s' = <[k:=rs']> (ranges_ s) → 1 ≤ zlen rs' ≤ zlen rs → range_num s' ≤ range_num s.
Proof.
  intros Hs Hs' Hk E Hz. rewrite <- (major_cap A D HD row s Hs), <- (major_cap A D HD row s' Hs'). unfold major. rewrite !cap_ord, E.
  apply cap_le. by apply replaced_lens with rs; [|apply (nb_grid _ _ _ Hs)|].
Qed.

Lemma splits_divides s k rs x rs1 rs2 : fine s → ranges_ s !! k = Some rs → splits_as A D row s k x rs1 rs2 →
  1 ≤ zlen rs1 ≤ zlen rs → 1 ≤ zlen rs2 ≤ zlen rs →
  (∀ r, r ∈ rs1 → ok k r) → (∀ r, r ∈ rs2 → ok k r) →
  (∀ g, additive g → lsum (g k) rs = lsum (g k) rs1 + lsum (g k) rs2) →
  ∃ s1 s2, x = Ok (s1, s2) ∧ divides s s1 s2 ∧ ranges_ s1 = <[k:=rs1]> (ranges_ s) ∧ ranges_ s2 = <[k:=rs2]> (ranges_ s).
Proof.
  intros Hs Hk (s1 & s2 & -> & P1 & P2 & E1 & E2) Z1 Z2 O1 O2 Hg. rewrite (fn_layout _ Hs) in *.
  assert (∀ s' rs', piece A D row layout s' → ranges_ s' = <[k:=rs']> (ranges_ s) → 1 ≤ zlen rs' ≤ zlen rs →
    (∀ r, r ∈ rs' → ok k r) → new s') as Hnew.
  { intros s' rs' Hp E Hz O. split_and!; [done| |].
    - intros d y r Hy Hr. rewrite E in Hy. apply list_lookup_insert_Some in Hy as [(-> & <- & _)|[_ Hy]]; [by apply O|].
      by apply (fn_ok _ Hs _ _ _ Hy).
    - pose proof (replaced_bound s s' k rs rs' (fn_numbered _ Hs) (pc_numbered _ _ _ _ _ Hp) Hk E Hz). pose proof (fn_bound _ Hs). lia. }
  exists s1, s2. split; [done|]. split; [|done]. split; [by eapply Hnew|]. split; [by eapply Hnew|].
  intros g Ha. rewrite E1, E2. by apply (measure_split g _ _ rs), Hg.
Qed.

(** One range cut in two. *)
Lemma cut_lsum g k r r1 r2 : additive g → cuts k r r1 r2 → lsum (g k) [r] = lsum (g k) [r1] + lsum (g k) [r2].
Proof. intros Ha Hc. simpl. rewrite (Ha _ _ _ _ Hc). lia. Qed.

(** A cut of the only range of a dimension. *)
Definition cut_at (s : Subarray) (d : nat) (v : list Z) : Prop :=
  ∃ dim r r1 r2, dimensions_ D !! d = Some dim ∧ ranges_ s !! d = Some [r] ∧
    split_range dim r v empty_range empty_range = Ok (r1, r2) ∧ ok d r1 ∧ ok d r2 ∧ cuts d r r1 r2.

Definition single (s : Subarray) : Prop := Forall (λ rs, zlen rs = 1) (ranges_ s).

Lemma single_lookup s d rs : single s → ranges_ s !! d = Some rs → ∃ r, rs = [r].
Proof.
  intros Hs Hd. pose proof (Forall_lookup_1 _ _ _ _ Hs Hd) as Hz. unfold zlen in Hz.
  destruct rs as [|r [|]]; simpl in Hz; try lia. by exists r.
Qed.

Lemma dim_lookup s d : fine s → (d < n)%nat → ∃ dim rs, dimensions_ D !! d = Some dim ∧ ranges_ s !! d = Some rs.
Proof.
  intros Hs Hd. destruct (lookup_lt_is_Some_2 (dimensions_ D) d Hd) as [dim H1].
  destruct (lookup_lt_is_Some_2 (ranges_ s) d) as [rs H2]; [by rewrite (nb_len _ _ _ (fn_numbered _ Hs))|]. by exists dim, rs.
Qed.

Lemma first_range_ok s d rs r : fine s → ranges_ s !! d = Some (r :: rs) → first_range A s d = Ok r.
Proof.
  intros Hs Hd. unfold first_range, get_range, dim_in_bounds. rewrite (dim_num_n A D HD). cbn [mbind res_bind].
  apply lookup_lt_Some in Hd as Hl. rewrite (nb_len _ _ _ (fn_numbered _ Hs)) in Hl.
  rewrite (proj2 (Z.leb_gt _ _)) by lia. cbn [mbind res_bind]. rewrite (idx_ok _ _ _ Hd). cbn [mbind res_bind].
  rewrite (proj2 (Z.leb_gt _ _)) by (unfold zlen; simpl; lia). by rewrite (range_at_ok s d (r :: rs) 0 Hd) by (unfold zlen; simpl; lia).
Qed.

(** One step of the search for a splitting value within the cells. *)
Lemma cells_step s d : fine s → single s → (d < n)%nat → ∃ dim r u,
  dimension_at (array_schema A) d = Ok dim ∧ first_range A s d = Ok r ∧ ranges_ s !! d = Some [r] ∧ unary r = Ok u ∧
  (u = false → ∃ o x, splitting_value dim r = Ok (o, x) ∧ (x = false → cut_at s d (default [] o))).
Proof.
  intros Hs H1 Hd. destruct (dim_lookup s d Hs Hd) as (dim & rs & Hdim & Hr). destruct (single_lookup _ _ _ H1 Hr) as [r ->].
  assert (ok d r) as Ho by (apply (fn_ok _ Hs _ _ _ Hr); left). destruct (rl_unary d r Ho) as [u Hu].
  exists dim, r, u. split_and!; [by apply (dimension_at_n A D HD)|by eapply first_range_ok|done|done|]. intros ->.
  destruct (rl_cells d dim r Hdim Ho Hu) as (o & x & Hx & Hc). exists o, x. split; [done|]. intros Ex.
  destruct (Hc Ex) as (r1 & r2 & ?). by exists dim, r, r1, r2.
Qed.

Lemma split_on_cells_ok s ds tried : fine s → single s → Forall (λ d, (d < n)%nat) ds →
  tried = true ∨ (∃ d r, d ∈ ds ∧ ranges_ s !! d = Some [r] ∧ unary r = Ok false) →
  ∃ x, split_on_cells A s ds tried = Ok x ∧ ∀ d v, x = Some (d, v) → cut_at s d v.
Proof.
  intros Hs H1 Hds. revert tried. induction Hds as [|d ds Hd Hds IH]; intros tried Ht.
  { destruct Ht as [->|(d & r & Hd & _)]; [by exists None|by apply not_elem_of_nil in Hd]. }
  destruct (cells_step s d Hs H1 Hd) as (dim & r & u & E1 & E2 & Hr & E3 & Hc). cbn [split_on_cells].
  rewrite E1. cbn [mbind res_bind]. rewrite E2. cbn [mbind res_bind]. rewrite E3. cbn [mbind res_bind]. destruct u; simpl negb; cbv iota.
  - apply IH. destruct Ht as [->|(d' & r' & Hin & Hr' & Hu)]; [by left|right]. apply elem_of_cons in Hin as [->|Hin].
    + rewrite Hr in Hr'. injection Hr' as <-. rewrite E3 in Hu. discriminate Hu.
    + by exists d', r'.
  - destruct (Hc eq_refl) as (o & x & Ex & Hcut). rewrite Ex. cbn [mbind res_bind]. destruct x; simpl negb; cbv iota.
    + apply IH. by left.
    + eexists. split; [done|]. intros ? ? [= <- <-]. by apply Hcut.
Qed.

Lemma split_on_tiles_ok s ds : fine s → single s → Forall (λ d, (d < n)%nat) ds →
  ∃ x, split_on_tiles A s ds = Ok x ∧ ∀ d v, x = Some (d, v) → cut_at s d v.
Proof.
  intros Hs H1. induction 1 as [|d ds Hd Hds IH]; [by exists None|]. cbn [split_on_tiles].
  destruct (dim_lookup s d Hs Hd) as (dim & rs & Hdim & Hr). destruct (single_lookup _ _ _ H1 Hr) as [r ->].
  assert (ok d r) as Ho by (apply (fn_ok _ Hs _ _ _ Hr); left). destruct (rl_tiles d dim r Hdim Ho) as (t & Et & Hb & Hc).
  rewrite (dimension_at_n A D HD d dim Hdim). cbn [mbind res_bind]. rewrite (first_range_ok s d [] r Hs Hr). cbn [mbind res_bind].
  rewrite Et. cbn [mbind res_bind]. rewrite u64_id by lia. destruct (Z.eqb_spec (t - 1) 0) as [E|E]; simpl negb; cbv iota; [done|].
  destruct Hc as (k & v & r1 & r2 & Ek & Ev & H); [lia|]. rewrite Ek. cbn [mbind res_bind]. rewrite Ev. cbn [mbind res_bind].
  eexists. split; [done|]. intros ? ? [= <- <-]. by exists dim, r, r1, r2.
Qed.

Lemma single_cap s : fine s → range_num s = 1 ↔ single s.
Proof.
  intros [Hs _ _ _ _]. assert (range_num s = cap (lens (ranges_ s))) as ->.
  { rewrite <- (major_cap A D HD row s Hs). apply cap_ord. }
  pose proof (nb_grid _ _ _ Hs) as Hg. unfold single, lens in *. split.
  - intros E. destruct (cap_one _ Hg E) as [E1 _]. apply (Forall_fmap _ (λ z, z = 1)). rewrite E1. by apply Forall_replicate.
  - intros H. assert (∀ l : list (list Range), Forall (λ rs, zlen rs = 1) l → cap (zlen <$> l) = 1) as G; [|by apply G].
    clear. induction 1 as [|rs l E _ IH]; [done|]. rewrite fmap_cons. cbn [cap]. rewrite E, IH. done.
Qed.

Lemma is_unary_ok s : fine s → ∃ u, is_unary s = Ok u ∧
  (u = false → single s → ∃ d r, (d < n)%nat ∧ ranges_ s !! d = Some [r] ∧ unary r = Ok false).
Proof.
  intros Hs. unfold is_unary. destruct (Z.eqb_spec (range_num s) 1) as [E|E]; simpl negb; cbv iota.
  - apply (single_cap s Hs) in E. pose proof (fn_ok _ Hs) as Ho. pose proof (nb_len _ _ _ (fn_numbered _ Hs)) as Hl. fold n in Hl.
    assert (∀ k l, ranges_ s = k ++ l → ∃ u, all_of l (λ rs, r ← idx rs 0; unary r) = Ok u ∧
      (u = false → ∃ d r, (d < n)%nat ∧ ranges_ s !! d = Some [r] ∧ unary r = Ok false)) as G.
    { intros k l. revert k. induction l as [|rs l IH]; intros k Ek; [by exists true|].
      assert (ranges_ s !! length k = Some rs) as Hk by (rewrite Ek; by apply list_lookup_middle).
      destruct (single_lookup _ _ _ E Hk) as [r ->]. destruct (rl_unary (length k) r) as [u Hu]; [apply (Ho _ _ _ Hk); left|].
      cbn [all_of]. change (idx [r] 0) with (Ok r). cbn [mbind res_bind]. rewrite Hu. cbn [mbind res_bind]. destruct u.
      - apply (IH (k ++ [[r]])). by rewrite <- app_assoc.
      - exists false. split; [done|]. intros _. exists (length k), r. split_and!; try done. apply lookup_lt_Some in Hk. lia. }
    destruct (G [] (ranges_ s) eq_refl) as (u & Eu & Hu). exists u. split; [done|]. intros Hf _. by apply Hu.
  - exists false. split; [done|]. intros _ Hsg. by apply (single_cap s Hs) in Hsg.
Qed.

Lemma ordered_dims_lt lay d : d ∈ ordered_dims lay n ↔ (d < n)%nat.
Proof.
  unfold ordered_dims. assert (d ∈ seq 0 n ↔ (d < n)%nat) as H by (rewrite elem_of_seq; lia).
  destruct (bool_decide _); [done|]. rewrite <- H, !list_elem_of_In. symmetry. apply in_rev.
Qed.

Lemma ordered_dims_all lay : Forall (λ d, (d < n)%nat) (ordered_dims lay n).
Proof. apply Forall_forall. intros d. apply ordered_dims_lt. Qed.

Variable p : SubarrayPartitioner.
Hypothesis Hlay : layout_ (subarray_ p) = layout.

Lemma splitting_single_ok s : fine s → single s → is_unary s = Ok false →
  ∃ x, compute_splitting_value_single_range A p s = Ok x ∧ ∀ d v, x = Some (d, v) → cut_at s d v.
Proof.
  intros Hs H1 Hu. unfold compute_splitting_value_single_range. rewrite Hlay.
  assert (∃ x, (if bool_decide (layout = GLOBAL_ORDER) then compute_splitting_value_on_tiles A s else Ok None) = Ok x ∧
    ∀ d v, x = Some (d, v) → cut_at s d v) as (x & Ex & Hx).
  { destruct (bool_decide_reflect (layout = GLOBAL_ORDER)) as [E|_]; [|by exists None].
    unfold compute_splitting_value_on_tiles. rewrite (fn_layout _ Hs), E, bool_decide_eq_true_2 by done.
    rewrite (dims_n A D HD). cbn [mbind res_bind]. apply split_on_tiles_ok; [done|done|apply ordered_dims_all]. }
  rewrite Ex. cbn [mbind res_bind]. destruct x as [[d v]|]; [by exists (Some (d, v))|].
  rewrite (dims_n A D HD). cbn [mbind res_bind]. rewrite Hu. cbn [mbind res_bind]. simpl massert. cbn [mbind res_bind].
  apply split_on_cells_ok; [done|done|apply ordered_dims_all|]. right.
  destruct (is_unary_ok s Hs) as (u & Eu & H). rewrite Hu in Eu. injection Eu as <-.
  destruct (H eq_refl H1) as (d & r & Hd & Hr & Hur). exists d, r. split; [by apply ordered_dims_lt|done].
Qed.

(** [split_top] splits the first subarray, if it can, into two of the same kind. *)
Definition splitter (split_top : list Subarray → res (option (list Subarray))) (Q : Subarray → Prop) : Prop :=
  ∀ s l, fine s → Q s → split_top (s :: l) = Ok None ∨
    ∃ s1 s2, split_top (s :: l) = Ok (Some (s1 :: s2 :: l)) ∧ divides s s1 s2 ∧ Q s1 ∧ Q s2.

Lemma single_insert s s' d r : single s → ranges_ s' = <[d:=[r]]> (ranges_ s) → single s'.
Proof. intros H E. unfold single. rewrite E. by apply Forall_insert. Qed.

Lemma split_top_single_ok : splitter (split_top_single_range A p) single.
Proof.
  intros s l Hs H1. unfold split_top_single_range. destruct (is_unary_ok s Hs) as ([] & Eu & _); rewrite Eu; cbn [mbind res_bind]; [by left|].
  destruct (splitting_single_ok s Hs H1 Eu) as (x & Ex & Hx). rewrite Ex. cbn [mbind res_bind]. destruct x as [[d v]|]; [|by left].
  right. destruct (Hx d v eq_refl) as (dim & r & r1 & r2 & Hdim & Hr & Hsp & O1 & O2 & Hc).
  destruct (splits_divides s d [r] (split_single A s d v) [r1] [r2]) as (s1 & s2 & E & Hd & R1 & R2); try done.
  - apply (split_single_ok A D HD row s (fn_numbered _ Hs) (fn_cell _ Hs) d [r] Hr dim v r r1 r2); done.
  - by intros ? ->%list_elem_of_singleton.
  - by intros ? ->%list_elem_of_singleton.
  - intros g Hg. by apply cut_lsum.
  - exists s1, s2. rewrite E. split_and!; try done; by eapply single_insert.
Qed.

(** Subarrays with several ranges in the least significant dimension only. *)
Definition slabby (s : Subarray) : Prop :=
  ∀ d rs, ranges_ s !! d = Some rs → d ≠ pos row n (n - 1) → zlen rs = 1.

Lemma slabby_insert s s' d rs : slabby s → ranges_ s' = <[d:=rs]> (ranges_ s) →
  zlen rs = 1 ∨ d = pos row n (n - 1) → slabby s'.
Proof.
  intros H E Hd k x Hk Hne. rewrite E in Hk. apply list_lookup_insert_Some in Hk as [(-> & <- & _)|[_ Hk]]; [|by eapply H].
  by destruct Hd.
Qed.

(** A split of the ranges of the least significant dimension, or of a range. *)
Definition split_at (s : Subarray) (x : nat * Z * list Z) : Prop :=
  let '(d, j, v) := x in
  (d = pos row n (n - 1) ∧ ∃ rs, ranges_ s !! d = Some rs ∧ 0 ≤ j ∧ j + 1 < zlen rs) ∨ (j = u64_max ∧ cut_at s d v).

Lemma get_range_num_of s d rs : fine s → ranges_ s !! d = Some rs → of_status (get_range_num A s d) = Ok (zlen rs).
Proof. intros Hs Hd. by rewrite (get_range_num_ok A D HD row s (fn_numbered _ Hs) d rs Hd). Qed.

Lemma split_on_ranges_ok s m : fine s → slabby s →
  (∀ rs, ranges_ s !! pos row n (n - 1) = Some rs → 1 < zlen rs) → (m < n)%nat →
  ∃ x, split_on_ranges A s (pos row n (n - 1)) (pos row n <$> seq (n - 1 - m) (S m)) = Ok x ∧ ∀ y, x = Some y → split_at s y.
Proof.
  intros Hs Hsl Hlast. induction m as [|m IH]; intros Hm; rewrite <- cons_seq, fmap_cons; cbn [split_on_ranges].
  - rewrite Nat.sub_0_r. set (d := pos row n (n - 1)) in *. destruct (dim_lookup s d Hs) as (dim & rs & _ & Hr);
      [unfold d; destruct row; simpl; lia|].
    rewrite (get_range_num_of s d rs Hs Hr). cbn [mbind res_bind]. pose proof (Hlast rs Hr). rewrite (proj2 (Z.ltb_lt _ _)) by done.
    rewrite Nat.eqb_refl. eexists. split; [done|]. intros y [= <-]. left. split; [done|]. exists rs.
    assert (0 ≤ (zlen rs - 1) / 2 < zlen rs - 1); [|split_and!; done || lia].
    split; [apply Z.div_pos; lia|apply Z.div_lt_upper_bound; lia].
  - set (d := pos row n (n - 1 - S m)). assert (d < n ∧ d ≠ pos row n (n - 1))%nat as [Hd Hne] by (unfold d; destruct row; simpl; lia).
    destruct (dim_lookup s d Hs Hd) as (dim & rs & Hdim & Hr). pose proof (Hsl d rs Hr Hne) as Hz.
    assert (∃ r, rs = [r]) as [r ->] by (unfold zlen in Hz; destruct rs as [|r [|]]; simpl in Hz; try lia; by exists r).
    rewrite (get_range_num_of s d [r] Hs Hr). cbn [mbind res_bind]. change (1 <? zlen [r]) with false. cbv iota.
    rewrite (first_range_ok s d [] r Hs Hr). cbn [mbind res_bind]. rewrite (dimension_at_n A D HD d dim Hdim). cbn [mbind res_bind].
    assert (ok d r) as Ho by (apply (fn_ok _ Hs _ _ _ Hr); left). destruct (rl_unary d r Ho) as [u Hu]. rewrite Hu. cbn [mbind res_bind].
    destruct u; simpl negb; cbv iota.
    + replace (S (n - 1 - S m)) with (n - 1 - m)%nat by lia. apply IH. lia.
    + destruct (rl_cells d dim r Hdim Ho Hu) as (o & x & Ex & Hc). rewrite Ex. cbn [mbind res_bind]. destruct x; [by exists None|].
      eexists. split; [done|]. intros y [= <-]. right. split; [done|]. destruct (Hc eq_refl) as (r1 & r2 & H). by exists dim, r, r1, r2.
Qed.

Lemma slabby_single s : fine s → slabby s → (∀ rs, ranges_ s !! pos row n (n - 1) = Some rs → zlen rs = 1) → single s.
Proof.
  intros Hs Hsl Hl. apply Forall_lookup. intros d rs Hd. destruct (decide (d = pos row n (n - 1))) as [->|Hne]; [by apply Hl|by eapply Hsl].
Qed.

Lemma splitting_multi_ok s : fine s → slabby s → is_unary s = Ok false →
  ∃ x, compute_splitting_value_multi_range A p s = Ok x ∧ ∀ y, x = Some y → split_at s y.
Proof.
  intros Hs Hsl Hu. unfold compute_splitting_value_multi_range. destruct (Z.eqb_spec (range_num s) 1) as [E|E].
  - apply (single_cap s Hs) in E. destruct (splitting_single_ok s Hs E Hu) as (x & Ex & Hx). rewrite Ex. cbn [mbind res_bind].
    destruct x as [[d v]|]; [|by exists None]. eexists. split; [done|]. intros y [= <-]. right. split; [done|]. by apply Hx.
  - rewrite (dims_n A D HD). cbn [mbind res_bind]. rewrite Hlay. pose proof (n_pos A D HD) as Hn. fold n in Hn.
    assert (ordered_dims (if bool_decide (layout = UNORDERED) then ArraySchema.cell_order_ (array_schema A) else layout) n =
      pos row n <$> seq 0 n) as Eo.
    { rewrite <- ord_seq. unfold ordered_dims, ord. pose proof (nb_layout _ _ _ (fn_numbered _ Hs)) as Hl.
      unfold effective_layout in Hl. rewrite (fn_layout _ Hs), (fn_cell _ Hs), !decide_bool_decide in Hl.
      destruct Hl as [->|(_ & _ & Ec)]; [by destruct row|]. exfalso. apply E.
      rewrite <- (major_cap A D HD row s (fn_numbered _ Hs)). unfold major. by rewrite cap_ord. }
    fold n. rewrite Eo. replace (List.last (pos row n <$> seq 0 n) 0%nat) with (pos row n (n - 1)).
    + replace (seq 0 n) with (seq (n - 1 - (n - 1)) (S (n - 1))) by (f_equal; lia).
      apply split_on_ranges_ok; [done|done| |lia]. intros rs Hr. pose proof (Forall_lookup_1 _ _ _ _ (fine_nonempty s Hs) Hr) as Hne.
      pose proof (zlen_pos rs Hne). destruct (decide (zlen rs = 1)) as [E1|]; [|lia]. exfalso. apply E, (single_cap s Hs).
      apply slabby_single; [done|done|]. intros rs' Hr'. rewrite Hr in Hr'. by injection Hr' as <-.
    + replace (seq 0 n) with (seq 0 (n - 1) ++ [(n - 1)%nat]) by (symmetry; etransitivity; [|apply (seq_S (n - 1) 0)]; f_equal; lia).
      rewrite fmap_app. simpl. by rewrite last_last.
Qed.

Lemma split_top_multi_ok : splitter (split_top_multi_range A p) slabby.
Proof.
  intros s l Hs Hsl. unfold split_top_multi_range. destruct (is_unary_ok s Hs) as ([] & Eu & _); rewrite Eu; cbn [mbind res_bind]; [by left|].
  destruct (splitting_multi_ok s Hs Hsl Eu) as (x & Ex & Hx). rewrite Ex. cbn [mbind res_bind]. destruct x as [[[d j] v]|]; [|by left].
  right. destruct (Hx _ eq_refl) as [(-> & rs & Hr & H0 & Hj)|(-> & dim & r & r1 & r2 & Hdim & Hr & Hsp & O1 & O2 & Hc)].
  - set (d := pos row n (n - 1)) in *. assert (zlen rs ≤ u64_max) as Hm.
    { pose proof (nb_cap _ _ _ (fn_numbered _ Hs)) as Hc. pose proof (nb_grid _ _ _ (fn_numbered _ Hs)) as Hg.
      assert (lens (ranges_ s) !! d = Some (zlen rs)) as Hl by (unfold lens; by rewrite list_lookup_fmap, Hr).
      destruct (cap_insert _ _ _ Hl) as (c & Ec & Hi). specialize (Hi 1). pose proof (cap_pos (<[d:=1]> (lens (ranges_ s)))) as Hp.
      assert (1 ≤ c) by (rewrite Hi in Hp; specialize (Hp ltac:(by apply Forall_insert)); lia). unfold u64_max. nia. }
    destruct (splits_divides s d rs (split_multi A s j d v) (seg rs 0 j) (seg rs (j + 1) (zlen rs - 1))) as (s1 & s2 & E & Hd & R1 & R2); try done.
    + by apply (split_ranges_ok A D HD row s (fn_numbered _ Hs) (fn_cell _ Hs)).
    + rewrite zlen_seg by lia. lia.
    + rewrite zlen_seg by lia. lia.
    + intros r Hin. apply (fn_ok _ Hs d rs r Hr). by eapply seg_elem.
    + intros r Hin. apply (fn_ok _ Hs d rs r Hr). by eapply seg_elem.
    + intros g _. rewrite <- lsum_app, <- seg_app by lia. by rewrite seg_all.
    + exists s1, s2. rewrite E. split_and!; try done; (eapply slabby_insert; [done|done|by right]).
  - destruct (splits_divides s d [r] (split_multi A s u64_max d v) [r1] [r2]) as (s1 & s2 & E & Hd & R1 & R2); try done.
    + by apply (split_value_ok A D HD row s (fn_numbered _ Hs) (fn_cell _ Hs) d [r] Hr dim v r r1 r2).
    + by intros ? ->%list_elem_of_singleton.
    + by intros ? ->%list_elem_of_singleton.
    + intros g Hg. by apply cut_lsum.
    + exists s1, s2. rewrite E. split_and!; try done; (eapply slabby_insert; [done|done|by left]).
Qed.

End partitioner.
