(* ===== verification/PartitionerCover.v ===== *)
(** * The partitions of a subarray

    The invariant of the partitioner, and the theorem that the partitions that [next]
    gives divide the subarray. *)

From stdpp Require Import gmap.
From S2P Require Import Prelude.
From S2P Require Import Enums.
From S2P Require Import Num.
From S2P Require Import Range.
From S2P Require Import Loops.
From S2P Require Import Dimension.
From S2P Require Import Domain.
From S2P Require Import RTree.
From S2P Require Import ArraySchema.
From S2P Require Import Subarray.
From S2P Require Import SubarrayTiles.
From S2P Require Import SubarrayPartitioner.
From S2P Require Import SubarrayRanges.
From S2P Require Import SubarrayParts.
From S2P Require Import PartitionerProofs.
Local Open Scope Z_scope.

Section cover.
Context {F : Type} `{!FragmentMeta F}.
Variables (A : Array F) (D : Domain.t).
Hypothesis HD : has_dims A D.
Let n := length (dimensions_ D).
Context {ok : nat → Range → Prop} {cuts : nat → Range → Range → Range → Prop} {size : nat → Range → Z} `{!RangeLaws D ok cuts size}.

(** The subarray that is partitioned; its tile overlap has been computed. *)
Variables (row : bool) (sub : Subarray).
Record base : Prop := {
  bs_numbered : numbered D row sub;
  bs_offsets : range_offsets_ sub = ord row (sufs (major row sub));
  bs_cell : cell_order_ sub = ArraySchema.cell_order_ (array_schema A);
  bs_overlap : Forall (λ f, length f = Z.to_nat (range_num sub)) (tile_overlap_ sub);
  bs_ok : ok_ranges (ok := ok) sub
}.
Hypothesis HB : base.

Abbreviation ls := (major row sub).
Abbreviation layout := (layout_ sub).
Abbreviation R := (range_num sub).
Abbreviation is_new := (new (ok := ok) A D row layout R).
Abbreviation is_fine := (fine (ok := ok) A D row layout R).
Abbreviation is_additive := (additive (cuts := cuts)).

(** The estimates of the parts, and of the ranges of the subarray, return. *)
Record estimable (p : SubarrayPartitioner) : Prop := {
  em_must s : is_new s → ∃ b s', must_split A p s = (Ok b, s') ∧
    ranges_ s' = ranges_ s ∧ layout_ s' = layout_ s ∧ cell_order_ s' = cell_order_ s;
  em_sizes a b : 0 ≤ a ≤ b → b < range_num sub →
    ∃ rs ms, relevant_est_sizes A sub (map_to_list (budget_ p)).*1 a b = Ok (rs, ms) ∧ zlen rs = b - a + 1
}.

Lemma new_pos s : is_new s → 1 ≤ measure size (ranges_ s).
Proof. intros Hs. apply (measure_pos D s (proj1 (proj2 Hs))), (fine_nonempty A D row layout R s (new_fine A D row layout R s Hs)). Qed.

(** Only the budgets matter. *)
Definition same_budgets (p q : SubarrayPartitioner) : Prop :=
  budget_ p = budget_ q ∧ memory_budget_ p = memory_budget_ q ∧ memory_budget_var_ p = memory_budget_var_ q.

Lemma must_split_same p q : same_budgets p q → ∀ s, must_split A p s = must_split A q s.
Proof.
  intros (E1 & E2 & E3). unfold must_split. rewrite E1. generalize (map_to_list (budget_ q)). intros l.
  induction l as [|[name b] l IH]; intros s; [done|]. cbn [must_split_loop]. unfold mbind, M_bind.
  destruct (estimates A name s) as [[x| |] s']; [|done..]. unfold exceeds. rewrite E2, E3.
  by destruct (_ || _); [|apply IH].
Qed.

Lemma estimable_same p q : same_budgets p q → estimable p → estimable q.
Proof.
  intros Hpq [H1 H2]. split.
  - intros s Hs. rewrite <- (must_split_same p q Hpq). by apply H1.
  - intros a b Ha Hb. destruct Hpq as (<- & _). by apply H2.
Qed.

(** ** Splitting until it fits *)

Definition total (g : nat → Range → Z) (l : list Subarray) : Z := foldr (λ s x, measure g (ranges_ s) + x) 0 l.

Lemma cells_app g l k : total g (l ++ k) = total g l + total g k.
Proof. induction l as [|s l IH]; simpl; [done|]. rewrite IH. lia. Qed.

Lemma estimated_fine s s' : is_new s → ranges_ s' = ranges_ s → layout_ s' = layout_ s → cell_order_ s' = cell_order_ s → is_fine s'.
Proof.
  intros [Hp [Ho Hbd]] E1 E2 E3. destruct Hp as [[H1 H2 H3 H4 H5] Hl Hc _ _ _]. split.
  - split; rewrite ?E1; try done; unfold effective_layout in *; by rewrite E2, E3.
  - by rewrite E2.
  - by rewrite E3.
  - intros d rs r. rewrite E1. apply Ho.
  - unfold range_num in *. by rewrite E1.
Qed.

Lemma split_loop_ok p split_top Q : estimable p → splitter (ok := ok) (cuts := cuts) A D row layout R split_top Q →
  (∀ s s', Q s → ranges_ s' = ranges_ s → Q s') →
  ∀ fuel s l, is_new s → Q s → measure size (ranges_ s) ≤ Z.of_nat fuel →
  ∃ u top k, split_loop A fuel p split_top (s :: l) = Ok (u, top :: k ++ l) ∧ is_fine top ∧
    Forall is_new k ∧ Forall Q k ∧
    ∀ g, is_additive g → measure g (ranges_ s) = measure g (ranges_ top) + total g k.
Proof.
  intros Hem Hsp HQ. induction fuel as [|fuel IH]; intros s l Hs Hq Hf;
    pose proof (new_pos s Hs) as Hpos; [lia|].
  destruct (em_must p Hem s Hs) as (b & s' & Em & E1 & E2 & E3). cbn [split_loop]. rewrite Em.
  pose proof (estimated_fine s s' Hs E1 E2 E3) as Hs'. pose proof (HQ s s' Hq E1) as Hq'. destruct b.
  - destruct (Hsp s' l Hs' Hq') as [E|(s1 & s2 & E & (N1 & N2 & Hg) & Q1 & Q2)]; rewrite E; cbn [mbind res_bind].
    + exists true, s', []. split_and!; try done. intros g _. simpl. rewrite E1. lia.
    + pose proof (Hg size (additive_size D)) as Hsz. rewrite E1 in Hsz.
      pose proof (new_pos s2 N2).
      destruct (IH s1 (s2 :: l) N1 Q1) as (u & top & k & Ek & Ht & F1 & F2 & Hm); [lia|].
      exists u, top, (k ++ [s2]). rewrite <- app_assoc. split_and!; try done.
      * apply Forall_app. split; [done|by constructor].
      * apply Forall_app. split; [done|by constructor].
      * intros g Ha. rewrite cells_app. simpl. rewrite <- E1, (Hg g Ha), (Hm g Ha). lia.
  - exists false, s', []. split_and!; try done. intros g _. simpl. rewrite E1. lia.
Qed.
(** ** Taking the next partition from a list or from an interval *)

Lemma cells_cons g s l : total g (s :: l) = measure g (ranges_ s) + total g l.
Proof. done. Qed.

Section take.
Variables (p : SubarrayPartitioner) (split_top : list Subarray → res (option (list Subarray))) (Q : Subarray → Prop).
Hypotheses (Hem : estimable p) (Hsp : splitter (ok := ok) (cuts := cuts) A D row layout R split_top Q)
  (HQ : ∀ s s', Q s → ranges_ s' = ranges_ s → Q s').

(** The next partition [top] is taken from [src] and leaves the subarrays [l]. *)
Definition takes (x : res (bool * Subarray * list Subarray)) (src : list Subarray) : Prop :=
  ∃ u top l, x = Ok (u, top, l) ∧ is_fine top ∧ Forall is_new l ∧ Forall Q l ∧
    ∀ g, is_additive g → total g src = measure g (ranges_ top) + total g l.

Lemma take_loop fuel s l : Forall is_new (s :: l) → Forall Q (s :: l) → measure size (ranges_ s) ≤ Z.of_nat fuel →
  takes ('(u, l) ← split_loop A fuel p split_top (s :: l); match l with [] => UB | top :: l => Ok (u, top, l) end) (s :: l).
Proof.
  intros [Hs Hl]%Forall_cons [Hq Hql]%Forall_cons Hf.
  destruct (split_loop_ok p split_top Q Hem Hsp HQ fuel s l Hs Hq Hf) as (u & top & k & E & Ht & F1 & F2 & Hm).
  rewrite E. cbn [mbind res_bind]. exists u, top, (k ++ l). split_and!; try done; try by apply Forall_app.
  intros g Hg. rewrite cells_cons, cells_app, (Hm g Hg). lia.
Qed.

Lemma take_from_list fuel s l : Forall is_new (s :: l) → Forall Q (s :: l) → measure size (ranges_ s) ≤ Z.of_nat fuel →
  takes (take_next A fuel p false split_top (s :: l)) (s :: l).
Proof. apply take_loop. Qed.

Lemma take_from_interval fuel s : get_subarray A (subarray_ p) (cstart_ (current_ p)) (cend_ (current_ p)) = Ok s →
  is_new s → Q s → measure size (ranges_ s) ≤ Z.of_nat fuel → takes (take_next A fuel p false split_top []) [s].
Proof.
  intros E Hs Hq Hf. unfold take_next, next_list. rewrite E. cbn [mbind res_bind]. unfold split_front.
  pose proof (new_fine A D row layout R s Hs) as Hfine.
  destruct (Hsp s [] Hfine Hq) as [E1|(s1 & s2 & E1 & (N1 & N2 & Hg) & Q1 & Q2)]; rewrite E1; cbn [mbind res_bind orb].
  - by exists true, s, [].
  - pose proof (new_pos s2 N2).
    pose proof (Hg size (additive_size D)) as Hsz.
    destruct (take_loop fuel s1 [s2]) as (u & top & l & E2 & Ht & F1 & F2 & Hm); [apply Forall_cons_2; [done|by apply Forall_singleton]|apply Forall_cons_2; [done|by apply Forall_singleton]|lia|].
    exists u, top, l. split_and!; try done. intros g Ha. rewrite <- (Hm g Ha). simpl. rewrite (Hg g Ha). lia.
Qed.

End take.

(** The subarray of a slab of ranges. *)
Lemma slab_subarray a es : 0 ≤ a < range_num sub → slab ls (dig ls a) es →
  ∃ s, get_subarray A sub a (flat ls es) = Ok s ∧ is_new s ∧
    ranges_ s = segs (ranges_ sub) (ord row (dig ls a)) (ord row es) ∧
    ∀ g, measure g (ranges_ s) = sum_in (nd_measure g row sub) a (flat ls es).
Proof.
  intros Ha Hsl. pose proof (bs_numbered HB) as Hn. pose proof (major_grid D row sub Hn) as Hg. pose proof (major_cap A D HD row sub Hn) as Mc.
  destruct (slab_inside _ _ _ Hg Hsl) as [I1 I2]. pose proof (flat_bound _ _ I2).
  pose proof (slab_between D row sub Hn _ _ Hsl) as Hb.
  destruct (get_subarray_ok A D HD row sub a (flat ls es)) as (s & E & Hp & Er); try apply HB; try done; try lia.
  { by rewrite (dig_flat ls es I2). }
  rewrite (dig_flat ls es I2) in Er. exists s. split_and!; try done.
  - split_and!; [done| |].
    + intros d rs r Hd Hr. rewrite Er in Hd. unfold segs in Hd.
      apply lookup_zip_with_Some in Hd as (rs' & [x y] & -> & Hd & _). apply seg_elem in Hr. by apply (bs_ok HB d rs').
    + destruct (segs_lens _ _ _ Hb) as [_ Hls]. rewrite <- Mc, <- (major_cap A D HD row s (pc_numbered _ _ _ _ _ Hp)).
      unfold major. rewrite !cap_ord, Er. by apply cap_le.
  - intros g. rewrite Er, (slab_measure D row sub Hn g _ _ Hsl). by rewrite (flat_dig ls a) by (done || lia).
Qed.

(** ** Calibration gives a slab *)

Lemma range_nums : mapM (λ i, of_status (get_range_num A sub i)) (seq 0 n) = Ok (ord row ls).
Proof.
  pose proof (bs_numbered HB) as Hn. unfold major. rewrite ord_ord. apply mapM_ok, Forall2_same_length_lookup. unfold lens.
  rewrite length_seq, length_fmap, (nb_len _ _ _ Hn). split; [done|]. intros k d x Hd Hx. apply lookup_seq in Hd as [-> _].
  apply list_lookup_fmap_Some in Hx as (rs & -> & Hr). simpl Nat.add. by rewrite (get_range_num_ok A D HD row sub Hn k rs Hr).
Qed.

(** Only the last coordinate differs. *)
Definition one_row (ss es : list Z) : Prop := ∀ k x y, (k < n - 1)%nat → ss !! k = Some x → es !! k = Some y → x = y.

Lemma ls_bounds : Forall (λ l, 1 ≤ l < 2 ^ 64) ls.
Proof.
  pose proof (bs_numbered HB) as Hn. pose proof (major_grid D row sub Hn) as Hg. pose proof (nb_cap _ _ _ Hn) as Hc.
  rewrite <- (cap_ord row) in Hc. fold ls in Hc. apply Forall_lookup. intros k l Hl. pose proof (Forall_lookup_1 _ _ _ _ Hg Hl) as H1. simpl in H1.
  destruct (cap_insert _ _ _ Hl) as (c & Ec & Hi). specialize (Hi 1). pose proof (cap_pos (<[k:=1]> ls) ltac:(by apply Forall_insert)). nia.
Qed.

Lemma cal_same ks ss : inside ks ss → cal ks ss ss = ss.
Proof.
  intros Hi. destruct (cal_slab ks ss ss Hi Hi ltac:(lia)) as [Hs Hf]. pose proof (inside_grid _ _ Hi) as Hg.
  destruct (slab_inside _ _ _ Hg Hs) as [_ I]. assert (flat ks (cal ks ss ss) = flat ks ss) as E by lia.
  by rewrite <- (dig_flat ks _ I), E, (dig_flat ks ss Hi).
Qed.

Lemma slab_part (es : list Z) : layout ≠ GLOBAL_ORDER → length es = n →
  ∃ split es', (if Nat.ltb 1 n && negb (bool_decide (layout = UNORDERED)) then
     let d := if bool_decide (layout = ROW_MAJOR) then (n - 1)%nat else 0%nat in
     c ← idx (ord row es) d; k ← idx (ord row ls) d;
     if negb (c =? u64 (k - 1)) then e ← upd (ord row es) d (u64 (k - 1)); Ok (true, e) else Ok (false, ord row es)
   else Ok (false, ord row es)) = Ok (split, ord row es') ∧
   if split : bool then ∃ es0 e ls0 l, es = es0 ++ [e] ∧ ls = ls0 ++ [l] ∧ length es0 = length ls0 ∧ e ≠ l - 1 ∧ es' = es0 ++ [l - 1] ∧ layout ≠ UNORDERED
   else es' = es.
Proof.
  intros Hg Ln. pose proof (n_pos A D HD) as Hp. fold n in Hp. pose proof (bs_numbered HB) as Hn.
  destruct (bool_decide_reflect (layout = UNORDERED)) as [|Hu]; [rewrite andb_false_r; by exists false, es|].
  rewrite andb_true_r. destruct (Nat.ltb 1 n); [|by exists false, es].
  assert ((if bool_decide (layout = ROW_MAJOR) then (n - 1)%nat else 0%nat) = pos row n (n - 1)) as Ed.
  { destruct (nb_layout _ _ _ Hn) as [H|(H & _)]; unfold effective_layout in H; rewrite decide_False in H by done; [|done].
    rewrite H. destruct row; simpl; lia. }
  rewrite Ed. cbv zeta. pose proof (length_major D row sub Hn) as Ll. fold n in Ll.
  destruct (exists_last (l := es)) as (es0 & e & ->); [intros ->; simpl in Ln; lia|].
  destruct (exists_last (l := ls)) as (ls0 & l & El); [intros E; rewrite E in Ll; simpl in Ll; lia|].
  rewrite length_app in Ln. pose proof Ll as Ll'. rewrite El, length_app in Ll'. simpl in Ln, Ll'.
  rewrite (idx_ord row (es0 ++ [e]) n _ e); [|rewrite length_app; simpl; lia|apply list_lookup_middle; lia]. cbn [mbind res_bind].
  rewrite (idx_ord row ls n (n - 1) l); [|done|rewrite El; apply list_lookup_middle; lia]. cbn [mbind res_bind].
  pose proof ls_bounds as Hb. rewrite El in Hb. apply Forall_app in Hb as [_ [Hb _]%Forall_cons]. rewrite u64_id by lia.
  destruct (Z.eqb_spec e (l - 1)) as [->|He]; simpl negb; cbv iota; [by exists false, (es0 ++ [l - 1])|].
  rewrite (upd_ord row _ n) by (rewrite ?length_app; simpl; lia). cbn [mbind res_bind].
  exists true, (es0 ++ [l - 1]). split; [|exists es0, e, ls0, l; split_and!; done || lia]. do 3 f_equal.
  replace (n - 1)%nat with (length es0 + 0)%nat by lia. by rewrite insert_app_r.
Qed.

Lemma calibrate_ok p a b : subarray_ p = sub → cstart_ (current_ p) = a → cend_ (current_ p) = b → 0 ≤ a ≤ b → b < range_num sub →
  ∃ split es, calibrate_current_start_end A p = Ok (split, with_interval p a (flat ls es)) ∧ slab ls (dig ls a) es ∧
    (split = true → layout ≠ UNORDERED ∧ layout ≠ GLOBAL_ORDER) ∧ (split = true ∨ a = b → one_row (dig ls a) es).
Proof.
  intros Es Ea Eb Ha Hb. pose proof (bs_numbered HB) as Hn. pose proof (major_grid D row sub Hn) as Hg.
  pose proof (major_cap A D HD row sub Hn) as Mc. pose proof (length_major D row sub Hn) as Ll. fold n in Ll.
  assert (inside ls (dig ls a) ∧ inside ls (dig ls b)) as [I1 I2] by (split; apply dig_inside; (done || lia)).
  unfold calibrate_current_start_end. rewrite Es, Ea, Eb. destruct (bool_decide_reflect (layout = GLOBAL_ORDER)) as [Eg|Eg].
  - assert (a = b) as <-.
    { destruct (nb_layout _ _ _ Hn) as [H|(_ & _ & H)]; [unfold effective_layout in H; rewrite Eg in H; by destruct row|].
      rewrite <- (cap_ord row) in H. fold ls in H. lia. }
    rewrite Z.eqb_refl. exists false, (dig ls a). rewrite flat_dig by (done || lia). split_and!.
    + cbn. do 2 f_equal. destruct p as [? ? [] ? ? ?]. simpl in *. by subst.
    + by apply slab_point.
    + done.
    + intros _ k x y _ -> [= ->]. done.
  - rewrite !(range_coords_ok A D HD row sub Hn (bs_offsets HB)) by lia. cbn [mbind res_bind]. rewrite (dims_n A D HD). cbn [mbind res_bind].
    fold n. rewrite range_nums. cbn [mbind res_bind]. set (lay := if bool_decide (layout = UNORDERED) then _ else _).
    assert (lay = if row then ROW_MAJOR else COL_MAJOR) as El.
    { unfold lay. destruct (nb_layout _ _ _ Hn) as [H|(H & _)]; unfold effective_layout in H; [by rewrite (bs_cell HB), decide_bool_decide in H|].
      exfalso. by apply Eg, (nb_global _ _ _ Hn). }
    rewrite El. replace (bool_decide ((if row then ROW_MAJOR else COL_MAJOR) = ROW_MAJOR)) with row by (by destruct row).
    replace (massert _) with (Ok ()) by (by destruct row). cbn [mbind res_bind].
    pose proof (calibrate_loop_ok row n ls [] [] [] (dig ls a) (dig ls b) ls_bounds) as Hcal. simpl in Hcal. rewrite Nat.sub_0_r in Hcal.
    rewrite Hcal; [|intros E; rewrite E in Ll; pose proof (n_pos A D HD) as Hp; fold n in Hp; simpl in Ll; lia|done|done|by rewrite length_dig..|done].
    cbn [mbind res_bind]. destruct (cal_slab ls (dig ls a) (dig ls b) I1 I2) as [Hsl Hle]; [rewrite !flat_dig by (done || lia); lia|].
    set (es := cal ls (dig ls a) (dig ls b)) in *. destruct (slab_inside _ _ _ Hg Hsl) as [_ I3].
    pose proof (Forall2_length _ _ _ I3) as L3. destruct (slab_part es Eg) as (split & es' & E & Hsp); [lia|].
    cbv zeta in E. rewrite E. cbn [mbind res_bind]. clear E.
    assert (slab ls (dig ls a) es' ∧ (split = true ∨ a = b → one_row (dig ls a) es')) as [Hsl' Hor].
    { destruct split.
      - destruct Hsp as (es0 & e & ls0 & l & E1 & E2 & E3 & E4 & -> & _). pose proof (length_dig ls a) as Ld.
        destruct (exists_last (l := dig ls a)) as (ss0 & s0 & Ed); [intros E; rewrite E in Ld; rewrite E2, length_app in Ld; simpl in Ld; lia|].
        rewrite E1, Ed in Hsl. rewrite Ed. rewrite E2 in *. rewrite Ed, !length_app in Ld. simpl in Ld.
        destruct (slab_raise ls0 ss0 es0 l s0 e Hsl) as (-> & _ & Hsl'); [lia|lia|done|]. split; [done|].
        intros _ k x y Hk Hx Hy. rewrite lookup_app_l in Hx, Hy by (rewrite length_app in Ll; simpl in Ll; lia). congruence.
      - subst es'. split; [done|]. intros [|<-]; [done|]. unfold es. rewrite cal_same by done. intros k x y _ -> [= ->]. done. }
    destruct (slab_inside _ _ _ Hg Hsl') as [_ I4]. rewrite (range_idx_ok A D HD row sub Hn (bs_offsets HB) es' I4). cbn [mbind res_bind].
    exists split, es'. split_and!; try done. intros ->. destruct Hsp as (? & ? & ? & ? & ?). tauto.
Qed.

(** The subarray of a slab in which only the last coordinate differs. *)
Lemma one_row_slabby a es s : slab ls (dig ls a) es → one_row (dig ls a) es →
  ranges_ s = segs (ranges_ sub) (ord row (dig ls a)) (ord row es) → slabby D row s.
Proof.
  intros Hsl Ho E d rs Hd Hne. pose proof (bs_numbered HB) as Hn. pose proof (major_grid D row sub Hn) as Hg.
  destruct (slab_inside _ _ _ Hg Hsl) as [_ I]. pose proof (Forall2_length _ _ _ I) as L. pose proof (length_major D row sub Hn) as Ll. fold n in Ll.
  rewrite E in Hd. unfold segs in Hd. apply lookup_zip_with_Some in Hd as (rs' & [x y] & -> & Hr & Hp).
  apply lookup_zip_with_Some in Hp as (? & ? & [= <- <-] & Hx & Hy). simpl.
  destruct (slab_between D row sub Hn _ _ Hsl) as (_ & _ & Hb). destruct (Hb _ _ _ _ Hr Hx Hy) as [H1 H2]. rewrite zlen_seg by lia.
  assert (d < n)%nat as Hlt by (apply lookup_lt_Some in Hr; rewrite (nb_len _ _ _ Hn) in Hr; done). fold n in Hne.
  set (k := if row then d else (n - 1 - d)%nat). assert (pos row n k = d) as Ek by (unfold k; destruct row; simpl; lia).
  assert (k < n - 1)%nat as Hk by (unfold k; destruct row; simpl in *; lia).
  rewrite <- Ek in Hx, Hy. assert (length (dig ls a) = n ∧ length es = n) as [E1 E2] by (rewrite length_dig; lia).
  rewrite <- E1 in Hx at 1. rewrite <- E2 in Hy at 1. rewrite ord_lookup in Hx, Hy by lia.
  rewrite (Ho k x y Hk Hx Hy). lia.
Qed.

(** ** The invariant *)

Definition inv (p : SubarrayPartitioner) : Prop :=
  subarray_ p = sub ∧ estimable p ∧ end_ (state_ p) = range_num sub - 1 ∧
  (single_range_ (state_ p) = [] ∧ multi_range_ (state_ p) = [] ∧ 0 ≤ start_ (state_ p) ≤ range_num sub ∨
   single_range_ (state_ p) ≠ [] ∧ multi_range_ (state_ p) = [] ∧ 0 ≤ start_ (state_ p) < range_num sub ∧
     Forall is_new (single_range_ (state_ p)) ∧ Forall single (single_range_ (state_ p)) ∨
   single_range_ (state_ p) = [] ∧ multi_range_ (state_ p) ≠ [] ∧ 0 ≤ start_ (state_ p) < range_num sub ∧
     0 ≤ cend_ (current_ p) < range_num sub ∧
     Forall is_new (multi_range_ (state_ p)) ∧ Forall (slabby D row) (multi_range_ (state_ p))).

(** The first range that no list holds. *)
Definition first_left (p : SubarrayPartitioner) : Z :=
  match single_range_ (state_ p), multi_range_ (state_ p) with
  | _ :: _, _ => start_ (state_ p) + 1
  | [], _ :: _ => cend_ (current_ p) + 1
  | [], [] => start_ (state_ p)
  end.

(** The measure of what is left. *)
Definition pending (g : nat → Range → Z) (p : SubarrayPartitioner) : Z :=
  total g (single_range_ (state_ p)) + total g (multi_range_ (state_ p)) +
  sum_in (nd_measure g row sub) (first_left p) (range_num sub - 1).

(** A step: the partition is taken from what is left. *)
Definition steps (p : SubarrayPartitioner) (x : res (bool * SubarrayPartitioner)) : Prop :=
  ∃ u p', x = Ok (u, p') ∧ inv p' ∧ same_budgets p p' ∧ is_fine (partition_ (current_ p')) ∧
    ∀ g, is_additive g → pending g p = measure g (ranges_ (partition_ (current_ p'))) + pending g p'.

Lemma range_num_u64 : 1 ≤ range_num sub < 2 ^ 64.
Proof.
  pose proof (bs_numbered HB) as Hn. rewrite <- (major_cap A D HD row sub Hn). unfold major. rewrite cap_ord.
  pose proof (nb_cap _ _ _ Hn). pose proof (cap_pos _ (nb_grid _ _ _ Hn)). lia.
Qed.

Lemma assign_fine s t : is_fine t → is_fine (assign s t).
Proof. intros [[] ? ? ? ?]. by repeat split. Qed.

(** The partition taken from [src], and the first range left after it. *)
Definition yields (p : SubarrayPartitioner) (x : res (bool * SubarrayPartitioner)) (src : list Subarray) (first : Z) : Prop :=
  ∃ u p', x = Ok (u, p') ∧ inv p' ∧ same_budgets p p' ∧ is_fine (partition_ (current_ p')) ∧
    ∀ g, is_additive g → total g src + sum_in (nd_measure g row sub) first (range_num sub - 1) =
      measure g (ranges_ (partition_ (current_ p'))) + pending g p'.

Section after.
Variable p : SubarrayPartitioner.
Hypotheses (Es : subarray_ p = sub) (Hem : estimable p) (Ee : end_ (state_ p) = range_num sub - 1)
  (Hst : 0 ≤ start_ (state_ p) < range_num sub).

Lemma after_single fuel src : multi_range_ (state_ p) = [] →
  takes single (take_next A fuel p false (split_top_single_range A p) (single_range_ (state_ p))) src →
  yields p (next_from_single_range A fuel p false) src (start_ (state_ p) + 1).
Proof.
  intros Em (u & top & l & E & Ht & F1 & F2 & Hg). pose proof range_num_u64. unfold next_from_single_range. rewrite E. cbn [mbind res_bind].
  eexists _, _. split; [done|]. destruct l as [|s l].
  - split_and!.
    + split_and!; [done|by apply (estimable_same p)|done|left]. split_and!; simpl; try done; rewrite u64_id by lia; lia.
    + done.
    + by apply assign_fine.
    + intros g Ha. rewrite (Hg g Ha). unfold pending, first_left. simpl. rewrite Em, u64_id by lia. simpl. lia.
  - split_and!.
    + split_and!; [done|by apply (estimable_same p)|done|right; left]. split_and!; simpl; done || lia.
    + done.
    + by apply assign_fine.
    + intros g Ha. rewrite (Hg g Ha). unfold pending, first_left. simpl. rewrite Em. simpl. lia.
Qed.

Lemma after_multi fuel src : single_range_ (state_ p) = [] → 0 ≤ cend_ (current_ p) < range_num sub →
  takes (slabby D row) (take_next A fuel p false (split_top_multi_range A p) (multi_range_ (state_ p))) src →
  yields p (next_from_multi_range A fuel p false) src (cend_ (current_ p) + 1).
Proof.
  intros Em Hc (u & top & l & E & Ht & F1 & F2 & Hg). pose proof range_num_u64. unfold next_from_multi_range. rewrite E. cbn [mbind res_bind].
  eexists _, _. split; [done|]. destruct l as [|s l].
  - split_and!.
    + split_and!; [done|by apply (estimable_same p)|done|left]. split_and!; simpl; try done; rewrite u64_id by lia; lia.
    + done.
    + by apply assign_fine.
    + intros g Ha. rewrite (Hg g Ha). unfold pending, first_left. simpl. rewrite Em, u64_id by lia. simpl. lia.
  - split_and!.
    + split_and!; [done|by apply (estimable_same p)|done|right; right]. split_and!; simpl; done || lia.
    + done.
    + by apply assign_fine.
    + intros g Ha. rewrite (Hg g Ha). unfold pending, first_left. simpl. rewrite Em. simpl. lia.
Qed.

End after.

Lemma single_ranges (s s' : Subarray) : single s → ranges_ s' = ranges_ s → single s'.
Proof. unfold single. by intros ? ->. Qed.

Lemma slabby_ranges (s s' : Subarray) : slabby D row s → ranges_ s' = ranges_ s → slabby D row s'.
Proof. unfold slabby. by intros ? ->. Qed.

Lemma nd_pos i : 0 ≤ i < range_num sub → 1 ≤ nd_measure size row sub i.
Proof.
  intros Hi. pose proof (bs_numbered HB) as Hn. pose proof (major_grid D row sub Hn) as Hg. pose proof (major_cap A D HD row sub Hn) as Mc.
  assert (inside ls (dig ls i)) as I by (apply dig_inside; (done || lia)).
  destruct (slab_subarray i (dig ls i) Hi (slab_point _ _ I)) as (s & _ & Hs & _ & E).
  specialize (E size). rewrite flat_dig, sum_in_one in E by (done || lia). rewrite <- E.
  by apply new_pos.
Qed.

Lemma sum_in_nonneg f a b : (∀ i, a ≤ i ≤ b → 0 ≤ f i) → 0 ≤ sum_in f a b.
Proof.
  unfold sum_in. intros H. remember (Z.to_nat (b - a + 1)) as k eqn:Ek. assert (∀ i, a ≤ i < a + Z.of_nat k → 0 ≤ f i) as H'.
  { intros i Hi. apply H. lia. }
  clear Ek H. revert a H'. induction k as [|k IH]; intros a H; simpl; [done|].
  pose proof (H a ltac:(lia)). assert (0 ≤ isum f (a + 1) k); [|lia]. apply IH. intros. apply H. lia.
Qed.

Lemma left_nonneg a : 0 ≤ a → 0 ≤ sum_in (nd_measure size row sub) a (range_num sub - 1).
Proof. intros Ha. apply sum_in_nonneg. intros i Hi. pose proof (nd_pos i). lia. Qed.

Lemma cells_nonneg l : Forall is_new l → 0 ≤ total size l.
Proof.
  induction 1 as [|s l Hs _ IH]; simpl; [done|]. pose proof (new_pos s Hs). lia.
Qed.

(** The next partition from an interval of one range, or from a slab. *)
Section interval.
Variables (p : SubarrayPartitioner) (fuel : nat) (a : Z).
Hypotheses (Es : subarray_ p = sub) (Hem : estimable p) (Ee : end_ (state_ p) = range_num sub - 1)
  (E1 : single_range_ (state_ p) = []) (E2 : multi_range_ (state_ p) = []) (Ea : cstart_ (current_ p) = a) (Ea' : start_ (state_ p) = a)
  (Ha : 0 ≤ a < range_num sub).
Hypothesis Hf : sum_in (nd_measure size row sub) a (range_num sub - 1) ≤ Z.of_nat fuel.

Lemma interval_single : cend_ (current_ p) = a →
  ∃ s, (∀ g, measure g (ranges_ s) = nd_measure g row sub a) ∧ yields p (next_from_single_range A fuel p false) [s] (a + 1).
Proof.
  intros Ec. pose proof (bs_numbered HB) as Hn. pose proof (major_grid D row sub Hn) as Hg. pose proof (major_cap A D HD row sub Hn) as Mc.
  assert (inside ls (dig ls a)) as I by (apply dig_inside; (done || lia)). pose proof (slab_point _ _ I) as Hsl.
  destruct (slab_subarray a (dig ls a) Ha Hsl) as (s & Eg & Hs & Er & Em). rewrite flat_dig in Eg, Em by (done || lia).
  exists s. split; [intros g; by rewrite Em, sum_in_one|]. rewrite <- Ea' at 1. apply after_single; try done; try lia. rewrite E1.
  apply (take_from_interval p (split_top_single_range A p) single Hem); try done.
  - apply (split_top_single_ok A D HD (size := size)). by rewrite Es.
  - by apply single_ranges.
  - by rewrite Es, Ea, Ec.
  - unfold single. rewrite Er. apply Forall_lookup. intros d rs Hd. unfold segs in Hd.
    apply lookup_zip_with_Some in Hd as (rs' & [x y] & -> & Hr & Hp). apply lookup_zip_with_Some in Hp as (? & ? & [= <- <-] & Hx & Hy).
    rewrite Hx in Hy. injection Hy as <-. destruct (slab_between D row sub Hn _ _ Hsl) as (_ & _ & Hb).
    destruct (Hb _ _ _ _ Hr Hx Hx). simpl. rewrite zlen_seg; lia.
  - rewrite Em, sum_in_one. rewrite (sum_in_split _ a a) in Hf by lia. rewrite sum_in_one in Hf. pose proof (left_nonneg (a + 1) ltac:(lia)). lia.
Qed.

Lemma interval_multi es : slab ls (dig ls a) es → one_row (dig ls a) es → cend_ (current_ p) = flat ls es →
  ∃ s, (∀ g, measure g (ranges_ s) = sum_in (nd_measure g row sub) a (flat ls es)) ∧
    yields p (next_from_multi_range A fuel p false) [s] (flat ls es + 1).
Proof.
  intros Hsl Ho Ec. pose proof (bs_numbered HB) as Hn. pose proof (major_grid D row sub Hn) as Hg. pose proof (major_cap A D HD row sub Hn) as Mc.
  destruct (slab_inside _ _ _ Hg Hsl) as [_ I]. pose proof (flat_bound _ _ I).
  destruct (slab_le _ _ _ Hg Hsl) as [_ Hle]. rewrite flat_dig in Hle by (done || lia).
  destruct (slab_subarray a es Ha Hsl) as (s & Eg & Hs & Er & Em).
  exists s. split; [done|]. rewrite <- Ec. apply after_multi; try done; try lia. rewrite E2.
  apply (take_from_interval p (split_top_multi_range A p) (slabby D row) Hem); try done.
  - apply (split_top_multi_ok A D HD (size := size)). by rewrite Es.
  - by apply slabby_ranges.
  - by rewrite Es, Ea, Ec.
  - by apply (one_row_slabby a es).
  - rewrite Em. rewrite (sum_in_split _ a (flat ls es)) in Hf by lia. pose proof (left_nonneg (flat ls es + 1) ltac:(lia)). lia.
Qed.

End interval.

(** ** Next *)

Lemma fit_ranges_bound p bs cur mem rs ms k : k ≤ fit_ranges p bs cur mem rs ms k ≤ k + zlen rs.
Proof.
  revert cur mem ms k. induction rs as [|r rs IH]; intros cur mem [|m ms] k; simpl; try (unfold zlen; simpl; lia).
  destruct (existsb _ _); [unfold zlen; simpl; lia|].
  specialize (IH (zip_with sum_doubles cur r) (zip_with sum_words mem m) ms (k + 1)). unfold zlen in *. simpl length. lia.
Qed.

Lemma current_interval p a : inv p → start_ (state_ p) = a → a < range_num sub → 0 ≤ a →
  ∃ found b, compute_current_start_end A p = Ok (found, with_interval p a b) ∧ a ≤ b < range_num sub ∧ (found = false → b = a).
Proof.
  intros (Es & Hem & Ee & _) Ea Hlt H0. unfold compute_current_start_end. rewrite Es, Ee, Ea.
  destruct (em_sizes p Hem a (range_num sub - 1)) as (rs & ms & E & Hz); [lia|lia|]. rewrite E. cbn [mbind res_bind].
  set (k := fit_ranges _ _ _ _ _ _ _). assert (0 ≤ k ≤ zlen rs) as Hk by apply fit_ranges_bound.
  destruct (Z.eqb_spec k 0).
  - exists false, a. split_and!; done || lia.
  - exists true, (a + k - 1). split_and!; done || lia.
Qed.

Lemma yields_steps p x src first : (∀ g, is_additive g → pending g p = total g src + sum_in (nd_measure g row sub) first (range_num sub - 1)) →
  yields p x src first → steps p x.
Proof.
  intros Hp (u & p' & E & Hi & Hb & Hfi & Hg). exists u, p'. split_and!; try done. intros g Ha. by rewrite (Hp g Ha), (Hg g Ha).
Qed.

Lemma step_lists p fuel : inv p → pending size p ≤ Z.of_nat fuel →
  (single_range_ (state_ p) ≠ [] → steps p (next_from_single_range A fuel p false)) ∧
  (single_range_ (state_ p) = [] → multi_range_ (state_ p) ≠ [] → steps p (next_from_multi_range A fuel p false)).
Proof.
  intros (Es & Hem & Ee & Hi) Hf. unfold pending, first_left in Hf. split.
  - intros Hne. destruct Hi as [(E & _)|[(_ & Em & Hst & F1 & F2)|(E & _)]]; try done.
    eapply (yields_steps p _ (single_range_ (state_ p))); [|apply after_single; try done].
    + intros g _. unfold pending, first_left. rewrite Em. destruct (single_range_ (state_ p)); [done|]. simpl. lia.
    + rewrite Em in Hf. destruct (single_range_ (state_ p)) as [|s l] eqn:El; [done|].
      apply (take_from_list p (split_top_single_range A p) single Hem); try done.
      * apply (split_top_single_ok A D HD (size := size)). by rewrite Es.
      * by apply single_ranges.
      * apply Forall_cons in F1 as [_ F1]. rewrite cells_cons in Hf. change (total size []) with 0 in Hf. pose proof (cells_nonneg l F1). pose proof (left_nonneg (start_ (state_ p) + 1) ltac:(lia)). lia.
  - intros E1 Hne. destruct Hi as [(_ & E & _)|[(E & _)|(_ & _ & Hst & Hc & F1 & F2)]]; try done.
    eapply (yields_steps p _ (multi_range_ (state_ p))); [|apply after_multi; try done].
    + intros g _. unfold pending, first_left. rewrite E1. destruct (multi_range_ (state_ p)); [done|]. simpl. lia.
    + rewrite E1 in Hf. destruct (multi_range_ (state_ p)) as [|s l] eqn:El; [done|].
      apply (take_from_list p (split_top_multi_range A p) (slabby D row) Hem); try done.
      * apply (split_top_multi_ok A D HD (size := size)). by rewrite Es.
      * by apply slabby_ranges.
      * apply Forall_cons in F1 as [_ F1]. rewrite cells_cons in Hf. change (total size []) with 0 in Hf. pose proof (cells_nonneg l F1). pose proof (left_nonneg (cend_ (current_ p) + 1) ltac:(lia)). lia.
Qed.

(** A whole slab is the next partition. *)
Lemma step_whole p a es : inv p → single_range_ (state_ p) = [] → multi_range_ (state_ p) = [] → start_ (state_ p) = a →
  0 ≤ a < range_num sub → slab ls (dig ls a) es →
  steps p (s ← get_subarray A sub a (flat ls es);
    Ok (false, with_start (set_partition (with_interval p a (flat ls es)) s false) (u64 (flat ls es + 1)))).
Proof.
  intros (Es & Hem & Ee & _) E1 E2 Ea Ha Hsl. pose proof (bs_numbered HB) as Hn. pose proof (major_grid D row sub Hn) as Hg.
  pose proof (major_cap A D HD row sub Hn) as Mc. destruct (slab_inside _ _ _ Hg Hsl) as [_ I]. pose proof (flat_bound _ _ I).
  destruct (slab_le _ _ _ Hg Hsl) as [_ Hle]. rewrite flat_dig in Hle by (done || lia). pose proof range_num_u64.
  destruct (slab_subarray a es Ha Hsl) as (s & Eg & Hs & Er & Em). rewrite Eg. cbn [mbind res_bind].
  eexists _, _. split; [done|]. split_and!.
  - split_and!; [done|by apply (estimable_same p)|done|left]. split_and!; simpl; try done; rewrite u64_id by lia; lia.
  - done.
  - by apply assign_fine, new_fine.
  - intros g Ha'. unfold pending, first_left. simpl. rewrite E1, E2. simpl. rewrite u64_id, Em, Ea by lia.
    rewrite (sum_in_split _ a (flat ls es)) by lia. lia.
Qed.

Lemma steps_interval p a b x : steps (with_interval p a b) x → single_range_ (state_ p) = [] → multi_range_ (state_ p) = [] → steps p x.
Proof.
  intros (u & p' & E & Hi & Hb & Hfi & Hg) E1 E2. exists u, p'. split_and!; try done. intros g Ha. rewrite <- (Hg g Ha).
  unfold pending, first_left. simpl. by rewrite E1, E2.
Qed.

Lemma inv_interval p a b : inv p → single_range_ (state_ p) = [] → multi_range_ (state_ p) = [] → inv (with_interval p a b).
Proof.
  intros (Es & Hem & Ee & Hi) E1 E2. split_and!; [done|by apply (estimable_same p)|done|left].
  destruct Hi as [(_ & _ & ?)|[(? & _)|(_ & ? & _)]]; done.
Qed.

Lemma next_ok p fuel : inv p → done p = false → pending size p ≤ Z.of_nat fuel → steps p (next A fuel p).
Proof.
  intros Hi Hd Hf. destruct (step_lists p fuel Hi Hf) as [H1 H2]. pose proof range_num_u64. unfold next. rewrite Hd.
  destruct (bool_decide_reflect (single_range_ (state_ p) = [])) as [E1|E1]; simpl negb; cbv iota; [|by apply H1].
  destruct (bool_decide_reflect (multi_range_ (state_ p) = [])) as [E2|E2]; simpl negb; cbv iota; [|by apply H2]. clear H1 H2.
  pose proof Hi as (Es & Hem & Ee & Hst). set (a := start_ (state_ p)) in *.
  assert (0 ≤ a < range_num sub) as Ha.
  { unfold done in Hd. apply orb_false_iff in Hd as [_ Hd%Z.ltb_ge]. rewrite Ee in Hd. fold a in Hd.
    destruct Hst as [(_ & _ & ?)|[(? & _)|(_ & ? & _)]]; [lia|done|done]. }
  assert (pending size p = sum_in (nd_measure size row sub) a (range_num sub - 1)) as Ep by (unfold pending, first_left; rewrite E1, E2; simpl; fold a; lia).
  destruct (current_interval p a Hi eq_refl) as (found & b & Ec & Hb & Hfd); [lia|lia|]. rewrite Ec. cbn [mbind res_bind].
  set (q := with_interval p a b). pose proof (inv_interval p a b Hi E1 E2) as Hq. fold q in Hq.
  assert (∀ y g c, a ≤ c < range_num sub → pending g (with_interval p a y) = sum_in (nd_measure g row sub) a c + sum_in (nd_measure g row sub) (c + 1) (range_num sub - 1)) as Hpq.
  { intros y g c Hc. unfold pending, first_left. simpl. rewrite E1, E2. simpl. fold a. rewrite (sum_in_split _ a c) by lia. lia. }
  apply (steps_interval p a b); [|done|done]. fold q. change (layout_ (subarray_ q)) with (layout_ (subarray_ p)). rewrite Es.
  destruct (negb found && _) eqn:Eb.
  - apply andb_true_iff in Eb as [Ef _]. destruct found; [done|]. pose proof (Hfd eq_refl) as Eba.
    destruct (interval_single q fuel a) as (s & Em & Hy); try done; try (by apply Hq); try (simpl; lia). eapply yields_steps; [|exact Hy].
    intros g _. unfold q. rewrite (Hpq b g a) by lia. simpl. rewrite Em, sum_in_one. lia.
  - destruct (calibrate_ok q a b) as (split & es & Ecal & Hsl & Hly & Hor); try done; try lia. rewrite Ecal. cbn [mbind res_bind].
    change (with_interval q a (flat ls es)) with (with_interval p a (flat ls es)). set (q' := with_interval p a (flat ls es)).
    pose proof (bs_numbered HB) as Hn. pose proof (major_grid D row sub Hn) as Hg. pose proof (major_cap A D HD row sub Hn) as Mc.
    destruct (slab_inside _ _ _ Hg Hsl) as [_ I]. pose proof (flat_bound _ _ I).
    destruct (slab_le _ _ _ Hg Hsl) as [_ Hle]. rewrite flat_dig in Hle by (done || lia).
    destruct (found && negb split) eqn:Ef.
    + change (subarray_ q') with (subarray_ p). rewrite Es. by apply (step_whole q a es).
    + apply (steps_interval q a (flat ls es)); [|done|done].
      change (with_interval q a (flat ls es)) with q'. pose proof (inv_interval p a (flat ls es) Hi E1 E2) as Hq'. fold q' in Hq'.
      assert (one_row (dig ls a) es) as Ho.
      { apply Hor. destruct split; [by left|]. destruct found; [done|]. right. by rewrite Hfd. }
      destruct (interval_multi q' fuel a) with (es := es) as (s & Em & Hy); try done; try (by apply Hq'); try (simpl; lia). eapply yields_steps; [|exact Hy].
      intros g _. unfold q'. rewrite (Hpq _ g (flat ls es)) by lia. rewrite cells_cons, Em. simpl. lia.
Qed.

(** ** All the partitions *)

Lemma pending_nonneg p : inv p → 0 ≤ pending size p.
Proof.
  intros (_ & _ & _ & Hi). unfold pending, first_left. destruct Hi as [(-> & -> & H)|[(Hne & -> & H & F1 & _)|(-> & Hne & _ & H & F1 & _)]].
  - pose proof (left_nonneg (start_ (state_ p))). simpl. lia.
  - pose proof (cells_nonneg _ F1). destruct (single_range_ (state_ p)); [done|]. pose proof (left_nonneg (start_ (state_ p) + 1)). simpl in *. lia.
  - pose proof (cells_nonneg _ F1). destruct (multi_range_ (state_ p)); [done|]. pose proof (left_nonneg (cend_ (current_ p) + 1)). simpl in *. lia.
Qed.

Lemma fine_pos s : is_fine s → 1 ≤ measure size (ranges_ s).
Proof. intros Hs. apply (measure_pos D s (fn_ok _ _ _ _ _ _ Hs)), (fine_nonempty A D row layout R s Hs). Qed.

Lemma done_pending p g : inv p → done p = true → pending g p = 0.
Proof.
  intros (Es & _ & Ee & Hi) Hd. pose proof range_num_u64. unfold done, sempty in Hd. rewrite Es, Ee in Hd.
  rewrite (proj2 (Z.eqb_neq (range_num sub) 0)) in Hd by lia. simpl in Hd. apply Z.ltb_lt in Hd. unfold pending, first_left.
  destruct Hi as [(-> & -> & ?)|[(_ & _ & ? & _)|(_ & _ & ? & _)]]; [|lia..].
  unfold sum_in. replace (Z.to_nat (range_num sub - 1 - start_ (state_ p) + 1)) with 0%nat by lia. done.
Qed.

Lemma partitions_ok k fuel p : inv p → pending size p ≤ Z.of_nat k → pending size p ≤ Z.of_nat fuel →
  ∃ ps, partitions A fuel k p = Ok ps ∧ Forall is_fine ps ∧ ∀ g, is_additive g → total g ps = pending g p.
Proof.
  revert p. induction k as [|k IH]; intros p Hi Hk Hf; cbn [partitions];
    (destruct (done p) eqn:Ed; [exists []; split_and!; try done; intros g _; by rewrite (done_pending p g Hi Ed)|]);
    destruct (next_ok p fuel Hi Ed Hf) as (u & p' & E & Hi' & _ & Hfi & Hg); pose proof (Hg size (additive_size D)) as Hs;
    pose proof (fine_pos _ Hfi); pose proof (pending_nonneg p' Hi'); [lia|].
  rewrite E. cbn [mbind res_bind]. destruct (IH p' Hi') as (ps & Ep & Fp & Hp); [lia|lia|]. rewrite Ep. cbn [mbind res_bind].
  eexists. split; [done|]. split; [by constructor|]. intros g Ha. rewrite cells_cons, (Hg g Ha), (Hp g Ha). done.
Qed.

End cover.
