(* ===== verification/SubarrayInts.v ===== *)
(** * Splitting of the ranges of integer dimensions

    The laws that the partitioner asks of the dimensions, for dimensions of integer
    types, and the measures that the partitions divide: the number of cells, and how
    often a point is met. *)

From S2P Require Import Prelude.
From S2P Require Import Enums.
From S2P Require Import Num.
From S2P Require Import NumFacts.
From S2P Require Import Range.
From S2P Require Import Loops.
From S2P Require Import Dimension.
From S2P Require Import DimensionProofs.
From S2P Require Import Domain.
From S2P Require Import Subarray.
From S2P Require Import SubarrayTiles.
From S2P Require Import SubarrayPartitioner.
From S2P Require Import PartitionerProofs.
Local Open Scope Z_scope.

(** [MAX(1, floor(n / 2)) - 1] is exact. *)
Lemma tiles_before_exact n : 0 ≤ n ≤ 2 ^ 54 → tiles_before n = Ok (Z.max 1 (n / 2) - 1).
Proof.
  intros Hn. assert (0 ≤ n / 2 ≤ 2 ^ 53) as Hh by (split; [apply Z.div_pos; lia|apply Z.div_le_upper_bound; lia]).
  unfold tiles_before. cbv zeta. set (h := n / 2) in *. change one with f_one.
  assert (f_trunc F64 (fsub F64 (if flt F64 (dbl h) f_one then f_one else dbl h) f_one) = Ok (Z.max 1 h - 1)) as ->.
  { destruct (decide (h = 0)) as [->|H0]; [by vm_compute|]. destruct (flt F64 (dbl h) f_one) eqn:E.
    - destruct (decide (h = 1)) as [->|H1]; [by vm_compute|]. exfalso. clearbody h.
      destruct (f_of_Z_repr h) as (m & e & Em & Hm & He & V); [lia|]. unfold flt, dbl in E. rewrite Em, fdec_one in E.
      rewrite fdec_fenc_normal in E by (done || lia). unfold sf_one, SpecFloat.SFltb in E. cbn [SpecFloat.SFcompare] in E.
      destruct (Z.compare_spec e (-52)) as [Ee|?|?]; [|lia|done]. rewrite Ee in V. simpl in V. unfold normal in Hm. lia.
    - unfold dbl. rewrite fsub_one by lia. f_equal. lia. }
  unfold in_range. cbn [mbind res_bind]. rewrite (proj2 (fits_spec _ _)); [done|]. unfold_ctype. simpl. lia.
Qed.

Lemma with_char_num {X : Type} (f : num → X) c t T : num_of t = Some T → with_char f c t = Some (f T).
Proof. intros E. destruct t; try discriminate E; simpl in *; by injection E as <-. Qed.

Lemma tile_cut lo hi ext a b ja jb k : 0 < ext → lo + ja * ext ≤ a ≤ lo + (ja + 1) * ext - 1 → lo + jb * ext ≤ b →
  0 ≤ k ≤ jb - ja - 1 → lo ≤ a → b ≤ hi →
  a ≤ lo + (ja + k + 1) * ext - 1 ∧ lo + (ja + k + 1) * ext - 1 < b ∧ lo ≤ a + (k + 1) * ext ≤ hi + ext.
Proof.
  intros He Ha Hb Hk Hlo Hhi. assert ((ja + k + 1) * ext ≤ jb * ext) by (apply Z.mul_le_mono_nonneg_r; lia).
  assert ((ja + 1) * ext ≤ (ja + k + 1) * ext) by (apply Z.mul_le_mono_nonneg_r; lia).
  assert (0 ≤ (k + 1) * ext) by (apply Z.mul_nonneg_nonneg; lia). lia.
Qed.

Section ints.
Variable D : Domain.t.

(** A dimension of type [ty] with domain [[lo, hi]]; when it has a tile extent, the
    type has room for one more tile. Coordinates are at most [2^53] in magnitude, and
    there are at most [2^53] tiles. *)
Record int_dimension (ty : ctype) (dim : Dimension.t) (lo hi : Z) : Prop := {
  id_type : num_of (type_ dim) = Some (NInt ty);
  id_domain : is_pair (NInt ty) (domain_ dim) lo hi;
  id_order : lo ≤ hi;
  id_range : in_ctype (promote ty) (hi - lo);
  id_exact : Z.abs lo ≤ 2 ^ 53 ∧ Z.abs hi ≤ 2 ^ 53;
  id_extent : extent_empty dim = true ∨ ∃ ext, tiled ty dim lo hi ext ∧
    in_ctype ty (hi + ext) ∧ in_ctype ty (hi + ext - lo) ∧ hi + ext ≤ 2 ^ 53 ∧ hi - lo ≤ 2 ^ 53
}.

(** A range of the dimension inside of its domain. *)
Definition int_range (d : nat) (r : Range) : Prop :=
  ∃ dim ty lo hi a b, dimensions_ D !! d = Some dim ∧ int_dimension ty dim lo hi ∧ is_pair (NInt ty) r a b ∧
    range_start_size_ r = 0 ∧ lo ≤ a ∧ a ≤ b ∧ b ≤ hi.

(** [[a, b]] is cut into [[a, c]] and [[c + 1, b]]. *)
Definition int_cuts (d : nat) (r r1 r2 : Range) : Prop :=
  ∃ dim ty a b c, dimensions_ D !! d = Some dim ∧ num_of (type_ dim) = Some (NInt ty) ∧
    is_pair (NInt ty) r a b ∧ is_pair (NInt ty) r1 a c ∧ is_pair (NInt ty) r2 (c + 1) b ∧ a ≤ c ∧ c < b.

(** The number of values of a range. *)
Definition value_num (d : nat) (r : Range) : Z :=
  match dimensions_ D !! d with
  | Some dim => match num_of (type_ dim) with
                | Some T => match rd2 T r with Ok (a, b) => b - a + 1 | _ => 0 end
                | None => 0
                end
  | None => 0
  end.

(** 1 when the coordinate of dimension [d] of a point lies in the range. *)
Definition covers (point : list (list Z)) (d : nat) (r : Range) : Z :=
  match dimensions_ D !! d, point !! d with
  | Some dim, Some v => match value_in_range dim v r with Ok true => 1 | _ => 0 end
  | _, _ => 0
  end.

Lemma cut_range d dim ty lo hi r a b c : dimensions_ D !! d = Some dim → int_dimension ty dim lo hi →
  is_pair (NInt ty) r a b → lo ≤ a → a ≤ c → c < b → b ≤ hi → nval (NInt ty) c →
  ∃ r1 r2, split_range dim r (nenc (NInt ty) c) empty_range empty_range = Ok (r1, r2) ∧
    int_range d r1 ∧ int_range d r2 ∧ int_cuts d r r1 r2.
Proof.
  intros Hd Hi Hr H1 H2 H3 H4 Hc. pose proof Hi as [Ht _ _ _ [X1 X2] _]. pose proof Hr as (_ & Va & Vb).
  destruct (split_range_value ty r a b c empty_range empty_range Hr Hc H3) as [E Vc]; [lia|].
  unfold split_range, split_range_func_. rewrite (with_char_num _ _ _ _ Ht). cbn [call]. rewrite E.
  assert (is_pair (NInt ty) (set_pair (NInt ty) a c empty_range) a c) as P1 by (by apply set_pair_is).
  assert (is_pair (NInt ty) (set_pair (NInt ty) (c + 1) b empty_range) (c + 1) b) as P2 by (by apply set_pair_is).
  eexists _, _. split; [done|]. split_and!.
  - exists dim, ty, lo, hi, a, c. split_and!; try done; lia.
  - exists dim, ty, lo, hi, (c + 1), b. split_and!; try done; lia.
  - exists dim, ty, a, b, c. by split_and!.
Qed.

(** A range of more than one tile is cut at the end of a tile. *)
Lemma cut_tiles d dim ty lo hi r a b ext : dimensions_ D !! d = Some dim → int_dimension ty dim lo hi →
  is_pair (NInt ty) r a b → lo ≤ a → a ≤ b → b ≤ hi → tiled ty dim lo hi ext →
  in_ctype ty (hi + ext) → in_ctype ty (hi + ext - lo) → hi + ext ≤ 2 ^ 53 → hi - lo ≤ 2 ^ 53 →
  ∃ t, Dimension.tile_num dim r = Ok t ∧ 1 ≤ t < 2 ^ 64 ∧ (t ≠ 1 → ∃ k v r1 r2,
    tiles_before (t - 1) = Ok k ∧ ceil_to_tile dim r k = Ok v ∧
    split_range dim r v empty_range empty_range = Ok (r1, r2) ∧ int_range d r1 ∧ int_range d r2 ∧ int_cuts d r r1 r2).
Proof.
  intros Hd Hi Hr Ha Hab Hb Ht Hx Hy Hz Hw. pose proof Hi as [Hty Hdom _ _ [X1 X2] _]. pose proof (tiled_pos _ _ _ _ _ Ht) as Hpos.
  destruct (DimensionProofs.tile_index ty dim lo hi ext a Ht) as (_ & _ & Pa & Ia); [lia|].
  destruct (DimensionProofs.tile_index ty dim lo hi ext b Ht) as (_ & _ & Pb & Ib); [lia|].
  assert ((a - lo) / ext ≤ (b - lo) / ext) as Hle by (apply Z.div_le_mono; lia).
  assert ((b - lo) / ext ≤ b - lo) as Hbl by (apply Z.div_le_upper_bound; nia).
  assert ((b - lo) / ext ≤ 2 ^ 53) as Hk by lia.
  pose proof (tile_num_value ty dim lo hi ext r a b Ht Hr Ha Hab Hb Hk) as En.
  unfold Dimension.tile_num, tile_num_func_. rewrite (with_char_num _ _ _ _ Hty). cbn [call]. rewrite En.
  set (ja := (a - lo) / ext) in *. set (jb := (b - lo) / ext) in *. eexists. split; [done|]. split; [lia|]. intros Ht1.
  set (k := Z.max 1 ((jb - ja + 1 - 1) / 2) - 1).
  assert (0 ≤ k ≤ jb - ja - 1) as Hkb.
  { unfold k. pose proof (Z.div_le_upper_bound (jb - ja + 1 - 1) 2 (jb - ja)). lia. }
  exists k, (nenc (NInt ty) (tile_hi lo ext (ja + k))). unfold tile_lo, tile_hi in *.
  destruct (tile_cut lo hi ext a b ja jb k) as (Hge & Hlt & Hm); try done; try lia.
  pose proof Hdom as (_ & Vlo & Vhi). pose proof Hr as (_ & Va & Vb). simpl in Vlo, Vhi, Va, Vb.
  destruct (cut_range d dim ty lo hi r a b (lo + (ja + k + 1) * ext - 1) Hd Hi Hr) as (r1 & r2 & E & H1 & H2 & H3); [lia..| |].
  { simpl. apply (in_between ty a _ b); done || lia. }
  exists r1, r2. split_and!; try done.
  - apply tiles_before_exact. lia.
  - unfold ceil_to_tile, ceil_to_tile_func_. rewrite Hty. cbn [fmap option_fmap option_map call].
    apply (ceil_to_tile_end ty dim lo hi ext r a b k); try done; try lia.
    + apply (in_between ty lo _ (hi + ext)); done || lia.
    + apply (in_between ty 0 _ (hi + ext - lo)); [destruct ty; unfold_ctype; simpl; lia|done|lia].
Qed.

#[local] Instance int_laws : RangeLaws D int_range int_cuts value_num.
Proof.
  split.
  - intros d r (dim & ty & lo & hi & a & b & Hd & Hi & Hr & Hs & _). eexists. by apply (unary_pair (NInt ty) r a b).
  - intros d dim' r Hdim (dim & ty & lo & hi & a & b & Hd & Hi & Hr & Hs & H1 & H2 & H3) Hu.
    rewrite Hd in Hdim. injection Hdim as <-. rewrite (unary_pair (NInt ty) r a b Hr Hs) in Hu.
    injection Hu as Hu. apply bool_decide_eq_false in Hu. pose proof Hi as [Hty _ _ Hrg _ _].
    destruct (splitting_value_spec ty r a b Hr H2) as [E Vc]; [apply (promote_nonneg _ _ _ Hrg); lia|].
    unfold splitting_value, splitting_value_func_. rewrite (with_char_num _ _ _ _ Hty). cbn [call]. rewrite E. cbn [mbind res_bind].
    eexists _, _. split; [done|]. intros _. cbn [default].
    assert (0 ≤ (b - a) / 2 < b - a) by (split; [apply Z.div_pos; lia|apply Z.div_lt_upper_bound; lia]).
    apply (cut_range d dim ty lo hi r a b); try done; lia.
  - intros d dim' r Hdim (dim & ty & lo & hi & a & b & Hd & Hi & Hr & Hs & H1 & H2 & H3).
    rewrite Hd in Hdim. injection Hdim as <-. destruct (id_extent _ _ _ _ Hi) as [He|(ext & Ht & Hx & Hy & Hz & Hw)].
    + exists 1. pose proof Hi as [Hty _ _ _ _ _]. unfold Dimension.tile_num, tile_num_func_. rewrite (with_char_num _ _ _ _ Hty). cbn [call].
      unfold tile_num_t. rewrite (pair_nonempty (NInt ty) r a b Hr), He. done.
    + by apply (cut_tiles d dim ty lo hi r a b ext).
  - intros d r (dim & ty & lo & hi & a & b & Hd & Hi & Hr & Hs & H1 & H2 & H3). unfold value_num.
    rewrite Hd, (id_type _ _ _ _ Hi), (rd2_pair (NInt ty) r a b Hr). lia.
  - intros d r r1 r2 (dim & ty & a & b & c & Hd & Ht & P & P1 & P2 & H1 & H2). unfold value_num.
    rewrite Hd, Ht, (rd2_pair _ _ _ _ P), (rd2_pair _ _ _ _ P1), (rd2_pair _ _ _ _ P2). lia.
Qed.

(** Every point is met in exactly one of the parts. *)
Lemma covers_additive point : additive (cuts := int_cuts) (covers point).
Proof.
  intros d r r1 r2 (dim & ty & a & b & c & Hd & Ht & P & P1 & P2 & H1 & H2). unfold covers. rewrite Hd.
  destruct (point !! d) as [v|]; [|done]. unfold value_in_range, value_in_range_func_. rewrite Ht. cbn [fmap option_fmap option_map call].
  unfold value_in_range_t. rewrite (pair_nonempty _ _ _ _ P), (pair_nonempty _ _ _ _ P1), (pair_nonempty _ _ _ _ P2). cbn [negb massert mbind res_bind].
  destruct (rd (NInt ty) v 0) as [x| |]; [|done..]. cbn [mbind res_bind].
  rewrite (rd2_pair _ _ _ _ P), (rd2_pair _ _ _ _ P1), (rd2_pair _ _ _ _ P2). cbn [mbind res_bind nle].
  destruct (Z.leb_spec a x), (Z.leb_spec x b), (Z.leb_spec x c), (Z.leb_spec (c + 1) x); simpl; lia.
Qed.

End ints.
