(* ===== verification/SubarrayEstimates.v ===== *)
(** * Tile overlap and estimates

    The tiles of a dense fragment are grouped without loss, and the computation of the
    tile overlap and of the result sizes returns: the sums of the estimates stay below
    what the tiles of the fragments hold. *)

From stdpp Require Import gmap.
From S2P Require Import Prelude.
From S2P Require Import Enums.
From S2P Require Import Num.
From S2P Require Import NumFacts.
From S2P Require Import Range.
From S2P Require Import Loops.
From S2P Require Import Dimension.
From S2P Require Import DimensionProofs.
From S2P Require Import Domain.
From S2P Require Import DomainRanges.
From S2P Require Import Attribute.
From S2P Require Import ArraySchema.
From S2P Require Import ArraySchemaProofs.
From S2P Require Import RTree.
From S2P Require Import RTreeBuild.
From S2P Require Import Subarray.
From S2P Require Import SubarrayTiles.
From S2P Require Import SubarrayPartitioner.
From S2P Require Import SubarrayRanges.
From S2P Require Import SubarrayParts.
From S2P Require Import PartitionerProofs.
From S2P Require Import PartitionerCover.
From S2P Require Import SubarrayInts.
Local Open Scope Z_scope.

(** ** Grouping *)

(** The tiles of an overlap with the share of each that is covered. *)
Definition tile_weights (o : TileOverlap) : list (Z * Z) := (λ t, (t.1, default one t.2)) <$> overlap_tiles o.

(** A covered tile weighs 1. *)
Definition weight (x : Z * Z) : Z * Z := (x.1, if feq F64 x.2 one then one else x.2).

(** The tiles of the range that has started. *)
Definition run (g : Grouping) : list (Z * Z) := (λ t, (t, one)) <$> zseq (start_tid g) (end_tid g).

Lemma weights_tile o x : tile_weights (mkOverlap (tiles_ o ++ [x]) (tile_ranges_ o)) = tile_weights o ++ [x].
Proof.
  unfold tile_weights, overlap_tiles. cbn [tiles_ tile_ranges_]. rewrite !fmap_app, app_assoc. f_equal. by destruct x.
Qed.

Lemma weights_range o a b : tile_weights (mkOverlap (tiles_ o) (tile_ranges_ o ++ [(a, b)])) ≡ₚ
  tile_weights o ++ ((λ t, (t, one)) <$> zseq a b).
Proof.
  unfold tile_weights, overlap_tiles. cbn [tiles_ tile_ranges_]. rewrite bind_app, !fmap_app. cbn [mbind list_bind fst snd].
  rewrite app_nil_r, <- (list_fmap_compose (λ t, (t, None))). rewrite <- !app_assoc. apply Permutation_app_head, Permutation_app_comm.
Qed.

Lemma add_previous_weights g : start_tid g ≤ end_tid g → tile_weights (add_previous g) ≡ₚ tile_weights (collected g) ++ run g.
Proof.
  intros Hle. unfold add_previous, run. destruct (Z.eqb_spec (start_tid g) (end_tid g)) as [E|E]; simpl negb; cbv iota.
  - rewrite weights_tile, <- E, zseq_cons, zseq_nil by lia. done.
  - apply weights_range.
Qed.

Lemma zseq_snoc a b : a ≤ b + 1 → zseq a (b + 1) = zseq a b ++ [b + 1].
Proof.
  intros H. unfold zseq. replace (Z.to_nat (b + 1 - a + 1)) with (S (Z.to_nat (b - a + 1))) by lia.
  rewrite seq_S, fmap_app. simpl. do 2 f_equal. lia.
Qed.

(** What the state of the loop stands for. *)
Definition grouped (g : Grouping) : list (Z * Z) :=
  tile_weights (collected g) ++ (if start_tid g =? u64_max then [] else run g).
Definition run_ok (g : Grouping) : Prop :=
  start_tid g = u64_max ∨ 0 ≤ start_tid g ∧ start_tid g ≤ end_tid g ∧ end_tid g < u64_max.

Lemma finish_run g : run_ok g → tile_weights (if negb (start_tid g =? u64_max) then add_previous g else collected g) ≡ₚ grouped g.
Proof.
  intros H. unfold grouped. destruct (Z.eqb_spec (start_tid g) u64_max) as [E|E]; simpl negb; cbv iota; [by rewrite app_nil_r|].
  apply add_previous_weights. destruct H; [done|lia].
Qed.

Lemma group_tile_ok g x : run_ok g → 0 ≤ x.1 < u64_max → run_ok (group_tile g x) ∧ grouped (group_tile g x) ≡ₚ grouped g ++ [weight x].
Proof.
  intros H Hx. unfold group_tile. destruct x as [t q]. unfold weight. simpl fst in *. simpl snd. destruct (feq F64 q one) eqn:Eq; simpl negb; cbv iota.
  - destruct (Z.eqb_spec (start_tid g) u64_max) as [E|E].
    + split; [right; simpl; lia|]. unfold grouped, run. simpl. rewrite E, Z.eqb_refl, (proj2 (Z.eqb_neq _ _)) by lia.
      rewrite zseq_cons, zseq_nil by lia. by rewrite app_nil_r.
    + destruct H as [|H]; [done|]. pose proof u64_max as _. rewrite (u64_id (end_tid g + 1)) by (unfold u64_max in *; lia).
      destruct (Z.eqb_spec t (end_tid g + 1)) as [->|Ht].
      * split; [right; simpl; lia|]. unfold grouped, run. simpl. rewrite (proj2 (Z.eqb_neq _ _)) by lia.
        rewrite zseq_snoc by lia. by rewrite fmap_app, app_assoc.
      * split; [right; simpl; lia|]. unfold grouped at 1, run. simpl. rewrite (proj2 (Z.eqb_neq t _)) by lia.
        rewrite zseq_cons, zseq_nil by lia. apply Permutation_app_tail. rewrite add_previous_weights by lia.
        unfold grouped. by rewrite (proj2 (Z.eqb_neq (start_tid g) _)).
  - split; [by left|]. unfold grouped at 1. cbn [collected start_tid]. rewrite Z.eqb_refl, app_nil_r, weights_tile.
    by apply Permutation_app_tail, finish_run.
Qed.

Lemma group_tiles_perm l : Forall (λ x, 0 ≤ x.1 < u64_max) l → tile_weights (group_tiles l) ≡ₚ weight <$> l.
Proof.
  intros Hl. unfold group_tiles. set (g0 := mkGrouping no_overlap u64_max u64_max).
  assert (∀ g, run_ok g → run_ok (foldl group_tile g l) ∧ grouped (foldl group_tile g l) ≡ₚ grouped g ++ (weight <$> l)) as H.
  { induction Hl as [|x l Hx _ IH]; intros g Hg; simpl; [by rewrite app_nil_r|]. destruct (group_tile_ok g x Hg Hx) as [G1 G2].
    destruct (IH _ G1) as [I1 I2]. split; [done|]. rewrite I2, G2, <- app_assoc. done. }
  destruct (H g0 ltac:(by left)) as [H1 H2]. rewrite finish_run by done. by rewrite H2.
Qed.

(** ** What the fragments promise *)

Section estimates.
Context {F : Type} `{!FragmentMeta F}.
Variables (A : Array F) (D : Domain.t).
Hypothesis HD : has_dims A D.
Hypothesis Hwf : ArraySchemaProofs.wf (array_schema A).
Let n := length (dimensions_ D).
Abbreviation S := (array_schema A).

(** Ranges of every dimension. *)
Definition nd_ok (nd : NDRange) : Prop := length nd = n ∧ ∀ d r, nd !! d = Some r → int_range D d r.

(** A tile of a fragment of [N] tiles, with a share of it. *)
Definition tile_ok (N : Z) (x : Z * Z) : Prop := 0 ≤ x.1 < N ∧ share64 x.2.

(** A fragment of at most [N] tiles, each of at most [B] bytes: its metadata
    loads, and tells of the ranges of the domain which tiles they overlap. *)
Record fragment_ok (N B : Z) (f : F) : Prop := {
  fo_domain nd : nd_ok nd → ∃ b, fm_overlaps_non_empty_domain f nd = Ok b;
  fo_rtree : fm_load_rtree f = Ok ();
  fo_overlap nd : fm_dense f = false → nd_ok nd → ∃ o, fm_get_tile_overlap f nd = Ok o ∧
    zlen (tile_weights o) ≤ N ∧ Forall (tile_ok N) (tile_weights o);
  fo_dense : fm_dense f = true → dense S = true;
  fo_ids ty rect : fm_dense f = true → ∃ l, fm_overlapping_tile_ids_cov f ty rect = Ok l ∧ zlen l ≤ N ∧ Forall (tile_ok N) l;
  fo_load name : exists_name A name = true → fm_load_tile_var_sizes f name = Ok ();
  fo_size name tid : exists_name A name = true → 0 ≤ tid < N → ∃ z, fm_tile_size f name tid = Ok z ∧ 0 ≤ z ≤ B;
  fo_var_size name tid : exists_name A name = true → 0 ≤ tid < N → ∃ z, fm_tile_var_size f name tid = Ok z ∧ 0 ≤ z ≤ B
}.

Variables N B : Z.
Hypothesis HNB : 0 ≤ N < u64_max ∧ 0 ≤ B.
Hypothesis HF : Forall (fragment_ok N B) (fragment_metadata A).
Let m := length (fragment_metadata A).
Hypothesis Hthreads : 0 < num_threads A < 2 ^ 32.

(** The names that the schema knows have a cell size. *)
Lemma name_sizes name : exists_name A name = true → (∃ v, var_size S name = Ok v) ∧ ∃ z, cell_size S name = Ok z.
Proof.
  unfold exists_name, is_dim, is_attr, var_size, cell_size, member. intros H.
  destruct (bool_decide_reflect (name = coords)) as [E|E].
  - split; [by eexists|]. rewrite (dim_num_n A D HD). cbn [mbind res_bind]. pose proof (n_pos A D HD).
    rewrite (proj2 (Z.ltb_lt _ _)) by lia. cbn [massert mbind res_bind].
    destruct (lookup_lt_is_Some_2 (dimensions_ D) 0) as [dim Hd]; [done|]. rewrite (dimension_at_n A D HD 0 dim Hd). by eexists.
  - simpl orb in H. destruct (attribute S name); [split; by eexists|]. destruct (dimension S name); [split; by eexists|done].
Qed.

Lemma attribute_name a : a ∈ attributes_ S → exists_name A (Attribute.name_ a) = true.
Proof.
  intros Ha. unfold exists_name, is_attr, attribute. apply orb_true_iff. right.
  destruct (attribute_map_ S !! Attribute.name_ a) as [i|] eqn:E.
  - destruct (proj1 (wf_attributes _ Hwf _ _) E) as [Hi _]. apply list_lookup_fmap_Some in Hi as (b & _ & Hb). simpl. by rewrite Hb.
  - apply (indexed_None _ _ _ (wf_attributes _ Hwf)) in E. destruct E. apply list_elem_of_fmap. by exists a.
Qed.

Lemma dimension_name dim : dim ∈ dimensions_ D → exists_name A (Dimension.name_ dim) = true.
Proof.
  intros Hd. pose proof (wf_dims _ Hwf) as W. rewrite (hd_domain _ _ HD) in W. destruct W as (_ & _ & W).
  unfold exists_name, is_dim, dimension. apply orb_true_iff. left. apply orb_true_iff. right.
  destruct (dim_map_ S !! Dimension.name_ dim) as [i|] eqn:E.
  - destruct (proj1 (W _ _) E) as [Hi _]. apply list_lookup_fmap_Some in Hi as (b & _ & Hb). simpl. rewrite (hd_domain _ _ HD). simpl. by rewrite Hb.
  - apply (indexed_None _ _ _ W) in E. destruct E. apply list_elem_of_fmap. by exists dim.
Qed.

Lemma same_type_total : ∃ b, all_dims_same_type D = Ok b.
Proof.
  unfold all_dims_same_type. destruct (dim_num_ D =? 0); [by eexists|]. pose proof (n_pos A D HD) as Hp.
  destruct (lookup_lt_is_Some_2 (dimensions_ D) 0 Hp) as [d0 H0]. rewrite (idx_ok _ _ _ H0). cbn [mbind res_bind].
  eexists. apply (all_of_spec _ _ (λ d, bool_decide (type_ (default d0 (dimensions_ D !! d)) = type_ d0))). intros i Hi%elem_of_seq.
  rewrite (hd_num _ _ HD) in Hi. unfold zlen in Hi. destruct (lookup_lt_is_Some_2 (dimensions_ D) i) as [d Hd]; [lia|].
  rewrite (idx_ok _ _ _ Hd), Hd. done.
Qed.

Lemma all_names_ok : ∃ names, all_names A = Ok names ∧ Forall (λ x, exists_name A x = true) names.
Proof.
  unfold all_names, ArraySchema.domain. rewrite (hd_domain _ _ HD). cbn [mbind res_bind].
  rewrite (dim_names_eq D (hd_num _ _ HD)). cbn [mbind res_bind]. eexists. split; [done|]. rewrite !Forall_app. split_and!.
  - apply Forall_fmap, Forall_forall. apply attribute_name.
  - apply Forall_fmap, Forall_forall. apply dimension_name.
  - by apply Forall_singleton.
Qed.

(** ** The tile overlap *)

Definition small (o : TileOverlap) : Prop := zlen (tile_weights o) ≤ N ∧ Forall (tile_ok N) (tile_weights o).

(** One row for each fragment, with an overlap for each of [k] ranges. *)
Definition rows_ok (k : nat) (ov : list (list TileOverlap)) : Prop :=
  length ov = m ∧ Forall (λ row, length row = k ∧ Forall small row) ov.

Lemma small_none : small no_overlap.
Proof. split; [|constructor]. unfold zlen. simpl. lia. Qed.

Lemma weight_ok x : tile_ok N x → tile_ok N (weight x).
Proof.
  intros [H1 H2]. unfold weight, tile_ok. simpl. split; [done|]. destruct (feq F64 x.2 one); [|done]. right. apply unit64_one.
Qed.

Lemma group_small l : zlen l ≤ N → Forall (tile_ok N) l → small (group_tiles l).
Proof.
  intros Hl Ht. assert (tile_weights (group_tiles l) ≡ₚ weight <$> l) as E.
  { apply group_tiles_perm. eapply Forall_impl; [exact Ht|]. intros x [? _]. simpl. lia. }
  split.
  - unfold zlen. rewrite E, length_fmap. done.
  - rewrite E. apply Forall_fmap. eapply Forall_impl; [exact Ht|]. intros x. apply weight_ok.
Qed.

Section overlap.
Variables (row : bool) (s : Subarray).
Hypothesis Hs : numbered D row s.
Hypothesis Ho : range_offsets_ s = ord row (sufs (major row s)).
Hypothesis Hok : ok_ranges (ok := int_range D) s.
Abbreviation R := (range_num s).

(** [s] with another overlap. *)
Definition overlapped (rel : list nat) (x : Subarray) : Prop :=
  ∃ ov, x = with_overlap s ov false rel ∧ rows_ok (Z.to_nat R) ov.

Lemma overlapped_ndrange ov c rel i : 0 ≤ i < R → ∃ nd, ndrange A (with_overlap s ov c rel) i = Ok nd ∧ nd_ok nd.
Proof.
  intros Hi. set (x := with_overlap s ov c rel). assert (numbered D row x) as Hx by (destruct Hs; by split).
  exists (picks (ranges_ s) (ord row (dig (major row s) i))). split; [by apply (ndrange_ok A D HD row x Hx Ho)|].
  pose proof (major_grid D row s Hs) as Hg. pose proof (major_cap A D HD row s Hs) as Mc.
  assert (inside (major row s) (dig (major row s) i)) as Hin by (apply dig_inside; [done|lia]).
  pose proof (inside_raw D row s Hs _ Hin) as Hr. pose proof (Forall2_length _ _ _ Hr) as El.
  split; [unfold picks; rewrite length_zip_with, <- El, (nb_len _ _ _ Hs); apply Nat.min_id|].
  intros d r Hd. unfold picks in Hd. apply lookup_zip_with_Some in Hd as (rs & c' & -> & Hrs & Hc).
  apply (Hok d rs _ Hrs). apply list_elem_of_lookup. exists (Z.to_nat c'). apply pick_lookup.
  by apply (Forall2_lookup_lr _ _ _ d _ _ Hr Hrs Hc).
Qed.

Lemma frag_lookup f : (f < m)%nat → ∃ meta, idx (fragment_metadata A) f = Ok meta ∧ fragment_ok N B meta.
Proof.
  intros Hf. destruct (lookup_lt_is_Some_2 (fragment_metadata A) f Hf) as [meta Hm]. exists meta.
  split; [by apply idx_ok|by apply (Forall_lookup_1 _ _ _ _ HF Hm)].
Qed.

Lemma relevant_ok ov c : ∃ rel, compute_relevant_fragments A (with_overlap s ov c []) =
    (Ok (), with_overlap s ov c rel) ∧ Forall (λ f, (f < m)%nat) rel ∧ (length rel ≤ m)%nat.
Proof.
  unfold compute_relevant_fragments. fold m. destruct (mapM_total (λ f, meta ← idx (fragment_metadata A) f;
    any_of (zseq 0 (range_num (with_overlap s ov c []) - 1)) (λ r, nd ← ndrange A (with_overlap s ov c []) r;
      fm_overlaps_non_empty_domain meta nd)) (seq 0 m)) as [bits E].
  { intros f Hf%elem_of_seq. destruct (frag_lookup f ltac:(lia)) as (meta & -> & Hm). cbn [mbind res_bind].
    change (range_num (with_overlap s ov c [])) with R.
    assert (∀ l, (∀ i, i ∈ l → 0 ≤ i < R) → ∃ b, any_of l (λ r, nd ← ndrange A (with_overlap s ov c []) r;
      fm_overlaps_non_empty_domain meta nd) = Ok b) as H; [|apply H; intros i Hi%zseq_in; lia].
    induction l as [|i l IH]; intros Hl; [by exists false|]. simpl.
    destruct (overlapped_ndrange ov c [] i) as (nd & -> & Hnd); [apply Hl; left|]. cbn [mbind res_bind].
    destruct (fo_domain _ _ _ Hm nd Hnd) as [b ->]. cbn [mbind res_bind]. destruct b; [by exists true|]. apply IH. intros. apply Hl. by right. }
  rewrite E. eexists. split; [done|]. simpl app. split.
  - apply Forall_forall. intros f [_ Hf%elem_of_seq]%list_elem_of_filter. lia.
  - etransitivity; [apply length_filter|]. by rewrite length_seq.
Qed.

Lemma dense_types : dense S = true → ∃ ty, ∀ dim, dim ∈ dimensions_ D → num_of (type_ dim) = Some (NInt ty).
Proof.
  intros Hd. destruct (wf_dense _ Hwf Hd) as [_ H]. destruct (H D (hd_domain _ _ HD)) as (dt & Hf). rewrite Forall_forall in Hf.
  destruct (int_of dt) as [ty|] eqn:Et.
  - exists ty. intros dim Hin. destruct (Hf dim Hin) as (-> & Hi & _). by destruct dt; simpl in *; try discriminate; injection Et as <-.
  - exists I32. intros dim Hin. destruct (Hf dim Hin) as (-> & Hi & _). by destruct dt; simpl in *.
Qed.

Lemma dense_overlap ov rel i f meta : 0 ≤ i < R → idx (fragment_metadata A) f = Ok meta → fragment_ok N B meta → fm_dense meta = true →
  ∃ o, get_tile_overlap A (with_overlap s ov false rel) i f = Ok o ∧ small o.
Proof.
  intros Hi Em Hm Hd. unfold get_tile_overlap. pose proof (fo_dense _ _ _ Hm Hd) as Hds. rewrite Hds. cbn [massert mbind res_bind].
  destruct (dense_types Hds) as [ty Hty]. pose proof (n_pos A D HD) as Hp. fold n in Hp.
  destruct (lookup_lt_is_Some_2 (dimensions_ D) 0 Hp) as [dim Hdim]. rewrite (dimension_at_n A D HD 0 dim Hdim). cbn [mbind res_bind].
  unfold overlap_type. rewrite (Hty dim) by (by eapply list_elem_of_lookup_2). cbn [mbind res_bind].
  destruct (overlapped_ndrange ov false rel i Hi) as (nd & -> & [Hl Hnd]). cbn [mbind res_bind]. rewrite (dims_n A D HD). cbn [mbind res_bind]. fold n.
  destruct (mapM_total (λ d, r ← idx nd d; '(r0, r1) ← rd2 (NInt ty) r; Ok [r0; r1]) (seq 0 n)) as [cpy ->].
  { intros d Hd'%elem_of_seq. destruct (lookup_lt_is_Some_2 nd d) as [r Hr]; [lia|]. rewrite (idx_ok _ _ _ Hr). cbn [mbind res_bind].
    destruct (Hnd d r Hr) as (dim' & ty' & lo & hi & a & b & Hd2 & Hi2 & Hpair & _).
    assert (NInt ty' = NInt ty) as Et by (pose proof (id_type _ _ _ _ Hi2) as E; rewrite (Hty dim') in E by (by eapply list_elem_of_lookup_2); congruence).
    rewrite Et in Hpair. rewrite (rd2_pair _ _ _ _ Hpair). by eexists. }
  cbn [mbind res_bind]. rewrite Em. cbn [mbind res_bind]. destruct (fo_ids _ _ _ Hm ty (concat cpy) Hd) as (l & -> & H1 & H2).
  cbn [mbind res_bind]. eexists. split; [done|]. by apply group_small.
Qed.

Lemma overlap_range_ok rel f meta i x : (f < m)%nat → idx (fragment_metadata A) f = Ok meta → fragment_ok N B meta → 0 ≤ i < R →
  overlapped rel x → ∃ x', (o ← (if fm_dense meta then get_tile_overlap A x i f else nd ← ndrange A x i; fm_get_tile_overlap meta nd);
    set_tile_overlap f i o x) = Ok x' ∧ overlapped rel x'.
Proof.
  intros Hf Em Hm Hi (ov & -> & Hl & Hr).
  assert (∃ o, (if fm_dense meta then get_tile_overlap A (with_overlap s ov false rel) i f
     else nd ← ndrange A (with_overlap s ov false rel) i; fm_get_tile_overlap meta nd) = Ok o ∧ small o) as (o & -> & Hs').
  { destruct (fm_dense meta) eqn:Ed; [by apply (dense_overlap ov rel i f meta)|].
    destruct (overlapped_ndrange ov false rel i Hi) as (nd & -> & Hnd). cbn [mbind res_bind].
    by destruct (fo_overlap _ _ _ Hm nd Ed Hnd) as (o & -> & ?); exists o. }
  cbn [mbind res_bind]. unfold set_tile_overlap. simpl tile_overlap_.
  destruct (lookup_lt_is_Some_2 ov f) as [rw Hrw]; [lia|]. rewrite (idx_ok _ _ _ Hrw). cbn [mbind res_bind].
  destruct (Forall_lookup_1 _ _ _ _ Hr Hrw) as [L1 L2]. rewrite upd_ok by lia. cbn [mbind res_bind].
  rewrite upd_ok by lia. cbn [mbind res_bind]. eexists. split; [done|]. eexists. split; [done|]. split; [by rewrite length_insert|].
  apply Forall_insert; [done|]. split; [by rewrite length_insert|by apply Forall_insert].
Qed.

Lemma overlap_ranges_ok rel f meta l x : (f < m)%nat → idx (fragment_metadata A) f = Ok meta → fragment_ok N B meta →
  (∀ i, i ∈ l → 0 ≤ i < R) → overlapped rel x → ∃ x', overlap_ranges A meta f l x = (Ok (), x') ∧ overlapped rel x'.
Proof.
  intros Hf Em Hm. revert x. induction l as [|i l IH]; intros x Hl Hx; [by exists x|]. cbn [overlap_ranges].
  destruct (overlap_range_ok rel f meta i x Hf Em Hm) as (x' & E & Hx'); [apply Hl; left|done|].
  rewrite E. apply IH; [|done]. intros. apply Hl. by right.
Qed.

Lemma u64_nonneg z : 0 ≤ u64 z.
Proof. unfold u64. apply Z.mod_pos_bound. lia. Qed.

Lemma thread_ranges_in k a b t i : i ∈ thread_ranges k a b t → 0 ≤ i ≤ b.
Proof. intros Hi%zseq_in. pose proof (u64_nonneg (a + u64 (t * k))). lia. Qed.

Lemma R_pos : 1 ≤ R.
Proof. rewrite <- (major_cap A D HD row s Hs). apply cap_pos, (major_grid D row s Hs). Qed.

Lemma fragment_overlap_ok rel f meta x : R ≤ 2 ^ 50 → (f < m)%nat → idx (fragment_metadata A) f = Ok meta → fragment_ok N B meta →
  overlapped rel x → ∃ x', fragment_tile_overlap A meta f R x = (Ok (), x') ∧ overlapped rel x'.
Proof.
  intros HR Hf Em Hm Hx. pose proof R_pos. unfold fragment_tile_overlap. rewrite ceil_quot_exact by lia. cbn [mbind res_bind].
  rewrite (proj2 (Z.ltb_lt _ _)) by lia. cbn [massert mbind res_bind]. apply parallel_for_keeps; [done|].
  intros g y Hg Hy. apply list_elem_of_fmap in Hg as (t & -> & _). apply overlap_ranges_ok; try done.
  intros i Hi%thread_ranges_in. lia.
Qed.

Lemma relevant_overlap_ok rel x : R ≤ 2 ^ 50 → Forall (λ f, (f < m)%nat) rel → overlapped rel x →
  ∃ x', compute_relevant_fragment_tile_overlap A x = (Ok (), x') ∧ overlapped rel x'.
Proof.
  intros HR Hrel Hx. unfold compute_relevant_fragment_tile_overlap.
  assert (relevant_fragments_ x = rel ∧ range_num x = R) as [-> ->] by (by destruct Hx as (ov & -> & _)).
  apply parallel_for_keeps; [done|]. intros g y Hg Hy. apply list_elem_of_fmap in Hg as (f & -> & Hf).
  rewrite Forall_forall in Hrel. destruct (frag_lookup f (Hrel f Hf)) as (meta & Em & Hm).
  unfold mbind, M_bind, lift. rewrite Em. by apply fragment_overlap_ok; [|apply Hrel|..].
Qed.

Lemma rtrees_ok rel x : Forall (λ f, (f < m)%nat) rel → overlapped rel x → load_relevant_fragment_rtrees A x = (Ok (), x).
Proof.
  intros Hrel Hx. unfold load_relevant_fragment_rtrees. assert (relevant_fragments_ x = rel) as -> by (by destruct Hx as (ov & -> & _)).
  destruct (parallel_for_keeps (λ y, y = x) ((λ f, lift (meta ← idx (fragment_metadata A) f; fm_load_rtree meta)) <$> rel) x eq_refl) as (y & E & ->); [|done].
  intros g y Hg ->. apply list_elem_of_fmap in Hg as (f & -> & Hf). rewrite Forall_forall in Hrel.
  destruct (frag_lookup f (Hrel f Hf)) as (meta & Em & Hm). exists x. unfold lift. rewrite Em. cbn [mbind res_bind]. by rewrite (fo_rtree _ _ _ Hm).
Qed.

Lemma overlap_steps_ok ov : R ≤ 2 ^ 50 → rows_ok (Z.to_nat R) ov → ∃ rel ov', overlap_steps A (with_overlap s ov false []) =
    (Ok (), with_overlap s ov' true rel) ∧ rows_ok (Z.to_nat R) ov' ∧ Forall (λ f, (f < m)%nat) rel ∧ (length rel ≤ m)%nat.
Proof.
  intros HR Hov. unfold overlap_steps. destruct (relevant_ok ov false) as (rel & E & Hrel & Hlen). exists rel.
  assert (overlapped rel (with_overlap s ov false rel)) as Hx by (by exists ov).
  rewrite (M_step _ _ _ _ _ E), (M_step _ _ _ _ _ (rtrees_ok rel _ Hrel Hx)).
  destruct (relevant_overlap_ok rel _ HR Hrel Hx) as (x' & E' & ov' & -> & Hov'). rewrite (M_step _ _ _ _ _ E'). by exists ov'.
Qed.

End overlap.

(** A subarray whose tile overlap has been computed. *)
Record ready (row : bool) (s : Subarray) : Prop := {
  rd_numbered : numbered D row s;
  rd_offsets : range_offsets_ s = ord row (sufs (major row s));
  rd_ok : ok_ranges (ok := int_range D) s;
  rd_rows : rows_ok (Z.to_nat (range_num s)) (tile_overlap_ s);
  rd_relevant : Forall (λ f, (f < m)%nat) (relevant_fragments_ s) ∧ (length (relevant_fragments_ s) ≤ m)%nat;
  rd_computed : tile_overlap_computed_ s = true
}.

(** The fields that only adding ranges changes. *)
Definition same_ranges (s s' : Subarray) : Prop :=
  ranges_ s' = ranges_ s ∧ layout_ s' = layout_ s ∧ cell_order_ s' = cell_order_ s ∧ is_default_ s' = is_default_ s.

Lemma compute_tile_overlap_ok row s : numbered D row s → ok_ranges (ok := int_range D) s → range_num s ≤ 2 ^ 50 →
  tile_overlap_computed_ s = false → relevant_fragments_ s = [] →
  ∃ s', compute_tile_overlap A s = (Ok (), s') ∧ ready row s' ∧ same_ranges s s' ∧
    est_result_size_computed_ s' = est_result_size_computed_ s.
Proof.
  intros Hs Hok HR Hc Hrel. unfold compute_tile_overlap. rewrite Hc, (offsets_ok A D HD row s Hs). fold m.
  set (s1 := with_range_offsets s (ord row (sufs (major row s)))). change (tile_overlap_computed_ s1) with (tile_overlap_computed_ s).
  change (relevant_fragments_ s1) with (relevant_fragments_ s). rewrite Hc, Hrel. change (range_num s1) with (range_num s).
  assert (numbered D row s1) as H1 by (destruct Hs; by split).
  destruct (overlap_steps_ok row s1 H1 eq_refl Hok (replicate m (replicate (Z.to_nat (range_num s)) no_overlap)) HR) as (rel & ov & E & Hov & H2 & H3).
  { split; [apply length_replicate|]. apply Forall_replicate. split; [apply length_replicate|]. apply Forall_replicate, small_none. }
  eexists. split; [exact E|]. split; [|done]. split; try done. destruct Hs; by split.
Qed.

(** ** Bounds of the estimates *)

Definition bounded (k : Z) (x : Sizes) : Prop := d_le (size_fixed_ x) k ∧ d_le (size_var_ x) k.

Lemma bounded_mono a b x : bounded a x → a ≤ b → bounded b x.
Proof. intros [H1 H2] Hab. split; by eapply sf_le_mono. Qed.

Lemma bounded_add a b x y : bounded a x → d_le y b → 0 ≤ a → 0 ≤ b → a + b < 2 ^ 53 →
  bounded (a + b) (mkSizes (fadd F64 (size_fixed_ x) y) (size_var_ x)).
Proof. intros [H1 H2] Hy Ha Hb Hab. split; simpl; [by apply d_le_add|]. apply (sf_le_mono _ a); [done|lia]. Qed.

Lemma bounded_add_sizes a b x y z : bounded a x → d_le y b → d_le z b → 0 ≤ a → 0 ≤ b → a + b < 2 ^ 53 → bounded (a + b) (add_sizes x y z).
Proof. intros [H1 H2] Hy Hz Ha Hb Hab. split; simpl; by apply d_le_add. Qed.

(** What all the tiles of all the fragments hold. *)
Definition capacity : Z := Z.of_nat m * (N * B).

Lemma capacity_nonneg : 0 ≤ capacity.
Proof. unfold capacity. apply Z.mul_nonneg_nonneg; [lia|apply Z.mul_nonneg_nonneg; lia]. Qed.

Section sizes.
Variables (names : list (list Z)) (vs : list bool) (same_type : bool).
Hypothesis Hnames : Forall (λ x, exists_name A x = true) names.
Hypothesis Hvs : length vs = length names.

Lemma name_at k : (k < length names)%nat → ∃ name v, idx names k = Ok name ∧ idx vs k = Ok v ∧ exists_name A name = true.
Proof.
  intros Hk. destruct (lookup_lt_is_Some_2 names k Hk) as [name Hn]. destruct (lookup_lt_is_Some_2 vs k) as [v Hv]; [lia|].
  exists name, v. split_and!; [by apply idx_ok..|]. by apply (Forall_lookup_1 _ _ _ _ Hnames Hn).
Qed.

(** The sizes of the first [k] names are below [b], the others below [a]. *)
Definition mixed (a b : Z) (k : nat) (l : list Sizes) : Prop :=
  length l = length names ∧ ∀ i x, l !! i = Some x → bounded (if Nat.ltb i k then b else a) x.

Lemma mixed_step a b k l x : mixed a b k l → a ≤ b → bounded b x → mixed a b (Datatypes.S k) (<[k:=x]> l).
Proof.
  intros [Hl H] Hab Hx. split; [by rewrite length_insert|]. intros i y Hi.
  apply list_lookup_insert_Some in Hi as [(-> & <- & _)|[Hne Hi]].
  - by rewrite (proj2 (Nat.ltb_lt _ _)) by lia.
  - specialize (H i y Hi). destruct (Nat.ltb_spec i k); [by rewrite (proj2 (Nat.ltb_lt _ _)) by lia|].
    by rewrite (proj2 (Nat.ltb_ge _ _)) by lia.
Qed.

Lemma mixed_skip a b k l : mixed a b k l → a ≤ b → mixed a b (Datatypes.S k) l.
Proof.
  intros [Hl H] Hab. split; [done|]. intros i y Hi. specialize (H i y Hi).
  destruct (Nat.ltb_spec i k); [by rewrite (proj2 (Nat.ltb_lt _ _)) by lia|].
  destruct (Nat.ltb i (Datatypes.S k)); [|done]. by eapply bounded_mono.
Qed.

Lemma mixed_at a b k l : mixed a b k l → (k < length names)%nat → ∃ x, idx l k = Ok x ∧ bounded a x.
Proof.
  intros [Hl H] Hk. destruct (lookup_lt_is_Some_2 l k) as [x Hx]; [lia|]. exists x. split; [by apply idx_ok|].
  specialize (H k x Hx). by rewrite (proj2 (Nat.ltb_ge _ _)) in H by lia.
Qed.

Definition all_bounded (a : Z) (l : list Sizes) : Prop := length l = length names ∧ Forall (bounded a) l.

Lemma mixed_start a b l : all_bounded a l → mixed a b 0 l.
Proof. intros [Hl H]. split; [done|]. intros i x Hi. by apply (Forall_lookup_1 _ _ _ _ H Hi). Qed.

Lemma mixed_end a b l : mixed a b (length names) l → all_bounded b l.
Proof.
  intros [Hl H]. split; [done|]. apply Forall_lookup. intros i x Hi. specialize (H i x Hi). pose proof (lookup_lt_Some _ _ _ Hi).
  by rewrite (proj2 (Nat.ltb_lt _ _)) in H by lia.
Qed.

(** A share of a size. *)
Lemma share_le z q : 0 ≤ z ≤ B → B < 2 ^ 53 → (∀ r, q = Some r → share64 r) →
  d_le (match q with Some q => fmul F64 (dbl z) q | None => dbl z end) B.
Proof.
  intros Hz HB Hq. assert (d_le (dbl z) B) as H by (apply (sf_le_mono _ z); [apply d_le_int; lia|lia]).
  destruct q as [r|]; [|done]. apply d_le_mul; [done|by apply Hq|lia].
Qed.

Lemma tile_sizes_ok meta tid q a l : fragment_ok N B meta → 0 ≤ tid < N → (∀ r, q = Some r → share64 r) →
  0 ≤ a → a + B < 2 ^ 53 → all_bounded a l →
  ∃ l', tile_sizes meta names vs same_type tid q l = Ok l' ∧ all_bounded (a + B) l'.
Proof.
  intros Hm Ht Hq Ha HB Hl. enough (∃ l', tile_sizes meta names vs same_type tid q l = Ok l' ∧ mixed a (a + B) (length names) l') as (l' & E & Hl')
    by (exists l'; split; [done|by apply (mixed_end a)]).
  unfold tile_sizes. apply for_each_steps; [by apply mixed_start|].
  intros k x Hk Hx. destruct (name_at k Hk) as (name & v & -> & Ev & Hn). cbn [mbind res_bind].
  destruct (_ && _); [exists x; split; [done|apply mixed_skip; [done|lia]]|].
  destruct (fo_size _ _ _ Hm name tid Hn Ht) as (z & -> & Hz). cbn [mbind res_bind].
  destruct (mixed_at _ _ _ _ Hx Hk) as (y & -> & Hy). cbn [mbind res_bind]. rewrite Ev. cbn [mbind res_bind].
  assert (k < length x)%nat as Hkx by (destruct Hx; lia). pose proof (share_le z q Hz ltac:(lia) Hq).
  destruct v; simpl negb; cbv iota.
  + destruct (fo_var_size _ _ _ Hm name tid Hn Ht) as (w & -> & Hw). cbn [mbind res_bind]. rewrite upd_ok by done.
    pose proof (share_le w q Hw ltac:(lia) Hq). eexists. split; [done|]. apply mixed_step; [done|lia|]. apply bounded_add_sizes; done || lia.
  + rewrite upd_ok by done. eexists. split; [done|]. apply mixed_step; [done|lia|]. apply bounded_add; done || lia.
Qed.

Lemma safe_mul_u64 a b : 0 < a → ∃ p, safe_mul a b = Ok p ∧ 0 ≤ p < 2 ^ 64.
Proof.
  intros Ha. unfold safe_mul. rewrite (proj2 (Z.eqb_neq a 0)) by lia. pose proof (u64_nonneg (a * b)).
  assert (u64 (a * b) < 2 ^ 64) by (apply Z.mod_pos_bound; lia). destruct (negb _); eexists; (split; [done|]); unfold u64_max; lia.
Qed.

Lemma dmin_le x z k : d_le x k → 0 ≤ k → 0 ≤ z < 2 ^ 64 → d_le (dmin x (dbl z)) k.
Proof. intros Hx Hk Hz. unfold dmin. destruct (flt F64 (dbl z) x) eqn:E; [|done]. by apply (d_le_min x). Qed.

(** The number of cells of the ranges at some coordinates. *)
Lemma range_cells_ok row s cs : numbered D row s → ok_ranges (ok := int_range D) s → inside (major row s) cs →
  ∃ c, range_cells A s (ord row cs) = Ok c ∧ 0 < c < 2 ^ 64.
Proof.
  intros Hs Hok Hin. pose proof (inside_raw D row s Hs _ Hin) as Hr. pose proof (Forall2_length _ _ _ Hr) as El.
  unfold range_cells. rewrite (dims_n A D HD). cbn [mbind res_bind]. apply for_each_keeps; [lia|].
  intros d c Hd%elem_of_seq Hc. destruct (lookup_lt_is_Some_2 (dimensions_ D) d) as [dim Hdim]; [lia|].
  rewrite (dimension_at_n A D HD d dim Hdim). cbn [mbind res_bind].
  destruct (lookup_lt_is_Some_2 (ranges_ s) d) as [rs Hrs]; [rewrite (nb_len _ _ _ Hs); lia|].
  destruct (lookup_lt_is_Some_2 (ord row cs) d) as [x Hx]; [rewrite <- El, (nb_len _ _ _ Hs); lia|].
  rewrite (idx_ok _ _ _ Hx). cbn [mbind res_bind]. pose proof (Forall2_lookup_lr _ _ _ d _ _ Hr Hrs Hx) as Hb. simpl in Hb.
  rewrite (range_at_ok s d rs x Hrs Hb). cbn [mbind res_bind].
  assert (int_range D d (pick rs x)) as (dim' & ty & lo & hi & a & b & Hd' & Hi & Hp & _ & H1 & H2 & H3).
  { apply (Hok d rs _ Hrs), list_elem_of_lookup. exists (Z.to_nat x). by apply pick_lookup. }
  rewrite Hdim in Hd'. injection Hd' as <-. pose proof Hi as [Hty _ _ Hrg [X1 X2] _].
  unfold domain_range, domain_range_func_. rewrite Hty. cbn [fmap option_fmap option_map call].
  rewrite (domain_range_spec ty _ a b Hp H2) by (apply (promote_nonneg _ _ _ Hrg); lia). cbn [mbind res_bind].
  assert (b - a ≠ u64_max) as Hne by (unfold u64_max; lia). rewrite (proj2 (Z.eqb_neq _ _) Hne).
  rewrite safe_mul_spec by lia. eexists. split; [done|]. destruct (Z.ltb_spec (c * (b - a + 1)) (2 ^ 64)); [nia|unfold u64_max; lia].
Qed.

Lemma calibrate_sizes_ok row s cs a l : numbered D row s → ok_ranges (ok := int_range D) s → inside (major row s) cs → 0 ≤ a →
  all_bounded a l → ∃ l', calibrate_sizes A s names vs same_type (ord row cs) l = Ok l' ∧ all_bounded a l'.
Proof.
  intros Hs Hok Hin Ha Hl. unfold calibrate_sizes. destruct (range_cells_ok row s cs Hs Hok Hin) as (c & -> & Hc). cbn [mbind res_bind].
  apply for_each_keeps; [done|]. intros k x Hk%elem_of_seq [Lx Hx]. destruct (name_at k) as (name & v & -> & -> & Hn); [lia|]. cbn [mbind res_bind].
  destruct (_ && _); [by exists x|]. destruct (name_sizes name Hn) as [_ [z Ez]].
  assert (∃ z, (if v then Ok 8 else cell_size S name) = Ok z) as [w ->] by (destruct v; by eexists). cbn [mbind res_bind].
  destruct (safe_mul_u64 c w) as (p & -> & Hp); [lia|]. cbn [mbind res_bind].
  destruct (lookup_lt_is_Some_2 x k) as [y Hy]; [lia|]. rewrite (idx_ok _ _ _ Hy). cbn [mbind res_bind]. rewrite upd_ok by lia.
  eexists. split; [done|]. split; [by rewrite length_insert|]. apply Forall_insert; [done|].
  destruct (Forall_lookup_1 _ _ _ _ Hx Hy). by split; apply dmin_le.
Qed.

(** The tiles that were met are tiles of the fragments. *)
Definition met_ok (met : gset (nat * Z)) : Prop := ∀ f t, (f, t) ∈ met → (f < m)%nat ∧ 0 ≤ t < N.

Hypothesis Hcap : capacity < 2 ^ 53.

Definition counted_ok (a : Z) (acc : list Sizes * gset (nat * Z)) : Prop := all_bounded a acc.1 ∧ met_ok acc.2.

Lemma tiles_loop f meta ts : ∀ a acc, (f < m)%nat → fragment_ok N B meta → Forall (λ t, tile_ok N (t.1, default one t.2)) ts →
  0 ≤ a → a + zlen ts * B < 2 ^ 53 → counted_ok a acc →
  ∃ acc', for_each ts (count_tile names vs same_type f meta) acc = Ok acc' ∧ counted_ok (a + zlen ts * B) acc'.
Proof.
  induction ts as [|[t q] ts IH]; intros a acc Hf Hm Hts Ha Hb [H1 H2].
  { exists acc. unfold zlen. simpl. by rewrite Z.add_0_r. }
  apply Forall_cons in Hts as [[Ht Hq] Hts]. simpl fst in *. simpl snd in *.
  assert (zlen ((t, q) :: ts) = zlen ts + 1) as Ez by (unfold zlen; simpl; lia). rewrite Ez in *. pose proof (zlen_nonneg ts).
  cbn [for_each]. destruct (tile_sizes_ok meta t q a acc.1 Hm Ht) as (l' & El & Hl'); [by intros r ->|done|nia|done|].
  assert (∃ met, count_tile names vs same_type f meta (t, q) acc = Ok (l', met) ∧ met_ok met) as (met & -> & Hmet).
  { unfold count_tile. simpl fst. simpl snd. rewrite El. eexists. split; [done|]. destruct (existsb _ _); [|done].
    intros g u [[= -> ->]%elem_of_singleton|Hin]%elem_of_union; [done|by apply H2]. }
  cbn [mbind res_bind]. replace (a + (zlen ts + 1) * B) with (a + B + zlen ts * B) by lia.
  by apply IH; [..|lia|nia|].
Qed.

Lemma overlap_tiles_ok o : small o → zlen (overlap_tiles o) ≤ N ∧ Forall (λ t, tile_ok N (t.1, default one t.2)) (overlap_tiles o).
Proof.
  intros [H1 H2]. unfold tile_weights in *. split; [|by rewrite Forall_fmap in H2]. unfold zlen in *. by rewrite length_fmap in H1.
Qed.

Lemma fragments_loop row s i fs : ready row s → 0 ≤ i < range_num s → Forall (λ f, (f < m)%nat) fs → ∀ a acc,
  0 ≤ a → a + zlen fs * (N * B) < 2 ^ 53 → counted_ok a acc →
  ∃ acc', for_each fs (count_fragment A s names vs same_type i) acc = Ok acc' ∧ counted_ok (a + zlen fs * (N * B)) acc'.
Proof.
  intros Hr Hi. induction 1 as [|f fs Hf Hfs IH]; intros a acc Ha Hb Hacc.
  { exists acc. unfold zlen. simpl. by rewrite Z.add_0_r. }
  assert (zlen (f :: fs) = zlen fs + 1) as Ez by (unfold zlen; simpl; lia). rewrite Ez in *. pose proof (zlen_nonneg fs).
  destruct (rd_rows _ _ Hr) as [L1 L2]. destruct (lookup_lt_is_Some_2 (tile_overlap_ s) f) as [ovs Ho]; [lia|].
  destruct (Forall_lookup_1 _ _ _ _ L2 Ho) as [L3 L4]. destruct (lookup_lt_is_Some_2 ovs (Z.to_nat i)) as [o Hoo]; [lia|].
  destruct (frag_lookup f Hf) as (meta & Em & Hm). cbn [for_each].
  assert (count_fragment A s names vs same_type i f acc = for_each (overlap_tiles o) (count_tile names vs same_type f meta) acc) as ->.
  { unfold count_fragment. rewrite (idx_ok _ _ _ Ho). cbn [mbind res_bind]. rewrite (idx_ok _ _ _ Hoo). cbn [mbind res_bind]. by rewrite Em. }
  destruct (overlap_tiles_ok o (Forall_lookup_1 _ _ _ _ L4 Hoo)) as [O1 O2]. pose proof (zlen_nonneg (overlap_tiles o)).
  destruct (tiles_loop f meta (overlap_tiles o) a acc) as (acc' & -> & [B1 B2]); try done; [nia|]. cbn [mbind res_bind].
  replace (a + (zlen fs + 1) * (N * B)) with (a + N * B + zlen fs * (N * B)) by lia.
  apply IH; [nia|lia|]. split; [|done]. destruct B1 as [B1 B3]. split; [done|]. eapply Forall_impl; [exact B3|].
  intros x Hx. eapply bounded_mono; [exact Hx|]. nia.
Qed.

Lemma all_bounded_zero : all_bounded 0 (replicate (length names) (mkSizes 0 0)).
Proof. split; [apply length_replicate|]. apply Forall_replicate. split; apply d_le_zero. Qed.

Lemma range_est_ok row s i cs fixed : ready row s → 0 ≤ i < range_num s → inside (major row s) cs →
  ∃ acc, range_est_sizes A s names vs same_type fixed i (ord row cs) = Ok acc ∧ counted_ok capacity acc.
Proof.
  intros Hr Hi Hin. destruct (rd_relevant _ _ Hr) as [H1 H2]. unfold range_est_sizes.
  assert (0 ≤ zlen (relevant_fragments_ s) * (N * B) ≤ capacity) as Hc.
  { assert (0 ≤ N * B) as Hp by (apply Z.mul_nonneg_nonneg; lia). unfold capacity, zlen.
    split; [apply Z.mul_nonneg_nonneg; lia|apply Z.mul_le_mono_nonneg_r; lia]. }
  destruct (fragments_loop row s i (relevant_fragments_ s) Hr Hi H1 0 (replicate (length names) (mkSizes 0 0), ∅)) as (acc & -> & [B1 B2]);
    [lia|lia|split; [apply all_bounded_zero|by intros f t Hft%elem_of_empty]|].
  assert (all_bounded capacity acc.1) as B1'.
  { destruct B1 as [L B1]. split; [done|]. eapply Forall_impl; [exact B1|]. intros x Hx. eapply bounded_mono; [exact Hx|lia]. }
  cbn [mbind res_bind]. destruct (_ && _); [|by exists acc].
  destruct (calibrate_sizes_ok row s cs capacity acc.1) as (l & -> & Hl); try apply Hr; try done; [lia|]. cbn [mbind res_bind].
  eexists. by split.
Qed.

(** The slots of the threads: the sizes of a range, or nothing yet. *)
Definition slot_ok (x : list Sizes * gset (nat * Z)) : Prop := Forall (bounded capacity) x.1 ∧ met_ok x.2.
Definition slots_ok (k : Z) (out : list (list Sizes * gset (nat * Z))) : Prop := zlen out = k ∧ Forall slot_ok out.

Section threads.
Variables (row : bool) (s : Subarray) (a b : Z).
Hypothesis Hr : ready row s.
Hypothesis Hab : 0 ≤ a ≤ b ∧ b < range_num s.
Abbreviation ls := (major row s).

Lemma thread_est_ok fixed q k : ∀ p cs out, k = Z.to_nat (q - p + 1) → a ≤ p → q ≤ b → (p ≤ q → cs = ord row (dig ls p)) →
  slots_ok (b - a + 1) out →
  ∃ out', thread_est_sizes A s names vs same_type fixed a (zseq p q) cs out = (Ok (), out') ∧ slots_ok (b - a + 1) out'.
Proof.
  pose proof (rd_numbered _ _ Hr) as Hn. pose proof (major_grid D row s Hn) as Hg. pose proof (major_cap A D HD row s Hn) as Mc.
  induction k as [|k IH]; intros p cs out Hk Hp Hq Hcs [Lo Ho]; [rewrite zseq_nil by lia; by exists out|].
  rewrite zseq_cons by lia. assert (p ≤ q) as Hpq by lia. cbn [thread_est_sizes]. rewrite (Hcs Hpq).
  assert (inside ls (dig ls p)) as Hin by (apply dig_inside; [done|lia]).
  destruct (range_est_ok row s p (dig ls p) fixed Hr) as (x & -> & [[_ X1] X2]); [lia|done|]. cbn [mbind res_bind].
  unfold zlen in Lo. rewrite upd_ok by lia. cbn [mbind res_bind].
  assert (∃ c, get_next_range_coords A s (ord row (dig ls p)) = Ok c ∧ (p + 1 ≤ q → c = ord row (dig ls (p + 1)))) as (c & -> & Hc).
  { destruct (decide (p + 1 < range_num s)) as [Hlt|Hge].
    - eexists. split; [apply (next_coords_ok A D HD row s Hn (rd_offsets _ _ Hr)); lia|done].
    - destruct (next_coords_total A D HD row s Hn (rd_offsets _ _ Hr) (ord row (dig ls p))) as [c E].
      { rewrite length_ord, length_dig. apply (length_major D row s Hn). }
      exists c. split; [done|lia]. }
  cbn [mbind res_bind]. apply IH; [lia|lia|lia|done|]. split; [unfold zlen; rewrite length_insert; lia|]. by apply Forall_insert.
Qed.

(** The first range of a thread. *)
Lemma thread_start k t : k = (b - a + 1 + num_threads A - 1) / num_threads A → range_num s ≤ 2 ^ 50 → 0 ≤ t < num_threads A →
  u64 (a + u64 (t * k)) = a + t * k ∧ 0 ≤ t * k.
Proof.
  intros Ek HR Ht. assert (0 ≤ k) by (subst k; apply Z.div_pos; lia).
  assert (num_threads A * k ≤ b - a + 1 + num_threads A - 1) as H1 by (subst k; apply Z.mul_div_le; lia).
  assert (0 ≤ t * k ≤ num_threads A * k) as H2 by (split; [nia|apply Z.mul_le_mono_nonneg_r; lia]).
  rewrite (u64_id (t * k)) by lia. rewrite u64_id by lia. lia.
Qed.

Lemma var_names_ok : ∃ l, mapM (var_size S) names = Ok l.
Proof.
  apply mapM_total. intros x Hx. apply name_sizes. rewrite Forall_forall in Hnames. by apply Hnames.
Qed.

Lemma load_var_sizes_ok : load_relevant_fragment_tile_var_sizes A names s = Ok ().
Proof.
  unfold load_relevant_fragment_tile_var_sizes. destruct var_names_ok as [l ->]. cbn [mbind res_bind].
  set (vn := zip names l ≫= _). assert (∀ x, x ∈ vn → exists_name A x = true) as Hvn.
  { intros x Hx. unfold vn in Hx. apply list_elem_of_bind in Hx as ([y v] & Hy & Hz). destruct v; [|by apply elem_of_nil in Hy].
    apply list_elem_of_singleton in Hy as ->. apply elem_of_zip_l in Hz. rewrite Forall_forall in Hnames. by apply Hnames. }
  destruct vn as [|y vn']; [done|]. set (vn := y :: vn') in *.
  destruct (parallel_for_keeps (λ _, True) (relevant_fragments_ s ≫= (λ f,
    (λ name, lift (meta ← idx (fragment_metadata A) f; fm_load_tile_var_sizes meta name)) <$> vn)) () I) as ([] & E & _); [|by rewrite E].
  intros g [] Hg _. exists (). split; [|done]. apply list_elem_of_bind in Hg as (f & Hg & Hf). apply list_elem_of_fmap in Hg as (x & -> & Hx).
  destruct (rd_relevant _ _ Hr) as [H1 _]. rewrite Forall_forall in H1. destruct (frag_lookup f (H1 f Hf)) as (meta & Em & Hm).
  unfold lift. rewrite Em. cbn [mbind res_bind]. by rewrite (fo_load _ _ _ Hm x (Hvn x Hx)).
Qed.

End threads.

(** ** Memory *)

Lemma tile_mem_ok f t l : (f < m)%nat → 0 ≤ t < N → length l = length names →
  ∃ l', tile_mem A names vs (f, t) l = Ok l' ∧ length l' = length names.
Proof.
  intros Hf Ht Hl. unfold tile_mem. simpl fst. simpl snd. destruct (frag_lookup f Hf) as (meta & -> & Hm). cbn [mbind res_bind].
  apply (for_each_keeps (λ l, length l = length names)); [done|]. intros k x Hk%elem_of_seq Hx.
  destruct (name_at k) as (name & v & -> & Ev & Hn); [lia|]. cbn [mbind res_bind].
  destruct (fo_size _ _ _ Hm name t Hn Ht) as (z & -> & _). cbn [mbind res_bind]. rewrite Ev. cbn [mbind res_bind].
  destruct (lookup_lt_is_Some_2 x k) as [y Hy]; [lia|]. rewrite (idx_ok _ _ _ Hy). cbn [mbind res_bind]. destruct v; simpl negb; cbv iota.
  - destruct (fo_var_size _ _ _ Hm name t Hn Ht) as (w & -> & _). cbn [mbind res_bind]. rewrite upd_ok by lia. eexists. split; [done|]. by rewrite length_insert.
  - rewrite upd_ok by lia. eexists. split; [done|]. by rewrite length_insert.
Qed.

Lemma mem_sizes_ok ms : Forall met_ok ms → ∃ l, mem_sizes A names vs ms = Ok l.
Proof.
  intros Hms. unfold mem_sizes. edestruct (for_each_keeps (λ _ : gset (nat * Z) * list (list Sizes), True) ms) as (acc & E & _);
    [done| |rewrite E; by eexists].
  intros fts [seen out] Hf _. rewrite Forall_forall in Hms. pose proof (Hms fts Hf) as Hm. simpl.
  destruct (for_each_keeps (λ l, length l = length names) (elements (fts ∖ seen)) (tile_mem A names vs) (replicate (length names) (mkSizes 0 0))) as (l & -> & _).
  - apply length_replicate.
  - intros [f t] l Hft Hl. apply elem_of_elements, elem_of_difference in Hft as [Hft _]. destruct (Hm f t Hft). by apply tile_mem_ok.
  - cbn [mbind res_bind]. by eexists.
Qed.

End sizes.

Hypothesis Hcap : capacity < 2 ^ 53.

Lemma relevant_est_ok row s names a b : ready row s → Forall (λ x, exists_name A x = true) names →
  0 ≤ a ≤ b → b < range_num s → range_num s ≤ 2 ^ 50 →
  ∃ rs ms, relevant_est_sizes A s names a b = Ok (rs, ms) ∧ zlen rs = b - a + 1 ∧ Forall (Forall (bounded capacity)) rs.
Proof.
  intros Hr Hn Ha Hb HR. unfold relevant_est_sizes. rewrite (load_var_sizes_ok names Hn row s Hr). cbn [mbind res_bind].
  rewrite u64_id by lia. destruct (var_names_ok names Hn) as [vs Ev]. rewrite Ev. cbn [mbind res_bind].
  assert (length vs = length names) as Lv by (apply mapM_inv, Forall2_length in Ev; done).
  unfold ArraySchema.domain. rewrite (hd_domain _ _ HD). cbn [mbind res_bind]. destruct (same_type_total) as [same ->]. cbn [mbind res_bind].
  rewrite ceil_quot_exact by lia. cbn [mbind res_bind]. rewrite (proj2 (Z.ltb_lt _ _)) by lia. cbn [massert mbind res_bind].
  set (k := (b - a + 1 + num_threads A - 1) / num_threads A).
  edestruct (parallel_for_keeps (slots_ok (b - a + 1))) as (out & E & [Lo Ho]); [| |rewrite E].
  - split; [unfold zlen; rewrite length_replicate; lia|]. apply Forall_replicate. split; [by constructor|by intros f t Hft%elem_of_empty].
  - intros g y Hg Hy. apply list_elem_of_fmap in Hg as (t & -> & Ht%zseq_in). cbv zeta.
    destruct (thread_start names vs Lv s a b (conj Ha Hb) k t eq_refl HR) as [Es Hs]; [lia|]. unfold thread_ranges. rewrite Es.
    destruct (range_coords_total A D HD row s (rd_numbered _ _ Hr) (rd_offsets _ _ Hr) (a + t * k)) as [cs Ec]; [lia|].
    rewrite Ec. unfold lift, mbind, M_bind.
    eapply (thread_est_ok names vs same Hn Lv Hcap row s a b Hr (conj Ha Hb) _ _ _ _ _ _ eq_refl); [lia|lia| |done].
    intros Hle. rewrite (range_coords_ok A D HD row s (rd_numbered _ _ Hr) (rd_offsets _ _ Hr)) in Ec by lia. by injection Ec.
  - assert (Forall met_ok out.*2) as Hm by (apply Forall_fmap; eapply Forall_impl; [exact Ho|]; by intros x [_ ?]).
    destruct (mem_sizes_ok names vs Hn Lv out.*2 Hm) as [ms ->]. cbn [mbind res_bind]. eexists _, _. split; [done|]. split.
    + rewrite <- Lo. unfold zlen. by rewrite length_fmap.
    + apply Forall_fmap. eapply Forall_impl; [exact Ho|]. by intros x [? _].
Qed.

(** ** The estimates of a subarray *)

Lemma bounded_sum k c x y : bounded k x → bounded c y → 0 ≤ k → 0 ≤ c → k + c < 2 ^ 53 → bounded (k + c) (sum_doubles x y).
Proof. intros Hx [H1 H2] Hk Hc H. by apply bounded_add_sizes. Qed.

Lemma sums_bounded rs : ∀ k zero, Forall (Forall (bounded capacity)) rs → Forall (bounded k) zero → 0 ≤ k → k + zlen rs * capacity < 2 ^ 53 →
  Forall (bounded (k + zlen rs * capacity)) (foldl (zip_with sum_doubles) zero rs).
Proof.
  pose proof capacity_nonneg as Hc. induction rs as [|r rs IH]; intros k zero Hrs Hz Hk Hb; [unfold zlen; simpl; by rewrite Z.add_0_r|].
  apply Forall_cons in Hrs as [Hr Hrs]. assert (zlen (r :: rs) = zlen rs + 1) as Ez by (unfold zlen; simpl; lia). rewrite Ez in *.
  pose proof (zlen_nonneg rs) as Hl. cbn [foldl]. replace (k + (zlen rs + 1) * capacity) with (k + capacity + zlen rs * capacity) by lia.
  pose proof (Z.mul_nonneg_nonneg _ _ Hl Hc) as H0. assert (k + capacity < 2 ^ 53) as Hkc by lia. apply IH; [done| |lia|lia].
  clear -Hr Hz Hk Hc Hkc. revert r Hr. induction Hz as [|x zero Hx _ IHz]; intros [|y r] Hr; [constructor..|].
  apply Forall_cons in Hr as [Hy Hr]. constructor; [by apply bounded_sum|by apply IHz].
Qed.

(** The estimates have been computed; none is above [k]. *)
Definition estimated (k : Z) (s : Subarray) : Prop :=
  est_result_size_computed_ s = true ∧ ∀ name, bounded k (sizes_of (est_result_size_ s) name).

Lemma sum_est_ok row s : ready row s → range_num s ≤ 2 ^ 50 → range_num s * capacity < 2 ^ 53 →
  ∃ s', sum_est_sizes A s = (Ok (), s') ∧ same_ranges s s' ∧ estimated (range_num s * capacity) s'.
Proof.
  intros Hr HR Hk. unfold sum_est_sizes. destruct all_names_ok as (names & -> & Hn). cbn [mbind res_bind].
  pose proof (R_pos row s (rd_numbered _ _ Hr)) as Hp. rewrite u64_id by lia.
  destruct (relevant_est_ok row s names 0 (range_num s - 1) Hr Hn) as (rs & ms & -> & Lr & Br); [lia..|]. cbn [mbind res_bind].
  eexists. split; [done|]. split; [done|]. split; [done|]. intros name. cbn [est_result_size_ with_est].
  set (est := foldl _ _ rs). assert (Forall (bounded (range_num s * capacity)) est) as He.
  { replace (range_num s * capacity) with (0 + zlen rs * capacity) by (rewrite Lr; lia).
    apply sums_bounded; [done|apply Forall_replicate; split; apply d_le_zero|lia|rewrite Lr; lia]. }
  unfold sizes_of. destruct (list_to_map _ !! name) as [x|] eqn:E; simpl; [|split; apply d_le_zero].
  apply elem_of_list_to_map_2 in E. apply list_elem_of_In, in_rev, list_elem_of_In in E. apply elem_of_zip_r in E.
  rewrite Forall_forall in He. by apply He.
Qed.

Section must.
Variables (row : bool) (s : Subarray).
Hypothesis (Hn : numbered D row s) (Hok : ok_ranges (ok := int_range D) s) (HR : range_num s ≤ 2 ^ 50).
Hypothesis Hk : range_num s * capacity < 2 ^ 53.
Hypothesis (He : est_result_size_computed_ s = false) (Hc : tile_overlap_computed_ s = false) (Hrel : relevant_fragments_ s = []).
Abbreviation k := (range_num s * capacity).

(** [s], or [s] after its estimates have been computed. *)
Definition tried (x : Subarray) : Prop := x = s ∨ same_ranges s x ∧ estimated k x.

Lemma compute_est_ok x : tried x → ∃ x', compute_est_result_size A x = (Ok (), x') ∧ same_ranges s x' ∧ estimated k x'.
Proof.
  intros [->|[H1 H2]]; unfold compute_est_result_size; [rewrite He|rewrite (proj1 H2); by exists x].
  destruct (compute_tile_overlap_ok row s Hn Hok HR Hc Hrel) as (s1 & E & Hr & Hs & _). rewrite (M_step _ _ _ _ _ E).
  assert (range_num s1 = range_num s) as En by (unfold range_num; by destruct Hs as (-> & _)).
  destruct (sum_est_ok row s1 Hr) as (s2 & -> & Hs2 & He2); [by rewrite En..|]. exists s2. rewrite En in He2. split; [done|]. split; [|done].
  destruct Hs as (A1 & A2 & A3 & A4), Hs2 as (B1 & B2 & B3 & B4). unfold same_ranges. rewrite B1, B2, B3, B4. done.
Qed.

Lemma ceil_u64_ok x c : d_le x c → 0 ≤ c < 2 ^ 53 → ∃ z, ceil_u64 x = Ok z.
Proof.
  intros Hx Hb. unfold ceil_u64, f_ceil. destruct Hx as [->|(p & e & -> & _ & He' & Hv)]; [by exists 0|].
  assert (0 < 2 ^ (- e)) as Hpos by (apply Z.pow_pos_nonneg; lia).
  assert (∀ z, 0 ≤ z ≤ c → ∃ y, in_range U64 (Ok z) = Ok y) as Hin.
  { intros z Hz. unfold in_range. cbn [mbind res_bind]. rewrite (proj2 (fits_spec _ _)); [by eexists|]. unfold_ctype. simpl. lia. }
  apply Hin. destruct (Z.leb_spec 0 e) as [H0|H0].
  - assert (e = 0) as -> by lia. simpl in *. lia.
  - pose proof (Z.div_le_upper_bound (- Z.pos p) (2 ^ (- e)) 0 Hpos). pose proof (Z.div_le_lower_bound (- Z.pos p) (2 ^ (- e)) (- c) Hpos). nia.
Qed.

(** The four getters return. *)
Definition answers {X : Type} (op : M Subarray X) : Prop := ∀ x, tried x → ∃ y x', op x = (Ok y, x') ∧ tried x'.

Lemma estimated_tried x : same_ranges s x → estimated k x → tried x.
Proof. by right. Qed.

Lemma k_bounds : 0 ≤ k < 2 ^ 53.
Proof. pose proof capacity_nonneg. pose proof (R_pos row s Hn). split; [apply Z.mul_nonneg_nonneg; lia|done]. Qed.

Lemma est_answers name : exists_name A name = true → answers (estimates A name).
Proof.
  intros Hx x Ht. pose proof k_bounds as Hkb. destruct (name_sizes name Hx) as [[v Ev] _].
  destruct (compute_est_ok x Ht) as (x1 & E1 & S1 & H1). pose proof (estimated_tried x1 S1 H1) as T1.
  destruct (compute_est_ok x1 T1) as (x2 & E2 & S2 & H2).
  destruct (H1) as [_ B1]. destruct (B1 name) as [F1 F2]. destruct (ceil_u64_ok _ k F1 Hkb) as [z1 Z1]. destruct (ceil_u64_ok _ k F2 Hkb) as [z2 Z2].
  unfold estimates. rewrite (M_step (lift (var_size S name)) _ v x x) by (unfold lift; by rewrite Ev).
  assert (∀ X (zero : X) op y a b, op a = (Ok y, b) → quiet zero op a = (Ok y, b)) as Hq by (intros X zero op y a b E; unfold quiet; by rewrite E).
  assert (check_name A est_msg "Attribute/Dimension name cannot be null" (Some name) = Ok name ∧
    check_name A mem_msg "Attribute/Dimension cannot be null" (Some name) = Ok name) as [C1 C2] by (unfold check_name; by rewrite Hx).
  assert (ignore_status (compute_est_result_size A) x1 = (Ok (), x2)) as Ei by (unfold ignore_status; by rewrite E2).
  destruct v.
  - eexists _, x2. split; [|by right]. erewrite M_step; [|apply Hq].
    2:{ unfold get_est_result_size_var. rewrite C1. erewrite M_step by done. rewrite Ev. erewrite M_step by done. cbn [negb].
        rewrite (M_step _ _ _ _ _ E1). unfold ask. rewrite Z1. cbn [mbind res_bind]. by rewrite Z2. }
    erewrite M_step; [|apply Hq].
    2:{ unfold get_max_memory_size_var. rewrite C2. erewrite M_step by done. rewrite Ev. erewrite M_step by done. cbn [negb].
        by rewrite (M_step _ _ _ _ _ Ei). }
    done.
  - eexists _, x2. split; [|by right]. erewrite M_step; [|apply Hq].
    2:{ unfold get_est_result_size. rewrite C1. erewrite M_step by done. rewrite Ev. erewrite M_step by done. cbv iota.
        rewrite (M_step _ _ _ _ _ E1). unfold ask. by rewrite Z1. }
    erewrite M_step; [|apply Hq].
    2:{ unfold get_max_memory_size. rewrite C2. erewrite M_step by done.
        assert ((if bool_decide (name = coords) then Ok false else var_size S name) = Ok false) as -> by (by destruct (bool_decide _)).
        erewrite M_step by done. cbv iota. by rewrite (M_step _ _ _ _ _ Ei). }
    done.
Qed.

Lemma must_split_ok p : Forall (λ b, exists_name A b.1 = true) (map_to_list (budget_ p)) → answers (must_split A p).
Proof.
  intros Hb. unfold must_split. induction Hb as [|[name b] l Hx _ IH]; intros x Ht; [by exists false, x|]. cbn [must_split_loop].
  destruct (est_answers name Hx x Ht) as (y & x' & E & Ht'). rewrite (M_step _ _ _ _ _ E). destruct (exceeds _ _ _ _); [by exists true, x'|by apply IH].
Qed.

End must.

End estimates.
