(* ===== verification/Partitions.v ===== *)
(** * Theorems about subarrays and their partitions

    The numbering of the ranges, the grouping of tiles, and the main theorem: the
    partitions that a read takes one after the other hold every cell of the
    subarray exactly as often as the subarray does. *)

From stdpp Require Import gmap.
From S2P Require Import Prelude.
From S2P Require Import Enums.
From S2P Require Import Strings.
From S2P Require Import Num.
From S2P Require Import NumFacts.
From S2P Require Import Range.
From S2P Require Import Loops.
From S2P Require Import Dimension.
From S2P Require Import DimensionProofs.
From S2P Require Import Domain.
From S2P Require Import Attribute.
From S2P Require Import ArraySchema.
From S2P Require Import ArraySchemaProofs.
From S2P Require Import RTree.
From S2P Require Import Subarray.
From S2P Require Import SubarrayTiles.
From S2P Require Import SubarrayPartitioner.
From S2P Require Import SubarrayRanges.
From S2P Require Import SubarrayParts.
From S2P Require Import PartitionerProofs.
From S2P Require Import PartitionerCover.
From S2P Require Import SubarrayInts.
From S2P Require Import SubarrayEstimates.
Local Open Scope Z_scope.

#[local] Existing Instance int_laws.

(** ** Partitions *)

Section partitions.
Context {F : Type} `{!FragmentMeta F}.
Variables (A : Array F) (D : Domain.t).

(** Setting the budgets of a new partitioner. *)
Inductive budgeted : SubarrayPartitioner → SubarrayPartitioner → Prop :=
| budgeted_start p : budgeted p p
| budgeted_fixed p q q' name b : budgeted p q → set_result_budget A name b q = Ok q' → budgeted p q'
| budgeted_var p q q' name b c : budgeted p q → set_result_budget_var A name b c q = Ok q' → budgeted p q'
| budgeted_memory p q b c : budgeted p q → budgeted p (set_memory_budget b c q).

(** Only the budgets change, and the names with a budget are names of the schema. *)
Definition known (l : gmap (list Z) Sizes) : Prop := ∀ name b, l !! name = Some b → exists_name A name = true.

Lemma known_insert l name b : known l → exists_name A name = true → known (<[name:=b]> l).
Proof.
  intros Hl Hn x c Hx. apply lookup_insert_Some in Hx as [[<- _]|[_ Hx]]; [done|by eapply Hl].
Qed.

Lemma budgeted_inv p q : budgeted p q → known (budget_ p) →
  subarray_ q = subarray_ p ∧ current_ q = current_ p ∧ state_ q = state_ p ∧ known (budget_ q).
Proof.
  induction 1 as [p|p q q' name b _ IH E|p q q' name b c _ IH E|p q b c _ IH]; intros Hp; [done|destruct (IH Hp) as (H1 & H2 & H3 & H4)..].
  - destruct name as [name|]; [|done]. unfold set_result_budget in E. destruct (exists_name A name) eqn:En; [|done]. cbn [negb] in E.
    apply bind_ok in E as (v & _ & E). destruct v; [done|]. injection E as <-. split_and!; try done. by apply known_insert.
  - destruct name as [name|]; [|done]. unfold set_result_budget_var in E. destruct (bool_decide (name = coords)); [done|].
    destruct (is_dim (array_schema A) name || is_attr (array_schema A) name) eqn:En; [|done]. cbn [negb] in E.
    apply bind_ok in E as (v & _ & E). destruct v; [|done]. injection E as <-. split_and!; try done. apply known_insert; [done|].
    unfold exists_name. rewrite <- orb_assoc, En. apply orb_true_r.
  - done.
Qed.

(** A subarray that ranges have been added to: one or more on every dimension, inside of
    its domain, and in a layout that numbers them. *)
Record queryable (row : bool) (s : Subarray) : Prop := {
  qy_piece : piece A D row (layout_ s) s;
  qy_ranges : ok_ranges (ok := int_range D) s;
  qy_num : range_num s ≤ 2 ^ 50
}.

(** An array as the estimates need it: [N] tiles of [B] bytes in each fragment. *)
Record readable (N B : Z) : Prop := {
  ra_schema : built (array_schema A);
  ra_domain : ArraySchema.domain_ (array_schema A) = Some D;
  ra_bounds : 0 ≤ N < u64_max ∧ 0 ≤ B;
  ra_fragments : Forall (fragment_ok A D N B) (fragment_metadata A);
  ra_threads : 0 < num_threads A < 2 ^ 32
}.

Lemma readable_dims N B : readable N B → has_dims A D.
Proof.
  intros [Hb Hd _ _ _]. pose proof (wf_dims _ (built_wf _ Hb)) as W. rewrite Hd in W. destruct W as (Hc & Hp & _).
  split; [done|done|]. intros E. unfold counted in Hc. rewrite E in Hc. change (zlen []) with 0 in Hc. lia.
Qed.

(** How often the cell at a point is in a subarray: the number of choices of one range
    of each dimension that hold it. The number of cells. *)
Definition times (point : list (list Z)) (s : Subarray) : Z := measure (covers D point) (ranges_ s).
Definition cells (s : Subarray) : Z := measure (value_num D) (ranges_ s).
Definition sum_over (f : Subarray → Z) (l : list Subarray) : Z := foldr (λ s x, f s + x) 0 l.

Lemma must_split_new N B row layout R p s : readable N B → R ≤ 2 ^ 50 → R * capacity A N B < 2 ^ 53 → known (budget_ p) →
  new (ok := int_range D) A D row layout R s → ∃ b s', must_split A p s = (Ok b, s') ∧
    ranges_ s' = ranges_ s ∧ layout_ s' = layout_ s ∧ cell_order_ s' = cell_order_ s.
Proof.
  intros Hr HR Hc Hk ([Hn _ _ He Ho Hrel] & Hok & Hb). pose proof (readable_dims N B Hr) as HD. destruct Hr as [Hbt _ HNB HF HT].
  pose proof (capacity_nonneg A D N B HNB) as Hc0. pose proof (R_pos A D HD row s Hn) as Hp.
  assert (capacity A N B < 2 ^ 53 ∧ range_num s * capacity A N B < 2 ^ 53) as [C1 C2].
  { assert (range_num s * capacity A N B ≤ R * capacity A N B) by (apply Z.mul_le_mono_nonneg_r; lia). split; [nia|lia]. }
  destruct (must_split_ok A D HD (built_wf _ Hbt) N B HNB HF HT C1 row s) with (p := p) (x := s) as (b & s' & E & [->|[(E1 & E2 & E3 & _) _]]); try done; try lia.
  - apply Forall_forall. intros [name c] Hx%elem_of_map_to_list. by eapply Hk.
  - by left.
  - by exists b, s.
  - by exists b, s'.
Qed.

Lemma estimable_ok N B row sub p : readable N B → ready A D N row sub → range_num sub ≤ 2 ^ 50 → range_num sub * capacity A N B < 2 ^ 53 →
  known (budget_ p) → estimable A D (ok := int_range D) row sub p.
Proof.
  intros Hr Hrd HR Hc Hk. split; [intros s Hs; by eapply must_split_new|].
  intros a b Ha Hb. pose proof (readable_dims N B Hr) as HD. destruct Hr as [Hbt _ HNB HF HT].
  pose proof (R_pos A D HD row sub (rd_numbered _ _ _ _ _ Hrd)). pose proof (capacity_nonneg A D N B HNB).
  destruct (relevant_est_ok A D HD N B HNB HF HT ltac:(nia) row sub (map_to_list (budget_ p)).*1 a b) as (rs & ms & E & L & _); try done.
  - apply Forall_fmap, Forall_forall. intros [name c] Hx%elem_of_map_to_list. by eapply Hk.
  - by exists rs, ms.
Qed.

(** The constructor. *)
Lemma make_partitioner_ok N B row s memory memory_var : readable N B → queryable row s →
  ∃ sub, make_partitioner A s memory memory_var = Ok (mkPartitioner sub ∅ (mkInfo no_subarray 0 0 false)
      (mkState 0 (range_num sub - 1) [] []) memory memory_var) ∧ ready A D N row sub ∧ same_ranges s sub.
Proof.
  intros Hr [[Hn Hl Hco He Hc Hrel] Hok HR]. pose proof (readable_dims N B Hr) as HD. destruct Hr as [Hbt _ HNB HF HT].
  assert (numbered D row (clone s)) as Hn' by (destruct Hn; by split).
  destruct (compute_tile_overlap_ok A D HD (built_wf _ Hbt) N B HNB HF HT row (clone s) Hn' Hok HR Hc Hrel) as (sub & E & Hrd & Hs & _).
  exists sub. unfold make_partitioner. rewrite E. pose proof (R_pos A D HD row sub (rd_numbered _ _ _ _ _ Hrd)).
  rewrite (proj2 (Z.ltb_lt _ _)) by lia. by split_and!.
Qed.

Lemma partitioner_inv N B row s sub p : readable N B → queryable row s → range_num s * capacity A N B < 2 ^ 53 →
  ready A D N row sub → same_ranges s sub → known (budget_ p) → subarray_ p = sub → state_ p = mkState 0 (range_num sub - 1) [] [] →
  base A D (ok := int_range D) row sub ∧ inv A D (ok := int_range D) row sub p ∧
  ∀ g, pending row sub g p = measure g (ranges_ s).
Proof.
  intros Hr Hq Hc Hrd (E1 & E2 & E3 & _) Hk Es Est. pose proof (readable_dims N B Hr) as HD. pose proof (rd_numbered _ _ _ _ _ Hrd) as Hn.
  pose proof (R_pos A D HD row sub Hn) as Hp. assert (range_num sub = range_num s) as En by (unfold range_num; by rewrite E1). split_and!.
  - split; try apply Hrd; [rewrite E3; apply (pc_cell_order _ _ _ _ _ (qy_piece _ _ Hq))|].
    destruct (rd_rows _ _ _ _ _ Hrd) as [_ H]. eapply Forall_impl; [exact H|]. by intros x [? _].
  - split_and!; [done| |by rewrite Est|left; rewrite Est; simpl; split_and!; done || lia].
    apply (estimable_ok N B); try done; rewrite En; [apply Hq|done].
  - intros g. rewrite <- E1, (whole_measure A D HD row sub Hn g). unfold pending, first_left. rewrite Est. simpl. lia.
Qed.

(** C1. The partitions of a read cover its subarray exactly. For an array built by the
    operations of the schema, with integer dimensions, and for a subarray of at most
    [2^50] ranges inside of the domain whose estimates stay below [2^53] bytes, the
    partitioner is constructed and, whatever budgets are set, the loop of a read ends
    with a list of partitions: every point of the domain is met in the partitions
    exactly as often as in the subarray, and together they have the cells of the
    subarray. The loops take at most one round for each cell. *)
Theorem partitions_cover N B row s memory memory_var : readable N B → queryable row s → range_num s * capacity A N B < 2 ^ 53 →
  ∃ p0, make_partitioner A s memory memory_var = Ok p0 ∧
    ∀ p fuel k, budgeted p0 p → cells s ≤ Z.of_nat fuel → cells s ≤ Z.of_nat k →
    ∃ ps, partitions A fuel k p = Ok ps ∧ sum_over cells ps = cells s ∧ ∀ point, sum_over (times point) ps = times point s.
Proof.
  intros Hr Hq Hc. destruct (make_partitioner_ok N B row s memory memory_var Hr Hq) as (sub & E & Hrd & Hs).
  eexists. split; [exact E|]. intros p fuel k Hb Hf Hk. destruct (budgeted_inv _ _ Hb) as (B1 & B2 & B3 & B4); [done|].
  destruct (partitioner_inv N B row s sub p Hr Hq Hc Hrd Hs B4 B1 B3) as (Hbase & Hinv & Hpend).
  destruct (partitions_ok A D (readable_dims N B Hr) row sub Hbase k fuel p Hinv) as (ps & Ep & _ & Hg); [by rewrite Hpend..|].
  exists ps. split; [done|]. split.
  - unfold cells. rewrite <- (Hpend (value_num D)). apply Hg, (additive_size D).
  - intros point. unfold times. rewrite <- (Hpend (covers D point)). apply Hg, covers_additive.
Qed.

End partitions.

(** ** The numbering of the ranges *)

Section numbering.
Context {F : Type} `{!FragmentMeta F}.
Variables (A : Array F) (D : Domain.t).

Lemma inside_of_raw row s cs : numbered D row s → Forall2 (λ rs c, 0 ≤ c < zlen rs) (ranges_ s) cs → inside (major row s) (ord row cs).
Proof.
  intros Hn H. unfold major, inside, lens. assert (Forall2 (λ l c, 0 ≤ c < l) (zlen <$> ranges_ s) cs) as H' by (by apply Forall2_fmap_l).
  destruct row; simpl; [done|]. by apply forall2_rev.
Qed.

(** C14. The ranges of a subarray are numbered without gaps: every number below the number
    of ranges has coordinates that [range_idx] maps back to it and that select the same
    ranges as the number, the coordinates of the next number are the ones that
    [get_next_range_coords] computes, and all coordinates have a number. *)
Theorem range_numbering row s s' : has_dims A D → numbered D row s → compute_range_offsets A s = Ok s' →
  (∀ i, 0 ≤ i < range_num s → ∃ cs, get_range_coords A s' i = Ok cs ∧
     Forall2 (λ rs c, 0 ≤ c < zlen rs) (ranges_ s) cs ∧ range_idx A s' cs = Ok i ∧
     ndrange A s' i = ndrange_at A s' cs ∧ ndrange A s' i = Ok (picks (ranges_ s) cs) ∧
     (i + 1 < range_num s → get_next_range_coords A s' cs = get_range_coords A s' (i + 1))) ∧
  (∀ cs, Forall2 (λ rs c, 0 ≤ c < zlen rs) (ranges_ s) cs →
     ∃ i, range_idx A s' cs = Ok i ∧ 0 ≤ i < range_num s ∧ get_range_coords A s' i = Ok cs).
Proof.
  intros HD Hn E. rewrite (offsets_ok A D HD row s Hn) in E. injection E as <-. set (s' := with_range_offsets s _).
  assert (numbered D row s') as Hn' by (destruct Hn; by split). assert (range_offsets_ s' = ord row (sufs (major row s'))) as Ho by done.
  pose proof (major_grid D row s' Hn') as Hg. pose proof (major_cap A D HD row s' Hn') as Mc. change (range_num s') with (range_num s) in Mc. split.
  - intros i Hi. assert (inside (major row s') (dig (major row s') i)) as Hin by (apply dig_inside; [done|lia]).
    exists (ord row (dig (major row s') i)). split_and!.
    + by apply (range_coords_ok A D HD row s' Hn' Ho).
    + by apply (inside_raw D row s' Hn').
    + rewrite (range_idx_ok A D HD row s' Hn' Ho _ Hin), flat_dig by (done || lia). done.
    + rewrite (ndrange_ok A D HD row s' Hn' Ho) by done. symmetry. by apply (ndrange_at_ok A D HD row s' Hn').
    + by apply (ndrange_ok A D HD row s' Hn' Ho).
    + intros Hi1. rewrite (range_coords_ok A D HD row s' Hn' Ho (i + 1)) by (change (range_num s') with (range_num s); lia).
      apply (next_coords_ok A D HD row s' Hn' Ho); [lia|done].
  - intros cs Hcs. pose proof (inside_of_raw row s' cs Hn' Hcs) as Hin. pose proof (flat_bound _ _ Hin) as Hb.
    exists (flat (major row s') (ord row cs)). split_and!; [|lia|lia|].
    + by rewrite <- (range_idx_ok A D HD row s' Hn' Ho _ Hin), ord_ord.
    + rewrite (range_coords_ok A D HD row s' Hn' Ho) by (change (range_num s') with (range_num s); lia). by rewrite dig_flat, ord_ord.
Qed.

(** C36. A range that is rejected is not harmless: when the dimension still has its default
    range, the failing call of [add_range] has removed it, and the subarray is empty. *)
Theorem rejected_range_empties d r s rs c e : ArraySchema.dim_num (array_schema A) = Ok (zlen (ranges_ s)) → ranges_ s !! d = Some rs →
  is_default_ s !! d = Some true → (dim ← dimension_at (array_schema A) d; check_range dim r) = Err c e →
  ∃ s', add_range A d r s = (Err c e, s') ∧ ranges_ s' !! d = Some [] ∧ range_num s' = 0.
Proof.
  intros Hn Hd Hdef Hck. pose proof (lookup_lt_Some _ _ _ Hd) as Hlt. pose proof (lookup_lt_Some _ _ _ Hdef). unfold add_range. rewrite Hn.
  rewrite (proj2 (Z.leb_gt _ _)) by (unfold zlen; lia). unfold remove_default. rewrite (idx_ok _ _ _ Hdef). cbn [mbind res_bind].
  rewrite upd_ok by done. cbn [mbind res_bind]. rewrite upd_ok by done. cbn [mbind res_bind]. rewrite Hck.
  eexists. split; [done|]. cbn [ranges_ with_ranges]. split; [by apply list_lookup_insert_eq|]. unfold range_num. cbn [ranges_ with_ranges].
  destruct (<[d:=[]]> (ranges_ s)) as [|x l] eqn:E; [done|]. rewrite <- E. clear x l E.
  apply list_elem_of_split_length in Hd as (l1 & l2 & -> & ->). rewrite <- (Nat.add_0_r (length l1)), insert_app_r. simpl.
  rewrite fold_left_app. simpl. generalize (fold_left (λ n (r : list Range), u64 (n * zlen r)) l1 1). intros k.
  change (zlen []) with 0. rewrite Z.mul_0_r. change (u64 0) with 0. by induction l2 as [|x l2 IH].
Qed.

End numbering.

(** C16. The tiles that [get_tile_overlap] groups into ranges are exactly the tiles that
    the fragment reports, a covered tile with the share 1 and any other with its own. *)
Theorem group_tiles_exact l : Forall (λ x, 0 ≤ x.1 < u64_max) l → tile_weights (group_tiles l) ≡ₚ weight <$> l.
Proof. apply group_tiles_perm. Qed.

(** ** A sample *)

(** A sparse array of two dimensions with one fragment of one tile. *)
Definition sample2_dim (name : list Z) : Dimension.t :=
  Dimension.mk 1 (pair_of (NInt I32) 1 10) Filter.empty_pipeline name (nenc (NInt I32) 5) INT32.
Definition sample2_domain : Domain.t := with_dimensions Domain.empty [sample2_dim (lit "x"); sample2_dim (lit "y")] 2.
Definition sample2_attr : Attribute.t := Attribute.make (lit "a") INT32.

Definition sample2_schema : ArraySchema.t :=
  (add_attribute (Some sample2_attr) true (set_domain (ArraySchema.make SPARSE, Some sample2_domain)).2.1).2.

Definition whole_tile : TileOverlap := mkOverlap [(0, one)] [].

#[local] Instance sample2_meta : FragmentMeta unit := {
  fm_dense _ := false;
  fm_overlaps_non_empty_domain _ _ := Ok true;
  fm_load_rtree _ := Ok ();
  fm_get_tile_overlap _ _ := Ok whole_tile;
  fm_overlapping_tile_ids_cov _ _ _ := Ok [];
  fm_tile_size _ _ _ := Ok 400;
  fm_load_tile_var_sizes _ _ := Ok ();
  fm_tile_var_size _ _ _ := Ok 0
}.

Definition sample2 : Array unit := mkArray sample2_schema [()] 2.
Definition sample2_dims : Domain.t := default Domain.empty (ArraySchema.domain_ sample2_schema).

(** The ranges [1, 2], [5, 6] and [9, 9] of rows, and [3, 5] and [7, 8] of columns. *)
Definition sample2_range (a b : Z) : Range := pair_of (NInt I32) a b.
Definition sample2_subarray : Subarray :=
  mkSubarray ROW_MAJOR ROW_MAJOR [[sample2_range 1 2; sample2_range 5 6; sample2_range 9 9]; [sample2_range 3 5; sample2_range 7 8]]
    [false; false] [] [] false false ∅ ∅ [] [] ∅.

Lemma sample2_built : built sample2_schema.
Proof.
  unfold sample2_schema. destruct (set_domain (ArraySchema.make SPARSE, Some sample2_domain)) as [r0 [s0 p0]] eqn:E0.
  destruct (add_attribute (Some sample2_attr) true s0) as [r1 s1] eqn:E1. cbn [fst snd]. rewrite E1.
  eapply built_add; [|exact E1]. eapply (built_domain (ArraySchema.make SPARSE)); [constructor| |exact E0]. vm_compute. reflexivity.
Qed.

Lemma sample2_readable : readable sample2 sample2_dims 1 400.
Proof.
  split.
  - apply sample2_built.
  - vm_compute. reflexivity.
  - unfold u64_max. lia.
  - apply Forall_cons_2; [|apply Forall_nil_2]. split; cbn [fm_dense fm_overlaps_non_empty_domain fm_load_rtree fm_get_tile_overlap
      fm_overlapping_tile_ids_cov fm_tile_size fm_load_tile_var_sizes fm_tile_var_size sample2_meta]; try discriminate; try reflexivity.
    + intros. by exists true.
    + intros nd _ _. exists whole_tile. split; [reflexivity|]. split; [vm_compute; discriminate|].
      apply Forall_cons_2; [|apply Forall_nil_2]. split; [simpl; lia|]. right. apply unit64_one.
    + intros. exists 400. split; [reflexivity|lia].
    + intros. exists 0. split; [reflexivity|lia].
  - simpl. lia.
Qed.

Lemma sample2_int_dim name : int_dimension I32 (sample2_dim name) 1 10.
Proof.
  assert (∀ z, -1000 ≤ z ≤ 1000 → in_ctype I32 z) as Hi by (intros; unfold_ctype; simpl; lia).
  split; [reflexivity|apply pair_of_is; apply Hi; lia|lia|apply Hi; lia|lia|right]. exists 5.
  split; [|split; [apply Hi; lia|split; [apply Hi; lia|lia]]].
  split; [apply pair_of_is; apply Hi; lia|split; [reflexivity|apply Hi; lia]|lia|lia|apply Hi; lia].
Qed.

Lemma sample2_range_ok d a b : (d < 2)%nat → 1 ≤ a → a ≤ b → b ≤ 10 → int_range sample2_dims d (sample2_range a b).
Proof.
  intros Hd Ha Hab Hb. assert (∃ name, dimensions_ sample2_dims !! d = Some (sample2_dim name)) as [name E].
  { destruct d as [|[|]]; [exists (lit "x")|exists (lit "y")|lia]; vm_compute; reflexivity. }
  exists (sample2_dim name), I32, 1, 10, a, b. split_and!; try done; [apply sample2_int_dim|].
  apply pair_of_is; apply (in_between I32 1 _ 10); try lia; unfold_ctype; simpl; lia.
Qed.

Lemma sample2_queryable : queryable sample2 sample2_dims true sample2_subarray.
Proof.
  split; [split; try reflexivity; split| |vm_compute; discriminate].
  - vm_compute. reflexivity.
  - repeat (apply Forall_cons_2; [vm_compute; discriminate|]). apply Forall_nil_2.
  - vm_compute. reflexivity.
  - left. reflexivity.
  - vm_compute. discriminate.
  - intros d rs r Hd Hr. assert (d < 2)%nat as Hlt by (apply lookup_lt_Some in Hd; exact Hd).
    destruct d as [|[|]]; [..|lia]; injection Hd as <-; rewrite !elem_of_cons, elem_of_nil in Hr;
      destruct_or! Hr; subst; try done; apply sample2_range_ok; lia.
Qed.

Lemma partitions_cover_witness : ∃ p0 p ps, make_partitioner sample2 sample2_subarray 1000 1000 = Ok p0 ∧
  set_result_budget sample2 (Some (lit "a")) 16 p0 = Ok p ∧ partitions sample2 25 25 p = Ok ps ∧
  sum_over (cells sample2_dims) ps = 25.
Proof.
  destruct (partitions_cover sample2 sample2_dims 1 400 true sample2_subarray 1000 1000 sample2_readable sample2_queryable) as (p0 & E & H).
  - vm_compute. reflexivity.
  - destruct (set_result_budget sample2 (Some (lit "a")) 16 p0) as [p| |] eqn:Ep.
    + destruct (H p 25%nat 25%nat) as (ps & Eps & Hc & _).
      * eapply budgeted_fixed; [apply budgeted_start|exact Ep].
      * vm_compute. discriminate.
      * vm_compute. discriminate.
      * exists p0, p, ps. split; [exact E|]. split; [exact Ep|]. split; [exact Eps|]. rewrite Hc. vm_compute. reflexivity.
    + vm_compute in E. injection E as <-. vm_compute in Ep. discriminate Ep.
    + vm_compute in E. injection E as <-. vm_compute in Ep. discriminate Ep.
Defined.

Lemma range_numbering_witness : ∃ s', compute_range_offsets sample2 sample2_subarray = Ok s' ∧
  ∃ cs, get_range_coords sample2 s' 3 = Ok cs ∧ range_idx sample2 s' cs = Ok 3.
Proof.
  destruct (compute_range_offsets sample2 sample2_subarray) as [s'| |] eqn:E; [|vm_compute in E; discriminate E|vm_compute in E; discriminate E].
  exists s'. split; [reflexivity|]. pose proof (readable_dims _ _ _ _ sample2_readable) as HD.
  destruct (range_numbering sample2 sample2_dims true sample2_subarray s' HD (pc_numbered _ _ _ _ _ (qy_piece _ _ _ _ sample2_queryable)) E) as [H _].
  destruct (H 3) as (cs & H1 & _ & H2 & _); [vm_compute; split; [discriminate|reflexivity]|]. exists cs. split; [exact H1|exact H2].
Defined.

Lemma rejected_range_empties_witness : ∃ s s' c e, make_subarray sample2 ROW_MAJOR = Ok s ∧
  add_range sample2 0 (sample2_range 5 20) s = (Err c e, s') ∧ range_num s' = 0.
Proof.
  set (s := mkSubarray ROW_MAJOR ROW_MAJOR [[sample2_range 1 10]; [sample2_range 1 10]] [true; true] [] [] false false ∅ ∅ [] [] ∅).
  assert (make_subarray sample2 ROW_MAJOR = Ok s) as E by (vm_compute; reflexivity).
  destruct (rejected_range_empties sample2 0 (sample2_range 5 20) s [sample2_range 1 10] SC_Dimension EmptyString) as (s' & H1 & _ & H2);
    [vm_compute; reflexivity|reflexivity|reflexivity|vm_compute; reflexivity|].
  exists s, s', SC_Dimension, EmptyString. split; [exact E|]. split; [exact H1|exact H2].
Defined.

Lemma group_tiles_exact_witness :
  tile_weights (group_tiles [(0, one); (1, one); (2, one); (3, 0); (5, one)]) ≡ₚ [(0, one); (1, one); (2, one); (3, 0); (5, one)].
Proof.
  apply (group_tiles_exact [(0, one); (1, one); (2, one); (3, 0); (5, one)]).
  repeat (apply Forall_cons_2; [vm_compute; split; [discriminate|reflexivity]|]). apply Forall_nil_2.
Defined.

(** ** Ranges that are lost *)

(** Rows 1 and 3, and columns 1, 3, 5, 7 and 9. *)
Definition wide_subarray : Subarray :=
  mkSubarray ROW_MAJOR ROW_MAJOR [[sample2_range 1 1; sample2_range 3 3];
      [sample2_range 1 1; sample2_range 3 3; sample2_range 5 5; sample2_range 7 7; sample2_range 9 9]]
    [false; false] [] [] false false ∅ ∅ [] [] ∅.

(** A read that takes the first partition, splits it because its results do not fit
    after all, and goes on. *)
Definition read_after_split {F : Type} `{!FragmentMeta F} (A : Array F) (s : Subarray) (name : list Z) (budget memory : Z) (fuel : nat) :
    res (list Subarray) :=
  p ← make_partitioner A s memory memory;
  p ← set_result_budget A (Some name) budget p;
  '(_, p) ← next A fuel p;
  '(_, p) ← split_current A fuel p;
  ps ← partitions A fuel fuel p;
  Ok (partition_ (current_ p) :: ps).

