(* ===== verification/ChunkedBuffer.v ===== *)
(** * ChunkedBuffer (tile/chunked_buffer.cc): a logical buffer made of chunks

    The chunks are pointers, into one block of memory ([CONTIGUOUS]) or into
    one block each ([DISCRETE]).  The state of an operation is the memory
    and the object, so that copies of an object can share memory, and a use
    after [free] is undefined. *)

From S2P Require Import Prelude.
From S2P Require Import Buffer.
Local Open Scope Z_scope.

(** ** The C heap *)

(** The blocks ever allocated; a freed block is [None].  A pointer is a block
    and an offset in it. *)
Abbreviation Mem := (list (option (list Z))).
Abbreviation pointer := (nat * Z)%type.

Definition mem_malloc `{Allocator} (n : Z) : M Mem (option pointer) := fun m =>
  match malloc n with
  | Some d => (Ok (Some (length m, 0)), m ++ [Some d])
  | None => (Ok None, m)
  end.

Definition mem_free (p : option pointer) : M Mem unit := fun m =>
  match p with
  | None => (Ok (), m)
  | Some (b, o) =>
      match m !! b with
      | Some (Some _) => if o =? 0 then (Ok (), <[b := None]> m) else (UB, m)
      | _ => (UB, m)
      end
  end.

(** [std::realloc] of a block that exists; the block may move, and the old
    pointer is no longer valid. *)
Definition mem_realloc `{Allocator} (p : pointer) (n : Z) : M Mem (option pointer) := fun m =>
  match m !! p.1 with
  | Some (Some d) =>
      if p.2 =? 0 then
        match std_realloc d n with
        | Some d' => (Ok (Some (length m, 0)), <[p.1 := None]> m ++ [Some d'])
        | None => (Ok None, m)
        end
      else (UB, m)
  | _ => (UB, m)
  end.

Definition mem_load (p : pointer) (n : Z) : M Mem (list Z) := fun m =>
  match m !! p.1 with
  | Some (Some d) => (memread d p.2 n, m)
  | _ => (UB, m)
  end.

Definition mem_store (p : pointer) (x : list Z) : M Mem unit := fun m =>
  match m !! p.1 with
  | Some (Some d) =>
      match memwrite d p.2 x with
      | Ok d' => (Ok (), <[p.1 := Some d']> m)
      | _ => (UB, m)
      end
  | _ => (UB, m)
  end.

(** ** The object *)

Inductive BufferAddressing : Set := CONTIGUOUS | DISCRETE.

#[global] Instance addressing_eq_dec : EqDecision BufferAddressing.
Proof. solve_decision. Defined.

Record t : Type := mk {
  buffer_addressing_ : BufferAddressing;
  buffers_ : list (option pointer);
  chunk_size_ : Z;
  last_chunk_size_ : Z;
  var_chunk_sizes_ : list Z;
  capacity_ : Z;
  size_ : Z
}.

Definition empty : t := mk DISCRETE [] 0 0 [] 0 0.

Definition with_buffers (c : t) (l : list (option pointer)) : t :=
  mk (buffer_addressing_ c) l (chunk_size_ c) (last_chunk_size_ c) (var_chunk_sizes_ c)
     (capacity_ c) (size_ c).
Definition with_last_chunk_size (c : t) (n : Z) : t :=
  mk (buffer_addressing_ c) (buffers_ c) (chunk_size_ c) n (var_chunk_sizes_ c) (capacity_ c) (size_ c).
Definition with_capacity (c : t) (n : Z) : t :=
  mk (buffer_addressing_ c) (buffers_ c) (chunk_size_ c) (last_chunk_size_ c) (var_chunk_sizes_ c)
     n (size_ c).
Definition with_size (c : t) (n : Z) : t :=
  mk (buffer_addressing_ c) (buffers_ c) (chunk_size_ c) (last_chunk_size_ c) (var_chunk_sizes_ c)
     (capacity_ c) n.

Abbreviation CB := (M (Mem * t)).

Definition this : CB t := on_snd get.
Definition set (c : t) : CB unit := on_snd (put c).
Definition error {A} (e : string) : res A := Err SC_ChunkedBuffer e.

(** [std::vector::resize]. *)
Definition resize (n : nat) (l : list (option pointer)) : list (option pointer) :=
  take n l ++ replicate (n - length l) None.

Definition nchunks (c : t) : Z := zlen (buffers_ c).

Definition fixed_chunk_sizes (c : t) : bool :=
  match var_chunk_sizes_ c with [] => true | _ => false end.

Definition get_chunk_capacity (c : t) (chunk_idx : nat) : res Z :=
  massert (bool_decide (chunk_idx < length (buffers_ c))%nat);;
  if fixed_chunk_sizes c then
    Ok (if Nat.eqb chunk_idx (length (buffers_ c) - 1) then last_chunk_size_ c else chunk_size_ c)
  else match var_chunk_sizes_ c !! chunk_idx with Some n => Ok n | None => UB end.

(** The loop of [get_chunk_size]. *)
Fixpoint leading_capacity (c : t) (n i : nat) (acc : Z) : res Z :=
  match n with
  | O => Ok acc
  | S n => k ← get_chunk_capacity c i; leading_capacity c n (S i) (u64 (acc + k))
  end.

Definition get_chunk_size (c : t) (chunk_idx : nat) : res Z :=
  massert (bool_decide (chunk_idx < length (buffers_ c))%nat);;
  leading ← leading_capacity c chunk_idx 0 0;
  chunk_capacity ← get_chunk_capacity c chunk_idx;
  if size_ c <=? leading then Ok 0
  else if u64 (leading + chunk_capacity) <=? size_ c then Ok chunk_capacity
  else Ok (conv U32 (size_ c - leading)).

(** The search of [translate_logical_offset] among chunks of different sizes:
    [i] is the sum of the sizes before [chunk_idx]. *)
Fixpoint search_chunk (nbuffers : nat) (sizes : list Z) (logical_offset i : Z) (chunk_idx : nat) :
    res (nat * Z) :=
  if (nbuffers <=? chunk_idx)%nat then error "Out of bounds logical offset"
  else
    match sizes with
    | [] => UB
    | s :: sizes =>
        let i' := u64 (i + s) in
        if i' <=? logical_offset then search_chunk nbuffers sizes logical_offset i' (S chunk_idx)
        else Ok (chunk_idx, u64 (logical_offset - u64 (i' - s)))
    end.

Definition translate_logical_offset (c : t) (logical_offset : Z) : res (nat * Z) :=
  if logical_offset =? 0 then Ok (0%nat, 0)
  else if fixed_chunk_sizes c then
    if chunk_size_ c =? 0 then UB
    else Ok (Z.to_nat (logical_offset / chunk_size_ c), logical_offset mod chunk_size_ c)
  else search_chunk (length (buffers_ c)) (var_chunk_sizes_ c) logical_offset 0 0.

Definition internal_buffer (c : t) (chunk_idx : nat) : res (option pointer) :=
  match buffers_ c !! chunk_idx with
  | Some p => Ok p
  | None => error "Cannot get internal chunk buffer; Chunk index out of bounds"
  end.

Definition internal_buffer_capacity (c : t) (chunk_idx : nat) : res Z :=
  if (length (buffers_ c) <=? chunk_idx)%nat then
    error "Cannot get internal chunk buffer capacity; Chunk index out of bounds"
  else get_chunk_capacity c chunk_idx.

Definition internal_buffer_size (c : t) (chunk_idx : nat) : res Z :=
  if (length (buffers_ c) <=? chunk_idx)%nat then
    error "Cannot get internal chunk buffer size; Chunk index out of bounds"
  else get_chunk_size c chunk_idx.

Definition get_contiguous (c : t) : res (option pointer) :=
  if decide (buffer_addressing_ c = CONTIGUOUS) then internal_buffer c 0
  else error "Cannot get contiguous internal chunk buffer; Chunk buffers are not contigiouly allocated".

Definition get_contiguous_unsafe (c : t) : res (option pointer) :=
  match buffers_ c !! 0%nat with Some p => Ok p | None => UB end.

Definition plus (p : option pointer) (n : Z) : res pointer :=
  match p with Some (b, o) => Ok (b, o + n) | None => UB end.

Definition internal_buffer_from_offset (c : t) (offset : Z) : res pointer :=
  if size_ c <=? offset then error "Cannot get internal chunk buffer; Offset out of bounds"
  else if decide (buffer_addressing_ c = CONTIGUOUS) then
    p ← get_contiguous c; plus p offset
  else
    r ← translate_logical_offset c offset;
    p ← internal_buffer c r.1;
    plus p r.2.

(** ** Initialisation *)

Definition set_size (size : Z) : M t unit := fun c =>
  if capacity_ c <? size then (error "Cannot set size; size exceeds capacity", c)
  else (Ok (), with_size c size).

Definition clear : M t unit := put empty.

(** The number of chunks of [chunk_size] bytes, the last one of
    [last_chunk_size], that hold [n] bytes. *)
Definition chunks_for (n chunk_size last_chunk_size : Z) : nat :=
  Z.to_nat (if last_chunk_size =? chunk_size then n / chunk_size else n / chunk_size + 1).

Definition fixed_capacity (c : t) : Z :=
  u64 (chunk_size_ c * u64 (zlen (buffers_ c) - 1) + last_chunk_size_ c).

Definition init_fixed_size (buffer_addressing : BufferAddressing) (total_size chunk_size : Z) :
    M t unit := fun c =>
  match buffers_ c with
  | _ :: _ => (error "Cannot init chunk buffers; Chunk buffers non-empty.", c)
  | [] =>
      if total_size =? 0 then (error "Cannot init chunk buffers; Total size must be non-zero.", c)
      else if chunk_size =? 0 then (error "Cannot init chunk buffers; Chunk size must be non-zero.", c)
      else
        let last := if total_size mod chunk_size =? 0 then chunk_size else total_size mod chunk_size in
        let n := chunks_for total_size chunk_size last in
        let c := mk buffer_addressing (replicate n None) chunk_size last (var_chunk_sizes_ c)
                    (capacity_ c) (size_ c) in
        (Ok (), with_capacity c (fixed_capacity c))
  end.

(** The capacity of chunks of different sizes; [None] when one is empty. *)
Fixpoint var_capacity (sizes : list Z) (acc : Z) : option Z :=
  match sizes with
  | [] => Some acc
  | s :: sizes => if s =? 0 then None else var_capacity sizes (u64 (acc + s))
  end.

Definition init_var_size (buffer_addressing : BufferAddressing) (var_chunk_sizes : list Z) :
    M t unit := fun c =>
  match buffers_ c, var_chunk_sizes with
  | _ :: _, _ => (error "Cannot init chunk buffers; Chunk buffers non-empty.", c)
  | [], [] => (error "Cannot init chunk buffers; Var chunk sizes must be non-empty.", c)
  | [], _ =>
      match var_capacity var_chunk_sizes 0 with
      | None => (error "Cannot init chunk buffers; Var chunk size must be non-empty.", empty)
      | Some n => (Ok (), mk buffer_addressing (replicate (length var_chunk_sizes) None) (chunk_size_ c)
                             (last_chunk_size_ c) var_chunk_sizes n (size_ c))
      end
  end.

(** ** Allocation *)

Definition alloc_discrete `{Allocator} (chunk_idx : nat) : CB (option pointer) :=
  c ← this;
  if decide (buffer_addressing_ c = DISCRETE) then
    if (length (buffers_ c) <=? chunk_idx)%nat then
      lift (error "Cannot alloc internal chunk buffer; Chunk index out of bounds")
    else
      n ← lift (get_chunk_capacity c chunk_idx);
      p ← on_fst (mem_malloc n);
      set (with_buffers c (<[chunk_idx := p]> (buffers_ c)));;
      match p with
      | Some _ => mret p
      | None => lift (error "Cannot alloc internal chunk buffer; malloc failed")
      end
  else lift (error "Cannot alloc discrete internal chunk buffer; Chunk buffers are not discretely allocated").

Definition free_discrete (chunk_idx : nat) : CB unit :=
  c ← this;
  if decide (buffer_addressing_ c = DISCRETE) then
    match buffers_ c !! chunk_idx with
    | Some p => on_fst (mem_free p)
    | None => lift (error "Cannot free internal chunk buffer; Chunk index out of bounds")
    end
  else lift (error "Cannot free discrete internal chunk buffer; Chunk buffers are not discretely allocated").

(** The loop of [set_contiguous_internal] over the [n] chunks from [i]. *)
Fixpoint contiguous_pointers (c : t) (p : pointer) (n i : nat) (offset : Z) : res (list (option pointer)) :=
  match n with
  | O => Ok []
  | S n =>
      k ← get_chunk_capacity c i;
      l ← contiguous_pointers c p n (S i) (u64 (offset + k));
      Ok (Some (p.1, p.2 + offset) :: l)
  end.

Definition set_contiguous_internal (p : pointer) : M t unit := fun c =>
  match contiguous_pointers c p (length (buffers_ c)) 0 0 with
  | Ok l => (Ok (), with_buffers c l)
  | _ => (UB, c)
  end.

Definition set_contiguous (p : option pointer) : M t unit := fun c =>
  match p with
  | None => (error "Cannot set contiguous chunk buffers; Input buffer is null.", c)
  | Some p =>
      if decide (buffer_addressing_ c = CONTIGUOUS) then
        match buffers_ c with
        | [] => (error "Cannot set contiguous chunk buffers; Chunk buffers uninitialized.", c)
        | _ :: _ => set_contiguous_internal p c
        end
      else (error "Cannot alloc discrete internal chunk buffer; Chunk buffers are not contiguously allocated.", c)
  end.

Definition free_contiguous : CB unit :=
  c ← this;
  match buffers_ c !! 0%nat with
  | Some (Some p) => on_fst (mem_free (Some p))
  | Some None => lift (error "Cannot free contiguous internal chunk buffer; The internal chunk buffer is unallocated")
  | None => lift UB
  end.

(** The loop of [free] over the chunks from [i]. *)
Fixpoint free_chunks (l : list (option pointer)) (i : nat) : CB unit :=
  match l with
  | [] => mret ()
  | Some _ :: l => free_discrete i;; free_chunks l (S i)
  | None :: l => free_chunks l (S i)
  end.

Definition free : CB unit :=
  c ← this;
  (if decide (buffer_addressing_ c = CONTIGUOUS) then
     match buffers_ c with
     | Some _ :: _ => free_contiguous
     | _ => mret ()
     end
   else free_chunks (buffers_ c) 0);;
  on_snd clear.

(** ** Copies *)

Definition shallow_copy (c : t) : t := c.

Definition swap : M (t * t) unit := fun '(a, b) => (Ok (), (b, a)).

(** [std::malloc] and [std::memcpy] of the first [n] bytes at [p]. *)
Definition copy_block `{Allocator} (p : pointer) (n : Z) : CB pointer :=
  q ← on_fst (mem_malloc n);
  match q with
  | None => lift UB
  | Some q => x ← on_fst (mem_load p n); on_fst (mem_store q x);; mret q
  end.

(** The chunks of [rhs] from [i]. *)
Fixpoint copy_chunks `{Allocator} (rhs : t) (l : list (option pointer)) (i : nat) : CB unit :=
  match l with
  | [] => mret ()
  | None :: l =>
      c ← this;
      set (with_buffers c (buffers_ c ++ [None]));;
      copy_chunks rhs l (S i)
  | Some p :: l =>
      n ← lift (get_chunk_capacity rhs i);
      q ← copy_block p n;
      c ← this;
      set (with_buffers c (<[i := Some q]> (buffers_ c)));;
      copy_chunks rhs l (S i)
  end.

Definition deep_copy `{Allocator} (rhs : t) : CB unit :=
  c ← this;
  set (mk (buffer_addressing_ rhs) (resize (length (buffers_ rhs)) (buffers_ c)) (chunk_size_ rhs)
          (last_chunk_size_ rhs) (var_chunk_sizes_ rhs) (capacity_ rhs) (size_ rhs));;
  if decide (buffer_addressing_ rhs = DISCRETE) then copy_chunks rhs (buffers_ rhs) 0
  else
    match buffers_ rhs with
    | Some p :: _ => q ← copy_block p (capacity_ rhs); on_snd (set_contiguous_internal q)
    | _ => mret ()
    end.

(** ** Reading *)

(** The loop of [read]: the bytes of the chunks from [chunk_idx]. *)
Fixpoint read_chunks (fuel : nat) (c : t) (nbytes : Z) (chunk_idx : nat) (chunk_offset : Z) : M Mem (list Z) :=
  if nbytes =? 0 then mret []
  else
    match fuel, buffers_ c !! chunk_idx with
    | S fuel, Some (Some p) =>
        k ← lift (get_chunk_capacity c chunk_idx);
        let bytes_to_read := Z.min nbytes (u64 (k - chunk_offset)) in
        x ← mem_load (p.1, p.2 + chunk_offset) bytes_to_read;
        y ← read_chunks fuel c (nbytes - bytes_to_read) (S chunk_idx) 0;
        mret (x ++ y)
    | S _, Some None => lift (error "Chunk read error; chunk unallocated")
    | _, _ => lift UB
    end.

(** There are at most as many turns as chunks: past the last chunk the code
    indexes [buffers_] out of bounds. *)
Definition read (nbytes offset : Z) : CB (list Z) :=
  c ← this;
  if size_ c <? u64 (offset + nbytes) then lift (error "Chunk read error; read out of bounds")
  else if decide (buffer_addressing_ c = CONTIGUOUS) then
    p ← lift (get_contiguous c);
    p ← lift (plus p offset);
    on_fst (mem_load p nbytes)
  else
    r ← lift (translate_logical_offset c offset);
    on_fst (read_chunks (length (buffers_ c)) c nbytes r.1 r.2).

(** ** Writing *)

(** The doubling loop of [ensure_capacity]; [None] when [fuel] runs out. *)
Fixpoint grow_size (fuel : nat) (realloc_size requested : Z) : option Z :=
  if realloc_size <? requested then
    match fuel with
    | O => None
    | S fuel => grow_size fuel (u64 (realloc_size * 2)) requested
    end
  else Some realloc_size.

Definition grow_contiguous `{Allocator} (requested_capacity : Z) (n : nat) : CB unit :=
  c ← this;
  buffer ← lift (get_contiguous c);
  realloc_size ← lift (match grow_size 64 (capacity_ c) requested_capacity with Some k => Ok k | None => UB end);
  realloced ← on_fst (match buffer with
                      | Some p => mem_realloc p realloc_size
                      | None => mem_malloc realloc_size
                      end);
  match realloced with
  | None => lift (error "Ensure capacity failed; re/alloc() failed.")
  | Some p =>
      let c := with_buffers c (resize n (buffers_ c)) in
      set (with_capacity c (fixed_capacity c));;
      on_snd (set_contiguous (Some p))
  end.

Definition grow_discrete `{Allocator} (orig_last_chunk_size : Z) (n : nat) : CB unit :=
  c ← this;
  let realloc_size := if Nat.eqb (length (buffers_ c)) n then last_chunk_size_ c else chunk_size_ c in
  if realloc_size =? orig_last_chunk_size then mret ()
  else
    lift (massert (orig_last_chunk_size <? realloc_size));;
    let last_chunk_idx := (length (buffers_ c) - 1)%nat in
    buffer ← lift (internal_buffer c last_chunk_idx);
    match buffer with
    | None => mret ()
    | Some p =>
        realloced ← on_fst (mem_realloc p realloc_size);
        match realloced with
        | None => lift (error "Ensure capacity failed; realloc() failed.")
        | Some q => set (with_buffers c (<[last_chunk_idx := Some q]> (buffers_ c)))
        end
    end.

Definition ensure_capacity `{Allocator} (requested_capacity : Z) : CB unit :=
  c ← this;
  if capacity_ c =? 0 then lift (error "Ensure capacity failed; Chunk buffers uninitialized")
  else if negb (fixed_chunk_sizes c) then lift UB
  else if chunk_size_ c =? 0 then lift UB
  else
    let orig_last_chunk_size := last_chunk_size_ c in
    let m := requested_capacity mod chunk_size_ c in
    let last := if m =? 0 then chunk_size_ c else m in
    set (with_last_chunk_size c last);;
    let n := chunks_for requested_capacity (chunk_size_ c) last in
    lift (massert (length (buffers_ c) <=? n)%nat);;
    (if decide (buffer_addressing_ c = CONTIGUOUS) then grow_contiguous requested_capacity n
     else grow_discrete orig_last_chunk_size n);;
    c ← this;
    let c := with_buffers c (resize n (buffers_ c)) in
    set (with_capacity c (fixed_capacity c)).

(** [size_] after a write up to [n]. *)
Definition raise_size (n : Z) : CB unit :=
  c ← this; if size_ c <? n then set (with_size c n) else mret ().

(** The chunk to write to, allocated when it is not yet. *)
Definition chunk_buffer `{Allocator} (chunk_idx : nat) : CB pointer :=
  c ← this;
  match buffers_ c !! chunk_idx with
  | None => lift UB
  | Some (Some p) => mret p
  | Some None =>
      if decide (buffer_addressing_ c = CONTIGUOUS) then
        q ← on_fst (mem_malloc (capacity_ c));
        match q with
        | None => lift (error "Chunk write error; malloc() failed")
        | Some q =>
            on_snd (set_contiguous (Some q));;
            c ← this;
            p ← lift (get_contiguous c);
            lift (plus p 0)
        end
      else
        p ← alloc_discrete chunk_idx;
        c ← this;
        set (with_buffers c (<[chunk_idx := p]> (buffers_ c)));;
        lift (plus p 0)
  end.

(** The body of the loop of [write]: [offset] is where the rest [x] of the
    bytes goes; the number of bytes written. *)
Definition write_chunk `{Allocator} (x : list Z) (offset : Z) (chunk_idx : nat) (chunk_offset : Z) : CB Z :=
  p ← chunk_buffer chunk_idx;
  c ← this;
  k ← lift (get_chunk_capacity c chunk_idx);
  let bytes_to_write := Z.min (zlen x) (u64 (k - chunk_offset)) in
  on_fst (mem_store (p.1, p.2 + chunk_offset) (slice 0 bytes_to_write x));;
  raise_size (u64 (offset + bytes_to_write));;
  mret bytes_to_write.

Fixpoint write_chunks `{Allocator} (fuel : nat) (x : list Z) (offset : Z) (chunk_idx : nat) (chunk_offset : Z) :
    CB unit :=
  if zlen x =? 0 then mret ()
  else
    match fuel with
    | O => lift UB
    | S fuel =>
        n ← write_chunk x offset chunk_idx chunk_offset;
        write_chunks fuel (slice n (zlen x - n) x) (u64 (offset + n)) (S chunk_idx) 0
    end.

Definition write `{Allocator} (x : list Z) (offset : Z) : CB unit :=
  c ← this;
  let requested_capacity := u64 (offset + zlen x) in
  (if capacity_ c <? requested_capacity then ensure_capacity requested_capacity else mret ());;
  c ← this;
  lift (massert (requested_capacity <=? capacity_ c));;
  if decide (buffer_addressing_ c = CONTIGUOUS) then
    p ← lift (get_contiguous_unsafe c);
    p ← (match p with
         | Some p => mret p
         | None =>
             q ← on_fst (mem_malloc (capacity_ c));
             match q with
             | None => lift (error "Chunk write error; malloc() failed")
             | Some q => on_snd (set_contiguous_internal q);; mret q
             end
         end);
    on_fst (mem_store (p.1, p.2 + offset) x);;
    raise_size requested_capacity
  else
    r ← lift (translate_logical_offset c offset);
    write_chunks (length (buffers_ c)) x offset r.1 r.2.
