(* ===== verification/ChunkedProofs.v ===== *)
(** * ChunkedBuffer: the chunks behave as one array of bytes

    [byte m c q] is the byte at logical offset [q], when its chunk is
    allocated.  Reads return these bytes, and writes change the bytes they
    cover and no others, whatever the chunk sizes, the addressing and the
    chunks that must be allocated or moved on the way. *)

From S2P Require Import Prelude.
From S2P Require Import Buffer.
From S2P Require Import ChunkedBuffer.
Local Open Scope Z_scope.

(** ** Capacities *)

Definition sum (ks : list Z) : Z := foldr Z.add 0 ks.
#[global] Arguments sum : simpl never.

Lemma sum_app ks ls : sum (ks ++ ls) = sum ks + sum ls.
Proof. unfold sum. induction ks as [|k ks IH]; simpl; lia. Qed.

Lemma sum_replicate n k : sum (replicate n k) = Z.of_nat n * k.
Proof. induction n as [|n IH]; [done|]. simpl replicate. unfold sum in *. simpl foldr. lia. Qed.

Lemma sum_nonneg ks : Forall (Z.lt 0) ks → 0 ≤ sum ks.
Proof. induction 1; unfold sum in *; simpl; lia. Qed.

(** The capacity of every chunk. *)
Definition caps (c : t) : list Z :=
  if fixed_chunk_sizes c then
    match length (buffers_ c) with O => [] | S n => replicate n (chunk_size_ c) ++ [last_chunk_size_ c] end
  else var_chunk_sizes_ c.

(** The chunk of a logical offset, and the offset in it. *)
Fixpoint locate (ks : list Z) (q : Z) : option (nat * Z) :=
  match ks with
  | [] => None
  | k :: ks => if q <? k then Some (O, q) else prod_map S id <$> locate ks (q - k)
  end.

Definition lead (ks : list Z) (i : nat) : Z := sum (take i ks).

Lemma lead_S ks i k : ks !! i = Some k → lead ks (S i) = lead ks i + k.
Proof. intros H. unfold lead. rewrite (take_S_r _ _ _ H), sum_app. unfold sum at 2. simpl. lia. Qed.

Lemma locate_intro ks : ∀ i k o, Forall (Z.lt 0) ks → ks !! i = Some k → 0 ≤ o < k → locate ks (lead ks i + o) = Some (i, o).
Proof.
  induction ks as [|k' ks IH]; intros i k o Hk Hi Ho; [done|]. apply Forall_cons in Hk as [Hk' Hk].
  destruct i as [|i].
  - injection Hi as ->. change (locate (k :: ks) o = Some (0%nat, o)). simpl.
    destruct (Z.ltb_spec o k); [done|lia].
  - simpl in Hi. assert (lead (k' :: ks) (S i) = k' + lead ks i) as -> by done.
    pose proof (sum_nonneg (take i ks) (Forall_take _ _ _ Hk)). fold (lead ks i) in *.
    simpl locate. destruct (Z.ltb_spec (k' + lead ks i + o) k'); [lia|].
    replace (k' + lead ks i + o - k') with (lead ks i + o) by lia. by rewrite (IH i k o).
Qed.

Lemma locate_elim ks q : Forall (Z.lt 0) ks → 0 ≤ q < sum ks →
  ∃ i k o, ks !! i = Some k ∧ 0 ≤ o < k ∧ q = lead ks i + o.
Proof.
  intros Hk. revert q. induction Hk as [|k ks Hk _ IH]; intros q Hq; [unfold sum in Hq; simpl in Hq; lia|].
  change (sum (k :: ks)) with (k + sum ks) in Hq. destruct (decide (q < k)).
  - exists 0%nat, k, q. unfold lead, sum. simpl. split_and!; done || lia.
  - destruct (IH (q - k)) as (i & k' & o & H1 & H2 & H3); [lia|].
    exists (S i), k', o. split_and!; try done; try lia. unfold lead in *. simpl take.
    change (sum (k :: take i ks)) with (k + sum (take i ks)). lia.
Qed.

Lemma lead_bound ks i k : Forall (Z.lt 0) ks → ks !! i = Some k → 0 ≤ lead ks i ∧ 0 < k ∧ lead ks i + k ≤ sum ks.
Proof.
  intros Hk Hi. split; [by apply sum_nonneg, Forall_take|]. split; [by eapply (Forall_lookup_1 _ _ _ _ Hk)|].
  rewrite <- (lead_S _ _ _ Hi). unfold lead. rewrite <- (take_drop (S i) ks) at 2. rewrite sum_app.
  pose proof (sum_nonneg _ (Forall_drop _ (S i) _ Hk)). lia.
Qed.

(** ** The shape of an object *)

Record shape (c : t) : Prop := {
  shape_caps : Forall (Z.lt 0) (caps c);
  shape_u32 : Forall (λ k, k < 2 ^ 32) (caps c);
  shape_len : length (caps c) = length (buffers_ c);
  shape_fixed : fixed_chunk_sizes c = true → buffers_ c ≠ [] → last_chunk_size_ c ≤ chunk_size_ c < 2 ^ 32;
  shape_capacity : capacity_ c = sum (caps c);
  shape_small : capacity_ c < 2 ^ 63;
  shape_size : 0 ≤ size_ c ≤ capacity_ c
}.

Lemma get_chunk_capacity_spec c i k : shape c → caps c !! i = Some k → get_chunk_capacity c i = Ok k.
Proof.
  intros Hs Hi. pose proof (lookup_lt_Some _ _ _ Hi) as Hlt. rewrite (shape_len c Hs) in Hlt.
  unfold get_chunk_capacity. rewrite bool_decide_eq_true_2 by done. cbn [mbind res_bind massert].
  unfold caps in Hi. destruct (fixed_chunk_sizes c); [|by rewrite Hi].
  destruct (length (buffers_ c)) as [|n]; [lia|]. rewrite Nat.sub_succ, Nat.sub_0_r.
  destruct (Nat.eqb_spec i n) as [->|].
  - rewrite lookup_app_r in Hi by (by rewrite length_replicate). rewrite length_replicate, Nat.sub_diag in Hi. by injection Hi as ->.
  - rewrite lookup_app_l in Hi by (rewrite length_replicate; lia). by apply lookup_replicate in Hi as [-> _].
Qed.

Lemma lead_fixed c i : shape c → fixed_chunk_sizes c = true → (i < length (buffers_ c))%nat →
  lead (caps c) i = Z.of_nat i * chunk_size_ c.
Proof.
  intros Hs Hf Hi. unfold lead, caps. rewrite Hf. destruct (length (buffers_ c)) as [|n]; [lia|].
  rewrite take_app_le by (rewrite length_replicate; lia). rewrite take_replicate, sum_replicate. f_equal. lia.
Qed.

Lemma cap_fixed c i k : fixed_chunk_sizes c = true → caps c !! i = Some k → (S i < length (buffers_ c))%nat → k = chunk_size_ c.
Proof.
  intros Hf Hk Hi. unfold caps in Hk. rewrite Hf in Hk. destruct (length (buffers_ c)) as [|n]; [lia|].
  rewrite lookup_app_l in Hk by (rewrite length_replicate; lia). by apply lookup_replicate in Hk as [-> _].
Qed.

(** The search loop, from the chunk [length ls]. *)
Lemma search_chunk_spec n ks : ∀ i p idx k o, Forall (Z.lt 0) ks → 0 ≤ p → p + sum ks < 2 ^ 63 →
  ks !! i = Some k → 0 ≤ o < k → (idx + length ks = n)%nat →
  search_chunk n ks (p + lead ks i + o) p idx = Ok ((idx + i)%nat, o).
Proof.
  induction ks as [|k' ks IH]; intros i p idx k o Hk Hp Hb Hi Ho Hn; [done|].
  apply Forall_cons in Hk as [Hk' Hk]. change (sum (k' :: ks)) with (k' + sum ks) in Hb.
  pose proof (sum_nonneg ks Hk) as Hs. simpl length in Hn. simpl search_chunk.
  destruct (Nat.leb_spec n idx); [lia|]. rewrite (u64_id (p + k')) by lia.
  destruct i as [|i].
  - injection Hi as ->. unfold lead. simpl take. change (sum []) with 0. destruct (Z.leb_spec (p + k) (p + 0 + o)); [lia|].
    rewrite (u64_id (p + k - k)), u64_id, Nat.add_0_r by lia. do 2 f_equal. lia.
  - simpl in Hi. assert (lead (k' :: ks) (S i) = k' + lead ks i) as -> by done.
    pose proof (lead_bound ks i k Hk Hi). destruct (Z.leb_spec (p + k') (p + (k' + lead ks i) + o)); [|lia].
    replace (p + (k' + lead ks i) + o) with ((p + k') + lead ks i + o) by lia.
    rewrite (IH i (p + k') (S idx) k o) by (done || lia). do 2 f_equal. lia.
Qed.

Lemma translate_spec c i k o : shape c → caps c !! i = Some k → 0 ≤ o < k →
  translate_logical_offset c (lead (caps c) i + o) = Ok (i, o).
Proof.
  intros Hs Hi Ho. pose proof (lead_bound _ _ _ (shape_caps c Hs) Hi) as (Hl & Hk & Hb).
  pose proof (lookup_lt_Some _ _ _ Hi) as Hlt. rewrite (shape_len c Hs) in Hlt. unfold translate_logical_offset.
  destruct (Z.eqb_spec (lead (caps c) i + o) 0) as [Hz|Hz].
  { destruct i as [|i]; [do 2 f_equal; unfold lead, sum in *; simpl in *; lia|]. exfalso.
    destruct (lookup_lt_is_Some_2 (caps c) i) as [k' Hk']; [rewrite (shape_len c Hs); lia|].
    rewrite (lead_S _ _ _ Hk') in Hz. pose proof (lead_bound _ _ _ (shape_caps c Hs) Hk'). lia. }
  destruct (fixed_chunk_sizes c) eqn:Hf.
  - rewrite (lead_fixed c i Hs Hf Hlt).
    assert (0 < chunk_size_ c ∧ o < chunk_size_ c) as [Hc Hoc].
    { destruct (decide (S i < length (buffers_ c))%nat) as [Hl'|Hl'].
      - rewrite <- (cap_fixed c i k Hf Hi Hl'). lia.
      - assert (buffers_ c ≠ []) as Hne by (intros Hnil; rewrite Hnil in Hlt; simpl in Hlt; lia).
        pose proof (shape_fixed c Hs Hf Hne) as Hfix. enough (k = last_chunk_size_ c) by lia.
        unfold caps in Hi. rewrite Hf in Hi. destruct (length (buffers_ c)) as [|n]; [lia|]. assert (i = n) as -> by lia.
        rewrite lookup_app_r, length_replicate, Nat.sub_diag in Hi by (by rewrite length_replicate). by injection Hi as ->. }
    destruct (Z.eqb_spec (chunk_size_ c) 0); [lia|].
    rewrite Z.div_add_l, Z.div_small, Z.add_0_r, Nat2Z.id, Z.add_comm, Z.mod_add, Z.mod_small by lia. done.
  - assert (caps c = var_chunk_sizes_ c) as Hcap by (unfold caps; by rewrite Hf). rewrite Hcap in *.
    rewrite <- (Z.add_0_l (lead _ i)). rewrite (search_chunk_spec _ _ i 0 0 k o); try done.
    + by rewrite <- Hcap; apply shape_caps.
    + rewrite <- Hcap, <- shape_capacity by done. by apply shape_small.
    + rewrite <- Hcap. by apply shape_len.
Qed.

(** ** The bytes *)

(** Where the byte at logical offset [q] is. *)
Definition addr (c : t) (q : Z) : option pointer :=
  if q <? 0 then None
  else
    '(i, o) ← locate (caps c) q;
    match buffers_ c !! i with Some (Some p) => Some (p.1, p.2 + o) | _ => None end.

Definition at_addr (m : Mem) (p : pointer) : option Z :=
  match m !! p.1 with Some (Some d) => d !! Z.to_nat p.2 | _ => None end.

Definition byte (m : Mem) (c : t) (q : Z) : option Z := addr c q ≫= at_addr m.

Definition holds (m : Mem) (c : t) (q : Z) (x : list Z) : Prop := ∀ (j : nat) v,
  x !! j = Some v → byte m c (q + Z.of_nat j) = Some v.

Definition live (m : Mem) (b : nat) (d : list Z) : Prop := m !! b = Some (Some d) ∧ Forall byte_ok d.

(** The memory of the chunks. *)
Definition placed (m : Mem) (c : t) : Prop :=
  match buffer_addressing_ c with
  | CONTIGUOUS =>
      Forall (.= None) (buffers_ c) ∨
      ∃ b d, live m b d ∧ capacity_ c ≤ zlen d ∧
        ∀ i k, caps c !! i = Some k → buffers_ c !! i = Some (Some (b, lead (caps c) i))
  | DISCRETE =>
      (∀ i p k, buffers_ c !! i = Some (Some p) → caps c !! i = Some k →
         p.2 = 0 ∧ ∃ d, live m p.1 d ∧ zlen d = k) ∧
      (∀ i j p p', buffers_ c !! i = Some (Some p) → buffers_ c !! j = Some (Some p') → p.1 = p'.1 → i = j)
  end.

Definition cb_ok (m : Mem) (c : t) : Prop := shape c ∧ placed m c.

Lemma addr_chunk c i k o p : shape c → caps c !! i = Some k → 0 ≤ o < k → buffers_ c !! i = Some (Some p) →
  addr c (lead (caps c) i + o) = Some (p.1, p.2 + o).
Proof.
  intros Hs Hi Ho Hp. pose proof (lead_bound _ _ _ (shape_caps c Hs) Hi). unfold addr.
  destruct (Z.ltb_spec (lead (caps c) i + o) 0); [lia|].
  rewrite (locate_intro _ _ _ _ (shape_caps c Hs) Hi Ho). simpl. by rewrite Hp.
Qed.

Lemma locate_range ks : ∀ q i o, Forall (Z.lt 0) ks → 0 ≤ q → locate ks q = Some (i, o) → 0 ≤ q < sum ks.
Proof.
  induction ks as [|k ks IH]; intros q i o Hk Hq E; [done|]. simpl in E. change (sum (k :: ks)) with (k + sum ks).
  apply Forall_cons in Hk as [Hk Hks]. pose proof (sum_nonneg ks Hks). destruct (Z.ltb_spec q k); [lia|].
  apply fmap_Some in E as ([i' o'] & E & _). pose proof (IH (q - k) i' o' Hks ltac:(lia) E). lia.
Qed.

Lemma addr_inv c q a : shape c → addr c q = Some a → ∃ i k o p, caps c !! i = Some k ∧ 0 ≤ o < k ∧
  buffers_ c !! i = Some (Some p) ∧ q = lead (caps c) i + o ∧ a = (p.1, p.2 + o).
Proof.
  intros Hs. unfold addr. destruct (Z.ltb_spec q 0); [done|]. destruct (locate (caps c) q) as [[i0 o0]|] eqn:E; [|done].
  simpl. destruct (buffers_ c !! i0) as [[p|]|] eqn:Hp; try done. intros [= <-].
  apply locate_range in E as Hr; [|by apply shape_caps|done].
  destruct (locate_elim (caps c) q (shape_caps c Hs) Hr) as (i & k & o & H1 & H2 & ->).
  rewrite (locate_intro _ _ _ _ (shape_caps c Hs) H1 H2) in E. injection E as -> ->. by exists i0, k, o0, p.
Qed.

Lemma addr_range c q a : shape c → addr c q = Some a → 0 ≤ q < capacity_ c.
Proof.
  intros Hs Ha. apply addr_inv in Ha as (i & k & o & p & Hi & Ho & _ & -> & _); [|done].
  pose proof (lead_bound _ _ _ (shape_caps c Hs) Hi). rewrite (shape_capacity c Hs). lia.
Qed.

Lemma addr_inj m c q q' a : cb_ok m c → addr c q = Some a → addr c q' = Some a → q = q'.
Proof.
  intros [Hs Hp] H1 H2.
  apply addr_inv in H1 as (i & k & o & p & Hi & Ho & Hb & -> & ->); [|done].
  apply addr_inv in H2 as (i' & k' & o' & p' & Hi' & Ho' & Hb' & -> & [= Ep Eo]); [|done].
  unfold placed in Hp. destruct (buffer_addressing_ c).
  - destruct Hp as [Hn|(b & d & _ & _ & Hp)].
    + exfalso. by pose proof (Forall_lookup_1 _ _ _ _ Hn Hb).
    + rewrite (Hp i k Hi) in Hb. rewrite (Hp i' k' Hi') in Hb'. injection Hb as <-. injection Hb' as <-. done.
  - destruct Hp as [Hp1 Hp2]. pose proof (Hp2 i i' p p' Hb Hb' Ep) as ->. simplify_eq. lia.
Qed.

Lemma chunk_block m c i k p : cb_ok m c → caps c !! i = Some k → buffers_ c !! i = Some (Some p) →
  ∃ d, live m p.1 d ∧ 0 ≤ p.2 ∧ p.2 + k ≤ zlen d.
Proof.
  intros [Hs Hp] Hi Hb. pose proof (lead_bound _ _ _ (shape_caps c Hs) Hi) as Hl. rewrite <- (shape_capacity c Hs) in Hl.
  unfold placed in Hp. destruct (buffer_addressing_ c).
  - destruct Hp as [Hn|(b & d & Hd & Hc & Hp)].
    + exfalso. by pose proof (Forall_lookup_1 _ _ _ _ Hn Hb).
    + rewrite (Hp i k Hi) in Hb. injection Hb as <-. exists d. simpl. split; [done|lia].
  - destruct Hp as [Hp1 _]. destruct (Hp1 i p k Hb Hi) as (-> & d & Hd & Hk). exists d. split; [done|lia].
Qed.

Lemma lookup_overlay {A} off (x l : list A) (j : nat) : 0 ≤ off → off + zlen x ≤ zlen l →
  overlay off x l !! j = if decide (off ≤ Z.of_nat j < off + zlen x) then x !! Z.to_nat (Z.of_nat j - off) else l !! j.
Proof.
  intros Ho Hl. unfold overlay, zlen in *. case_decide.
  - rewrite lookup_app_r, length_take, lookup_app_l by (rewrite ?length_take; lia). f_equal. lia.
  - destruct (decide (Z.of_nat j < off)).
    + rewrite lookup_app_l by (rewrite length_take; lia). by rewrite lookup_take_lt by lia.
    + rewrite lookup_app_r, length_take by (rewrite length_take; lia).
      rewrite lookup_app_r by lia. rewrite lookup_drop. f_equal. lia.
Qed.

Lemma live_insert m b d d' b' e : live m b d → Forall byte_ok d' → zlen d' = zlen d → live m b' e →
  ∃ e', live (<[b := Some d']> m) b' e' ∧ zlen e' = zlen e.
Proof.
  intros [H1 _] Hd' Hl [H2 He]. destruct (decide (b = b')) as [<-|Hne].
  - rewrite H1 in H2. injection H2 as ->. exists d'. split; [|done]. split; [|done].
    apply list_lookup_insert_eq. by eapply lookup_lt_Some.
  - exists e. split; [|done]. split; [|done]. by rewrite list_lookup_insert_ne.
Qed.

Lemma placed_insert m c b d d' : placed m c → live m b d → Forall byte_ok d' → zlen d' = zlen d →
  placed (<[b := Some d']> m) c.
Proof.
  unfold placed. intros Hp Hb Hd' Hl. destruct (buffer_addressing_ c).
  - destruct Hp as [?|(b0 & e & He & Hc & Hp)]; [by left|]. right.
    destruct (live_insert _ _ _ _ _ _ Hb Hd' Hl He) as (e' & He' & Hle). exists b0, e'. rewrite Hle. done.
  - destruct Hp as [Hp1 Hp2]. split; [|done]. intros i p k Hi Hk.
    destruct (Hp1 i p k Hi Hk) as (? & e & He & Hz). split; [done|].
    destruct (live_insert _ _ _ _ _ _ Hb Hd' Hl He) as (e' & He' & Hle). exists e'. split; [done|lia].
Qed.

(** A store to consecutive bytes. *)
Lemma store_addr m c q b a x d : cb_ok m c → Forall byte_ok x → live m b d → 0 ≤ a → a + zlen x ≤ zlen d →
  (∀ j, 0 ≤ j < zlen x → addr c (q + j) = Some (b, a + j)) →
  ∃ m', mem_store (b, a) x m = (Ok (), m') ∧ cb_ok m' c ∧ holds m' c q x ∧
    ∀ r v, ¬ (q ≤ r < q + zlen x) → byte m c r = Some v → byte m' c r = Some v.
Proof.
  intros Hok Hx Hd Ha Hl Haddr. pose proof Hd as [Hb Hby].
  assert (Forall byte_ok (overlay a x d)) as Hby'.
  { unfold overlay. rewrite !Forall_app. split_and!; [by apply Forall_take|done|by apply Forall_drop]. }
  exists (<[b := Some (overlay a x d)]> m). split_and!.
  - unfold mem_store. simpl. rewrite Hb, memwrite_ok by done. done.
  - destruct Hok as [Hs Hp]. split; [done|]. eapply placed_insert; [exact Hp|exact Hd|done|by apply zlen_overlay].
  - intros j v Hj. pose proof (lookup_lt_Some _ _ _ Hj). unfold byte. rewrite Haddr by (unfold zlen; lia). simpl.
    unfold at_addr. simpl. rewrite list_lookup_insert_eq by (by eapply lookup_lt_Some).
    rewrite lookup_overlay by done. rewrite decide_True by (unfold zlen; lia). rewrite <- Hj. f_equal. lia.
  - intros r v Hr Hv. unfold byte in *. destruct (addr c r) as [[b' a']|] eqn:Er; [|done]. simpl in *.
    unfold at_addr in *. simpl in *. destruct (decide (b = b')) as [<-|Hne]; [|by rewrite list_lookup_insert_ne].
    rewrite list_lookup_insert_eq by (by eapply lookup_lt_Some). rewrite Hb in Hv.
    pose proof Hok as [Hs _]. pose proof Er as (i & k & o & p & Hi & Ho & Hbi & _ & [= -> ->])%addr_inv; [|done].
    destruct (chunk_block m c i k p Hok Hi Hbi) as (e & _ & Hp2 & _).
    rewrite lookup_overlay by done. case_decide as Hin; [|done]. exfalso. apply Hr.
    assert (r = q + (p.2 + o - a)) as ->; [|lia].
    eapply addr_inj; [exact Hok|exact Er|]. rewrite Haddr by lia. do 2 f_equal. lia.
Qed.

(** ** Reading *)

Lemma split_slice {A} n (x : list A) : 0 ≤ n ≤ zlen x →
  x = slice 0 n x ++ slice n (zlen x - n) x ∧ zlen (slice 0 n x) = n ∧ zlen (slice n (zlen x - n) x) = zlen x - n.
Proof.
  intros Hn. split_and!; [|apply zlen_slice; lia..]. unfold slice. rewrite drop_0.
  rewrite (take_ge (drop _ _)) by (rewrite length_drop; unfold zlen; lia). by rewrite take_drop.
Qed.

Lemma load_addr m c q b a x d : live m b d → 0 ≤ a → a + zlen x ≤ zlen d →
  (∀ j, 0 ≤ j < zlen x → addr c (q + j) = Some (b, a + j)) → holds m c q x →
  mem_load (b, a) (zlen x) m = (Ok x, m).
Proof.
  intros [Hb _] Ha Hl Haddr Hx. unfold mem_load. simpl. rewrite Hb. pose proof (zlen_nonneg x).
  rewrite memread_ok by lia. do 2 f_equal. apply list_eq. intros j. unfold slice.
  destruct (x !! j) as [v|] eqn:Hj.
  - pose proof (lookup_lt_Some _ _ _ Hj). rewrite lookup_take_lt, lookup_drop by (unfold zlen; lia).
    specialize (Hx j v Hj). unfold byte in Hx. rewrite Haddr in Hx by (unfold zlen; lia). simpl in Hx.
    unfold at_addr in Hx. simpl in Hx. rewrite Hb in Hx. rewrite <- Hx. f_equal. lia.
  - apply lookup_ge_None in Hj. apply lookup_take_ge. unfold zlen. lia.
Qed.

Lemma chunk_addr m c i k p o n : cb_ok m c → caps c !! i = Some k → buffers_ c !! i = Some (Some p) → 0 ≤ o → o + n ≤ k →
  ∀ j, 0 ≤ j < n → addr c (lead (caps c) i + o + j) = Some (p.1, p.2 + o + j).
Proof.
  intros [Hs _] Hi Hp Ho Hn j Hj. rewrite <- !Z.add_assoc. apply (addr_chunk c i k); try done. lia.
Qed.

Lemma holds_app m c q x y : holds m c q (x ++ y) ↔ holds m c q x ∧ holds m c (q + zlen x) y.
Proof.
  unfold holds. split.
  - intros H. split; intros j v Hj.
    + apply H. by apply lookup_app_l_Some.
    + replace (q + zlen x + Z.of_nat j) with (q + Z.of_nat (length x + j)) by (unfold zlen; lia).
      apply H. rewrite lookup_app_r by lia. rewrite <- Hj. f_equal. lia.
  - intros [H1 H2] j v Hj. apply lookup_app_Some in Hj as [Hj|[Hl Hj]]; [by apply H1|].
    specialize (H2 _ v Hj). rewrite <- H2. f_equal. unfold zlen. lia.
Qed.

Lemma holds_first m c q x : shape c → holds m c q x → x ≠ [] → 0 ≤ q < capacity_ c.
Proof.
  intros Hs H Hx. destruct x as [|v x]; [done|]. specialize (H 0%nat v eq_refl). unfold byte in H.
  rewrite Z.add_0_r in H. destruct (addr c q) as [a|] eqn:Ha; [|done]. by eapply addr_range.
Qed.

(** The chunk after chunk [i]. *)
Lemma next_chunk ks i : lead ks (S i) < sum ks → ∃ k, ks !! S i = Some k.
Proof.
  intros H. apply lookup_lt_is_Some_2. destruct (decide (S i < length ks)%nat); [done|].
  unfold lead in H. rewrite take_ge in H by lia. lia.
Qed.

Lemma lead_0 ks : lead ks 0 = 0.
Proof. done. Qed.

Lemma holds_chunk m c i k o x : shape c → caps c !! i = Some k → 0 ≤ o < k → x ≠ [] →
  holds m c (lead (caps c) i + o) x → ∃ p, buffers_ c !! i = Some (Some p).
Proof.
  intros Hs Hi Ho Hx H. destruct x as [|v x]; [done|]. specialize (H 0%nat v eq_refl). unfold byte, addr in H.
  pose proof (lead_bound _ _ _ (shape_caps c Hs) Hi). rewrite Z.add_0_r in H.
  destruct (Z.ltb_spec (lead (caps c) i + o) 0); [lia|]. rewrite (locate_intro _ _ _ _ (shape_caps c Hs) Hi Ho) in H.
  simpl in H. destruct (buffers_ c !! i) as [[p|]|]; [eauto|done..].
Qed.

Lemma read_chunks_spec m c : cb_ok m c → ∀ fuel x i k o, caps c !! i = Some k → 0 ≤ o < k →
  holds m c (lead (caps c) i + o) x → (length (buffers_ c) ≤ i + fuel)%nat →
  read_chunks fuel c (zlen x) i o m = (Ok x, m).
Proof.
  intros Hok. pose proof Hok as [Hs _]. induction fuel as [|fuel IH]; intros x i k o Hi Ho Hx Hf.
  { pose proof (lookup_lt_Some _ _ _ Hi). rewrite (shape_len c Hs) in *. lia. }
  pose proof (lead_bound _ _ _ (shape_caps c Hs) Hi) as Hlb. rewrite <- (shape_capacity c Hs) in Hlb.
  pose proof (shape_small c Hs). simpl. destruct (Z.eqb_spec (zlen x) 0) as [Hz|Hz].
  { by destruct x; [|unfold zlen in Hz; simpl in Hz; lia]. }
  assert (x ≠ []) as Hne by (by intros ->). destruct (holds_chunk m c i k o x) as [p Hp]; try done. rewrite Hp.
  rewrite (get_chunk_capacity_spec c i k Hs Hi). unfold mbind, M_bind, lift at 1.
  rewrite (u64_id (k - o)) by lia. set (n := Z.min (zlen x) (k - o)).
  pose proof (zlen_nonneg x) as Hxn. set (x1 := slice 0 n x). set (x2 := slice n (zlen x - n) x).
  destruct (split_slice n x) as (Ex & Hx1 & Hx2); [lia|]. fold x1 x2 in Ex, Hx1, Hx2.
  rewrite Ex in Hx. apply holds_app in Hx as [Hh1 Hh2].
  destruct (chunk_block m c i k p Hok Hi Hp) as (d & Hd & Hp2 & Hpd).
  rewrite <- Hx1 at 1. rewrite (load_addr m c (lead (caps c) i + o) _ _ x1 d); try done; try lia.
  2:{ apply (chunk_addr m c i k p o (zlen x1)); try done; lia. }
  rewrite <- Hx2.
  assert (read_chunks fuel c (zlen x2) (S i) 0 m = (Ok x2, m)) as ->; [|by rewrite <- Ex].
  destruct (decide (x2 = [])) as [->|Hne2]; [by destruct fuel|].
  assert (n = k - o) as Hn.
  { apply zlen_pos in Hne2. lia. }
  assert (lead (caps c) i + o + zlen x1 = lead (caps c) (S i) + 0) as Eq by (rewrite (lead_S _ _ _ Hi); lia).
  rewrite Eq in Hh2. pose proof (holds_first _ _ _ _ Hs Hh2 Hne2) as Hr. rewrite (shape_capacity c Hs) in Hr.
  destruct (next_chunk (caps c) i) as [k' Hk']; [lia|].
  apply (IH x2 (S i) k' 0); try done; [|lia]. pose proof (lead_bound _ _ _ (shape_caps c Hs) Hk'). lia.
Qed.

Lemma contiguous_block m c q v : cb_ok m c → buffer_addressing_ c = CONTIGUOUS → byte m c q = Some v →
  ∃ b d, live m b d ∧ capacity_ c ≤ zlen d ∧ buffers_ c !! 0%nat = Some (Some (b, 0)) ∧
    ∀ r, 0 ≤ r < capacity_ c → addr c r = Some (b, r).
Proof.
  intros [Hs Hp] Hc Hv. unfold placed in Hp. rewrite Hc in Hp.
  unfold byte in Hv. destruct (addr c q) as [a|] eqn:Ea; [|done].
  pose proof Ea as (i & k & o & p & Hi & Ho & Hb & -> & ->)%addr_inv; [|done].
  destruct Hp as [Hn|(b & d & Hd & Hcap & Hp)]; [by pose proof (Forall_lookup_1 _ _ _ _ Hn Hb)|].
  exists b, d. split_and!; try done.
  - destruct (lookup_lt_is_Some_2 (caps c) 0) as [k0 Hk0]; [apply lookup_lt_Some in Hi; lia|]. by rewrite (Hp 0%nat k0 Hk0).
  - intros r Hr. rewrite (shape_capacity c Hs) in Hr.
    destruct (locate_elim (caps c) r (shape_caps c Hs) Hr) as (i' & k' & o' & H1 & H2 & ->).
    by rewrite (addr_chunk c i' k' o' _ Hs H1 H2 (Hp i' k' H1)).
Qed.

Lemma read_bytes m c q x : cb_ok m c → x ≠ [] → holds m c q x → q + zlen x ≤ size_ c →
  read (zlen x) q (m, c) = (Ok x, (m, c)).
Proof.
  intros Hok Hne Hx Hsz. pose proof Hok as [Hs _]. pose proof (holds_first _ _ _ _ Hs Hx Hne) as Hq.
  pose proof (shape_size c Hs). pose proof (shape_small c Hs). pose proof (zlen_nonneg x).
  unfold read, mbind, M_bind, this, on_snd, get. rewrite u64_id by lia.
  destruct (Z.ltb_spec (size_ c) (q + zlen x)); [lia|]. case_decide as Hc.
  - destruct x as [|v x]; [done|]. destruct (contiguous_block m c q v Hok Hc) as (b & d & Hd & Hcap & Hb0 & Ha).
    { rewrite <- (Z.add_0_r q). by apply (Hx 0%nat). }
    unfold get_contiguous, internal_buffer. rewrite decide_True by done. rewrite Hb0. unfold lift, plus, on_fst. cbv beta iota. change (0 + q) with q.
    rewrite (load_addr m c q b q (v :: x) d); try done; try lia. intros j Hj. apply Ha. lia.
  - rewrite (shape_capacity c Hs) in Hq. destruct (locate_elim (caps c) q (shape_caps c Hs) Hq) as (i & k & o & Hi & Ho & ->).
    rewrite (translate_spec c i k o Hs Hi Ho). unfold lift. simpl fst. simpl snd. unfold on_fst.
    rewrite (read_chunks_spec m c Hok (length (buffers_ c)) x i k o); try done. lia.
Qed.

(** ** Writing inside the capacity *)

(** What a write stable: the sizes of the chunks, and every byte that is not
    among the [n] bytes from [q]. *)
Record stable (q n : Z) (m : Mem) (c : t) (m' : Mem) (c' : t) : Prop := {
  stable_mode : buffer_addressing_ c' = buffer_addressing_ c;
  stable_caps : caps c' = caps c;
  stable_capacity : capacity_ c' = capacity_ c;
  stable_len : length (buffers_ c') = length (buffers_ c);
  stable_bytes : ∀ r v, ¬ (q ≤ r < q + n) → byte m c r = Some v → byte m' c' r = Some v
}.

Lemma stable_trans q n q1 n1 q2 n2 m c m1 c1 m2 c2 : stable q1 n1 m c m1 c1 → stable q2 n2 m1 c1 m2 c2 →
  (q ≤ q1 ∧ q1 + n1 ≤ q + n ∨ n1 = 0) → (q ≤ q2 ∧ q2 + n2 ≤ q + n ∨ n2 = 0) → stable q n m c m2 c2.
Proof.
  intros [A1 A2 A3 A4 A5] [B1 B2 B3 B4 B5] H1 H2. split; try congruence.
  intros r v Hr Hv. apply B5; [lia|]. apply A5; [lia|done].
Qed.

Section Alloc.
Context `{HA : !Allocator}.
Hypothesis Hmem : ¬ out_of_memory.

Lemma mem_malloc_spec n m : 0 ≤ n → ∃ d, mem_malloc n m = (Ok (Some (length m, 0)), m ++ [Some d]) ∧
  zlen d = n ∧ Forall byte_ok d.
Proof.
  intros Hn. unfold mem_malloc. destruct (malloc n) as [d|] eqn:E; [|exfalso; apply Hmem; by exists n].
  exists d. split; [done|]. split; [by apply malloc_size|by eapply malloc_bytes].
Qed.

Lemma live_app m e b d : live m b d → live (m ++ e) b d.
Proof. intros [H1 H2]. split; [|done]. by apply lookup_app_l_Some. Qed.

Lemma live_new m d : Forall byte_ok d → live (m ++ [Some d]) (length m) d.
Proof. intros H. split; [|done]. by apply list_lookup_middle. Qed.

Lemma at_addr_app m e p v : at_addr m p = Some v → at_addr (m ++ e) p = Some v.
Proof.
  unfold at_addr. destruct (m !! p.1) as [[d|]|] eqn:E; [|done..]. by rewrite (lookup_app_l_Some _ _ _ _ E).
Qed.

Lemma caps_with_buffers c l : length l = length (buffers_ c) → caps (with_buffers c l) = caps c.
Proof. intros H. unfold caps, fixed_chunk_sizes. simpl. by rewrite H. Qed.

Lemma shape_with_buffers c l : shape c → length l = length (buffers_ c) → shape (with_buffers c l).
Proof.
  intros [H1 H2 H3 H4 H5 H6 H7] Hl. split; rewrite ?caps_with_buffers by done; simpl; try done; [congruence|].
  intros Hf Hne. apply H4; [done|]. intros Hnil. rewrite Hnil in Hl. by apply nil_length_inv in Hl.
Qed.

Lemma alloc_discrete_spec m c i k : cb_ok m c → buffer_addressing_ c = DISCRETE → caps c !! i = Some k →
  buffers_ c !! i = Some None →
  ∃ d, let c' := with_buffers c (<[i := Some (length m, 0)]> (buffers_ c)) in
    alloc_discrete i (m, c) = (Ok (Some (length m, 0)), (m ++ [Some d], c')) ∧
    cb_ok (m ++ [Some d]) c' ∧ stable 0 0 m c (m ++ [Some d]) c' ∧ size_ c' = size_ c.
Proof.
  intros [Hs Hp] Hc Hi Hb. pose proof (lead_bound _ _ _ (shape_caps c Hs) Hi) as Hl.
  pose proof (lookup_lt_Some _ _ _ Hb) as Hlt.
  destruct (mem_malloc_spec k m) as (d & Em & Hd & Hby); [lia|]. exists d.
  set (l' := <[i := Some (length m, 0)]> (buffers_ c)).
  assert (length l' = length (buffers_ c)) as Hl' by apply length_insert.
  unfold placed in Hp. rewrite Hc in Hp. destruct Hp as [Hp1 Hp2]. split_and!.
  - unfold alloc_discrete, this, set, on_snd, on_fst, get, put, lift, mbind, M_bind.
    rewrite decide_True by done. destruct (Nat.leb_spec (length (buffers_ c)) i); [lia|].
    rewrite (get_chunk_capacity_spec c i k Hs Hi), Em. done.
  - split; [by apply shape_with_buffers|]. unfold placed. simpl buffer_addressing_. rewrite Hc.
    rewrite caps_with_buffers by done. simpl buffers_. split.
    + intros j p k' Hj Hk'. destruct (decide (i = j)) as [<-|Hne].
      * unfold l' in Hj. rewrite list_lookup_insert_eq in Hj by done. injection Hj as <-. simpl. split; [done|].
        exists d. split; [by apply live_new|congruence].
      * unfold l' in Hj. rewrite list_lookup_insert_ne in Hj by done. destruct (Hp1 j p k' Hj Hk') as (? & e & He & ?).
        split; [done|]. exists e. split; [by apply live_app|done].
    + assert (∀ j p, buffers_ c !! j = Some (Some p) → p.1 ≠ length m) as Hold.
      { intros j p Hj. destruct (lookup_lt_is_Some_2 (caps c) j) as [k' Hk'].
        { rewrite (shape_len c Hs). by eapply lookup_lt_Some. }
        destruct (Hp1 j p k' Hj Hk') as (_ & e & [He _] & _). apply lookup_lt_Some in He. lia. }
      intros j1 j2 p1 p2 H1 H2 E. unfold l' in H1, H2.
      apply list_lookup_insert_Some in H1 as [(<- & [= <-] & _)|[Hn1 H1]];
        apply list_lookup_insert_Some in H2 as [(<- & [= <-] & _)|[Hn2 H2]]; try done.
      * by edestruct (Hold _ _ H2).
      * by edestruct (Hold _ _ H1).
      * by eapply Hp2.
  - split; try done; [by apply caps_with_buffers|]. intros r v _ Hv. unfold byte, addr in *.
    rewrite caps_with_buffers by done. simpl buffers_.
    destruct (r <? 0); [done|]. destruct (locate (caps c) r) as [[j o]|]; [|done]. simpl in *.
    destruct (buffers_ c !! j) as [[p|]|] eqn:Hj; [|done..]. simpl in Hv. assert (i ≠ j) by congruence.
    unfold l'. rewrite list_lookup_insert_ne, Hj by done. simpl. by apply at_addr_app.
  - done.
Qed.

Lemma with_buffers_same c i p : buffers_ c !! i = Some p → with_buffers c (<[i := p]> (buffers_ c)) = c.
Proof. intros H. rewrite list_insert_id by done. by destruct c. Qed.

Lemma chunk_buffer_spec m c i k : cb_ok m c → buffer_addressing_ c = DISCRETE → caps c !! i = Some k →
  ∃ p m' c', chunk_buffer i (m, c) = (Ok p, (m', c')) ∧ cb_ok m' c' ∧ buffers_ c' !! i = Some (Some p) ∧
    stable 0 0 m c m' c' ∧ size_ c' = size_ c.
Proof.
  intros Hok Hc Hi. pose proof Hok as [Hs _]. pose proof (lookup_lt_Some _ _ _ Hi) as Hlt. rewrite (shape_len c Hs) in Hlt.
  unfold chunk_buffer, this. unfold mbind at 1, M_bind at 1, on_snd at 1, get at 1.
  destruct (lookup_lt_is_Some_2 _ _ Hlt) as [[p|] Hp]; rewrite Hp.
  - exists p, m, c. split_and!; try done.
  - destruct (alloc_discrete_spec m c i k Hok Hc Hi Hp) as (d & E & Hok' & Hk & Hz).
    rewrite decide_False by (by rewrite Hc). rewrite (M_step _ _ _ _ _ E).
    assert (buffers_ (with_buffers c (<[i := Some (length m, 0)]> (buffers_ c))) !! i = Some (Some (length m, 0))) as Hb.
    { simpl. by apply list_lookup_insert_eq. }
    eexists _, _, _. split_and!; [|exact Hok'|exact Hb|exact Hk|exact Hz].
    unfold mbind, M_bind, on_snd, get, set, put, on_snd, lift, plus. cbv beta iota.
    by rewrite (with_buffers_same _ _ _ Hb).
Qed.

Lemma raise_size_spec m c n : raise_size n (m, c) = (Ok (), (m, with_size c (Z.max (size_ c) n))).
Proof.
  unfold raise_size, this, set, on_snd, mbind, M_bind, get, put. destruct (Z.ltb_spec (size_ c) n).
  - by rewrite Z.max_r by lia.
  - unfold mret, M_ret. rewrite Z.max_l by lia. by destruct c.
Qed.

Lemma cb_ok_size m c n : cb_ok m c → 0 ≤ n ≤ capacity_ c → cb_ok m (with_size c n).
Proof. intros [[H1 H2 H3 H4 H5 H6 H7] Hpl] Hn. split; [split; done|done]. Qed.

Lemma write_chunk_spec m c x i k o : cb_ok m c → buffer_addressing_ c = DISCRETE → caps c !! i = Some k →
  0 ≤ o < k → Forall byte_ok x →
  let q := lead (caps c) i + o in let n := Z.min (zlen x) (k - o) in
  ∃ m' c', write_chunk x q i o (m, c) = (Ok n, (m', c')) ∧ cb_ok m' c' ∧ holds m' c' q (slice 0 n x) ∧
    stable q n m c m' c' ∧ size_ c' = Z.max (size_ c) (q + n).
Proof.
  intros Hok Hc Hi Ho Hx q n. pose proof (zlen_nonneg x) as Hxn.
  destruct (chunk_buffer_spec m c i k Hok Hc Hi) as (p & m1 & c1 & E1 & Hok1 & Hp & K1 & Z1). pose proof Hok1 as [Hs1 _].
  destruct K1 as [A1 A2 A3 A4 A5]. rewrite <- A2 in Hi.
  assert (q = lead (caps c1) i + o) as Hq by (unfold q; by rewrite A2). clearbody q.
  pose proof (lead_bound _ _ _ (shape_caps c1 Hs1) Hi) as Hlb. rewrite <- (shape_capacity c1 Hs1) in Hlb.
  pose proof (shape_small c1 Hs1). pose proof (shape_size c1 Hs1).
  destruct (chunk_block m1 c1 i k p Hok1 Hi Hp) as (d & Hd & Hp2 & Hpd).
  destruct (split_slice n x) as (Ex & Hx1 & _); [lia|]. set (x1 := slice 0 n x) in *.
  assert (Forall byte_ok x1) as Hby1 by (by apply Forall_take, Forall_drop).
  destruct (store_addr m1 c1 q p.1 (p.2 + o) x1 d) as (m2 & E2 & Hok2 & Hh2 & B2); try done; try lia.
  { rewrite Hq. apply (chunk_addr m1 c1 i k p o (zlen x1)); try done; lia. }
  exists m2, (with_size c1 (Z.max (size_ c1) (q + n))). split_and!; try done.
  - unfold write_chunk. rewrite (M_step _ _ _ _ _ E1). unfold this. unfold mbind at 1, M_bind at 1, on_snd at 1, get at 1.
    rewrite (get_chunk_capacity_spec c1 i k Hs1 Hi). unfold mbind at 1, M_bind at 1, lift at 1.
    rewrite (u64_id (k - o)) by lia. fold n. unfold mbind at 1, M_bind at 1, on_fst at 1. fold x1. rewrite E2.
    by rewrite (u64_id (q + n)), (M_step _ _ _ _ _ (raise_size_spec _ _ _)) by lia.
  - apply cb_ok_size; [done|lia].
  - split; try done. intros r v Hr Hv. apply (B2 r v); [lia|]. apply A5; [lia|done].
  - simpl. lia.
Qed.

Lemma chunked_write_chunks_spec fuel : ∀ m c x i k o, cb_ok m c → buffer_addressing_ c = DISCRETE → caps c !! i = Some k →
  0 ≤ o < k → Forall byte_ok x → lead (caps c) i + o + zlen x ≤ capacity_ c → (length (buffers_ c) ≤ i + fuel)%nat →
  let q := lead (caps c) i + o in
  ∃ m' c', write_chunks fuel x q i o (m, c) = (Ok (), (m', c')) ∧ cb_ok m' c' ∧ holds m' c' q x ∧
    stable q (zlen x) m c m' c' ∧ size_ c' = if decide (x = []) then size_ c else Z.max (size_ c) (q + zlen x).
Proof.
  induction fuel as [|fuel IH]; intros m c x i k o Hok Hc Hi Ho Hx Hcap Hf q.
  { pose proof Hok as [Hs _]. pose proof (lookup_lt_Some _ _ _ Hi). rewrite (shape_len c Hs) in *. lia. }
  simpl write_chunks. destruct (Z.eqb_spec (zlen x) 0) as [Hz|Hz].
  { assert (x = []) as -> by (destruct x; [done|unfold zlen in Hz; simpl in Hz; lia]).
    exists m, c. split_and!; try done. }
  assert (x ≠ []) as Hne by (by intros ->). rewrite decide_False by done. pose proof (zlen_nonneg x) as Hxn.
  destruct (write_chunk_spec m c x i k o Hok Hc Hi Ho Hx) as (m1 & c1 & E1 & Hok1 & Hh1 & K1 & Z1). fold q in E1, Hh1, K1, Z1.
  set (n := Z.min (zlen x) (k - o)) in *. rewrite (M_step _ _ _ _ _ E1). pose proof Hok as [Hs _].
  pose proof (lead_bound _ _ _ (shape_caps c Hs) Hi) as Hlb. rewrite <- (shape_capacity c Hs) in Hlb.
  pose proof (shape_small c Hs). rewrite (u64_id (q + n)) by lia.
  destruct (split_slice n x) as (Ex & Hx1 & Hx2); [lia|].
  set (x1 := slice 0 n x) in *. set (x2 := slice n (zlen x - n) x) in *.
  assert (Forall byte_ok x2) as Hby2 by (by apply Forall_take, Forall_drop).
  destruct (decide (x2 = [])) as [E0|Hne2].
  - exists m1, c1. rewrite E0 in *. rewrite app_nil_r in Ex. change (zlen (@nil Z)) with 0 in Hx2.
    assert (zlen x = n) as -> by lia. split_and!; try done; [by destruct fuel|by rewrite Ex].
  - apply zlen_pos in Hne2 as Hz2. pose proof K1 as [A1 A2 A3 A4 _].
    assert (q + n = lead (caps c1) (S i) + 0) as Eq by (rewrite A2, (lead_S _ _ _ Hi); lia).
    destruct (next_chunk (caps c1) i) as [k' Hk'].
    { rewrite <- (shape_capacity c1 (proj1 Hok1)). lia. }
    pose proof (lead_bound _ _ _ (shape_caps c1 (proj1 Hok1)) Hk') as Hlk.
    destruct (IH m1 c1 x2 (S i) k' 0) as (m4 & c4 & E4 & Hok4 & Hh4 & K4 & Z4); try done; try congruence; try lia.
    rewrite <- Eq in *. exists m4, c4. split_and!; try done.
    + rewrite Ex. apply holds_app. rewrite Hx1. split; [|done]. intros j v Hj.
      apply (stable_bytes _ _ _ _ _ _ K4); [apply lookup_lt_Some in Hj; unfold zlen in Hx1; lia|]. by apply Hh1.
    + eapply stable_trans; [exact K1|exact K4|lia..].
    + rewrite Z4, decide_False by done. lia.
Qed.
End Alloc.
