(* ===== verification/ChunkedGrowth.v ===== *)
(** * ChunkedBuffer: initialisation, growth and the refinement theorem *)

From S2P Require Import Prelude.
From S2P Require Import Buffer.
From S2P Require Import ChunkedBuffer.
From S2P Require Import ChunkedProofs.
Local Open Scope Z_scope.

(** ** Chunks of a fixed size *)

Lemma chunks_for_spec n chunk : 0 < n → 0 < chunk →
  let last := if n mod chunk =? 0 then chunk else n mod chunk in
  ∃ n0, chunks_for n chunk last = S n0 ∧ n = Z.of_nat n0 * chunk + last ∧ 0 < last ≤ chunk.
Proof.
  intros Hn Hc last. pose proof (Z.div_mod n chunk ltac:(lia)) as Hd. pose proof (Z.mod_pos_bound n chunk Hc).
  pose proof (Z.div_pos n chunk ltac:(lia) Hc). unfold chunks_for, last. destruct (Z.eqb_spec (n mod chunk) 0) as [Hz|Hz].
  - rewrite Z.eqb_refl. assert (0 < n / chunk) by nia. exists (Z.to_nat (n / chunk - 1)). split_and!; try lia. nia.
  - destruct (Z.eqb_spec (n mod chunk) chunk); [lia|]. exists (Z.to_nat (n / chunk)). split_and!; try lia.
Qed.

Lemma fixed_caps a l chunk last cap size n : length l = S n →
  caps (mk a l chunk last [] cap size) = replicate n chunk ++ [last].
Proof. intros Hl. unfold caps. simpl. by rewrite Hl. Qed.

Lemma fixed_sum n chunk last : sum (replicate n chunk ++ [last]) = Z.of_nat n * chunk + last.
Proof. rewrite sum_app, sum_replicate. unfold sum. simpl. lia. Qed.

Lemma fixed_shape a l chunk last cap size n : 0 < last ≤ chunk → chunk < 2 ^ 32 → length l = S n →
  cap = Z.of_nat n * chunk + last → cap < 2 ^ 63 → 0 ≤ size ≤ cap → shape (mk a l chunk last [] cap size).
Proof.
  intros Hl Hc Hn Hcap Hb Hs. pose proof (fixed_caps a l chunk last cap size n Hn) as Ec.
  split; rewrite ?Ec; simpl; try done.
  - apply Forall_app. split; [apply Forall_replicate; lia|constructor; [lia|done]].
  - apply Forall_app. split; [apply Forall_replicate; lia|constructor; [lia|done]].
  - rewrite length_app, length_replicate. simpl. lia.
  - intros. lia.
  - by rewrite fixed_sum.
Qed.

Lemma fixed_inv c : shape c → fixed_chunk_sizes c = true → 0 < capacity_ c → ∃ a l chunk last cap size n,
  c = mk a l chunk last [] cap size ∧ length l = S n ∧ cap = Z.of_nat n * chunk + last ∧ 0 < last ≤ chunk ∧ chunk < 2 ^ 32.
Proof.
  intros Hs Hf Hp. destruct c as [a l chunk last var cap size]. simpl in *. unfold fixed_chunk_sizes in Hf. simpl in Hf.
  destruct var; [|done]. pose proof (shape_capacity _ Hs) as Hcap. destruct (length l) as [|n] eqn:Hl.
  { unfold caps in Hcap. simpl in Hcap. rewrite Hl in Hcap. change (sum []) with 0 in Hcap. lia. }
  rewrite (fixed_caps _ _ _ _ _ _ n Hl), fixed_sum in Hcap. simpl in Hcap.
  pose proof (shape_caps _ Hs) as Hpos. rewrite (fixed_caps _ _ _ _ _ _ n Hl), Forall_app, Forall_singleton in Hpos.
  destruct Hpos as [_ Hlast]. destruct (shape_fixed _ Hs eq_refl) as [H1 H2]; [simpl; by destruct l|]. simpl in *.
  by exists a, l, chunk, last, cap, size, n.
Qed.

Lemma fixed_capacity_spec a l chunk last cap size n : length l = S n → 0 < last ≤ chunk →
  Z.of_nat n * chunk + last < 2 ^ 63 →
  fixed_capacity (mk a l chunk last [] cap size) = Z.of_nat n * chunk + last.
Proof.
  intros Hl Hc Hb. unfold fixed_capacity, zlen. simpl. rewrite Hl, (u64_id (Z.of_nat (S n) - 1)) by nia.
  rewrite u64_id by nia. lia.
Qed.

(** [init_fixed_size] makes an object of the requested capacity. *)
Lemma init_fixed_spec m a n chunk : 0 < n < 2 ^ 63 → 0 < chunk < 2 ^ 32 → ∃ c,
  init_fixed_size a n chunk empty = (Ok (), c) ∧ cb_ok m c ∧ capacity_ c = n ∧ size_ c = 0 ∧
  buffer_addressing_ c = a ∧ fixed_chunk_sizes c = true ∧ chunk_size_ c = chunk ∧ Forall (.= None) (buffers_ c).
Proof.
  intros Hn Hc. unfold init_fixed_size. simpl buffers_. cbv iota.
  rewrite (proj2 (Z.eqb_neq n 0)), (proj2 (Z.eqb_neq chunk 0)) by lia.
  destruct (chunks_for_spec n chunk) as (nn & E & En & Hl); [lia..|]. rewrite E.
  set (last := if n mod chunk =? 0 then chunk else n mod chunk) in *.
  assert (length (replicate (S nn) (@None pointer)) = S nn) as Hlen by apply length_replicate.
  assert (Forall (.= None) (replicate (S nn) (@None pointer))) as Hnull by (by apply Forall_replicate).
  eexists. split; [reflexivity|]. unfold with_capacity. simpl buffer_addressing_. simpl var_chunk_sizes_. simpl buffers_.
  change (buffers_ (mk a (replicate (S nn) None) chunk last [] 0 0)) with (replicate (S nn) (@None pointer)) in *.
  rewrite (fixed_capacity_spec _ _ _ _ _ _ nn Hlen Hl) by lia. split_and!; try done; try (simpl; lia).
  split.
  - apply (fixed_shape _ _ _ _ _ _ nn); try done; simpl; lia.
  - unfold placed. simpl buffer_addressing_. destruct a; [by left|]. split.
    + intros i p k Hi. by pose proof (Forall_lookup_1 _ _ _ _ Hnull Hi).
    + intros i j p p' Hi. by pose proof (Forall_lookup_1 _ _ _ _ Hnull Hi).
Qed.

(** ** Contiguous memory *)

(** The chunks of a block. *)
Definition ptrs (c : t) (b : nat) : list (option pointer) :=
  (λ j, Some (b, lead (caps c) j)) <$> seq 0 (length (buffers_ c)).

Lemma contiguous_pointers_spec c b n : ∀ i, shape c → (i + n = length (buffers_ c))%nat →
  contiguous_pointers c (b, 0) n i (lead (caps c) i) = Ok ((λ j, Some (b, lead (caps c) j)) <$> seq i n).
Proof.
  induction n as [|n IH]; intros i Hs Hn; [done|]. simpl contiguous_pointers.
  destruct (lookup_lt_is_Some_2 (caps c) i) as [k Hk]; [rewrite (shape_len c Hs); lia|].
  rewrite (get_chunk_capacity_spec c i k Hs Hk). cbn [mbind res_bind].
  pose proof (lead_bound _ _ _ (shape_caps c Hs) Hk) as Hb. rewrite <- (shape_capacity c Hs) in Hb.
  pose proof (shape_small c Hs). rewrite u64_id, <- (lead_S _ _ _ Hk), IH by (done || lia). done.
Qed.

Lemma set_contiguous_spec c b : shape c → set_contiguous_internal (b, 0) c = (Ok (), with_buffers c (ptrs c b)).
Proof.
  intros Hs. unfold set_contiguous_internal. by rewrite <- (lead_0 (caps c)) at 2; rewrite contiguous_pointers_spec by done.
Qed.

Lemma length_ptrs c b : length (ptrs c b) = length (buffers_ c).
Proof. unfold ptrs. by rewrite length_fmap, length_seq. Qed.

Lemma ptrs_lookup c b i k : shape c → caps c !! i = Some k → ptrs c b !! i = Some (Some (b, lead (caps c) i)).
Proof.
  intros Hs Hi. apply lookup_lt_Some in Hi. rewrite (shape_len c Hs) in Hi.
  unfold ptrs. rewrite list_lookup_fmap, lookup_seq_lt by done. done.
Qed.

Lemma placed_ptrs m c b d : shape c → buffer_addressing_ c = CONTIGUOUS → live m b d → capacity_ c ≤ zlen d →
  cb_ok m (with_buffers c (ptrs c b)) ∧ ∀ r, 0 ≤ r < capacity_ c → addr (with_buffers c (ptrs c b)) r = Some (b, r).
Proof.
  intros Hs Hc Hd Hcap. pose proof (shape_with_buffers c (ptrs c b) Hs (length_ptrs c b)) as Hs'.
  pose proof (caps_with_buffers c (ptrs c b) (length_ptrs c b)) as Ec. split.
  - split; [done|]. unfold placed. simpl buffer_addressing_. rewrite Hc. right. exists b, d. split_and!; [done..|].
    rewrite Ec. intros i k Hi. by eapply ptrs_lookup.
  - intros r Hr. rewrite (shape_capacity c Hs) in Hr.
    destruct (locate_elim (caps c) r (shape_caps c Hs) Hr) as (i & k & o & Hi & Ho & ->). rewrite <- Ec in Hi |- *.
    rewrite (addr_chunk _ i k o (b, lead (caps c) i) Hs' Hi Ho); [by rewrite Ec|]. simpl. rewrite Ec in Hi. by eapply ptrs_lookup.
Qed.

Lemma null_no_byte m c q v : shape c → Forall (.= None) (buffers_ c) → byte m c q ≠ Some v.
Proof.
  intros Hs Hn Hv. unfold byte in Hv. destruct (addr c q) as [a|] eqn:Ea; [|done].
  apply addr_inv in Ea as (i & k & o & p & _ & _ & Hb & _); [|done]. by pose proof (Forall_lookup_1 _ _ _ _ Hn Hb).
Qed.

Section Alloc.
Context `{HA : !Allocator}.
Hypothesis Hmem : ¬ out_of_memory.

(** The memory of a contiguous object, allocated on the first write. *)
Lemma contiguous_buffer m c : cb_ok m c → buffer_addressing_ c = CONTIGUOUS → 0 < capacity_ c →
  ∃ b d m' c', (∀ A (K : pointer → CB A), (p ← lift (get_contiguous_unsafe c);
     p ← (match p with
          | Some p => mret p
          | None =>
              q ← on_fst (mem_malloc (capacity_ c));
              match q with
              | None => lift (error "Chunk write error; malloc() failed")
              | Some q => on_snd (set_contiguous_internal q);; mret q
              end
          end); K p) (m, c) = K (b, 0) (m', c')) ∧
    cb_ok m' c' ∧ live m' b d ∧ capacity_ c ≤ zlen d ∧ (∀ r, 0 ≤ r < capacity_ c → addr c' r = Some (b, r)) ∧
    stable 0 0 m c m' c' ∧ size_ c' = size_ c.
Proof.
  intros [Hs Hp] Hc Hpos. pose proof Hp as Hp'. unfold placed in Hp'. rewrite Hc in Hp'.
  assert (∃ k, caps c !! 0%nat = Some k) as [k0 Hk0].
  { rewrite (shape_capacity c Hs) in Hpos. destruct (caps c); [done|by eexists]. }
  pose proof (lookup_lt_Some _ _ _ Hk0) as Hl0. rewrite (shape_len c Hs) in Hl0.
  destruct Hp' as [Hn|(b & d & Hd & Hcap & Hb)].
  - destruct (mem_malloc_spec Hmem (capacity_ c) m) as (d & Em & Hd & Hby); [lia|].
    destruct (placed_ptrs (m ++ [Some d]) c (length m) d) as [Hok' Ha']; [done..|by apply live_new|lia|].
    exists (length m), d, (m ++ [Some d]), (with_buffers c (ptrs c (length m))). split_and!; try done; try lia.
    + intros A K. unfold get_contiguous_unsafe, mbind, M_bind, lift, on_fst, on_snd, mret, M_ret.
      destruct (lookup_lt_is_Some_2 _ _ Hl0) as [p0 Hp0]. rewrite Hp0.
      rewrite (Forall_lookup_1 _ _ _ _ Hn Hp0). by rewrite Em, (set_contiguous_spec c _ Hs).
    + by apply live_new.
    + split; try done; [apply caps_with_buffers, length_ptrs|apply length_ptrs|].
      intros r v _ Hv. by apply null_no_byte in Hv.
  - exists b, d, m, c. split_and!; try done.
    + intros A K. unfold get_contiguous_unsafe, mbind, M_bind, lift, mret, M_ret. by rewrite (Hb 0%nat k0 Hk0).
    + intros r Hr. rewrite (shape_capacity c Hs) in Hr.
      destruct (locate_elim (caps c) r (shape_caps c Hs) Hr) as (i & k & o & Hi & Ho & ->).
      by rewrite (addr_chunk c i k o _ Hs Hi Ho (Hb i k Hi)).
Qed.

Lemma write_within m c x q : cb_ok m c → x ≠ [] → Forall byte_ok x → 0 ≤ q → q + zlen x ≤ capacity_ c →
  ∃ m' c', write x q (m, c) = (Ok (), (m', c')) ∧ cb_ok m' c' ∧ holds m' c' q x ∧
    stable q (zlen x) m c m' c' ∧ size_ c' = Z.max (size_ c) (q + zlen x).
Proof.
  intros Hok Hne Hx Hq Hcap. pose proof Hok as [Hs _]. pose proof (shape_small c Hs). pose proof (zlen_pos x Hne).
  pose proof (shape_size c Hs).
  assert (∀ A (K : t → CB A), (c0 ← this; K c0) (m, c) = K c (m, c)) as Ethis by done.
  unfold write. rewrite Ethis, u64_id by lia. destruct (Z.ltb_spec (capacity_ c) (q + zlen x)); [lia|].
  unfold mbind at 1, M_bind at 1. unfold mret at 1, M_ret at 1. rewrite Ethis.
  rewrite (proj2 (Z.leb_le _ _)) by lia. unfold mbind at 1, M_bind at 1, lift at 1, massert.
  destruct (decide (buffer_addressing_ c = CONTIGUOUS)) as [Hc|Hc].
  - destruct (contiguous_buffer m c Hok Hc) as (b & d & m1 & c1 & E1 & Hok1 & Hd & Hdc & Ha & K1 & Z1); [lia|].
    rewrite E1. simpl fst. simpl snd. change (0 + q) with q.
    destruct (store_addr m1 c1 q b q x d) as (m2 & E2 & Hok2 & Hh & B2); try done; try lia.
    { intros j Hj. apply Ha. lia. }
    exists m2, (with_size c1 (Z.max (size_ c1) (q + zlen x))). pose proof K1 as [A1 A2 A3 A4 A5]. split_and!; try done.
    + unfold mbind at 1, M_bind at 1, on_fst at 1. rewrite E2. apply raise_size_spec.
    + apply cb_ok_size; [done|]. rewrite A3. lia.
    + split; try done. intros r v Hr Hv. apply (B2 r v); [done|]. apply A5; [lia|done].
    + simpl. lia.
  - assert (0 ≤ q < sum (caps c)) as Hr by (rewrite <- (shape_capacity c Hs); lia).
    destruct (locate_elim (caps c) q (shape_caps c Hs) Hr) as (i & k & o & Hi & Ho & ->).
    rewrite (translate_spec c i k o Hs Hi Ho). unfold mbind at 1, M_bind at 1, lift at 1. simpl fst. simpl snd.
    destruct (chunked_write_chunks_spec Hmem (length (buffers_ c)) m c x i k o) as (m' & c' & E & R1 & R2 & R3 & R4); try done; [|lia|].
    { by destruct (buffer_addressing_ c). }
    rewrite decide_False in R4 by done. by exists m', c'.
Qed.

(** ** Growth *)

Lemma grow_size_grow fuel a n : grow_size fuel a n = Buffer.grow fuel a n.
Proof. revert a. induction fuel as [|fuel IH]; intros a; simpl; [done|]. by rewrite IH. Qed.

Lemma realloc_block d n : 0 ≤ n → Forall byte_ok d → ∃ d', std_realloc d n = Some d' ∧ zlen d' = n ∧
  Forall byte_ok d' ∧ ∀ j : nat, Z.of_nat j < n → (j < length d)%nat → d' !! j = d !! j.
Proof.
  intros Hn Hd. unfold std_realloc. destruct (malloc n) as [e|] eqn:E; [|exfalso; apply Hmem; by exists n].
  apply malloc_bytes in E as Hb. apply malloc_size in E as Hz; [|done]. simpl. rewrite Hz.
  set (x := slice 0 n d). assert (zlen x = Z.min n (zlen d)) as Hx.
  { unfold x, slice, zlen. rewrite drop_0, length_take. lia. }
  eexists. split; [reflexivity|]. split_and!.
  - rewrite zlen_overlay; lia.
  - unfold overlay. rewrite !Forall_app. split_and!; [by apply Forall_take|by apply Forall_take, Forall_drop|by apply Forall_drop].
  - intros j Hj Hl. rewrite lookup_overlay by lia. rewrite decide_True by (unfold zlen in *; lia).
    unfold x, slice. rewrite drop_0, lookup_take_lt by lia. f_equal. lia.
Qed.

(** The old block is gone, the new one is the last. *)
Lemma mem_realloc_spec m b d n : live m b d → 0 ≤ n → ∃ d', let m' := <[b := None]> m ++ [Some d'] in
  mem_realloc (b, 0) n m = (Ok (Some (length m, 0)), m') ∧ live m' (length m) d' ∧ zlen d' = n ∧
  (∀ b' e, b' ≠ b → live m b' e → live m' b' e) ∧
  (∀ a v, 0 ≤ a < n → at_addr m (b, a) = Some v → at_addr m' (length m, a) = Some v).
Proof.
  intros [Hb Hd] Hn. destruct (realloc_block d n Hn Hd) as (d' & E & Hz & Hby & Hk). exists d'.
  assert ((<[b := None]> m ++ [Some d']) !! length m = Some (Some d')) as Hnew.
  { rewrite lookup_app_r by (by rewrite length_insert). by rewrite length_insert, Nat.sub_diag. }
  split_and!; try done.
  - unfold mem_realloc. simpl. by rewrite Hb, E.
  - intros b' e Hne [He Hbe]. split; [|done]. apply lookup_app_l_Some. by rewrite list_lookup_insert_ne.
  - intros a v Ha Hv. unfold at_addr in *. simpl in *. rewrite Hb in Hv. rewrite Hnew. rewrite Hk by (apply lookup_lt_Some in Hv; lia). done.
Qed.

Lemma resize_lookup n (l : list (option pointer)) i p : (length l ≤ n)%nat →
  resize n l !! i = Some (Some p) ↔ l !! i = Some (Some p).
Proof.
  intros Hl. unfold resize. rewrite take_ge by done. rewrite lookup_app_Some. split; [|by left].
  intros [?|[_ Hr]]; [done|]. by apply lookup_replicate in Hr as [? _].
Qed.

Lemma length_resize n (l : list (option pointer)) : length (resize n l) = n.
Proof. unfold resize. rewrite length_app, length_take, length_replicate. lia. Qed.

Lemma resize_id n (l : list (option pointer)) : length l = n → resize n l = l.
Proof. intros <-. unfold resize. rewrite take_ge, Nat.sub_diag by done. apply app_nil_r. Qed.

(** The bytes of an object of fixed chunks, chunk by chunk. *)
Lemma fixed_byte m a l chunk last cap size n q v : shape (mk a l chunk last [] cap size) → length l = S n →
  byte m (mk a l chunk last [] cap size) q = Some v ↔
  ∃ i o p, q = Z.of_nat i * chunk + o ∧ 0 ≤ o < (if decide (i = n) then last else chunk) ∧
    l !! i = Some (Some p) ∧ at_addr m (p.1, p.2 + o) = Some v.
Proof.
  intros Hs Hl. set (c := mk a l chunk last [] cap size) in *.
  assert (∀ i k, caps c !! i = Some k ↔ (i ≤ n)%nat ∧ k = if decide (i = n) then last else chunk) as Hcaps.
  { intros i k. unfold c. rewrite (fixed_caps _ _ _ _ _ _ n Hl), lookup_app_Some, lookup_replicate, length_replicate.
    rewrite list_lookup_singleton_Some. case_decide; split; [intros [?|?]|intros [??]|intros [?|?]|intros [??]]; lia. }
  assert (∀ i k, caps c !! i = Some k → lead (caps c) i = Z.of_nat i * chunk) as Hlead.
  { intros i k Hi. apply lookup_lt_Some in Hi. rewrite (shape_len c Hs) in Hi. by apply (lead_fixed c). }
  unfold byte. split.
  - destruct (addr c q) as [ad|] eqn:Ea; [|done]. simpl. intros Hv.
    apply addr_inv in Ea as (i & k & o & p & Hi & Ho & Hp & -> & ->); [|done].
    exists i, o, p. rewrite (Hlead i k Hi). apply Hcaps in Hi as [? ->]. done.
  - intros (i & o & p & -> & Ho & Hp & Hv). pose proof (lookup_lt_Some _ _ _ Hp) as Hlt.
    assert (caps c !! i = Some (if decide (i = n) then last else chunk)) as Hi by (apply Hcaps; split; [lia|done]).
    rewrite <- (Hlead _ _ Hi). by rewrite (addr_chunk c i _ o p Hs Hi Ho Hp).
Qed.

Definition preserved (m : Mem) (c : t) (m' : Mem) (c' : t) : Prop :=
  ∀ r v, byte m c r = Some v → byte m' c' r = Some v.

(** A chunk size, and a new number of chunks that holds more. *)
Section Growth.
Variables (l : list (option pointer)) (ch last last2 size : Z) (n1 n2 : nat).
Let cap := Z.of_nat n1 * ch + last.
Let req := Z.of_nat n2 * ch + last2.
Hypothesis (Hlen : length l = S n1) (Hlast : 0 < last ≤ ch) (Hlast2 : 0 < last2 ≤ ch) (Hch : ch < 2 ^ 32).
Hypothesis (Hgrow : cap < req) (Hreq : req < 2 ^ 63).

Lemma more_chunks : (n1 ≤ n2)%nat.
Proof. unfold cap, req in *. destruct (decide (n1 ≤ n2)%nat); [done|]. exfalso. nia. Qed.

Abbreviation old a := (mk a l ch last [] cap size).

(** The block [grow_contiguous] moves the chunks to. *)
Lemma grow_block m k : cb_ok m (old CONTIGUOUS) → req ≤ k → ∃ p0 m' d', l !! 0%nat = Some p0 ∧
  match p0 with Some p => mem_realloc p k | None => mem_malloc k end m = (Ok (Some (length m, 0)), m') ∧
  live m' (length m) d' ∧ zlen d' = k ∧
  ∀ r v, byte m (old CONTIGUOUS) r = Some v → at_addr m' (length m, r) = Some v.
Proof.
  intros [Hs Hp] Hk. unfold placed in Hp. simpl in Hp. destruct Hp as [Hnull|(b & d & Hd & Hdc & Hb)].
  - destruct (lookup_lt_is_Some_2 l 0) as [p0 Hp0]; [lia|]. pose proof (Forall_lookup_1 _ _ _ _ Hnull Hp0) as ->.
    destruct (mem_malloc_spec Hmem k m) as (d & E & Hz & Hby); [nia|].
    exists None, (m ++ [Some d]), d. split_and!; try done; [by apply live_new|].
    intros r v Hv. by apply null_no_byte in Hv.
  - destruct (mem_realloc_spec m b d k Hd) as (d' & E & Hd' & Hz & _ & Hv); [nia|].
    exists (Some (b, 0)), (<[b := None]> m ++ [Some d']), d'. split_and!; [|exact E|done..|].
    + destruct (lookup_lt_is_Some_2 (caps (old CONTIGUOUS)) 0) as [k0 Hk0]; [|by rewrite (Hb _ _ Hk0)].
      rewrite (shape_len _ Hs). simpl. lia.
    + intros r v Hr. unfold byte in Hr. destruct (addr _ r) as [ad|] eqn:Ea; [|done]. simpl in Hr.
      pose proof Ea as Hra%addr_range; [|done]. simpl in Hra. apply Hv; [lia|].
      apply addr_inv in Ea as (i & k' & o & p & Hi & _ & Hpi & -> & ->); [|done]. simpl in Hpi.
      rewrite (Hb i k' Hi) in Hpi. by injection Hpi as <-.
Qed.

Lemma grow_contiguous_spec m : cb_ok m (old CONTIGUOUS) →
  ∃ m' l', let c' := mk CONTIGUOUS l' ch last2 [] req size in
    grow_contiguous req (S n2) (m, mk CONTIGUOUS l ch last2 [] cap size) = (Ok (), (m', c')) ∧ length l' = S n2 ∧
    cb_ok m' c' ∧ preserved m (old CONTIGUOUS) m' c'.
Proof.
  intros Hok0. pose proof Hok0 as [Hs _]. pose proof more_chunks as Hn. pose proof (shape_size _ Hs) as Hsz. simpl in Hsz.
  destruct (Buffer.grow_spec 64 cap req) as (k & Ek & Hk & _); [nia|lia|unfold cap in *; nia|].
  destruct (grow_block m k Hok0 Hk) as (p0 & m' & d' & Hp0 & Em & Hd' & Hz' & Hv').
  set (c2 := mk CONTIGUOUS (resize (S n2) l) ch last2 [] req size).
  assert (shape c2) as Hs2 by (apply (fixed_shape _ _ _ _ _ _ n2); try done; [apply length_resize|lia]).
  destruct (placed_ptrs m' c2 (length m) d' Hs2 eq_refl Hd') as [Hok Ha]; [simpl; lia|].
  exists m', (ptrs c2 (length m)). split_and!; [|by rewrite length_ptrs; apply length_resize|exact Hok|].
  - unfold grow_contiguous, this, set, on_snd, on_fst, get, put, lift, mbind, M_bind, get_contiguous, internal_buffer.
    cbn [buffer_addressing_ buffers_ capacity_]. rewrite decide_True by done.
    rewrite Hp0, grow_size_grow, Ek, Em. cbv beta iota. unfold with_capacity, with_buffers.
    cbn [buffer_addressing_ buffers_ chunk_size_ last_chunk_size_ var_chunk_sizes_ capacity_ size_].
    rewrite (fixed_capacity_spec _ _ _ _ _ _ n2) by (done || apply length_resize).
    fold req. fold c2. unfold set_contiguous. rewrite (set_contiguous_spec c2 (length m) Hs2).
    destruct (buffers_ c2) as [|x y] eqn:Eb; [|done]. apply (f_equal length) in Eb. simpl in Eb. by rewrite length_resize in Eb.
  - intros r v Hv. change (byte m' (with_buffers c2 (ptrs c2 (length m))) r = Some v). unfold byte.
    rewrite (Ha r); [by apply Hv'|]. unfold byte in Hv. destruct (addr (old _) r) as [ad|] eqn:Ea; [|done].
    apply addr_range in Ea; [|done]. simpl in Ea. simpl. lia.
Qed.

(** Chunks that keep their bytes while the last one may move. *)
Lemma grow_discrete_ok m m' l' : cb_ok m (old DISCRETE) → length l' = S n1 →
  (∀ i p', l' !! i = Some (Some p') → p'.2 = 0 ∧ ∃ d, live m' p'.1 d ∧
     zlen d = if decide (i = n2) then last2 else ch) →
  (∀ i j p p', l' !! i = Some (Some p) → l' !! j = Some (Some p') → p.1 = p'.1 → i = j) →
  (∀ i p o v, l !! i = Some (Some p) → 0 ≤ o < (if decide (i = n1) then last else ch) →
     at_addr m (p.1, p.2 + o) = Some v → ∃ p', l' !! i = Some (Some p') ∧ at_addr m' (p'.1, p'.2 + o) = Some v) →
  let c' := mk DISCRETE (resize (S n2) l') ch last2 [] req size in cb_ok m' c' ∧ preserved m (old DISCRETE) m' c'.
Proof.
  intros [Hs _] Hl' H1 H2 H3 c'. pose proof more_chunks as Hn. pose proof (shape_size _ Hs) as Hsz. simpl in Hsz.
  assert (shape c') as Hs' by (apply (fixed_shape _ _ _ _ _ _ n2); try done; [apply length_resize|lia]).
  split.
  - split; [done|]. unfold placed. simpl. split.
    + intros i p k Hi Hk. apply resize_lookup in Hi; [|lia]. destruct (H1 i p Hi) as (Hp & d & Hd & Hz).
      split; [done|]. exists d. split; [done|]. rewrite Hz. unfold c' in Hk.
      rewrite (fixed_caps _ _ _ _ _ _ n2) in Hk by apply length_resize.
      apply lookup_app_Some in Hk as [Hk|[Hge Hk]].
      * apply lookup_replicate in Hk as [-> ?]. by rewrite decide_False by lia.
      * rewrite length_replicate in *. apply list_lookup_singleton_Some in Hk as [? ->]. by rewrite decide_True by lia.
    + intros i j p p' Hi Hj. apply resize_lookup in Hi, Hj; [|lia..]. by apply H2.
  - intros r v Hv. apply (fixed_byte _ _ _ _ _ _ _ n1) in Hv as (i & o & p & -> & Ho & Hp & Hv); [|done..].
    destruct (H3 i p o v Hp Ho Hv) as (p' & Hp' & Hv'). pose proof (lookup_lt_Some _ _ _ Hp).
    apply (fixed_byte _ _ _ _ _ _ _ n2); [done|apply length_resize|]. exists i, o, p'. split_and!; try done; try lia.
    + unfold cap, req in *. repeat case_decide; subst; try lia.
    + by apply resize_lookup; [lia|].
Qed.

Lemma grow_discrete_spec m : cb_ok m (old DISCRETE) →
  ∃ m' l', grow_discrete last (S n2) (m, mk DISCRETE l ch last2 [] cap size) =
      (Ok (), (m', mk DISCRETE l' ch last2 [] cap size)) ∧
    let c' := mk DISCRETE (resize (S n2) l') ch last2 [] req size in cb_ok m' c' ∧ preserved m (old DISCRETE) m' c'.
Proof.
  intros Hok. pose proof Hok as [Hs Hp]. pose proof more_chunks as Hn. unfold placed in Hp. simpl in Hp. destruct Hp as [Hp1 Hp2].
  assert (∀ i p, l !! i = Some (Some p) → p.2 = 0 ∧ ∃ d, live m p.1 d ∧ zlen d = if decide (i = n1) then last else ch) as Hb.
  { intros i p Hi. apply (Hp1 i p); [done|]. pose proof (lookup_lt_Some _ _ _ Hi).
    rewrite (fixed_caps _ _ _ _ _ _ n1 Hlen). case_decide as Hd.
    - rewrite lookup_app_r, length_replicate by (rewrite length_replicate; lia). by rewrite Hd, Nat.sub_diag.
    - rewrite lookup_app_l by (rewrite length_replicate; lia). apply lookup_replicate. split; [done|lia]. }
  unfold grow_discrete, this, set, on_snd, on_fst, get, put, lift, mbind, M_bind. simpl. rewrite Hlen.
  set (rs := if Nat.eqb (S n1) (S n2) then last2 else ch).
  assert (rs = if decide (n1 = n2) then last2 else ch) as Hrs.
  { unfold rs. destruct (Nat.eqb_spec (S n1) (S n2)); case_decide; done || lia. }
  change (if Nat.eqb n1 n2 then last2 else ch) with rs. clearbody rs.
  destruct (Z.eqb_spec rs last) as [Hsame|Hdiff].
  { exists m, l. split; [done|]. apply grow_discrete_ok; try done; [|intros i p o v Hi _ Hv; by exists p].
    intros i p Hi. destruct (Hb i p Hi) as (? & d & ? & Hz). pose proof (lookup_lt_Some _ _ _ Hi).
    split; [done|]. exists d. split; [done|]. rewrite Hz. repeat case_decide; try lia. }
  assert (last < rs) as Hlt by (unfold cap, req in *; case_decide; nia).
  rewrite (proj2 (Z.ltb_lt _ _) Hlt). unfold massert, internal_buffer. replace (S n1 - 1)%nat with n1 by lia. simpl buffers_.
  destruct (lookup_lt_is_Some_2 l n1) as [[p|] Hp]; [lia|..]; rewrite Hp.
  - destruct (Hb n1 p Hp) as (Hp0 & d & Hd & Hz). rewrite decide_True in Hz by done. destruct p as [b o]. simpl in Hp0. subst o.
    destruct (mem_realloc_spec m b d rs Hd) as (d' & E & Hd' & Hz' & Hkeep & Hv'); [lia|]. rewrite E.
    assert (∀ i p, l !! i = Some (Some p) → i ≠ n1 → p.1 ≠ b) as Hother.
    { intros i p Hi Hne Heq. apply Hne. by apply (Hp2 i n1 p (b, 0)). }
    eexists _, (<[n1 := Some (length m, 0)]> l). split; [done|]. apply grow_discrete_ok; try done.
    + by rewrite length_insert.
    + intros i p Hi. apply list_lookup_insert_Some in Hi as [(<- & [= <-] & _)|[Hne Hi]].
      * simpl. split; [done|]. exists d'. split; [done|]. by rewrite Hz', Hrs.
      * destruct (Hb i p Hi) as (? & e & He & Hze). split; [done|]. exists e. pose proof (lookup_lt_Some _ _ _ Hi).
        split; [apply Hkeep; [by apply (Hother i)|done]|]. rewrite Hze. repeat case_decide; try lia.
    + assert (∀ i p, l !! i = Some (Some p) → p.1 ≠ length m) as Hold.
      { intros i p Hi. destruct (Hb i p Hi) as (_ & e & [He _] & _). apply lookup_lt_Some in He. lia. }
      intros i j p p' Hi Hj Heq.
      apply list_lookup_insert_Some in Hi as [(<- & [= <-] & _)|[Hni Hi]];
        apply list_lookup_insert_Some in Hj as [(<- & [= <-] & _)|[Hnj Hj]]; try done.
      * by edestruct (Hold _ _ Hj).
      * by edestruct (Hold _ _ Hi).
      * by eapply Hp2.
    + intros i p o v Hi Ho Hv. destruct (decide (n1 = i)) as [<-|Hne].
      * rewrite Hp in Hi. injection Hi as <-. exists (length m, 0). rewrite decide_True in Ho by done.
        split; [by apply list_lookup_insert_eq; lia|]. apply Hv'; [simpl; lia|done].
      * exists p. rewrite list_lookup_insert_ne by done. split; [done|].
        destruct (Hb i p Hi) as (_ & e & He & _). destruct (Hkeep p.1 e (Hother i p Hi ltac:(done)) He) as [He' _].
        unfold at_addr in *. simpl in *. rewrite He'. by rewrite (proj1 He) in Hv.
  - exists m, l. split; [done|]. apply grow_discrete_ok; try done; [|intros i p o v Hi _ Hv; by exists p].
    intros i p Hi. destruct (Hb i p Hi) as (? & d & ? & Hz). pose proof (lookup_lt_Some _ _ _ Hi).
    split; [done|]. exists d. split; [done|]. rewrite Hz. assert (i ≠ n1) by congruence. repeat case_decide; try lia.
Qed.

End Growth.
Lemma ensure_capacity_spec m c req : cb_ok m c → fixed_chunk_sizes c = true → 0 < capacity_ c < req → req < 2 ^ 63 →
  ∃ m' c', ensure_capacity req (m, c) = (Ok (), (m', c')) ∧ cb_ok m' c' ∧ capacity_ c' = req ∧ size_ c' = size_ c ∧
    buffer_addressing_ c' = buffer_addressing_ c ∧ fixed_chunk_sizes c' = true ∧ preserved m c m' c'.
Proof.
  intros Hok Hf Hcap Hreq. pose proof Hok as [Hs _].
  destruct (fixed_inv c Hs Hf) as (a & l & ch & last & cap & size & n1 & -> & Hl & -> & Hlast & Hch); [lia|]. simpl in Hcap.
  assert (∀ A (K : t → CB A) m c, (c0 ← this; K c0) (m, c) = K c (m, c)) as Ethis by done.
  assert (∀ A c' (K : CB A) m c, (set c';; K) (m, c) = K (m, c')) as Eset by done.
  unfold ensure_capacity. rewrite Ethis. cbn [capacity_ chunk_size_ last_chunk_size_ buffer_addressing_ buffers_].
  rewrite (proj2 (Z.eqb_neq (_ + last) 0)), (proj2 (Z.eqb_neq ch 0)) by lia.
  change (negb (fixed_chunk_sizes _)) with false. cbv iota.
  destruct (chunks_for_spec req ch) as (n2 & En & Ereq & Hlast2); [lia..|]. rewrite En.
  set (last2 := if req mod ch =? 0 then ch else req mod ch) in *. clearbody last2. clear En. subst req.
  assert (n1 ≤ n2)%nat as Hn by (destruct (decide (n1 ≤ n2)%nat); [done|nia]).
  rewrite Eset. unfold with_last_chunk_size. cbn [buffer_addressing_ buffers_ chunk_size_ var_chunk_sizes_ capacity_ size_].
  rewrite Hl, (proj2 (Nat.leb_le _ _)) by lia. unfold massert. unfold mbind at 1, M_bind at 1, lift at 1.
  pose proof (fixed_capacity_spec a (resize (S n2) []) ch last2 0 size n2 (length_resize _ _) Hlast2 Hreq) as Hfc.
  assert (∀ a l' cap', length l' = S n2 → fixed_capacity (mk a l' ch last2 [] cap' size) = Z.of_nat n2 * ch + last2) as Hcapa.
  { intros. by apply fixed_capacity_spec. }
  destruct a.
  - rewrite decide_True by done.
    destruct (grow_contiguous_spec l ch last last2 size n1 n2 Hl Hlast Hlast2 Hch (proj2 Hcap) Hreq m Hok)
      as (m' & l' & E & Hl' & Hok' & Hpre).
    rewrite (M_step _ _ _ _ _ E), Ethis. unfold with_buffers, with_capacity. simpl.
    rewrite (resize_id _ _ Hl'), Hcapa by done.
    eexists m', _. split; [reflexivity|]. done.
  - rewrite decide_False by done.
    destruct (grow_discrete_spec l ch last last2 size n1 n2 Hl Hlast Hlast2 Hch (proj2 Hcap) Hreq m Hok)
      as (m' & l' & E & Hok' & Hpre).
    rewrite (M_step _ _ _ _ _ E), Ethis. unfold with_buffers, with_capacity. simpl.
    rewrite Hcapa by apply length_resize. eexists m', _. split; [reflexivity|]. done.
Qed.

(** ** The refinement *)

Lemma write_grow m c m1 c1 x q : ensure_capacity (q + zlen x) (m, c) = (Ok (), (m1, c1)) → 0 ≤ q + zlen x < 2 ^ 63 →
  capacity_ c < q + zlen x → capacity_ c1 = q + zlen x → write x q (m, c) = write x q (m1, c1).
Proof.
  intros E Hb Hlt Hc1. assert (∀ A (K : t → CB A) m c, (c0 ← this; K c0) (m, c) = K c (m, c)) as Ethis by done.
  unfold write. rewrite Ethis, (Ethis _ _ m1 c1), u64_id by lia.
  rewrite (proj2 (Z.ltb_lt _ _) Hlt), (M_step _ _ _ _ _ E), Hc1, Z.ltb_irrefl.
  by rewrite (M_step (mret ()) _ () (m1, c1) (m1, c1) eq_refl).
Qed.

Lemma chunked_write_spec m c x q : cb_ok m c → x ≠ [] → Forall byte_ok x → 0 ≤ q → q + zlen x < 2 ^ 63 →
  (q + zlen x ≤ capacity_ c ∨ fixed_chunk_sizes c = true ∧ 0 < capacity_ c) →
  ∃ m' c', write x q (m, c) = (Ok (), (m', c')) ∧ cb_ok m' c' ∧ holds m' c' q x ∧
    size_ c' = Z.max (size_ c) (q + zlen x) ∧ buffer_addressing_ c' = buffer_addressing_ c ∧
    capacity_ c' = Z.max (capacity_ c) (q + zlen x) ∧
    ∀ r v, ¬ (q ≤ r < q + zlen x) → byte m c r = Some v → byte m' c' r = Some v.
Proof.
  intros Hok Hne Hx Hq Hb Hcap. destruct (decide (q + zlen x ≤ capacity_ c)) as [Hle|Hgt].
  - destruct (write_within m c x q) as (m' & c' & E & Hok' & Hh & [K1 K2 K3 K4 K5] & Hz); try done.
    exists m', c'. split_and!; try done. rewrite K3. lia.
  - destruct Hcap as [?|[Hf Hp]]; [lia|].
    destruct (ensure_capacity_spec m c (q + zlen x) Hok Hf) as (m1 & c1 & E1 & Hok1 & Hc1 & Hz1 & Ha1 & Hf1 & Hpre); [lia..|].
    destruct (write_within m1 c1 x q) as (m' & c' & E & Hok' & Hh & [K1 K2 K3 K4 K5] & Hz); try done; [lia|].
    exists m', c'. split_and!; try done; try congruence; try lia.
    + rewrite (write_grow m c m1 c1 x q E1); try done; pose proof (zlen_nonneg x); lia.
    + intros r v Hr Hv. apply K5; [done|]. by apply Hpre.
Qed.
End Alloc.
