(* ===== verification/ChunkedSpec.v ===== *)
(** * ChunkedBuffer: what its operations promise *)

From S2P Require Import Prelude.
From S2P Require Import Buffer.
From S2P Require Import ChunkedBuffer.
From S2P Require Import ChunkedProofs.
From S2P Require Import ChunkedGrowth.
Local Open Scope Z_scope.

(** ** Reads that succeed *)

Lemma holds_loaded m c q b a n y : (∀ j, 0 ≤ j < n → addr c (q + j) = Some (b, a + j)) → 0 ≤ n →
  mem_load (b, a) n m = (Ok y, m) → holds m c q y ∧ zlen y = n.
Proof.
  intros Ha Hn E. unfold mem_load in E. simpl in E. destruct (m !! b) as [[d|]|] eqn:Hb; [|done..].
  injection E as E. unfold memread in E. destruct ((0 <=? a) && (0 <=? n) && (a + n <=? zlen d)) eqn:Hg; [|done].
  apply andb_prop in Hg as [[Hg1%Z.leb_le _]%andb_prop Hg2%Z.leb_le]. injection E as <-.
  assert (zlen (slice a n d) = n) as Hz by (apply zlen_slice; lia). split; [|done].
  intros j v Hj. pose proof (lookup_lt_Some _ _ _ Hj) as Hl. unfold byte. rewrite Ha by (unfold zlen in Hz; lia).
  simpl. unfold at_addr. simpl. rewrite Hb. unfold slice in Hj. apply lookup_take_Some in Hj as [Hj _].
  rewrite lookup_drop in Hj. rewrite <- Hj. f_equal. lia.
Qed.

Lemma mem_load_state p n m : (mem_load p n m).2 = m.
Proof. unfold mem_load. by destruct (m !! p.1) as [[?|]|]. Qed.

Lemma read_chunks_inv m c : cb_ok m c → ∀ fuel n i k o y m', caps c !! i = Some k → 0 ≤ o < k → 0 ≤ n →
  lead (caps c) i + o + n ≤ capacity_ c → read_chunks fuel c n i o m = (Ok y, m') →
  m' = m ∧ holds m c (lead (caps c) i + o) y ∧ zlen y = n.
Proof.
  intros Hok. pose proof Hok as [Hs _]. pose proof (shape_small c Hs).
  induction fuel as [|fuel IH]; intros n i k o y m' Hi Ho Hn Hcap E; simpl in E; destruct (Z.eqb_spec n 0) as [->|Hnz];
    try (injection E as <- <-; split_and!; done); try done.
  pose proof (lead_bound _ _ _ (shape_caps c Hs) Hi) as Hlb. rewrite <- (shape_capacity c Hs) in Hlb.
  destruct (buffers_ c !! i) as [[p|]|] eqn:Hp; [|done..].
  rewrite (get_chunk_capacity_spec c i k Hs Hi) in E. unfold mbind, M_bind, lift in E.
  rewrite (u64_id (k - o)) in E by lia. set (b := Z.min n (k - o)) in *.
  pose proof (mem_load_state (p.1, p.2 + o) b m) as Hst.
  destruct (mem_load (p.1, p.2 + o) b m) as [[x| |] m1] eqn:E1; [|done..]. simpl in Hst. subst m1.
  destruct (holds_loaded m c (lead (caps c) i + o) p.1 (p.2 + o) b x) as [Hx Hz]; [|lia|done|].
  { apply (chunk_addr m c i k p o b); try done; lia. }
  destruct (read_chunks fuel c (n - b) (S i) 0 m) as [[z| |] m2] eqn:E2; [|done..]. injection E as <- <-.
  destruct (decide (n = b)) as [Hlast|Hmore].
  - replace (n - b) with 0 in E2 by lia. assert (m2 = m ∧ z = []) as [-> ->] by (destruct fuel; by injection E2 as <- <-).
    rewrite app_nil_r. split_and!; try done. lia.
  - assert (lead (caps c) (S i) = lead (caps c) i + o + b) as El by (rewrite (lead_S _ _ _ Hi); lia).
    destruct (next_chunk (caps c) i) as [k' Hk']; [rewrite <- (shape_capacity c Hs); lia|].
    pose proof (lead_bound _ _ _ (shape_caps c Hs) Hk').
    destruct (IH (n - b) (S i) k' 0 z m2) as (-> & Hh & Hz2); try done; try lia. split_and!; [done| |rewrite zlen_app; lia].
    apply holds_app. split; [done|]. by rewrite Hz, <- El, <- (Z.add_0_r (lead _ (S i))).
Qed.

(** A read returns bytes of the object. *)
Lemma read_inv m c q n y s : cb_ok m c → 0 < n → 0 ≤ q → q + n < 2 ^ 64 → read n q (m, c) = (Ok y, s) →
  s = (m, c) ∧ holds m c q y ∧ zlen y = n ∧ q + n ≤ size_ c.
Proof.
  intros Hok Hn Hq Hb E. pose proof Hok as [Hs Hp]. pose proof (shape_size c Hs).
  unfold read, mbind, M_bind, this, on_snd, get, lift in E. rewrite u64_id in E by lia.
  destruct (Z.ltb_spec (size_ c) (q + n)); [done|]. case_decide as Hc.
  - unfold get_contiguous, internal_buffer in E. rewrite decide_True in E by done.
    destruct (buffers_ c !! 0%nat) as [[[b a]|]|] eqn:Hb0; [|done..]. simpl in E. unfold on_fst in E.
    unfold placed in Hp. rewrite Hc in Hp. destruct Hp as [Hnull|(b' & d & Hd & Hdc & Hbs)].
    { by pose proof (Forall_lookup_1 _ _ _ _ Hnull Hb0). }
    destruct (lookup_lt_is_Some_2 (caps c) 0) as [k0 Hk0]; [rewrite (shape_len c Hs); by eapply lookup_lt_Some|].
    rewrite (Hbs _ _ Hk0) in Hb0. injection Hb0 as <- <-. rewrite lead_0 in E. change (0 + q) with q in E.
    pose proof (mem_load_state (b', q) n m) as Hst. destruct (mem_load (b', q) n m) as [r m1] eqn:E1.
    simpl in Hst. subst m1. injection E as -> <-.
    destruct (holds_loaded m c q b' q n y) as [Hh Hz]; [|lia|done|done].
    intros j Hj. assert (0 ≤ q + j < sum (caps c)) as Hr by (rewrite <- (shape_capacity c Hs); lia).
    destruct (locate_elim (caps c) _ (shape_caps c Hs) Hr) as (i & k & o & Hi & Ho & ->).
    by rewrite (addr_chunk c i k o _ Hs Hi Ho (Hbs i k Hi)).
  - assert (0 ≤ q < sum (caps c)) as Hr by (rewrite <- (shape_capacity c Hs); lia).
    destruct (locate_elim (caps c) q (shape_caps c Hs) Hr) as (i & k & o & Hi & Ho & ->).
    rewrite (translate_spec c i k o Hs Hi Ho) in E. unfold on_fst in E.
    destruct (read_chunks _ c n _ _ m) as [r m1] eqn:E1. injection E as -> <-.
    apply (read_chunks_inv m c Hok _ n i k o) in E1 as (-> & Hh & Hz); try done; lia.
Qed.

(** ** Reads and writes *)

(** C21. A write of a chunked buffer, whether its memory is one block or one
    block per chunk, whether chunks must be allocated, and whether the buffer
    must grow, succeeds; what was written reads back, and every other range
    reads as before. *)
Theorem chunked_write_read `{!Allocator} m c x q : ¬ out_of_memory → cb_ok m c → x ≠ [] → Forall byte_ok x →
  0 ≤ q → q + zlen x < 2 ^ 63 →
  (q + zlen x ≤ capacity_ c ∨ fixed_chunk_sizes c = true ∧ 0 < capacity_ c) →
  ∃ m' c', write x q (m, c) = (Ok (), (m', c')) ∧ cb_ok m' c' ∧
    size_ c' = Z.max (size_ c) (q + zlen x) ∧ capacity_ c' = Z.max (capacity_ c) (q + zlen x) ∧
    read (zlen x) q (m', c') = (Ok x, (m', c')) ∧
    ∀ q' n y, 0 < n → 0 ≤ q' → q' + n ≤ q ∨ q + zlen x ≤ q' → q' + n < 2 ^ 64 →
      read n q' (m, c) = (Ok y, (m, c)) → read n q' (m', c') = (Ok y, (m', c')).
Proof.
  intros Hmem Hok Hne Hx Hq Hb Hcap.
  destruct (chunked_write_spec Hmem m c x q) as (m' & c' & E & Hok' & Hh & Hz & _ & Hc & Hk); try done.
  exists m', c'. split_and!; try done; [apply read_bytes; try done; lia|].
  intros q' n y Hn Hq' Hdis Hb' Er. apply read_inv in Er as (_ & Hy & <- & Hsz); try done.
  apply read_bytes; try done; [by intros ->| |lia].
  intros j v Hj. pose proof (lookup_lt_Some _ _ _ Hj). apply Hk; [unfold zlen in *; lia|]. by apply Hy.
Qed.

(** ** Where a logical offset is *)

(** C22. [translate_logical_offset], by division for chunks of one size and by
    search for chunks of different sizes, finds the chunk that the reference
    definition [locate] finds from the list of all capacities. *)
Theorem translate_is_locate c q : shape c → 0 ≤ q < capacity_ c →
  ∃ i o, locate (caps c) q = Some (i, o) ∧ translate_logical_offset c q = Ok (i, o).
Proof.
  intros Hs Hq. rewrite (shape_capacity c Hs) in Hq.
  destruct (locate_elim (caps c) q (shape_caps c Hs) Hq) as (i & k & o & Hi & Ho & ->).
  exists i, o. split; [by eapply locate_intro; [apply shape_caps|..]|by eapply translate_spec].
Qed.

(** ** The sizes of the chunks *)

Lemma leading_capacity_spec c n : ∀ i, shape c → (i + n ≤ length (buffers_ c))%nat →
  leading_capacity c n i (lead (caps c) i) = Ok (lead (caps c) (i + n)).
Proof.
  induction n as [|n IH]; intros i Hs Hn; [by rewrite Nat.add_0_r|]. simpl leading_capacity.
  destruct (lookup_lt_is_Some_2 (caps c) i) as [k Hk]; [rewrite (shape_len c Hs); lia|].
  rewrite (get_chunk_capacity_spec c i k Hs Hk). cbn [mbind res_bind].
  pose proof (lead_bound _ _ _ (shape_caps c Hs) Hk) as Hb. rewrite <- (shape_capacity c Hs) in Hb.
  pose proof (shape_small c Hs). rewrite u64_id, <- (lead_S _ _ _ Hk), IH by (done || lia). do 2 f_equal. lia.
Qed.

(** The bytes of chunk [i] that are in use. *)
Definition used (c : t) (i : nat) (k : Z) : Z := Z.min k (Z.max 0 (size_ c - lead (caps c) i)).

Lemma chunk_size_spec c i k : shape c → caps c !! i = Some k → internal_buffer_size c i = Ok (used c i k).
Proof.
  intros Hs Hi. pose proof (lookup_lt_Some _ _ _ Hi) as Hlt. rewrite (shape_len c Hs) in Hlt.
  pose proof (lead_bound _ _ _ (shape_caps c Hs) Hi) as Hb. rewrite <- (shape_capacity c Hs) in Hb.
  pose proof (shape_small c Hs). pose proof (shape_size c Hs).
  pose proof (Forall_lookup_1 _ _ _ _ (shape_u32 c Hs) Hi) as Hu. simpl in Hu.
  unfold internal_buffer_size, get_chunk_size, used. destruct (Nat.leb_spec (length (buffers_ c)) i); [lia|].
  rewrite bool_decide_eq_true_2 by done. cbn [mbind res_bind massert].
  rewrite <- (lead_0 (caps c)) at 1. rewrite (leading_capacity_spec c i 0 Hs) by lia. cbn [mbind res_bind]. rewrite Nat.add_0_l.
  rewrite (get_chunk_capacity_spec c i k Hs Hi). cbn [mbind res_bind]. rewrite u64_id by lia.
  destruct (Z.leb_spec (size_ c) (lead (caps c) i)); [f_equal; lia|].
  destruct (Z.leb_spec (lead (caps c) i + k) (size_ c)); [f_equal; lia|].
  rewrite conv_id by (unfold_ctype; simpl; lia). f_equal. lia.
Qed.

Lemma used_sum ks s : Forall (Z.lt 0) ks → 0 ≤ s ≤ sum ks →
  sum (imap (λ i k, Z.min k (Z.max 0 (s - lead ks i))) ks) = s.
Proof.
  intros Hk. revert s. induction Hk as [|k ks Hk Hks IH]; intros s Hs; [unfold sum in *; simpl in *; lia|].
  change (sum (k :: ks)) with (k + sum ks) in Hs. rewrite imap_cons.
  change (sum (?x :: ?l)) with (x + sum l). rewrite lead_0.
  pose proof (sum_nonneg ks Hks). destruct (decide (s ≤ k)) as [Hle|Hgt].
  - rewrite (imap_ext _ (λ _ _, 0)).
    + assert (sum (imap (λ _ _, 0) ks) = 0) as ->; [|lia]. clear. generalize 0%nat. intros _. unfold sum. induction ks; [done|]. simpl. done.
    + intros i k' Hi. pose proof (lead_bound ks i k' Hks Hi). simpl. assert (lead (k :: ks) (S i) = k + lead ks i) as -> by done. lia.
  - rewrite (imap_ext _ (λ i k', Z.min k' (Z.max 0 ((s - k) - lead ks i)))).
    + rewrite IH by lia. lia.
    + intros i k' _. simpl. assert (lead (k :: ks) (S i) = k + lead ks i) as -> by done. f_equal. lia.
Qed.

(** The chunk sizes cut the first [size_] bytes of the logical buffer: every
    chunk index has a size, at most its capacity, only the last non-empty chunk
    is not full, and the sizes add up to [size_]. *)
Theorem chunk_sizes_partition c : shape c → ∃ ss, length ss = length (buffers_ c) ∧ sum ss = size_ c ∧
  ∀ i s, ss !! i = Some s → internal_buffer_size c i = Ok s ∧
    ∃ k, internal_buffer_capacity c i = Ok k ∧ 0 ≤ s ≤ k ∧ (s < k → ∀ j, (i < j)%nat → ss !! j = None ∨ ss !! j = Some 0).
Proof.
  intros Hs. exists (imap (used c) (caps c)). split_and!.
  - rewrite length_imap. by apply shape_len.
  - unfold used. apply used_sum; [by apply shape_caps|]. rewrite <- (shape_capacity c Hs). by apply shape_size.
  - intros i s. rewrite list_lookup_imap, fmap_Some. intros (k & Hk & ->). split; [by apply chunk_size_spec|].
    exists k. pose proof (lead_bound _ _ _ (shape_caps c Hs) Hk) as Hb. pose proof (lookup_lt_Some _ _ _ Hk) as Hlt.
    rewrite (shape_len c Hs) in Hlt. split_and!; [|unfold used; lia..|].
    + unfold internal_buffer_capacity. destruct (Nat.leb_spec (length (buffers_ c)) i); [lia|]. by apply get_chunk_capacity_spec.
    + intros Hlt' j Hj. rewrite list_lookup_imap. destruct (caps c !! j) as [k'|] eqn:Hj'; [|by left]. right. simpl.
      f_equal. unfold used in *. enough (lead (caps c) (S i) ≤ lead (caps c) j).
      { pose proof (Forall_lookup_1 _ _ _ _ (shape_caps c Hs) Hj'). rewrite (lead_S _ _ _ Hk) in *. lia. }
      unfold lead. rewrite <- (take_drop (S i) (take j (caps c))), sum_app, take_take, Nat.min_l by lia.
      pose proof (sum_nonneg (drop (S i) (take j (caps c)))) as Hnn.
      specialize (Hnn ltac:(by apply Forall_drop, Forall_take, shape_caps)). lia.
Qed.

(** Three discrete chunks of 4, 4 and 2 bytes, none allocated. *)
Definition sample_chunks : t := mk DISCRETE [None; None; None] 4 2 [] 10 0.

Lemma sample_chunks_ok : cb_ok [] sample_chunks.
Proof.
  destruct (init_fixed_spec [] DISCRETE 10 4) as (c & E & Hok & _); [lia..|].
  vm_compute in E. injection E as <-. done.
Qed.

Lemma chunked_write_read_witness : ∃ m' c',
  @write zero_allocator [1; 2; 3; 4; 5; 6] 6 ([], sample_chunks) = (Ok (), (m', c')) ∧
  capacity_ c' = 12 ∧ read 6 6 (m', c') = (Ok [1; 2; 3; 4; 5; 6], (m', c')).
Proof.
  destruct (@chunked_write_read zero_allocator [] sample_chunks [1; 2; 3; 4; 5; 6] 6) as (m' & c' & E & _ & _ & Hc & Er & _).
  - apply zero_allocator_total.
  - apply sample_chunks_ok.
  - done.
  - repeat constructor; unfold byte_ok; lia.
  - lia.
  - reflexivity.
  - right. split; [reflexivity|simpl; lia].
  - exists m', c'. split_and!; [exact E|exact Hc|exact Er].
Defined.

Lemma translate_is_locate_witness : ∃ i o, locate (caps sample_chunks) 9 = Some (i, o) ∧
  translate_logical_offset sample_chunks 9 = Ok (i, o).
Proof. apply translate_is_locate; [apply sample_chunks_ok|simpl; lia]. Defined.

Lemma chunk_sizes_partition_witness : ∃ ss, length ss = 3%nat ∧ sum ss = 7 ∧
  ∀ i s, ss !! i = Some s → internal_buffer_size (with_size sample_chunks 7) i = Ok s.
Proof.
  destruct (chunk_sizes_partition (with_size sample_chunks 7)) as (ss & Hl & Hs & Hi).
  - apply (cb_ok_size [] sample_chunks 7 sample_chunks_ok). simpl. lia.
  - exists ss. split_and!; [exact Hl|exact Hs|]. intros i s Es. apply (Hi i s Es).
Defined.

(** ** Freeing *)

(** The blocks of an object. *)
Definition owns (c : t) (b : nat) : Prop := ∃ i o, buffers_ c !! i = Some (Some (b, o)).

Lemma mem_free_spec m b d : live m b d → mem_free (Some (b, 0)) m = (Ok (), <[b := None]> m).
Proof. intros [Hb _]. unfold mem_free. by rewrite Hb. Qed.

Lemma free_chunks_spec c : buffer_addressing_ c = DISCRETE → ∀ l i m, drop i (buffers_ c) = l →
  (∀ j p, (i ≤ j)%nat → buffers_ c !! j = Some (Some p) → p.2 = 0 ∧ ∃ d, live m p.1 d) →
  (∀ j j' p p', buffers_ c !! j = Some (Some p) → buffers_ c !! j' = Some (Some p') → p.1 = p'.1 → j = j') →
  ∃ m', free_chunks l i (m, c) = (Ok (), (m', c)) ∧ length m' = length m ∧
    ∀ b, ((∃ j o, (i ≤ j)%nat ∧ buffers_ c !! j = Some (Some (b, o))) → m' !! b = Some None) ∧
         (¬ (∃ j o, (i ≤ j)%nat ∧ buffers_ c !! j = Some (Some (b, o))) → m' !! b = m !! b).
Proof.
  intros Hc l. induction l as [|op l IH]; intros i m Hl Hlive Hdis.
  { exists m. split_and!; try done. intros b. split; [|done]. intros (j & o & Hj & Hb). exfalso.
    assert (drop i (buffers_ c) !! (j - i)%nat = Some (Some (b, o))) as Hd by (rewrite lookup_drop; by replace (i + (j - i))%nat with j by lia).
    by rewrite Hl in Hd. }
  assert (buffers_ c !! i = Some op) as Hi by (rewrite <- (Nat.add_0_r i), <- lookup_drop, Hl; done).
  assert (drop (S i) (buffers_ c) = l) as Hl' by (by rewrite <- Nat.add_1_r, <- drop_drop, Hl).
  assert (∀ b, (∃ j o, (i ≤ j)%nat ∧ buffers_ c !! j = Some (Some (b, o))) ↔
    (∃ o, op = Some (b, o)) ∨ ∃ j o, (S i ≤ j)%nat ∧ buffers_ c !! j = Some (Some (b, o))) as Hsplit.
  { intros b. split.
    - intros (j & o & Hj & Hb). destruct (decide (j = i)) as [->|]; [left; exists o; congruence|right; exists j, o; split; [lia|done]].
    - intros [[o ->]|(j & o & Hj & Hb)]; [by exists i, o|exists j, o; split; [lia|done]]. }
  destruct op as [[b o]|]; simpl free_chunks.
  - destruct (Hlive i (b, o)) as (Ho & d & Hd); [done..|]. simpl in Ho. subst o.
    assert (free_discrete i (m, c) = (Ok (), (<[b := None]> m, c))) as E.
    { unfold free_discrete, this, on_snd, on_fst, mbind, M_bind, get. rewrite decide_True by done. rewrite Hi.
      by rewrite (mem_free_spec m b d Hd). }
    rewrite (M_step _ _ _ _ _ E). destruct (IH (S i) (<[b := None]> m) Hl') as (m' & E' & Hlen & Hm'); [|done|].
    { intros j p Hj Hp. destruct (Hlive j p) as (? & e & [He Hbe]); [lia|done|]. split; [done|]. exists e. split; [|done].
      rewrite list_lookup_insert_ne; [done|]. intros ->. enough (j = i) by lia. by apply (Hdis j i p (p.1, 0)). }
    exists m'. rewrite length_insert in Hlen. split_and!; try done. intros b'. rewrite Hsplit. split.
    + intros [[o' [= <- <-]]|Hr]; [|by apply Hm'].
      rewrite (proj2 (Hm' b)); [apply list_lookup_insert_eq; by eapply lookup_lt_Some, (proj1 Hd)|].
      intros (j & o' & Hj & Hb). enough (j = i) by lia. by apply (Hdis j i (b, o') (b, 0)).
    + intros Hn. rewrite (proj2 (Hm' b')); [|tauto]. rewrite list_lookup_insert_ne; [done|]. intros <-. apply Hn. left. by exists 0.
  - destruct (IH (S i) m Hl') as (m' & E' & Hlen & Hm'); [|done|].
    { intros j p Hj Hp. apply (Hlive j p); [lia|done]. }
    exists m'. split_and!; try done. intros b'. rewrite Hsplit. split.
    + intros [[o' ?]|Hr]; [done|by apply Hm'].
    + intros Hn. apply Hm'. tauto.
Qed.

(** [free] releases the blocks of [c], each once, and empties it. *)
Definition frees (m : Mem) (c : t) : Prop := ∃ m', free (m, c) = (Ok (), (m', empty)) ∧ length m' = length m ∧
  (∀ b, owns c b → m' !! b = Some None) ∧ (∀ b, ¬ owns c b → m' !! b = m !! b).

Lemma free_clear m c (op : CB unit) m' : op (m, c) = (Ok (), (m', c)) → (op;; on_snd clear) (m, c) = (Ok (), (m', empty)).
Proof. intros E. by rewrite (M_step _ _ _ _ _ E). Qed.

Lemma free_one_block m c : cb_ok m c → buffer_addressing_ c = CONTIGUOUS → frees m c.
Proof.
  intros [Hs Hp] Hc. unfold placed in Hp. rewrite Hc in Hp. unfold frees, free.
  assert (∀ A (K : t → CB A), (c0 ← this; K c0) (m, c) = K c (m, c)) as -> by done. rewrite decide_True by done.
  destruct Hp as [Hnull|(b & d & Hd & Hdc & Hb)].
  - exists m. split_and!; try done.
    + apply free_clear. destruct (buffers_ c) as [|[p|] l]; [done| |done]. apply Forall_cons in Hnull as [? _]. done.
    + intros b (i & o & Hi). by pose proof (Forall_lookup_1 _ _ _ _ Hnull Hi).
  - destruct (buffers_ c) as [|op l] eqn:El.
    { exists m. split_and!; [by apply free_clear|done| |done]. intros b' (i & o & Hi). by rewrite El in Hi. }
    destruct (lookup_lt_is_Some_2 (caps c) 0) as [k0 Hk0]; [rewrite (shape_len c Hs), El; simpl; lia|].
    pose proof (Hb _ _ Hk0) as H0. injection H0 as ->.
    assert (∀ b', owns c b' ↔ b' = b) as Ho.
    { intros b'. unfold owns. rewrite El. split.
      - intros (i & o & Hi). destruct (lookup_lt_is_Some_2 (caps c) i) as [k Hk].
        { rewrite (shape_len c Hs), El. by eapply lookup_lt_Some. }
        rewrite (Hb i k Hk) in Hi. by injection Hi.
      - intros ->. by exists 0%nat, (lead (caps c) 0). }
    exists (<[b := None]> m). rewrite length_insert. split_and!; try done.
    + apply free_clear. unfold free_contiguous, this, on_snd, on_fst, mbind, M_bind, get. rewrite El. cbn -[lead mem_free].
      by rewrite lead_0, (mem_free_spec m b d Hd).
    + intros b' ->%Ho. apply list_lookup_insert_eq. by eapply lookup_lt_Some, (proj1 Hd).
    + intros b' Hn. rewrite Ho in Hn. by rewrite list_lookup_insert_ne.
Qed.

Lemma free_all_blocks m c : cb_ok m c → buffer_addressing_ c = DISCRETE → frees m c.
Proof.
  intros [Hs Hp] Hc. unfold placed in Hp. rewrite Hc in Hp. unfold frees, free.
  assert (∀ A (K : t → CB A), (c0 ← this; K c0) (m, c) = K c (m, c)) as -> by done.
  rewrite decide_False by (by rewrite Hc). destruct Hp as [Hp1 Hp2].
  destruct (free_chunks_spec c Hc (buffers_ c) 0 m) as (m' & E & Hl & Hm'); try done.
  { intros j p _ Hj. destruct (lookup_lt_is_Some_2 (caps c) j) as [k Hk].
    { rewrite (shape_len c Hs). by eapply lookup_lt_Some. }
    destruct (Hp1 j p k Hj Hk) as (? & d & ? & _). split; [done|]. by exists d. }
  exists m'. split_and!; [by apply free_clear|done|..]; intros b Hb; apply (Hm' b).
  - destruct Hb as (i & o & Hi). exists i, o. split; [lia|done].
  - intros (i & o & _ & Hi). apply Hb. by exists i, o.
Qed.

Lemma free_empties m c : cb_ok m c → ∃ m', free (m, c) = (Ok (), (m', empty)).
Proof.
  intros Hok. destruct (buffer_addressing_ c) eqn:Hc; [destruct (free_one_block m c Hok Hc) as (m' & E & _)|
    destruct (free_all_blocks m c Hok Hc) as (m' & E & _)]; by exists m'.
Qed.

(** [free] releases every block of the object exactly once and no other
    block, and leaves the object empty. *)
Theorem free_releases m c : cb_ok m c → ∃ m', free (m, c) = (Ok (), (m', empty)) ∧ length m' = length m ∧
  (∀ b, owns c b → m' !! b = Some None) ∧ (∀ b, ¬ owns c b → m' !! b = m !! b).
Proof. intros Hok. destruct (buffer_addressing_ c) eqn:Hc; [by apply free_one_block|by apply free_all_blocks]. Qed.

Lemma free_releases_witness : ∃ m', free ([], sample_chunks) = (Ok (), (m', empty)).
Proof. destruct (free_releases [] sample_chunks sample_chunks_ok) as (m' & E & _). exists m'. exact E. Defined.

(** ** Copies *)

(** [deep_copy] of an object with a chunk that is not allocated yet makes a
    copy with more chunks than the original: the code appends the null pointer
    with [emplace_back] to a vector it has already resized. *)
Theorem deep_copy_adds_chunks : ∃ m' c', @deep_copy zero_allocator sample_chunks ([], empty) = (Ok (), (m', c')) ∧
  nchunks sample_chunks = 3 ∧ nchunks c' = 6 ∧ capacity_ c' = capacity_ sample_chunks.
Proof. eexists _, _. split; [vm_compute; reflexivity|]. done. Qed.
