(* ===== verification/Tile.v ===== *)
(** * Tile (tile/tile.cc): the cells of one tile of one attribute

    A tile holds its cells in a [ChunkedBuffer], or, filtered, in a [Buffer].
    The state of an operation is the memory of the chunks and the tile.  The
    pointer to the chunked buffer is its value; tiles that share one object
    ([clone(false)]) are not represented. *)

From S2P Require Import Prelude.
From S2P Require Import Enums.
From S2P Require Import ChunkedBuffer.
From S2P Require Import ConstBuffer.
From S2P Require Import Buffer.
Local Open Scope Z_scope.

Abbreviation Chunks := ChunkedBuffer.t.
Abbreviation Mem := ChunkedBuffer.Mem.
Abbreviation BufferAddressing := ChunkedBuffer.BufferAddressing.
Abbreviation CONTIGUOUS := ChunkedBuffer.CONTIGUOUS.
Abbreviation DISCRETE := ChunkedBuffer.DISCRETE.

(** [constants::max_tile_chunk_size]. *)
Definition max_tile_chunk_size : Z := 65536.

Definition compute_chunk_size (tile_size tile_dim_num tile_cell_size : Z) : res Z :=
  let dim_num := if 0 <? tile_dim_num then tile_dim_num else 1 in
  let dim_tile_size := tile_size / dim_num in
  let dim_cell_size := tile_cell_size / dim_num in
  let chunk_size64 := Z.min max_tile_chunk_size dim_tile_size in
  if dim_cell_size =? 0 then UB
  else
    let chunk_size64 := u64 (chunk_size64 / dim_cell_size * dim_cell_size) in
    let chunk_size64 := Z.max chunk_size64 dim_cell_size in
    if tmax U32 <? chunk_size64 then Err SC_Tile "Chunk size exceeds uint32_t"
    else Ok chunk_size64.

Record Tile : Type := mkTile {
  chunked_buffer_ : option Chunks;
  filtered_buffer_ : Buffer.t;
  offset_ : Z;
  cell_size_ : Z;
  dim_num_ : Z;
  format_version_ : Z;
  owns_chunked_buffer_ : bool;
  pre_filtered_size_ : Z;
  type_ : Datatype
}.

(** [Tile()]. *)
Definition empty_tile : Tile := mkTile None Buffer.empty 0 0 0 0 true 0 INT32.

Definition with_chunks (t : Tile) (c : Chunks) : Tile :=
  mkTile (Some c) (filtered_buffer_ t) (offset_ t) (cell_size_ t) (dim_num_ t) (format_version_ t)
         (owns_chunked_buffer_ t) (pre_filtered_size_ t) (type_ t).
Definition with_filtered (t : Tile) (b : Buffer.t) : Tile :=
  mkTile (chunked_buffer_ t) b (offset_ t) (cell_size_ t) (dim_num_ t) (format_version_ t)
         (owns_chunked_buffer_ t) (pre_filtered_size_ t) (type_ t).
Definition with_tile_offset (t : Tile) (o : Z) : Tile :=
  mkTile (chunked_buffer_ t) (filtered_buffer_ t) o (cell_size_ t) (dim_num_ t) (format_version_ t)
         (owns_chunked_buffer_ t) (pre_filtered_size_ t) (type_ t).
Definition with_pre_filtered_size (t : Tile) (n : Z) : Tile :=
  mkTile (chunked_buffer_ t) (filtered_buffer_ t) (offset_ t) (cell_size_ t) (dim_num_ t) (format_version_ t)
         (owns_chunked_buffer_ t) n (type_ t).
Definition with_owns (t : Tile) (b : bool) : Tile :=
  mkTile (chunked_buffer_ t) (filtered_buffer_ t) (offset_ t) (cell_size_ t) (dim_num_ t) (format_version_ t)
         b (pre_filtered_size_ t) (type_ t).

(** An operation of the chunked buffer; dereferencing a null pointer is
    undefined. *)
Definition on_chunks {A} (op : M (Mem * Chunks) A) : M (Mem * Tile) A := fun '(m, t) =>
  match chunked_buffer_ t with
  | Some c => let '(r, (m', c')) := op (m, c) in (r, (m', with_chunks t c'))
  | None => (UB, (m, t))
  end.

Definition the_tile : M (Mem * Tile) Tile := on_snd get.
Definition set_tile (t : Tile) : M (Mem * Tile) unit := on_snd (put t).

(** [buffer_to_contiguous_fixed_chunks], on memory the caller allocated. *)
Definition buffer_to_contiguous_fixed_chunks (buffer : option ChunkedBuffer.pointer)
    (buffer_size tile_dim_num tile_cell_size : Z) : M Chunks unit :=
  chunk_size ← lift (compute_chunk_size buffer_size tile_dim_num tile_cell_size);
  ChunkedBuffer.init_fixed_size CONTIGUOUS buffer_size chunk_size;;
  ChunkedBuffer.set_contiguous buffer;;
  ChunkedBuffer.set_size buffer_size.

(** The fields [init_unfiltered] and [init_filtered] set before anything can
    fail. *)
Definition reinit (t : Tile) (format_version : Z) (type : Datatype) (cell_size dim_num : Z) : Tile :=
  mkTile (Some ChunkedBuffer.empty) (filtered_buffer_ t) (offset_ t) cell_size dim_num format_version
         (owns_chunked_buffer_ t) (pre_filtered_size_ t) type.

Definition init_unfiltered (format_version : Z) (type : Datatype) (tile_size cell_size dim_num : Z) :
    M (Mem * Tile) unit :=
  t ← the_tile;
  set_tile (reinit t format_version type cell_size dim_num);;
  chunk_size ← lift (compute_chunk_size tile_size dim_num cell_size);
  on_chunks (on_snd (ChunkedBuffer.init_fixed_size CONTIGUOUS tile_size chunk_size)).

Definition init_filtered (format_version : Z) (type : Datatype) (cell_size dim_num : Z) : M (Mem * Tile) unit :=
  t ← the_tile; set_tile (reinit t format_version type cell_size dim_num).

(** [filtered], with its assertion. *)
Definition filtered (t : Tile) : res bool :=
  let f := 0 <? alloced_size_ (filtered_buffer_ t) in
  match chunked_buffer_ t with
  | Some c => massert (negb (f && (0 <? ChunkedBuffer.size_ c)));; Ok f
  | None => if f then UB else Ok f
  end.

Definition assert_unfiltered (t : Tile) : res unit := f ← filtered t; massert (negb f).

Definition size (t : Tile) : res Z :=
  assert_unfiltered t;;
  Ok (match chunked_buffer_ t with Some c => ChunkedBuffer.size_ c | None => 0 end).

Definition cell_num (t : Tile) : res Z := s ← size t; if cell_size_ t =? 0 then UB else Ok (s / cell_size_ t).

Definition empty (t : Tile) : res bool :=
  assert_unfiltered t;;
  Ok (match chunked_buffer_ t with Some c => ChunkedBuffer.size_ c =? 0 | None => true end).

Definition full (t : Tile) : res bool :=
  assert_unfiltered t;;
  e ← empty t;
  Ok (match chunked_buffer_ t with
      | Some c => negb e && (ChunkedBuffer.capacity_ c <=? offset_ t)
      | None => false
      end).

Definition advance_offset (nbytes : Z) : M (Mem * Tile) unit :=
  t ← the_tile; set_tile (with_tile_offset t (u64 (offset_ t + nbytes))).

Definition set_offset (o : Z) : M (Mem * Tile) unit := t ← the_tile; set_tile (with_tile_offset t o).
Definition reset_offset : M (Mem * Tile) unit := set_offset 0.
Definition set_pre_filtered_size (n : Z) : M (Mem * Tile) unit :=
  t ← the_tile; set_tile (with_pre_filtered_size t n).
Definition disown_buff : M (Mem * Tile) unit := t ← the_tile; set_tile (with_owns t false).

(** [reset_size] discards the status. *)
Definition reset_size : M (Mem * Tile) unit :=
  t ← the_tile;
  lift (assert_unfiltered t);;
  on_chunks (on_snd (fun c => let '(r, c') := ChunkedBuffer.set_size 0 c in (Ok (), c'))).

Definition reset : M (Mem * Tile) unit := reset_offset;; reset_size.

Definition read (nbytes : Z) : M (Mem * Tile) (list Z) :=
  t ← the_tile;
  lift (assert_unfiltered t);;
  x ← on_chunks (ChunkedBuffer.read nbytes (offset_ t));
  advance_offset nbytes;;
  mret x.

Definition read_at (nbytes offset : Z) : M (Mem * Tile) (list Z) :=
  t ← the_tile;
  lift (assert_unfiltered t);;
  on_chunks (ChunkedBuffer.read nbytes offset).

(** [write(const void* data, uint64_t nbytes)]. *)
Definition write `{Allocator} (x : list Z) : M (Mem * Tile) unit :=
  t ← the_tile;
  lift (assert_unfiltered t);;
  on_chunks (ChunkedBuffer.write x (offset_ t));;
  advance_offset (zlen x).

(** [write(ConstBuffer* buf, uint64_t nbytes)]: the buffer's offset stays;
    [write(ConstBuffer* buf)] writes [buf->size()] bytes. *)
Definition write_buffer `{Allocator} (buf : ConstBuffer.t) (nbytes : Z) : M (Mem * Tile) unit :=
  x ← lift (memread (block (ConstBuffer.data_ buf)) (ConstBuffer.offset_ buf) nbytes);
  write x.

(** [~Tile()]. *)
Definition destroy : M (Mem * Tile) unit :=
  t ← the_tile;
  match chunked_buffer_ t with
  | Some _ => if owns_chunked_buffer_ t then on_chunks ChunkedBuffer.free else mret ()
  | None => mret ()
  end.

(** The loops of [zip_coordinates] over the cells, [n] still to go, and over
    the dimensions. *)
Fixpoint zip_cells (n : nat) (tile_tmp tile_c : list Z) (cell_size coord_size ptr ptr_tmp : Z) : res (list Z * Z) :=
  match n with
  | O => Ok (tile_c, ptr_tmp)
  | S n =>
      x ← memread tile_tmp ptr_tmp coord_size;
      tile_c ← memwrite tile_c ptr x;
      zip_cells n tile_tmp tile_c cell_size coord_size (u64 (ptr + cell_size)) (u64 (ptr_tmp + coord_size))
  end.

Fixpoint zip_dims (n : nat) (j : Z) (cell_num : nat) (tile_tmp tile_c : list Z)
    (cell_size coord_size ptr_tmp : Z) : res (list Z) :=
  match n with
  | O => Ok tile_c
  | S n =>
      r ← zip_cells cell_num tile_tmp tile_c cell_size coord_size (u64 (j * coord_size)) ptr_tmp;
      zip_dims n (j + 1) cell_num tile_tmp r.1 cell_size coord_size r.2
  end.

Definition zip_coordinates `{Allocator} : M (Mem * Tile) unit :=
  t ← the_tile;
  lift (massert (0 <? dim_num_ t));;
  match chunked_buffer_ t with
  | None => lift UB
  | Some c =>
      let tile_size := ChunkedBuffer.size_ c in
      let coord_size := cell_size_ t / dim_num_ t in
      if cell_size_ t =? 0 then lift UB
      else
        let cell_num := tile_size / cell_size_ t in
        lift (massert (bool_decide (ChunkedBuffer.buffer_addressing_ c = CONTIGUOUS)));;
        p ← lift (ChunkedBuffer.get_contiguous c);
        p ← lift (ChunkedBuffer.plus p 0);
        tile_tmp ← on_fst (ChunkedBuffer.mem_load p tile_size);
        match malloc tile_size with
        | None => lift UB
        | Some _ =>
            tile_c ← lift (zip_dims (Z.to_nat (dim_num_ t)) 0 (Z.to_nat cell_num) tile_tmp tile_tmp
                             (cell_size_ t) coord_size 0);
            on_fst (ChunkedBuffer.mem_store p tile_c)
        end
  end.
