(* ===== verification/Shuffle.v ===== *)
(** * Byte shuffling (external/src/blosc/shuffle-generic.cc)

    The element-copying loops that [blosc::shuffle] and [blosc::unshuffle] run
    on hardware without vector units; [dest] is the memory written to. *)

From S2P Require Import Prelude.

(** [for (k : ks) dest[pos k] = val k]. *)
Definition scatter {K} (pos : K → nat) (val : K → Z) (ks : list K) (dest : list Z) : list Z :=
  foldl (λ d k, <[pos k := val k]> d) dest ks.

Definition shuffle_generic_inline (type_size vectorizable_blocksize blocksize : nat)
    (src dest : list Z) : list Z :=
  let neblock_quot := blocksize / type_size in
  let neblock_rem := blocksize mod type_size in
  let vectorizable_elements := vectorizable_blocksize / type_size in
  let dest :=
    foldl (λ d j,
      scatter (λ i, j * neblock_quot + i) (λ i, nth (i * type_size + j) src 0%Z)
        (seq vectorizable_elements (neblock_quot - vectorizable_elements)) d)
      dest (seq 0 type_size) in
  take (blocksize - neblock_rem) dest ++
  take neblock_rem (drop (blocksize - neblock_rem) src) ++ drop blocksize dest.

Definition unshuffle_generic_inline (type_size vectorizable_blocksize blocksize : nat)
    (src dest : list Z) : list Z :=
  let neblock_quot := blocksize / type_size in
  let neblock_rem := blocksize mod type_size in
  let vectorizable_elements := vectorizable_blocksize / type_size in
  let dest :=
    foldl (λ d i,
      scatter (λ j, i * type_size + j) (λ j, nth (j * neblock_quot + i) src 0%Z)
        (seq 0 type_size) d)
      dest (seq vectorizable_elements (neblock_quot - vectorizable_elements)) in
  take (blocksize - neblock_rem) dest ++
  take neblock_rem (drop (blocksize - neblock_rem) src) ++ drop blocksize dest.

Definition shuffle_generic (bytesoftype blocksize : nat) (src dest : list Z) : list Z :=
  shuffle_generic_inline bytesoftype 0 blocksize src dest.

Definition unshuffle_generic (bytesoftype blocksize : nat) (src dest : list Z) : list Z :=
  unshuffle_generic_inline bytesoftype 0 blocksize src dest.

(** ** The loops as one pass over index pairs *)

Lemma length_scatter {K} pos val (ks : list K) d : length (scatter pos val ks d) = length d.
Proof.
  unfold scatter. revert d. induction ks as [|k ks IH]; intros d; [done|].
  simpl. rewrite IH. apply length_insert.
Qed.

Lemma scatter_ne {K} pos val (ks : list K) d p :
  (∀ k, k ∈ ks → pos k ≠ p) → scatter pos val ks d !! p = d !! p.
Proof.
  unfold scatter. revert d. induction ks as [|k ks IH]; intros d Hne; [done|]. simpl.
  rewrite IH by (intros; apply Hne; by right). apply list_lookup_insert_ne, Hne. left.
Qed.

Lemma scatter_eq {K} (pos : K → nat) val ks d k :
  (∀ a b, a ∈ ks → b ∈ ks → pos a = pos b → a = b) → k ∈ ks → (pos k < length d)%nat →
  scatter pos val ks d !! pos k = Some (val k).
Proof.
  revert d. induction ks as [|a ks IH]; intros d Hinj Hk Hlt; [by apply not_elem_of_nil in Hk|].
  change (scatter pos val (a :: ks) d) with (scatter pos val ks (<[pos a := val a]> d)).
  destruct (decide (pos k ∈ pos <$> ks)) as [(c & Epc & Hc)%list_elem_of_fmap|Hno].
  - assert (c = k) as -> by (apply Hinj; [by right|done|done]).
    apply IH; [|done|by rewrite length_insert]. intros x y Hx Hy. apply Hinj; by right.
  - apply elem_of_cons in Hk as [->|Hk]; [|destruct Hno; by apply list_elem_of_fmap_2].
    rewrite scatter_ne; [by apply list_lookup_insert_eq|]. intros x Hx E. apply Hno. rewrite <- E. by apply list_elem_of_fmap_2.
Qed.

Definition pairs (js is_ : list nat) : list (nat * nat) := js ≫= λ j, pair j <$> is_.

Lemma elem_of_pairs js is_ p : p ∈ pairs js is_ ↔ p.1 ∈ js ∧ p.2 ∈ is_.
Proof.
  unfold pairs. rewrite list_elem_of_bind. destruct p as [j i]. simpl. split.
  - intros (x & (y & [= -> ->] & Hy)%list_elem_of_fmap & Hx). done.
  - intros [Hj Hi]. exists j. split; [|done]. by apply list_elem_of_fmap_2.
Qed.

Lemma nested_scatter (pos : nat → nat → nat) (val : nat → nat → Z) is_ js d :
  foldl (λ d j, scatter (pos j) (val j) is_ d) d js =
  scatter (uncurry pos) (uncurry val) (pairs js is_) d.
Proof.
  revert d. induction js as [|j js IH]; intros d; [done|]. simpl. rewrite IH.
  unfold pairs. simpl. unfold scatter. rewrite foldl_app, foldl_fmap. done.
Qed.

(** A table filled by two nested loops, with rows of [n] entries. *)
Lemma scatter_table (val : nat → nat → Z) m n d j i :
  m * n ≤ length d → j < m → i < n →
  foldl (λ d j, scatter (λ i, j * n + i) (val j) (seq 0 n) d) d (seq 0 m) !! (j * n + i) =
  Some (val j i).
Proof.
  intros Hd Hj Hi. rewrite (nested_scatter (λ j i, j * n + i)).
  apply (scatter_eq (uncurry (λ j i, j * n + i)) (uncurry val) _ d (j, i)).
  - intros [j1 i1] [j2 i2]. rewrite !elem_of_pairs, !elem_of_seq. simpl.
    intros [_ H1] [_ H2] E. destruct (Nat.div_mod_unique n j1 j2 i1 i2); try lia. by subst.
  - apply elem_of_pairs. rewrite !elem_of_seq. simpl. lia.
  - simpl. nia.
Qed.

Lemma length_nested (pos : nat → nat → nat) (val : nat → nat → Z) is_ js d :
  length (foldl (λ d j, scatter (pos j) (val j) is_ d) d js) = length d.
Proof. rewrite nested_scatter. apply length_scatter. Qed.

Lemma lookup_nth (l : list Z) k : k < length l → Some (nth k l 0%Z) = l !! k.
Proof.
  intros Hk. destruct (lookup_lt_is_Some_2 l k Hk) as [x Hx]. by rewrite Hx, (nth_lookup_Some _ _ _ _ Hx).
Qed.

Section Roundtrip.
Variables (ts : nat) (src : list Z).
Hypothesis Hts : ts ≠ 0.
Abbreviation n := (length src / ts).

Lemma quot_le : ts * n ≤ length src.
Proof. apply Nat.Div0.mul_div_le. Qed.

Lemma quot_rem : length src - length src mod ts = ts * n.
Proof. pose proof (Nat.div_mod (length src) ts Hts). lia. Qed.

Lemma length_shuffle d : length d = length src →
  length (shuffle_generic ts (length src) src d) = length src.
Proof.
  intros Hd. unfold shuffle_generic, shuffle_generic_inline.
  rewrite !length_app, !length_take, !length_drop, length_nested.
  pose proof (Nat.Div0.mod_le (length src) ts). lia.
Qed.

Lemma length_unshuffle s d : length d = length src → length s = length src →
  length (unshuffle_generic ts (length src) s d) = length src.
Proof.
  intros Hd Hs. unfold unshuffle_generic, unshuffle_generic_inline.
  rewrite !length_app, !length_take, !length_drop, length_nested.
  pose proof (Nat.Div0.mod_le (length src) ts). lia.
Qed.

Lemma shuffle_elem d j i : length d = length src → j < ts → i < n →
  shuffle_generic ts (length src) src d !! (j * n + i) = src !! (i * ts + j).
Proof.
  intros Hd Hj Hi. pose proof quot_le. unfold shuffle_generic, shuffle_generic_inline.
  rewrite Nat.Div0.div_0_l, Nat.sub_0_r, quot_rem.
  rewrite lookup_app_l by (rewrite length_take, length_nested; nia).
  rewrite lookup_take_lt by nia. rewrite scatter_table by lia || nia.
  apply lookup_nth. nia.
Qed.

Lemma shuffle_rest d k : length d = length src → ts * n ≤ k < length src →
  shuffle_generic ts (length src) src d !! k = src !! k.
Proof.
  intros Hd Hk. pose proof quot_le. unfold shuffle_generic, shuffle_generic_inline.
  rewrite quot_rem. rewrite lookup_app_r; rewrite length_take, length_nested; [|lia].
  rewrite lookup_app_l by (rewrite length_take, length_drop; pose proof quot_rem; lia).
  rewrite lookup_take_lt by (pose proof quot_rem; lia). rewrite lookup_drop. f_equal. lia.
Qed.

(** [unshuffle] undoes [shuffle], whatever the memory held before. *)
Lemma unshuffle_shuffle d1 d2 : length d1 = length src → length d2 = length src →
  unshuffle_generic ts (length src) (shuffle_generic ts (length src) src d1) d2 = src.
Proof.
  intros H1 H2. pose proof quot_le as Hq. pose proof quot_rem as Hr.
  pose proof (length_shuffle d1 H1) as Hl. set (s := shuffle_generic ts (length src) src d1) in *.
  apply list_eq_same_length with (length src); [done|by apply length_unshuffle|].
  intros k x y Hk Hx Hy. cut (Some x = Some y); [congruence|]. rewrite <- Hx, <- Hy. clear x y Hx Hy.
  unfold unshuffle_generic, unshuffle_generic_inline.
  rewrite Nat.Div0.div_0_l, Nat.sub_0_r, Hr.
  destruct (decide (k < ts * n)) as [Hlt|Hge].
  - rewrite lookup_app_l by (rewrite length_take, length_nested; lia). rewrite lookup_take_lt by lia.
    pose proof (Nat.div_mod k ts Hts) as Ek. pose proof (Nat.mod_upper_bound k ts Hts).
    assert (k / ts < n) by (apply Nat.Div0.div_lt_upper_bound; lia).
    replace k with (k / ts * ts + k mod ts) at 1 by lia.
    rewrite (scatter_table (λ i j, nth (j * n + i) s 0%Z)) by lia || nia.
    rewrite lookup_nth by nia. unfold s. rewrite shuffle_elem by lia. f_equal. lia.
  - rewrite lookup_app_r; rewrite length_take, length_nested; [|lia].
    rewrite lookup_app_l by (rewrite length_take, length_drop; lia).
    rewrite lookup_take_lt by lia. rewrite lookup_drop.
    rewrite Nat.min_l by lia. replace (ts * n + (k - ts * n)) with k by lia.
    unfold s. by rewrite shuffle_rest by lia.
Qed.
End Roundtrip.
