(* ===== verification/FilterBuffer.v ===== *)
(** * FilterBuffer and FilterStorage (filter/filter_buffer.cc, filter/filter_storage.cc)

    A filter reads and writes [FilterBuffer]s: lists of segments, each a whole
    [Buffer] or a view of part of one.  Buffers are shared ([shared_ptr]) and
    recycled by a [FilterStorage], so the model has a store: the heap of
    [Buffer] objects, the pool's two lists, and the four [FilterBuffer]s of a
    pipeline stage.  A view does not copy: it designates bytes of a buffer of
    the heap. *)

From stdpp Require Import functions.
From S2P Require Import Prelude.
From S2P Require Import ConstBuffer.
From S2P Require Import Buffer.
Local Open Scope Z_scope.

(** [BufferOrView]: the underlying buffer, by its place in the heap; a view
    carries its place in that buffer.  The [Buffer] object inside a view never
    changes its size, and its offset is set before each use. *)
Inductive BufferOrView : Set :=
  | Own (id : nat)
  | View (id : nat) (off nbytes : Z).

Definition underlying_buffer (s : BufferOrView) : nat :=
  match s with Own id => id | View id _ _ => id end.

Definition is_view (s : BufferOrView) : bool :=
  match s with Own _ => false | View _ _ _ => true end.

Definition get_view (s : BufferOrView) (offset nbytes : Z) : BufferOrView :=
  match s with
  | Own id => View id offset nbytes
  | View id o _ => View id (o + offset) nbytes
  end.

(** [current_buffer_] is a position in [buffers_]; the length stands for
    [end()].  Of [fixed_allocation_data_], only whether it is null is used. *)
Record FilterBuffer : Type := mkFB {
  buffers_ : list BufferOrView;
  current_buffer_ : nat;
  current_relative_offset_ : Z;
  fixed_allocation_data_ : bool;
  fixed_allocation_op_allowed_ : bool;
  offset_ : Z;
  read_only_ : bool
}.

(** The constructor. *)
Definition empty_fb : FilterBuffer := mkFB [] 0 0 false false 0 false.

Definition with_cursor (f : FilterBuffer) (i : nat) (rel : Z) : FilterBuffer :=
  mkFB (buffers_ f) i rel (fixed_allocation_data_ f) (fixed_allocation_op_allowed_ f)
       (offset_ f) (read_only_ f).
Definition with_fb_offset (f : FilterBuffer) (o : Z) : FilterBuffer :=
  mkFB (buffers_ f) (current_buffer_ f) (current_relative_offset_ f)
       (fixed_allocation_data_ f) (fixed_allocation_op_allowed_ f) o (read_only_ f).
Definition with_buffers (f : FilterBuffer) (l : list BufferOrView) : FilterBuffer :=
  mkFB l (current_buffer_ f) (current_relative_offset_ f)
       (fixed_allocation_data_ f) (fixed_allocation_op_allowed_ f) (offset_ f) (read_only_ f).
Definition with_read_only (f : FilterBuffer) (b : bool) : FilterBuffer :=
  mkFB (buffers_ f) (current_buffer_ f) (current_relative_offset_ f)
       (fixed_allocation_data_ f) (fixed_allocation_op_allowed_ f) (offset_ f) b.
Definition with_fixed (f : FilterBuffer) (data allowed : bool) : FilterBuffer :=
  mkFB (buffers_ f) (current_buffer_ f) (current_relative_offset_ f) data allowed
       (offset_ f) (read_only_ f).

(** The four buffers a pipeline hands to a filter. *)
Inductive fbname : Set := input_metadata | input_data | output_metadata | output_data.

#[global] Instance fbname_eq_dec : EqDecision fbname.
Proof. solve_decision. Defined.

Definition fbnames : list fbname := [input_metadata; input_data; output_metadata; output_data].

Record Store : Type := mkStore {
  heap : list Buffer.t;
  available_ : list nat;
  in_use_ : list nat;
  bufs : fbname → FilterBuffer
}.

Definition with_heap (s : Store) (h : list Buffer.t) : Store :=
  mkStore h (available_ s) (in_use_ s) (bufs s).
Definition with_fb (s : Store) (n : fbname) (f : FilterBuffer) : Store :=
  mkStore (heap s) (available_ s) (in_use_ s) (<[n := f]> (bufs s)).

Definition all_segs (s : Store) : list BufferOrView := fbnames ≫= λ n, buffers_ (bufs s n).

(** How many segments designate the buffer [id]. *)
Definition refs (s : Store) (id : nat) : nat :=
  count_occ Nat.eq_dec (underlying_buffer <$> all_segs s) id.

(** ** Access to the heap *)

Definition fb (n : fbname) : M Store FilterBuffer := fun s => (Ok (bufs s n), s).
Definition set_fb (n : fbname) (f : FilterBuffer) : M Store unit := fun s =>
  (Ok (), with_fb s n f).
Definition set_cursor (n : fbname) (i : nat) (rel : Z) : M Store unit := fun s =>
  (Ok (), with_fb s n (with_cursor (bufs s n) i rel)).

Definition on_heap {A} (id : nat) (m : M Buffer.t A) : M Store A := fun s =>
  match heap s !! id with
  | Some b => let '(r, b') := m b in (r, with_heap s (<[id := b']> (heap s)))
  | None => (UB, s)
  end.

(** [BufferOrView::buffer()]. *)
Definition buffer (s : BufferOrView) : M Store Buffer.t := fun st =>
  match heap st !! underlying_buffer s with
  | None => (UB, st)
  | Some b =>
      match s with
      | Own _ => (Ok b, st)
      | View _ off n =>
          match memread (block (data_ b)) off n with
          | Ok x => (Ok (Buffer.make (Some x) n), st)
          | _ => (UB, st)
          end
      end
  end.

(** An operation of the segment's [Buffer] that changes at most its offset. *)
Definition with_buffer {A} (s : BufferOrView) (m : M Buffer.t A) : M Store A :=
  match s with
  | Own id => on_heap id m
  | View _ _ _ => b ← buffer s; lift (fst (m b))
  end.

(** [memcpy] to [buffer()->value_ptr(rel)]. *)
Definition poke (s : BufferOrView) (rel : Z) (x : list Z) : M Store unit :=
  let at_ := match s with Own _ => rel | View _ off _ => off + rel end in
  on_heap (underlying_buffer s) (fun b =>
    match memwrite (block (data_ b)) at_ x with
    | Ok d => (Ok (), mk (alloced_size_ b) (Some d) (Buffer.offset_ b) (owns_data_ b) (size_ b))
    | _ => (UB, b)
    end).

(** The room of a buffer: what it has allocated, or its size when the memory
    is not its own. *)
Definition capacity (b : Buffer.t) : Z := if owns_data_ b then alloced_size_ b else size_ b.

(** ** FilterStorage *)

Definition get_buffer : M Store nat := fun s =>
  match available_ s with
  | id :: l => (Ok id, mkStore (heap s) l (in_use_ s ++ [id]) (bufs s))
  | [] => let id := length (heap s) in
          (Ok id, mkStore (heap s ++ [Buffer.empty]) [] (in_use_ s ++ [id]) (bufs s))
  end.

Definition num_available (s : Store) : Z := zlen (available_ s).
Definition num_in_use (s : Store) : Z := zlen (in_use_ s).

(** Move [id] from [in_use_] to the front of [available_]. *)
Definition make_available (id : nat) : M Store unit := fun s =>
  (Ok (), mkStore (heap s) (id :: available_ s) (list_difference (in_use_ s) [id]) (bufs s)).

(** [reclaim]: an unused buffer is referenced by [in_use_] alone. *)
Definition reclaim (id : nat) : M Store unit := fun s =>
  if negb (bool_decide (id ∈ in_use_ s)) then (Ok (), s)
  else if (1 + refs s id =? 1)%nat then (on_heap id Buffer.reset_size;; make_available id) s
  else (Ok (), s).

(** ** FilterBuffer *)

Definition not_ok {A} (e : string) : M Store A := fail SC_Filter ("FilterBuffer error; " ++ e).

(** [swap]: the two objects exchange every field (they share [storage_]). *)
Definition swap (n m : fbname) : M Store unit :=
  f ← fb n; g ← fb m;
  if read_only_ f || read_only_ g then not_ok "cannot swap read-only buffers."
  else set_fb n g;; set_fb m f.

Definition new_buffer (b : Buffer.t) : M Store nat := fun s =>
  (Ok (length (heap s)), with_heap s (heap s ++ [b])).

(** [init(data, nbytes)]: a new [Buffer] object on memory of the caller. *)
Definition init (n : fbname) (data : option (list Z)) (nbytes : Z) : M Store unit :=
  f ← fb n;
  if negb (bool_decide (buffers_ f = [])) then not_ok "cannot init buffer: not empty."
  else if negb (bool_decide (is_Some data)) then not_ok "cannot init buffer: nullptr given."
  else if read_only_ f then not_ok "cannot init buffer: read-only."
  else
    id ← new_buffer (Buffer.make data nbytes);
    set_fb n (mkFB [Own id] 0 0 (fixed_allocation_data_ f)
                   (fixed_allocation_op_allowed_ f) 0 (read_only_ f)).

Definition set_fixed_allocation (n : fbname) (buffer : option (list Z)) (nbytes : Z) : M Store unit :=
  f ← fb n;
  if negb (bool_decide (buffers_ f = [])) || fixed_allocation_data_ f then
    not_ok "cannot set fixed allocation: not empty."
  else if read_only_ f then not_ok "cannot set fixed allocation: read-only."
  else
    init n buffer nbytes;;
    f ← fb n;
    set_fb n (with_fixed f true true).

(** [copy_to(Buffer* dest)], on a destination outside the store. *)
Fixpoint copy_segs `{Allocator} (l : list BufferOrView) (dest : Buffer.t) : M Store Buffer.t :=
  match l with
  | [] => mret dest
  | s :: l =>
      with_buffer s Buffer.reset_offset;;
      b ← buffer s;
      x ← lift (memread (block (data_ b)) 0 (size_ b));
      match Buffer.write x dest with
      | (Ok _, dest) => copy_segs l dest
      | (Err c e, _) => fail c e
      | (UB, _) => lift UB
      end
  end.

Definition copy_to_buffer `{Allocator} (n : fbname) (dest : Buffer.t) : M Store Buffer.t :=
  f ← fb n; copy_segs (buffers_ f) dest.

(** [copy_to(void* dest)]: [dest] is the memory from that address on. *)
Fixpoint copy_mem (l : list BufferOrView) (dest : list Z) (dest_offset : Z) : M Store (list Z) :=
  match l with
  | [] => mret dest
  | s :: l =>
      b ← buffer s;
      x ← lift (memread (block (data_ b)) 0 (size_ b));
      dest ← lift (memwrite dest dest_offset x);
      copy_mem l dest (u64 (dest_offset + size_ b))
  end.

Definition copy_to (n : fbname) (dest : list Z) : M Store (list Z) :=
  f ← fb n; copy_mem (buffers_ f) dest 0.

Definition get_const_buffer (n : fbname) (nbytes : Z) : M Store ConstBuffer.t :=
  f ← fb n;
  match buffers_ f !! current_buffer_ f with
  | None => not_ok "no current buffer."
  | Some s =>
      buf ← buffer s;
      let bytes_in_buf := u64 (size_ buf - current_relative_offset_ f) in
      if bytes_in_buf <? nbytes then not_ok "ConstBuffer would span multiple regions."
      else mret (ConstBuffer.make
             (drop (Z.to_nat (current_relative_offset_ f)) <$> data_ buf) nbytes)
  end.

(** [buffers()]: a [ConstBuffer] per segment. *)
Fixpoint const_buffers (l : list BufferOrView) : M Store (list ConstBuffer.t) :=
  match l with
  | [] => mret []
  | s :: l =>
      b ← buffer s;
      cs ← const_buffers l;
      mret (ConstBuffer.make (data_ b) (size_ b) :: cs)
  end.

Definition buffers (n : fbname) : M Store (list ConstBuffer.t) :=
  f ← fb n; const_buffers (buffers_ f).

Definition num_buffers (n : fbname) : M Store Z := f ← fb n; mret (zlen (buffers_ f)).

(** [buffer_ptr(index)]: the buffer of a segment, or null.  Writing through a
    pointer to a view is outside the model. *)
Definition buffer_ptr (n : fbname) (index : nat) : M Store (option nat) :=
  f ← fb n;
  lift (massert (negb (read_only_ f)));;
  match buffers_ f !! index with
  | Some (Own id) => on_heap id Buffer.reset_offset;; mret (Some id)
  | Some (View _ _ _) => lift UB
  | None => mret None
  end.

(** An operation of the buffer behind such a pointer.  It may move the data,
    so no other segment may designate the buffer. *)
Definition on_ptr {A} (id : nat) (m : M Buffer.t A) : M Store A := fun s =>
  if (refs s id =? 1)%nat then on_heap id m s else (UB, s).

(** The loop of [read], from the segment number [i] on; the bytes read and the
    number of bytes left. *)
Fixpoint read_loop (n : fbname) (l : list BufferOrView) (i : nat) (bytes_left : Z) :
    M Store (list Z * Z) :=
  match l with
  | [] => mret ([], bytes_left)
  | s :: l =>
      f ← fb n;
      src ← buffer s;
      let rel := current_relative_offset_ f in
      let bytes_in_src := u64 (size_ src - rel) in
      let bytes_from_src := Z.min bytes_in_src bytes_left in
      x ← with_buffer s (_ ← Buffer.set_offset rel; Buffer.read bytes_from_src);
      let bytes_left := bytes_left - bytes_from_src in
      if bytes_left =? 0 then
        set_cursor n i (u64 (rel + bytes_from_src));; mret (x, 0)
      else
        set_cursor n i 0;;
        y ← read_loop n l (S i) bytes_left;
        mret (x ++ fst y, snd y)
  end.

(** "Adjust the offset and advance to next buffer if we're at the end of it",
    with the buffer's end given by [bound]. *)
Definition step_cursor (n : fbname) (nbytes : Z) (bound : Buffer.t → Z) : M Store unit :=
  f ← fb n;
  set_fb n (with_fb_offset f (u64 (offset_ f + nbytes)));;
  match buffers_ f !! current_buffer_ f with
  | None => mret ()
  | Some s =>
      b ← buffer s;
      if current_relative_offset_ f =? bound b then set_cursor n (S (current_buffer_ f)) 0
      else mret ()
  end.

Definition read (n : fbname) (nbytes : Z) : M Store (list Z) :=
  f ← fb n;
  r ← read_loop n (drop (current_buffer_ f) (buffers_ f)) (current_buffer_ f) nbytes;
  if 0 <? snd r then not_ok "could not read requested byte count."
  else step_cursor n nbytes size_;; mret (fst r).

Definition read_value (n : fbname) (ty : ctype) : M Store Z :=
  x ← read n (csize ty); mret (of_bytes ty x).

Fixpoint write_loop (n : fbname) (l : list BufferOrView) (i : nat) (x : list Z) : M Store Z :=
  match l with
  | [] => mret (zlen x)
  | s :: l =>
      f ← fb n;
      dest ← buffer s;
      let rel := current_relative_offset_ f in
      let bytes_avail_in_dest := u64 (capacity dest - rel) in
      if bytes_avail_in_dest =? 0 then not_ok "could not write: buffer is full."
      else
        let bytes_to_dest := Z.min bytes_avail_in_dest (zlen x) in
        let old_size := size_ dest in
        poke s rel (slice 0 bytes_to_dest x);;
        (if old_size <? u64 (rel + bytes_to_dest) then
           match s with
           | Own id => on_heap id (Buffer.set_size (u64 (rel + bytes_to_dest)))
           | View _ _ _ => lift UB
           end
         else mret ());;
        let bytes_left := zlen x - bytes_to_dest in
        if bytes_left =? 0 then set_cursor n i (u64 (rel + bytes_to_dest));; mret 0
        else set_cursor n i 0;; write_loop n l (S i) (drop (Z.to_nat bytes_to_dest) x)
  end.

(** [write(const void* buffer, uint64_t nbytes)]. *)
Definition write (n : fbname) (x : list Z) : M Store unit :=
  f ← fb n;
  if read_only_ f then not_ok "cannot set write: read-only."
  else
    bytes_left ← write_loop n (drop (current_buffer_ f) (buffers_ f)) (current_buffer_ f) x;
    if 0 <? bytes_left then not_ok "could not write requested byte count."
    else step_cursor n (zlen x) capacity.

Definition write_value (n : fbname) (ty : ctype) (v : Z) : M Store unit := write n (to_bytes ty v).

Fixpoint write_from_loop (n : fbname) (l : list BufferOrView) (relative_offset bytes_left : Z) : M Store Z :=
  match l with
  | [] => mret bytes_left
  | s :: l =>
      if bytes_left =? 0 then mret 0
      else
        buf ← buffer s;
        let bytes_in_buf := u64 (size_ buf - relative_offset) in
        let bytes_from_buf := Z.min bytes_left bytes_in_buf in
        x ← lift (memread (block (data_ buf)) relative_offset bytes_from_buf);
        write n x;;
        write_from_loop n l 0 (bytes_left - bytes_from_buf)
  end.

(** [write(FilterBuffer* other, uint64_t nbytes)]. *)
Definition write_from (n other : fbname) (nbytes : Z) : M Store unit :=
  f ← fb n;
  if read_only_ f then not_ok "cannot write: read-only."
  else
    g ← fb other;
    bytes_left ← write_from_loop n (drop (current_buffer_ g) (buffers_ g))
                   (current_relative_offset_ g) nbytes;
    if 0 <? bytes_left then not_ok "could not write requested byte count." else mret ().

Fixpoint relative_offset_loop (l : list BufferOrView) (i : nat) (rel_offset : Z) : M Store (nat * Z) :=
  match l with
  | [] => not_ok "cannot determine relative offset."
  | s :: l =>
      buf ← buffer s;
      if rel_offset <? capacity buf then mret (i, rel_offset)
      else relative_offset_loop l (S i) (rel_offset - capacity buf)
  end.

Definition get_relative_offset (n : fbname) (offset : Z) : M Store (nat * Z) :=
  f ← fb n; relative_offset_loop (buffers_ f) 0 offset.

Definition offset (n : fbname) : M Store Z := f ← fb n; mret (offset_ f).

Fixpoint size_loop (l : list BufferOrView) (acc : Z) : M Store Z :=
  match l with
  | [] => mret acc
  | s :: l => b ← buffer s; size_loop l (u64 (acc + size_ b))
  end.

Definition size (n : fbname) : M Store Z := f ← fb n; size_loop (buffers_ f) 0.

Definition reset_offset (n : fbname) : M Store unit :=
  f ← fb n; set_fb n (with_fb_offset (with_cursor f 0 0) 0).

(** A call whose status is asserted. *)
Definition assert_ok {A} (m : M Store A) : M Store A := fun s =>
  match m s with
  | (Ok a, s') => (Ok a, s')
  | (_, s') => (UB, s')
  end.

Definition set_offset (n : fbname) (offset : Z) : M Store unit :=
  if offset =? 0 then reset_offset n
  else
    p ← assert_ok (get_relative_offset n offset);
    f ← fb n;
    set_fb n (with_fb_offset (with_cursor f (fst p) (snd p)) offset).

Definition set_read_only (n : fbname) (read_only : bool) : M Store unit :=
  f ← fb n; set_fb n (with_read_only f read_only).

Definition advance_offset (n : fbname) (nbytes : Z) : M Store unit :=
  f ← fb n;
  let off := u64 (offset_ f + nbytes) in
  match buffers_ f !! current_buffer_ f with
  | None => lift UB
  | Some s =>
      buf ← buffer s;
      let rel := u64 (current_relative_offset_ f + nbytes) in
      if rel <? size_ buf then set_fb n (with_fb_offset (with_cursor f (current_buffer_ f) rel) off)
      else if rel =? size_ buf then
        set_fb n (with_fb_offset (with_cursor f (S (current_buffer_ f)) 0) off)
      else
        sz ← size n;
        if off <=? sz then
          p ← assert_ok (get_relative_offset n off);
          set_fb n (with_fb_offset (with_cursor f (fst p) (snd p)) off)
        else mret ()
  end.

(** The size of [buffers_.front()], which is asserted to exist. *)
Definition front_size (f : FilterBuffer) : M Store Z :=
  match buffers_ f with
  | [] => lift UB
  | s :: _ => b ← buffer s; mret (size_ b)
  end.

Definition prepend_buffer `{Allocator} (n : fbname) (nbytes : Z) : M Store unit :=
  f ← fb n;
  if read_only_ f then not_ok "cannot prepend buffer: read-only."
  else
    (if negb (fixed_allocation_data_ f) then
       id ← get_buffer;
       on_heap id (Buffer.realloc nbytes);;
       on_heap id Buffer.reset_size;;
       set_fb n (with_fb_offset (with_buffers f (Own id :: buffers_ f)) (u64 (offset_ f + nbytes)))
     else
       front ← front_size f;
       if negb (fixed_allocation_op_allowed_ f) then
         not_ok "cannot prepend buffer: fixed allocation is set."
       else if front <? nbytes then
         not_ok "cannot prepend buffer: fixed allocation not large enough."
       else set_fb n (with_fixed f true false));;
    reset_offset n.

(** The loop of [append_view] over the segments of [other]. *)
Fixpoint append_loop (n : fbname) (l : list BufferOrView) (relative_offset bytes_left : Z) : M Store unit :=
  match l with
  | [] => mret ()
  | s :: l =>
      if bytes_left =? 0 then mret ()
      else
        with_buffer s Buffer.reset_offset;;
        buf ← buffer s;
        let bytes_in_buf := u64 (size_ buf - relative_offset) in
        let bytes_from_buf := Z.min bytes_left bytes_in_buf in
        let view := get_view s relative_offset bytes_from_buf in
        f ← fb n;
        (if negb (fixed_allocation_data_ f) then
           set_fb n (with_buffers f (buffers_ f ++ [view]))
         else
           match buffers_ f with
           | [] => lift UB
           | front :: _ => v ← buffer view; poke front 0 (block (data_ v))
           end);;
        append_loop n l 0 (bytes_left - bytes_from_buf)
  end.

(** [append_view(other, offset, nbytes)]. *)
Definition append_view_part (n other : fbname) (offset nbytes : Z) : M Store unit :=
  f ← fb n;
  if read_only_ f then not_ok "cannot append view: read-only."
  else if nbytes =? 0 then mret ()
  else
    (if fixed_allocation_data_ f then
       front ← front_size f;
       if negb (fixed_allocation_op_allowed_ f) then
         not_ok "cannot append view: fixed allocation set."
       else if front <? nbytes then
         not_ok "cannot append view: fixed allocation not large enough."
       else set_fb n (with_fixed f true false)
     else mret ());;
    p ← get_relative_offset other offset;
    g ← fb other;
    append_loop n (drop (fst p) (buffers_ g)) (snd p) nbytes;;
    reset_offset n.

(** [append_view(other)]. *)
Definition append_view (n other : fbname) : M Store unit :=
  sz ← size other; append_view_part n other 0 sz.

Fixpoint reclaim_all (l : list nat) : M Store unit :=
  match l with [] => mret () | id :: l => reclaim id;; reclaim_all l end.

Definition clear (n : fbname) : M Store unit :=
  f ← fb n;
  if read_only_ f then not_ok "cannot clear: read-only."
  else
    set_fb n (mkFB [] 0 0 false false 0 (read_only_ f));;
    reclaim_all (underlying_buffer <$> buffers_ f).

(** [*value_ptr<T>()]: a read at the current position that moves nothing. *)
Definition value (n : fbname) (ty : ctype) : M Store Z :=
  f ← fb n;
  match buffers_ f !! current_buffer_ f with
  | None => lift UB
  | Some s =>
      b ← buffer s;
      x ← lift (memread (block (data_ b)) (current_relative_offset_ f) (csize ty));
      mret (of_bytes ty x)
  end.
