(* ===== verification/FilterIO.v ===== *)
(** * The store of a pipeline stage: invariant, contents and framing

    [good] is the invariant of the store: every segment lies inside a live
    buffer, and no buffer of the pool that is available for reuse is designated
    by a segment.  [touch F] is the frame of an operation on the filter buffers
    [F]: the others keep their contents, whatever memory they share. *)

From stdpp Require Import functions.
From S2P Require Import Prelude.
From S2P Require Import ConstBuffer.
From S2P Require Import Buffer.
From S2P Require Import FilterBuffer.
Local Open Scope Z_scope.

Definition ids (st : Store) (n : fbname) : list nat := underlying_buffer <$> buffers_ (bufs st n).

(** The bytes a segment designates. *)
Definition seg_bytes (h : list Buffer.t) (s : BufferOrView) : list Z :=
  match h !! underlying_buffer s with
  | None => []
  | Some b =>
      match s with
      | Own _ => contents b
      | View _ off n => slice off n (block (data_ b))
      end
  end.

Definition fbbytes (st : Store) (n : fbname) : list (list Z) :=
  seg_bytes (heap st) <$> buffers_ (bufs st n).

Definition buf_ok (b : Buffer.t) : Prop :=
  (0 ≤ size_ b ≤ zlen (block (data_ b)) ∧ size_ b < 2 ^ 63) ∧ zlen (block (data_ b)) < 2 ^ 64 ∧
  Forall byte_ok (block (data_ b)) ∧
  (owns_data_ b = true → zlen (block (data_ b)) = alloced_size_ b).

Definition seg_ok (h : list Buffer.t) (s : BufferOrView) : Prop :=
  ∃ b, h !! underlying_buffer s = Some b ∧
  match s with
  | Own _ => True
  | View _ off n => 0 ≤ off ∧ 0 ≤ n < 2 ^ 63 ∧ off + n ≤ zlen (block (data_ b))
  end.

Record good (st : Store) : Prop := {
  good_heap : ∀ id b, heap st !! id = Some b → buf_ok b;
  good_segs : ∀ n, Forall (seg_ok (heap st)) (buffers_ (bufs st n));
  good_nodup : NoDup (available_ st ++ in_use_ st);
  good_free : ∀ id, id ∈ available_ st → refs st id = 0%nat;
  good_pool : ∀ id, id ∈ available_ st ++ in_use_ st →
    ∃ b, heap st !! id = Some b ∧ owns_data_ b = true
}.

Definition touch (F : list fbname) (st st' : Store) : Prop := ∀ m, m ∉ F →
  bufs st' m = bufs st m ∧ fbbytes st' m = fbbytes st m ∧
  ∀ id b, id ∈ ids st m → refs st id = 1%nat → heap st !! id = Some b →
    heap st' !! id = Some b ∧ refs st' id = 1%nat.

Lemma touch_refl F st : touch F st st.
Proof. by intros m _. Qed.

Lemma touch_trans F st1 st2 st3 : touch F st1 st2 → touch F st2 st3 → touch F st1 st3.
Proof.
  intros H1 H2 m Hm. destruct (H1 m Hm) as (E1 & B1 & O1), (H2 m Hm) as (E2 & B2 & O2).
  split_and!; [congruence|congruence|]. intros id b Hi Hr Hb.
  destruct (O1 id b Hi Hr Hb) as [Hb' Hr']. apply O2; try done.
  unfold ids. by rewrite E1.
Qed.

Lemma touch_mono F G st st' : F ⊆ G → touch F st st' → touch G st st'.
Proof. intros HFG H m Hm. apply H. intros Hf. by apply Hm, HFG. Qed.

(** ** Counting references *)

Definition cnt (l : list BufferOrView) (id : nat) : nat :=
  count_occ Nat.eq_dec (underlying_buffer <$> l) id.

Lemma cnt_app l k id : cnt (l ++ k) id = (cnt l id + cnt k id)%nat.
Proof. unfold cnt. rewrite fmap_app. apply count_occ_app. Qed.

Lemma cnt_cons s l id :
  cnt (s :: l) id = ((if decide (underlying_buffer s = id) then 1 else 0) + cnt l id)%nat.
Proof.
  unfold cnt. rewrite fmap_cons. simpl.
  destruct (Nat.eq_dec _ _), (decide _); simpl; congruence || lia.
Qed.

Lemma cnt_elem l id : (0 < cnt l id)%nat ↔ id ∈ underlying_buffer <$> l.
Proof. unfold cnt. rewrite list_elem_of_In. symmetry. apply count_occ_In. Qed.

Lemma refs_sum st id :
  refs st id = (cnt (buffers_ (bufs st input_metadata)) id + cnt (buffers_ (bufs st input_data)) id +
    cnt (buffers_ (bufs st output_metadata)) id + cnt (buffers_ (bufs st output_data)) id)%nat.
Proof.
  unfold refs, all_segs, fbnames. simpl. rewrite app_nil_r, !fmap_app, !count_occ_app.
  unfold cnt. lia.
Qed.

Lemma bufs_with_fb st n f : bufs (with_fb st n f) n = f.
Proof. unfold with_fb. simpl. apply fn_lookup_insert. Qed.

Lemma bufs_with_fb_ne st n f m : n ≠ m → bufs (with_fb st n f) m = bufs st m.
Proof. intros. unfold with_fb. simpl. by apply fn_lookup_insert_ne. Qed.

Lemma refs_with_fb st n f id :
  (refs (with_fb st n f) id + cnt (buffers_ (bufs st n)) id =
   refs st id + cnt (buffers_ f) id)%nat.
Proof.
  rewrite !refs_sum.
  destruct n; rewrite bufs_with_fb; rewrite !bufs_with_fb_ne by done; lia.
Qed.

Lemma refs_pos st n id : id ∈ ids st n → (0 < refs st id)%nat.
Proof.
  intros H. apply cnt_elem in H. rewrite refs_sum. destruct n; lia.
Qed.

(** A buffer with one reference belongs to one filter buffer. *)
Lemma refs_unique st n m id : refs st id = 1%nat → id ∈ ids st n → id ∈ ids st m → n = m.
Proof.
  intros Hr Hn Hm. apply cnt_elem in Hn, Hm. rewrite refs_sum in Hr.
  destruct n, m; done || lia.
Qed.

Lemma refs_heap st h id : refs (with_heap st h) id = refs st id.
Proof. done. Qed.

(** ** Updates of the store *)

Lemma upd_fb st n f : good st → buffers_ f = buffers_ (bufs st n) →
  good (with_fb st n f) ∧ touch [n] st (with_fb st n f) ∧
  fbbytes (with_fb st n f) n = fbbytes st n.
Proof.
  intros Hg Hf. pose proof (λ id, refs_with_fb st n f id) as Hr. rewrite Hf in Hr.
  assert (∀ id, refs (with_fb st n f) id = refs st id) as Hr' by (intros id; specialize (Hr id); lia).
  destruct Hg as [H1 H2 H3 H4 H5]. split_and!.
  - split; try done; [|intros id Hi; rewrite Hr'; by apply H4].
    intros m. destruct (decide (n = m)) as [<-|Hm].
    + rewrite bufs_with_fb, Hf. apply H2.
    + rewrite bufs_with_fb_ne by done. apply H2.
  - intros m Hm. assert (n ≠ m) by (intros ->; apply Hm; left).
    unfold fbbytes. rewrite bufs_with_fb_ne by done. split_and!; [done..|].
    intros id b _ Hi Hb. by rewrite Hr'.
  - unfold fbbytes. by rewrite bufs_with_fb, Hf.
Qed.

Lemma seg_bytes_ne h id b s : underlying_buffer s ≠ id → seg_bytes (<[id:=b]> h) s = seg_bytes h s.
Proof. intros. unfold seg_bytes. by rewrite list_lookup_insert_ne. Qed.

Lemma seg_ok_ne h id b s : underlying_buffer s ≠ id → seg_ok h s → seg_ok (<[id:=b]> h) s.
Proof. intros Hne (b0 & Hb & Hs). exists b0. by rewrite list_lookup_insert_ne. Qed.

Lemma good_pool_insert st id b b' : good st → heap st !! id = Some b → owns_data_ b' = owns_data_ b →
  ∀ i, i ∈ available_ st ++ in_use_ st →
    ∃ c, <[id:=b']> (heap st) !! i = Some c ∧ owns_data_ c = true.
Proof.
  intros Hg Hb Ho i Hi. destruct (good_pool _ Hg i Hi) as (c & Hc & Hoc).
  pose proof (lookup_lt_Some _ _ _ Hb).
  destruct (decide (i = id)) as [->|Hne].
  - exists b'. rewrite list_lookup_insert_eq by done. split; [done|]. congruence.
  - exists c. by rewrite list_lookup_insert_ne.
Qed.

Lemma good_heap_insert st id b' : good st → buf_ok b' →
  ∀ i c, <[id:=b']> (heap st) !! i = Some c → buf_ok c.
Proof.
  intros Hg Hok i c Hc. apply list_lookup_insert_Some in Hc as [(_ & -> & _)|(_ & Hc)]; [done|].
  by apply (good_heap _ Hg i).
Qed.

(** Moving the offset of a buffer changes no contents. *)
Lemma upd_offset st n id b o : good st → heap st !! id = Some b → id ∈ ids st n →
  let st' := with_heap st (<[id := with_offset b o]> (heap st)) in
  good st' ∧ touch [n] st st' ∧ ∀ m, fbbytes st' m = fbbytes st m.
Proof.
  intros Hg Hb Hn st'. pose proof (lookup_lt_Some _ _ _ Hb) as Hlt.
  assert (∀ s, seg_bytes (<[id:=with_offset b o]> (heap st)) s = seg_bytes (heap st) s) as Hs.
  { intros s. destruct (decide (underlying_buffer s = id)) as [<-|Hne]; [|by apply seg_bytes_ne].
    unfold seg_bytes. rewrite list_lookup_insert_eq, Hb by done. by destruct s. }
  assert (∀ m, fbbytes st' m = fbbytes st m) as HB by (intros m; apply list_fmap_ext; intros; apply Hs).
  split_and!; [| |done].
  - pose proof (good_heap _ Hg id b Hb) as Hok. destruct Hg as [H1 H2 H3 H4 H5]. split; try done.
    + by apply good_heap_insert.
    + intros m. eapply Forall_impl; [apply H2|]. intros s Hso.
      destruct (decide (underlying_buffer s = id)) as [<-|Hne]; [|by apply seg_ok_ne].
      destruct Hso as (b0 & Hb0 & Hv). exists (with_offset b0 o).
      simpl. rewrite list_lookup_insert_eq by done. split; [congruence|]. by destruct s.
    + by apply (good_pool_insert st id b).
  - intros m Hm. split_and!; [done..|]. intros i c Hi Hr Hc. split; [|done].
    simpl. rewrite list_lookup_insert_ne; [done|]. intros ->.
    rewrite (refs_unique st m n i) in Hm by done. apply Hm. left.
Qed.

(** A buffer that only the first segment of [n] designates may change freely. *)
Lemma upd_owned st n id l b b' : good st → heap st !! id = Some b →
  buffers_ (bufs st n) = Own id :: l → refs st id = 1%nat →
  buf_ok b' → owns_data_ b' = owns_data_ b →
  let st' := with_heap st (<[id := b']> (heap st)) in
  good st' ∧ touch [n] st st' ∧ fbbytes st' n = contents b' :: tail (fbbytes st n).
Proof.
  intros Hg Hb Hn Hr Hok Ho st'. pose proof (lookup_lt_Some _ _ _ Hb) as Hlt.
  assert (id ∈ ids st n) as Hin by (unfold ids; rewrite Hn; left).
  assert (id ∉ underlying_buffer <$> l) as Hl.
  { rewrite <- cnt_elem. pose proof Hr as Hr'. rewrite refs_sum in Hr'.
    destruct n; rewrite Hn, cnt_cons in Hr'; simpl in Hr';
      (rewrite decide_True in Hr' by done); lia. }
  assert (∀ m s, m ≠ n → s ∈ buffers_ (bufs st m) → underlying_buffer s ≠ id) as Hne.
  { intros m s Hm Hs <-. apply Hm. apply (refs_unique st m n (underlying_buffer s)); try done.
    by apply list_elem_of_fmap_2. }
  assert (∀ s, s ∈ l → underlying_buffer s ≠ id) as Hne'.
  { intros s Hs <-. apply Hl. by apply list_elem_of_fmap_2. }
  split_and!.
  - pose proof (good_segs _ Hg) as H2. split; try apply Hg.
    + by apply good_heap_insert.
    + intros m. apply Forall_forall. intros s Hs. pose proof (proj1 (Forall_forall _ _) (H2 m) s Hs) as Hs'.
      destruct (decide (m = n)) as [->|Hm]; [|apply seg_ok_ne; [by apply (Hne m)|done]].
      simpl in Hs. rewrite Hn in Hs. apply elem_of_cons in Hs as [->|Hs]; [|by apply seg_ok_ne; [apply Hne'|]].
      exists b'. simpl. by rewrite list_lookup_insert_eq.
    + by apply (good_pool_insert st id b).
  - intros m Hm. assert (m ≠ n) as Hmn by (intros ->; apply Hm; left).
    split_and!; [done| |].
    + apply list_fmap_ext. intros i s Hs. apply seg_bytes_ne, (Hne m); [done|]. by apply list_elem_of_lookup_2 in Hs.
    + intros i c Hi Hri Hc. split; [|done]. simpl. rewrite list_lookup_insert_ne; [done|].
      intros <-. apply Hmn. by apply (refs_unique st m n id).
  - unfold fbbytes. simpl. rewrite Hn. simpl. f_equal.
    + unfold seg_bytes. simpl. by rewrite list_lookup_insert_eq.
    + apply list_fmap_ext. intros i s Hs. apply seg_bytes_ne, Hne'. by apply list_elem_of_lookup_2 in Hs.
Qed.

(** ** Operations: what they do to the contents

    [reader st n pre x]: the filter buffer [n] has one segment at most, [pre]
    was read from it and [x] is left to read.  [writer st n xs cap]: [n] starts
    with a buffer of its own that stores [xs] and has room for [cap] bytes. *)

Lemma M_bind_eq {S A B} (m : M S A) (k : A → M S B) a s s' :
  m s = (Ok a, s') → (m ≫= k) s = k a s'.
Proof. intros H. unfold mbind, M_bind. by rewrite H. Qed.

Lemma M_bind_inv {S A B} (m : M S A) (k : A → M S B) b s s' : (m ≫= k) s = (Ok b, s') →
  ∃ a s1, m s = (Ok a, s1) ∧ k a s1 = (Ok b, s').
Proof. unfold mbind, M_bind. destruct (m s) as [[a| |] s1]; [|done..]. by exists a, s1. Qed.

Lemma fb_bind {B} n (k : FilterBuffer → M Store B) st : (fb n ≫= k) st = k (bufs st n) st.
Proof. done. Qed.

Lemma set_fb_bind {B} n f (k : unit → M Store B) st : (set_fb n f ≫= k) st = k () (with_fb st n f).
Proof. done. Qed.

Lemma set_cursor_bind {B} n i r (k : unit → M Store B) st :
  (set_cursor n i r ≫= k) st = k () (with_fb st n (with_cursor (bufs st n) i r)).
Proof. done. Qed.

Lemma lift_bind {S A B} (a : A) (k : A → M S B) st : (lift (Ok a) ≫= k) st = k a st.
Proof. done. Qed.

Lemma on_heap_eq {A} id (m : M Buffer.t A) st b r b' :
  heap st !! id = Some b → m b = (r, b') →
  on_heap id m st = (r, with_heap st (<[id := b']> (heap st))).
Proof. intros Hb Hm. unfold on_heap. by rewrite Hb, Hm. Qed.

(** ** Segments *)

Lemma contents_len b : buf_ok b → zlen (contents b) = size_ b.
Proof. intros (? & ? & _). unfold contents. rewrite zlen_slice; lia. Qed.

Lemma buffer_spec st s : good st → seg_ok (heap st) s →
  ∃ b, buffer s st = (Ok b, st) ∧ buf_ok b ∧ contents b = seg_bytes (heap st) s ∧
    size_ b = zlen (seg_bytes (heap st) s) ∧ size_ b ≤ capacity b < 2 ^ 64 ∧ size_ b < 2 ^ 63.
Proof.
  intros Hg (b & Hb & Hs). pose proof (good_heap _ Hg _ _ Hb) as Hok.
  unfold buffer, seg_bytes. rewrite Hb. destruct s as [id|id off n].
  - exists b. rewrite contents_len by done. split_and!; try done.
    all: destruct Hok as (? & ? & _ & Ho); unfold capacity; destruct (owns_data_ b); rewrite <- ?Ho by done; lia.
  - destruct Hs as (H1 & H2 & H3), Hok as (? & ? & Hby & _).
    rewrite memread_ok by lia. exists (Buffer.make (Some (slice off n (block (data_ b)))) n).
    assert (zlen (slice off n (block (data_ b))) = n) as Hl by (rewrite zlen_slice; lia).
    split_and!; try done; unfold capacity; simpl; try lia.
    + split_and!; simpl; try done; try lia. unfold slice. by apply Forall_take, Forall_drop.
    + unfold contents. simpl. rewrite <- Hl at 1. apply slice_all.
Qed.

Lemma seg_in st n s : good st → s ∈ buffers_ (bufs st n) → seg_ok (heap st) s.
Proof. intros Hg. apply Forall_forall, good_segs, Hg. Qed.

Lemma seg_bytes_ok st s : good st → seg_ok (heap st) s → Forall byte_ok (seg_bytes (heap st) s).
Proof.
  intros Hg Hs. destruct (buffer_spec st s Hg Hs) as (b & _ & (_ & _ & Hby & _) & <- & _).
  unfold contents, slice. by apply Forall_take, Forall_drop.
Qed.

Lemma fbbytes_ok st n : good st → Forall (Forall byte_ok) (fbbytes st n).
Proof.
  intros Hg. unfold fbbytes. apply Forall_fmap, Forall_forall. intros s Hs.
  apply seg_bytes_ok; [done|]. by apply (seg_in st n).
Qed.

Lemma size_loop_spec st l acc : good st → Forall (seg_ok (heap st)) l → 0 ≤ acc →
  acc + zlen (concat (seg_bytes (heap st) <$> l)) < 2 ^ 64 →
  size_loop l acc st = (Ok (acc + zlen (concat (seg_bytes (heap st) <$> l))), st).
Proof.
  intros Hg Hl. revert acc. induction Hl as [|s l Hs Hl IH]; intros acc Ha Hlt; simpl size_loop.
  - simpl. by rewrite zlen_nil, Z.add_0_r.
  - rewrite fmap_cons in *. simpl concat in *. rewrite zlen_app in *. pose proof (zlen_nonneg (seg_bytes (heap st) s)).
    pose proof (zlen_nonneg (concat (seg_bytes (heap st) <$> l))).
    destruct (buffer_spec st s Hg Hs) as (b & Hb & _ & _ & Hsz & _).
    rewrite (M_bind_eq _ _ _ _ _ Hb), u64_id by lia. rewrite IH by lia. do 2 f_equal. lia.
Qed.

Lemma size_spec st n : good st → zlen (concat (fbbytes st n)) < 2 ^ 64 →
  size n st = (Ok (zlen (concat (fbbytes st n))), st).
Proof.
  intros Hg Hlt. unfold size. rewrite fb_bind.
  rewrite size_loop_spec; [done|done|apply good_segs, Hg|lia|done].
Qed.

(** ** Reading *)

Definition reader (st : Store) (n : fbname) (pre x : list Z) : Prop :=
  let f := bufs st n in
  offset_ f = zlen pre ∧
  match buffers_ f with
  | [] => pre = [] ∧ x = [] ∧ current_buffer_ f = 0%nat
  | [s] => fbbytes st n = [pre ++ x] ∧
      (current_buffer_ f = 0%nat ∧ current_relative_offset_ f = zlen pre ∨
       current_buffer_ f = 1%nat ∧ current_relative_offset_ f = 0 ∧ x = [])
  | _ => False
  end.

Lemma reader_touch st st' F n pre x :
  reader st n pre x → touch F st st' → n ∉ F → reader st' n pre x.
Proof.
  intros Hr Ht Hn. destruct (Ht n Hn) as (Hb & Hf & _). unfold reader. by rewrite Hb, Hf.
Qed.

(** With something left to read, the cursor is in the only segment. *)
Lemma reader_inv st n pre x : good st → reader st n pre x → x ≠ [] →
  ∃ s, buffers_ (bufs st n) = [s] ∧ seg_ok (heap st) s ∧ seg_bytes (heap st) s = pre ++ x ∧
    current_buffer_ (bufs st n) = 0%nat ∧ current_relative_offset_ (bufs st n) = zlen pre ∧
    offset_ (bufs st n) = zlen pre.
Proof.
  intros Hg (Ho & Hr) Hx. pose proof (good_segs _ Hg n) as Hs. unfold fbbytes in Hr.
  destruct (buffers_ (bufs st n)) as [|s [|]]; [by destruct Hr as (_ & ? & _)| |done].
  destruct Hr as (Hb & [(Hc1 & Hc2)|(_ & _ & ?)]); [|done].
  exists s. apply Forall_cons in Hs as [Hs _]. by injection Hb as Hb.
Qed.

(** [Buffer::read] at a given offset, through a segment. *)
Lemma with_buffer_read st n s pre x y : good st → s ∈ buffers_ (bufs st n) →
  seg_bytes (heap st) s = pre ++ x ++ y →
  ∃ st', with_buffer s (_ ← Buffer.set_offset (zlen pre); Buffer.read (zlen x)) st = (Ok x, st') ∧
    good st' ∧ touch [n] st st' ∧ bufs st' = bufs st ∧ ∀ m, fbbytes st' m = fbbytes st m.
Proof.
  intros Hg Hs Hb. pose proof (zlen_nonneg pre). pose proof (zlen_nonneg x). pose proof (zlen_nonneg y).
  pose proof (seg_in _ _ _ Hg Hs) as Hok.
  destruct (buffer_spec st s Hg Hok) as (b & Hbs & Hbok & Hc & Hsz & Hcap).
  assert (∃ b', (_ ← Buffer.set_offset (zlen pre); Buffer.read (zlen x)) b = (Ok x, b') ∧
            b' = with_offset b (zlen pre + zlen x)) as (b' & Hr & Hb').
  { rewrite Hb in Hsz, Hc. rewrite !zlen_app in Hsz.
    destruct Hbok as (Hs1 & Hs2 & _). unfold mbind, M_bind, Buffer.set_offset, Buffer.read. simpl.
    rewrite u64_id by lia. rewrite (proj2 (Z.ltb_ge _ _)) by lia.
    assert (∃ tl, block (data_ b) = pre ++ x ++ y ++ tl) as (tl & Htl).
    { exists (drop (Z.to_nat (size_ b)) (block (data_ b))).
      rewrite !app_assoc, <- (app_assoc pre), <- Hc. unfold contents, slice. rewrite drop_0.
      by rewrite take_drop. }
    rewrite (memread_at _ _ _ pre x (y ++ tl)) by done.
    rewrite u64_id by lia. eexists. split; [done|]. unfold with_offset. simpl. f_equal; lia. }
  destruct s as [id|id off k].
  - simpl. assert (heap st !! id = Some b) as Hid.
    { destruct Hok as (b0 & Hb0 & _). simpl in Hb0. unfold buffer in Hbs. simpl in Hbs.
      rewrite Hb0 in Hbs. by injection Hbs as ->. }
    rewrite (on_heap_eq _ _ _ _ _ _ Hid Hr). subst b'. eexists. split; [done|].
    destruct (upd_offset st n id b (zlen pre + zlen x) Hg Hid) as (G & T & B); [|done].
    by apply (list_elem_of_fmap_2 underlying_buffer _ (Own id)).
  - simpl. rewrite (M_bind_eq _ _ _ _ _ Hbs), Hr. exists st. by split_and!.
Qed.

Lemma reader_upd st n f pre x : good st →
  buffers_ f = buffers_ (bufs st n) → fbbytes st n = [pre ++ x] → length (buffers_ f) = 1%nat →
  offset_ f = zlen pre →
  (current_buffer_ f = 0%nat ∧ current_relative_offset_ f = zlen pre ∨
   current_buffer_ f = 1%nat ∧ current_relative_offset_ f = 0 ∧ x = []) →
  good (with_fb st n f) ∧ touch [n] st (with_fb st n f) ∧ reader (with_fb st n f) n pre x.
Proof.
  intros Hg Hf Hb Hl Ho Hc. destruct (upd_fb st n f Hg Hf) as (G & T & B).
  split_and!; try done. unfold reader. rewrite bufs_with_fb, B. split; [done|].
  destruct (buffers_ f) as [|? [|]]; done.
Qed.

(** The cursor after a read or an advance inside the only segment. *)
Lemma step_reader st n s pre x y : good st → buffers_ (bufs st n) = [s] →
  fbbytes st n = [pre ++ x ++ y] →
  current_buffer_ (bufs st n) = 0%nat → current_relative_offset_ (bufs st n) = zlen pre + zlen x →
  offset_ (bufs st n) = zlen pre →
  ∃ st', step_cursor n (zlen x) size_ st = (Ok (), st') ∧ good st' ∧ touch [n] st st' ∧
    reader st' n (pre ++ x) y.
Proof.
  intros Hg Hs Hb Hc Hr Ho. pose proof (zlen_nonneg pre). pose proof (zlen_nonneg x).
  pose proof (zlen_nonneg y). unfold step_cursor. rewrite fb_bind, set_fb_bind, Hs, Hc. simpl.
  set (f1 := with_fb_offset (bufs st n) _).
  destruct (upd_fb st n f1 Hg eq_refl) as (G1 & T1 & B1).
  assert (seg_ok (heap st) s) as Hok by (apply (seg_in st n); [done|]; rewrite Hs; left).
  destruct (buffer_spec (with_fb st n f1) s G1 Hok) as (b & Hbs & _ & _ & Hsz & Hcap).
  rewrite (M_bind_eq _ _ _ _ _ Hbs). simpl in Hsz.
  assert (seg_bytes (heap st) s = pre ++ x ++ y) as Hby
    by (unfold fbbytes in Hb; rewrite Hs in Hb; by injection Hb).
  rewrite Hby, !zlen_app in Hsz. rewrite Hr, Hsz.
  assert (offset_ f1 = zlen (pre ++ x)) as Ho1.
  { simpl. rewrite Ho, zlen_app, u64_id; lia. }
  destruct (Z.eqb_spec (zlen pre + zlen x) (zlen pre + (zlen x + zlen y))) as [He|Hne].
  - assert (y = []) as -> by (apply length_zero_iff_nil; unfold zlen in He; lia).
    unfold set_cursor. rewrite bufs_with_fb. eexists. split; [done|].
    destruct (reader_upd (with_fb st n f1) n (with_cursor f1 1 0) (pre ++ x) []) as (G & T & R); try done.
    + by rewrite bufs_with_fb.
    + by rewrite B1, app_assoc in *.
    + simpl. by rewrite Hs.
    + by right.
    + split_and!; [done| |done]. by eapply touch_trans.
  - exists (with_fb st n f1). split; [done|].
    destruct (reader_upd st n f1 (pre ++ x) y) as (G & T & R); try done.
    + by rewrite <- app_assoc.
    + simpl. by rewrite Hs.
    + left. simpl. rewrite zlen_app. done.
Qed.

Lemma read_spec st n pre x y k : good st → reader st n pre (x ++ y) → x ≠ [] → k = zlen x →
  ∃ st', read n k st = (Ok x, st') ∧ good st' ∧ touch [n] st st' ∧ reader st' n (pre ++ x) y.
Proof.
  intros Hg Hrd Hx ->. pose proof (zlen_nonneg pre). pose proof (zlen_nonneg x). pose proof (zlen_nonneg y).
  destruct (reader_inv st n pre (x ++ y) Hg Hrd) as (s & Hs & Hok & Hby & Hc & Hr & Ho).
  { by destruct x. }
  unfold read. rewrite fb_bind, Hc, Hs. simpl drop.
  destruct (buffer_spec st s Hg Hok) as (b & Hbs & _ & _ & Hsz & Hcap).
  rewrite Hby, !zlen_app in Hsz.
  destruct (with_buffer_read st n s pre x y) as (st1 & Hrb & G1 & T1 & E1 & B1); try done.
  { rewrite Hs. left. }
  set (st2 := with_fb st1 n (with_cursor (bufs st n) 0 (zlen pre + zlen x))).
  assert (read_loop n [s] 0 (zlen x) st = (Ok (x, 0), st2)) as Hl.
  { simpl. rewrite fb_bind, (M_bind_eq _ _ _ _ _ Hbs), Hr, Hsz.
    rewrite u64_id by lia. rewrite Z.min_r by lia. rewrite (M_bind_eq _ _ _ _ _ Hrb).
    rewrite Z.sub_diag. simpl. rewrite set_cursor_bind, u64_id, E1 by lia. done. }
  rewrite (M_bind_eq _ _ _ _ _ Hl). cbn [fst snd]. rewrite Z.ltb_irrefl.
  destruct (upd_fb st1 n (with_cursor (bufs st n) 0 (zlen pre + zlen x)) G1) as (G2 & T2 & B2);
    [by rewrite E1|].
  destruct (step_reader st2 n s pre x y) as (st3 & Hst & G3 & T3 & R3);
    try by (unfold st2; rewrite ?bufs_with_fb).
  { unfold st2. rewrite B2, B1. unfold fbbytes. rewrite Hs. simpl. by rewrite Hby. }
  rewrite (M_bind_eq _ _ _ _ _ Hst). exists st3. split_and!; try done.
  by eapply touch_trans, touch_trans.
Qed.

Lemma read_value_spec st n pre ty v y : good st → reader st n pre (to_bytes ty v ++ y) → in_ctype ty v →
  ∃ st', read_value n ty st = (Ok v, st') ∧ good st' ∧ touch [n] st st' ∧
    reader st' n (pre ++ to_bytes ty v) y.
Proof.
  intros Hg Hr Hv.
  destruct (read_spec st n pre (to_bytes ty v) y (csize ty)) as (st' & E & H); try done.
  - intros Hnil. pose proof (zlen_to_bytes ty v) as Hl. rewrite Hnil, zlen_nil in Hl. by destruct ty.
  - by rewrite zlen_to_bytes.
  - exists st'. split; [|done]. unfold read_value. rewrite (M_bind_eq _ _ _ _ _ E).
    by rewrite of_to_bytes.
Qed.

Lemma get_const_buffer_spec st n pre x y k : good st → reader st n pre (x ++ y) → x ≠ [] → k = zlen x →
  ∃ d, get_const_buffer n k st = (Ok (ConstBuffer.make (Some d) (zlen x)), st) ∧ x `prefix_of` d ∧
    zlen x < 2 ^ 63.
Proof.
  intros Hg Hrd Hx ->. pose proof (zlen_nonneg pre). pose proof (zlen_nonneg x). pose proof (zlen_nonneg y).
  pose proof (zlen_pos x Hx).
  destruct (reader_inv st n pre (x ++ y) Hg Hrd) as (s & Hs & Hok & Hby & Hc & Hr & Ho).
  { by destruct x. }
  unfold get_const_buffer. rewrite fb_bind, Hc, Hs. simpl.
  destruct (buffer_spec st s Hg Hok) as (b & Hbs & Hbok & Hcb & Hsz & Hcap).
  rewrite Hby in Hsz, Hcb. rewrite !zlen_app in Hsz. rewrite (M_bind_eq _ _ _ _ _ Hbs), Hr, Hsz.
  rewrite u64_id by lia. rewrite (proj2 (Z.ltb_ge _ _)) by lia.
  destruct Hbok as (Hb1 & Hb2 & _). destruct (data_ b) as [d|] eqn:Ed; simpl in Hb1.
  2:{ unfold zlen in *. simpl in *. lia. }
  eexists. split; [done|]. unfold contents, slice in Hcb. rewrite Ed in Hcb. simpl in Hcb.
  rewrite drop_0 in Hcb. split.
  - exists (y ++ drop (Z.to_nat (size_ b)) d).
    rewrite <- (take_drop (Z.to_nat (size_ b)) d) at 1. rewrite Hcb.
    unfold zlen. rewrite Nat2Z.id, <- !app_assoc, drop_app_length. done.
  - lia.
Qed.

Lemma advance_offset_spec st n pre x y k : good st → reader st n pre (x ++ y) → x ≠ [] → k = zlen x →
  ∃ st', advance_offset n k st = (Ok (), st') ∧ good st' ∧ touch [n] st st' ∧ reader st' n (pre ++ x) y.
Proof.
  intros Hg Hrd Hx ->. pose proof (zlen_nonneg pre). pose proof (zlen_nonneg x). pose proof (zlen_nonneg y).
  destruct (reader_inv st n pre (x ++ y) Hg Hrd) as (s & Hs & Hok & Hby & Hc & Hr & Ho).
  { by destruct x. }
  destruct (buffer_spec st s Hg Hok) as (b & Hbs & _ & _ & Hsz & Hcap).
  rewrite Hby, !zlen_app in Hsz.
  unfold advance_offset. rewrite fb_bind, Hc, Hs, Ho, Hr. simpl.
  rewrite (M_bind_eq _ _ _ _ _ Hbs), Hsz. rewrite u64_id by lia.
  assert (fbbytes st n = [(pre ++ x) ++ y]) as Hfb by (unfold fbbytes; rewrite Hs, <- app_assoc; simpl; by rewrite Hby).
  destruct (Z.ltb_spec (zlen pre + zlen x) (zlen pre + (zlen x + zlen y))) as [Hlt|Hge].
  - eexists. split; [done|]. apply reader_upd; try done; simpl; rewrite ?Hs, ?zlen_app; try done. by left.
  - assert (y = []) as -> by (apply length_zero_iff_nil; unfold zlen in Hge; lia).
    rewrite zlen_nil, Z.add_0_r, Z.eqb_refl.
    eexists. split; [done|]. apply reader_upd; try done; simpl; rewrite ?Hs, ?zlen_app; try done. by right.
Qed.
