(* ===== verification/FilterWrite.v ===== *)
(** * FilterBuffer operations that write

    [owner st n id b l]: the filter buffer [n] can be written, its first segment
    is the buffer [b] at [id], and nothing else designates that buffer. *)

From stdpp Require Import functions.
From S2P Require Import Prelude.
From S2P Require Import ConstBuffer.
From S2P Require Import Buffer.
From S2P Require Import FilterBuffer.
From S2P Require Import FilterIO.
Local Open Scope Z_scope.

Definition owner (st : Store) (n : fbname) (id : nat) (b : Buffer.t) (l : list BufferOrView) : Prop :=
  buffers_ (bufs st n) = Own id :: l ∧ refs st id = 1%nat ∧ heap st !! id = Some b ∧
  read_only_ (bufs st n) = false.

Lemma owner_touch st st' F n id b l :
  owner st n id b l → touch F st st' → n ∉ F → owner st' n id b l.
Proof.
  intros (H1 & H2 & H3 & H4) Ht Hn. destruct (Ht n Hn) as (Hb & _ & Ho).
  destruct (Ho id b) as [H3' H2']; [unfold ids; rewrite H1; left|done..|].
  split_and!; congruence.
Qed.

Lemma owner_ok st n id b l : good st → owner st n id b l → buf_ok b.
Proof. intros Hg (_ & _ & Hb & _). by apply (good_heap _ Hg id). Qed.

Lemma owner_upd st n id b l b' : good st → owner st n id b l → buf_ok b' →
  owns_data_ b' = owns_data_ b →
  let st' := with_heap st (<[id := b']> (heap st)) in
  good st' ∧ touch [n] st st' ∧ owner st' n id b' l ∧ tail (fbbytes st' n) = tail (fbbytes st n).
Proof.
  intros Hg (H1 & H2 & H3 & H4) Hok Ho st'.
  destruct (upd_owned st n id l b b') as (G & T & B); try done.
  split_and!; try done.
  - split_and!; try done. simpl. apply list_lookup_insert_eq. by eapply lookup_lt_Some.
  - fold st' in B. by rewrite B.
Qed.

Lemma on_heap_owner {A} st n id b l (m : M Buffer.t A) r b' : good st → owner st n id b l →
  m b = (r, b') → buf_ok b' → owns_data_ b' = owns_data_ b →
  ∃ st', on_heap id m st = (r, st') ∧ good st' ∧ touch [n] st st' ∧ owner st' n id b' l ∧
    tail (fbbytes st' n) = tail (fbbytes st n) ∧ bufs st' = bufs st.
Proof.
  intros Hg Ho Hm Hok Hob. pose proof Ho as (_ & _ & Hb & _). rewrite (on_heap_eq _ _ _ _ _ _ Hb Hm).
  destruct (owner_upd st n id b l b' Hg Ho Hok Hob) as (? & ? & ? & ?). eexists. by split_and!.
Qed.

Lemma on_ptr_owner {A} st n id b l (m : M Buffer.t A) r b' : good st → owner st n id b l →
  m b = (r, b') → buf_ok b' → owns_data_ b' = owns_data_ b →
  ∃ st', on_ptr id m st = (r, st') ∧ good st' ∧ touch [n] st st' ∧ owner st' n id b' l ∧
    tail (fbbytes st' n) = tail (fbbytes st n) ∧ bufs st' = bufs st.
Proof.
  intros Hg Ho. pose proof Ho as (_ & Hr & _). unfold on_ptr. rewrite Hr, Nat.eqb_refl.
  by apply on_heap_owner.
Qed.

(** The updates of [n]'s cursor and flags. *)
Lemma owner_fb st n id b l f : good st → owner st n id b l →
  buffers_ f = buffers_ (bufs st n) → read_only_ f = false →
  good (with_fb st n f) ∧ touch [n] st (with_fb st n f) ∧ owner (with_fb st n f) n id b l ∧
  fbbytes (with_fb st n f) n = fbbytes st n.
Proof.
  intros Hg (H1 & H2 & H3 & H4) Hf Hr. destruct (upd_fb st n f Hg Hf) as (G & T & B).
  split_and!; try done. split_and!; rewrite ?bufs_with_fb; try done; [congruence|].
  pose proof (refs_with_fb st n f id) as E. rewrite Hf in E. lia.
Qed.

(** ** Sequential writes *)

(** The buffer [b] stores [xs] from its start and has room for [cap] bytes; it
    is as long as what was written if it owns its memory ([o]), and [cap] bytes
    long from the outset if not. *)
Definition stores (b : Buffer.t) (o : bool) (xs : list Z) (cap : Z) : Prop :=
  xs `prefix_of` block (data_ b) ∧ (zlen xs ≤ cap ≤ capacity b ∧ cap < 2 ^ 63) ∧
  owns_data_ b = o ∧ size_ b = if o then zlen xs else cap.

Definition writer (st : Store) (n : fbname) (o : bool) (xs : list Z) (cap : Z) : Prop := ∃ id b l,
  owner st n id b l ∧ stores b o xs cap ∧
  (current_buffer_ (bufs st n) = 0%nat ∧ current_relative_offset_ (bufs st n) = zlen xs ∨
   zlen xs = capacity b).

Lemma writer_touch st st' F n o xs cap :
  writer st n o xs cap → touch F st st' → n ∉ F → writer st' n o xs cap.
Proof.
  intros (id & b & l & Ho & Hs & Hc) Ht Hn. exists id, b, l.
  split_and!; [by eapply owner_touch|done|]. by rewrite (proj1 (Ht n Hn)).
Qed.

(** What [memcpy] and the size update of [write] do to a buffer. *)
Definition written_at (b : Buffer.t) (rel : Z) (x : list Z) : Buffer.t :=
  mk (alloced_size_ b) (Some (overlay rel x (block (data_ b)))) (Buffer.offset_ b) (owns_data_ b)
     (Z.max (size_ b) (rel + zlen x)).

Lemma overlay_app (d xs tl x : list Z) : d = xs ++ tl → zlen x ≤ zlen tl →
  overlay (zlen xs) x d = xs ++ x ++ drop (length x) tl.
Proof.
  intros -> Hl. unfold overlay, zlen. rewrite Nat2Z.id, take_app_length. do 2 f_equal.
  rewrite drop_app_ge by lia. f_equal. lia.
Qed.

Lemma stores_written b o xs x cap : buf_ok b → stores b o xs cap → Forall byte_ok x →
  zlen xs + zlen x ≤ cap →
  buf_ok (written_at b (zlen xs) x) ∧ stores (written_at b (zlen xs) x) o (xs ++ x) cap ∧
  capacity (written_at b (zlen xs) x) = capacity b.
Proof.
  intros (Hs1 & Hs2 & Hby & Hal) ((tl & Hp) & Hcap & Hsz) Hx Hfit.
  pose proof (zlen_nonneg xs). pose proof (zlen_nonneg x).
  assert (capacity b ≤ zlen (block (data_ b))) as Hc2.
  { unfold capacity. destruct (owns_data_ b); [rewrite <- Hal by done|]; lia. }
  assert (zlen (block (data_ b)) = zlen xs + zlen tl) as Hl by (rewrite Hp; apply zlen_app).
  pose proof (overlay_app _ xs tl x Hp) as Hov.
  unfold written_at, buf_ok, stores, capacity in *. simpl. rewrite Hov by lia.
  rewrite !zlen_app. assert (zlen (drop (length x) tl) = zlen tl - zlen x) as Hd.
  { unfold zlen in *. rewrite length_drop. lia. }
  assert (Forall byte_ok (xs ++ x ++ drop (length x) tl)) as Hby'.
  { rewrite !Forall_app. rewrite Hp, Forall_app in Hby. destruct Hby. split_and!; try done. by apply Forall_drop. }
  assert ((xs ++ x) `prefix_of` (xs ++ x ++ drop (length x) tl)) as Hpre.
  { rewrite app_assoc. by apply prefix_app_r. }
  destruct Hsz as [<- Hsz].
  rewrite Hd. destruct (owns_data_ b) eqn:Eo; [specialize (Hal eq_refl)|]; split_and!; try done; lia.
Qed.

Lemma buffer_own st id b : heap st !! id = Some b → buffer (Own id) st = (Ok b, st).
Proof. intros Hb. unfold buffer. simpl. by rewrite Hb. Qed.

(** The two heap updates of one turn of [write]. *)
Lemma write_segment st n id b l o xs x cap : good st → owner st n id b l → stores b o xs cap →
  Forall byte_ok x → zlen xs + zlen x ≤ cap →
  ∃ st', (_ ← poke (Own id) (zlen xs) x;
          if size_ b <? u64 (zlen xs + zlen x) then on_heap id (Buffer.set_size (u64 (zlen xs + zlen x)))
          else mret ()) st = (Ok (), st') ∧
    good st' ∧ touch [n] st st' ∧ owner st' n id (written_at b (zlen xs) x) l ∧
    tail (fbbytes st' n) = tail (fbbytes st n) ∧ bufs st' = bufs st.
Proof.
  intros Hg Ho Hs Hx Hfit. pose proof (owner_ok _ _ _ _ _ Hg Ho) as Hok.
  pose proof (zlen_nonneg xs). pose proof (zlen_nonneg x).
  destruct (stores_written b o xs x cap Hok Hs Hx Hfit) as (Hok' & _ & Hc').
  destruct Hok as (Hs1 & Hs2 & Hby & Hal), Hs as (Hp & Hcap & Hsz).
  assert (capacity b ≤ zlen (block (data_ b))) as Hc2.
  { unfold capacity. destruct (owns_data_ b); [rewrite <- Hal by done|]; lia. }
  pose proof Ho as (H1 & H2 & H3 & H4).
  destruct (owner_upd st n id b l (written_at b (zlen xs) x) Hg Ho Hok' eq_refl) as (G & T & O & B).
  eexists. split; [|by split_and!].
  unfold poke. simpl underlying_buffer.
  set (b1 := mk (alloced_size_ b) (Some (overlay (zlen xs) x (block (data_ b))))
                (Buffer.offset_ b) (owns_data_ b) (size_ b)).
  erewrite M_bind_eq; [|apply (on_heap_eq _ _ _ b (Ok ()) b1 H3); by rewrite memwrite_ok by lia].
  pose proof (lookup_lt_Some _ _ _ H3) as Hlt. rewrite u64_id by lia.
  destruct (Z.ltb_spec (size_ b) (zlen xs + zlen x)) as [Hlt'|Hge].
  - rewrite (on_heap_eq _ _ _ b1 (Ok ()) (with_size b1 (zlen xs + zlen x)));
      [|by apply list_lookup_insert_eq|done].
    unfold with_heap. simpl. rewrite list_insert_insert_eq. unfold written_at, with_size. simpl.
    by rewrite Z.max_r by lia.
  - unfold written_at. by rewrite Z.max_l by lia.
Qed.

Lemma step_writer st n id b l o xs x cap : good st → owner st n id b l → stores b o (xs ++ x) cap →
  current_buffer_ (bufs st n) = 0%nat →
  current_relative_offset_ (bufs st n) = zlen (xs ++ x) →
  ∃ st', step_cursor n (zlen x) capacity st = (Ok (), st') ∧ good st' ∧ touch [n] st st' ∧
    writer st' n o (xs ++ x) cap ∧ fbbytes st' n = fbbytes st n.
Proof.
  intros Hg Ho Hs Hc Hr. pose proof Ho as (H1 & H2 & H3 & H4).
  unfold step_cursor. rewrite fb_bind, set_fb_bind, H1, Hc. simpl.
  set (f1 := with_fb_offset _ _). destruct (owner_fb st n id b l f1 Hg Ho eq_refl H4) as (G1 & T1 & O1 & B1).
  rewrite (M_bind_eq _ _ _ _ _ (buffer_own (with_fb st n f1) id b H3)).
  rewrite Hr. destruct (Z.eqb_spec (zlen (xs ++ x)) (capacity b)) as [He|Hne].
  - unfold set_cursor. rewrite bufs_with_fb. eexists. split; [done|].
    destruct (owner_fb _ n id b l (with_cursor f1 1 0) G1 O1) as (G2 & T2 & O2 & B2);
      [by rewrite bufs_with_fb|done|].
    split_and!; [done|by eapply touch_trans| |congruence].
    exists id, b, l. split_and!; try done. by right.
  - exists (with_fb st n f1). split_and!; try done.
    exists id, b, l. split_and!; try done. left. by rewrite bufs_with_fb.
Qed.

(** Writing within the room of the first buffer appends. *)
Lemma write_fb_spec st n o xs x cap : good st → writer st n o xs cap → x ≠ [] → Forall byte_ok x →
  zlen xs + zlen x ≤ cap →
  ∃ st', write n x st = (Ok (), st') ∧ good st' ∧ touch [n] st st' ∧ writer st' n o (xs ++ x) cap ∧
    tail (fbbytes st' n) = tail (fbbytes st n).
Proof.
  intros Hg (id & b & l & Ho & Hs & Hcur) Hx Hby Hfit. pose proof (zlen_pos x Hx).
  pose proof (zlen_nonneg xs). pose proof Ho as (H1 & H2 & H3 & H4).
  pose proof Hs as (_ & Hcap & _). pose proof (owner_ok _ _ _ _ _ Hg Ho) as Hok.
  assert (capacity b < 2 ^ 64) as Hc64.
  { destruct Hok as (? & ? & _ & Hal). unfold capacity. destruct (owns_data_ b); [rewrite <- Hal by done|]; lia. }
  destruct Hcur as [[Hc Hr]|?]; [|lia].
  unfold write. rewrite fb_bind, H4, Hc, H1. simpl drop.
  destruct (write_segment st n id b l o xs x cap) as (st1 & Hw & G1 & T1 & O1 & B1 & E1); try done.
  destruct (stores_written b o xs x cap) as (Hok1 & Hs1 & _); try done.
  set (f2 := with_cursor (bufs st n) 0 (zlen xs + zlen x)).
  destruct (owner_fb st1 n id _ l f2 G1 O1) as (G2 & T2 & O2 & B2); [by rewrite E1|done|].
  assert (write_loop n (Own id :: l) 0 x st = (Ok 0, with_fb st1 n f2)) as Hloop.
  { simpl write_loop. rewrite fb_bind, (M_bind_eq _ _ _ _ _ (buffer_own st id b H3)), Hr.
    rewrite u64_id by lia. rewrite (proj2 (Z.eqb_neq _ _)) by lia. rewrite Z.min_r by lia.
    rewrite slice_all. unfold mbind, M_bind in Hw |- *.
    destruct (poke (Own id) (zlen xs) x st) as [[?| |] s1]; [|done..].
    rewrite Hw, Z.sub_diag. simpl. unfold set_cursor. rewrite E1.
    rewrite u64_id by lia. done. }
  rewrite (M_bind_eq _ _ _ _ _ Hloop). rewrite Z.ltb_irrefl.
  destruct (step_writer (with_fb st1 n f2) n id (written_at b (zlen xs) x) l o xs x cap)
    as (st3 & Hst & G3 & T3 & W3 & B3); try done; rewrite ?bufs_with_fb; try done.
  { by rewrite zlen_app. }
  exists st3. split_and!; try done; [|congruence].
  by eapply touch_trans, touch_trans.
Qed.

Lemma write_value_spec st n o xs ty v cap : good st → writer st n o xs cap → zlen xs + csize ty ≤ cap →
  ∃ st', write_value n ty v st = (Ok (), st') ∧ good st' ∧ touch [n] st st' ∧
    writer st' n o (xs ++ to_bytes ty v) cap ∧ tail (fbbytes st' n) = tail (fbbytes st n).
Proof.
  intros Hg Hw Hfit. apply write_fb_spec; try done.
  - intros Hnil. pose proof (zlen_to_bytes ty v) as Hl. rewrite Hnil, zlen_nil in Hl. by destruct ty.
  - apply to_bytes_ok.
  - by rewrite zlen_to_bytes.
Qed.

(** [write(FilterBuffer*, n)] copies what the other buffer has next. *)
Lemma write_from_spec st n m o xs cap pre x y k : good st → writer st n o xs cap →
  reader st m pre (x ++ y) → n ≠ m → x ≠ [] → k = zlen x → zlen xs + zlen x ≤ cap →
  ∃ st', write_from n m k st = (Ok (), st') ∧ good st' ∧ touch [n] st st' ∧
    writer st' n o (xs ++ x) cap ∧ tail (fbbytes st' n) = tail (fbbytes st n).
Proof.
  intros Hg Hw Hrd Hne Hx -> Hfit. pose proof (zlen_nonneg pre). pose proof (zlen_pos x Hx). pose proof (zlen_nonneg y).
  destruct (reader_inv st m pre (x ++ y) Hg Hrd) as (s & Hs & Hok & Hby & Hc & Hr & Ho).
  { by destruct x. }
  assert (read_only_ (bufs st n) = false) as Hro by (by destruct Hw as (? & ? & ? & (_ & _ & _ & ?) & _)).
  destruct (buffer_spec st s Hg Hok) as (b & Hbs & Hbok & Hcb & Hsz & Hcap).
  pose proof (seg_bytes_ok st s Hg Hok) as Hbytes. rewrite Hby, !Forall_app in Hbytes.
  rewrite Hby in Hsz, Hcb. rewrite !zlen_app in Hsz.
  destruct (write_fb_spec st n o xs x cap) as (st' & Hwr & G & T & W & B); try done; [apply Hbytes|].
  exists st'. split_and!; try done.
  unfold write_from. rewrite fb_bind, Hro, fb_bind, Hc, Hs, Hr. simpl drop.
  assert (write_from_loop n [s] (zlen pre) (zlen x) st = (Ok 0, st')) as Hl.
  { simpl. rewrite (proj2 (Z.eqb_neq _ _)) by lia. rewrite (M_bind_eq _ _ _ _ _ Hbs), Hsz.
    rewrite u64_id by lia. rewrite Z.min_l by lia.
    rewrite (memread_at _ _ _ pre x (y ++ drop (Z.to_nat (size_ b)) (block (data_ b))));
      [|rewrite !app_assoc, <- (app_assoc pre), <- Hcb;
       unfold contents, slice; by rewrite drop_0, take_drop|done|done].
    rewrite lift_bind, (M_bind_eq _ _ _ _ _ Hwr), Z.sub_diag; done. }
  by rewrite (M_bind_eq _ _ _ _ _ Hl).
Qed.

(** ** Fresh buffers *)

Lemma refs_zero st id : good st → heap st !! id = None → refs st id = 0%nat.
Proof.
  intros Hg Hn. destruct (refs st id) eqn:Er; [done|]. exfalso.
  assert (∃ m, (0 < cnt (buffers_ (bufs st m)) id)%nat) as (m & Hm).
  { rewrite refs_sum in Er.
    destruct (cnt (buffers_ (bufs st input_metadata)) id) eqn:E1; [|exists input_metadata; lia].
    destruct (cnt (buffers_ (bufs st input_data)) id) eqn:E2; [|exists input_data; lia].
    destruct (cnt (buffers_ (bufs st output_metadata)) id) eqn:E3; [|exists output_metadata; lia].
    exists output_data. lia. }
  apply cnt_elem, list_elem_of_fmap in Hm as (s & -> & Hs).
  destruct (seg_in st m s Hg Hs) as (b & Hb & _). congruence.
Qed.

(** A new [Buffer] object. *)
Lemma new_buffer_spec st b : good st → buf_ok b →
  let st' := with_heap st (heap st ++ [b]) in
  good st' ∧ touch [] st st' ∧ (∀ m, fbbytes st' m = fbbytes st m) ∧
  refs st (length (heap st)) = 0%nat ∧ heap st' !! length (heap st) = Some b.
Proof.
  intros Hg Hok st'. pose proof Hg as [H1 H2 H3 H4 H5].
  assert (∀ i c, heap st !! i = Some c → heap st' !! i = Some c) as Hh.
  { intros i c Hc. by apply lookup_app_l_Some. }
  assert (∀ m, fbbytes st' m = fbbytes st m) as Hbytes.
  { intros m. apply list_fmap_ext. intros i s Hs. apply list_elem_of_lookup_2 in Hs.
    destruct (seg_in st m s Hg Hs) as (c & Hc & _). unfold seg_bytes. by rewrite Hc, (Hh _ _ Hc). }
  split_and!; try done.
  - split; try done.
    + intros i c Hc. apply lookup_app_Some in Hc as [Hc|[_ Hc]]; [by apply (H1 i)|].
      by apply list_lookup_singleton_Some in Hc as [_ <-].
    + intros m. eapply Forall_impl; [apply H2|]. intros s (c & Hc & Hs). exists c. split; [by apply Hh|done].
    + intros i Hi. destruct (H5 i Hi) as (c & Hc & Ho). exists c. split; [by apply Hh|done].
  - intros m _. split_and!; [done|by apply Hbytes|]. intros i c _ Hr Hc. split; [by apply Hh|done].
  - apply refs_zero; [done|]. apply lookup_ge_None. lia.
  - simpl. by rewrite lookup_app_r, Nat.sub_diag by lia.
Qed.

(** A buffer no segment designates. *)
Lemma upd_free st id b b' : good st → heap st !! id = Some b → refs st id = 0%nat → buf_ok b' →
  owns_data_ b' = owns_data_ b →
  let st' := with_heap st (<[id := b']> (heap st)) in
  good st' ∧ touch [] st st' ∧ (∀ m, fbbytes st' m = fbbytes st m).
Proof.
  intros Hg Hb Hr Hok Ho st'.
  assert (∀ m s, s ∈ buffers_ (bufs st m) → underlying_buffer s ≠ id) as Hne.
  { intros m s Hs <-. assert (underlying_buffer s ∈ ids st m) as Hi by (by apply list_elem_of_fmap_2).
    apply refs_pos in Hi. lia. }
  assert (∀ m, fbbytes st' m = fbbytes st m) as Hbytes.
  { intros m. apply list_fmap_ext. intros i s Hs. apply seg_bytes_ne, (Hne m). by apply list_elem_of_lookup_2 in Hs. }
  split_and!; try done.
  - split; try apply Hg.
    + by apply good_heap_insert.
    + intros m. apply Forall_forall. intros s Hs. apply seg_ok_ne; [by apply (Hne m)|by apply (seg_in st m)].
    + by apply (good_pool_insert st id b).
  - intros m _. split_and!; [done|by apply Hbytes|]. intros i c _ Hri Hc. split; [|done]. simpl.
    rewrite list_lookup_insert_ne; [done|]. intros <-. lia.
Qed.

(** Placing such a buffer at the front of a filter buffer. *)
Lemma push_own st n id b f : good st → heap st !! id = Some b → refs st id = 0%nat →
  (id ∉ available_ st) → buffers_ f = Own id :: buffers_ (bufs st n) → read_only_ f = false →
  good (with_fb st n f) ∧ touch [n] st (with_fb st n f) ∧
  owner (with_fb st n f) n id b (buffers_ (bufs st n)) ∧
  fbbytes (with_fb st n f) n = contents b :: fbbytes st n.
Proof.
  intros Hg Hb Hr Hav Hf Hro.
  assert (∀ i, refs (with_fb st n f) i = ((if decide (id = i) then 1 else 0) + refs st i)%nat) as Hrefs.
  { intros i. pose proof (refs_with_fb st n f i) as E. rewrite Hf, cnt_cons in E. simpl in E. lia. }
  split_and!.
  - destruct Hg as [H1 H2 H3 H4 H5]. split; try done.
    + intros m. destruct (decide (n = m)) as [<-|Hm]; [|rewrite bufs_with_fb_ne by done; apply H2].
      rewrite bufs_with_fb, Hf. constructor; [|apply H2]. exists b. done.
    + intros i Hi. rewrite Hrefs. rewrite H4 by done. rewrite decide_False; [done|]. by intros <-.
  - intros m Hm. assert (n ≠ m) by (intros ->; apply Hm; left).
    unfold fbbytes. rewrite bufs_with_fb_ne by done. split_and!; [done..|].
    intros i c Hi Hri Hc. split; [done|]. rewrite Hrefs, Hri. rewrite decide_False; [done|]. intros <-. lia.
  - split_and!; rewrite ?bufs_with_fb; try done. rewrite Hrefs, Hr. by rewrite decide_True.
  - unfold fbbytes. rewrite bufs_with_fb, Hf. simpl. f_equal. unfold seg_bytes. simpl. by rewrite Hb.
Qed.

Section Alloc.
Context `{!Allocator}.
Hypothesis Hmem : ¬ out_of_memory.

Lemma malloc_total n : ∃ m, malloc n = Some m.
Proof. destruct (malloc n) as [m|] eqn:E; [by exists m|]. destruct Hmem. by exists n. Qed.

Lemma realloc_spec b nbytes : buf_ok b → owns_data_ b = true → 0 ≤ nbytes < 2 ^ 64 →
  ∃ b', Buffer.realloc nbytes b = (Ok (), b') ∧ buf_ok b' ∧ owns_data_ b' = true ∧
    nbytes ≤ alloced_size_ b' ≤ Z.max nbytes (alloced_size_ b) ∧
    size_ b' = size_ b ∧ Buffer.offset_ b' = Buffer.offset_ b ∧
    block (data_ b) `prefix_of` block (data_ b').
Proof.
  intros (Hs1 & Hs2 & Hby & Hal) Ho Hn. specialize (Hal Ho). unfold Buffer.realloc. rewrite Ho. simpl.
  destruct (data_ b) as [d|] eqn:Ed; simpl in *.
  - destruct (Z.ltb_spec (alloced_size_ b) nbytes) as [Hlt|Hge].
    + destruct (std_realloc d nbytes) as [m|] eqn:Er.
      2:{ unfold std_realloc in Er. destruct (malloc_total nbytes) as [m Em]. by rewrite Em in Er. }
      destruct (std_realloc_spec d nbytes m) as (E1 & E2 & E3); try done; try lia.
      eexists. split; [done|]. unfold buf_ok. simpl. split_and!; try done; try lia.
      rewrite <- E2. unfold slice. rewrite drop_0. apply prefix_take.
    + exists b. unfold buf_ok. rewrite Ed. simpl. split_and!; try done; lia.
  - destruct (malloc_total nbytes) as [m Em]. rewrite Em.
    pose proof (malloc_bytes _ _ Em). apply malloc_size in Em; [|lia].
    eexists. split; [done|]. unfold zlen in Hs1, Hs2, Hal. simpl in *. unfold buf_ok. simpl.
    split_and!; try done; try lia. apply prefix_nil.
Qed.

Lemma get_buffer_spec st : good st →
  ∃ id b st', get_buffer st = (Ok id, st') ∧ good st' ∧ bufs st' = bufs st ∧
    refs st' id = 0%nat ∧ heap st' !! id = Some b ∧ owns_data_ b = true ∧ (id ∉ available_ st') ∧
    touch [] st st' ∧ (∀ m, fbbytes st' m = fbbytes st m).
Proof.
  intros Hg. unfold get_buffer. destruct (available_ st) as [|id av] eqn:Ea.
  - assert (buf_ok Buffer.empty) as Hok by (unfold buf_ok, zlen; simpl; by split_and!).
    destruct (new_buffer_spec st Buffer.empty Hg Hok) as ([H1 H2 H3 H4 H5] & T & B & Hr & Hl).
    eexists _, _, _. split; [done|]. simpl in *. rewrite Ea in *. split_and!; try done.
    + split; simpl; try done.
      * apply NoDup_app. split_and!; [done| |apply NoDup_singleton].
        intros i Hi Hi'. apply list_elem_of_singleton in Hi' as ->.
        destruct (good_pool _ Hg (length (heap st))) as (b & Hb & _); [by rewrite Ea|].
        apply lookup_lt_Some in Hb. lia.
      * intros i Hi. apply elem_of_app in Hi as [Hi|Hi]; [by apply H5|].
        apply list_elem_of_singleton in Hi as ->. by exists Buffer.empty.
    + apply not_elem_of_nil.
  - destruct Hg as [H1 H2 H3 H4 H5]. rewrite Ea in *.
    destruct (H5 id) as (b & Hb & Ho); [left|]. simpl in H3. apply NoDup_cons in H3 as [Hni Hnd].
    eexists _, _, _. split; [done|]. simpl. split_and!; try done.
    + split; simpl; try done.
      * rewrite app_assoc. apply NoDup_app. split_and!; [done| |apply NoDup_singleton].
        intros i Hi Hi'. apply list_elem_of_singleton in Hi' as ->. done.
      * intros i Hi. apply H4. by right.
      * intros i Hi. apply H5. rewrite app_assoc in Hi. apply elem_of_app in Hi as [Hi|Hi]; [by right|].
        apply list_elem_of_singleton in Hi as ->. left.
    + apply H4. left.
    + intros Hi. apply Hni, elem_of_app. by left.
Qed.

(** [prepend_buffer] without a fixed allocation: an empty buffer in front. *)
Lemma prepend_spec st n nbytes : good st → 0 ≤ nbytes < 2 ^ 63 →
  read_only_ (bufs st n) = false → fixed_allocation_data_ (bufs st n) = false →
  ∃ st' id b, prepend_buffer n nbytes st = (Ok (), st') ∧ good st' ∧ touch [n] st st' ∧
    owner st' n id b (buffers_ (bufs st n)) ∧ stores b true [] nbytes ∧
    Buffer.offset_ b = 0 ∧ current_buffer_ (bufs st' n) = 0%nat ∧
    current_relative_offset_ (bufs st' n) = 0 ∧
    fixed_allocation_data_ (bufs st' n) = false ∧ fbbytes st' n = [] :: fbbytes st n.
Proof.
  intros Hg Hn Hro Hfix. unfold prepend_buffer. rewrite fb_bind, Hro, Hfix.
  destruct (get_buffer_spec st Hg) as (id & b & st1 & Hgb & G1 & E1 & R1 & L1 & O1 & A1 & T1 & B1).
  destruct (realloc_spec b nbytes) as (b2 & Hre & Hok2 & Ho2 & Hcap & Hs2 & _);
    [by apply (good_heap _ G1 id)|done|lia|].
  set (b3 := with_size (with_offset b2 0) 0).
  assert (buf_ok b3) as Hok3.
  { destruct Hok2 as (? & ? & ? & ?). unfold buf_ok, b3. simpl. split_and!; try done; lia. }
  destruct (upd_free st1 id b b2 G1 L1 R1 Hok2) as (G2 & T2 & B2); [congruence|].
  set (st2 := with_heap st1 (<[id:=b2]> (heap st1))) in *.
  pose proof (lookup_lt_Some _ _ _ L1) as Hlt.
  assert (heap st2 !! id = Some b2) as L2 by (by apply list_lookup_insert_eq).
  destruct (upd_free st2 id b2 b3 G2 L2 R1 Hok3 eq_refl) as (G3 & T3 & B3).
  set (st3 := with_heap st2 (<[id:=b3]> (heap st2))) in *.
  assert (heap st3 !! id = Some b3) as L3.
  { apply list_lookup_insert_eq. by eapply lookup_lt_Some. }
  set (f4 := with_fb_offset (with_buffers (bufs st n) (Own id :: buffers_ (bufs st n)))
               (u64 (offset_ (bufs st n) + nbytes))).
  destruct (push_own st3 n id b3 f4 G3 L3 R1 A1) as (G4 & T4 & O4 & B4); [simpl; by rewrite E1|done|].
  set (st4 := with_fb st3 n f4) in *.
  destruct (owner_fb st4 n id b3 _ (with_fb_offset (with_cursor f4 0 0) 0) G4 O4) as (G5 & T5 & O5 & B5);
    [unfold st4; by rewrite bufs_with_fb|done|].
  eexists _, id, b3. split.
  { cbn [negb]. erewrite (M_bind_eq _ _ () st st4).
    - unfold reset_offset. rewrite fb_bind. unfold st4 at 1. by rewrite bufs_with_fb.
    - rewrite (M_bind_eq _ _ _ _ _ Hgb).
      rewrite (M_bind_eq _ _ _ _ _ (on_heap_eq id _ st1 b _ _ L1 Hre)). fold st2.
      by rewrite (M_bind_eq _ _ _ _ _ (on_heap_eq id Buffer.reset_size st2 b2 (Ok ()) b3 L2 eq_refl)). }
  split_and!; try done.
  - eapply touch_trans; [eapply touch_mono, T1; apply list_subseteq_nil|].
    eapply touch_trans; [eapply touch_mono, T2; apply list_subseteq_nil|].
    eapply touch_trans; [eapply touch_mono, T3; apply list_subseteq_nil|]. by eapply touch_trans.
  - simpl in O5. by rewrite E1 in O5.
  - unfold stores, b3, capacity. simpl. rewrite Ho2, zlen_nil. split_and!; try done; try lia.
    apply prefix_nil.
  - by rewrite bufs_with_fb.
  - by rewrite bufs_with_fb.
  - by rewrite bufs_with_fb.
  - by rewrite B5, B4, B3, B2, B1.
Qed.
End Alloc.
