(* ===== verification/FilterViews.v ===== *)
(** * FilterBuffer operations: views, clearing and swapping *)

From stdpp Require Import functions.
From S2P Require Import Prelude.
From S2P Require Import ConstBuffer.
From S2P Require Import Buffer.
From S2P Require Import FilterBuffer.
From S2P Require Import FilterIO.
From S2P Require Import FilterWrite.
Local Open Scope Z_scope.

(** The filter buffer [m] is read only by an operation on another one. *)
Definition keeps (st st' : Store) (m : fbname) : Prop :=
  bufs st' m = bufs st m ∧ fbbytes st' m = fbbytes st m.

Lemma keeps_trans st1 st2 st3 m : keeps st1 st2 m → keeps st2 st3 m → keeps st1 st3 m.
Proof. intros [] []. split; congruence. Qed.

Lemma touch_keeps F st st' m : touch F st st' → m ∉ F → keeps st st' m.
Proof. intros Ht Hm. by destruct (Ht m Hm) as (? & ? & _). Qed.

Lemma reader_keeps st st' m pre x : reader st m pre x → keeps st st' m → reader st' m pre x.
Proof. intros Hr [Hb Hf]. unfold reader. by rewrite Hb, Hf. Qed.

(** ** Views *)

Lemma slice_slice {A} (l : list A) o n p k :
  0 ≤ o → 0 ≤ p → 0 ≤ k → p + k ≤ n → slice p k (slice o n l) = slice (o + p) k l.
Proof.
  intros. unfold slice. rewrite skipn_firstn_comm, take_take, drop_drop. f_equal; [lia|]. f_equal. lia.
Qed.

Lemma get_view_spec h s pre x y : seg_ok h s → seg_bytes h s = pre ++ x ++ y →
  (∀ b, h !! underlying_buffer s = Some b → buf_ok b) →
  seg_ok h (get_view s (zlen pre) (zlen x)) ∧ seg_bytes h (get_view s (zlen pre) (zlen x)) = x ∧
  underlying_buffer (get_view s (zlen pre) (zlen x)) = underlying_buffer s.
Proof.
  intros (b & Hb & Hs) Hby Hok. specialize (Hok b Hb) as (H1 & H2 & _).
  pose proof (zlen_nonneg pre). pose proof (zlen_nonneg x). pose proof (zlen_nonneg y).
  unfold seg_bytes in Hby. rewrite Hb in Hby.
  assert (slice (zlen pre) (zlen x) (pre ++ x ++ y) = x) as Hx by apply slice_app_exact.
  assert (zlen (pre ++ x ++ y) = zlen pre + zlen x + zlen y) as Hl by (rewrite !zlen_app; lia).
  destruct s as [id|id o k]; simpl in *.
  - rewrite <- Hby in Hl, Hx. unfold contents in Hl, Hx. rewrite zlen_slice in Hl by lia.
    split_and!; [|unfold seg_bytes; simpl; rewrite Hb; by rewrite slice_slice in Hx by lia|done].
    exists b. split; [done|]. lia.
  - destruct Hs as (? & ? & ?). rewrite <- Hby in Hl, Hx. rewrite zlen_slice in Hl by lia.
    split_and!; [|unfold seg_bytes; simpl; rewrite Hb; by rewrite slice_slice in Hx by lia|done].
    exists b. split; [done|]. lia.
Qed.

(** A view of a buffer of [m], placed at the end of [n]. *)
Lemma push_view st n m v : good st → n ≠ m → seg_ok (heap st) v → underlying_buffer v ∈ ids st m →
  let st' := with_fb st n (with_buffers (bufs st n) (buffers_ (bufs st n) ++ [v])) in
  good st' ∧ touch [n; m] st st' ∧ keeps st st' m ∧
  fbbytes st' n = fbbytes st n ++ [seg_bytes (heap st) v].
Proof.
  intros Hg Hnm Hv Hm st'.
  assert (∀ i, refs st' i = (refs st i + if decide (underlying_buffer v = i) then 1 else 0)%nat) as Hrefs.
  { intros i. pose proof (refs_with_fb st n (with_buffers (bufs st n) (buffers_ (bufs st n) ++ [v])) i) as E.
    simpl in E. rewrite cnt_app, cnt_cons in E. change (cnt [] i) with 0%nat in E. fold st' in E. lia. }
  pose proof (refs_pos _ _ _ Hm) as Hpos. split_and!.
  - destruct Hg as [H1 H2 H3 H4 H5]. split; try done.
    + intros k. destruct (decide (n = k)) as [<-|Hk]; [|unfold st'; rewrite bufs_with_fb_ne by done; apply H2].
      unfold st'. rewrite bufs_with_fb. simpl. apply Forall_app. split; [apply H2|]. by constructor.
    + intros i Hi. rewrite Hrefs. specialize (H4 i Hi). rewrite decide_False; [lia|]. intros <-. lia.
  - intros k Hk. assert (n ≠ k) by (intros ->; apply Hk; left).
    assert (m ≠ k) by (intros ->; apply Hk; right; left).
    unfold fbbytes, st'. rewrite bufs_with_fb_ne by done. split_and!; [done..|].
    intros i c Hi Hri Hc. split; [done|]. fold st'. rewrite Hrefs, Hri. rewrite decide_False; [done|].
    intros <-. by apply (refs_unique st m k) in Hm.
  - split; unfold fbbytes, st'; by rewrite bufs_with_fb_ne.
  - unfold fbbytes, st'. rewrite bufs_with_fb. simpl. by rewrite fmap_app.
Qed.

Lemma reset_buffer_spec st m s : good st → s ∈ buffers_ (bufs st m) →
  ∃ st', with_buffer s Buffer.reset_offset st = (Ok (), st') ∧ good st' ∧ touch [m] st st' ∧
    bufs st' = bufs st ∧ (∀ k, fbbytes st' k = fbbytes st k) ∧
    ∀ k t, t ∈ buffers_ (bufs st k) → seg_bytes (heap st') t = seg_bytes (heap st) t.
Proof.
  intros Hg Hs. pose proof (seg_in _ _ _ Hg Hs) as Hok.
  assert (∀ st' : Store, bufs st' = bufs st → (∀ k, fbbytes st' k = fbbytes st k) →
    ∀ k t, t ∈ buffers_ (bufs st k) → seg_bytes (heap st') t = seg_bytes (heap st) t) as Hfb.
  { intros st' Hb Hf k t Ht. specialize (Hf k). unfold fbbytes in Hf. rewrite Hb in Hf.
    apply list_elem_of_lookup in Ht as [i Hi].
    assert ((seg_bytes (heap st') <$> buffers_ (bufs st k)) !! i = (seg_bytes (heap st) <$> buffers_ (bufs st k)) !! i) as E
      by (by rewrite Hf). rewrite !list_lookup_fmap, Hi in E. simpl in E. by injection E. }
  destruct s as [id|id o k].
  - destruct Hok as (b & Hb & _). simpl in *.
    rewrite (on_heap_eq id Buffer.reset_offset st b (Ok ()) (with_offset b 0) Hb eq_refl).
    destruct (upd_offset st m id b 0 Hg Hb) as (G & T & B);
      [by apply (list_elem_of_fmap_2 underlying_buffer _ (Own id))|].
    eexists. split; [done|]. split_and!; try done. by apply Hfb.
  - destruct (buffer_spec st _ Hg Hok) as (b & Hbs & _). simpl. rewrite (M_bind_eq _ _ _ _ _ Hbs).
    exists st. split_and!; try done.
Qed.

Lemma flags_eq f g : with_buffers f [] = with_buffers g [] →
  fixed_allocation_data_ f = fixed_allocation_data_ g ∧
  fixed_allocation_op_allowed_ f = fixed_allocation_op_allowed_ g ∧ read_only_ f = read_only_ g.
Proof. unfold with_buffers. by intros [= _ _ ? ? _ ?]. Qed.

(** One turn of the loop of [append_view]. *)
Lemma append_step st n m s l pre x left : good st → n ≠ m → s ∈ buffers_ (bufs st m) →
  seg_bytes (heap st) s = pre ++ x → x ≠ [] → zlen x ≤ left →
  fixed_allocation_data_ (bufs st n) = false →
  ∃ st', append_loop n (s :: l) (zlen pre) left st = append_loop n l 0 (left - zlen x) st' ∧
    good st' ∧ touch [n; m] st st' ∧ keeps st st' m ∧ fbbytes st' n = fbbytes st n ++ [x] ∧
    with_buffers (bufs st' n) [] = with_buffers (bufs st n) [].
Proof.
  intros Hg Hnm Hs Hby Hx Hleft Hfix. pose proof (zlen_pos x Hx). pose proof (zlen_nonneg pre).
  destruct (reset_buffer_spec st m s Hg Hs) as (st1 & Hr1 & G1 & T1 & E1 & B1 & S1).
  assert (s ∈ buffers_ (bufs st1 m)) as Hs1 by (by rewrite E1).
  assert (seg_bytes (heap st1) s = pre ++ x ++ []) as Hby1 by (rewrite app_nil_r, <- Hby; by apply (S1 m)).
  pose proof (seg_in _ _ _ G1 Hs1) as Hok1.
  destruct (buffer_spec st1 s G1 Hok1) as (b & Hbs & _ & _ & Hsz & Hcap).
  rewrite Hby1, app_nil_r, zlen_app in Hsz.
  destruct (get_view_spec (heap st1) s pre x [] Hok1 Hby1) as (Hv1 & Hv2 & Hv3).
  { intros c. apply (good_heap _ G1). }
  set (v := get_view s (zlen pre) (zlen x)) in *.
  destruct (push_view st1 n m v G1 Hnm Hv1) as (G2 & T2 & K2 & B2).
  { rewrite Hv3. by apply list_elem_of_fmap_2. }
  eexists. split.
  { simpl append_loop. rewrite (proj2 (Z.eqb_neq _ _)) by lia. rewrite (M_bind_eq _ _ _ _ _ Hr1).
    rewrite (M_bind_eq _ _ _ _ _ Hbs), Hsz, fb_bind, E1, Hfix. rewrite u64_id by lia.
    rewrite Z.min_r by lia. replace (zlen pre + zlen x - zlen pre) with (zlen x) by lia.
    fold v. cbn [negb]. rewrite set_fb_bind, <- E1. done. }
  rewrite Hv2 in B2. split_and!; try done.
  - eapply touch_trans, T2. eapply touch_mono, T1. intros ? ->%list_elem_of_singleton. right. left.
  - eapply keeps_trans, K2. split; [by rewrite E1|by rewrite B1].
  - by rewrite B2, B1.
  - rewrite bufs_with_fb, E1. done.
Qed.

Lemma keeps_segs st st' m pre l : keeps st st' m → buffers_ (bufs st m) = pre ++ l →
  seg_bytes (heap st') <$> l = seg_bytes (heap st) <$> l.
Proof.
  intros [Hb Hf] Hs. unfold fbbytes in Hf. rewrite Hb, Hs, !fmap_app in Hf.
  by apply app_inj_1 in Hf as [_ Hf]; [|rewrite !length_fmap].
Qed.

Lemma append_all st n m pre l bs : good st → n ≠ m → fixed_allocation_data_ (bufs st n) = false →
  buffers_ (bufs st m) = pre ++ l → seg_bytes (heap st) <$> l = bs → Forall (.≠ []) bs →
  ∃ st', append_loop n l 0 (zlen (concat bs)) st = (Ok (), st') ∧
    good st' ∧ touch [n; m] st st' ∧ keeps st st' m ∧ fbbytes st' n = fbbytes st n ++ bs ∧
    with_buffers (bufs st' n) [] = with_buffers (bufs st n) [].
Proof.
  intros Hg Hnm Hfix Hs Hbs Hne. revert st pre l Hg Hfix Hs Hbs.
  induction Hne as [|x bs Hx Hne IH]; intros st pre l Hg Hfix Hs Hbs.
  - apply fmap_nil_inv in Hbs as ->. exists st. simpl. rewrite app_nil_r. split_and!; try done.
  - destruct l as [|s l]; [done|]. simpl in Hbs. injection Hbs as Hx' Hbs.
    simpl concat. rewrite zlen_app. pose proof (zlen_nonneg (concat bs)).
    destruct (append_step st n m s l [] x (zlen x + zlen (concat bs))) as (st1 & E1 & G1 & T1 & K1 & B1 & W1);
      try done; [rewrite Hs; apply elem_of_app; right; left|lia|].
    change (zlen []) with 0 in E1. rewrite E1. replace (zlen x + zlen (concat bs) - zlen x) with (zlen (concat bs)) by lia.
    assert (buffers_ (bufs st m) = (pre ++ [s]) ++ l) as Hs' by (by rewrite <- app_assoc).
    destruct (IH st1 (pre ++ [s]) l) as (st2 & E2 & G2 & T2 & K2 & B2 & W2); try done.
    + by rewrite (proj1 (flags_eq _ _ W1)).
    + by rewrite (proj1 K1).
    + rewrite <- Hbs. by apply (keeps_segs st st1 m (pre ++ [s])).
    + exists st2. rewrite E2. split_and!; try done; [by eapply touch_trans|by eapply keeps_trans| |congruence].
      rewrite B2, B1, <- app_assoc. done.
Qed.

(** The segment in which a global offset lies. *)
Lemma relative_offset_first st m s l off : good st → buffers_ (bufs st m) = s :: l →
  0 ≤ off < zlen (seg_bytes (heap st) s) →
  get_relative_offset m off st = (Ok (0%nat, off), st).
Proof.
  intros Hg Hs Hoff. unfold get_relative_offset. rewrite fb_bind, Hs. simpl.
  destruct (buffer_spec st s Hg) as (b & Hbs & _ & _ & Hsz & Hcap).
  { apply (seg_in st m); [done|]. rewrite Hs. left. }
  rewrite (M_bind_eq _ _ _ _ _ Hbs). rewrite (proj2 (Z.ltb_lt _ _)) by lia. done.
Qed.

Lemma reset_offset_spec st n : good st →
  ∃ st', reset_offset n st = (Ok (), st') ∧ good st' ∧ touch [n] st st' ∧
    fbbytes st' n = fbbytes st n ∧ bufs st' n = with_fb_offset (with_cursor (bufs st n) 0 0) 0.
Proof.
  intros Hg. unfold reset_offset. rewrite fb_bind. eexists. split; [done|].
  destruct (upd_fb st n (with_fb_offset (with_cursor (bufs st n) 0 0) 0) Hg eq_refl) as (? & ? & ?).
  split_and!; try done. by rewrite bufs_with_fb.
Qed.

Lemma subseteq_l (n m : fbname) : [n] ⊆ [n; m].
Proof. intros ? ->%list_elem_of_singleton. left. Qed.
Lemma subseteq_r (n m : fbname) : [m] ⊆ [n; m].
Proof. intros ? ->%list_elem_of_singleton. right. left. Qed.

(** Membership of concrete filter buffers. *)
Ltac nin := apply (bool_decide_unpack _); exact I.

Lemma not_in_singleton (n m : fbname) : n ≠ m → m ∉ [n].
Proof. intros Hne ->%list_elem_of_singleton. done. Qed.

(** Appending a view of a whole filter buffer. *)
Lemma append_view_spec st n m : good st → n ≠ m → read_only_ (bufs st n) = false →
  fixed_allocation_data_ (bufs st n) = false → Forall (.≠ []) (fbbytes st m) →
  zlen (concat (fbbytes st m)) < 2 ^ 64 →
  ∃ st', append_view n m st = (Ok (), st') ∧ good st' ∧ touch [n; m] st st' ∧ keeps st st' m ∧
    fbbytes st' n = fbbytes st n ++ fbbytes st m ∧
    read_only_ (bufs st' n) = false ∧ fixed_allocation_data_ (bufs st' n) = false.
Proof.
  intros Hg Hnm Hro Hfix Hne Hlt. unfold append_view, append_view_part.
  rewrite (M_bind_eq _ _ _ _ _ (size_spec st m Hg Hlt)), fb_bind, Hro.
  destruct (fbbytes st m) as [|x bs] eqn:Eb.
  { exists st. rewrite app_nil_r. split_and!; done. }
  pose proof (zlen_nonneg (concat bs)). apply Forall_cons in Hne as Hne'. destruct Hne' as [Hx _].
  pose proof (zlen_pos x Hx).
  rewrite (proj2 (Z.eqb_neq _ _)) by (simpl; rewrite zlen_app; lia). rewrite Hfix.
  pose proof Eb as Eb'. unfold fbbytes in Eb'. destruct (buffers_ (bufs st m)) as [|s l] eqn:Es; [done|].
  simpl in Eb'. injection Eb' as Ex El.
  unfold mbind at 1, M_bind at 1. cbn [mret M_ret].
  rewrite (M_bind_eq _ _ _ _ _ (relative_offset_first st m s l 0 Hg Es ltac:(rewrite Ex; lia))), fb_bind, Es.
  cbn [fst snd drop].
  destruct (append_all st n m [] (s :: l) (x :: bs)) as (st1 & E1 & G1 & T1 & K1 & B1 & W1); try done.
  { rewrite <- Es. exact Eb. }
  rewrite (M_bind_eq _ _ _ _ _ E1).
  destruct (reset_offset_spec st1 n G1) as (st2 & E2 & G2 & T2 & B2 & F2).
  rewrite E2. exists st2. destruct (flags_eq _ _ W1) as (Hf1 & _ & Hr1).
  split_and!; try done; rewrite ?F2; simpl; try congruence.
  - eapply touch_trans; [done|]. eapply touch_mono; [apply subseteq_l|done].
  - eapply keeps_trans; [done|]. eapply touch_keeps; [done|by apply not_in_singleton].
Qed.

(** Appending a view of what is left to read. *)
Lemma append_rest_spec st n m pre x k : good st → n ≠ m → read_only_ (bufs st n) = false →
  fixed_allocation_data_ (bufs st n) = false → reader st m pre x → k = zlen x →
  ∃ st', append_view_part n m (zlen pre) k st = (Ok (), st') ∧ good st' ∧ touch [n; m] st st' ∧
    keeps st st' m ∧ fbbytes st' n = fbbytes st n ++ (if decide (x = []) then [] else [x]) ∧
    read_only_ (bufs st' n) = false.
Proof.
  intros Hg Hnm Hro Hfix Hr ->. unfold append_view_part. rewrite fb_bind, Hro.
  destruct (decide (x = [])) as [->|Hx].
  { exists st. rewrite app_nil_r. split_and!; done. }
  pose proof (zlen_pos x Hx). pose proof (zlen_nonneg pre). rewrite (proj2 (Z.eqb_neq _ _)) by lia. rewrite Hfix.
  destruct (reader_inv st m pre x Hg Hr Hx) as (s & Hs & Hok & Hby & _).
  unfold mbind at 1, M_bind at 1. cbn [mret M_ret].
  rewrite (M_bind_eq _ _ _ _ _ (relative_offset_first st m s [] (zlen pre) Hg Hs
             ltac:(rewrite Hby, zlen_app; lia))), fb_bind, Hs. cbn [fst snd drop].
  destruct (append_step st n m s [] pre x (zlen x)) as (st1 & E1 & G1 & T1 & K1 & B1 & W1); try done.
  { rewrite Hs. left. }
  simpl (append_loop n [] _ _) in E1. rewrite (M_bind_eq _ _ _ _ _ E1).
  destruct (reset_offset_spec st1 n G1) as (st2 & E2 & G2 & T2 & B2 & F2).
  rewrite E2. exists st2. destruct (flags_eq _ _ W1) as (_ & _ & Hr1).
  split_and!; try done; [| |congruence|rewrite F2; simpl; congruence].
  - eapply touch_trans; [done|]. eapply touch_mono; [apply subseteq_l|done].
  - eapply keeps_trans; [done|]. eapply touch_keeps; [done|by apply not_in_singleton].
Qed.

(** ** The output of a filter that runs in reverse

    Either an empty filter buffer, or a fixed allocation of [N] bytes. *)
Definition out_ready (st : Store) (n : fbname) (N : Z) : Prop :=
  read_only_ (bufs st n) = false ∧
  (fixed_allocation_data_ (bufs st n) = false ∧ buffers_ (bufs st n) = [] ∨
   fixed_allocation_data_ (bufs st n) = true ∧ fixed_allocation_op_allowed_ (bufs st n) = true ∧
   ∃ id b, owner st n id b [] ∧ owns_data_ b = false ∧ size_ b = N ∧ Buffer.offset_ b = 0).

Lemma out_ready_touch st st' F n N : out_ready st n N → touch F st st' → n ∉ F → out_ready st' n N.
Proof.
  intros (Hr & Hc) Ht Hn. pose proof (proj1 (Ht n Hn)) as Hb. unfold out_ready. rewrite Hb. split; [done|].
  destruct Hc as [?|(? & ? & id & b & Ho & ?)]; [by left|right]. split_and!; try done.
  exists id, b. split; [|done]. by eapply owner_touch.
Qed.

Section Alloc.
Context `{!Allocator}.
Hypothesis Hmem : ¬ out_of_memory.

(** [prepend_buffer] provides an output buffer, of the pool or the fixed one. *)
Lemma prepend_out_spec st n N nbytes : good st → out_ready st n N → 0 ≤ nbytes ≤ N → N < 2 ^ 63 →
  ∃ st' id b o cap, prepend_buffer n nbytes st = (Ok (), st') ∧ good st' ∧ touch [n] st st' ∧
    owner st' n id b [] ∧ stores b o [] cap ∧ cap = (if o then nbytes else N) ∧ Buffer.offset_ b = 0 ∧
    current_buffer_ (bufs st' n) = 0%nat ∧ current_relative_offset_ (bufs st' n) = 0 ∧
    tail (fbbytes st' n) = [].
Proof.
  intros Hg (Hro & Hc) Hn HN. destruct Hc as [[Hfix Hb]|(Hfix & Hal & id & b & Ho & Hob & Hsz & Hoff)].
  - destruct (prepend_spec Hmem st n nbytes) as (st' & id & b & E & G & T & O & S & Z1 & C1 & C2 & _ & B);
      try done; [lia|]. rewrite Hb in O.
    exists st', id, b, true, nbytes. split_and!; try done.
    rewrite B. unfold fbbytes. by rewrite Hb.
  - unfold prepend_buffer. rewrite fb_bind, Hro, Hfix. cbn [negb]. pose proof Ho as (H1 & H2 & H3 & H4).
    set (f1 := with_fixed (bufs st n) true false).
    destruct (owner_fb st n id b [] f1 Hg Ho eq_refl Hro) as (G1 & T1 & O1 & B1).
    set (st1 := with_fb st n f1) in *. set (f2 := with_fb_offset (with_cursor f1 0 0) 0).
    destruct (owner_fb st1 n id b [] f2 G1 O1) as (G2 & T2 & O2 & B2); [unfold st1; by rewrite bufs_with_fb|done|].
    exists (with_fb st1 n f2), id, b, false, N. split.
    { rewrite (M_bind_eq _ _ () st st1).
      - unfold reset_offset. rewrite fb_bind. unfold st1 at 1. by rewrite bufs_with_fb.
      - unfold front_size. rewrite H1.
        rewrite (M_bind_eq _ _ N st st); [|by rewrite (M_bind_eq _ _ _ _ _ (buffer_own st id b H3)), Hsz].
        rewrite Hal. cbn [negb]. by rewrite (proj2 (Z.ltb_ge _ _)) by lia. }
    split_and!; try done; rewrite ?bufs_with_fb; try done.
    + by eapply touch_trans.
    + unfold stores, capacity. rewrite Hob, zlen_nil. split_and!; try done; try lia. apply prefix_nil.
    + rewrite B2, B1. unfold fbbytes. by rewrite H1.
Qed.
End Alloc.

(** Filling a fixed allocation. *)
Lemma poke_all st n id b x : good st → owner st n id b [] → owns_data_ b = false →
  size_ b = zlen x → Forall byte_ok x →
  ∃ st', poke (Own id) 0 x st = (Ok (), st') ∧ good st' ∧ touch [n] st st' ∧
    fbbytes st' n = [x] ∧ bufs st' = bufs st.
Proof.
  intros Hg Ho Hob Hsz Hx. pose proof (zlen_nonneg x). pose proof (owner_ok _ _ _ _ _ Hg Ho) as Hok.
  assert (stores b false [] (zlen x)) as Hst.
  { pose proof (proj1 Hok). unfold stores, capacity. rewrite Hob, zlen_nil. split_and!; try done; [apply prefix_nil|lia..]. }
  destruct (write_segment st n id b [] false [] x (zlen x)) as (st1 & E1 & G1 & T1 & O1 & B1 & F1); try done.
  exists st1. split_and!; try done.
  - change (zlen (@nil Z)) with 0 in E1. rewrite Z.add_0_l, u64_id, Hsz, Z.ltb_irrefl in E1
      by (destruct Hok as (? & ? & _); lia).
    unfold mbind, M_bind in E1. by destruct (poke (Own id) 0 x st) as [[[]| |] ?].
  - destruct (stores_written b false [] x (zlen x) Hok Hst Hx) as (_ & ((tl & Htl) & _ & _ & Hsz') & _); [done|].
    destruct O1 as (H1 & _ & H3 & _). unfold fbbytes. rewrite H1. simpl. f_equal. unfold seg_bytes. simpl.
    rewrite H3. unfold contents. rewrite Hsz', Htl. simpl. unfold slice, zlen. by rewrite drop_0, Nat2Z.id, take_app_length.
Qed.

(** [memcpy] of a view into the fixed allocation. *)
Lemma append_fixed_step st n m id b s x : good st → n ≠ m → owner st n id b [] →
  fixed_allocation_data_ (bufs st n) = true → owns_data_ b = false → size_ b = zlen x →
  buffers_ (bufs st m) = [s] → seg_bytes (heap st) s = x → x ≠ [] →
  ∃ st', append_loop n [s] 0 (zlen x) st = (Ok (), st') ∧ good st' ∧ touch [n; m] st st' ∧
    keeps st st' m ∧ fbbytes st' n = [x] ∧ bufs st' = bufs st.
Proof.
  intros Hg Hnm Ho Hfix Hob Hsz Hs Hby Hx. pose proof (zlen_pos x Hx).
  destruct (reset_buffer_spec st m s Hg) as (st2 & E2 & G2 & T2 & F2 & B2 & S2); [rewrite Hs; left|].
  assert (owner st2 n id b []) as O2 by (eapply owner_touch; [done..|by apply not_in_singleton]).
  assert (seg_ok (heap st2) s) as Hok2 by (apply (seg_in st2 m); [done|]; rewrite F2, Hs; left).
  assert (seg_bytes (heap st2) s = x) as Hby2 by (rewrite <- Hby; apply (S2 m); rewrite Hs; left).
  destruct (get_view_spec (heap st2) s [] x [] Hok2) as (Hv1 & Hv2 & _);
    [by rewrite app_nil_r|intros c; apply (good_heap _ G2)|].
  destruct (buffer_spec st2 s G2 Hok2) as (bs & Hbs & _ & _ & Hbsz & Hbcap). rewrite Hby2 in Hbsz.
  change (zlen (@nil Z)) with 0 in *. set (v := get_view s 0 (zlen x)) in *.
  assert (buffer v st2 = (Ok (Buffer.make (Some x) (zlen x)), st2)) as Hbv.
  { destruct Hv1 as (c & Hc & Hcv). unfold seg_bytes in Hv2. unfold buffer. rewrite Hc in *.
    unfold v in *. destruct s; simpl in *; rewrite memread_ok by lia; by rewrite Hv2. }
  pose proof (seg_bytes_ok st2 s G2 Hok2) as Hbytes. rewrite Hby2 in Hbytes.
  destruct (poke_all st2 n id b x) as (st3 & E3 & G3 & T3 & B3 & F3); try done.
  exists st3. split_and!; try done.
  - simpl append_loop. rewrite (proj2 (Z.eqb_neq _ _)) by lia. rewrite (M_bind_eq _ _ _ _ _ E2).
    rewrite (M_bind_eq _ _ _ _ _ Hbs), fb_bind, F2, Hfix, Hbsz. rewrite Z.sub_0_r, u64_id, Z.min_id by lia.
    fold v. pose proof Ho as (H1 & _). rewrite H1. cbn [negb].
    rewrite (M_bind_eq _ _ () st2 st3); [done|]. by rewrite (M_bind_eq _ _ _ _ _ Hbv).
  - eapply touch_trans; [eapply touch_mono; [apply subseteq_r|done]|]. eapply touch_mono; [apply subseteq_l|done].
  - split; [by rewrite F3, F2|]. rewrite <- (B2 m). by apply (T3 m), not_in_singleton.
  - congruence.
Qed.

Lemma append_fixed_spec st n m id b x : good st → n ≠ m → owner st n id b [] →
  fixed_allocation_data_ (bufs st n) = true → fixed_allocation_op_allowed_ (bufs st n) = true →
  owns_data_ b = false → size_ b = zlen x → reader st m [] x → x ≠ [] →
  ∃ st', append_view_part n m 0 (zlen x) st = (Ok (), st') ∧ good st' ∧ touch [n; m] st st' ∧
    keeps st st' m ∧ fbbytes st' n = [x] ∧ read_only_ (bufs st' n) = false.
Proof.
  intros Hg Hnm Ho Hfix Hal Hob Hsz Hr Hx. pose proof (zlen_pos x Hx). pose proof Ho as (H1 & H2 & H3 & H4).
  destruct (reader_inv st m [] x Hg Hr Hx) as (s & Hs & Hok & Hby & _). simpl in Hby.
  unfold append_view_part. rewrite fb_bind, H4. rewrite (proj2 (Z.eqb_neq _ _)) by lia. rewrite Hfix.
  set (f1 := with_fixed (bufs st n) true false).
  destruct (owner_fb st n id b [] f1 Hg Ho eq_refl H4) as (G1 & T1 & O1 & B1).
  set (st1 := with_fb st n f1) in *.
  rewrite (M_bind_eq _ _ () st st1).
  2:{ unfold front_size. rewrite H1.
      rewrite (M_bind_eq _ _ (zlen x) st st); [|by rewrite (M_bind_eq _ _ _ _ _ (buffer_own st id b H3)), Hsz].
      rewrite Hal. cbn [negb]. by rewrite Z.ltb_irrefl. }
  assert (buffers_ (bufs st1 m) = [s]) as Hs1 by (unfold st1; by rewrite bufs_with_fb_ne).
  rewrite (M_bind_eq _ _ _ _ _ (relative_offset_first st1 m s [] 0 G1 Hs1 ltac:(simpl; rewrite Hby; lia))), fb_bind, Hs1.
  cbn [fst snd drop].
  destruct (append_fixed_step st1 n m id b s x) as (st2 & E2 & G2 & T2 & K2 & B2 & F2); try done.
  { unfold st1. by rewrite bufs_with_fb. }
  rewrite (M_bind_eq _ _ _ _ _ E2).
  destruct (reset_offset_spec st2 n G2) as (st3 & E3 & G3 & T3 & B3 & F3).
  rewrite E3. exists st3. split_and!; try done; [| |congruence|].
  3:{ rewrite F3, F2. unfold st1. by rewrite bufs_with_fb. }
  - eapply touch_trans; [eapply touch_mono; [apply subseteq_l|done]|].
    eapply touch_trans; [done|]. eapply touch_mono; [apply subseteq_l|done].
  - eapply keeps_trans; [eapply touch_keeps; [exact T1|by apply not_in_singleton]|].
    eapply keeps_trans; [done|]. eapply touch_keeps; [done|by apply not_in_singleton].
Qed.

Lemma reader_size st m x : good st → reader st m [] x → zlen x < 2 ^ 63 →
  size m st = (Ok (zlen x), st).
Proof.
  intros Hg Hr Hlt. assert (concat (fbbytes st m) = x) as E.
  { destruct Hr as (_ & Hr). unfold fbbytes in *. destruct (buffers_ (bufs st m)) as [|s [|]]; [|simpl|done].
    - by destruct Hr as (_ & -> & _).
    - destruct Hr as (Hr & _). simpl in Hr. injection Hr as ->. by rewrite app_nil_r. }
  rewrite size_spec, E; [done|done|]. rewrite E. lia.
Qed.

Lemma reader_bound st m pre x : good st → reader st m pre x → zlen pre + zlen x < 2 ^ 63.
Proof.
  intros Hg (_ & Hr). pose proof (good_segs _ Hg m) as Hs. unfold fbbytes in *.
  destruct (buffers_ (bufs st m)) as [|s [|]]; [|simpl|done].
  - destruct Hr as (-> & -> & _). done.
  - destruct Hr as (Hr & _). apply Forall_cons in Hs as [Hs _].
    destruct (buffer_spec st s Hg Hs) as (b & _ & _ & _ & Hsz & Hcap). simpl in Hr. injection Hr as Hr.
    rewrite Hr, zlen_app in Hsz. lia.
Qed.

(** A view of the whole input as the output. *)
Lemma append_out_spec st n m x : good st → n ≠ m → out_ready st n (zlen x) → reader st m [] x → x ≠ [] →
  ∃ st', append_view n m st = (Ok (), st') ∧ good st' ∧ touch [n; m] st st' ∧ keeps st st' m ∧
    fbbytes st' n = [x] ∧ read_only_ (bufs st' n) = false.
Proof.
  intros Hg Hnm (Hro & Hc) Hr Hx. pose proof (reader_bound _ _ _ _ Hg Hr). change (zlen (@nil Z)) with 0 in *.
  unfold append_view. rewrite (M_bind_eq _ _ _ _ _ (reader_size st m x Hg Hr ltac:(lia))).
  destruct Hc as [[Hfix Hb]|(Hfix & Hal & id & b & Ho & Hob & Hsz & _)].
  - destruct (append_rest_spec st n m [] x (zlen x)) as (st' & E & G & T & K & B & R); try done.
    exists st'. split_and!; try done. rewrite decide_False in B by done.
    rewrite B. unfold fbbytes. by rewrite Hb.
  - by apply (append_fixed_spec st n m id b x).
Qed.

(** The metadata a filter leaves for the next: what it did not read. *)
Lemma append_md_spec st pre x : good st → bufs st output_metadata = empty_fb →
  reader st input_metadata pre x →
  ∃ st', (md_offset ← offset input_metadata; sz ← size input_metadata;
          append_view_part output_metadata input_metadata md_offset (u64 (sz - md_offset))) st = (Ok (), st') ∧
    good st' ∧ touch [output_metadata; input_metadata] st st' ∧ keeps st st' input_metadata ∧
    fbbytes st' output_metadata = (if decide (x = []) then [] else [x]) ∧
    read_only_ (bufs st' output_metadata) = false.
Proof.
  intros Hg He Hr. pose proof (reader_bound _ _ _ _ Hg Hr). pose proof (zlen_nonneg pre). pose proof (zlen_nonneg x).
  assert (zlen (concat (fbbytes st input_metadata)) = zlen pre + zlen x) as Hsz.
  { destruct Hr as (_ & Hr). unfold fbbytes in *. destruct (buffers_ (bufs st input_metadata)) as [|s [|]]; [|simpl|done].
    - by destruct Hr as (-> & -> & _).
    - destruct Hr as (Hr & _). simpl in Hr. injection Hr as ->. by rewrite app_nil_r, zlen_app. }
  assert (offset input_metadata st = (Ok (zlen pre), st)) as Ho
    by (unfold offset; rewrite fb_bind; by rewrite (proj1 Hr)).
  rewrite (M_bind_eq _ _ _ _ _ Ho), (M_bind_eq _ _ _ _ _ (size_spec st input_metadata Hg ltac:(lia))), Hsz.
  rewrite u64_id by lia.
  destruct (append_rest_spec st output_metadata input_metadata pre x (zlen pre + zlen x - zlen pre))
    as (st' & E & G & T & K & B & R); try done; try (by rewrite He); [lia|].
  exists st'. split_and!; try done. rewrite B. unfold fbbytes. by rewrite He.
Qed.

Lemma buffer_ptr_spec st n id b l : good st → owner st n id b l →
  ∃ st', buffer_ptr n 0 st = (Ok (Some id), st') ∧ good st' ∧ touch [n] st st' ∧
    owner st' n id (with_offset b 0) l ∧ tail (fbbytes st' n) = tail (fbbytes st n) ∧ bufs st' = bufs st.
Proof.
  intros Hg Ho. pose proof Ho as (H1 & _ & _ & H4).
  destruct (on_heap_owner st n id b l Buffer.reset_offset (Ok ()) (with_offset b 0)) as (st' & E & ?); try done.
  { by apply (owner_ok _ _ _ _ _ Hg Ho). }
  exists st'. split; [|done]. unfold buffer_ptr. rewrite fb_bind, H4. cbn [negb massert].
  rewrite lift_bind, H1. simpl. by rewrite (M_bind_eq _ _ _ _ _ E).
Qed.

(** ** Clearing and swapping *)

Lemma make_available_spec st id : good st → id ∈ in_use_ st → refs st id = 0%nat →
  ∃ st', make_available id st = (Ok (), st') ∧ good st' ∧ touch [] st st' ∧ bufs st' = bufs st ∧
    ∀ m, fbbytes st' m = fbbytes st m.
Proof.
  intros [H1 H2 H3 H4 H5] Hi Hr. eexists. split; [done|]. split_and!; try done.
  apply NoDup_app in H3 as (N1 & N2 & N3).
  split; simpl; try done.
  - apply NoDup_cons. split.
    + rewrite not_elem_of_app, list_elem_of_difference. split; [intros Ha; by apply (N2 id)|].
      intros [_ Hn]. apply Hn. left.
    + apply NoDup_app. split_and!; [done| |by apply NoDup_list_difference].
      intros i Hi1 [Hi2 _]%list_elem_of_difference. by apply (N2 i).
  - intros i [->|Hi']%elem_of_cons; [done|by apply H4].
  - intros i [->|Hi']%elem_of_cons; [apply H5, elem_of_app; by right|].
    apply H5, elem_of_app. apply elem_of_app in Hi' as [?|[? _]%list_elem_of_difference]; [by left|by right].
Qed.

Lemma reclaim_spec st id : good st →
  ∃ st', reclaim id st = (Ok (), st') ∧ good st' ∧ touch [] st st' ∧ bufs st' = bufs st.
Proof.
  intros Hg. unfold reclaim. destruct (bool_decide_reflect (id ∈ in_use_ st)) as [Hi|]; simpl negb.
  2:{ exists st. split_and!; done. }
  cbv iota. destruct (refs st id) as [|r] eqn:Er; [|by exists st].
  destruct (good_pool _ Hg id) as (b & Hb & _); [apply elem_of_app; by right|].
  assert (buf_ok (with_size (with_offset b 0) 0)) as Hok.
  { destruct (good_heap _ Hg _ _ Hb) as (? & ? & ? & ?). unfold buf_ok. simpl. split_and!; try done; lia. }
  destruct (upd_free st id b (with_size (with_offset b 0) 0) Hg Hb Er Hok eq_refl) as (G1 & T1 & B1).
  destruct (make_available_spec (with_heap st (<[id:=with_size (with_offset b 0) 0]> (heap st))) id G1 Hi Er)
    as (st' & E & G & T & F & B).
  exists st'. split_and!; try done; [|by eapply touch_trans].
  change ((1 + 0 =? 1)%nat) with true. cbv iota.
  rewrite (M_bind_eq _ _ _ _ _ (on_heap_eq id Buffer.reset_size st b (Ok ()) _ Hb eq_refl)). exact E.
Qed.

Lemma reclaim_all_spec l st : good st →
  ∃ st', reclaim_all l st = (Ok (), st') ∧ good st' ∧ touch [] st st' ∧ bufs st' = bufs st.
Proof.
  revert st. induction l as [|id l IH]; intros st Hg; simpl.
  - exists st. split_and!; done.
  - destruct (reclaim_spec st id Hg) as (st1 & E1 & G1 & T1 & F1). rewrite (M_bind_eq _ _ _ _ _ E1).
    destruct (IH st1 G1) as (st2 & E2 & G2 & T2 & F2). exists st2.
    split_and!; try done; [by eapply touch_trans|congruence].
Qed.

(** Dropping segments. *)
Lemma drop_segs st n f : good st → buffers_ f = [] →
  good (with_fb st n f) ∧ touch [n] st (with_fb st n f).
Proof.
  intros Hg Hf. pose proof (λ i, refs_with_fb st n f i) as Hr. rewrite Hf in Hr.
  change (λ i, cnt [] i) with (λ _ : nat, 0%nat) in Hr. split.
  - destruct Hg as [H1 H2 H3 H4 H5]. split; try done.
    + intros m. destruct (decide (n = m)) as [<-|Hm]; [rewrite bufs_with_fb, Hf; constructor|].
      rewrite bufs_with_fb_ne by done. apply H2.
    + intros i Hi. specialize (H4 i Hi). specialize (Hr i). change (cnt [] i) with 0%nat in Hr. lia.
  - intros m Hm. assert (n ≠ m) by (intros ->; apply Hm; left).
    unfold fbbytes. rewrite bufs_with_fb_ne by done. split_and!; [done..|].
    intros i c Hi Hri Hc. split; [done|]. specialize (Hr i). change (cnt [] i) with 0%nat in Hr.
    assert (cnt (buffers_ (bufs st n)) i = 0%nat); [|lia].
    destruct (cnt (buffers_ (bufs st n)) i) eqn:Ec; [done|].
    assert (i ∈ ids st n) as Hin by (apply cnt_elem; lia). by apply (refs_unique st m n i Hri) in Hin.
Qed.

Lemma clear_spec st n : good st → read_only_ (bufs st n) = false →
  ∃ st', clear n st = (Ok (), st') ∧ good st' ∧ touch [n] st st' ∧ bufs st' n = empty_fb.
Proof.
  intros Hg Hro. unfold clear. rewrite fb_bind, Hro, set_fb_bind.
  destruct (drop_segs st n empty_fb Hg eq_refl) as (G1 & T1).
  destruct (reclaim_all_spec (underlying_buffer <$> buffers_ (bufs st n)) _ G1) as (st2 & E2 & G2 & T2 & F2).
  change (mkFB [] 0 0 false false 0 false) with empty_fb.
  exists st2. split_and!; try done.
  - eapply touch_trans; [done|]. eapply touch_mono; [apply list_subseteq_nil|done].
  - rewrite F2. apply bufs_with_fb.
Qed.

Lemma swap_spec st n m : good st → n ≠ m → read_only_ (bufs st n) = false →
  read_only_ (bufs st m) = false →
  ∃ st', swap n m st = (Ok (), st') ∧ good st' ∧ touch [n; m] st st' ∧
    bufs st' n = bufs st m ∧ bufs st' m = bufs st n ∧
    fbbytes st' n = fbbytes st m ∧ fbbytes st' m = fbbytes st n.
Proof.
  intros Hg Hnm Hn Hm. unfold swap. rewrite !fb_bind, Hn, Hm. cbn [orb].
  set (st' := with_fb (with_fb st n (bufs st m)) m (bufs st n)).
  assert (bufs st' n = bufs st m) as En by (unfold st'; by rewrite bufs_with_fb_ne, bufs_with_fb).
  assert (bufs st' m = bufs st n) as Em by (unfold st'; by rewrite bufs_with_fb).
  assert (∀ k, k ≠ n → k ≠ m → bufs st' k = bufs st k) as Ek.
  { intros k ? ?. unfold st'. by rewrite !bufs_with_fb_ne. }
  assert (∀ i, refs st' i = refs st i) as Hr.
  { intros i. pose proof (refs_with_fb st n (bufs st m) i).
    pose proof (refs_with_fb (with_fb st n (bufs st m)) m (bufs st n) i) as H2.
    fold st' in H2. rewrite bufs_with_fb_ne in H2 by done. lia. }
  exists st'. split; [done|]. split_and!; try done; try (unfold fbbytes; by rewrite ?En, ?Em).
  - destruct Hg as [H1 H2 H3 H4 H5]. split; try done; [|intros i Hi; rewrite Hr; by apply H4].
    intros k. destruct (decide (k = n)) as [->|]; [rewrite En; apply H2|].
    destruct (decide (k = m)) as [->|]; [rewrite Em; apply H2|]. rewrite Ek by done. apply H2.
  - intros k Hk. assert (k ≠ n) by (intros ->; apply Hk; left).
    assert (k ≠ m) by (intros ->; apply Hk; right; left).
    unfold fbbytes. rewrite Ek by done. split_and!; [done..|]. intros i c _ Hi Hc. by rewrite Hr.
Qed.

(** [init] on memory of the caller. *)
Lemma init_spec st n d : good st → buffers_ (bufs st n) = [] → read_only_ (bufs st n) = false →
  Forall byte_ok d → zlen d < 2 ^ 63 →
  ∃ st' id b, init n (Some d) (zlen d) st = (Ok (), st') ∧ good st' ∧ touch [n] st st' ∧
    owner st' n id b [] ∧ b = Buffer.make (Some d) (zlen d) ∧ fbbytes st' n = [d] ∧
    bufs st' n = mkFB [Own id] 0 0 (fixed_allocation_data_ (bufs st n))
                      (fixed_allocation_op_allowed_ (bufs st n)) 0 false.
Proof.
  intros Hg Hb Hro Hd Hlt. set (b := Buffer.make (Some d) (zlen d)). pose proof (zlen_nonneg d).
  assert (buf_ok b) as Hok by (unfold buf_ok; simpl; split_and!; done || lia).
  destruct (new_buffer_spec st b Hg Hok) as (G1 & T1 & B1 & R1 & L1).
  set (st1 := with_heap st (heap st ++ [b])) in *. set (id := length (heap st)).
  set (f := mkFB [Own id] 0 0 (fixed_allocation_data_ (bufs st n))
                 (fixed_allocation_op_allowed_ (bufs st n)) 0 false).
  destruct (push_own st1 n id b f G1 L1 R1) as (G2 & T2 & O2 & B2); [|simpl; by rewrite Hb|done|].
  { intros Hi. destruct (good_pool _ Hg id) as (c & Hc & _); [apply elem_of_app; by left|].
    apply lookup_lt_Some in Hc. unfold id in Hc. lia. }
  exists (with_fb st1 n f), id, b. split_and!; try done.
  - unfold init. rewrite fb_bind, Hb, Hro. simpl. done.
  - eapply touch_trans; [eapply touch_mono; [apply list_subseteq_nil|done]|done].
  - simpl in O2. by rewrite Hb in O2.
  - rewrite B2, B1. unfold fbbytes. rewrite Hb. simpl. f_equal. apply slice_all.
  - by rewrite bufs_with_fb.
Qed.
