(* ===== verification/FilterRun.v ===== *)
(** * Running filters (filter/*_filter.cc, crypto/crypto_openssl.cc)

    [run_forward] and [run_reverse] of the filters, on the four filter buffers
    of a pipeline stage.  A filter sees the type and the cell size of the tile
    it runs on. *)

From S2P Require Import Prelude.
From S2P Require Import Enums.
From S2P Require Import ConstBuffer.
From S2P Require Import Buffer.
From S2P Require Import Shuffle.
From S2P Require Import FilterBuffer.
Local Open Scope Z_scope.

(** What filters ask of [pipeline_->current_tile()]. *)
Record tile_info : Type := mkTileInfo { tile_type : Datatype; cell_size : Z }.

(** [for (auto& x : l) RETURN_NOT_OK(f(x))]. *)
Fixpoint for_each {S A} (f : A → M S unit) (l : list A) : M S unit :=
  match l with [] => mret () | x :: l => f x;; for_each f l end.

(** [for (uint32_t i = 0; i < n; i++) RETURN_NOT_OK(m)]. *)
Fixpoint repeat_m {S} (n : nat) (m : M S unit) : M S unit :=
  match n with O => mret () | S n => m;; repeat_m n m end.

(** [Buffer* p = fb->buffer_ptr(0); assert(p != nullptr)]. *)
Definition first_ptr (n : fbname) : M Store nat :=
  p ← buffer_ptr n 0;
  match p with Some id => mret id | None => lift UB end.

(** A call whose status is discarded. *)
Definition ignore {S A} (m : M S A) : M S unit := fun s =>
  match m s with (UB, s') => (UB, s') | (_, s') => (Ok (), s') end.

(** Both outputs are views of the inputs. *)
Definition pass_through : M Store unit :=
  append_view output_data input_data;;
  append_view output_metadata input_metadata.

(** The output metadata is what this filter did not read. *)
Definition forward_metadata : M Store unit :=
  md_offset ← offset input_metadata;
  sz ← size input_metadata;
  append_view_part output_metadata input_metadata md_offset (u64 (sz - md_offset)).

(** The bytes a [ConstBuffer] designates. *)
Definition const_bytes (c : ConstBuffer.t) : res (list Z) :=
  memread (block (ConstBuffer.data_ c)) 0 (ConstBuffer.size_ c).

(** ** ByteshuffleFilter *)

(** [f(part->data(), output->cur_data())]: [f] overwrites [part->size()] bytes. *)
Definition transform (f : list Z → list Z → list Z) (part : ConstBuffer.t) : M Buffer.t unit := fun b =>
  match const_bytes part, memread (block (data_ b)) (Buffer.offset_ b) (ConstBuffer.size_ part) with
  | Ok src, Ok dest =>
      match memwrite (block (data_ b)) (Buffer.offset_ b) (f src dest) with
      | Ok d => (Ok (), mk (alloced_size_ b) (Some d) (Buffer.offset_ b) (owns_data_ b) (size_ b))
      | _ => (UB, b)
      end
  | _, _ => (UB, b)
  end.

(** [if (output->owns_data()) output->advance_size(n); output->advance_offset(n)]. *)
Definition advance_output (n : Z) : M Buffer.t unit :=
  b ← get;
  (if owns_data_ b then Buffer.advance_size n else mret ());;
  Buffer.advance_offset n.

Definition type_size (t : tile_info) : nat := Z.to_nat (datatype_size (tile_type t)).

Definition shuffle_part (t : tile_info) (part : ConstBuffer.t) : M Buffer.t unit :=
  transform (shuffle_generic (type_size t) (Z.to_nat (ConstBuffer.size_ part))) part.

Definition unshuffle_part (t : tile_info) (part : ConstBuffer.t) : M Buffer.t unit :=
  transform (unshuffle_generic (type_size t) (Z.to_nat (ConstBuffer.size_ part))) part.

Definition byteshuffle_forward `{Allocator} (t : tile_info) : M Store unit :=
  sz ← size input_data;
  prepend_buffer output_data sz;;
  output_buf ← first_ptr output_data;
  parts ← buffers input_data;
  let num_parts := conv U32 (zlen parts) in
  let metadata_size := conv U32 (4 + num_parts * 4) in
  append_view output_metadata input_metadata;;
  prepend_buffer output_metadata metadata_size;;
  write_value output_metadata U32 num_parts;;
  for_each (fun part =>
    let part_size := conv U32 (ConstBuffer.size_ part) in
    write_value output_metadata U32 part_size;;
    on_ptr output_buf (shuffle_part t part);;
    on_ptr output_buf (advance_output (ConstBuffer.size_ part))) parts.

Definition byteshuffle_reverse_part (t : tile_info) (output_buf : nat) : M Store unit :=
  part_size ← read_value input_metadata U32;
  part ← get_const_buffer input_data part_size;
  on_ptr output_buf (unshuffle_part t part);;
  on_ptr output_buf (advance_output part_size);;
  advance_offset input_data part_size.

Definition byteshuffle_reverse `{Allocator} (t : tile_info) : M Store unit :=
  num_parts ← read_value input_metadata U32;
  sz ← size input_data;
  prepend_buffer output_data sz;;
  output_buf ← first_ptr output_data;
  repeat_m (Z.to_nat num_parts) (byteshuffle_reverse_part t output_buf);;
  forward_metadata.

(** ** PositiveDeltaFilter *)

(** The [switch] on the tile's type. *)
Definition int_type (d : Datatype) : option ctype :=
  match d with
  | INT8 => Some I8 | UINT8 => Some U8 | INT16 => Some I16 | UINT16 => Some U16
  | INT32 => Some I32 | UINT32 => Some U32 | INT64 => Some I64 | UINT64 => Some U64
  | DATETIME_YEAR | DATETIME_MONTH | DATETIME_WEEK | DATETIME_DAY | DATETIME_HR
  | DATETIME_MIN | DATETIME_SEC | DATETIME_MS | DATETIME_US | DATETIME_NS
  | DATETIME_PS | DATETIME_FS | DATETIME_AS => Some I64
  | _ => None
  end.

Definition unsupported {A} : M Store A := fail SC_Filter "Cannot filter; Unsupported input type".

(** [input->value<T>()] at the offset of a [ConstBuffer]. *)
Definition const_value (T : ctype) (c : ConstBuffer.t) : res Z :=
  x ← ConstBuffer.cur_data c (csize T); Ok (of_bytes T x).

Definition const_advance (c : ConstBuffer.t) (n : Z) : ConstBuffer.t :=
  snd (ConstBuffer.advance_offset n c).

(** The size in bytes of the windows of a part, and their number. *)
Definition window_size (T : ctype) (max_window_size part_size : Z) : Z :=
  conv U32 (Z.min part_size max_window_size / csize T * csize T).

Definition num_windows (window_size part_size : Z) : res Z :=
  q ← cdiv U32 part_size window_size;
  r ← crem U32 part_size window_size;
  Ok (conv U32 (q + if r =? 0 then 0 else 1)).

(** The sizes computed before the parts are encoded; [w] is the size of a
    window's header. *)
Fixpoint window_overhead (T : ctype) (max_window_size w : Z) (parts : list ConstBuffer.t)
    (output_size_ub metadata_size total_num_windows : Z) : res (Z * Z * Z) :=
  match parts with
  | [] => Ok (output_size_ub, metadata_size, total_num_windows)
  | part :: parts =>
      let part_size := conv U32 (ConstBuffer.size_ part) in
      n ← num_windows (window_size T max_window_size part_size) part_size;
      let overhead := conv U32 (n * w) in
      window_overhead T max_window_size w parts (u64 (output_size_ub + part_size))
        (conv U32 (metadata_size + overhead)) (conv U32 (total_num_windows + n))
  end.

(** [T x = a - b] and [T x = a + b]: the operation on promoted operands, then
    the conversion to [T]. *)
Definition sub_in (T : ctype) (a b : Z) : res Z := x ← csub (promote T) a b; Ok (conv T x).
Definition add_in (T : ctype) (a b : Z) : res Z := x ← cadd (promote T) a b; Ok (conv T x).

Fixpoint encode_elements (T : ctype) (n : nat) (c : ConstBuffer.t) (prev_value : Z) :
    M Store ConstBuffer.t :=
  match n with
  | O => mret c
  | S n =>
      curr_value ← lift (const_value T c);
      if curr_value <? prev_value then
        fail SC_Filter "Positive delta filter error: delta is not positive."
      else
        delta ← lift (sub_in T curr_value prev_value);
        write_value output_data T delta;;
        encode_elements T n (const_advance c (csize T)) curr_value
  end.

(** The bytes of a window, unmodified; then [input->advance_offset(n)]. *)
Definition copy_window (c : ConstBuffer.t) (n : Z) : M Store ConstBuffer.t :=
  x ← lift (ConstBuffer.cur_data c n);
  write output_data x;;
  mret (const_advance c n).

(** The loop over the windows of a part; [step] handles one window. *)
Fixpoint for_windows (step : Z → ConstBuffer.t → M Store ConstBuffer.t) (window_size input_bytes : Z)
    (n : nat) (i : Z) (c : ConstBuffer.t) : M Store unit :=
  match n with
  | O => mret ()
  | S n =>
      let window_nbytes := Z.min window_size (conv U32 (input_bytes - conv U32 (i * window_size))) in
      c ← step window_nbytes c;
      for_windows step window_size input_bytes n (i + 1) c
  end.

(** [encode_part] and [compress_part], around the body of their loop. *)
Definition windowed_part (step : Z → ConstBuffer.t → M Store ConstBuffer.t) (T : ctype)
    (max_window_size : Z) (input : ConstBuffer.t) : M Store unit :=
  let input_bytes := conv U32 (ConstBuffer.size_ input) in
  let w := window_size T max_window_size input_bytes in
  n ← lift (num_windows w input_bytes);
  for_windows step w input_bytes (Z.to_nat n) 0 input.

Definition encode_window (T : ctype) (window_nbytes : Z) (c : ConstBuffer.t) : M Store ConstBuffer.t :=
  window_value_offset ← lift (const_value T c);
  write_value output_metadata T window_value_offset;;
  write_value output_metadata U32 window_nbytes;;
  if negb (window_nbytes mod csize T =? 0) then copy_window c window_nbytes
  else
    prev_value ← lift (const_value T c);
    encode_elements T (Z.to_nat (window_nbytes / csize T)) c prev_value.

Definition encode_part (T : ctype) (max_window_size : Z) (input : ConstBuffer.t) : M Store unit :=
  windowed_part (encode_window T) T max_window_size input.

Definition positive_delta_forward_t `{Allocator} (T : ctype) (max_window_size : Z) : M Store unit :=
  parts ← buffers input_data;
  ub ← lift (window_overhead T max_window_size (4 + csize T) parts 0 8 0);
  let '(output_size_ub, metadata_size, total_num_windows) := ub in
  prepend_buffer output_data output_size_ub;;
  id ← first_ptr output_data;
  on_ptr id Buffer.reset_offset;;
  append_view output_metadata input_metadata;;
  prepend_buffer output_metadata metadata_size;;
  write_value output_metadata U32 total_num_windows;;
  for_each (encode_part T max_window_size) parts.

Definition positive_delta_forward `{Allocator} (t : tile_info) (max_window_size : Z) : M Store unit :=
  if negb (datatype_is_integer (tile_type t)) then pass_through
  else match int_type (tile_type t) with
       | Some T => positive_delta_forward_t T max_window_size
       | None => unsupported
       end.

Fixpoint decode_elements (T : ctype) (tile_type_size : Z) (n : nat) (prev_value : Z) : M Store unit :=
  match n with
  | O => mret ()
  | S n =>
      delta ← read_value input_data T;
      decoded_value ← lift (add_in T prev_value delta);
      write output_data (slice 0 tile_type_size (to_bytes T decoded_value));;
      decode_elements T tile_type_size n decoded_value
  end.

(** The bytes of an uncoded window. *)
Definition copy_input (n : Z) : M Store unit :=
  write_from output_data input_data n;;
  advance_offset input_data n.

Definition decode_window (T : ctype) (tile_type_size : Z) : M Store unit :=
  x ← read input_metadata tile_type_size;
  let window_value_offset := of_bytes T x in
  window_nbytes ← read_value input_metadata U32;
  if negb (window_nbytes mod csize T =? 0) then copy_input window_nbytes
  else decode_elements T tile_type_size (Z.to_nat (window_nbytes / csize T)) window_value_offset.

Definition positive_delta_reverse_t `{Allocator} (t : tile_info) (T : ctype) : M Store unit :=
  let tile_type_size := datatype_size (tile_type t) in
  num_windows ← read_value input_metadata U32;
  sz ← size input_data;
  prepend_buffer output_data sz;;
  reset_offset output_data;;
  repeat_m (Z.to_nat num_windows) (decode_window T tile_type_size);;
  forward_metadata.

Definition positive_delta_reverse `{Allocator} (t : tile_info) : M Store unit :=
  if negb (datatype_is_integer (tile_type t)) then pass_through
  else match int_type (tile_type t) with
       | Some T => positive_delta_reverse_t t T
       | None => unsupported
       end.

(** ** BitWidthReductionFilter *)

(** [bits_required] of a signed value (the argument has type [int] or wider). *)
Definition bits_required_signed (value : Z) : Z :=
  if (tmin I8 <=? value) && (value <=? tmax I8) then 8
  else if (tmin I16 <=? value) && (value <=? tmax I16) then 16
  else if (tmin I32 <=? value) && (value <=? tmax I32) then 32
  else 64.

(** The loop of [bits_required] of an unsigned value; 64 turns are enough. *)
Fixpoint bits_required_unsigned (fuel : nat) (value bits : Z) : Z :=
  match fuel with
  | O => bits
  | S fuel =>
      if 0 <? value then bits_required_unsigned fuel (Z.shiftr value 1) (bits + 1) else bits
  end.

(** [bits_required(range + 1)]: [range + 1] has the promoted type of [T]. *)
Definition bits_required (T : ctype) (value : Z) : Z :=
  if is_signed (promote T) then bits_required_signed value
  else bits_required_unsigned 64 value 0.

(** The smallest and the largest value of the window. *)
Fixpoint window_range (T : ctype) (n : nat) (c : ConstBuffer.t) (window_min window_max : Z) : res (Z * Z) :=
  match n with
  | O => Ok (window_min, window_max)
  | S n =>
      input_value ← const_value T c;
      window_range T n (const_advance c (csize T)) (Z.min window_min input_value)
        (Z.max window_max input_value)
  end.

(** [compute_bits_required]: the number of bits, and the minimum unless it is
    left unset. *)
Definition compute_bits_required (T : ctype) (c : ConstBuffer.t) (num_elements : nat) :
    res (Z * option Z) :=
  r ← window_range T num_elements c (tmax T) (tmin T);
  let '(window_min, window_max) := r in
  range ← sub_in T window_max window_min;
  if range =? tmax T then Ok (8 * csize T, None)
  else
    range1 ← cadd (promote T) range 1;
    let bits := bits_required T range1 in
    let bits := if bits <=? 8 then 8 else if bits <=? 16 then 16 else if bits <=? 32 then 32 else 64 in
    Ok (bits, Some window_min).

(** The integer type of [num_bits] bits with the signedness of [T]. *)
Definition narrow_type (T : ctype) (num_bits : Z) : option ctype :=
  if num_bits =? 8 then Some (if is_signed T then I8 else U8)
  else if num_bits =? 16 then Some (if is_signed T then I16 else U16)
  else if num_bits =? 32 then Some (if is_signed T then I32 else U32)
  else if num_bits =? 64 then Some (if is_signed T then I64 else U64)
  else None.

Definition write_compressed_value (T : ctype) (value num_bits : Z) : M Store unit :=
  match narrow_type T num_bits with
  | Some N => write_value output_data N (conv N value)
  | None => lift UB
  end.

Definition read_compressed_value (T : ctype) (compressed_bits : Z) : M Store Z :=
  match narrow_type T compressed_bits with
  | Some N => v ← read_value input_data N; mret (conv T v)
  | None => lift UB
  end.

Fixpoint compress_elements (T : ctype) (compressed_bits window_value_offset : Z) (n : nat)
    (c : ConstBuffer.t) : M Store ConstBuffer.t :=
  match n with
  | O => mret c
  | S n =>
      v ← lift (const_value T c);
      relative_value ← lift (sub_in T v window_value_offset);
      write_compressed_value T relative_value compressed_bits;;
      compress_elements T compressed_bits window_value_offset n (const_advance c (csize T))
  end.

(** [uninit] is the value of [window_value_offset] where the code leaves it
    uninitialised. *)
Definition compress_window (uninit : Z) (T : ctype) (window_nbytes : Z) (c : ConstBuffer.t) :
    M Store ConstBuffer.t :=
  let window_nelts := Z.to_nat (window_nbytes / csize T) in
  r ← lift (compute_bits_required T c window_nelts);
  let '(compressed_bits, min_value) := r in
  let window_value_offset := default uninit min_value in
  write_value output_metadata T window_value_offset;;
  write_value output_metadata U8 compressed_bits;;
  write_value output_metadata U32 window_nbytes;;
  if (8 * csize T <=? compressed_bits) || negb (window_nbytes mod csize T =? 0) then
    copy_window c window_nbytes
  else compress_elements T compressed_bits window_value_offset window_nelts c.

Definition bit_width_compress_part (uninit : Z) (T : ctype) (max_window_size : Z)
    (input : ConstBuffer.t) : M Store unit :=
  windowed_part (compress_window uninit T) T max_window_size input.

Definition bit_width_forward_t `{Allocator} (uninit : Z) (T : ctype) (max_window_size : Z) : M Store unit :=
  sz ← size input_data;
  let input_size := conv U32 sz in
  parts ← buffers input_data;
  ub ← lift (window_overhead T max_window_size (4 + csize T + 1) parts 0 8 0);
  let '(output_size_ub, metadata_size, total_num_windows) := ub in
  prepend_buffer output_data output_size_ub;;
  id ← first_ptr output_data;
  on_ptr id Buffer.reset_offset;;
  append_view output_metadata input_metadata;;
  prepend_buffer output_metadata metadata_size;;
  write_value output_metadata U32 input_size;;
  write_value output_metadata U32 total_num_windows;;
  for_each (bit_width_compress_part uninit T max_window_size) parts.

(** The types the filter leaves alone. *)
Definition bit_width_skips (t : tile_info) : bool :=
  negb (datatype_is_integer (tile_type t)) || (datatype_size (tile_type t) =? 1).

Definition bit_width_forward `{Allocator} (uninit : Z) (t : tile_info) (max_window_size : Z) : M Store unit :=
  if bit_width_skips t then pass_through
  else match int_type (tile_type t) with
       | Some T => bit_width_forward_t uninit T max_window_size
       | None => unsupported
       end.

Fixpoint decompress_elements (T : ctype) (tile_type_size compressed_bits window_value_offset : Z) (n : nat) :
    M Store unit :=
  match n with
  | O => mret ()
  | S n =>
      v ← read_compressed_value T compressed_bits;
      input_value ← lift (add_in T v window_value_offset);
      write output_data (slice 0 tile_type_size (to_bytes T input_value));;
      decompress_elements T tile_type_size compressed_bits window_value_offset n
  end.

Definition decompress_window (T : ctype) (tile_type_size : Z) : M Store unit :=
  x ← read input_metadata tile_type_size;
  let window_value_offset := of_bytes T x in
  compressed_bits ← read_value input_metadata U8;
  window_nbytes ← read_value input_metadata U32;
  if (8 * csize T <=? compressed_bits) || negb (window_nbytes mod csize T =? 0) then
    copy_input window_nbytes
  else
    decompress_elements T tile_type_size compressed_bits window_value_offset
      (Z.to_nat (window_nbytes / csize T)).

Definition bit_width_reverse_t `{Allocator} (t : tile_info) (T : ctype) : M Store unit :=
  let tile_type_size := datatype_size (tile_type t) in
  orig_length ← read_value input_metadata U32;
  num_windows ← read_value input_metadata U32;
  prepend_buffer output_data orig_length;;
  reset_offset output_data;;
  repeat_m (Z.to_nat num_windows) (decompress_window T tile_type_size);;
  forward_metadata.

Definition bit_width_reverse `{Allocator} (t : tile_info) : M Store unit :=
  if bit_width_skips t then pass_through
  else match int_type (tile_type t) with
       | Some T => bit_width_reverse_t t T
       | None => unsupported
       end.

(** ** ChecksumMD5Filter and ChecksumSHA256Filter

    The two differ in the digest: its size and the OpenSSL function. *)
Record Digest : Type := mkDigest { digest_bytes : Z; digest : list Z → list Z }.

(** [OpenSSL::md5] and [OpenSSL::sha256]: the digest of the first [nbytes]
    bytes of [input], written at the start of [output]. *)
Definition openssl_digest `{Allocator} (D : Digest) (input : list Z) (nbytes : Z) : M Buffer.t unit :=
  b ← get;
  (if owns_data_ b then
     free ← lift (Buffer.free_space b);
     if free <? digest_bytes D then Buffer.realloc (u64 (alloced_size_ b + digest_bytes D)) else mret ()
   else if size_ b <? digest_bytes D then
     fail SC_ChecksumError "OpenSSL error; cannot checksum: output buffer too small."
   else mret ());;
  x ← lift (memread input 0 nbytes);
  b ← get;
  d ← lift (memwrite (block (data_ b)) 0 (digest D x));
  put (mk (alloced_size_ b) (Some d) (Buffer.offset_ b) (owns_data_ b) (size_ b)).

(** A fresh buffer of the size of a digest, holding the digest. *)
Definition compute_hash `{Allocator} (D : Digest) (input : list Z) (nbytes : Z) : M Store Buffer.t :=
  let '(_, h) := Buffer.realloc (digest_bytes D) Buffer.empty in
  match openssl_digest D input nbytes h with
  | (Ok _, h) => mret h
  | (Err c e, _) => fail c e
  | (UB, _) => lift UB
  end.

Definition checksum_part `{Allocator} (D : Digest) (part : ConstBuffer.t) : M Store unit :=
  computed_hash ← compute_hash D (block (ConstBuffer.data_ part)) (ConstBuffer.size_ part);
  write_value output_metadata U64 (ConstBuffer.size_ part);;
  x ← lift (memread (block (data_ computed_hash)) 0 (alloced_size_ computed_hash));
  write output_metadata x.

Definition checksum_forward `{Allocator} (D : Digest) : M Store unit :=
  append_view output_data input_data;;
  ignore (append_view output_metadata input_metadata);;
  data_parts ← buffers input_data;
  metadata_parts ← buffers input_metadata;
  let num_data_parts := conv U32 (zlen data_parts) in
  let num_metadata_parts := conv U32 (zlen metadata_parts) in
  let total_num_parts := conv U32 (num_data_parts + num_metadata_parts) in
  let part_md_size := digest_bytes D + 8 in
  let metadata_size := conv U32 (conv U32 (total_num_parts * part_md_size) + 8) in
  prepend_buffer output_metadata metadata_size;;
  write_value output_metadata U32 num_metadata_parts;;
  write_value output_metadata U32 num_data_parts;;
  for_each (checksum_part D) metadata_parts;;
  for_each (checksum_part D) data_parts.

(** [get_const_buffer] when it can, a copy of the bytes when it cannot. *)
Definition checked_bytes `{Allocator} (n : fbname) (nbytes : Z) : M Store (list Z) := fun st =>
  match get_const_buffer n nbytes st with
  | (Ok c, st) => (advance_offset n nbytes;; lift (memread (block (ConstBuffer.data_ c)) 0 nbytes)) st
  | (Err _ _, st) => match malloc nbytes with None => (UB, st) | Some _ => read n nbytes st end
  | (UB, st) => (UB, st)
  end.

Definition compare_checksum_part `{Allocator} (D : Digest) (n : fbname) (p : Z * list Z) : M Store unit :=
  let '(bytes_to_compare, checksum) := p in
  x ← checked_bytes n bytes_to_compare;
  computed_hash ← compute_hash D x bytes_to_compare;
  y ← lift (memread (block (data_ computed_hash)) 0 (digest_bytes D));
  if bool_decide (checksum = y) then mret () else fail SC_ChecksumError "Checksum mismatch".

(** The sizes and checksums of [n] parts; no checksums when validation is
    skipped. *)
Fixpoint read_checksums `{Allocator} (D : Digest) (skip_validation : bool) (n : nat) : M Store (list (Z * list Z)) :=
  match n with
  | O => mret []
  | S n =>
      checksummed_bytes ← read_value input_metadata U64;
      if skip_validation then
        advance_offset input_metadata (digest_bytes D);;
        read_checksums D skip_validation n
      else
        buff ← match malloc (digest_bytes D) with
               | Some _ => read input_metadata (digest_bytes D)
               | None => lift UB
               end;
        l ← read_checksums D skip_validation n;
        mret ((checksummed_bytes, buff) :: l)
  end.

Definition checksum_reverse `{Allocator} (D : Digest) (skip_validation : bool) : M Store unit :=
  append_view output_data input_data;;
  num_metadata_parts ← read_value input_metadata U32;
  num_data_parts ← read_value input_metadata U32;
  metadata_checksums ← read_checksums D skip_validation (Z.to_nat num_metadata_parts);
  data_checksums ← read_checksums D skip_validation (Z.to_nat num_data_parts);
  (if skip_validation then mret ()
   else
     offset_before_checksum ← offset input_metadata;
     for_each (compare_checksum_part D input_metadata) metadata_checksums;;
     o ← offset input_metadata;
     (if o =? offset_before_checksum then mret ()
      else set_offset input_metadata offset_before_checksum);;
     for_each (compare_checksum_part D input_data) data_checksums);;
  forward_metadata.
