(* ===== verification/FilterSpec.v ===== *)
(** * What a filter promises

    [reversible rev md' d' md d]: run in reverse on the metadata [md'] and the
    data [d'], the filter restores [md] and [d].  [forward_ok] is the promise of
    [run_forward]: what it puts out is reversible to what it was given.  The
    pipeline needs nothing else of a filter. *)

From stdpp Require Import functions.
From S2P Require Import Prelude.
From S2P Require Import Enums.
From S2P Require Import ConstBuffer.
From S2P Require Import Buffer.
From S2P Require Import FilterBuffer.
From S2P Require Import FilterIO.
From S2P Require Import FilterWrite.
From S2P Require Import FilterViews.
From S2P Require Import FilterRun.
Local Open Scope Z_scope.

Lemma touch_bufs F st st' m : touch F st st' → m ∉ F → bufs st' m = bufs st m.
Proof. intros Ht Hm. by destruct (Ht m Hm). Qed.

Lemma touch_bytes F st st' m : touch F st st' → m ∉ F → fbbytes st' m = fbbytes st m.
Proof. intros Ht Hm. by destruct (Ht m Hm) as (_ & ? & _). Qed.

(** Inclusion of lists of concrete filter buffers, and the composition of the
    frames found in the context. *)
Ltac nsub :=
  let x := fresh in let H := fresh in intros x H;
  repeat (apply elem_of_cons in H as [H|H]; [subst x; apply (bool_decide_unpack _); exact I|]);
  by apply not_elem_of_nil in H.

Ltac chain :=
  lazymatch goal with
  | |- touch _ ?a ?a => apply touch_refl
  | H : touch ?F ?a ?b |- touch _ ?a _ =>
      eapply touch_trans; [eapply touch_mono; [|exact H]; nsub|]; clear H; chain
  end.

Abbreviation total st n := (concat (fbbytes st n)).

(** The state in which [run_forward] is called; the filters' 32-bit size
    computations do not overflow on inputs of this size. *)
Record fwd_ready (st : Store) : Prop := {
  fwd_good : good st;
  fwd_md_parts : Forall (.≠ []) (fbbytes st input_metadata);
  fwd_data_parts : Forall (.≠ []) (fbbytes st input_data);
  fwd_data : fbbytes st input_data ≠ [];
  fwd_small : zlen (total st input_metadata) + zlen (total st input_data) < 2 ^ 28;
  fwd_out_md : bufs st output_metadata = empty_fb;
  fwd_out : bufs st output_data = empty_fb
}.

Record rev_ready (st : Store) (md' d' : list Z) (N : Z) : Prop := {
  rev_good : good st;
  rev_md : reader st input_metadata [] md';
  rev_data : reader st input_data [] d';
  rev_out_md : bufs st output_metadata = empty_fb;
  rev_out : out_ready st output_data N
}.

(** The state [run_reverse] leaves. *)
Record rev_done (st : Store) (md d : list Z) : Prop := {
  rev_done_good : good st;
  rev_done_data : fbbytes st output_data = [d];
  rev_done_md : fbbytes st output_metadata = [md] ∨ fbbytes st output_metadata = [] ∧ md = [];
  rev_done_ro : read_only_ (bufs st output_metadata) = false ∧ read_only_ (bufs st output_data) = false
}.

Definition reversible (rev : M Store unit) (md' d' md d : list Z) : Prop := ∀ st,
  rev_ready st md' d' (zlen d) → ∃ st', rev st = (Ok (), st') ∧ rev_done st' md d.

Record forward_ok (rev : M Store unit) (st st' : Store) : Prop := {
  fok_good : good st';
  fok_md_parts : Forall (.≠ []) (fbbytes st' output_metadata);
  fok_data_parts : Forall (.≠ []) (fbbytes st' output_data);
  fok_data : fbbytes st' output_data ≠ [];
  fok_ro : read_only_ (bufs st' output_metadata) = false ∧ read_only_ (bufs st' output_data) = false;
  fok_rev : reversible rev (total st' output_metadata) (total st' output_data)
              (total st input_metadata) (total st input_data)
}.

(** One new buffer of metadata in front of the earlier ones, and one of data. *)
Lemma forward_ok_intro rev st st' hd d mds : good st' → fbbytes st' output_metadata = hd :: mds →
  fbbytes st' output_data = [d] → Forall (.≠ []) mds → hd ≠ [] → d ≠ [] →
  read_only_ (bufs st' output_metadata) = false → read_only_ (bufs st' output_data) = false →
  reversible rev (hd ++ concat mds) d (total st input_metadata) (total st input_data) →
  forward_ok rev st st'.
Proof.
  intros Hg Hm Hd Hmds Hhd Hdn Hr1 Hr2 Hrev. split; try done; rewrite ?Hm, ?Hd.
  - by constructor.
  - by repeat constructor.
  - done.
  - simpl. by rewrite app_nil_r.
Qed.

(** ** Parts *)

(** [c] designates the bytes [x], from its start. *)
Definition const_holds (c : ConstBuffer.t) (x : list Z) : Prop :=
  ConstBuffer.offset_ c = 0 ∧ ConstBuffer.size_ c = zlen x ∧
  x `prefix_of` block (ConstBuffer.data_ c) ∧ zlen x < 2 ^ 63.

Lemma const_holds_bytes c x : const_holds c x → const_bytes c = Ok x.
Proof.
  intros (_ & Hs & (tl & Htl) & _). unfold const_bytes. by rewrite (memread_at _ _ _ [] x tl).
Qed.

Lemma contents_prefix b : contents b `prefix_of` block (data_ b).
Proof. unfold contents, slice. rewrite drop_0. apply prefix_take. Qed.

Lemma const_buffers_spec st l : good st → Forall (seg_ok (heap st)) l →
  ∃ cs, const_buffers l st = (Ok cs, st) ∧ Forall2 const_holds cs (seg_bytes (heap st) <$> l).
Proof.
  intros Hg. induction 1 as [|s l Hs Hl IH]; [by exists []|].
  destruct (buffer_spec st s Hg Hs) as (b & Hb & Hok & Hc & Hsz & Hcap). destruct IH as (cs & Ecs & Hcs).
  eexists (_ :: cs). simpl. rewrite (M_bind_eq _ _ _ _ _ Hb), (M_bind_eq _ _ _ _ _ Ecs).
  split; [done|]. constructor; [|done]. unfold const_holds. simpl.
  split_and!; [done..|rewrite <- Hc; apply contents_prefix|lia].
Qed.

Lemma buffers_spec st n : good st →
  ∃ cs, buffers n st = (Ok cs, st) ∧ Forall2 const_holds cs (fbbytes st n).
Proof. intros Hg. unfold buffers. rewrite fb_bind. apply const_buffers_spec; [done|]. apply good_segs, Hg. Qed.

(** ** Writing through a [Buffer*] *)

Definition pwriter (st : Store) (n : fbname) (id : nat) (o : bool) (xs : list Z) (cap : Z) : Prop :=
  ∃ b l, owner st n id b l ∧ stores b o xs cap ∧ Buffer.offset_ b = zlen xs.

Lemma pwriter_touch st st' F n id o xs cap :
  pwriter st n id o xs cap → touch F st st' → n ∉ F → pwriter st' n id o xs cap.
Proof. intros (b & l & Ho & H) Ht Hn. exists b, l. split; [by eapply owner_touch|done]. Qed.

(** A predicate of one filter buffer across an operation on others. *)
Ltac frame :=
  first [eapply reader_touch | eapply writer_touch | eapply pwriter_touch | eapply out_ready_touch
        | eapply touch_bytes | eapply touch_bufs];
  [eassumption..|nin].

Lemma stores_contents b o xs cap : stores b o xs cap → o = true ∨ zlen xs = cap → contents b = xs.
Proof.
  intros ((tl & Htl) & _ & _ & Hsz) Ho. unfold contents, slice. rewrite drop_0, Htl, Hsz.
  assert ((if o then zlen xs else cap) = zlen xs) as -> by (destruct o, Ho; done).
  unfold zlen. by rewrite Nat2Z.id, take_app_length.
Qed.

Lemma owner_bytes st n id b l : owner st n id b l → fbbytes st n = contents b :: tail (fbbytes st n).
Proof.
  intros (H1 & _ & H3 & _). unfold fbbytes. rewrite H1. simpl. f_equal. unfold seg_bytes. simpl. by rewrite H3.
Qed.

Lemma writer_bytes st n o xs cap : writer st n o xs cap → o = true ∨ zlen xs = cap →
  fbbytes st n = xs :: tail (fbbytes st n).
Proof.
  intros (id & b & l & Ho & Hs & _) Hc. rewrite (owner_bytes _ _ _ _ _ Ho) at 1.
  by rewrite (stores_contents _ _ _ _ Hs).
Qed.

Lemma pwriter_bytes st n id o xs cap : pwriter st n id o xs cap → o = true ∨ zlen xs = cap →
  fbbytes st n = xs :: tail (fbbytes st n).
Proof.
  intros (b & l & Ho & Hs & _) Hc. rewrite (owner_bytes _ _ _ _ _ Ho) at 1.
  by rewrite (stores_contents _ _ _ _ Hs).
Qed.

(** [y] written over the memory after [xs], then [advance_output]. *)
Lemma overlaid_spec b o xs y cap : buf_ok b → stores b o xs cap → Buffer.offset_ b = zlen xs →
  zlen xs + zlen y ≤ cap → Forall byte_ok y →
  let b1 := mk (alloced_size_ b) (Some (overlay (zlen xs) y (block (data_ b))))
              (Buffer.offset_ b) (owns_data_ b) (size_ b) in
  ∃ b2, advance_output (zlen y) b1 = (Ok (), b2) ∧ buf_ok b1 ∧ buf_ok b2 ∧ owns_data_ b2 = owns_data_ b ∧
    stores b2 o (xs ++ y) cap ∧ Buffer.offset_ b2 = zlen (xs ++ y).
Proof.
  intros Hok Hs Hoff Hfit Hy b1. pose proof (zlen_nonneg xs). pose proof (zlen_nonneg y).
  pose proof Hok as (Hs1 & Hs2 & Hby & Hal). pose proof Hs as ((tl & Htl) & Hcap & Ho & Hsz).
  assert (capacity b ≤ zlen (block (data_ b))) as Hc2.
  { unfold capacity. destruct (owns_data_ b); [rewrite <- Hal by done|]; lia. }
  destruct (stores_written b o xs y cap Hok Hs Hy) as (Hok' & Hs' & _); [lia|].
  exists (with_offset (written_at b (zlen xs) y) (zlen xs + zlen y)).
  assert (zlen (overlay (zlen xs) y (block (data_ b))) = zlen (block (data_ b))) as Hlo
    by (rewrite zlen_overlay; lia).
  assert (buf_ok b1) as Hok1.
  { destruct Hok' as (_ & _ & Hby' & _). unfold buf_ok. simpl in *. rewrite Hlo. split_and!; done || lia. }
  split_and!; try done.
  - unfold advance_output, mbind, M_bind, get, b1. cbv iota beta. cbn [owns_data_]. rewrite Ho.
    unfold written_at, Buffer.advance_offset, Buffer.advance_size, with_offset, with_size. simpl.
    rewrite Ho. destruct o; simpl; rewrite Hoff, Hsz, ?u64_id by lia.
    + by rewrite Z.max_r by lia.
    + by rewrite Z.max_l by lia.
  - simpl. rewrite zlen_app. lia.
Qed.

(** What the two calls that emit a part do to the buffer. *)
Lemma transform_spec b o xs cap f part x : buf_ok b → stores b o xs cap → Buffer.offset_ b = zlen xs →
  const_holds part x → zlen xs + zlen x ≤ cap →
  (∀ d, zlen d = zlen x → Forall byte_ok d → zlen (f x d) = zlen x ∧ Forall byte_ok (f x d)) →
  ∃ d b1 b2, transform f part b = (Ok (), b1) ∧ advance_output (zlen x) b1 = (Ok (), b2) ∧
    zlen d = zlen x ∧ buf_ok b1 ∧ buf_ok b2 ∧ owns_data_ b1 = owns_data_ b ∧ owns_data_ b2 = owns_data_ b ∧
    stores b2 o (xs ++ f x d) cap ∧ Buffer.offset_ b2 = zlen (xs ++ f x d).
Proof.
  intros Hok Hs Hoff Hp Hfit Hf. pose proof (zlen_nonneg xs). pose proof (zlen_nonneg x).
  pose proof Hok as (Hs1 & Hs2 & Hby & Hal). pose proof Hs as (_ & Hcap & _).
  assert (capacity b ≤ zlen (block (data_ b))) as Hc2.
  { unfold capacity. destruct (owns_data_ b); [rewrite <- Hal by done|]; lia. }
  set (d := slice (zlen xs) (zlen x) (block (data_ b))).
  assert (zlen d = zlen x) as Hd by (unfold d; rewrite zlen_slice; lia).
  destruct (Hf d Hd) as [Hy1 Hy2]; [unfold d, slice; by apply Forall_take, Forall_drop|].
  destruct (overlaid_spec b o xs (f x d) cap) as (b2 & E & K1 & K2 & W2 & S2 & O2); try done; [lia|].
  rewrite Hy1 in E. eexists d, _, b2. split_and!; try done.
  unfold transform. rewrite (const_holds_bytes _ _ Hp). destruct Hp as (_ & -> & _).
  rewrite Hoff, memread_ok by lia. fold d. by rewrite memwrite_ok by lia.
Qed.

Lemma emit_spec st n id o xs cap f part x : good st → pwriter st n id o xs cap →
  const_holds part x → zlen xs + zlen x ≤ cap →
  (∀ d, zlen d = zlen x → Forall byte_ok d → zlen (f x d) = zlen x ∧ Forall byte_ok (f x d)) →
  ∃ d st1 st', on_ptr id (transform f part) st = (Ok (), st1) ∧
    on_ptr id (advance_output (zlen x)) st1 = (Ok (), st') ∧ zlen d = zlen x ∧ good st' ∧
    touch [n] st st' ∧ pwriter st' n id o (xs ++ f x d) cap ∧
    tail (fbbytes st' n) = tail (fbbytes st n).
Proof.
  intros Hg (b & l & Ho & Hs & Hoff) Hp Hfit Hf. pose proof (owner_ok _ _ _ _ _ Hg Ho) as Hok.
  destruct (transform_spec b o xs cap f part x) as (d & b1 & b2 & E1 & E2 & Hd & K1 & K2 & W1 & W2 & S2 & O2); try done.
  destruct (on_ptr_owner st n id b l _ _ b1 Hg Ho E1 K1 W1) as (st1 & R1 & G1 & T1 & P1 & B1 & F1).
  destruct (on_ptr_owner st1 n id b1 l _ _ b2 G1 P1 E2 K2) as (st2 & R2 & G2 & T2 & P2 & B2 & F2); [congruence|].
  exists d, st1, st2. split_and!; try done; [by eapply touch_trans| |congruence].
  exists b2, l. by split_and!.
Qed.

Lemma pwriter_ro st n id o xs cap : pwriter st n id o xs cap → read_only_ (bufs st n) = false.
Proof. by intros (b & l & (_ & _ & _ & ?) & _). Qed.

Lemma writer_ro st n o xs cap : writer st n o xs cap → read_only_ (bufs st n) = false.
Proof. by intros (id & b & l & (_ & _ & _ & ?) & _). Qed.

(** ** The beginning of [run_forward] and of [run_reverse] *)

(** A buffer nothing was written to. *)
Definition fresh_out (st : Store) (n : fbname) (id : nat) (o : bool) (cap : Z) : Prop := ∃ b l,
  owner st n id b l ∧ stores b o [] cap ∧ Buffer.offset_ b = 0 ∧
  current_buffer_ (bufs st n) = 0%nat ∧ current_relative_offset_ (bufs st n) = 0.

Lemma fresh_pwriter st n id o cap : fresh_out st n id o cap → pwriter st n id o [] cap.
Proof. intros (b & l & ? & ? & ? & _). by exists b, l. Qed.

Lemma fresh_writer st n id o cap : fresh_out st n id o cap → writer st n o [] cap.
Proof. intros (b & l & ? & ? & _ & ? & ?). exists id, b, l. split_and!; try done. by left. Qed.

Lemma fresh_reset st n id o cap : good st → fresh_out st n id o cap →
  ∃ st', on_ptr id Buffer.reset_offset st = (Ok (), st') ∧ good st' ∧ touch [n] st st' ∧
    fresh_out st' n id o cap ∧ tail (fbbytes st' n) = tail (fbbytes st n).
Proof.
  intros Hg (b & l & Ho & Hs & Hb & Hc1 & Hc2).
  destruct (on_ptr_owner st n id b l Buffer.reset_offset (Ok ()) (with_offset b 0)) as (st' & E & G & T & O & B & F);
    try done; [by apply (owner_ok _ _ _ _ _ Hg Ho)|].
  exists st'. split_and!; try done. exists (with_offset b 0), l. rewrite F. by split_and!.
Qed.

Section Alloc.
Context `{!Allocator}.
Hypothesis Hmem : ¬ out_of_memory.

(** A buffer for an output. *)
Lemma fwd_output st n k : good st → bufs st n = empty_fb → 0 ≤ k < 2 ^ 63 →
  ∃ st1 st' id, prepend_buffer n k st = (Ok (), st1) ∧
    first_ptr n st1 = (Ok id, st') ∧ good st' ∧ touch [n] st st' ∧
    fresh_out st' n id true k ∧ tail (fbbytes st' n) = [].
Proof.
  intros Hg He Hk. destruct (prepend_spec Hmem st n k) as
    (st1 & id & b & E & G & T & O & S & Z1 & C1 & C2 & _ & B); try done; try by rewrite He.
  destruct (buffer_ptr_spec st1 n id b _ G O) as (st2 & E2 & G2 & T2 & O2 & B2 & F2).
  assert (fbbytes st n = []) as Hnil by (unfold fbbytes; by rewrite He).
  exists st1, st2, id. split_and!; try done.
  - unfold first_ptr. by rewrite (M_bind_eq _ _ _ _ _ E2).
  - by eapply touch_trans.
  - exists (with_offset b 0), (buffers_ (bufs st n)). rewrite F2. split_and!; done.
  - by rewrite B2, B, Hnil.
Qed.

(** A buffer for the filter's metadata, in front of the earlier metadata. *)
Lemma fwd_metadata st k : good st → bufs st output_metadata = empty_fb →
  Forall (.≠ []) (fbbytes st input_metadata) → zlen (total st input_metadata) < 2 ^ 63 → 0 ≤ k < 2 ^ 63 →
  ∃ st1 st', append_view output_metadata input_metadata st = (Ok (), st1) ∧
    prepend_buffer output_metadata k st1 = (Ok (), st') ∧ good st' ∧
    touch [output_metadata; input_metadata] st st' ∧ keeps st st' input_metadata ∧
    writer st' output_metadata true [] k ∧ tail (fbbytes st' output_metadata) = fbbytes st input_metadata.
Proof.
  intros Hg He Hne Hlt Hk.
  assert (fbbytes st output_metadata = []) as Hnil by (unfold fbbytes; by rewrite He).
  destruct (append_view_spec st output_metadata input_metadata) as (st1 & E1 & G1 & T1 & K1 & B1 & R1 & X1);
    try done; try by rewrite He. { lia. }
  destruct (prepend_spec Hmem st1 output_metadata k) as
    (st2 & id & b & E & G & T & O & S & Z1 & C1 & C2 & _ & B); try done.
  exists st1, st2. split_and!; try done.
  - eapply touch_trans; [done|]. eapply touch_mono; [apply subseteq_l|done].
  - eapply keeps_trans; [done|]. eapply touch_keeps; [done|by apply not_in_singleton].
  - exists id, b, (buffers_ (bufs st1 output_metadata)). split_and!; try done. by left.
  - by rewrite B, B1, Hnil.
Qed.

(** The output buffer of a filter that runs in reverse and writes to it through
    a pointer. *)
Lemma rev_output st N k : good st → out_ready st output_data N → 0 ≤ k ≤ N → N < 2 ^ 63 →
  ∃ st1 st' id o, prepend_buffer output_data k st = (Ok (), st1) ∧
    first_ptr output_data st1 = (Ok id, st') ∧ good st' ∧ touch [output_data] st st' ∧
    pwriter st' output_data id o [] (if o then k else N) ∧ tail (fbbytes st' output_data) = [].
Proof.
  intros Hg Ho Hk HN. destruct (prepend_out_spec Hmem st output_data N k Hg Ho Hk HN)
    as (st1 & id & b & o & cap & E & G & T & O & S & -> & Z1 & C1 & C2 & B).
  destruct (buffer_ptr_spec st1 output_data id b _ G O) as (st2 & E2 & G2 & T2 & O2 & B2 & F2).
  exists st1, st2, id, o. split_and!; try done; [|chain| |congruence].
  - unfold first_ptr. by rewrite (M_bind_eq _ _ _ _ _ E2).
  - exists (with_offset b 0), []. by split_and!.
Qed.

(** The same, for a filter that uses [FilterBuffer::write]. *)
Lemma rev_output_fb st N k : good st → out_ready st output_data N → 0 ≤ k ≤ N → N < 2 ^ 63 →
  ∃ st1 st' o, prepend_buffer output_data k st = (Ok (), st1) ∧
    reset_offset output_data st1 = (Ok (), st') ∧ good st' ∧ touch [output_data] st st' ∧
    writer st' output_data o [] (if o then k else N) ∧ tail (fbbytes st' output_data) = [].
Proof.
  intros Hg Ho Hk HN. destruct (prepend_out_spec Hmem st output_data N k Hg Ho Hk HN)
    as (st1 & id & b & o & cap & E & G & T & O & S & -> & Z1 & C1 & C2 & B).
  set (f2 := with_fb_offset (with_cursor (bufs st1 output_data) 0 0) 0).
  destruct (owner_fb st1 output_data id b [] f2 G O) as (G2 & T2 & O2 & B2); [done|by destruct O as (_ & _ & _ & ?)|].
  exists st1, (with_fb st1 output_data f2), o. split_and!; try done.
  - chain.
  - exists id, b, []. split_and!; try done. left. by rewrite bufs_with_fb.
Qed.
End Alloc.

Lemma md_alternatives (l : list (list Z)) x : l = (if decide (x = []) then [] else [x]) →
  l = [x] ∨ l = [] ∧ x = [].
Proof. intros ->. destruct (decide (x = [])) as [->|]; [by right|by left]. Qed.

(** The end of [run_reverse]: the metadata that is left is handed on. *)
Lemma rev_finish st pre md d : good st → bufs st output_metadata = empty_fb →
  reader st input_metadata pre md → fbbytes st output_data = [d] →
  read_only_ (bufs st output_data) = false →
  ∃ st', forward_metadata st = (Ok (), st') ∧ rev_done st' md d.
Proof.
  intros Hg He Hr Hd Hro. destruct (append_md_spec st pre md Hg He Hr) as (st' & E & G & T & _ & B & R).
  exists st'. split; [exact E|]. split; [done| |by apply md_alternatives|].
  - rewrite <- Hd. frame.
  - split; [done|]. rewrite <- Hro. f_equal. frame.
Qed.

(** ** Filters that leave the data alone *)

Lemma md_view_spec st x : good st → bufs st output_metadata = empty_fb → reader st input_metadata [] x →
  ∃ st', append_view output_metadata input_metadata st = (Ok (), st') ∧ good st' ∧
    touch [output_metadata; input_metadata] st st' ∧
    fbbytes st' output_metadata = (if decide (x = []) then [] else [x]) ∧
    read_only_ (bufs st' output_metadata) = false.
Proof.
  intros Hg He Hr. pose proof (reader_bound _ _ _ _ Hg Hr) as Hb. change (zlen (@nil Z)) with 0 in Hb.
  unfold append_view. rewrite (M_bind_eq _ _ _ _ _ (reader_size st _ x Hg Hr ltac:(lia))).
  destruct (append_rest_spec st output_metadata input_metadata [] x (zlen x)) as (st' & E & G & T & _ & B & R);
    try done; try by rewrite He.
  exists st'. split_and!; try done. rewrite B. unfold fbbytes. by rewrite He.
Qed.

Lemma pass_reversible md d : d ≠ [] → reversible pass_through md d md d.
Proof.
  intros Hd st [Hg Hmd Hdt Hem Hout].
  destruct (append_out_spec st output_data input_data d) as (st1 & E1 & G1 & T1 & K1 & B1 & R1); try done.
  destruct (md_view_spec st1 md) as (st2 & E2 & G2 & T2 & B2 & R2); [done| |eapply reader_touch; [done..|nin]|].
  { rewrite <- Hem. eapply touch_bufs; [done|nin]. }
  exists st2. split; [unfold pass_through; by rewrite (M_bind_eq _ _ _ _ _ E1)|].
  assert (bufs st2 output_data = bufs st1 output_data) as Hb by (eapply touch_bufs; [done|nin]).
  split; [done| |by apply md_alternatives|split; congruence].
  rewrite <- B1. eapply touch_bytes; [done|nin].
Qed.

Lemma total_nonempty (l : list (list Z)) : l ≠ [] → Forall (.≠ []) l → concat l ≠ [].
Proof. intros Hl Hf. destruct Hf as [|x l Hx _]; [done|]. simpl. by destruct x. Qed.

Lemma pass_forward_ok st : fwd_ready st →
  ∃ st', pass_through st = (Ok (), st') ∧ forward_ok pass_through st st'.
Proof.
  intros [Hg Hmp Hdp Hd Hs Hem Heo]. pose proof (zlen_nonneg (total st input_metadata)).
  pose proof (zlen_nonneg (total st input_data)).
  assert (fbbytes st output_data = [] ∧ fbbytes st output_metadata = []) as [Hn1 Hn2]
    by (unfold fbbytes; by rewrite Heo, Hem).
  destruct (append_view_spec st output_data input_data) as (st1 & E1 & G1 & T1 & K1 & B1 & R1 & _);
    try done; try (by rewrite Heo); [lia|].
  assert (bufs st1 output_metadata = empty_fb) as Hem1 by (rewrite <- Hem; eapply touch_bufs; [done|nin]).
  assert (fbbytes st1 input_metadata = fbbytes st input_metadata) as Hmi by (eapply touch_bytes; [done|nin]).
  assert (fbbytes st1 output_metadata = []) as Hn2' by (unfold fbbytes; by rewrite Hem1).
  destruct (append_view_spec st1 output_metadata input_metadata) as (st2 & E2 & G2 & T2 & K2 & B2 & R2 & _);
    try done; try (by rewrite Hem1); try (by rewrite Hmi); [rewrite Hmi; lia|].
  rewrite Hn2', Hmi in B2. rewrite Hn1 in B1. simpl in B1, B2.
  assert (fbbytes st2 output_data = fbbytes st input_data) as Bo
    by (rewrite <- B1; eapply touch_bytes; [done|nin]).
  exists st2. split; [unfold pass_through; by rewrite (M_bind_eq _ _ _ _ _ E1)|].
  split; [done|congruence|congruence|congruence| |].
  - split; [done|]. rewrite <- R1. f_equal. eapply touch_bufs; [done|nin].
  - rewrite B2, Bo. apply pass_reversible. by apply total_nonempty.
Qed.
