(* ===== verification/FilterShuffle.v ===== *)
(** * The byte shuffle filter: its output can be reversed *)

From S2P Require Import Prelude.
From S2P Require Import Enums.
From S2P Require Import ConstBuffer.
From S2P Require Import Buffer.
From S2P Require Import Shuffle.
From S2P Require Import FilterBuffer.
From S2P Require Import FilterIO.
From S2P Require Import FilterWrite.
From S2P Require Import FilterViews.
From S2P Require Import FilterRun.
From S2P Require Import FilterSpec.
Local Open Scope Z_scope.

(** ** The memory the shuffles write *)

Lemma nth_byte_ok l i : Forall byte_ok l → byte_ok (nth i l 0).
Proof.
  intros Hl. destruct (nth_in_or_default i l 0) as [Hin| ->]; [|unfold byte_ok; lia].
  apply list_elem_of_In in Hin. by apply (proj1 (Forall_forall _ _) Hl).
Qed.

Lemma scatter_bytes {K} pos (val : K → Z) ks d : Forall byte_ok d → (∀ k, byte_ok (val k)) →
  Forall byte_ok (scatter pos val ks d).
Proof.
  intros Hd Hv. unfold scatter. revert d Hd. induction ks as [|k ks IH]; intros d Hd; [done|].
  simpl. apply IH. by apply Forall_insert.
Qed.

Lemma type_size_pos t : type_size t ≠ 0%nat.
Proof. unfold type_size. destruct (tile_type t); done. Qed.

Lemma shuffle_bytes ts (x d : list Z) : ts ≠ 0%nat → zlen d = zlen x → Forall byte_ok x → Forall byte_ok d →
  zlen (shuffle_generic ts (Z.to_nat (zlen x)) x d) = zlen x ∧
  Forall byte_ok (shuffle_generic ts (Z.to_nat (zlen x)) x d).
Proof.
  intros Hts Hd Hx Hby. unfold zlen in *. rewrite Nat2Z.id. split.
  - rewrite length_shuffle; lia.
  - unfold shuffle_generic, shuffle_generic_inline. rewrite nested_scatter. rewrite !Forall_app.
    split_and!; repeat (apply Forall_take || apply Forall_drop); try done;
      apply scatter_bytes; try done; intros []; by apply nth_byte_ok.
Qed.

Lemma unshuffle_bytes ts (x d : list Z) : ts ≠ 0%nat → zlen d = zlen x → Forall byte_ok x → Forall byte_ok d →
  zlen (unshuffle_generic ts (Z.to_nat (zlen x)) x d) = zlen x ∧
  Forall byte_ok (unshuffle_generic ts (Z.to_nat (zlen x)) x d).
Proof.
  intros Hts Hd Hx Hby. unfold zlen in *. rewrite Nat2Z.id. split.
  - rewrite length_unshuffle; lia.
  - unfold unshuffle_generic, unshuffle_generic_inline. rewrite nested_scatter. rewrite !Forall_app.
    split_and!; repeat (apply Forall_take || apply Forall_drop); try done;
      apply scatter_bytes; try done; intros []; by apply nth_byte_ok.
Qed.

(** [y] is a shuffle of [x]: what the memory held before does not matter. *)
Definition shuffled (t : tile_info) (x y : list Z) : Prop :=
  ∃ d, zlen d = zlen x ∧ y = shuffle_generic (type_size t) (Z.to_nat (zlen x)) x d.

Lemma shuffled_len t x y : shuffled t x y → zlen y = zlen x.
Proof.
  intros (d & Hd & ->). unfold zlen in *. rewrite Nat2Z.id, length_shuffle; [done|apply type_size_pos|lia].
Qed.

Lemma shuffled_inv t x y d : shuffled t x y → zlen d = zlen x →
  unshuffle_generic (type_size t) (Z.to_nat (zlen y)) y d = x.
Proof.
  intros Hs Hd. rewrite (shuffled_len _ _ _ Hs). destruct Hs as (d0 & Hd0 & ->).
  unfold zlen in *. rewrite Nat2Z.id. apply unshuffle_shuffle; [apply type_size_pos|lia..].
Qed.

Lemma shuffled_concat t xs ys : Forall2 (shuffled t) xs ys → zlen (concat ys) = zlen (concat xs).
Proof.
  induction 1 as [|x y xs ys Hxy _ IH]; [done|]. simpl. rewrite !zlen_app, IH. by rewrite (shuffled_len _ _ _ Hxy).
Qed.

(** The sizes of parts, as the filter's metadata stores them. *)
Definition enc_sizes (xs : list (list Z)) : list Z := concat ((λ x, to_bytes U32 (zlen x)) <$> xs).

Lemma zlen_enc_sizes xs : zlen (enc_sizes xs) = 4 * zlen xs.
Proof.
  unfold enc_sizes. induction xs as [|x xs IH]; [done|]. rewrite fmap_cons. simpl concat.
  rewrite zlen_app, zlen_to_bytes, IH, zlen_cons. change (csize U32) with 4. lia.
Qed.

Lemma u32_id z : 0 ≤ z < 2 ^ 32 → conv U32 z = z.
Proof. intros. apply conv_id. unfold_ctype. lia. Qed.

Lemma parts_le_bytes (xs : list (list Z)) : Forall (.≠ []) xs → zlen xs ≤ zlen (concat xs).
Proof.
  induction 1 as [|x xs Hx _ IH]; [done|]. simpl. rewrite zlen_app, zlen_cons. pose proof (zlen_pos x Hx). lia.
Qed.

(** ** Forward *)

Lemma shuffle_parts_forward t id ps xs st ys zs capm cap : Forall2 const_holds ps xs →
  Forall (Forall byte_ok) xs → good st → writer st output_metadata true ys capm →
  pwriter st output_data id true zs cap → zlen ys + 4 * zlen xs ≤ capm →
  zlen zs + zlen (concat xs) ≤ cap → zlen (concat xs) < 2 ^ 32 →
  ∃ st' us, for_each (fun part =>
      write_value output_metadata U32 (conv U32 (ConstBuffer.size_ part));;
      on_ptr id (shuffle_part t part);;
      on_ptr id (advance_output (ConstBuffer.size_ part))) ps st = (Ok (), st') ∧
    good st' ∧ writer st' output_metadata true (ys ++ enc_sizes xs) capm ∧
    pwriter st' output_data id true (zs ++ concat us) cap ∧ Forall2 (shuffled t) xs us ∧
    touch [output_metadata; output_data] st st' ∧
    tail (fbbytes st' output_metadata) = tail (fbbytes st output_metadata) ∧
    tail (fbbytes st' output_data) = tail (fbbytes st output_data).
Proof.
  intros Hps. revert st ys zs. induction Hps as [|p x ps xs Hp Hps IH]; intros st ys zs Hby Hg Hw Hpw Hm Hc Hlt.
  { exists st, []. rewrite !app_nil_r. split_and!; try done. }
  apply Forall_cons in Hby as [Hx Hby]. simpl in Hc, Hlt. rewrite zlen_app in Hc, Hlt. rewrite zlen_cons in Hm.
  pose proof (zlen_nonneg x). pose proof (zlen_nonneg (concat xs)). pose proof (zlen_nonneg xs).
  pose proof Hp as (_ & Hsz & _). rewrite <- (u32_id (zlen x)) in Hsz by lia.
  destruct (write_value_spec st output_metadata true ys U32 (zlen x) capm) as (st1 & E1 & G1 & T1 & W1 & B1);
    try done; [change (csize U32) with 4; lia|].
  assert (pwriter st1 output_data id true zs cap) as Hpw1 by (eapply pwriter_touch; [done..|nin]).
  destruct (emit_spec st1 output_data id true zs cap (shuffle_generic (type_size t) (Z.to_nat (zlen x))) p x)
    as (d & st2 & st3 & E2 & E3 & Hd & G3 & T3 & P3 & B3); try done; [lia| |].
  { intros d Hd Hdb. apply shuffle_bytes; try done. apply type_size_pos. }
  set (u := shuffle_generic (type_size t) (Z.to_nat (zlen x)) x d) in *.
  assert (shuffled t x u) as Hu by (by exists d).
  destruct (IH st3 (ys ++ to_bytes U32 (zlen x)) (zs ++ u)) as (st4 & us & E4 & G4 & W4 & P4 & S4 & T4 & B4 & B4'); try done.
  - eapply writer_touch; [done..|nin].
  - rewrite zlen_app, zlen_to_bytes. change (csize U32) with 4. lia.
  - rewrite zlen_app, (shuffled_len _ _ _ Hu). lia.
  - lia.
  - exists st4, (u :: us). rewrite u32_id in Hsz by lia. split_and!; try done.
    + simpl for_each. rewrite Hsz, u32_id by lia. rewrite (M_bind_eq _ _ () st st3); [done|].
      rewrite (M_bind_eq _ _ _ _ _ E1). unfold shuffle_part. rewrite Hsz. by rewrite (M_bind_eq _ _ _ _ _ E2).
    + unfold enc_sizes. rewrite fmap_cons. simpl concat. by rewrite app_assoc.
    + simpl concat. by rewrite app_assoc.
    + by constructor.
    + chain.
    + rewrite B4, <- B1. f_equal. eapply touch_bytes; [done|nin].
    + rewrite B4', B3. f_equal. eapply touch_bytes; [done|nin].
Qed.

(** ** Reverse *)

Lemma unshuffle_parts t id xs us st prem md pre out o cap : Forall2 (shuffled t) xs us →
  Forall (.≠ []) xs → good st → reader st input_metadata prem (enc_sizes xs ++ md) →
  reader st input_data pre (concat us) → pwriter st output_data id o out cap →
  zlen out + zlen (concat xs) ≤ cap → zlen (concat xs) < 2 ^ 32 →
  ∃ st', repeat_m (length xs) (byteshuffle_reverse_part t id) st = (Ok (), st') ∧ good st' ∧
    reader st' input_metadata (prem ++ enc_sizes xs) md ∧
    pwriter st' output_data id o (out ++ concat xs) cap ∧
    touch [output_data; input_metadata; input_data] st st' ∧
    tail (fbbytes st' output_data) = tail (fbbytes st output_data).
Proof.
  intros Hs. revert st prem pre out. induction Hs as [|x u xs us Hxu Hs IH];
    intros st prem pre out Hne Hg Hm Hd Hp Hc Hlt.
  { exists st. rewrite !app_nil_r. split_and!; try done. }
  apply Forall_cons in Hne as [Hx Hne]. simpl in Hc, Hlt. rewrite zlen_app in Hc, Hlt.
  pose proof (zlen_pos x Hx). pose proof (zlen_nonneg (concat xs)). pose proof (shuffled_len _ _ _ Hxu) as Hlu.
  unfold enc_sizes in Hm. rewrite fmap_cons in Hm. simpl in Hm. rewrite <- app_assoc in Hm.
  destruct (read_value_spec st input_metadata prem U32 (zlen x) (enc_sizes xs ++ md)) as (st1 & E1 & G1 & T1 & R1);
    try done; [unfold_ctype; lia|].
  assert (u ≠ []) as Hu by (intros ->; rewrite zlen_nil in Hlu; lia).
  assert (reader st1 input_data pre (u ++ concat us)) as Hd1 by (eapply reader_touch; [done..|nin]).
  destruct (get_const_buffer_spec st1 input_data pre u (concat us) (zlen x)) as (dt & E2 & Hdt & Hdl); try done.
  assert (const_holds (ConstBuffer.make (Some dt) (zlen u)) u) as Hch by (split_and!; done).
  assert (pwriter st1 output_data id o out cap) as Hp1 by (eapply pwriter_touch; [done..|nin]).
  assert (Forall byte_ok u) as Hub.
  { destruct (reader_inv st1 input_data pre (u ++ concat us) G1 Hd1) as (s & _ & Hok & Hby & _); [by destruct u|].
    pose proof (seg_bytes_ok st1 s G1 Hok) as Hb. rewrite Hby, !Forall_app in Hb. apply Hb. }
  destruct (emit_spec st1 output_data id o out cap (unshuffle_generic (type_size t) (Z.to_nat (zlen u)))
              (ConstBuffer.make (Some dt) (zlen u)) u)
    as (d & st2 & st3 & E3 & E4 & Hdd & G3 & T3 & P3 & B3); try done; [lia| |].
  { intros d Hdz Hdb. apply unshuffle_bytes; try done. apply type_size_pos. }
  rewrite (shuffled_inv t x u d Hxu) in P3 by lia.
  destruct (advance_offset_spec st3 input_data pre u (concat us) (zlen x)) as (st4 & E5 & G5 & T5 & R5); try done.
  { eapply reader_touch; [done..|nin]. }
  destruct (IH st4 (prem ++ to_bytes U32 (zlen x)) (pre ++ u) (out ++ x)) as (st5 & E6 & G6 & R6 & P6 & T6 & B6); try done.
  - eapply reader_touch; [eapply reader_touch; [done..|nin]|done|nin].
  - eapply pwriter_touch; [done..|nin].
  - rewrite zlen_app. lia.
  - lia.
  - exists st5. split_and!; try done.
    + simpl repeat_m. rewrite (M_bind_eq _ _ () st st4); [done|]. unfold byteshuffle_reverse_part.
      rewrite (M_bind_eq _ _ _ _ _ E1), (M_bind_eq _ _ _ _ _ E2). unfold unshuffle_part.
      cbn [ConstBuffer.size_ ConstBuffer.make]. rewrite <- Hlu.
      rewrite (M_bind_eq _ _ _ _ _ E3), (M_bind_eq _ _ _ _ _ E4). by rewrite Hlu.
    + unfold enc_sizes. rewrite fmap_cons. simpl concat. by rewrite app_assoc.
    + simpl concat. by rewrite app_assoc.
    + chain.
    + rewrite B6. transitivity (tail (fbbytes st3 output_data)); [f_equal; frame|]. rewrite B3. f_equal. frame.
Qed.

Section Alloc.
Context `{!Allocator}.
Hypothesis Hmem : ¬ out_of_memory.

Lemma byteshuffle_reversible t xs us md : Forall2 (shuffled t) xs us → Forall (.≠ []) xs → xs ≠ [] →
  zlen (concat xs) < 2 ^ 28 →
  reversible (byteshuffle_reverse t) (to_bytes U32 (zlen xs) ++ enc_sizes xs ++ md) (concat us) md (concat xs).
Proof.
  intros Hs Hne Hxs Hlt st [Hg Hmd Hdt Hem Hout]. pose proof (shuffled_concat _ _ _ Hs) as Hl.
  pose proof (zlen_nonneg (concat xs)). assert (zlen xs ≤ zlen (concat xs)) as Hn by (by apply parts_le_bytes).
  destruct (read_value_spec st input_metadata [] U32 (zlen xs) (enc_sizes xs ++ md)) as (st1 & E1 & G1 & T1 & R1);
    try done; [unfold_ctype; pose proof (zlen_nonneg xs); lia|].
  assert (reader st1 input_data [] (concat us)) as Hd1 by frame.
  destruct (rev_output Hmem st1 (zlen (concat xs)) (zlen (concat us))) as (st2 & st3 & id & o & E2 & E3 & G3 & T3 & P3 & B3);
    [done|frame|lia..|].
  rewrite Hl in P3. assert ((if o then zlen (concat xs) else zlen (concat xs)) = zlen (concat xs)) as Ho by (by destruct o).
  rewrite Ho in P3.
  destruct (unshuffle_parts t id xs us st3 (to_bytes U32 (zlen xs)) md [] [] o (zlen (concat xs)))
    as (st4 & E4 & G4 & R4 & P4 & T4 & B4); try done; try frame; [lia|].
  destruct (rev_finish st4 (to_bytes U32 (zlen xs) ++ enc_sizes xs) md (concat xs)) as (st5 & E5 & D5); try done.
  - rewrite <- Hem. transitivity (bufs st3 output_metadata); [frame|].
    transitivity (bufs st1 output_metadata); frame.
  - rewrite (pwriter_bytes _ _ _ _ _ _ P4) by (by right). by rewrite B4, B3.
  - by eapply pwriter_ro.
  - exists st5. split; [|done]. unfold byteshuffle_reverse.
    rewrite (M_bind_eq _ _ _ _ _ E1), (M_bind_eq _ _ _ _ _ (reader_size st1 _ _ G1 Hd1 ltac:(lia))).
    rewrite (M_bind_eq _ _ _ _ _ E2), (M_bind_eq _ _ _ _ _ E3).
    unfold zlen at 1. rewrite Nat2Z.id. by rewrite (M_bind_eq _ _ _ _ _ E4).
Qed.

Lemma byteshuffle_forward_ok t st : fwd_ready st →
  ∃ st', byteshuffle_forward t st = (Ok (), st') ∧ forward_ok (byteshuffle_reverse t) st st'.
Proof.
  intros [Hg Hmp Hdp Hd Hs Hem Heo]. set (xs := fbbytes st input_data) in *.
  pose proof (zlen_nonneg (total st input_metadata)). pose proof (zlen_nonneg (concat xs)).
  pose proof (zlen_nonneg xs). assert (zlen xs ≤ zlen (concat xs)) as Hn by (by apply parts_le_bytes).
  destruct (fwd_output Hmem st output_data (zlen (concat xs))) as (st1 & st2 & id & E1 & E2 & G2 & T2 & P2%fresh_pwriter & B2); try done; [lia|].
  destruct (buffers_spec st2 input_data G2) as (ps & E3 & Hps).
  assert (fbbytes st2 input_data = xs) as Hx2 by frame. rewrite Hx2 in Hps.
  assert (fbbytes st2 input_metadata = fbbytes st input_metadata) as Hm2 by frame.
  assert (bufs st2 output_metadata = empty_fb) as Hem2 by (rewrite <- Hem; frame).
  destruct (fwd_metadata Hmem st2 (4 + zlen xs * 4)) as (st3 & st4 & E4 & E5 & G5 & T5 & K5 & W5 & B5);
    try done; try (rewrite Hm2; done || lia); [lia|].
  destruct (write_value_spec st4 output_metadata true [] U32 (zlen xs) (4 + zlen xs * 4)) as (st5 & E6 & G6 & T6 & W6 & B6);
    try done; [change (csize U32) with 4; change (zlen (@nil Z)) with 0; lia|].
  destruct (shuffle_parts_forward t id ps xs st5 (to_bytes U32 (zlen xs)) [] (4 + zlen xs * 4) (zlen (concat xs)))
    as (st6 & us & E7 & G7 & W7 & P7 & S7 & T7 & B7 & B7'); try done.
  - apply fbbytes_ok. done.
  - eapply pwriter_touch; [eapply pwriter_touch; [done..|nin]|done|nin].
  - rewrite zlen_to_bytes. change (csize U32) with 4. lia.
  - lia.
  - assert (fbbytes st6 output_data = [concat us]) as Bo.
    { rewrite (pwriter_bytes _ _ _ _ _ _ P7) by (by left). rewrite B7'. f_equal. rewrite <- B2. f_equal.
      transitivity (fbbytes st4 output_data); frame. }
    assert (fbbytes st6 output_metadata = (to_bytes U32 (zlen xs) ++ enc_sizes xs) :: fbbytes st input_metadata) as Bm.
    { rewrite (writer_bytes _ _ _ _ _ W7) by (by left). by rewrite B7, B6, B5, Hm2. }
    pose proof (shuffled_concat _ _ _ S7) as Hl.
    exists st6. split; [|apply (forward_ok_intro _ _ _ _ _ _ G7 Bm Bo)]; try done.
    + unfold byteshuffle_forward. rewrite (M_bind_eq _ _ _ _ _ (size_spec st input_data Hg ltac:(fold xs; lia))).
      fold xs. rewrite (M_bind_eq _ _ _ _ _ E1), (M_bind_eq _ _ _ _ _ E2), (M_bind_eq _ _ _ _ _ E3).
      assert (zlen ps = zlen xs) as -> by (unfold zlen; by rewrite (Forall2_length _ _ _ Hps)).
      rewrite (u32_id (zlen xs)), (u32_id (4 + zlen xs * 4)) by lia.
      rewrite (M_bind_eq _ _ _ _ _ E4), (M_bind_eq _ _ _ _ _ E5), (M_bind_eq _ _ _ _ _ E6). exact E7.
    + pose proof (zlen_pos _ (total_nonempty xs Hd Hdp)). intros Hnil. rewrite Hnil, zlen_nil in Hl. lia.
    + by eapply writer_ro.
    + by eapply pwriter_ro.
    + rewrite <- app_assoc. apply byteshuffle_reversible; try done. fold xs. lia.
Qed.
End Alloc.
