(* ===== verification/FilterWindows.v ===== *)
(** * Filters that work on windows

    The positive delta and the bit width reduction filters cut each part into
    windows and store a header per window.  [decodes dec hdr enc win]: reading
    the header [hdr] and the bytes [enc], the code [dec] of the reverse
    direction writes the window [win].  [step_ok] is what the forward code of a
    window has to satisfy ([Q] relates the sizes of [enc] and [win]); the loops
    over windows and parts follow. *)

From S2P Require Import Prelude.
From S2P Require Import Enums.
From S2P Require Import ConstBuffer.
From S2P Require Import Buffer.
From S2P Require Import FilterBuffer.
From S2P Require Import FilterIO.
From S2P Require Import FilterWrite.
From S2P Require Import FilterViews.
From S2P Require Import FilterRun.
From S2P Require Import FilterSpec.
From S2P Require Import FilterShuffle.
Local Open Scope Z_scope.

(** ** Reverse *)

Definition decodes (dec : M Store unit) (hdr enc win : list Z) : Prop :=
  ∀ st prem md pre y o out cap, good st →
  reader st input_metadata prem (hdr ++ md) → reader st input_data pre (enc ++ y) →
  writer st output_data o out cap → zlen out + zlen win ≤ cap →
  ∃ st', dec st = (Ok (), st') ∧ good st' ∧ reader st' input_metadata (prem ++ hdr) md ∧
    reader st' input_data (pre ++ enc) y ∧ writer st' output_data o (out ++ win) cap ∧
    touch [output_data; input_metadata; input_data] st st' ∧
    tail (fbbytes st' output_data) = tail (fbbytes st output_data).

Record window : Type := mkWin { w_hdr : list Z; w_enc : list Z; w_win : list Z }.

Abbreviation hdrs ws := (concat (w_hdr <$> ws)).
Abbreviation encs ws := (concat (w_enc <$> ws)).
Abbreviation wins ws := (concat (w_win <$> ws)).

Definition window_ok (dec : M Store unit) (w : window) : Prop := decodes dec (w_hdr w) (w_enc w) (w_win w).

Lemma decodes_all dec ws : Forall (window_ok dec) ws →
  decodes (repeat_m (length ws) dec) (hdrs ws) (encs ws) (wins ws).
Proof.
  induction 1 as [|w ws Hw Hws IH]; intros st prem md pre y o out cap Hg Hm Hd Hwr Hc.
  { simpl. rewrite !app_nil_r. exists st. split_and!; try done. }
  rewrite !fmap_cons in *. simpl concat in *. rewrite zlen_app in Hc. rewrite <- app_assoc in Hm, Hd.
  pose proof (zlen_nonneg (wins ws)).
  destruct (Hw st prem (hdrs ws ++ md) pre (encs ws ++ y) o out cap) as (st1 & E1 & G1 & M1 & D1 & W1 & T1 & B1);
    try done; [lia|].
  destruct (IH st1 (prem ++ w_hdr w) md (pre ++ w_enc w) y o (out ++ w_win w) cap)
    as (st2 & E2 & G2 & M2 & D2 & W2 & T2 & B2); try done; [rewrite zlen_app; lia|].
  exists st2. rewrite !app_assoc. split_and!; try done; [|chain|congruence].
  simpl repeat_m. by rewrite (M_bind_eq _ _ _ _ _ E1).
Qed.

(** ** Forward *)

(** [c] has passed over [pre] and has [x] ahead. *)
Definition const_at (c : ConstBuffer.t) (pre x : list Z) : Prop :=
  ConstBuffer.offset_ c = zlen pre ∧ (pre ++ x) `prefix_of` block (ConstBuffer.data_ c) ∧
  zlen (pre ++ x) < 2 ^ 63.

Lemma const_at_advance c pre x y : const_at c pre (x ++ y) → const_at (const_advance c (zlen x)) (pre ++ x) y.
Proof.
  intros (Ho & Hp & Hl). unfold const_at, const_advance. simpl. rewrite <- app_assoc. split_and!; try done.
  rewrite !zlen_app in Hl. pose proof (zlen_nonneg pre). pose proof (zlen_nonneg x). pose proof (zlen_nonneg y).
  rewrite Ho, zlen_app, u64_id by lia. done.
Qed.

Lemma const_at_data c pre x y : const_at c pre (x ++ y) → ConstBuffer.cur_data c (zlen x) = Ok x.
Proof.
  intros (Ho & (tl & Htl) & _). unfold ConstBuffer.cur_data. rewrite <- !app_assoc in Htl.
  by rewrite (memread_at _ _ _ pre x (y ++ tl)).
Qed.

Definition step_ok (step : Z → ConstBuffer.t → M Store ConstBuffer.t) (dec : M Store unit) (w : Z)
    (Q : Z → Z → Prop) : Prop :=
  ∀ c pre win rest st c' st' ys capm zs cap,
  const_at c pre (win ++ rest) → win ≠ [] → zlen win < 2 ^ 32 → Forall byte_ok win → good st →
  writer st output_metadata true ys capm → writer st output_data true zs cap →
  zlen ys + w ≤ capm → zlen zs + zlen win ≤ cap → step (zlen win) c st = (Ok c', st') →
  ∃ hdr enc, zlen hdr = w ∧ 0 < zlen enc ≤ zlen win ∧ Q (zlen enc) (zlen win) ∧ decodes dec hdr enc win ∧ good st' ∧
    writer st' output_metadata true (ys ++ hdr) capm ∧ writer st' output_data true (zs ++ enc) cap ∧
    touch [output_metadata; output_data] st st' ∧
    tail (fbbytes st' output_metadata) = tail (fbbytes st output_metadata) ∧
    tail (fbbytes st' output_data) = tail (fbbytes st output_data) ∧ const_at c' (pre ++ win) rest.

(** The number of windows of [w] bytes in [r] bytes. *)
Definition windows_of (w r : Z) : Z := r / w + if r mod w =? 0 then 0 else 1.

Lemma windows_of_0 w : 0 < w → windows_of w 0 = 0.
Proof. intros. unfold windows_of. rewrite Z.div_0_l, Z.mod_0_l by lia. done. Qed.

Lemma windows_of_step w r : 0 < w → 0 < r → windows_of w r = 1 + windows_of w (r - Z.min w r).
Proof.
  intros Hw Hr. destruct (Z.le_gt_cases r w) as [Hle|Hgt].
  - rewrite Z.min_r, Z.sub_diag, windows_of_0 by lia. unfold windows_of.
    destruct (Z.eq_dec r w) as [->|Hne]; [by rewrite Z.div_same, Z.mod_same by lia|].
    rewrite Z.div_small, Z.mod_small by lia. by rewrite (proj2 (Z.eqb_neq _ _)) by lia.
  - rewrite Z.min_l by lia. unfold windows_of.
    replace r with (r - w + 1 * w) at 1 2 by lia. rewrite Z.div_add, Z.mod_add by lia. lia.
Qed.

Lemma windows_of_bound w r : 0 < w → 0 ≤ r → 0 ≤ windows_of w r ≤ r.
Proof.
  intros Hw Hr. unfold windows_of. pose proof (Z.div_mod r w ltac:(lia)). pose proof (Z.mod_pos_bound r w Hw).
  pose proof (Z.div_pos r w Hr Hw). destruct (Z.eqb_spec (r mod w) 0); nia.
Qed.

Lemma zlen_concat_windows (P : window → Prop) (f : window → list Z) w ws : (∀ x, P x → zlen (f x) = w) → Forall P ws →
  zlen (concat (f <$> ws)) = w * zlen ws.
Proof.
  intros Hf. induction 1 as [|x ws Hx _ IH]; [simpl; change (zlen (@nil window)) with 0; change (zlen (@nil Z)) with 0; lia|].
  rewrite fmap_cons. simpl concat. rewrite zlen_app, IH, zlen_cons, (Hf x Hx). lia.
Qed.

(** The windows one call of the loop emits. *)
Definition emitted (dec : M Store unit) (w : Z) (Q : Z → Z → Prop) (x : window) : Prop :=
  zlen (w_hdr x) = w ∧ 0 < zlen (w_enc x) ≤ zlen (w_win x) ∧ Q (zlen (w_enc x)) (zlen (w_win x)) ∧
  window_ok dec x.

Lemma zlen_encs dec w Q ws : Forall (emitted dec w Q) ws → zlen (encs ws) ≤ zlen (wins ws) ∧ zlen ws ≤ zlen (encs ws).
Proof.
  induction 1 as [|x ws (_ & Hx & _) _ IH]; [done|]. rewrite !fmap_cons. simpl concat.
  rewrite !zlen_app, zlen_cons. lia.
Qed.

Section Loop.
Variables (step : Z → ConstBuffer.t → M Store ConstBuffer.t) (dec : M Store unit) (hs : Z)
  (Q : Z → Z → Prop).
Hypothesis Hstep : step_ok step dec hs Q.

(** What a stretch of forward code emits, and its frame. *)
Definition emits (st st' : Store) (ys : list Z) (capm : Z) (zs : list Z) (cap : Z) (x : list Z) (n : Z) : Prop :=
  ∃ ws, Forall (emitted dec hs Q) ws ∧ wins ws = x ∧ zlen ws = n ∧ good st' ∧
    writer st' output_metadata true (ys ++ hdrs ws) capm ∧ writer st' output_data true (zs ++ encs ws) cap ∧
    touch [output_metadata; output_data] st st' ∧
    tail (fbbytes st' output_metadata) = tail (fbbytes st output_metadata) ∧
    tail (fbbytes st' output_data) = tail (fbbytes st output_data).

Lemma for_windows_spec w len n i c pre rest st st' ys capm zs cap :
  0 < w → len < 2 ^ 32 → const_at c pre rest → (rest ≠ [] → zlen rest = len - i * w) → 0 ≤ i →
  Z.of_nat n = windows_of w (zlen rest) → Forall byte_ok rest → good st →
  writer st output_metadata true ys capm → writer st output_data true zs cap →
  zlen ys + hs * Z.of_nat n ≤ capm → zlen zs + zlen rest ≤ cap → 0 ≤ hs →
  for_windows step w len n i c st = (Ok (), st') →
  emits st st' ys capm zs cap rest (Z.of_nat n).
Proof.
  intros Hw Hlen. revert i c pre rest st ys zs.
  induction n as [|n IH]; intros i c pre rest st ys zs Hc Hr Hi Hn Hby Hg Hm Ho Hcm Hcap Hhs E.
  - simpl in E. injection E as <-. exists []. rewrite !app_nil_r. split_and!; try done.
    destruct rest as [|b rest]; [done|]. rewrite windows_of_step in Hn; [|done|by apply zlen_pos].
    pose proof (windows_of_bound w (zlen (b :: rest) - Z.min w (zlen (b :: rest))) Hw ltac:(lia)). lia.
  - destruct (decide (rest = [])) as [->|Hne].
    { change (zlen (@nil Z)) with 0 in Hn. rewrite windows_of_0 in Hn by done. lia. }
    pose proof (zlen_pos rest Hne) as Hpos. specialize (Hr Hne). rewrite windows_of_step in Hn by done.
    set (k := Z.to_nat (Z.min w (zlen rest))). set (win := take k rest). set (rest' := drop k rest).
    assert (rest = win ++ rest') as Hsplit by (symmetry; apply take_drop).
    assert (zlen win = Z.min w (zlen rest)) as Hwl by (unfold win, k, zlen in *; rewrite length_take; lia).
    assert (zlen rest' = zlen rest - Z.min w (zlen rest)) as Hrl by (unfold rest', k, zlen in *; rewrite length_drop; lia).
    assert (0 ≤ i * w) as Hiw by nia. assert (0 ≤ hs * Z.of_nat n) as Hhn by nia.
    rewrite Nat2Z.inj_succ, Z.mul_succ_r in Hcm.
    simpl in E. rewrite (u32_id (i * w)), u32_id in E by lia. replace (len - i * w) with (zlen rest) in E by lia.
    rewrite <- Hwl in E. unfold mbind at 1, M_bind at 1 in E.
    destruct (step (zlen win) c st) as [[c1| |] st1] eqn:E1; [|done..].
    rewrite Hsplit in Hc, Hby. apply Forall_app in Hby as [Hb1 Hb2].
    destruct (Hstep c pre win rest' st c1 st1 ys capm zs cap) as (hdr & enc & H1 & H2 & HQ & H3 & G1 & M1 & O1 & T1 & B1 & B1' & C1);
      try done; try lia.
    { intros Hnil. rewrite Hnil, zlen_nil in Hwl. lia. }
    destruct (IH (i + 1) c1 (pre ++ win) rest' st1 (ys ++ hdr) (zs ++ enc)) as (ws & F2 & W2 & N2 & G2 & M2 & O2 & T2 & B2 & B2');
      try done; try lia.
    + intros Hne'. apply zlen_pos in Hne'. lia.
    + rewrite Hrl. lia.
    + rewrite zlen_app. lia.
    + rewrite zlen_app. lia.
    + exists (mkWin hdr enc win :: ws). rewrite !fmap_cons. simpl concat. rewrite !app_assoc, W2, zlen_cons, N2, <- Hsplit.
      split_and!; try done; [by constructor|lia|chain|congruence|congruence].
Qed.

Lemma num_windows_spec w r n : 0 ≤ w → 0 ≤ r < 2 ^ 32 → num_windows w r = Ok n →
  0 < w ∧ n = windows_of w r.
Proof.
  intros Hw Hr Hn. unfold num_windows, cdiv, crem in Hn. destruct (Z.eqb_spec w 0) as [->|Hne]; [done|].
  assert (0 < w) as Hw' by lia. pose proof (windows_of_bound w r Hw' ltac:(lia)) as Hb.
  rewrite Z.quot_div_nonneg, Z.rem_mod_nonneg in Hn by lia.
  pose proof (Z.mod_pos_bound r w Hw'). pose proof (Z.div_pos r w ltac:(lia) Hw').
  pose proof (Z.mod_le r w ltac:(lia) Hw'). pose proof (Z.div_le_upper_bound r w r Hw' ltac:(nia)).
  rewrite !arith_ok in Hn by (unfold_ctype; lia). cbn [mbind res_bind] in Hn.
  unfold windows_of in *. rewrite u32_id in Hn by lia. by injection Hn as <-.
Qed.

Lemma window_size_nonneg T m x : 0 ≤ window_size T m x.
Proof. unfold window_size. pose proof (conv_in U32 (Z.min x m / csize T * csize T)) as H. unfold_ctype. lia. Qed.

Lemma windowed_part_spec T m p x st st' ys capm zs cap :
  let n := windows_of (window_size T m (zlen x)) (zlen x) in
  const_holds p x → zlen x < 2 ^ 32 → Forall byte_ok x → good st →
  writer st output_metadata true ys capm → writer st output_data true zs cap →
  zlen ys + hs * n ≤ capm → zlen zs + zlen x ≤ cap → 0 ≤ hs →
  windowed_part step T m p st = (Ok (), st') → emits st st' ys capm zs cap x n.
Proof.
  intros n (Ho & Hs & Hp & Hl) Hx Hby Hg Hm Hd Hcm Hc Hhs E. pose proof (zlen_nonneg x).
  unfold windowed_part in E. rewrite Hs, u32_id in E by lia. unfold mbind at 1, M_bind at 1, lift at 1 in E.
  destruct (num_windows (window_size T m (zlen x)) (zlen x)) as [n'| |] eqn:En; [|done..].
  apply num_windows_spec in En as [Hw ->]; [|apply window_size_nonneg|lia]. fold n in E.
  pose proof (windows_of_bound _ (zlen x) Hw ltac:(lia)) as Hb. fold n in Hb.
  rewrite <- (Z2Nat.id n) by lia. eapply (for_windows_spec (window_size T m (zlen x)) (zlen x) _ 0 p []);
    try done; rewrite ?Z2Nat.id by lia; try done. lia.
Qed.

(** The number of windows of several parts. *)
Fixpoint total_windows (T : ctype) (m : Z) (xs : list (list Z)) : Z :=
  match xs with
  | [] => 0
  | x :: xs => windows_of (window_size T m (zlen x)) (zlen x) + total_windows T m xs
  end.

Lemma parts_spec T m ps xs st st' ys capm zs cap : Forall2 const_holds ps xs →
  zlen (concat xs) < 2 ^ 32 → Forall (Forall byte_ok) xs → good st →
  Forall (λ x, 0 < window_size T m (zlen x)) xs →
  writer st output_metadata true ys capm → writer st output_data true zs cap →
  zlen ys + hs * total_windows T m xs ≤ capm → zlen zs + zlen (concat xs) ≤ cap → 0 ≤ hs →
  for_each (windowed_part step T m) ps st = (Ok (), st') →
  emits st st' ys capm zs cap (concat xs) (total_windows T m xs).
Proof.
  intros Hps. revert st ys zs. induction Hps as [|p x ps xs Hp Hps IH];
    intros st ys zs Hx Hby Hg Hw Hm Hd Hcm Hc Hhs E.
  { simpl in E. injection E as <-. exists []. rewrite !app_nil_r. split_and!; done. }
  simpl in Hx, Hc, Hcm. rewrite zlen_app in Hx, Hc. pose proof (zlen_nonneg x). pose proof (zlen_nonneg (concat xs)).
  apply Forall_cons in Hby as [Hb1 Hb2]. apply Forall_cons in Hw as [Hw1 Hw2].
  pose proof (windows_of_bound _ (zlen x) Hw1 ltac:(lia)) as Hn1.
  assert (0 ≤ total_windows T m xs) as Hn2.
  { clear -Hw2. induction Hw2 as [|y ys Hy _ IH]; simpl; [lia|].
    pose proof (windows_of_bound _ (zlen y) Hy (zlen_nonneg y)). lia. }
  rewrite Z.mul_add_distr_l in Hcm.
  simpl in E. unfold mbind at 1, M_bind at 1 in E.
  destruct (windowed_part step T m p st) as [[[]| |] st1] eqn:E1; [|done..].
  apply (windowed_part_spec T m p x st st1 ys capm zs cap) in E1 as (ws & F1 & W1 & N1 & G1 & M1 & D1 & T1 & B1 & B1');
    try done; [|lia|nia|lia].
  assert (zlen (hdrs ws) = hs * zlen ws) as Hhl by (eapply zlen_concat_windows; [|done]; by intros ? (? & _)).
  destruct (zlen_encs _ _ _ _ F1) as [He _]. rewrite W1 in He.
  destruct (IH st1 (ys ++ hdrs ws) (zs ++ encs ws)) as (ws2 & F2 & W2 & N2 & G2 & M2 & D2 & T2 & B2 & B2'); try done.
  - lia.
  - rewrite zlen_app, Hhl, N1. lia.
  - rewrite zlen_app. lia.
  - exists (ws ++ ws2). rewrite !fmap_app, !concat_app, !app_assoc, W1, W2, zlen_app, N1, N2.
    split_and!; try done; [by apply Forall_app|chain|congruence|congruence].
Qed.
End Loop.

Lemma window_overhead_spec T m w ps xs a b t r : Forall2 const_holds ps xs → 0 ≤ w ≤ 13 →
  0 ≤ a → 0 ≤ b → 0 ≤ t → a + zlen (concat xs) < 2 ^ 32 → b + 13 * zlen (concat xs) < 2 ^ 32 →
  t + zlen (concat xs) < 2 ^ 32 → window_overhead T m w ps a b t = Ok r →
  Forall (λ x, 0 < window_size T m (zlen x)) xs ∧ 0 ≤ total_windows T m xs ≤ zlen (concat xs) ∧
  r = (a + zlen (concat xs), b + w * total_windows T m xs, t + total_windows T m xs).
Proof.
  intros Hps Hw. revert a b t. induction Hps as [|p x ps xs (_ & Hs & _) Hps IH]; intros a b t Ha Hb Ht H1 H2 H3 E.
  { simpl in E. injection E as <-. simpl. change (zlen (@nil Z)) with 0. split_and!; [constructor|lia|lia|]. f_equal; [f_equal|]; lia. }
  simpl in H1, H2, H3. rewrite zlen_app in H1, H2, H3. pose proof (zlen_nonneg x). pose proof (zlen_nonneg (concat xs)).
  simpl in E. rewrite Hs, u32_id in E by lia.
  destruct (num_windows (window_size T m (zlen x)) (zlen x)) as [n| |] eqn:En; [|done..].
  apply num_windows_spec in En as [Hw1 ->]; [|apply window_size_nonneg|lia].
  pose proof (windows_of_bound _ (zlen x) Hw1 ltac:(lia)) as Hn. set (n := windows_of _ (zlen x)) in *.
  cbn [mbind res_bind] in E. rewrite u64_id, (u32_id (n * w)), !u32_id in E by nia.
  apply IH in E as (F & Hn2 & ->); [|nia..]. simpl. fold n. rewrite zlen_app.
  split_and!; [by constructor|lia|lia|]. f_equal; [f_equal|]; lia.
Qed.

Section Alloc.
Context `{!Allocator}.
Hypothesis Hmem : ¬ out_of_memory.

(** The code in front of the parts: both outputs have room for the worst case. *)
Lemma windowed_prologue T m w (K : list ConstBuffer.t → Z → M Store unit) st st' :
  fwd_ready st → 0 ≤ w ≤ 13 →
  (parts ← buffers input_data;
   ub ← lift (window_overhead T m w parts 0 8 0);
   let '(output_size_ub, metadata_size, total_num_windows) := ub in
   prepend_buffer output_data output_size_ub;;
   id ← first_ptr output_data;
   on_ptr id Buffer.reset_offset;;
   append_view output_metadata input_metadata;;
   prepend_buffer output_metadata metadata_size;;
   K parts total_num_windows) st = (Ok (), st') →
  let xs := fbbytes st input_data in let N := total_windows T m xs in
  ∃ ps st1, Forall2 const_holds ps xs ∧ Forall (λ x, 0 < window_size T m (zlen x)) xs ∧
    0 ≤ N ≤ zlen (concat xs) ∧ good st1 ∧ writer st1 output_metadata true [] (8 + w * N) ∧
    writer st1 output_data true [] (zlen (concat xs)) ∧
    tail (fbbytes st1 output_metadata) = fbbytes st input_metadata ∧
    tail (fbbytes st1 output_data) = [] ∧ K ps N st1 = (Ok (), st').
Proof.
  intros [Hg Hmp Hdp Hd Hs Hem Heo] Hw E xs N.
  pose proof (zlen_nonneg (total st input_metadata)). pose proof (zlen_nonneg (concat xs)). fold xs in Hs, Hdp, Hd.
  destruct (buffers_spec st input_data Hg) as (ps & E0 & Hps). fold xs in Hps.
  rewrite (M_bind_eq _ _ _ _ _ E0) in E. unfold mbind at 1, M_bind at 1, lift at 1 in E.
  destruct (window_overhead T m w ps 0 8 0) as [r| |] eqn:Er; [|done..].
  apply (window_overhead_spec T m w ps xs) in Er as (Hwin & HN & ->); [|done|lia..]. fold N in HN, E.
  rewrite !Z.add_0_l in E.
  destruct (fwd_output Hmem st output_data (zlen (concat xs))) as (st1 & st2 & id & E1 & E2 & G2 & T2 & F2 & B2); try done; [lia|].
  destruct (fresh_reset st2 output_data id true _ G2 F2) as (st3 & E3 & G3 & T3 & F3 & B3).
  rewrite (M_bind_eq _ _ _ _ _ E1), (M_bind_eq _ _ _ _ _ E2), (M_bind_eq _ _ _ _ _ E3) in E.
  apply fresh_writer in F3.
  assert (touch [output_data] st st3) as T03 by chain.
  assert (fbbytes st3 input_metadata = fbbytes st input_metadata) as Hm3 by frame.
  destruct (fwd_metadata Hmem st3 (8 + w * N)) as (st4 & st5 & E4 & E5 & G5 & T5 & K5 & W5 & B5); rewrite ?Hm3; try done.
  - rewrite <- Hem. frame.
  - lia.
  - nia.
  - rewrite (M_bind_eq _ _ _ _ _ E4), (M_bind_eq _ _ _ _ _ E5) in E.
    exists ps, st5. split_and!; try done; try lia.
    + frame.
    + congruence.
    + rewrite <- B2, <- B3. f_equal. frame.
Qed.
End Alloc.
