(* ===== verification/FilterDelta.v ===== *)
(** * The positive delta filter: its output can be reversed *)

From S2P Require Import Prelude.
From S2P Require Import Enums.
From S2P Require Import ConstBuffer.
From S2P Require Import Buffer.
From S2P Require Import FilterBuffer.
From S2P Require Import FilterIO.
From S2P Require Import FilterWrite.
From S2P Require Import FilterViews.
From S2P Require Import FilterRun.
From S2P Require Import FilterSpec.
From S2P Require Import FilterShuffle.
From S2P Require Import FilterWindows.
Local Open Scope Z_scope.

(** ** Values *)

Lemma csize_pos T : 1 ≤ csize T ≤ 8.
Proof. destruct T; simpl; lia. Qed.

(** A whole number of values, as bytes. *)
Lemma bytes_vals T win : Forall byte_ok win → zlen win mod csize T = 0 →
  ∃ vs, win = vals_bytes T vs ∧ Forall (in_ctype T) vs ∧ zlen vs = zlen win / csize T.
Proof.
  pose proof (csize_pos T) as Hk. intros Hby Hmod. pose proof (zlen_nonneg win).
  assert (∃ n : nat, zlen win = Z.of_nat n * csize T) as (n & Hn).
  { exists (Z.to_nat (zlen win / csize T)). rewrite Z2Nat.id by (apply Z.div_pos; lia).
    pose proof (Z.div_mod (zlen win) (csize T) ltac:(lia)). lia. }
  rewrite Hn, Z.div_mul by lia. clear Hmod H. revert win Hby Hn. induction n as [|n IH]; intros win Hby Hn.
  - exists []. rewrite Z.mul_0_l in Hn. destruct win; [done|]. rewrite zlen_cons in Hn. pose proof (zlen_nonneg win). lia.
  - set (k := Z.to_nat (csize T)). destruct (IH (drop k win)) as (vs & Hvs & Hin & Hl).
    + by apply Forall_drop.
    + unfold zlen, k in *. rewrite length_drop. nia.
    + assert (Z.of_nat (length (take k win)) = csize T) as Hlk by (unfold k, zlen in *; rewrite length_take; nia).
      exists (of_bytes T (take k win) :: vs). split_and!.
      * unfold vals_bytes. rewrite fmap_cons. simpl concat. fold (vals_bytes T vs). rewrite <- Hvs.
        rewrite to_of_bytes by (try apply Forall_take; done). symmetry. apply take_drop.
      * constructor; [apply of_bytes_in|done].
      * rewrite zlen_cons. lia.
Qed.

Lemma const_value_at T c pre v y : const_at c pre (to_bytes T v ++ y) → in_ctype T v → const_value T c = Ok v.
Proof.
  intros Hc Hv. unfold const_value. rewrite <- (zlen_to_bytes T v), (const_at_data _ _ _ _ Hc).
  cbn [mbind res_bind]. by rewrite of_to_bytes.
Qed.

Lemma const_value_in T c v : const_value T c = Ok v → in_ctype T v.
Proof.
  unfold const_value. destruct (ConstBuffer.cur_data c (csize T)); [|done..].
  cbn [mbind res_bind]. intros [= <-]. apply of_bytes_in.
Qed.

Lemma conv_congr T x y : x mod 2 ^ bits T = y mod 2 ^ bits T → conv T x = conv T y.
Proof. intros E. by rewrite <- (conv_mod T x), E, conv_mod. Qed.

(** A result computed in the promoted type, converted to [T]: the exact result
    modulo the width of [T]. *)
Lemma arith_promote T z x : arith (promote T) z = Ok x → conv T x = conv T z.
Proof.
  unfold arith. destruct (is_signed (promote T)) eqn:Es.
  - destruct (fits (promote T) z); [|done]. by intros [= <-].
  - intros [= <-]. apply conv_congr. destruct T; try done; simpl promote; apply Z.mod_mod; done.
Qed.

(** Adding a difference back. *)
Lemma add_sub_in T a b d : in_ctype T a → in_ctype T b → sub_in T a b = Ok d →
  in_ctype T d ∧ add_in T b d = Ok a.
Proof.
  intros Ha Hb. unfold sub_in, add_in, csub, cadd.
  destruct (arith (promote T) (a - b)) as [x| |] eqn:Ex; [|done..]. cbn [mbind res_bind]. intros [= <-].
  split; [apply conv_in|]. rewrite (arith_promote _ _ _ Ex).
  assert (conv T (b + conv T (a - b)) = a) as Ea.
  { rewrite <- (conv_id T a Ha) at 2. apply conv_congr.
    rewrite <- Zplus_mod_idemp_r, conv_modulo, Zplus_mod_idemp_r. f_equal. lia. }
  destruct (arith (promote T) (b + conv T (a - b))) as [y| |] eqn:Ey.
  - cbn [mbind res_bind]. by rewrite (arith_promote _ _ _ Ey), Ea.
  - unfold arith in Ey. by repeat case_match.
  - exfalso. unfold arith in Ex, Ey. destruct (is_signed (promote T)) eqn:Es; [|done].
    destruct (fits (promote T) (a - b)) eqn:Ef; [|done]. apply fits_spec in Ef.
    destruct (fits (promote T) (b + conv T (a - b))) eqn:Ef'; [done|].
    apply not_true_iff_false in Ef'. apply Ef', fits_spec. pose proof (conv_in T (a - b)) as Hc.
    destruct T; simpl promote in *; try done;
      try (rewrite conv_id by done; replace (b + (a - b)) with a by lia; done);
      unfold_ctype; simpl in *; lia.
Qed.

(** [ds] are the differences between consecutive values of [prev :: vs]. *)
Inductive deltas (T : ctype) : Z → list Z → list Z → Prop :=
  | deltas_nil prev : deltas T prev [] []
  | deltas_cons prev v vs d ds : in_ctype T v → in_ctype T d → add_in T prev d = Ok v →
      deltas T v vs ds → deltas T prev (v :: vs) (d :: ds).

Lemma deltas_length T prev vs ds : deltas T prev vs ds → length ds = length vs.
Proof. induction 1; simpl; congruence. Qed.

Lemma vals_bytes_cons T v vs : vals_bytes T (v :: vs) = to_bytes T v ++ vals_bytes T vs.
Proof. done. Qed.

Lemma slice_to_bytes T v : slice 0 (csize T) (to_bytes T v) = to_bytes T v.
Proof. rewrite <- (zlen_to_bytes T v) at 1. apply slice_all. Qed.

Lemma to_bytes_nonempty T v : to_bytes T v ≠ [].
Proof. intros Hn. pose proof (zlen_to_bytes T v) as Hl. rewrite Hn, zlen_nil in Hl. by destruct T. Qed.

Lemma decode_elements_spec T prev vs ds : deltas T prev vs ds → ∀ st pre y o out cap, good st →
  reader st input_data pre (vals_bytes T ds ++ y) → writer st output_data o out cap →
  zlen out + zlen (vals_bytes T vs) ≤ cap →
  ∃ st', decode_elements T (csize T) (length ds) prev st = (Ok (), st') ∧ good st' ∧
    reader st' input_data (pre ++ vals_bytes T ds) y ∧
    writer st' output_data o (out ++ vals_bytes T vs) cap ∧
    touch [output_data; input_data] st st' ∧
    tail (fbbytes st' output_data) = tail (fbbytes st output_data).
Proof.
  induction 1 as [prev|prev v vs d ds Hv Hd Ha Hds IH]; intros st pre y o out cap Hg Hr Hw Hc.
  { exists st. rewrite !app_nil_r. split_and!; done. }
  rewrite !vals_bytes_cons in *. rewrite <- app_assoc in Hr. rewrite zlen_app, zlen_to_bytes in Hc.
  pose proof (zlen_nonneg (vals_bytes T vs)).
  destruct (read_value_spec st input_data pre T d (vals_bytes T ds ++ y)) as (st1 & E1 & G1 & T1 & R1); try done.
  assert (writer st1 output_data o out cap) as Hw1 by frame.
  destruct (write_value_spec st1 output_data o out T v cap) as (st2 & E2 & G2 & T2 & W2 & B2); try done; [lia|].
  destruct (IH st2 (pre ++ to_bytes T d) y o (out ++ to_bytes T v) cap) as (st3 & E3 & G3 & R3 & W3 & T3 & B3);
    try done; [frame|rewrite zlen_app, zlen_to_bytes; lia|].
  exists st3. rewrite !app_assoc. split_and!; try done.
  - simpl. rewrite (M_bind_eq _ _ _ _ _ E1), Ha, lift_bind, slice_to_bytes.
    change (write output_data (to_bytes T v)) with (write_value output_data T v).
    by rewrite (M_bind_eq _ _ _ _ _ E2).
  - chain.
  - rewrite B3, B2. f_equal. frame.
Qed.

(** The bytes of a window that was not encoded. *)
Lemma copy_input_spec x st pre y o out cap : good st → x ≠ [] →
  reader st input_data pre (x ++ y) → writer st output_data o out cap → zlen out + zlen x ≤ cap →
  ∃ st', copy_input (zlen x) st = (Ok (), st') ∧ good st' ∧ reader st' input_data (pre ++ x) y ∧
    writer st' output_data o (out ++ x) cap ∧ touch [output_data; input_data] st st' ∧
    tail (fbbytes st' output_data) = tail (fbbytes st output_data).
Proof.
  intros Hg Hx Hr Hw Hc.
  destruct (write_from_spec st output_data input_data o out cap pre x y (zlen x)) as (st1 & E1 & G1 & T1 & W1 & B1); try done.
  destruct (advance_offset_spec st1 input_data pre x y (zlen x)) as (st2 & E2 & G2 & T2 & R2); try done; [frame|].
  exists st2. split_and!; try done.
  - unfold copy_input. by rewrite (M_bind_eq _ _ _ _ _ E1).
  - frame.
  - chain.
  - rewrite <- B1. f_equal. frame.
Qed.

(** The header of a window, and the two ways to decode it. *)
Lemma decode_window_spec T v win enc : in_ctype T v → zlen win < 2 ^ 32 → win ≠ [] →
  (zlen win mod csize T ≠ 0 ∧ enc = win ∨
   zlen win mod csize T = 0 ∧ ∃ vs ds, deltas T v vs ds ∧ win = vals_bytes T vs ∧ enc = vals_bytes T ds) →
  decodes (decode_window T (csize T)) (to_bytes T v ++ to_bytes U32 (zlen win)) enc win.
Proof.
  intros Hv Hl Hne Hcase st prem md pre y o out cap Hg Hm Hd Hw Hc. pose proof (zlen_nonneg win).
  rewrite <- app_assoc in Hm.
  destruct (read_spec st input_metadata prem (to_bytes T v) (to_bytes U32 (zlen win) ++ md) (csize T))
    as (st1 & E1 & G1 & T1 & R1); try done; [apply to_bytes_nonempty|by rewrite zlen_to_bytes|].
  destruct (read_value_spec st1 input_metadata (prem ++ to_bytes T v) U32 (zlen win) md) as (st2 & E2 & G2 & T2 & R2);
    try done; [unfold_ctype; lia|].
  assert (reader st2 input_data pre (enc ++ y)) as Hd2 by (eapply reader_touch; [frame|done|nin]).
  assert (writer st2 output_data o out cap) as Hw2 by (eapply writer_touch; [frame|done|nin]).
  assert (∃ st', (if negb (zlen win mod csize T =? 0) then copy_input (zlen win)
      else decode_elements T (csize T) (Z.to_nat (zlen win / csize T)) v) st2 = (Ok (), st') ∧ good st' ∧
    reader st' input_data (pre ++ enc) y ∧ writer st' output_data o (out ++ win) cap ∧
    touch [output_data; input_data] st2 st' ∧
    tail (fbbytes st' output_data) = tail (fbbytes st2 output_data)) as (st3 & E3 & G3 & R3 & W3 & T3 & B3).
  { destruct Hcase as [[Hmod ->]|(Hmod & vs & ds & Hds & -> & ->)].
    - rewrite (proj2 (Z.eqb_neq _ _)) by done. by apply copy_input_spec.
    - rewrite Hmod, Z.eqb_refl. cbn [negb]. rewrite zlen_vals_bytes, Z.div_mul by (pose proof (csize_pos T); lia).
      unfold zlen. rewrite Nat2Z.id, <- (deltas_length _ _ _ _ Hds). by apply decode_elements_spec. }
  exists st3. rewrite !app_assoc. split_and!; try done.
  - unfold decode_window. rewrite (M_bind_eq _ _ _ _ _ E1), (M_bind_eq _ _ _ _ _ E2), of_to_bytes by done. exact E3.
  - frame.
  - chain.
  - rewrite B3. f_equal. transitivity (fbbytes st1 output_data); frame.
Qed.

(** ** Forward *)

Lemma copy_window_spec c pre x rest st c' st' zs cap : const_at c pre (x ++ rest) → x ≠ [] →
  Forall byte_ok x → good st → writer st output_data true zs cap → zlen zs + zlen x ≤ cap →
  copy_window c (zlen x) st = (Ok c', st') →
  good st' ∧ writer st' output_data true (zs ++ x) cap ∧ touch [output_data] st st' ∧
  tail (fbbytes st' output_data) = tail (fbbytes st output_data) ∧ const_at c' (pre ++ x) rest.
Proof.
  intros Hc Hx Hby Hg Hw Hcap E. unfold copy_window in E. rewrite (const_at_data _ _ _ _ Hc), lift_bind in E.
  destruct (write_fb_spec st output_data true zs x cap) as (st1 & E1 & G1 & T1 & W1 & B1); try done.
  rewrite (M_bind_eq _ _ _ _ _ E1) in E. injection E as <- <-. split_and!; try done. by apply const_at_advance.
Qed.

Lemma encode_elements_spec T vs : ∀ prev c pre rest st c' st' zs cap, in_ctype T prev →
  Forall (in_ctype T) vs → const_at c pre (vals_bytes T vs ++ rest) → good st →
  writer st output_data true zs cap → zlen zs + zlen (vals_bytes T vs) ≤ cap →
  encode_elements T (length vs) c prev st = (Ok c', st') →
  ∃ ds, deltas T prev vs ds ∧ good st' ∧ writer st' output_data true (zs ++ vals_bytes T ds) cap ∧
    touch [output_data] st st' ∧ tail (fbbytes st' output_data) = tail (fbbytes st output_data) ∧
    const_at c' (pre ++ vals_bytes T vs) rest.
Proof.
  induction vs as [|v vs IH]; intros prev c pre rest st c' st' zs cap Hp Hvs Hc Hg Hw Hcap E.
  { simpl in E. injection E as <- <-. exists []. rewrite !app_nil_r. split_and!; try done. constructor. }
  apply Forall_cons in Hvs as [Hv Hvs]. rewrite vals_bytes_cons in *. rewrite <- app_assoc in Hc.
  rewrite zlen_app, zlen_to_bytes in Hcap. pose proof (zlen_nonneg (vals_bytes T vs)).
  simpl in E. rewrite (const_value_at T c pre v _ Hc Hv), lift_bind in E.
  destruct (v <? prev); [done|]. unfold mbind at 1, M_bind at 1, lift at 1 in E.
  destruct (sub_in T v prev) as [d| |] eqn:Ed; [|done..].
  destruct (add_sub_in T v prev d Hv Hp Ed) as [Hd Ha].
  destruct (write_value_spec st output_data true zs T d cap) as (st1 & E1 & G1 & T1 & W1 & B1); try done; [lia|].
  rewrite (M_bind_eq _ _ _ _ _ E1) in E.
  pose proof (const_at_advance c pre (to_bytes T v) _ Hc) as Hc1. rewrite zlen_to_bytes in Hc1.
  destruct (IH v _ _ rest st1 c' st' (zs ++ to_bytes T d) cap Hv Hvs Hc1 G1 W1) as (ds & D2 & G2 & W2 & T2 & B2 & C2);
    [rewrite zlen_app, zlen_to_bytes; lia|done|].
  exists (d :: ds). rewrite vals_bytes_cons, !app_assoc. split_and!; try done; [by constructor|chain|congruence].
Qed.

Lemma encode_window_ok T : step_ok (encode_window T) (decode_window T (csize T)) (4 + csize T) eq.
Proof.
  intros c pre win rest st c' st' ys capm zs cap Hc Hne Hl Hby Hg Hm Hw Hcm Hcap E. pose proof (csize_pos T).
  pose proof (zlen_pos win Hne). unfold encode_window in E.
  unfold mbind at 1, M_bind at 1, lift at 1 in E. destruct (const_value T c) as [v| |] eqn:Ev; [|done..].
  pose proof (const_value_in _ _ _ Ev) as Hv.
  destruct (write_value_spec st output_metadata true ys T v capm) as (st1 & E1 & G1 & T1 & W1 & B1); try done; [lia|].
  rewrite (M_bind_eq _ _ _ _ _ E1) in E.
  destruct (write_value_spec st1 output_metadata true (ys ++ to_bytes T v) U32 (zlen win) capm)
    as (st2 & E2 & G2 & T2 & W2 & B2); try done; [rewrite zlen_app, zlen_to_bytes; change (csize U32) with 4; lia|].
  rewrite (M_bind_eq _ _ _ _ _ E2) in E.
  assert (writer st2 output_data true zs cap) as Hw2 by (eapply writer_touch; [frame|done|nin]).
  exists (to_bytes T v ++ to_bytes U32 (zlen win)). rewrite zlen_app, !zlen_to_bytes. change (csize U32) with 4.
  assert (∃ enc, 0 < zlen enc ≤ zlen win ∧ zlen enc = zlen win ∧ decodes (decode_window T (csize T)) (to_bytes T v ++ to_bytes U32 (zlen win)) enc win ∧
    good st' ∧ writer st' output_data true (zs ++ enc) cap ∧ touch [output_data] st2 st' ∧
    tail (fbbytes st' output_data) = tail (fbbytes st2 output_data) ∧ const_at c' (pre ++ win) rest)
    as (enc & Henc & HQ & Hdec & G3 & W3 & T3 & B3 & C3).
  { destruct (Z.eqb_spec (zlen win mod csize T) 0) as [Hmod|Hmod]; cbn [negb] in E.
    - rewrite lift_bind in E. destruct (bytes_vals T win Hby Hmod) as (vs & -> & Hvs & Hlv).
      rewrite <- Hlv in E. unfold zlen at 1 in E. rewrite Nat2Z.id in E.
      destruct (encode_elements_spec T vs v c pre rest st2 c' st' zs cap) as (ds & D & G & W & T' & B & C); try done.
      exists (vals_bytes T ds). apply deltas_length in D as Hdl.
      assert (zlen (vals_bytes T ds) = zlen (vals_bytes T vs)) as Hdz by (rewrite !zlen_vals_bytes; unfold zlen; by rewrite Hdl).
      split_and!; try done; try lia. apply decode_window_spec; try done. right. split; [done|]. by exists vs, ds.
    - destruct (copy_window_spec c pre win rest st2 c' st' zs cap) as (G & W & T' & B & C); try done.
      exists win. split_and!; try done; try lia. apply decode_window_spec; try done. by left. }
  exists enc. split_and!; try done; try lia.
  - rewrite app_assoc. frame.
  - chain.
  - rewrite <- B1, <- B2. f_equal. frame.
  - rewrite B3. f_equal. transitivity (fbbytes st1 output_data); frame.
Qed.

Lemma zlen_encs_eq dec w ws : Forall (emitted dec w eq) ws → zlen (encs ws) = zlen (wins ws).
Proof.
  induction 1 as [|x ws (_ & _ & Hx & _) _ IH]; [done|]. rewrite !fmap_cons. simpl concat. rewrite !zlen_app. lia.
Qed.

Section Alloc.
Context `{!Allocator}.
Hypothesis Hmem : ¬ out_of_memory.

(** ** The whole filter *)

Lemma positive_delta_reversible t T ws md : datatype_size (tile_type t) = csize T →
  Forall (emitted (decode_window T (csize T)) (4 + csize T) eq) ws → zlen (wins ws) < 2 ^ 28 →
  reversible (positive_delta_reverse_t t T) (to_bytes U32 (zlen ws) ++ hdrs ws ++ md) (encs ws) md (wins ws).
Proof.
  intros Ht Hws Hlt st [Hg Hmd Hdt Hem Hout]. pose proof (zlen_encs_eq _ _ _ Hws) as Hl.
  destruct (zlen_encs _ _ _ _ Hws) as [_ Hn]. pose proof (zlen_nonneg ws). pose proof (zlen_nonneg (wins ws)).
  destruct (read_value_spec st input_metadata [] U32 (zlen ws) (hdrs ws ++ md)) as (st1 & E1 & G1 & T1 & R1);
    try done; [unfold_ctype; lia|].
  assert (reader st1 input_data [] (encs ws)) as Hd1 by frame.
  destruct (rev_output_fb Hmem st1 (zlen (wins ws)) (zlen (encs ws))) as (st2 & st3 & o & E2 & E3 & G3 & T3 & P3 & B3);
    [done|frame|lia..|].
  rewrite Hl in P3. assert ((if o then zlen (wins ws) else zlen (wins ws)) = zlen (wins ws)) as Ho by (by destruct o).
  rewrite Ho in P3.
  destruct (decodes_all (decode_window T (csize T)) ws) with st3 (to_bytes U32 (zlen ws)) md (@nil Z) (@nil Z) o (@nil Z)
    (zlen (wins ws)) as (st4 & E4 & G4 & R4 & _ & P4 & T4 & B4); try done.
  { eapply Forall_impl; [exact Hws|]. by intros w (_ & _ & _ & ?). }
  { frame. }
  { rewrite app_nil_r. frame. }
  destruct (rev_finish st4 (to_bytes U32 (zlen ws) ++ hdrs ws) md (wins ws)) as (st5 & E5 & D5); try done.
  - rewrite <- Hem. transitivity (bufs st3 output_metadata); [frame|].
    transitivity (bufs st1 output_metadata); frame.
  - rewrite (writer_bytes _ _ _ _ _ P4) by (by right). by rewrite B4, B3.
  - by eapply writer_ro.
  - exists st5. split; [|done]. unfold positive_delta_reverse_t. rewrite Ht.
    rewrite (M_bind_eq _ _ _ _ _ E1), (M_bind_eq _ _ _ _ _ (reader_size st1 _ _ G1 Hd1 ltac:(lia))).
    rewrite (M_bind_eq _ _ _ _ _ E2), (M_bind_eq _ _ _ _ _ E3).
    unfold zlen at 1. rewrite Nat2Z.id. by rewrite (M_bind_eq _ _ _ _ _ E4).
Qed.

Lemma positive_delta_forward_t_ok t T m st st' : datatype_size (tile_type t) = csize T → fwd_ready st →
  positive_delta_forward_t T m st = (Ok (), st') → forward_ok (positive_delta_reverse_t t T) st st'.
Proof.
  intros Ht Hf E. pose proof (csize_pos T). pose proof Hf as [Hg Hmp Hdp Hd Hs _ _].
  apply (windowed_prologue Hmem T m (4 + csize T)) in E as
    (ps & st1 & Hps & Hw & HN & G1 & W1 & D1 & B1 & B1' & E1); [|done|lia].
  set (xs := fbbytes st input_data) in *. set (N := total_windows T m xs) in *.
  pose proof (zlen_nonneg (total st input_metadata)). pose proof (zlen_nonneg (concat xs)).
  destruct (write_value_spec st1 output_metadata true [] U32 N (8 + (4 + csize T) * N)) as (st2 & E2 & G2 & T2 & W2 & B2);
    try done; [change (zlen (@nil Z)) with 0; change (csize U32) with 4; nia|].
  rewrite (M_bind_eq _ _ _ _ _ E2) in E1.
  apply (parts_spec (encode_window T) (decode_window T (csize T)) (4 + csize T) eq (encode_window_ok T) T m ps xs st2 st'
           (to_bytes U32 N) (8 + (4 + csize T) * N) [] (zlen (concat xs)))
    in E1 as (ws & F & W & HNw & G3 & W3 & D3 & T3 & B3 & B3'); try done.
  - assert (fbbytes st' output_metadata = (to_bytes U32 N ++ hdrs ws) :: fbbytes st input_metadata) as Bm.
    { rewrite (writer_bytes _ _ _ _ _ W3) by (by left). by rewrite B3, B2, B1. }
    assert (fbbytes st' output_data = [encs ws]) as Bo.
    { rewrite (writer_bytes _ _ _ _ _ D3) by (by left). rewrite B3', <- B1'. do 2 f_equal. frame. }
    apply (forward_ok_intro _ _ _ _ _ _ G3 Bm Bo); try done.
    + pose proof (zlen_pos _ (total_nonempty xs Hd Hdp)) as Hp. rewrite <- W, <- (zlen_encs_eq _ _ _ F) in Hp.
      intros Hnil. by rewrite Hnil in Hp.
    + by eapply writer_ro.
    + by eapply writer_ro.
    + fold xs. fold N in HNw. rewrite <- app_assoc, <- HNw, <- W. apply positive_delta_reversible; try done. rewrite W. lia.
  - lia.
  - by apply fbbytes_ok.
  - frame.
  - rewrite zlen_to_bytes. change (csize U32) with 4. lia.
  - lia.
Qed.

Lemma int_type_size t T : int_type (tile_type t) = Some T → datatype_size (tile_type t) = csize T.
Proof. destruct (tile_type t); simpl; intros [= <-]; done. Qed.

Lemma positive_delta_forward_ok t m st st' : fwd_ready st →
  positive_delta_forward t m st = (Ok (), st') → forward_ok (positive_delta_reverse t) st st'.
Proof.
  intros Hf E. unfold positive_delta_forward, positive_delta_reverse in *.
  destruct (negb (datatype_is_integer (tile_type t))).
  - destruct (pass_forward_ok st Hf) as (st1 & E1 & H1). rewrite E1 in E. by injection E as <-.
  - destruct (int_type (tile_type t)) as [T|] eqn:Et; [|done].
    apply (positive_delta_forward_t_ok t T m); try done. by apply int_type_size.
Qed.
End Alloc.
