(* ===== verification/FilterWidth.v ===== *)
(** * The bit width reduction filter: its output can be reversed

    For 16-bit signed integers it cannot: the range of a window wraps around. *)

From S2P Require Import Prelude.
From S2P Require Import Enums.
From S2P Require Import ConstBuffer.
From S2P Require Import Buffer.
From S2P Require Import FilterBuffer.
From S2P Require Import FilterIO.
From S2P Require Import FilterWrite.
From S2P Require Import FilterViews.
From S2P Require Import FilterRun.
From S2P Require Import FilterSpec.
From S2P Require Import FilterShuffle.
From S2P Require Import FilterWindows.
From S2P Require Import FilterDelta.
Local Open Scope Z_scope.

(** ** The number of bits *)

Lemma bits_required_unsigned_spec fuel v b : 0 ≤ v < 2 ^ Z.of_nat fuel →
  b ≤ bits_required_unsigned fuel v b ∧ v < 2 ^ (bits_required_unsigned fuel v b - b).
Proof.
  revert v b. induction fuel as [|fuel IH]; intros v b Hv; simpl bits_required_unsigned.
  - rewrite Z.sub_diag. simpl in *. lia.
  - destruct (Z.ltb_spec 0 v) as [Hp|Hz]; [|rewrite Z.sub_diag; simpl; lia].
    rewrite Nat2Z.inj_succ, Z.pow_succ_r in Hv by lia. rewrite Z.shiftr_div_pow2 by lia. change (2 ^ 1) with 2.
    pose proof (Z.div_mod v 2 ltac:(lia)). pose proof (Z.mod_pos_bound v 2 ltac:(lia)).
    destruct (IH (v / 2) (b + 1)) as [H1 H2]; [split; [apply Z.div_pos|apply Z.div_lt_upper_bound]; lia|].
    set (r := bits_required_unsigned fuel (v / 2) (b + 1)) in *. split; [lia|].
    replace (r - b) with (Z.succ (r - (b + 1))) by lia. rewrite Z.pow_succ_r by lia. lia.
Qed.

(** The rounded width. *)
Definition round_bits (bits : Z) : Z :=
  if bits <=? 8 then 8 else if bits <=? 16 then 16 else if bits <=? 32 then 32 else 64.

(** The width chosen for a range holds every value up to the range. *)
Lemma round_bits_bound T range : csize T ≠ 1 → 0 ≤ range < tmax T →
  let bits := round_bits (bits_required T (range + 1)) in
  bits < 8 * csize T → (bits = 8 ∨ bits = 16 ∨ bits = 32) ∧
  range + 1 < 2 ^ (if is_signed T then bits - 1 else bits).
Proof.
  intros HT Hr bits Hlt. unfold bits, bits_required in *. clear bits.
  destruct (is_signed (promote T)) eqn:Es.
  - unfold bits_required_signed in *.
    destruct ((tmin I8 <=? range + 1) && (range + 1 <=? tmax I8)) eqn:E1.
    { apply andb_true_iff in E1 as [_ E1%Z.leb_le]. change (tmax I8) with 127 in E1.
      change (round_bits 8) with 8. split; [lia|]. destruct (is_signed T); lia. }
    destruct ((tmin I16 <=? range + 1) && (range + 1 <=? tmax I16)) eqn:E2.
    { apply andb_true_iff in E2 as [_ E2%Z.leb_le]. change (tmax I16) with 32767 in E2.
      change (round_bits 16) with 16. split; [lia|]. destruct (is_signed T); lia. }
    destruct ((tmin I32 <=? range + 1) && (range + 1 <=? tmax I32)) eqn:E3.
    { apply andb_true_iff in E3 as [_ E3%Z.leb_le]. change (tmax I32) with 2147483647 in E3.
      change (round_bits 32) with 32. split; [lia|]. destruct (is_signed T); lia. }
    change (round_bits 64) with 64 in Hlt. exfalso. pose proof (csize_pos T). lia.
  - destruct (bits_required_unsigned_spec 64 (range + 1) 0) as [H1 H2].
    { change (2 ^ Z.of_nat 64) with (tmax U64 + 1). destruct T; try done; unfold_ctype; lia. }
    revert H1 H2 Hlt. generalize (bits_required_unsigned 64 (range + 1) 0). intros b H1 H2 Hlt.
    rewrite Z.sub_0_r in H2. assert (is_signed T = false) as -> by (by destruct T).
    unfold round_bits in *. pose proof (csize_pos T).
    destruct (Z.leb_spec b 8); [|destruct (Z.leb_spec b 16); [|destruct (Z.leb_spec b 32); [|lia]]];
      (split; [lia|]); (eapply Z.lt_le_trans; [exact H2|]); apply Z.pow_le_mono_r; lia.
Qed.

Lemma narrow_fits T bits range : (bits = 8 ∨ bits = 16 ∨ bits = 32) → bits < 8 * csize T →
  0 ≤ range → range + 1 < 2 ^ (if is_signed T then bits - 1 else bits) →
  ∃ N, narrow_type T bits = Some N ∧ csize N ≤ csize T ∧
    ∀ r, 0 ≤ r ≤ range → in_ctype N r.
Proof.
  intros Hb Hlt Hr Hp. destruct Hb as [-> | [-> | ->]];
    eexists; (split; [reflexivity|]); destruct T; simpl csize in *; simpl is_signed in *; cbv iota in *;
    (split; [lia|]); intros r ?; unfold_ctype; simpl Z.sub in *; simpl Z.mul in *; lia.
Qed.

(** ** Differences that fit *)

Lemma tmax_promote T z : 0 ≤ z ≤ tmax T → in_ctype T z.
Proof. destruct T; unfold_ctype; simpl; lia. Qed.

Lemma sub_in_exact T a b : 0 ≤ a - b ≤ tmax T → sub_in T a b = Ok (a - b).
Proof.
  intros H. apply tmax_promote in H. unfold sub_in, csub. rewrite arith_ok by (by apply in_promote).
  cbn [mbind res_bind]. by rewrite conv_id.
Qed.

Lemma add_in_exact T a b : in_ctype T (a + b) → add_in T a b = Ok (a + b).
Proof.
  intros H. unfold add_in, cadd. rewrite arith_ok by (by apply in_promote).
  cbn [mbind res_bind]. by rewrite conv_id.
Qed.

(** Except for the 8-bit and 16-bit signed types, a range that is computed at
    all is exact. *)
Lemma range_exact T mx mn r : T ≠ I8 → T ≠ I16 → in_ctype T mx → in_ctype T mn → mn ≤ mx →
  sub_in T mx mn = Ok r → r = mx - mn ∧ 0 ≤ r ≤ tmax T.
Proof.
  intros H8 H16 Hx Hn Hle. unfold sub_in, csub.
  destruct (arith (promote T) (mx - mn)) as [y| |] eqn:Ey; [|done..]. cbn [mbind res_bind]. intros [= <-].
  rewrite (arith_promote _ _ _ Ey). enough (in_ctype T (mx - mn)) as Hin.
  { rewrite conv_id by done. split; [done|]. unfold in_ctype in Hin. lia. }
  unfold arith in Ey. destruct T; try done; simpl promote in *; simpl is_signed in Ey; cbv iota in Ey;
    try (destruct (fits _ (mx - mn)) eqn:Ef; [by apply fits_spec in Ef|done]); unfold_ctype; lia.
Qed.

Lemma window_range_spec T vs : ∀ c pre rest mn0 mx0 mn mx, Forall (in_ctype T) vs →
  in_ctype T mn0 → in_ctype T mx0 →
  const_at c pre (vals_bytes T vs ++ rest) → window_range T (length vs) c mn0 mx0 = Ok (mn, mx) →
  in_ctype T mn ∧ in_ctype T mx ∧ mn ≤ mn0 ∧ mx0 ≤ mx ∧ Forall (λ v, mn ≤ v ≤ mx) vs.
Proof.
  induction vs as [|v vs IH]; intros c pre rest mn0 mx0 mn mx Hvs Hm Hx Hc E.
  { simpl in E. injection E as <- <-. split_and!; done || lia. }
  apply Forall_cons in Hvs as [Hv Hvs]. rewrite vals_bytes_cons, <- app_assoc in Hc.
  simpl in E. rewrite (const_value_at T c pre v _ Hc Hv) in E. cbn [mbind res_bind] in E.
  pose proof (const_at_advance c pre (to_bytes T v) _ Hc) as Hc1. rewrite zlen_to_bytes in Hc1.
  destruct (IH (const_advance c (csize T)) (pre ++ to_bytes T v) rest (Z.min mn0 v) (Z.max mx0 v) mn mx Hvs) as (H1 & H2 & H3 & H4 & H5);
    [unfold in_ctype in *; lia..|exact Hc1|exact E|].
  split_and!; try done; try lia. constructor; [lia|done].
Qed.

(** Whatever the window, the value written as the minimum is one of the type. *)
Lemma window_range_in T n : ∀ c mn0 mx0 mn mx, in_ctype T mn0 → window_range T n c mn0 mx0 = Ok (mn, mx) → in_ctype T mn.
Proof.
  induction n as [|n IH]; intros c mn0 mx0 mn mx Hm E; simpl in E.
  - by injection E as <- <-.
  - destruct (const_value T c) as [v| |] eqn:Ev; [|done..]. cbn [mbind res_bind] in E.
    apply const_value_in in Ev. eapply IH; [|exact E]. unfold in_ctype in *. lia.
Qed.

Lemma compute_bits_in T c n bits mn : compute_bits_required T c n = Ok (bits, mn) →
  in_ctype U8 bits ∧ ∀ m, mn = Some m → in_ctype T m.
Proof.
  unfold compute_bits_required. destruct (window_range T n c (tmax T) (tmin T)) as [[a b]| |] eqn:Er; [|done..].
  cbn [mbind res_bind]. destruct (sub_in T b a) as [r| |]; [|done..]. cbn [mbind res_bind].
  destruct (r =? tmax T).
  - intros [= <- <-]. split; [destruct T; unfold_ctype; simpl; lia|done].
  - destruct (cadd (promote T) r 1) as [r1| |]; [|done..]. cbn [mbind res_bind]. intros [= <- <-]. split.
    + unfold_ctype. repeat case_match; simpl; lia.
    + intros m [= <-]. eapply window_range_in; [|exact Er]. destruct T; unfold_ctype; simpl; lia.
Qed.

(** A window that is compressed: the minimum, and the type of the differences. *)
Lemma compute_bits_spec T c pre vs rest bits mn : T ≠ I8 → T ≠ I16 → csize T ≠ 1 → vs ≠ [] →
  Forall (in_ctype T) vs → const_at c pre (vals_bytes T vs ++ rest) →
  compute_bits_required T c (length vs) = Ok (bits, mn) → bits < 8 * csize T →
  ∃ m N, mn = Some m ∧ narrow_type T bits = Some N ∧ csize N ≤ csize T ∧
    Forall (λ v, in_ctype N (v - m) ∧ 0 ≤ v - m ≤ tmax T) vs.
Proof.
  intros H8 H16 H1 Hne Hvs Hc E Hlt. unfold compute_bits_required in E.
  destruct (window_range T (length vs) c (tmax T) (tmin T)) as [[a b]| |] eqn:Er; [|done..]. cbn [mbind res_bind] in E.
  apply (window_range_spec T vs c pre rest) in Er as (Ha & Hb & _ & _ & Hall); try done;
    [|by destruct T; unfold_ctype; simpl; lia..].
  assert (a ≤ b) as Hab by (destruct Hall as [|v ? Hv]; [done|lia]).
  destruct (sub_in T b a) as [r| |] eqn:Es; [|done..]. cbn [mbind res_bind] in E.
  destruct (range_exact T b a r H8 H16 Hb Ha Hab Es) as [-> Hr].
  destruct (Z.eqb_spec (b - a) (tmax T)) as [|Hnm]; [injection E as <- <-; lia|].
  unfold cadd in E. rewrite arith_ok in E by (apply in_promote, tmax_promote; lia). cbn [mbind res_bind] in E.
  fold (round_bits (bits_required T (b - a + 1))) in E. injection E as <- <-.
  destruct (round_bits_bound T (b - a) H1 ltac:(lia) Hlt) as [Hbits Hpow].
  destruct (narrow_fits T _ (b - a) Hbits Hlt ltac:(lia) Hpow) as (N & HN & HcN & Hfit).
  exists a, N. split_and!; try done. eapply Forall_impl; [exact Hall|]. intros v Hv. simpl in Hv.
  split; [apply Hfit; lia|lia].
Qed.

(** ** Elements *)

Definition narrowed (T N : ctype) (m : Z) (v : Z) : Prop :=
  in_ctype T v ∧ in_ctype N (v - m) ∧ 0 ≤ v - m ≤ tmax T.

Abbreviation diffs m vs := ((λ v, v - m) <$> vs).

Lemma compress_elements_spec T N bits m vs : narrow_type T bits = Some N → Forall (narrowed T N m) vs →
  ∀ c pre rest st c' st' zs cap, const_at c pre (vals_bytes T vs ++ rest) → good st →
  writer st output_data true zs cap → zlen zs + zlen (vals_bytes N (diffs m vs)) ≤ cap →
  compress_elements T bits m (length vs) c st = (Ok c', st') →
  good st' ∧ writer st' output_data true (zs ++ vals_bytes N (diffs m vs)) cap ∧
  touch [output_data] st st' ∧ tail (fbbytes st' output_data) = tail (fbbytes st output_data) ∧
  const_at c' (pre ++ vals_bytes T vs) rest.
Proof.
  intros HN. induction 1 as [|v vs (Hv & Hd & Hr) Hvs IH]; intros c pre rest st c' st' zs cap Hc Hg Hw Hcap E.
  { simpl in E. injection E as <- <-. rewrite !app_nil_r. split_and!; done. }
  rewrite fmap_cons in *. rewrite !vals_bytes_cons in *. rewrite <- app_assoc in Hc.
  rewrite zlen_app, zlen_to_bytes in Hcap. pose proof (zlen_nonneg (vals_bytes N (diffs m vs))).
  simpl in E. rewrite (const_value_at T c pre v _ Hc Hv), lift_bind, (sub_in_exact T v m Hr), lift_bind in E.
  unfold write_compressed_value in E. rewrite HN, (conv_id N _ Hd) in E.
  destruct (write_value_spec st output_data true zs N (v - m) cap) as (st1 & E1 & G1 & T1 & W1 & B1); try done; [lia|].
  rewrite (M_bind_eq _ _ _ _ _ E1) in E.
  pose proof (const_at_advance c pre (to_bytes T v) _ Hc) as Hc1. rewrite zlen_to_bytes in Hc1.
  destruct (IH _ _ rest st1 c' st' (zs ++ to_bytes N (v - m)) cap Hc1 G1 W1) as (G2 & W2 & T2 & B2 & C2);
    [rewrite zlen_app, zlen_to_bytes; lia|done|].
  rewrite !app_assoc. split_and!; try done; [chain|congruence].
Qed.

Lemma decompress_elements_spec T N bits m vs : narrow_type T bits = Some N → Forall (narrowed T N m) vs →
  ∀ st pre y o out cap, good st → reader st input_data pre (vals_bytes N (diffs m vs) ++ y) →
  writer st output_data o out cap → zlen out + zlen (vals_bytes T vs) ≤ cap →
  ∃ st', decompress_elements T (csize T) bits m (length vs) st = (Ok (), st') ∧ good st' ∧
    reader st' input_data (pre ++ vals_bytes N (diffs m vs)) y ∧
    writer st' output_data o (out ++ vals_bytes T vs) cap ∧ touch [output_data; input_data] st st' ∧
    tail (fbbytes st' output_data) = tail (fbbytes st output_data).
Proof.
  intros HN. induction 1 as [|v vs (Hv & Hd & Hdr) Hvs IH]; intros st pre y o out cap Hg Hr Hw Hc.
  { exists st. rewrite !app_nil_r. split_and!; done. }
  rewrite fmap_cons in *. rewrite !vals_bytes_cons in *. rewrite <- app_assoc in Hr.
  rewrite zlen_app, zlen_to_bytes in Hc. pose proof (zlen_nonneg (vals_bytes T vs)).
  destruct (read_value_spec st input_data pre N (v - m) (vals_bytes N (diffs m vs) ++ y)) as (st1 & E1 & G1 & T1 & R1); try done.
  assert (writer st1 output_data o out cap) as Hw1 by frame.
  destruct (write_value_spec st1 output_data o out T v cap) as (st2 & E2 & G2 & T2 & W2 & B2); try done; [lia|].
  destruct (IH st2 (pre ++ to_bytes N (v - m)) y o (out ++ to_bytes T v) cap) as (st3 & E3 & G3 & R3 & W3 & T3 & B3);
    try done; [frame|rewrite zlen_app, zlen_to_bytes; lia|].
  exists st3. rewrite !app_assoc. split_and!; try done.
  - simpl. unfold read_compressed_value at 1. rewrite HN.
    rewrite (M_bind_eq _ _ (v - m) st st1); [|by rewrite (M_bind_eq _ _ _ _ _ E1), (conv_id T) by (by apply tmax_promote)].
    rewrite add_in_exact by (by replace (v - m + m) with v by lia). replace (v - m + m) with v by lia.
    rewrite lift_bind, slice_to_bytes.
    change (write output_data (to_bytes T v)) with (write_value output_data T v).
    by rewrite (M_bind_eq _ _ _ _ _ E2).
  - chain.
  - rewrite B3, B2. f_equal. frame.
Qed.

(** ** Windows *)

Abbreviation width_hdr T m bits win := (to_bytes T m ++ to_bytes U8 bits ++ to_bytes U32 (zlen win)).

Lemma decompress_window_spec T m bits win enc : in_ctype T m → in_ctype U8 bits → zlen win < 2 ^ 32 → win ≠ [] →
  (((8 * csize T <=? bits) || negb (zlen win mod csize T =? 0)) = true ∧ enc = win ∨
   ((8 * csize T <=? bits) || negb (zlen win mod csize T =? 0)) = false ∧ ∃ N vs, narrow_type T bits = Some N ∧
     Forall (narrowed T N m) vs ∧ win = vals_bytes T vs ∧ enc = vals_bytes N (diffs m vs)) →
  decodes (decompress_window T (csize T)) (width_hdr T m bits win) enc win.
Proof.
  intros Hv Hb Hl Hne Hcase st prem md pre y o out cap Hg Hm Hd Hw Hc. pose proof (zlen_nonneg win).
  rewrite <- !app_assoc in Hm.
  destruct (read_spec st input_metadata prem (to_bytes T m) (to_bytes U8 bits ++ to_bytes U32 (zlen win) ++ md) (csize T))
    as (st1 & E1 & G1 & T1 & R1); try done; [apply to_bytes_nonempty|by rewrite zlen_to_bytes|].
  destruct (read_value_spec st1 input_metadata (prem ++ to_bytes T m) U8 bits (to_bytes U32 (zlen win) ++ md))
    as (st2 & E2 & G2 & T2 & R2); try done.
  destruct (read_value_spec st2 input_metadata ((prem ++ to_bytes T m) ++ to_bytes U8 bits) U32 (zlen win) md)
    as (st3 & E3 & G3 & T3 & R3); try done; [unfold_ctype; lia|].
  assert (touch [input_metadata] st st3) as T03 by chain.
  assert (reader st3 input_data pre (enc ++ y)) as Hd3 by frame.
  assert (writer st3 output_data o out cap) as Hw3 by frame.
  assert (∃ st', (if (8 * csize T <=? bits) || negb (zlen win mod csize T =? 0) then copy_input (zlen win)
      else decompress_elements T (csize T) bits m (Z.to_nat (zlen win / csize T))) st3 = (Ok (), st') ∧ good st' ∧
    reader st' input_data (pre ++ enc) y ∧ writer st' output_data o (out ++ win) cap ∧
    touch [output_data; input_data] st3 st' ∧
    tail (fbbytes st' output_data) = tail (fbbytes st3 output_data)) as (st4 & E4 & G4 & R4 & W4 & T4 & B4).
  { destruct Hcase as [[-> ->]|(-> & N & vs & HN & Hvs & -> & ->)].
    - by apply copy_input_spec.
    - rewrite zlen_vals_bytes, Z.div_mul by (pose proof (csize_pos T); lia).
      unfold zlen. rewrite Nat2Z.id. by apply decompress_elements_spec. }
  exists st4. rewrite !app_assoc. split_and!; try done.
  - unfold decompress_window. rewrite (M_bind_eq _ _ _ _ _ E1), (M_bind_eq _ _ _ _ _ E2), (M_bind_eq _ _ _ _ _ E3), of_to_bytes by done.
    exact E4.
  - frame.
  - clear T1 T2 T3. chain.
  - rewrite B4. f_equal. frame.
Qed.

(** Three header fields. *)
Lemma write_width_hdr st ys T m bits n cap : good st → writer st output_metadata true ys cap →
  in_ctype T m → in_ctype U8 bits → in_ctype U32 n → zlen ys + (4 + csize T + 1) ≤ cap →
  ∃ st', (∀ A (k : M Store A), (write_value output_metadata T m;; write_value output_metadata U8 bits;;
      write_value output_metadata U32 n;; k) st = k st') ∧ good st' ∧
    writer st' output_metadata true (ys ++ to_bytes T m ++ to_bytes U8 bits ++ to_bytes U32 n) cap ∧
    touch [output_metadata] st st' ∧ tail (fbbytes st' output_metadata) = tail (fbbytes st output_metadata).
Proof.
  intros Hg Hw Hm Hb Hn Hc. pose proof (csize_pos T).
  destruct (write_value_spec st output_metadata true ys T m cap) as (st1 & E1 & G1 & T1 & W1 & B1); try done; [lia|].
  destruct (write_value_spec st1 output_metadata true (ys ++ to_bytes T m) U8 bits cap)
    as (st2 & E2 & G2 & T2 & W2 & B2); try done; [rewrite zlen_app, zlen_to_bytes; change (csize U8) with 1; lia|].
  destruct (write_value_spec st2 output_metadata true ((ys ++ to_bytes T m) ++ to_bytes U8 bits) U32 n cap)
    as (st3 & E3 & G3 & T3 & W3 & B3); try done;
    [rewrite !zlen_app, !zlen_to_bytes; change (csize U8) with 1; change (csize U32) with 4; lia|].
  exists st3. rewrite !app_assoc. split_and!; try done; [|chain|congruence].
  intros A k. by rewrite (M_bind_eq _ _ _ _ _ E1), (M_bind_eq _ _ _ _ _ E2), (M_bind_eq _ _ _ _ _ E3).
Qed.

Lemma zlen_diffs N m vs : zlen (vals_bytes N (diffs m vs)) = zlen vs * csize N.
Proof. rewrite zlen_vals_bytes. unfold zlen. by rewrite length_fmap. Qed.

Lemma compress_window_ok uninit T : T ≠ I8 → T ≠ I16 → csize T ≠ 1 → in_ctype T uninit →
  step_ok (compress_window uninit T) (decompress_window T (csize T)) (4 + csize T + 1) (λ _ _, True).
Proof.
  intros H8 H16 H1 Hu c pre win rest st c' st' ys capm zs cap Hc Hne Hl Hby Hg Hm Hw Hcm Hcap E.
  pose proof (csize_pos T). pose proof (zlen_pos win Hne). unfold compress_window in E.
  unfold mbind at 1, M_bind at 1, lift at 1 in E.
  destruct (compute_bits_required T c (Z.to_nat (zlen win / csize T))) as [[bits mn]| |] eqn:Ec; [|done..].
  pose proof (compute_bits_in T c _ bits mn Ec) as [Hb Hmn]. set (m := default uninit mn) in *.
  assert (in_ctype T m) as Hmt by (destruct mn; [by apply Hmn|done]).
  destruct (write_width_hdr st ys T m bits (zlen win) capm) as (st2 & E2 & G2 & W2 & T2 & B2); try done; [unfold_ctype; lia|].
  rewrite E2 in E. assert (writer st2 output_data true zs cap) as Hw2 by frame.
  exists (width_hdr T m bits win). rewrite !zlen_app, !zlen_to_bytes. change (csize U32) with 4. change (csize U8) with 1.
  assert (∃ enc, 0 < zlen enc ≤ zlen win ∧ decodes (decompress_window T (csize T)) (width_hdr T m bits win) enc win ∧
    good st' ∧ writer st' output_data true (zs ++ enc) cap ∧ touch [output_data] st2 st' ∧
    tail (fbbytes st' output_data) = tail (fbbytes st2 output_data) ∧ const_at c' (pre ++ win) rest)
    as (enc & Henc & Hdec & G3 & W3 & T3 & B3 & C3).
  { destruct ((8 * csize T <=? bits) || negb (zlen win mod csize T =? 0)) eqn:Ecase.
    - destruct (copy_window_spec c pre win rest st2 c' st' zs cap) as (G & W & T' & B & C); try done.
      exists win. split_and!; try done; try lia. apply decompress_window_spec; try done. by left.
    - pose proof Ecase as [Hlt%Z.leb_gt Hmod%negb_false_iff%Z.eqb_eq]%orb_false_iff.
      destruct (bytes_vals T win Hby Hmod) as (vs & -> & Hvs & Hlv). rewrite <- Hlv in E, Ec. unfold zlen in E at 1, Ec.
      rewrite Nat2Z.id in E, Ec. assert (vs ≠ []) as Hvne by (by intros ->).
      destruct (compute_bits_spec T c pre vs rest bits mn) as (m' & N & -> & HN & HcN & Hfit); try done.
      assert (Forall (narrowed T N m) vs) as Hnar.
      { apply Forall_forall. intros v Hv. rewrite Forall_forall in Hvs, Hfit.
        destruct (Hfit v Hv). split_and!; [by apply Hvs|done|unfold m; simpl; lia..]. }
      assert (0 < zlen (vals_bytes N (diffs m vs)) ≤ zlen (vals_bytes T vs)) as Hlen.
      { rewrite zlen_diffs, zlen_vals_bytes. pose proof (zlen_pos vs Hvne). pose proof (csize_pos N). nia. }
      destruct (compress_elements_spec T N bits m vs HN Hnar c pre rest st2 c' st' zs cap) as (G & W & T' & B & C);
        try done; [lia|].
      exists (vals_bytes N (diffs m vs)). split_and!; try done; try lia.
      apply decompress_window_spec; try done. right. split; [done|]. by exists N, vs. }
  exists enc. split_and!; try done; try lia.
  - frame.
  - chain.
  - rewrite <- B2. f_equal. frame.
  - rewrite B3. f_equal. frame.
Qed.

Section Alloc.
Context `{!Allocator}.
Hypothesis Hmem : ¬ out_of_memory.

Lemma bit_width_reversible t T ws md : datatype_size (tile_type t) = csize T →
  Forall (emitted (decompress_window T (csize T)) (4 + csize T + 1) (λ _ _, True)) ws → zlen (wins ws) < 2 ^ 28 →
  reversible (bit_width_reverse_t t T)
    (to_bytes U32 (zlen (wins ws)) ++ to_bytes U32 (zlen ws) ++ hdrs ws ++ md) (encs ws) md (wins ws).
Proof.
  intros Ht Hws Hlt st [Hg Hmd Hdt Hem Hout].
  destruct (zlen_encs _ _ _ _ Hws) as [Hl Hn]. pose proof (zlen_nonneg ws). pose proof (zlen_nonneg (wins ws)).
  destruct (read_value_spec st input_metadata [] U32 (zlen (wins ws)) (to_bytes U32 (zlen ws) ++ hdrs ws ++ md))
    as (st0 & E0 & G0 & T0 & R0); try done; [unfold_ctype; lia|].
  destruct (read_value_spec st0 input_metadata ([] ++ to_bytes U32 (zlen (wins ws))) U32 (zlen ws) (hdrs ws ++ md))
    as (st1 & E1 & G1 & T1' & R1); try done; [unfold_ctype; lia|].
  assert (touch [input_metadata] st st1) as T1 by chain. clear T0 T1'.
  assert (reader st1 input_data [] (encs ws)) as Hd1 by frame.
  destruct (rev_output_fb Hmem st1 (zlen (wins ws)) (zlen (wins ws))) as (st2 & st3 & o & E2 & E3 & G3 & T3 & P3 & B3);
    [done|frame|lia..|].
  assert ((if o then zlen (wins ws) else zlen (wins ws)) = zlen (wins ws)) as Ho by (by destruct o).
  rewrite Ho in P3.
  destruct (decodes_all (decompress_window T (csize T)) ws) with st3 (([] ++ to_bytes U32 (zlen (wins ws))) ++ to_bytes U32 (zlen ws)) md (@nil Z) (@nil Z) o (@nil Z)
    (zlen (wins ws)) as (st4 & E4 & G4 & R4 & _ & P4 & T4 & B4); try done.
  { eapply Forall_impl; [exact Hws|]. by intros w (_ & _ & _ & ?). }
  { frame. }
  { rewrite app_nil_r. frame. }
  destruct (rev_finish st4 ((([] ++ to_bytes U32 (zlen (wins ws))) ++ to_bytes U32 (zlen ws)) ++ hdrs ws) md (wins ws)) as (st5 & E5 & D5); try done.
  - rewrite <- Hem. transitivity (bufs st3 output_metadata); [frame|].
    transitivity (bufs st1 output_metadata); frame.
  - rewrite (writer_bytes _ _ _ _ _ P4) by (by right). by rewrite B4, B3.
  - by eapply writer_ro.
  - exists st5. split; [|done]. unfold bit_width_reverse_t. rewrite Ht.
    rewrite (M_bind_eq _ _ _ _ _ E0), (M_bind_eq _ _ _ _ _ E1).
    rewrite (M_bind_eq _ _ _ _ _ E2), (M_bind_eq _ _ _ _ _ E3).
    unfold zlen at 1. rewrite Nat2Z.id. by rewrite (M_bind_eq _ _ _ _ _ E4).
Qed.

Lemma bit_width_forward_t_ok uninit t T m st st' : T ≠ I8 → T ≠ I16 → csize T ≠ 1 → in_ctype T uninit →
  datatype_size (tile_type t) = csize T → fwd_ready st →
  bit_width_forward_t uninit T m st = (Ok (), st') → forward_ok (bit_width_reverse_t t T) st st'.
Proof.
  intros H8 H16 H1 Hu Ht Hf E. pose proof (csize_pos T). pose proof Hf as [Hg Hmp Hdp Hd Hs _ _].
  unfold bit_width_forward_t in E. pose proof (zlen_nonneg (total st input_metadata)).
  set (xs := fbbytes st input_data) in *. pose proof (zlen_nonneg (concat xs)).
  rewrite (M_bind_eq _ _ _ _ _ (size_spec st input_data Hg ltac:(fold xs; lia))) in E. fold xs in E.
  rewrite (conv_id U32) in E by (unfold_ctype; lia).
  apply (windowed_prologue Hmem T m (4 + csize T + 1)
    (λ ps N, write_value output_metadata U32 (zlen (concat xs));; write_value output_metadata U32 N;;
      for_each (bit_width_compress_part uninit T m) ps)) in E as
    (ps & st1 & Hps & Hw & HN & G1 & W1 & D1 & B1 & B1' & E1); [|done|destruct T; simpl; lia].
  fold xs in HN, W1, D1, E1, Hps, Hw. set (N := total_windows T m xs) in *.
  destruct (write_value_spec st1 output_metadata true [] U32 (zlen (concat xs)) (8 + (4 + csize T + 1) * N)) as (st2 & E2 & G2 & T2 & W2 & B2);
    try done; [change (zlen (@nil Z)) with 0; change (csize U32) with 4; nia|].
  rewrite (M_bind_eq _ _ _ _ _ E2) in E1.
  destruct (write_value_spec st2 output_metadata true ([] ++ to_bytes U32 (zlen (concat xs))) U32 N (8 + (4 + csize T + 1) * N)) as (st3 & E3 & G3 & T3 & W3 & B3);
    try done; [rewrite zlen_app, zlen_to_bytes; change (zlen (@nil Z)) with 0; change (csize U32) with 4; nia|].
  rewrite (M_bind_eq _ _ _ _ _ E3) in E1.
  assert (touch [output_metadata] st1 st3) as T13 by chain. clear T2 T3.
  assert (writer st3 output_data true [] (zlen (concat xs))) as D3 by frame.
  apply (parts_spec (compress_window uninit T) (decompress_window T (csize T)) (4 + csize T + 1) (λ _ _, True)
           (compress_window_ok uninit T H8 H16 H1 Hu) T m ps xs st3 st'
           (([] ++ to_bytes U32 (zlen (concat xs))) ++ to_bytes U32 N) (8 + (4 + csize T + 1) * N) [] (zlen (concat xs)))
    in E1 as (ws & F & W & HNw & G4 & W4 & D4 & T4 & B4 & B4'); try done.
  - assert (fbbytes st' output_metadata = ((to_bytes U32 (zlen (concat xs)) ++ to_bytes U32 N) ++ hdrs ws) :: fbbytes st input_metadata) as Bm.
    { rewrite (writer_bytes _ _ _ _ _ W4) by (by left). by rewrite B4, B3, B2, B1. }
    assert (fbbytes st' output_data = [encs ws]) as Bo.
    { rewrite (writer_bytes _ _ _ _ _ D4) by (by left). rewrite B4', <- B1'. do 2 f_equal. frame. }
    apply (forward_ok_intro _ _ _ _ _ _ G4 Bm Bo); try done.
    + pose proof (total_nonempty xs Hd Hdp) as Hp. rewrite <- W in Hp.
      destruct F as [|x ws (_ & Hx & _) _]; [done|]. rewrite fmap_cons. simpl. intros [Hnil _]%app_eq_nil.
      rewrite Hnil in Hx. change (zlen (@nil Z)) with 0 in Hx. lia.
    + by eapply writer_ro.
    + by eapply writer_ro.
    + fold xs. fold N in HNw. rewrite <- !app_assoc, <- HNw, <- W. apply bit_width_reversible; try done. rewrite W. lia.
  - lia.
  - by apply fbbytes_ok.
  - lia.
Qed.

(** The filter on every type but [INT16]. *)
Lemma bit_width_forward_ok uninit t m st st' : tile_type t ≠ INT16 →
  (∀ T, int_type (tile_type t) = Some T → in_ctype T uninit) → fwd_ready st →
  bit_width_forward uninit t m st = (Ok (), st') → forward_ok (bit_width_reverse t) st st'.
Proof.
  intros H16 Hu Hf E. unfold bit_width_forward, bit_width_reverse in *.
  destruct (bit_width_skips t) eqn:Es.
  - destruct (pass_forward_ok st Hf) as (st1 & E1 & H1). rewrite E1 in E. by injection E as <-.
  - destruct (int_type (tile_type t)) as [T|] eqn:Et; [|done].
    pose proof (int_type_size t T Et) as Hsz. unfold bit_width_skips in Es. apply orb_false_iff in Es as [_ Es%Z.eqb_neq].
    apply (bit_width_forward_t_ok uninit t T m); try done; try congruence; [| |by apply Hu].
    + intros ->. rewrite Hsz in Es. done.
    + intros ->. destruct (tile_type t); done.
Qed.
End Alloc.
