(* ===== verification/Pipeline.v ===== *)
(** * Running a filter pipeline (filter/filter_pipeline.cc)

    Each chunk of a tile goes through the filters in order, and the results
    are concatenated behind their sizes; reading splits them again and runs
    the filters backwards.  The chunks are independent: the code runs them
    with [parallel_for], the model one after the other. *)

From S2P Require Import Prelude.
From S2P Require Import Enums.
From S2P Require Import Loops.
From S2P Require Import ChunkedBuffer.
From S2P Require Import ConstBuffer.
From S2P Require Import Buffer.
From S2P Require Import Tile.
From S2P Require Import FilterBuffer.
From S2P Require Import FilterRun.
Local Open Scope Z_scope.

(** What a pipeline needs of a filter. *)
Record FilterImpl : Type := mkFilterImpl {
  run_forward : M Store unit;
  run_reverse : M Store unit
}.

Definition empty_store : Store := mkStore [] [] [] (λ _, empty_fb).

(** ** Writing *)

(** The start of every turn of the loops over the filters: "clear and reset I/O
    buffers". *)
Definition prepare_io : M Store unit :=
  reset_offset input_data;;
  set_read_only input_data true;;
  reset_offset input_metadata;;
  set_read_only input_metadata true;;
  ignore (clear output_data);;
  ignore (clear output_metadata).

(** One turn of the loop over the filters. *)
Definition forward_stage (f : FilterImpl) : M Store unit :=
  prepare_io;;
  run_forward f;;
  set_read_only input_data false;;
  ignore (swap input_data output_data);;
  set_read_only input_metadata false;;
  ignore (swap input_metadata output_metadata).

Definition forward_chunk (fs : list FilterImpl) (chunk : list Z) : M Store unit :=
  init input_data (Some chunk) (zlen chunk);;
  for_each forward_stage fs.

(** The chunks up to the first that holds nothing; [n] chunks from [i]. *)
Fixpoint count_populated (input : ChunkedBuffer.t) (n i : nat) : res nat :=
  match n with
  | O => Ok 0%nat
  | S n =>
      s ← ChunkedBuffer.internal_buffer_size input i;
      if s =? 0 then Ok 0%nat else k ← count_populated input n (S i); Ok (S k)
  end.

Definition populated_nchunks (input : ChunkedBuffer.t) : res nat :=
  let n := length (ChunkedBuffer.buffers_ input) in
  if ChunkedBuffer.size_ input =? ChunkedBuffer.capacity_ input then Ok n
  else count_populated input n 0.

(** The bytes of chunk [i] of [input], in memory [m]. *)
Definition chunk_bytes (m : Mem) (input : ChunkedBuffer.t) (i : nat) : res (list Z) :=
  p ← ChunkedBuffer.internal_buffer input i;
  n ← ChunkedBuffer.internal_buffer_size input i;
  p ← ChunkedBuffer.plus p 0;
  fst (ChunkedBuffer.mem_load p n m).

(** The body of the first [parallel_for]: the state is [final_stage_io]. *)
Definition forward_body (fs : list FilterImpl) (m : Mem) (input : ChunkedBuffer.t) (i : nat) :
    M (list Store) unit := fun ios =>
  match chunk_bytes m input i with
  | Ok x =>
      match forward_chunk fs x empty_store with
      | (Ok _, st) => (Ok (), ios ++ [st])
      | (Err c e, _) => (Err c e, ios)
      | (UB, _) => (UB, ios)
      end
  | Err c e => (Err c e, ios)
  | UB => (UB, ios)
  end.

Definition size_of (n : fbname) (st : Store) : res Z := fst (FilterBuffer.size n st).

(** The offset of each chunk in the output, and the size of all. *)
Fixpoint chunk_offsets (ios : list Store) (offset total : Z) : res (list Z * Z) :=
  match ios with
  | [] => Ok ([], total)
  | st :: ios =>
      d ← size_of input_data st;
      md ← size_of input_metadata st;
      if (tmax U32 <? d) || (tmax U32 <? md) then
        Err SC_Filter "Filter error; filtered chunk size exceeds uint32_t"
      else
        let space_required := conv U32 (12 + d + md) in
        r ← chunk_offsets ios (u64 (offset + space_required)) (u64 (total + space_required));
        Ok (offset :: r.1, r.2)
  end.

(** The body of the second [parallel_for], on the bytes [dest] from the
    chunk's offset on. *)
Definition emit_chunk (orig_chunk_size : Z) (st : Store) (dest : list Z) : res (list Z) :=
  d ← size_of input_data st;
  md ← size_of input_metadata st;
  let filtered_size := conv U32 d in
  let metadata_size := conv U32 md in
  dest ← memwrite dest 0 (to_bytes U32 orig_chunk_size);
  dest ← memwrite dest 4 (to_bytes U32 filtered_size);
  dest ← memwrite dest 8 (to_bytes U32 metadata_size);
  x ← fst (copy_to input_metadata (drop 12 dest) st);
  dest ← memwrite dest 12 x;
  let off := 12 + metadata_size in
  if zlen dest <? off then UB
  else
    y ← fst (copy_to input_data (drop (Z.to_nat off) dest) st);
    memwrite dest off y.

Definition emit_body (input : ChunkedBuffer.t) (i : nat) (st : Store) (offset : Z) : M Buffer.t unit := fun b =>
  match ChunkedBuffer.internal_buffer_size input i with
  | Ok n =>
      let d := block (data_ b) in
      if zlen d <? offset then (UB, b)
      else
        match emit_chunk n st (drop (Z.to_nat offset) d) with
        | Ok x => (Ok (), mk (alloced_size_ b) (Some (take (Z.to_nat offset) d ++ x)) (Buffer.offset_ b) (owns_data_ b) (size_ b))
        | Err c e => (Err c e, b)
        | UB => (UB, b)
        end
  | Err c e => (Err c e, b)
  | UB => (UB, b)
  end.

Definition filter_chunks_forward `{Allocator} (fs : list FilterImpl) (m : Mem) (input : ChunkedBuffer.t) :
    M Buffer.t unit :=
  populated ← lift (populated_nchunks input);
  let '(r, ios) := parallel_for (forward_body fs m input <$> seq 0 populated) [] in
  lift r;;
  o ← lift (chunk_offsets ios 8 0);
  let '(offsets, total_processed_size) := o in
  Buffer.realloc (u64 (8 + total_processed_size));;
  Buffer.write (to_bytes U64 (Z.of_nat populated));;
  parallel_for (imap (λ i p, emit_body input i p.1 p.2) (zip ios offsets));;
  Buffer.advance_offset total_processed_size;;
  Buffer.advance_size total_processed_size.

(** ** Reading *)

(** A chunk of the filtered buffer: the bytes from its metadata on, its sizes,
    and whether the query does not need it. *)
Record FilteredChunk : Type := mkFilteredChunk {
  chunk_data : list Z;
  filtered_chunk_len : Z;
  orig_chunk_len : Z;
  metadata_len : Z;
  skip : bool
}.

(** The buffer of the fixed allocation of [output_data], and what its memory
    holds later. *)
Definition fixed_buffer : M Store nat := fun st =>
  match buffers_ (bufs st output_data) with [s] => (Ok (underlying_buffer s), st) | _ => (UB, st) end.

Definition fixed_contents (id : nat) : M Store (list Z) := fun st =>
  match heap st !! id with Some b => (Ok (block (data_ b)), st) | None => (UB, st) end.

(** The filters from the last to the first; [dest] is the memory of the output
    chunk, and the result what the last turn leaves in it. *)
Fixpoint reverse_stages (fs : list FilterImpl) (dest : list Z) (orig_chunk_len : Z) : M Store (list Z) :=
  match fs with
  | [] => lift UB
  | f :: fs =>
      prepare_io;;
      match fs with
      | [] =>
          set_fixed_allocation output_data (Some dest) orig_chunk_len;;
          id ← fixed_buffer;
          run_reverse f;;
          set_read_only input_data false;;
          set_read_only input_metadata false;;
          fixed_contents id
      | _ :: _ =>
          run_reverse f;;
          set_read_only input_data false;;
          set_read_only input_metadata false;;
          ignore (swap input_data output_data);;
          ignore (swap input_metadata output_metadata);;
          reverse_stages fs dest orig_chunk_len
      end
  end.

(** A filtered chunk through the whole pipeline. *)
Definition reverse_chunk (fs : list FilterImpl) (c : FilteredChunk) (dest : list Z) : M Store (list Z) :=
  md ← lift (memread (chunk_data c) 0 (metadata_len c));
  d ← lift (memread (chunk_data c) (metadata_len c) (filtered_chunk_len c));
  init input_metadata (Some md) (metadata_len c);;
  init input_data (Some d) (filtered_chunk_len c);;
  match fs with
  | [] => copy_to input_data dest
  | _ => reverse_stages (reverse fs) dest (orig_chunk_len c)
  end.

(** The body of the [parallel_for]: the memory of chunk [i] of the output. *)
Definition reverse_body `{Allocator} (fs : list FilterImpl) (unfiltering_all : bool) (c : FilteredChunk) (i : nat) :
    M (Mem * ChunkedBuffer.t) unit :=
  if skip c then lift (massert (negb unfiltering_all))
  else
    p ← (if unfiltering_all then o ← ChunkedBuffer.this; lift (ChunkedBuffer.internal_buffer o i)
         else ChunkedBuffer.alloc_discrete i);
    p ← lift (ChunkedBuffer.plus p 0);
    dest ← on_fst (ChunkedBuffer.mem_load p (orig_chunk_len c));
    x ← lift (fst (reverse_chunk fs c dest empty_store));
    on_fst (ChunkedBuffer.mem_store p x).

(** The common size of the chunks, or -1; and the size of all. *)
Fixpoint common_size (l : list Z) (first : bool) (chunk_size total : Z) : Z * Z :=
  match l with
  | [] => (chunk_size, total)
  | n :: l =>
      let chunk_size := if first then n else if n =? chunk_size then chunk_size else -1 in
      common_size l false chunk_size (u64 (total + n))
  end.

Definition filter_chunks_reverse `{Allocator} (fs : list FilterImpl) (input : list FilteredChunk)
    (unfiltering_all : bool) : M (Mem * ChunkedBuffer.t) unit :=
  let sizes := orig_chunk_len <$> input in
  let '(chunk_size, total_size) := common_size sizes true 0 0 in
  let addressing := if unfiltering_all then CONTIGUOUS else DISCRETE in
  on_snd (if chunk_size =? -1 then ChunkedBuffer.init_var_size addressing sizes
          else ChunkedBuffer.init_fixed_size addressing total_size chunk_size);;
  (if unfiltering_all then
     p ← on_fst (ChunkedBuffer.mem_malloc total_size);
     match p with
     | None => fail SC_Filter "malloc() failed"
     | Some _ => ignore (on_snd (ChunkedBuffer.set_contiguous p))
     end
   else mret ());;
  parallel_for (imap (λ i c, reverse_body fs unfiltering_all c i) input);;
  o ← ChunkedBuffer.this;
  on_snd (ChunkedBuffer.set_size (ChunkedBuffer.capacity_ o)).

(** *** Chunks that a query does not need *)

(** The cell ranges of the query that are still to be met, [(start, end)] with
    [end] exclusive; the rest of the list is where [cs_it] points. *)
Fixpoint skip_chunk_reversal_common (chunk_cell_start chunk_cell_end : Z) (cs : list (Z * Z)) : bool * list (Z * Z) :=
  match cs with
  | [] => (true, [])
  | (first, second) :: cs' =>
      let cs_start := first in
      let cs_end := u64 (second - 1) in
      if chunk_cell_end <? cs_start then (true, cs)
      else if chunk_cell_start <=? cs_end then (false, cs)
      else skip_chunk_reversal_common chunk_cell_start chunk_cell_end cs'
  end.

(** The state: [cells_processed] and the ranges. *)
Definition skip_chunk_reversal_fixed (no_filters : bool) (cell_size chunk_length : Z) :
    M (Z * list (Z * Z)) bool := fun '(cells_processed, cs) =>
  if no_filters then (Ok false, (cells_processed, cs))
  else if cell_size =? 0 then (UB, (cells_processed, cs))
  else if negb (chunk_length mod cell_size =? 0) || (chunk_length <? cell_size) then (UB, (cells_processed, cs))
  else
    let n := chunk_length / cell_size in
    let chunk_cell_start := cells_processed in
    let chunk_cell_end := u64 (chunk_cell_start + n - 1) in
    let '(b, cs') := skip_chunk_reversal_common chunk_cell_start chunk_cell_end cs in
    (Ok b, (u64 (cells_processed + n), cs')).

(** The loop that counts the cells of a chunk: [d_off] is what follows the
    first [cells_processed + 1] offsets. *)
Fixpoint count_cells (d_off : list Z) (chunk_length cells_size_processed total_cells total_cell_size : Z) : Z * Z :=
  if total_cell_size <? chunk_length then
    match d_off with
    | [] => (total_cells + 1, chunk_length)
    | offset :: d_off =>
        count_cells d_off chunk_length cells_size_processed (total_cells + 1) (u64 (offset - cells_size_processed))
    end
  else (total_cells, total_cell_size).

(** The state: [cells_processed], [cells_size_processed] and the ranges. *)
Definition skip_chunk_reversal_var (no_filters : bool) (d_off : list Z) (chunk_length : Z) :
    M (Z * Z * list (Z * Z)) bool := fun '(cells_processed, cells_size_processed, cs) =>
  if no_filters then (Ok false, (cells_processed, cells_size_processed, cs))
  else if cells_processed =? zlen d_off then
    let c := u64 (cells_processed - 1) in
    let '(b, cs') := skip_chunk_reversal_common c c cs in
    (Ok b, (cells_processed, cells_size_processed, cs'))
  else
    let '(total_cells, total_cell_size) :=
      count_cells (drop (Z.to_nat (cells_processed + 1)) d_off) chunk_length cells_size_processed 0 0 in
    let overflow := chunk_length <? total_cell_size in
    let chunk_cell_end := u64 (cells_processed + total_cells - 1) in
    let '(b, cs') := skip_chunk_reversal_common cells_processed chunk_cell_end cs in
    (Ok b, (u64 (cells_processed + total_cells + (if overflow then -1 else 0)),
            u64 (cells_size_processed + chunk_length), cs')).

(** *** The filtered buffer of a tile *)

(** The loop over the chunks; [skip_fn] has its own state [S]. *)
Fixpoint read_chunk_headers {S} (skip_fn : option (Z → M S bool)) (n : nat) (unfiltering_all : bool) :
    M (Buffer.t * S) (list FilteredChunk * bool) :=
  match n with
  | O => mret ([], unfiltering_all)
  | Datatypes.S n =>
      x ← on_fst (Buffer.read 4); let orig_chunk_size := of_bytes U32 x in
      x ← on_fst (Buffer.read 4); let filtered_chunk_size := of_bytes U32 x in
      x ← on_fst (Buffer.read 4); let metadata_size := of_bytes U32 x in
      skip ← match skip_fn with Some f => on_snd (f orig_chunk_size) | None => mret false end;
      b ← on_fst get;
      let c := mkFilteredChunk (drop (Z.to_nat (Buffer.offset_ b)) (block (data_ b)))
                 filtered_chunk_size orig_chunk_size metadata_size skip in
      on_fst (Buffer.advance_offset (conv U32 (metadata_size + filtered_chunk_size)));;
      r ← read_chunk_headers skip_fn n (unfiltering_all && negb skip);
      mret (c :: r.1, r.2)
  end.

(** The chunks of a filtered buffer. *)
Definition read_chunks {S} (skip_fn : option (Z → M S bool)) : M (Buffer.t * S) (list FilteredChunk * bool) :=
  on_fst Buffer.reset_offset;;
  x ← on_fst (Buffer.read 8);
  r ← read_chunk_headers skip_fn (Z.to_nat (of_bytes U64 x)) true;
  b ← on_fst get;
  lift (massert (Buffer.offset_ b =? size_ b));;
  mret r.

Definition on_filtered {A} (op : M Buffer.t A) : M (Mem * Tile) A := fun '(m, t) =>
  let '(r, b) := op (filtered_buffer_ t) in (r, (m, with_filtered t b)).

(** [using_compression]: whether one of the filters is a [CompressionFilter]. *)
Definition run_reverse_internal `{Allocator} {S} (fs : list FilterImpl) (using_compression : bool)
    (skip_fn : option (Z → M S bool)) (s0 : S) : M (Mem * Tile) unit :=
  t ← the_tile;
  match chunked_buffer_ t with
  | None => lift UB
  | Some c =>
      lift (massert (ChunkedBuffer.capacity_ c =? 0));;
      r ← on_filtered (fun b => let '(r, (b', _)) := read_chunks skip_fn (b, s0) in (r, b'));
      let '(chunks, unfiltering_all) := r in
      (fun s => match on_chunks (filter_chunks_reverse fs chunks unfiltering_all) s with
                | (Ok _, s) => (Ok (), s)
                | (Err c e, s) => (on_chunks ChunkedBuffer.free;; fail c e) s
                | (UB, s) => (UB, s)
                end);;
      on_filtered Buffer.clear;;
      if (0 <? dim_num_ t) && ((1 <? format_version_ t) || using_compression) then zip_coordinates
      else mret ()
  end.

(** [run_forward] of a tile. *)
Definition run_forward_tile `{Allocator} (fs : list FilterImpl) : M (Mem * Tile) unit :=
  t ← the_tile;
  match chunked_buffer_ t with
  | None => lift UB
  | Some c =>
      lift (Tile.size t);;
      (fun '(m, t) => match on_filtered (filter_chunks_forward fs m c) (m, t) with
                | (Ok _, s) => (Ok (), s)
                | (Err c e, s) => (on_filtered Buffer.clear;; fail c e) s
                | (UB, s) => (UB, s)
                end);;
      on_chunks ChunkedBuffer.free
  end.

(** [run_reverse] of a tile, for the cell ranges of a query. *)
Definition run_reverse_fixed `{Allocator} (fs : list FilterImpl) (using_compression : bool)
    (ranges : option (list (Z * Z))) : M (Mem * Tile) unit :=
  t ← the_tile;
  f ← lift (filtered t);
  lift (massert f);;
  match ranges with
  | None => run_reverse_internal fs using_compression (None : option (Z → M unit bool)) ()
  | Some cs =>
      run_reverse_internal fs using_compression
        (Some (skip_chunk_reversal_fixed (bool_decide (length fs = 0)%nat) (cell_size_ t))) (0, cs)
  end.

(** [run_reverse] of a tile of variable-sized values: [d_off] is the contents
    of the unfiltered tile of offsets. *)
Definition run_reverse_var `{Allocator} (fs : list FilterImpl) (using_compression : bool) (d_off : list Z)
    (ranges : option (list (Z * Z))) : M (Mem * Tile) unit :=
  t ← the_tile;
  f ← lift (filtered t);
  lift (massert f);;
  match ranges with
  | None => run_reverse_internal fs using_compression (None : option (Z → M unit bool)) ()
  | Some cs =>
      lift (match d_off with 0 :: _ => Ok () | _ => UB end);;
      run_reverse_internal fs using_compression
        (Some (skip_chunk_reversal_var (bool_decide (length fs = 0)%nat) d_off)) (0, 0, cs)
  end.
