(* ===== verification/PipelineProofs.v ===== *)
(** * A chunk through the pipeline and back

    Proved against what a pipeline needs of its filters, [lossless]; the
    filters discharge it in FilterShuffle, FilterDelta, FilterWidth and the
    files after them. *)

From S2P Require Import Prelude.
From S2P Require Import ConstBuffer.
From S2P Require Import Buffer.
From S2P Require Import FilterBuffer.
From S2P Require Import FilterIO.
From S2P Require Import FilterWrite.
From S2P Require Import FilterViews.
From S2P Require Import FilterRun.
From S2P Require Import FilterSpec.
From S2P Require Import Pipeline.
Local Open Scope Z_scope.

(** An operation that leaves the memory of a fixed allocation in place: the
    buffer of [output_data], and the size of memory that is not owned. *)
Definition fixed_stable {A} (m : M Store A) : Prop := ∀ st r st', m st = (r, st') →
  fixed_allocation_data_ (bufs st output_data) = true →
  (fixed_allocation_data_ (bufs st' output_data) = true ∧
   buffers_ (bufs st' output_data) = buffers_ (bufs st output_data)) ∧
  ∀ id b, heap st !! id = Some b → owns_data_ b = false →
    ∃ b', heap st' !! id = Some b' ∧ owns_data_ b' = false ∧ zlen (block (data_ b')) = zlen (block (data_ b)).

Definition fixed_filter (f : FilterImpl) : Prop := fixed_stable (run_reverse f).

(** A filter of a pipeline, with what its code can take: the parts of the
    metadata and of the data on which it loses nothing. *)
Record Stage : Type := mkStage {
  impl :> FilterImpl;
  accepts : list (list Z) → list (list Z) → bool
}.

(** What a pipeline needs of a filter. *)
Record lossless (s : Stage) : Prop := {
  lossless_forward : ∀ st st', fwd_ready st → accepts s (fbbytes st input_metadata) (fbbytes st input_data) = true →
    run_forward s st = (Ok (), st') → forward_ok (run_reverse s) st st';
  lossless_fixed : fixed_filter s
}.

Lemma ignore_bind {A B} (m : M Store A) (k : M Store B) a st st' : m st = (Ok a, st') → (ignore m;; k) st = k st'.
Proof. intros E. unfold mbind, M_bind, ignore. by rewrite E. Qed.

Lemma set_read_only_spec st n v : good st → ∃ st', set_read_only n v st = (Ok (), st') ∧ good st' ∧
  touch [n] st st' ∧ fbbytes st' n = fbbytes st n ∧ bufs st' n = with_read_only (bufs st n) v.
Proof.
  intros Hg. unfold set_read_only. rewrite fb_bind. eexists. split; [done|].
  destruct (upd_fb st n (with_read_only (bufs st n) v) Hg eq_refl) as (? & ? & ?).
  split_and!; try done. by rewrite bufs_with_fb.
Qed.

(** The input buffers at their start, the output buffers empty. *)
Definition rewound (f : FilterBuffer) : FilterBuffer := with_read_only (with_fb_offset (with_cursor f 0 0) 0) true.

Lemma prepare_spec st : good st → read_only_ (bufs st output_data) = false → read_only_ (bufs st output_metadata) = false →
  ∃ st', prepare_io st = (Ok (), st') ∧ good st' ∧ bufs st' output_data = empty_fb ∧ bufs st' output_metadata = empty_fb ∧
    fbbytes st' input_data = fbbytes st input_data ∧ fbbytes st' input_metadata = fbbytes st input_metadata ∧
    bufs st' input_data = rewound (bufs st input_data) ∧ bufs st' input_metadata = rewound (bufs st input_metadata).
Proof.
  intros Hg Hd Hm.
  destruct (reset_offset_spec st input_data Hg) as (s1 & E1 & G1 & T1 & B1 & F1).
  destruct (set_read_only_spec s1 input_data true G1) as (s2 & E2 & G2 & T2 & B2 & F2).
  destruct (reset_offset_spec s2 input_metadata G2) as (s3 & E3 & G3 & T3 & B3 & F3).
  destruct (set_read_only_spec s3 input_metadata true G3) as (s4 & E4 & G4 & T4 & B4 & F4).
  assert (touch [input_data] st s2) as T12 by chain. assert (touch [input_metadata] s2 s4) as T34 by chain.
  clear T1 T2 T3 T4. assert (touch [input_data; input_metadata] st s4) as T14 by chain.
  assert (bufs s4 output_data = bufs st output_data) as O1 by frame.
  assert (bufs s4 output_metadata = bufs st output_metadata) as O2 by frame.
  destruct (clear_spec s4 output_data G4) as (s5 & E5 & G5 & T5 & C5); [by rewrite O1|].
  assert (bufs s5 output_metadata = bufs s4 output_metadata) as O3 by frame.
  destruct (clear_spec s5 output_metadata G5) as (s6 & E6 & G6 & T6 & C6); [by rewrite O3, O2|].
  assert (touch [output_data; output_metadata] s4 s6) as T46 by chain.
  exists s6. split_and!; try done.
  - unfold prepare_io. rewrite (M_bind_eq _ _ _ _ _ E1), (M_bind_eq _ _ _ _ _ E2), (M_bind_eq _ _ _ _ _ E3),
      (M_bind_eq _ _ _ _ _ E4), (ignore_bind _ _ _ _ _ E5). unfold ignore. by rewrite E6.
  - rewrite <- C5. frame.
  - rewrite <- B1, <- B2. transitivity (fbbytes s4 input_data); frame.
  - rewrite <- (touch_bytes _ _ _ input_metadata T12) by nin. rewrite <- B3, <- B4. frame.
  - transitivity (bufs s4 input_data); [frame|]. transitivity (bufs s2 input_data); [frame|]. by rewrite F2, F1.
  - transitivity (bufs s4 input_metadata); [frame|]. rewrite F4, F3. unfold rewound. do 3 f_equal. frame.
Qed.

(** The end of a turn: the outputs become the inputs of the next. *)
Record exchanged (st st' : Store) : Prop := {
  ex_good : good st';
  ex_data : fbbytes st' input_data = fbbytes st output_data;
  ex_md : fbbytes st' input_metadata = fbbytes st output_metadata;
  ex_data_buf : bufs st' input_data = bufs st output_data;
  ex_md_buf : bufs st' input_metadata = bufs st output_metadata;
  ex_ro : read_only_ (bufs st' output_data) = false ∧ read_only_ (bufs st' output_metadata) = false
}.

(** Four steps, each on one side or the other of the exchange. *)
Lemma exchanged_intro st s1 s2 s3 s4 : good s4 →
  touch [input_data; output_data] st s1 → touch [input_data; output_data] s2 s3 →
  touch [input_metadata; output_metadata] s1 s2 → touch [input_metadata; output_metadata] s3 s4 →
  fbbytes s3 input_data = fbbytes st output_data → bufs s3 input_data = bufs st output_data →
  fbbytes s4 input_metadata = fbbytes st output_metadata → bufs s4 input_metadata = bufs st output_metadata →
  read_only_ (bufs s3 output_data) = false → read_only_ (bufs s4 output_metadata) = false → exchanged st s4.
Proof.
  intros G T1 T2 T3 T4 H1 H2 H3 H4 H5 H6. split; try done.
  - rewrite <- H1. frame.
  - rewrite <- H2. frame.
  - split; [|done]. rewrite <- H5. f_equal. frame.
Qed.

Lemma exchange_spec st : good st → read_only_ (bufs st output_data) = false → read_only_ (bufs st output_metadata) = false →
  ∃ st', (set_read_only input_data false;; ignore (swap input_data output_data);;
          set_read_only input_metadata false;; ignore (swap input_metadata output_metadata)) st = (Ok (), st') ∧
    exchanged st st'.
Proof.
  intros Hg Hd Hm.
  destruct (set_read_only_spec st input_data false Hg) as (s1 & E1 & G1 & T1 & B1 & F1).
  assert (bufs s1 output_data = bufs st output_data) as O1 by frame.
  destruct (swap_spec s1 input_data output_data G1) as (s2 & E2 & G2 & T2 & P2 & Q2 & R2 & S2);
    [done|by rewrite F1|by rewrite O1|].
  assert (touch [input_data; output_data] st s2) as T12 by chain. clear T2.
  destruct (set_read_only_spec s2 input_metadata false G2) as (s3 & E3 & G3 & T3 & B3 & F3).
  assert (bufs s3 output_metadata = bufs st output_metadata) as O3 by (transitivity (bufs s2 output_metadata); frame).
  destruct (swap_spec s3 input_metadata output_metadata G3) as (s4 & E4 & G4 & T4 & P4 & Q4 & R4 & S4);
    [done|by rewrite F3|by rewrite O3|].
  assert (touch [input_metadata; output_metadata] s2 s4) as T34 by chain.
  exists s4. split.
  - rewrite (M_bind_eq _ _ _ _ _ E1), (ignore_bind _ _ _ _ _ E2), (M_bind_eq _ _ _ _ _ E3). unfold ignore. by rewrite E4.
  - apply (exchanged_intro st s2 s2 s2 s4); try done; try apply touch_refl.
    + rewrite R2. frame.
    + by rewrite P2.
    + rewrite R4. transitivity (fbbytes s2 output_metadata); frame.
    + by rewrite P4.
    + by rewrite Q2, F1.
    + by rewrite Q4, F3.
Qed.

Lemma exchange_spec' st : good st → read_only_ (bufs st output_data) = false → read_only_ (bufs st output_metadata) = false →
  ∃ st', (∀ A (k : M Store A), (set_read_only input_data false;; set_read_only input_metadata false;;
          ignore (swap input_data output_data);; ignore (swap input_metadata output_metadata);; k) st = k st') ∧
    exchanged st st'.
Proof.
  intros Hg Hd Hm.
  destruct (set_read_only_spec st input_data false Hg) as (s1 & E1 & G1 & T1 & B1 & F1).
  destruct (set_read_only_spec s1 input_metadata false G1) as (s2 & E2 & G2 & T2 & B2 & F2).
  assert (bufs s2 output_data = bufs st output_data) as O1 by (transitivity (bufs s1 output_data); frame).
  assert (bufs s2 input_data = with_read_only (bufs st input_data) false) as I2 by (rewrite <- F1; frame).
  destruct (swap_spec s2 input_data output_data G2) as (s3 & E3 & G3 & T3 & P3 & Q3 & R3 & S3);
    [done|by rewrite I2|by rewrite O1|].
  assert (bufs s3 output_metadata = bufs st output_metadata) as O3.
  { transitivity (bufs s2 output_metadata); [frame|]. transitivity (bufs s1 output_metadata); frame. }
  assert (bufs s3 input_metadata = with_read_only (bufs s1 input_metadata) false) as I3 by (rewrite <- F2; frame).
  destruct (swap_spec s3 input_metadata output_metadata G3) as (s4 & E4 & G4 & T4 & P4 & Q4 & R4 & S4);
    [done|by rewrite I3|by rewrite O3|].
  exists s4. split.
  - intros A k. by rewrite (M_bind_eq _ _ _ _ _ E1), (M_bind_eq _ _ _ _ _ E2), (ignore_bind _ _ _ _ _ E3), (ignore_bind _ _ _ _ _ E4).
  - apply (exchanged_intro st s1 s2 s3 s4); try done.
    + chain.
    + chain.
    + rewrite R3. transitivity (fbbytes s1 output_data); frame.
    + by rewrite P3.
    + rewrite R4. transitivity (fbbytes s2 output_metadata); [frame|]. transitivity (fbbytes s1 output_metadata); frame.
    + by rewrite P4.
    + by rewrite Q3, I2.
    + by rewrite Q4, I3.
Qed.

(** ** Forward *)

(** The state between two filters. *)
Record carried (st : Store) : Prop := {
  car_good : good st;
  car_md_parts : Forall (.≠ []) (fbbytes st input_metadata);
  car_data_parts : Forall (.≠ []) (fbbytes st input_data);
  car_data : fbbytes st input_data ≠ [];
  car_ro : read_only_ (bufs st output_data) = false ∧ read_only_ (bufs st output_metadata) = false
}.

(** The size of what one filter hands to the next. *)
Definition small (st : Store) : bool :=
  zlen (total st input_metadata) + zlen (total st input_data) <? 2 ^ 28.

(** Every filter accepts its input, and all inputs and the last output are
    [small]. *)
Fixpoint admits (ss : list Stage) (st : Store) : bool :=
  small st &&
  match ss with
  | [] => true
  | s :: ss =>
      accepts s (fbbytes st input_metadata) (fbbytes st input_data) &&
      match forward_stage s st with (Ok _, st') => admits ss st' | _ => true end
  end.

(** [fs], from the last filter to the first, undo their work. *)
Fixpoint undoes (fs : list FilterImpl) (md' d' md d : list Z) : Prop :=
  match fs with
  | [] => md' = md ∧ d' = d
  | f :: fs => ∃ md1 d1, reversible (run_reverse f) md' d' md1 d1 ∧ undoes fs md1 d1 md d
  end.

Lemma forward_stage_spec (f : Stage) st st' : lossless f → carried st → small st = true →
  accepts f (fbbytes st input_metadata) (fbbytes st input_data) = true → forward_stage f st = (Ok (), st') →
  carried st' ∧ reversible (run_reverse f) (total st' input_metadata) (total st' input_data)
                  (total st input_metadata) (total st input_data).
Proof.
  intros Hf [Hg Hmp Hdp Hd [Hr1 Hr2]] Hs Ha E. apply Z.ltb_lt in Hs.
  destruct (prepare_spec st Hg Hr1 Hr2) as (s1 & E1 & G1 & O1 & O2 & B1 & B2 & _ & _).
  unfold forward_stage in E. rewrite (M_bind_eq _ _ _ _ _ E1) in E.
  unfold mbind at 1, M_bind at 1 in E. destruct (run_forward f s1) as [[[]| |] s2] eqn:E2; [|done..].
  destruct (lossless_forward f Hf s1 s2) as [G2 P1 P2 P3 [R1 R2] Hrev]; [|by rewrite B1, B2|done|].
  { split; rewrite ?B1, ?B2; done. }
  destruct (exchange_spec s2 G2 R2 R1) as (s3 & E3 & [G3 X1 X2 X3 X4 X5]). rewrite E3 in E. injection E as <-.
  rewrite X1, X2. rewrite B1, B2 in Hrev. split; [|done]. split; rewrite ?X1, ?X2; done.
Qed.

Lemma forward_stages_spec (ss : list Stage) : ∀ st st' l md d, Forall lossless ss → carried st → admits ss st = true →
  for_each forward_stage (impl <$> ss) st = (Ok (), st') →
  undoes l (total st input_metadata) (total st input_data) md d →
  carried st' ∧ small st' = true ∧
    undoes (reverse (impl <$> ss) ++ l) (total st' input_metadata) (total st' input_data) md d.
Proof.
  induction ss as [|f ss IH]; intros st st' l md d Hfs Hc Hs E Hl.
  { simpl in *. injection E as <-. apply andb_prop in Hs as [Hs _]. done. }
  apply Forall_cons in Hfs as [Hf Hfs]. simpl in Hs. apply andb_prop in Hs as [Hs1 [Ha Hs2]%andb_prop].
  simpl in E. unfold mbind at 1, M_bind at 1 in E.
  destruct (forward_stage f st) as [[[]| |] s1] eqn:E1; [|done..].
  destruct (forward_stage_spec f st s1 Hf Hc Hs1 Ha E1) as [Hc1 Hrev].
  destruct (IH s1 st' ((f : FilterImpl) :: l) md d Hfs Hc1 Hs2 E) as (H1 & H2 & H3); [by eexists _, _|].
  split_and!; try done. by rewrite fmap_cons, reverse_cons, <- app_assoc.
Qed.

Lemma empty_store_good : good empty_store.
Proof.
  split; simpl; try done; try (apply NoDup_nil_2); try (intros id Hid; by apply not_elem_of_nil in Hid).
Qed.

Lemma init_store x st : bufs st input_data = empty_fb → bufs st output_data = empty_fb →
  bufs st output_metadata = empty_fb → good st → Forall byte_ok x → zlen x < 2 ^ 63 →
  ∃ st', init input_data (Some x) (zlen x) st = (Ok (), st') ∧ good st' ∧ fbbytes st' input_data = [x] ∧
    fbbytes st' input_metadata = fbbytes st input_metadata ∧
    bufs st' output_data = empty_fb ∧ bufs st' output_metadata = empty_fb.
Proof.
  intros H1 H2 H3 Hg Hx Hl. destruct (init_spec st input_data x Hg) as (st' & id & b & E & G & T & _ & _ & B & _);
    [by rewrite H1|by rewrite H1|done..|].
  exists st'. split_and!; try done; [frame|rewrite <- H2; frame|rewrite <- H3; frame].
Qed.

Lemma forward_chunk_spec (ss : list Stage) x st' : Forall lossless ss → x ≠ [] → Forall byte_ok x → zlen x < 2 ^ 63 →
  (∀ st, init input_data (Some x) (zlen x) empty_store = (Ok (), st) → admits ss st = true) →
  forward_chunk (impl <$> ss) x empty_store = (Ok (), st') →
  carried st' ∧ small st' = true ∧ undoes (reverse (impl <$> ss)) (total st' input_metadata) (total st' input_data) [] x.
Proof.
  intros Hfs Hx Hb Hl Hs E. destruct (init_store x empty_store) as (s1 & E1 & G1 & B1 & B2 & O1 & O2);
    try done; [apply empty_store_good|].
  unfold forward_chunk in E. rewrite (M_bind_eq _ _ _ _ _ E1) in E.
  apply (forward_stages_spec ss s1 st' [] [] x) in E; try done.
  - by rewrite app_nil_r in E.
  - split; [done|rewrite B2; constructor|rewrite B1; by repeat constructor|by rewrite B1|by rewrite O1, O2].
  - by apply Hs.
  - simpl. rewrite B1, B2. simpl. by rewrite app_nil_r.
Qed.

(** ** Reverse *)

(** The inputs of a filter that is to be undone. *)
Record loaded (st : Store) (md d : list Z) : Prop := {
  load_good : good st;
  load_data : fbbytes st input_data = [d];
  load_md : fbbytes st input_metadata = [md] ∨ fbbytes st input_metadata = [] ∧ md = [];
  load_ro : read_only_ (bufs st output_data) = false ∧ read_only_ (bufs st output_metadata) = false
}.

Lemma reader_rewound st st' n x : fbbytes st' n = [x] → bufs st' n = rewound (bufs st n) → reader st' n [] x.
Proof.
  intros Hb Hf. unfold reader. rewrite Hf. simpl. split; [done|]. unfold fbbytes in *. rewrite Hf in Hb. simpl in Hb.
  destruct (buffers_ (bufs st n)) as [|s [|s' l]] eqn:El; [done| |done].
  split; [rewrite Hf; simpl; by rewrite El|]. by left.
Qed.

Lemma reader_none st st' n : fbbytes st' n = [] → bufs st' n = rewound (bufs st n) → reader st' n [] [].
Proof.
  intros Hb Hf. unfold reader. rewrite Hf. simpl. split; [done|]. unfold fbbytes in *. rewrite Hf in Hb. simpl in Hb.
  by destruct (buffers_ (bufs st n)) as [|s l].
Qed.

Lemma prepare_loaded st md d : loaded st md d →
  ∃ st', prepare_io st = (Ok (), st') ∧ good st' ∧ reader st' input_metadata [] md ∧ reader st' input_data [] d ∧
    bufs st' output_metadata = empty_fb ∧ bufs st' output_data = empty_fb.
Proof.
  intros [Hg Hd Hm [Hr1 Hr2]].
  destruct (prepare_spec st Hg Hr1 Hr2) as (s1 & E1 & G1 & O1 & O2 & B1 & B2 & F1 & F2).
  exists s1. split_and!; try done.
  - destruct Hm as [Hm|[Hm ->]]; [eapply reader_rewound|eapply reader_none]; try exact F2; congruence.
  - eapply reader_rewound; [|exact F1]. congruence.
Qed.

Lemma set_fixed_spec st x : good st → bufs st output_data = empty_fb → Forall byte_ok x → zlen x < 2 ^ 63 →
  ∃ st' id, set_fixed_allocation output_data (Some x) (zlen x) st = (Ok (), st') ∧ good st' ∧
    touch [output_data] st st' ∧ out_ready st' output_data (zlen x) ∧ buffers_ (bufs st' output_data) = [Own id] ∧
    fixed_allocation_data_ (bufs st' output_data) = true ∧ heap st' !! id = Some (Buffer.make (Some x) (zlen x)).
Proof.
  intros Hg He Hx Hl. destruct (init_spec st output_data x Hg) as (s1 & id & b & E1 & G1 & T1 & Ow & -> & B1 & F1);
    [by rewrite He|by rewrite He|done..|].
  set (f := with_fixed (bufs s1 output_data) true true).
  destruct (owner_fb s1 output_data id _ [] f G1 Ow) as (G2 & T2 & O2 & B2); [done|by unfold f; rewrite F1|].
  exists (with_fb s1 output_data f), id. split_and!; try done.
  - unfold set_fixed_allocation. rewrite fb_bind, He. simpl. by rewrite (M_bind_eq _ _ _ _ _ E1).
  - chain.
  - assert (read_only_ f = false) as Hro by (unfold f; by rewrite F1).
    unfold out_ready. rewrite bufs_with_fb. split; [done|]. right. split_and!; try done.
    by exists id, (Buffer.make (Some x) (zlen x)).
  - rewrite bufs_with_fb. unfold f. by rewrite F1.
  - by destruct O2 as (_ & _ & ? & _).
Qed.

Lemma whole_block (l x : list Z) n : slice 0 n l = x → zlen x = zlen l → l = x.
Proof.
  unfold slice, zlen. rewrite drop_0. intros <- Hl. rewrite length_take in Hl. rewrite take_ge; [done|lia].
Qed.

(** The last turn writes to the memory of the output. *)
Lemma last_stage f st md d x dest : fixed_filter f → loaded st md d → reversible (run_reverse f) md d [] x →
  Forall byte_ok dest → zlen dest = zlen x → zlen x < 2 ^ 63 →
  ∃ st', reverse_stages [f] dest (zlen x) st = (Ok x, st').
Proof.
  intros Hf Hld Hrev Hb Hl Hx. destruct (prepare_loaded st md d Hld) as (s1 & E1 & G1 & R1 & R2 & O1 & O2).
  destruct (set_fixed_spec s1 dest G1 O2 Hb) as (s2 & id & E2 & G2 & T2 & Or & Bf & Fx & Hh); [lia|]. rewrite Hl in *.
  destruct (Hrev s2) as (s3 & E3 & [G3 D3 _ _]).
  { split; try done; [frame|frame|rewrite <- O1; frame]. }
  destruct (Hf s2 _ s3 E3 Fx) as [[_ Hsame] Hheap].
  destruct (Hheap id _ Hh eq_refl) as (b' & Hb' & Hown & Hz). simpl in Hz.
  assert (block (data_ b') = x) as Hxx.
  { unfold fbbytes in D3. rewrite Hsame, Bf in D3. simpl in D3. unfold seg_bytes in D3. simpl in D3. rewrite Hb' in D3.
    injection D3 as D3. eapply whole_block; [exact D3|]. rewrite Hz. done. }
  eexists. simpl reverse_stages. rewrite (M_bind_eq _ _ _ _ _ E1), (M_bind_eq _ _ _ _ _ E2).
  assert (fixed_buffer s2 = (Ok id, s2)) as Efb by (unfold fixed_buffer; by rewrite Bf).
  rewrite (M_bind_eq _ _ _ _ _ Efb), (M_bind_eq _ _ _ _ _ E3).
  unfold set_read_only. rewrite (M_bind_eq _ _ _ _ _ (M_bind_eq (fb input_data) _ _ s3 s3 eq_refl)).
  rewrite (M_bind_eq _ _ _ _ _ (M_bind_eq (fb input_metadata) _ _ _ _ eq_refl)).
  unfold fixed_contents. simpl heap. rewrite Hb', Hxx. reflexivity.
Qed.

Lemma reverse_stages_spec fs : ∀ st md d x dest, Forall fixed_filter fs → fs ≠ [] → loaded st md d →
  undoes fs md d [] x → Forall byte_ok dest → zlen dest = zlen x → zlen x < 2 ^ 63 →
  ∃ st', reverse_stages fs dest (zlen x) st = (Ok x, st').
Proof.
  induction fs as [|f fs IH]; intros st md d x dest Hfs Hne Hld Hu Hb Hl Hx; [done|].
  apply Forall_cons in Hfs as [Hf Hfs]. destruct Hu as (md1 & d1 & Hrev & Hu).
  destruct fs as [|g fs].
  { destruct Hu as [-> ->]. by eapply last_stage. }
  destruct (prepare_loaded st md d Hld) as (s1 & E1 & G1 & R1 & R2 & O1 & O2).
  destruct (Hrev s1) as (s2 & E2 & [G2 D2 M2 [P2 Q2]]).
  { split; try done. unfold out_ready. rewrite O2. split; [done|]. by left. }
  destruct (exchange_spec' s2 G2 Q2 P2) as (s3 & E3 & [G3 X1 X2 X3 X4 X5]).
  destruct (IH s3 md1 d1 x dest Hfs) as (st' & E); try done.
  { split; [done|congruence|rewrite X2; done|done]. }
  exists st'. change (reverse_stages (f :: g :: fs) dest (zlen x) st) with
    ((prepare_io;; run_reverse f;; set_read_only input_data false;; set_read_only input_metadata false;;
      ignore (swap input_data output_data);; ignore (swap input_metadata output_metadata);;
      reverse_stages (g :: fs) dest (zlen x)) st).
  by rewrite (M_bind_eq _ _ _ _ _ E1), (M_bind_eq _ _ _ _ _ E2), E3.
Qed.

Lemma lossless_fixed_all (ss : list Stage) : Forall lossless ss → Forall fixed_filter (impl <$> ss).
Proof. intros H. apply Forall_fmap. eapply Forall_impl; [exact H|]. intros s. apply lossless_fixed. Qed.

(** ** A chunk *)

Lemma overlay_overlay {A} o (x y l : list A) : 0 ≤ o → o + zlen x + zlen y ≤ zlen l →
  overlay (o + zlen x) y (overlay o x l) = overlay o (x ++ y) l.
Proof.
  intros Ho Hl. unfold overlay, zlen in *.
  rewrite (take_app_ge (take _ l)) by (rewrite length_take; lia). rewrite length_take.
  rewrite (take_app_le x) by lia. rewrite (take_ge x) by lia.
  rewrite (drop_app_ge (take _ l)) by (rewrite length_take; lia). rewrite length_take.
  rewrite (drop_app_ge x) by lia. rewrite drop_drop, length_app, <- !app_assoc. do 3 f_equal. f_equal. lia.
Qed.

Lemma copy_mem_spec st l : ∀ dest o, good st → Forall (seg_ok (heap st)) l → 0 ≤ o → zlen dest < 2 ^ 64 →
  let x := concat (seg_bytes (heap st) <$> l) in o + zlen x ≤ zlen dest →
  copy_mem l dest o st = (Ok (overlay o x dest), st).
Proof.
  induction l as [|s l IH]; intros dest o Hg Hl Ho Hd x Hx.
  { unfold x in *. simpl. unfold overlay. simpl. by rewrite Nat.add_0_r, take_drop. }
  apply Forall_cons in Hl as [Hs Hl]. unfold x in *. rewrite fmap_cons in *. simpl concat in *. rewrite zlen_app in Hx.
  pose proof (zlen_nonneg (concat (seg_bytes (heap st) <$> l))).
  destruct (buffer_spec st s Hg Hs) as (b & Eb & Hok & Hc & Hz & _). simpl copy_mem.
  rewrite (M_bind_eq _ _ _ _ _ Eb). pose proof Hok as (Hsz & _ & _ & _).
  rewrite memread_ok by lia. rewrite lift_bind. fold (contents b). rewrite Hc.
  rewrite memwrite_ok by lia. rewrite lift_bind, Hz, u64_id by lia.
  rewrite IH; try done; [by rewrite overlay_overlay by lia|lia|by rewrite zlen_overlay by lia|rewrite zlen_overlay by lia; lia].
Qed.

Lemma copy_to_spec st n dest : good st → zlen dest < 2 ^ 64 → zlen (total st n) ≤ zlen dest →
  copy_to n dest st = (Ok (overlay 0 (total st n) dest), st).
Proof.
  intros Hg Hd Hl. unfold copy_to. rewrite fb_bind. apply copy_mem_spec; try done. apply good_segs, Hg.
Qed.

(** The size of the bytes a store carries. *)
Lemma overlay_all {A} (x l : list A) : zlen x = zlen l → overlay 0 x l = x.
Proof. unfold overlay, zlen. intros Hl. simpl. rewrite drop_ge by lia. apply app_nil_r. Qed.

Lemma total_bytes st n : good st → Forall byte_ok (total st n).
Proof. intros Hg. apply Forall_concat, fbbytes_ok, Hg. Qed.

Lemma init_loaded md d : Forall byte_ok md → Forall byte_ok d → zlen md < 2 ^ 63 → zlen d < 2 ^ 63 →
  ∃ s1 s2, init input_metadata (Some md) (zlen md) empty_store = (Ok (), s1) ∧
    init input_data (Some d) (zlen d) s1 = (Ok (), s2) ∧ loaded s2 md d.
Proof.
  intros Hm Hd Hlm Hld. destruct (init_spec empty_store input_metadata md empty_store_good) as (s1 & id & b & E1 & G1 & T1 & _ & _ & B1 & _);
    try done.
  assert (bufs s1 input_data = bufs empty_store input_data) as O1 by frame.
  assert (bufs s1 output_data = bufs empty_store output_data) as O2 by frame.
  assert (bufs s1 output_metadata = bufs empty_store output_metadata) as O3 by frame.
  destruct (init_store d s1 O1 O2 O3 G1 Hd Hld) as (s2 & E2 & G2 & B2 & B3 & P2 & P3).
  exists s1, s2. split_and!; try done. split; try done; [left; congruence|by rewrite P2, P3].
Qed.

(** A chunk comes back from its filtered data and metadata. *)
Lemma reverse_chunk_spec fs md d x dest rest : Forall fixed_filter fs → undoes (reverse fs) md d [] x →
  Forall byte_ok md → Forall byte_ok d → zlen md < 2 ^ 63 → zlen d < 2 ^ 63 →
  Forall byte_ok dest → zlen dest = zlen x → zlen x < 2 ^ 63 →
  ∃ st', reverse_chunk fs (mkFilteredChunk (md ++ d ++ rest) (zlen d) (zlen x) (zlen md) false) dest empty_store = (Ok x, st').
Proof.
  intros Hfs Hu Hm Hd Hlm Hld Hb Hl Hx. unfold reverse_chunk. cbn [chunk_data metadata_len filtered_chunk_len orig_chunk_len].
  rewrite (memread_at (md ++ d ++ rest) 0 (zlen md) [] md (d ++ rest)) by done. rewrite lift_bind.
  rewrite (memread_at (md ++ d ++ rest) (zlen md) (zlen d) md d rest) by done. rewrite lift_bind.
  destruct (init_loaded md d Hm Hd Hlm Hld) as (s1 & s2 & E1 & E2 & Hld').
  rewrite (M_bind_eq _ _ _ _ _ E1), (M_bind_eq _ _ _ _ _ E2).
  destruct fs as [|f fs].
  - destruct Hu as [-> ->]. pose proof Hld' as [G Hdt _ _]. exists s2.
    assert (total s2 input_data = x) as Ht by (rewrite Hdt; simpl; by rewrite app_nil_r).
    rewrite copy_to_spec, Ht by (try done; rewrite ?Ht; lia). by rewrite overlay_all.
  - eapply reverse_stages_spec; try done; [by apply Forall_reverse|].
    intros Hn. apply (f_equal length) in Hn. by rewrite length_reverse in Hn.
Qed.
