(* ===== verification/PipelineFormat.v ===== *)
(** * The bytes a pipeline writes

    [frame]: a chunk in the filtered buffer, three sizes and then its metadata
    and data.  The output of [filter_chunks_forward] is the number of chunks
    and the frames, and [read_chunks] cuts it again. *)

From S2P Require Import Prelude.
From S2P Require Import ChunkedBuffer.
From S2P Require Import ConstBuffer.
From S2P Require Import Buffer.
From S2P Require Import Loops.
From S2P Require Import ChunkedProofs.
From S2P Require Import ChunkedGrowth.
From S2P Require Import ChunkedSpec.
From S2P Require Import FilterBuffer.
From S2P Require Import FilterIO.
From S2P Require Import FilterWrite.
From S2P Require Import FilterRun.
From S2P Require Import FilterSpec.
From S2P Require Import Pipeline.
From S2P Require Import PipelineProofs.
Local Open Scope Z_scope.

Definition frame (orig : Z) (md d : list Z) : list Z :=
  to_bytes U32 orig ++ to_bytes U32 (zlen d) ++ to_bytes U32 (zlen md) ++ md ++ d.

Lemma zlen_frame orig md d : zlen (frame orig md d) = 12 + zlen md + zlen d.
Proof. unfold frame. rewrite !zlen_app, !zlen_to_bytes. change (csize U32) with 4. lia. Qed.

(** What a pipeline keeps of a chunk. *)
Abbreviation md_of st := (total st input_metadata).
Abbreviation data_of st := (total st input_data).

Lemma size_of_spec st n : good st → zlen (total st n) < 2 ^ 64 → size_of n st = Ok (zlen (total st n)).
Proof. intros Hg Hl. unfold size_of. by rewrite size_spec. Qed.

Lemma small_sizes st : carried st → small st = true →
  size_of input_data st = Ok (zlen (data_of st)) ∧ size_of input_metadata st = Ok (zlen (md_of st)) ∧
  0 ≤ zlen (data_of st) ∧ 0 ≤ zlen (md_of st) ∧ zlen (data_of st) + zlen (md_of st) < 2 ^ 28.
Proof.
  intros Hc Hs. apply Z.ltb_lt in Hs. pose proof (zlen_nonneg (data_of st)). pose proof (zlen_nonneg (md_of st)).
  split_and!; try lia; apply size_of_spec; try (by apply car_good); lia.
Qed.

(** ** Offsets *)

(** Where consecutive blocks start. *)
Fixpoint starts (o : Z) (fl : list (list Z)) : list Z :=
  match fl with [] => [] | f :: fl => o :: starts (o + zlen f) fl end.

Lemma length_starts o fl : length (starts o fl) = length fl.
Proof. revert o. induction fl as [|f fl IH]; intros o; simpl; [done|]. by rewrite IH. Qed.

Lemma chunk_offsets_spec ios fl : Forall2 (λ st f, carried st ∧ small st = true ∧ zlen f = 12 + zlen (md_of st) + zlen (data_of st)) ios fl →
  ∀ o t, 0 ≤ o → 0 ≤ t → o + zlen (concat fl) < 2 ^ 63 → t + zlen (concat fl) < 2 ^ 63 →
  chunk_offsets ios o t = Ok (starts o fl, t + zlen (concat fl)).
Proof.
  induction 1 as [|st f ios fl (Hc & Hs & Hf) _ IH]; intros o t Ho Ht Hbo Hbt.
  { simpl. do 2 f_equal. change (zlen (@nil Z)) with 0. lia. }
  destruct (small_sizes st Hc Hs) as (E1 & E2 & L1 & L2 & L3). simpl concat in *. rewrite zlen_app in *.
  pose proof (zlen_nonneg (concat fl)). simpl chunk_offsets. rewrite E1, E2. cbn [mbind res_bind].
  destruct (Z.ltb_spec (tmax U32) (zlen (data_of st))) as [Hb|_]; [unfold_ctype; simpl in Hb; lia|].
  destruct (Z.ltb_spec (tmax U32) (zlen (md_of st))) as [Hb|_]; [unfold_ctype; simpl in Hb; lia|]. cbn [orb].
  rewrite (conv_id U32) by (unfold_ctype; simpl; lia).
  replace (12 + zlen (data_of st) + zlen (md_of st)) with (zlen f) by lia.
  rewrite !u64_id by lia. rewrite IH by lia. cbn [mbind res_bind fst snd]. simpl. do 2 f_equal. lia.
Qed.

(** ** Writing a frame *)

Lemma overlay_drop {A} k (x l : list A) : 0 ≤ k ≤ zlen l → k + zlen x ≤ zlen l →
  overlay k (overlay 0 x (drop (Z.to_nat k) l)) l = overlay k x l.
Proof.
  intros Hk Hx. unfold overlay at 1. unfold overlay, zlen in *. simpl take. rewrite app_nil_l.
  rewrite length_app, drop_drop, length_drop.
  rewrite (drop_ge l (Z.to_nat k + (length x + _))) by lia. by rewrite app_nil_r.
Qed.

(** A [copy_to] at an offset of a block. *)
Lemma copy_at st n k dest : good st → 0 ≤ k → k + zlen (total st n) ≤ zlen dest → zlen dest < 2 ^ 64 →
  (x ← fst (copy_to n (drop (Z.to_nat k) dest) st); memwrite dest k x) = Ok (overlay k (total st n) dest).
Proof.
  intros Hg Hk Hl Hd. pose proof (zlen_nonneg (total st n)).
  assert (zlen (drop (Z.to_nat k) dest) = zlen dest - k) as Hz by (unfold zlen in *; rewrite length_drop; lia).
  rewrite copy_to_spec by (done || lia). cbn [fst mbind res_bind].
  rewrite memwrite_ok by (rewrite ?zlen_overlay by lia; lia). by rewrite overlay_drop by lia.
Qed.

Lemma emit_chunk_spec orig st dest : carried st → small st = true → zlen dest < 2 ^ 64 →
  let f := frame orig (md_of st) (data_of st) in zlen f ≤ zlen dest →
  emit_chunk orig st dest = Ok (overlay 0 f dest).
Proof.
  intros Hc Hs Hd f Hf. unfold f in *. rewrite zlen_frame in Hf.
  destruct (small_sizes st Hc Hs) as (E1 & E2 & L1 & L2 & L3). pose proof (car_good _ Hc) as Hg.
  unfold emit_chunk. rewrite E1, E2. cbn [mbind res_bind]. rewrite !(conv_id U32) by (unfold_ctype; simpl; lia).
  assert (∀ z, zlen (to_bytes U32 z) = 4) as H4 by (intros; apply zlen_to_bytes).
  rewrite memwrite_ok by (rewrite ?H4; lia). cbn [mbind res_bind].
  rewrite memwrite_ok by (rewrite ?zlen_overlay, ?H4 by (rewrite ?H4; lia); lia). cbn [mbind res_bind].
  pose proof (overlay_overlay 0 (to_bytes U32 orig) (to_bytes U32 (zlen (data_of st))) dest) as O1. rewrite !H4 in O1.
  rewrite Z.add_0_l in O1. rewrite O1 by lia. clear O1.
  set (h2 := to_bytes U32 orig ++ to_bytes U32 (zlen (data_of st))).
  assert (zlen h2 = 8) as Hh2 by (unfold h2; rewrite zlen_app, !H4; done).
  rewrite memwrite_ok by (rewrite ?zlen_overlay, ?H4 by (rewrite ?Hh2; lia); lia). cbn [mbind res_bind].
  pose proof (overlay_overlay 0 h2 (to_bytes U32 (zlen (md_of st))) dest) as O2. rewrite Hh2, H4, Z.add_0_l in O2.
  rewrite O2 by lia. clear O2. set (h3 := h2 ++ to_bytes U32 (zlen (md_of st))).
  assert (zlen h3 = 12) as Hh3 by (unfold h3; rewrite zlen_app, Hh2, H4; done).
  set (d3 := overlay 0 h3 dest). assert (zlen d3 = zlen dest) as Hd3 by (apply zlen_overlay; lia).
  pose proof (copy_at st input_metadata 12 d3 Hg ltac:(lia) ltac:(lia) ltac:(lia)) as C1. change (Z.to_nat 12) with 12%nat in C1.
  set (K := fun dest : list Z => if zlen dest <? 12 + zlen (md_of st) then UB else
     y ← fst (copy_to input_data (drop (Z.to_nat (12 + zlen (md_of st))) dest) st); memwrite dest (12 + zlen (md_of st)) y).
  assert (∀ r : res (list Z), (x ← r; dest ← memwrite d3 12 x; K dest) = (dest ← (x ← r; memwrite d3 12 x); K dest)) as Hassoc
    by (intros [| |]; done).
  change ((x ← fst (copy_to input_metadata (drop 12 d3) st); dest ← memwrite d3 12 x; K dest) = Ok (overlay 0 (frame orig (md_of st) (data_of st)) dest)).
  rewrite Hassoc, C1. cbn [mbind res_bind]. unfold K, d3.
  pose proof (overlay_overlay 0 h3 (md_of st) dest) as O3. rewrite Hh3, Z.add_0_l in O3. rewrite O3 by lia. clear O3 C1 Hassoc.
  assert (zlen (h3 ++ md_of st) = 12 + zlen (md_of st)) as Hh4 by (rewrite zlen_app; lia).
  rewrite zlen_overlay by lia. destruct (Z.ltb_spec (zlen dest) (12 + zlen (md_of st))); [lia|].
  rewrite copy_at; [|done|lia|rewrite zlen_overlay by lia; lia|rewrite zlen_overlay by lia; lia].
  pose proof (overlay_overlay 0 (h3 ++ md_of st) (data_of st) dest) as O4. rewrite Hh4, Z.add_0_l in O4. rewrite O4 by lia.
  unfold frame, h3, h2. by rewrite <- !app_assoc.
Qed.

(** ** The whole output *)

(** The frame of a chunk: its original size and its filtered contents. *)
Definition frame_of (p : Z * Store) : list Z := frame p.1 (md_of p.2) (data_of p.2).

Abbreviation frames outs := (concat (frame_of <$> outs)).

Definition emits_ok (input : ChunkedBuffer.t) (k : nat) (p : Z * Store) : Prop :=
  ChunkedBuffer.internal_buffer_size input k = Ok p.1 ∧ carried p.2 ∧ small p.2 = true.

Lemma overlay_tail (pre rest x : list Z) : zlen x ≤ zlen rest →
  take (Z.to_nat (zlen pre)) (pre ++ rest) ++ overlay 0 x (drop (Z.to_nat (zlen pre)) (pre ++ rest)) =
  (pre ++ x) ++ drop (length x) rest.
Proof.
  intros Hx. unfold zlen. rewrite Nat2Z.id, take_app_length, drop_app_length, <- app_assoc. f_equal.
Qed.

Lemma emit_all input outs : ∀ k b pre rest, (∀ i p, outs !! i = Some p → emits_ok input (k + i) p) →
  data_ b = Some (pre ++ rest) → zlen rest = zlen (frames outs) → zlen (pre ++ rest) < 2 ^ 63 →
  parallel_for (imap (λ i p, emit_body input (k + i) p.1 p.2) (zip outs.*2 (starts (zlen pre) (frame_of <$> outs)))) b =
    (Ok (), mk (alloced_size_ b) (Some (pre ++ frames outs)) (Buffer.offset_ b) (owns_data_ b) (size_ b)).
Proof.
  induction outs as [|p outs IH]; intros k b pre rest Hok Hd Hz Hb.
  { simpl in *. destruct rest; [|unfold zlen in Hz; simpl in Hz; lia]. rewrite <- Hd. by destruct b. }
  rewrite !fmap_cons in *. simpl concat in *. rewrite zlen_app in Hz. simpl zip. rewrite imap_cons. simpl parallel_for.
  destruct (Hok 0%nat p eq_refl) as (En & Hc & Hs). rewrite Nat.add_0_r in *. unfold emit_body at 1. rewrite En, Hd.
  simpl block. simpl fst. simpl snd. pose proof (zlen_nonneg (frames outs)). pose proof (zlen_nonneg pre). pose proof (zlen_nonneg rest).
  rewrite zlen_app in *. destruct (Z.ltb_spec (zlen pre + zlen rest) (zlen pre)); [lia|].
  rewrite emit_chunk_spec; try done.
  2:{ unfold zlen in *. rewrite length_drop, length_app. lia. }
  2:{ fold (frame_of p). unfold zlen in *. rewrite length_drop, length_app. lia. }
  fold (frame_of p). rewrite overlay_tail by lia.
  specialize (IH (S k)). rewrite (imap_ext _ (λ i p0, emit_body input (S k + i) p0.1 p0.2)).
  2:{ intros i x _. simpl. by rewrite Nat.add_succ_r. }
  rewrite <- zlen_app. rewrite (IH _ (pre ++ frame_of p) (drop (length (frame_of p)) rest)); try done.
  - simpl. by rewrite app_assoc.
  - intros i x Hi. replace (S k + i)%nat with (k + S i)%nat by lia. by apply Hok.
  - unfold zlen in *. rewrite length_drop. lia.
  - rewrite !zlen_app. unfold zlen in *. rewrite length_drop. lia.
Qed.

(** The first [parallel_for]. *)
Lemma forward_all fs m input n : ∀ k ios ios',
  parallel_for (forward_body fs m input <$> seq k n) ios = (Ok (), ios') → ∃ sts, ios' = ios ++ sts ∧ length sts = n ∧
    ∀ i st, sts !! i = Some st → ∃ x, chunk_bytes m input (k + i) = Ok x ∧ forward_chunk fs x empty_store = (Ok (), st).
Proof.
  induction n as [|n IH]; intros k ios ios' E.
  { injection E as <-. exists []. rewrite app_nil_r. done. }
  simpl in E. unfold forward_body at 1 in E. destruct (chunk_bytes m input k) as [x| |] eqn:Ex.
  - destruct (forward_chunk fs x empty_store) as [[[]| |] st] eqn:Ef.
    + apply IH in E as (sts & -> & Hl & Hs). exists (st :: sts). rewrite <- app_assoc. split_and!; [done|simpl; lia|].
      intros [|i] s Hi; [injection Hi as <-; rewrite Nat.add_0_r; by exists x|].
      destruct (Hs i s Hi) as (y & Hy). rewrite Nat.add_succ_r. by exists y.
    + by destruct (parallel_for _ ios) as [[| |] ?].
    + done.
  - by destruct (parallel_for _ ios) as [[| |] ?].
  - done.
Qed.

Section Alloc.
Context `{HA : !Allocator}.
Hypothesis Hmem : ¬ out_of_memory.

(** The second half of [filter_chunks_forward]. *)
Lemma emit_output input outs : (∀ i p, outs !! i = Some p → emits_ok input i p) → zlen (frames outs) < 2 ^ 62 →
  let n := length outs in let T := zlen (frames outs) in
  ∃ b, (Buffer.realloc (u64 (8 + T));; Buffer.write (to_bytes U64 (Z.of_nat n));;
        parallel_for (imap (λ i p, emit_body input i p.1 p.2) (zip outs.*2 (starts 8 (frame_of <$> outs))));;
        Buffer.advance_offset T;; Buffer.advance_size T) Buffer.empty = (Ok (), b) ∧
    owns_data_ b = true ∧ alloced_size_ b = 8 + T ∧ size_ b = 8 + T ∧
    data_ b = Some (to_bytes U64 (Z.of_nat n) ++ frames outs).
Proof.
  intros Hok Hl n T. assert (0 ≤ T < 2 ^ 62) as HT by (split; [apply zlen_nonneg|done]). rewrite u64_id by lia.
  destruct (malloc (8 + T)) as [d0|] eqn:Em; [|exfalso; apply Hmem; by exists (8 + T)].
  pose proof (malloc_size (8 + T) d0 ltac:(lia) Em) as Hd0.
  set (h := to_bytes U64 (Z.of_nat n)). assert (zlen h = 8) as Hh by apply zlen_to_bytes.
  set (d1 := h ++ drop 8 d0).
  assert (overlay 0 h d0 = d1) as Hov by (unfold overlay, d1, zlen in *; simpl; by replace (length h) with 8%nat by lia).
  set (b2 := mk (8 + T) (Some d1) 8 true 8).
  assert (∀ A (k : M Buffer.t A), (Buffer.realloc (8 + T);; Buffer.write h;; k) Buffer.empty = k b2) as E12.
  { intros A k. unfold mbind, M_bind, Buffer.realloc. simpl. rewrite Em. unfold Buffer.write. simpl negb. cbv iota.
    cbn [Buffer.offset_]. rewrite Hh, Z.add_0_l, (u64_id 8) by lia. unfold mbind, M_bind, ensure_alloced_size.
    cbn [alloced_size_]. destruct (Z.leb_spec 8 (8 + T)); [|lia]. unfold store. cbn [data_ block Buffer.offset_ owns_data_ alloced_size_].
    change (block (Some d0)) with d0. rewrite memwrite_ok by lia. rewrite Hov, Z.add_0_l, (u64_id 8) by lia. done. }
  rewrite E12. unfold mbind at 1, M_bind at 1.
  rewrite (imap_ext _ (λ i p, emit_body input (0 + i) p.1 p.2)) by done. rewrite <- Hh.
  rewrite (emit_all input outs 0 b2 h (drop 8 d0)); try done.
  - eexists. split; [reflexivity|]. simpl. rewrite Hh, (u64_id (8 + T)) by lia. done.
  - unfold zlen in *. rewrite length_drop. lia.
  - unfold zlen in *. rewrite length_app, length_drop. lia.
Qed.
End Alloc.

(** ** The chunks of a tile, before and after the pipeline

    [cut]: the bytes of a chunked buffer, chunk by chunk. *)

Import ChunkedBuffer.

Fixpoint cut (ks : list Z) (X : list Z) : list (list Z) :=
  match ks, X with
  | [], _ | _, [] => []
  | k :: ks, _ => take (Z.to_nat k) X :: cut ks (drop (Z.to_nat k) X)
  end.

Lemma cut_nil ks : cut ks [] = [].
Proof. by destruct ks. Qed.

Lemma cut_cons k ks X : X ≠ [] → cut (k :: ks) X = take (Z.to_nat k) X :: cut ks (drop (Z.to_nat k) X).
Proof. by destruct X. Qed.

Lemma zlen_drop {A} n (X : list A) : 0 ≤ n → zlen (drop (Z.to_nat n) X) = Z.max 0 (zlen X - n).
Proof. intros. unfold zlen. rewrite length_drop. lia. Qed.

Lemma cut_concat ks X : Forall (Z.lt 0) ks → zlen X ≤ sum ks → concat (cut ks X) = X.
Proof.
  intros Hk. revert X. induction Hk as [|k ks Hk Hks IH]; intros X Hl.
  - unfold sum in Hl. simpl in Hl. destruct X; [done|]. rewrite zlen_cons in Hl. pose proof (zlen_nonneg X). lia.
  - destruct (decide (X = [])) as [->|Hne]; [done|]. rewrite cut_cons by done. simpl.
    change (sum (k :: ks)) with (k + sum ks) in Hl. pose proof (sum_nonneg ks Hks).
    rewrite IH by (rewrite zlen_drop by lia; lia). apply take_drop.
Qed.

Lemma cut_lookup ks X i x : Forall (Z.lt 0) ks → cut ks X !! i = Some x →
  ∃ k, ks !! i = Some k ∧ lead ks i < zlen X ∧ x = slice (lead ks i) k X.
Proof.
  intros Hk. revert X i. induction Hk as [|k ks Hk Hks IH]; intros X i Hi; [done|].
  destruct (decide (X = [])) as [->|Hne]; [by rewrite cut_nil in Hi|]. rewrite cut_cons in Hi by done.
  destruct i as [|i].
  - injection Hi as <-. exists k. rewrite lead_0. split_and!; [done|by apply zlen_pos|]. unfold slice. by rewrite drop_0.
  - simpl in Hi. destruct (IH _ i Hi) as (k' & Hk' & Hl & ->). exists k'.
    assert (lead (k :: ks) (S i) = k + lead ks i) as -> by done. pose proof (lead_bound ks i k' Hks Hk').
    rewrite zlen_drop in Hl by lia. split_and!; [done|lia|]. unfold slice. rewrite drop_drop. do 2 f_equal. lia.
Qed.

Lemma slice_zlen {A} o k (X : list A) : 0 ≤ o ≤ zlen X → 0 ≤ k → zlen (slice o k X) = Z.min k (zlen X - o).
Proof. intros. unfold slice, zlen in *. rewrite length_take, length_drop. lia. Qed.

Lemma length_cut_full ks X : Forall (Z.lt 0) ks → zlen X = sum ks → length (cut ks X) = length ks.
Proof.
  intros Hk. revert X. induction Hk as [|k ks Hk Hks IH]; intros X Hl; [done|].
  change (sum (k :: ks)) with (k + sum ks) in Hl. pose proof (sum_nonneg ks Hks).
  rewrite cut_cons by (intros ->; change (zlen (@nil Z)) with 0 in Hl; lia). simpl. f_equal. apply IH. rewrite zlen_drop by lia. lia.
Qed.

Lemma count_populated_spec c X n : ∀ i, shape c → zlen X = size_ c → (i + n = length (buffers_ c))%nat →
  count_populated c n i = Ok (length (cut (drop i (caps c)) (drop (Z.to_nat (lead (caps c) i)) X))).
Proof.
  induction n as [|n IH]; intros i Hs HX Hn.
  { rewrite drop_ge by (rewrite (shape_len c Hs); lia). done. }
  destruct (lookup_lt_is_Some_2 (caps c) i) as [k Hk]; [rewrite (shape_len c Hs); lia|].
  pose proof (lead_bound _ _ _ (shape_caps c Hs) Hk). rewrite (drop_S _ _ _ Hk). simpl count_populated.
  rewrite (chunk_size_spec c i k Hs Hk). cbn [mbind res_bind]. unfold used.
  destruct (Z.eqb_spec (Z.min k (Z.max 0 (size_ c - lead (caps c) i))) 0) as [Hz|Hz].
  - rewrite (drop_ge X) by (unfold zlen in HX; lia). done.
  - rewrite cut_cons by (intros Hnil; apply (f_equal zlen) in Hnil; rewrite zlen_drop in Hnil by lia; change (zlen (@nil Z)) with 0 in Hnil; lia).
    rewrite (IH (S i)) by (done || lia). cbn [mbind res_bind]. simpl length. do 4 f_equal.
    rewrite (lead_S _ _ _ Hk), drop_drop. f_equal. lia.
Qed.

(** The bytes a chunked buffer holds are what the pipeline reads. *)
Lemma populated_spec m c X : cb_ok m c → holds m c 0 X → zlen X = size_ c →
  let xs := cut (caps c) X in
  populated_nchunks c = Ok (length xs) ∧ concat xs = X ∧ (length xs ≤ length (buffers_ c))%nat ∧
  ∀ i x, xs !! i = Some x → x ≠ [] ∧ chunk_bytes m c i = Ok x ∧ internal_buffer_size c i = Ok (zlen x).
Proof.
  intros Hok Hh HX xs. pose proof Hok as [Hs _]. pose proof (shape_size c Hs) as Hsz.
  split_and!.
  - unfold populated_nchunks. destruct (Z.eqb_spec (size_ c) (capacity_ c)) as [Hfull|].
    + f_equal. unfold xs. rewrite length_cut_full; [by rewrite (shape_len c Hs)|by apply shape_caps|].
      by rewrite <- (shape_capacity c Hs), HX.
    + rewrite (count_populated_spec c X _ 0) by done. rewrite lead_0. by rewrite !drop_0.
  - apply cut_concat; [by apply shape_caps|]. rewrite <- (shape_capacity c Hs). lia.
  - rewrite <- (shape_len c Hs). unfold xs. clear. generalize (caps c). intros ks. revert X.
    induction ks as [|k ks IH]; intros X; [done|]. destruct X as [|v X]; [simpl; lia|].
    rewrite cut_cons by done. simpl. specialize (IH (drop (Z.to_nat k) (v :: X))). lia.
  - intros i x Hi. apply cut_lookup in Hi as (k & Hk & Hl & ->); [|by apply shape_caps].
    pose proof (lead_bound _ _ _ (shape_caps c Hs) Hk) as Hb. set (x := slice (lead (caps c) i) k X).
    assert (zlen x = Z.min k (zlen X - lead (caps c) i)) as Hx by (apply slice_zlen; lia).
    assert (x ≠ []) as Hne by (intros Hnil; rewrite Hnil in Hx; change (zlen (@nil Z)) with 0 in Hx; lia).
    assert (internal_buffer_size c i = Ok (zlen x)) as Es.
    { rewrite (chunk_size_spec c i k Hs Hk). unfold used. f_equal. lia. }
    assert (holds m c (lead (caps c) i + 0) x) as Hhx.
    { intros j v Hj. replace (lead (caps c) i + 0 + Z.of_nat j) with (0 + Z.of_nat (Z.to_nat (lead (caps c) i) + j)) by lia.
      apply Hh. unfold x, slice in Hj. apply lookup_take_Some in Hj as [Hj _]. by rewrite lookup_drop in Hj. }
    split_and!; try done. unfold chunk_bytes.
    destruct (holds_chunk m c i k 0 x Hs Hk ltac:(lia) Hne Hhx) as [p Hp].
    destruct (chunk_block m c i k p Hok Hk Hp) as (d & Hd & Hp2 & Hpd).
    unfold internal_buffer. rewrite Hp, Es. cbn [mbind res_bind]. destruct p as [b a]. unfold plus. cbn [mbind res_bind fst snd] in *.
    rewrite (load_addr m c (lead (caps c) i + 0) b (a + 0) x d); try done; try lia.
    apply (chunk_addr m c i k (b, a) 0 (zlen x)); try done; lia.
Qed.
