(* ===== verification/PipelineRoundtrip.v ===== *)
(** * A tile through the pipeline and back *)

From S2P Require Import Prelude.
From S2P Require Import ConstBuffer.
From S2P Require Import ChunkedBuffer.
From S2P Require Import ChunkedProofs.
From S2P Require Import ChunkedGrowth.
From S2P Require Import ChunkedSpec.
From S2P Require Import Buffer.
From S2P Require Import FilterBuffer.
From S2P Require Import FilterIO.
From S2P Require Import FilterWrite.
From S2P Require Import FilterRun.
From S2P Require Import FilterSpec.
From S2P Require Import Loops.
From S2P Require Import Pipeline.
From S2P Require Import PipelineProofs.
From S2P Require Import PipelineFormat.
Local Open Scope Z_scope.

Abbreviation cholds := ChunkedProofs.holds.

Lemma holds_bytes m c q X : cb_ok m c → cholds m c q X → Forall byte_ok X.
Proof.
  intros Hok Hh. pose proof Hok as [Hs _]. apply Forall_lookup_2. intros j v Hj. specialize (Hh j v Hj). unfold byte in Hh.
  destruct (addr c (q + Z.of_nat j)) as [a|] eqn:Ea; [|done]. simpl in Hh.
  apply addr_inv in Ea as (i & k & o & p & Hi & Ho & Hp & _ & ->); [|done].
  destruct (chunk_block m c i k p Hok Hi Hp) as (d & [Hd Hb] & _). unfold at_addr in Hh. simpl in Hh. rewrite Hd in Hh.
  by eapply (Forall_lookup_1 _ _ _ _ Hb).
Qed.

(** ** The filtered buffer *)

(** The pipeline takes the bytes [x] of a chunk. *)
Definition admits_chunk (ss : list Stage) (x : list Z) : bool :=
  match init input_data (Some x) (zlen x) empty_store with (Ok _, st) => admits ss st | _ => true end.

(** What [filter_chunks_forward] made of a chunk. *)
Definition filtered_as (fs : list FilterImpl) (x : list Z) (p : Z * Store) : Prop :=
  p.1 = zlen x ∧ Forall byte_ok x ∧ carried p.2 ∧ small p.2 = true ∧ undoes (reverse fs) (md_of p.2) (data_of p.2) [] x.

Lemma frames_bound outs : Forall (λ p, carried p.2 ∧ small p.2 = true) outs → zlen (frames outs) ≤ 2 ^ 29 * zlen outs.
Proof.
  induction 1 as [|p outs [Hc Hs] _ IH]; [done|]. rewrite fmap_cons. simpl concat. rewrite zlen_app, zlen_cons.
  unfold frame_of at 1. rewrite zlen_frame. pose proof (small_sizes p.2 Hc Hs). lia.
Qed.

Section Alloc.
Context `{HA : !Allocator}.
Hypothesis Hmem : ¬ out_of_memory.

Lemma forward_output (ss : list Stage) m c X b : Forall lossless ss → cb_ok m c → cholds m c 0 X → zlen X = ChunkedBuffer.size_ c →
  zlen (ChunkedBuffer.buffers_ c) < 2 ^ 32 → Forall (λ x, admits_chunk ss x = true) (cut (caps c) X) →
  filter_chunks_forward (impl <$> ss) m c Buffer.empty = (Ok (), b) →
  ∃ outs, Forall2 (filtered_as (impl <$> ss)) (cut (caps c) X) outs ∧ zlen (frames outs) < 2 ^ 62 ∧ owns_data_ b = true ∧
    alloced_size_ b = 8 + zlen (frames outs) ∧ size_ b = 8 + zlen (frames outs) ∧
    data_ b = Some (to_bytes U64 (zlen outs) ++ frames outs).
Proof.
  intros Hfs Hok Hh HX Hnc Hsm E. pose proof Hok as [Hs _]. pose proof (shape_small c Hs). pose proof (shape_size c Hs).
  pose proof (holds_bytes m c 0 X Hok Hh) as HbX.
  destruct (populated_spec m c X Hok Hh HX) as (En & HcX & Hlx & Hxs). set (xs := cut (caps c) X) in *.
  unfold filter_chunks_forward in E. rewrite En in E. unfold mbind at 1, M_bind at 1, lift at 1 in E.
  destruct (parallel_for (forward_body (impl <$> ss) m c <$> seq 0 (length xs)) []) as [r ios] eqn:Ep.
  unfold mbind at 1, M_bind at 1, lift at 1 in E. destruct r as [[]| |]; [|done..].
  apply forward_all in Ep as (sts & -> & Hls & Hsts). simpl in E.
  set (outs := zip (zlen <$> xs) sts).
  assert (outs.*2 = sts) as Ho2 by (apply snd_zip; rewrite length_fmap; lia).
  assert (Forall2 (filtered_as (impl <$> ss)) xs outs) as Hall.
  { apply Forall2_lookup. intros i. destruct (xs !! i) as [x|] eqn:Hx.
    - destruct (lookup_lt_is_Some_2 sts i) as [st Hst]; [apply lookup_lt_Some in Hx; lia|].
      assert (outs !! i = Some (zlen x, st)) as -> by (apply lookup_zip_Some; by rewrite list_lookup_fmap, Hx).
      constructor. destruct (Hsts i st Hst) as (y & Ey & Ef). destruct (Hxs i x Hx) as (Hne & Ex & _). simpl in Ey.
      rewrite Ex in Ey. injection Ey as <-.
      assert (Forall byte_ok x ∧ zlen x ≤ zlen X) as [Hbx Hlx'].
      { rewrite <- HcX in HbX |- *. apply list_elem_of_lookup_2 in Hx. apply list_elem_of_split in Hx as (l1 & l2 & ->).
        rewrite concat_app in *. simpl in *. apply Forall_app in HbX as [_ [? _]%Forall_app]. split; [done|].
        rewrite !zlen_app. pose proof (zlen_nonneg (concat l1)). pose proof (zlen_nonneg (concat l2)). lia. }
      destruct (forward_chunk_spec ss x st Hfs Hne Hbx) as (Hc & Hsm' & Hu); [lia| |done|].
      { intros s Es. pose proof (Forall_lookup_1 _ _ _ _ Hsm Hx) as Hsx. simpl in Hsx. unfold admits_chunk in Hsx. by rewrite Es in Hsx. }
      by split_and!.
    - apply lookup_ge_None in Hx. rewrite lookup_ge_None_2; [constructor|]. unfold outs. rewrite length_zip, length_fmap. lia. }
  assert (Forall (λ p : Z * Store, carried p.2 ∧ small p.2 = true) outs) as Hcar.
  { eapply Forall2_Forall_r; [exact Hall|]. apply Forall_forall. intros x _ p (_ & _ & ? & ? & _). done. }
  pose proof (frames_bound outs Hcar) as Hfb.
  assert (zlen outs = zlen xs) as Hzo by (unfold zlen; by rewrite (Forall2_length _ _ _ Hall)).
  assert (zlen (frames outs) < 2 ^ 62) as Hf62 by (unfold zlen in *; lia).
  rewrite <- Ho2 in E. unfold mbind at 1, M_bind at 1, lift at 1 in E.
  rewrite (chunk_offsets_spec (outs.*2) (frame_of <$> outs)) in E; try lia.
  2:{ apply Forall2_fmap_2. clear -Hcar. induction Hcar as [|p l [Hc Hs] _ IH]; constructor; [|done].
      split_and!; try done. unfold frame_of. rewrite zlen_frame. lia. }
  rewrite Z.add_0_l in E.
  destruct (emit_output Hmem c outs) as (b' & Eb & ? & ? & ? & Hd); [|done|].
  { intros i p Hp. pose proof (Forall_lookup_1 _ _ _ _ Hcar Hp) as [? ?]. split_and!; try done. simpl.
    destruct (lookup_lt_is_Some_2 xs i) as [x Hx]; [rewrite (Forall2_length _ _ _ Hall); by eapply lookup_lt_Some|].
    destruct (Hxs i x Hx) as (_ & _ & ->). f_equal. by pose proof (Forall2_lookup_lr _ _ _ _ _ _ Hall Hx Hp) as (-> & _). }
  rewrite (Forall2_length _ _ _ Hall) in E. rewrite Eb in E. injection E as <-. exists outs. by split_and!.
Qed.
End Alloc.

(** ** Cutting it again *)

(** The decisions of a [skip_fn] on successive chunks. *)
Fixpoint run_skips {S} (skip_fn : option (Z → M S bool)) (sizes : list Z) : M S (list bool) :=
  match sizes with
  | [] => mret []
  | n :: sizes =>
      b ← match skip_fn with Some f => f n | None => mret false end;
      bs ← run_skips skip_fn sizes;
      mret (b :: bs)
  end.

(** A frame as [read_chunks] returns it. *)
Definition chunk_of (p : Z * Store) (skip : bool) (c : FilteredChunk) : Prop := ∃ rest,
  c = mkFilteredChunk (md_of p.2 ++ data_of p.2 ++ rest) (zlen (data_of p.2)) p.1 (zlen (md_of p.2)) skip.

Lemma buffer_read_at b pre x rest (n : Z) : data_ b = Some (pre ++ x ++ rest) → Buffer.offset_ b = zlen pre →
  size_ b = zlen (pre ++ x ++ rest) → zlen x = n → size_ b < 2 ^ 63 →
  Buffer.read n b = (Ok x, Buffer.with_offset b (zlen (pre ++ x))).
Proof.
  intros Hd Ho Hs <- Hb. unfold Buffer.read. rewrite Ho, Hd. simpl block. rewrite !zlen_app in Hs.
  pose proof (zlen_nonneg pre). pose proof (zlen_nonneg x). pose proof (zlen_nonneg rest).
  rewrite !u64_id by lia. destruct (Z.ltb_spec (size_ b) (zlen x + zlen pre)); [lia|].
  rewrite (memread_at _ _ _ pre x rest) by done. by rewrite zlen_app.
Qed.

Lemma read_header {S} b pre z rest (s : S) : data_ b = Some (pre ++ to_bytes U32 z ++ rest) → Buffer.offset_ b = zlen pre →
  size_ b = zlen (pre ++ to_bytes U32 z ++ rest) → size_ b < 2 ^ 63 →
  on_fst (Buffer.read 4) (b, s) = (Ok (to_bytes U32 z), (Buffer.with_offset b (zlen (pre ++ to_bytes U32 z)), s)).
Proof.
  intros Hd Ho Hs Hb. unfold on_fst. by rewrite (buffer_read_at b pre (to_bytes U32 z) rest) by (done || apply zlen_to_bytes).
Qed.

Lemma read_headers_spec {S} (skip_fn : option (Z → M S bool)) outs :
  Forall (λ p, carried p.2 ∧ small p.2 = true ∧ in_ctype U32 p.1) outs →
  ∀ b pre s bs s' ua, data_ b = Some (pre ++ frames outs) → Buffer.offset_ b = zlen pre →
  size_ b = zlen (pre ++ frames outs) → size_ b < 2 ^ 63 → run_skips skip_fn (outs.*1) s = (Ok bs, s') →
  ∃ cs, read_chunk_headers skip_fn (length outs) ua (b, s) =
      (Ok (cs, ua && forallb negb bs), (Buffer.with_offset b (size_ b), s')) ∧ Forall3 chunk_of outs bs cs.
Proof.
  induction 1 as [|p outs (Hc & Hsm & Hu) _ IH]; intros b pre s bs s' ua Hd Ho Hsz Hb Er.
  { injection Er as <- <-. exists []. simpl. rewrite andb_true_r. simpl in Hsz. rewrite app_nil_r in Hsz.
    split; [|constructor]. unfold mret, M_ret. do 3 f_equal. rewrite Hsz, <- Ho. by destruct b. }
  rewrite fmap_cons in *. simpl concat in *.
  assert (frame_of p = to_bytes U32 p.1 ++ to_bytes U32 (zlen (data_of p.2)) ++ to_bytes U32 (zlen (md_of p.2)) ++ md_of p.2 ++ data_of p.2)
    as Ef by done. rewrite Ef, <- !app_assoc in Hd, Hsz.
  destruct (small_sizes p.2 Hc Hsm) as (_ & _ & L1 & L2 & L3).
  set (h1 := to_bytes U32 p.1) in *. set (h2 := to_bytes U32 (zlen (data_of p.2))) in *. set (h3 := to_bytes U32 (zlen (md_of p.2))) in *.
  set (b1 := Buffer.with_offset b (zlen (pre ++ h1))). set (b2 := Buffer.with_offset b (zlen ((pre ++ h1) ++ h2))).
  set (b3 := Buffer.with_offset b (zlen (((pre ++ h1) ++ h2) ++ h3))).
  pose proof (read_header b pre _ _ s Hd Ho Hsz Hb) as E1.
  pose proof (read_header b1 (pre ++ h1) (zlen (data_of p.2)) (h3 ++ md_of p.2 ++ data_of p.2 ++ frames outs) s) as E2.
  pose proof (read_header b2 ((pre ++ h1) ++ h2) (zlen (md_of p.2)) (md_of p.2 ++ data_of p.2 ++ frames outs) s) as E3.
  fold h2 in E2. fold h3 in E3. rewrite <- !app_assoc in E2, E3. specialize (E2 Hd eq_refl Hsz Hb). specialize (E3 Hd eq_refl Hsz Hb).
  simpl in Er. unfold mbind at 1, M_bind at 1 in Er.
  destruct (match skip_fn with Some f => f p.1 | None => mret false end s) as [[sk| |] s1] eqn:Esk; [|done..].
  unfold mbind at 1, M_bind at 1 in Er. destruct (run_skips skip_fn outs.*1 s1) as [[bs'| |] s2] eqn:Ers; [|done..].
  injection Er as <- <-.
  set (b4 := Buffer.with_offset b (zlen (pre ++ frame_of p))).
  destruct (IH b4 (pre ++ frame_of p) s1 bs' s2 (ua && negb sk)) as (cs & Ecs & Hcs); try done.
  { simpl. rewrite Hd, Ef. by rewrite <- !app_assoc. }
  { simpl. rewrite Hsz, Ef. by rewrite <- !app_assoc. }
  set (rest := drop (Z.to_nat (Buffer.offset_ b3)) (block (data_ b3))).
  assert (rest = md_of p.2 ++ data_of p.2 ++ frames outs) as Erest.
  { unfold rest, b3. simpl. rewrite Hd. simpl. rewrite !app_assoc, <- !(app_assoc (_ ++ h3)). unfold zlen. by rewrite Nat2Z.id, drop_app_length. }
  exists (mkFilteredChunk rest (zlen (data_of p.2)) p.1 (zlen (md_of p.2)) sk :: cs). split.
  - simpl read_chunk_headers. rewrite (M_step _ _ _ _ _ E1). fold b1. fold h1 in b1. rewrite (M_step _ _ _ _ _ E2).
    assert (Buffer.with_offset b1 (zlen (pre ++ h1 ++ h2)) = b2) as -> by (unfold b2; by rewrite <- app_assoc).
    rewrite (M_step _ _ _ _ _ E3). change (Buffer.with_offset b2 (zlen (((pre ++ h1) ++ h2) ++ h3))) with b3.
    unfold h2, h3. rewrite !of_to_bytes by (try done; unfold_ctype; simpl; lia).
    assert (match skip_fn with Some f => on_snd (f p.1) | None => mret false end (b3, s) = (Ok sk, (b3, s1))) as Esk'.
    { destruct skip_fn as [f|]; [unfold on_snd; by rewrite Esk|]. by injection Esk as -> ->. }
    rewrite (M_step _ _ _ _ _ Esk'). rewrite (M_step (on_fst get) _ b3 (b3, s1) (b3, s1) eq_refl).
    rewrite (conv_id U32) by (unfold_ctype; simpl; lia).
    assert (on_fst (Buffer.advance_offset (zlen (md_of p.2) + zlen (data_of p.2))) (b3, s1) = (Ok (), (b4, s1))) as Eadv.
    { unfold on_fst, Buffer.advance_offset, b4. do 3 f_equal. unfold b3, Buffer.with_offset. simpl. f_equal.
      rewrite Ef, !zlen_app. rewrite Hsz, !zlen_app in Hb. pose proof (zlen_nonneg pre). pose proof (zlen_nonneg h1).
      pose proof (zlen_nonneg h2). pose proof (zlen_nonneg h3). pose proof (zlen_nonneg (frames outs)). unfold fmap in *.
      rewrite u64_id by lia. lia. }
    rewrite (M_step _ _ _ _ _ Eadv), (M_step _ _ _ _ _ Ecs). unfold mret, M_ret. simpl. by rewrite andb_assoc.
  - constructor; [|done]. exists (frames outs). by rewrite Erest.
Qed.

Lemma read_chunks_frames {S} (skip_fn : option (Z → M S bool)) outs b s bs s' :
  Forall (λ p, carried p.2 ∧ small p.2 = true ∧ in_ctype U32 p.1) outs → zlen (frames outs) < 2 ^ 62 →
  size_ b = 8 + zlen (frames outs) → data_ b = Some (to_bytes U64 (zlen outs) ++ frames outs) → zlen outs < 2 ^ 64 →
  run_skips skip_fn (outs.*1) s = (Ok bs, s') →
  ∃ cs, Pipeline.read_chunks skip_fn (b, s) = (Ok (cs, forallb negb bs), (Buffer.with_offset b (size_ b), s')) ∧
    Forall3 chunk_of outs bs cs.
Proof.
  intros Hall Hl Hsz Hd Hn Er. set (h := to_bytes U64 (zlen outs)) in *. assert (zlen h = 8) as Hh by apply zlen_to_bytes.
  pose proof (zlen_nonneg outs). pose proof (zlen_nonneg (frames outs)).
  destruct (read_headers_spec skip_fn outs Hall (Buffer.with_offset b 8) h s bs s' true) as (cs & Ecs & Hcs); try done;
    [simpl; rewrite zlen_app; lia|simpl; lia|].
  exists cs. split; [|done]. unfold Pipeline.read_chunks.
  rewrite (M_step (on_fst Buffer.reset_offset) _ () (b, s) (Buffer.with_offset b 0, s) eq_refl).
  assert (on_fst (Buffer.read 8) (Buffer.with_offset b 0, s) = (Ok h, (Buffer.with_offset b 8, s))) as E8.
  { unfold on_fst. rewrite (buffer_read_at _ [] h (frames outs)); try done; simpl; rewrite ?zlen_app, ?Hh; try done; lia. }
  rewrite (M_step _ _ _ _ _ E8). unfold h. rewrite of_to_bytes by (unfold_ctype; simpl; lia).
  unfold zlen at 1. rewrite Nat2Z.id. rewrite (M_step _ _ _ _ _ Ecs).
  set (b' := Buffer.with_offset b (size_ b)). change (Buffer.with_offset (Buffer.with_offset b 8) _) with b'.
  rewrite (M_step (on_fst get) _ b' (b', s') (b', s') eq_refl). unfold b'. simpl. by rewrite Z.eqb_refl.
Qed.

(** ** The output chunks *)

Lemma common_size_spec l : ∀ cs t, 0 ≤ t → t + sum l < 2 ^ 63 → Forall (Z.lt 0) l →
  ∃ r, common_size l false cs t = (r, t + sum l) ∧ (r = -1 ∨ r = cs ∧ Forall (.= cs) l).
Proof.
  induction l as [|n l IH]; intros cs t Ht Hb Hl.
  { exists cs. simpl. split; [f_equal; change (sum []) with 0; lia|]. by right. }
  apply Forall_cons in Hl as [Hn Hl]. change (sum (n :: l)) with (n + sum l) in *. pose proof (sum_nonneg l Hl). simpl common_size.
  rewrite u64_id by lia.
  destruct (IH (if n =? cs then cs else -1) (t + n)) as (r & -> & Hr); [lia..|done|].
  exists r. split; [f_equal; lia|]. destruct Hr as [->|[-> Hall]]; [by left|].
  destruct (Z.eqb_spec n cs) as [->|]; [right; split; [done|by constructor]|by left].
Qed.

Lemma null_placed m c : Forall (.= None) (ChunkedBuffer.buffers_ c) → placed m c.
Proof.
  intros Hn. unfold placed. destruct (ChunkedBuffer.buffer_addressing_ c); [by left|]. split.
  - intros i p k Hi. by pose proof (Forall_lookup_1 _ _ _ _ Hn Hi).
  - intros i j p p' Hi. by pose proof (Forall_lookup_1 _ _ _ _ Hn Hi).
Qed.

Lemma var_capacity_spec l : ∀ acc, 0 ≤ acc → acc + sum l < 2 ^ 63 → Forall (Z.lt 0) l → var_capacity l acc = Some (acc + sum l).
Proof.
  induction l as [|n l IH]; intros acc Ha Hb Hl; [change (sum []) with 0; simpl; f_equal; lia|].
  apply Forall_cons in Hl as [Hn Hl]. change (sum (n :: l)) with (n + sum l) in *. pose proof (sum_nonneg l Hl). simpl.
  destruct (Z.eqb_spec n 0); [lia|]. rewrite u64_id by lia. rewrite IH by (done || lia). f_equal. lia.
Qed.

(** The chunks of the output have the sizes of the chunks of the input. *)
Lemma init_chunks_spec a sizes : sizes ≠ [] → Forall (Z.lt 0) sizes → Forall (λ k, k < 2 ^ 32) sizes → sum sizes < 2 ^ 63 →
  ∃ cs c, common_size sizes true 0 0 = (cs, sum sizes) ∧
    (if cs =? -1 then init_var_size a sizes else init_fixed_size a (sum sizes) cs) ChunkedBuffer.empty = (Ok (), c) ∧
    shape c ∧ caps c = sizes ∧ Forall (.= None) (ChunkedBuffer.buffers_ c) ∧ ChunkedBuffer.size_ c = 0 ∧
    ChunkedBuffer.buffer_addressing_ c = a.
Proof.
  intros Hne Hpos Hu Hb. destruct sizes as [|n l]; [done|]. simpl common_size.
  apply Forall_cons in Hpos as Hpos'. destruct Hpos' as [Hn Hl]. change (sum (n :: l)) with (n + sum l) in *.
  pose proof (sum_nonneg l Hl). rewrite u64_id by lia.
  destruct (common_size_spec l n n) as (r & Er & Hr); [lia..|done|]. exists r. rewrite Z.add_0_l, Er.
  destruct (Z.eqb_spec r (-1)) as [->|Hr1].
  - set (c := ChunkedBuffer.mk a (replicate (length (n :: l)) None) 0 0 (n :: l) (n + sum l) 0). exists c. split_and!; try done.
    + unfold init_var_size. simpl buffers_. cbv iota. rewrite (var_capacity_spec (n :: l) 0) by done.
      by rewrite Z.add_0_l.
    + split; try done; simpl; [by rewrite length_replicate|lia].
    + by apply Forall_replicate.
  - destruct Hr as [?|[-> Hall]]; [done|]. apply Forall_cons in Hu as [Hu _].
    destruct (init_fixed_spec [] a (n + sum l) n) as (c & E & [Hs _] & Hcap & Hz & Ha & Hf & Hch & Hnull); [lia..|].
    exists c. split_and!; try done.
    destruct (fixed_inv c Hs Hf) as (a' & bl & ch & last & cap & size & n0 & -> & Hlen & -> & Hlast & _); [lia|].
    simpl in *. subst ch. rewrite (fixed_caps _ _ _ _ _ _ n0 Hlen).
    assert (l = replicate (length l) n) as El.
    { clear -Hall. induction Hall as [|x l -> _ IH]; [done|]. simpl. by rewrite <- IH. }
    rewrite El in Hcap |- *. rewrite sum_replicate in Hcap. clear El Hall.
    assert (Z.of_nat n0 = Z.of_nat (length l)) as En0 by nia. assert (n0 = length l ∧ last = n) as [-> ->] by (split; [lia|rewrite En0 in Hcap; lia]). rewrite <- replicate_cons_app. done.
Qed.

(** ** Undoing the chunks *)

Lemma sum_zlen (xs : list (list Z)) : sum (zlen <$> xs) = zlen (concat xs).
Proof.
  induction xs as [|x xs IH]; [done|]. rewrite fmap_cons. simpl concat. rewrite zlen_app, <- IH. done.
Qed.

Section Reverse.
Context `{HA : !Allocator}.
Hypothesis Hmem : ¬ out_of_memory.
Variable fs : list FilterImpl.
Hypothesis Hfs : Forall fixed_filter fs.

(** The memory of chunk [i] of the output, before it is written. *)
Definition dest_ready (ua : bool) (c : ChunkedBuffer.t) (i : nat) : Prop :=
  if ua then ∃ p, ChunkedBuffer.buffers_ c !! i = Some (Some p)
  else ChunkedBuffer.buffer_addressing_ c = DISCRETE ∧ ChunkedBuffer.buffers_ c !! i = Some None.

Lemma dest_pointer ua m c i k : cb_ok m c → caps c !! i = Some k → dest_ready ua c i →
  ∃ p m' c', (if ua then o ← this; lift (internal_buffer o i) else alloc_discrete i) (m, c) = (Ok (Some p), (m', c')) ∧
    cb_ok m' c' ∧ ChunkedBuffer.buffers_ c' !! i = Some (Some p) ∧ stable 0 0 m c m' c' ∧
    ChunkedBuffer.size_ c' = ChunkedBuffer.size_ c ∧
    ∀ j, j ≠ i → ChunkedBuffer.buffers_ c' !! j = ChunkedBuffer.buffers_ c !! j.
Proof.
  intros Hok Hk Hd. destruct ua.
  - destruct Hd as [p Hp]. exists p, m, c. split_and!; try done.
    unfold this, on_snd, get, mbind, M_bind, lift, internal_buffer. by rewrite Hp.
  - destruct Hd as [Hc Hp]. destruct (alloc_discrete_spec Hmem m c i k Hok Hc Hk Hp) as (d & E & Hok' & Hst & Hz).
    eexists _, _, _. split_and!; [exact E|done| |done|done|].
    + simpl. apply list_lookup_insert_eq. by eapply lookup_lt_Some.
    + intros j Hj. simpl. by rewrite list_lookup_insert_ne.
Qed.

Lemma reverse_body_spec ua m c i x p ch : cb_ok m c → caps c !! i = Some (zlen x) → dest_ready ua c i →
  filtered_as fs x p → chunk_of p false ch →
  ∃ m' c', reverse_body fs ua ch i (m, c) = (Ok (), (m', c')) ∧ cb_ok m' c' ∧ cholds m' c' (lead (caps c) i) x ∧
    stable (lead (caps c) i) (zlen x) m c m' c' ∧ ChunkedBuffer.size_ c' = ChunkedBuffer.size_ c ∧
    ∀ j, j ≠ i → ChunkedBuffer.buffers_ c' !! j = ChunkedBuffer.buffers_ c !! j.
Proof.
  intros Hok Hk Hd (Hn & Hbx & Hc & Hsm & Hu) [rest ->].
  destruct (dest_pointer ua m c i _ Hok Hk Hd) as (q & m1 & c1 & E1 & Hok1 & Hq & [S1 S2 S3 S4 S5] & Hz & Hoth).
  rewrite <- S2 in Hk. pose proof Hok1 as [Hs1 _]. pose proof (lead_bound _ _ _ (shape_caps c1 Hs1) Hk) as Hlb.
  pose proof (shape_small c1 Hs1). pose proof (shape_capacity c1 Hs1).
  destruct (chunk_block m1 c1 i (zlen x) q Hok1 Hk Hq) as (d & Hlive & Hq2 & Hqd). destruct q as [b a]. simpl in Hq2, Hqd, Hlive.
  pose proof (zlen_nonneg x). destruct (small_sizes p.2 Hc Hsm) as (_ & _ & L1 & L2 & L3).
  set (dest := slice a (zlen x) d). assert (zlen dest = zlen x) as Hdest by (apply zlen_slice; lia).
  assert (Forall byte_ok dest) as Hbd by (apply Forall_take, Forall_drop, Hlive).
  assert (mem_load (b, a) (zlen x) m1 = (Ok dest, m1)) as E2.
  { unfold mem_load. simpl. rewrite (proj1 Hlive), memread_ok by lia. done. }
  pose proof (total_bytes p.2 input_metadata (car_good _ Hc)). pose proof (total_bytes p.2 input_data (car_good _ Hc)).
  destruct (reverse_chunk_spec fs (md_of p.2) (data_of p.2) x dest rest) as (st & E3); try done; try lia.
  destruct (store_addr m1 c1 (lead (caps c1) i) b a x d) as (m2 & E4 & Hok2 & Hh & Hk2); try done.
  { intros j Hj. rewrite <- (Z.add_0_r (lead (caps c1) i)), <- (Z.add_0_r a).
    rewrite (chunk_addr m1 c1 i (zlen x) (b, a) 0 (zlen x)); try done; lia. }
  exists m2, c1. rewrite <- S2. split_and!; try done.
  - unfold reverse_body. cbn [skip orig_chunk_len]. rewrite (M_step _ _ _ _ _ E1). unfold plus, lift.
    unfold mbind at 1, M_bind at 1. rewrite Z.add_0_r, Hn.
    unfold mbind at 1, M_bind at 1, on_fst at 1. rewrite E2. unfold mbind at 1, M_bind at 1. rewrite E3. simpl fst.
    unfold on_fst. by rewrite E4.
  - split; try done. intros r v Hr Hv. apply Hk2; [done|]. apply S5; [lia|done].
Qed.

(** All the chunks, from chunk [k] on. *)
Lemma reverse_all_spec ua xs outs bs chs : Forall2 (filtered_as fs) xs outs → Forall3 chunk_of outs bs chs →
  ∀ k m c, cb_ok m c → (∀ i x, xs !! i = Some x → caps c !! (k + i)%nat = Some (zlen x) ∧ dest_ready ua c (k + i)) →
  (ua = true → forallb negb bs = true) →
  ∃ m' c', parallel_for (imap (λ i ch, reverse_body fs ua ch (k + i)) chs) (m, c) = (Ok (), (m', c')) ∧ cb_ok m' c' ∧
    stable (lead (caps c) k) (sum (zlen <$> xs)) m c m' c' ∧ ChunkedBuffer.size_ c' = ChunkedBuffer.size_ c ∧
    ∀ i x, xs !! i = Some x → bs !! i = Some false → cholds m' c' (lead (caps c) (k + i)) x.
Proof.
  intros Hxs. revert bs chs. induction Hxs as [|x p xs outs Hx Hxs IH]; intros bs chs Hch k m c Hok Hi Hua.
  { inversion Hch; subst. exists m, c. split_and!; try done. }
  inversion Hch as [|p' b ch outs' bs' chs' Hch1 Hchs]; subst. clear Hch.
  rewrite imap_cons. simpl parallel_for. rewrite Nat.add_0_r.
  rewrite (imap_ext _ (λ i ch, reverse_body fs ua ch (S k + i))) by (intros; simpl; by rewrite Nat.add_succ_r).
  destruct (Hi 0%nat x eq_refl) as [Hk Hd]. rewrite Nat.add_0_r in Hk, Hd.
  pose proof Hok as [Hs _]. pose proof (lead_S _ _ _ Hk) as HSk. rewrite fmap_cons. change (sum (zlen x :: ?l)) with (zlen x + sum l).
  assert (0 ≤ sum (zlen <$> xs)) as Hnn by (rewrite sum_zlen; apply zlen_nonneg). pose proof (zlen_nonneg x).
  assert (∃ m1 c1, reverse_body fs ua ch k (m, c) = (Ok (), (m1, c1)) ∧ cb_ok m1 c1 ∧
    (b = false → cholds m1 c1 (lead (caps c) k) x) ∧ stable (lead (caps c) k) (zlen x) m c m1 c1 ∧
    ChunkedBuffer.size_ c1 = ChunkedBuffer.size_ c ∧
    ∀ j, j ≠ k → ChunkedBuffer.buffers_ c1 !! j = ChunkedBuffer.buffers_ c !! j)
    as (m1 & c1 & E1 & Hok1 & Hh1 & St1 & Hz1 & Hoth).
  { destruct b.
    - exists m, c. split_and!; try done. destruct Hch1 as [rest ->]. unfold reverse_body. cbn [skip].
      destruct ua; [by specialize (Hua eq_refl)|done].
    - destruct (reverse_body_spec ua m c k x p ch Hok Hk Hd Hx Hch1) 
        as (m1 & c1 & Eb & Hokb & Hhb & Stb & Hzb & Hob). by exists m1, c1. }
  rewrite E1. pose proof St1 as [A1 A2 A3 A4 A5].
  destruct (IH bs' chs' Hchs (S k) m1 c1 Hok1) as (m2 & c2 & E2 & Hok2 & St2 & Hz2 & Hh2).
  { intros i y Hy. destruct (Hi (S i) y Hy) as [Hc Hd']. replace (S k + i)%nat with (k + S i)%nat by lia. rewrite A2. split; [done|].
    unfold dest_ready in *. rewrite Hoth, A1 by lia. done. }
  { intros Hu. specialize (Hua Hu). simpl in Hua. by apply andb_prop in Hua as [_ ?]. }
  rewrite A2 in *. exists m2, c2. split_and!; try done.
  - eapply stable_trans; [exact St1|exact St2|lia..].
  - congruence.
  - intros [|i] y Hy Hb.
    + injection Hy as <-. injection Hb as ->. rewrite Nat.add_0_r. intros j v Hj.
      apply (stable_bytes _ _ _ _ _ _ St2); [apply lookup_lt_Some in Hj; unfold zlen in *; lia|]. by apply Hh1.
    + rewrite Nat.add_succ_r. by apply Hh2.
Qed.

(** The memory of the output: one block when every chunk is wanted. *)
Lemma output_memory (ua : bool) m c : shape c → ChunkedBuffer.buffers_ c ≠ [] → Forall (.= None) (ChunkedBuffer.buffers_ c) →
  ChunkedBuffer.buffer_addressing_ c = (if ua then CONTIGUOUS else DISCRETE) →
  ∃ m' c', ((if ua then p ← on_fst (mem_malloc (ChunkedBuffer.capacity_ c));
              match p with None => fail SC_Filter "malloc() failed" | Some _ => ignore (on_snd (set_contiguous p)) end
            else mret ()) : CB unit) (m, c) = (Ok (), (m', c')) ∧ cb_ok m' c' ∧ caps c' = caps c ∧
    ChunkedBuffer.capacity_ c' = ChunkedBuffer.capacity_ c ∧
    ∀ i k, caps c !! i = Some k → dest_ready ua c' i.
Proof.
  intros Hs Hne Hnull Ha. pose proof (shape_size c Hs). destruct ua.
  - destruct (mem_malloc_spec Hmem (ChunkedBuffer.capacity_ c) m) as (d & Em & Hd & Hby); [lia|].
    destruct (placed_ptrs (m ++ [Some d]) c (length m) d Hs Ha) as [Hok _]; [by apply live_new|lia|].
    exists (m ++ [Some d]), (ChunkedBuffer.with_buffers c (ptrs c (length m))). split_and!; try done.
    + unfold mbind, M_bind, on_fst. rewrite Em. unfold ignore, on_snd, set_contiguous. rewrite decide_True by done.
      rewrite (set_contiguous_spec c (length m) Hs). by destruct (ChunkedBuffer.buffers_ c).
    + apply caps_with_buffers, length_ptrs.
    + intros i k Hi. exists (length m, lead (caps c) i). simpl. by eapply ptrs_lookup.
  - exists m, c. split_and!; try done; [split; [done|by apply null_placed]|].
    intros i k Hi. split; [done|]. apply lookup_lt_Some in Hi. rewrite (shape_len c Hs) in Hi.
    destruct (lookup_lt_is_Some_2 _ _ Hi) as [p Hp]. rewrite Hp. by rewrite (Forall_lookup_1 _ _ _ _ Hnull Hp).
Qed.

Lemma chunk_lengths xs outs bs chs : Forall2 (filtered_as fs) xs outs → Forall3 chunk_of outs bs chs →
  orig_chunk_len <$> chs = zlen <$> xs.
Proof.
  intros Hxs. revert bs chs. induction Hxs as [|x p xs outs Hx Hxs IH]; intros bs chs Hch; inversion Hch; subst; [done|].
  rewrite !fmap_cons. f_equal; [|by eapply IH]. destruct Hx as [Hp _]. by match goal with H : chunk_of _ _ _ |- _ => destruct H as [? ->] end.
Qed.

Lemma filter_chunks_reverse_spec xs outs bs chs m : Forall2 (filtered_as fs) xs outs → Forall3 chunk_of outs bs chs →
  xs ≠ [] → Forall (.≠ []) xs → Forall (λ x, zlen x < 2 ^ 32) xs → zlen (concat xs) < 2 ^ 63 →
  ∃ m' c', filter_chunks_reverse fs chs (forallb negb bs) (m, ChunkedBuffer.empty) = (Ok (), (m', c')) ∧ cb_ok m' c' ∧
    caps c' = zlen <$> xs ∧ ChunkedBuffer.size_ c' = zlen (concat xs) ∧
    ∀ i x, xs !! i = Some x → bs !! i = Some false → cholds m' c' (lead (zlen <$> xs) i) x.
Proof.
  intros Hxs Hch Hne Hnes Hu Hb. set (ua := forallb negb bs).
  destruct (init_chunks_spec (if ua then CONTIGUOUS else DISCRETE) (zlen <$> xs)) as (cs & c & Ecs & Ec & Hs & Hcaps & Hnull & Hz & Ha).
  { by destruct xs. }
  { apply Forall_fmap. eapply Forall_impl; [exact Hnes|]. intros x Hx. by apply zlen_pos. }
  { by apply Forall_fmap. }
  { by rewrite sum_zlen. }
  assert (ChunkedBuffer.capacity_ c = zlen (concat xs)) as Hcap by (by rewrite (shape_capacity c Hs), Hcaps, sum_zlen).
  destruct (output_memory ua m c Hs) as (m1 & c1 & E1 & Hok1 & Hc1 & Hcap1 & Hd); try done.
  { intros Hnil. pose proof (shape_len c Hs) as Hl. rewrite Hcaps, Hnil, length_fmap in Hl. by destruct xs. }
  destruct (reverse_all_spec ua xs outs bs chs Hxs Hch 0 m1 c1 Hok1) as (m2 & c2 & E2 & Hok2 & St2 & Hz2 & Hh2).
  { intros i x Hx. rewrite Hc1, Hcaps. simpl. rewrite list_lookup_fmap, Hx. split; [done|].
    apply (Hd i (zlen x)). by rewrite Hcaps, list_lookup_fmap, Hx. }
  { done. }
  pose proof St2 as [_ A2 A3 _ _]. pose proof (zlen_nonneg (concat xs)).
  exists m2, (ChunkedBuffer.with_size c2 (ChunkedBuffer.capacity_ c2)). split_and!.
  - unfold filter_chunks_reverse. rewrite (chunk_lengths xs outs bs chs Hxs Hch), Ecs.
    assert (on_snd (if cs =? -1 then init_var_size (if ua then CONTIGUOUS else DISCRETE) (zlen <$> xs)
      else init_fixed_size (if ua then CONTIGUOUS else DISCRETE) (sum (zlen <$> xs)) cs) (m, ChunkedBuffer.empty) = (Ok (), (m, c))) as E0
      by (unfold on_snd; by rewrite Ec).
    rewrite (M_step _ _ _ _ _ E0), sum_zlen, <- Hcap, (M_step _ _ _ _ _ E1), (M_step _ _ _ _ _ E2).
    unfold this, on_snd, get, mbind, M_bind, ChunkedBuffer.set_size. by rewrite Z.ltb_irrefl.
  - apply cb_ok_size; [done|]. lia.
  - change (caps (ChunkedBuffer.with_size c2 _)) with (caps c2). congruence.
  - simpl. congruence.
  - intros i x Hx Hbi. specialize (Hh2 i x Hx Hbi). rewrite Hc1, Hcaps in Hh2. done.
Qed.
End Reverse.
