(* ===== verification/PipelineSkip.v ===== *)
(** * Chunks that a query does not need

    [skip_chunk_reversal_fixed] skips a chunk exactly when no cell range of
    the query meets it. *)

From S2P Require Import Prelude.
From S2P Require Import ChunkedBuffer.
From S2P Require Import ChunkedProofs.
From S2P Require Import Pipeline.
From S2P Require Import PipelineRoundtrip.
Local Open Scope Z_scope.

(** The contract of the list of ranges: ascending, disjoint and not empty. *)
Fixpoint ordered (lo : Z) (rs : list (Z * Z)) : Prop :=
  match rs with [] => True | (s, e) :: rs => lo ≤ s < e ∧ e < 2 ^ 64 ∧ ordered e rs end.

(** A range meets the cells from [a] to [b]. *)
Definition meets (a b : Z) (r : Z * Z) : Prop := r.1 ≤ b ∧ a < r.2.

#[global] Instance meets_dec a b r : Decision (meets a b r).
Proof. unfold meets. apply _. Defined.

Lemma ordered_after lo rs r : ordered lo rs → r ∈ rs → lo ≤ r.1 < r.2.
Proof.
  revert lo. induction rs as [|[s e] rs IH]; intros lo Ho Hr; [by apply not_elem_of_nil in Hr|].
  destruct Ho as (H1 & H2 & H3). apply elem_of_cons in Hr as [->|Hr]; [done|]. specialize (IH e H3 Hr). lia.
Qed.

Lemma skip_common_spec a b rs lo : 0 ≤ lo → a ≤ b → ordered lo rs → ∃ k rs',
  skip_chunk_reversal_common a b rs = (bool_decide (Forall (λ r, ¬ meets a b r) rs), rs') ∧ rs = k ++ rs' ∧
  Forall (λ r, r.2 ≤ a) k ∧ ∃ lo', 0 ≤ lo' ∧ ordered lo' rs'.
Proof.
  revert lo. induction rs as [|[s e] rs IH]; intros lo Hlo Hab Ho.
  { exists [], []. split_and!; try done. by exists 0. }
  destruct Ho as (H1 & H2 & H3). simpl. rewrite (u64_id (e - 1)) by lia.
  destruct (Z.ltb_spec b s) as [Hlt|Hge].
  - exists [], ((s, e) :: rs). split_and!; try done; [|by exists lo].
    f_equal. symmetry. apply bool_decide_eq_true_2. constructor; [unfold meets; simpl; lia|].
    apply Forall_forall. intros r Hr. pose proof (ordered_after e rs r H3 Hr). unfold meets. lia.
  - destruct (Z.leb_spec a (e - 1)) as [Hle|Hgt].
    + exists [], ((s, e) :: rs). split_and!; try done; [|by exists lo].
      f_equal. symmetry. apply bool_decide_eq_false_2. intros Hall. apply Forall_cons in Hall as [Hn _].
      apply Hn. unfold meets. simpl. lia.
    + destruct (IH e ltac:(lia) Hab H3) as (k & rs' & -> & -> & Hk & Hlo'). exists ((s, e) :: k), rs'. split_and!; try done.
      * f_equal. apply bool_decide_ext. rewrite Forall_cons. unfold meets at 2. simpl. split; [|tauto]. intros; split; [lia|done].
      * constructor; [simpl; lia|done].
Qed.

(** The cells of the chunks of [sizes] bytes, from cell [p] on. *)
Definition first_cell (cs p : Z) (sizes : list Z) (i : nat) : Z := p + lead sizes i / cs.

Lemma run_skips_spec cs sizes p rs : 0 < cs → Forall (λ n, 0 < n ∧ n mod cs = 0) sizes →
  0 ≤ p → p + sum sizes / cs < 2 ^ 64 → (∃ lo, 0 ≤ lo ∧ ordered lo rs) →
  ∃ bs s', run_skips (Some (skip_chunk_reversal_fixed false cs)) sizes (p, rs) = (Ok bs, s') ∧
    length bs = length sizes ∧
    ∀ i n b, sizes !! i = Some n → bs !! i = Some b →
      let a := first_cell cs p sizes i in
      b = bool_decide (Forall (λ r, ¬ meets a (a + n / cs - 1) r) rs).
Proof.
  intros Hcs Hs. revert p rs. induction Hs as [|n sizes [Hn Hmod] Hs IH]; intros p rs Hp Hb (lo & Hlo & Ho).
  { eexists [], _. split; [reflexivity|]. done. }
  change (sum (n :: sizes)) with (n + sum sizes) in Hb.
  assert (n = cs * (n / cs)) as En by (pose proof (Z.div_mod n cs ltac:(lia)); lia).
  set (q := n / cs) in *. assert (0 < q) as Hq by nia.
  assert ((n + sum sizes) / cs = q + sum sizes / cs) as Ediv by (rewrite En, Z.add_comm, Z.mul_comm, Z.div_add by lia; lia).
  assert (0 ≤ sum sizes / cs) as Hsn.
  { apply Z.div_pos; [|done]. apply sum_nonneg. eapply Forall_impl; [exact Hs|]. intros x Hx. simpl in Hx. lia. }
  rewrite Ediv in Hb. simpl run_skips. unfold mbind at 1, M_bind at 1, skip_chunk_reversal_fixed at 1.
  destruct (Z.eqb_spec cs 0); [lia|]. rewrite Hmod. simpl negb. destruct (Z.ltb_spec n cs); [nia|]. cbn [orb].
  fold q. rewrite (u64_id (p + q - 1)), (u64_id (p + q)) by lia.
  destruct (skip_common_spec p (p + q - 1) rs lo Hlo ltac:(lia) Ho) as (k & rs' & -> & -> & Hk & Hlo').
  destruct (IH (p + q) rs') as (bs & s' & E & Hl & Hbs); [lia..|done|].
  eexists (_ :: bs), s'. rewrite (M_step _ _ _ _ _ E). split; [reflexivity|]. split; [simpl; by rewrite Hl|].
  intros [|i] n' b Hn' Hb'.
  - injection Hn' as <-. injection Hb' as <-. unfold first_cell. rewrite lead_0, Z.div_0_l, Z.add_0_r by lia. done.
  - simpl in Hn', Hb'. rewrite (Hbs i n' b Hn' Hb'). unfold first_cell.
    assert (lead (n :: sizes) (S i) = n + lead sizes i) as -> by done.
    assert ((n + lead sizes i) / cs = q + lead sizes i / cs) as -> by (rewrite En, Z.add_comm, Z.mul_comm, Z.div_add by lia; lia).
    rewrite Z.add_assoc. apply bool_decide_ext. rewrite Forall_app.
    enough (Forall (λ r, ¬ meets (p + q + lead sizes i / cs) (p + q + lead sizes i / cs + n' / cs - 1) r) k) by tauto.
    eapply Forall_impl; [exact Hk|]. intros r Hr. unfold meets. simpl in Hr.
    assert (0 ≤ lead sizes i / cs); [|lia]. apply Z.div_pos; [|done]. apply sum_nonneg, Forall_take.
    eapply Forall_impl; [exact Hs|]. intros x Hx. simpl in Hx. lia.
Qed.

(** C23. Over successive chunks of whole cells, and for ascending disjoint cell
    ranges, a chunk is skipped exactly when none of its cells is in one of the
    ranges, although the code goes through the list of ranges only once. *)
Theorem skip_reversal_exact cs sizes p rs : 0 < cs → Forall (λ n, 0 < n ∧ n mod cs = 0) sizes →
  0 ≤ p → p + sum sizes / cs < 2 ^ 64 → (∃ lo, 0 ≤ lo ∧ ordered lo rs) →
  ∃ bs s', run_skips (Some (skip_chunk_reversal_fixed false cs)) sizes (p, rs) = (Ok bs, s') ∧
    length bs = length sizes ∧
    ∀ i n b, sizes !! i = Some n → bs !! i = Some b →
      let a := p + lead sizes i / cs in
      b = true ↔ ∀ cell r, a ≤ cell < a + n / cs → r ∈ rs → ¬ r.1 ≤ cell < r.2.
Proof.
  intros Hcs Hs Hp Hb Ho. destruct (run_skips_spec cs sizes p rs Hcs Hs Hp Hb Ho) as (bs & s' & E & Hl & Hbs).
  exists bs, s'. split_and!; try done. intros i n b Hn Hbi a. rewrite (Hbs i n b Hn Hbi). fold (first_cell cs p sizes i) in a. fold a.
  rewrite bool_decide_eq_true, Forall_forall. unfold meets. pose proof (Forall_lookup_1 _ _ _ _ Hs Hn) as [Hn0 Hmod].
  assert (0 < n / cs) by (pose proof (Z.div_mod n cs ltac:(lia)); nia).
  destruct Ho as (lo & Hlo & Ho). split.
  - intros H1 cell r Hc Hr Hin. apply (H1 r Hr). lia.
  - intros H1 r Hr Hm. pose proof (ordered_after lo rs r Ho Hr). apply (H1 (Z.max a r.1) r); try done; lia.
Qed.

Lemma skip_reversal_exact_witness : ∃ bs s',
  run_skips (Some (skip_chunk_reversal_fixed false 4)) [40; 40; 20] (0, [(3, 5); (21, 23)]) = (Ok bs, s') ∧ length bs = 3%nat.
Proof.
  destruct (skip_reversal_exact 4 [40; 40; 20] 0 [(3, 5); (21, 23)]) as (bs & s' & E & Hl & _).
  - lia.
  - repeat constructor; lia.
  - lia.
  - reflexivity.
  - exists 0. simpl. split; [lia|]. lia.
  - exists bs, s'. split; [exact E|exact Hl].
Defined.
