(* ===== verification/FilterFixed.v ===== *)
(** * Filters and fixed allocations

    In the last turn of the reverse pipeline [output_data] is a fixed
    allocation: memory of the caller.  No operation that filters use replaces
    the buffer of a fixed allocation, or changes the size of memory that a
    buffer does not own. *)

From stdpp Require Import functions.
From S2P Require Import Prelude.
From S2P Require Import ConstBuffer.
From S2P Require Import Buffer.
From S2P Require Import FilterBuffer.
From S2P Require Import FilterIO.
From S2P Require Import FilterRun.
From S2P Require Import Pipeline.
From S2P Require Import PipelineProofs.
Local Open Scope Z_scope.

(** Operations of a [Buffer] that keep memory that is not owned. *)
Definition buf_stable {A} (m : M Buffer.t A) : Prop := ∀ b r b', m b = (r, b') → owns_data_ b = false →
  owns_data_ b' = false ∧ zlen (block (data_ b')) = zlen (block (data_ b)).

(** [fixed_stable], for the segments [L] of [output_data]. *)
Definition fixed_at {A} (L : list BufferOrView) (m : M Store A) : Prop := ∀ st r st', m st = (r, st') →
  fixed_allocation_data_ (bufs st output_data) = true → buffers_ (bufs st output_data) = L →
  (fixed_allocation_data_ (bufs st' output_data) = true ∧ buffers_ (bufs st' output_data) = L) ∧
  ∀ id b, heap st !! id = Some b → owns_data_ b = false →
    ∃ b', heap st' !! id = Some b' ∧ owns_data_ b' = false ∧ zlen (block (data_ b')) = zlen (block (data_ b)).

Lemma fixed_at_stable {A} (m : M Store A) : (∀ L, fixed_at L m) → fixed_stable m.
Proof. intros H st r st' E Hf. destruct (H _ st r st' E Hf eq_refl) as [? ?]. done. Qed.

Create HintDb fixed.

(** ** Buffers *)

Lemma bs_bind {A B} (m : M Buffer.t A) (k : A → M Buffer.t B) : buf_stable m → (∀ a, buf_stable (k a)) → buf_stable (m ≫= k).
Proof.
  intros Hm Hk b r b' E Ho. unfold mbind, M_bind in E. destruct (m b) as [[a| |] b1] eqn:Em.
  - destruct (Hm b _ b1 Em Ho) as [Ho1 Hz1]. destruct (Hk a b1 r b' E Ho1) as [? ?]. split; [done|congruence].
  - injection E as <- <-. by apply (Hm b _ b1 Em).
  - injection E as <- <-. by apply (Hm b _ b1 Em).
Qed.

Lemma bs_pure {A} (m : M Buffer.t A) : (∀ b, (m b).2 = b) → buf_stable m.
Proof. intros Hm b r b' E Ho. specialize (Hm b). rewrite E in Hm. simpl in Hm. by subst. Qed.

(** Operations on the fields, and those that fail on memory not owned. *)
Lemma bs_fields {A} (m : M Buffer.t A) :
  (∀ b, owns_data_ b = false → owns_data_ (m b).2 = false ∧ data_ (m b).2 = data_ b) → buf_stable m.
Proof. intros Hm b r b' E Ho. destruct (Hm b Ho) as [H1 H2]. rewrite E in *. simpl in *. by rewrite H2. Qed.

Lemma bs_reset_offset : buf_stable Buffer.reset_offset.
Proof. by apply bs_fields. Qed.
Lemma bs_set_offset o : buf_stable (Buffer.set_offset o).
Proof. by apply bs_fields. Qed.
Lemma bs_reset_size : buf_stable Buffer.reset_size.
Proof. by apply bs_fields. Qed.
Lemma bs_set_size n : buf_stable (Buffer.set_size n).
Proof. by apply bs_fields. Qed.
Lemma bs_advance_offset n : buf_stable (Buffer.advance_offset n).
Proof. by apply bs_fields. Qed.
Lemma bs_advance_size n : buf_stable (Buffer.advance_size n).
Proof. apply bs_fields. intros b Ho. unfold Buffer.advance_size. by rewrite Ho. Qed.
Lemma bs_read n : buf_stable (Buffer.read n).
Proof. apply bs_fields. intros b Ho. unfold Buffer.read. repeat case_match; done. Qed.
Lemma bs_realloc `{Allocator} n : buf_stable (Buffer.realloc n).
Proof. apply bs_fields. intros b Ho. unfold Buffer.realloc. by rewrite Ho. Qed.
Lemma bs_get : buf_stable (@get Buffer.t).
Proof. by apply bs_pure. Qed.
Lemma bs_ret {A} (a : A) : buf_stable (mret a).
Proof. by apply bs_pure. Qed.

Lemma memwrite_length {A} (l x l' : list A) o : memwrite l o x = Ok l' → zlen l' = zlen l.
Proof.
  unfold memwrite. destruct ((0 <=? o) && (o + zlen x <=? zlen l)) eqn:E; [|done]. intros [= <-].
  apply andb_prop in E as [H1%Z.leb_le H2%Z.leb_le]. by apply zlen_overlay.
Qed.

Lemma bs_memwrite o (x : list Z) : buf_stable (fun b =>
  match memwrite (block (data_ b)) o x with
  | Ok d => (Ok (), mk (alloced_size_ b) (Some d) (Buffer.offset_ b) (owns_data_ b) (size_ b))
  | _ => (UB, b)
  end).
Proof.
  intros b r b' E Ho. destruct (memwrite _ _ _) as [d| |] eqn:Ed; injection E as <- <-; [|done..].
  simpl. split; [done|]. by eapply memwrite_length.
Qed.

Lemma bs_transform f part : buf_stable (transform f part).
Proof.
  intros b r b' E Ho. unfold transform in E.
  destruct (const_bytes part) as [src| |]; [|by injection E as <- <-..].
  destruct (memread _ _ _) as [dest| |]; [|by injection E as <- <-..].
  by apply (bs_memwrite (Buffer.offset_ b) (f src dest) b r b').
Qed.

#[export] Hint Resolve bs_reset_offset bs_set_offset bs_reset_size bs_set_size bs_advance_offset bs_advance_size bs_read
  bs_bind bs_realloc bs_get bs_ret bs_memwrite bs_transform : fixed.

(** ** The store *)

Section Rules.
Context (L : list BufferOrView).

Lemma fx_same {A} (m : M Store A) : (∀ st, (m st).2 = st) → fixed_at L m.
Proof.
  intros Hm st r st' E H1 H2. specialize (Hm st). rewrite E in Hm. simpl in Hm. subst st'. split; [done|].
  intros id b Hb Ho. by exists b.
Qed.

Lemma fx_bind {A B} (m : M Store A) (k : A → M Store B) : fixed_at L m → (∀ a, fixed_at L (k a)) → fixed_at L (m ≫= k).
Proof.
  intros Hm Hk st r st' E H1 H2. unfold mbind, M_bind in E. destruct (m st) as [[a| |] s1] eqn:Em.
  - destruct (Hm st _ s1 Em H1 H2) as [[F1 F2] Hh1]. destruct (Hk a s1 r st' E F1 F2) as [? Hh2]. split; [done|].
    intros id b Hb Ho. destruct (Hh1 id b Hb Ho) as (b1 & Hb1 & Ho1 & Hz1).
    destruct (Hh2 id b1 Hb1 Ho1) as (b2 & Hb2 & Ho2 & Hz2). exists b2. split_and!; try done. congruence.
  - injection E as <- <-. by apply (Hm st _ s1 Em).
  - injection E as <- <-. by apply (Hm st _ s1 Em).
Qed.

(** A copy of [output_data] taken earlier. *)
Definition current (n : fbname) (f : FilterBuffer) : Prop :=
  n = output_data → buffers_ f = L ∧ fixed_allocation_data_ f = true.

Lemma fx_fb {B} n (k : FilterBuffer → M Store B) : (∀ f, current n f → fixed_at L (k f)) → fixed_at L (fb n ≫= k).
Proof.
  intros Hk st r st' E H1 H2. apply (Hk (bufs st n)) in E; [by apply E|]. intros ->. done.
Qed.

Lemma fx_set_fb n f : current n f → fixed_at L (set_fb n f).
Proof.
  intros Hf st r st' E H1 H2. injection E as <- <-. simpl. split; [|by eauto].
  destruct (decide (n = output_data)) as [->|Hn].
  - rewrite fn_lookup_insert. destruct (Hf eq_refl). done.
  - by rewrite fn_lookup_insert_ne.
Qed.

Lemma fx_set_cursor n i rel : fixed_at L (set_cursor n i rel).
Proof.
  intros st r st' E H1 H2. injection E as <- <-. simpl. split; [|by eauto].
  destruct (decide (n = output_data)) as [->|Hn]; [by rewrite fn_lookup_insert|by rewrite fn_lookup_insert_ne].
Qed.

Lemma fx_on_heap {A} id (m : M Buffer.t A) : buf_stable m → fixed_at L (on_heap id m).
Proof.
  intros Hm st r st' E H1 H2. unfold on_heap in E. destruct (heap st !! id) as [b|] eqn:Hb.
  - destruct (m b) as [r1 b'] eqn:Em. injection E as <- <-. simpl. split; [done|]. intros i c Hc Ho.
    destruct (decide (id = i)) as [<-|Hi].
    + rewrite Hb in Hc. injection Hc as <-. destruct (Hm b r1 b' Em Ho) as [? ?]. exists b'. split; [|done].
      apply list_lookup_insert_eq. by eapply lookup_lt_Some.
    + exists c. by rewrite list_lookup_insert_ne.
  - injection E as <- <-. split; [done|]. eauto.
Qed.

Lemma fx_get_buffer : fixed_at L get_buffer.
Proof.
  intros st r st' E H1 H2. unfold get_buffer in E. destruct (available_ st); injection E as <- <-; simpl; (split; [done|]).
  - intros id b Hb Ho. exists b. split; [|done]. by apply lookup_app_l_Some.
  - eauto.
Qed.

Lemma fx_on_ptr {A} id (m : M Buffer.t A) : buf_stable m → fixed_at L (on_ptr id m).
Proof.
  intros Hm st r st' E. unfold on_ptr in E. destruct (refs st id =? 1)%nat; [exact (fx_on_heap id m Hm st r st' E)|].
  injection E as <- <-. intros H1 H2. split; [done|]. eauto.
Qed.

Lemma fx_ignore {A} (m : M Store A) : fixed_at L m → fixed_at L (ignore m).
Proof.
  intros Hm st r st' E H1 H2. unfold ignore in E. destruct (m st) as [r1 s1] eqn:Em.
  destruct r1; injection E as <- <-; by apply (Hm st _ s1 Em).
Qed.

Lemma fx_assert_ok {A} (m : M Store A) : fixed_at L m → fixed_at L (assert_ok m).
Proof.
  intros Hm st r st' E H1 H2. unfold assert_ok in E. destruct (m st) as [r1 s1] eqn:Em.
  destruct r1; injection E as <- <-; by apply (Hm st _ s1 Em).
Qed.
End Rules.

Lemma buffer_same s st : (buffer s st).2 = st.
Proof. unfold buffer. repeat case_match; done. Qed.

(** [current] of a copy whose segments and flag were not changed. *)
Ltac is_current :=
  intros ->; simpl in *;
  repeat match goal with H : current _ _ _ |- _ => specialize (H eq_refl); destruct H end;
  repeat match goal with E : fixed_allocation_data_ _ = true |- _ => rewrite E in * end;
  simpl in *; split; simpl; congruence.

(** One rule of the syntax of the operation, then what is left of it. *)
Ltac fixed_step :=
  match goal with
  | |- fixed_at _ (fb _ ≫= _) => apply fx_fb; intros ? ?
  | |- fixed_at _ (_ ≫= _) => apply fx_bind; [|intros ?]
  | |- fixed_at _ (set_fb _ _) => apply fx_set_fb; is_current
  | |- fixed_at _ (set_cursor _ _ _) => apply fx_set_cursor
  | |- fixed_at _ (on_heap _ _) => apply fx_on_heap
  | |- fixed_at _ (on_ptr _ _) => apply fx_on_ptr
  | |- fixed_at _ get_buffer => apply fx_get_buffer
  | |- fixed_at _ (ignore _) => apply fx_ignore
  | |- fixed_at _ (assert_ok _) => apply fx_assert_ok
  | |- fixed_at _ (buffer _) => apply fx_same; apply buffer_same
  | |- fixed_at _ (mret _) => by apply fx_same
  | |- fixed_at _ (lift _) => by apply fx_same
  | |- fixed_at _ (fail _ _) => by apply fx_same
  | |- fixed_at _ (not_ok _) => by apply fx_same
  | |- buf_stable (_ ≫= _) => apply bs_bind; [|intros ?]
  | |- buf_stable (if ?b then _ else _) => destruct b eqn:?
  | |- fixed_at _ (let '(_, _) := ?x in _) => destruct x eqn:?
  | |- fixed_at _ (if ?b then _ else _) => destruct b eqn:?
  | |- fixed_at _ (match ?x with _ => _ end) => destruct x eqn:?
  | |- fixed_at _ ((match ?x with _ => _ end) _) => destruct x eqn:?
  | |- _ => solve [eauto with fixed]
  end.
Ltac fixed := intros; repeat fixed_step.

(** ** The operations of FilterBuffer *)

Section Operations.
Context (L : list BufferOrView).
Implicit Types (n other : fbname) (s : BufferOrView) (l : list BufferOrView).

Lemma fx_with_buffer {A} s (m : M Buffer.t A) : buf_stable m → fixed_at L (with_buffer s m).
Proof. intros Hm. unfold with_buffer. fixed. Qed.
Hint Resolve fx_with_buffer : fixed.

Lemma fx_poke s o x : fixed_at L (poke s o x).
Proof. unfold poke. fixed. Qed.
Hint Resolve fx_poke : fixed.

Lemma fx_step_cursor n k bound : fixed_at L (step_cursor n k bound).
Proof. unfold step_cursor. fixed. Qed.
Hint Resolve fx_step_cursor : fixed.

Lemma fx_read_loop n l : ∀ i k, fixed_at L (read_loop n l i k).
Proof. induction l; cbn [read_loop]; fixed. Qed.
Hint Resolve fx_read_loop : fixed.

Lemma fx_read n k : fixed_at L (FilterBuffer.read n k).
Proof. unfold FilterBuffer.read. fixed. Qed.
Hint Resolve fx_read : fixed.

Lemma fx_read_value n T : fixed_at L (FilterBuffer.read_value n T).
Proof. unfold FilterBuffer.read_value. fixed. Qed.
Hint Resolve fx_read_value : fixed.

Lemma fx_write_loop n l : ∀ i x, fixed_at L (write_loop n l i x).
Proof. induction l; cbn [write_loop]; fixed. Qed.
Hint Resolve fx_write_loop : fixed.

Lemma fx_write n x : fixed_at L (FilterBuffer.write n x).
Proof. unfold FilterBuffer.write. fixed. Qed.
Hint Resolve fx_write : fixed.

Lemma fx_write_from_loop n l : ∀ o k, fixed_at L (write_from_loop n l o k).
Proof. induction l; cbn [write_from_loop]; fixed. Qed.
Hint Resolve fx_write_from_loop : fixed.

Lemma fx_write_from n other k : fixed_at L (write_from n other k).
Proof. unfold write_from. fixed. Qed.
Hint Resolve fx_write_from : fixed.

Lemma fx_relative_offset n o : fixed_at L (get_relative_offset n o).
Proof.
  unfold get_relative_offset. fixed. generalize 0%nat, o. generalize (buffers_ f). intros l.
  induction l; cbn [relative_offset_loop]; fixed.
Qed.
Hint Resolve fx_relative_offset : fixed.

Lemma fx_size n : fixed_at L (FilterBuffer.size n).
Proof. unfold FilterBuffer.size. fixed. generalize 0. generalize (buffers_ f). intros l. induction l; cbn [size_loop]; fixed. Qed.
Hint Resolve fx_size : fixed.

Lemma fx_reset_offset n : fixed_at L (FilterBuffer.reset_offset n).
Proof. unfold FilterBuffer.reset_offset. fixed. Qed.
Hint Resolve fx_reset_offset : fixed.

Lemma fx_advance_offset n k : fixed_at L (FilterBuffer.advance_offset n k).
Proof. unfold FilterBuffer.advance_offset. fixed. Qed.
Hint Resolve fx_advance_offset : fixed.

Lemma fx_front_size f : fixed_at L (front_size f).
Proof. unfold front_size. fixed. Qed.
Hint Resolve fx_front_size : fixed.

Lemma fx_prepend_buffer `{Allocator} n k : fixed_at L (prepend_buffer n k).
Proof. unfold prepend_buffer. fixed. Qed.
Hint Resolve fx_prepend_buffer : fixed.

Lemma fx_append_loop n l : ∀ o k, fixed_at L (append_loop n l o k).
Proof. induction l; cbn [append_loop]; fixed. Qed.
Hint Resolve fx_append_loop : fixed.

Lemma fx_append_view_part n other o k : fixed_at L (append_view_part n other o k).
Proof. unfold append_view_part. fixed. Qed.
Hint Resolve fx_append_view_part : fixed.

Lemma fx_append_view n other : fixed_at L (append_view n other).
Proof. unfold append_view. fixed. Qed.

Lemma fx_get_const_buffer n k : fixed_at L (get_const_buffer n k).
Proof. unfold get_const_buffer. fixed. Qed.

Lemma fx_first_ptr n : fixed_at L (first_ptr n).
Proof. unfold first_ptr, buffer_ptr. fixed. Qed.

Lemma fx_repeat k m : fixed_at L m → fixed_at L (repeat_m k m).
Proof. intros Hm. induction k; cbn [repeat_m]; fixed. Qed.

Lemma fx_forward_metadata : fixed_at L forward_metadata.
Proof. unfold forward_metadata, offset. fixed. Qed.
End Operations.

#[export] Hint Resolve fx_with_buffer fx_poke fx_read fx_read_value fx_write fx_write_from fx_size fx_reset_offset
  fx_advance_offset fx_prepend_buffer fx_append_view_part fx_append_view fx_get_const_buffer fx_first_ptr fx_repeat
  fx_forward_metadata : fixed.

(** ** The filters *)

Lemma pass_through_fixed : fixed_stable pass_through.
Proof. apply fixed_at_stable. unfold pass_through. fixed. Qed.

Lemma byteshuffle_fixed `{Allocator} t : fixed_stable (byteshuffle_reverse t).
Proof.
  apply fixed_at_stable. intros L. unfold byteshuffle_reverse. fixed. apply fx_repeat.
  unfold byteshuffle_reverse_part, unshuffle_part, advance_output. fixed.
Qed.

Lemma copy_input_fixed L n : fixed_at L (copy_input n).
Proof. unfold copy_input. fixed. Qed.
#[export] Hint Resolve copy_input_fixed : fixed.

Lemma decode_window_fixed L T k : fixed_at L (decode_window T k).
Proof.
  unfold decode_window. fixed. generalize (of_bytes T a). generalize (Z.to_nat (a0 / csize T)). intros i.
  induction i; cbn [decode_elements]; fixed.
Qed.
#[export] Hint Resolve decode_window_fixed : fixed.

Lemma positive_delta_fixed `{Allocator} t : fixed_stable (positive_delta_reverse t).
Proof. apply fixed_at_stable. unfold positive_delta_reverse, positive_delta_reverse_t, pass_through, unsupported. fixed. Qed.

Lemma decompress_window_fixed L T k : fixed_at L (decompress_window T k).
Proof.
  unfold decompress_window. fixed. generalize (of_bytes T a). generalize (Z.to_nat (a1 / csize T)). intros i.
  induction i; cbn [decompress_elements]; unfold read_compressed_value; fixed.
Qed.
#[export] Hint Resolve decompress_window_fixed : fixed.

Lemma bit_width_fixed `{Allocator} t : fixed_stable (bit_width_reverse t).
Proof. apply fixed_at_stable. unfold bit_width_reverse, bit_width_reverse_t, pass_through, unsupported. fixed. Qed.
