(* ===== verification/PipelineTile.v ===== *)
(** * Filtering a tile and reading it back

    The two directions of the pipeline composed on a tile: what was written
    to the tile reads back after [run_forward] and [run_reverse], in full or
    for the cell ranges of a query. *)

From S2P Require Import Prelude.
From S2P Require Import ChunkedBuffer.
From S2P Require Import ConstBuffer.
From S2P Require Import Buffer.
From S2P Require Import ChunkedProofs.
From S2P Require Import ChunkedGrowth.
From S2P Require Import ChunkedSpec.
From S2P Require Import Tile.
From S2P Require Import FilterBuffer.
From S2P Require Import Pipeline.
From S2P Require Import PipelineProofs.
From S2P Require Import PipelineFormat.
From S2P Require Import PipelineRoundtrip.
From S2P Require Import PipelineSkip.
Local Open Scope Z_scope.

(** A tile that is not filtered, with the bytes [X]. *)
Record tile_holds (m : Mem) (t : Tile) (c : Chunks) (X : list Z) : Prop := {
  th_chunks : chunked_buffer_ t = Some c;
  th_ok : cb_ok m c;
  th_size : ChunkedBuffer.size_ c = zlen X;
  th_bytes : cholds m c 0 X;
  th_filtered : filtered_buffer_ t = Buffer.empty
}.

(** The pipeline takes the chunks of such a tile. *)
Definition tile_admits (ss : list Stage) (c : Chunks) (X : list Z) : Prop :=
  zlen (ChunkedBuffer.buffers_ c) < 2 ^ 32 ∧ Forall (λ x, admits_chunk ss x = true) (cut (caps c) X).

(** The chunks [xs] of a filtered tile. *)
Definition tile_frames (fs : list FilterImpl) (t : Tile) (xs : list (list Z)) : Prop := ∃ outs,
  Forall2 (filtered_as fs) xs outs ∧ zlen (frames outs) < 2 ^ 62 ∧ zlen outs < 2 ^ 32 ∧
  chunked_buffer_ t = Some ChunkedBuffer.empty ∧
  alloced_size_ (filtered_buffer_ t) = 8 + zlen (frames outs) ∧
  size_ (filtered_buffer_ t) = 8 + zlen (frames outs) ∧
  data_ (filtered_buffer_ t) = Some (to_bytes U64 (zlen outs) ++ frames outs).

Section Tiles.
Context `{HA : !Allocator}.
Hypothesis Hmem : ¬ out_of_memory.
Context (ss : list Stage) (Hss : Forall lossless ss).
Let fs : list FilterImpl := impl <$> ss.

Lemma cut_le ks X : (length (cut ks X) ≤ length ks)%nat.
Proof.
  revert X. induction ks as [|k ks IH]; intros X; [done|]. destruct X as [|v X]; [simpl; lia|].
  rewrite cut_cons by done. simpl. specialize (IH (drop (Z.to_nat k) (v :: X))). lia.
Qed.

Lemma run_forward_tile_spec m t c X m1 t1 : tile_holds m t c X → tile_admits ss c X →
  run_forward_tile fs (m, t) = (Ok (), (m1, t1)) →
  tile_frames fs t1 (cut (caps c) X) ∧ cell_size_ t1 = cell_size_ t ∧ dim_num_ t1 = dim_num_ t.
Proof.
  intros [Hc Hok Hsz Hh Hf] [Hn Hsm] E. pose proof Hok as [Hs _]. unfold run_forward_tile in E.
  rewrite (M_step the_tile _ t (m, t) (m, t)) in E by done. rewrite Hc in E.
  unfold mbind at 1, M_bind at 1, lift at 1 in E. destruct (Tile.size t); [|done..].
  unfold mbind at 1, M_bind at 1, on_filtered at 1 in E. rewrite Hf in E.
  destruct (filter_chunks_forward fs m c Buffer.empty) as [[[]| |] b] eqn:Ef; [|done..].
  unfold on_chunks in E. simpl chunked_buffer_ in E. rewrite Hc in E.
  destruct (free_empties m c Hok) as [m' Em]. rewrite Em in E. injection E as <- <-. simpl. split; [|done].
  destruct (forward_output Hmem ss m c X b) as (outs & Ho & Hf62 & _ & Ha & Hb & Hd); try done.
  exists outs. split_and!; try done. pose proof (Forall2_length _ _ _ Ho). pose proof (cut_le (caps c) X).
  rewrite (shape_len c Hs) in *. unfold zlen in *. lia.
Qed.

(** What one of the forms of [run_reverse] gives back. *)
Definition unfiltered_as (m2 : Mem) (t2 : Tile) (xs : list (list Z)) (bs : list bool) : Prop := ∃ c2,
  chunked_buffer_ t2 = Some c2 ∧ cb_ok m2 c2 ∧ alloced_size_ (filtered_buffer_ t2) = 0 ∧
  ChunkedBuffer.size_ c2 = zlen (concat xs) ∧
  ∀ i x, xs !! i = Some x → bs !! i = Some false → cholds m2 c2 (lead (zlen <$> xs) i) x.

Lemma run_reverse_spec {S} (skip_fn : option (Z → M S bool)) s0 s' bs uc m1 t1 xs : tile_frames fs t1 xs → dim_num_ t1 = 0 →
  xs ≠ [] → Forall (.≠ []) xs → Forall (λ x, zlen x < 2 ^ 32) xs → zlen (concat xs) < 2 ^ 63 →
  run_skips skip_fn (zlen <$> xs) s0 = (Ok bs, s') →
  ∃ m2 t2, run_reverse_internal fs uc skip_fn s0 (m1, t1) = (Ok (), (m2, t2)) ∧ unfiltered_as m2 t2 xs bs.
Proof.
  intros (outs & Ho & Hf62 & Hno & Hc & Ha & Hsz & Hd) Hdim Hne Hnes Hu Hcat Er.
  assert (outs.*1 = zlen <$> xs) as E1.
  { clear -Ho. induction Ho as [|x p xs outs (Hp & _) _ IH]; [done|]. simpl. by f_equal. }
  rewrite <- E1 in Er.
  destruct (read_chunks_frames skip_fn outs (filtered_buffer_ t1) s0 bs s') as (chs & Ech & Hch); try done; [|lia|].
  { eapply Forall2_Forall_r; [exact Ho|]. eapply Forall_impl; [exact Hu|]. intros x Hx p (-> & _ & ? & ? & _).
    simpl in Hx. split_and!; try done. unfold_ctype. pose proof (zlen_nonneg x). lia. }
  destruct (filter_chunks_reverse_spec Hmem fs (lossless_fixed_all ss Hss) xs outs bs chs m1) as (m2 & c2 & Ef & Hok & _ & Hz & Hx); try done.
  unfold run_reverse_internal. rewrite (M_step the_tile _ t1 (m1, t1) (m1, t1)) by done. rewrite Hc.
  unfold mbind at 1, M_bind at 1, lift at 1. simpl massert. cbv iota.
  unfold mbind at 1, M_bind at 1, on_filtered at 1. rewrite Ech. cbv beta iota.
  unfold mbind at 1, M_bind at 1, on_chunks at 1. simpl chunked_buffer_. rewrite Hc, Ef. cbv beta iota.
  unfold mbind at 1, M_bind at 1, on_filtered at 1, Buffer.clear. cbv beta iota. rewrite Hdim. simpl.
  eexists m2, _. split; [reflexivity|]. exists c2. by split_and!.
Qed.

(** *** Reading the unfiltered tile *)

Lemma concat_byte (xs : list (list Z)) i x o v : xs !! i = Some x → x !! o = Some v →
  concat xs !! (Z.to_nat (lead (zlen <$> xs) i) + o)%nat = Some v.
Proof.
  revert i. induction xs as [|y xs IH]; intros i Hi Ho; [done|]. destruct i as [|i].
  - injection Hi as ->. rewrite lead_0. simpl. by apply lookup_app_l_Some.
  - simpl in Hi. rewrite fmap_cons. assert (lead (zlen y :: (zlen <$> xs)) (S i) = zlen y + lead (zlen <$> xs) i) as -> by done.
    assert (0 ≤ lead (zlen <$> xs) i).
    { unfold lead. rewrite <- fmap_take, sum_zlen. apply zlen_nonneg. }
    assert (zlen y = Z.of_nat (length y)) by done. simpl. rewrite lookup_app_r by lia. rewrite <- (IH i Hi Ho). f_equal. lia.
Qed.

(** The chunks that meet the bytes from [q] to [q + n] hold them. *)
Lemma holds_parts m c xs q n : Forall (.≠ []) xs → 0 ≤ q → 0 ≤ n → q + n ≤ zlen (concat xs) →
  (∀ i x, xs !! i = Some x → lead (zlen <$> xs) i < q + n → q < lead (zlen <$> xs) i + zlen x → cholds m c (lead (zlen <$> xs) i) x) →
  cholds m c q (slice q n (concat xs)).
Proof.
  intros Hne Hq Hn Hb Hx j v Hj. unfold slice in Hj. apply lookup_take_Some in Hj as [Hj Hjn]. rewrite lookup_drop in Hj.
  assert (Forall (Z.lt 0) (zlen <$> xs)) as Hpos.
  { apply Forall_fmap. eapply Forall_impl; [exact Hne|]. intros x. apply zlen_pos. }
  destruct (locate_elim (zlen <$> xs) (q + Z.of_nat j) Hpos) as (i & k & o & Hi & Ho & Eq).
  { rewrite sum_zlen. pose proof (lookup_lt_Some _ _ _ Hj). unfold zlen in *. lia. }
  apply list_lookup_fmap_Some in Hi as (x & -> & Hi). pose proof (lead_bound _ _ _ Hpos (eq_trans (list_lookup_fmap zlen xs i) (f_equal (fmap zlen) Hi))).
  destruct (lookup_lt_is_Some_2 x (Z.to_nat o)) as [w Hw]; [unfold zlen in Ho; lia|].
  pose proof (concat_byte xs i x _ w Hi Hw) as Hc. replace (Z.to_nat (lead (zlen <$> xs) i) + Z.to_nat o)%nat with (Z.to_nat q + j)%nat in Hc by lia.
  rewrite Hc in Hj. injection Hj as <-. rewrite Eq. replace o with (Z.of_nat (Z.to_nat o)) by lia.
  apply (Hx i x Hi); [lia..|done].
Qed.

Lemma read_at_spec m t c q x : chunked_buffer_ t = Some c → alloced_size_ (filtered_buffer_ t) = 0 → cb_ok m c → x ≠ [] →
  cholds m c q x → q + zlen x ≤ ChunkedBuffer.size_ c → read_at (zlen x) q (m, t) = (Ok x, (m, t)).
Proof.
  intros Hc Hf Hok Hne Hh Hsz. unfold read_at. rewrite (M_step the_tile _ t (m, t) (m, t)) by done.
  unfold assert_unfiltered, filtered. rewrite Hf, Hc. unfold mbind at 1, M_bind at 1, lift at 1. cbn.
  rewrite Hc, (read_bytes m c q x Hok Hne Hh Hsz). do 2 f_equal. destruct t; simpl in *; by subst.
Qed.
End Tiles.

(** ** The round trips *)

Lemma chunks_small c X : shape c → zlen X = ChunkedBuffer.size_ c → X ≠ [] →
  let xs := cut (caps c) X in
  concat xs = X ∧ xs ≠ [] ∧ Forall (.≠ []) xs ∧ Forall (λ x, zlen x < 2 ^ 32) xs ∧ zlen (concat xs) < 2 ^ 63.
Proof.
  intros Hs HX Hne xs. pose proof (shape_size c Hs). pose proof (shape_small c Hs).
  assert (concat xs = X) as Hcat by (apply cut_concat; [by apply shape_caps|]; rewrite <- (shape_capacity c Hs); lia).
  assert (∀ i x, xs !! i = Some x → x ≠ [] ∧ zlen x < 2 ^ 32) as Hxs.
  { intros i x Hi. apply cut_lookup in Hi as (k & Hk & Hl & ->); [|by apply shape_caps].
    pose proof (lead_bound _ _ _ (shape_caps c Hs) Hk). pose proof (Forall_lookup_1 _ _ _ _ (shape_u32 c Hs) Hk) as Hu. simpl in Hu.
    assert (zlen (slice (lead (caps c) i) k X) = Z.min k (zlen X - lead (caps c) i)) as Hz by (apply slice_zlen; lia).
    split; [|lia]. intros Hnil. rewrite Hnil in Hz. change (zlen (@nil Z)) with 0 in Hz. lia. }
  split_and!; [done|by intros Hn; rewrite Hn in Hcat| | |rewrite Hcat; lia]; apply Forall_lookup; intros i x Hi; by apply (Hxs i).
Qed.

Lemma run_reverse_enter `{!Allocator} fs uc ranges m1 t1 xs : tile_frames fs t1 xs →
  run_reverse_fixed fs uc ranges (m1, t1) =
  match ranges with
  | None => run_reverse_internal fs uc (None : option (Z → M unit bool)) () (m1, t1)
  | Some cs => run_reverse_internal fs uc
      (Some (skip_chunk_reversal_fixed (bool_decide (length fs = 0)%nat) (cell_size_ t1))) (0, cs) (m1, t1)
  end.
Proof.
  intros (outs & _ & _ & _ & Hc & Ha & _). unfold run_reverse_fixed. rewrite (M_step the_tile _ t1 (m1, t1) (m1, t1)) by done.
  unfold filtered. rewrite Hc, Ha. pose proof (zlen_nonneg (frames outs)). destruct (Z.ltb_spec 0 (8 + zlen (frames outs))); [|lia].
  by destruct ranges.
Qed.

Lemma no_skips (sizes : list Z) : run_skips (None : option (Z → M unit bool)) sizes () = (Ok (replicate (length sizes) false), ()).
Proof. induction sizes as [|n sizes IH]; [done|]. simpl. unfold mbind, M_bind in *. simpl. by rewrite IH. Qed.

(** C2. A tile that went through the pipeline reads back: whatever filters the
    pipeline has, provided each undoes itself on what it produced, and however
    the tile is cut into chunks, [run_reverse] after [run_forward] succeeds and
    the tile has its bytes again. *)
Theorem tile_filter_roundtrip `{!Allocator} (ss : list Stage) uc m t c X m1 t1 : ¬ out_of_memory → Forall lossless ss →
  tile_holds m t c X → X ≠ [] → tile_admits ss c X → dim_num_ t = 0 →
  run_forward_tile (impl <$> ss) (m, t) = (Ok (), (m1, t1)) →
  ∃ m2 t2, run_reverse_fixed (impl <$> ss) uc None (m1, t1) = (Ok (), (m2, t2)) ∧
    read_at (zlen X) 0 (m2, t2) = (Ok X, (m2, t2)).
Proof.
  intros Hmem Hfs Ht Hne Hsm Hdim E. pose proof Ht as [Hc Hok Hsz Hh Hf]. pose proof Hok as [Hs _].
  destruct (run_forward_tile_spec Hmem ss Hfs m t c X m1 t1 Ht Hsm E) as (Hfr & _ & Hd1).
  destruct (chunks_small c X Hs (eq_sym Hsz) Hne) as (Hcat & Hn1 & Hn2 & Hu & Hb). set (xs := cut (caps c) X) in *.
  rewrite (run_reverse_enter (impl <$> ss) uc None m1 t1 xs Hfr).
  destruct (run_reverse_spec Hmem ss Hfs None () () (replicate (length (zlen <$> xs)) false) uc m1 t1 xs Hfr)
    as (m2 & t2 & E2 & c2 & Hc2 & Hok2 & Hf2 & Hz2 & Hx2); [congruence|done..|apply no_skips|].
  exists m2, t2. split; [done|]. rewrite Hcat in Hz2. apply (read_at_spec m2 t2 c2); try done; [|lia].
  pose proof (zlen_nonneg X). replace X with (slice 0 (zlen X) (concat xs)).
  - apply holds_parts; try done; [rewrite Hcat; lia|]. intros i x Hi _ _. apply Hx2; [done|].
    apply lookup_replicate. split; [done|]. rewrite length_fmap. by eapply lookup_lt_Some.
  - rewrite Hcat. unfold slice, zlen. rewrite drop_0, Nat2Z.id. apply take_ge. lia.
Qed.

Lemma lead_divide cs ks i : Forall (Z.divide cs) ks → (cs | lead ks i).
Proof.
  intros Hk. unfold lead. apply (Forall_take _ i) in Hk. induction Hk; [apply Z.divide_0_r|by apply Z.divide_add_r].
Qed.

(** Chunks of whole cells. *)
Lemma whole_cells c X cs : shape c → zlen X = ChunkedBuffer.size_ c → 0 < cs → (cs | zlen X) → Forall (Z.divide cs) (caps c) →
  Forall (λ n, 0 < n ∧ n mod cs = 0) (zlen <$> cut (caps c) X).
Proof.
  intros Hs HX Hcs Hd Hk. pose proof (shape_size c Hs). apply Forall_fmap, Forall_lookup. intros i x Hi.
  apply cut_lookup in Hi as (k & Hki & Hl & ->); [|by apply shape_caps]. pose proof (lead_bound _ _ _ (shape_caps c Hs) Hki).
  simpl. rewrite slice_zlen by lia. split; [lia|]. apply Z.mod_divide; [lia|].
  pose proof (lead_divide cs (caps c) i Hk).
  destruct (Z.min_spec k (zlen X - lead (caps c) i)) as [[_ ->]|[_ ->]]; [by apply (Forall_lookup_1 _ _ _ _ Hk Hki)|by apply Z.divide_sub_r].
Qed.

(** The decisions on the chunks for the ranges of a query; a pipeline without
    filters skips nothing. *)
Lemma skips_needed nf cs sizes rs : 0 < cs → Forall (λ n, 0 < n ∧ n mod cs = 0) sizes →
  sum sizes / cs < 2 ^ 64 → (∃ lo, 0 ≤ lo ∧ ordered lo rs) →
  ∃ bs s', run_skips (Some (skip_chunk_reversal_fixed nf cs)) sizes (0, rs) = (Ok bs, s') ∧ length bs = length sizes ∧
    ∀ i n r, sizes !! i = Some n → r ∈ rs → r.1 * cs < lead sizes i + n → lead sizes i < r.2 * cs → bs !! i = Some false.
Proof.
  intros Hcs Hs Hb Ho. destruct nf.
  { exists (replicate (length sizes) false), (0, rs). rewrite length_replicate. split_and!; try done.
    - clear. induction sizes as [|n sizes IH]; [done|]. simpl. unfold mbind, M_bind in *. simpl. by rewrite IH.
    - intros i n r Hi _ _ _. apply lookup_replicate. split; [done|]. by eapply lookup_lt_Some. }
  destruct (run_skips_spec cs sizes 0 rs Hcs Hs) as (bs & s' & E & Hl & Hbs); [lia..|done|].
  exists bs, s'. split_and!; try done. intros i n r Hi Hr H1 H2.
  destruct (lookup_lt_is_Some_2 bs i) as [b Hbi]; [rewrite Hl; by eapply lookup_lt_Some|]. rewrite Hbi. f_equal.
  rewrite (Hbs i n b Hi Hbi). apply bool_decide_eq_false_2. rewrite Forall_forall. intros Hall. apply (Hall r Hr). clear Hall Hbs.
  pose proof (Forall_lookup_1 _ _ _ _ Hs Hi) as [Hn Hmod]. unfold meets, first_cell.
  destruct (lead_divide cs sizes i) as [l El].
  { eapply Forall_impl; [exact Hs|]. intros k [_ Hk]. apply Z.mod_divide; [lia|done]. }
  rewrite El in *. rewrite Z.div_mul by lia. pose proof (Z.div_mod n cs ltac:(lia)) as En. rewrite Hmod in En.
  split; [enough (r.1 < l + n / cs) by lia|enough (l < r.2) by lia]; apply (Z.mul_lt_mono_pos_r cs); lia.
Qed.

(** C4. A query that needs only some cell ranges of a tile gets them: the
    chunks that no range meets are not unfiltered, and every range, also one
    over several chunks, reads as the same cells of the tile before it was
    filtered. *)
Theorem tile_ranges_roundtrip `{!Allocator} (ss : list Stage) uc m t c X m1 t1 rs : ¬ out_of_memory → Forall lossless ss →
  tile_holds m t c X → X ≠ [] → tile_admits ss c X → dim_num_ t = 0 →
  0 < cell_size_ t → (cell_size_ t | zlen X) → Forall (Z.divide (cell_size_ t)) (caps c) →
  (∃ lo, 0 ≤ lo ∧ ordered lo rs) →
  run_forward_tile (impl <$> ss) (m, t) = (Ok (), (m1, t1)) →
  ∃ m2 t2, run_reverse_fixed (impl <$> ss) uc (Some rs) (m1, t1) = (Ok (), (m2, t2)) ∧
    ∀ s e, (s, e) ∈ rs → e * cell_size_ t ≤ zlen X →
      let n := (e - s) * cell_size_ t in
      read_at n (s * cell_size_ t) (m2, t2) = (Ok (slice (s * cell_size_ t) n X), (m2, t2)).
Proof.
  intros Hmem Hfs Ht Hne Hsm Hdim Hcs HdX Hdk Ho E. pose proof Ht as [Hc Hok Hsz Hh Hf]. pose proof Hok as [Hs _].
  destruct (run_forward_tile_spec Hmem ss Hfs m t c X m1 t1 Ht Hsm E) as (Hfr & Hcs1 & Hd1).
  destruct (chunks_small c X Hs (eq_sym Hsz) Hne) as (Hcat & Hn1 & Hn2 & Hu & Hb).
  pose proof (whole_cells c X (cell_size_ t) Hs (eq_sym Hsz) Hcs HdX Hdk) as Hwh. set (xs := cut (caps c) X) in *.
  rewrite (run_reverse_enter (impl <$> ss) uc (Some rs) m1 t1 xs Hfr), Hcs1. pose proof (zlen_nonneg X). rewrite Hcat in Hb.
  destruct (skips_needed (bool_decide (length (impl <$> ss) = 0%nat)) (cell_size_ t) (zlen <$> xs) rs) as (bs & s' & Es & Hl & Hbs); try done.
  { rewrite sum_zlen, Hcat. pose proof (Z.div_le_upper_bound (zlen X) (cell_size_ t) (zlen X) Hcs). nia. }
  destruct (run_reverse_spec Hmem ss Hfs (Some (skip_chunk_reversal_fixed (bool_decide (length (impl <$> ss) = 0%nat)) (cell_size_ t)))
    (0, rs) s' bs uc m1 t1 xs Hfr) as (m2 & t2 & E2 & c2 & Hc2 & Hok2 & Hf2 & Hz2 & Hx2);
    [congruence|done..|by rewrite Hcat|exact Es|].
  exists m2, t2. split; [done|]. intros s e Hr He n. rewrite Hcat in Hz2. destruct Ho as (lo & Hlo & Ho).
  pose proof (ordered_after lo rs (s, e) Ho Hr) as Hse. simpl in Hse.
  assert (0 < n) as Hn by (unfold n; nia). assert (s * cell_size_ t + n = e * cell_size_ t) as Hend by (unfold n; lia).
  assert (zlen (slice (s * cell_size_ t) n X) = n) as Hzs by (apply zlen_slice; nia).
  rewrite <- Hzs at 1. apply (read_at_spec m2 t2 c2); try done; [|rewrite <- Hcat; apply holds_parts; try done; rewrite ?Hcat|lia].
  - intros Hnil. rewrite Hnil in Hzs. change (zlen (@nil Z)) with 0 in Hzs. lia.
  - nia.
  - lia.
  - lia.
  - intros i x Hi H1 H2. apply Hx2; [done|]. eapply (Hbs i (zlen x) (s, e)); try done; simpl; [|lia..].
    by rewrite list_lookup_fmap, Hi.
Qed.
