(* ===== verification/Codecs.v ===== *)
(** * The compressors behind one interface (compressors/)

    RLE and double-delta are the code of RLE.v and DoubleDelta.v.  GZip, ZStd,
    LZ4 and BZip wrap zlib, zstd, lz4 and bzip2: the wrappers are modelled with
    the library functions as parameters. *)

From Stdlib Require Import SpecFloat.
From S2P Require Import Prelude.
From S2P Require Import Enums.
From S2P Require Import Num.
From S2P Require Import ConstBuffer.
From S2P Require Import PreallocatedBuffer.
From S2P Require Import Buffer.
From S2P Require Import RLE.
From S2P Require Import DoubleDelta.
From S2P Require Import FilterRun.
Local Open Scope Z_scope.

(** The library functions.  Bytes that a function writes to its output are part
    of its result; sizes are passed as the callers pass them. *)
Record Libraries : Type := mkLibraries {
  (** Return code of the initialization at a level. *)
  deflateInit : Z → Z;
  (** [deflate(Z_FINISH)] of the input into [avail_out] bytes: the return code,
      the bytes of input that are left, and the bytes written. *)
  deflate : Z → list Z → Z → Z * Z * list Z;
  inflateInit : Z;
  inflate : list Z → Z → Z * list Z;
  (** Whether a context can be created. *)
  ZSTD_createCCtx : bool;
  ZSTD_createDCtx : bool;
  (** Of the capacity of the output and the input: an error name, or the bytes
      written. *)
  ZSTD_compressCCtx : Z → Z → list Z → string + list Z;
  ZSTD_decompressDCtx : Z → list Z → string + list Z;
  ZSTD_compressBound : Z → Z;
  (** Of the memory of the source, its size and the capacity of the output: the
      return code and the bytes written. *)
  LZ4_compress_default : list Z → Z → Z → Z * list Z;
  LZ4_decompress_safe : list Z → Z → Z → Z * list Z;
  LZ4_compressBound : Z → Z;
  (** Of the level, the capacity of the output and the input: the return code
      and the bytes written. *)
  BZ2_bzBuffToBuffCompress : Z → Z → list Z → Z * list Z;
  BZ2_bzBuffToBuffDecompress : Z → list Z → Z * list Z
}.

(** ** Buffers as the libraries use them *)

Definition is_null {A} (o : option A) : bool := match o with None => true | Some _ => false end.

(** The bytes [x] written at [cur_data()]. *)
Definition store_cur (x : list Z) : M Buffer.t unit := fun b =>
  match memwrite (block (Buffer.data_ b)) (Buffer.offset_ b) x with
  | Ok d => (Ok (), Buffer.mk (alloced_size_ b) (Some d) (Buffer.offset_ b) (owns_data_ b) (Buffer.size_ b))
  | _ => (UB, b)
  end.

(** [advance_size(n); advance_offset(n)]. *)
Definition advance (n : Z) : M Buffer.t unit := Buffer.advance_size n;; Buffer.advance_offset n.

Definition pstore_cur (x : list Z) : M PreallocatedBuffer.t unit := fun p =>
  match memwrite (block (PreallocatedBuffer.data_ p)) (PreallocatedBuffer.offset_ p) x with
  | Ok d => (Ok (), PreallocatedBuffer.mk (Some d) (PreallocatedBuffer.offset_ p) (PreallocatedBuffer.size_ p))
  | _ => (UB, p)
  end.

Definition compression_error {S A} (e : string) : M S A := fail SC_Compression e.

(** The input as the library sees it: [n] bytes from [data()]. *)
Definition input_bytes (c : ConstBuffer.t) (n : Z) : res (list Z) := memread (block (ConstBuffer.data_ c)) 0 n.

Section Wrappers.
Context (L : Libraries).

(** ** GZip *)

Definition Z_OK : Z := 0.
Definition Z_STREAM_END : Z := 1.
Definition Z_STREAM_ERROR : Z := -2.

(** [default_level()] is [Z_DEFAULT_COMPRESSION]. *)
Definition gzip_compress (level : Z) (input : ConstBuffer.t) : M Buffer.t unit :=
  b ← get;
  if is_null (ConstBuffer.data_ input) || is_null (Buffer.data_ b) then
    compression_error "Failed compressing with GZip; invalid buffer format"
  else
    let level := if level <? 0 then -1 else level in
    if negb (deflateInit L level =? Z_OK) then fail SC_GZip "Cannot compress with GZIP"
    else
      x ← lift (input_bytes input (conv U32 (ConstBuffer.size_ input)));
      free ← lift (Buffer.free_space b);
      let avail := conv U32 free in
      let '(ret, avail_in, out) := deflate L level x avail in
      store_cur out;;
      if (ret =? Z_STREAM_ERROR) || negb (avail_in =? 0) then fail SC_GZip "Cannot compress with GZIP"
      else advance (u64 (free - (avail - zlen out))).

Definition gzip_decompress (input : ConstBuffer.t) : M PreallocatedBuffer.t unit :=
  p ← get;
  if is_null (ConstBuffer.data_ input) || is_null (PreallocatedBuffer.data_ p) then
    compression_error "Failed decompressing with GZip; invalid buffer format"
  else if negb (inflateInit L =? Z_OK) then fail SC_GZip "Cannot decompress with GZIP"
  else
    x ← lift (input_bytes input (conv U32 (ConstBuffer.size_ input)));
    let free := PreallocatedBuffer.free_space p in
    let avail := conv U32 free in
    let '(ret, out) := inflate L x avail in
    pstore_cur out;;
    if negb (ret =? Z_STREAM_END) then fail SC_GZip "Cannot decompress with GZIP, Stream Error"
    else PreallocatedBuffer.advance_offset (u64 (free - (avail - zlen out))).

(** The smallest integer not below a finite number. *)
Definition f_ceil (f : ftype) (x : Z) : res Z :=
  match fdec f x with
  | S754_zero _ => Ok 0
  | S754_finite s p e =>
      let m := if s then Z.neg p else Z.pos p in
      Ok (if 0 <=? e then m * 2 ^ e else - (- m / 2 ^ (- e)))
  | _ => UB
  end.

Definition double_of (z : Z) : Z := fenc F64 (f_of_Z F64 z).

(** [6 + 5 * uint64_t(ceil(n / 16834.0))]. *)
Definition gzip_overhead (n : Z) : res Z :=
  c ← f_ceil F64 (fdiv F64 (double_of n) (double_of 16834));
  c ← in_range U64 (Ok c);
  Ok (u64 (6 + u64 (5 * c))).

(** ** ZStd *)

Definition zstd_compress (level : Z) (input : ConstBuffer.t) : M Buffer.t unit :=
  b ← get;
  if is_null (ConstBuffer.data_ input) || is_null (Buffer.data_ b) then
    compression_error "Failed compressing with ZStd; invalid buffer format"
  else if negb (ZSTD_createCCtx L) then
    compression_error "ZStd compression failed; could not allocate context."
  else
    x ← lift (input_bytes input (ConstBuffer.size_ input));
    free ← lift (Buffer.free_space b);
    match ZSTD_compressCCtx L (if level <? 0 then 5 else level) free x with
    | inl msg => compression_error ("ZStd compression failed: " ++ msg)
    | inr out => store_cur out;; advance (zlen out)
    end.

Definition zstd_decompress (input : ConstBuffer.t) : M PreallocatedBuffer.t unit :=
  p ← get;
  if is_null (ConstBuffer.data_ input) || is_null (PreallocatedBuffer.data_ p) then
    compression_error "Failed decompressing with ZStd; invalid buffer format"
  else if negb (ZSTD_createDCtx L) then
    compression_error "ZStd decompression failed; could not allocate context."
  else
    x ← lift (input_bytes input (ConstBuffer.size_ input));
    match ZSTD_decompressDCtx L (PreallocatedBuffer.free_space p) x with
    | inl msg => compression_error ("ZStd decompression failed: " ++ msg)
    | inr out => pstore_cur out;; PreallocatedBuffer.advance_offset (zlen out)
    end.

Definition zstd_overhead (n : Z) : res Z := Ok (u64 (ZSTD_compressBound L n - n)).

(** ** LZ4, with its [int] sizes *)

Definition lz4_compress (level : Z) (input : ConstBuffer.t) : M Buffer.t unit :=
  b ← get;
  if is_null (ConstBuffer.data_ input) || is_null (Buffer.data_ b) then
    compression_error "Failed compressing with LZ4; invalid buffer format"
  else
    free ← lift (Buffer.free_space b);
    let '(ret, out) := LZ4_compress_default L (block (ConstBuffer.data_ input))
                         (conv I32 (ConstBuffer.size_ input)) (conv I32 free) in
    store_cur out;;
    if ret <? 0 then compression_error "LZ4 compression failed" else advance ret.

Definition lz4_decompress (input : ConstBuffer.t) : M PreallocatedBuffer.t unit :=
  p ← get;
  if is_null (ConstBuffer.data_ input) || is_null (PreallocatedBuffer.data_ p) then
    compression_error "Failed decompressing with LZ4; invalid buffer format"
  else
    let '(ret, out) := LZ4_decompress_safe L (block (ConstBuffer.data_ input))
                         (conv I32 (ConstBuffer.size_ input)) (conv I32 (PreallocatedBuffer.free_space p)) in
    pstore_cur out;;
    if ret <? 0 then compression_error "LZ4 decompression failed"
    else PreallocatedBuffer.advance_offset ret.

Definition lz4_overhead (n : Z) : res Z :=
  h ← f_ceil F64 (fdiv F64 (double_of n) (double_of 2));
  h ← in_range I32 (Ok h);
  Ok (u64 (2 * u64 (LZ4_compressBound L h) - n)).

(** ** BZip *)

Definition BZ_OK : Z := 0.
Definition BZ_PARAM_ERROR : Z := -2.
Definition BZ_MEM_ERROR : Z := -3.
Definition BZ_DATA_ERROR : Z := -4.
Definition BZ_DATA_ERROR_MAGIC : Z := -5.
Definition BZ_UNEXPECTED_EOF : Z := -7.
Definition BZ_OUTBUFF_FULL : Z := -8.
Definition BZ_CONFIG_ERROR : Z := -9.

Definition bzip_compress_message (rc : Z) : string :=
  if rc =? BZ_CONFIG_ERROR then "BZip compression error: library has been miscompiled"
  else if rc =? BZ_PARAM_ERROR then
    "BZip compression error: 'output_buffer' or 'output_buffer_size' is NULL"
  else if rc =? BZ_MEM_ERROR then "BZip compression error: insufficient memory"
  else if rc =? BZ_OUTBUFF_FULL then
    "BZip compression error: compressed size exceeds limits for 'output_buffer_size'"
  else "BZip compression error: unknown error code".

Definition bzip_decompress_message (rc : Z) : string :=
  if rc =? BZ_CONFIG_ERROR then "BZip decompression error: library has been miscompiled"
  else if rc =? BZ_PARAM_ERROR then
    "BZip decompression error: 'output_buffer' or 'output_buffer_size' is NULL"
  else if rc =? BZ_MEM_ERROR then "BZip decompression error: insufficient memory"
  else if (rc =? BZ_DATA_ERROR) || (rc =? BZ_DATA_ERROR_MAGIC) || (rc =? BZ_UNEXPECTED_EOF) then
    "BZip decompression error: compressed data is corrupted"
  else "BZip decompression error: unknown error code ".

Definition bzip_compress (level : Z) (input : ConstBuffer.t) : M Buffer.t unit :=
  b ← get;
  if is_null (ConstBuffer.data_ input) || is_null (Buffer.data_ b) then
    compression_error "Failed compressing with BZip; invalid buffer format"
  else
    x ← lift (input_bytes input (conv U32 (ConstBuffer.size_ input)));
    free ← lift (Buffer.free_space b);
    let '(rc, out) := BZ2_bzBuffToBuffCompress L (if level <? 1 then 1 else level) (conv U32 free) x in
    store_cur out;;
    if negb (rc =? BZ_OK) then compression_error (bzip_compress_message rc) else advance (zlen out).

Definition bzip_decompress (input : ConstBuffer.t) : M PreallocatedBuffer.t unit :=
  p ← get;
  if is_null (ConstBuffer.data_ input) || is_null (PreallocatedBuffer.data_ p) then
    compression_error "Failed decompressing with BZip; invalid buffer format"
  else
    x ← lift (input_bytes input (conv U32 (ConstBuffer.size_ input)));
    let '(rc, out) := BZ2_bzBuffToBuffDecompress L (conv U32 (PreallocatedBuffer.free_space p)) x in
    pstore_cur out;;
    if negb (rc =? BZ_OK) then compression_error (bzip_decompress_message rc)
    else PreallocatedBuffer.advance_offset (zlen out).

(** [ceil(n * 0.01) + 600], in [double]; the constant is 0.01. *)
Definition bzip_overhead (n : Z) : res Z :=
  c ← f_ceil F64 (fmul F64 (double_of n) 4576918229304087675);
  in_range U64 (f_trunc F64 (fadd F64 (double_of c) (double_of 600))).
End Wrappers.

(** ** One interface *)

Record Codec : Type := mkCodec {
  codec_compress : ConstBuffer.t → M Buffer.t unit;
  codec_decompress : ConstBuffer.t → M PreallocatedBuffer.t unit;
  codec_overhead : Z → res Z
}.

Definition dd_decompress (type : Datatype) (input : ConstBuffer.t) : M PreallocatedBuffer.t unit := fun p =>
  let '(r, (_, p')) := DoubleDelta.decompress type (input, p) in (r, p').

(** The [switch] of the compression filter; none without compression. *)
Definition codec `{!Allocator} (L : Libraries) (t : tile_info) (level : Z) (c : Compressor) : option Codec :=
  match c with
  | COMP_NO_COMPRESSION => None
  | COMP_GZIP => Some (mkCodec (gzip_compress L level) (gzip_decompress L) gzip_overhead)
  | COMP_ZSTD => Some (mkCodec (zstd_compress L level) (zstd_decompress L) (zstd_overhead L))
  | COMP_LZ4 => Some (mkCodec (lz4_compress L level) (lz4_decompress L) (lz4_overhead L))
  | COMP_RLE => Some (mkCodec (RLE.compress (cell_size t)) (RLE.decompress (cell_size t))
                        (λ n, RLE.overhead n (cell_size t)))
  | COMP_BZIP2 => Some (mkCodec (bzip_compress L level) (bzip_decompress L) bzip_overhead)
  | COMP_DOUBLE_DELTA => Some (mkCodec (DoubleDelta.compress (tile_type t)) (dd_decompress (tile_type t))
                        (λ n, Ok (DoubleDelta.overhead n)))
  end.
