(* ===== verification/Compression.v ===== *)
(** * CompressionFilter (filter/compression_filter.cc)

    [run_forward] compresses the parts of the metadata and of the data, one
    after the other, into one buffer; the new metadata are the numbers of parts
    and the two sizes of each part.  [run_reverse] takes the parts apart again. *)

From stdpp Require Import functions.
From S2P Require Import Prelude.
From S2P Require Import Enums.
From S2P Require Import ConstBuffer.
From S2P Require Import PreallocatedBuffer.
From S2P Require Import Buffer.
From S2P Require Import FilterBuffer.
From S2P Require Import FilterIO.
From S2P Require Import FilterWrite.
From S2P Require Import FilterViews.
From S2P Require Import FilterRun.
From S2P Require Import FilterSpec.
From S2P Require Import FilterShuffle.
From S2P Require Import PipelineProofs.
From S2P Require Import FilterFixed.
From S2P Require Import Codecs.
Local Open Scope Z_scope.

Section Model.
Context `{!Allocator}.

Definition compress_part (C : Codec) (output : nat) (part : ConstBuffer.t) : M Store unit :=
  let input_buffer := ConstBuffer.make (ConstBuffer.data_ part) (ConstBuffer.size_ part) in
  b ← on_ptr output get;
  let orig_size := conv U32 (Buffer.size_ b) in
  on_ptr output (codec_compress C input_buffer);;
  b ← on_ptr output get;
  if tmax U32 <? Buffer.size_ b then fail SC_Filter "Compressed output exceeds uint32 max."
  else
    let input_size := conv U32 (ConstBuffer.size_ part) in
    let compressed_size := conv U32 (conv U32 (Buffer.size_ b) - orig_size) in
    write_value output_metadata U32 input_size;;
    write_value output_metadata U32 compressed_size.

(** [for (const auto& part : parts) output_size_ub += part.size() + overhead(part.size())]. *)
Fixpoint size_bound (C : Codec) (parts : list ConstBuffer.t) (output_size_ub : Z) : res Z :=
  match parts with
  | [] => Ok output_size_ub
  | p :: parts =>
      o ← codec_overhead C (ConstBuffer.size_ p);
      size_bound C parts (u64 (output_size_ub + u64 (ConstBuffer.size_ p + o)))
  end.

Definition compress_all (C : Codec) : M Store unit :=
  sz ← size input_data;
  if tmax U32 <? sz then fail SC_Filter "Input is too large to be compressed."
  else
    data_parts ← buffers input_data;
    metadata_parts ← buffers input_metadata;
    let num_data_parts := conv U32 (zlen data_parts) in
    let num_metadata_parts := conv U32 (zlen metadata_parts) in
    let total_num_parts := conv U32 (num_data_parts + num_metadata_parts) in
    ub ← lift (size_bound C metadata_parts 0);
    output_size_ub ← lift (size_bound C data_parts ub);
    prepend_buffer output_data output_size_ub;;
    buffer_ptr ← first_ptr output_data;
    on_ptr buffer_ptr Buffer.reset_offset;;
    let metadata_size := 2 * 4 + conv U32 (total_num_parts * 2) * 4 in
    prepend_buffer output_metadata metadata_size;;
    write_value output_metadata U32 num_metadata_parts;;
    write_value output_metadata U32 num_data_parts;;
    for_each (compress_part C buffer_ptr) metadata_parts;;
    for_each (compress_part C buffer_ptr) data_parts.

(** The codec's output goes to the memory from [cur_data()] on.  The status is
    the result: what follows runs whatever it is. *)
Definition decompress_into (C : Codec) (input : ConstBuffer.t) (n : Z) : M Buffer.t (res unit) := fun b =>
  let off := Z.to_nat (Buffer.offset_ b) in
  let '(st, p) := codec_decompress C input (PreallocatedBuffer.make (drop off <$> Buffer.data_ b) n) in
  let d := match Buffer.data_ b, PreallocatedBuffer.data_ p with
           | Some d, Some x => Some (take off d ++ x)
           | o, _ => o
           end in
  let b' := Buffer.mk (alloced_size_ b) d (Buffer.offset_ b) (owns_data_ b) (Buffer.size_ b) in
  match st with UB => (UB, b') | st => (Ok st, b') end.

Definition decompress_part (C : Codec) (output : nat) : M Store unit :=
  uncompressed_size ← read_value input_metadata U32;
  compressed_size ← read_value input_metadata U32;
  b ← on_ptr output get;
  (if owns_data_ b then on_ptr output (Buffer.realloc (u64 (alloced_size_ b + uncompressed_size)))
   else if Buffer.size_ b <? u64 (Buffer.offset_ b + uncompressed_size) then
     fail SC_Filter "CompressionFilter error; output buffer too small."
   else mret ());;
  input_buffer ← get_const_buffer input_data compressed_size;
  st ← on_ptr output (decompress_into C input_buffer uncompressed_size);
  on_ptr output (advance_output uncompressed_size);;
  advance_offset input_data compressed_size;;
  lift st.

Definition decompress_all (C : Codec) : M Store unit :=
  num_metadata_parts ← read_value input_metadata U32;
  num_data_parts ← read_value input_metadata U32;
  prepend_buffer output_data 0;;
  data_buffer ← first_ptr output_data;
  prepend_buffer output_metadata 0;;
  metadata_buffer ← first_ptr output_metadata;
  repeat_m (Z.to_nat num_metadata_parts) (decompress_part C metadata_buffer);;
  repeat_m (Z.to_nat num_data_parts) (decompress_part C data_buffer).

(** [run_forward] and [run_reverse]; without a compressor the outputs are views
    of the inputs. *)
Definition compression_forward (L : Libraries) (t : tile_info) (level : Z) (c : Compressor) : M Store unit :=
  match codec L t level c with None => pass_through | Some C => compress_all C end.

Definition compression_reverse (L : Libraries) (t : tile_info) (level : Z) (c : Compressor) : M Store unit :=
  match codec L t level c with None => pass_through | Some C => decompress_all C end.
End Model.

(** ** The filter restores its input

    [inverts C x]: what the codec [C] compresses [x] to, it decompresses to [x].
    Proved against this interface, [decompress_all] undoes [compress_all],
    whatever the number and the sizes of the parts. *)

(** ** The interface of a codec *)

(** [decompress] turns [z] into [x], in a block at least as long as [x], whose
    rest it keeps. *)
Definition inflates (C : Codec) (z x : list Z) : Prop := ∀ c d, const_holds c z → zlen x ≤ zlen d →
  zlen d < 2 ^ 64 → ∃ p, codec_decompress C c (PreallocatedBuffer.make (Some d) (zlen x)) = (Ok (), p) ∧
    PreallocatedBuffer.data_ p = Some (x ++ drop (length x) d).

Definition squeezed (C : Codec) (x z : list Z) : Prop := z ≠ [] ∧ inflates C z x.

Definition inverts (C : Codec) (x : list Z) : Prop := ∀ c b y b', const_holds c x → holds b y →
  zlen y < 2 ^ 32 → codec_compress C c b = (Ok (), b') → ∃ z, holds b' (y ++ z) ∧ squeezed C x z.

(** What the filter needs of its codec; [ok] is the set of parts the codec
    restores. *)
Record codec_laws (C : Codec) (ok : list Z → bool) : Prop := {
  laws_inverts : ∀ x, ok x = true → x ≠ [] → Forall byte_ok x → zlen x < 2 ^ 28 → inverts C x;
  laws_overhead : ∀ n o, 0 ≤ n < 2 ^ 28 → codec_overhead C n = Ok o → 0 ≤ o ≤ 4 * n + 2 ^ 20;
  laws_keeps : ∀ c p r p', codec_decompress C c p = (r, p') →
    zlen (block (PreallocatedBuffer.data_ p')) = zlen (block (PreallocatedBuffer.data_ p))
}.

(** ** Forward *)

Lemma pwriter_holds st n id zs cap : good st → pwriter st n id true zs cap →
  ∃ b l, owner st n id b l ∧ holds b zs.
Proof.
  intros Hg (b & l & Ho & Hs & Hoff). exists b, l. split; [done|].
  pose proof (owner_ok _ _ _ _ _ Hg Ho) as (Hs1 & Hs2 & Hby & Hal).
  pose proof (stores_contents _ _ _ _ Hs (or_introl eq_refl)) as Hc. destruct Hs as (_ & _ & Hob & Hsz).
  specialize (Hal Hob). unfold holds, wf. split_and!; done || lia.
Qed.

Lemma holds_buf_ok b zs : holds b zs → zlen zs < 2 ^ 63 → buf_ok b.
Proof.
  intros Hh Hz. pose proof (holds_size _ _ Hh) as Hsz. destruct Hh as ((_ & Hal & Ho & Hs & Ha & Hby) & _ & _).
  unfold buf_ok. split_and!; done || lia.
Qed.

Lemma holds_pwriter st n id b l zs : owner st n id b l → holds b zs → zlen zs < 2 ^ 63 →
  pwriter st n id true zs (zlen zs).
Proof.
  intros Ho Hh Hz. pose proof (holds_size _ _ Hh) as Hsz. pose proof (holds_offset _ _ Hh) as Hoff.
  destruct Hh as ((Hob & Hal & H1 & H2 & H3 & _) & _ & Hc).
  exists b, l. split_and!; try done. unfold stores, capacity. rewrite Hob. split_and!; try done; [|lia..].
  rewrite <- Hc. apply contents_prefix.
Qed.

Lemma on_ptr_eq {A} st n id b l (m : M Buffer.t A) r b' : owner st n id b l → m b = (r, b') →
  on_ptr id m st = (r, with_heap st (<[id := b']> (heap st))).
Proof.
  intros (_ & Hr & Hb & _) Hm. unfold on_ptr. rewrite Hr, Nat.eqb_refl. by apply (on_heap_eq _ _ _ b).
Qed.

Lemma on_ptr_get st n id b l : owner st n id b l → on_ptr id get st = (Ok b, st).
Proof.
  intros Ho. rewrite (on_ptr_eq st n id b l get (Ok b) b Ho eq_refl). destruct Ho as (_ & _ & Hb & _).
  rewrite list_insert_id by done. by destruct st.
Qed.

Lemma owner_insert st n id b l b' : owner st n id b l → owner (with_heap st (<[id := b']> (heap st))) n id b' l.
Proof.
  intros (H1 & H2 & H3 & H4). split_and!; try done. simpl. apply list_lookup_insert_eq. by eapply lookup_lt_Some.
Qed.

(** The sizes of the parts, as the metadata list them. *)
Definition part_sizes (xs zs : list (list Z)) : list Z :=
  concat (zip_with (λ x z, to_bytes U32 (zlen x) ++ to_bytes U32 (zlen z)) xs zs).

Section Forward.
Context (C : Codec).

Lemma compress_part_spec id p x st st' ys capm zs cap : const_holds p x → inverts C x → zlen x < 2 ^ 32 → good st →
  writer st output_metadata true ys capm → pwriter st output_data id true zs cap → zlen zs < 2 ^ 32 →
  zlen ys + 8 ≤ capm → compress_part C id p st = (Ok (), st') →
  ∃ z cap', squeezed C x z ∧ good st' ∧ zlen (zs ++ z) < 2 ^ 32 ∧
    writer st' output_metadata true (ys ++ to_bytes U32 (zlen x) ++ to_bytes U32 (zlen z)) capm ∧
    pwriter st' output_data id true (zs ++ z) cap' ∧ touch [output_metadata; output_data] st st' ∧
    tail (fbbytes st' output_metadata) = tail (fbbytes st output_metadata) ∧
    tail (fbbytes st' output_data) = tail (fbbytes st output_data).
Proof.
  intros Hp Hinv Hx Hg Hw Hpw Hzs Hcap E. destruct (pwriter_holds _ _ _ _ _ Hg Hpw) as (b & l & Ho & Hh).
  pose proof Hp as (_ & Hsz & Hpre & Hx63). pose proof (zlen_nonneg x). pose proof (zlen_nonneg zs).
  unfold compress_part in E. rewrite (M_bind_eq _ _ _ _ _ (on_ptr_get _ _ _ _ _ Ho)) in E.
  destruct (codec_compress C (ConstBuffer.make (ConstBuffer.data_ p) (ConstBuffer.size_ p)) b) as [r b1] eqn:Ec.
  pose proof (on_ptr_eq st _ _ _ _ _ _ _ Ho Ec) as Ep. unfold mbind at 1, M_bind at 1 in E. rewrite Ep in E.
  destruct r as [[]| |]; [|done..].
  destruct (Hinv (ConstBuffer.make (ConstBuffer.data_ p) (ConstBuffer.size_ p)) b zs b1) as (z & Hh1 & Hsq); try done.
  pose proof (holds_size _ _ Hh1) as Hs1. pose proof (holds_size _ _ Hh) as Hs0. pose proof (zlen_nonneg z).
  rewrite (M_bind_eq _ _ _ _ _ (on_ptr_get _ _ _ _ _ (owner_insert _ _ _ _ _ b1 Ho))) in E. rewrite Hs1, Hs0, zlen_app in E.
  destruct (Z.ltb_spec (tmax U32) (zlen zs + zlen z)) as [|Hle]; [done|]. change (tmax U32) with (2 ^ 32 - 1) in Hle.
  rewrite Hsz, (u32_id (zlen x)), (u32_id (zlen zs)), (u32_id (zlen zs + zlen z)) in E by lia.
  replace (zlen zs + zlen z - zlen zs) with (zlen z) in E by lia. rewrite u32_id in E by lia.
  assert (zlen (zs ++ z) < 2 ^ 32) as Hzz by (rewrite zlen_app; lia).
  destruct (owner_upd st output_data id b l b1 Hg Ho) as (G1 & T1 & O1 & B1);
    [eapply (holds_buf_ok _ _ Hh1); lia|by destruct Hh as ((-> & _) & _), Hh1 as ((-> & _) & _)|].
  set (st1 := with_heap st (<[id:=b1]> (heap st))) in *.
  destruct (write_value_spec st1 output_metadata true ys U32 (zlen x) capm) as (st2 & E2 & G2 & T2 & W2 & B2);
    [done|frame|change (csize U32) with 4; lia|].
  destruct (write_value_spec st2 output_metadata true (ys ++ to_bytes U32 (zlen x)) U32 (zlen z) capm)
    as (st3 & E3 & G3 & T3 & W3 & B3); [done..|rewrite zlen_app, zlen_to_bytes; change (csize U32) with 4; lia|].
  rewrite (M_bind_eq _ _ _ _ _ E2), E3 in E. injection E as <-. rewrite <- app_assoc in W3.
  pose proof (holds_pwriter st1 output_data id b1 l _ O1 Hh1 ltac:(lia)) as P1.
  exists z, (zlen (zs ++ z)). split_and!; try done; [|chain| |].
  - eapply pwriter_touch; [eapply pwriter_touch; [done..|nin]|done|nin].
  - rewrite B3, B2. f_equal. frame.
  - rewrite <- B1. f_equal. transitivity (fbbytes st2 output_data); frame.
Qed.

Lemma compress_parts_spec id ps xs st st' ys capm zs cap : Forall2 const_holds ps xs → Forall (inverts C) xs →
  Forall (λ x, zlen x < 2 ^ 32) xs → good st → writer st output_metadata true ys capm →
  pwriter st output_data id true zs cap → zlen zs < 2 ^ 32 → zlen ys + 8 * zlen xs ≤ capm →
  for_each (compress_part C id) ps st = (Ok (), st') →
  ∃ us cap', Forall2 (squeezed C) xs us ∧ good st' ∧ zlen (zs ++ concat us) < 2 ^ 32 ∧
    writer st' output_metadata true (ys ++ part_sizes xs us) capm ∧
    pwriter st' output_data id true (zs ++ concat us) cap' ∧ touch [output_metadata; output_data] st st' ∧
    tail (fbbytes st' output_metadata) = tail (fbbytes st output_metadata) ∧
    tail (fbbytes st' output_data) = tail (fbbytes st output_data).
Proof.
  intros Hps. revert st ys zs cap. induction Hps as [|p x ps xs Hp Hps IH]; intros st ys zs cap Hi Hx Hg Hw Hpw Hz Hm E.
  { injection E as <-. exists [], cap. unfold part_sizes. simpl. rewrite !app_nil_r. split_and!; done. }
  apply Forall_cons in Hi as [Hi Hi'], Hx as [Hx Hx']. rewrite zlen_cons in Hm. pose proof (zlen_nonneg xs).
  simpl for_each in E. destruct (compress_part C id p st) as [[[]| |] st1] eqn:Ep;
    unfold mbind, M_bind in E; rewrite Ep in E; [|done..].
  destruct (compress_part_spec id p x st st1 ys capm zs cap) as (z & cap1 & S1 & G1 & Z1 & W1 & P1 & T1 & B1 & B1'); try done; [lia|].
  destruct (IH st1 _ (zs ++ z) cap1 Hi' Hx' G1 W1 P1 Z1) as (us & cap2 & S2 & G2 & Z2 & W2 & P2 & T2 & B2 & B2'); try done.
  { rewrite !zlen_app, !zlen_to_bytes. change (csize U32) with 4. lia. }
  exists (z :: us), cap2. simpl concat. unfold part_sizes in *. simpl zip_with. simpl concat. rewrite !app_assoc in *.
  split_and!; try done; [by constructor|chain|congruence..].
Qed.
End Forward.

Lemma size_bound_spec C ok ps xs a v : codec_laws C ok → Forall2 const_holds ps xs → 0 ≤ a →
  zlen (concat xs) < 2 ^ 28 → a + 5 * zlen (concat xs) + 2 ^ 20 * zlen xs < 2 ^ 63 → size_bound C ps a = Ok v →
  0 ≤ v ≤ a + 5 * zlen (concat xs) + 2 ^ 20 * zlen xs.
Proof.
  intros HC Hps. revert a. induction Hps as [|p x ps xs Hp Hps IH]; intros a Ha Hs Hb E.
  { injection E as <-. change (zlen (concat [])) with 0. change (zlen (@nil (list Z))) with 0. lia. }
  simpl in E, Hs, Hb |- *. rewrite zlen_app in Hs, Hb |- *. rewrite zlen_cons in Hb |- *.
  pose proof (zlen_nonneg x). pose proof (zlen_nonneg (concat xs)). pose proof (zlen_nonneg xs).
  destruct Hp as (_ & Hsz & _). rewrite Hsz in E. destruct (codec_overhead C (zlen x)) as [o| |] eqn:Eo; [|done..].
  cbn [mbind res_bind] in E. apply (laws_overhead _ _ HC) in Eo; [|lia]. rewrite !u64_id in E by (rewrite ?u64_id; lia).
  apply IH in E; lia.
Qed.

(** ** Reverse *)

(** The memory that [decompress_into] writes to. *)
Lemma decompress_into_spec C c z b o out cap x : buf_ok b → stores b o out cap → Buffer.offset_ b = zlen out →
  const_holds c z → inflates C z x → x ≠ [] → Forall byte_ok x → zlen out + zlen x ≤ cap →
  ∃ b1 b2, decompress_into C c (zlen x) b = (Ok (Ok ()), b1) ∧ advance_output (zlen x) b1 = (Ok (), b2) ∧
    buf_ok b1 ∧ buf_ok b2 ∧ owns_data_ b1 = owns_data_ b ∧ owns_data_ b2 = owns_data_ b ∧
    stores b2 o (out ++ x) cap ∧ Buffer.offset_ b2 = zlen (out ++ x).
Proof.
  intros Hok Hs Hoff Hc Hz Hx Hby Hfit. pose proof (zlen_pos x Hx). pose proof (zlen_nonneg out).
  destruct (overlaid_spec b o out x cap) as (b2 & E & K1 & K2 & W2 & S2 & O2); try done.
  destruct Hok as (Hs1 & Hs2 & _ & Hal), Hs as ((tl & Htl) & Hcap & _).
  assert (zlen out + zlen x ≤ zlen (block (data_ b))) as Hl.
  { unfold capacity in Hcap. destruct (owns_data_ b); [rewrite Hal by done|]; lia. }
  destruct (data_ b) as [d|] eqn:Ed; [|change (zlen (block None)) with 0 in Hl; lia]. simpl in Htl, Hl, Hs2. subst d.
  rewrite zlen_app in Hl, Hs2.
  destruct (Hz c tl Hc) as (p & Ep & Hp); [lia..|].
  eexists _, b2. split_and!; [|done..]. unfold decompress_into. rewrite Ed, Hoff. simpl.
  assert (Z.to_nat (zlen out) = length out) as -> by (unfold zlen; lia). rewrite drop_app_length, take_app_length.
  rewrite Ep, Hp. by rewrite (overlay_app _ out tl x) by (done || lia).
Qed.

Section Reverse.
Context `{!Allocator}.
Hypothesis Hmem : ¬ out_of_memory.

(** The room that is made for a part. *)
Lemma make_room st n id o out cap (x : list Z) : good st → pwriter st n id o out cap → (o = false → zlen out + zlen x ≤ cap) →
  zlen x < 2 ^ 32 → zlen out + zlen x < 2 ^ 62 →
  ∃ st' b cap', on_ptr id get st = (Ok b, st) ∧
    (if owns_data_ b then on_ptr id (Buffer.realloc (u64 (alloced_size_ b + zlen x)))
     else if Buffer.size_ b <? u64 (Buffer.offset_ b + zlen x) then
       fail SC_Filter "CompressionFilter error; output buffer too small."
     else mret ()) st = (Ok (), st') ∧
    good st' ∧ pwriter st' n id o out cap' ∧ zlen out + zlen x ≤ cap' ∧ (o = false → cap' = cap) ∧
    touch [n] st st' ∧ tail (fbbytes st' n) = tail (fbbytes st n).
Proof.
  intros Hg Hpw Ho Hx Hlt. pose proof Hpw as (b & l & Hb & Hs & Hoff). pose proof Hs as (Hpre & Hcap & Hob & Hsz).
  pose proof (zlen_nonneg x). pose proof (zlen_nonneg out). pose proof (owner_ok _ _ _ _ _ Hg Hb) as Hok.
  pose proof (on_ptr_get _ _ _ _ _ Hb) as Eg. destruct o.
  - pose proof Hok as (_ & Hbl & _ & Hal). specialize (Hal Hob). unfold capacity in Hcap. rewrite Hob in Hcap.
    assert (0 ≤ u64 (alloced_size_ b + zlen x) < 2 ^ 64) as Hu by (apply Z.mod_pos_bound; lia).
    destruct (realloc_spec Hmem b (u64 (alloced_size_ b + zlen x)) Hok Hob Hu)
      as (b1 & E1 & K1 & Ho1 & Ha1 & Hs1 & Hf1 & Hp1).
    destruct (on_ptr_owner st n id b l _ _ b1 Hg Hb E1 K1) as (st1 & E2 & G1 & T1 & O1 & B1 & F1); [congruence|].
    assert (zlen out + zlen x ≤ alloced_size_ b1) as Hroom.
    { destruct (Z_lt_ge_dec (alloced_size_ b + zlen x) (2 ^ 64)); [rewrite u64_id in Ha1 by lia; lia|].
      apply prefix_length in Hp1. destruct K1 as (_ & _ & _ & Hal1). specialize (Hal1 Ho1). unfold zlen in *. lia. }
    exists st1, b, (zlen out + zlen x). rewrite Hob. split_and!; try done.
    exists b1, l. split_and!; [done| |by rewrite Hf1]. unfold stores, capacity. rewrite Ho1.
    split_and!; try done; try lia. by etrans.
  - specialize (Ho eq_refl). destruct Hok as (Hsb & _). exists st, b, cap. rewrite Hob. split_and!; try done.
    rewrite Hoff, u64_id, Hsz by lia. by rewrite (proj2 (Z.ltb_ge _ _)) by lia.
Qed.

Lemma decompress_part_spec C n id o out cap st prem md pre dt x z : n = output_data ∨ n = output_metadata → good st →
  reader st input_metadata prem (to_bytes U32 (zlen x) ++ to_bytes U32 (zlen z) ++ md) →
  reader st input_data pre (z ++ dt) → pwriter st n id o out cap → (o = false → zlen out + zlen x ≤ cap) →
  squeezed C x z → x ≠ [] → Forall byte_ok x → zlen x < 2 ^ 32 → zlen z < 2 ^ 32 → zlen out + zlen x < 2 ^ 62 →
  ∃ st' cap', decompress_part C id st = (Ok (), st') ∧ good st' ∧
    reader st' input_metadata (prem ++ to_bytes U32 (zlen x) ++ to_bytes U32 (zlen z)) md ∧
    reader st' input_data (pre ++ z) dt ∧ pwriter st' n id o (out ++ x) cap' ∧ (o = false → cap' = cap) ∧
    touch [n; input_metadata; input_data] st st' ∧ tail (fbbytes st' n) = tail (fbbytes st n).
Proof.
  intros Hn Hg Hm Hd Hpw Ho [Hz Hinf] Hx Hby Hxl Hzl Hlt. pose proof (zlen_nonneg x). pose proof (zlen_nonneg z).
  assert ((n ∉ [input_metadata]) ∧ (n ∉ [input_data]) ∧ (input_metadata ∉ [n]) ∧ (input_data ∉ [n])) as (N1 & N2 & N3 & N4)
    by (destruct Hn as [->| ->]; split_and!; nin).
  destruct (read_value_spec st input_metadata prem U32 (zlen x) (to_bytes U32 (zlen z) ++ md)) as (st1 & E1 & G1 & T1 & R1);
    try done; [unfold_ctype; lia|].
  destruct (read_value_spec st1 input_metadata (prem ++ to_bytes U32 (zlen x)) U32 (zlen z) md) as (st2 & E2 & G2 & T2 & R2);
    try done; [unfold_ctype; lia|]. rewrite <- app_assoc in R2.
  assert (pwriter st2 n id o out cap) as Hp2 by (eapply pwriter_touch; [eapply pwriter_touch; [done..]|done..]).
  destruct (make_room st2 n id o out cap x G2 Hp2 Ho Hxl Hlt) as (st3 & b & cap3 & E3 & E4 & G4 & P4 & C4 & Cf & T4 & B4).
  assert (reader st3 input_data pre (z ++ dt)) as R4.
  { eapply reader_touch; [|exact T4|done]. eapply reader_touch; [|exact T2|nin]. eapply reader_touch; [done..|nin]. }
  destruct (get_const_buffer_spec st3 input_data pre z dt (zlen z)) as (d & E5 & Hdz & Hz63); try done.
  assert (const_holds (ConstBuffer.make (Some d) (zlen z)) z) as Hch by (split_and!; done).
  pose proof P4 as (b3 & l & O3 & S3 & F3). pose proof (owner_ok _ _ _ _ _ G4 O3) as K3.
  destruct (decompress_into_spec C (ConstBuffer.make (Some d) (zlen z)) z b3 o out cap3 x) as
    (b4 & b5 & E6 & E7 & K4 & K5 & W4 & W5 & S5 & F5); try done.
  destruct (on_ptr_owner st3 n id b3 l _ _ b4 G4 O3 E6 K4 W4) as (st4 & E8 & G5 & T5 & O5 & B5 & _).
  destruct (on_ptr_owner st4 n id b4 l _ _ b5 G5 O5 E7 K5) as (st5 & E9 & G6 & T6 & O6 & B6 & _); [congruence|].
  destruct (advance_offset_spec st5 input_data pre z dt (zlen z)) as (st6 & E10 & G7 & T7 & R7); try done.
  { eapply reader_touch; [|exact T6|done]. by eapply reader_touch. }
  exists st6, cap3. split_and!; try done.
  - unfold decompress_part. rewrite (M_bind_eq _ _ _ _ _ E1), (M_bind_eq _ _ _ _ _ E2), (M_bind_eq _ _ _ _ _ E3).
    rewrite (M_bind_eq _ _ _ _ _ E4), (M_bind_eq _ _ _ _ _ E5), (M_bind_eq _ _ _ _ _ E8), (M_bind_eq _ _ _ _ _ E9).
    by rewrite (M_bind_eq _ _ _ _ _ E10).
  - eapply reader_touch; [|exact T7|nin]. eapply reader_touch; [|exact T6|done]. eapply reader_touch; [|exact T5|done].
    by eapply reader_touch.
  - eapply pwriter_touch; [|exact T7|done]. by exists b5, l.
  - destruct Hn as [->| ->]; chain.
  - rewrite (touch_bytes _ _ _ _ T7 N2), B6, B5, B4. f_equal. transitivity (fbbytes st1 n); by eapply touch_bytes.
Qed.

Lemma decompress_parts_spec C n id o xs zs : n = output_data ∨ n = output_metadata → Forall2 (squeezed C) xs zs →
  Forall (.≠ []) xs → Forall (Forall byte_ok) xs → ∀ st out cap prem md pre dt, good st →
  reader st input_metadata prem (part_sizes xs zs ++ md) → reader st input_data pre (concat zs ++ dt) →
  pwriter st n id o out cap → (o = false → zlen out + zlen (concat xs) ≤ cap) →
  zlen out + zlen (concat xs) < 2 ^ 32 → zlen (concat zs) < 2 ^ 32 →
  ∃ st' cap', repeat_m (length xs) (decompress_part C id) st = (Ok (), st') ∧ good st' ∧
    reader st' input_metadata (prem ++ part_sizes xs zs) md ∧ reader st' input_data (pre ++ concat zs) dt ∧
    pwriter st' n id o (out ++ concat xs) cap' ∧ (o = false → cap' = cap) ∧
    touch [n; input_metadata; input_data] st st' ∧ tail (fbbytes st' n) = tail (fbbytes st n).
Proof.
  intros Hn Hsq. induction Hsq as [|x z xs zs Hxz Hsq IH]; intros Hne Hby st out cap prem md pre dt Hg Hm Hd Hp Hc Hl Hz.
  { exists st, cap. unfold part_sizes. simpl. rewrite !app_nil_r. split_and!; done. }
  apply Forall_cons in Hne as [Hx Hne], Hby as [Hbx Hby]. simpl in Hc, Hl, Hz. rewrite zlen_app in Hc, Hl, Hz.
  pose proof (zlen_nonneg x). pose proof (zlen_nonneg z). pose proof (zlen_nonneg out).
  pose proof (zlen_nonneg (concat xs)). pose proof (zlen_nonneg (concat zs)).
  unfold part_sizes in Hm. simpl in Hm, Hd. rewrite <- !app_assoc in Hm, Hd. fold (part_sizes xs zs) in Hm.
  destruct (decompress_part_spec C n id o out cap st prem (part_sizes xs zs ++ md) pre (concat zs ++ dt) x z)
    as (st1 & cap1 & E1 & G1 & M1 & D1 & P1 & C1 & T1 & B1); try done; try lia; [intros Ho; specialize (Hc Ho); lia|].
  destruct (IH Hne Hby st1 (out ++ x) cap1 _ md _ dt G1 M1 D1 P1) as (st2 & cap2 & E2 & G2 & M2 & D2 & P2 & C2 & T2 & B2).
  { intros Ho. rewrite zlen_app, C1 by done. specialize (Hc Ho). lia. }
  { rewrite zlen_app. lia. } { lia. }
  exists st2, cap2. unfold part_sizes. simpl. fold (part_sizes xs zs). rewrite !app_assoc in *. split_and!; try done.
  - by rewrite (M_bind_eq _ _ _ _ _ E1).
  - intros Ho. by rewrite C2, C1.
  - by eapply touch_trans.
  - congruence.
Qed.

Lemma zip_app xs ys us vs : length xs = length us → part_sizes (xs ++ ys) (us ++ vs) = part_sizes xs us ++ part_sizes ys vs.
Proof. intros. unfold part_sizes. by rewrite zip_with_app, concat_app. Qed.

Definition parts_header (mds ds zs : list (list Z)) : list Z :=
  to_bytes U32 (zlen mds) ++ to_bytes U32 (zlen ds) ++ part_sizes (mds ++ ds) zs.

Lemma decompress_all_reversible C mds ds zs : Forall2 (squeezed C) (mds ++ ds) zs → Forall (.≠ []) (mds ++ ds) →
  Forall (Forall byte_ok) (mds ++ ds) → zlen (concat mds) + zlen (concat ds) < 2 ^ 28 → zlen (concat zs) < 2 ^ 32 →
  reversible (decompress_all C) (parts_header mds ds zs) (concat zs) (concat mds) (concat ds).
Proof.
  intros Hsq Hne Hby Hl Hz st [Hg Hm Hd Hem Hout]. apply Forall2_app_inv_l in Hsq as (um & ud & Hsm & Hsd & ->).
  apply Forall_app in Hne as [Hnm Hnd], Hby as [Hbm Hbd]. rewrite concat_app, zlen_app in Hz.
  pose proof (zlen_nonneg (concat mds)). pose proof (zlen_nonneg (concat ds)). pose proof (parts_le_bytes _ Hnm).
  pose proof (parts_le_bytes _ Hnd). pose proof (zlen_nonneg mds). pose proof (zlen_nonneg ds).
  pose proof (zlen_nonneg (concat um)). pose proof (zlen_nonneg (concat ud)).
  unfold parts_header in Hm. rewrite zip_app in Hm by (by apply Forall2_length in Hsm).
  destruct (read_value_spec st input_metadata [] U32 (zlen mds) _ Hg Hm ltac:(unfold_ctype; lia)) as (st1 & E1 & G1 & T1 & R1).
  destruct (read_value_spec st1 input_metadata _ U32 (zlen ds) _ G1 R1 ltac:(unfold_ctype; lia)) as (st2 & E2 & G2 & T2 & R2).
  assert (out_ready st2 output_data (zlen (concat ds))) as Ho2 by (eapply out_ready_touch; [frame|done|nin]).
  destruct (rev_output Hmem st2 (zlen (concat ds)) 0 G2 Ho2) as (st3 & st4 & id & o & E3 & E4 & G4 & T4 & P4 & B4); [lia..|].
  assert (bufs st4 output_metadata = empty_fb) as He4.
  { rewrite <- Hem. transitivity (bufs st2 output_metadata); [frame|]. transitivity (bufs st1 output_metadata); frame. }
  destruct (fwd_output Hmem st4 output_metadata 0 G4 He4) as (st5 & st6 & im & E5 & E6 & G6 & T6 & P6%fresh_pwriter & B6); [lia|].
  assert (reader st6 input_data [] (concat (um ++ ud))) as D6.
  { eapply reader_touch; [|exact T6|nin]. eapply reader_touch; [|exact T4|nin]. eapply reader_touch; [|exact T2|nin]. frame. }
  rewrite concat_app in D6.
  assert (reader st6 input_metadata ([] ++ to_bytes U32 (zlen mds) ++ to_bytes U32 (zlen ds))
            (part_sizes mds um ++ part_sizes ds ud)) as M6.
  { rewrite <- app_assoc in R2. eapply reader_touch; [|exact T6|nin]. frame. }
  destruct (decompress_parts_spec C output_metadata im true mds um (or_intror eq_refl) Hsm Hnm Hbm st6 [] 0 _ _ [] _ G6 M6 D6 P6)
    as (st7 & capm & E7 & G7 & M7 & D7 & P7 & _ & T7 & B7); [done|change (zlen []) with 0; lia|lia|].
  rewrite <- (app_nil_r (part_sizes ds ud)) in M7. rewrite <- (app_nil_r (concat ud)) in D7.
  assert (pwriter st7 output_data id o [] (if o then 0 else zlen (concat ds))) as P7'.
  { eapply pwriter_touch; [|exact T7|nin]. eapply pwriter_touch; [exact P4|exact T6|nin]. }
  destruct (decompress_parts_spec C output_data id o ds ud (or_introl eq_refl) Hsd Hnd Hbd st7 [] _ _ [] _ [] G7 M7 D7 P7')
    as (st8 & cap & E8 & G8 & M8 & D8 & P8 & C8 & T8 & B8);
    [intros ->; change (zlen []) with 0; lia|change (zlen []) with 0; lia|lia|].
  exists st8. split.
  { unfold decompress_all. rewrite (M_bind_eq _ _ _ _ _ E1), (M_bind_eq _ _ _ _ _ E2), (M_bind_eq _ _ _ _ _ E3).
    rewrite (M_bind_eq _ _ _ _ _ E4), (M_bind_eq _ _ _ _ _ E5), (M_bind_eq _ _ _ _ _ E6).
    unfold zlen. rewrite !Nat2Z.id. by rewrite (M_bind_eq _ _ _ _ _ E7). }
  assert (pwriter st8 output_metadata im true (concat mds) capm) as P8m by (eapply pwriter_touch; [exact P7|exact T8|nin]).
  split; [done| |left|split; by eapply pwriter_ro].
  - rewrite (pwriter_bytes _ _ _ _ _ _ P8), B8; [|destruct o; [by left|right; rewrite C8 by done; done]].
    f_equal. rewrite <- B4. f_equal. transitivity (fbbytes st6 output_data); frame.
  - rewrite (pwriter_bytes _ _ _ _ _ _ P8m) by (by left). f_equal. rewrite <- B6, <- B7. f_equal. frame.
Qed.
End Reverse.

Lemma for_each_join {S A} (f : A → M S unit) l1 l2 s s' : (for_each f l1;; for_each f l2) s = (Ok (), s') →
  for_each f (l1 ++ l2) s = (Ok (), s').
Proof.
  revert s. induction l1 as [|x l1 IH]; intros s E; [done|]. simpl in *.
  unfold mbind, M_bind in E |- *. destruct (f x s) as [[[]| |] s1]; [|done..]. by apply IH.
Qed.

Lemma zlen_part_sizes xs zs : length xs = length zs → zlen (part_sizes xs zs) = 8 * zlen xs.
Proof.
  revert zs. induction xs as [|x xs IH]; intros [|z zs] Hl; try done. unfold part_sizes in *. simpl in *.
  rewrite !zlen_app, !zlen_to_bytes, zlen_cons, IH by lia. change (csize U32) with 4. lia.
Qed.

Lemma squeezed_nonempty C xs zs : Forall2 (squeezed C) xs zs → xs ≠ [] → concat zs ≠ [].
Proof. intros Hsq Hx. destruct Hsq as [|x z xs zs [Hz _] _]; [done|]. simpl. intros [? _]%app_eq_nil. done. Qed.

Lemma zlen_concat_le (xs : list (list Z)) : Forall (λ x, zlen x ≤ zlen (concat xs)) xs.
Proof.
  induction xs as [|x xs IH]; [done|]. simpl. rewrite zlen_app. pose proof (zlen_nonneg x).
  pose proof (zlen_nonneg (concat xs)). constructor; [lia|]. eapply Forall_impl; [done|]. simpl. lia.
Qed.

Section Whole.
Context `{!Allocator}.
Hypothesis Hmem : ¬ out_of_memory.

(** The numbers and the sizes computed before the first part is compressed. *)
Lemma compress_all_prologue C ok st st' : codec_laws C ok → fwd_ready st → compress_all C st = (Ok (), st') →
  let mds := fbbytes st input_metadata in let ds := fbbytes st input_data in
  ∃ mps dps ub st1 st2 id st3, Forall2 const_holds (mps ++ dps) (mds ++ ds) ∧ 0 ≤ ub < 2 ^ 63 ∧
    prepend_buffer output_data ub st = (Ok (), st1) ∧ first_ptr output_data st1 = (Ok id, st2) ∧
    on_ptr id Buffer.reset_offset st2 = (Ok (), st3) ∧ good st3 ∧ pwriter st3 output_data id true [] ub ∧
    touch [output_data] st st3 ∧ tail (fbbytes st3 output_data) = [] ∧
    (prepend_buffer output_metadata (8 * (1 + zlen mds + zlen ds));;
     write_value output_metadata U32 (zlen mds);;
     write_value output_metadata U32 (zlen ds);;
     for_each (compress_part C id) (mps ++ dps)) st3 = (Ok (), st').
Proof.
  intros HC [Hg Hmp Hdp Hd Hs Hem Heo] E mds ds. fold mds ds in Hmp, Hdp, Hd, Hs.
  pose proof (zlen_nonneg (concat mds)). pose proof (zlen_nonneg (concat ds)). pose proof (zlen_nonneg mds).
  pose proof (zlen_nonneg ds). pose proof (parts_le_bytes _ Hmp). pose proof (parts_le_bytes _ Hdp).
  destruct (buffers_spec st input_data Hg) as (dps & Ed & Hdps). destruct (buffers_spec st input_metadata Hg) as (mps & Em & Hmps).
  fold mds ds in Hdps, Hmps. unfold compress_all in E.
  rewrite (M_bind_eq _ _ _ _ _ (size_spec st input_data Hg ltac:(fold ds; lia))) in E. fold ds in E.
  rewrite (proj2 (Z.ltb_ge _ _)) in E by (change (tmax U32) with (2 ^ 32 - 1); lia).
  rewrite (M_bind_eq _ _ _ _ _ Ed), (M_bind_eq _ _ _ _ _ Em) in E.
  assert (zlen dps = zlen ds) as Hld by (unfold zlen; by rewrite (Forall2_length _ _ _ Hdps)).
  assert (zlen mps = zlen mds) as Hlm by (unfold zlen; by rewrite (Forall2_length _ _ _ Hmps)).
  rewrite Hld, Hlm, (u32_id (zlen ds)), (u32_id (zlen mds)), (u32_id (zlen ds + zlen mds)), (u32_id ((zlen ds + zlen mds) * 2))
    in E by lia.
  destruct (size_bound C mps 0) as [u1| |] eqn:E1; [|done..]. cbn [lift] in E. rewrite lift_bind in E.
  apply (size_bound_spec C ok _ _ _ _ HC Hmps) in E1; [|lia..].
  destruct (size_bound C dps u1) as [ub| |] eqn:E2; [|done..]. rewrite lift_bind in E.
  apply (size_bound_spec C ok _ _ _ _ HC Hdps) in E2; [|lia..].
  destruct (fwd_output Hmem st output_data ub) as (st1 & st2 & id & F1 & F2 & G2 & T2 & P2 & B2); [done..|lia|].
  destruct (fresh_reset st2 output_data id true ub G2 P2) as (st3 & F3 & G3 & T3 & P3%fresh_pwriter & B3).
  rewrite (M_bind_eq _ _ _ _ _ F1), (M_bind_eq _ _ _ _ _ F2), (M_bind_eq _ _ _ _ _ F3) in E.
  exists mps, dps, ub, st1, st2, id, st3. split_and!; try done; [by apply Forall2_app|lia|lia|chain|congruence|].
  replace (2 * 4 + (zlen ds + zlen mds) * 2 * 4) with (8 * (1 + zlen mds + zlen ds)) in E by lia.
  apply M_bind_inv in E as ([] & s1 & W1 & E). apply M_bind_inv in E as ([] & s2 & W2 & E).
  apply M_bind_inv in E as ([] & s3 & W3 & E). rewrite (M_bind_eq _ _ _ _ _ W1), (M_bind_eq _ _ _ _ _ W2).
  rewrite (M_bind_eq _ _ _ _ _ W3). by apply for_each_join.
Qed.

(** The numbers of parts, at the start of the new metadata. *)
Lemma header_spec (K : M Store unit) m d st st' : good st → bufs st output_metadata = empty_fb →
  0 ≤ m < 2 ^ 32 → 0 ≤ d < 2 ^ 32 →
  (prepend_buffer output_metadata (8 * (1 + m + d));; write_value output_metadata U32 m;;
   write_value output_metadata U32 d;; K) st = (Ok (), st') →
  ∃ st1, K st1 = (Ok (), st') ∧ good st1 ∧ touch [output_metadata] st st1 ∧
    writer st1 output_metadata true (to_bytes U32 m ++ to_bytes U32 d) (8 * (1 + m + d)) ∧
    tail (fbbytes st1 output_metadata) = [].
Proof.
  intros Hg He Hm Hd E.
  destruct (prepend_spec Hmem st output_metadata (8 * (1 + m + d))) as
    (st1 & im & b & E1 & G1 & T1 & O1 & S1 & Z1 & C1 & C1' & _ & B1); [done|lia|by rewrite He..|].
  assert (writer st1 output_metadata true [] (8 * (1 + m + d))) as W1.
  { exists im, b, (buffers_ (bufs st output_metadata)). split_and!; try done. by left. }
  destruct (write_value_spec st1 output_metadata true [] U32 m (8 * (1 + m + d)) G1 W1) as (st2 & E2 & G2 & T2 & W2 & B2);
    [change (csize U32) with 4; change (zlen []) with 0; lia|].
  destruct (write_value_spec st2 output_metadata true (to_bytes U32 m) U32 d (8 * (1 + m + d)) G2 W2)
    as (st3 & E3 & G3 & T3 & W3 & B3); [rewrite zlen_to_bytes; change (csize U32) with 4; lia|].
  rewrite (M_bind_eq _ _ _ _ _ E1), (M_bind_eq _ _ _ _ _ E2), (M_bind_eq _ _ _ _ _ E3) in E.
  exists st3. split_and!; try done; [chain|]. rewrite B3, B2, B1. unfold fbbytes. by rewrite He.
Qed.

Lemma compress_all_ok C ok st st' : codec_laws C ok → fwd_ready st →
  forallb ok (fbbytes st input_metadata ++ fbbytes st input_data) = true →
  compress_all C st = (Ok (), st') → forward_ok (decompress_all C) st st'.
Proof.
  intros HC Hr Hok E. destruct (compress_all_prologue C ok st st' HC Hr E)
    as (mps & dps & ub & st1 & st2 & id & st3 & Hps & Hub & F1 & F2 & F3 & G3 & P3 & T3 & B3 & E'). clear E.
  destruct Hr as [Hg Hmp Hdp Hd Hs Hem Heo]. set (mds := fbbytes st input_metadata) in *. set (ds := fbbytes st input_data) in *.
  assert (Forall (.≠ []) (mds ++ ds)) as Hne by (by apply Forall_app).
  assert (Forall (Forall byte_ok) (mds ++ ds)) as Hby by (apply Forall_app; split; by apply fbbytes_ok).
  assert (Forall (λ x, zlen x < 2 ^ 28) (mds ++ ds)) as Hsmall.
  { eapply Forall_impl; [apply zlen_concat_le|]. intros x. rewrite concat_app, zlen_app. simpl. lia. }
  pose proof (zlen_nonneg mds). pose proof (zlen_nonneg ds). pose proof (zlen_nonneg (concat mds)).
  pose proof (zlen_nonneg (concat ds)). pose proof (parts_le_bytes _ Hmp). pose proof (parts_le_bytes _ Hdp).
  apply header_spec in E' as (st6 & E & G6 & T6 & W6 & B6); [|done|rewrite <- Hem; frame|lia..].
  assert (pwriter st6 output_data id true [] ub) as P6 by frame.
  destruct (compress_parts_spec C id (mps ++ dps) (mds ++ ds) st6 st' (to_bytes U32 (zlen mds) ++ to_bytes U32 (zlen ds))
    (8 * (1 + zlen mds + zlen ds)) [] ub Hps) as
    (zs & cap & Hsq & G7 & Hz & W7 & P7 & T7 & B7 & B7'); try done.
  { rewrite !Forall_forall in *. intros x Hx. apply (laws_inverts _ _ HC); auto.
    rewrite forallb_forall in Hok. apply Hok. by apply list_elem_of_In. }
  { eapply Forall_impl; [done|]. simpl. lia. }
  { rewrite !zlen_app, !zlen_to_bytes. change (csize U32) with 4. lia. }
  assert (fbbytes st' output_data = [concat zs]) as Bo.
  { rewrite (pwriter_bytes _ _ _ _ _ _ P7) by (by left). simpl. f_equal. rewrite B7', <- B3. f_equal. frame. }
  assert (fbbytes st' output_metadata = [parts_header mds ds zs]) as Bm.
  { rewrite (writer_bytes _ _ _ _ _ W7) by (by left). unfold parts_header. by rewrite B7, B6, app_assoc. }
  apply (forward_ok_intro _ _ _ _ _ _ G7 Bm Bo); [done| | |by eapply writer_ro|by eapply pwriter_ro|].
  - intros Hnil. apply (f_equal zlen) in Hnil. unfold parts_header in Hnil. rewrite zlen_app, zlen_to_bytes in Hnil.
    pose proof (zlen_nonneg (to_bytes U32 (zlen ds) ++ part_sizes (mds ++ ds) zs)). change (zlen []) with 0 in Hnil.
    change (csize U32) with 4 in Hnil. lia.
  - eapply squeezed_nonempty; [done|]. intros [_ ?]%app_eq_nil. done.
  - simpl. rewrite app_nil_r. apply decompress_all_reversible; done.
Qed.
End Whole.

(** ** Fixed allocations *)

Lemma decompress_into_stable C ok c n : codec_laws C ok → buf_stable (decompress_into C c n).
Proof.
  intros HC b r b' E Ho. unfold decompress_into in E.
  destruct (codec_decompress C c _) as [st p] eqn:Ep. apply (laws_keeps _ _ HC) in Ep.
  assert (b' = Buffer.mk (alloced_size_ b) (match Buffer.data_ b, PreallocatedBuffer.data_ p with
           | Some d, Some x => Some (take (Z.to_nat (Buffer.offset_ b)) d ++ x) | o, _ => o end)
           (Buffer.offset_ b) (owns_data_ b) (Buffer.size_ b)) as -> by (destruct st; by injection E).
  simpl. split; [done|]. destruct (Buffer.data_ b) as [d|]; [|done].
  destruct (PreallocatedBuffer.data_ p) as [x|]; [|done]. simpl in *. unfold zlen in *.
  rewrite length_drop in Ep. rewrite length_app, length_take. lia.
Qed.

Lemma decompress_all_fixed `{!Allocator} C ok : codec_laws C ok → fixed_stable (decompress_all C).
Proof.
  intros HC. apply fixed_at_stable. intros L. pose proof (λ c n, decompress_into_stable C ok c n HC).
  unfold decompress_all. fixed; apply fx_repeat; unfold decompress_part, advance_output; fixed.
Qed.
