(* ===== verification/CodecLaws.v ===== *)
(** * The codecs keep the compression filter's contract

    RLE restores parts of whole cells, double-delta parts of whole values of
    magnitude at most [2^60].  For the codecs that wrap a library, the contract
    follows from what the library documents. *)

From S2P Require Import Prelude.
From S2P Require Import Enums.
From S2P Require Import Num.
From S2P Require Import ConstBuffer.
From S2P Require Import PreallocatedBuffer.
From S2P Require Import Buffer.
From S2P Require Import RLE.
From S2P Require Import DoubleDelta.
From S2P Require Import DoubleDeltaProofs.
From S2P Require Import FilterBuffer.
From S2P Require Import FilterRun.
From S2P Require Import FilterWrite.
From S2P Require Import FilterSpec.
From S2P Require Import Pipeline.
From S2P Require Import PipelineProofs.
From S2P Require Import FilterFixed.
From S2P Require Import Codecs.
From S2P Require Import Compression.
Local Open Scope Z_scope.

Lemma const_holds_make c x : const_holds c x → x ≠ [] →
  ∃ tl, c = ConstBuffer.make (Some (x ++ tl)) (zlen x).
Proof.
  intros (Ho & Hs & (tl & Htl) & _) Hx. exists tl. destruct c as [[d|] o n]; simpl in *; subst; [done|].
  symmetry in Htl. apply app_eq_nil in Htl as [-> _]. done.
Qed.

Lemma const_holds_view c x : const_holds c x → ConstBuffer.wf c ∧ ConstBuffer.view c = x.
Proof.
  intros (Ho & Hs & (tl & Htl) & Hl). pose proof (zlen_nonneg x). pose proof (zlen_nonneg tl).
  assert (zlen (block (ConstBuffer.data_ c)) = zlen x + zlen tl) as Hb by (by rewrite Htl, zlen_app).
  unfold ConstBuffer.wf, ConstBuffer.view. rewrite Ho, Hs, Htl. split.
  - rewrite zlen_app. split_and!; lia.
  - unfold slice. rewrite drop_0, Z.sub_0_r. unfold zlen. by rewrite Nat2Z.id, take_app_length.
Qed.

Lemma block_some p x tl : block (PreallocatedBuffer.data_ p) = x ++ tl → x ≠ [] →
  PreallocatedBuffer.data_ p = Some (x ++ tl).
Proof.
  destruct (PreallocatedBuffer.data_ p); simpl; [by intros ->|]. intros E%eq_sym%app_eq_nil ?. by destruct E.
Qed.

Lemma load_vals_inv T n : ∀ x xs, load_vals T x n = Ok xs → Forall byte_ok x → zlen x = Z.of_nat n * csize T →
  x = vals_bytes T xs ∧ Forall (in_ctype T) xs.
Proof.
  induction n as [|n IH]; intros x xs E Hby Hl; simpl in E.
  { injection E as <-. destruct x; [done|]. unfold zlen in Hl. simpl in Hl. lia. }
  assert (0 < csize T) by (by destruct T). rewrite memread_ok in E by lia. cbn [mbind res_bind] in E.
  destruct (load_vals T _ n) as [ys| |] eqn:Ey; [|done..]. injection E as <-.
  destruct (IH _ _ Ey) as [Hd Ht]; [by apply Forall_drop|unfold zlen in *; rewrite length_drop; lia|].
  unfold slice. rewrite drop_0. split; [|constructor; [apply of_bytes_in|done]].
  change (vals_bytes T (?a :: ys)) with (to_bytes T a ++ vals_bytes T ys).
  rewrite to_of_bytes, <- Hd, take_drop; [done|by apply Forall_take|]. unfold zlen in Hl. rewrite length_take. nia.
Qed.

Section Laws.
Context `{!Allocator}.

(** ** RLE *)

Definition rle_codec (k : Z) : Codec := mkCodec (RLE.compress k) (RLE.decompress k) (λ n, RLE.overhead n k).

Definition whole_cells (k : Z) (x : list Z) : bool := (0 <? k) && (zlen x mod k =? 0).

Lemma rle_inverts k x : whole_cells k x = true → x ≠ [] → Forall byte_ok x → zlen x < 2 ^ 28 → inverts (rle_codec k) x.
Proof.
  intros [Hk%Z.ltb_lt Hm%Z.eqb_eq]%andb_prop Hx Hby Hl c b y b' Hc Hb Hy E.
  destruct (const_holds_make c x Hc Hx) as (tl & ->).
  destruct (compress_cells k x tl Hk Hx Hby Hm) as (z & Hap & Hz & Hlz & Hex).
  assert (zlen x / k ≤ zlen x) by (apply Z.div_le_upper_bound; pose proof (zlen_nonneg x); nia).
  destruct (Hap b y Hb) as [(b1 & E1 & Hb1)|(_ & e & b1 & E1)]; [lia| |by simpl in E; rewrite E in E1].
  simpl in E. rewrite E in E1. injection E1 as <-. exists z. split; [done|]. split; [done|].
  intros c' d Hc' Hd Hd64. destruct (const_holds_make c' z Hc' Hz) as (tl' & ->). pose proof (zlen_nonneg x).
  assert (PreallocatedBuffer.wf (PreallocatedBuffer.make (Some d) (zlen x))) as Hwf by (split_and!; simpl; lia).
  destruct (Hex tl' _ Hwf) as (p & Ep & Hp); [simpl; lia|]. exists p. split; [done|].
  apply block_some; [|done]. by eapply (fills_block id _ _ _ p d (zlen x) x (rle_decompress_fills k _) Ep); [|lia..|].
Qed.

Lemma rle_laws k : 0 < k → codec_laws (rle_codec k) (whole_cells k).
Proof.
  intros Hk. split.
  - apply rle_inverts.
  - intros n o Hn E. simpl in E. unfold RLE.overhead in E. rewrite (proj2 (Z.eqb_neq _ _)) in E by lia. injection E as <-.
    assert (0 ≤ n / k ≤ n) by (split; [apply Z.div_pos|apply Z.div_le_upper_bound]; nia). rewrite u64_id by lia. lia.
  - intros c p r p' E. by apply (rle_decompress_fills k c p r p').
Qed.

(** ** Double delta *)

Definition dd_codec (type : Datatype) : Codec :=
  mkCodec (DoubleDelta.compress type) (dd_decompress type) (λ n, Ok (DoubleDelta.overhead n)).

Definition small_values (type : Datatype) (x : list Z) : bool :=
  match dd_type type with
  | None => false
  | Some T => (zlen x mod csize T =? 0) &&
      match load_vals T x (Z.to_nat (zlen x / csize T)) with
      | Ok xs => forallb (λ v, Z.abs v <=? 2 ^ 60) xs
      | _ => false
      end
  end.

Lemma encoded_nonempty T xs z : encoded T xs z → z ≠ [].
Proof.
  intros He Hn. assert (∃ n r, z = to_bytes U8 n ++ r) as (n & r & E) by (destruct He; eauto).
  rewrite Hn in E. apply (f_equal zlen) in E. rewrite zlen_app, zlen_to_bytes, zlen_nil in E.
  pose proof (zlen_nonneg r). change (csize U8) with 1 in E. lia.
Qed.

Lemma dd_inverts type x : small_values type x = true → x ≠ [] → Forall byte_ok x → zlen x < 2 ^ 28 →
  inverts (dd_codec type) x.
Proof.
  unfold small_values. destruct (dd_type type) as [T|] eqn:HT; [|done]. intros [Hm%Z.eqb_eq Hs]%andb_prop Hx Hby Hl.
  destruct (load_vals T x _) as [xs| |] eqn:El; [|done..].
  assert (0 < csize T ≤ 8) as Hc by (destruct T; simpl; lia).
  destruct (load_vals_inv T _ x xs El Hby) as (Hxs & Ht); 
    [pose proof (zlen_nonneg x); rewrite Z2Nat.id by (apply Z.div_pos; lia); pose proof (Z.div_mod (zlen x) (csize T)); lia|].
  assert (Forall DoubleDeltaProofs.small xs) as Hsm.
  { apply Forall_forall. intros v Hv. rewrite forallb_forall in Hs. apply Z.leb_le, Hs. by apply list_elem_of_In. }
  assert (zlen xs * csize T = zlen x) as Hzx by (by rewrite Hxs, zlen_vals_bytes).
  pose proof (zlen_nonneg xs). assert (xs ≠ []) as Hxs0 by (intros ->; by rewrite Hxs in Hx).
  intros c b y b' Hc' Hb Hy E. destruct (const_holds_make c x Hc' Hx) as (tl & ->).
  simpl in E. unfold DoubleDelta.compress in E. rewrite HT in E. rewrite Hxs in E.
  destruct (compress_t_spec T xs tl b y Hxs0 Ht Hsm ltac:(nia) Hb ltac:(lia))
    as [(b1 & ? & E1 & Hb1 & z & -> & Henc)|(_ & e & b1 & E1)]; [|by rewrite E in E1].
  rewrite E in E1. injection E1 as <-. exists z. split; [done|]. split; [by eapply encoded_nonempty|].
  intros c' d Hcz Hd Hd64. destruct (const_holds_view _ _ Hcz) as [Hwc Hv].
  assert (PreallocatedBuffer.wf (PreallocatedBuffer.make (Some d) (zlen x))) as Hwf by (split_and!; simpl; lia).
  destruct (decompress_t_spec T xs z c' _ Henc Ht Hsm ltac:(nia) Hwc Hv Hwf) as ([c2 p] & Ep & Hp); [simpl; lia|].
  exists p. assert (DoubleDelta.decompress type (c', PreallocatedBuffer.make (Some d) (zlen x)) = (Ok (), (c2, p))) as Ed
    by (unfold DoubleDelta.decompress; by rewrite HT).
  split; [simpl; unfold dd_decompress; by rewrite Ed|]. apply block_some; [|done]. rewrite <- Hxs in Hp.
  by eapply (fills_block snd _ _ _ (c2, p) d (zlen x) x (dd_decompress_fills type) Ed); [|lia..|].
Qed.

Lemma dd_laws type : codec_laws (dd_codec type) (small_values type).
Proof.
  split.
  - apply dd_inverts.
  - intros n o Hn [= <-]. unfold DoubleDelta.overhead, OVERHEAD. lia.
  - intros c p r p' E. simpl in E. unfold dd_decompress in E.
    destruct (DoubleDelta.decompress type (c, p)) as [r1 [c1 p1]] eqn:Ed. injection E as <- <-.
    by apply (dd_decompress_fills type _ _ _ Ed).
Qed.
End Laws.

(** ** The wrapper of zstd *)

Lemma store_advance b y z : holds b y → Forall byte_ok z → zlen y + zlen z ≤ alloced_size_ b →
  ∃ b', (store_cur z;; advance (zlen z)) b = (Ok (), b') ∧ holds b' (y ++ z).
Proof.
  intros Hh Hz Hfit. pose proof (holds_size _ _ Hh) as Hs. pose proof (holds_offset _ _ Hh) as Ho.
  pose proof (zlen_nonneg y). pose proof (zlen_nonneg z). destruct Hh as ((Hob & Hal & H1 & H2 & H3 & Hby) & _ & Hc).
  unfold store_cur, advance, mbind, M_bind, Buffer.advance_size, Buffer.advance_offset. rewrite Ho, memwrite_ok by lia.
  simpl. rewrite Hob. unfold with_size, with_offset. simpl. rewrite Hs, u64_id by lia.
  eexists. split; [done|].
  assert (zlen (overlay (zlen y) z (block (data_ b))) = zlen (block (data_ b))) as Hlo by (rewrite zlen_overlay; lia).
  split_and!; simpl; try done; try lia.
  - unfold wf. simpl. rewrite Hlo. split_and!; try done; try lia.
    unfold overlay. rewrite !Forall_app. split_and!; [by apply Forall_take|done|by apply Forall_drop].
  - unfold contents. simpl. rewrite slice_0_overlay by lia. unfold contents in Hc. rewrite Hs in Hc. by rewrite Hc.
Qed.

(** What zstd documents: decompression into room for the original restores it,
    and [ZSTD_compressBound]; and a context can be created. *)
Record zstd_documented (L : Libraries) : Prop := {
  zstd_restores : ∀ level cap x z, Forall byte_ok x → ZSTD_compressCCtx L level cap x = inr z →
    zlen z ≤ cap ∧ Forall byte_ok z ∧ z ≠ [] ∧ ZSTD_decompressDCtx L (zlen x) z = inr x;
  zstd_bound : ∀ n, 0 ≤ n < 2 ^ 28 → n ≤ ZSTD_compressBound L n ≤ 2 * n + 2 ^ 10;
  zstd_context : ZSTD_createDCtx L = true
}.

Definition zstd_codec (L : Libraries) (level : Z) : Codec :=
  mkCodec (zstd_compress L level) (zstd_decompress L) (zstd_overhead L).

Lemma pstore_keeps x p r p' : pstore_cur x p = (r, p') →
  zlen (block (PreallocatedBuffer.data_ p')) = zlen (block (PreallocatedBuffer.data_ p)).
Proof.
  unfold pstore_cur. destruct (memwrite _ _ _) as [d| |] eqn:E; intros [= <- <-]; [|done..]. by apply memwrite_length in E.
Qed.

Lemma zstd_decompress_ok L z x : zstd_documented L → ZSTD_decompressDCtx L (zlen x) z = inr x → z ≠ [] →
  x ≠ [] → zlen x < 2 ^ 28 → inflates (zstd_codec L 0) z x.
Proof.
  intros HL Hzx Hz Hx Hl c d Hc Hd Hd64. destruct (const_holds_make c z Hc Hz) as (tl & ->). pose proof (zlen_pos x Hx).
  simpl. unfold zstd_decompress, get, mbind, M_bind. simpl. rewrite (zstd_context _ HL). simpl.
  unfold input_bytes, lift. simpl. rewrite (memread_at _ _ _ [] z tl) by done.
  unfold PreallocatedBuffer.free_space. simpl. rewrite Z.sub_0_r, u64_id, Hzx by lia.
  unfold pstore_cur. simpl. rewrite memwrite_ok by lia. simpl. unfold PreallocatedBuffer.advance_offset. simpl.
  rewrite u64_id, Z.leb_refl by lia. eexists. split; [done|]. done.
Qed.

Lemma zstd_laws L level : zstd_documented L → codec_laws (zstd_codec L level) (λ _, true).
Proof.
  intros HL. split.
  - intros x _ Hx Hby Hl c b y b' Hc Hb Hy E. destruct (const_holds_make c x Hc Hx) as (tl & ->).
    pose proof (holds_size _ _ Hb) as Hs. pose proof Hb as ((_ & _ & _ & Hsz & Ha & _) & _).
    simpl in E. unfold zstd_compress, get, mbind, M_bind in E. simpl in E.
    destruct (is_null (data_ b)); [done|]. destruct (negb _); [done|]. simpl in E.
    unfold input_bytes, lift in E. simpl in E. rewrite (memread_at _ _ _ [] x tl) in E by done.
    unfold Buffer.free_space in E. rewrite (proj2 (Z.leb_le _ _)) in E by lia.
    destruct (ZSTD_compressCCtx L _ _ x) as [e|z] eqn:Ez; [done|].
    apply (zstd_restores _ HL) in Ez as (Hzl & Hzb & Hz & Hzx); [|done].
    destruct (store_advance b y z Hb Hzb) as (b1 & E1 & Hb1); [lia|]. unfold mbind, M_bind in E1. rewrite E in E1.
    injection E1 as <-. exists z. split; [done|]. split; [done|]. by apply (zstd_decompress_ok L z x HL).
  - intros n o Hn [= <-]. destruct (zstd_bound _ HL n Hn). rewrite u64_id by lia. lia.
  - intros c p r p' E. simpl in E. unfold zstd_decompress, get, mbind, M_bind in E.
    destruct (_ || _); [by injection E as <- <-|]. destruct (negb _); [by injection E as <- <-|].
    unfold lift in E. destruct (input_bytes c _) as [x| |]; [|by injection E as <- <-..].
    destruct (ZSTD_decompressDCtx L _ x) as [e|out]; [by injection E as <- <-|].
    destruct (pstore_cur out p) as [r1 p1] eqn:Ep. apply pstore_keeps in Ep. rewrite <- Ep.
    destruct r1 as [[]| |]; [|by injection E as <- <-..]. unfold PreallocatedBuffer.advance_offset in E.
    destruct (_ <=? _); by injection E as <- <-.
Qed.
