(* ===== verification/FilterInstances.v ===== *)
(** * The filters of a pipeline

    Every filter as a pipeline calls it, and the proof that it undoes itself,
    which is what the round trips of a tile rely on. *)

From S2P Require Import Prelude.
From S2P Require Import Enums.
From S2P Require Import ChunkedBuffer.
From S2P Require Import ChunkedProofs.
From S2P Require Import ChunkedGrowth.
From S2P Require Import ChunkedSpec.
From S2P Require Import ConstBuffer.
From S2P Require Import Buffer.
From S2P Require Import Tile.
From S2P Require Import FilterBuffer.
From S2P Require Import FilterRun.
From S2P Require Import FilterSpec.
From S2P Require Import FilterShuffle.
From S2P Require Import FilterDelta.
From S2P Require Import FilterWidth.
From S2P Require Import Pipeline.
From S2P Require Import PipelineProofs.
From S2P Require Import PipelineFormat.
From S2P Require Import PipelineRoundtrip.
From S2P Require Import PipelineSkip.
From S2P Require Import FilterFixed.
From S2P Require Import PipelineTile.
From S2P Require Import Codecs.
From S2P Require Import Compression.
From S2P Require Import CodecLaws.
Local Open Scope Z_scope.

Section Instances.
Context `{HA : !Allocator}.

Definition noop_impl : FilterImpl := mkFilterImpl pass_through pass_through.
Definition byteshuffle_impl (t : tile_info) : FilterImpl :=
  mkFilterImpl (byteshuffle_forward t) (byteshuffle_reverse t).
Definition positive_delta_impl (t : tile_info) (max_window_size : Z) : FilterImpl :=
  mkFilterImpl (positive_delta_forward t max_window_size) (positive_delta_reverse t).
Definition bit_width_impl (uninit : Z) (t : tile_info) (max_window_size : Z) : FilterImpl :=
  mkFilterImpl (bit_width_forward uninit t max_window_size) (bit_width_reverse t).

Definition compression_impl (L : Libraries) (t : tile_info) (level : Z) (c : Compressor) : FilterImpl :=
  mkFilterImpl (compression_forward L t level c) (compression_reverse L t level c).

(** The filter on the parts that its codec restores. *)
Definition compression_stage (L : Libraries) (t : tile_info) (level : Z) (c : Compressor) (ok : list Z → bool) : Stage :=
  mkStage (compression_impl L t level c) (λ metadata data, forallb ok (metadata ++ data)).

(** Filters that take any input. *)
Definition any (f : FilterImpl) : Stage := mkStage f (λ _ _, true).

Lemma noop_lossless : lossless (any noop_impl).
Proof.
  split; [|apply pass_through_fixed]. intros st st' Hf _ E. destruct (pass_forward_ok st Hf) as (s & Es & Hs). simpl in *. congruence.
Qed.

Hypothesis Hmem : ¬ out_of_memory.

Lemma byteshuffle_lossless t : lossless (any (byteshuffle_impl t)).
Proof.
  split; [|apply byteshuffle_fixed]. intros st st' Hf _ E. destruct (byteshuffle_forward_ok Hmem t st Hf) as (s & Es & Hs).
  simpl in *. congruence.
Qed.

Lemma positive_delta_lossless t m : lossless (any (positive_delta_impl t m)).
Proof. split; [|apply positive_delta_fixed]. intros st st' Hf _ E. by apply (positive_delta_forward_ok Hmem t m). Qed.

Lemma bit_width_lossless uninit t m : tile_type t ≠ INT16 → (∀ T, int_type (tile_type t) = Some T → in_ctype T uninit) →
  lossless (any (bit_width_impl uninit t m)).
Proof. intros Ht Hu. split; [|apply bit_width_fixed]. intros st st' Hf _ E. by apply (bit_width_forward_ok Hmem uninit t m). Qed.

(** The compression filter, for every codec that keeps the contract. *)
Lemma codec_stage L t level c C ok : codec L t level c = Some C → codec_laws C ok →
  lossless (compression_stage L t level c ok).
Proof.
  intros Hc HC. unfold compression_stage, compression_impl, compression_forward, compression_reverse. rewrite Hc.
  split; simpl; [|by eapply decompress_all_fixed]. intros st st' Hf Ha E. by apply (compress_all_ok Hmem C ok).
Qed.
End Instances.

(** The parts that a compressor restores: RLE whole cells, double-delta whole
    values of magnitude at most [2^60], zstd anything. *)
Definition restores (t : tile_info) (c : Compressor) : list Z → bool :=
  match c with
  | COMP_RLE => whole_cells (cell_size t)
  | COMP_DOUBLE_DELTA => small_values (tile_type t)
  | _ => λ _, true
  end.


(** ** A tile of five [INT16] cells in three chunks *)

#[local] Existing Instance zero_allocator.

(** Libraries whose every call fails. *)
Definition no_libraries : Libraries :=
  mkLibraries (λ _, -2) (λ _ x _, (-2, zlen x, [])) (-2) (λ _ _, (-2, [])) false false (λ _ _ _, inl "") (λ _ _, inl "")
    id (λ _ _ _, (-1, [])) (λ _ _ _, (-1, [])) id (λ _ _ _, (-9, [])) (λ _ _, (-9, [])).

Definition sample_bytes : list Z := vals_bytes I16 [1; 2; 3; 5; 8].
Definition sample_filled : Mem * Chunks := snd (ChunkedBuffer.write sample_bytes 0 ([], sample_chunks)).
Definition sample_tile : Tile := mkTile (Some (snd sample_filled)) Buffer.empty 10 2 0 5 true 0 INT16.
Definition sample_pipeline : list Stage :=
  let t := mkTileInfo INT16 2 in
  [any noop_impl; any (positive_delta_impl t 1024); compression_stage no_libraries t (-1) COMP_DOUBLE_DELTA (small_values INT16);
   any (byteshuffle_impl t)].

Lemma sample_holds : tile_holds (fst sample_filled) sample_tile (snd sample_filled) sample_bytes.
Proof.
  destruct (chunked_write_spec zero_allocator_total [] sample_chunks sample_bytes 0) as (m & c & E & Hok & Hh & Hs & _).
  - apply sample_chunks_ok.
  - by vm_compute.
  - apply vals_bytes_ok.
  - done.
  - by vm_compute.
  - left. by vm_compute.
  - assert (sample_filled = (m, c)) as Es by (unfold sample_filled; by rewrite E).
    split; [done|rewrite Es; simpl..|done]; [done| |done]. by rewrite Hs.
Qed.

Lemma sample_lossless : Forall lossless sample_pipeline.
Proof.
  unfold sample_pipeline. simpl. rewrite !Forall_cons. pose proof zero_allocator_total as Hmem.
  split_and!; [apply noop_lossless|by apply positive_delta_lossless| |by apply byteshuffle_lossless|done].
  eapply codec_stage; [done|reflexivity|apply dd_laws].
Qed.

Lemma sample_admits : tile_admits sample_pipeline (snd sample_filled) sample_bytes.
Proof. split; [by vm_compute|]. apply Forall_forall. intros x Hx. vm_compute in Hx. repeat (apply elem_of_cons in Hx as [->|Hx]; [by vm_compute|]). by apply elem_of_nil in Hx. Qed.

Lemma tile_filter_roundtrip_witness : ∃ s1 s2,
  run_forward_tile (impl <$> sample_pipeline) (fst sample_filled, sample_tile) = (Ok (), s1) ∧
  run_reverse_fixed (impl <$> sample_pipeline) false None s1 = (Ok (), s2) ∧ read_at 10 0 s2 = (Ok sample_bytes, s2).
Proof.
  destruct (run_forward_tile (impl <$> sample_pipeline) (fst sample_filled, sample_tile)) as [r [m1 t1]] eqn:E.
  assert (r = Ok ()) as Hr by (vm_compute in E; congruence). rewrite Hr in *.
  destruct (tile_filter_roundtrip sample_pipeline false (fst sample_filled) sample_tile (snd sample_filled) sample_bytes m1 t1)
    as (m2 & t2 & E2 & E3).
  - apply zero_allocator_total.
  - apply sample_lossless.
  - apply sample_holds.
  - by vm_compute.
  - apply sample_admits.
  - reflexivity.
  - exact E.
  - exists (m1, t1), (m2, t2). split_and!; [reflexivity|exact E2|exact E3].
Defined.

Lemma tile_ranges_roundtrip_witness : ∃ s1 s2,
  run_forward_tile (impl <$> sample_pipeline) (fst sample_filled, sample_tile) = (Ok (), s1) ∧
  run_reverse_fixed (impl <$> sample_pipeline) false (Some [(1, 3)]) s1 = (Ok (), s2) ∧
  read_at 4 2 s2 = (Ok (vals_bytes I16 [2; 3]), s2).
Proof.
  destruct (run_forward_tile (impl <$> sample_pipeline) (fst sample_filled, sample_tile)) as [r [m1 t1]] eqn:E.
  assert (r = Ok ()) as Hr by (vm_compute in E; congruence). rewrite Hr in *.
  destruct (tile_ranges_roundtrip sample_pipeline false (fst sample_filled) sample_tile (snd sample_filled) sample_bytes m1 t1 [(1, 3)])
    as (m2 & t2 & E2 & E3).
  - apply zero_allocator_total.
  - apply sample_lossless.
  - apply sample_holds.
  - by vm_compute.
  - apply sample_admits.
  - reflexivity.
  - reflexivity.
  - exists 5. reflexivity.
  - vm_compute. repeat apply Forall_cons_2; [by exists 2|by exists 2|by exists 1|constructor].
  - exists 0. simpl. lia.
  - exact E.
  - exists (m1, t1), (m2, t2). split_and!; [reflexivity|exact E2|]. apply (E3 1 3); [by left|by vm_compute].
Defined.

(** ** Where the bit width reduction loses data *)


(** ** A library that stores *)

(** zstd, as far as the wrapper can tell: the bytes, after a mark. *)
Definition storing_libraries : Libraries :=
  mkLibraries (λ _, -2) (λ _ x _, (-2, zlen x, [])) (-2) (λ _ _, (-2, [])) true true
    (λ _ cap x, if zlen x + 1 <=? cap then inr (0 :: x) else inl "full")
    (λ _ z, inr (tail z)) (λ n, n + 1) (λ _ _ _, (-1, [])) (λ _ _ _, (-1, [])) id (λ _ _ _, (-9, [])) (λ _ _, (-9, [])).

Lemma storing_documented : zstd_documented storing_libraries.
Proof.
  split; simpl.
  - intros _ cap x z Hx E. destruct (Z.leb_spec (zlen x + 1) cap); [|done]. injection E as <-.
    rewrite zlen_cons. split_and!; [lia| |done..]. constructor; [|done]. unfold byte_ok. lia.
  - lia.
  - done.
Qed.


(** ** Where RLE loses metadata *)

(** RLE compresses nothing, without an error, when a part is shorter than a cell:
    [value_num] is 0.  After a byteshuffle the metadata are eight bytes; in cells
    of four [INT32] values they are dropped, and the tile comes back as whatever
    the memory held. *)
Theorem rle_drops_metadata :
  let t := mkTileInfo INT32 16 in
  let fs := [byteshuffle_impl t; compression_impl no_libraries t (-1) COMP_RLE] in
  let x := vals_bytes I32 [1; 2; 3; 4; 1; 2; 3; 4] in
  let s0 := snd ((init_unfiltered 5 INT32 32 16 0;; Tile.write x) ([], empty_tile)) in
  ∃ s1 s2, fst (read_at 32 0 s0) = Ok x ∧
    run_forward_tile fs s0 = (Ok (), s1) ∧ run_reverse_fixed fs false None s1 = (Ok (), s2) ∧
    fst (read_at 32 0 s2) = Ok (replicate 32 0).
Proof. eexists _, _. split_and!; [by vm_compute|vm_compute; reflexivity|vm_compute; reflexivity|by vm_compute]. Qed.
